(* ===== verification/_CoqProject ===== *)
-Q . S2P
Prelude.v
GoBig.v
GoStrings.v
GoSlice.v
BigNum.v
RlpTypes.v
RlpEncode.v
RlpEncodeSpec.v
RlpReader.v
RlpStream.v
RlpStreamSpec.v
RlpStreamInv.v
RlpShare.v
RlpDecode.v
RlpRoundTrip.v
RlpSafety.v
RlpRaw.v
GoBytes.v
Merkle.v
MerkleSpec.v
BitArray.v
BitArraySpec.v
MemCache.v
Base58.v
Db.v
DbSpec.v
Clist.v
ClistSpec.v
Service.v
ServiceSpec.v
GoBase64.v
PrimeCert.v
EdCurve.v
Field25519.v
LittleEndian.v
Fe.v
FeBytes.v
Ge.v
GeBytes.v
EdTables.v
EdTablesOk.v
GeBase.v
GeDouble.v
Sc.v
EdImpl.v
Sha2.v
Ed25519.v
EdSpec.v
Extra25519.v
Extra25519Spec.v
RlpClient.v
Tx.v
TxSpec.v
AminoTypes.v
AminoCodec.v
AminoBinary.v
AminoPrim.v
AminoReg.v
AminoRound.v
AminoTotal.v
AminoSpec.v
AminoKeys.v
KeyGen.v
GoText.v
Autofile.v
AutofileSpec.v
AutofileSearch.v
QueryPeg.v
Query.v
QuerySpec.v
PubSub.v
PubSubSpec.v
AbciWire.v
Abci.v
AbciSpec.v
AbciApps.v
AbciProps.v
GoWire.v
GoWireSpec.v
