(* ===== verification/Prelude.v ===== *)
(** * bclib: a verification of the chain's base library

    The repository is the base library of a block chain: a big-number type, the RLP serialisation of contract calls and
    transactions, signed transactions in three text formats, the cache that holds a block's state changes until they are
    committed, and the parts of Tendermint the chain runs on: Ed25519 signatures, Merkle trees, the codecs go-amino and
    go-wire, key-value databases, log files, services and events, subscriptions, and the ABCI connection to an application.
    This development models those parts and proves what their users rely on.

    ** How the parts interact

    A client builds a [types.Message] per contract call, whose parameters are RLP items; [WrapPayload] encodes a [Transaction]
    of messages with package [rlp]; [WrapTx] signs the encoding (package [ed25519] under [go-crypto]) and joins chain id,
    version, payload and signature in one text, in base 58 (v1, v2) or base 64 (v3).  A node runs [TxParse] on such texts from
    the network, so the RLP decoder and the text formats face arbitrary input.  Executing transactions writes through package
    [mc]; results are [bn.Number]s; blocks carry Merkle roots and bit arrays of votes.  Keys and signatures travel in the
    go-amino format.  The consensus engine reaches the application over the ABCI socket; both sides are services, keep their
    state in databases and their logs in groups of files, queue transactions in a concurrent list, and tell their clients
    about events through subscriptions with queries.

    ** Conventions

    - A Go byte or fixed-width integer is a [Z]; wrap-around is written out with [uN] and [sN].  A [[]byte] or string is a
      [list Z] whose elements satisfy [bytes_ok]; [bs] gives the bytes of a literal.  [int] has 64 bits.
    - Code that can fail returns [res]: a value, an error, a run-time panic, or [NoFuel] (the ABCI files use [option], where
      [None] is a panic or a step that has to wait).  Code that changes state returns the new state; where the code shares
      pointers (trail nodes of a Merkle proof, [*MemCache], list elements, event cells, map entries of the RLP decoder) the
      state includes a heap, and a pointer is an index in it.
    - A nil pointer, slice or map that the code tells apart is [None] or a constructor of its own.
    - Concurrent code is a step function or relation whose steps are what the code does under one lock, and the theorems are
      about every sequence of steps unless they say that calls do not overlap.
    - Code outside the repository is a parameter: RIPEMD-160, SHA3-256, btcutil's base 58, the protobuf runtime, encoding/json,
      the caller's [io.Writer], the random source, wallet files, applications.  What is relied on is a named hypothesis
      or the law of a class, and an instance shows that it can hold.
    - Go's standard library is modelled where used: GoBig ([math/big]), GoStrings ([strings]), GoSlice (slices, [copy]), GoBytes
      ([bytes.Compare], [sort.Sort], varints of [encoding/binary]), GoBase64 ([encoding/base64]), GoText ([strconv], dates,
      floating-point text, runes), Sha2 (SHA-256 and SHA-512).

    ** Files: values and RLP

    - BigNum: src/bn/bignumber.go.  [Number] with all its methods.  Division and remainder are Euclidean, [Sqrt] is the integer
      square root and its loop ends, signed bytes and JSON round trip.
    - RlpTypes: the Go types and values reflection sees, and the struct tags of src/rlp/typecache.go.
    - RlpEncode, RlpReader: src/rlp/encode.go.  [encbuf] with its deferred list headers, the writers, [EncodeToBytes], [Encode],
      [EncodeToReader].  RlpEncodeSpec: the buffer refines the compositional reference encoder [enc_val].  RlpReader: a writer
      that keeps its contract and a reader drained in pieces both receive the same bytes; the encoding of a map with
      string or integer keys does not depend on the iteration order.
    - RlpStream, RlpShare, RlpDecode: src/rlp/decode.go.  [Stream] (list stack, size limit, pending kind), the memory that the
      entries of a decoded map share, and the decoders.  RlpStreamSpec and RlpStreamInv hold the lemmas on well-formed and on
      arbitrary input.  RlpRoundTrip: decoding an encoding gives the value back.  RlpSafety: on any input the decoder
      returns a value or an error; its end shows the cases these theorems exclude, as defects on concrete values.
    - RlpRaw: src/rlp/raw.go.  [Split] accepts the canonical items and no others; [CountValues] counts them.
    - RlpClient: the class [RlpCoded] of Go struct types that survive the codec, against which the transaction theorems are
      proved.

    ** Files: signatures and transactions

    - PrimeCert, EdCurve, Field25519, LittleEndian: primality by certificate, the group law of the curve, the field, and byte
      arrays as numbers.
    - Fe, FeBytes, Ge, GeBytes, EdTables, EdTablesOk, GeBase, GeDouble, Sc: src/tendermint/ed25519/edwards25519.  The limb
      arithmetic at its width, the five representations of points, both tables (every entry checked), and the scalars.
      EdSpec: the operations compute in the field and in the group, within bounds that exclude overflow.
    - EdImpl, Ed25519: src/tendermint/ed25519/ed25519.go over the class [Edwards25519], which the model above implements.  [Verify]
      accepts what [Sign] makes, and exactly the solutions of the group equation with a scalar below 2^253.
    - Extra25519, Extra25519Spec: src/tendermint/ed25519/extra25519.  The representative of a key leads back to it.
    - Tx: src/tx/v1, src/tx/v2, src/tx/v3, the structs of src/types/types.go, [Sign] and [Verify] of src/sig, the ed25519 keys and
      addresses of src/tendermint/go-crypto.  TxSpec: parsing inverts wrapping (v2, v3) for one or two messages and refuses
      other numbers; a transaction that parses carries a signature that verifies over its payload.
    - AminoKeys, KeyGen: the go-amino format and the generators of the keys of src/tendermint/go-crypto.
    - Base58: src/tendermint/go-wire/data/base58/base58.go with its round trip.

    ** Files: codecs

    - AminoTypes, AminoCodec, AminoBinary: src/tendermint/go-amino.  Types and values, the primitive encoders and decoders,
      registration, and the binary codec by reflection.  AminoPrim, AminoReg, AminoRound, AminoTotal hold the lemmas;
      AminoSpec: the round trip up to a normal form, termination and when no panic can happen, and the registry.
    - GoWire, GoWireSpec: src/tendermint/go-wire.  The binary codec, its round trip up to a normal form, and where it is lax.

    ** Files: tmlibs and mc

    - Merkle: src/tendermint/tmlibs/merkle and src/tendermint/tmlibs/common/kvpair.go.  MerkleSpec: the proofs built verify; a
      proof that verifies is the one built for the leaf, when the strings it hashes do not collide with those of the
      tree; the hash of a map does not depend on the iteration order.
    - BitArray: src/tendermint/tmlibs/common/bit_array.go.  BitArraySpec: the operations against lists of booleans, the JSON round
      trip, and where [Or], [Sub] and [UnmarshalJSON] go wrong.
    - MemCache: src/mc/memcache.go.  The operations, their reachable states, and a specification without pointers that they
      refine.
    - Db: src/tendermint/tmlibs/db.  The interface as a class, the memory and the prefix database as instances.  DbSpec: its laws,
      which the memory database satisfies and the prefix database satisfies over any database that does.
    - Clist, ClistSpec: src/tendermint/tmlibs/clist.  The list refines a sequence, and no reader that waits is forgotten.
    - Service, ServiceSpec: src/tendermint/tmlibs/common/service.go and src/tendermint/tmlibs/events.  The life cycle of a service;
      the event switch as a table of callbacks.
    - Autofile, AutofileSpec, AutofileSearch: src/tendermint/tmlibs/autofile.  A group of files stores a stream, its readers
      give it back, and [Search] finds markers in it.
    - QueryPeg, Query, QuerySpec: src/tendermint/tmlibs/pubsub/query.  The generated parser accepts the grammar and no more, and a
      query matches as its text says.  PubSub, PubSubSpec: src/tendermint/tmlibs/pubsub/pubsub.go.  The server is a table of
      subscriptions.

    ** Files: ABCI

    - AbciWire: the messages of src/tendermint/abci/types, the oneof codecs and the framing.
    - Abci: the socket client and the socket server (src/tendermint/abci/client, src/tendermint/abci/server) as one step
      function, with the server's watchdog.  AbciSpec: its invariant and progress.  AbciApps: the example applications and the
      local client.  AbciProps: requests are answered in order, flushes complete, messages cross the wire, the example
      store is a map, the local client agrees with the socket server, and what the accept loop admits.

    ** Fuel

    Recursion that is not structural takes fuel computed from the input, and the theorems show that it is enough: they state
    results, so [NoFuel] is excluded.  The RLP decoding loops take the length of the unread input plus two, since each element
    and each nesting level takes a byte ([slice_elems] on [[1]byte] is the exception, and there the code itself loops).  The
    go-amino decoder takes fuel from the length of the input and the depth of the types; the go-wire theorem takes any
    fuel above the size of the value.  [Sqrt] uses a bound on its Newton steps; base 58 uses the bit length, varints their
    ten bytes; Merkle trees use the number of leaves, the trails the number of nodes; readers of log files the number of
    files.

    ** Not modelled

    Error texts, logging, and the [String] methods other than that of [bn].  RLP's hooks for types that encode themselves (no
    type has any).  Allocation beyond Go's limit is a panic.  The JSON formats of go-amino and go-wire, secp256k1 keys, the
    encrypted key base, bignumber_v1.0, hdwal, wal and algorithm, the remaining data structures of tmlibs, gRPC, and the
    code that is sockets, files, Docker, or generated data. *)

From Stdlib Require Export ZArith Lia Bool.
From stdpp Require Export base tactics list numbers strings.

#[export] Set Default Goal Selector "!".

Declare Scope go_scope.
Delimit Scope go_scope with go.
Open Scope Z_scope.

(** ** Results of Go code *)

(** What running a piece of Go code gives: a value, an [error] value of the
    caller's error type, a run-time panic, or (for loops modelled with fuel)
    no answer within the fuel given. *)
Inductive res (E A : Type) : Type :=
| Ok (a : A)
| Err (e : E)
| Panic
| NoFuel.
Arguments Ok {E A} a.
Arguments Err {E A} e.
Arguments Panic {E A}.
Arguments NoFuel {E A}.

Notation "'let*' p ':=' c 'in' k" :=
  (match c with
   | Ok p => k
   | Err e => Err e
   | Panic => Panic
   | NoFuel => NoFuel
   end)
  (at level 10, p pattern, c at level 100, k at level 200) : go_scope.
Open Scope go_scope.

Definition is_ok {E A} (r : res E A) : bool :=
  match r with Ok _ => true | _ => false end.

(** Sequencing the results of a list in order: the first failure wins. *)
Fixpoint res_all {E A} (rs : list (res E A)) : res E (list A) :=
  match rs with
  | [] => Ok []
  | r :: rs' => let* a := r in let* l := res_all rs' in Ok (a :: l)
  end.

(** ** Machine integers

    Integers are [Z]; a conversion to a [w]-bit unsigned or signed type wraps. *)
Definition uN (w : Z) (z : Z) : Z := z mod 2 ^ w.
Definition sN (w : Z) (z : Z) : Z := (z + 2 ^ (w - 1)) mod 2 ^ w - 2 ^ (w - 1).
Abbreviation u8 := (uN 8).
Abbreviation s8 := (sN 8).
Abbreviation u32 := (uN 32).
Abbreviation u64 := (uN 64).
Abbreviation s32 := (sN 32).
Abbreviation s64 := (sN 64).

Definition in_uN (w z : Z) : Prop := 0 <= z < 2 ^ w.
Definition in_sN (w z : Z) : Prop := - 2 ^ (w - 1) <= z < 2 ^ (w - 1).

(** Length of a slice as a Go [int]. *)
Definition zlen {A} (l : list A) : Z := Z.of_nat (length l).

Definition byte_ok (b : Z) : Prop := 0 <= b < 256.
Definition bytes_ok (bs : list Z) : Prop := Forall byte_ok bs.

(** ** Big-endian byte strings *)

Fixpoint be_acc (acc : Z) (bs : list Z) : Z :=
  match bs with
  | [] => acc
  | b :: bs' => be_acc (256 * acc + b) bs'
  end.

(** The value of big-endian bytes ([big.Int.SetBytes], [binary.BigEndian.UintN]). *)
Definition be_val (bs : list Z) : Z := be_acc 0 bs.

(** The [n] low bytes of [z], most significant first ([BigEndian.PutUintN]). *)
Fixpoint be_bytes (n : nat) (z : Z) : list Z :=
  match n with
  | O => []
  | S n' => be_bytes n' (z / 256) ++ [z mod 256]
  end.

(** Number of bytes of the magnitude of [z]; [big.Int.Bytes] returns that many. *)
Definition nbytes (z : Z) : nat :=
  if z <=? 0 then O else Z.to_nat (Z.log2 z / 8 + 1).

(** [big.Int.Bytes]: the absolute value, big endian, no leading zero byte. *)
Definition be_min (z : Z) : list Z := be_bytes (nbytes (Z.abs z)) (Z.abs z).

(** ** Tactics and hint databases of the development *)

Create HintDb bclib.
Create Rewrite HintDb bclib_rw.

(** Case analysis on the scrutinee of the innermost [match] of the goal. *)
Ltac casem :=
  match goal with
  | |- context [match ?x with _ => _ end] =>
      lazymatch x with
      | context [match _ with _ => _ end] => fail
      | _ => let E := fresh "E" in destruct x eqn:E
      end
  end.

(** The same in a hypothesis. *)
Ltac casem_in H :=
  match type of H with
  | context [match ?x with _ => _ end] =>
      lazymatch x with
      | context [match _ with _ => _ end] => fail
      | _ => let E := fresh "E" in destruct x eqn:E
      end
  end.

(** Boolean comparisons on [Z] into propositions. *)
Ltac zbool :=
  repeat match goal with
  | H : (_ <? _) = true |- _ => apply Z.ltb_lt in H
  | H : (_ <? _) = false |- _ => apply Z.ltb_ge in H
  | H : (_ <=? _) = true |- _ => apply Z.leb_le in H
  | H : (_ <=? _) = false |- _ => apply Z.leb_gt in H
  | H : (_ =? _) = true |- _ => apply Z.eqb_eq in H
  | H : (_ =? _) = false |- _ => apply Z.eqb_neq in H
  | H : (_ && _)%bool = true |- _ => apply andb_prop in H; destruct H
  end.

(** ** Shared lemmas *)

Lemma zlen_nil {A} : zlen (@nil A) = 0.
Proof. reflexivity. Qed.

Lemma zlen_cons {A} (x : A) l : zlen (x :: l) = 1 + zlen l.
Proof. unfold zlen; cbn [length]; lia. Qed.

Lemma zlen_app {A} (l k : list A) : zlen (l ++ k) = zlen l + zlen k.
Proof. unfold zlen; rewrite length_app; lia. Qed.

Lemma zlen_nonneg {A} (l : list A) : 0 <= zlen l.
Proof. unfold zlen; lia. Qed.

Lemma zlen_0_inv {A} (l : list A) : zlen l = 0 -> l = [].
Proof. destruct l; [done|]. rewrite zlen_cons. pose proof (zlen_nonneg l). lia. Qed.

#[export] Hint Rewrite @zlen_nil @zlen_cons @zlen_app : bclib_rw.
#[export] Hint Resolve zlen_nonneg : bclib.

(** Normalise lengths and close with [lia]. *)
Ltac zl :=
  autorewrite with bclib_rw in *;
  repeat match goal with
  | |- context [zlen ?l] =>
      lazymatch goal with
      | _ : 0 <= zlen l |- _ => fail
      | _ => pose proof (zlen_nonneg l)
      end
  | H : context [zlen ?l] |- _ =>
      lazymatch goal with
      | _ : 0 <= zlen l |- _ => fail
      | _ => pose proof (zlen_nonneg l)
      end
  end;
  try lia.

Lemma take_app_zlen {A} (l k : list A) : take (Z.to_nat (zlen l)) (l ++ k) = l.
Proof. unfold zlen. rewrite Nat2Z.id. by rewrite take_app_length. Qed.

Lemma drop_app_zlen {A} (l k : list A) : drop (Z.to_nat (zlen l)) (l ++ k) = k.
Proof. unfold zlen. rewrite Nat2Z.id. by rewrite drop_app_length. Qed.

Lemma bytes_ok_app l k : bytes_ok (l ++ k) <-> bytes_ok l /\ bytes_ok k.
Proof. apply Forall_app. Qed.

Lemma bytes_ok_cons b l : bytes_ok (b :: l) <-> byte_ok b /\ bytes_ok l.
Proof. apply Forall_cons. Qed.

Lemma bytes_ok_nil : bytes_ok [].
Proof. constructor. Qed.
#[export] Hint Resolve bytes_ok_nil : bclib.

Lemma bytes_ok_drop n l : bytes_ok l -> bytes_ok (drop n l).
Proof. intros H. apply Forall_drop, H. Qed.

Lemma bytes_ok_take n l : bytes_ok l -> bytes_ok (take n l).
Proof. intros H. apply Forall_take, H. Qed.

Lemma nth_byte i l : bytes_ok l -> 0 <= nth i l 0 < 256.
Proof.
  intros H. rewrite nth_lookup. destruct (l !! i) as [b|] eqn:E; cbn; [|lia]. exact (Forall_lookup_1 _ _ _ _ H E).
Qed.

Lemma uN_range w z : 0 <= w -> in_uN w (uN w z).
Proof. intros H. apply Z.mod_pos_bound. lia. Qed.

Lemma uN_id w z : in_uN w z -> uN w z = z.
Proof. intros H. apply Z.mod_small. apply H. Qed.

Lemma sN_range w z : 1 <= w -> in_sN w (sN w z).
Proof.
  intros H. unfold in_sN, sN.
  pose proof (Z.mod_pos_bound (z + 2 ^ (w - 1)) (2 ^ w)).
  replace (2 ^ w) with (2 * 2 ^ (w - 1)) in *
    by (rewrite <- Z.pow_succ_r by lia; f_equal; lia).
  lia.
Qed.

Lemma sN_id w z : 1 <= w -> in_sN w z -> sN w z = z.
Proof.
  intros Hw H. unfold in_sN, sN in *. rewrite Z.mod_small; [lia|].
  replace (2 ^ w) with (2 * 2 ^ (w - 1)); [lia|].
  rewrite <- Z.pow_succ_r by lia. f_equal. lia.
Qed.

(** A signed value survives the trip through the unsigned type of its width. *)
Lemma sN_uN w z : 1 <= w -> in_sN w z -> sN w (uN w z) = z.
Proof.
  intros Hw H. rewrite <- (sN_id w z) at 2 by done.
  unfold sN, uN. by rewrite Zplus_mod_idemp_l.
Qed.

Lemma uN_sN w z : 1 <= w -> in_uN w z -> uN w (sN w z) = z.
Proof.
  intros Hw H. unfold sN, uN, in_uN in *.
  rewrite Zminus_mod_idemp_l. rewrite Z.add_simpl_r. by apply Z.mod_small.
Qed.

(** *** Big-endian lemmas *)

Lemma be_acc_val acc bs : be_acc acc bs = acc * 256 ^ zlen bs + be_val bs.
Proof.
  unfold be_val. revert acc. induction bs as [|b bs IH]; intros acc; cbn [be_acc].
  - rewrite zlen_nil, Z.pow_0_r. lia.
  - rewrite IH, (IH (256 * 0 + b)). rewrite zlen_cons, Z.pow_add_r by zl. lia.
Qed.

Lemma be_val_nil : be_val [] = 0.
Proof. reflexivity. Qed.

Lemma be_val_cons b bs : be_val (b :: bs) = b * 256 ^ zlen bs + be_val bs.
Proof. unfold be_val at 1; cbn [be_acc]. rewrite be_acc_val. lia. Qed.

Lemma be_val_app l k : be_val (l ++ k) = be_val l * 256 ^ zlen k + be_val k.
Proof.
  induction l as [|b l IH]; cbn [app].
  - rewrite be_val_nil. lia.
  - rewrite !be_val_cons, IH, zlen_app, Z.pow_add_r by zl. lia.
Qed.

Lemma be_val_range bs : bytes_ok bs -> 0 <= be_val bs < 256 ^ zlen bs.
Proof.
  induction 1 as [|b bs Hb H IH].
  - change (0 <= 0 < 1). lia.
  - rewrite be_val_cons, zlen_cons, Z.pow_add_r by zl. unfold byte_ok in Hb. nia.
Qed.

Lemma be_bytes_length n z : length (be_bytes n z) = n.
Proof.
  revert z; induction n as [|n IH]; intros z; cbn [be_bytes]; [done|].
  rewrite length_app, IH. cbn. lia.
Qed.

Lemma be_bytes_zlen n z : zlen (be_bytes n z) = Z.of_nat n.
Proof. unfold zlen. by rewrite be_bytes_length. Qed.

Lemma be_bytes_ok n z : bytes_ok (be_bytes n z).
Proof.
  revert z; induction n as [|n IH]; intros z; cbn [be_bytes]; [constructor|].
  apply bytes_ok_app. split; [apply IH|].
  apply bytes_ok_cons; split; [|constructor]. apply Z.mod_pos_bound. lia.
Qed.
#[export] Hint Resolve be_bytes_ok : bclib.

Lemma be_val_bytes n z : 0 <= z -> be_val (be_bytes n z) = z mod 256 ^ Z.of_nat n.
Proof.
  revert z; induction n as [|n IH]; intros z Hz; cbn [be_bytes].
  - change (256 ^ Z.of_nat 0) with 1. by rewrite Z.mod_1_r, be_val_nil.
  - rewrite be_val_app, IH by (apply Z.div_pos; lia).
    rewrite be_val_cons, zlen_cons, zlen_nil, be_val_nil.
    rewrite Nat2Z.inj_succ, Z.pow_succ_r by lia.
    rewrite (Z.rem_mul_r z 256 (256 ^ Z.of_nat n)) by lia. lia.
Qed.

Lemma be_bytes_val bs : bytes_ok bs -> be_bytes (length bs) (be_val bs) = bs.
Proof.
  induction bs as [|b bs IH] using rev_ind; intros H; [done|].
  apply bytes_ok_app in H as [H Hb]. apply bytes_ok_cons in Hb as [Hb _].
  rewrite length_app, Nat.add_comm. cbn [length Nat.add be_bytes].
  rewrite be_val_app, be_val_cons, zlen_cons, zlen_nil, be_val_nil.
  unfold byte_ok in Hb.
  replace (be_val bs * 256 ^ (1 + 0) + (b * 256 ^ 0 + 0)) with (be_val bs * 256 + b) by lia.
  rewrite Z.div_add_l, Z.div_small, Z.add_0_r by lia.
  rewrite IH by done. f_equal. f_equal.
  rewrite Z.add_comm, Z.mod_add, Z.mod_small by lia. done.
Qed.

(** *** Minimal big-endian bytes *)

Lemma nbytes_nonpos z : z <= 0 -> nbytes z = O.
Proof. intros H. unfold nbytes. by destruct (Z.leb_spec z 0); [|lia]. Qed.

Lemma pow256 k : 0 <= k -> 256 ^ k = 2 ^ (8 * k).
Proof. intros H. rewrite Z.pow_mul_r by lia. done. Qed.

Lemma nbytes_bounds z : 0 < z ->
  256 ^ (Z.of_nat (nbytes z) - 1) <= z < 256 ^ Z.of_nat (nbytes z).
Proof.
  intros H. unfold nbytes. destruct (Z.leb_spec z 0); [lia|].
  pose proof (Z.log2_spec z H) as [H1 H2]. pose proof (Z.log2_nonneg z).
  pose proof (Z.div_pos (Z.log2 z) 8). 
  rewrite Z2Nat.id by lia. rewrite !pow256 by lia.
  pose proof (Z.div_mod (Z.log2 z) 8). pose proof (Z.mod_pos_bound (Z.log2 z) 8).
  split.
  - etransitivity; [|exact H1]. apply Z.pow_le_mono_r; lia.
  - eapply Z.lt_le_trans; [exact H2|]. apply Z.pow_le_mono_r; lia.
Qed.

Lemma nbytes_pos z : 0 < z -> (0 < nbytes z)%nat.
Proof.
  intros H. unfold nbytes. destruct (Z.leb_spec z 0); [lia|].
  pose proof (Z.div_pos (Z.log2 z) 8). pose proof (Z.log2_nonneg z). lia.
Qed.

Lemma nbytes_unique z n : 256 ^ (Z.of_nat n - 1) <= z < 256 ^ Z.of_nat n -> 0 < z ->
  nbytes z = n.
Proof.
  intros [H1 H2] Hz. pose proof (nbytes_bounds z Hz) as [B1 B2].
  pose proof (nbytes_pos z Hz).
  destruct (Nat.lt_trichotomy (nbytes z) n) as [L|[L|L]]; [|done|].
  - assert (256 ^ Z.of_nat (nbytes z) <= 256 ^ (Z.of_nat n - 1))
      by (apply Z.pow_le_mono_r; lia). lia.
  - assert (256 ^ Z.of_nat n <= 256 ^ (Z.of_nat (nbytes z) - 1))
      by (apply Z.pow_le_mono_r; lia). lia.
Qed.

Lemma nbytes_le z n : 0 <= z < 256 ^ Z.of_nat n -> (nbytes z <= n)%nat.
Proof.
  intros [H1 H2]. destruct (Z.eq_dec z 0) as [->|]; [cbn; lia|].
  pose proof (nbytes_bounds z ltac:(lia)) as [B1 _].
  destruct (Nat.le_gt_cases (nbytes z) n) as [|L]; [done|].
  assert (256 ^ Z.of_nat n <= 256 ^ (Z.of_nat (nbytes z) - 1))
    by (apply Z.pow_le_mono_r; lia). lia.
Qed.

Lemma be_min_0 : be_min 0 = [].
Proof. reflexivity. Qed.

Lemma be_min_ok z : bytes_ok (be_min z).
Proof. apply be_bytes_ok. Qed.
#[export] Hint Resolve be_min_ok : bclib.

Lemma be_val_min z : be_val (be_min z) = Z.abs z.
Proof.
  unfold be_min. rewrite be_val_bytes by lia.
  destruct (Z.eq_dec z 0) as [->|]; [done|].
  apply Z.mod_small. pose proof (nbytes_bounds (Z.abs z)). lia.
Qed.

Lemma be_min_length z : length (be_min z) = nbytes (Z.abs z).
Proof. apply be_bytes_length. Qed.

Lemma be_min_head z b bs : be_min z = b :: bs -> b <> 0.
Proof.
  intros E ->. pose proof (be_val_min z) as V. pose proof (be_min_length z) as L.
  pose proof (be_min_ok z) as O.
  rewrite E in *. apply bytes_ok_cons in O as [_ O]. cbn [length] in L.
  rewrite be_val_cons in V. pose proof (be_val_range bs O).
  assert (0 < Z.abs z) as P by (destruct (Z.eq_dec z 0) as [->|]; [done|lia]).
  pose proof (nbytes_bounds (Z.abs z) P) as [B _]. rewrite <- L in B.
  unfold zlen in *. replace (Z.of_nat (S (length bs)) - 1) with (Z.of_nat (length bs)) in B by lia.
  lia.
Qed.

(** Bytes without a leading zero are the minimal encoding of their value. *)
Lemma be_min_val bs : bytes_ok bs -> (forall b l, bs = b :: l -> b <> 0) ->
  be_min (be_val bs) = bs.
Proof.
  intros O H. pose proof (be_val_range bs O) as R. unfold be_min.
  rewrite Z.abs_eq by lia. destruct bs as [|b bs]; [done|].
  rewrite (nbytes_unique _ (length (b :: bs))).
  - by apply be_bytes_val.
  - split; [|apply R]. apply bytes_ok_cons in O as [Ob O].
    specialize (H b bs eq_refl). rewrite be_val_cons. pose proof (be_val_range bs O).
    cbn [length]. unfold zlen, byte_ok in *.
    replace (Z.of_nat (S (length bs)) - 1) with (Z.of_nat (length bs)) by lia. nia.
  - apply bytes_ok_cons in O as [Ob O].
    specialize (H b bs eq_refl). rewrite be_val_cons. pose proof (be_val_range bs O).
    unfold zlen, byte_ok in *.
    assert (0 < 256 ^ Z.of_nat (length bs)) by (apply Z.pow_pos_nonneg; lia). nia.
Qed.

Lemma be_val_lead0 n bs : be_val (replicate n 0 ++ bs) = be_val bs.
Proof.
  induction n as [|n IH]; [done|]. cbn [replicate app]. by rewrite be_val_cons, IH.
Qed.
