(* ===== verification/GoBig.v ===== *)
(** * Go's [math/big] integers, as the sources use them

    [*big.Int] values are [Z] (a nil pointer is [None] where it matters).  This
    file models the operations of the standard library that [bn] and [rlp]
    call: Euclidean division, decimal printing
    ([String]) and parsing ([SetString], base 0 with its prefixes and digit
    separators included), and proves that printing and parsing agree. *)

From S2P Require Import Prelude.

(** ** Euclidean division: [big.Int.Div] and [big.Int.Mod] *)

Definition big_Div (x y : Z) : res unit Z :=
  if y =? 0 then Panic else Ok (Z.sgn y * (x / Z.abs y)).

Definition big_Mod (x y : Z) : res unit Z :=
  if y =? 0 then Panic else Ok (x mod Z.abs y).

(** [big.Int.Cmp]. *)
Definition big_Cmp (x y : Z) : Z :=
  match x ?= y with Lt => -1 | Eq => 0 | Gt => 1 end.

(** [big.Int.Exp] with a nil modulus: 1 for a non-positive exponent. *)
Definition big_Exp (x y : Z) : Z := if y <=? 0 then 1 else x ^ y.

(** ** Decimal text: [big.Int.String] *)

Definition ascii_0 : Z := 48.

Fixpoint dec_digits (fuel : nat) (z : Z) (acc : list Z) : list Z :=
  match fuel with
  | O => acc
  | S f => if z <? 10 then (ascii_0 + z) :: acc
           else dec_digits f (z / 10) ((ascii_0 + z mod 10) :: acc)
  end.

(** A number of [Z.log2 z + 1] bits has at most that many decimal digits. *)
Definition dec_nonneg (z : Z) : list Z := dec_digits (Z.to_nat (Z.log2 z + 1)) z [].

Definition big_String (z : Z) : list Z :=
  if z <? 0 then 45 :: dec_nonneg (- z) else dec_nonneg z.

(** ** Parsing: [big.Int.SetString] *)

Definition MaxBase : Z := 10 + (122 - 97 + 1) + (90 - 65 + 1).
Definition maxBaseSmall : Z := 10 + (122 - 97 + 1).

Definition digit_val (b ch : Z) : Z :=
  if (48 <=? ch) && (ch <=? 57) then ch - 48
  else if (97 <=? ch) && (ch <=? 122) then ch - 97 + 10
  else if (65 <=? ch) && (ch <=? 90) then
         if b <=? maxBaseSmall then ch - 65 + 10 else ch - 65 + maxBaseSmall
  else MaxBase + 1.

(** The previous character the scanner remembers: the start, a digit or prefix,
    or a separator. *)
Inductive prev_ch := PStart | PDigit | PSep.

Record scan_st := mk_scan {
  sc_val : Z;
  sc_count : Z;
  sc_prev : prev_ch;
  sc_inval : bool
}.

(** The digit loop of [nat.scan]: the state reached and the characters left. *)
Fixpoint scan_loop (base b : Z) (s : list Z) (st : scan_st) : scan_st * list Z :=
  match s with
  | [] => (st, [])
  | ch :: s' =>
      if (ch =? 95) && (base =? 0) then
        scan_loop base b s'
          (mk_scan (sc_val st) (sc_count st) PSep
             (sc_inval st || match sc_prev st with PDigit => false | _ => true end))
      else
        let d := digit_val b ch in
        if b <=? d then (st, s)
        else scan_loop base b s'
               (mk_scan (sc_val st * b + d) (sc_count st + 1) PDigit (sc_inval st))
  end.

(** Base selection: the actual base, whether only the octal prefix [0] was seen,
    the scanner's initial state, and the characters to convert. *)
Definition scan_prefix (base : Z) (s : list Z) : Z * bool * scan_st * list Z :=
  let st0 := mk_scan 0 0 PStart false in
  if base =? 0 then
    match s with
    | 48 :: ch :: s' =>
        if (ch =? 98) || (ch =? 66) then (2, false, mk_scan 0 0 PDigit false, s')
        else if (ch =? 111) || (ch =? 79) then (8, false, mk_scan 0 0 PDigit false, s')
        else if (ch =? 120) || (ch =? 88) then (16, false, mk_scan 0 0 PDigit false, s')
        else (8, true, mk_scan 0 0 PDigit false, ch :: s')
    | [48] => (10, false, mk_scan 0 1 PDigit false, [])
    | _ => (10, false, st0, s)
    end
  else (base, false, st0, s).

(** [nat.scan] followed by the test that the whole input was consumed. *)
Definition nat_scan (base : Z) (s : list Z) : option Z :=
  let '(b, octal, st0, s1) := scan_prefix base s in
  let '(st, rest) := scan_loop base b s1 st0 in
  if sc_inval st || match sc_prev st with PSep => true | _ => false end then None
  else if (sc_count st =? 0) && negb octal then None
  else match rest with
       | [] => Some (if sc_count st =? 0 then 0 else sc_val st)
       | _ => None
       end.

(** [big.Int.SetString]: [None] when it reports failure. *)
Definition SetString (s : list Z) (base : Z) : option Z :=
  match s with
  | 45 :: s' => Z.opp <$> nat_scan base s'
  | 43 :: s' => nat_scan base s'
  | [] => None
  | _ => nat_scan base s
  end.

(** ** Lemmas *)

Lemma big_Cmp_lt x y : (big_Cmp x y <? 0) = (x <? y).
Proof. unfold big_Cmp. destruct (Z.compare_spec x y), (Z.ltb_spec x y); try lia; done. Qed.

Lemma big_Cmp_eq x y : (big_Cmp x y =? 0) = (x =? y).
Proof. unfold big_Cmp. destruct (Z.compare_spec x y), (Z.eqb_spec x y); try lia; done. Qed.

Lemma big_Cmp_gt x y : (0 <? big_Cmp x y) = (y <? x).
Proof. unfold big_Cmp. destruct (Z.compare_spec x y), (Z.ltb_spec y x); try lia; done. Qed.

Lemma big_Div_pos x y : 0 < y -> big_Div x y = Ok (x / y).
Proof.
  intros H. unfold big_Div. destruct (Z.eqb_spec y 0); [lia|].
  rewrite Z.sgn_pos, Z.abs_eq by lia. f_equal; lia.
Qed.

Lemma big_Div_Mod x y q m : big_Div x y = Ok q -> big_Mod x y = Ok m ->
  x = y * q + m /\ 0 <= m < Z.abs y.
Proof.
  unfold big_Div, big_Mod. destruct (Z.eqb_spec y 0) as [|Hy]; [done|].
  intros [= <-] [= <-]. pose proof (Z.div_mod x (Z.abs y)). pose proof (Z.mod_pos_bound x (Z.abs y)).
  destruct (Z.abs_spec y) as [[? E]|[? E]]; rewrite E in *; split; try lia; nia.
Qed.

Lemma digit_val_dec d : 0 <= d < 10 -> digit_val 10 (ascii_0 + d) = d.
Proof.
  intros H. unfold digit_val, ascii_0.
  destruct (Z.leb_spec 48 (48 + d)), (Z.leb_spec (48 + d) 57); try lia. cbn [andb]. lia.
Qed.

Lemma scan_step_dec d s st : 0 <= d < 10 ->
  scan_loop 10 10 (ascii_0 + d :: s) st =
  scan_loop 10 10 s (mk_scan (sc_val st * 10 + d) (sc_count st + 1) PDigit (sc_inval st)).
Proof.
  intros H. cbn [scan_loop]. rewrite digit_val_dec by done.
  rewrite andb_false_r. by destruct (Z.leb_spec 10 d); [lia|].
Qed.

(** Decimal digits with enough fuel denote the number, whatever follows. *)
Lemma scan_loop_dec fuel z acc st :
  0 <= z < 2 ^ Z.of_nat fuel -> (0 < fuel)%nat ->
  exists k, 0 < k /\
  scan_loop 10 10 (dec_digits fuel z acc) st =
  scan_loop 10 10 acc (mk_scan (sc_val st * 10 ^ k + z) (sc_count st + k) PDigit (sc_inval st)).
Proof.
  revert z acc. induction fuel as [|f IH]; intros z acc Hz Hf; [lia|].
  cbn [dec_digits]. rewrite Nat2Z.inj_succ, Z.pow_succ_r in Hz by lia.
  destruct (Z.ltb_spec z 10).
  - exists 1. split; [lia|]. rewrite scan_step_dec by lia. by rewrite Z.pow_1_r.
  - assert (z / 10 < 2 ^ Z.of_nat f) by (apply Z.div_lt_upper_bound; lia).
    assert (0 <= z / 10) by (apply Z.div_pos; lia).
    destruct f as [|f]; [cbn in Hz; lia|].
    destruct (IH (z / 10) (ascii_0 + z mod 10 :: acc)) as (k & Hk & E); [lia|lia|].
    exists (k + 1). split; [lia|]. rewrite E.
    pose proof (Z.mod_pos_bound z 10). rewrite scan_step_dec by lia.
    cbn [sc_val sc_count sc_inval]. f_equal. f_equal; [|lia].
    rewrite Z.pow_add_r by lia. pose proof (Z.div_mod z 10). lia.
Qed.

Lemma nat_scan_dec z : 0 <= z -> nat_scan 10 (dec_nonneg z) = Some z.
Proof.
  intros Hz. unfold nat_scan, scan_prefix, dec_nonneg. cbn [Z.eqb].
  pose proof (Z.log2_nonneg z).
  destruct (scan_loop_dec (Z.to_nat (Z.log2 z + 1)) z [] (mk_scan 0 0 PStart false))
    as (k & Hk & E); [|lia|].
  { rewrite Z2Nat.id by lia. split; [done|].
    destruct (Z.eq_dec z 0) as [->|]; [done|]. apply Z.log2_spec. lia. }
  rewrite E. cbn [scan_loop sc_val sc_count sc_inval sc_prev orb].
  destruct (Z.eqb_spec (0 + k) 0); [lia|]. cbn [andb]. f_equal; lia.
Qed.

Lemma dec_digits_head fuel z acc c l : 0 <= z -> dec_digits fuel z acc = c :: l ->
  (acc = c :: l) \/ 48 <= c <= 57.
Proof.
  revert z acc. induction fuel as [|f IH]; intros z acc Hz; cbn [dec_digits]; [by left|].
  unfold ascii_0. destruct (Z.ltb_spec z 10).
  - intros [= <- <-]. right. lia.
  - intros E. apply IH in E as [E|E]; [|by right|apply Z.div_pos; lia].
    injection E as <- <-. pose proof (Z.mod_pos_bound z 10). right. lia.
Qed.

Lemma dec_digits_nonempty fuel z acc : (0 < fuel)%nat -> dec_digits fuel z acc <> [].
Proof.
  revert z acc. induction fuel as [|f IH]; intros z acc Hf; [lia|].
  cbn [dec_digits]. destruct (z <? 10); [done|].
  destruct f; [done|]. apply IH. lia.
Qed.

Lemma dec_nonneg_head z : 0 <= z -> exists c l, dec_nonneg z = c :: l /\ 48 <= c <= 57.
Proof.
  intros Hz. unfold dec_nonneg. pose proof (Z.log2_nonneg z).
  destruct (dec_digits _ z []) as [|c l] eqn:E.
  - exfalso. by eapply dec_digits_nonempty, E; lia.
  - apply dec_digits_head in E as E'; [|done]. destruct E' as [|?]; [done|]. eauto.
Qed.

(** Parsing the decimal text of an integer gives the integer back. *)
Lemma SetString_String z : SetString (big_String z) 10 = Some z.
Proof.
  unfold big_String. destruct (Z.ltb_spec z 0).
  - cbn [SetString]. rewrite nat_scan_dec by lia. cbn. f_equal; lia.
  - pose proof (nat_scan_dec z ltac:(lia)) as P.
    destruct (dec_nonneg_head z ltac:(lia)) as (c & l & E & Hc). rewrite E in *.
    unfold SetString. destruct (decide (c = 45)); [lia|]. destruct (decide (c = 43)); [lia|].
    rewrite P. repeat (case_match; try lia; try done).
Qed.
