(* ===== verification/GoStrings.v ===== *)
(** * Go's [strings] package, as the sources use it

    A Go string is its list of bytes.  [TrimSpace] is modelled on ASCII white
    space: the inputs the sources trim (struct tags, JSON numbers) are ASCII text. *)

From S2P Require Import Prelude.

(** The bytes of a string literal. *)
Definition bs (s : string) : list Z :=
  (fun a => Z.of_N (Ascii.N_of_ascii a)) <$> String.list_ascii_of_string s.

Definition str_eqb (a b : list Z) : bool := bool_decide (a = b).

Fixpoint HasPrefix (s prefix : list Z) : bool :=
  match prefix, s with
  | [], _ => true
  | p :: prefix', c :: s' => (c =? p) && HasPrefix s' prefix'
  | _ :: _, [] => false
  end.

Definition HasSuffix (s suffix : list Z) : bool := HasPrefix (rev s) (rev suffix).

Definition TrimSuffix (s suffix : list Z) : list Z :=
  if HasSuffix s suffix then take (length s - length suffix) s else s.

(** [strings.Split] with a one-byte separator: never empty. *)
Fixpoint Split (s : list Z) (sep : Z) : list (list Z) :=
  match s with
  | [] => [[]]
  | c :: s' =>
      if c =? sep then [] :: Split s' sep
      else match Split s' sep with
           | [] => [[c]]
           | p :: ps => (c :: p) :: ps
           end
  end.

Definition is_space (c : Z) : bool :=
  (c =? 32) || ((9 <=? c) && (c <=? 13)).

Fixpoint trim_left (s : list Z) : list Z :=
  match s with
  | c :: s' => if is_space c then trim_left s' else s
  | [] => []
  end.

Definition TrimSpace (s : list Z) : list Z := rev (trim_left (rev (trim_left s))).

(** Joining with a one-byte separator. *)
Fixpoint Join (ps : list (list Z)) (sep : Z) : list Z :=
  match ps with
  | [] => []
  | [p] => p
  | p :: ps' => p ++ sep :: Join ps' sep
  end.

(** ** Lemmas *)

Lemma str_eqb_eq a b : str_eqb a b = true <-> a = b.
Proof. apply bool_decide_eq_true. Qed.

Lemma str_eqb_refl a : str_eqb a a = true.
Proof. by apply str_eqb_eq. Qed.

Lemma HasPrefix_app p a : HasPrefix (p ++ a) p = true.
Proof. induction p as [|x p IH]; [by destruct a|]. cbn. by rewrite Z.eqb_refl. Qed.

Lemma Split_nonempty s sep : Split s sep <> [].
Proof. destruct s as [|c s]; cbn; [done|]. destruct (c =? sep); [done|]. by destruct (Split s sep). Qed.

(** A piece without the separator followed by the separator is split off. *)
Lemma Split_app p s sep : sep ∉ p -> Split (p ++ sep :: s) sep = p :: Split s sep.
Proof.
  induction p as [|c p IH]; intros H; cbn [app Split].
  - by rewrite Z.eqb_refl.
  - apply not_elem_of_cons in H as [H1 H2]. rewrite IH by done.
    by destruct (Z.eqb_spec c sep) as [->|].
Qed.

Lemma Split_none p sep : sep ∉ p -> Split p sep = [p].
Proof.
  induction p as [|c p IH]; intros H; [done|]. cbn [Split].
  apply not_elem_of_cons in H as [H1 H2]. rewrite IH by done.
  by destruct (Z.eqb_spec c sep) as [->|].
Qed.

(** Splitting the join of separator-free pieces gives the pieces. *)
Lemma Split_Join ps sep : ps <> [] -> Forall (fun p => sep ∉ p) ps ->
  Split (Join ps sep) sep = ps.
Proof.
  induction ps as [|p [|q ps] IH]; intros Hne H; [done| |].
  - apply Forall_cons in H as [H _]. by apply Split_none.
  - apply Forall_cons in H as [Hp H]. change (Join (p :: q :: ps) sep) with (p ++ sep :: Join (q :: ps) sep).
    by rewrite Split_app, IH.
Qed.

Lemma Join_Split s sep : Join (Split s sep) sep = s.
Proof.
  induction s as [|c s IH]; [done|]. cbn [Split].
  pose proof (Split_nonempty s sep).
  destruct (Split s sep) as [|p ps]; [done|].
  destruct (Z.eqb_spec c sep) as [->|].
  - change (sep :: Join (p :: ps) sep = sep :: s). by rewrite IH.
  - destruct ps; cbn in *; by rewrite IH.
Qed.

Lemma trim_left_id c s : is_space c = false -> trim_left (c :: s) = c :: s.
Proof. intros H. cbn. by rewrite H. Qed.

Lemma TrimSpace_single c : is_space c = false -> TrimSpace [c] = [c].
Proof. intros H. unfold TrimSpace. cbn. rewrite H. cbn. by rewrite H. Qed.

(** Text without white space is left alone. *)
Lemma TrimSpace_nospace s : Forall (fun c => is_space c = false) s -> TrimSpace s = s.
Proof.
  intros H. unfold TrimSpace.
  assert (forall l, Forall (fun c => is_space c = false) l -> trim_left l = l) as T.
  { intros [|c l]; [done|]. intros F. apply Forall_cons in F as [F _]. by apply trim_left_id. }
  rewrite (T s H), T, rev_involutive; [done|].
  by apply Forall_rev.
Qed.
