(* ===== verification/GoSlice.v ===== *)
(** * Go slices of bytes as buffers

    Slicing, [copy] and indexed writes on a byte slice, with Go's bounds checks:
    [None] is the run-time panic. *)

From S2P Require Import Prelude.

(** [l[a:b]]. *)
Definition slice {A} (l : list A) (a b : Z) : option (list A) :=
  if (0 <=? a) && (a <=? b) && (b <=? zlen l)
  then Some (take (Z.to_nat (b - a)) (drop (Z.to_nat a) l))
  else None.

(** [l[a:]]. *)
Definition slice_from {A} (l : list A) (a : Z) : option (list A) := slice l a (zlen l).

(** [n := copy(dst[pos:], src)]: the new buffer and [n]. *)
Definition copy_at (dst : list Z) (pos : Z) (src : list Z) : option (list Z * Z) :=
  if (0 <=? pos) && (pos <=? zlen dst) then
    let n := Z.min (zlen dst - pos) (zlen src) in
    Some (take (Z.to_nat pos) dst ++ take (Z.to_nat n) src
            ++ drop (Z.to_nat (pos + n)) dst, n)
  else None.

(** Indexed writes [buf[0] = ..; buf[1] = ..; ...] on [buf := dst[pos:]]. *)
Definition write_at (dst : list Z) (pos : Z) (src : list Z) : option (list Z) :=
  if (0 <=? pos) && (pos + zlen src <=? zlen dst) then
    Some (take (Z.to_nat pos) dst ++ src ++ drop (Z.to_nat (pos + zlen src)) dst)
  else None.

(** ** Lemmas: a buffer split at the write position *)

Lemma slice_mid {A} (l m k : list A) :
  slice (l ++ m ++ k) (zlen l) (zlen l + zlen m) = Some m.
Proof.
  unfold slice.
  replace (zlen l + zlen m - zlen l) with (zlen m) by lia.
  rewrite drop_app_zlen, take_app_zlen.
  destruct (Z.leb_spec 0 (zlen l)), (Z.leb_spec (zlen l) (zlen l + zlen m)),
    (Z.leb_spec (zlen l + zlen m) (zlen (l ++ m ++ k))); try done; zl.
Qed.

Lemma slice_from_app {A} (l k : list A) : slice_from (l ++ k) (zlen l) = Some k.
Proof.
  unfold slice_from. rewrite <- (app_nil_r k) at 1. rewrite zlen_app. by rewrite slice_mid.
Qed.

Lemma take_zlen {A} (l : list A) : take (Z.to_nat (zlen l)) l = l.
Proof. unfold zlen. by rewrite Nat2Z.id, firstn_all. Qed.

Lemma drop_app_zadd {A B} (l k : list A) (m : list B) :
  drop (Z.to_nat (zlen l + zlen m)) (l ++ k) = drop (length m) k.
Proof.
  rewrite Z2Nat.inj_add by zl. unfold zlen. rewrite !Nat2Z.id.
  by rewrite <- drop_drop, drop_app_length.
Qed.

Lemma copy_at_mid l src k : zlen src <= zlen k ->
  copy_at (l ++ k) (zlen l) src = Some (l ++ src ++ drop (length src) k, zlen src).
Proof.
  intros H. unfold copy_at.
  destruct (Z.leb_spec 0 (zlen l)), (Z.leb_spec (zlen l) (zlen (l ++ k))); zl.
  cbn [andb]. replace (Z.min _ (zlen src)) with (zlen src) by zl.
  by rewrite take_app_zlen, take_zlen, drop_app_zadd.
Qed.

Lemma write_at_mid l src k : zlen src <= zlen k ->
  write_at (l ++ k) (zlen l) src = Some (l ++ src ++ drop (length src) k).
Proof.
  intros H. unfold write_at.
  destruct (Z.leb_spec 0 (zlen l)), (Z.leb_spec (zlen l + zlen src) (zlen (l ++ k))); zl.
  cbn [andb]. by rewrite take_app_zlen, drop_app_zadd.
Qed.
