(* ===== verification/BigNum.v ===== *)
(** * [bn]: the big-number type of the chain

    Model of src/bn/bignumber.go.  A [Number] wraps a [*big.Int]: [None] is the
    nil pointer of the zero [Number], on which most methods panic.  [x.V] is
    never mutated by the value-receiver operations (each allocates its result),
    so they are functions; [SetBytes] and [UnmarshalJSON] are pointer methods and
    return the new receiver. *)

From S2P Require Import Prelude GoBig GoStrings.

Record Number := mkNumber { V : option Z }.

(** Evaluates a method that dereferences [x.V]. *)
Definition with_V {A} (x : Number) (f : Z -> res unit A) : res unit A :=
  match V x with Some v => f v | None => Panic end.

(** ** Constructors *)

Definition NewNumber (x : Z) : Number := mkNumber (Some x).
Definition N (x : Z) : Number := NewNumber x.
Definition NewNumberBigInt (x : Z) : Number := mkNumber (Some x).
Definition NB (x : Z) : Number := NewNumberBigInt x.

Definition Mul (x y : Number) : res unit Number :=
  with_V x (fun a => with_V y (fun b => Ok (mkNumber (Some (a * b))))).

Definition NewNumberLong (b d : Z) : res unit Number :=
  Mul (mkNumber (Some b)) (mkNumber (Some d)).
Definition N1 (b d : Z) : res unit Number := NewNumberLong b d.

Definition NewNumberLongLong (b d1 d2 : Z) : res unit Number :=
  let* xy := Mul (mkNumber (Some b)) (mkNumber (Some d1)) in
  Mul xy (mkNumber (Some d2)).
Definition N2 (b d1 d2 : Z) : res unit Number := NewNumberLongLong b d1 d2.

Definition NewNumberStringBase (s : list Z) (base : Z) : Number :=
  match SetString s base with
  | Some z => mkNumber (Some z)
  | None => N 0
  end.

Definition NString (s : list Z) : Number := NewNumberStringBase s 10.

Definition NStringHex (s : list Z) : Number :=
  if HasPrefix s (bs "0x") || HasPrefix s (bs "0X") then NewNumberStringBase s 0
  else N 0.

(** ** Byte representations *)

(** Sign byte (0xFF for a negative number, 0x00 otherwise) and magnitude; a nil
    [V] has the nil slice. *)
Definition Bytes (x : Number) : list Z :=
  match V x with
  | None => []
  | Some v => (if v <? 0 then 255 else 0) :: be_min v
  end.

(** [SetBytes]: a nil [V] is allocated first, an empty slice leaves the value. *)
Definition SetBytes (x : Number) (buf : list Z) : Number :=
  let v0 := match V x with Some v => v | None => 0 end in
  mkNumber (Some match buf with
                 | [] => v0
                 | b :: rest => if b =? 255 then - be_val rest else be_val buf
                 end).

Definition NBytes (buf : list Z) : Number := mkNumber (Some (be_val buf)).
Definition NBS (buf : list Z) : Number := NBytes buf.
Definition NSBytes (buf : list Z) : Number := SetBytes (N 0) buf.
Definition NSBS (buf : list Z) : Number := NSBytes buf.

(** ** Comparisons *)

Definition Cmp (x y : Number) : res unit Z :=
  with_V x (fun a => with_V y (fun b => Ok (big_Cmp a b))).
Definition CmpI (x : Number) (y : Z) : res unit Z := Cmp x (N y).

Definition IsZero (x : Number) : res unit bool := let* c := CmpI x 0 in Ok (c =? 0).
Definition IsPositive (x : Number) : res unit bool := let* c := CmpI x 0 in Ok (0 <? c).
Definition IsNegative (x : Number) : res unit bool := let* c := CmpI x 0 in Ok (c <? 0).
Definition IsEqual (x y : Number) : res unit bool := let* c := Cmp x y in Ok (c =? 0).
Definition IsEqualI (x : Number) (y : Z) : res unit bool := let* c := CmpI x y in Ok (c =? 0).
Definition IsGreaterThan (x y : Number) : res unit bool := let* c := Cmp x y in Ok (0 <? c).
Definition IsGreaterThanI (x : Number) (y : Z) : res unit bool := let* c := CmpI x y in Ok (0 <? c).
Definition IsLessThan (x y : Number) : res unit bool := let* c := Cmp x y in Ok (c <? 0).
Definition IsLessThanI (x : Number) (y : Z) : res unit bool := let* c := CmpI x y in Ok (c <? 0).
Definition IsGE (x y : Number) : res unit bool := let* c := Cmp x y in Ok (0 <=? c).
Definition IsGEI (x : Number) (y : Z) : res unit bool := let* c := CmpI x y in Ok (0 <=? c).
Definition IsLE (x y : Number) : res unit bool := let* c := Cmp x y in Ok (c <=? 0).
Definition IsLEI (x : Number) (y : Z) : res unit bool := let* c := CmpI x y in Ok (c <=? 0).

(** ** Arithmetic *)

Definition lift2 (f : Z -> Z -> res unit Z) (x y : Number) : res unit Number :=
  with_V x (fun a => with_V y (fun b => let* c := f a b in Ok (mkNumber (Some c)))).

Definition Add (x y : Number) : res unit Number := lift2 (fun a b => Ok (a + b)) x y.
Definition AddI (x : Number) (y : Z) : res unit Number := Add x (N y).
Definition Sub (x y : Number) : res unit Number := lift2 (fun a b => Ok (a - b)) x y.
Definition SubI (x : Number) (y : Z) : res unit Number := Sub x (N y).
Definition MulI (x : Number) (y : Z) : res unit Number := Mul x (N y).
Definition Div (x y : Number) : res unit Number := lift2 big_Div x y.
Definition DivI (x : Number) (y : Z) : res unit Number := Div x (N y).
Definition Mod (x y : Number) : res unit Number := lift2 big_Mod x y.
Definition ModI (x : Number) (y : Z) : res unit Number := Mod x (N y).
Definition Sq (x : Number) : res unit Number := Mul x x.
Definition Exp (x y : Number) : res unit Number := lift2 (fun a b => Ok (big_Exp a b)) x y.
Definition Lsh (x : Number) (n : Z) : res unit Number :=
  with_V x (fun a => Ok (mkNumber (Some (Z.shiftl a n)))).
Definition Rsh (x : Number) (n : Z) : res unit Number :=
  with_V x (fun a => Ok (mkNumber (Some (Z.shiftr a n)))).
Definition And (x y : Number) : res unit Number := lift2 (fun a b => Ok (Z.land a b)) x y.
Definition Or (x y : Number) : res unit Number := lift2 (fun a b => Ok (Z.lor a b)) x y.
Definition Xor (x y : Number) : res unit Number := lift2 (fun a b => Ok (Z.lxor a b)) x y.
Definition Not (x : Number) : res unit Number :=
  with_V x (fun a => Ok (mkNumber (Some (Z.lnot a)))).

(** The Newton loop of [Sqrt]: [for z.Cmp(y) < 0 { y = z; z = x.Div(z).Add(z).DivI(2) }]. *)
Fixpoint sqrt_loop (fuel : nat) (x y z : Number) : res unit Number :=
  match fuel with
  | O => NoFuel
  | S f =>
      let* c := Cmp z y in
      if c <? 0 then
        let* q := Div x z in
        let* s := Add q z in
        let* z' := DivI s 2 in
        sqrt_loop f x z z'
      else Ok y
  end.

(** The distance to the root at least halves, so the bit length is fuel enough. *)
Definition sqrt_fuel (x : Number) : nat :=
  match V x with Some v => S (S (Z.to_nat (Z.log2 v))) | None => O end.

Definition Sqrt (x : Number) : res unit Number :=
  let* neg := IsNegative x in
  if neg then Panic
  else
    let* x1 := AddI x 1 in
    let* z := DivI x1 2 in
    sqrt_loop (sqrt_fuel x) x x z.

(** ** Text *)

Definition String_ (x : Number) : res unit (list Z) := with_V x (fun v => Ok (big_String v)).
Definition Value (x : Number) : option Z := V x.

Definition MarshalJSON (x : option Number) : list Z :=
  match x with
  | Some (mkNumber (Some v)) => big_String v
  | _ => bs "null"
  end.

(** [UnmarshalJSON] on a non-nil receiver.  A failing [SetString] is not
    reported and leaves the receiver's value unspecified: [garbage] stands for it. *)
Definition UnmarshalJSON (garbage : Z) (x : Number) (data : list Z) : res (list Z) Number :=
  let str := TrimSpace data in
  let* str' :=
    if HasPrefix str (bs "{") then
      if zlen str <? 2 then Panic
      else
        let bare := take (length str - 2) (drop 1 str) in
        match Split bare 58 with
        | [k; v] => if decide (TrimSpace k = [34; 118; 34]) then Ok (TrimSpace v)
                    else Err (bs "wrong bn.number json format")
        | _ => Err (bs "wrong bn.number json format")
        end
    else Ok str in
  Ok (mkNumber (Some match SetString str' 10 with Some z => z | None => garbage end)).

(** ** Lemmas *)

Lemma Mul_N a b : Mul (N a) (N b) = Ok (N (a * b)).
Proof. reflexivity. Qed.

Lemma Add_N a b : Add (N a) (N b) = Ok (N (a + b)).
Proof. reflexivity. Qed.

Lemma Cmp_N a b : Cmp (N a) (N b) = Ok (big_Cmp a b).
Proof. reflexivity. Qed.

Lemma Div_N a b : 0 < b -> Div (N a) (N b) = Ok (N (a / b)).
Proof. intros H. unfold Div, lift2, with_V. cbn [V N NewNumber]. by rewrite big_Div_pos. Qed.

Lemma be_val_min_sign v : be_val (0 :: be_min v) = Z.abs v.
Proof. rewrite be_val_cons, be_val_min. lia. Qed.

Lemma SetBytes_Bytes_Some y v : SetBytes y (Bytes (mkNumber (Some v))) = mkNumber (Some v).
Proof.
  unfold SetBytes, Bytes. cbn [V]. do 2 f_equal. destruct (Z.ltb_spec v 0).
  - change (255 =? 255) with true. cbv iota. rewrite be_val_min. lia.
  - change (0 =? 255) with false. cbv iota. rewrite be_val_min_sign. lia.
Qed.

(** One Newton step from above the root lands between the root and the middle. *)
Lemma newton_step x y : 0 < x -> Z.sqrt x < y ->
  Z.sqrt x <= (x / y + y) / 2 <= (Z.sqrt x + y) / 2.
Proof.
  intros Hx Hy. pose proof (Z.sqrt_spec x ltac:(lia)) as [S1 S2].
  set (s := Z.sqrt x) in *. assert (0 <= s) by apply Z.sqrt_nonneg.
  pose proof (Z.div_mod x y ltac:(lia)). pose proof (Z.mod_pos_bound x y ltac:(lia)).
  set (q := x / y) in *. split.
  - apply Z.div_le_lower_bound; [lia|].
    destruct (Z.le_gt_cases (2 * s) (q + y)); [lia|]. exfalso.
    assert (y * (q + 1) <= y * (2 * s - y)) by (apply Z.mul_le_mono_nonneg_l; lia).
    assert (0 <= (y - s) * (y - s)) by nia. lia.
  - apply Z.div_le_mono; [lia|]. unfold Z.succ in *. nia.
Qed.

Lemma sqrt_loop_correct fuel x y z : 0 < x -> Z.sqrt x <= y ->
  (Z.sqrt x < y -> z = (x / y + y) / 2) -> (y = Z.sqrt x -> Z.sqrt x <= z) ->
  y - Z.sqrt x < 2 ^ (Z.of_nat fuel - 1) -> (0 < fuel)%nat ->
  sqrt_loop fuel (N x) (N y) (N z) = Ok (N (Z.sqrt x)).
Proof.
  revert y z. induction fuel as [|f IH]; intros y z Hx Hy Hz Hz' Hf Hf0; [lia|].
  cbn [sqrt_loop]. rewrite Cmp_N, big_Cmp_lt.
  assert (0 < Z.sqrt x) as Hs by (apply Z.sqrt_pos; lia).
  destruct (Z.eq_dec y (Z.sqrt x)) as [->|Hne].
  { specialize (Hz' eq_refl). by destruct (Z.ltb_spec z (Z.sqrt x)); [lia|]. }
  specialize (Hz ltac:(lia)). pose proof (newton_step x y Hx ltac:(lia)) as [L U].
  rewrite <- Hz in L, U.
  assert (2 * ((Z.sqrt x + y) / 2) <= Z.sqrt x + y) by (apply Z.mul_div_le; lia).
  destruct (Z.ltb_spec z y); [|lia].
  assert (Hf1 : (0 < f)%nat).
  { destruct f; [|lia]. change (2 ^ (Z.of_nat 1 - 1)) with 1 in Hf. lia. }
  unfold DivI. rewrite Div_N, Add_N, Div_N by lia.
  apply IH; [lia|lia|done| | |lia].
  - intros E. rewrite E. apply Z.div_le_lower_bound; [lia|].
    pose proof (Z.sqrt_spec x ltac:(lia)) as [S1 S2].
    assert (Z.sqrt x <= x / Z.sqrt x) by (apply Z.div_le_lower_bound; lia). lia.
  - replace (Z.of_nat (S f) - 1) with (Z.succ (Z.of_nat f - 1)) in Hf by lia.
    rewrite Z.pow_succ_r in Hf by lia. lia.
Qed.

Lemma Sqrt_nonneg x : 0 <= x -> Sqrt (N x) = Ok (N (Z.sqrt x)).
Proof.
  intros Hx. unfold Sqrt, IsNegative, CmpI. rewrite Cmp_N, big_Cmp_lt.
  destruct (Z.ltb_spec x 0); [lia|].
  unfold AddI, DivI. rewrite Add_N, Div_N by lia.
  destruct (Z.eq_dec x 0) as [->|Hne]; [reflexivity|].
  pose proof (Z.log2_nonneg x). pose proof (Z.log2_spec x ltac:(lia)) as [_ L].
  pose proof (Z.sqrt_le_lin x Hx). pose proof (Z.sqrt_nonneg x).
  unfold sqrt_fuel. cbn [V N NewNumber].
  apply sqrt_loop_correct; try lia.
  - intros _. rewrite Z.div_same by lia. f_equal. lia.
  - intros E. rewrite <- E at 1. apply Z.div_le_lower_bound; [lia|].
    pose proof (Z.sqrt_spec x Hx) as [S1 S2]. rewrite <- E in S1, S2. nia.
  - replace (Z.of_nat _ - 1) with (Z.succ (Z.log2 x)) by lia. lia.
Qed.

Lemma big_String_nospace v : Forall (fun c => is_space c = false) (big_String v).
Proof.
  assert (forall fuel z acc, 0 <= z -> Forall (fun c => is_space c = false) acc ->
    Forall (fun c => is_space c = false) (dec_digits fuel z acc)) as D.
  { assert (forall d, 0 <= d < 10 -> is_space (ascii_0 + d) = false) as Sp.
    { intros d Hd. unfold is_space, ascii_0.
      destruct (Z.eqb_spec (48 + d) 32), (Z.leb_spec 9 (48 + d)), (Z.leb_spec (48 + d) 13); try lia; done. }
    induction fuel as [|f IH]; intros z acc Hz H; cbn [dec_digits]; [done|].
    destruct (Z.ltb_spec z 10).
    - constructor; [apply Sp; lia|done].
    - apply IH; [apply Z.div_pos; lia|]. constructor; [|done].
      apply Sp. apply Z.mod_pos_bound. lia. }
  unfold big_String, dec_nonneg. destruct (Z.ltb_spec v 0).
  - constructor; [done|]. apply D; [lia|constructor].
  - apply D; [lia|constructor].
Qed.

Lemma big_String_no_brace v : HasPrefix (big_String v) (bs "{") = false.
Proof.
  unfold big_String. destruct (Z.ltb_spec v 0); [done|].
  destruct (dec_nonneg_head v ltac:(lia)) as (c & l & -> & Hc).
  change (bs "{") with [123]. cbn [HasPrefix]. by destruct (Z.eqb_spec c 123); [lia|].
Qed.

Lemma div_mod_ok a b : b <> 0 -> exists q m, big_Div a b = Ok q /\ big_Mod a b = Ok m.
Proof. intros H. unfold big_Div, big_Mod. destruct (Z.eqb_spec b 0); [done|]. eauto. Qed.

(** ** Theorems *)

(** Byte round trip: whatever the receiver held before, [SetBytes] of
    [x.Bytes()] is [x], for every non-nil number, negative ones included. *)
Theorem SetBytes_Bytes (y : Number) (v : Z) : SetBytes y (Bytes (N v)) = N v.
Proof. apply SetBytes_Bytes_Some. Qed.

(** [Sqrt] is total: it panics on a negative number and otherwise returns
    the integer square root (the Newton loop terminates within the fuel). *)
Theorem Sqrt_correct (v : Z) :
  Sqrt (N v) = if v <? 0 then Panic else Ok (N (Z.sqrt v)).
Proof.
  destruct (Z.ltb_spec v 0).
  - unfold Sqrt, IsNegative, CmpI. rewrite Cmp_N, big_Cmp_lt. by destruct (Z.ltb_spec v 0); [|lia].
  - by apply Sqrt_nonneg.
Qed.

(** [Div] and [Mod] panic exactly on a zero divisor and otherwise satisfy
    the Euclidean law: [a = b * (a / b) + a % b] with [0 <= a % b < |b|]. *)
Theorem Div_Mod_euclid (a b : Z) :
  (b = 0 /\ Div (N a) (N b) = Panic /\ Mod (N a) (N b) = Panic) \/
  (exists q m, Div (N a) (N b) = Ok (N q) /\ Mod (N a) (N b) = Ok (N m) /\
     a = b * q + m /\ 0 <= m < Z.abs b).
Proof.
  destruct (Z.eq_dec b 0) as [->|Hb]; [by left|right].
  destruct (div_mod_ok a b Hb) as (q & m & Eq & Em). exists q, m.
  unfold Div, Mod, lift2, with_V. cbn [V N NewNumber]. rewrite Eq, Em.
  destruct (big_Div_Mod a b q m Eq Em). done.
Qed.

(** JSON round trip: unmarshalling the text of a non-nil number gives the
    number, whatever the receiver held before. *)
Theorem JSON_roundtrip (garbage : Z) (y : Number) (v : Z) :
  UnmarshalJSON garbage y (MarshalJSON (Some (N v))) = Ok (N v).
Proof.
  unfold UnmarshalJSON, MarshalJSON. cbn [N NewNumber].
  rewrite TrimSpace_nospace by apply big_String_nospace.
  rewrite big_String_no_brace. cbn iota. by rewrite SetString_String.
Qed.
