(* ===== verification/RlpTypes.v ===== *)
(** * RLP: Go types, values and struct tags

    The package src/rlp works by reflection.  This file gives the universe it
    reflects on: [gotype] is the Go types the code tells apart (recursive types
    are outside it: a [gotype] is a finite tree), [goval] the values.  It also
    models src/rlp/typecache.go: struct-tag parsing, the selection of the coded
    fields of a struct, and the errors of type-info generation. *)

From S2P Require Import Prelude GoStrings BigNum.

(** A struct field: name, whether it is exported, and its [rlp] tag. *)
Record field := mkField { f_name : list Z; f_exported : bool; f_tag : list Z }.

#[local] Set Warnings "-register-all".

Inductive gotype :=
| TUint (bits : Z)               (* uint8 .. uint64, uint *)
| TInt (bits : Z)                (* int8 .. int64, int *)
| TBool
| TString
| TSlice (e : gotype)
| TArray (n : nat) (e : gotype)
| TStruct (name : list Z) (fs : list (field * gotype))
| TPtr (e : gotype)
| TMap (k e : gotype)
| TInterface (methods : nat)     (* number of methods; 0 is interface{} *)
| TRawValue                      (* rlp.RawValue *)
| TBigInt                        (* big.Int *)
| TNumber                        (* bn.Number *)
| TUnsupported (name : list Z).  (* floats, channels, functions, ... *)

(** Values.  Byte slices, byte arrays and [RawValue] are [VBytes]; other slices
    and arrays, and structs (all fields, in order), are [VList].  A nil slice or
    map is the empty one.  [VMap] lists the entries in the (unspecified) order
    in which the run time iterates them. *)
Inductive goval :=
| VUint (z : Z)
| VInt (z : Z)
| VBool (b : bool)
| VStr (s : list Z)
| VBytes (b : list Z)
| VList (vs : list goval)
| VPtr (o : option goval)
| VMap (kvs : list (goval * goval))
| VIface (o : option (gotype * goval))
| VBig (z : Z)
| VNum (n : Number).

(** ** Errors of the package *)

(** An entry of the context of a [decodeError]: ["[i]"], [".Field"] or ["(type)"]. *)
Inductive ctx_item :=
| CtxIndex (i : Z)
| CtxField (name : list Z)
| CtxType (t : gotype).

Inductive rlp_err :=
| EOL
| ErrExpectedString
| ErrExpectedList
| ErrCanonInt
| ErrCanonSize
| ErrElemTooLarge
| ErrValueTooLarge
| ErrMoreThanOneValue
| errNotInList
| errNotAtEOL
| errUintOverflow
| errDecodeIntoNil
| errNoPointer
| io_EOF
| io_ErrUnexpectedEOF
| decodeError (msg : list Z) (typ : gotype) (ctx : list ctx_item)
| errInvalidBool (num : Z)
| errNotSerializable (typ : gotype)
| errNegativeBigInt
| errTagTailNotLast (typ : list Z) (fname : list Z)
| errTagTailNotSlice (typ : list Z) (fname : list Z)
| errTagUnknown (tag : list Z) (typ : list Z) (fname : list Z).

Abbreviation result A := (res rlp_err A).

(** ** Struct tags: typecache.go *)

Record tags := mkTags { nilOK : bool; tail : bool; ignored : bool }.
Definition no_tags : tags := mkTags false false false.

(** [isUint] and [isInt] on the kind of a type. *)
Definition isUint (t : gotype) : bool := match t with TUint _ => true | _ => false end.
Definition isInt (t : gotype) : bool := match t with TInt _ => true | _ => false end.

(** [isByte]: kind [Uint8] (no type of the universe implements [Encoder]). *)
Definition isByte (t : gotype) : bool := match t with TUint b => b =? 8 | _ => false end.

Definition is_slice_kind (t : gotype) : bool :=
  match t with TSlice _ | TRawValue => true | _ => false end.

(** The loop of [parseStructTag] over the comma-separated parts. *)
Fixpoint parse_tag_parts (parts : list (list Z)) (nf fi : nat) (tname fname : list Z)
    (ft : gotype) (ts : tags) : result tags :=
  match parts with
  | [] => Ok ts
  | p :: ps =>
      let t := TrimSpace p in
      if str_eqb t [] then parse_tag_parts ps nf fi tname fname ft ts
      else if str_eqb t (bs "-") then
        parse_tag_parts ps nf fi tname fname ft (mkTags (nilOK ts) (tail ts) true)
      else if str_eqb t (bs "nil") then
        parse_tag_parts ps nf fi tname fname ft (mkTags true (tail ts) (ignored ts))
      else if str_eqb t (bs "tail") then
        if negb (Nat.eqb fi (nf - 1)) then Err (errTagTailNotLast tname fname)
        else if negb (is_slice_kind ft) then Err (errTagTailNotSlice tname fname)
        else parse_tag_parts ps nf fi tname fname ft (mkTags (nilOK ts) true (ignored ts))
      else Err (errTagUnknown t tname fname)
  end.

(** [parseStructTag] for field number [fi] of a struct of [nf] fields. *)
Definition parseStructTag (tname : list Z) (nf fi : nat) (f : field) (ft : gotype) : result tags :=
  parse_tag_parts (Split (f_tag f) 44) nf fi tname (f_name f) ft no_tags.

(** The tags of a coded field; [None] for a field [structFields] leaves out. *)
Definition fieldTags (tname : list Z) (nf fi : nat) (f : field) (ft : gotype) : option tags :=
  if f_exported f then
    match parseStructTag tname nf fi f ft with
    | Ok ts => if ignored ts then None else Some ts
    | _ => None
    end
  else None.

(** [structFields] as far as errors go: the first tag error, or the first error
    of a coded field's own type info. *)
Definition structFields_err (gen : gotype -> option rlp_err) (tname : list Z) (nf : nat) :=
  fix go (fi : nat) (fs : list (field * gotype)) : option rlp_err :=
    match fs with
    | [] => None
    | (f, ft) :: fs' =>
        if f_exported f then
          match parseStructTag tname nf fi f ft with
          | Ok ts =>
              if ignored ts then go (S fi) fs'
              else match gen ft with Some e => Some e | None => go (S fi) fs' end
          | Err e => Some e
          | _ => None
          end
        else go (S fi) fs'
    end.

(** [genTypeInfo]: the error of [makeDecoder] (and of [makeWriter], which fails
    on the same types) on a type, if any.  Maps and interfaces are accepted
    whatever they hold; their contents are checked when they are coded. *)
Fixpoint genTypeInfo_err (t : gotype) : option rlp_err :=
  match t with
  | TUnsupported _ => Some (errNotSerializable t)
  | TSlice e | TArray _ e => if isByte e then None else genTypeInfo_err e
  | TPtr TBigInt | TPtr TNumber => None
  | TPtr e => genTypeInfo_err e
  | TStruct name fs => structFields_err genTypeInfo_err name (length fs) O fs
  | _ => None
  end.

(** [cachedTypeInfo] and [cachedTypeInfo1]: the cache only memoises. *)
Definition cachedTypeInfo (t : gotype) : result unit :=
  match genTypeInfo_err t with Some e => Err e | None => Ok tt end.

(** ** Zero values *)

(** [reflect.Zero]. *)
Fixpoint zero (t : gotype) : goval :=
  match t with
  | TUint _ => VUint 0
  | TInt _ => VInt 0
  | TBool => VBool false
  | TString => VStr []
  | TSlice e => if isByte e then VBytes [] else VList []
  | TArray n e => if isByte e then VBytes (replicate n 0) else VList (replicate n (zero e))
  | TStruct _ fs => VList ((fix go fs := match fs with
                                         | [] => []
                                         | (_, ft) :: fs' => zero ft :: go fs'
                                         end) fs)
  | TPtr _ => VPtr None
  | TMap _ _ => VMap []
  | TInterface _ => VIface None
  | TRawValue => VBytes []
  | TBigInt => VBig 0
  | TNumber => VNum (mkNumber None)
  | TUnsupported _ => VIface None
  end.

Lemma zero_struct name fs : zero (TStruct name fs) = VList (zero ∘ snd <$> fs).
Proof. cbn [zero]. f_equal. induction fs as [|[f t] fs IH]; cbn; [done|]. by f_equal. Qed.

(** ** Induction over types and values *)

Section gotype_induction.
Variable P : gotype -> Prop.
Hypothesis HUint : forall b, P (TUint b).
Hypothesis HInt : forall b, P (TInt b).
Hypothesis HBool : P TBool.
Hypothesis HString : P TString.
Hypothesis HSlice : forall e, P e -> P (TSlice e).
Hypothesis HArray : forall n e, P e -> P (TArray n e).
Hypothesis HStruct : forall name fs, Forall (fun x => P x.2) fs -> P (TStruct name fs).
Hypothesis HPtr : forall e, P e -> P (TPtr e).
Hypothesis HMap : forall k e, P k -> P e -> P (TMap k e).
Hypothesis HInterface : forall m, P (TInterface m).
Hypothesis HRaw : P TRawValue.
Hypothesis HBig : P TBigInt.
Hypothesis HNum : P TNumber.
Hypothesis HUns : forall n, P (TUnsupported n).

Fixpoint gotype_ind' (t : gotype) : P t :=
  match t with
  | TUint b => HUint b
  | TInt b => HInt b
  | TBool => HBool
  | TString => HString
  | TSlice e => HSlice e (gotype_ind' e)
  | TArray n e => HArray n e (gotype_ind' e)
  | TStruct name fs =>
      HStruct name fs
        ((fix go fs : Forall (fun x => P x.2) fs :=
            match fs with
            | [] => Forall_nil_2 _
            | x :: fs' => Forall_cons_2 _ x fs' (gotype_ind' x.2) (go fs')
            end) fs)
  | TPtr e => HPtr e (gotype_ind' e)
  | TMap k e => HMap k e (gotype_ind' k) (gotype_ind' e)
  | TInterface m => HInterface m
  | TRawValue => HRaw
  | TBigInt => HBig
  | TNumber => HNum
  | TUnsupported n => HUns n
  end.
End gotype_induction.

Section goval_induction.
Variable P : goval -> Prop.
Hypothesis HUint : forall z, P (VUint z).
Hypothesis HInt : forall z, P (VInt z).
Hypothesis HBool : forall b, P (VBool b).
Hypothesis HStr : forall s, P (VStr s).
Hypothesis HBytes : forall b, P (VBytes b).
Hypothesis HList : forall vs, Forall P vs -> P (VList vs).
Hypothesis HPtrNil : P (VPtr None).
Hypothesis HPtr : forall v, P v -> P (VPtr (Some v)).
Hypothesis HMap : forall kvs, Forall (fun kv => P kv.1 /\ P kv.2) kvs -> P (VMap kvs).
Hypothesis HIfaceNil : P (VIface None).
Hypothesis HIface : forall t v, P v -> P (VIface (Some (t, v))).
Hypothesis HBig : forall z, P (VBig z).
Hypothesis HNum : forall n, P (VNum n).

Fixpoint goval_ind' (v : goval) : P v :=
  match v with
  | VUint z => HUint z
  | VInt z => HInt z
  | VBool b => HBool b
  | VStr s => HStr s
  | VBytes b => HBytes b
  | VList vs =>
      HList vs
        ((fix go vs : Forall P vs :=
            match vs with
            | [] => Forall_nil_2 _
            | x :: vs' => Forall_cons_2 _ x vs' (goval_ind' x) (go vs')
            end) vs)
  | VPtr None => HPtrNil
  | VPtr (Some x) => HPtr x (goval_ind' x)
  | VMap kvs =>
      HMap kvs
        ((fix go kvs : Forall (fun kv => P kv.1 /\ P kv.2) kvs :=
            match kvs with
            | [] => Forall_nil_2 _
            | x :: kvs' =>
                Forall_cons_2 _ x kvs' (conj (goval_ind' x.1) (goval_ind' x.2)) (go kvs')
            end) kvs)
  | VIface None => HIfaceNil
  | VIface (Some (t, x)) => HIface t x (goval_ind' x)
  | VBig z => HBig z
  | VNum n => HNum n
  end.
End goval_induction.

(** ** Well-typed values *)

Definition allP {A} (f : A -> Prop) :=
  fix go (l : list A) : Prop :=
    match l with [] => True | x :: l' => f x /\ go l' end.

Lemma allP_Forall {A} (f : A -> Prop) l : allP f l <-> Forall f l.
Proof. induction l; cbn; [by rewrite Forall_nil|]. by rewrite Forall_cons, IHl. Qed.

Definition fieldsP (f : goval -> gotype -> Prop) :=
  fix go (fs : list (field * gotype)) (vs : list goval) {struct vs} : Prop :=
    match fs, vs with
    | [], [] => True
    | (_, ft) :: fs', v :: vs' => f v ft /\ go fs' vs'
    | _, _ => False
    end.

Lemma fieldsP_Forall2 f fs vs : fieldsP f fs vs <-> Forall2 (fun x v => f v x.2) fs vs.
Proof.
  revert fs. induction vs as [|v vs IH]; intros [|[g t] fs]; cbn.
  - split; [constructor|done].
  - split; [done|]. intros H. inversion H.
  - split; [done|]. intros H. inversion H.
  - rewrite Forall2_cons. by rewrite IH.
Qed.

Definition width_ok (b : Z) : Prop := b = 8 \/ b = 16 \/ b = 32 \/ b = 64.

(** The values of a type, integers within their width. *)
Fixpoint wt (v : goval) (t : gotype) {struct v} : Prop :=
  match t, v with
  | TUint b, VUint z => width_ok b /\ in_uN b z
  | TInt b, VInt z => width_ok b /\ in_sN b z
  | TBool, VBool _ => True
  | TString, VStr s => bytes_ok s
  | TSlice e, VBytes b => isByte e = true /\ bytes_ok b
  | TSlice e, VList vs => isByte e = false /\ allP (fun x => wt x e) vs
  | TArray n e, VBytes b => isByte e = true /\ length b = n /\ bytes_ok b
  | TArray n e, VList vs => isByte e = false /\ length vs = n /\ allP (fun x => wt x e) vs
  | TStruct _ fs, VList vs => fieldsP wt fs vs
  | TPtr _, VPtr None => True
  | TPtr e, VPtr (Some x) => wt x e
  | TMap k e, VMap kvs => allP (fun kv => wt kv.1 k /\ wt kv.2 e) kvs
  | TInterface _, VIface None => True
  | TInterface _, VIface (Some (t', x)) => wt x t'
  | TRawValue, VBytes b => bytes_ok b
  | TBigInt, VBig _ => True
  | TNumber, VNum _ => True
  | _, _ => False
  end.

Lemma zero_wt_bytes n : bytes_ok (replicate n 0).
Proof. apply Forall_replicate. unfold byte_ok. lia. Qed.
