(* ===== verification/RlpEncode.v ===== *)
(** * RLP encoder

    Model of src/rlp/encode.go.  The encoder appends string data to an [encbuf]
    and keeps the list headers apart, with the offset at which each belongs: a
    header is opened by [list] and completed by [listEnd], and the pieces are put
    together by [toBytes], [toWriter] or an [encReader].  A [*listhead] is its
    index in [lheads].  The auxiliary [sizebuf] holds no state between calls. *)

From S2P Require Import Prelude GoSlice GoStrings BigNum RlpTypes.

Record listhead := mkHead { offset : Z; size : Z }.
Record encbuf := mkEncbuf { str : list Z; lheads : list listhead; lhsize : Z }.

(** [reset] (and a fresh [encbuf] of the pool). *)
Definition reset : encbuf := mkEncbuf [] [] 0.

Definition EmptyString : list Z := [0x80].
Definition EmptyList : list Z := [0xC0].

(** ** Integers and headers *)

(** [putint]: the bytes it stores at the start of its buffer, their number being
    the size it returns. *)
Definition putint (i : Z) : list Z :=
  if i <? Z.shiftl 1 8 then [u8 i]
  else if i <? Z.shiftl 1 16 then [u8 (Z.shiftr i 8); u8 i]
  else if i <? Z.shiftl 1 24 then [u8 (Z.shiftr i 16); u8 (Z.shiftr i 8); u8 i]
  else if i <? Z.shiftl 1 32 then
    [u8 (Z.shiftr i 24); u8 (Z.shiftr i 16); u8 (Z.shiftr i 8); u8 i]
  else if i <? Z.shiftl 1 40 then
    [u8 (Z.shiftr i 32); u8 (Z.shiftr i 24); u8 (Z.shiftr i 16); u8 (Z.shiftr i 8); u8 i]
  else if i <? Z.shiftl 1 48 then
    [u8 (Z.shiftr i 40); u8 (Z.shiftr i 32); u8 (Z.shiftr i 24); u8 (Z.shiftr i 16);
     u8 (Z.shiftr i 8); u8 i]
  else if i <? Z.shiftl 1 56 then
    [u8 (Z.shiftr i 48); u8 (Z.shiftr i 40); u8 (Z.shiftr i 32); u8 (Z.shiftr i 24);
     u8 (Z.shiftr i 16); u8 (Z.shiftr i 8); u8 i]
  else
    [u8 (Z.shiftr i 56); u8 (Z.shiftr i 48); u8 (Z.shiftr i 40); u8 (Z.shiftr i 32);
     u8 (Z.shiftr i 24); u8 (Z.shiftr i 16); u8 (Z.shiftr i 8); u8 i].

(** [intsize]: the loop shifts a byte out until nothing is left; a 64-bit number
    needs at most eight rounds. *)
Fixpoint intsize_loop (fuel : nat) (i sz : Z) : Z :=
  match fuel with
  | O => sz
  | S f => let i' := Z.shiftr i 8 in if i' =? 0 then sz else intsize_loop f i' (sz + 1)
  end.
Definition intsize (i : Z) : Z := intsize_loop 8 i 1.

Definition headsize (sz : Z) : Z := if sz <? 56 then 1 else 1 + intsize sz.

(** [puthead]: the bytes of a list or string header. *)
Definition puthead (smalltag largetag sz : Z) : list Z :=
  if sz <? 56 then [u8 (smalltag + u8 sz)]
  else let b := putint sz in u8 (largetag + zlen b) :: b.

(** [listhead.encode]. *)
Definition head_encode (h : listhead) : list Z := puthead 0xC0 0xF7 (u64 (size h)).

(** ** The encode buffer *)

Definition append (w : encbuf) (b : list Z) : encbuf :=
  mkEncbuf (str w ++ b) (lheads w) (lhsize w).

Definition encodeStringHeader (w : encbuf) (sz : Z) : encbuf :=
  if sz <? 56 then append w [u8 (0x80 + u8 sz)]
  else let b := putint (u64 sz) in append w (u8 (0xB7 + zlen b) :: b).

Definition encodeString (w : encbuf) (b : list Z) : encbuf :=
  match b with
  | [x] => if x <=? 0x7F then append w [x] else append (encodeStringHeader w (zlen b)) b
  | _ => append (encodeStringHeader w (zlen b)) b
  end.

Definition buf_size (w : encbuf) : Z := zlen (str w) + lhsize w.

(** [list]: opens a header, whose size field meanwhile holds [lhsize]. *)
Definition list_ (w : encbuf) : encbuf * nat :=
  (mkEncbuf (str w) (lheads w ++ [mkHead (zlen (str w)) (lhsize w)]) (lhsize w),
   length (lheads w)).

(** [listEnd]: completes the header with the size of what was written since. *)
Definition listEnd (w : encbuf) (lh : nat) : encbuf :=
  match lheads w !! lh with
  | None => w
  | Some h =>
      let sz := buf_size w - offset h - size h in
      mkEncbuf (str w) (<[lh := mkHead (offset h) sz]> (lheads w))
        (lhsize w + (if sz <? 56 then 1 else 1 + intsize (u64 sz)))
  end.

(** The loop of [toBytes] over the headers: output buffer and both positions. *)
Fixpoint toBytes_loop (s : list Z) (hs : list listhead) (out : list Z) (pos strpos : Z)
  : result (list Z * Z * Z) :=
  match hs with
  | [] => Ok (out, pos, strpos)
  | h :: hs' =>
      match slice s strpos (offset h) with
      | None => Panic
      | Some piece =>
          match copy_at out pos piece with
          | None => Panic
          | Some (out1, n) =>
              let enc := head_encode h in
              match write_at out1 (pos + n) enc with
              | None => Panic
              | Some out2 => toBytes_loop s hs' out2 (pos + n + zlen enc) (strpos + n)
              end
          end
      end
  end.

Definition toBytes (w : encbuf) : result (list Z) :=
  let* (out, pos, strpos) :=
    toBytes_loop (str w) (lheads w) (replicate (Z.to_nat (buf_size w)) 0) 0 0 in
  match slice_from (str w) strpos with
  | None => Panic
  | Some piece =>
      match copy_at out pos piece with
      | None => Panic
      | Some (out', _) => Ok out'
      end
  end.

(** ** Writers for the basic kinds *)

Definition writer := goval -> encbuf -> result encbuf.

Definition writeRawValue : writer := fun v w =>
  match v with VBytes b => Ok (append w b) | _ => Panic end.

(** The common tail of [writeUint] and [writeInt] for an unsigned [i]. *)
Definition append_uint (w : encbuf) (i : Z) (single : Z) : encbuf :=
  if i =? 0 then append w [0x80]
  else if i <? 128 then append w [u8 single]
  else let b := putint i in append w (u8 (0x80 + zlen b) :: b).

Definition writeUint : writer := fun v w =>
  match v with VUint i => Ok (append_uint w i i) | _ => Panic end.

(** [writeInt]: a negative number is cut to the unsigned type of its kind. *)
Definition writeInt (bits : Z) : writer := fun v w =>
  match v with
  | VInt i =>
      let x := if i <? 0 then u64 (uN bits i) else u64 i in
      Ok (append_uint w x i)
  | _ => Panic
  end.

Definition writeBool : writer := fun v w =>
  match v with VBool b => Ok (append w [if b then 0x01 else 0x80]) | _ => Panic end.

Definition writeBigInt (i : Z) (w : encbuf) : result encbuf :=
  if i <? 0 then Err errNegativeBigInt
  else if i =? 0 then Ok (append w [0x80])
  else Ok (encodeString w (be_min i)).

Definition writeBigIntPtr : writer := fun v w =>
  match v with
  | VPtr None => Ok (append w [0x80])
  | VPtr (Some (VBig i)) => writeBigInt i w
  | _ => Panic
  end.

Definition writeBigIntNoPtr : writer := fun v w =>
  match v with VBig i => writeBigInt i w | _ => Panic end.

Definition writeNumberPtr : writer := fun v w =>
  match v with
  | VPtr None => Ok (append w [0])
  | VPtr (Some (VNum n)) => Ok (encodeString w (Bytes n))
  | _ => Panic
  end.

Definition writeNumber : writer := fun v w =>
  match v with VNum n => Ok (encodeString w (Bytes n)) | _ => Panic end.

Definition writeBytes : writer := fun v w =>
  match v with VBytes b => Ok (encodeString w b) | _ => Panic end.

(** [writeByteArray]: the copy made for an unaddressable array has its bytes. *)
Definition writeByteArray : writer := fun v w =>
  match v with VBytes b => Ok (encodeString w b) | _ => Panic end.

Definition writeString : writer := fun v w =>
  match v with
  | VStr s =>
      match s with
      | [x] => if x <=? 0x7F then Ok (append w [x])
               else Ok (append (encodeStringHeader w (zlen s)) s)
      | _ => Ok (append (encodeStringHeader w (zlen s)) s)
      end
  | _ => Panic
  end.

(** ** Writers built from other writers *)

(** The element loop of a slice or array. *)
Definition write_elems (ew : goval -> encbuf -> result encbuf) :=
  fix go (vs : list goval) (w : encbuf) : result encbuf :=
    match vs with
    | [] => Ok w
    | v :: vs' => let* w' := ew v w in go vs' w'
    end.

(** [makeSliceWriter]: a header around the elements unless tagged [tail]. *)
Definition makeSliceWriter (ew : goval -> encbuf -> result encbuf) (ts : tags) : writer :=
  fun v w =>
    match v with
    | VList vs =>
        if tail ts then write_elems ew vs w
        else
          let '(w1, lh) := list_ w in
          let* w2 := write_elems ew vs w1 in
          Ok (listEnd w2 lh)
    | _ => Panic
    end.

(** The field loop of [makeStructWriter]; [fw] is the writer of a field type. *)
Definition write_fields (fw : goval -> gotype -> tags -> encbuf -> result encbuf)
    (tname : list Z) (nf : nat) :=
  fix go (fi : nat) (fs : list (field * gotype)) (vs : list goval) (w : encbuf) {struct vs}
    : result encbuf :=
    match fs, vs with
    | [], [] => Ok w
    | (f, ft) :: fs', v :: vs' =>
        match fieldTags tname nf fi f ft with
        | None => go (S fi) fs' vs' w
        | Some ts => let* w' := fw v ft ts w in go (S fi) fs' vs' w'
        end
    | _, _ => Panic
    end.

Definition makeStructWriter (fw : goval -> gotype -> tags -> encbuf -> result encbuf)
    (tname : list Z) (fs : list (field * gotype)) : writer :=
  fun v w =>
    match v with
    | VList vs =>
        let '(w1, lh) := list_ w in
        let* w2 := write_fields fw tname (length fs) O fs vs w1 in
        Ok (listEnd w2 lh)
    | _ => Panic
    end.

(** [writeInterface]: the empty list for nil, else the value inside, through the
    type info of its dynamic type. *)
Definition writeInterface (ew : goval -> gotype -> tags -> encbuf -> result encbuf) : writer :=
  fun v w =>
    match v with
    | VIface None => Ok (append w [0xC0])
    | VIface (Some (t, x)) => let* _ := cachedTypeInfo t in ew x t no_tags w
    | _ => Panic
    end.

(** *** Maps *)

(** The [less] function of [writeMap]'s sort. *)
Fixpoint bytes_lt (a b : list Z) : bool :=
  match a, b with
  | _, [] => false
  | [], _ :: _ => true
  | x :: a', y :: b' => if x =? y then bytes_lt a' b' else x <? y
  end.

Definition key_less (a b : goval) : bool :=
  match a, b with
  | VStr x, VStr y => bytes_lt x y
  | VUint x, VUint y => x <? y
  | VInt x, VInt y => x <? y
  | _, _ => false
  end.

(** [sort.SliceStable]. *)
Section stable_sort.
Context {A : Type} (less : A -> A -> bool).

Fixpoint sort_insert (x : A) (l : list A) : list A :=
  match l with
  | [] => [x]
  | y :: l' => if less y x then y :: sort_insert x l' else x :: y :: l'
  end.

Fixpoint SliceStable (l : list A) : list A :=
  match l with
  | [] => []
  | x :: l' => sort_insert x (SliceStable l')
  end.
End stable_sort.

(** [EncodeToBytes] of a value of type [[][]byte]. *)
Definition EncodeByteSlices (bss : list (list Z)) : result (list Z) :=
  let* w := makeSliceWriter writeBytes no_tags (VList (VBytes <$> bss)) reset in
  toBytes w.

(** [EncodeToBytes(x.Interface())] for a map key or element: an interface value
    is replaced by what it holds, and a nil one makes [reflect] panic. *)
Definition encode_iface (enc : goval -> gotype -> result (list Z)) (v : goval) (t : gotype)
  : result (list Z) :=
  match v with
  | VIface (Some (t', x)) => enc x t'
  | VIface None => Panic
  | _ => enc v t
  end.

(** The encoded key-value pairs, in iteration order, with their keys. *)
Definition map_entries (enc : goval -> gotype -> result (list Z)) (kt et : gotype) :=
  fix go (kvs : list (goval * goval)) : list (goval * result (list Z)) :=
    match kvs with
    | [] => []
    | (k, x) :: kvs' =>
        (k, let* kb := encode_iface enc k kt in
            let* vb := encode_iface enc x et in
            EncodeByteSlices [kb; vb]) :: go kvs'
    end.

(** [writeMap]: pairs sorted by key, each a two-element list of encodings, the
    whole list wrapped in a string. *)
Definition writeMap (enc : goval -> gotype -> result (list Z)) (kt et : gotype) : writer :=
  fun v w =>
    match v with
    | VMap kvs =>
        let es := SliceStable (fun a b => key_less a.1 b.1) (map_entries enc kt et kvs) in
        let* enKVs := res_all es.*2 in
        let* b := EncodeByteSlices enKVs in
        Ok (encodeString w b)
    | _ => Panic
    end.

(** *** Nil pointers: the [nilfunc] of [makePtrWriter] for element type [e].
    For the default kinds it writes [reflect.Zero(e)]. *)
Fixpoint nilfunc (e : gotype) (w : encbuf) : result encbuf :=
  match e with
  | TArray _ a =>
      if isByte a then Ok (append w [0x80]) else let '(w1, lh) := list_ w in Ok (listEnd w1 lh)
  | TStruct _ _ => let '(w1, lh) := list_ w in Ok (listEnd w1 lh)
  | TPtr TBigInt => writeBigIntPtr (VPtr None) w
  | TPtr TNumber => writeNumberPtr (VPtr None) w
  | TPtr e' => nilfunc e' w
  | TUint _ => writeUint (VUint 0) w
  | TInt b => writeInt b (VInt 0) w
  | TBool => writeBool (VBool false) w
  | TString => writeString (VStr []) w
  | TSlice a =>
      if isByte a then writeBytes (VBytes []) w
      else makeSliceWriter (fun _ _ => Panic) no_tags (VList []) w
  | TMap kt et => writeMap (fun _ _ => Panic) kt et (VMap []) w
  | TInterface _ => Ok (append w [0xC0])
  | TRawValue => writeRawValue (VBytes []) w
  | TBigInt => writeBigIntNoPtr (VBig 0) w
  | TNumber => writeNumber (VNum (mkNumber None)) w
  | TUnsupported _ => Panic
  end.

Definition makePtrWriter (ew : goval -> encbuf -> result encbuf) (e : gotype) : writer :=
  fun v w =>
    match v with
    | VPtr None => nilfunc e w
    | VPtr (Some x) => ew x w
    | _ => Panic
    end.

(** ** [makeWriter]

    The writer of type [t] with tags [ts], applied to a value: the cases of the
    switch in order.  The recursion is on the value. *)
Fixpoint makeWriter (v : goval) (t : gotype) (ts : tags) (w : encbuf) {struct v} : result encbuf :=
  match t with
  | TRawValue => writeRawValue v w
  | TInterface _ => writeInterface makeWriter v w
  | TPtr TBigInt => writeBigIntPtr v w
  | TBigInt => writeBigIntNoPtr v w
  | TPtr TNumber => writeNumberPtr v w
  | TNumber => writeNumber v w
  | TUint _ => writeUint v w
  | TInt b => writeInt b v w
  | TMap kt et =>
      writeMap (fun x t' =>
                  let* _ := cachedTypeInfo t' in
                  let* w' := makeWriter x t' no_tags reset in
                  toBytes w') kt et v w
  | TBool => writeBool v w
  | TString => writeString v w
  | TSlice e =>
      if isByte e then writeBytes v w
      else makeSliceWriter (fun x => makeWriter x e no_tags) ts v w
  | TArray _ e =>
      if isByte e then writeByteArray v w
      else makeSliceWriter (fun x => makeWriter x e no_tags) ts v w
  | TStruct name fs => makeStructWriter makeWriter name fs v w
  | TPtr e => makePtrWriter (fun x => makeWriter x e no_tags) e v w
  | TUnsupported _ => Err (errNotSerializable t)
  end.

(** [encbuf.encode]. *)
Definition encode (v : goval) (t : gotype) (w : encbuf) : result encbuf :=
  let* _ := cachedTypeInfo t in makeWriter v t no_tags w.

Definition EncodeToBytes (v : goval) (t : gotype) : result (list Z) :=
  let* w := encode v t reset in toBytes w.
