(* ===== verification/RlpEncodeSpec.v ===== *)
(** * RLP: the reference encoding, and that the encode buffer implements it

    The reference encoder [enc_val] is compositional: the encoding of a value is
    built from the encodings of its parts, a list's header standing before its
    payload.  The encoder of encode.go defers headers; the theorems show that
    what [toBytes] assembles is the reference encoding. *)

From S2P Require Import Prelude GoSlice GoStrings BigNum RlpTypes RlpEncode.

(** ** The reference encoding *)

Definition header (small large n : Z) : list Z :=
  if n <? 56 then [small + n] else (large + zlen (be_min n)) :: be_min n.

(** An RLP string: a byte below 0x80 is its own encoding. *)
Definition enc_string (b : list Z) : list Z :=
  match b with
  | [x] => if x <? 0x80 then [x] else header 0x80 0xB7 1 ++ b
  | _ => header 0x80 0xB7 (zlen b) ++ b
  end.

(** An RLP list with the given payload. *)
Definition enc_list (payload : list Z) : list Z := header 0xC0 0xF7 (zlen payload) ++ payload.

(** A non-negative integer: the RLP string of its minimal big-endian bytes. *)
Definition enc_nat (i : Z) : list Z := enc_string (be_min i).

Definition enc_elems (ee : goval -> result (list Z)) :=
  fix go (vs : list goval) : result (list Z) :=
    match vs with
    | [] => Ok []
    | v :: vs' => let* b := ee v in let* r := go vs' in Ok (b ++ r)
    end.

Definition enc_fields (fe : goval -> gotype -> tags -> result (list Z)) (tname : list Z) (nf : nat) :=
  fix go (fi : nat) (fs : list (field * gotype)) (vs : list goval) {struct vs} : result (list Z) :=
    match fs, vs with
    | [], [] => Ok []
    | (f, ft) :: fs', v :: vs' =>
        match fieldTags tname nf fi f ft with
        | None => go (S fi) fs' vs'
        | Some ts => let* b := fe v ft ts in let* r := go (S fi) fs' vs' in Ok (b ++ r)
        end
    | _, _ => Panic
    end.

Definition enc_pair (enc : goval -> gotype -> result (list Z)) (kt et : gotype) (kv : goval * goval)
  : result (list Z) :=
  let* kb := encode_iface enc kv.1 kt in
  let* vb := encode_iface enc kv.2 et in
  Ok (enc_list (enc_string kb ++ enc_string vb)).

Definition enc_entries (enc : goval -> gotype -> result (list Z)) (kt et : gotype) :=
  fix go (kvs : list (goval * goval)) : list (goval * result (list Z)) :=
    match kvs with
    | [] => []
    | (k, x) :: kvs' => (k, enc_pair enc kt et (k, x)) :: go kvs'
    end.

Definition enc_map (enc : goval -> gotype -> result (list Z)) (kt et : gotype)
    (kvs : list (goval * goval)) : result (list Z) :=
  let* bss := res_all (SliceStable (fun a b => key_less a.1 b.1) (enc_entries enc kt et kvs)).*2 in
  Ok (enc_string (enc_list (concat (enc_string <$> bss)))).

(** The encoding of a nil pointer to [e]: of the zero value of [e], except that
    structs and arrays give the empty list (byte arrays the empty string). *)
Fixpoint enc_nilptr (e : gotype) : list Z :=
  match e with
  | TArray _ a => if isByte a then [0x80] else [0xC0]
  | TStruct _ _ => [0xC0]
  | TPtr TBigInt => [0x80]
  | TPtr TNumber => [0]
  | TPtr e' => enc_nilptr e'
  | TUint _ | TInt _ | TBool | TString | TBigInt | TNumber => [0x80]
  | TSlice a => if isByte a then [0x80] else [0xC0]
  | TMap _ _ => [0x81; 0xC0]
  | TInterface _ => [0xC0]
  | TRawValue => []
  | TUnsupported _ => []
  end.

Fixpoint enc_val (v : goval) (t : gotype) (ts : tags) {struct v} : result (list Z) :=
  match t, v with
  | TRawValue, VBytes b => Ok b
  | TInterface _, VIface None => Ok [0xC0]
  | TInterface _, VIface (Some (t', x)) => let* _ := cachedTypeInfo t' in enc_val x t' no_tags
  | TPtr TBigInt, VPtr None => Ok [0x80]
  | TPtr TBigInt, VPtr (Some (VBig i)) => if i <? 0 then Err errNegativeBigInt else Ok (enc_nat i)
  | TBigInt, VBig i => if i <? 0 then Err errNegativeBigInt else Ok (enc_nat i)
  | TPtr TNumber, VPtr None => Ok [0]
  | TPtr TNumber, VPtr (Some (VNum n)) => Ok (enc_string (Bytes n))
  | TNumber, VNum n => Ok (enc_string (Bytes n))
  | TUint _, VUint i => Ok (enc_nat i)
  | TInt b, VInt i => Ok (enc_nat (uN b i))
  | TMap kt et, VMap kvs =>
      enc_map (fun x t' => let* _ := cachedTypeInfo t' in enc_val x t' no_tags) kt et kvs
  | TBool, VBool b => Ok [if b then 0x01 else 0x80]
  | TString, VStr s => Ok (enc_string s)
  | TSlice e, VBytes b => if isByte e then Ok (enc_string b) else Panic
  | TSlice e, VList vs =>
      if isByte e then Panic
      else let* p := enc_elems (fun x => enc_val x e no_tags) vs in
           Ok (if tail ts then p else enc_list p)
  | TArray _ e, VBytes b => if isByte e then Ok (enc_string b) else Panic
  | TArray _ e, VList vs =>
      if isByte e then Panic
      else let* p := enc_elems (fun x => enc_val x e no_tags) vs in
           Ok (if tail ts then p else enc_list p)
  | TStruct name fs, VList vs =>
      let* p := enc_fields enc_val name (length fs) O fs vs in Ok (enc_list p)
  | TPtr e, VPtr None =>
      match genTypeInfo_err e with Some _ => Panic | None => Ok (enc_nilptr e) end
  | TPtr e, VPtr (Some x) => enc_val x e no_tags
  | TUnsupported _, _ => Err (errNotSerializable t)
  | _, _ => Panic
  end.

(** The reference for [EncodeToBytes]. *)
Definition enc_bytes (v : goval) (t : gotype) : result (list Z) :=
  let* _ := cachedTypeInfo t in enc_val v t no_tags.

(** ** Integers and headers of the code agree with the reference *)

Lemma nbytes_small i : 0 < i < 256 -> nbytes i = 1%nat.
Proof. intros H. apply nbytes_unique; [|lia]. cbn. lia. Qed.

Lemma nbytes_div i : 256 <= i -> nbytes i = S (nbytes (i / 256)).
Proof.
  intros H. assert (1 <= i / 256) by (apply Z.div_le_lower_bound; lia).
  pose proof (nbytes_bounds (i / 256) ltac:(lia)) as [B1 B2].
  pose proof (nbytes_pos (i / 256) ltac:(lia)).
  pose proof (Z.div_mod i 256). pose proof (Z.mod_pos_bound i 256).
  apply nbytes_unique; [|lia]. split.
  - replace (Z.of_nat (S (nbytes (i / 256))) - 1)
      with (Z.succ (Z.of_nat (nbytes (i / 256)) - 1)) by lia.
    rewrite Z.pow_succ_r by lia. lia.
  - rewrite Nat2Z.inj_succ, Z.pow_succ_r by lia. lia.
Qed.

Lemma intsize_loop_spec f i sz : 0 < i < 256 ^ Z.of_nat (S f) ->
  intsize_loop (S f) i sz = sz + Z.of_nat (nbytes i) - 1.
Proof.
  revert i sz. induction f as [|f IH]; intros i sz H.
  - change (256 ^ Z.of_nat 1) with 256 in H. cbn [intsize_loop].
    rewrite Z.shiftr_div_pow2 by lia. change (2 ^ 8) with 256.
    rewrite Z.div_small, nbytes_small by lia. cbn [Z.eqb]. lia.
  - cbn [intsize_loop] in IH |- *. rewrite Z.shiftr_div_pow2 by lia. change (2 ^ 8) with 256.
    destruct (Z.eqb_spec (i / 256) 0) as [E|E].
    + apply Z.div_small_iff in E; [|lia]. rewrite nbytes_small by lia. lia.
    + assert (256 <= i).
      { destruct (Z.le_gt_cases 256 i); [done|]. rewrite Z.div_small in E by lia. done. }
      rewrite IH.
      * rewrite (nbytes_div i) by done. lia.
      * split; [pose proof (Z.div_pos i 256); lia|].
        apply Z.div_lt_upper_bound; [lia|].
        rewrite Nat2Z.inj_succ, Z.pow_succ_r in H by lia. lia.
Qed.

Lemma intsize_spec i : 0 < i < 2 ^ 64 -> intsize i = Z.of_nat (nbytes i).
Proof. intros H. unfold intsize. rewrite intsize_loop_spec; [lia|]. done. Qed.

Lemma be_min_eq n i : 256 ^ (Z.of_nat n - 1) <= i < 256 ^ Z.of_nat n -> 0 < i ->
  be_min i = be_bytes n i.
Proof. intros H H0. unfold be_min. rewrite Z.abs_eq by lia. by rewrite (nbytes_unique i n). Qed.

Lemma u8_shiftr i k : 0 <= k -> u8 (Z.shiftr i (8 * k)) = (i / 256 ^ k) mod 256.
Proof. intros H. unfold uN. rewrite Z.shiftr_div_pow2 by lia. by rewrite pow256. Qed.

Lemma putint_spec i : 0 < i < 2 ^ 64 -> putint i = be_min i.
Proof.
  intros H. unfold putint. rewrite !Z.shiftl_1_l.
  repeat (match goal with |- context [i <? ?n] => destruct (Z.ltb_spec i n) end;
    [match goal with
     | |- [_] = _ => rewrite (be_min_eq 1)
     | |- [_; _] = _ => rewrite (be_min_eq 2)
     | |- [_; _; _] = _ => rewrite (be_min_eq 3)
     | |- [_; _; _; _] = _ => rewrite (be_min_eq 4)
     | |- [_; _; _; _; _] = _ => rewrite (be_min_eq 5)
     | |- [_; _; _; _; _; _] = _ => rewrite (be_min_eq 6)
     | |- [_; _; _; _; _; _; _] = _ => rewrite (be_min_eq 7)
     end; [cbn [be_bytes app]|cbn; lia|lia]|]).
  all: try (rewrite (be_min_eq 8) by (cbn; lia); cbn [be_bytes app]).
  all: change (u8 (Z.shiftr i 8)) with (u8 (Z.shiftr i (8 * 1))).
  all: change (u8 (Z.shiftr i 16)) with (u8 (Z.shiftr i (8 * 2))).
  all: change (u8 (Z.shiftr i 24)) with (u8 (Z.shiftr i (8 * 3))).
  all: change (u8 (Z.shiftr i 32)) with (u8 (Z.shiftr i (8 * 4))).
  all: change (u8 (Z.shiftr i 40)) with (u8 (Z.shiftr i (8 * 5))).
  all: change (u8 (Z.shiftr i 48)) with (u8 (Z.shiftr i (8 * 6))).
  all: change (u8 (Z.shiftr i 56)) with (u8 (Z.shiftr i (8 * 7))).
  all: rewrite ?u8_shiftr by lia.
  all: rewrite ?Z.div_div by lia; reflexivity.
Qed.

Lemma be_min_small i : 0 < i < 256 -> be_min i = [i].
Proof.
  intros H. rewrite (be_min_eq 1) by (cbn; lia). cbn [be_bytes app].
  by rewrite Z.mod_small by lia.
Qed.

Lemma be_min_len_pos i : 0 < i -> 0 < zlen (be_min i).
Proof. intros H. unfold zlen. rewrite be_min_length, Z.abs_eq by lia. pose proof (nbytes_pos i). lia. Qed.

Lemma be_min_len_le i n : 0 <= i < 256 ^ Z.of_nat n -> zlen (be_min i) <= Z.of_nat n.
Proof.
  intros H. unfold zlen. rewrite be_min_length, Z.abs_eq by lia.
  pose proof (nbytes_le i n). lia.
Qed.

Lemma puthead_spec small large n : 0 <= n < 2 ^ 64 -> 0 <= small <= 0xC0 -> 0 <= large <= 0xF7 ->
  puthead small large n = header small large n.
Proof.
  intros Hn Hs Hl. unfold puthead, header. destruct (Z.ltb_spec n 56).
  - rewrite !uN_id; [done|unfold in_uN; lia|]. unfold in_uN. rewrite uN_id; unfold in_uN; lia.
  - rewrite putint_spec by lia. rewrite uN_id; [done|].
    pose proof (be_min_len_le n 8 ltac:(cbn; lia)). pose proof (zlen_nonneg (be_min n)).
    unfold in_uN. cbn in *. lia.
Qed.

Lemma header_len n small large : 0 <= n < 2 ^ 64 -> zlen (header small large n) = headsize n.
Proof.
  intros H. unfold header, headsize. destruct (Z.ltb_spec n 56); [done|].
  rewrite zlen_cons, intsize_spec by lia. unfold zlen. rewrite be_min_length, Z.abs_eq by lia. lia.
Qed.

Lemma enc_string_header b : (forall x, b = [x] -> 0x80 <= x) ->
  enc_string b = header 0x80 0xB7 (zlen b) ++ b.
Proof.
  intros H. destruct b as [|x [|y b]]; try done. specialize (H x eq_refl).
  cbn [enc_string]. by destruct (Z.ltb_spec x 128); [lia|].
Qed.

Lemma encodeStringHeader_spec w n : 0 <= n < 2 ^ 64 ->
  encodeStringHeader w n = append w (header 0x80 0xB7 n).
Proof.
  intros H. rewrite <- puthead_spec by lia. unfold encodeStringHeader, puthead.
  destruct (Z.ltb_spec n 56); [done|]. by rewrite (uN_id 64 n) by done.
Qed.

Lemma append_app w a b : append (append w a) b = append w (a ++ b).
Proof. unfold append. cbn. by rewrite (assoc app). Qed.

Lemma encodeString_spec w b : zlen b < 2 ^ 64 -> encodeString w b = append w (enc_string b).
Proof.
  intros H. pose proof (zlen_nonneg b).
  assert (append (encodeStringHeader w (zlen b)) b = append w (header 0x80 0xB7 (zlen b) ++ b)) as E.
  { by rewrite encodeStringHeader_spec, append_app by lia. }
  destruct b as [|x [|y b]]; try done. cbn [encodeString enc_string].
  destruct (Z.leb_spec x 127), (Z.ltb_spec x 128); try lia; [done|exact E].
Qed.

Lemma append_uint_spec w i s : 0 <= i < 2 ^ 64 -> (0 < i < 128 -> s = i) ->
  append_uint w i s = append w (enc_nat i).
Proof.
  intros H Hs. unfold append_uint, enc_nat. destruct (Z.eqb_spec i 0) as [->|]; [done|].
  destruct (Z.ltb_spec i 128).
  - rewrite Hs, be_min_small by lia. cbn [enc_string]. destruct (Z.ltb_spec i 128); [|lia].
    rewrite uN_id by (unfold in_uN; lia). done.
  - rewrite putint_spec by lia. rewrite enc_string_header.
    + pose proof (be_min_len_le i 8 ltac:(cbn; lia)). pose proof (zlen_nonneg (be_min i)).
      unfold header. destruct (Z.ltb_spec (zlen (be_min i)) 56); [|lia].
      rewrite uN_id by (unfold in_uN; lia). done.
    + intros x E. pose proof (be_val_min i) as V. rewrite E in V.
      rewrite be_val_cons in V. change (256 ^ zlen []) with 1 in V. rewrite be_val_nil in V. lia.
Qed.

(** ** Deferred headers *)

Definition shift (k : Z) (h : listhead) : listhead := mkHead (offset h + k) (size h).

(** What a writer adds to a buffer, as a buffer of its own. *)
Definition cat (w s : encbuf) : encbuf :=
  mkEncbuf (str w ++ str s) (lheads w ++ (shift (zlen (str w)) <$> lheads s)) (lhsize w + lhsize s).

(** The bytes of a string with headers inserted; [pos] is the offset of [s]. *)
Fixpoint render (hs : list listhead) (pos : Z) (s : list Z) : list Z :=
  match hs with
  | [] => s
  | h :: hs' =>
      let n := Z.to_nat (offset h - pos) in
      take n s ++ head_encode h ++ render hs' (offset h) (drop n s)
  end.

(** Offsets ascend between [pos] and [total]. *)
Fixpoint heads_ok (pos : Z) (hs : list listhead) (total : Z) : Prop :=
  match hs with
  | [] => pos <= total
  | h :: hs' => pos <= offset h /\ heads_ok (offset h) hs' total
  end.

(** A buffer whose headers are complete, and the bytes it stands for. *)
Definition closes (s : encbuf) (b : list Z) : Prop :=
  heads_ok 0 (lheads s) (zlen (str s)) /\ render (lheads s) 0 (str s) = b /\ buf_size s = zlen b.

Lemma heads_ok_le pos hs total : heads_ok pos hs total -> pos <= total.
Proof. revert pos; induction hs as [|h hs IH]; intros pos; cbn; [done|]. intros [H H']. apply IH in H'. lia. Qed.

Lemma heads_ok_shift k pos hs total :
  heads_ok pos hs total -> heads_ok (pos + k) (shift k <$> hs) (total + k).
Proof.
  revert pos; induction hs as [|h hs IH]; intros pos; cbn; [lia|].
  intros [H H']. split; [lia|]. by apply IH.
Qed.

Lemma heads_ok_lower pos pos' hs total :
  pos' <= pos -> heads_ok pos hs total -> heads_ok pos' hs total.
Proof. destruct hs; cbn; [lia|]. intros H [H1 H2]. split; [lia|done]. Qed.

Lemma heads_ok_app pos hs hs' mid total :
  heads_ok pos hs mid -> heads_ok mid hs' total -> heads_ok pos (hs ++ hs') total.
Proof.
  revert pos; induction hs as [|h hs IH]; intros pos; cbn [heads_ok app].
  - apply heads_ok_lower.
  - intros [H1 H2] H. split; [done|]. by apply IH.
Qed.

Lemma render_shift k hs pos s : render (shift k <$> hs) (pos + k) s = render hs pos s.
Proof.
  revert pos s; induction hs as [|h hs IH]; intros pos s; [done|].
  change (shift k <$> h :: hs) with (shift k h :: (shift k <$> hs)). cbn [render shift offset].
  replace (offset h + k - (pos + k)) with (offset h - pos) by lia.
  by rewrite IH.
Qed.

Lemma render_app hs hs' pos s s' : heads_ok pos hs (pos + zlen s) -> heads_ok 0 hs' (zlen s') ->
  render (hs ++ (shift (pos + zlen s) <$> hs')) pos (s ++ s') = render hs pos s ++ render hs' 0 s'.
Proof.
  revert pos s; induction hs as [|h hs IH]; intros pos s Hs Hs'.
  - destruct hs' as [|h hs']; [done|]. destruct Hs' as [H0 Hs'].
    cbn [app fmap list_fmap render].
    change (shift (pos + zlen s) <$> h :: hs') with (shift (pos + zlen s) h :: (shift (pos + zlen s) <$> hs')).
    cbn [render shift offset].
    replace (Z.to_nat (offset h + (pos + zlen s) - pos)) with (length s + Z.to_nat (offset h - 0))%nat
      by (unfold zlen; lia).
    rewrite take_app_add, drop_app_add.
    rewrite render_shift. by rewrite <- (assoc app).
  - cbn [heads_ok] in Hs. destruct Hs as [H1 H2]. pose proof (heads_ok_le _ _ _ H2) as L.
    cbn [app render]. set (n := Z.to_nat (offset h - pos)).
    assert (n <= length s)%nat by (unfold n, zlen in *; lia).
    rewrite take_app_le, drop_app_le by done.
    replace (pos + zlen s) with (offset h + zlen (drop n s))
      by (unfold zlen; rewrite length_drop; unfold n, zlen in *; lia).
    rewrite IH; [by rewrite <- !(assoc app)| |done].
    replace (offset h + zlen (drop n s)) with (pos + zlen s); [done|].
    unfold zlen; rewrite length_drop; unfold n, zlen in *; lia.
Qed.

Lemma closes_cat s s' b b' : closes s b -> closes s' b' -> closes (cat s s') (b ++ b').
Proof.
  intros (H1 & H2 & H3) (H1' & H2' & H3'). unfold closes, cat, buf_size in *.
  cbn [str lheads lhsize]. split_and!.
  - rewrite zlen_app. eapply heads_ok_app; [exact H1|].
    replace (zlen (str s)) with (0 + zlen (str s)) at 1 by lia.
    rewrite (Z.add_comm (zlen (str s))). by apply heads_ok_shift.
  - rewrite <- H2, <- H2'. by apply (render_app _ _ 0).
  - rewrite !zlen_app. lia.
Qed.

Lemma cat_assoc w s s' : cat (cat w s) s' = cat w (cat s s').
Proof.
  unfold cat. cbn [str lheads lhsize]. f_equal; [by rewrite (assoc app)| |lia].
  rewrite fmap_app, <- (assoc app). do 2 f_equal. rewrite <- list_fmap_compose.
  apply list_fmap_ext. intros _ h _. unfold shift. cbn. f_equal. rewrite zlen_app. lia.
Qed.

Lemma cat_reset s : cat reset s = s.
Proof.
  unfold cat, reset. destruct s as [s hs n]. cbn [str lheads lhsize app]. f_equal.
  rewrite <- (list_fmap_id hs) at 2. apply list_fmap_ext. intros _ [o z] _.
  unfold shift. cbn. f_equal. rewrite zlen_nil. lia.
Qed.

(** ** [toBytes] of a closed buffer *)

Lemma toBytes_loop_spec s hs : forall done_ todo s1 s2, s = s1 ++ s2 ->
  heads_ok (zlen s1) hs (zlen s) -> zlen todo = zlen (render hs (zlen s1) s2) ->
  (let* (out, pos, strpos) := toBytes_loop s hs (done_ ++ todo) (zlen done_) (zlen s1) in
   match slice_from s strpos with
   | None => Panic
   | Some piece =>
       match copy_at out pos piece with None => Panic | Some (out', _) => Ok out' end
   end) = @Ok rlp_err _ (done_ ++ render hs (zlen s1) s2).
Proof.
  induction hs as [|h hs IH]; intros done_ todo s1 s2 E Hs Hl; cbn [toBytes_loop render] in *.
  - rewrite E, slice_from_app, copy_at_mid by lia.
    rewrite drop_ge by (unfold zlen in Hl; lia). by rewrite app_nil_r.
  - destruct Hs as [H1 H2]. pose proof (heads_ok_le _ _ _ H2) as L.
    set (n := Z.to_nat (offset h - zlen s1)) in *.
    assert (Hn : (n <= length s2)%nat) by (rewrite E in L; unfold n in *; zl; unfold zlen in *; lia).
    pose proof (take_drop n s2) as Es. set (a := take n s2) in *. set (b := drop n s2) in *.
    assert (Ha : zlen a = offset h - zlen s1).
    { unfold a, zlen. rewrite length_take. unfold n, zlen in *. lia. }
    clearbody a b n. subst s2. assert (Eo : offset h = zlen s1 + zlen a) by lia.
    rewrite Eo in *. rewrite E at 1. rewrite slice_mid, copy_at_mid by zl.
    replace (done_ ++ a ++ drop (length a) todo) with ((done_ ++ a) ++ drop (length a) todo)
      by by rewrite (assoc app).
    assert (Ht : zlen (drop (length a) todo) = zlen todo - zlen a).
    { unfold zlen. rewrite length_drop. zl. unfold zlen in *. lia. }
    rewrite <- !zlen_app in H2, Hl |- *. rewrite write_at_mid by zl.
    rewrite <- !zlen_app, (assoc app (done_ ++ a)). rewrite (IH _ _ _ b).
    + by rewrite <- !(assoc app).
    + by rewrite <- (assoc app).
    + done.
    + unfold zlen in *. rewrite !length_drop. rewrite !length_app in *. lia.
Qed.

Lemma toBytes_closed s b : closes s b -> toBytes s = Ok b.
Proof.
  intros (H1 & H2 & H3). unfold toBytes.
  rewrite <- H2.
  apply (toBytes_loop_spec (str s) (lheads s) [] (replicate (Z.to_nat (buf_size s)) 0) []); [done..|].
  change (zlen []) with 0. rewrite H2, H3. unfold zlen at 1. rewrite length_replicate. zl.
Qed.

(** ** Writers that implement an encoding *)

(** [f] adds to any buffer complete pieces that stand for [b]. *)
Definition writes (f : encbuf -> result encbuf) (b : list Z) : Prop :=
  exists s, closes s b /\ forall w, f w = Ok (cat w s).

Lemma cat_str w b : cat w (mkEncbuf b [] 0) = append w b.
Proof. unfold cat, append. cbn. by rewrite app_nil_r, Z.add_0_r. Qed.

Lemma writes_append f b : (forall w, f w = Ok (append w b)) -> writes f b.
Proof.
  intros H. exists (mkEncbuf b [] 0). split.
  - unfold closes, buf_size. cbn. split_and!; [apply zlen_nonneg|done|lia].
  - intros w. by rewrite cat_str.
Qed.

Lemma writes_nil : writes Ok [].
Proof. apply writes_append. intros [s h n]. unfold append. cbn. by rewrite app_nil_r. Qed.

Lemma writes_seq f g a b : writes f a -> writes g b ->
  writes (fun w => let* w' := f w in g w') (a ++ b).
Proof.
  intros (s & Hs & Ef) (s' & Hs' & Eg). exists (cat s s'). split; [by apply closes_cat|].
  intros w. by rewrite Ef, Eg, cat_assoc.
Qed.

Lemma writes_ext f g b : (forall w, f w = g w) -> writes g b -> writes f b.
Proof. intros E (s & Hs & H). exists s. split; [done|]. intros w. by rewrite E, H. Qed.

Lemma writes_list f b : writes f b -> zlen b < 2 ^ 64 ->
  writes (fun w => let '(w1, lh) := list_ w in let* w2 := f w1 in Ok (listEnd w2 lh)) (enc_list b).
Proof.
  intros (s & (H1 & H2 & H3) & Ef) Hb. pose proof (zlen_nonneg b).
  assert (Eh : zlen (header 0xC0 0xF7 (zlen b)) = if zlen b <? 56 then 1 else 1 + intsize (u64 (zlen b))).
  { rewrite header_len by lia. unfold headsize. by rewrite uN_id by (unfold in_uN; lia). }
  exists (mkEncbuf (str s) (mkHead 0 (zlen b) :: lheads s)
            (lhsize s + zlen (header 0xC0 0xF7 (zlen b)))). split.
  - unfold closes, buf_size, enc_list in *. cbn [str lheads lhsize heads_ok render offset] in *.
    rewrite Z.sub_diag. change (Z.to_nat 0) with O. rewrite take_0, drop_0. cbn [app]. split_and!; [lia|done| |].
    + rewrite H2. f_equal. unfold head_encode. cbn [size].
      rewrite uN_id by (unfold in_uN; lia). by rewrite puthead_spec by lia.
    + rewrite zlen_app. lia.
  - intros w. unfold list_. rewrite Ef. unfold listEnd, cat, buf_size in *.
    cbn [str lheads lhsize] in *.
    rewrite <- (assoc app), lookup_app_r, Nat.sub_diag by done. cbn [app lookup list_lookup].
    cbn [offset size]. rewrite zlen_app.
    replace (zlen (str w) + zlen (str s) + (lhsize w + lhsize s) - zlen (str w) - lhsize w)
      with (zlen b) by lia.
    rewrite <- Eh. f_equal. f_equal; [|lia].
    rewrite <- (assoc app), insert_app_r_alt, Nat.sub_diag by done. reflexivity.
Qed.

Lemma writes_toBytes f b : writes f b -> (let* w := f reset in toBytes w) = Ok b.
Proof. intros (s & Hs & H). rewrite H, cat_reset. by apply toBytes_closed. Qed.

Lemma writes_string b : zlen b < 2 ^ 64 -> writes (fun w => Ok (encodeString w b)) (enc_string b).
Proof. intros H. apply writes_append. intros w. by rewrite encodeString_spec. Qed.

Lemma header_pos small large n : 0 < zlen (header small large n).
Proof. unfold header. casem; zl. Qed.

Lemma enc_string_len b : zlen b <= zlen (enc_string b).
Proof.
  destruct b as [|x [|y b]]; cbn [enc_string].
  - zl.
  - casem; zl.
  - rewrite zlen_app. zl.
Qed.

Lemma enc_list_len b : zlen b < zlen (enc_list b).
Proof. unfold enc_list. rewrite zlen_app. pose proof (header_pos 0xC0 0xF7 (zlen b)). lia. Qed.

Lemma width_pow b : width_ok b -> 2 ^ 7 <= 2 ^ (b - 1) /\ 2 ^ b <= 2 ^ 64.
Proof. intros H. split; apply Z.pow_le_mono_r; unfold width_ok in H; lia. Qed.

Lemma writes_uint b i : width_ok b -> in_uN b i -> writes (writeUint (VUint i)) (enc_nat i).
Proof.
  intros Hb Hi. apply writes_append. intros w. cbn [writeUint].
  pose proof (width_pow b Hb). unfold in_uN in Hi. by rewrite append_uint_spec by lia.
Qed.

Lemma writes_int b i : width_ok b -> in_sN b i -> writes (writeInt b (VInt i)) (enc_nat (uN b i)).
Proof.
  intros Hb Hi. apply writes_append. intros w. cbn [writeInt].
  pose proof (width_pow b Hb) as [P1 P2]. pose proof (uN_range b i) as R.
  assert (P : 2 ^ b = 2 * 2 ^ (b - 1)).
  { unfold width_ok in Hb. rewrite <- Z.pow_succ_r by lia. f_equal. lia. }
  unfold in_sN, in_uN in *. specialize (R ltac:(unfold width_ok in Hb; lia)).
  assert (E : uN b i = if i <? 0 then i + 2 ^ b else i).
  { unfold uN. destruct (Z.ltb_spec i 0).
    - symmetry. apply (Z.mod_unique_pos _ _ (-1)); lia.
    - apply Z.mod_small. lia. }
  replace (if i <? 0 then u64 (uN b i) else u64 i) with (uN b i).
  - rewrite append_uint_spec; [done|lia|]. rewrite E. destruct (Z.ltb_spec i 0); lia.
  - destruct (Z.ltb_spec i 0); [|rewrite E]; symmetry; apply uN_id; unfold in_uN; lia.
Qed.

Lemma writes_bigint i b : (if i <? 0 then Err errNegativeBigInt else Ok (enc_nat i)) = Ok b ->
  zlen b < 2 ^ 64 -> writes (writeBigInt i) b.
Proof.
  intros E H. destruct (Z.ltb_spec i 0) as [|Hi]; [done|]. injection E as <-.
  unfold enc_nat in *. pose proof (enc_string_len (be_min i)).
  apply writes_append. intros w. unfold writeBigInt.
  destruct (Z.ltb_spec i 0); [lia|]. destruct (Z.eqb_spec i 0) as [->|]; [done|].
  by rewrite encodeString_spec by lia.
Qed.

Lemma writeString_eq s w : writeString (VStr s) w = Ok (encodeString w s).
Proof. destruct s as [|x [|y s]]; try done. cbn. by casem. Qed.

(** *** Element and field loops *)

Lemma writes_elems ew ee vs :
  Forall (fun v => forall b, ee v = Ok b -> zlen b < 2 ^ 64 -> writes (ew v) b) vs ->
  forall b, enc_elems ee vs = Ok b -> zlen b < 2 ^ 64 -> writes (write_elems ew vs) b.
Proof.
  induction 1 as [|v vs Hv Hvs IH]; cbn [enc_elems write_elems]; intros b E Hb.
  - injection E as <-. apply writes_nil.
  - destruct (ee v) as [a|e| |]; try done. destruct (enc_elems ee vs) as [r|e| |]; try done.
    injection E as <-. rewrite zlen_app in Hb. apply writes_seq; [apply Hv|apply IH]; zl; done.
Qed.

Lemma writes_fields fw fe name nf vs :
  Forall (fun v => forall t ts b, wt v t -> fe v t ts = Ok b -> zlen b < 2 ^ 64 -> writes (fw v t ts) b) vs ->
  forall fs fi b, fieldsP wt fs vs -> enc_fields fe name nf fi fs vs = Ok b -> zlen b < 2 ^ 64 ->
  writes (write_fields fw name nf fi fs vs) b.
Proof.
  induction 1 as [|v vs Hv Hvs IH]; intros [|[f ft] fs] fi b Hw E Hb;
    cbn [enc_fields write_fields fieldsP] in *; try done.
  - injection E as <-. apply writes_nil.
  - destruct Hw as [Hw Hws]. destruct (fieldTags name nf fi f ft) as [ts|].
    + destruct (fe v ft ts) as [a|e| |] eqn:Ea; try done.
      destruct (enc_fields fe name nf (S fi) fs vs) as [r|e| |] eqn:Er; try done.
      injection E as <-. rewrite zlen_app in Hb. apply writes_seq; [by eapply Hv; zl|by eapply IH; zl].
    + by apply IH.
Qed.

Lemma EncodeByteSlices_spec bss : zlen (concat (enc_string <$> bss)) < 2 ^ 64 ->
  EncodeByteSlices bss = Ok (enc_list (concat (enc_string <$> bss))).
Proof.
  intros H. unfold EncodeByteSlices.
  apply (writes_toBytes (makeSliceWriter writeBytes no_tags (VList (VBytes <$> bss)))).
  apply (writes_list (write_elems writeBytes (VBytes <$> bss))); [|done].
  apply (writes_elems _ (fun v => match v with VBytes b => Ok (enc_string b) | _ => Panic end)); [|clear H|done].
  - apply Forall_fmap, Forall_true. intros b c E Hc. injection E as <-.
    apply writes_string. pose proof (enc_string_len b). lia.
  - induction bss as [|b bss IH]; [done|]. cbn. by rewrite IH.
Qed.

(** *** Maps *)

(** An encoded entry of the code against the reference's. *)
Definition entry_ok (x y : goval * result (list Z)) : Prop :=
  x.1 = y.1 /\ forall b, y.2 = Ok b -> zlen b < 2 ^ 64 -> x.2 = Ok b.

Lemma sort_insert_Forall2 {A} (R : A -> A -> Prop) less x y l k :
  (forall a b c d, R a b -> R c d -> less a c = less b d) ->
  R x y -> Forall2 R l k -> Forall2 R (sort_insert less x l) (sort_insert less y k).
Proof.
  intros HR Hxy. induction 1 as [|a b l k Hab Hlk IH]; cbn; [by repeat constructor|].
  rewrite (HR a b x y) by done. casem; repeat constructor; done.
Qed.

Lemma SliceStable_Forall2 {A} (R : A -> A -> Prop) less l k :
  (forall a b c d, R a b -> R c d -> less a c = less b d) ->
  Forall2 R l k -> Forall2 R (SliceStable less l) (SliceStable less k).
Proof.
  intros HR. induction 1 as [|a b l k Hab Hlk IH]; cbn; [constructor|].
  by apply sort_insert_Forall2.
Qed.

Lemma entries_res_all l k bss : Forall2 entry_ok l k -> res_all k.*2 = Ok bss ->
  zlen (concat (enc_string <$> bss)) < 2 ^ 64 -> res_all l.*2 = Ok bss.
Proof.
  intros H. revert bss. induction H as [|[k1 r1] [k2 r2] l k [Hk Hr] Hlk IH]; intros bss E Hb; [done|].
  cbn in *. destruct r2 as [b| | |]; try done. destruct (res_all k.*2) as [r| | |]; try done.
  injection E as <-. cbn in Hb. rewrite zlen_app in Hb. pose proof (enc_string_len b).
  rewrite (Hr b eq_refl), (IH r eq_refl) by zl. done.
Qed.

Lemma pair_spec e1 e2 kt et k x b :
  (forall c, encode_iface e2 k kt = Ok c -> zlen c < 2 ^ 64 -> encode_iface e1 k kt = Ok c) ->
  (forall c, encode_iface e2 x et = Ok c -> zlen c < 2 ^ 64 -> encode_iface e1 x et = Ok c) ->
  enc_pair e2 kt et (k, x) = Ok b -> zlen b < 2 ^ 64 ->
  (let* kb := encode_iface e1 k kt in
   let* vb := encode_iface e1 x et in EncodeByteSlices [kb; vb]) = Ok b.
Proof.
  intros Hk Hx E Hb. unfold enc_pair in E. cbn [fst snd] in E.
  destruct (encode_iface e2 k kt) as [kb| | |]; try done.
  destruct (encode_iface e2 x et) as [vb| | |]; try done. injection E as <-.
  pose proof (enc_list_len (enc_string kb ++ enc_string vb)) as L. rewrite zlen_app in L.
  pose proof (enc_string_len kb). pose proof (enc_string_len vb).
  rewrite (Hk kb eq_refl), (Hx vb eq_refl) by zl.
  rewrite EncodeByteSlices_spec; cbn; rewrite ?app_nil_r; [done|]. rewrite zlen_app. lia.
Qed.

Lemma entries_spec e1 e2 kt et kvs :
  Forall (fun kv =>
    (forall c, encode_iface e2 kv.1 kt = Ok c -> zlen c < 2 ^ 64 -> encode_iface e1 kv.1 kt = Ok c) /\
    (forall c, encode_iface e2 kv.2 et = Ok c -> zlen c < 2 ^ 64 -> encode_iface e1 kv.2 et = Ok c)) kvs ->
  Forall2 entry_ok (map_entries e1 kt et kvs) (enc_entries e2 kt et kvs).
Proof.
  induction 1 as [|[k x] kvs [Hk Hx] H IH]; cbn [map_entries enc_entries]; constructor; [|done].
  split; [done|]. intros b. by apply pair_spec.
Qed.

Lemma writes_map e1 e2 kt et kvs b :
  Forall2 entry_ok (map_entries e1 kt et kvs) (enc_entries e2 kt et kvs) ->
  enc_map e2 kt et kvs = Ok b -> zlen b < 2 ^ 64 -> writes (writeMap e1 kt et (VMap kvs)) b.
Proof.
  intros H E Hb. unfold enc_map in E.
  destruct (res_all _) as [bss| | |] eqn:Er in E; try done. injection E as <-.
  pose proof (enc_string_len (enc_list (concat (enc_string <$> bss)))).
  pose proof (enc_list_len (concat (enc_string <$> bss))).
  eapply entries_res_all in Er; [|apply SliceStable_Forall2; [|exact H]|lia].
  - apply (writes_ext _ (fun w => Ok (encodeString w (enc_list (concat (enc_string <$> bss)))))).
    + intros w. unfold writeMap. rewrite Er. by rewrite EncodeByteSlices_spec by lia.
    + apply writes_string. lia.
  - intros [] [] [] [] [Ea _] [Ec _]. cbn in *. by subst.
Qed.

Lemma writes_nilfunc e : genTypeInfo_err e = None -> writes (nilfunc e) (enc_nilptr e).
Proof.
  assert (Hl : writes (fun w => let '(w1, lh) := list_ w in Ok (listEnd w1 lh)) [0xC0]).
  { apply (writes_list Ok []); [apply writes_nil|done]. }
  induction e as [b|b| | |e IHe|m e IHe|nm fs IHfs|e IHe|k e IHk IHe|m| | | |nm] using gotype_ind';
    cbn [genTypeInfo_err nilfunc enc_nilptr]; intros He;
    try (apply writes_append; intros w; reflexivity); try done.
  - by apply (writes_ext _ _ _ (writeString_eq [])), (writes_string []).
  - destruct (isByte e); [by apply (writes_string [])|exact Hl].
  - destruct (isByte e); [by apply writes_append|exact Hl].
  - destruct e; try (apply IHe; exact He); by apply writes_append.
  - by apply (writes_string [0xC0]).
  - by apply (writes_string []).
Qed.

(** *** All values *)

(** What the induction on values gives for one value. *)
Definition value_ok (v : goval) : Prop := forall t ts b,
  wt v t -> enc_val v t ts = Ok b -> zlen b < 2 ^ 64 -> writes (makeWriter v t ts) b.

Lemma encode_iface_writes (v : goval) (t : gotype) c :
  value_ok v -> wt v t ->
  encode_iface (fun x t' => let* _ := cachedTypeInfo t' in enc_val x t' no_tags) v t = Ok c ->
  zlen c < 2 ^ 64 ->
  encode_iface (fun x t' => let* _ := cachedTypeInfo t' in
                            let* w' := makeWriter x t' no_tags reset in toBytes w') v t = Ok c.
Proof.
  intros H Hw E Hc.
  assert (D : (let* _ := cachedTypeInfo t in enc_val v t no_tags) = Ok c ->
    (let* _ := cachedTypeInfo t in let* w' := makeWriter v t no_tags reset in toBytes w') = Ok c).
  { destruct (cachedTypeInfo t); try done. intros E'. by apply writes_toBytes, H. }
  destruct v as [| | | | | | | |[[t' x]|]| |]; try exact (D E); [|done].
  cbn [encode_iface] in *. destruct t; try done.
  specialize (H (TInterface methods) no_tags c Hw E Hc). apply writes_toBytes in H.
  cbn in H. by destruct (cachedTypeInfo t').
Qed.

Lemma writes_slice vs e ts b : Forall value_ok vs -> allP (fun x => wt x e) vs ->
  (let* p := enc_elems (fun x => enc_val x e no_tags) vs in
   Ok (if tail ts then p else enc_list p)) = Ok b -> zlen b < 2 ^ 64 ->
  writes (makeSliceWriter (fun x => makeWriter x e no_tags) ts (VList vs)) b.
Proof.
  intros IH Hw E Hb. destruct (enc_elems _ vs) as [p| | |] eqn:Ep; try done.
  injection E as <-. apply allP_Forall in Hw.
  assert (Hp : zlen p < 2 ^ 64).
  { destruct (tail ts); [done|]. pose proof (enc_list_len p). lia. }
  assert (writes (write_elems (fun x => makeWriter x e no_tags) vs) p).
  { eapply writes_elems; [|exact Ep|done]. eapply Forall_impl.
    - apply Forall_and. split; [exact IH|exact Hw].
    - intros x [Hx Hwx] c Ec Hc. by eapply Hx. }
  unfold makeSliceWriter. destruct (tail ts); [done|]. by apply writes_list.
Qed.

Lemma makeWriter_writes v : value_ok v.
Proof.
  induction v as [z|z|z|s|b0|vs IH| |v IH|kvs IH| |t' v IH|z|n] using goval_ind';
    intros t ts b Hw E Hb; destruct t; try done; cbn [wt enc_val makeWriter] in *;
    try lazymatch type of Hw with _ /\ _ => destruct Hw as [Hw1 Hw2] end; try (injection E as <-).
  - by eapply writes_uint.
  - by apply writes_int.
  - by apply writes_append.
  - pose proof (enc_string_len s). eapply writes_ext; [apply writeString_eq|]. apply writes_string. lia.
  - rewrite Hw1 in *. injection E as <-. pose proof (enc_string_len b0). apply writes_string. lia.
  - rewrite Hw1 in *. injection E as <-. pose proof (enc_string_len b0). apply writes_string. lia.
  - by apply writes_append.
  - rewrite Hw1 in *. by apply writes_slice.
  - rewrite Hw1 in *. destruct Hw2. by apply writes_slice.
  - destruct (enc_fields _ _ _ _ _ _) as [p| | |] eqn:Ep; try done. injection E as <-.
    pose proof (enc_list_len p). apply writes_list; [|lia]. eapply writes_fields; [exact IH|done|done|lia].
  - assert (D : match genTypeInfo_err t with Some _ => Panic | None => Ok (enc_nilptr t) end = @Ok rlp_err _ b ->
                writes (nilfunc t) b).
    { destruct (genTypeInfo_err t) eqn:G; [done|]. intros [= <-]. by apply writes_nilfunc. }
    destruct t; try (exact (D E)); injection E as <-; by apply writes_append.
  - destruct t; try (by apply (IH _ no_tags)).
    + destruct v; try done. by apply writes_bigint.
    + destruct v; try done. injection E as <-. pose proof (enc_string_len (Bytes n)).
      apply writes_string. lia.
  - eapply writes_map; [|exact E|done]. apply entries_spec. apply allP_Forall in Hw.
    eapply Forall_impl; [apply Forall_and; split; [exact IH|exact Hw]|].
    intros [k x] [[Hk Hx] [Wk Wx]]. cbn in *. split; intros c; by apply encode_iface_writes.
  - by apply writes_append.
  - destruct (cachedTypeInfo t') as [[]| | |] eqn:Ec; try done.
    eapply writes_ext; [|by eapply IH]. intros w. cbn. by rewrite Ec.
  - by apply writes_bigint.
  - pose proof (enc_string_len (Bytes n)). apply writes_string. lia.
Qed.

(** ** Theorem *)

(** C5: Refinement of the reference encoder.  For every well-typed value whose
    reference encoding exists and is shorter than 2^64 bytes, [EncodeToBytes],
    with its deferred list headers, returns exactly that encoding. *)
Theorem EncodeToBytes_refines (v : goval) (t : gotype) (b : list Z) :
  wt v t -> enc_bytes v t = Ok b -> zlen b < 2 ^ 64 -> EncodeToBytes v t = Ok b.
Proof.
  unfold enc_bytes, EncodeToBytes, encode. intros Hw E Hb.
  destruct (cachedTypeInfo t); try done. by apply writes_toBytes, makeWriter_writes.
Qed.

(** A sample: a struct with an unexported field, a nested list, a map, a number
    and an optional pointer. *)
Definition sample_t : gotype :=
  TStruct (bs "Sample")
    [ (mkField (bs "Nonce") true [], TUint 64);
      (mkField (bs "cache") false [], TInt 32);
      (mkField (bs "Note") true [], TString);
      (mkField (bs "Items") true [], TSlice (TSlice (TUint 16)));
      (mkField (bs "Balances") true [], TMap TString (TInt 8));
      (mkField (bs "Fee") true [], TNumber);
      (mkField (bs "Next") true (bs "nil"), TPtr (TArray 2 (TUint 8))) ].

Definition sample_v : goval :=
  VList [ VUint 1024; VInt 0; VStr (bs "hello"); VList [VList [VUint 1; VUint 300]; VList []];
          VMap [(VStr (bs "a"), VInt 5); (VStr (bs "b"), VInt (-1))]; VNum (N (-258)); VPtr None ].

Definition sample_b : list Z :=
  Eval vm_compute in match enc_bytes sample_v sample_t with Ok b => b | _ => [] end.

Lemma sample_wt : wt sample_v sample_t.
Proof. cbn. unfold width_ok, in_uN, in_sN. repeat split; repeat constructor; unfold byte_ok; lia. Qed.

Lemma EncodeToBytes_refines_witness : EncodeToBytes sample_v sample_t = Ok sample_b.
Proof.
  apply (EncodeToBytes_refines sample_v sample_t sample_b);
    [apply sample_wt|vm_compute; reflexivity|vm_compute; reflexivity].
Defined.
