(* ===== verification/RlpReader.v ===== *)
(** * RLP encoder: output through an [io.Writer] and an [io.Reader]

    Model of [Encode], [toWriter], [EncodeToReader] and [encReader] of
    src/rlp/encode.go.  The writer belongs to the caller: it is a type class with
    the contract of [io.Writer] as its laws, and the theorems are proved against
    the class.  The last part is about the order in which the entries of a map are written. *)
From S2P Require Import Prelude GoSlice RlpTypes RlpEncode RlpEncodeSpec GoStrings.
From stdpp Require Import sorting.
Local Open Scope Z_scope.
(** ** [io.Writer] *)

(** [Write p] returns the number of bytes taken, an error if that is not all of
    [p], and the writer's next state; [written] is what it has taken so far. *)
Class IoWriter (W : Type) := {
  Write : W -> list Z -> Z * option rlp_err * W;
  written : W -> list Z;
  Write_n : forall w p n e w', Write w p = (n, e, w') -> 0 <= n <= zlen p;
  Write_full : forall w p n w', Write w p = (n, None, w') -> n = zlen p;
  Write_written : forall w p n e w', Write w p = (n, e, w') ->
    written w' = written w ++ take (Z.to_nat n) p
}.

(** [bytes.Buffer] never fails. *)
#[export] Instance bytes_Buffer : IoWriter (list Z).
Proof.
  refine {| Write w p := (zlen p, None, w ++ p); written w := w |}.
  - intros w p n e w' [= <- <- <-]. zl.
  - by intros w p n w' [= <- <-].
  - intros w p n e w' [= <- <- <-]. by rewrite take_zlen.
Defined.

Section toWriter.
Context {W : Type} `{IoWriter W}.

(** The loop over the headers: the error that stopped it, the string position
    reached and the writer. *)
Fixpoint toWriter_loop (s : list Z) (hs : list listhead) (out : W) (strpos : Z)
  : result (option rlp_err * Z * W) :=
  match hs with
  | [] => Ok (None, strpos, out)
  | h :: hs' =>
      let* (e1, strpos1, out1) :=
        if 0 <? offset h - strpos then
          match slice s strpos (offset h) with
          | None => Panic
          | Some p => let '(n, e, out1) := Write out p in Ok (e, strpos + n, out1)
          end
        else Ok (None, strpos, out) in
      match e1 with
      | Some e => Ok (Some e, strpos1, out1)
      | None =>
          let '(_, e2, out2) := Write out1 (head_encode h) in
          match e2 with
          | Some e => Ok (Some e, strpos1, out2)
          | None => toWriter_loop s hs' out2 strpos1
          end
      end
  end.

Definition toWriter (w : encbuf) (out : W) : result (option rlp_err * W) :=
  let* (e, strpos, out1) := toWriter_loop (str w) (lheads w) out 0 in
  match e with
  | Some e => Ok (Some e, out1)
  | None =>
      if strpos <? zlen (str w) then
        match slice_from (str w) strpos with
        | None => Panic
        | Some p => let '(_, e, out2) := Write out1 p in Ok (e, out2)
        end
      else Ok (None, out1)
  end.

(** [Encode] to a writer that is not itself an [encbuf]. *)
Definition Encode (out : W) (v : goval) (t : gotype) : result (option rlp_err * W) :=
  match encode v t reset with
  | Ok w => toWriter w out
  | Err e => Ok (Some e, out)
  | Panic => Panic
  | NoFuel => NoFuel
  end.
End toWriter.

(** ** [encReader] *)

Record encReader := mkReader {
  r_buf : option encbuf; lhpos : Z; strpos : Z; piece : option (list Z) }.

(** [next]: the next piece to read and the reader after taking it; the caller
    stores it in [piece]. *)
Definition next (r : encReader) : result (option (list Z) * encReader) :=
  match r_buf r with
  | None => Ok (None, r)
  | Some b =>
      match piece r with
      | Some p => Ok (Some p, r)
      | None =>
          if lhpos r <? zlen (lheads b) then
            match lheads b !! Z.to_nat (lhpos r) with
            | None => Panic
            | Some head =>
                let sizebefore := offset head - strpos r in
                if 0 <? sizebefore then
                  match slice (str b) (strpos r) (offset head) with
                  | None => Panic
                  | Some p => Ok (Some p, mkReader (Some b) (lhpos r) (strpos r + sizebefore) (piece r))
                  end
                else Ok (Some (head_encode head), mkReader (Some b) (lhpos r + 1) (strpos r) (piece r))
            end
          else if strpos r <? zlen (str b) then
            match slice_from (str b) (strpos r) with
            | None => Panic
            | Some p => Ok (Some p, mkReader (Some b) (lhpos r) (zlen (str b)) (piece r))
            end
          else Ok (None, r)
      end
  end.

(** The loop of [Read] into a buffer of [cap] bytes, [got] of which are filled:
    the bytes read, whether [io.EOF] is returned, and the reader. *)
Fixpoint Read_loop (fuel : nat) (r : encReader) (cap : Z) (got : list Z)
  : result (list Z * bool * encReader) :=
  match fuel with
  | O => NoFuel
  | S f =>
      let* (p, r1) := next r in
      match p with
      | None => Ok (got, true, mkReader None (lhpos r1) (strpos r1) None)
      | Some p =>
          let nn := Z.min (cap - zlen got) (zlen p) in
          let got' := got ++ take (Z.to_nat nn) p in
          if nn <? zlen p then
            Ok (got', false, mkReader (r_buf r1) (lhpos r1) (strpos r1) (Some (drop (Z.to_nat nn) p)))
          else Read_loop f (mkReader (r_buf r1) (lhpos r1) (strpos r1) None) cap got'
      end
  end.

(** Each round takes a header, the string data before one, the rest of a piece or
    the string data at the end. *)
Definition read_fuel (r : encReader) : nat :=
  match r_buf r with Some b => 2 * length (lheads b) + 3 | None => 1 end.

Definition Read (r : encReader) (cap : Z) : result (list Z * bool * encReader) :=
  Read_loop (read_fuel r) r cap [].

Definition EncodeToReader (v : goval) (t : gotype) : result (Z * encReader) :=
  let* w := encode v t reset in
  Ok (buf_size w, mkReader (Some w) 0 0 None).

(** ** Correctness of [toWriter] *)

Section toWriter_correct.
Context {W : Type} `{IoWriter W}.

Lemma Write_cases (out : W) p n e out' : Write out p = (n, e, out') ->
  (e = None -> n = zlen p /\ written out' = written out ++ p) /\
  written out' `prefix_of` written out ++ p.
Proof.
  intros E. pose proof (Write_written _ _ _ _ _ E) as Hw. split.
  - intros ->. pose proof (Write_full _ _ _ _ E) as ->. by rewrite Hw, take_zlen.
  - rewrite Hw. apply prefix_app. exists (drop (Z.to_nat n) p). by rewrite take_drop.
Qed.

(** What a run of the header loop leaves: stopped by an error after a prefix of
    the bytes, or with the rest of the string still to write. *)
Definition loop_post (s target : list Z) (r : result (option rlp_err * Z * W)) : Prop :=
  exists e pos out', r = Ok (e, pos, out') /\
    match e with
    | Some _ => written out' `prefix_of` target
    | None => exists s1 s2, s = s1 ++ s2 /\ pos = zlen s1 /\ written out' ++ s2 = target
    end.

Lemma toWriter_loop_spec s hs : forall out s1 s2 target, s = s1 ++ s2 ->
  heads_ok (zlen s1) hs (zlen s) -> target = written out ++ render hs (zlen s1) s2 ->
  loop_post s target (toWriter_loop s hs out (zlen s1)).
Proof.
  induction hs as [|h hs IH]; intros out s1 s2 target E Hs Et; cbn [toWriter_loop render] in *.
  { exists None, (zlen s1), out. split; [done|]. exists s1, s2. by subst. }
  destruct Hs as [H1 H2].
  assert (Hd : forall out1 a b, s2 = a ++ b -> offset h = zlen s1 + zlen a ->
    written out1 = written out ++ a ->
    loop_post s target (let '(_, e2, out2) := Write out1 (head_encode h) in
      match e2 with Some e => Ok (Some e, zlen (s1 ++ a), out2)
                  | None => toWriter_loop s hs out2 (zlen (s1 ++ a)) end)).
  { intros out1 a b -> Eo Ew. replace (Z.to_nat (offset h - zlen s1)) with (Z.to_nat (zlen a)) in Et by lia.
    rewrite take_app_zlen, drop_app_zlen, Eo, <- zlen_app in Et. rewrite Eo, <- zlen_app in H2.
    destruct (Write out1 (head_encode h)) as [[n e] out2] eqn:Ww.
    destruct (Write_cases _ _ _ _ _ Ww) as [Wf Wp]. destruct e as [e|].
    - exists (Some e), (zlen (s1 ++ a)), out2. split; [done|]. rewrite Ew in Wp. rewrite Et.
      etrans; [exact Wp|]. rewrite <- (assoc app). do 2 apply prefix_app. by apply prefix_app_r.
    - destruct (Wf eq_refl) as [_ Wf']. apply (IH _ _ b); [by rewrite <- (assoc app)|done|].
      rewrite Et, Wf', Ew. by rewrite <- !(assoc app). }
  destruct (Z.ltb_spec 0 (offset h - zlen s1)).
  - pose proof (take_drop (Z.to_nat (offset h - zlen s1)) s2) as Es.
    set (a := take _ s2) in *. set (b := drop _ s2) in *.
    assert (Ha : zlen a = offset h - zlen s1).
    { pose proof (heads_ok_le _ _ _ H2) as L. rewrite E, zlen_app in L.
      unfold a, zlen in *. rewrite length_take. lia. }
    replace (slice s (zlen s1) (offset h)) with (Some a).
    + destruct (Write out a) as [[n e] out1] eqn:Wa. destruct (Write_cases _ _ _ _ _ Wa) as [Wf Wp].
      destruct e as [e|].
      * exists (Some e), (zlen s1 + n), out1. split; [done|]. etrans; [exact Wp|]. rewrite Et.
        apply prefix_app. by apply prefix_app_r.
      * destruct (Wf eq_refl) as [-> Wf']. rewrite <- zlen_app. apply (Hd out1 a b); [done|lia|done].
    + rewrite E, <- Es. replace (offset h) with (zlen s1 + zlen a) by lia. by rewrite slice_mid.
  - specialize (Hd out [] s2 eq_refl). rewrite !app_nil_r in Hd.
    apply Hd; [rewrite zlen_nil; lia|done].
Qed.

Lemma toWriter_closed w b (out : W) : closes w b -> exists e out',
  toWriter w out = Ok (e, out') /\ (e = None -> written out' = written out ++ b) /\
  written out' `prefix_of` written out ++ b.
Proof.
  intros (H1 & H2 & H3). unfold toWriter.
  destruct (toWriter_loop_spec (str w) (lheads w) out [] (str w) (written out ++ b) eq_refl H1)
    as (e & pos & out1 & E & P); [by rewrite <- H2|].
  change (zlen []) with 0 in E. rewrite E. destruct e as [e|].
  - exists (Some e), out1. done.
  - destruct P as (s1 & s2 & Es & -> & Ew). rewrite Es, slice_from_app, zlen_app.
    destruct (Z.ltb_spec (zlen s1) (zlen s1 + zlen s2)).
    + destruct (Write out1 s2) as [[n e] out2] eqn:Ww.
      destruct (Write_cases _ _ _ _ _ Ww) as [Wf Wp]. exists e, out2. split; [done|].
      rewrite <- Ew. split; [|done]. intros ->. by destruct (Wf eq_refl).
    + assert (s2 = []) as -> by (apply zlen_0_inv; zl). rewrite app_nil_r in Ew.
      exists None, out1. rewrite Ew. done.
Qed.
End toWriter_correct.

(** ** Correctness of [encReader] *)

(** The reader refines a list of bytes left to read. *)
Definition reads (r : encReader) (left : list Z) : Prop :=
  match r_buf r with
  | None => left = []
  | Some b => exists pre hs s1 s2,
      lheads b = pre ++ hs /\ lhpos r = zlen pre /\ str b = s1 ++ s2 /\ strpos r = zlen s1 /\
      heads_ok (zlen s1) hs (zlen (str b)) /\
      left = default [] (piece r) ++ render hs (zlen s1) s2
  end.

(** The outcome of a [Read] that has [got] already and room for [k] more. *)
Definition read_post (left got : list Z) (k : Z) (x : result (list Z * bool * encReader)) : Prop :=
  exists r', x = Ok (got ++ take (Z.to_nat k) left, zlen left <=? k, r') /\
             reads r' (drop (Z.to_nat k) left).

Lemma read_post_fits p left got k x : zlen p <= k ->
  read_post left (got ++ p) (k - zlen p) x -> read_post (p ++ left) got k x.
Proof.
  intros Hk (r' & -> & Hr). exists r'.
  replace (Z.to_nat k) with (length p + Z.to_nat (k - zlen p))%nat by (unfold zlen in *; lia).
  rewrite take_app_add, drop_app_add, (assoc app). split; [|done].
  do 2 f_equal. f_equal. rewrite zlen_app.
  destruct (Z.leb_spec (zlen left) (k - zlen p)), (Z.leb_spec (zlen p + zlen left) k); lia || done.
Qed.

Lemma read_post_stop p left got k r' : 0 <= k < zlen p -> reads r' (drop (Z.to_nat k) p ++ left) ->
  read_post (p ++ left) got k (Ok (got ++ take (Z.to_nat k) p, false, r')).
Proof.
  intros Hk Hr. exists r'. assert (Z.to_nat k <= length p)%nat by (unfold zlen in Hk; lia).
  rewrite take_app_le, drop_app_le by done. split; [|done]. do 2 f_equal.
  rewrite zlen_app. pose proof (zlen_nonneg left).
  by destruct (Z.leb_spec (zlen p + zlen left) k); [lia|].
Qed.

Lemma reads_piece b lp sp left q : reads (mkReader (Some b) lp sp None) left ->
  reads (mkReader (Some b) lp sp (Some q)) (q ++ left).
Proof. intros (pre & hs & s1 & s2 & H). exists pre, hs, s1, s2. cbn in *.
  destruct H as (? & ? & ? & ? & ? & ->). done.
Qed.

(** One round: the piece fits and the loop goes on, or it does not. *)
Lemma Read_round f r cap got p b lp sp pc left : zlen got <= cap ->
  next r = Ok (Some p, mkReader (Some b) lp sp pc) -> reads (mkReader (Some b) lp sp None) left ->
  (zlen (got ++ p) <= cap -> read_post left (got ++ p) (cap - zlen (got ++ p))
                               (Read_loop f (mkReader (Some b) lp sp None) cap (got ++ p))) ->
  read_post (p ++ left) got (cap - zlen got) (Read_loop (S f) r cap got).
Proof.
  intros Hc En Hr Hx. cbn [Read_loop]. rewrite En. cbn [r_buf lhpos strpos].
  rewrite zlen_app in Hx.
  destruct (Z.ltb_spec (Z.min (cap - zlen got) (zlen p)) (zlen p)).
  - rewrite Z.min_l by lia. apply read_post_stop; [lia|]. by apply reads_piece.
  - rewrite Z.min_r by lia. rewrite take_zlen. apply read_post_fits; [lia|].
    replace (cap - zlen got - zlen p) with (cap - (zlen got + zlen p)) by lia. apply Hx. lia.
Qed.

Lemma next_head b pre h hs s1 s2 : lheads b = pre ++ h :: hs -> str b = s1 ++ s2 ->
  zlen s1 <= offset h <= zlen (str b) ->
  next (mkReader (Some b) (zlen pre) (zlen s1) None) =
  if 0 <? offset h - zlen s1 then
    Ok (Some (take (Z.to_nat (offset h - zlen s1)) s2), mkReader (Some b) (zlen pre) (offset h) None)
  else Ok (Some (head_encode h), mkReader (Some b) (zlen (pre ++ [h])) (zlen s1) None).
Proof.
  intros El Es Ho. unfold next. cbn [r_buf piece lhpos strpos]. rewrite El.
  destruct (Z.ltb_spec (zlen pre) (zlen (pre ++ h :: hs))); [|zl].
  unfold zlen at 1. rewrite Nat2Z.id, list_lookup_middle by done.
  destruct (Z.ltb_spec 0 (offset h - zlen s1)).
  - rewrite Es in *. rewrite zlen_app in Ho. unfold slice. rewrite drop_app_zlen.
    destruct (Z.leb_spec 0 (zlen s1)), (Z.leb_spec (zlen s1) (offset h)),
      (Z.leb_spec (offset h) (zlen (s1 ++ s2))); zl.
    cbn [andb]. do 4 f_equal. lia.
  - do 4 f_equal. zl.
Qed.

Lemma Read_end f b pre s1 cap got : lheads b = pre -> str b = s1 -> (1 <= f)%nat -> zlen got <= cap ->
  read_post [] got (cap - zlen got) (Read_loop f (mkReader (Some b) (zlen pre) (zlen s1) None) cap got).
Proof.
  intros El Es Hf Hc. destruct f as [|f]; [lia|]. cbn [Read_loop]. unfold next.
  cbn [r_buf piece lhpos strpos]. rewrite El, Es, !Z.ltb_irrefl.
  exists (mkReader None (zlen pre) (zlen s1) None).
  rewrite take_nil, drop_nil, app_nil_r. split; [|done].
  rewrite zlen_nil. by destruct (Z.leb_spec 0 (cap - zlen got)); [|lia].
Qed.

Lemma Read_loop_spec hs : forall f b pre s1 s2 cap got, lheads b = pre ++ hs -> str b = s1 ++ s2 ->
  heads_ok (zlen s1) hs (zlen (str b)) -> (2 * length hs + 2 <= f)%nat -> zlen got <= cap ->
  read_post (render hs (zlen s1) s2) got (cap - zlen got)
    (Read_loop f (mkReader (Some b) (zlen pre) (zlen s1) None) cap got).
Proof.
  induction hs as [|h hs IH]; intros f b pre s1 s2 cap got El Es Hh Hf Hc.
  - cbn [render length] in *. rewrite app_nil_r in El.
    destruct (decide (s2 = [])) as [->|Hs2]; [rewrite app_nil_r in Es; apply Read_end; [done|done|lia|done]|].
    destruct f as [|f]; [lia|]. rewrite <- (app_nil_r s2).
    apply (Read_round _ _ _ _ _ b (zlen pre) (zlen (str b)) None); [done| | |].
    + unfold next. cbn [r_buf piece lhpos strpos]. rewrite El, Es, Z.ltb_irrefl, slice_from_app.
      destruct (Z.ltb_spec (zlen s1) (zlen (s1 ++ s2))); [done|].
      destruct s2; [done|]. zl.
    + exists pre, [], (str b), []. cbn. by rewrite !app_nil_r.
    + intros Hc'. apply Read_end; [done|done|lia|done].
  - cbn [heads_ok length] in *. destruct Hh as [H1 H2]. pose proof (heads_ok_le _ _ _ H2) as L.
    assert (Hd : forall f s1 s2 got, str b = s1 ++ s2 -> offset h = zlen s1 -> zlen got <= cap ->
      (2 * length hs + 3 <= f)%nat ->
      read_post (head_encode h ++ render hs (zlen s1) s2) got (cap - zlen got)
        (Read_loop f (mkReader (Some b) (zlen pre) (zlen s1) None) cap got)).
    { clear -El H2 L IH. intros f s1 s2 got Es Eo Hc Hf. destruct f as [|f]; [lia|].
      rewrite Eo in H2. assert (El' : lheads b = (pre ++ [h]) ++ hs) by by rewrite <- (assoc app).
      apply (Read_round _ _ _ _ _ b (zlen (pre ++ [h])) (zlen s1) None); [done| | |].
      - rewrite (next_head _ _ h hs _ s2) by (done || lia). by destruct (Z.ltb_spec 0 (offset h - zlen s1)); [lia|].
      - exists (pre ++ [h]), hs, s1, s2. done.
      - intros Hc'. apply IH; [done|done|done|lia|done]. }
    cbn [render]. destruct (Z.eq_dec (offset h) (zlen s1)) as [E|E].
    + rewrite E, Z.sub_diag. change (Z.to_nat 0) with O. rewrite take_0, drop_0. apply Hd; [done|done|done|lia].
    + destruct f as [|f]; [lia|]. set (n := Z.to_nat (offset h - zlen s1)).
      assert (Es' : str b = (s1 ++ take n s2) ++ drop n s2) by by rewrite <- (assoc app), take_drop.
      assert (Eo : offset h = zlen (s1 ++ take n s2)).
      { rewrite Es in L. unfold zlen in *. rewrite !length_app in *. rewrite length_take. unfold n, zlen. lia. }
      apply (Read_round _ _ _ _ _ b (zlen pre) (offset h) None); [done| | |].
      * rewrite (next_head _ _ h hs _ s2) by (done || lia). by destruct (Z.ltb_spec 0 (offset h - zlen s1)); [|lia].
      * exists pre, (h :: hs), (s1 ++ take n s2), (drop n s2). cbn [r_buf lhpos strpos heads_ok piece default app render].
        rewrite <- Eo. rewrite Z.sub_diag. change (Z.to_nat 0) with O. rewrite take_0, drop_0.
        split_and!; done || lia.
      * intros Hc'. rewrite Eo. apply Hd; [done|done|done|lia].
Qed.

Lemma Read_spec r left cap : reads r left -> 0 <= cap ->
  exists r', Read r cap = Ok (take (Z.to_nat cap) left, zlen left <=? cap, r') /\
             reads r' (drop (Z.to_nat cap) left).
Proof.
  intros Hr Hc. unfold Read, read_fuel. destruct r as [[b|] lp sp pc].
  - destruct Hr as (pre & hs & s1 & s2 & El & Elp & Es & Esp & Hh & ->).
    cbn [r_buf piece lhpos strpos] in *. subst lp sp.
    assert (Hl : forall got f, zlen got <= cap -> (2 * length (lheads b) + 2 <= f)%nat ->
      read_post (render hs (zlen s1) s2) got (cap - zlen got)
        (Read_loop f (mkReader (Some b) (zlen pre) (zlen s1) None) cap got)).
    { intros got f Hg Hf. apply Read_loop_spec; try done. rewrite El, length_app in Hf. lia. }
    assert (read_post (default [] pc ++ render hs (zlen s1) s2) [] (cap - zlen (@nil Z))
      (Read_loop (2 * length (lheads b) + 3) (mkReader (Some b) (zlen pre) (zlen s1) pc) cap [])) as P.
    { destruct pc as [p|]; [|apply Hl; [done|lia]].
      replace (2 * length (lheads b) + 3)%nat with (S (2 * length (lheads b) + 2)) by lia.
      apply (Read_round _ _ _ _ _ b (zlen pre) (zlen s1) (Some p)); [done|done| |].
      - exists pre, hs, s1, s2. done.
      - intros Hg. by apply Hl. }
    rewrite zlen_nil, Z.sub_0_r in P. exact P.
  - cbn in Hr. subst left. exists (mkReader None lp sp None). rewrite take_nil, drop_nil. split; [|done].
    destruct (Z.leb_spec (zlen (@nil Z)) cap) as [|L]; [done|]. rewrite zlen_nil in L. lia.
Qed.

(** A sequence of [Read] calls with buffers of the given sizes: the bytes, the
    last call's EOF flag and the reader. *)
Fixpoint read_seq (r : encReader) (caps : list Z) : result (list Z * bool * encReader) :=
  match caps with
  | [] => Ok ([], false, r)
  | [c] => Read r c
  | c :: caps' =>
      let* (b, _, r1) := Read r c in
      let* (b', eof, r2) := read_seq r1 caps' in
      Ok (b ++ b', eof, r2)
  end.

Definition zsum (l : list Z) : Z := foldr Z.add 0 l.

Lemma zsum_nonneg l : Forall (fun c => 0 <= c) l -> 0 <= zsum l.
Proof. unfold zsum. induction 1; cbn; lia. Qed.

Lemma read_seq_spec caps : Forall (fun c => 0 <= c) caps -> caps <> [] -> forall r left, reads r left ->
  exists r', read_seq r caps =
    Ok (take (Z.to_nat (zsum caps)) left, zlen left <=? zsum caps, r') /\
    reads r' (drop (Z.to_nat (zsum caps)) left).
Proof.
  induction 1 as [|c caps Hc Hcs IH]; intros Hn r left Hr; [done|].
  destruct (Read_spec r left c Hr Hc) as (r1 & E1 & R1).
  pose proof (zsum_nonneg caps Hcs). change (zsum (c :: caps)) with (c + zsum caps).
  destruct caps as [|c' caps].
  - cbn [read_seq]. exists r1. change (zsum []) with 0. rewrite Z.add_0_r. done.
  - destruct (IH ltac:(done) r1 _ R1) as (r2 & E2 & R2).
    change (read_seq r (c :: c' :: caps)) with
      (let* (b, _, r1) := Read r c in
       let* (b', eof, r2) := read_seq r1 (c' :: caps) in Ok (b ++ b', eof, r2)).
    rewrite E1, E2. exists r2. set (k := zsum (c' :: caps)) in *.
    replace (Z.to_nat (c + k)) with (Z.to_nat c + Z.to_nat k)%nat by lia.
    rewrite take_take_drop. rewrite drop_drop in R2. split; [|done].
    do 2 f_equal. f_equal. unfold zlen. rewrite length_drop.
    destruct (Z.leb_spec (Z.of_nat (length left - Z.to_nat c)) k),
      (Z.leb_spec (Z.of_nat (length left)) (c + k)); lia || done.
Qed.

Lemma encode_closed v t b : wt v t -> enc_bytes v t = Ok b -> zlen b < 2 ^ 64 ->
  exists s, encode v t reset = Ok s /\ closes s b.
Proof.
  unfold enc_bytes, encode. intros Hw E Hb. destruct (cachedTypeInfo t); try done.
  destruct (makeWriter_writes v t no_tags b Hw E Hb) as (s & Hs & H).
  exists s. by rewrite H, cat_reset.
Qed.

(** ** Theorems *)

(** [Encode] to any writer that keeps the [io.Writer] contract: when it
    reports no error the writer has received exactly the encoding, and when the
    writer fails it has received a prefix of it; it never panics. *)
Theorem Encode_writes {W} `{IoWriter W} (out : W) (v : goval) (t : gotype) (b : list Z) :
  wt v t -> enc_bytes v t = Ok b -> zlen b < 2 ^ 64 ->
  exists e out', Encode out v t = Ok (e, out') /\
    (e = None -> written out' = written out ++ b) /\ written out' `prefix_of` written out ++ b.
Proof.
  intros Hw E Hb. destruct (encode_closed v t b Hw E Hb) as (s & Es & Hs).
  unfold Encode. rewrite Es. by apply toWriter_closed.
Qed.

(** [EncodeToReader] announces the size of the encoding and its reader
    streams it: any sequence of [Read] calls returns the next bytes of the
    encoding, as many as the buffers hold, and the last call reports EOF exactly
    when the buffers cover the encoding. *)
Theorem EncodeToReader_streams (v : goval) (t : gotype) (b : list Z) :
  wt v t -> enc_bytes v t = Ok b -> zlen b < 2 ^ 64 ->
  exists r, EncodeToReader v t = Ok (zlen b, r) /\
    forall caps, Forall (fun c => 0 <= c) caps -> caps <> [] ->
      exists r', read_seq r caps = Ok (take (Z.to_nat (zsum caps)) b, zlen b <=? zsum caps, r').
Proof.
  intros Hw E Hb. destruct (encode_closed v t b Hw E Hb) as (s & Es & H1 & H2 & H3).
  unfold EncodeToReader. rewrite Es, H3. eexists. split; [done|]. intros caps Hc Hn.
  destruct (read_seq_spec caps Hc Hn (mkReader (Some s) 0 0 None) b) as (r' & E' & _).
  - exists [], (lheads s), [], (str s). cbn [lhpos strpos piece default app].
    change (zlen []) with 0. by rewrite H2.
  - by exists r'.
Qed.

Lemma Encode_writes_witness : exists e out', Encode (W:=list Z) [] sample_v sample_t = Ok (e, out') /\
  (e = None -> written out' = written [] ++ sample_b) /\
  written out' `prefix_of` written [] ++ sample_b.
Proof.
  apply (Encode_writes (W:=list Z) [] sample_v sample_t sample_b);
    [apply sample_wt|vm_compute; reflexivity|vm_compute; reflexivity].
Defined.

Lemma EncodeToReader_streams_witness : exists r,
  EncodeToReader sample_v sample_t = Ok (zlen sample_b, r) /\
  forall caps, Forall (fun c => 0 <= c) caps -> caps <> [] ->
    exists r', read_seq r caps =
      Ok (take (Z.to_nat (zsum caps)) sample_b, zlen sample_b <=? zsum caps, r').
Proof.
  apply (EncodeToReader_streams sample_v sample_t sample_b);
    [apply sample_wt|vm_compute; reflexivity|vm_compute; reflexivity].
Defined.

(** RLP encoding of maps: independence of the iteration order

    A Go map has no order; [writeMap] of src/rlp/encode.go sorts the keys before
    it encodes.  For string and integer keys the encoding depends on the entries
    only; for keys of other kinds the comparison is constantly false and the
    encoding follows the run time's iteration order. *)
(** The kinds [writeMap] sorts. *)
Definition ordered_key (kt : gotype) : bool :=
  match kt with TString | TUint _ | TInt _ => true | _ => false end.

Lemma bytes_lt_trans a b c : bytes_lt a b = true -> bytes_lt b c = true -> bytes_lt a c = true.
Proof.
  revert b c. induction a as [|x a IH]; intros [|y b] [|z c]; cbn; try done.
  destruct (Z.eqb_spec x y), (Z.eqb_spec y z), (Z.eqb_spec x z); subst; try done; try apply IH;
    intros; zbool; try apply Z.ltb_lt; lia.
Qed.

Lemma bytes_lt_irrefl a : bytes_lt a a = false.
Proof. induction a; cbn; [done|]. by rewrite Z.eqb_refl. Qed.

Lemma bytes_lt_total a b : bytes_lt a b = false -> a <> b -> bytes_lt b a = true.
Proof.
  revert b. induction a as [|x a IH]; intros [|y b]; cbn; try done.
  rewrite (Z.eqb_sym y x). destruct (Z.eqb_spec x y) as [->|]; intros H Hn.
  - apply IH; [done|]. by intros ->.
  - zbool. apply Z.ltb_lt. lia.
Qed.

Lemma key_less_trans a b c : key_less a b = true -> key_less b c = true -> key_less a c = true.
Proof.
  destruct a, b; try done; destruct c; try done; cbn; [..|apply bytes_lt_trans];
    intros; zbool; apply Z.ltb_lt; lia.
Qed.

Lemma key_less_irrefl a : key_less a a = false.
Proof. destruct a; try done; cbn; [apply Z.ltb_irrefl..|apply bytes_lt_irrefl]. Qed.

Lemma key_less_total kt a b : ordered_key kt = true -> wt a kt -> wt b kt ->
  key_less a b = false -> a <> b -> key_less b a = true.
Proof.
  intros Hk Ha Hb H Hn. destruct kt; try done; destruct a; try done; destruct b; try done; cbn in *.
  - zbool. apply Z.ltb_lt. assert (z <> z0) by congruence. lia.
  - zbool. apply Z.ltb_lt. assert (z <> z0) by congruence. lia.
  - apply bytes_lt_total; congruence.
Qed.

(** ** Sorting entries by key *)

Section entries.
Context {A : Type}.
Abbreviation less := (fun a b : goval * A => key_less a.1 b.1).
Definition before (a b : goval * A) : Prop := key_less a.1 b.1 = true.

#[local] Instance before_antisymm : AntiSymm (=) before.
Proof.
  intros a b H1 H2. pose proof (key_less_trans _ _ _ H1 H2) as H. by rewrite key_less_irrefl in H.
Qed.

Lemma sort_insert_perm (x : goval * A) l : sort_insert less x l ≡ₚ x :: l.
Proof.
  induction l as [|y l IH]; cbn; [done|]. casem; [|done]. rewrite IH. apply Permutation_swap.
Qed.

Lemma SliceStable_perm (l : list (goval * A)) : SliceStable less l ≡ₚ l.
Proof. induction l; cbn; [done|]. by rewrite sort_insert_perm, IHl. Qed.

Lemma sort_insert_sorted kt (x : goval * A) l : ordered_key kt = true ->
  Forall (fun y => wt y.1 kt) (x :: l) -> x.1 ∉ l.*1 ->
  StronglySorted before l -> StronglySorted before (sort_insert less x l).
Proof.
  intros Hk Hw Hn. apply Forall_cons in Hw as [Hx Hl].
  induction 1 as [|y l Hs IH Hy]; cbn; [by repeat constructor|].
  apply Forall_cons in Hl as [Hwy Hl]. cbn in Hn. apply not_elem_of_cons in Hn as [Hxy Hn].
  destruct (key_less y.1 x.1) eqn:E.
  - constructor; [by apply IH|]. rewrite sort_insert_perm. by constructor.
  - assert (before x y) by (by eapply key_less_total).
    repeat constructor; try done. eapply Forall_impl; [exact Hy|].
    intros z Hz. by eapply key_less_trans.
Qed.

Lemma SliceStable_sorted kt (l : list (goval * A)) : ordered_key kt = true ->
  Forall (fun y => wt y.1 kt) l -> NoDup l.*1 -> StronglySorted before (SliceStable less l).
Proof.
  intros Hk. induction l as [|x l IH]; intros Hw Hn; cbn; [constructor|].
  apply Forall_cons in Hw as [Hx Hl]. cbn in Hn. apply NoDup_cons in Hn as [Hx' Hn].
  apply (sort_insert_sorted kt); [done| | |by apply IH].
  - constructor; [done|]. by rewrite SliceStable_perm.
  - by rewrite SliceStable_perm.
Qed.

Lemma SliceStable_unique kt (l k : list (goval * A)) : ordered_key kt = true ->
  Forall (fun y => wt y.1 kt) l -> NoDup l.*1 -> l ≡ₚ k -> SliceStable less l = SliceStable less k.
Proof.
  intros Hk Hw Hn Hp. apply (StronglySorted_unique before).
  - by apply (SliceStable_sorted kt).
  - apply (SliceStable_sorted kt); [done|by rewrite <- Hp|by rewrite <- Hp].
  - by rewrite !SliceStable_perm.
Qed.
End entries.

Lemma map_entries_fmap enc kt et kvs : map_entries enc kt et kvs =
  (fun kv => (kv.1, let* kb := encode_iface enc kv.1 kt in
                    let* vb := encode_iface enc kv.2 et in EncodeByteSlices [kb; vb])) <$> kvs.
Proof. induction kvs as [|[k x] kvs IH]; cbn; [done|]. by f_equal. Qed.

Lemma map_entries_keys enc kt et kvs : (map_entries enc kt et kvs).*1 = kvs.*1.
Proof. rewrite map_entries_fmap, <- list_fmap_compose. by apply list_fmap_ext. Qed.

Lemma writeMap_perm enc kt et kvs kvs' w : ordered_key kt = true ->
  Forall (fun kv => wt kv.1 kt) kvs -> NoDup kvs.*1 -> kvs ≡ₚ kvs' ->
  writeMap enc kt et (VMap kvs) w = writeMap enc kt et (VMap kvs') w.
Proof.
  intros Hk Hw Hn Hp. unfold writeMap.
  rewrite (SliceStable_unique kt (map_entries enc kt et kvs) (map_entries enc kt et kvs')); try done.
  - rewrite map_entries_fmap. apply Forall_fmap. done.
  - by rewrite map_entries_keys.
  - rewrite !map_entries_fmap. by apply fmap_Permutation.
Qed.

(** ** Theorems *)

(** For string and integer keys the encoding of a map does not depend on the
    order in which the run time iterates it: two enumerations of the same
    entries give the same result, errors included. *)
Theorem EncodeToBytes_map_deterministic kt et kvs kvs' : ordered_key kt = true ->
  wt (VMap kvs) (TMap kt et) -> NoDup kvs.*1 -> kvs ≡ₚ kvs' ->
  EncodeToBytes (VMap kvs) (TMap kt et) = EncodeToBytes (VMap kvs') (TMap kt et).
Proof.
  intros Hk Hw Hn Hp. unfold EncodeToBytes, encode, cachedTypeInfo. cbn [genTypeInfo_err makeWriter].
  rewrite (writeMap_perm _ kt et kvs kvs'); try done.
  cbn in Hw. apply allP_Forall in Hw. eapply Forall_impl; [exact Hw|]. by intros [] [].
Qed.

Lemma EncodeToBytes_map_deterministic_witness :
  EncodeToBytes (VMap [(VStr (bs "a"), VInt 5); (VStr (bs "b"), VInt (-1))]) (TMap TString (TInt 8)) =
  EncodeToBytes (VMap [(VStr (bs "b"), VInt (-1)); (VStr (bs "a"), VInt 5)]) (TMap TString (TInt 8)).
Proof.
  apply (EncodeToBytes_map_deterministic TString (TInt 8)); [done| | |apply Permutation_swap].
  - cbn. unfold width_ok, in_sN. repeat split; repeat constructor; unfold byte_ok; lia.
  - cbn. apply NoDup_cons. split; [|apply NoDup_singleton].
    rewrite list_elem_of_singleton. discriminate.
Defined.

(** For a map with boolean keys [writeMap] sorts nothing: two iteration
    orders of the same map have different encodings. *)
Theorem EncodeToBytes_map_bool_keys :
  let kvs := [(VBool true, VUint 1); (VBool false, VUint 2)] in
  let kvs' := [(VBool false, VUint 2); (VBool true, VUint 1)] in
  kvs ≡ₚ kvs' /\ exists b b', b <> b' /\
    EncodeToBytes (VMap kvs) (TMap TBool (TUint 8)) = Ok b /\
    EncodeToBytes (VMap kvs') (TMap TBool (TUint 8)) = Ok b'.
Proof.
  split; [apply Permutation_swap|].
  eexists _, _. split; [|split; vm_compute; reflexivity]. discriminate.
Qed.
