(* ===== verification/RlpStream.v ===== *)
(** * RLP decoder: the input stream

    Model of [Stream] of src/rlp/decode.go.  The reader is an in-memory one
    ([bytes.Reader], [strings.Reader], or a buffered reader over known bytes): its
    unread bytes are [s_in].  An operation takes a stream and returns its result
    with the new stream; an error leaves the stream where the code leaves it.
    [s_kind] is [None] for the code's -1.  The stack has its top first. *)

From S2P Require Import Prelude RlpTypes RlpEncode.

Inductive Kind := KByte | KString | KList.

#[export] Instance Kind_eq_dec : EqDecision Kind.
Proof. solve_decision. Defined.

Record listpos := mkPos { pos : Z; lsize : Z }.

Record Stream := mkStream {
  s_in : list Z;
  s_remaining : Z;
  s_limited : bool;
  s_kind : option Kind;
  s_size : Z;
  s_byteval : Z;
  s_kinderr : option rlp_err;
  s_stack : list listpos
}.

(** ** Field updates *)

Definition set_in (i : list Z) (s : Stream) : Stream :=
  mkStream i (s_remaining s) (s_limited s) (s_kind s) (s_size s) (s_byteval s) (s_kinderr s) (s_stack s).
Definition set_remaining (r : Z) (s : Stream) : Stream :=
  mkStream (s_in s) r (s_limited s) (s_kind s) (s_size s) (s_byteval s) (s_kinderr s) (s_stack s).
Definition set_kind (k : option Kind) (s : Stream) : Stream :=
  mkStream (s_in s) (s_remaining s) (s_limited s) k (s_size s) (s_byteval s) (s_kinderr s) (s_stack s).
Definition set_size (z : Z) (s : Stream) : Stream :=
  mkStream (s_in s) (s_remaining s) (s_limited s) (s_kind s) z (s_byteval s) (s_kinderr s) (s_stack s).
Definition set_byteval (b : Z) (s : Stream) : Stream :=
  mkStream (s_in s) (s_remaining s) (s_limited s) (s_kind s) (s_size s) b (s_kinderr s) (s_stack s).
Definition set_kinderr (e : option rlp_err) (s : Stream) : Stream :=
  mkStream (s_in s) (s_remaining s) (s_limited s) (s_kind s) (s_size s) (s_byteval s) e (s_stack s).
Definition set_stack (k : list listpos) (s : Stream) : Stream :=
  mkStream (s_in s) (s_remaining s) (s_limited s) (s_kind s) (s_size s) (s_byteval s) (s_kinderr s) k.

(** ** Sequencing: a result and the stream after it *)

Abbreviation sres A := (result A * Stream)%type.

Notation "'do' p ',' s <- c ; k" :=
  (match c with
   | (Ok p, s) => k
   | (Err e, s) => (Err e, s)
   | (Panic, s) => (Panic, s)
   | (NoFuel, s) => (NoFuel, s)
   end)
  (at level 10, p pattern, s name, c at level 100, k at level 200) : go_scope.

(** ** Reading bytes *)

(** [willRead]: accounts for [n] bytes in the innermost list and the input limit. *)
Definition willRead (n : Z) (s0 : Stream) : sres unit :=
  let s := set_kind None s0 in
  do _, s1 <-
    match s_stack s with
    | tos :: rest =>
        if u64 (lsize tos - pos tos) <? n then (Err ErrElemTooLarge, s)
        else (Ok tt, set_stack (mkPos (u64 (pos tos + n)) (lsize tos) :: rest) s)
    | [] => (Ok tt, s)
    end;
  if s_limited s1 then
    if s_remaining s1 <? n then (Err ErrValueTooLarge, s1)
    else (Ok tt, set_remaining (u64 (s_remaining s1 - n)) s1)
  else (Ok tt, s1).

Definition readByte (s : Stream) : sres Z :=
  do _, s1 <- willRead 1 s;
  match s_in s1 with
  | [] => (Err io_ErrUnexpectedEOF, s1)
  | b :: rest => (Ok b, set_in rest s1)
  end.

(** [readFull] of a buffer of [n] bytes. *)
Definition readFull (n : Z) (s : Stream) : sres (list Z) :=
  do _, s1 <- willRead n s;
  if zlen (s_in s1) <? n then (Err io_ErrUnexpectedEOF, set_in [] s1)
  else (Ok (take (Z.to_nat n) (s_in s1)), set_in (drop (Z.to_nat n) (s_in s1)) s1).

Definition readUint (size : Z) (s : Stream) : sres Z :=
  if size =? 0 then (Ok 0, set_kind None s)
  else if size =? 1 then readByte s
  else
    do buf, s1 <- readFull size s;
    match buf with
    | 0 :: _ => (Err ErrCanonSize, s1)
    | _ => (Ok (be_val buf), s1)
    end.

(** ** Kinds *)

(** [readKind]: the kind, the size and the error are all stored by the caller. *)
Definition readKind (s : Stream) : (Kind * Z * option rlp_err) * Stream :=
  let sized (k : Kind) (n : Z) (s : Stream) :=
    match readUint n s with
    | (Ok size, s1) => ((k, size, if size <? 56 then Some ErrCanonSize else None), s1)
    | (Err e, s1) => ((k, 0, Some e), s1)
    | (_, s1) => ((k, 0, Some io_ErrUnexpectedEOF), s1)   (* [readUint] returns a value or an error *)
    end in
  match readByte s with
  | (Ok b, s1) =>
      let s2 := set_byteval 0 s1 in
      if b <? 0x80 then ((KByte, 0, None), set_byteval b s2)
      else if b <? 0xB8 then ((KString, b - 0x80, None), s2)
      else if b <? 0xC0 then sized KString (b - 0xB7) s2
      else if b <? 0xF8 then ((KList, b - 0xC0, None), s2)
      else sized KList (b - 0xF7) s2
  | (Err e, s1) =>
      let e' := match s_stack s1, e with
                | [], io_ErrUnexpectedEOF | [], ErrValueTooLarge => io_EOF
                | _, _ => e
                end in
      ((KByte, 0, Some e'), s1)
  | (_, s1) => ((KByte, 0, Some io_ErrUnexpectedEOF), s1)     (* and so does [readByte] *)
  end.

(** The method [Kind]. *)
Definition Stream_Kind (s : Stream) : sres (Kind * Z) :=
  match s_kind s with
  | Some k =>
      match s_kinderr s with Some e => (Err e, s) | None => (Ok (k, s_size s), s) end
  | None =>
      let s0 := set_kinderr None s in
      match s_stack s0 with
      | tos :: _ =>
          if pos tos =? lsize tos then (Err EOL, s0)
          else
            let '((k, size, err), s1) := readKind s0 in
            let err' := match err with
                        | Some e => Some e
                        | None =>
                            (* [tos] points into the stack, which [readKind] advanced *)
                            match s_stack s1 with
                            | tos1 :: _ => if u64 (lsize tos1 - pos tos1) <? size
                                           then Some ErrElemTooLarge else None
                            | [] => None
                            end
                        end in
            let s2 := set_kind (Some k) (set_size size (set_kinderr err' s1)) in
            match err' with Some e => (Err e, s2) | None => (Ok (k, size), s2) end
      | [] =>
          let '((k, size, err), s1) := readKind s0 in
          let err' := match err with
                      | Some e => Some e
                      | None => if s_limited s1 && (s_remaining s1 <? size)
                                then Some ErrValueTooLarge else None
                      end in
          let s2 := set_kind (Some k) (set_size size (set_kinderr err' s1)) in
          match err' with Some e => (Err e, s2) | None => (Ok (k, size), s2) end
      end
  end.

(** ** Values *)

(** [make] panics on a length above the address space (2^48 on amd64). *)
Definition maxAlloc : Z := 2 ^ 48.

(** The method [Bytes]. *)
Definition Stream_Bytes (s : Stream) : sres (list Z) :=
  do (kind, size), s1 <- Stream_Kind s;
  match kind with
  | KByte => (Ok [s_byteval s1], set_kind None s1)
  | KString =>
      if maxAlloc <? size then (Panic, s1)
      else
        do b, s2 <- readFull size s1;
        match b with
        | [x] => if x <? 128 then (Err ErrCanonSize, s2) else (Ok b, s2)
        | _ => (Ok b, s2)
        end
  | KList => (Err ErrExpectedString, s1)
  end.

Definition Raw (s : Stream) : sres (list Z) :=
  do (kind, size), s1 <- Stream_Kind s;
  match kind with
  | KByte => (Ok [s_byteval s1], set_kind None s1)
  | _ =>
      let start := headsize size in
      let total := u64 (start + size) in
      if (maxAlloc <? total) || (total <? start) then (Panic, s1)
      else
        do content, s2 <- readFull (total - start) s1;
        (Ok ((match kind with
              | KString => puthead 0x80 0xB7 size
              | _ => puthead 0xC0 0xF7 size
              end) ++ content), s2)
  end.

(** [uint(maxbits)]. *)
Definition uint (maxbits : Z) (s : Stream) : sres Z :=
  do (kind, size), s1 <- Stream_Kind s;
  match kind with
  | KByte =>
      if s_byteval s1 =? 0 then (Err ErrCanonInt, s1)
      else (Ok (s_byteval s1), set_kind None s1)
  | KString =>
      if maxbits / 8 <? size then (Err errUintOverflow, s1)
      else
        match readUint (u8 size) s1 with
        | (Err ErrCanonSize, s2) => (Err ErrCanonInt, s2)
        | (Ok v, s2) => if (0 <? size) && (v <? 128) then (Err ErrCanonSize, s2) else (Ok v, s2)
        | (r, s2) => (r, s2)
        end
  | KList => (Err ErrExpectedString, s1)
  end.

Definition Uint (s : Stream) : sres Z := uint 64 s.

Definition Stream_Bool (s : Stream) : sres bool :=
  do num, s1 <- uint 8 s;
  if num =? 0 then (Ok false, s1)
  else if num =? 1 then (Ok true, s1)
  else (Err (errInvalidBool num), s1).

(** ** Lists *)

Definition List_ (s : Stream) : sres Z :=
  do (kind, size), s1 <- Stream_Kind s;
  match kind with
  | KList => (Ok size, set_size 0 (set_kind None (set_stack (mkPos 0 size :: s_stack s1) s1)))
  | _ => (Err ErrExpectedList, s1)
  end.

Definition ListEnd (s : Stream) : sres unit :=
  match s_stack s with
  | [] => (Err errNotInList, s)
  | tos :: rest =>
      if negb (pos tos =? lsize tos) then (Err errNotAtEOL, s)
      else
        let rest' := match rest with
                     | p :: rest2 => mkPos (u64 (pos p + lsize tos)) (lsize p) :: rest2
                     | [] => []
                     end in
        (Ok tt, set_size 0 (set_kind None (set_stack rest' s)))
  end.

(** ** Starting a stream *)

(** [Reset] to a reader holding [r]; [inmem] says that its type is one whose
    length the code can ask for. *)
Definition Reset (r : list Z) (inmem : bool) (inputLimit : Z) (s : Stream) : Stream :=
  let '(rem, lim) := if 0 <? inputLimit then (inputLimit, true)
                     else if inmem then (zlen r, true) else (s_remaining s, false) in
  mkStream r rem lim None 0 (s_byteval s) None [].

Definition new_Stream : Stream := mkStream [] 0 false (Some KByte) 0 0 None [].

Definition NewStream (r : list Z) (inmem : bool) (inputLimit : Z) : Stream :=
  Reset r inmem inputLimit new_Stream.

Definition NewListStream (r : list Z) (inmem : bool) (len : Z) : Stream :=
  set_size len (set_kind (Some KList) (Reset r inmem len new_Stream)).
