(* ===== verification/RlpStreamSpec.v ===== *)
(** * RLP decoder: what the stream does on well-formed input

    The lemmas follow a stream across one encoded item: [ready] describes a stream
    between two values, [armed] one whose next kind has been read. *)

From S2P Require Import Prelude RlpTypes RlpEncode RlpEncodeSpec RlpStream.

(** The unread input, the bytes left under the limit (if there is one), the stack. *)
Definition at_ (s : Stream) (inp : list Z) (rem : Z) (stk : list listpos) : Prop :=
  s_in s = inp /\ (s_limited s = true -> s_remaining s = rem) /\ s_stack s = stk.

Definition ready (s : Stream) (inp : list Z) (rem : Z) (stk : list listpos) : Prop :=
  s_kind s = None /\ at_ s inp rem stk.

Definition armed (s : Stream) (k : Kind) (n : Z) : Prop :=
  s_kind s = Some k /\ s_size s = n /\ s_kinderr s = None.

(** The innermost list has room for [n] bytes. *)
Definition room (n : Z) (stk : list listpos) : Prop :=
  match stk with
  | [] => True
  | tos :: _ => 0 <= pos tos /\ pos tos + n <= lsize tos < 2 ^ 64
  end.

Definition bump (n : Z) (stk : list listpos) : list listpos :=
  match stk with
  | [] => []
  | tos :: rest => mkPos (pos tos + n) (lsize tos) :: rest
  end.

Lemma bump_bump m n stk : bump m (bump n stk) = bump (n + m) stk.
Proof. destruct stk as [|[p z] stk]; cbn; [done|]. do 2 f_equal. lia. Qed.

Lemma bump_0 stk : bump 0 stk = stk.
Proof. destruct stk as [|[p z] stk]; cbn; [done|]. do 2 f_equal. lia. Qed.

Lemma room_le m n stk : m <= n -> room n stk -> room m stk.
Proof. destruct stk as [|tos stk]; cbn; [done|]. lia. Qed.

Lemma room_bump m n stk : 0 <= n -> room (n + m) stk -> room m (bump n stk).
Proof. destruct stk as [|tos stk]; cbn; [done|]. lia. Qed.

(** The sizes that occur: bytes to read and bytes left under the limit. *)
Definition fits (n rem : Z) : Prop := 0 <= n /\ 0 <= rem /\ n + rem < 2 ^ 64.

Lemma willRead_ok n s inp rem stk : at_ s inp (n + rem) stk -> fits n rem -> room n stk ->
  exists s', willRead n s = (Ok tt, s') /\ ready s' inp rem (bump n stk) /\
             s_byteval s' = s_byteval s.
Proof.
  intros (Hi & Hr & Hs) Hf Hn. unfold fits in Hf. unfold willRead.
  destruct s as [i r l k z bv ke st]. cbn in *. subst.
  destruct stk as [|[p z'] stk]; cbn [s_stack s_limited s_remaining].
  - destruct l; cbn.
    + rewrite Hr by done. destruct (Z.ltb_spec (n + rem) n); [lia|]. eexists. split; [done|].
      unfold ready, at_. cbn. split_and!; try done. intros _. rewrite uN_id by (unfold in_uN; lia). lia.
    + eexists. split; [done|]. unfold ready, at_. cbn. done.
  - cbn in Hn. cbn [pos lsize]. rewrite (uN_id 64 (z' - p)) by (unfold in_uN; lia).
    destruct (Z.ltb_spec (z' - p) n); [lia|]. rewrite (uN_id 64 (p + n)) by (unfold in_uN; lia).
    destruct l; cbn.
    + rewrite Hr by done. destruct (Z.ltb_spec (n + rem) n); [lia|]. eexists. split; [done|].
      unfold ready, at_. cbn. split_and!; try done. intros _. rewrite uN_id by (unfold in_uN; lia). lia.
    + eexists. split; [done|]. unfold ready, at_. cbn. done.
Qed.

Lemma readByte_ok b s inp rem stk : at_ s (b :: inp) (1 + rem) stk -> fits 1 rem -> room 1 stk ->
  exists s', readByte s = (Ok b, s') /\ ready s' inp rem (bump 1 stk).
Proof.
  intros Ha Hf Hn. destruct (willRead_ok _ _ _ _ _ Ha Hf Hn) as (s1 & E & (Hk & Hi & Hr & Hs) & _).
  unfold readByte. rewrite E, Hi. eexists. split; [done|]. done.
Qed.

Lemma readFull_ok b s inp rem stk : at_ s (b ++ inp) (zlen b + rem) stk -> fits (zlen b) rem ->
  room (zlen b) stk ->
  exists s', readFull (zlen b) s = (Ok b, s') /\ ready s' inp rem (bump (zlen b) stk).
Proof.
  intros Ha Hf Hn. destruct (willRead_ok _ _ _ _ _ Ha Hf Hn) as (s1 & E & (Hk & Hi & Hr & Hs) & _).
  unfold readFull. rewrite E, Hi. destruct (Z.ltb_spec (zlen (b ++ inp)) (zlen b)); [zl|].
  rewrite take_app_zlen, drop_app_zlen. eexists. split; [done|]. done.
Qed.

(** [readUint] of a number's minimal bytes. *)
Lemma readUint_ok i s inp rem stk : 0 <= i ->
  at_ s (be_min i ++ inp) (zlen (be_min i) + rem) stk -> fits (zlen (be_min i)) rem ->
  room (zlen (be_min i)) stk ->
  exists s', readUint (zlen (be_min i)) s = (Ok i, s') /\ ready s' inp rem (bump (zlen (be_min i)) stk).
Proof.
  intros Hi Ha Hf Hn. unfold readUint. pose proof (be_val_min i) as Hv. rewrite Z.abs_eq in Hv by done.
  destruct (be_min i) as [|x [|y l]] eqn:E.
  - change (zlen []) with 0 in *. cbn [Z.eqb app] in *. rewrite be_val_nil in Hv. subst i.
    exists (set_kind None s). split; [done|]. rewrite bump_0. split; [done|].
    destruct Ha as (? & ? & ?). done.
  - change (zlen [x]) with 1 in *. cbn [Z.eqb Pos.eqb app] in *.
    destruct (readByte_ok _ _ _ _ _ Ha Hf Hn) as (s' & E' & R). exists s'. rewrite E'.
    rewrite be_val_cons in Hv. change (256 ^ zlen []) with 1 in Hv. rewrite be_val_nil in Hv.
    split; [|done]. do 2 f_equal. lia.
  - assert (2 <= zlen (x :: y :: l)) by zl.
    destruct (Z.eqb_spec (zlen (x :: y :: l)) 0), (Z.eqb_spec (zlen (x :: y :: l)) 1); try lia.
    destruct (readFull_ok _ _ _ _ _ Ha Hf Hn) as (s' & E' & R). exists s'. rewrite E', <- Hv.
    pose proof (be_min_head _ _ _ E). destruct x; done.
Qed.

(** ** Kinds *)

Lemma Kind_ok s inp rem stk k n s1 inp1 rem1 m : ready s inp rem stk -> room 1 stk ->
  readKind (set_kinderr None s) = ((k, n, None), s1) ->
  at_ s1 inp1 rem1 (bump m stk) -> room n (bump m stk) -> 0 <= n <= rem1 ->
  exists s', Stream_Kind s = (Ok (k, n), s') /\ armed s' k n /\ at_ s' inp1 rem1 (bump m stk) /\
             s_byteval s' = s_byteval s1.
Proof.
  intros (Hk & Hi & Hr & Hs) H1 E Ha Hn Hrem.
  exists (set_kind (Some k) (set_size n (set_kinderr None s1))).
  split; [|destruct Ha as (? & ? & ?); done].
  unfold Stream_Kind. rewrite Hk. cbn [set_kinderr s_stack]. rewrite Hs.
  fold (set_kinderr None s). rewrite E. destruct Ha as (_ & Hr1 & Hs1).
  destruct stk as [|[p z] stk]; cbn [bump pos lsize] in *.
  - destruct (s_limited s1); cbn [andb]; [|done]. rewrite Hr1 by done.
    destruct (Z.ltb_spec rem1 n); [lia|done].
  - cbn in H1, Hn. destruct (Z.eqb_spec p z); [lia|]. rewrite Hs1. cbn [pos lsize].
    rewrite uN_id by (unfold in_uN; lia). destruct (Z.ltb_spec (z - (p + m)) n); [lia|done].
Qed.

Lemma at_set_kinderr s e inp rem stk : at_ s inp rem stk -> at_ (set_kinderr e s) inp rem stk.
Proof. done. Qed.

(** A byte below 0x80 ahead. *)
Lemma Kind_byte x s inp rem stk : 0 <= x < 0x80 -> ready s (x :: inp) (1 + rem) stk -> fits 1 rem ->
  room 1 stk ->
  exists s', Stream_Kind s = (Ok (KByte, 0), s') /\ armed s' KByte 0 /\
             at_ s' inp rem (bump 1 stk) /\ s_byteval s' = x.
Proof.
  intros Hx Hr Hf Hn. pose proof Hr as [Hk Ha].
  destruct (readByte_ok x (set_kinderr None s) inp rem stk Ha Hf Hn) as (s1 & E & _ & Ha1).
  destruct (Kind_ok s (x :: inp) (1 + rem) stk KByte 0 (set_byteval x (set_byteval 0 s1)) inp rem 1)
    as (s' & E' & Har & Ha' & Hb); [done|done| |done| |unfold fits in Hf; lia|].
  - unfold readKind. rewrite E. by destruct (Z.ltb_spec x 128); [|lia].
  - apply room_bump; [lia|]. done.
  - exists s'. done.
Qed.

Definition small_tag (k : Kind) : Z := match k with KList => 0xC0 | _ => 0x80 end.
Definition large_tag (k : Kind) : Z := match k with KList => 0xF7 | _ => 0xB7 end.
Abbreviation khead k n := (header (small_tag k) (large_tag k) n).

Lemma readKind_header k n s inp rem stk : k <> KByte -> 0 <= n < 2 ^ 64 ->
  at_ s (khead k n ++ inp) (zlen (khead k n) + rem) stk -> fits (zlen (khead k n)) rem ->
  room (zlen (khead k n)) stk ->
  exists s1, readKind s = ((k, n, None), s1) /\ at_ s1 inp rem (bump (zlen (khead k n)) stk).
Proof.
  intros Hk Hn Ha Hf Hr. unfold header in *. destruct (Z.ltb_spec n 56).
  - change (zlen [small_tag k + n]) with 1 in *. cbn [app] in Ha.
    destruct (readByte_ok _ _ _ _ _ Ha Hf Hr) as (s1 & E & _ & Ha1).
    exists (set_byteval 0 s1). split; [|done]. unfold readKind. rewrite E.
    destruct k; [done| |]; cbn [small_tag].
    + destruct (Z.ltb_spec (128 + n) 128), (Z.ltb_spec (128 + n) 184); try lia. do 3 f_equal. lia.
    + destruct (Z.ltb_spec (192 + n) 128), (Z.ltb_spec (192 + n) 184), (Z.ltb_spec (192 + n) 192),
        (Z.ltb_spec (192 + n) 248); try lia. do 3 f_equal. lia.
  - set (l := zlen (be_min n)) in *. rewrite zlen_cons in *. fold l in Ha, Hf, Hr |- *. cbn [app] in Ha.
    assert (1 <= l <= 8).
    { pose proof (be_min_len_le n 8 ltac:(cbn; lia)). pose proof (be_min_len_pos n). lia. }
    assert (fits 1 (l + rem) /\ fits l rem) as [Hf1 Hf2] by (unfold fits in *; lia).
    destruct (readByte_ok (large_tag k + l) s (be_min n ++ inp) (l + rem) stk) as (s1 & E & _ & Ha1);
      [by rewrite (assoc Z.add)|done|by eapply room_le; [|exact Hr]; lia|].
    destruct (readUint_ok n (set_byteval 0 s1) inp rem (bump 1 stk)) as (s2 & E2 & _ & Ha2);
      [lia|exact Ha1|done|by apply room_bump; [lia|]|].
    fold l in E2, Ha2. rewrite bump_bump in Ha2. exists s2. split; [|done].
    unfold readKind. rewrite E. destruct k; [done| |]; cbn [large_tag].
    + replace (183 + l - 183) with l by lia. rewrite E2.
      destruct (Z.ltb_spec (183 + l) 128), (Z.ltb_spec (183 + l) 184), (Z.ltb_spec (183 + l) 192),
        (Z.ltb_spec n 56); try lia. done.
    + replace (247 + l - 247) with l by lia. rewrite E2.
      destruct (Z.ltb_spec (247 + l) 128), (Z.ltb_spec (247 + l) 184), (Z.ltb_spec (247 + l) 192),
        (Z.ltb_spec (247 + l) 248), (Z.ltb_spec n 56); try lia. done.
Qed.

(** A header ahead, followed by the [n] bytes it announces. *)
Lemma Kind_header k n s inp rem stk : k <> KByte -> 0 <= n ->
  ready s (khead k n ++ inp) (zlen (khead k n) + (n + rem)) stk ->
  fits (zlen (khead k n) + n) rem -> room (zlen (khead k n) + n) stk ->
  exists s', Stream_Kind s = (Ok (k, n), s') /\ armed s' k n /\
             at_ s' inp (n + rem) (bump (zlen (khead k n)) stk).
Proof.
  intros Hk Hn Hr Hf Hrm. pose proof Hr as [_ Ha]. pose proof (header_pos (small_tag k) (large_tag k) n).
  unfold fits in Hf.
  destruct (readKind_header k n (set_kinderr None s) inp (n + rem) stk) as (s1 & E & Ha1);
    [done|lia|exact Ha|unfold fits; lia|eapply room_le; [|exact Hrm]; lia|].
  destruct (Kind_ok s _ _ stk k n s1 inp (n + rem) (zlen (khead k n)) Hr) as (s' & E' & Har & Ha' & _);
    [eapply room_le; [|exact Hrm]; lia|done|done|apply room_bump; [lia|done]|lia|].
  exists s'. done.
Qed.

Lemma Kind_armed s k n : armed s k n -> Stream_Kind s = (Ok (k, n), s).
Proof. intros (H1 & H2 & H3). unfold Stream_Kind. by rewrite H1, H2, H3. Qed.

(** At the end of the innermost list. *)
Lemma Kind_EOL s inp rem tos stk : ready s inp rem (tos :: stk) -> pos tos = lsize tos ->
  exists s', Stream_Kind s = (Err EOL, s') /\ ready s' inp rem (tos :: stk).
Proof.
  intros (Hk & Hi & Hr & Hs) E. unfold Stream_Kind. rewrite Hk. cbn [set_kinderr s_stack]. rewrite Hs.
  rewrite E, Z.eqb_refl. eexists. split; [done|]. done.
Qed.

(** ** Reading one item *)

(** A stream between two values, or whose next kind has been looked at. *)
Definition primed (s : Stream) (inp : list Z) (rem : Z) (stk : list listpos) : Prop :=
  exists s0, ready s0 inp rem stk /\ (s = s0 \/ exists kn, Stream_Kind s0 = (Ok kn, s)).

Lemma ready_primed s inp rem stk : ready s inp rem stk -> primed s inp rem stk.
Proof. intros H. exists s. auto. Qed.

Lemma Kind_again s kn s1 : Stream_Kind s = (Ok kn, s1) -> Stream_Kind s1 = (Ok kn, s1).
Proof.
  unfold Stream_Kind at 1. destruct (s_kind s) eqn:Hk.
  - destruct (s_kinderr s) eqn:He; [done|]. intros [= <- <-]. unfold Stream_Kind. by rewrite Hk, He.
  - destruct (s_stack (set_kinderr None s)) as [|tos rest].
    + destruct (readKind _) as [[[k n] e] s2]. cbv zeta. destruct e; [done|].
      destruct (s_limited s2 && (s_remaining s2 <? n)); [done|]. intros [= <- <-]. done.
    + destruct (_ =? _); [done|]. destruct (readKind _) as [[[k n] e] s2]. cbv zeta.
      destruct e; [done|]. destruct (s_stack s2) as [|t2 st2]; [by intros [= <- <-]|].
      destruct (_ <? n); [done|]. by intros [= <- <-].
Qed.

Lemma primed_Kind s inp rem stk (Q : Stream -> Kind * Z -> Prop) : primed s inp rem stk ->
  (forall s0, ready s0 inp rem stk -> exists kn s1, Stream_Kind s0 = (Ok kn, s1) /\ Q s1 kn) ->
  exists kn s1, Stream_Kind s = (Ok kn, s1) /\ Q s1 kn.
Proof.
  intros (s0 & Hr & [->|[kn E]]) H; destruct (H s0 Hr) as (kn' & s1 & E' & HQ); [eauto|].
  rewrite E in E'. injection E' as -> ->. apply Kind_again in E. eauto.
Qed.

(** [f] reads exactly the bytes [b] and returns [v]. *)
Definition sreads {A} (f : Stream -> sres A) (b : list Z) (v : A) : Prop :=
  forall s inp rem stk, primed s (b ++ inp) (zlen b + rem) stk -> fits (zlen b) rem ->
    room (zlen b) stk -> exists s', f s = (Ok v, s') /\ ready s' inp rem (bump (zlen b) stk).

(** The two shapes of a string item. *)
Lemma enc_string_cases b : bytes_ok b ->
  (exists x, b = [x] /\ 0 <= x < 0x80 /\ enc_string b = [x]) \/
  (enc_string b = khead KString (zlen b) ++ b /\ forall x, b = [x] -> 0x80 <= x).
Proof.
  intros Hb. destruct b as [|x [|y b]]; [by right| |by right].
  destruct (Z.ltb_spec x 0x80).
  - left. exists x. apply bytes_ok_cons in Hb as [Hx _]. unfold byte_ok in Hx.
    split_and!; try done; try lia. cbn [enc_string]. by destruct (Z.ltb_spec x 128); [|lia].
  - right. split; [|by intros ? [= <-]]. apply enc_string_header. by intros ? [= <-].
Qed.

(** The kind of a string item, and where the stream stands then. *)
Lemma Kind_string b s inp rem stk : bytes_ok b ->
  primed s (enc_string b ++ inp) (zlen (enc_string b) + rem) stk -> fits (zlen (enc_string b)) rem ->
  room (zlen (enc_string b)) stk ->
  exists kn s1, Stream_Kind s = (Ok kn, s1) /\
    ((kn = (KByte, 0) /\ b = [s_byteval s1] /\ 0 <= s_byteval s1 < 0x80 /\
      at_ s1 inp rem (bump (zlen (enc_string b)) stk)) \/
     (kn = (KString, zlen b) /\ (forall x, b = [x] -> 0x80 <= x) /\
      at_ s1 (b ++ inp) (zlen b + rem) (bump (zlen (khead KString (zlen b))) stk) /\
      zlen (enc_string b) = zlen (khead KString (zlen b)) + zlen b)).
Proof.
  intros Hb Hp Hf Hr. eapply primed_Kind; [exact Hp|]. intros s0 Hs.
  destruct (enc_string_cases b Hb) as [(x & -> & Hx & E)|[E Hx]]; rewrite E in *.
  - change (zlen [x]) with 1 in *. destruct (Kind_byte x s0 inp rem stk) as (s1 & E1 & _ & Ha & Hv); try done.
    exists (KByte, 0), s1. split; [done|]. left. rewrite Hv. done.
  - rewrite <- (assoc app), zlen_app, <- (assoc Z.add) in Hs. rewrite zlen_app in Hf, Hr.
    destruct (Kind_header KString (zlen b) s0 (b ++ inp) rem stk) as (s1 & E1 & _ & Ha); try done; [zl|].
    exists (KString, zlen b), s1. split; [done|]. right. by rewrite zlen_app.
Qed.

Lemma ready_set_kind s inp rem stk : at_ s inp rem stk -> ready (set_kind None s) inp rem stk.
Proof. done. Qed.

Lemma Stream_Bytes_ok b : bytes_ok b -> zlen b <= maxAlloc -> sreads Stream_Bytes (enc_string b) b.
Proof.
  intros Hb Hm s inp rem stk Hp Hf Hr. unfold Stream_Bytes.
  destruct (Kind_string b s inp rem stk) as (kn & s1 & E & [(-> & Eb & Hx & Ha)|(-> & Hx & Ha & El)]);
    try done; rewrite E.
  - rewrite <- Eb. eexists. split; [done|]. by apply ready_set_kind.
  - destruct (Z.ltb_spec maxAlloc (zlen b)); [lia|].
    assert (Hh := header_pos 0x80 0xB7 (zlen b)). pose proof (zlen_nonneg b). cbn [small_tag large_tag] in *.
    destruct (readFull_ok b s1 inp rem _ Ha) as (s2 & E2 & R2);
      [unfold fits in *; lia|apply room_bump; [lia|by rewrite <- El]|].
    rewrite E2. rewrite bump_bump, <- El in R2. exists s2. split; [|done].
    destruct b as [|x [|y b]]; try done. specialize (Hx x eq_refl). by destruct (Z.ltb_spec x 128); [lia|].
Qed.

(** *** Integers *)

Lemma be_min_single i x : be_min i = [x] -> 0 <= i -> x = i.
Proof.
  intros E Hi. pose proof (be_val_min i) as V. rewrite E, be_val_cons in V.
  change (256 ^ zlen []) with 1 in V. rewrite be_val_nil in V. lia.
Qed.

Lemma width_bytes bits : width_ok bits ->
  exists k : nat, bits / 8 = Z.of_nat k /\ (k <= 8)%nat /\ 2 ^ bits = 256 ^ Z.of_nat k.
Proof.
  intros [-> | [-> | [-> | ->]]]; [exists 1%nat|exists 2%nat|exists 4%nat|exists 8%nat];
    (split; [done|split; [lia|done]]).
Qed.

Lemma uint_ok bits i : width_ok bits -> in_uN bits i -> sreads (uint bits) (enc_nat i) i.
Proof.
  intros Hw Hi s inp rem stk Hp Hf Hr. unfold uint. unfold in_uN in Hi.
  pose proof (be_min_ok i) as Hb. unfold enc_nat in *.
  destruct (Kind_string (be_min i) s inp rem stk) as (kn & s1 & E & [(-> & Eb & Hx & Ha)|(-> & Hx & Ha & El)]);
    try done; rewrite E.
  - apply be_min_single in Eb as Ei; [|lia]. pose proof (be_min_head _ _ _ Eb).
    destruct (Z.eqb_spec (s_byteval s1) 0); [done|].
    eexists. rewrite Ei. split; [done|]. by apply ready_set_kind.
  - assert (Hl : zlen (be_min i) <= bits / 8 /\ bits / 8 <= 8).
    { destruct (width_bytes bits Hw) as (k & -> & Hk & Ep). rewrite Ep in Hi.
      split; [by apply be_min_len_le|lia]. }
    destruct (Z.ltb_spec (bits / 8) (zlen (be_min i))); [lia|].
    assert (Hh := header_pos 0x80 0xB7 (zlen (be_min i))). pose proof (zlen_nonneg (be_min i)).
    cbn [small_tag large_tag] in *. rewrite uN_id by (unfold in_uN; lia).
    destruct (readUint_ok i s1 inp rem _ ltac:(lia) Ha) as (s2 & E2 & R2);
      [unfold fits in *; lia|apply room_bump; [lia|by rewrite <- El]|].
    rewrite E2. rewrite bump_bump, <- El in R2. exists s2. split; [|done].
    destruct (Z.ltb_spec 0 (zlen (be_min i))), (Z.ltb_spec i 128); try done.
    destruct (Z.eq_dec i 0) as [->|]; [done|].
    assert (be_min i = [i]) as Eb by (apply be_min_small; lia). specialize (Hx i Eb). lia.
Qed.

Lemma Stream_Bool_ok (b : bool) : sreads Stream_Bool [if b then 0x01 else 0x80] b.
Proof.
  intros s inp rem stk Hp Hf Hr. unfold Stream_Bool.
  destruct (uint_ok 8 (if b then 1 else 0) ltac:(by left) ltac:(unfold in_uN; destruct b; lia)
              s inp rem stk) as (s1 & E & R); try by destruct b.
  rewrite E. destruct b; exists s1; done.
Qed.

(** *** Raw items *)

Lemma Raw_header k c : k <> KByte -> zlen c < maxAlloc - 9 ->
  sreads Raw (khead k (zlen c) ++ c) (khead k (zlen c) ++ c).
Proof.
  intros Hk Hm s inp rem stk Hp Hf Hr. pose proof (zlen_nonneg c).
  rewrite <- (assoc app), zlen_app, <- (assoc Z.add) in Hp. rewrite zlen_app in Hf, Hr |- *.
  edestruct (primed_Kind s _ _ _
    (fun s1 kn => kn = (k, zlen c) /\ at_ s1 (c ++ inp) (zlen c + rem) (bump (zlen (khead k (zlen c))) stk)) Hp)
    as (kn & s1 & E & -> & Ha).
  { intros s0 H0. destruct (Kind_header k (zlen c) s0 (c ++ inp) rem stk) as (s1 & E1 & _ & Ha); try done; eauto 10. }
  unfold Raw. rewrite E. pose proof (header_pos (small_tag k) (large_tag k) (zlen c)).
  unfold maxAlloc in *. rewrite header_len in * by lia.
  assert (headsize (zlen c) <= 9).
  { unfold headsize. destruct (Z.ltb_spec (zlen c) 56); [lia|]. rewrite intsize_spec by lia.
    pose proof (nbytes_le (zlen c) 8). cbn in *. lia. }
  rewrite uN_id by (unfold in_uN; lia).
  destruct (Z.ltb_spec (2 ^ 48) (headsize (zlen c) + zlen c)),
    (Z.ltb_spec (headsize (zlen c) + zlen c) (headsize (zlen c))); try lia. cbn [orb].
  replace (headsize (zlen c) + zlen c - headsize (zlen c)) with (zlen c) by lia.
  destruct (readFull_ok c s1 inp rem _ Ha) as (s2 & E2 & R2);
    [unfold fits in *; lia|apply room_bump; [lia|done]|].
  rewrite bump_bump in R2. exists s2.
  destruct k; [done|..]; rewrite E2, puthead_spec by lia; done.
Qed.

(** ** Lists *)

(** Opening a list: the stream stands at its payload, with a new frame. *)
Lemma List_ok p s inp rem stk : primed s (enc_list p ++ inp) (zlen (enc_list p) + rem) stk ->
  fits (zlen (enc_list p)) rem -> room (zlen (enc_list p)) stk ->
  exists s', List_ s = (Ok (zlen p), s') /\
    ready s' (p ++ inp) (zlen p + rem) (mkPos 0 (zlen p) :: bump (zlen (enc_list p) - zlen p) stk).
Proof.
  intros Hp Hf Hr. unfold enc_list in *. pose proof (zlen_nonneg p).
  rewrite <- (assoc app), zlen_app, <- (assoc Z.add) in Hp. rewrite zlen_app in Hf, Hr |- *.
  edestruct (primed_Kind s _ _ _
    (fun s1 kn => kn = (KList, zlen p) /\ at_ s1 (p ++ inp) (zlen p + rem) (bump (zlen (khead KList (zlen p))) stk)) Hp)
    as (kn & s1 & E & -> & Ha).
  { intros s0 H0. destruct (Kind_header KList (zlen p) s0 (p ++ inp) rem stk) as (s1 & E1 & _ & Ha); try done; eauto 10. }
  unfold List_. rewrite E. eexists. split; [done|]. split; [done|].
  destruct Ha as (Hi & Hrm & Hs). unfold at_. cbn. rewrite Hs. split_and!; try done.
  do 2 f_equal. cbn [small_tag large_tag]. lia.
Qed.

(** Closing it once the payload has been read. *)
Lemma ListEnd_ok p s inp rem stk : 0 <= rem ->
  ready s inp rem (mkPos (zlen p) (zlen p) :: bump (zlen (enc_list p) - zlen p) stk) ->
  room (zlen (enc_list p)) stk ->
  exists s', ListEnd s = (Ok tt, s') /\ ready s' inp rem (bump (zlen (enc_list p)) stk).
Proof.
  intros Hrem (Hk & Hi & Hr & Hs) Hroom. unfold ListEnd. rewrite Hs. cbn [pos lsize].
  rewrite Z.eqb_refl. cbn [negb]. eexists. split; [done|]. split; [done|]. unfold at_. cbn.
  split_and!; try done. pose proof (zlen_nonneg p). pose proof (zlen_nonneg (enc_list p)).
  destruct stk as [|[q z] stk]; [done|]. cbn in *. rewrite uN_id by (unfold in_uN; lia).
  do 2 f_equal. lia.
Qed.
