(* ===== verification/RlpStreamInv.v ===== *)
(** * RLP decoder: the stream invariant on arbitrary input

    [sinv] is what every reachable stream over a limited input satisfies: list
    positions stay inside their lists, nested lists inside their parents, and a
    value whose kind has been read fits what is left.  It is what keeps the
    unsigned subtractions of [willRead] and [Kind] from wrapping and the
    allocations of [Bytes] and [Raw] bounded by the input. *)

From S2P Require Import Prelude RlpTypes RlpEncode RlpEncodeSpec RlpStream RlpStreamSpec.

(** The largest input: its buffers with a header in front can be allocated. *)
Definition max_input : Z := maxAlloc - 9.

Fixpoint chain (stk : list listpos) : Prop :=
  match stk with
  | [] => True
  | tos :: rest =>
      0 <= pos tos <= lsize tos /\ lsize tos < max_input /\
      match rest with p :: _ => pos p + lsize tos <= lsize p | [] => True end /\ chain rest
  end.

(** Bytes that can still be read at this level. *)
Definition avail (s : Stream) : Z :=
  match s_stack s with [] => s_remaining s | tos :: _ => lsize tos - pos tos end.

(** Errors other than the end of a list. *)
Definition plain (e : rlp_err) : bool :=
  match e with EOL => false | _ => true end.

Record sbase (s : Stream) : Prop := mkBase {
  b_limited : s_limited s = true;
  b_remaining : 0 <= s_remaining s < max_input;
  b_chain : chain (s_stack s);
  b_bytes : bytes_ok (s_in s);
  b_byteval : byte_ok (s_byteval s);
  b_kinderr : match s_kinderr s with Some e => plain e = true | None => True end
}.

Definition sinv (s : Stream) : Prop :=
  sbase s /\ (s_kind s <> None -> s_kinderr s = None -> 0 <= s_size s <= avail s).

(** The stream after an operation: nothing is put back, and an operation that
    started between two values has taken a byte. *)
Definition used (s s' : Stream) : Prop :=
  (length (s_in s') <= length (s_in s))%nat /\
  (s_kind s = None -> (length (s_in s') < length (s_in s))%nat).

(** An operation on [s] that cannot panic or run out of fuel; [EOL] occurs only
    inside a list and leaves the stream usable, other errors are final. *)
Definition safe {A} (s : Stream) (Q : A -> Stream -> Prop) (x : sres A) : Prop :=
  match x with
  | (Ok a, s') => sinv s' /\ Q a s'
  | (Err EOL, s') => sinv s' /\ s_kind s' = None /\ (length (s_in s') <= length (s_in s))%nat /\
                     s_stack s <> []
  | (Err e, _) => plain e = true
  | (Panic, _) | (NoFuel, _) => False
  end.

Lemma safe_bind {A B} s (Q : A -> Stream -> Prop) (Q' : B -> Stream -> Prop) c k :
  safe s Q c -> (forall a s1, sinv s1 -> Q a s1 -> safe s Q' (k a s1)) ->
  safe s Q' (do a, s1 <- c; k a s1).
Proof. intros H Hk. destruct c as [[a|[]| |] s1]; cbn in *; try done. destruct H. by apply Hk. Qed.

Lemma safe_weaken {A} s s1 (Q Q' : A -> Stream -> Prop) x : safe s1 Q x ->
  (length (s_in s1) <= length (s_in s))%nat -> (s_stack s = [] -> s_stack s1 = []) ->
  (forall a s', Q a s' -> Q' a s') -> safe s Q' x.
Proof.
  intros H Hl Hst HQ. destruct x as [[a|[]| |] s2]; cbn in *; try done.
  - destruct H. auto.
  - destruct H as (? & ? & ? & ?). split_and!; try done; [lia|auto].
Qed.

(** The same without [EOL]. *)
Definition sound {A} (Q : A -> Stream -> Prop) (x : sres A) : Prop :=
  match x with
  | (Ok a, s') => sinv s' /\ Q a s'
  | (Err e, _) => plain e = true
  | (Panic, _) | (NoFuel, _) => False
  end.

Lemma sound_safe {A} s (Q : A -> Stream -> Prop) x : sound Q x -> safe s Q x.
Proof. by destruct x as [[a|[]| |] s2]. Qed.

Lemma sound_bind {A B} (Q : A -> Stream -> Prop) (Q' : B -> Stream -> Prop) c k :
  sound Q c -> (forall a s1, sinv s1 -> Q a s1 -> sound Q' (k a s1)) ->
  sound Q' (do a, s1 <- c; k a s1).
Proof. intros H Hk. destruct c as [[a|e| |] s1]; cbn in *; try done. destruct H. by apply Hk. Qed.

Lemma sound_weaken {A} (Q Q' : A -> Stream -> Prop) x : sound Q x ->
  (forall a s', Q a s' -> Q' a s') -> sound Q' x.
Proof. intros H HQ. destruct x as [[a|e| |] s2]; cbn in *; try done. destruct H. auto. Qed.

(** Operations that never report [EOL] and leave the lists that are open. *)
Definition sure {A} (s : Stream) (Q : A -> Stream -> Prop) (x : sres A) : Prop :=
  match x with
  | (Ok a, s') => sbase s' /\ s_kind s' = None /\ (s_stack s' = [] <-> s_stack s = []) /\ Q a s'
  | (Err e, _) => plain e = true
  | (Panic, _) | (NoFuel, _) => False
  end.

Lemma willRead_sure n s : sbase s -> 0 <= n ->
  sure s (fun _ s' => s_in s' = s_in s /\ s_byteval s' = s_byteval s) (willRead n s).
Proof.
  intros [Hl Hr Hc Hb Hv He] Hn. unfold willRead. destruct s as [i r l k z bv ke st]. cbn in *. subst l.
  assert (Hm : max_input < 2 ^ 64) by done.
  destruct st as [|[p q] st]; cbn [s_stack set_kind].
  - cbn. destruct (Z.ltb_spec r n); [done|]. cbn. rewrite uN_id by (unfold in_uN; lia).
    split; [|done]. constructor; cbn; try done. lia.
  - cbn in Hc. destruct Hc as (Hp & Hq & Hrest & Hc). cbn [pos lsize].
    rewrite (uN_id 64 (q - p)) by (unfold in_uN; lia). destruct (Z.ltb_spec (q - p) n); [done|].
    rewrite (uN_id 64 (p + n)) by (unfold in_uN; lia). cbn.
    destruct (Z.ltb_spec r n); [done|]. cbn. rewrite uN_id by (unfold in_uN; lia).
    split; [|split_and!; done]. constructor; cbn; try done; [lia|]. split_and!; try done; lia.
Qed.

Lemma readByte_sure s : sbase s ->
  sure s (fun b s' => byte_ok b /\ s_in s = b :: s_in s') (readByte s).
Proof.
  intros Hs. unfold readByte. pose proof (willRead_sure 1 s Hs ltac:(lia)) as W.
  destruct (willRead 1 s) as [[u|err| |] s1]; cbn in W; try done.
  destruct W as ([? ? ? Hb ? ?] & Hk & Hst & Hi & Hv).
  destruct (s_in s1) as [|b rest] eqn:E; [done|]. cbn. apply bytes_ok_cons in Hb as [? ?].
  split; [by constructor|]. by rewrite <- Hi.
Qed.

Lemma readFull_sure n s : sbase s -> 0 <= n ->
  sure s (fun b s' => bytes_ok b /\ zlen b = n /\ s_in s = b ++ s_in s') (readFull n s).
Proof.
  intros Hs Hn. unfold readFull. pose proof (willRead_sure n s Hs Hn) as W.
  destruct (willRead n s) as [[u|err| |] s1]; cbn in W; try done.
  destruct W as ([? ? ? Hb ? ?] & Hk & Hst & Hi & Hv).
  destruct (Z.ltb_spec (zlen (s_in s1)) n); [done|]. cbn.
  split; [constructor; try done; by apply bytes_ok_drop|]. split; [done|]. split; [done|].
  split_and!; [by apply bytes_ok_take| |by rewrite <- Hi, take_drop].
  unfold zlen in *. rewrite length_take. lia.
Qed.

Lemma readUint_sure n s : sbase s -> 0 <= n <= 8 ->
  sure s (fun v s' => 0 <= v < 2 ^ 64 /\ (length (s_in s') <= length (s_in s))%nat) (readUint n s).
Proof.
  intros Hs Hn. unfold readUint. destruct (Z.eqb_spec n 0); [|destruct (Z.eqb_spec n 1)].
  - cbn. destruct Hs. split; [by constructor|]. split; [done|]. split; [done|]. split; [lia|done].
  - pose proof (readByte_sure s Hs) as W. destruct (readByte s) as [[b|err| |] s1]; cbn in *; try done.
    destruct W as (? & ? & ? & Hb & Hi). unfold byte_ok in Hb. rewrite Hi. cbn. split_and!; try done; lia.
  - pose proof (readFull_sure n s Hs ltac:(lia)) as W. destruct (readFull n s) as [[b|err| |] s1]; try done.
    destruct W as (? & ? & ? & Hb & Hl & Hi). rewrite Hi, length_app.
    pose proof (be_val_range b Hb) as R. rewrite Hl in R.
    assert (256 ^ n <= 256 ^ 8) by (apply Z.pow_le_mono_r; lia). change (256 ^ 8) with (2 ^ 64) in *.
    assert (0 <= be_val b < 2 ^ 64) by lia.
    destruct b as [|[] b]; try done; (split; [done|split; [done|split; [done|split; [done|lia]]]]).
Qed.

(** What [readKind] returns: with no error, a size and a byte less to read. *)
Definition kind_base (s : Stream) (x : (Kind * Z * option rlp_err) * Stream) : Prop :=
  match x with
  | (_, n, None, s1) => sbase s1 /\ 0 <= n < 2 ^ 64 /\ (length (s_in s1) < length (s_in s))%nat /\
                        (s_stack s1 = [] <-> s_stack s = [])
  | (_, _, Some e, _) => plain e = true
  end.

Lemma readKind_base s : sbase s -> kind_base s (readKind s).
Proof.
  intros Hs. unfold readKind. pose proof (readByte_sure s Hs) as W.
  destruct (readByte s) as [[b|err| |] s1]; cbn in W; try done.
  2:{ cbn. destruct (s_stack s1); [|done]. by destruct err. }
  destruct W as ([? ? ? ? ? ?] & Hk & Hst & Hb & Hi). unfold byte_ok in Hb.
  assert (Hs1 : sbase (set_byteval 0 s1)) by by constructor.
  assert (Hl : (length (s_in s1) < length (s_in s))%nat) by (rewrite Hi; cbn; lia).
  destruct (Z.ltb_spec b 0x80).
  { split; [|split; [lia|done]]. constructor; try done; unfold byte_ok; cbn; lia. }
  destruct (Z.ltb_spec b 0xB8); [split; [done|split; [lia|done]]|].
  assert (Hu : forall (k : Kind) (n : Z), 1 <= n <= 8 ->
    kind_base s (match readUint n (set_byteval 0 s1) with
          | (Ok size, s2) => ((k, size, if size <? 56 then Some ErrCanonSize else None), s2)
          | (Err e, s2) => ((k, 0, Some e), s2)
          | (_, s2) => ((k, 0, Some io_ErrUnexpectedEOF), s2)
          end)).
  { intros k n Hn. pose proof (readUint_sure n _ Hs1 ltac:(lia)) as W.
    destruct (readUint n _) as [[v|err| |] s2]; try done. destruct W as (? & ? & Hst2 & Hv & Hl2). cbn in Hl2.
    destruct (v <? 56); [done|]. split; [done|]. split; [done|]. split; [lia|]. cbn in Hst2. tauto. }
  destruct (Z.ltb_spec b 0xC0); [apply Hu; lia|].
  destruct (Z.ltb_spec b 0xF8); [split; [done|split; [lia|done]]|apply Hu; lia].
Qed.

(** ** Operations *)

(** The next kind is known and its size fits. *)
Definition kinded (s : Stream) (kn : Kind * Z) (s' : Stream) : Prop :=
  armed s' kn.1 kn.2 /\ 0 <= kn.2 <= avail s' /\ (s_stack s = [] -> s_stack s' = []) /\ used s s'.

Lemma Kind_safe s : sinv s -> safe s (kinded s) (Stream_Kind s).
Proof.
  intros [Hb Ha]. unfold Stream_Kind. destruct (s_kind s) as [k|] eqn:Hk.
  { destruct (s_kinderr s) as [e|] eqn:He; [pose proof (b_kinderr _ Hb) as Hke; rewrite He in Hke; by destruct e|].
    assert (0 <= s_size s <= avail s) by by apply Ha.
    split; [split; [done|auto]|]. split; [done|]. split; [done|]. split; [done|]. split; [done|]. by rewrite Hk. }
  assert (Hb0 : sbase (set_kinderr None s)) by (destruct Hb; by constructor).
  pose proof (readKind_base _ Hb0) as HK. cbv zeta.
  destruct (readKind (set_kinderr None s)) as [[[k n] e] s1] eqn:EK.
  assert (Hfin : forall e', (e' = None -> e = None /\ n <= avail s1) -> match e' with Some er => plain er = true | None => True end ->
    safe s (kinded s)
      (match e' with
       | Some er => (Err er, set_kind (Some k) (set_size n (set_kinderr e' s1)))
       | None => (Ok (k, n), set_kind (Some k) (set_size n (set_kinderr e' s1)))
       end)).
  { intros [er|] He' Hne; [by destruct er|]. destruct (He' eq_refl) as [-> Hn].
    destruct HK as ([? ? ? ? ? ?] & Hn0 & Hl & Hsh). cbn in Hl.
    split; [split; [by constructor|cbn; unfold avail in *; cbn; lia]|].
    split; [done|]. split; [unfold avail in *; cbn; lia|]. split; [apply Hsh|]. split; [cbn; lia|done]. }
  change (s_stack (set_kinderr None s)) with (s_stack s).
  destruct (s_stack s) as [|tos rest] eqn:Hst.
  - apply Hfin; [|destruct e; [done|by casem]]. destruct e; [done|].
    destruct HK as ([Hl ? ? ? ? ?] & _ & _ & Hs1). rewrite Hl. cbn [andb].
    destruct (Z.ltb_spec (s_remaining s1) n); [done|]. intros _. split; [done|].
    unfold avail. apply Hs1 in Hst as ->. done.
  - destruct (pos tos =? lsize tos); [split_and!; try done; try (by split); by rewrite Hst|].
    apply Hfin; [|destruct e; [done|]; destruct (s_stack s1); [done|by casem]].
    destruct e; [done|]. destruct HK as ([? ? Hc ? ? ?] & _ & _ & Hs1). unfold avail.
    destruct (s_stack s1) as [|[p q] st1].
    + assert (s_stack (set_kinderr None s) = []) as E0 by tauto. cbn in E0. congruence.
    + cbn [chain pos lsize] in *. destruct Hc as (Hp & Hq & _).
      assert (max_input < 2 ^ 64) by done. rewrite uN_id by (unfold in_uN; lia).
      destruct (Z.ltb_spec (q - p) n); done.
Qed.

(** The value has been read. *)
Definition finished (s s' : Stream) : Prop := s_kind s' = None /\ used s s'.

Lemma sinv_none s : sbase s -> s_kind s = None -> sinv s.
Proof. intros Hb Hk. split; [done|]. by rewrite Hk. Qed.

Lemma used_trans s s1 s2 : used s s1 -> (length (s_in s2) <= length (s_in s1))%nat -> used s s2.
Proof. intros [H1 H2] H. split; [lia|]. intros Hk. specialize (H2 Hk). lia. Qed.

Lemma avail_max s : sbase s -> avail s < max_input.
Proof.
  intros [? Hr Hc ? ? ?]. unfold avail. destruct (s_stack s) as [|tos st]; [lia|].
  cbn in Hc. lia.
Qed.

Lemma sinv_rearm s : sinv s -> sinv (set_kind None s).
Proof. intros [[? ? ? ? ? ?] _]. apply sinv_none; [by constructor|done]. Qed.

(** Reading [n] bytes after the kind. *)
Lemma sure_safe {A} s s1 (Q Q' : A -> Stream -> Prop) x : sure s1 Q x ->
  (forall a s', s_kind s' = None -> Q a s' -> Q' a s') -> safe s Q' x.
Proof.
  intros W HQ. destruct x as [[a|e| |] s2]; cbn in *; try done.
  - destruct W as (? & ? & ? & ?). split; [by apply sinv_none|auto].
  - by destruct e.
Qed.

Lemma Stream_Bytes_safe s : sinv s ->
  safe s (fun b s' => (bytes_ok b /\ zlen b < max_input) /\ finished s s') (Stream_Bytes s).
Proof.
  intros Hs. unfold Stream_Bytes.
  apply (safe_bind s (kinded s) _ _ _ (Kind_safe s Hs)). intros [k n] s1 Hs1 (Ha & Hn & Hst & Hu). cbn [fst snd] in *.
  destruct k; [| |done].
  - split; [by apply sinv_rearm|]. split; [|done]. split; [|done].
    destruct Hs1 as [[] _]. apply bytes_ok_cons. split; [done|constructor].
  - pose proof (avail_max s1 (proj1 Hs1)) as M. unfold max_input in M.
    destruct (Z.ltb_spec maxAlloc n); [lia|].
    eapply (safe_bind s (fun b s' => (bytes_ok b /\ zlen b < max_input) /\ finished s s')).
    + eapply sure_safe; [apply (readFull_sure n s1 (proj1 Hs1)); lia|].
      intros b s2 Hk (Hb & Hl & Hi). split; [split; [done|unfold max_input; lia]|].
      split; [done|]. eapply used_trans; [exact Hu|]. rewrite Hi, length_app. lia.
    + intros b s2 Hs2 Hq. destruct b as [|x [|y b]]; try done. by destruct (x <? 128).
Qed.

Lemma header_len_le n : 0 <= n < 2 ^ 64 -> 1 <= headsize n <= 9.
Proof.
  intros Hn. unfold headsize. destruct (Z.ltb_spec n 56); [lia|]. rewrite intsize_spec by lia.
  pose proof (nbytes_le n 8). cbn in *. lia.
Qed.

Lemma Raw_safe s : sinv s -> safe s (fun _ s' => finished s s') (Raw s).
Proof.
  intros Hs. unfold Raw.
  apply (safe_bind s (kinded s) _ _ _ (Kind_safe s Hs)). intros [k n] s1 Hs1 (Ha & Hn & Hst & Hu). cbn [fst snd] in *.
  pose proof (avail_max s1 (proj1 Hs1)) as M. unfold max_input, maxAlloc in M.
  pose proof (header_len_le n ltac:(lia)).
  assert (D : forall f : list Z -> list Z, safe s (fun _ s' => finished s s')
    (if (maxAlloc <? u64 (headsize n + n)) || (u64 (headsize n + n) <? headsize n) then (Panic, s1)
     else do content, s2 <- readFull (u64 (headsize n + n) - headsize n) s1; (Ok (f content), s2))).
  { intros f. rewrite uN_id by (unfold in_uN; lia). unfold maxAlloc.
    destruct (Z.ltb_spec (2 ^ 48) (headsize n + n)), (Z.ltb_spec (headsize n + n) (headsize n)); try lia.
    cbn [orb]. eapply (safe_bind s (fun _ s' => finished s s')); [|by intros].
    eapply sure_safe; [apply (readFull_sure _ s1 (proj1 Hs1)); lia|].
    intros b s2 Hk (_ & _ & Hi). split; [done|]. eapply used_trans; [exact Hu|].
    rewrite Hi, length_app. lia. }
  destruct k; [|apply (D (fun c => puthead 128 183 n ++ c))|apply (D (fun c => puthead 192 247 n ++ c))].
  split; [by apply sinv_rearm|done].
Qed.

Lemma uint_safe bits s : sinv s -> width_ok bits ->
  safe s (fun v s' => finished s s') (uint bits s).
Proof.
  intros Hs Hw. unfold uint.
  apply (safe_bind s (kinded s) _ _ _ (Kind_safe s Hs)). intros [k n] s1 Hs1 (Ha & Hn & Hst & Hu). cbn [fst snd] in *.
  destruct k; [| |done].
  - destruct (_ =? 0); [done|]. split; [by apply sinv_rearm|done].
  - destruct (width_bytes bits Hw) as (w & -> & Hk8 & _).
    destruct (Z.ltb_spec (Z.of_nat w) n); [done|]. rewrite uN_id by (unfold in_uN; lia).
    pose proof (readUint_sure n s1 (proj1 Hs1) ltac:(lia)) as W.
    destruct (readUint n s1) as [[v|e| |] s2]; cbn in W; try done.
    + destruct W as (? & ? & ? & ? & ?). destruct (_ && _); [done|]. split; [by apply sinv_none|].
      split; [done|]. by eapply used_trans.
    + by destruct e.
Qed.

Lemma Stream_Bool_safe s : sinv s -> safe s (fun v s' => finished s s') (Stream_Bool s).
Proof.
  intros Hs. unfold Stream_Bool. eapply safe_bind; [apply uint_safe; [done|by left]|].
  intros v s1 Hs1 Hf. cbn in Hf. by repeat casem.
Qed.

(** ** Lists *)

Lemma List_safe s : sinv s -> safe s (fun n s' => finished s s' /\ s_stack s' <> []) (List_ s).
Proof.
  intros Hs. unfold List_.
  apply (safe_bind s (kinded s) _ _ _ (Kind_safe s Hs)). intros [k n] s1 Hs1 (Ha & Hn & Hst & Hu). cbn [fst snd] in *.
  destruct k; [done..|]. split; [|done]. pose proof (avail_max s1 (proj1 Hs1)) as M.
  destruct Hs1 as [[Hl Hr Hc Hb Hv He] _]. apply sinv_none; [|done]. constructor; cbn; try done.
  split_and!; try done; try lia. unfold avail in *. destruct (s_stack s1); [done|lia].
Qed.

Lemma ListEnd_sound s : sinv s ->
  sound (fun _ s' => s_kind s' = None /\ s_in s' = s_in s) (ListEnd s).
Proof.
  intros [[Hl Hr Hc Hb Hv He] _]. unfold ListEnd. destruct (s_stack s) as [|tos rest] eqn:E; [done|].
  destruct (Z.eqb_spec (pos tos) (lsize tos)); [|done]. cbn [negb]. split; [|done].
  apply sinv_none; [|done]. constructor; cbn; try done.
  cbn in Hc. destruct Hc as (? & ? & Hp & Hc). destruct rest as [|p rest]; [done|].
  cbn in Hc |- *. destruct Hc as (? & ? & ? & ?). assert (max_input < 2 ^ 64) by done.
  rewrite uN_id by (unfold in_uN; lia). split_and!; try done; lia.
Qed.
