(* ===== verification/RlpShare.v ===== *)
(** * RLP: memory that the entries of a decoded map share

    [decodeMap] of src/rlp/decode.go decodes every key and every value of a map into the same two variables and copies
    them into the map.  The copy is shallow, so what a variable points to is shared with the entries copied before, and
    the next decoding writes over it.  This file models that memory: [hval] is a value as it lies in a variable, with
    its pointers and slices as references into a heap of arrays, [assign] what a decoder that yields a value does to the
    variable and the heap, and [view] the value seen through the heap.

    A pointer is written in place when it is not nil.  A slice is written in place up to its capacity and then moves to
    an array half as large again, at least of four elements.  A [big.Int] keeps its words in a slice, which package
    [math/big] writes in place when they fit; a new one has room for four more, except that one word gets no more. *)
From S2P Require Import Prelude GoStrings BigNum RlpTypes.

(** Types without references that survive a second decoding: strings, bytes, maps and interfaces are made anew. *)
Fixpoint unshared (t : gotype) : bool :=
  match t with
  | TUint _ | TInt _ | TBool | TString | TMap _ _ | TInterface _ | TRawValue => true
  | TSlice e => isByte e
  | TArray _ e => isByte e || unshared e
  | TStruct _ fs => forallb (fun '(_, ft) => unshared ft) fs
  | TPtr _ | TBigInt | TNumber | TUnsupported _ => false
  end.

(** ** Memory *)

Inductive hval :=
| HV (v : goval)                    (* a value with nothing shared *)
| HList (hs : list hval)            (* an array or a struct *)
| HPtr (o : option nat)             (* a pointer to the one cell of an array of the heap; also a [bn.Number] *)
| HSlice (l : nat) (len : nat)      (* a slice of an array of the heap; the capacity is the length of the array *)
| HBig (l : nat) (len : nat).       (* a [big.Int] and its words *)

Abbreviation heap := (list (list hval)).

Definition cells (H : heap) (l : nat) : list hval := default [] (H !! l).
Definition alloc (cs : list hval) (H : heap) : nat * heap := (length H, H ++ [cs]).
Definition write (l i : nat) (h : hval) (H : heap) : heap := alter (<[i := h]>) l H.

(** The variables inside a struct or array variable. *)
Definition parts (h : hval) : list hval :=
  match h with HList hs => hs | HV (VList vs) => HV <$> vs | _ => [] end.

(** ** Views *)

(** The number whose words, lowest first, are the cells. *)
Fixpoint of_words (cs : list hval) : Z :=
  match cs with
  | HV (VUint w) :: cs' => w + 2 ^ 64 * of_words cs'
  | _ => 0
  end.

Definition big_view (H : heap) (h : hval) : Z :=
  match h with
  | HV (VBig z) => z
  | HBig l len => of_words (take len (cells H l))
  | _ => 0
  end.

(** The value of a variable of type [t]; with [all] its slices are extended to their capacity, which is what a decoder
    finds in them. *)
Fixpoint view (all : bool) (H : heap) (t : gotype) (h : hval) {struct t} : goval :=
  match h with
  | HV v => v
  | _ =>
      match t with
      | TPtr e =>
          match h with
          | HPtr (Some l) => match cells H l with c :: _ => VPtr (Some (view all H e c)) | [] => VPtr None end
          | _ => VPtr None
          end
      | TNumber =>
          match h with
          | HPtr (Some l) => match cells H l with c :: _ => VNum (mkNumber (Some (big_view H c))) | [] => VNum (mkNumber None) end
          | _ => VNum (mkNumber None)
          end
      | TBigInt => VBig (big_view H h)
      | TSlice e =>
          match h with
          | HSlice l len => VList (view all H e <$> (if all then cells H l else take len (cells H l)))
          | _ => VList []
          end
      | TArray _ e => VList (view all H e <$> parts h)
      | TStruct _ fs =>
          VList ((fix go (fs : list (field * gotype)) (hs : list hval) : list goval :=
                    match fs, hs with
                    | (_, ft) :: fs', x :: hs' => view all H ft x :: go fs' hs'
                    | _, _ => []
                    end) fs (parts h))
      | _ => zero t
      end
  end.

(** ** Writing *)

(** [nat.setBytes] of [math/big]. *)
Fixpoint words (n : nat) (z : Z) : list hval :=
  match n with O => [] | S k => HV (VUint (z mod 2 ^ 64)) :: words k (z / 2 ^ 64) end.

Definition assign_big (z : Z) (h : hval) (H : heap) : hval * heap :=
  let n := Nat.div (nbytes z + 7) 8 in
  match h with
  | HBig l _ =>
      if (n <=? length (cells H l))%nat then (HBig l n, alter (fun cs => words n z ++ drop n cs) l H)
      else let (l', H') := alloc (words n z ++ replicate (if Nat.eqb n 1 then 0 else 4) (HV (VUint 0))) H in (HBig l' n, H')
  | _ =>
      if Nat.eqb n 0 then (HV (VBig 0), H)
      else let (l', H') := alloc (words n z ++ replicate (if Nat.eqb n 1 then 0 else 4) (HV (VUint 0))) H in (HBig l' n, H')
  end.

(** [decodeNumber]: the [big.Int] the number points to, or a new one. *)
Definition assign_number (v : goval) (h : hval) (H : heap) : hval * heap :=
  match v, h with
  | VNum (mkNumber (Some z)), HPtr (Some l) => (h, write l 0 (HV (VBig z)) H)
  | VNum (mkNumber (Some z)), _ => let (l, H') := alloc [HV (VBig z)] H in (HPtr (Some l), H')
  | _, _ => (h, H)
  end.

(** Before the element [i]: a slice that is full moves to a larger array. *)
Definition grow (z : goval) (i l : nat) (H : heap) : nat * heap :=
  let cap := length (cells H l) in
  if (cap <=? i)%nat then
    let newcap := Nat.max 4 (cap + Nat.div cap 2) in alloc (cells H l ++ replicate (newcap - cap) (HV z)) H
  else (l, H).

(** The loop of [decodeSliceElems]: it grows the slice before each element, and before it finds the end of the list. *)
Fixpoint assign_elems (asg : goval -> hval -> heap -> hval * heap) (z : goval) (vs : list goval) (i : nat) (l : nat) (H : heap) : nat * heap :=
  let (l, H) := grow z i l H in
  match vs with
  | [] => (l, H)
  | v :: vs' =>
      let (h', H') := asg v (default (HV z) (cells H l !! i)) H in
      assign_elems asg z vs' (S i) l (write l i h' H')
  end.

(** The elements of an array, in place. *)
Fixpoint assign_array (asg : goval -> hval -> heap -> hval * heap) (vs : list goval) (hs : list hval) (H : heap) : list hval * heap :=
  match vs, hs with
  | v :: vs', h :: hs' =>
      let (h', H1) := asg v h H in
      let (hs'', H2) := assign_array asg vs' hs' H1 in (h' :: hs'', H2)
  | _, _ => ([], H)
  end.

(** The coded fields of a struct, in place. *)
Definition assign_fields (asg : gotype -> tags -> goval -> hval -> heap -> hval * heap) (tname : list Z) (nf : nat) :=
  fix go (fi : nat) (fs : list (field * gotype)) (vs : list goval) (hs : list hval) (H : heap) {struct fs} : list hval * heap :=
    match fs, vs, hs with
    | (f, ft) :: fs', v :: vs', h :: hs' =>
        let (h', H1) := match fieldTags tname nf fi f ft with Some ts => asg ft ts v h H | None => (h, H) end in
        let (hs'', H2) := go (S fi) fs' vs' hs' H1 in (h' :: hs'', H2)
    | _, _, _ => ([], H)
    end.

(** The variable [h] of type [t] after a decoder has yielded [v] in it. *)
Fixpoint assign (t : gotype) (ts : tags) (v : goval) (h : hval) (H : heap) {struct t} : hval * heap :=
  if unshared t then (HV v, H) else
  match t, v with
  | TPtr e, VPtr (Some x) =>
      match h with
      | HPtr (Some l) =>
          match cells H l with
          | c :: _ => let (c', H') := assign e no_tags x c H in (h, write l 0 c' H')
          | [] => (h, H)
          end
      | _ => let (c', H') := assign e no_tags x (HV (zero e)) H in let (l, H'') := alloc [c'] H' in (HPtr (Some l), H'')
      end
  | TPtr _, _ => (HPtr None, H)
  | TNumber, _ => assign_number v h H
  | TBigInt, VBig z => assign_big z h H
  | TSlice e, VList vs =>
      if negb (tail ts) && Nat.eqb (length vs) 0 then (HV (VList []), H)
      else
        let '(l, H1) := match h with HSlice l _ => (l, H) | _ => alloc [] H end in
        let (l', H2) := assign_elems (assign e no_tags) (zero e) vs 0 l H1 in (HSlice l' (length vs), H2)
  | TArray _ e, VList vs => let (hs, H') := assign_array (assign e no_tags) vs (parts h) H in (HList hs, H')
  | TStruct name fs, VList vs =>
      let (hs, H') := assign_fields assign name (length fs) O fs vs (parts h) H in (HList hs, H')
  | _, _ => (h, H)
  end.

(** ** Maps of variables *)

(** Key equality, on the kinds of values a decoded key can be made of; pointers are equal when they are the same. *)
Fixpoint key_eqb (a b : goval) {struct a} : bool :=
  match a, b with
  | VUint x, VUint y => x =? y
  | VInt x, VInt y => x =? y
  | VBool x, VBool y => Bool.eqb x y
  | VStr x, VStr y => str_eqb x y
  | VBytes x, VBytes y => str_eqb x y
  | VPtr None, VPtr None | VIface None, VIface None | VNum (mkNumber None), VNum (mkNumber None) => true
  | VList xs, VList ys =>
      (fix go (xs ys : list goval) {struct xs} : bool :=
         match xs, ys with
         | [], [] => true
         | x :: xs', y :: ys' => key_eqb x y && go xs' ys'
         | _, _ => false
         end) xs ys
  | _, _ => false
  end.

Fixpoint hkey_eqb (a b : hval) {struct a} : bool :=
  match a, b with
  | HV x, HV y => key_eqb x y
  | HPtr x, HPtr y => bool_decide (x = y)
  | HList xs, HList ys =>
      (fix go (xs ys : list hval) {struct xs} : bool :=
         match xs, ys with
         | [], [] => true
         | x :: xs', y :: ys' => hkey_eqb x y && go xs' ys'
         | _, _ => false
         end) xs ys
  | _, _ => false
  end.

(** [SetMapIndex]. *)
Fixpoint SetMapIndex (m : list (hval * hval)) (k v : hval) : list (hval * hval) :=
  match m with
  | [] => [(k, v)]
  | (k', v') :: m' => if hkey_eqb k' k then (k', v) :: m' else (k', v') :: SetMapIndex m' k v
  end.

Definition map_view (H : heap) (kt et : gotype) (m : list (hval * hval)) : goval :=
  VMap ((fun kv => (view false H kt kv.1, view false H et kv.2)) <$> m).
