(* ===== verification/RlpDecode.v ===== *)
(** * RLP decoder

    Model of the decoders of src/rlp/decode.go.  A decoder takes the stream and
    the value its target holds (which matters for pointers, numbers, slices and
    the uncoded fields of structs) and returns the new value with the stream;
    after an error the target is not looked at again.  A target slice is given
    with all the elements up to its capacity.

    Loops that the input drives run on fuel taken from the input length: each
    element of a list, and each nesting level, takes at least one byte.  The one
    decoder that can succeed without taking a byte is [decodeByteArray] on an
    array of length one; [NoFuel] then stands for the code's endless loop. *)

From S2P Require Import Prelude GoStrings BigNum RlpTypes RlpEncode RlpStream RlpShare.

Definition decoder := Stream -> goval -> sres goval.

(** ** Errors *)

Definition wrapStreamError (e : rlp_err) (typ : gotype) : rlp_err :=
  match e with
  | ErrCanonInt => decodeError (bs "non-canonical integer (leading zero bytes)") typ []
  | ErrCanonSize => decodeError (bs "non-canonical size information") typ []
  | ErrExpectedList => decodeError (bs "expected input list") typ []
  | ErrExpectedString => decodeError (bs "expected input string or byte") typ []
  | errUintOverflow => decodeError (bs "input string too long") typ []
  | errNotAtEOL => decodeError (bs "input list has too many elements") typ []
  | _ => e
  end.

Definition addErrorContext (e : rlp_err) (c : ctx_item) : rlp_err :=
  match e with
  | decodeError msg typ ctx => decodeError msg typ (ctx ++ [c])
  | _ => e
  end.

Definition res_map_err {A} (f : rlp_err -> rlp_err) (r : result A) : result A :=
  match r with Err e => Err (f e) | _ => r end.

(** [if err != nil { return wrapStreamError(err, typ) }]. *)
Definition wrapped {A} (typ : gotype) (r : sres A) : sres A :=
  let '(x, s) := r in (res_map_err (fun e => wrapStreamError e typ) x, s).

(** ** Basic kinds *)

Definition decodeRawValue : decoder := fun s _ =>
  do b, s1 <- Raw s; (Ok (VBytes b), s1).

Definition decodeUint (bits : Z) : decoder := fun s _ =>
  do num, s1 <- wrapped (TUint bits) (uint bits s); (Ok (VUint (uN bits num)), s1).

(** [SetInt(int64(num))] cuts the number to the type's width. *)
Definition decodeInt (bits : Z) : decoder := fun s _ =>
  do num, s1 <- wrapped (TInt bits) (uint bits s); (Ok (VInt (sN bits num)), s1).

Definition decodeBool : decoder := fun s _ =>
  do b, s1 <- wrapped TBool (Stream_Bool s); (Ok (VBool b), s1).

Definition decodeString : decoder := fun s _ =>
  do b, s1 <- wrapped TString (Stream_Bytes s); (Ok (VStr b), s1).

Definition decodeNumberPtr : decoder := fun s old =>
  do b, s1 <- wrapped (TPtr TNumber) (Stream_Bytes s);
  match old with
  | VPtr None => (Ok (VPtr (Some (VNum (SetBytes (mkNumber None) b)))), s1)
  | VPtr (Some (VNum n)) => (Ok (VPtr (Some (VNum (SetBytes n b)))), s1)
  | _ => (Panic, s1)
  end.

(** [decodeNumber] decodes through the address of its target. *)
Definition decodeNumber : decoder := fun s old =>
  do v, s1 <- decodeNumberPtr s (VPtr (Some old));
  match v with VPtr (Some x) => (Ok x, s1) | _ => (Panic, s1) end.

Definition decodeBigInt : decoder := fun s old =>
  do b, s1 <- wrapped (TPtr TBigInt) (Stream_Bytes s);
  match old with
  | VPtr None | VPtr (Some (VBig _)) =>
      match b with
      | 0 :: _ => (Err (wrapStreamError ErrCanonInt (TPtr TBigInt)), s1)
      | _ => (Ok (VPtr (Some (VBig (be_val b)))), s1)
      end
  | _ => (Panic, s1)
  end.

Definition decodeBigIntNoPtr : decoder := fun s old =>
  do v, s1 <- decodeBigInt s (VPtr (Some old));
  match v with VPtr (Some x) => (Ok x, s1) | _ => (Panic, s1) end.

Definition decodeByteSlice (typ : gotype) : decoder := fun s _ =>
  do b, s1 <- wrapped typ (Stream_Bytes s); (Ok (VBytes b), s1).

Definition decodeByteArray (typ : gotype) : decoder := fun s old =>
  match old with
  | VBytes b0 =>
      let vlen := zlen b0 in
      do (kind, size), s1 <- Stream_Kind s;
      match kind with
      | KByte =>
          if vlen =? 0 then (Err (decodeError (bs "input string too long") typ []), s1)
          else if 1 <? vlen then (Err (decodeError (bs "input string too short") typ []), s1)
          else
            (* bv, _ := s.Uint() *)
            match Uint s1 with
            | (Ok bv, s2) => (Ok (VBytes [u8 bv]), s2)
            | (Err _, s2) => (Ok (VBytes [0]), s2)
            | (Panic, s2) => (Panic, s2)
            | (NoFuel, s2) => (NoFuel, s2)
            end
      | KString =>
          if vlen <? size then (Err (decodeError (bs "input string too long") typ []), s1)
          else if size <? vlen then (Err (decodeError (bs "input string too short") typ []), s1)
          else
            do b, s2 <- readFull vlen s1;
            match b with
            | [x] => if x <? 128 then (Err (wrapStreamError ErrCanonSize typ), s2) else (Ok (VBytes b), s2)
            | _ => (Ok (VBytes b), s2)
            end
      | KList => (Err (wrapStreamError ErrExpectedString typ), s1)
      end
  | _ => (Panic, s)
  end.

(** ** Lists *)

(** The loop of [decodeSliceElems] from index [i]; [olds] are the elements the
    slice still has, [z] the zero element it is grown with. *)
Fixpoint slice_elems (elemdec : decoder) (z : goval) (fuel : nat) (i : Z) (olds : list goval)
    (s : Stream) : sres (list goval) :=
  match fuel with
  | O => (NoFuel, s)
  | S f =>
      match elemdec s (match olds with o :: _ => o | [] => z end) with
      | (Ok v, s1) =>
          do vs, s2 <- slice_elems elemdec z f (i + 1) (match olds with _ :: l => l | [] => [] end) s1;
          (Ok (v :: vs), s2)
      | (Err EOL, s1) => (Ok [], s1)
      | (Err e, s1) => (Err (addErrorContext e (CtxIndex i)), s1)
      | (Panic, s1) => (Panic, s1)
      | (NoFuel, s1) => (NoFuel, s1)
      end
  end.

Definition loop_fuel (s : Stream) : nat := S (S (length (s_in s))).

Definition decodeSliceElems (elemdec : decoder) (z : goval) : decoder := fun s old =>
  match old with
  | VList olds => do vs, s1 <- slice_elems elemdec z (loop_fuel s) 0 olds s; (Ok (VList vs), s1)
  | _ => (Panic, s)
  end.

Definition decodeListSlice (typ : gotype) (elemdec : decoder) (z : goval) : decoder := fun s old =>
  do size, s1 <- wrapped typ (List_ s);
  if size =? 0 then do _, s2 <- ListEnd s1; (Ok (VList []), s2)
  else
    do v, s2 <- decodeSliceElems elemdec z s1 old;
    do _, s3 <- ListEnd s2;
    (Ok v, s3).

(** The loop of [decodeListArray] over the elements of the array. *)
Fixpoint array_elems (typ : gotype) (elemdec : decoder) (i : Z) (olds : list goval) (s : Stream)
  : sres (list goval) :=
  match olds with
  | [] => (Ok [], s)
  | o :: olds' =>
      match elemdec s o with
      | (Ok v, s1) => do vs, s2 <- array_elems typ elemdec (i + 1) olds' s1; (Ok (v :: vs), s2)
      | (Err EOL, s1) => (Err (decodeError (bs "input list has too few elements") typ []), s1)
      | (Err e, s1) => (Err (addErrorContext e (CtxIndex i)), s1)
      | (Panic, s1) => (Panic, s1)
      | (NoFuel, s1) => (NoFuel, s1)
      end
  end.

Definition decodeListArray (typ : gotype) (elemdec : decoder) : decoder := fun s old =>
  match old with
  | VList olds =>
      do _, s1 <- wrapped typ (List_ s);
      do vs, s2 <- array_elems typ elemdec 0 olds s1;
      do _, s3 <- wrapped typ (ListEnd s2);
      (Ok (VList vs), s3)
  | _ => (Panic, s)
  end.

(** [makeListDecoder] for a slice or an array type that is not made of bytes. *)
Definition makeListDecoder (typ : gotype) (elemdec : decoder) (z : goval) (ts : tags) : decoder :=
  match typ with
  | TArray _ _ => decodeListArray typ elemdec
  | _ => if tail ts then decodeSliceElems elemdec z else decodeListSlice typ elemdec z
  end.

(** ** Interfaces *)

(** [decodeInterface] on an [interface{}]: nested lists become [[]interface{}],
    strings become [[]byte]. *)
Fixpoint decodeInterface0 (fuel : nat) (s : Stream) : sres goval :=
  match fuel with
  | O => (NoFuel, s)
  | S f =>
      do (kind, _), s1 <- Stream_Kind s;
      match kind with
      | KList =>
          let slice_t := TSlice (TInterface 0) in
          do v, s2 <- decodeListSlice slice_t (fun s _ => decodeInterface0 f s) (VIface None) s1 (VList []);
          (Ok (VIface (Some (slice_t, v))), s2)
      | _ =>
          do b, s2 <- Stream_Bytes s1;
          (Ok (VIface (Some (TSlice (TUint 8), VBytes b))), s2)
      end
  end.

Definition decodeInterface (methods : nat) : decoder := fun s _ =>
  if Nat.eqb methods 0 then decodeInterface0 (loop_fuel s) s
  else (Err (errNotSerializable (TInterface methods)), s).

(** ** Structs and pointers *)

Definition is_map (t : gotype) : bool := match t with TMap _ _ => true | _ => false end.

(** One field: a map field is decoded into a fresh map. *)
Definition decode_field (typ : gotype) (fname : list Z) (fdec : decoder) (ft : gotype) : decoder :=
  fun s old =>
    match fdec s (if is_map ft then VMap [] else old) with
    | (Ok v, s1) => (Ok v, s1)
    | (Err EOL, s1) => (Err (decodeError (bs "too few elements") typ []), s1)
    | (Err e, s1) => (Err (addErrorContext e (CtxField fname)), s1)
    | (Panic, s1) => (Panic, s1)
    | (NoFuel, s1) => (NoFuel, s1)
    end.

(** The field loop of [makeStructDecoder]. *)
Definition decode_fields (fdec : gotype -> tags -> decoder) (typ : gotype) (tname : list Z) (nf : nat) :=
  fix go (fi : nat) (fs : list (field * gotype)) (olds : list goval) (s : Stream) {struct fs}
    : sres (list goval) :=
    match fs, olds with
    | [], [] => (Ok [], s)
    | (f, ft) :: fs', o :: olds' =>
        match fieldTags tname nf fi f ft with
        | None => do vs, s1 <- go (S fi) fs' olds' s; (Ok (o :: vs), s1)
        | Some ts =>
            do v, s1 <- decode_field typ (f_name f) (fdec ft ts) ft s o;
            do vs, s2 <- go (S fi) fs' olds' s1;
            (Ok (v :: vs), s2)
        end
    | _, _ => (Panic, s)
    end.

Definition makeStructDecoder (fdec : gotype -> tags -> decoder) (tname : list Z)
    (fs : list (field * gotype)) : decoder := fun s old =>
  let typ := TStruct tname fs in
  match old with
  | VList olds =>
      do _, s1 <- wrapped typ (List_ s);
      do vs, s2 <- decode_fields fdec typ tname (length fs) O fs olds s1;
      do _, s3 <- wrapped typ (ListEnd s2);
      (Ok (VList vs), s3)
  | _ => (Panic, s)
  end.

(** The element a pointer is decoded into: the one it has, or a new one. *)
Definition ptr_target (z old : goval) : option goval :=
  match old with
  | VPtr None => Some z
  | VPtr (Some x) => Some x
  | _ => None
  end.

Definition makePtrDecoder (edec : decoder) (z : goval) : decoder := fun s old =>
  match ptr_target z old with
  | Some x => do v, s1 <- edec s x; (Ok (VPtr (Some v)), s1)
  | None => (Panic, s)
  end.

Definition makeOptionalPtrDecoder (edec : decoder) (z : goval) : decoder := fun s old =>
  match Stream_Kind s with
  | (Ok (kind, size), s1) =>
      if (size =? 0) && negb (bool_decide (kind = KByte)) then (Ok (VPtr None), set_kind None s1)
      else makePtrDecoder edec z s1 old
  | (Err e, s1) => (Err e, set_kind None s1)
  | (Panic, s1) => (Panic, s1)
  | (NoFuel, s1) => (NoFuel, s1)
  end.

(** ** Whole inputs *)

(** [Stream.Decode] into a non-nil pointer to a value of type [t]. *)
Definition stream_decode (t : gotype) (dec : decoder) (s : Stream) (old : goval) : sres goval :=
  match genTypeInfo_err t with
  | Some e => (Err e, s)
  | None =>
      let '(r, s1) := dec s old in
      (res_map_err (fun e => match e with
                             | decodeError _ _ (_ :: _) => addErrorContext e (CtxType t)
                             | _ => e
                             end) r, s1)
  end.

(** [DecodeBytes] with the decoder of type [t]. *)
Definition decode_bytes (t : gotype) (dec : decoder) (b : list Z) (old : goval) : result goval :=
  match stream_decode t dec (NewStream b true (zlen b)) old with
  | (Ok v, s) => if 0 <? zlen (s_in s) then Err ErrMoreThanOneValue else Ok v
  | (r, _) => r
  end.

(** ** Maps *)

Definition bytes_list_t : gotype := TSlice (TSlice (TUint 8)).

(** [var bb [][]byte; DecodeBytes(b, &bb)]. *)
Definition decode_bytes_list (b : list Z) : result (list goval) :=
  let dec := makeListDecoder bytes_list_t (decodeByteSlice (TSlice (TUint 8))) (VBytes []) no_tags in
  let* v := decode_bytes bytes_list_t dec b (VList []) in
  match v with VList vs => Ok vs | _ => Panic end.

Definition as_bytes (v : goval) : list Z := match v with VBytes b => b | _ => [] end.

(** A key holding an interface holds a slice, which cannot be hashed. *)
Fixpoint hashable (v : goval) : bool :=
  match v with
  | VIface (Some _) => false
  | VList vs => forallb hashable vs
  | _ => true
  end.

(** The loop of [decodeMap] over the encoded pairs, with its two variables and the memory they share with the entries
    (RlpShare); a pair of the wrong length ends it without an error. *)
Fixpoint map_loop (deck dece : list Z -> goval -> result goval) (kt et : gotype) (bbt : list goval)
    (key value : hval) (m : list (hval * hval)) (H : heap) : result (list (hval * hval) * heap) :=
  match bbt with
  | [] => Ok (m, H)
  | v :: bbt' =>
      let* bbv := decode_bytes_list (as_bytes v) in
      match bbv with
      | [kb; vb] =>
          let* k := deck (as_bytes kb) (view true H kt key) in
          let (key', H1) := assign kt no_tags k key H in
          let* x := dece (as_bytes vb) (if is_map et then VMap [] else view true H1 et value) in
          let (value', H2) := assign et no_tags x value H1 in
          if hashable k then map_loop deck dece kt et bbt' key' value' (SetMapIndex m key' value') H2
          else Panic
      | _ => Ok (m, H)
      end
  end.

Definition decodeMap (kt et : gotype) (deck dece : decoder) : decoder := fun s _ =>
  let typ := TMap kt et in
  do b, s1 <- wrapped typ (Stream_Bytes s);
  (res_map_err (fun e => wrapStreamError e typ)
     (let* bbt := decode_bytes_list b in
      let* (m, H) := map_loop (decode_bytes kt deck) (decode_bytes et dece) kt et bbt
                       (HV (zero kt)) (HV (zero et)) [] [] in
      Ok (map_view H kt et m)), s1).

(** ** [makeDecoder] *)

Fixpoint makeDecoder (t : gotype) (ts : tags) {struct t} : decoder :=
  match t with
  | TRawValue => decodeRawValue
  | TBigInt => decodeBigIntNoPtr
  | TNumber => decodeNumber
  | TUint bits => decodeUint bits
  | TInt bits => decodeInt bits
  | TMap kt et => decodeMap kt et (makeDecoder kt no_tags) (makeDecoder et no_tags)
  | TBool => decodeBool
  | TString => decodeString
  | TSlice e =>
      if isByte e then decodeByteSlice t
      else makeListDecoder t (makeDecoder e no_tags) (zero e) ts
  | TArray _ e =>
      if isByte e then decodeByteArray t
      else makeListDecoder t (makeDecoder e no_tags) (zero e) ts
  | TStruct name fs => makeStructDecoder makeDecoder name fs
  | TPtr e =>
      match e with
      | TBigInt => decodeBigInt
      | TNumber => decodeNumberPtr
      | _ => if nilOK ts then makeOptionalPtrDecoder (makeDecoder e no_tags) (zero e)
             else makePtrDecoder (makeDecoder e no_tags) (zero e)
      end
  | TInterface methods => decodeInterface methods
  | TUnsupported _ => fun s _ => (Err (errNotSerializable t), s)
  end.

(** The argument of [Stream.Decode]. *)
Inductive target :=
| TargetNil                          (* a nil interface *)
| TargetValue                        (* not a pointer *)
| TargetNilPtr
| TargetPtr (t : gotype) (old : goval).

(** The method [Stream.Decode]. *)
Definition Stream_Decode (s : Stream) (val : target) : sres goval :=
  match val with
  | TargetNil | TargetNilPtr => (Err errDecodeIntoNil, s)
  | TargetValue => (Err errNoPointer, s)
  | TargetPtr t old => stream_decode t (makeDecoder t no_tags) s old
  end.

(** [Decode] from an in-memory reader, which is left after the value. *)
Definition Decode (r : list Z) (val : target) : result goval * list Z :=
  let '(x, s) := Stream_Decode (NewStream r true 0) val in (x, s_in s).

Definition DecodeBytes (b : list Z) (t : gotype) (old : goval) : result goval :=
  decode_bytes t (makeDecoder t no_tags) b old.
