(* ===== verification/RlpRoundTrip.v ===== *)
(** * RLP: decoding an encoding gives the value back

    [canon] describes the values the format can carry without loss, [okold] the
    targets a value may be decoded into.  The round trip is proved for the stream
    decoders at any position of a stream, by induction on the value. *)

From stdpp Require Import sorting.
From S2P Require Import Prelude GoStrings BigNum RlpTypes RlpEncode RlpEncodeSpec RlpReader RlpStream RlpStreamSpec RlpShare RlpDecode.

(** ** Canonical values *)

(** Types whose decoder reports the end of a list as [EOL]. *)
Fixpoint eol_type (t : gotype) : bool :=
  match t with
  | TInterface m => Nat.eqb m 0
  | TPtr TBigInt | TPtr TNumber => true
  | TPtr e => eol_type e
  | TUnsupported _ => false
  | _ => true
  end.

(** One encoded item. *)
Definition item (b : list Z) : Prop :=
  (exists c, bytes_ok c /\ b = enc_string c) \/ (exists p, b = enc_list p).

(** The fields of a struct: coded ones canonical, the others at their zero value. *)
Definition canon_fields (f : goval -> gotype -> tags -> Prop) (tname : list Z) (nf : nat) :=
  fix go (fi : nat) (fs : list (field * gotype)) (vs : list goval) {struct vs} : Prop :=
    match fs, vs with
    | [], [] => True
    | (fd, ft) :: fs', v :: vs' =>
        match fieldTags tname nf fi fd ft with
        | None => v = zero ft
        | Some ts => f v ft ts
        end /\ go (S fi) fs' vs'
    | _, _ => False
    end.

(** What the format carries without loss: no nil pointer except under the [nil]
    tag, where a value must not look like nil; numbers with a value; maps in the
    order of their keys; interfaces as the decoder builds them; and no array of
    length one holding a zero byte. *)
Fixpoint canon (v : goval) (t : gotype) (ts : tags) {struct v} : Prop :=
  match t, v with
  | TUint b, VUint z => width_ok b /\ in_uN b z
  | TInt b, VInt z => width_ok b /\ in_sN b z
  | TBool, VBool _ => True
  | TString, VStr s => bytes_ok s
  | TSlice e, VBytes b => isByte e = true /\ bytes_ok b
  | TSlice e, VList vs => isByte e = false /\ eol_type e = true /\ allP (fun x => canon x e no_tags) vs
  | TArray n e, VBytes b => isByte e = true /\ length b = n /\ bytes_ok b /\ b <> [0]
  | TArray n e, VList vs =>
      isByte e = false /\ length vs = n /\ tail ts = false /\ allP (fun x => canon x e no_tags) vs
  | TStruct name fs, VList vs => canon_fields canon name (length fs) O fs vs
  | TPtr TBigInt, VPtr (Some (VBig z)) => 0 <= z
  | TPtr TNumber, VPtr (Some (VNum n)) => V n <> None
  | TPtr TBigInt, _ | TPtr TNumber, _ => False
  | TPtr e, VPtr None => nilOK ts = true /\ (enc_nilptr e = [0x80] \/ enc_nilptr e = [0xC0])
  | TPtr e, VPtr (Some x) =>
      canon x e no_tags /\
      (nilOK ts = true -> enc_val x e no_tags <> Ok [0x80] /\ enc_val x e no_tags <> Ok [0xC0])
  | TMap kt et, VMap kvs =>
      ordered_key kt = true /\ unshared et = true /\ StronglySorted before kvs /\
      allP (fun kv => canon kv.1 kt no_tags /\ canon kv.2 et no_tags) kvs
  | TInterface m, VIface (Some (t', x)) =>
      m = O /\ (t' = TSlice (TUint 8) \/ t' = TSlice (TInterface 0)) /\ canon x t' no_tags
  | TRawValue, VBytes b => item b /\ bytes_ok b
  | TBigInt, VBig z => 0 <= z
  | TNumber, VNum n => V n <> None
  | _, _ => False
  end.

(** Targets: of the shape of their type, uncoded struct fields at zero. *)
Definition okold_fields (f : gotype -> goval -> Prop) (tname : list Z) (nf : nat) :=
  fix go (fi : nat) (fs : list (field * gotype)) (vs : list goval) {struct fs} : Prop :=
    match fs, vs with
    | [], [] => True
    | (fd, ft) :: fs', v :: vs' =>
        match fieldTags tname nf fi fd ft with
        | None => v = zero ft
        | Some ts => f ft v
        end /\ go (S fi) fs' vs'
    | _, _ => False
    end.

Fixpoint okold (t : gotype) (old : goval) {struct t} : Prop :=
  match t with
  | TNumber => exists n, old = VNum n
  | TBigInt => exists z, old = VBig z
  | TPtr e => old = VPtr None \/ exists x, old = VPtr (Some x) /\ okold e x
  | TSlice e => if isByte e then True else exists vs, old = VList vs /\ Forall (okold e) vs
  | TArray n e =>
      if isByte e then exists b, old = VBytes b /\ length b = n
      else exists vs, old = VList vs /\ length vs = n /\ Forall (okold e) vs
  | TStruct name fs => exists vs, old = VList vs /\ okold_fields okold name (length fs) O fs vs
  | _ => True
  end.

Lemma zero_fields_okold name nf fs fi : Forall (fun x => okold x.2 (zero x.2)) fs ->
  okold_fields okold name nf fi fs (zero ∘ snd <$> fs).
Proof.
  intros H. revert fi. induction H as [|[f t] fs Ht H IH]; intros fi; cbn; [done|].
  split; [by destruct (fieldTags _ _ _ _ _)|apply IH].
Qed.

Lemma zero_okold t : okold t (zero t).
Proof.
  induction t as [b|b| | |e IHe|m e IHe|nm fs IHfs|e IHe|k e IHk IHe|m| | | |nm] using gotype_ind';
    try done; try (rewrite zero_struct); cbn [okold zero].
  - destruct (isByte e); [done|]. by exists [].
  - destruct (isByte e).
    + eexists. split; [done|]. apply length_replicate.
    + eexists. split; [done|]. split; [apply length_replicate|]. by apply Forall_replicate.
  - eexists. split; [done|]. by apply zero_fields_okold.
  - by left.
  - by exists 0.
  - by eexists.
Qed.

Lemma canon_fields_okold name nf vs :
  Forall (fun v => forall t ts, canon v t ts -> okold t v) vs ->
  forall fs fi, canon_fields canon name nf fi fs vs -> okold_fields okold name nf fi fs vs.
Proof.
  induction 1 as [|v vs Hv H IH]; intros [|[f t] fs] fi; cbn; try done.
  intros [H1 H2]. split; [|by apply IH]. destruct (fieldTags _ _ _ _ _); [by eapply Hv|done].
Qed.

(** A decoded value is a target again. *)
Lemma canon_okold v : forall t ts, canon v t ts -> okold t v.
Proof.
  induction v as [z|z|z|s|b0|vs IH| |v IH|kvs IH| |t' v IH|z|n] using goval_ind';
    intros t ts Hc; destruct t; try done; cbn [canon okold] in *; try exact I;
    try (exfalso; by destruct t).
  - destruct Hc as [-> _]. done.
  - destruct Hc as (-> & Hl & _). by exists b0.
  - destruct Hc as (-> & _ & Hc). apply allP_Forall in Hc. exists vs. split; [done|].
    eapply Forall_impl; [apply Forall_and; split; [exact IH|exact Hc]|]. intros x [H1 H2]. by eapply H1.
  - destruct Hc as (-> & Hl & _ & Hc). apply allP_Forall in Hc. exists vs. split; [done|]. split; [done|].
    eapply Forall_impl; [apply Forall_and; split; [exact IH|exact Hc]|]. intros x [H1 H2]. by eapply H1.
  - exists vs. split; [done|]. by apply canon_fields_okold.
  - by left.
  - right. exists v. split; [done|].
    destruct t; try (destruct Hc as [Hc _]; by eapply IH); destruct v; try done; by eexists.
  - by exists z.
  - by exists n.
Qed.

(** ** Building blocks *)

Lemma item_pos b : item b -> 0 < zlen b.
Proof.
  intros [(c & _ & ->)|(p & ->)].
  - destruct c as [|x [|y c]]; cbn [enc_string]; [done| |].
    + casem; [done|]. rewrite zlen_app. zl.
    + rewrite zlen_app. pose proof (header_pos 0x80 0xB7 (zlen (x :: y :: c))). zl.
  - pose proof (enc_list_len p). pose proof (zlen_nonneg p). lia.
Qed.

Lemma item_string c : bytes_ok c -> item (enc_string c).
Proof. intros H. left. by exists c. Qed.

Lemma item_list p : item (enc_list p).
Proof. right. by exists p. Qed.
#[local] Hint Resolve item_string item_list be_min_ok : core.

Lemma sreads_then {A B} (f : Stream -> sres A) (g : A -> result B) b x v :
  g x = Ok v -> sreads f b x -> sreads (fun s => do x, s1 <- f s; (g x, s1)) b v.
Proof.
  intros Hg H s inp rem stk Hp Hf Hr. destruct (H s inp rem stk Hp Hf Hr) as (s' & E & R).
  exists s'. by rewrite E, Hg.
Qed.

Lemma sreads_wrapped {A} (f : Stream -> sres A) typ b v :
  sreads f b v -> sreads (fun s => wrapped typ (f s)) b v.
Proof.
  intros H s inp rem stk Hp Hf Hr. destruct (H s inp rem stk Hp Hf Hr) as (s' & E & R).
  exists s'. by rewrite E.
Qed.

Lemma sreads_ext {A} (f g : Stream -> sres A) b v : (forall s, f s = g s) -> sreads g b v -> sreads f b v.
Proof. intros E H s inp rem stk Hp Hf Hr. rewrite E. by apply H. Qed.

Lemma Stream_Bytes_wrapped typ b : bytes_ok b -> zlen (enc_string b) < maxAlloc - 9 ->
  sreads (fun s => wrapped typ (Stream_Bytes s)) (enc_string b) b.
Proof.
  intros Hb Hm. apply sreads_wrapped, Stream_Bytes_ok; [done|]. pose proof (enc_string_len b). lia.
Qed.

Lemma decodeByteSlice_ok typ old b : bytes_ok b -> zlen (enc_string b) < maxAlloc - 9 ->
  sreads (fun s => decodeByteSlice typ s old) (enc_string b) (VBytes b).
Proof. intros Hb Hm. by apply (sreads_then (fun s => wrapped typ (Stream_Bytes s)) (fun b => Ok (VBytes b)) _ b), Stream_Bytes_wrapped. Qed.

Lemma decodeNumberPtr_ok old n : okold (TPtr TNumber) old -> V n <> None ->
  zlen (enc_string (Bytes n)) < maxAlloc - 9 ->
  sreads (fun s => decodeNumberPtr s old) (enc_string (Bytes n)) (VPtr (Some (VNum n))).
Proof.
  intros Ho Hn Hm. destruct n as [[v|]]; [|done].
  assert (Hb : bytes_ok (Bytes (mkNumber (Some v)))).
  { cbn. apply bytes_ok_cons. split; [|apply be_min_ok]. unfold byte_ok. casem; lia. }
  eapply sreads_ext; [|apply (sreads_then (fun s => wrapped (TPtr TNumber) (Stream_Bytes s))
    (fun b => Ok (VPtr (Some (VNum (SetBytes (match old with VPtr (Some (VNum n)) => n | _ => mkNumber None end) b)))))
    _ (Bytes (mkNumber (Some v))));
    [by rewrite SetBytes_Bytes_Some|by apply (Stream_Bytes_wrapped (TPtr TNumber))]].
  intros s. unfold decodeNumberPtr. destruct Ho as [->|(x & -> & n & ->)]; done.
Qed.

Lemma decodeBigInt_ok old z : okold (TPtr TBigInt) old -> 0 <= z -> zlen (enc_nat z) < maxAlloc - 9 ->
  sreads (fun s => decodeBigInt s old) (enc_nat z) (VPtr (Some (VBig z))).
Proof.
  intros Ho Hz Hm. unfold enc_nat in *.
  eapply sreads_ext; [|apply (sreads_then (fun s => wrapped (TPtr TBigInt) (Stream_Bytes s))
    (fun b => match b with
              | 0 :: _ => Err (wrapStreamError ErrCanonInt (TPtr TBigInt))
              | _ => Ok (VPtr (Some (VBig (be_val b)))) end)
    _ (be_min z)); [|by apply (Stream_Bytes_wrapped (TPtr TBigInt))]].
  - intros s. unfold decodeBigInt. destruct (wrapped _ _) as [[b| | |] s1]; [|done..].
    destruct Ho as [->|(x & -> & n & ->)]; by destruct b as [|[]].
  - pose proof (be_val_min z) as Hv. rewrite Z.abs_eq in Hv by done.
    destruct (be_min z) as [|x l] eqn:E; [by rewrite Hv|].
    pose proof (be_min_head _ _ _ E). rewrite Hv. by destruct x.
Qed.

(** ** The end of a list *)

Lemma decoder_EOL t : forall old s inp rem tos stk, eol_type t = true -> okold t old ->
  ready s inp rem (tos :: stk) -> pos tos = lsize tos ->
  exists s', makeDecoder t no_tags s old = (Err EOL, s') /\ ready s' inp rem (tos :: stk).
Proof.
  induction t as [b|b| | |e IHe|m e IHe|nm fs IHfs|e IHe|k e IHk IHe|m| | | |nm] using gotype_ind';
    intros old s inp rem tos stk He Ho Hr Hp; cbn [eol_type okold] in *;
    destruct (Kind_EOL s inp rem tos stk Hr Hp) as (s' & E & R);
    try (exists s'; cbn [makeDecoder];
         unfold decodeUint, decodeInt, decodeBool, decodeString, decodeMap, decodeRawValue, Raw,
           decodeBigIntNoPtr, decodeBigInt, decodeNumber, decodeNumberPtr,
           Stream_Bool, uint, Stream_Bytes; rewrite E; done).
  - exists s'. cbn [makeDecoder]. destruct (isByte e).
    + unfold decodeByteSlice, Stream_Bytes. by rewrite E.
    + unfold makeListDecoder. cbn [tail no_tags]. unfold decodeListSlice, List_. by rewrite E.
  - exists s'. cbn [makeDecoder]. destruct (isByte e).
    + destruct Ho as (b & -> & _). unfold decodeByteArray. by rewrite E.
    + destruct Ho as (vs & -> & _). unfold makeListDecoder, decodeListArray, List_. by rewrite E.
  - exists s'. destruct Ho as (vs & -> & _). cbn [makeDecoder].
    unfold makeStructDecoder, List_. by rewrite E.
  - assert (D : exists s', makePtrDecoder (makeDecoder e no_tags) (zero e) s old = (Err EOL, s') /\
              ready s' inp rem (tos :: stk) \/ eol_type e = false).
    { destruct (eol_type e) eqn:Ee; [|exists s; by right]. unfold makePtrDecoder.
      destruct Ho as [->|(x & -> & Hx)]; cbn [ptr_target].
      - destruct (IHe (zero e) s inp rem tos stk) as (s1 & E1 & R1); [done|apply zero_okold|done..|].
        exists s1. left. by rewrite E1.
      - destruct (IHe x s inp rem tos stk) as (s1 & E1 & R1); [done..|]. exists s1. left. by rewrite E1. }
    destruct D as (s1 & [[D1 D2]|D]);
      destruct e; try (exists s1; done); try congruence;
      exists s'; cbn [makeDecoder]; unfold decodeBigInt, decodeNumberPtr, Stream_Bytes; by rewrite E.
  - destruct m; [|done]. exists s'. cbn [makeDecoder]. unfold decodeInterface, loop_fuel.
    cbn [Nat.eqb decodeInterface0]. by rewrite E.
  - done.
Qed.

(** ** Loops over elements and fields *)

(** What the loops need of each element. *)
Definition elem_ok (D : decoder) (O : goval -> Prop) (enc : goval -> result (list Z)) (v : goval) : Prop :=
  forall old b, O old -> enc v = Ok b -> zlen b < maxAlloc - 9 ->
    item b /\ sreads (fun s => D s old) b v.

(** The same for a decoder run until the end of the innermost list. *)
Definition tail_reads {A} (f : Stream -> sres A) (b : list Z) (v : A) : Prop :=
  forall s inp rem p n stk, ready s (b ++ inp) (zlen b + rem) (mkPos p n :: stk) ->
    fits (zlen b) rem -> 0 <= p -> p + zlen b = n -> n < 2 ^ 64 ->
    exists s', f s = (Ok v, s') /\ ready s' inp rem (mkPos n n :: stk).

Lemma fits_split (a b : list Z) rem : fits (zlen (a ++ b)) rem -> fits (zlen a) (zlen b + rem) /\ fits (zlen b) rem.
Proof. unfold fits. rewrite zlen_app. pose proof (zlen_nonneg a). pose proof (zlen_nonneg b). lia. Qed.

Lemma ready_split s a b inp rem stk : ready s ((a ++ b) ++ inp) (zlen (a ++ b) + rem) stk ->
  primed s (a ++ b ++ inp) (zlen a + (zlen b + rem)) stk.
Proof. rewrite <- (assoc app), zlen_app, <- (assoc Z.add). apply ready_primed. Qed.

Lemma enc_elems_length D O enc vs p : Forall (elem_ok D O enc) vs -> (exists o, O o) ->
  enc_elems enc vs = Ok p -> zlen p < maxAlloc - 9 -> zlen vs <= zlen p.
Proof.
  intros H [o Ho]. revert p. induction H as [|v vs Hv H IH]; cbn [enc_elems]; intros p E Hm.
  - injection E as <-. done.
  - destruct (enc v) as [a| | |] eqn:Ea; try done. destruct (enc_elems enc vs) as [r| | |]; try done.
    injection E as <-. rewrite zlen_app in *. pose proof (zlen_nonneg r). pose proof (zlen_nonneg a).
    specialize (IH r eq_refl ltac:(lia)). destruct (Hv o a Ho Ea ltac:(lia)) as [Hi _].
    apply item_pos in Hi. rewrite zlen_cons. lia.
Qed.

Lemma slice_elems_ok D z O enc vs : O z ->
  (forall old s inp rem tos stk, O old -> ready s inp rem (tos :: stk) -> pos tos = lsize tos ->
     exists s', D s old = (Err EOL, s') /\ ready s' inp rem (tos :: stk)) ->
  Forall (elem_ok D O enc) vs -> forall p fuel i olds, enc_elems enc vs = Ok p -> Forall O olds ->
  zlen p < maxAlloc - 9 -> (length vs < fuel)%nat ->
  tail_reads (slice_elems D z fuel i olds) p vs.
Proof.
  intros Oz Heol H. induction H as [|v vs Hv H IH]; cbn [enc_elems];
    intros p fuel i olds E Ho Hm Hfu s inp rem q n stk Hr Hf Hq Hn Hn';
    (destruct fuel as [|fuel]; [cbn in Hfu; lia|]); cbn [slice_elems].
  - injection E as <-. change (zlen []) with 0 in *. cbn [app] in Hr.
    destruct (Heol (match olds with o :: _ => o | [] => z end) s inp rem (mkPos q n) stk) as (s' & E' & R).
    + by destruct Ho.
    + by rewrite Z.add_0_l in Hr.
    + cbn. lia.
    + exists s'. rewrite E'. split; [done|]. by replace q with n in R by lia.
  - destruct (enc v) as [a| | |] eqn:Ea; try done.
    destruct (enc_elems enc vs) as [r| | |] eqn:Er; try done. injection E as <-.
    destruct (fits_split _ _ _ Hf) as [Hf1 Hf2]. rewrite zlen_app in *.
    pose proof (zlen_nonneg r). pose proof (zlen_nonneg a). cbn [length] in Hfu.
    destruct (Hv (match olds with o :: _ => o | [] => z end) a) as [Hi Hs]; [by destruct Ho|done|lia|].
    rewrite <- zlen_app in Hr. apply ready_split in Hr.
    destruct (Hs _ _ _ _ Hr) as (s1 & E1 & R1); [done|cbn; lia|]. rewrite E1.
    cbn [bump pos lsize] in R1.
    destruct (IH r fuel (i + 1) (match olds with _ :: l => l | [] => [] end) eq_refl
                ltac:(by destruct Ho) ltac:(lia) ltac:(lia) s1 inp rem (q + zlen a) n stk)
      as (s2 & E2 & R2); try done; try lia.
    exists s2. by rewrite E2.
Qed.

Lemma array_elems_ok typ D O enc vs : Forall (elem_ok D O enc) vs ->
  forall p i olds, enc_elems enc vs = Ok p -> Forall O olds -> length olds = length vs ->
  zlen p < maxAlloc - 9 ->
  forall s inp rem stk, ready s (p ++ inp) (zlen p + rem) stk -> fits (zlen p) rem -> room (zlen p) stk ->
  exists s', array_elems typ D i olds s = (Ok vs, s') /\ ready s' inp rem (bump (zlen p) stk).
Proof.
  induction 1 as [|v vs Hv H IH]; cbn [enc_elems];
    intros p i olds E Ho Hl Hm s inp rem stk Hr Hf Hrm; (destruct Ho as [|o olds Ho Hos]; try done);
    cbn [array_elems].
  - injection E as <-. exists s. split; [done|]. change (zlen []) with 0 in *. rewrite bump_0.
    by rewrite Z.add_0_l in Hr.
  - destruct (enc v) as [a| | |] eqn:Ea; try done.
    destruct (enc_elems enc vs) as [r| | |] eqn:Er; try done. injection E as <-.
    destruct (fits_split _ _ _ Hf) as [Hf1 Hf2]. rewrite zlen_app in Hm, Hrm.
    pose proof (zlen_nonneg r). pose proof (zlen_nonneg a).
    destruct (Hv o a) as [Hi Hs]; [done..|lia|]. apply ready_split in Hr.
    destruct (Hs _ _ _ _ Hr) as (s1 & E1 & R1); [done|eapply room_le; [|exact Hrm]; lia|]. rewrite E1.
    destruct (IH r (i + 1) olds eq_refl Hos ltac:(cbn in Hl; lia) ltac:(lia) s1 inp rem (bump (zlen a) stk))
      as (s2 & E2 & R2); [done..|by apply room_bump|].
    exists s2. rewrite E2. rewrite bump_bump in R2. by rewrite zlen_app.
Qed.

(** *** Struct fields *)

Lemma parse_tag_parts_tail parts nf fi tn fn ft ts ts' :
  parse_tag_parts parts nf fi tn fn ft ts = Ok ts' -> tail ts' = true -> tail ts = true \/ fi = (nf - 1)%nat.
Proof.
  revert ts. induction parts as [|p parts IH]; cbn [parse_tag_parts]; intros ts E Ht.
  - injection E as <-. by left.
  - repeat casem_in E; try done; apply IH in E as [E|E]; try done; try (by left); try (by right).
    right. by apply Nat.eqb_eq, negb_false_iff.
Qed.

Lemma fieldTags_tail tn nf fi f ft ts : fieldTags tn nf fi f ft = Some ts -> tail ts = true ->
  fi = (nf - 1)%nat.
Proof.
  unfold fieldTags, parseStructTag. intros E Ht. destruct (f_exported f); [|done].
  destruct (parse_tag_parts _ _ _ _ _ _ _) as [ts0| | |] eqn:Ep; try done.
  destruct (ignored ts0); [done|]. injection E as ->.
  apply parse_tag_parts_tail in Ep as [?|?]; done.
Qed.

Definition is_tail (t : gotype) (ts : tags) : bool :=
  match t with TSlice e => tail ts && negb (isByte e) | _ => false end.

(** The round trip of one value, for every type it is canonical at. *)
Definition rt_ok (v : goval) : Prop := forall t ts old b,
  canon v t ts -> okold t old -> enc_val v t ts = Ok b -> zlen b < maxAlloc - 9 ->
  if is_tail t ts then tail_reads (fun s => makeDecoder t ts s old) b v
  else item b /\ sreads (fun s => makeDecoder t ts s old) b v.

Lemma is_tail_tail t ts : is_tail t ts = true -> tail ts = true.
Proof. destruct t; cbn; try done. intros H. by apply andb_prop in H as [-> _]. Qed.

Lemma tail_reads_nil {A} (x : A) : tail_reads (fun s => (Ok x, s)) [] x.
Proof.
  intros s inp rem p n stk Hr Hf Hp Hn Hn'. exists s. split; [done|].
  change (zlen []) with 0 in *. rewrite Z.add_0_l in Hr. by replace p with n in Hr by lia.
Qed.

Lemma decode_fields_ok typ name nf vs : Forall rt_ok vs -> forall fs fi olds p,
  canon_fields canon name nf fi fs vs -> okold_fields okold name nf fi fs olds ->
  enc_fields enc_val name nf fi fs vs = Ok p -> (fi + length fs)%nat = nf -> zlen p < maxAlloc - 9 ->
  tail_reads (decode_fields makeDecoder typ name nf fi fs olds) p vs.
Proof.
  induction 1 as [|v vs Hv H IH]; intros [|[f ft] fs] fi [|o olds] p Hc Ho E Hl Hm;
    cbn [canon_fields okold_fields enc_fields decode_fields length] in *; try done.
  { injection E as <-. apply tail_reads_nil. }
  destruct Hc as [Hc Hcs], Ho as [Ho Hos].
  destruct (fieldTags name nf fi f ft) as [ts|] eqn:Et.
  2:{ subst v o. intros s inp rem q n stk Hr Hf Hq Hn Hn'.
      destruct (IH fs (S fi) olds p Hcs Hos E ltac:(lia) Hm s inp rem q n stk) as (s' & E' & R); try done.
      exists s'. by rewrite E'. }
  destruct (enc_val v ft ts) as [a| | |] eqn:Ea; try done.
  destruct (enc_fields enc_val name nf (S fi) fs vs) as [r| | |] eqn:Er; try done. injection E as <-.
  intros s inp rem q n stk Hr Hf Hq Hn Hn'.
  destruct (fits_split _ _ _ Hf) as [Hf1 Hf2]. rewrite zlen_app in Hm, Hn.
  pose proof (zlen_nonneg r). pose proof (zlen_nonneg a).
  assert (Ho' : okold ft (if is_map ft then VMap [] else o)) by by destruct ft.
  specialize (Hv ft ts _ a Hc Ho' Ea ltac:(lia)). unfold decode_field.
  destruct (is_tail ft ts) eqn:Etl.
  - pose proof (fieldTags_tail _ _ _ _ _ _ Et (is_tail_tail _ _ Etl)).
    destruct fs; [|cbn in Hl; lia]. destruct vs; [|done]. destruct olds; [|done].
    cbn in Er. injection Er as <-. rewrite app_nil_r in *. change (zlen []) with 0 in *.
    destruct (Hv s inp rem q n stk) as (s1 & E1 & R1); try done; [lia|].
    exists s1. by rewrite E1.
  - destruct Hv as [_ Hv]. apply ready_split in Hr.
    destruct (Hv _ _ _ _ Hr) as (s1 & E1 & R1); [done|cbn; lia|]. rewrite E1. cbn [bump pos lsize] in R1.
    destruct (IH fs (S fi) olds r Hcs Hos Er ltac:(lia) ltac:(lia) s1 inp rem (q + zlen a) n stk)
      as (s2 & E2 & R2); try done; try lia.
    exists s2. by rewrite E2.
Qed.

(** A list around a decoder that reads to the end of it. *)
Lemma sreads_list {A} typ (f : Stream -> sres A) p v : tail_reads f p v ->
  sreads (fun s => do _, s1 <- wrapped typ (List_ s);
                   do x, s2 <- f s1;
                   do _, s3 <- wrapped typ (ListEnd s2); (Ok x, s3)) (enc_list p) v.
Proof.
  intros H s inp rem stk Hp Hf Hr. pose proof (enc_list_len p). pose proof (zlen_nonneg p).
  destruct (List_ok p s inp rem stk Hp Hf Hr) as (s1 & E1 & R1). unfold fits in Hf.
  destruct (H s1 inp rem 0 (zlen p) _ R1) as (s2 & E2 & R2); [unfold fits; lia|lia|lia|lia|].
  destruct (ListEnd_ok p s2 inp rem stk) as (s3 & E3 & R3); [lia|done..|].
  exists s3. rewrite E1. cbn [wrapped res_map_err]. rewrite E2, E3. done.
Qed.

(** *** Slices and arrays *)

Definition eol_ok (D : decoder) (O : goval -> Prop) : Prop :=
  forall old s inp rem tos stk, O old -> ready s inp rem (tos :: stk) -> pos tos = lsize tos ->
    exists s', D s old = (Err EOL, s') /\ ready s' inp rem (tos :: stk).

Lemma decodeSliceElems_ok D z O enc vs olds p : O z -> eol_ok D O -> Forall (elem_ok D O enc) vs ->
  enc_elems enc vs = Ok p -> Forall O olds -> zlen p < maxAlloc - 9 ->
  tail_reads (fun s => decodeSliceElems D z s (VList olds)) p (VList vs).
Proof.
  intros Oz Heol H E Ho Hm s inp rem q n stk Hr Hf Hq Hn Hn'. unfold decodeSliceElems.
  assert (length vs < loop_fuel s)%nat.
  { pose proof (enc_elems_length D O enc vs p H (ex_intro _ z Oz) E Hm) as L.
    destruct Hr as (_ & Hi & _). unfold loop_fuel. rewrite Hi, length_app. unfold zlen in L. lia. }
  destruct (slice_elems_ok D z O enc vs Oz Heol H p (loop_fuel s) 0 olds E Ho Hm ltac:(done)
              s inp rem q n stk) as (s' & E' & R); try done.
  exists s'. by rewrite E'.
Qed.

Lemma decodeListSlice_ok typ D z O enc vs olds p : O z -> eol_ok D O -> Forall (elem_ok D O enc) vs ->
  enc_elems enc vs = Ok p -> Forall O olds -> zlen (enc_list p) < maxAlloc - 9 ->
  sreads (fun s => decodeListSlice typ D z s (VList olds)) (enc_list p) (VList vs).
Proof.
  intros Oz Heol H E Ho Hm s inp rem stk Hp Hf Hr. pose proof (enc_list_len p). pose proof (zlen_nonneg p).
  destruct (List_ok p s inp rem stk Hp Hf Hr) as (s1 & E1 & R1). unfold fits in Hf.
  unfold decodeListSlice. rewrite E1. cbn [wrapped res_map_err]. destruct (Z.eqb_spec (zlen p) 0) as [Ep|Ep].
  - assert (vs = []) as ->.
    { pose proof (enc_elems_length D O enc vs p H (ex_intro _ z Oz) E ltac:(lia)).
      apply zlen_0_inv. pose proof (zlen_nonneg vs). lia. }
    apply zlen_0_inv in Ep as ->. cbn [app] in R1. change (zlen []) with 0 in R1 at 2.
    rewrite Z.add_0_l in R1.
    destruct (ListEnd_ok [] s1 inp rem stk) as (s3 & E3 & R3); [lia|done..|].
    exists s3. by rewrite E3.
  - destruct (decodeSliceElems_ok D z O enc vs olds p Oz Heol H E Ho ltac:(lia) s1 inp rem 0 (zlen p) _ R1)
      as (s2 & E2 & R2); [unfold fits; lia|lia|lia|lia|].
    destruct (ListEnd_ok p s2 inp rem stk) as (s3 & E3 & R3); [lia|done..|].
    exists s3. by rewrite E2, E3.
Qed.

Lemma decodeListArray_ok typ D O enc vs olds p : Forall (elem_ok D O enc) vs ->
  enc_elems enc vs = Ok p -> Forall O olds -> length olds = length vs -> zlen (enc_list p) < maxAlloc - 9 ->
  sreads (fun s => decodeListArray typ D s (VList olds)) (enc_list p) (VList vs).
Proof.
  intros H E Ho Hl Hm. pose proof (enc_list_len p).
  eapply sreads_ext; [|eapply (sreads_then _ (fun vs => Ok (VList vs))); [done|]].
  2:{ apply (sreads_list typ (array_elems typ D 0 olds) p vs).
      intros s inp rem q n stk Hr Hf Hq Hn Hn'.
      destruct (array_elems_ok typ D O enc vs H p 0 olds E Ho Hl ltac:(lia) s inp rem _ Hr Hf)
        as (s' & E' & R); [cbn; lia|].
      exists s'. split; [done|]. cbn in R. by rewrite Hn in R. }
  intros s. unfold decodeListArray. destruct (wrapped _ _) as [[x| | |] s1]; try done.
  destruct (array_elems _ _ _ _ _) as [[y| | |] s2]; try done.
  by destruct (wrapped _ _) as [[w| | |] s3].
Qed.

(** *** Byte arrays *)

Lemma decodeByteArray_ok typ b b0 : bytes_ok b -> b <> [0] -> length b0 = length b ->
  sreads (fun s => decodeByteArray typ s (VBytes b0)) (enc_string b) (VBytes b).
Proof.
  intros Hb H0 Hl s inp rem stk Hp Hf Hr. unfold decodeByteArray.
  assert (El : zlen b0 = zlen b) by (unfold zlen; lia).
  destruct (Kind_string b s inp rem stk) as (kn & s1 & E & [(-> & Eb & Hx & Ha)|(-> & Hx & Ha & Eh)]);
    try done; rewrite E, El.
  - rewrite Eb. change (zlen [s_byteval s1]) with 1. cbn [Z.eqb Z.ltb Z.compare Pos.compare Pos.compare_cont].
    unfold Uint, uint. rewrite (Kind_again _ _ _ E).
    destruct (Z.eqb_spec (s_byteval s1) 0) as [E0|]; [congruence|].
    rewrite uN_id by (unfold in_uN; lia). rewrite <- Eb. eexists. split; [done|]. by apply ready_set_kind.
  - rewrite Z.ltb_irrefl. pose proof (header_pos 0x80 0xB7 (zlen b)). pose proof (zlen_nonneg b).
    cbn [small_tag large_tag] in *.
    destruct (readFull_ok b s1 inp rem _ Ha) as (s2 & E2 & R2);
      [unfold fits in *; lia|apply room_bump; [lia|by rewrite <- Eh]|].
    rewrite E2. rewrite bump_bump, <- Eh in R2. exists s2. split; [|done].
    destruct b as [|x [|y b]]; try done. specialize (Hx x eq_refl). by destruct (Z.ltb_spec x 128); [lia|].
Qed.

(** *** Raw values and pointers *)

Lemma Raw_ok b : item b -> zlen b < maxAlloc - 9 -> sreads Raw b b.
Proof.
  intros [(c & Hc & ->)|(p & ->)] Hm.
  - destruct (enc_string_cases c Hc) as [(x & -> & Hx & E)|[E Hx]]; rewrite E in *.
    + intros s inp rem stk Hp Hf Hr. change (zlen [x]) with 1 in *.
      edestruct (primed_Kind s _ _ _ (fun s1 kn => kn = (KByte, 0) /\ s_byteval s1 = x /\
        at_ s1 inp rem (bump 1 stk)) Hp) as (kn & s1 & E1 & -> & Hv & Ha).
      { intros s0 H0. destruct (Kind_byte x s0 inp rem stk) as (s1 & ? & ? & ? & ?); try done. eauto 10. }
      unfold Raw. rewrite E1, Hv. eexists. split; [done|]. by apply ready_set_kind.
    + apply (Raw_header KString); [done|]. rewrite zlen_app in Hm. cbn [small_tag large_tag] in Hm.
      pose proof (header_pos 0x80 0xB7 (zlen c)). lia.
  - apply (Raw_header KList); [done|]. pose proof (enc_list_len p). lia.
Qed.

(** Looking at the kind of an item: empty strings and lists are told apart. *)
Lemma Kind_item b s inp rem stk : item b -> zlen b < maxAlloc ->
  primed s (b ++ inp) (zlen b + rem) stk -> fits (zlen b) rem -> room (zlen b) stk ->
  exists kn s1, Stream_Kind s = (Ok kn, s1) /\
    ((b = [0x80] \/ b = [0xC0]) /\ kn.2 = 0 /\ kn.1 <> KByte /\ at_ s1 inp rem (bump (zlen b) stk) \/
     b <> [0x80] /\ b <> [0xC0] /\ (kn.2 <> 0 \/ kn.1 = KByte)).
Proof.
  intros Hi Hm Hp Hf Hr. destruct Hi as [(c & Hc & ->)|(p & ->)].
  - destruct (Kind_string c s inp rem stk) as (kn & s1 & E & [(-> & Eb & Hx & Ha)|(-> & Hx & Ha & Eh)]);
      try done; eexists _, s1; (split; [exact E|]).
    + right. rewrite Eb. cbn [enc_string]. destruct (Z.ltb_spec (s_byteval s1) 128); [|lia].
      split_and!; [intros [= ?]; lia|intros [= ?]; lia|by right].
    + cbn [fst snd]. destruct (decide (c = [])) as [->|Hn].
      * left. split_and!; [by left|done|done|exact Ha].
      * right. pose proof (header_pos 0x80 0xB7 (zlen c)). cbn [small_tag large_tag] in *.
        assert (0 < zlen c) by (destruct c; [done|zl]).
        split_and!; [intros E0; rewrite E0 in Eh; change (zlen [_]) with 1 in Eh; lia..|left; lia].
  - unfold enc_list in *. pose proof (zlen_nonneg p). pose proof (header_pos 0xC0 0xF7 (zlen p)).
    rewrite <- (assoc app), zlen_app, <- (assoc Z.add) in Hp. rewrite zlen_app in Hf, Hr |- *.
    edestruct (primed_Kind s _ _ _ (fun s1 kn => kn = (KList, zlen p) /\
      at_ s1 (p ++ inp) (zlen p + rem) (bump (zlen (khead KList (zlen p))) stk)) Hp) as (kn & s1 & E & -> & Ha).
    { intros s0 H0'. destruct (Kind_header KList (zlen p) s0 (p ++ inp) rem stk) as (s1 & ? & ? & ?); try done; eauto 10. }
    eexists _, s1. split; [exact E|]. cbn [fst snd]. destruct (decide (p = [])) as [->|Hn].
    + left. split_and!; [by right|done|done|exact Ha].
    + right. assert (0 < zlen p) by (destruct p; [done|zl]).
      split_and!; [intros E0; apply (f_equal zlen) in E0; rewrite zlen_app in E0; change (zlen [_]) with 1 in E0; lia..|left; lia].
Qed.

Lemma Kind_primed s kn s1 inp rem stk : primed s inp rem stk -> Stream_Kind s = (Ok kn, s1) ->
  primed s1 inp rem stk.
Proof.
  intros (s0 & H0 & [->|[kn' E]]) E1; exists s0; (split; [done|right]).
  - by exists kn.
  - rewrite (Kind_again _ _ _ E) in E1. injection E1 as -> ->. by exists kn.
Qed.

Lemma makePtrDecoder_ok D z x old b v : ptr_target z old = Some x -> sreads (fun s => D s x) b v ->
  sreads (fun s => makePtrDecoder D z s old) b (VPtr (Some v)).
Proof.
  intros Ht H s inp rem stk Hp Hf Hr. unfold makePtrDecoder. rewrite Ht.
  destruct (H s inp rem stk Hp Hf Hr) as (s' & E & R). exists s'. by rewrite E.
Qed.

Lemma makeOptionalPtrDecoder_some D z x old b v : ptr_target z old = Some x -> item b ->
  b <> [0x80] -> b <> [0xC0] -> zlen b < maxAlloc -> sreads (fun s => D s x) b v ->
  sreads (fun s => makeOptionalPtrDecoder D z s old) b (VPtr (Some v)).
Proof.
  intros Ht Hi H1 H2 Hm H s inp rem stk Hp Hf Hr. unfold makeOptionalPtrDecoder.
  destruct (Kind_item b s inp rem stk) as ([k n] & s1 & E & [[[?|?] _]|(_ & _ & Hk)]); try done.
  rewrite E. cbn [fst snd] in Hk.
  replace ((n =? 0) && negb (bool_decide (k = KByte))) with false.
  - apply (makePtrDecoder_ok D z x old b v Ht H); try done. by eapply Kind_primed.
  - destruct Hk as [Hk| ->]; [by destruct (Z.eqb_spec n 0)|]. by destruct (n =? 0).
Qed.

Lemma makeOptionalPtrDecoder_nil D z old b : b = [0x80] \/ b = [0xC0] ->
  sreads (fun s => makeOptionalPtrDecoder D z s old) b (VPtr None).
Proof.
  intros Hb s inp rem stk Hp Hf Hr. unfold makeOptionalPtrDecoder.
  assert (item b) by (destruct Hb as [-> | ->]; [left; exists []; by repeat constructor|right; by exists []]).
  destruct (Kind_item b s inp rem stk) as ([k n] & s1 & E & [(_ & Hn & Hk & Ha)|(H1 & H2 & _)]); try done.
  - by destruct Hb as [-> | ->].
  - rewrite E. cbn [fst snd] in *. subst n. destruct (bool_decide_reflect (k = KByte)); [done|].
    eexists. split; [done|]. by apply ready_set_kind.
  - by destruct Hb.
Qed.

(** *** Interfaces *)

Definition iface_ok (v : goval) : Prop := forall b fuel,
  canon v (TInterface 0) no_tags -> enc_val v (TInterface 0) no_tags = Ok b -> zlen b < maxAlloc - 9 ->
  (0 < fuel)%nat -> (forall p, b = enc_list p -> zlen p + 1 < Z.of_nat fuel) ->
  item b /\ sreads (decodeInterface0 fuel) b v.

Lemma enc_elems_le enc vs p : enc_elems enc vs = Ok p ->
  Forall (fun v => forall b, enc v = Ok b -> zlen b <= zlen p) vs.
Proof.
  revert p. induction vs as [|v vs IH]; cbn [enc_elems]; intros p E; [constructor|].
  destruct (enc v) as [a| | |] eqn:Ea; try done. destruct (enc_elems enc vs) as [r| | |]; try done.
  injection E as <-. rewrite zlen_app. constructor.
  - intros b Eb. assert (a = b) as <- by congruence. zl.
  - eapply Forall_impl; [by apply IH|]. intros x Hx b Eb. specialize (Hx b Eb). zl.
Qed.

Lemma iface_bytes b fuel : bytes_ok b -> zlen (enc_string b) < maxAlloc - 9 -> (0 < fuel)%nat ->
  sreads (decodeInterface0 fuel) (enc_string b) (VIface (Some (TSlice (TUint 8), VBytes b))).
Proof.
  intros Hb Hm Hf s inp rem stk Hp Hft Hr. destruct fuel as [|f]; [lia|]. cbn [decodeInterface0].
  destruct (Kind_string b s inp rem stk) as (kn & s1 & E & Hk); try done. rewrite E.
  pose proof (enc_string_len b).
  destruct (Stream_Bytes_ok b Hb ltac:(lia) s1 inp rem stk) as (s2 & E2 & R2);
    [by eapply Kind_primed|done..|].
  exists s2. destruct Hk as [(-> & _)|(-> & _)]; by rewrite E2.
Qed.

Lemma iface_list vs p fuel : Forall iface_ok vs -> Forall (fun x => canon x (TInterface 0) no_tags) vs ->
  enc_elems (fun x => enc_val x (TInterface 0) no_tags) vs = Ok p -> zlen (enc_list p) < maxAlloc - 9 ->
  zlen p + 1 < Z.of_nat fuel ->
  sreads (decodeInterface0 fuel) (enc_list p) (VIface (Some (TSlice (TInterface 0), VList vs))).
Proof.
  intros H Hc Ee Hm Hfu s inp rem stk Hp Hft Hr. pose proof (zlen_nonneg p).
  pose proof (enc_list_len p). destruct fuel as [|f]; [lia|]. cbn [decodeInterface0].
  destruct (Kind_item (enc_list p) s inp rem stk) as ([k n] & s1 & E & _); [apply item_list|lia|done..|].
  assert (k = KList) as ->.
  { destruct (List_ok p s inp rem stk Hp Hft Hr) as (s1' & E1 & _). unfold List_ in E1. rewrite E in E1.
    by destruct k. }
  rewrite E.
  destruct (decodeListSlice_ok (TSlice (TInterface 0)) (fun s _ => decodeInterface0 f s) (VIface None)
    (fun _ => True) (fun x => enc_val x (TInterface 0) no_tags) vs [] p I) with (s := s1) (inp := inp)
    (rem := rem) (stk := stk) as (s2 & E2 & R2); try done.
  - intros old s' inp' rem' tos stk' _ R Hp'. destruct f as [|f]; [lia|]. cbn [decodeInterface0].
    destruct (Kind_EOL s' inp' rem' tos stk' R Hp') as (s3 & -> & R3). by exists s3.
  - apply enc_elems_le in Ee. eapply Forall_impl; [apply Forall_and; split; [exact H|]|].
    + apply Forall_and. split; [exact Hc|exact Ee].
    + intros x (Hx & Hcx & Hle) old b _ Eb Hmb. apply Hx; try done; [lia|].
      intros q ->. specialize (Hle _ Eb). pose proof (enc_list_len q). lia.
  - by eapply Kind_primed.
  - exists s2. by rewrite E2.
Qed.

Lemma iface_all v : iface_ok v /\ match v with VList vs => Forall iface_ok vs | _ => True end.
Proof.
  induction v as [z|z|z|s|b0|vs IH| |v IH|kvs IH| |t' v IH|z|n] using goval_ind';
    (split; [|try exact I]); try (intros b fuel []; done).
  - eapply Forall_impl; [exact IH|]. by intros x [].
  - destruct IH as [_ IH]. intros b fuel (_ & Ht & Hc) E Hm Hf0 Hf. cbn [enc_val] in E.
    destruct (cachedTypeInfo t'); try done. destruct Ht as [-> | ->].
    + destruct v; try done; cbn in Hc; destruct Hc as [Hc1 Hc2]; try done.
      cbn in E. injection E as <-. split; [by apply item_string|by apply iface_bytes].
    + destruct v; try done; cbn [canon] in Hc; destruct Hc as [Hc1 Hc2]; try done.
      destruct Hc2 as [_ Hc2]. apply allP_Forall in Hc2. cbn [enc_val isByte] in E.
      destruct (enc_elems _ _) as [p| | |] eqn:Ep; try done. injection E as <-.
      cbn [tail no_tags] in *. split; [apply item_list|]. by apply iface_list; try apply Hf.
Qed.

(** ** Encodings are bytes *)

Lemma header_bytes_ok small large n : 0 <= n < 2 ^ 64 -> 0 <= small <= 0xC0 -> 0 <= large <= 0xF7 ->
  bytes_ok (header small large n).
Proof.
  intros Hn Hs Hl. unfold header. pose proof (be_min_len_le n 8 ltac:(cbn; lia)).
  pose proof (zlen_nonneg (be_min n)).
  destruct (Z.ltb_spec n 56); apply bytes_ok_cons; (split; [unfold byte_ok; lia|auto with bclib]).
Qed.

Lemma enc_string_bytes_ok b : bytes_ok b -> zlen b < 2 ^ 64 -> bytes_ok (enc_string b).
Proof.
  intros Hb Hl. pose proof (zlen_nonneg b).
  assert (bytes_ok (header 0x80 0xB7 (zlen b) ++ b)).
  { apply bytes_ok_app. split; [apply header_bytes_ok; lia|done]. }
  destruct b as [|x [|y b]]; try done. cbn [enc_string]. by destruct (x <? 128).
Qed.

Lemma enc_list_bytes_ok p : bytes_ok p -> zlen p < 2 ^ 64 -> bytes_ok (enc_list p).
Proof.
  intros Hb Hl. pose proof (zlen_nonneg p). apply bytes_ok_app. split; [apply header_bytes_ok; lia|done].
Qed.

Lemma enc_elems_bytes_ok enc vs p :
  Forall (fun v => forall b, enc v = Ok b -> zlen b < maxAlloc -> bytes_ok b) vs ->
  enc_elems enc vs = Ok p -> zlen p < maxAlloc -> bytes_ok p.
Proof.
  intros H. revert p. induction H as [|v vs Hv H IH]; cbn [enc_elems]; intros p E Hm.
  - injection E as <-. constructor.
  - destruct (enc v) as [a| | |]; try done. destruct (enc_elems enc vs) as [r| | |]; try done.
    injection E as <-. rewrite zlen_app in Hm. apply bytes_ok_app.
    split; [apply Hv|apply IH]; try done; zl.
Qed.

Definition bytes_rt (v : goval) : Prop := forall t ts b,
  canon v t ts -> enc_val v t ts = Ok b -> zlen b < maxAlloc -> bytes_ok b.

Lemma enc_fields_bytes_ok name nf vs : Forall bytes_rt vs -> forall fs fi p,
  canon_fields canon name nf fi fs vs -> enc_fields enc_val name nf fi fs vs = Ok p ->
  zlen p < maxAlloc -> bytes_ok p.
Proof.
  induction 1 as [|v vs Hv H IH]; intros [|[f ft] fs] fi p Hc E Hm;
    cbn [canon_fields enc_fields] in *; try done.
  - injection E as <-. constructor.
  - destruct Hc as [Hc Hcs]. destruct (fieldTags name nf fi f ft) as [ts|]; [|by eapply IH].
    destruct (enc_val v ft ts) as [a| | |] eqn:Ea; try done.
    destruct (enc_fields enc_val name nf (S fi) fs vs) as [r| | |] eqn:Er; try done.
    injection E as <-. rewrite zlen_app in Hm. apply bytes_ok_app.
    split; [by eapply Hv; [..|zl]|by eapply IH; [..|zl]].
Qed.

(** A map's encoding from its entries'. *)
Abbreviation enc_top := (fun x t' => let* _ := cachedTypeInfo t' in enc_val x t' no_tags).

Lemma encode_iface_inv x t c : canon x t no_tags -> encode_iface enc_top x t = Ok c ->
  enc_val x t no_tags = Ok c /\ genTypeInfo_err t = None.
Proof.
  intros Hc E.
  assert (D : enc_top x t = Ok c -> enc_val x t no_tags = Ok c /\ genTypeInfo_err t = None).
  { unfold cachedTypeInfo. by destruct (genTypeInfo_err t). }
  destruct x as [| | | | | | | |[[t' y]|]| |]; try exact (D E); [|done].
  destruct t as [| | | | | | |e| |m| | | |]; try done; by destruct e.
Qed.

Lemma enc_entries_fmap enc kt et kvs :
  enc_entries enc kt et kvs = (fun kv => (kv.1, enc_pair enc kt et kv)) <$> kvs.
Proof. induction kvs as [|[k x] kvs IH]; cbn; [done|]. by f_equal. Qed.

Lemma sort_insert_before {A} (x : goval * A) l : Forall (before x) l ->
  sort_insert (fun a b => key_less a.1 b.1) x l = x :: l.
Proof.
  destruct l as [|y l]; [done|]. intros H. apply Forall_cons in H as [H _]. cbn.
  destruct (key_less y.1 x.1) eqn:E; [|done].
  pose proof (key_less_trans _ _ _ H E) as E'. by rewrite key_less_irrefl in E'.
Qed.

Lemma enc_entries_sorted enc kt et kvs : StronglySorted before kvs ->
  SliceStable (fun a b => key_less a.1 b.1) (enc_entries enc kt et kvs) = enc_entries enc kt et kvs.
Proof.
  rewrite enc_entries_fmap. induction 1 as [|x l H IH Hx]; [done|].
  rewrite fmap_cons. cbn [SliceStable]. rewrite IH. apply sort_insert_before, Forall_fmap. done.
Qed.

Lemma res_all_Forall2 {A B} (f : A -> result B) l bs : res_all (f <$> l) = Ok bs ->
  Forall2 (fun a b => f a = Ok b) l bs.
Proof.
  revert bs. induction l as [|a l IH]; intros bs E; cbn in E.
  - injection E as <-. constructor.
  - destruct (f a) eqn:Ea; try done. destruct (res_all (f <$> l)); try done. injection E as <-.
    constructor; [done|by apply IH].
Qed.

(** What [enc_map] gives for sorted entries. *)
Lemma enc_map_inv enc kt et kvs b : StronglySorted before kvs -> enc_map enc kt et kvs = Ok b ->
  exists bss, Forall2 (fun kv c => enc_pair enc kt et kv = Ok c) kvs bss /\
              b = enc_string (enc_list (concat (enc_string <$> bss))).
Proof.
  intros Hs E. unfold enc_map in E. rewrite enc_entries_sorted, enc_entries_fmap in E by done.
  rewrite <- list_fmap_compose in E. destruct (res_all _) as [bss| | |] eqn:Er in E; try done.
  injection E as <-. apply res_all_Forall2 in Er. by exists bss.
Qed.

Lemma concat_le (bss : list (list Z)) :
  Forall (fun c => zlen c <= zlen (concat (enc_string <$> bss))) bss.
Proof.
  induction bss as [|b bss IH]; constructor; cbn; rewrite zlen_app; pose proof (enc_string_len b).
  - pose proof (zlen_nonneg (concat (enc_string <$> bss))). lia.
  - eapply Forall_impl; [exact IH|]. intros c Hc. cbn in Hc. zl.
Qed.

Lemma concat_bytes_ok (bss : list (list Z)) : Forall bytes_ok bss ->
  zlen (concat (enc_string <$> bss)) < 2 ^ 64 -> bytes_ok (concat (enc_string <$> bss)).
Proof.
  induction 1 as [|b bss Hb H IH]; cbn; [constructor|]. rewrite zlen_app. intros Hm.
  pose proof (enc_string_len b). pose proof (zlen_nonneg (concat (enc_string <$> bss))).
  pose proof (zlen_nonneg b). apply bytes_ok_app.
  split; [apply enc_string_bytes_ok; [done|lia]|apply IH; lia].
Qed.

(** One pair: what it is made of, and its bounds. *)
Lemma enc_pair_inv kt et kv c : canon kv.1 kt no_tags -> canon kv.2 et no_tags ->
  enc_pair enc_top kt et kv = Ok c -> exists kb vb,
    enc_val kv.1 kt no_tags = Ok kb /\ genTypeInfo_err kt = None /\
    enc_val kv.2 et no_tags = Ok vb /\ genTypeInfo_err et = None /\
    c = enc_list (concat (enc_string <$> [kb; vb])) /\ zlen kb < zlen c /\ zlen vb < zlen c.
Proof.
  intros Hk Hv E. unfold enc_pair in E.
  destruct (encode_iface _ kv.1 kt) as [kb| | |] eqn:Ek; try done.
  destruct (encode_iface _ kv.2 et) as [vb| | |] eqn:Ev; try done. injection E as <-.
  apply encode_iface_inv in Ek as [? ?]; [|done]. apply encode_iface_inv in Ev as [? ?]; [|done].
  exists kb, vb. cbn. rewrite app_nil_r.
  pose proof (enc_list_len (enc_string kb ++ enc_string vb)) as L. rewrite zlen_app in L.
  pose proof (enc_string_len kb). pose proof (enc_string_len vb).
  pose proof (zlen_nonneg kb). pose proof (zlen_nonneg vb). split_and!; done || lia.
Qed.

Lemma enc_pair_bytes_ok kt et kv c : bytes_rt kv.1 -> bytes_rt kv.2 ->
  canon kv.1 kt no_tags -> canon kv.2 et no_tags -> enc_pair enc_top kt et kv = Ok c ->
  zlen c < maxAlloc -> bytes_ok c.
Proof.
  intros Bk Bv Hk Hv E Hm.
  destruct (enc_pair_inv kt et kv c Hk Hv E) as (kb & vb & Ek & _ & Ev & _ & -> & Lk & Lv).
  pose proof (enc_list_len (concat (enc_string <$> [kb; vb]))). unfold maxAlloc in *.
  apply enc_list_bytes_ok; [|lia]. apply concat_bytes_ok; [|lia].
  constructor; [eapply Bk; [done..|unfold maxAlloc; lia]|].
  constructor; [eapply Bv; [done..|unfold maxAlloc; lia]|constructor].
Qed.

Lemma enc_nilptr_bytes_ok e : bytes_ok (enc_nilptr e).
Proof.
  assert (forall x, 0 <= x < 256 -> bytes_ok [x]) as S1 by (intros x Hx; repeat constructor; unfold byte_ok; lia).
  induction e as [b|b| | |e IHe|m e IHe|nm fs IHfs|e IHe|k e IHk IHe|m| | | |nm] using gotype_ind';
    cbn [enc_nilptr]; try (apply S1; lia); try constructor; try (apply S1; lia); try (unfold byte_ok; lia).
  - casem; apply S1; lia.
  - casem; apply S1; lia.
  - destruct e; try exact IHe; apply S1; lia.
Qed.

Lemma pairs_bytes_ok kt et kvs bss n : Forall (fun kv => bytes_rt kv.1 /\ bytes_rt kv.2) kvs ->
  Forall (fun kv => canon kv.1 kt no_tags /\ canon kv.2 et no_tags) kvs ->
  Forall2 (fun kv c => enc_pair enc_top kt et kv = Ok c) kvs bss ->
  Forall (fun c => zlen c <= n) bss -> n < maxAlloc -> Forall bytes_ok bss.
Proof.
  intros IH Hc H L Hn. induction H as [|kv c kvs bss Ec H IH']; [constructor|].
  apply Forall_cons in IH as [[? ?] ?], Hc as [[? ?] ?], L as [? ?].
  constructor; [|by apply IH']. by apply (enc_pair_bytes_ok kt et kv); [..|lia].
Qed.

Lemma enc_map_bytes_ok kt et kvs b : Forall (fun kv => bytes_rt kv.1 /\ bytes_rt kv.2) kvs ->
  StronglySorted before kvs -> Forall (fun kv => canon kv.1 kt no_tags /\ canon kv.2 et no_tags) kvs ->
  enc_map enc_top kt et kvs = Ok b -> zlen b < maxAlloc -> bytes_ok b.
Proof.
  intros IH Hs Hc E Hm. destruct (enc_map_inv _ _ _ _ _ Hs E) as (bss & H & ->).
  pose proof (enc_string_len (enc_list (concat (enc_string <$> bss)))).
  pose proof (enc_list_len (concat (enc_string <$> bss))). unfold maxAlloc in *.
  apply enc_string_bytes_ok; [|lia]. apply enc_list_bytes_ok; [|lia]. apply concat_bytes_ok; [|lia].
  eapply (pairs_bytes_ok kt et kvs); [done|done|done|apply concat_le|unfold maxAlloc; lia].
Qed.

Lemma enc_string_small b : bytes_ok b -> zlen (enc_string b) < maxAlloc -> bytes_ok (enc_string b).
Proof.
  intros Hb Hm. pose proof (enc_string_len b). unfold maxAlloc in Hm. apply enc_string_bytes_ok; [done|lia].
Qed.

Lemma enc_list_small p : (zlen p < maxAlloc -> bytes_ok p) -> zlen (enc_list p) < maxAlloc ->
  bytes_ok (enc_list p).
Proof.
  intros Hb Hm. pose proof (enc_list_len p). unfold maxAlloc in *.
  apply enc_list_bytes_ok; [apply Hb|]; lia.
Qed.

Lemma Bytes_bytes_ok n : bytes_ok (Bytes n).
Proof.
  destruct n as [[v|]]; cbn; [|constructor]. apply bytes_ok_cons. split; [|apply be_min_ok].
  unfold byte_ok. casem; lia.
Qed.
#[local] Hint Resolve enc_string_small Bytes_bytes_ok : core.

Lemma slice_bytes_ok vs e p : Forall bytes_rt vs -> allP (fun x => canon x e no_tags) vs ->
  enc_elems (fun x => enc_val x e no_tags) vs = Ok p -> zlen p < maxAlloc -> bytes_ok p.
Proof.
  intros IH Hc Ep Hm. apply allP_Forall in Hc. eapply enc_elems_bytes_ok; [|exact Ep|done].
  eapply Forall_impl; [apply Forall_and; split; [exact IH|exact Hc]|]. intros x [Hx Hcx] c. by apply Hx.
Qed.

Lemma enc_val_bytes_ok v : bytes_rt v.
Proof.
  induction v as [z|z|z|s|b0|vs IH| |v IH|kvs IH| |t' v IH|z|n] using goval_ind';
    intros t ts b Hc E Hm; destruct t as [| | | |e|n' e|nm fs|e|kt et|m| | | |]; try done;
    cbn [canon enc_val] in *; try (exfalso; by destruct e).
  - injection E as <-. unfold enc_nat in *. auto.
  - injection E as <-. unfold enc_nat in *. auto.
  - injection E as <-. repeat constructor; unfold byte_ok; casem; lia.
  - injection E as <-. auto.
  - destruct Hc as [Hi Hb]. rewrite Hi in E. injection E as <-. auto.
  - destruct Hc as (Hi & _ & Hb & _). rewrite Hi in E. injection E as <-. auto.
  - injection E as <-. by destruct Hc.
  - destruct Hc as (Hi & _ & Hc). rewrite Hi in E.
    destruct (enc_elems _ vs) as [p| | |] eqn:Ep; try done. injection E as <-.
    destruct (tail ts); [by eapply slice_bytes_ok|]. apply enc_list_small; [|done]. by eapply slice_bytes_ok.
  - destruct Hc as (Hi & _ & Ht & Hc). rewrite Hi, Ht in E.
    destruct (enc_elems _ vs) as [p| | |] eqn:Ep; try done. injection E as <-.
    apply enc_list_small; [|done]. by eapply slice_bytes_ok.
  - destruct (enc_fields _ _ _ _ _ _) as [p| | |] eqn:Ep; try done. injection E as <-.
    apply enc_list_small; [|done]. by eapply enc_fields_bytes_ok.
  - assert (D : b = enc_nilptr e \/ b = [0x80] \/ b = [0]).
    { destruct e; try (destruct (genTypeInfo_err _) in E; [done|]); injection E as <-; auto. }
    destruct D as [-> | [-> | ->]]; [apply enc_nilptr_bytes_ok|..]; repeat constructor; unfold byte_ok; lia.
  - destruct e; try (destruct Hc as [Hc _]; by eapply IH).
    + destruct v; try done. destruct (Z.ltb_spec z 0); [done|]. injection E as <-. unfold enc_nat in *. auto.
    + destruct v; try done. by eapply (IH TNumber no_tags).
  - destruct Hc as (Hk & Hu & Hs & Hc). apply allP_Forall in Hc. by eapply enc_map_bytes_ok.
  - destruct Hc as (_ & _ & Hc). destruct (cachedTypeInfo t'); try done. by eapply IH.
  - destruct (Z.ltb_spec z 0); [done|]. injection E as <-. unfold enc_nat in *. auto.
  - injection E as <-. auto.
Qed.

(** ** Whole inputs *)

Lemma decode_bytes_ok t dec b old v : genTypeInfo_err t = None -> zlen b < 2 ^ 64 ->
  sreads (fun s => dec s old) b v -> decode_bytes t dec b old = Ok v.
Proof.
  intros Ht Hb H. unfold decode_bytes, stream_decode. rewrite Ht. pose proof (zlen_nonneg b).
  destruct (H (NewStream b true (zlen b)) [] 0 []) as (s' & E & R).
  - apply ready_primed. unfold NewStream, Reset. rewrite app_nil_r, Z.add_0_r.
    by destruct (Z.ltb_spec 0 (zlen b)).
  - unfold fits. lia.
  - done.
  - rewrite E. cbn [res_map_err]. destruct R as (_ & Hi & _). rewrite Hi. done.
Qed.

Lemma decode_bytes_list_ok bss : Forall bytes_ok bss ->
  zlen (enc_list (concat (enc_string <$> bss))) < maxAlloc - 9 ->
  decode_bytes_list (enc_list (concat (enc_string <$> bss))) = Ok (VBytes <$> bss).
Proof.
  intros Hb Hm. unfold decode_bytes_list. unfold maxAlloc in Hm at 1.
  rewrite (decode_bytes_ok _ _ _ _ (VList (VBytes <$> bss))); [done|done|lia|].
  apply (decodeListSlice_ok _ _ _ (fun _ => True)
           (fun v => match v with VBytes b => Ok (enc_string b) | _ => Panic end)); try done.
  - intros old s inp rem tos stk _ R Hp. destruct (Kind_EOL s inp rem tos stk R Hp) as (s' & E & R').
    exists s'. unfold decodeByteSlice, Stream_Bytes. by rewrite E.
  - apply Forall_fmap. eapply Forall_impl; [exact Hb|]. intros b Hbb old c _ [= <-] Hc.
    split; [by apply item_string|]. by apply decodeByteSlice_ok.
  - clear. induction bss as [|b bss IH]; [done|]. cbn in *. by rewrite IH.
Qed.

(** ** Maps *)

Lemma key_less_neq a b : key_less a b = true -> key_eqb a b = false.
Proof.
  destruct a, b; try done; cbn; intros H.
  - destruct (Z.eqb_spec z z0); [|done]. subst. by rewrite Z.ltb_irrefl in H.
  - destruct (Z.eqb_spec z z0); [|done]. subst. by rewrite Z.ltb_irrefl in H.
  - destruct (str_eqb s s0) eqn:E; [|done]. apply str_eqb_eq in E as ->. by rewrite bytes_lt_irrefl in H.
Qed.

(** Entries that share nothing. *)
Definition plain_entry (kv : goval * goval) : hval * hval := (HV kv.1, HV kv.2).

Lemma view_HV all H t v : view all H t (HV v) = v.
Proof. by destruct t. Qed.

Lemma assign_unshared t ts v h H : unshared t = true -> assign t ts v h H = (HV v, H).
Proof. intros E. destruct t; cbn [assign]; by rewrite E. Qed.

Lemma SetMapIndex_new m kv : Forall (fun x => key_less x.1 kv.1 = true) m ->
  SetMapIndex (plain_entry <$> m) (HV kv.1) (HV kv.2) = plain_entry <$> (m ++ [kv]).
Proof.
  induction 1 as [|[k' v'] m Hk H IH]; cbn; [by destruct kv|]. cbn in Hk. rewrite key_less_neq by done. f_equal. exact IH.
Qed.

Lemma ordered_hashable kt k : ordered_key kt = true -> canon k kt no_tags -> hashable k = true.
Proof. destruct kt; try done; by destruct k. Qed.

Lemma ordered_unshared kt : ordered_key kt = true -> unshared kt = true.
Proof. by destruct kt. Qed.

Lemma unshared_no_tail t ts : tail ts = false -> is_tail t ts = false.
Proof. intros H. destruct t; cbn; [..|done]; try done. by rewrite H. Qed.

Lemma decode_value_ok v t old b : rt_ok v -> canon v t no_tags -> okold t old ->
  enc_val v t no_tags = Ok b -> genTypeInfo_err t = None -> zlen b < maxAlloc - 9 ->
  decode_bytes t (makeDecoder t no_tags) b old = Ok v.
Proof.
  intros H Hc Ho E Ht Hm. specialize (H t no_tags old b Hc Ho E Hm).
  rewrite unshared_no_tail in H by done. destruct H as [_ H].
  apply decode_bytes_ok; [done|unfold maxAlloc in Hm; lia|done].
Qed.

Lemma map_loop_ok kt et kvs bss n : ordered_key kt = true -> unshared et = true -> n < maxAlloc - 9 ->
  Forall2 (fun kv c => enc_pair enc_top kt et kv = Ok c) kvs bss ->
  Forall (fun kv => rt_ok kv.1 /\ rt_ok kv.2) kvs ->
  Forall (fun kv => canon kv.1 kt no_tags /\ canon kv.2 et no_tags) kvs ->
  Forall (fun c => zlen c <= n) bss -> StronglySorted before kvs ->
  forall key value m, okold kt key -> okold et value ->
  Forall (fun x => Forall (fun y => before x y) kvs) m ->
  map_loop (decode_bytes kt (makeDecoder kt no_tags)) (decode_bytes et (makeDecoder et no_tags))
    kt et (VBytes <$> bss) (HV key) (HV value) (plain_entry <$> m) [] = Ok (plain_entry <$> (m ++ kvs), []).
Proof.
  intros Hk Hu Hn H. induction H as [|kv c kvs bss Ec H IH]; intros Hrt Hc Hl Hs key value m Ok1 Ok2 Hm.
  { by rewrite app_nil_r. }
  apply Forall_cons in Hrt as [[Rk Rv] Hrt], Hc as [[Ck Cv] Hc], Hl as [Lc Hl].
  apply StronglySorted_inv in Hs as [Hs Hkv].
  destruct (enc_pair_inv kt et kv c Ck Cv Ec) as (kb & vb & Ek & Tk & Ev & Tv & -> & Lk & Lv).
  rewrite fmap_cons. cbn [map_loop as_bytes]. rewrite decode_bytes_list_ok; [| |lia].
  2:{ constructor; [eapply enc_val_bytes_ok; [exact Ck|exact Ek|lia]|].
      constructor; [eapply enc_val_bytes_ok; [exact Cv|exact Ev|lia]|constructor]. }
  change (VBytes <$> [kb; vb]) with [VBytes kb; VBytes vb]. cbn [as_bytes]. rewrite view_HV.
  rewrite (decode_value_ok kv.1 kt key kb), assign_unshared by (done || lia || by apply ordered_unshared). rewrite view_HV.
  rewrite (decode_value_ok kv.2 et _ vb), assign_unshared by (done || lia || (by destruct et)).
  rewrite (ordered_hashable kt) by done.
  rewrite SetMapIndex_new.
  - rewrite IH; [by rewrite <- (assoc app)|done..|by eapply canon_okold|by eapply canon_okold|].
    apply Forall_app. split.
    + eapply Forall_impl; [exact Hm|]. intros x Hx. by apply Forall_cons in Hx as [_ ?].
    + constructor; [exact Hkv|constructor].
  - eapply Forall_impl; [exact Hm|]. intros x Hx. by apply Forall_cons in Hx as [? _].
Qed.

Lemma decodeMap_ok kt et kvs b old : ordered_key kt = true -> unshared et = true ->
  StronglySorted before kvs -> Forall (fun kv => rt_ok kv.1 /\ rt_ok kv.2) kvs ->
  Forall (fun kv => canon kv.1 kt no_tags /\ canon kv.2 et no_tags) kvs ->
  enc_map enc_top kt et kvs = Ok b -> zlen b < maxAlloc - 9 ->
  item b /\ sreads (fun s => decodeMap kt et (makeDecoder kt no_tags) (makeDecoder et no_tags) s old) b (VMap kvs).
Proof.
  intros Hk Hu Hs Hrt Hc E Hm. destruct (enc_map_inv _ _ _ _ _ Hs E) as (bss & H & ->).
  pose proof (enc_string_len (enc_list (concat (enc_string <$> bss)))) as L1.
  pose proof (enc_list_len (concat (enc_string <$> bss))) as L2. pose proof (concat_le bss) as L.
  assert (Hb : Forall bytes_ok bss).
  { eapply (pairs_bytes_ok kt et kvs); [|done|done|exact L|lia].
    apply Forall_true. intros kv. split; apply enc_val_bytes_ok. }
  assert (Hi : bytes_ok (enc_list (concat (enc_string <$> bss)))).
  { unfold maxAlloc in *. apply enc_list_bytes_ok; [|lia]. apply concat_bytes_ok; [done|lia]. }
  split; [by apply item_string|].
  assert (Hn : zlen (concat (enc_string <$> bss)) < maxAlloc - 9) by lia.
  pose proof (map_loop_ok kt et kvs bss (zlen (concat (enc_string <$> bss))) Hk Hu Hn H Hrt Hc L Hs
              (zero kt) (zero et) [] (zero_okold kt) (zero_okold et) ltac:(constructor)) as Ef.
  eapply (sreads_then (fun s => wrapped (TMap kt et) (Stream_Bytes s)));
    [|by apply Stream_Bytes_wrapped].
  rewrite decode_bytes_list_ok by (done || lia). cbn [fmap list_fmap] in Ef. rewrite Ef. cbn [res_map_err app]. do 2 f_equal.
  unfold map_view. rewrite <- list_fmap_compose. f_equal. rewrite <- (list_fmap_id kvs) at 2. apply list_fmap_ext.
  intros _ [k v] _. cbn. by rewrite !view_HV.
Qed.

(** ** All values *)

Lemma elems_rt vs e : Forall rt_ok vs -> allP (fun x => canon x e no_tags) vs ->
  Forall (elem_ok (makeDecoder e no_tags) (okold e) (fun x => enc_val x e no_tags)) vs.
Proof.
  intros H Hc. apply allP_Forall in Hc.
  eapply Forall_impl; [apply Forall_and; split; [exact H|exact Hc]|].
  intros x [Hx Hcx] old b Ho E Hm. specialize (Hx e no_tags old b Hcx Ho E Hm).
  by rewrite unshared_no_tail in Hx.
Qed.

Lemma eol_rt e : eol_type e = true -> eol_ok (makeDecoder e no_tags) (okold e).
Proof. intros He old s inp rem tos stk. by apply decoder_EOL. Qed.

(** One lemma per kind of value. *)

Lemma rt_uint bits z old : width_ok bits -> in_uN bits z ->
  item (enc_nat z) /\ sreads (fun s => decodeUint bits s old) (enc_nat z) (VUint z).
Proof.
  intros Hw Hi. split; [unfold enc_nat; auto|].
  eapply (sreads_then (fun s => wrapped (TUint bits) (uint bits s)) (fun i => Ok (VUint (uN bits i))) _ z).
  - by rewrite uN_id.
  - by apply sreads_wrapped, uint_ok.
Qed.

Lemma rt_int bits z old : width_ok bits -> in_sN bits z ->
  item (enc_nat (uN bits z)) /\ sreads (fun s => decodeInt bits s old) (enc_nat (uN bits z)) (VInt z).
Proof.
  intros Hw Hi. assert (1 <= bits) by (unfold width_ok in Hw; lia). split; [unfold enc_nat; auto|].
  eapply (sreads_then (fun s => wrapped (TInt bits) (uint bits s)) (fun i => Ok (VInt (sN bits i))) _ (uN bits z)).
  - by rewrite sN_uN.
  - apply sreads_wrapped, uint_ok; [done|]. apply uN_range. lia.
Qed.

Lemma rt_bool (z : bool) old : let b := [if z then 0x01 else 0x80] in
  item b /\ sreads (fun s => decodeBool s old) b (VBool z).
Proof.
  split.
  - left. destruct z; [exists [1]|exists []]; repeat constructor; unfold byte_ok; lia.
  - apply (sreads_then (fun s => wrapped TBool (Stream_Bool s)) (fun x => Ok (VBool x)) _ z); [done|].
    apply sreads_wrapped, Stream_Bool_ok.
Qed.

Lemma rt_struct name fs vs olds p : Forall rt_ok vs -> canon_fields canon name (length fs) O fs vs ->
  okold_fields okold name (length fs) O fs olds -> enc_fields enc_val name (length fs) O fs vs = Ok p ->
  zlen (enc_list p) < maxAlloc - 9 ->
  sreads (fun s => makeStructDecoder makeDecoder name fs s (VList olds)) (enc_list p) (VList vs).
Proof.
  intros IH Hc Ho E Hm. pose proof (enc_list_len p).
  eapply sreads_ext; [|eapply (sreads_then _ (fun vs => Ok (VList vs))); [done|]].
  2:{ apply (sreads_list (TStruct name fs)
        (decode_fields makeDecoder (TStruct name fs) name (length fs) O fs olds)).
      apply decode_fields_ok; [done..|lia]. }
  intros s. unfold makeStructDecoder. destruct (wrapped _ (List_ s)) as [[x| | |] s1]; try done.
  destruct (decode_fields _ _ _ _ _ _ _ _) as [[y| | |] s2]; try done.
  by destruct (wrapped _ _) as [[w| | |] s3].
Qed.

Lemma rt_ptr e ts old x b : canon x e no_tags -> okold (TPtr e) old -> rt_ok x ->
  (nilOK ts = true -> enc_val x e no_tags <> Ok [0x80] /\ enc_val x e no_tags <> Ok [0xC0]) ->
  enc_val x e no_tags = Ok b -> zlen b < maxAlloc - 9 ->
  item b /\ sreads (fun s => (if nilOK ts then makeOptionalPtrDecoder (makeDecoder e no_tags) (zero e)
                             else makePtrDecoder (makeDecoder e no_tags) (zero e)) s old) b (VPtr (Some x)).
Proof.
  intros Hc Ho Hx Hn E Hm.
  assert (exists o, ptr_target (zero e) old = Some o /\ okold e o) as (o & Ht & Hoo).
  { destruct Ho as [-> |(o & -> & ?)]; [exists (zero e); split; [done|apply zero_okold]|by exists o]. }
  specialize (Hx e no_tags o b Hc Hoo E Hm). rewrite unshared_no_tail in Hx by done.
  destruct Hx as [Hi Hs]. split; [done|]. destruct (nilOK ts).
  - destruct (Hn eq_refl). apply (makeOptionalPtrDecoder_some _ _ o); try done; [congruence..|lia].
  - by apply (makePtrDecoder_ok _ _ o).
Qed.

Lemma rt_number n old : okold TNumber old -> V n <> None -> zlen (enc_string (Bytes n)) < maxAlloc - 9 ->
  sreads (fun s => decodeNumber s old) (enc_string (Bytes n)) (VNum n).
Proof.
  intros Ho Hn Hm s inp rem stk Hp Hf Hr. unfold decodeNumber.
  destruct (decodeNumberPtr_ok (VPtr (Some old)) n ltac:(right; eauto) Hn Hm s inp rem stk Hp Hf Hr)
    as (s' & E & R). exists s'. by rewrite E.
Qed.

Lemma rt_bigint z old : okold TBigInt old -> 0 <= z -> zlen (enc_nat z) < maxAlloc - 9 ->
  sreads (fun s => decodeBigIntNoPtr s old) (enc_nat z) (VBig z).
Proof.
  intros Ho Hn Hm s inp rem stk Hp Hf Hr. unfold decodeBigIntNoPtr.
  destruct (decodeBigInt_ok (VPtr (Some old)) z ltac:(right; eauto) Hn Hm s inp rem stk Hp Hf Hr)
    as (s' & E & R). exists s'. by rewrite E.
Qed.

(** The fuel [decodeInterface] gives itself covers the payload, looked at or not. *)
Lemma rt_interface t' v old b : canon (VIface (Some (t', v))) (TInterface 0) no_tags ->
  enc_val (VIface (Some (t', v))) (TInterface 0) no_tags = Ok b -> zlen b < maxAlloc - 9 ->
  item b /\ sreads (fun s => decodeInterface 0 s old) b (VIface (Some (t', v))).
Proof.
  intros Hc E Hm. destruct (iface_all (VIface (Some (t', v)))) as [H _].
  destruct (H b (S (S (length b))) Hc E Hm ltac:(lia)) as [Hi _].
  { intros p ->. pose proof (enc_list_len p). unfold zlen in *. lia. }
  split; [done|]. intros s inp rem stk Hp Hf Hr. unfold decodeInterface. cbn [Nat.eqb].
  apply (H b (loop_fuel s) Hc E Hm); try done; [unfold loop_fuel; lia|].
  intros p ->. assert (zlen p <= zlen (s_in s)) as L; [|unfold loop_fuel, zlen in *; lia].
  pose proof (enc_list_len p). unfold enc_list in *.
  destruct Hp as (s0 & Hs0 & [-> |[kn Ek]]).
  - destruct Hs0 as (_ & Hin & _). rewrite Hin, !zlen_app. zl.
  - rewrite <- (assoc app), zlen_app, <- (assoc Z.add) in Hs0. rewrite zlen_app in Hf, Hr.
    destruct (Kind_header KList (zlen p) s0 (p ++ inp) rem stk) as (s1 & E1 & _ & Ha); try done; [zl|].
    rewrite E1 in Ek. injection Ek as <- <-. destruct Ha as (Hin & _). rewrite Hin, zlen_app. zl.
Qed.

Lemma rt_all v : rt_ok v.
Proof.
  induction v as [z|z|z|s|b0|vs IH| |v IH|kvs IH| |t' v IH|z|n] using goval_ind';
    intros t ts old b Hc Ho E Hm; destruct t as [| | | |e|n' e|nm fs|e|kt et|m| | | |]; try done;
    cbn [canon enc_val okold is_tail makeDecoder] in *; try (exfalso; by destruct e).
  - destruct Hc. injection E as <-. by apply rt_uint.
  - destruct Hc. injection E as <-. by apply rt_int.
  - injection E as <-. apply rt_bool.
  - injection E as <-. split; [auto|].
    by apply (sreads_then (fun s => wrapped TString (Stream_Bytes s)) (fun x => Ok (VStr x)) _ s),
      Stream_Bytes_wrapped.
  - destruct Hc as [Hi Hb]. rewrite Hi in *. injection E as <-. rewrite andb_false_r.
    split; [auto|]. by apply decodeByteSlice_ok.
  - destruct Hc as (Hi & Hl & Hb & H0). rewrite Hi in *. injection E as <-. split; [auto|].
    destruct Ho as (b & -> & Hl'). apply decodeByteArray_ok; [done|done|lia].
  - destruct Hc as [Hc _]. injection E as <-. split; [done|].
    by apply (sreads_then Raw (fun x => Ok (VBytes x)) _ b0), Raw_ok.
  - destruct Hc as (Hi & He & Hc). rewrite Hi in *. destruct Ho as (olds & -> & Ho).
    destruct (enc_elems _ vs) as [p| | |] eqn:Ep; try done. injection E as <-.
    pose proof (zero_okold e). pose proof (elems_rt vs e IH Hc). pose proof (eol_rt e He).
    unfold makeListDecoder. destruct (tail ts); cbn [andb negb].
    + by eapply decodeSliceElems_ok.
    + split; [auto|]. by eapply decodeListSlice_ok.
  - destruct Hc as (Hi & Hl & Ht & Hc). rewrite Hi, Ht in *. destruct Ho as (olds & -> & Hl' & Ho).
    destruct (enc_elems _ vs) as [p| | |] eqn:Ep; try done. injection E as <-.
    pose proof (elems_rt vs e IH Hc). split; [auto|]. eapply decodeListArray_ok; [done..|lia|done].
  - destruct (enc_fields _ _ _ _ _ _) as [p| | |] eqn:Ep; try done. injection E as <-.
    destruct Ho as (olds & -> & Ho). split; [auto|]. by apply rt_struct.
  - assert (D : nilOK ts = true /\ (b = [0x80] \/ b = [0xC0])).
    { destruct e; try done; (destruct (genTypeInfo_err _) in E; [done|]); by injection E as <-. }
    destruct D as [Hn Hb]. rewrite Hn.
    assert (item b) by (destruct Hb as [-> | ->]; [apply (item_string []); constructor|apply (item_list [])]).
    destruct e; try done; (split; [done|]); by apply makeOptionalPtrDecoder_nil.
  - destruct e; try (destruct Hc as [Hc Hn]; by apply rt_ptr).
    + destruct v; try done. destruct (Z.ltb_spec z 0); [done|]. injection E as <-.
      split; [unfold enc_nat; auto|]. by apply decodeBigInt_ok.
    + destruct v; try done. injection E as <-. split; [auto|]. by apply decodeNumberPtr_ok.
  - destruct Hc as (Hk & Hu & Hs & Hc). apply allP_Forall in Hc. by apply decodeMap_ok.
  - destruct Hc as (-> & Hc). by apply rt_interface.
  - destruct (Z.ltb_spec z 0); [done|]. injection E as <-. split; [unfold enc_nat; auto|]. by apply rt_bigint.
  - injection E as <-. split; [auto|]. by apply rt_number.
Qed.

(** ** Theorem *)

(** C1: Round trip.  A well-typed canonical value whose encoding exists and is
    below the allocation limit is encoded by [EncodeToBytes] to bytes from which
    [DecodeBytes] restores the value, whatever target of the type it decodes
    into. *)
Theorem DecodeBytes_EncodeToBytes (v : goval) (t : gotype) (old : goval) (b : list Z) :
  wt v t -> canon v t no_tags -> okold t old -> enc_bytes v t = Ok b -> zlen b < maxAlloc - 9 ->
  EncodeToBytes v t = Ok b /\ DecodeBytes b t old = Ok v.
Proof.
  intros Hw Hc Ho E Hm. unfold enc_bytes in E. split.
  - unfold EncodeToBytes, encode. destruct (cachedTypeInfo t); try done.
    apply writes_toBytes, makeWriter_writes; [done..|]. unfold maxAlloc in Hm. lia.
  - unfold cachedTypeInfo in E. destruct (genTypeInfo_err t) eqn:Et; [done|].
    apply decode_value_ok; [apply rt_all|done..].
Qed.

Lemma DecodeBytes_EncodeToBytes_witness :
  EncodeToBytes sample_v sample_t = Ok sample_b /\ DecodeBytes sample_b sample_t (zero sample_t) = Ok sample_v.
Proof.
  apply (DecodeBytes_EncodeToBytes sample_v sample_t (zero sample_t) sample_b).
  - apply sample_wt.
  - cbn. unfold width_ok, in_uN, in_sN.
    repeat split; try lia; try done; repeat constructor; unfold byte_ok; lia || done.
  - apply zero_okold.
  - vm_compute. reflexivity.
  - vm_compute. reflexivity.
Defined.
