(* ===== verification/RlpSafety.v ===== *)
(** * RLP: decoding arbitrary input neither panics nor loops

    For every input below the allocation limit and every type in [safe_t], the
    decoders return a value or an error.  The exclusions are the cases the code
    does not handle: [[1]byte] and map keys that hold interfaces,
    whose decoded values cannot be hashed.  The last part shows them, and where
    decoding does not give the value back. *)
From S2P Require Import Prelude GoStrings BigNum RlpTypes RlpEncode RlpEncodeSpec RlpStream RlpStreamSpec RlpStreamInv RlpShare RlpDecode RlpRoundTrip.
(** Key types whose decoded values can be hashed. *)
Fixpoint hash_t (t : gotype) : bool :=
  match t with
  | TSlice _ | TMap _ _ | TInterface _ | TUnsupported _ => false
  | TArray _ e => isByte e || hash_t e
  | TStruct _ fs => forallb (fun '(_, ft) => hash_t ft) fs
  | _ => true
  end.

Fixpoint safe_t (t : gotype) : Prop :=
  match t with
  | TUint b | TInt b => width_ok b
  | TSlice e => isByte e = true \/ safe_t e
  | TArray n e => if isByte e then n <> 1%nat else safe_t e
  | TStruct _ fs =>
      (fix go (fs : list (field * gotype)) : Prop :=
         match fs with [] => True | (_, ft) :: fs' => safe_t ft /\ go fs' end) fs
  | TPtr e => safe_t e
  | TMap k e => hash_t k = true /\ safe_t k /\ safe_t e
  | _ => True
  end.

(** What a decoder returns: a value that can be a target again, and a key. *)
Definition post (t : gotype) (v : goval) : Prop := okold t v /\ (hash_t t = true -> hashable v = true).

(** A decoder that is safe from targets [O], with results in [P]. *)
Definition dec_safe (D : decoder) (O P : goval -> Prop) : Prop := forall s old,
  sinv s -> O old -> safe s (fun v s' => P v /\ finished s s') (D s old).

(** The same for struct fields, which may take nothing (a [tail] slice). *)
Definition dec_weak (D : decoder) (O P : goval -> Prop) : Prop := forall s old,
  sinv s -> O old -> safe s (fun v s' => P v /\ (length (s_in s') <= length (s_in s))%nat) (D s old).

Lemma dec_safe_weak D O P : dec_safe D O P -> dec_weak D O P.
Proof.
  intros H s old Hs Ho. eapply safe_weaken; [by apply H|done|done|].
  intros v s' (Hp & _ & Hu & _). done.
Qed.

(** ** Lifting the stream's lemmas *)

Lemma plain_wrap e t : plain e = true -> plain (wrapStreamError e t) = true.
Proof. by destruct e. Qed.

Lemma plain_context e c : plain e = true -> plain (addErrorContext e c) = true.
Proof. by destruct e. Qed.

Lemma safe_err {A} s (Q : A -> Stream -> Prop) e s' : plain e = true -> safe s Q (Err e, s').
Proof. by destruct e. Qed.

Lemma safe_wrapped {A} s (Q : A -> Stream -> Prop) typ x : safe s Q x -> safe s Q (wrapped typ x).
Proof. destruct x as [[a|[]| |] s1]; cbn; done. Qed.

Lemma sound_wrapped {A} (Q : A -> Stream -> Prop) typ x : sound Q x -> sound Q (wrapped typ x).
Proof. destruct x as [[a|e| |] s1]; cbn; try done. apply plain_wrap. Qed.

Lemma safe_then {A B} s (Q : A -> Stream -> Prop) (P : B -> Prop) (f : A -> B) x :
  safe s (fun a s' => Q a s' /\ finished s s') x -> (forall a s', Q a s' -> P (f a)) ->
  safe s (fun b s' => P b /\ finished s s') (do a, s1 <- x; (Ok (f a), s1)).
Proof.
  intros H HP. eapply safe_bind; [exact H|]. intros a s1 Hs1 [Ha Hf]. split; [done|]. eauto.
Qed.

Lemma safe_True {A} s x : safe s (fun (_ : A) s' => finished s s') x ->
  safe s (fun _ s' => True /\ finished s s') x.
Proof. intros H. eapply safe_weaken; [exact H|done|done|]. done. Qed.

Lemma decodeUint_safe b : width_ok b -> dec_safe (decodeUint b) (fun _ => True) (post (TUint b)).
Proof.
  intros Hw s old Hs _. eapply safe_then; [by apply safe_True, safe_wrapped, uint_safe|]. done.
Qed.

Lemma decodeInt_safe b : width_ok b -> dec_safe (decodeInt b) (fun _ => True) (post (TInt b)).
Proof.
  intros Hw s old Hs _. eapply safe_then; [by apply safe_True, safe_wrapped, uint_safe|]. done.
Qed.

Lemma decodeBool_safe : dec_safe decodeBool (fun _ => True) (post TBool).
Proof.
  intros s old Hs _. eapply safe_then; [by apply safe_True, safe_wrapped, Stream_Bool_safe|]. done.
Qed.

Lemma decodeString_safe : dec_safe decodeString (fun _ => True) (post TString).
Proof. intros s old Hs _. eapply safe_then; [by apply safe_wrapped, Stream_Bytes_safe|]. done. Qed.

Lemma decodeRawValue_safe : dec_safe decodeRawValue (fun _ => True) (post TRawValue).
Proof. intros s old Hs _. eapply safe_then; [by apply safe_True, Raw_safe|]. done. Qed.

Lemma decodeByteSlice_safe typ : dec_safe (decodeByteSlice typ) (fun _ => True)
  (fun v => exists b, v = VBytes b /\ bytes_ok b /\ zlen b < max_input).
Proof.
  intros s old Hs _. eapply safe_then; [by apply safe_wrapped, Stream_Bytes_safe|].
  intros b _ [? ?]. by exists b.
Qed.

Lemma decodeNumberPtr_safe : dec_safe decodeNumberPtr (okold (TPtr TNumber))
  (fun v => exists n, v = VPtr (Some (VNum n))).
Proof.
  intros s old Hs Ho. unfold decodeNumberPtr.
  eapply safe_bind; [by apply safe_wrapped, Stream_Bytes_safe|]. intros b s1 Hs1 [_ Hf]. cbn in Ho.
  destruct Ho as [-> |(x & -> & n & ->)]; (split; [done|]); eauto.
Qed.

Lemma decodeNumber_safe : dec_safe decodeNumber (okold TNumber) (post TNumber).
Proof.
  intros s old Hs Ho. unfold decodeNumber.
  eapply safe_bind; [apply decodeNumberPtr_safe; [done|by right; exists old]|].
  intros v s1 Hs1 [[n ->] Hf]. split; [done|]. split; [|done]. split; [by exists n|done].
Qed.

Lemma decodeBigInt_safe : dec_safe decodeBigInt (okold (TPtr TBigInt))
  (fun v => exists z, v = VPtr (Some (VBig z))).
Proof.
  intros s old Hs Ho. unfold decodeBigInt.
  eapply safe_bind; [by apply safe_wrapped, Stream_Bytes_safe|]. intros b s1 Hs1 [_ Hf]. cbn in Ho.
  destruct Ho as [-> |(x & -> & n & ->)]; destruct b as [|[] b]; try done; (split; [done|]); eauto.
Qed.

Lemma decodeBigIntNoPtr_safe : dec_safe decodeBigIntNoPtr (okold TBigInt) (post TBigInt).
Proof.
  intros s old Hs Ho. unfold decodeBigIntNoPtr.
  eapply safe_bind; [apply decodeBigInt_safe; [done|by right; exists old]|].
  intros v s1 Hs1 [[n ->] Hf]. split; [done|]. split; [|done]. split; [by exists n|done].
Qed.

Lemma decodeByteArray_safe n e typ : isByte e = true -> n <> 1%nat ->
  dec_safe (decodeByteArray typ) (okold (TArray n e)) (post (TArray n e)).
Proof.
  intros He Hn s old Hs Ho. unfold post in *. cbn [okold hash_t] in *. rewrite He in *.
  destruct Ho as (b0 & -> & Hl). unfold decodeByteArray.
  apply (safe_bind s (kinded s) _ _ _ (Kind_safe s Hs)). intros [k m] s1 Hs1 (Ha & Hm & Hst & Hu). cbn [fst snd] in *.
  destruct k; [| |done].
  - destruct (Z.eqb_spec (zlen b0) 0); [done|]. destruct (Z.ltb_spec 1 (zlen b0)); [done|].
    unfold zlen in *. lia.
  - destruct (_ <? m); [done|]. destruct (m <? _); [done|].
    eapply (safe_bind s (fun b s' => zlen b = zlen b0 /\ finished s s')).
    + eapply sure_safe; [apply (readFull_sure (zlen b0) s1 (proj1 Hs1)); zl|].
      intros b s2 Hk (_ & Hb & Hi). split; [done|]. split; [done|]. eapply used_trans; [exact Hu|].
      rewrite Hi, length_app. lia.
    + intros b s2 Hs2 [Hb Hf].
      assert (P : (exists b1, VBytes b = VBytes b1 /\ length b1 = n) /\ (true || hash_t e = true -> hashable (VBytes b) = true)).
      { split; [|done]. exists b. split; [done|]. unfold zlen in Hb. lia. }
      destruct b as [|x [|y b]]; try (split; done). casem; [done|]. split; done.
Qed.

(** ** Lists *)

Lemma slice_elems_sound D z (O P : goval -> Prop) L : O z ->
  (forall s old, sinv s -> s_kind s = None -> (length (s_in s) <= L)%nat -> O old ->
     safe s (fun v s' => P v /\ finished s s') (D s old)) ->
  forall fuel i olds s, sinv s -> s_kind s = None -> (length (s_in s) <= L)%nat -> Forall O olds ->
  (length (s_in s) < fuel)%nat ->
  sound (fun vs s' => Forall P vs /\ s_kind s' = None /\ (length (s_in s') <= length (s_in s))%nat)
    (slice_elems D z fuel i olds s).
Proof.
  intros Oz HD. induction fuel as [|f IH]; intros i olds s Hs Hk HL Ho Hf; [lia|]. cbn [slice_elems].
  assert (Oo : O (match olds with o :: _ => o | [] => z end)) by by destruct Ho.
  assert (Ot : Forall O (match olds with _ :: l => l | [] => [] end)) by by destruct Ho.
  specialize (HD s _ Hs Hk HL Oo). destruct (D s _) as [[v|e| |] s1]; cbn in HD; try done.
  - destruct HD as (Hs1 & Hv & Hk1 & Hu1 & Hu2). specialize (Hu2 Hk).
    specialize (IH (i + 1) _ s1 Hs1 Hk1 ltac:(lia) Ot ltac:(lia)).
    eapply sound_bind; [exact IH|].
    intros vs s2 Hs2 (Hvs & Hk2 & Hl2). split; [done|]. split; [by constructor|]. split; [done|lia].
  - destruct e; try done. destruct HD as (? & ? & ? & ?). split; [done|]. split; [constructor|done].
Qed.

Lemma decodeSliceElems_sound D z (O P : goval -> Prop) s old L : O z ->
  (forall s old, sinv s -> s_kind s = None -> (length (s_in s) <= L)%nat -> O old ->
     safe s (fun v s' => P v /\ finished s s') (D s old)) ->
  sinv s -> s_kind s = None -> (length (s_in s) <= L)%nat ->
  (exists olds, old = VList olds /\ Forall O olds) ->
  sound (fun v s' => (exists vs, v = VList vs /\ Forall P vs) /\ s_kind s' = None /\
                     (length (s_in s') <= length (s_in s))%nat) (decodeSliceElems D z s old).
Proof.
  intros Oz HD Hs Hk HL (olds & -> & Ho). unfold decodeSliceElems.
  eapply sound_bind; [eapply slice_elems_sound; [exact Oz|exact HD|done|done|done|done|unfold loop_fuel; lia]|].
  intros vs s1 Hs1 (Hv & Hk1 & Hl). split; [done|]. eauto.
Qed.

(** The same from a stream whose next kind may have been read. *)
Lemma decodeSliceElems_any D z (O P : goval -> Prop) s old : O z -> dec_safe D O P -> sinv s ->
  (exists olds, old = VList olds /\ Forall O olds) ->
  sound (fun v s' => (exists vs, v = VList vs /\ Forall P vs) /\ (length (s_in s') <= length (s_in s))%nat)
    (decodeSliceElems D z s old).
Proof.
  intros Oz HD Hs (olds & -> & Ho). unfold decodeSliceElems, loop_fuel.
  eapply (sound_bind (fun vs s' => Forall P vs /\ (length (s_in s') <= length (s_in s))%nat));
    [|intros vs s1 Hs1 [Hv Hl]; split; eauto].
  remember (S (length (s_in s))) as f eqn:Ef. cbn [slice_elems].
  assert (Oo : O (match olds with o :: _ => o | [] => z end)) by by destruct Ho.
  assert (Ot : Forall O (match olds with _ :: l => l | [] => [] end)) by by destruct Ho.
  pose proof (HD s _ Hs Oo) as H1. destruct (D s _) as [[v|e| |] s1]; cbn in H1; try done.
  - destruct H1 as (Hs1 & Hv & Hk1 & Hu1 & _).
    eapply sound_bind; [apply (slice_elems_sound D z O P (length (s_in s1))); try done; [intros; by apply HD|lia]|].
    intros vs s2 Hs2 (Hvs & Hk2 & Hl2). split; [done|]. split; [by constructor|lia].
  - destruct e; try done. destruct H1 as (? & ? & ? & ?). split; [done|]. split; [constructor|done].
Qed.

Lemma decodeListSlice_safe typ D z (O P : goval -> Prop) s old L : O z ->
  (forall s old, sinv s -> s_kind s = None -> (length (s_in s) <= L)%nat -> O old ->
     safe s (fun v s' => P v /\ finished s s') (D s old)) ->
  sinv s -> (length (s_in s) <= L)%nat \/ (s_kind s = None /\ (length (s_in s) <= S L)%nat) ->
  (exists olds, old = VList olds /\ Forall O olds) ->
  safe s (fun v s' => (exists vs, v = VList vs /\ Forall P vs) /\ finished s s')
    (decodeListSlice typ D z s old).
Proof.
  intros Oz HD Hs HL Ho. unfold decodeListSlice.
  eapply safe_bind; [by apply safe_wrapped, List_safe|]. intros n s1 Hs1 [[Hk1 Hu1] _].
  assert (HL1 : (length (s_in s1) <= L)%nat).
  { destruct Hu1 as [Hu1 Hu2]. destruct HL as [HL|[Hk HL]]; [|specialize (Hu2 Hk)]; lia. }
  assert (Fin : forall v s2, sinv s2 -> (length (s_in s2) <= length (s_in s1))%nat ->
    (exists vs, v = VList vs /\ Forall P vs) ->
    sound (fun v s' => (exists vs, v = VList vs /\ Forall P vs) /\ finished s s')
      (do _, s3 <- ListEnd s2; (Ok v, s3))).
  { intros v s2 Hs2 Hl2 Hv. eapply sound_bind; [by apply ListEnd_sound|].
    intros u s3 Hs3 [Hk3 Hi3]. split; [done|]. split; [done|]. split; [done|].
    eapply used_trans; [exact Hu1|]. rewrite Hi3. lia. }
  apply sound_safe. destruct (n =? 0); [apply (Fin (VList []) s1); [done|done|by exists []]|].
  eapply sound_bind.
  - eapply decodeSliceElems_sound; [exact Oz|exact HD|done|done|done|done].
  - intros v s2 Hs2 (Hv & Hk2 & Hl2). by apply Fin.
Qed.

Lemma array_elems_sound typ D (O P : goval -> Prop) : dec_safe D O P ->
  forall olds i s, sinv s -> Forall O olds ->
  sound (fun vs s' => (Forall P vs /\ length vs = length olds) /\ (length (s_in s') <= length (s_in s))%nat)
    (array_elems typ D i olds s).
Proof.
  intros HD. induction olds as [|o olds IH]; intros i s Hs Ho; cbn [array_elems]; [done|].
  apply Forall_cons in Ho as [Ho Hos]. specialize (HD s o Hs Ho).
  destruct (D s o) as [[v|e| |] s1]; cbn in HD; try done; [|by destruct e].
  destruct HD as (Hs1 & Hv & Hk1 & Hu1 & _).
  eapply sound_bind; [by apply (IH (i + 1) s1)|].
  intros vs s2 Hs2 [[Hvs Hl] Hl2]. split; [done|]. split; [|lia]. split; [by constructor|cbn; lia].
Qed.

(** A list opened, read and closed. *)
Lemma safe_list {A B} typ s (f : Stream -> sres A) (g : A -> B) (Q : A -> Prop) (P : B -> Prop) :
  sinv s -> (forall s1, sinv s1 -> sound (fun a s' => Q a /\ (length (s_in s') <= length (s_in s1))%nat) (f s1)) ->
  (forall a, Q a -> P (g a)) ->
  safe s (fun v s' => P v /\ finished s s')
    (do _, s1 <- wrapped typ (List_ s); do x, s2 <- f s1;
     do _, s3 <- wrapped typ (ListEnd s2); (Ok (g x), s3)).
Proof.
  intros Hs Hf Hg. eapply safe_bind; [by apply safe_wrapped, List_safe|]. intros n s1 Hs1 [[Hk1 Hu1] _].
  apply sound_safe. eapply sound_bind; [by apply Hf|]. intros a s2 Hs2 [Ha Hl2].
  eapply sound_bind; [by apply sound_wrapped, ListEnd_sound|].
  intros u s3 Hs3 [Hk3 Hi3]. split; [done|]. split; [by apply Hg|]. split; [done|].
  eapply used_trans; [exact Hu1|]. rewrite Hi3. lia.
Qed.

(** ** Interfaces *)

Lemma decodeInterface0_safe fuel : forall s, sinv s ->
  (s_kind s = None -> (length (s_in s) < fuel)%nat) -> (s_kind s <> None -> (length (s_in s) + 1 < fuel)%nat) ->
  safe s (fun v s' => True /\ finished s s') (decodeInterface0 fuel s).
Proof.
  induction fuel as [|f IH]; intros s Hs H1 H2.
  { destruct (s_kind s); [specialize (H2 ltac:(done))|specialize (H1 eq_refl)]; lia. }
  cbn [decodeInterface0].
  apply (safe_bind s (kinded s) _ _ _ (Kind_safe s Hs)). intros [k m] s1 Hs1 (Ha & Hm & Hst & Hu). cbn [fst snd] in *.
  assert (B : forall t, safe s (fun v s' => True /\ finished s s')
    (do b, s2 <- Stream_Bytes s1; (Ok (VIface (Some (t, VBytes b))), s2))).
  { intros t. eapply safe_bind; [eapply safe_weaken; [by apply Stream_Bytes_safe|apply Hu|done|intros ? ? Hq; exact Hq]|].
    intros b s2 Hs2 [_ [Hk2 Hu2]]. split; [done|]. split; [done|]. split; [done|].
    eapply used_trans; [exact Hu|apply Hu2]. }
  destruct k; [apply B|apply B|].
  assert (HL : (length (s_in s1) < f)%nat).
  { destruct Hu as [Hu1 Hu2]. destruct (s_kind s); [specialize (H2 ltac:(done))|specialize (H1 eq_refl); specialize (Hu2 eq_refl)]; lia. }
  eapply safe_bind.
  - eapply safe_weaken; [eapply (decodeListSlice_safe _ _ _ (fun _ => True) (fun _ => True) s1 _ (length (s_in s1)))| | |].
    + done.
    + intros s' old Hs' Hk' Hl' _. apply IH; [done| |by rewrite Hk']. intros _. lia.
    + done.
    + by left.
    + by exists [].
    + apply Hu.
    + done.
    + intros v s2 Hq. exact Hq.
  - intros v s2 Hs2 [_ [Hk2 Hu2]]. split; [done|]. split; [done|]. split; [done|].
    eapply used_trans; [exact Hu|apply Hu2].
Qed.

Lemma decodeInterface_safe m : dec_safe (decodeInterface m) (fun _ => True) (post (TInterface m)).
Proof.
  intros s old Hs _. unfold decodeInterface. destruct (m =? 0)%nat; [|done].
  eapply safe_weaken; [apply decodeInterface0_safe; [done|unfold loop_fuel; lia..]|done|done|].
  intros v s' [_ Hf]. by split.
Qed.

(** ** Structs and pointers *)

Lemma zero_hashable t : hash_t t = true -> hashable (zero t) = true.
Proof.
  induction t as [b|b| | |e IHe|m e IHe|nm fs IHfs|e IHe|k e IHk IHe|m| | | |nm] using gotype_ind'; try done.
  - cbn [hash_t zero]. destruct (isByte e); [done|]. cbn [orb]. intros H. cbn [hashable].
    specialize (IHe H). induction m as [|m IH]; [done|]. cbn. by rewrite IHe, IH.
  - rewrite zero_struct. cbn [hash_t hashable]. induction IHfs as [|[f ft] fs Hft Hfs IH]; cbn; [done|].
    cbn in Hft. intros [H1 H2]%andb_prop. by rewrite Hft, IH.
Qed.

Lemma decode_fields_sound typ name nf fs :
  Forall (fun x => forall ts, dec_weak (makeDecoder x.2 ts) (okold x.2) (post x.2)) fs ->
  forall fi olds s, okold_fields okold name nf fi fs olds -> sinv s ->
  sound (fun vs s' => (okold_fields okold name nf fi fs vs /\
                        (forallb (fun '(_, ft) => hash_t ft) fs = true -> forallb hashable vs = true)) /\
                       (length (s_in s') <= length (s_in s))%nat)
    (decode_fields makeDecoder typ name nf fi fs olds s).
Proof.
  induction 1 as [|[f ft] fs Hf H IH]; intros fi [|o olds] s Ho Hs; cbn [okold_fields decode_fields] in *; try done.
  destruct Ho as [Ho Hos]. cbn [snd] in Hf. destruct (fieldTags name nf fi f ft) as [ts|] eqn:Et.
  - assert (Ho' : okold ft (if is_map ft then VMap [] else o)) by by destruct ft.
    specialize (Hf ts s _ Hs Ho'). unfold decode_field.
    destruct (makeDecoder ft ts s _) as [[v|e| |] s1]; cbn in Hf; try done; [|by destruct e].
    destruct Hf as (Hs1 & [Hv Hh] & Hl1).
    eapply sound_bind; [by apply (IH (S fi) olds s1)|].
    intros vs s2 Hs2 [[Hvs Hhs] Hl2]. split; [done|]. split; [|lia]. split; [done|].
    cbn. intros [H1 H2]%andb_prop. by rewrite Hh, Hhs.
  - eapply sound_bind; [by apply (IH (S fi) olds s)|].
    intros vs s2 Hs2 [[Hvs Hhs] Hl2]. split; [done|]. split; [|lia]. split; [done|].
    cbn. intros [H1 H2]%andb_prop. subst o. by rewrite zero_hashable, Hhs.
Qed.

Lemma ptr_target_ok e old : okold (TPtr e) old -> exists x, ptr_target (zero e) old = Some x /\ okold e x.
Proof.
  intros [-> |(x & -> & Hx)]; [exists (zero e); split; [done|apply zero_okold]|by exists x].
Qed.

Lemma makePtrDecoder_safe e D : dec_safe D (okold e) (post e) ->
  dec_safe (makePtrDecoder D (zero e)) (okold (TPtr e)) (post (TPtr e)).
Proof.
  intros HD s old Hs Ho. unfold makePtrDecoder. destruct (ptr_target_ok e old Ho) as (x & -> & Hx).
  eapply safe_bind; [by apply HD|]. intros v s1 Hs1 [[Hv _] Hf]. split; [done|]. split; [|done].
  split; [right; by exists v|done].
Qed.

Lemma makeOptionalPtrDecoder_safe e D : dec_safe D (okold e) (post e) ->
  dec_safe (makeOptionalPtrDecoder D (zero e)) (okold (TPtr e)) (post (TPtr e)).
Proof.
  intros HD s old Hs Ho. unfold makeOptionalPtrDecoder. pose proof (Kind_safe s Hs) as HK.
  destruct (Stream_Kind s) as [[[k n]|err| |] s1]; cbn in HK; try done.
  - destruct HK as (Hs1 & Ha & Hn & Hst & Hu). destruct (_ && _).
    + split; [by apply sinv_rearm|]. split; [|done]. split; [by left|done].
    + pose proof (makePtrDecoder_safe e D HD s1 old Hs1 Ho) as HP.
      eapply safe_weaken; [exact HP|apply Hu|done|]. intros v s2 [Hv [Hk2 Hu2]]. split; [done|]. split; [done|].
      eapply used_trans; [exact Hu|apply Hu2].
  - destruct err; try done. destruct HK as (? & ? & ? & ?). cbn. split; [by apply sinv_rearm|]. done.
Qed.

(** ** Whole inputs and maps *)

(** A result without panic or endless loop. *)
Definition returns {A} (P : A -> Prop) (r : result A) : Prop :=
  match r with
  | Ok a => P a
  | Err e => plain e = true
  | Panic | NoFuel => False
  end.

Lemma sinv_NewStream b : bytes_ok b -> zlen b < max_input -> sinv (NewStream b true (zlen b)).
Proof.
  intros Hb Hm. apply sinv_none; [|unfold NewStream, Reset; by casem].
  pose proof (zlen_nonneg b). unfold NewStream, Reset. destruct (Z.ltb_spec 0 (zlen b)); constructor; done.
Qed.

Lemma decode_bytes_returns t D O P b old : dec_safe D O P -> O old -> bytes_ok b -> zlen b < max_input ->
  (forall e, genTypeInfo_err t = Some e -> plain e = true) -> returns P (decode_bytes t D b old).
Proof.
  intros HD Ho Hb Hm Ht. unfold decode_bytes, stream_decode.
  destruct (genTypeInfo_err t) as [e|]; [by apply Ht|].
  specialize (HD _ old (sinv_NewStream b Hb Hm) Ho).
  destruct (D _ old) as [[v|e| |] s1]; cbn in HD; try done.
  - cbn. casem; [done|]. apply HD.
  - destruct e; try done; [|by destruct ctx]. destruct HD as (_ & _ & _ & HD). exfalso. apply HD.
    unfold NewStream, Reset. by casem.
Qed.

Lemma parse_tag_parts_err parts nf fi tn fn ft ts e :
  parse_tag_parts parts nf fi tn fn ft ts = Err e -> plain e = true.
Proof.
  revert ts. induction parts as [|p parts IH]; cbn [parse_tag_parts]; intros ts E; [done|].
  repeat casem_in E; try (by eapply IH); injection E as <-; done.
Qed.

Lemma genTypeInfo_err_plain t e' : genTypeInfo_err t = Some e' -> plain e' = true.
Proof.
  induction t as [b|b| | |e IHe|m e IHe|nm fs IHfs|e IHe|k e IHk IHe|m| | | |nm] using gotype_ind'; try done.
  - cbn. by destruct (isByte e).
  - cbn. by destruct (isByte e).
  - cbn [genTypeInfo_err]. generalize O. generalize (length fs). intros nf.
    induction IHfs as [|[f ft] fs Hft Hfs IH]; intros fi; cbn [structFields_err]; [done|].
    destruct (f_exported f); [|apply IH]. destruct (parseStructTag nm nf fi f ft) as [ts|e| |] eqn:E; try done.
    + destruct (ignored ts); [apply IH|]. cbn in Hft.
      destruct (genTypeInfo_err ft) as [e|]; [intros [= ->]; by apply Hft|apply IH].
    + intros [= ->]. by apply parse_tag_parts_err in E.
  - cbn. by destruct e.
  - cbn. by intros [= <-].
Qed.

Definition small_bytes (v : goval) : Prop := exists b, v = VBytes b /\ bytes_ok b /\ zlen b < max_input.

Lemma decode_bytes_list_returns b : bytes_ok b -> zlen b < max_input ->
  returns (Forall small_bytes) (decode_bytes_list b).
Proof.
  intros Hb Hm. unfold decode_bytes_list.
  assert (R : returns (fun v => exists vs, v = VList vs /\ Forall small_bytes vs)
    (decode_bytes bytes_list_t
       (makeListDecoder bytes_list_t (decodeByteSlice (TSlice (TUint 8))) (VBytes []) no_tags) b (VList []))).
  { apply (decode_bytes_returns _ _ (fun v => v = VList [])); try done.
    intros s old Hs ->. eapply (decodeListSlice_safe _ _ _ (fun _ => True) small_bytes s _ (length (s_in s)));
      try done; [|by left|by exists []].
    intros s' old' Hs' _ _ _. by apply decodeByteSlice_safe. }
  destruct (decode_bytes _ _ _ _) as [v|e| |]; cbn in *; try done. by destruct R as (vs & -> & ?).
Qed.

(** ** The memory of map entries *)

(** [h] is a variable of type [t] in a heap whose arrays have elements of the types [G]. *)
Definition hty_fields (f : gotype -> hval -> Prop) (tname : list Z) (nf : nat) :=
  fix go (fi : nat) (fs : list (field * gotype)) (hs : list hval) {struct fs} : Prop :=
    match fs, hs with
    | [], [] => True
    | (fd, ft) :: fs', h :: hs' =>
        match fieldTags tname nf fi fd ft with None => h = HV (zero ft) | Some _ => f ft h end /\ go (S fi) fs' hs'
    | _, _ => False
    end.

Fixpoint hty (G : list gotype) (t : gotype) (h : hval) {struct t} : Prop :=
  match h with
  | HV v => okold t v
  | _ =>
      match t, h with
      | TPtr e, HPtr o => match o with Some l => G !! l = Some e | None => True end
      | TNumber, HPtr o => match o with Some l => G !! l = Some TBigInt | None => True end
      | TBigInt, HBig l _ => G !! l = Some TBool
      | TSlice e, HSlice l _ => isByte e = false /\ G !! l = Some e
      | TArray n e, HList hs => isByte e = false /\ length hs = n /\ Forall (hty G e) hs
      | TStruct name fs, HList hs => hty_fields (hty G) name (length fs) O fs hs
      | _, _ => False
      end
  end.

Lemma hty_HV G t v : hty G t (HV v) = okold t v.
Proof. by destruct t. Qed.

Lemma hty_zero G t : hty G t (HV (zero t)).
Proof. rewrite hty_HV. apply zero_okold. Qed.

Definition heap_ok (G : list gotype) (H : heap) : Prop :=
  length G = length H /\ forall l e, G !! l = Some e -> Forall (hty G e) (cells H l).

Lemma hty_fields_mono (f g : gotype -> hval -> Prop) tname nf : forall fs fi hs, Forall (fun x => forall h, f x.2 h -> g x.2 h) fs ->
  hty_fields f tname nf fi fs hs -> hty_fields g tname nf fi fs hs.
Proof.
  induction fs as [|[fd ft] fs IH]; intros fi [|h hs] HF; cbn; try done. apply Forall_cons in HF as [Hx HF].
  intros [H1 H2]. split; [|by apply IH]. destruct (fieldTags _ _ _ _ _); [by apply Hx|done].
Qed.

Lemma hty_mono G G' t : G `prefix_of` G' -> forall h, hty G t h -> hty G' t h.
Proof.
  intros [k ->]. assert (forall l e, G !! l = Some e -> (G ++ k) !! l = Some e) as HG by (intros; by apply lookup_app_l_Some).
  induction t as [b|b| | |e IHe|m e IHe|nm fs IHfs|e IHe|k' e IHk IHe|m| | | |nm] using gotype_ind';
    intros [v|hs|[l|]|l len|l len]; try done; cbn [hty]; auto.
  - intros [? ?]. auto.
  - intros (? & ? & HF). split_and!; [done..|]. by eapply Forall_impl.
  - by apply hty_fields_mono.
Qed.

Lemma heap_ok_mono_cells G G' H l e : G `prefix_of` G' -> heap_ok G H -> G !! l = Some e -> Forall (hty G' e) (cells H l).
Proof. intros Hp [_ HH] Hl. eapply Forall_impl; [by apply HH|]. intros. by eapply hty_mono. Qed.

Lemma heap_alloc G H e cs : heap_ok G H -> Forall (hty G e) cs ->
  let '(l, H') := alloc cs H in heap_ok (G ++ [e]) H' /\ (G ++ [e]) !! l = Some e /\ G `prefix_of` (G ++ [e]).
Proof.
  intros HH Hcs. pose proof HH as [Hl _]. unfold alloc. split_and!; [|by rewrite <- Hl, lookup_app_r, Nat.sub_diag by lia|by exists [e]].
  split; [rewrite !length_app; cbn; lia|]. intros l e' He'. unfold cells.
  assert (G `prefix_of` (G ++ [e])) as Hp by by exists [e].
  apply lookup_app_Some in He' as [He'|[Hge He']].
  - rewrite lookup_app_l by (apply lookup_lt_Some in He'; lia). by apply (heap_ok_mono_cells G).
  - apply list_lookup_singleton_Some in He' as [Hd <-]. rewrite lookup_app_r by lia. replace (l - length H)%nat with 0%nat by lia.
    cbn. eapply Forall_impl; [exact Hcs|]. intros. by eapply hty_mono.
Qed.

Lemma heap_alter G H l e f : heap_ok G H -> G !! l = Some e -> (forall cs, Forall (hty G e) cs -> Forall (hty G e) (f cs)) ->
  heap_ok G (alter f l H).
Proof.
  intros [Hl HH] He Hf. split; [by rewrite length_alter|]. intros l' e' He'. unfold cells. specialize (HH l' e' He'). unfold cells in HH.
  destruct (decide (l' = l)) as [->|Hne].
  - rewrite He in He'. injection He' as <-. rewrite list_lookup_alter, decide_True by done.
    destruct (H !! l); cbn in *; [by apply Hf|done].
  - by rewrite list_lookup_alter_ne.
Qed.

Lemma heap_write G H l i e h : heap_ok G H -> G !! l = Some e -> hty G e h -> heap_ok G (write l i h H).
Proof. intros HH He Hh. apply (heap_alter G H l e); [done..|]. intros cs Hcs. by apply Forall_insert. Qed.

(** What a decoder finds in a variable is a target of the type. *)
Lemma view_okold G H all : heap_ok G H -> forall t h, hty G t h -> okold t (view all H t h).
Proof.
  intros HH t. pose proof HH as [_ HC].
  induction t as [b|b| | |e IHe|m e IHe|nm fs IHfs|e IHe|k' e IHk IHe|m| | | |nm] using gotype_ind';
    intros [v|hs|[l|]|l len|l len]; try done; cbn [hty okold view]; intros Ht; eauto.
  - destruct Ht as [He Hl]. rewrite He. eexists. split; [done|]. apply Forall_fmap.
    assert (Forall (hty G e) (if all then cells H l else take len (cells H l))) as HF.
    { destruct all; [|apply Forall_take]; by apply HC. }
    eapply Forall_impl; [exact HF|]. by intros x Hx; apply IHe.
  - destruct Ht as (He & Hl & HF). rewrite He. eexists. split; [done|]. split; [by rewrite length_fmap|].
    apply Forall_fmap. eapply Forall_impl; [exact HF|]. by intros x Hx; apply IHe.
  - eexists. split; [done|]. cbn [parts]. revert Ht. generalize (length fs), O. revert hs.
    induction IHfs as [|[fd ft] fs Hft _ IH]; intros [|h hs] nf fi; cbn; try done. intros [H1 H2].
    split; [|by apply IH]. destruct (fieldTags _ _ _ _ _); [by apply Hft|]. rewrite H1. by rewrite view_HV.
  - destruct (cells H l) as [|c cs] eqn:Ec; [by left|]. right. eexists. split; [done|]. apply IHe.
    specialize (HC l e Ht). rewrite Ec in HC. by apply Forall_cons in HC as [].
  - destruct (cells H l); eauto.
Qed.

(** A step on a variable of type [t] keeps the heap well-typed, in types that extend the old ones. *)
Definition steps (G : list gotype) (t : gotype) (x : hval * heap) : Prop :=
  exists G', G `prefix_of` G' /\ hty G' t x.1 /\ heap_ok G' x.2.

Definition assigns (t : gotype) (asg : goval -> hval -> heap -> hval * heap) : Prop :=
  forall v h G H, okold t v -> hty G t h -> heap_ok G H -> steps G t (asg v h H).

Lemma steps_refl G t h H : hty G t h -> heap_ok G H -> steps G t (h, H).
Proof. by exists G. Qed.

Lemma words_ok G n : forall z, Forall (hty G TBool) (words n z).
Proof. induction n as [|n IH]; intros z; cbn; constructor; done. Qed.

Lemma assign_big_ok : assigns TBigInt (fun v => match v with VBig z => assign_big z | _ => fun h H => (h, H) end).
Proof.
  intros v h G H [z ->] Ht HH. unfold assign_big. set (n := Nat.div _ _).
  assert (steps G TBigInt (let (l', H') := alloc (words n z ++ replicate (if Nat.eqb n 1 then 0 else 4) (HV (VUint 0))) H in (HBig l' n, H'))) as Hnew.
  { pose proof (heap_alloc G H TBool (words n z ++ replicate (if Nat.eqb n 1 then 0 else 4) (HV (VUint 0))) HH) as A.
    destruct (alloc _ H) as [l H']. destruct A as (A1 & A2 & A3); [|by exists (G ++ [TBool])].
    apply Forall_app. split; [apply words_ok|]. by apply Forall_replicate. }
  assert (steps G TBigInt (HV (VBig 0), H)) as H0 by (apply steps_refl; [by exists 0|done]).
  destruct h as [w|hs|o|l len|l len]; try (by destruct (Nat.eqb n 0)).
  destruct (n <=? _)%nat; [|done]. apply steps_refl; [done|]. apply (heap_alter G H l TBool); [done..|].
  intros cs Hcs. apply Forall_app. split; [apply words_ok|by apply Forall_drop].
Qed.

Lemma assign_number_ok : assigns TNumber assign_number.
Proof.
  intros v h G H [[[z|]] ->] Ht HH; cbn; [|by apply steps_refl].
  assert (steps G TNumber (let (l, H') := alloc [HV (VBig z)] H in (HPtr (Some l), H'))) as Hnew.
  { pose proof (heap_alloc G H TBigInt [HV (VBig z)] HH) as A. destruct (alloc _ H) as [l H'].
    destruct A as (A1 & A2 & A3); [repeat constructor; by exists z|by exists (G ++ [TBigInt])]. }
  destruct h as [w|hs|[l|]|l len|l len]; try done. apply steps_refl; [done|]. eapply heap_write; [done..|]. by exists z.
Qed.

(** The elements of a slice: the array they end in has the element type. *)
Lemma grow_ok e i l G H : G !! l = Some e -> heap_ok G H ->
  let '(l', H') := grow (zero e) i l H in exists G', G `prefix_of` G' /\ G' !! l' = Some e /\ heap_ok G' H'.
Proof.
  intros Hl HH. unfold grow. destruct (_ <=? i)%nat; [|by exists G]. cbv zeta.
  match goal with |- context [alloc ?cs H] => pose proof (heap_alloc G H e cs HH) as A; destruct (alloc cs H) as [l1 H1] end.
  destruct A as (A1 & A2 & A3); [|by exists (G ++ [e])].
  apply Forall_app. split; [by apply HH|]. apply Forall_replicate, hty_zero.
Qed.

Lemma assign_elems_ok e asg : assigns e asg -> forall vs i l G H, Forall (okold e) vs -> G !! l = Some e -> heap_ok G H ->
  let '(l', H') := assign_elems asg (zero e) vs i l H in exists G', G `prefix_of` G' /\ G' !! l' = Some e /\ heap_ok G' H'.
Proof.
  intros HA. induction vs as [|v vs IH]; intros i l G H Hvs Hl HH; cbn [assign_elems];
    pose proof (grow_ok e i l G H Hl HH) as Hg; destruct (grow (zero e) i l H) as [l1 H1]; [done|].
  destruct Hg as (G1 & P1 & L1 & HH1). apply Forall_cons in Hvs as [Hv Hvs].
  destruct (HA v (default (HV (zero e)) (cells H1 l1 !! i)) G1 H1) as (G2 & P2 & T2 & HH2); [done| |done|].
  { destruct (cells H1 l1 !! i) as [c|] eqn:Ec; [|apply hty_zero]. pose proof (proj2 HH1 l1 e L1) as HF.
    rewrite Forall_lookup in HF. by apply (HF i). }
  destruct (asg v _ H1) as [h' H']. cbn in T2, HH2. assert (G2 !! l1 = Some e) as L2 by (by eapply prefix_lookup_Some).
  specialize (IH (S i) l1 G2 (write l1 i h' H') Hvs L2 ltac:(by eapply heap_write)).
  destruct (assign_elems _ _ _ _ _ _) as [l' H'']. destruct IH as (G3 & P3 & ?). exists G3. split; [|done].
  by do 2 (etrans; [eassumption|]).
Qed.

Lemma assign_array_ok e asg : assigns e asg -> forall vs hs G H, length vs = length hs -> Forall (okold e) vs -> Forall (hty G e) hs -> heap_ok G H ->
  let '(hs', H') := assign_array asg vs hs H in exists G', G `prefix_of` G' /\ length hs' = length vs /\ Forall (hty G' e) hs' /\ heap_ok G' H'.
Proof.
  intros HA. induction vs as [|v vs IH]; intros [|h hs] G H Hl Hvs Hhs HH; try done; cbn [assign_array]; [by exists G|].
  apply Forall_cons in Hvs as [Hv Hvs], Hhs as [Hh Hhs].
  destruct (HA v h G H Hv Hh HH) as (G1 & P1 & T1 & HH1). destruct (asg v h H) as [h' H1]. cbn in T1, HH1.
  specialize (IH hs G1 H1 ltac:(cbn in Hl; lia) Hvs ltac:(eapply Forall_impl; [exact Hhs|]; intros; by eapply hty_mono) HH1).
  destruct (assign_array _ _ _ _) as [hs' H2]. destruct IH as (G2 & P2 & L2 & F2 & HH2). exists G2.
  split; [by etrans|]. split; [cbn; lia|]. split; [|done]. constructor; [by eapply hty_mono|done].
Qed.

Lemma assign_fields_ok asg tname nf fs : Forall (fun x => forall ts, assigns x.2 (asg x.2 ts)) fs -> forall fi vs hs G H,
  okold_fields okold tname nf fi fs vs -> hty_fields (hty G) tname nf fi fs hs -> heap_ok G H ->
  let '(hs', H') := assign_fields asg tname nf fi fs vs hs H in
  exists G', G `prefix_of` G' /\ hty_fields (hty G') tname nf fi fs hs' /\ heap_ok G' H'.
Proof.
  induction 1 as [|[fd ft] fs HA _ IH]; intros fi [|v vs] [|h hs] G H; cbn [okold_fields hty_fields]; try done; [by exists G|].
  intros [Hv Hvs] [Hh Hhs] HH. cbn [assign_fields].
  assert (exists G1, G `prefix_of` G1 /\ heap_ok G1 (match fieldTags tname nf fi fd ft with Some ts => asg ft ts v h H | None => (h, H) end).2 /\
    match fieldTags tname nf fi fd ft with None => h = HV (zero ft) | Some ts => hty G1 ft (asg ft ts v h H).1 end) as Hstep.
  { destruct (fieldTags _ _ _ _ _) as [ts|]; [|by exists G]. destruct (HA ts v h G H Hv Hh HH) as (G1 & ? & ? & ?). by exists G1. }
  destruct Hstep as (G1 & P1 & HH1 & T1).
  assert (hty_fields (hty G1) tname nf (S fi) fs hs) as Hhs1.
  { eapply hty_fields_mono; [|exact Hhs]. apply Forall_true. intros x h0. by apply hty_mono. }
  destruct (fieldTags _ _ _ _ _) as [ts|] eqn:Et.
  - destruct (asg ft ts v h H) as [h' H1]. cbn in T1, HH1. specialize (IH (S fi) vs hs G1 H1 Hvs Hhs1 HH1).
    fold (assign_fields asg tname nf) in *. destruct (assign_fields asg tname nf (S fi) fs vs hs H1) as [hs' H2].
    destruct IH as (G2 & P2 & T2 & HH2). exists G2. split; [by etrans|]. split; [|done]. split; [by eapply hty_mono|done].
  - cbn in HH1. specialize (IH (S fi) vs hs G1 H Hvs Hhs1 HH1).
    fold (assign_fields asg tname nf) in *. destruct (assign_fields asg tname nf (S fi) fs vs hs H) as [hs' H2].
    destruct IH as (G2 & P2 & T2 & HH2). exists G2. split; [by etrans|]. split; [|done]. done.
Qed.

Lemma hty_parts_array G n e h : isByte e = false -> hty G (TArray n e) h -> length (parts h) = n /\ Forall (hty G e) (parts h).
Proof.
  intros He. destruct h as [v|hs|[l|]|l len|l len]; try done; cbn [hty].
  - cbn [okold]. rewrite He. intros (vs & -> & Hl & HF). cbn [parts]. rewrite length_fmap. split; [done|]. apply Forall_fmap.
    eapply Forall_impl; [exact HF|]. intros x Hx. cbn. by rewrite hty_HV.
  - by intros (_ & ? & ?).
Qed.

Lemma hty_parts_struct G name fs h : hty G (TStruct name fs) h -> hty_fields (hty G) name (length fs) O fs (parts h).
Proof.
  destruct h as [v|hs|[l|]|l len|l len]; try done. cbn [hty okold]. intros (vs & -> & HF). cbn [parts]. revert HF.
  generalize (length fs), O. revert vs. induction fs as [|[fd ft] fs IH]; intros [|v vs] nf fi; cbn; try done. intros [H1 H2].
  split; [|by apply IH]. destruct (fieldTags _ _ _ _ _); [by rewrite hty_HV|by subst].
Qed.

Lemma assign_ptr_ok e : (forall ts, assigns e (assign e ts)) -> forall ts, assigns (TPtr e) (assign (TPtr e) ts).
Proof.
  intros IH ts v h G H Hv Ht HH. destruct Hv as [->|(x & -> & Hx)]; cbn [assign unshared]; [by apply steps_refl|].
  assert (steps G (TPtr e) (let (c', H') := assign e no_tags x (HV (zero e)) H in let (l, H'') := alloc [c'] H' in (HPtr (Some l), H''))) as Hnew.
  { destruct (IH no_tags x (HV (zero e)) G H Hx (hty_zero G e) HH) as (G1 & P1 & T1 & HH1). destruct (assign e no_tags x _ H) as [c' H'].
    cbn in T1, HH1. pose proof (heap_alloc G1 H' e [c'] HH1) as A. destruct (alloc [c'] H') as [l H''].
    destruct A as (A1 & A2 & A3); [by repeat constructor|]. exists (G1 ++ [e]). split; [by etrans|done]. }
  destruct h as [w|hs|[l|]|l len|l len]; try done. destruct (cells H l) as [|c cs] eqn:Ec; [by apply steps_refl|].
  pose proof (proj2 HH l e Ht) as HF. rewrite Ec in HF. apply Forall_cons in HF as [Hc _].
  destruct (IH no_tags x c G H Hx Hc HH) as (G1 & P1 & T1 & HH1). destruct (assign e no_tags x c H) as [c' H'].
  cbn in T1, HH1. assert (G1 !! l = Some e) as L1 by (by eapply prefix_lookup_Some). exists G1. split; [done|]. split; [done|by eapply heap_write].
Qed.

Lemma assign_ok t : forall ts, assigns t (assign t ts).
Proof.
  induction t as [b|b| | |e IHe|m e IHe|nm fs IHfs|e IHe|k e IHk IHe|m| | | |nm] using gotype_ind'; intros ts v h G H Hv Ht HH;
    try (by apply (assign_ptr_ok e IHe)); cbn [assign]; try (cbn [unshared]; by apply steps_refl).
  - cbn [unshared okold] in *. destruct (isByte e) eqn:He; [by apply steps_refl; cbn; rewrite ?He|].
    destruct Hv as (vs & -> & Hvs). destruct (_ && _); [apply steps_refl; [cbn; rewrite He; by exists []|done]|].
    assert (exists G1, G `prefix_of` G1 /\ let '(l, H1) := match h with HSlice l _ => (l, H) | _ => alloc [] H end in
      G1 !! l = Some e /\ heap_ok G1 H1) as (G1 & P1 & HG1).
    { destruct h as [w|hs|o|l len|l len]; try (exists (G ++ [e]); split; [by exists [e]|];
        pose proof (heap_alloc G H e [] HH ltac:(constructor)) as A; destruct (alloc [] H); tauto).
      exists G. split; [done|]. by destruct Ht. }
    destruct (match h with HSlice _ _ => _ | _ => _ end) as [l H1]. destruct HG1 as [L1 HH1].
    pose proof (assign_elems_ok e _ (IHe no_tags) vs 0 l G1 H1 Hvs L1 HH1) as A. destruct (assign_elems _ _ _ _ _ _) as [l' H2].
    destruct A as (G2 & P2 & L2 & HH2). exists G2. split; [by etrans|]. split; [|done]. done.
  - destruct (unshared (TArray m e)) eqn:Hu; [apply steps_refl; [by rewrite hty_HV|done]|]. cbn [unshared okold] in *.
    destruct (isByte e) eqn:He; [done|]. destruct Hv as (vs & -> & Hl & Hvs).
    destruct (hty_parts_array G m e h He Ht) as [Lp Hp].
    pose proof (assign_array_ok e _ (IHe no_tags) vs (parts h) G H ltac:(lia) Hvs Hp HH) as A.
    destruct (assign_array _ _ _ _) as [hs H']. destruct A as (G' & P & L & F & HH'). exists G'. split_and!; [done| |done].
    cbn. split_and!; [done|lia|done].
  - destruct (unshared (TStruct nm fs)) eqn:Hu; [apply steps_refl; [by rewrite hty_HV|done]|]. cbn [okold] in Hv.
    destruct Hv as (vs & -> & Hvs). pose proof (hty_parts_struct G nm fs h Ht) as Hp.
    pose proof (assign_fields_ok assign nm (length fs) fs IHfs O vs (parts h) G H Hvs Hp HH) as A.
    destruct (assign_fields _ _ _ _ _ _ _ _) as [hs H']. by destruct A as (G' & P & T & HH'); exists G'.
  - destruct Hv as [z ->]. cbn [unshared]. by apply (assign_big_ok (VBig z)); [exists z|..].
  - cbn [unshared]. by apply assign_number_ok.
Qed.

(** ** Maps *)

Lemma map_loop_returns kt et dk de : hash_t kt = true ->
  dec_safe dk (okold kt) (post kt) -> dec_safe de (okold et) (post et) ->
  forall bbt key value m G H, Forall small_bytes bbt -> hty G kt key -> hty G et value -> heap_ok G H ->
  returns (fun _ => True) (map_loop (decode_bytes kt dk) (decode_bytes et de) kt et bbt key value m H).
Proof.
  intros Hh Hk He. induction bbt as [|v bbt IH]; intros key value m G H Hb Hkey Hval HH; cbn [map_loop]; [done|].
  apply Forall_cons in Hb as [(b & -> & Hb & Hl) Hbs]. cbn [as_bytes].
  pose proof (decode_bytes_list_returns b Hb Hl) as R.
  destruct (decode_bytes_list b) as [bbv| | |]; cbn in R; try done.
  destruct bbv as [|x [|y [|z bbv]]]; try done.
  apply Forall_cons in R as [(kb & -> & Hkb & Hlk) R]. apply Forall_cons in R as [(vb & -> & Hvb & Hlv) _].
  cbn [as_bytes].
  pose proof (decode_bytes_returns kt dk _ _ kb _ Hk (view_okold G H true HH kt key Hkey) Hkb Hlk (genTypeInfo_err_plain kt)) as R1.
  destruct (decode_bytes kt dk kb _) as [k| | |]; cbn in R1; try done. destruct R1 as [Ok1 Hash1].
  destruct (assign_ok kt no_tags k key G H Ok1 Hkey HH) as (G1 & P1 & T1 & HH1). destruct (assign kt no_tags k key H) as [key' H1].
  cbn in T1, HH1. assert (hty G1 et value) as Hval1 by by eapply hty_mono.
  assert (Ho : okold et (if is_map et then VMap [] else view true H1 et value)).
  { pose proof (view_okold G1 H1 true HH1 et value Hval1). by destruct et. }
  pose proof (decode_bytes_returns et de _ _ vb _ He Ho Hvb Hlv (genTypeInfo_err_plain et)) as R2.
  destruct (decode_bytes et de vb _) as [x| | |]; cbn in R2; try done. destruct R2 as [Ok2 _].
  destruct (assign_ok et no_tags x value G1 H1 Ok2 Hval1 HH1) as (G2 & P2 & T2 & HH2). destruct (assign et no_tags x value H1) as [value' H2].
  rewrite Hash1 by done. apply (IH key' value' _ G2 H2); try done. by eapply hty_mono.
Qed.

Lemma decodeMap_safe kt et dk de : hash_t kt = true ->
  dec_safe dk (okold kt) (post kt) -> dec_safe de (okold et) (post et) ->
  dec_safe (decodeMap kt et dk de) (fun _ => True) (post (TMap kt et)).
Proof.
  intros Hh Hk He s old Hs _. unfold decodeMap.
  eapply safe_bind; [by apply safe_wrapped, Stream_Bytes_safe|]. intros b s1 Hs1 [[Hb Hl] Hf].
  pose proof (decode_bytes_list_returns b Hb Hl) as R.
  destruct (decode_bytes_list b) as [bbt|e| |]; cbn in R; try done.
  2:{ apply safe_err. by apply plain_wrap. }
  pose proof (map_loop_returns kt et dk de Hh Hk He bbt (HV (zero kt)) (HV (zero et)) [] [] [] R (hty_zero _ kt) (hty_zero _ et) ltac:(done)) as R2.
  destruct (map_loop _ _ _ _ _ _ _ _ _) as [[m H]|e| |]; cbn in R2; try done.
  apply safe_err. by apply plain_wrap.
Qed.

(** ** All types *)

Lemma okold_True (D : decoder) t : dec_safe D (fun _ => True) (post t) -> dec_safe D (okold t) (post t).
Proof. intros H s old Hs _. by apply H. Qed.

Lemma post_list_ok e vs : Forall (post e) vs -> Forall (okold e) vs.
Proof. intros H. eapply Forall_impl; [exact H|]. by intros x []. Qed.

Lemma post_slice e v : isByte e = false -> (exists vs, v = VList vs /\ Forall (post e) vs) -> post (TSlice e) v.
Proof.
  intros He (vs & -> & H). split; [|done]. cbn. rewrite He. exists vs. split; [done|by apply post_list_ok].
Qed.

Lemma decodeListArray_safe typ n e : isByte e = false -> dec_safe (makeDecoder e no_tags) (okold e) (post e) ->
  dec_safe (decodeListArray typ (makeDecoder e no_tags)) (okold (TArray n e)) (post (TArray n e)).
Proof.
  intros He HD s old Hs Ho. cbn [okold] in Ho. rewrite He in Ho. destruct Ho as (olds & -> & Hl & Ho).
  unfold decodeListArray. eapply (safe_list typ s _ VList); [done|intros s1 Hs1; by eapply (array_elems_sound _ _ _ _ HD)|].
  intros vs [Hv Hlv]. unfold post. cbn [okold hash_t hashable]. rewrite He. split.
  - exists vs. split; [done|]. split; [lia|by apply post_list_ok].
  - cbn. intros Hh. clear -Hv Hh. induction Hv as [|v vs [_ H] Hv IH]; [done|]. cbn. by rewrite H, IH.
Qed.

Lemma struct_safe name fs :
  Forall (fun x => forall ts, dec_weak (makeDecoder x.2 ts) (okold x.2) (post x.2)) fs ->
  dec_safe (makeStructDecoder makeDecoder name fs) (okold (TStruct name fs)) (post (TStruct name fs)).
Proof.
  intros H s old Hs (olds & -> & Ho). unfold makeStructDecoder.
  eapply (safe_list (TStruct name fs) s _ VList); [done|intros s1 Hs1; by apply decode_fields_sound|].
  intros vs [Hv Hh]. split; [by exists vs|done].
Qed.

(** The conclusion of [makeDecoder_safe] for a decoder that is safe at any place. *)
Lemma safe_both t D (P : Prop) : dec_safe D (okold t) (post t) ->
  dec_weak D (okold t) (post t) /\ (P -> dec_safe D (okold t) (post t)).
Proof. intros H. split; [by apply dec_safe_weak|done]. Qed.

Lemma makeListDecoder_safe e ts : isByte e = false ->
  dec_safe (makeDecoder e no_tags) (okold e) (post e) ->
  dec_weak (makeDecoder (TSlice e) ts) (okold (TSlice e)) (post (TSlice e)) /\
  (is_tail (TSlice e) ts = false ->
   dec_safe (makeDecoder (TSlice e) ts) (okold (TSlice e)) (post (TSlice e))).
Proof.
  intros He HD. cbn [makeDecoder is_tail]. rewrite He.
  assert (HO : forall old, okold (TSlice e) old -> exists olds, old = VList olds /\ Forall (okold e) olds).
  { intros old Ho. cbn in Ho. by rewrite He in Ho. }
  unfold makeListDecoder. destruct (tail ts); cbn [andb negb].
  - split; [|done]. intros s old Hs Ho. apply sound_safe.
    eapply sound_weaken; [eapply (decodeSliceElems_any _ _ _ _ _ _ (zero_okold e) HD Hs); by apply HO|].
    intros v s' [Hv Hl]. split; [by apply post_slice|done].
  - apply safe_both. intros s old Hs Ho.
    eapply safe_weaken; [eapply (decodeListSlice_safe _ _ _ _ _ s old (length (s_in s)) (zero_okold e));
      [intros; by apply HD|done|by left|by apply HO]|done|done|].
    intros v s' [Hv Hf]. split; [|done]. by apply post_slice.
Qed.

(** Every decoder of a type in [safe_t]; a [tail] slice only takes part in a struct. *)
Lemma makeDecoder_safe t : safe_t t -> forall ts,
  dec_weak (makeDecoder t ts) (okold t) (post t) /\
  (is_tail t ts = false -> dec_safe (makeDecoder t ts) (okold t) (post t)).
Proof.
  induction t as [b|b| | |e IHe|m e IHe|nm fs IHfs|e IHe|k e IHk IHe|m| | | |nm] using gotype_ind';
    intros Ht ts; cbn [safe_t makeDecoder is_tail] in *.
  - apply safe_both, okold_True, decodeUint_safe, Ht.
  - apply safe_both, okold_True, decodeInt_safe, Ht.
  - apply safe_both, okold_True, decodeBool_safe.
  - apply safe_both, okold_True, decodeString_safe.
  - destruct (isByte e) eqn:He.
    + apply safe_both. intros s old Hs Ho. eapply safe_weaken; [by apply decodeByteSlice_safe|done|done|].
      intros v s' [(b & -> & _) Hf]. split; [|done]. split; [|done]. cbn. by rewrite He.
    + destruct Ht as [?|Ht]; [done|]. destruct (IHe Ht no_tags) as [_ HD].
      specialize (HD (unshared_no_tail e no_tags eq_refl)).
      pose proof (makeListDecoder_safe e ts He HD) as H. cbn [makeDecoder is_tail] in H.
      by rewrite He in H.
  - destruct (isByte e) eqn:He.
    + apply safe_both. by apply decodeByteArray_safe.
    + apply safe_both. apply decodeListArray_safe; [done|]. by apply (IHe Ht no_tags), unshared_no_tail.
  - apply safe_both, struct_safe. induction IHfs as [|[f ft] fs Hft Hfs IH]; constructor.
    + intros ts'. apply Hft, Ht.
    + apply IH, Ht.
  - assert (HD : dec_safe (makeDecoder e no_tags) (okold e) (post e)).
    { by apply (IHe Ht no_tags), unshared_no_tail. }
    destruct e; try (apply safe_both; destruct (nilOK ts); [by apply makeOptionalPtrDecoder_safe|by apply makePtrDecoder_safe]).
    + apply safe_both. intros s old Hs Ho. eapply safe_weaken; [by apply decodeBigInt_safe|done|done|].
      intros v s' [(z & ->) Hf]. split; [|done]. split; [|done]. right. exists (VBig z). split; [done|by exists z].
    + apply safe_both. intros s old Hs Ho. eapply safe_weaken; [by apply decodeNumberPtr_safe|done|done|].
      intros v s' [(z & ->) Hf]. split; [|done]. split; [|done]. right. exists (VNum z). split; [done|by exists z].
  - destruct Ht as (Hh & Hk & He). apply safe_both, okold_True.
    apply decodeMap_safe; [done..| |].
    + by apply (IHk Hk no_tags), unshared_no_tail.
    + by apply (IHe He no_tags), unshared_no_tail.
  - apply safe_both, okold_True, decodeInterface_safe.
  - apply safe_both, okold_True, decodeRawValue_safe.
  - apply safe_both, decodeBigIntNoPtr_safe.
  - apply safe_both, decodeNumber_safe.
  - apply safe_both. intros s old Hs Ho. done.
Qed.

(** ** Theorem *)

(** C3: Totality on untrusted input.  For every byte string below the allocation
    limit and every type in [safe_t], [DecodeBytes] into a target of the type (its
    uncoded fields at zero) returns: a value of the target's shape or an error,
    never a panic, and its loops end within the fuel the input length gives.
    [safe_t] excludes arrays of one byte, on which the code loops, and map keys
    that hold interfaces, on which it panics. *)
Theorem DecodeBytes_total (t : gotype) (b : list Z) (old : goval) :
  safe_t t -> okold t old -> bytes_ok b -> zlen b < max_input ->
  (exists v, DecodeBytes b t old = Ok v /\ okold t v) \/
  (exists e, DecodeBytes b t old = Err e /\ e <> EOL).
Proof.
  intros Ht Ho Hb Hm.
  pose proof (decode_bytes_returns t (makeDecoder t no_tags) (okold t) (post t) b old) as R.
  specialize (R ltac:(by apply (makeDecoder_safe t Ht no_tags), unshared_no_tail) Ho Hb Hm
                (genTypeInfo_err_plain t)).
  unfold DecodeBytes. destruct (decode_bytes t _ b old) as [v|e| |]; cbn in R; try done.
  - left. exists v. by destruct R.
  - right. exists e. by destruct e.
Qed.

Lemma DecodeBytes_total_witness :
  (exists v, DecodeBytes [0xF9; 0xFF; 0xFF; 0x80] sample_t (zero sample_t) = Ok v /\ okold sample_t v) \/
  (exists e, DecodeBytes [0xF9; 0xFF; 0xFF; 0x80] sample_t (zero sample_t) = Err e /\
             e <> EOL).
Proof.
  apply (DecodeBytes_total sample_t [0xF9; 0xFF; 0xFF; 0x80] (zero sample_t)).
  - cbn. unfold width_ok. repeat split; lia || (right; right; lia) || done.
  - apply zero_okold.
  - repeat constructor; unfold byte_ok; lia.
  - vm_compute. reflexivity.
Defined.

(** ** Where decoding does not give the value back

    Defects of src/rlp/decode.go, as theorems about its model: [decodeMap] decodes
    every value into one scratch variable, so maps of numbers come back with a
    single number; a malformed pair ends a map without an error; and a zero byte
    decoded into an array of length one is not consumed. *)
Definition map_values (v : goval) : list goval := match v with VMap kvs => kvs.*2 | _ => [] end.

Lemma decode_bytes_stream t dec b old v : decode_bytes t dec b old = Ok v ->
  exists s s', dec s old = (Ok v, s').
Proof.
  unfold decode_bytes, stream_decode. destruct (genTypeInfo_err t); [done|].
  destruct (dec _ old) as [[x| | |] s'] eqn:E; try done.
  cbn [res_map_err]. casem; [done|]. intros [= <-]. eauto.
Qed.

Lemma SetMapIndex_values h m k : Forall (fun kv : hval * hval => kv.2 = h) m -> Forall (fun kv => kv.2 = h) (SetMapIndex m k h).
Proof. induction 1 as [|[k' v'] m Hx Hm IH]; cbn; [by repeat constructor|]. destruct (hkey_eqb k' k); by constructor. Qed.

(** The number variable points to one [big.Int] from its first value on. *)
Lemma number_loop deck dece kt : (forall b o x, dece b o = Ok x -> exists z, x = VNum (mkNumber (Some z))) ->
  forall bbt key value m H m' H', Forall (fun kv => kv.2 = value) m -> (m = [] \/ exists l, value = HPtr (Some l)) ->
  map_loop deck dece kt TNumber bbt key value m H = Ok (m', H') -> exists h, Forall (fun kv => kv.2 = h) m'.
Proof.
  intros Hd. induction bbt as [|v bbt IH]; intros key value m H m' H' Hm Hv; cbn [map_loop]; [intros [= <- <-]; eauto|].
  destruct (decode_bytes_list _) as [[|kb [|vb [|]]]| | |]; try done; try (intros [= <- <-]; eauto; fail).
  destruct (deck _ _) as [k| | |]; try done. destruct (assign kt no_tags k key H) as [key' H1]. cbn [is_map].
  destruct (dece _ _) as [x| | |] eqn:Ex; try done. apply Hd in Ex as [z ->].
  assert (exists l H2, assign TNumber no_tags (VNum (mkNumber (Some z))) value H1 = (HPtr (Some l), H2) /\
    Forall (fun kv => kv.2 = HPtr (Some l)) m) as (l & H2 & -> & Hm2).
  { destruct Hv as [->|[l ->]]; [|by eexists l, _]. destruct value as [| |[|]| |]; by do 2 eexists. }
  destruct (hashable k); [|done]. apply IH; [by apply SetMapIndex_values|by right; exists l].
Qed.

Lemma decodeNumber_Some s old x s' : decodeNumber s old = (Ok x, s') -> exists z, x = VNum (mkNumber (Some z)).
Proof.
  unfold decodeNumber, decodeNumberPtr. destruct (wrapped _ _) as [[b| | |] s1]; try done. destruct old as [| | | | | | | | | |n]; try done.
  intros [= <- <-]. by eexists.
Qed.

(** Every map of numbers that [DecodeBytes] returns has one value: all its
    entries hold the number decoded last. *)
Theorem DecodeBytes_number_map_aliases (kt : gotype) (b : list Z) (old v : goval) :
  DecodeBytes b (TMap kt TNumber) old = Ok v ->
  exists final, Forall (fun x => x = final) (map_values v).
Proof.
  intros H. apply decode_bytes_stream in H as (s & s' & E). cbn [makeDecoder] in E. unfold decodeMap in E.
  destruct (wrapped _ _) as [[c| | |] s1]; try done.
  destruct (decode_bytes_list c) as [bbt| | |]; try done.
  destruct (map_loop _ _ _ _ _ _ _ _ _) as [[m H]| | |] eqn:Em; try done. cbn in E. injection E as <- _.
  apply number_loop in Em as [h Hh]; [|intros b' o x Hx; apply decode_bytes_stream in Hx as (? & ? & Hx); by apply decodeNumber_Some in Hx|constructor|by left].
  exists (view false H TNumber h). cbn. rewrite <- list_fmap_compose. apply Forall_fmap. eapply Forall_impl; [exact Hh|]. by intros kv <-.
Qed.

(** Two accounts with different balances, encoded and decoded again. *)
Definition two_accounts : goval := VMap [(VStr (bs "a"), VNum (N 5)); (VStr (bs "b"), VNum (N 7))].
Definition two_accounts_b : list Z :=
  Eval vm_compute in match EncodeToBytes two_accounts (TMap TString TNumber) with Ok b => b | _ => [] end.

Lemma DecodeBytes_number_map_aliases_witness :
  EncodeToBytes two_accounts (TMap TString TNumber) = Ok two_accounts_b /\
  exists v, DecodeBytes two_accounts_b (TMap TString TNumber) (VMap []) = Ok v /\
    exists final, Forall (fun x => x = final) (map_values v).
Proof.
  split; [vm_compute; reflexivity|]. eexists. split; [vm_compute; reflexivity|].
  apply (DecodeBytes_number_map_aliases TString two_accounts_b (VMap [])). vm_compute. reflexivity.
Defined.

(** A map of slices: the second entry is decoded into the array of the first one, whose first element changes with it. *)
Definition two_lists : goval := VMap [(VStr (bs "a"), VList [VUint 1; VUint 2]); (VStr (bs "b"), VList [VUint 3])].

Example DecodeBytes_slice_map_aliases : exists b,
  EncodeToBytes two_lists (TMap TString (TSlice (TUint 16))) = Ok b /\
  DecodeBytes b (TMap TString (TSlice (TUint 16))) (VMap [])
  = Ok (VMap [(VStr (bs "a"), VList [VUint 3; VUint 2]); (VStr (bs "b"), VList [VUint 3])]).
Proof. eexists. split; [vm_compute; reflexivity|vm_compute; reflexivity]. Qed.

(** A pair that is not a list of two ends the decoding of a map without an
    error, and the entries after it are lost: the input holds a three-element
    pair and then the entry ["a" -> 1], and the result is the empty map. *)
Theorem DecodeBytes_map_bad_pair : exists b,
  EncodeByteSlices [[0xC3; 1; 2; 3]; [0xC2; 0x61; 1]] = Ok b /\
  DecodeBytes (enc_string b) (TMap TString (TUint 8)) (VMap []) = Ok (VMap []).
Proof. eexists. split; [vm_compute; reflexivity|vm_compute; reflexivity]. Qed.

(** ** Arrays of length one *)

Abbreviation byte1 := (TArray 1 (TUint 8)).

(** The stream has a zero byte ahead whose kind has been read. *)
Lemma byte1_stuck s : armed s KByte 0 -> s_byteval s = 0 ->
  decodeByteArray byte1 s (VBytes [0]) = (Ok (VBytes [0]), s).
Proof.
  intros Ha Hv. unfold decodeByteArray. rewrite (Kind_armed _ _ _ Ha).
  change (zlen [0]) with 1. cbn [Z.eqb Z.ltb Z.compare Pos.compare Pos.compare_cont].
  unfold Uint, uint. by rewrite (Kind_armed _ _ _ Ha), Hv.
Qed.

Lemma byte1_loop fuel i s : armed s KByte 0 -> s_byteval s = 0 ->
  (slice_elems (decodeByteArray byte1) (VBytes [0]) fuel i [] s).1 = NoFuel.
Proof.
  revert i. induction fuel as [|f IH]; intros i Ha Hv; [done|]. cbn [slice_elems].
  rewrite byte1_stuck by done. specialize (IH (i + 1) Ha Hv).
  destruct (slice_elems _ _ f (i + 1) [] s) as [r s1]. cbn in IH. by subst r.
Qed.

(** Decoding the two bytes [C1 00] into [[][1]byte] does not end: the element
    loop has no answer after any number of rounds. *)
Theorem decode_byte1_slice_diverges : exists s1,
  List_ (NewStream [0xC1; 0x00] true 2) = (Ok 1, s1) /\
  forall fuel, (slice_elems (makeDecoder byte1 no_tags) (zero byte1) fuel 0 [] s1).1 = NoFuel.
Proof.
  eexists. split; [vm_compute; reflexivity|]. intros [|fuel]; [done|]. cbn [slice_elems].
  change (makeDecoder byte1 no_tags) with (decodeByteArray byte1). change (zero byte1) with (VBytes [0]).
  match goal with |- context [decodeByteArray byte1 ?s0 ?o] => set (x := decodeByteArray byte1 s0 o) end.
  vm_compute in x. subst x. cbv iota beta.
  match goal with |- context [slice_elems _ _ fuel _ _ ?s2] =>
    pose proof (byte1_loop fuel (0 + 1) s2 ltac:(done) ltac:(done)) as L end.
  destruct (slice_elems _ _ fuel (0 + 1) [] _) as [r s3]. cbn in L. by subst r.
Qed.

(** A struct whose first field is an array of one zero byte does not survive
    the round trip: its own encoding is rejected. *)
Theorem byte1_struct_rejected :
  let t := TStruct (bs "T") [(mkField (bs "A") true [], byte1); (mkField (bs "B") true [], TUint 8)] in
  EncodeToBytes (VList [VBytes [0]; VUint 5]) t = Ok [0xC2; 0x00; 0x05] /\
  exists e, DecodeBytes [0xC2; 0x00; 0x05] t (zero t) = Err e.
Proof. split; [vm_compute; reflexivity|]. eexists. vm_compute. reflexivity. Qed.
