(* ===== verification/RlpRaw.v ===== *)
(** * RLP: splitting encoded values without decoding them

    Model of src/rlp/raw.go.  [Split] is shown to accept exactly the canonical
    items followed by any rest, and [CountValues] to count them. *)

From S2P Require Import Prelude GoSlice RlpTypes RlpEncode RlpEncodeSpec RlpStream RlpStreamSpec.

(** [ListSize]. *)
Definition ListSize (contentSize : Z) : Z := u64 (headsize contentSize + contentSize).

(** [readSize]: each case of the switch puts [slen] big-endian bytes together. *)
Definition readSize (b : list Z) (slen : Z) : result Z :=
  if zlen b <? slen then Err io_ErrUnexpectedEOF
  else
    let s := be_val (take (Z.to_nat slen) b) in
    if (s <? 56) || (nth 0 b 0 =? 0) then Err ErrCanonSize else Ok s.

Definition readKind (buf : list Z) : result (Kind * Z * Z) :=
  match buf with
  | [] => Err io_ErrUnexpectedEOF
  | b :: rest =>
      let* (k, tagsize, contentsize) :=
        if b <? 0x80 then Ok (KByte, 0, 1)
        else if b <? 0xB8 then
          let contentsize := b - 0x80 in
          if (contentsize =? 1) && (1 <? zlen buf) && (nth 0 rest 0 <? 128) then Err ErrCanonSize
          else Ok (KString, 1, contentsize)
        else if b <? 0xC0 then
          let* n := readSize rest (b - 0xB7) in Ok (KString, b - 0xB7 + 1, n)
        else if b <? 0xF8 then Ok (KList, 1, b - 0xC0)
        else let* n := readSize rest (b - 0xF7) in Ok (KList, b - 0xF7 + 1, n) in
      if u64 (zlen buf - tagsize) <? contentsize then Err ErrValueTooLarge
      else Ok (k, tagsize, contentsize)
  end.

Definition Split (b : list Z) : result (Kind * list Z * list Z) :=
  let* (k, ts, cs) := readKind b in
  match slice b ts (u64 (ts + cs)), slice_from b (u64 (ts + cs)) with
  | Some content, Some rest => Ok (k, content, rest)
  | _, _ => Panic
  end.

Definition SplitString (b : list Z) : result (list Z * list Z) :=
  let* (k, content, rest) := Split b in
  match k with KList => Err ErrExpectedString | _ => Ok (content, rest) end.

Definition SplitList (b : list Z) : result (list Z * list Z) :=
  let* (k, content, rest) := Split b in
  match k with KList => Ok (content, rest) | _ => Err ErrExpectedList end.

(** The loop of [CountValues]; every round takes a byte, so the length is fuel
    enough. *)
Fixpoint count_loop (fuel : nat) (b : list Z) (i : Z) : result Z :=
  match b with
  | [] => Ok i
  | _ :: _ =>
      match fuel with
      | O => NoFuel
      | S f =>
          let* (_, tagsize, sz) := readKind b in
          match slice_from b (u64 (tagsize + sz)) with
          | Some b' => count_loop f b' (i + 1)
          | None => Panic
          end
      end
  end.

Definition CountValues (b : list Z) : result Z := count_loop (length b) b 0.

(** ** Canonical items *)

(** The bytes of an item of kind [k] with content [c]. *)
Definition raw_item (k : Kind) (c : list Z) : list Z :=
  match k with KByte => c | _ => khead k (zlen c) ++ c end.

Definition raw_ok (k : Kind) (c : list Z) : Prop :=
  match k with
  | KByte => exists x, c = [x] /\ x < 0x80
  | KString => forall x, c = [x] -> 0x80 <= x
  | KList => True
  end.

Lemma readSize_ok n rest : 56 <= n < 2 ^ 64 -> readSize (be_min n ++ rest) (zlen (be_min n)) = Ok n.
Proof.
  intros Hn. unfold readSize. destruct (Z.ltb_spec (zlen (be_min n ++ rest)) (zlen (be_min n))); [zl|].
  rewrite take_app_zlen, be_val_min, Z.abs_eq by lia. destruct (Z.ltb_spec n 56); [lia|].
  pose proof (be_min_len_pos n ltac:(lia)). destruct (be_min n) as [|x l] eqn:E; [done|].
  pose proof (be_min_head _ _ _ E). cbn [app nth orb]. by destruct (Z.eqb_spec x 0).
Qed.

Lemma readSize_inv b l n : bytes_ok b -> 1 <= l <= 8 -> readSize b l = Ok n ->
  56 <= n < 2 ^ 64 /\ exists rest, b = be_min n ++ rest /\ zlen (be_min n) = l.
Proof.
  intros Hb Hl. unfold readSize. destruct (Z.ltb_spec (zlen b) l); [done|].
  set (c := take (Z.to_nat l) b). assert (Hc : bytes_ok c) by by apply bytes_ok_take.
  assert (Lc : zlen c = l) by (unfold c, zlen in *; rewrite length_take; lia).
  destruct (Z.ltb_spec (be_val c) 56); [done|]. cbn [orb].
  destruct (Z.eqb_spec (nth 0 b 0) 0) as [|Hh]; [done|]. intros [= <-].
  pose proof (be_val_range c Hc) as R. rewrite Lc in R.
  assert (256 ^ l <= 256 ^ 8) by (apply Z.pow_le_mono_r; lia). change (256 ^ 8) with (2 ^ 64) in *.
  assert (Em : be_min (be_val c) = c).
  { apply be_min_val; [done|]. intros x k E. unfold c in E. destruct b as [|y b]; [by rewrite take_nil in E|].
    destruct (Z.to_nat l) eqn:El; [lia|]. cbn in E, Hh. congruence. }
  split; [lia|]. rewrite Em. exists (drop (Z.to_nat l) b). split; [by unfold c; rewrite take_drop|done].
Qed.

Lemma readKind_large k c rest : k <> KByte -> 56 <= zlen c -> zlen (raw_item k c ++ rest) < 2 ^ 64 ->
  readKind (raw_item k c ++ rest) = Ok (k, zlen (be_min (zlen c)) + 1, zlen c).
Proof.
  intros Hk Hl Hm. pose proof (zlen_nonneg rest). unfold raw_item, header in *.
  destruct (Z.ltb_spec (zlen c) 56); [lia|]. set (l := be_min (zlen c)) in *.
  assert (Hc : zlen c < 2 ^ 64) by (destruct k; zl).
  assert (B : 1 <= zlen l <= 8).
  { pose proof (be_min_len_le (zlen c) 8 ltac:(cbn; lia)). pose proof (be_min_len_pos (zlen c)).
    unfold l. cbn in *. lia. }
  assert (R : readSize (l ++ c ++ rest) (zlen l) = Ok (zlen c)) by (apply readSize_ok; lia).
  destruct k; [done|..]; cbn [small_tag large_tag app] in *; rewrite <- (assoc app) in *; unfold readKind.
  - destruct (Z.ltb_spec (183 + zlen l) 128), (Z.ltb_spec (183 + zlen l) 184), (Z.ltb_spec (183 + zlen l) 192); try lia.
    replace (183 + zlen l - 183) with (zlen l) by lia. rewrite R.
    rewrite uN_id by (unfold in_uN; zl). match goal with |- context [?x <? zlen c] => destruct (Z.ltb_spec x (zlen c)) end; [zl|done].
  - destruct (Z.ltb_spec (247 + zlen l) 128), (Z.ltb_spec (247 + zlen l) 184), (Z.ltb_spec (247 + zlen l) 192),
      (Z.ltb_spec (247 + zlen l) 248); try lia.
    replace (247 + zlen l - 247) with (zlen l) by lia. rewrite R.
    rewrite uN_id by (unfold in_uN; zl). match goal with |- context [?x <? zlen c] => destruct (Z.ltb_spec x (zlen c)) end; [zl|done].
Qed.

Lemma readKind_item k c rest : raw_ok k c -> zlen (raw_item k c ++ rest) < 2 ^ 64 ->
  readKind (raw_item k c ++ rest) = Ok (k, zlen (raw_item k c) - zlen c, zlen c).
Proof.
  intros Hk Hm. pose proof (zlen_nonneg rest). pose proof (zlen_nonneg c).
  destruct (decide (k <> KByte /\ 56 <= zlen c)) as [[Hkb Hl]|Hs].
  { rewrite readKind_large by done. do 3 f_equal. unfold raw_item, header.
    destruct (Z.ltb_spec (zlen c) 56); [lia|]. destruct k; [done|..]; zl. }
  destruct k; cbn [raw_ok raw_item] in *.
  - destruct Hk as (x & -> & Hx). unfold readKind. cbn [app]. destruct (Z.ltb_spec x 128); [|lia].
    rewrite uN_id by (unfold in_uN; zl). destruct (Z.ltb_spec (zlen (x :: rest) - 0) 1); [zl|]. done.
  - unfold header in *. cbn [small_tag large_tag] in *. destruct (Z.ltb_spec (zlen c) 56); [|naive_solver].
    cbn [app] in *. unfold readKind.
    destruct (Z.ltb_spec (128 + zlen c) 128), (Z.ltb_spec (128 + zlen c) 184); try lia.
    replace (128 + zlen c - 128) with (zlen c) by lia.
    replace ((zlen c =? 1) && (1 <? zlen (128 + zlen c :: c ++ rest)) && (nth 0 (c ++ rest) 0 <? 128)) with false.
    + rewrite uN_id by (unfold in_uN; zl).
      destruct (Z.ltb_spec (zlen (128 + zlen c :: c ++ rest) - 1) (zlen c)); [zl|]. do 3 f_equal. zl.
    + destruct (Z.eqb_spec (zlen c) 1); [|done]. destruct c as [|x [|y c]]; [done| |zl].
      specialize (Hk x eq_refl). cbn. destruct (Z.ltb_spec x 128); [lia|]. by rewrite andb_false_r.
  - unfold header in *. cbn [small_tag large_tag] in *. destruct (Z.ltb_spec (zlen c) 56); [|naive_solver].
    cbn [app] in *. unfold readKind.
    destruct (Z.ltb_spec (192 + zlen c) 128), (Z.ltb_spec (192 + zlen c) 184), (Z.ltb_spec (192 + zlen c) 192),
      (Z.ltb_spec (192 + zlen c) 248); try lia.
    replace (192 + zlen c - 192) with (zlen c) by lia. rewrite uN_id by (unfold in_uN; zl).
    destruct (Z.ltb_spec (zlen (192 + zlen c :: c ++ rest) - 1) (zlen c)); [zl|]. do 3 f_equal. zl.
Qed.

Lemma raw_item_head_len k c : raw_ok k c -> 0 <= zlen (raw_item k c) - zlen c /\ 0 < zlen (raw_item k c).
Proof.
  intros Hk. pose proof (zlen_nonneg c). unfold raw_item. destruct k.
  - destruct Hk as (x & -> & _). change (zlen [x]) with 1. lia.
  - rewrite zlen_app. pose proof (header_pos (small_tag KString) (large_tag KString) (zlen c)). lia.
  - rewrite zlen_app. pose proof (header_pos (small_tag KList) (large_tag KList) (zlen c)). lia.
Qed.

(** An item is a head followed by its content. *)
Lemma raw_item_split k c : raw_ok k c -> exists h, raw_item k c = h ++ c /\ zlen h = zlen (raw_item k c) - zlen c.
Proof.
  intros Hk. unfold raw_item. destruct k; [exists []|exists (khead KString (zlen c))|exists (khead KList (zlen c))];
    (split; [done|]); rewrite ?zlen_app; rewrite ?zlen_nil; lia.
Qed.

Lemma Split_item k c rest : raw_ok k c -> zlen (raw_item k c ++ rest) < 2 ^ 64 ->
  Split (raw_item k c ++ rest) = Ok (k, c, rest).
Proof.
  intros Hk Hm. unfold Split. rewrite readKind_item by done.
  destruct (raw_item_split k c Hk) as (h & Eh & <-). rewrite Eh in *. rewrite <- (assoc app).
  rewrite !zlen_app in Hm. rewrite uN_id by (unfold in_uN; zl). rewrite slice_mid.
  rewrite <- zlen_app, slice_from_app. done.
Qed.

Lemma take_content (b : list Z) n : 0 <= n <= zlen b -> exists c rest, b = c ++ rest /\ zlen c = n.
Proof.
  intros Hn. exists (take (Z.to_nat n) b), (drop (Z.to_nat n) b). split; [by rewrite take_drop|].
  unfold zlen in *. rewrite length_take. lia.
Qed.

(** A long header read by [readKind] is the header of its content. *)
Lemma readSize_item k l x b n : bytes_ok b -> 1 <= l <= 8 -> k <> KByte -> x = large_tag k + l ->
  zlen (x :: b) < 2 ^ 64 -> readSize b l = Ok n ->
  (u64 (zlen (x :: b) - (l + 1)) <? n) = false ->
  exists c rest, raw_ok k c /\ x :: b = raw_item k c ++ rest /\ n = zlen c.
Proof.
  intros Hb Hl Hk -> Hm E Hn. destruct (readSize_inv b l n Hb Hl E) as (Hr & r0 & -> & <-).
  rewrite zlen_cons, zlen_app in *. pose proof (zlen_nonneg r0).
  rewrite uN_id in Hn by (unfold in_uN; lia). zbool.
  destruct (take_content r0 n) as (c & rest & -> & <-); [lia|]. exists c, rest. split; [|split; [|done]].
  - destruct k; [done|intros y ->; change (zlen [y]) with 1 in Hr; lia|done].
  - unfold raw_item, header. destruct (Z.ltb_spec (zlen c) 56); [lia|].
    destruct k; [done|..]; cbn; by rewrite <- (assoc app).
Qed.

(** What [readKind] accepts starts with an item. *)
Lemma readKind_inv b k ts cs : bytes_ok b -> zlen b < 2 ^ 64 -> readKind b = Ok (k, ts, cs) ->
  exists c rest, raw_ok k c /\ b = raw_item k c ++ rest /\ cs = zlen c.
Proof.
  intros Hb Hm E. destruct b as [|x b]; [done|]. apply bytes_ok_cons in Hb as [Hx Hb].
  unfold byte_ok in Hx. pose proof (zlen_nonneg b). unfold readKind in E.
  destruct (Z.ltb_spec x 0x80).
  { destruct (_ <? 1); [done|]. injection E as <- <- <-. exists [x], b. split; [by exists x|done]. }
  destruct (Z.ltb_spec x 0xB8).
  { destruct (_ && _ && _) eqn:Ec in E; [done|]. rewrite zlen_cons in Hm, E.
    rewrite uN_id in E by (unfold in_uN; lia).
    destruct (Z.ltb_spec (1 + zlen b - 1) (x - 128)); [done|]. injection E as <- <- <-.
    destruct (take_content b (x - 128)) as (c & rest & -> & Lc); [lia|]. exists c, rest.
    rewrite <- Lc. split; [|split; [|done]].
    - intros y ->. rewrite <- Lc in Ec. cbn in Ec.
      destruct (Z.ltb_spec 1 (zlen (x :: y :: rest))); [|zl]. destruct (Z.ltb_spec y 128); [done|lia].
    - cbn [raw_item]. unfold header. cbn [small_tag large_tag]. destruct (Z.ltb_spec (zlen c) 56); [|lia].
      cbn. f_equal. lia. }
  destruct (Z.ltb_spec x 0xC0).
  { destruct (readSize b (x - 183)) as [n| | |] eqn:Es; try done. casem_in E; [done|]. injection E as <- <- <-.
    eapply (readSize_item KString (x - 183)); cbn; try done; lia. }
  destruct (Z.ltb_spec x 0xF8).
  - rewrite zlen_cons in Hm, E. rewrite uN_id in E by (unfold in_uN; lia).
    destruct (Z.ltb_spec (1 + zlen b - 1) (x - 192)); [done|]. injection E as <- <- <-.
    destruct (take_content b (x - 192)) as (c & rest & -> & Lc); [lia|]. exists c, rest.
    rewrite <- Lc. split; [done|]. split; [|done].
    cbn [raw_item]. unfold header. cbn [small_tag large_tag]. destruct (Z.ltb_spec (zlen c) 56); [|lia].
    cbn. f_equal. lia.
  - destruct (readSize b (x - 247)) as [n| | |] eqn:Es; try done. casem_in E; [done|]. injection E as <- <- <-.
    eapply (readSize_item KList (x - 247)); cbn; try done; lia.
Qed.

Lemma Split_inv b k c rest : bytes_ok b -> zlen b < 2 ^ 64 -> Split b = Ok (k, c, rest) ->
  raw_ok k c /\ b = raw_item k c ++ rest.
Proof.
  intros Hb Hm E. pose proof E as E'. unfold Split in E.
  destruct (readKind b) as [[[k' ts] cs]| | |] eqn:Ek; try done.
  destruct (readKind_inv b k' ts cs Hb Hm Ek) as (c' & r' & Hk & -> & _).
  rewrite Split_item in E' by done. injection E' as -> -> ->. done.
Qed.

(** ** Counting *)

Definition items_bytes (its : list (Kind * list Z)) : list Z := concat ((fun kc => raw_item kc.1 kc.2) <$> its).

Lemma count_loop_items its : Forall (fun kc => raw_ok kc.1 kc.2) its -> forall fuel i,
  zlen (items_bytes its) < 2 ^ 64 -> (length (items_bytes its) <= fuel)%nat ->
  count_loop fuel (items_bytes its) i = Ok (i + zlen its).
Proof.
  induction 1 as [|[k c] its Hk H IH]; intros fuel i Hm Hf.
  - destruct fuel; cbn; f_equal; unfold zlen; cbn; lia.
  - change (items_bytes ((k, c) :: its)) with (raw_item k c ++ items_bytes its) in *.
    cbn [fst snd] in Hk. destruct (raw_item_head_len k c Hk) as [_ Hp].
    destruct (raw_item_split k c Hk) as (h & Eh & Lh).
    rewrite length_app in Hf. pose proof (zlen_nonneg (items_bytes its)). pose proof (zlen_nonneg c).
    pose proof (zlen_nonneg h). rewrite zlen_app in Hm.
    destruct fuel as [|f]; [unfold zlen in Hp; lia|].
    assert (Er := readKind_item k c (items_bytes its) Hk ltac:(rewrite zlen_app; lia)).
    destruct (raw_item k c ++ items_bytes its) as [|x l] eqn:El.
    { apply app_eq_nil in El as [El _]. by rewrite El in Hp. }
    cbn [count_loop]. rewrite Er, <- El.
    replace (zlen (raw_item k c) - zlen c + zlen c) with (zlen (raw_item k c)) by lia.
    rewrite uN_id by (unfold in_uN; lia). rewrite slice_from_app, IH; [|lia|unfold zlen in Hp; lia].
    f_equal. rewrite zlen_cons. lia.
Qed.

Lemma readKind_total b : match readKind b with Ok _ | Err _ => True | _ => False end.
Proof.
  unfold readKind. destruct b as [|x b]; [done|].
  assert (R : forall l, match readSize b l with Ok _ | Err _ => True | _ => False end)
    by (intros l; unfold readSize; by repeat casem).
  pose proof (R (x - 183)). pose proof (R (x - 247)).
  destruct (x <? 128); [by casem|]. destruct (x <? 184); [by repeat casem|].
  destruct (x <? 192); [destruct (readSize b (x - 183)); by try casem|].
  destruct (x <? 248); [by casem|]. destruct (readSize b (x - 247)); by try casem.
Qed.

Lemma count_loop_inv fuel : forall b i, bytes_ok b -> zlen b < 2 ^ 64 -> (length b <= fuel)%nat ->
  match count_loop fuel b i with
  | Ok n => exists its, b = items_bytes its /\ Forall (fun kc => raw_ok kc.1 kc.2) its /\ n = i + zlen its
  | Err _ => True
  | _ => False
  end.
Proof.
  induction fuel as [|f IH]; intros b i Hb Hm Hf.
  { destruct b; [|cbn in Hf; lia]. exists []. split; [done|]. split; [constructor|]. rewrite zlen_nil. lia. }
  destruct b as [|x b']; [exists []; split; [done|]; split; [constructor|]; rewrite zlen_nil; lia|].
  cbn [count_loop]. set (b := x :: b') in *.
  destruct (readKind b) as [[[k ts] cs]| | |] eqn:Ek; try done.
  2,3: pose proof (readKind_total b) as T; by rewrite Ek in T.
  destruct (readKind_inv b k ts cs Hb Hm Ek) as (c & rest & Hk & Eb & ->).
  rewrite Eb in Ek, Hm, Hf, Hb |- *. rewrite readKind_item in Ek by done. injection Ek as <-.
  destruct (raw_item_head_len k c Hk) as [_ Hp]. pose proof (zlen_nonneg rest). rewrite zlen_app in Hm.
  rewrite length_app in Hf. apply bytes_ok_app in Hb as [_ Hb].
  replace (zlen (raw_item k c) - zlen c + zlen c) with (zlen (raw_item k c)) by lia.
  rewrite uN_id by (unfold in_uN; lia). rewrite slice_from_app.
  specialize (IH rest (i + 1) Hb ltac:(lia) ltac:(unfold zlen in Hp; lia)).
  destruct (count_loop f rest (i + 1)) as [n| | |]; try done. destruct IH as (its & -> & Hi & ->).
  exists ((k, c) :: its). split; [done|]. split; [by constructor|]. rewrite zlen_cons. lia.
Qed.

(** ** Theorems *)

(** C12: [Split] accepts exactly the canonical items: it returns kind [k], content
    [c] and rest if and only if the input is the canonical item of kind [k] with
    content [c], followed by the rest. *)
Theorem Split_canonical (b : list Z) (k : Kind) (c rest : list Z) : bytes_ok b -> zlen b < 2 ^ 64 ->
  Split b = Ok (k, c, rest) <-> raw_ok k c /\ b = raw_item k c ++ rest.
Proof.
  intros Hb Hm. split; [by apply Split_inv|]. intros [Hk ->]. by apply Split_item.
Qed.

Lemma Split_canonical_witness :
  Split [0x83; 1; 2; 3; 0xC0] = Ok (KString, [1; 2; 3], [0xC0]) <->
  raw_ok KString [1; 2; 3] /\ [0x83; 1; 2; 3; 0xC0] = raw_item KString [1; 2; 3] ++ [0xC0].
Proof.
  apply (Split_canonical [0x83; 1; 2; 3; 0xC0] KString [1; 2; 3] [0xC0]).
  - repeat constructor; unfold byte_ok; lia.
  - vm_compute. reflexivity.
Defined.

(** [CountValues] returns on every input, and returns [n] exactly when the
    input is a sequence of [n] canonical items. *)
Theorem CountValues_correct (b : list Z) : bytes_ok b -> zlen b < 2 ^ 64 ->
  ((exists n, CountValues b = Ok n) \/ (exists e, CountValues b = Err e)) /\
  forall n, CountValues b = Ok n <->
    exists its, b = items_bytes its /\ Forall (fun kc => raw_ok kc.1 kc.2) its /\ n = zlen its.
Proof.
  intros Hb Hm. unfold CountValues. pose proof (count_loop_inv (length b) b 0 Hb Hm ltac:(done)) as L.
  split; [destruct (count_loop _ _ _); by eauto|]. intros n. split.
  - intros E. by rewrite E in L.
  - intros (its & -> & Hi & ->). by rewrite count_loop_items.
Qed.

Lemma CountValues_correct_witness :
  ((exists n, CountValues [0x05; 0x82; 1; 2; 0xC1; 0x07] = Ok n) \/
   (exists e, CountValues [0x05; 0x82; 1; 2; 0xC1; 0x07] = Err e)) /\
  forall n, CountValues [0x05; 0x82; 1; 2; 0xC1; 0x07] = Ok n <->
    exists its, [0x05; 0x82; 1; 2; 0xC1; 0x07] = items_bytes its /\
      Forall (fun kc => raw_ok kc.1 kc.2) its /\ n = zlen its.
Proof.
  apply (CountValues_correct [0x05; 0x82; 1; 2; 0xC1; 0x07]).
  - repeat constructor; unfold byte_ok; lia.
  - vm_compute. reflexivity.
Defined.
