(* ===== verification/GoBytes.v ===== *)
(** * Go's [bytes.Compare], [sort.Sort] and [encoding/binary] varints

    [bytes.Compare] with the order laws a sort relies on, [sort.Sort] on a
    total order, [binary.PutUvarint] with the fact that its codes are
    prefix free, and the other variable-length integers. *)
From S2P Require Import Prelude.
From stdpp Require Import sorting.
Local Open Scope Z_scope.
(** [bytes.Compare]: lexicographic, -1, 0 or 1. *)
Fixpoint Compare (a b : list Z) : Z :=
  match a, b with
  | [], [] => 0
  | [], _ :: _ => -1
  | _ :: _, [] => 1
  | x :: a', y :: b' => if x <? y then -1 else if y <? x then 1 else Compare a' b'
  end.

Lemma Compare_refl a : Compare a a = 0.
Proof. induction a as [|x a IH]; cbn; [done|]. by rewrite Z.ltb_irrefl. Qed.

Lemma Compare_eq a b : Compare a b = 0 -> a = b.
Proof.
  revert b. induction a as [|x a IH]; intros [|y b]; cbn; try done.
  destruct (Z.ltb_spec x y), (Z.ltb_spec y x); try done.
  intros H'. f_equal; [lia|auto].
Qed.

Lemma Compare_anti a b : Compare b a = - Compare a b.
Proof.
  revert b. induction a as [|x a IH]; intros [|y b]; cbn; try done.
  destruct (Z.ltb_spec x y), (Z.ltb_spec y x); try done; lia.
Qed.

Lemma Compare_cases a b : Compare a b = -1 \/ Compare a b = 0 \/ Compare a b = 1.
Proof.
  revert b. induction a as [|x a IH]; intros [|y b]; cbn; auto.
  destruct (Z.ltb_spec x y), (Z.ltb_spec y x); auto.
Qed.

Lemma Compare_trans a b c : Compare a b = -1 -> Compare b c = -1 -> Compare a c = -1.
Proof.
  revert b c. induction a as [|x a IH]; intros [|y b] [|z c]; cbn; try done.
  destruct (Z.ltb_spec x y), (Z.ltb_spec y z), (Z.ltb_spec x z),
    (Z.ltb_spec y x), (Z.ltb_spec z y), (Z.ltb_spec z x); try done; try lia; eauto.
Qed.

(** ** [sort.Sort]

    The library's sort is not stable, but on a total order that is
    antisymmetric the sorted permutation is unique, so that any sort gives it. *)
Section sort.
Context {A : Type} (le : relation A) `{!forall x y, Decision (le x y)}.
Context `{!Total le, !Transitive le, !AntiSymm eq le}.

Definition Sort (l : list A) : list A := merge_sort le l.

Lemma Sort_perm l : Sort l ≡ₚ l.
Proof. apply merge_sort_Permutation. Qed.

Lemma Sort_sorted l : StronglySorted le (Sort l).
Proof. apply StronglySorted_merge_sort; apply _. Qed.

Lemma Sort_unique l k : l ≡ₚ k -> Sort l = Sort k.
Proof.
  intros Hlk. apply (StronglySorted_unique le); [apply Sort_sorted..|].
  by rewrite !Sort_perm.
Qed.
End sort.

(** ** [binary.PutUvarint] *)

(** The loop [for x >= 0x80]; a [uint64] takes at most ten rounds. *)
Fixpoint uvarint_loop (fuel : nat) (x : Z) : list Z :=
  match fuel with
  | O => [u8 x]
  | S f => if 128 <=? x then Z.lor (u8 x) 128 :: uvarint_loop f (Z.shiftr x 7)
           else [u8 x]
  end.

Definition PutUvarint (x : Z) : list Z := uvarint_loop 10 x.

Lemma lor_128 x : 0 <= x -> Z.lor (u8 x) 128 = 128 + x mod 128.
Proof.
  intros H. unfold uN. change (2 ^ 8) with 256.
  assert (x mod 256 = x mod 128 \/ x mod 256 = 128 + x mod 128) as D.
  { pose proof (Z.mod_pos_bound x 128 ltac:(lia)).
    replace (x mod 256) with (x mod (128 * 2)) by done.
    rewrite Z.rem_mul_r by lia. pose proof (Z.mod_pos_bound (x / 128) 2 ltac:(lia)). nia. }
  pose proof (Z.mod_pos_bound x 128 ltac:(lia)) as B.
  assert (Z.lor (x mod 128) 128 = 128 + x mod 128) as L.
  { rewrite Z.lor_comm. symmetry. rewrite <- Z.add_lor_land.
    change 128 with (2 ^ 7) at 4. rewrite <- (Z.land_ones x 7) by lia.
    rewrite (Z.land_comm x), Z.land_assoc.
    change (Z.land 128 (Z.ones 7)) with 0. rewrite Z.land_0_l. lia. }
  destruct D as [-> | ->]; [done|].
  rewrite <- L at 1. by rewrite <- Z.lor_assoc.
Qed.

(** No code is a proper prefix of another one: the value and what follows the
    code are determined by the bytes. *)
Lemma uvarint_loop_inj f x y k l : 0 <= x < 2 ^ (7 * Z.of_nat (S f)) ->
  0 <= y < 2 ^ (7 * Z.of_nat (S f)) ->
  uvarint_loop f x ++ k = uvarint_loop f y ++ l -> x = y /\ k = l.
Proof.
  revert x y. induction f as [|f IH]; intros x y Hx Hy.
  - change (2 ^ (7 * Z.of_nat 1)) with 128 in *. cbn [uvarint_loop app].
    unfold uN. rewrite !Z.mod_small by lia. by intros [= -> ->].
  - replace (2 ^ (7 * Z.of_nat (S (S f)))) with (2 ^ (7 * Z.of_nat (S f)) * 128) in *
      by (rewrite <- (Z.pow_add_r 2 _ 7) by lia; f_equal; lia).
    assert (forall z, 0 <= z < 128 -> u8 z = z) as U by (intros; apply Z.mod_small; lia).
    pose proof (Z.mod_pos_bound x 128 ltac:(lia)).
    pose proof (Z.mod_pos_bound y 128 ltac:(lia)).
    cbn [uvarint_loop].
    destruct (Z.leb_spec 128 x), (Z.leb_spec 128 y); cbn [app];
      rewrite ?lor_128, ?U by lia; intros [= E1 E2]; try lia; [|done].
    apply IH in E2 as [E2 ->];
      rewrite ?Z.shiftr_div_pow2 by lia; change (2 ^ 7) with 128 in *.
    + rewrite !Z.shiftr_div_pow2 in E2 by lia. change (2 ^ 7) with 128 in *.
      split; [|done]. rewrite (Z.div_mod x 128), (Z.div_mod y 128) by lia. lia.
    + split; [apply Z.div_pos; lia|apply Z.div_lt_upper_bound; lia].
    + split; [apply Z.div_pos; lia|apply Z.div_lt_upper_bound; lia].
Qed.

Lemma PutUvarint_inj x y k l : in_uN 64 x -> in_uN 64 y ->
  PutUvarint x ++ k = PutUvarint y ++ l -> x = y /\ k = l.
Proof.
  unfold in_uN. intros Hx Hy.
  assert (2 ^ 64 <= 2 ^ (7 * Z.of_nat 11)) by (apply Z.pow_le_mono_r; lia).
  apply uvarint_loop_inj; lia.
Qed.

(** ** Variable-length integers of Go's encoding/binary

    [binary.Uvarint], [binary.PutVarint] and [binary.Varint] (the functions of
    Go 1.14, the version of the repository's go.mod; [binary.PutUvarint] is
    above), with the facts the codecs rely on: a value reads back from its
    code whatever follows, and no code is longer than the input or ten bytes. *)

(** The loop of [Uvarint] at index [i], with the shift [s] and the value [x] so far. *)
Fixpoint Uvarint_loop (i s x : Z) (buf : list Z) : Z * Z :=
  match buf with
  | [] => (0, 0)
  | b :: buf' =>
      if b <? 128 then
        if (9 <? i) || ((i =? 9) && (1 <? b)) then (0, - (i + 1))
        else (Z.lor x (u64 (Z.shiftl b s)), i + 1)
      else Uvarint_loop (i + 1) (s + 7) (Z.lor x (u64 (Z.shiftl (Z.land b 127) s))) buf'
  end.

(** The value and the number of bytes read: zero when the input ends first,
    negative when the value does not fit 64 bits. *)
Definition Uvarint (buf : list Z) : Z * Z := Uvarint_loop 0 0 0 buf.

Definition PutVarint (x : Z) : list Z :=
  let ux := u64 (Z.shiftl (u64 x) 1) in
  PutUvarint (if x <? 0 then u64 (Z.lnot ux) else ux).

Definition Varint (buf : list Z) : Z * Z :=
  let (ux, n) := Uvarint buf in
  let x := s64 (Z.shiftr ux 1) in
  (if Z.land ux 1 =? 0 then x else s64 (Z.lnot x), n).

(** ** Bounds *)

Lemma lor_u64 x y : in_uN 64 x -> in_uN 64 y -> in_uN 64 (Z.lor x y).
Proof.
  unfold in_uN. intros Hx Hy. split; [apply Z.lor_nonneg; lia|].
  destruct (Z.eq_dec (Z.lor x y) 0) as [->|N]; [lia|].
  apply Z.log2_lt_pow2; [pose proof (proj2 (Z.lor_nonneg x y)); lia|].
  rewrite Z.log2_lor by lia. apply Z.max_lub_lt.
  - destruct (Z.eq_dec x 0) as [->|]; [cbn; lia|]. apply Z.log2_lt_pow2; lia.
  - destruct (Z.eq_dec y 0) as [->|]; [cbn; lia|]. apply Z.log2_lt_pow2; lia.
Qed.

Lemma Uvarint_loop_bounds buf : forall i s x u n, 0 <= i -> in_uN 64 x -> Uvarint_loop i s x buf = (u, n) ->
  in_uN 64 u /\ (n <= 0 \/ i < n <= i + zlen buf) /\ n <= 10.
Proof.
  induction buf as [|b buf IH]; intros i s x u n Hi Hx; cbn.
  - intros [= <- <-]. unfold in_uN. lia.
  - pose proof (uN_range 64 (Z.shiftl b s) ltac:(lia)). pose proof (uN_range 64 (Z.shiftl (Z.land b 127) s) ltac:(lia)).
    destruct (b <? 128).
    + destruct (_ || _) eqn:G; intros [= <- <-]; [unfold in_uN; lia|]. apply orb_false_elim in G as [G _]. zbool.
      split; [by apply lor_u64|]. clear - Hi G. zl.
    + intros E. apply IH in E as (H1 & H2 & H3); [|lia|by apply lor_u64]. split; [done|]. clear - H2 H3 Hi. zl.
Qed.

Lemma Uvarint_bounds buf u n : Uvarint buf = (u, n) -> in_uN 64 u /\ (n <= 0 \/ 0 < n <= zlen buf) /\ n <= 10.
Proof. intros E. apply Uvarint_loop_bounds in E; [done|lia|]. unfold in_uN. lia. Qed.

Lemma Varint_bounds buf x n : Varint buf = (x, n) -> in_sN 64 x /\ (n <= 0 \/ 0 < n <= zlen buf) /\ n <= 10.
Proof.
  unfold Varint. destruct (Uvarint buf) as [u m] eqn:E. intros [= <- <-]. apply Uvarint_bounds in E as (_ & H).
  split; [|done]. destruct (_ =? 0); apply sN_range; lia.
Qed.

(** ** Round trips *)

Lemma lor_low acc x s : 0 <= s -> 0 <= acc < 2 ^ s -> 0 <= x -> Z.lor acc (Z.shiftl x s) = acc + 2 ^ s * x.
Proof.
  intros Hs Ha Hx. rewrite Z.shiftl_mul_pow2, (Z.mul_comm x) by lia. rewrite <- Z.add_lor_land.
  replace (Z.land acc (2 ^ s * x)) with 0; [lia|].
  symmetry. apply Z.bits_inj'. intros n Hn. rewrite Z.land_spec, Z.bits_0.
  destruct (Z.lt_ge_cases n s).
  - rewrite (Z.mul_comm (2 ^ s)), (Z.mul_pow2_bits_low x) by lia. apply andb_false_r.
  - destruct (Z.eq_dec acc 0) as [->|]; [by rewrite Z.bits_0|].
    rewrite (Z.bits_above_log2 acc) by (try lia; assert (Z.log2 acc < s) by (apply Z.log2_lt_pow2; lia); lia). done.
Qed.

Lemma Uvarint_loop_put (f : nat) : forall i acc x k, 0 <= i <= 9 -> Z.of_nat f = 10 - i ->
  0 <= acc < 2 ^ (7 * i) -> 0 <= x < 2 ^ (64 - 7 * i) ->
  Uvarint_loop i (7 * i) acc (uvarint_loop f x ++ k) = (acc + 2 ^ (7 * i) * x, i + zlen (uvarint_loop f x)).
Proof.
  induction f as [|f IH]; intros i acc x k Hi Hf Ha Hx; [lia|].
  assert (2 ^ (7 * i) * 2 ^ (64 - 7 * i) = 2 ^ 64) as P by (rewrite <- Z.pow_add_r by lia; f_equal; lia).
  cbn [uvarint_loop]. destruct (Z.leb_spec 128 x) as [L|L]; cbn [app Uvarint_loop].
  - assert (i < 9) as Hi'.
    { destruct (Z.eq_dec i 9) as [->|]; [|lia]. change (2 ^ (64 - 7 * 9)) with 2 in Hx. lia. }
    assert (0 <= x mod 128 < 128) as M by (apply Z.mod_pos_bound; lia).
    rewrite lor_128 by lia. replace (128 + x mod 128 <? 128) with false by (symmetry; apply Z.ltb_ge; lia).
    replace (Z.land (128 + x mod 128) 127) with (x mod 128).
    2: { change 127 with (Z.ones 7). rewrite Z.land_ones by lia. change (2 ^ 7) with 128.
         rewrite <- Z.add_mod_idemp_l by lia. change (128 mod 128) with 0. rewrite Z.add_0_l. by rewrite Z.mod_mod by lia. }
    assert (2 ^ (7 * i) * 128 = 2 ^ (7 * (i + 1))) as P7.
    { replace (7 * (i + 1)) with (7 * i + 7) by lia. by rewrite Z.pow_add_r by lia. }
    assert (2 ^ (7 * (i + 1)) <= 2 ^ 64) by (apply Z.pow_le_mono_r; lia).
    assert (128 * 2 ^ (64 - 7 * (i + 1)) = 2 ^ (64 - 7 * i)) as P8.
    { change 128 with (2 ^ 7). rewrite <- Z.pow_add_r by lia. f_equal. lia. }
    assert (u64 (Z.shiftl (x mod 128) (7 * i)) = Z.shiftl (x mod 128) (7 * i)) as ->.
    { apply uN_id. unfold in_uN. rewrite Z.shiftl_mul_pow2 by lia. nia. }
    rewrite lor_low by lia. replace (7 * i + 7) with (7 * (i + 1)) by lia.
    rewrite Z.shiftr_div_pow2 by lia. change (2 ^ 7) with 128.
    rewrite IH; [| lia | lia | nia |
      split; [apply Z.div_pos; lia|apply Z.div_lt_upper_bound; lia]].
    f_equal; [|zl]. rewrite <- P7. pose proof (Z.div_mod x 128 ltac:(lia)). nia.
  - assert (u8 x = x) as -> by (apply uN_id; unfold in_uN; change (2 ^ 8) with 256; lia).
    replace (x <? 128) with true by (symmetry; apply Z.ltb_lt; lia).
    replace ((9 <? i) || ((i =? 9) && (1 <? x))) with false.
    2: { symmetry. apply orb_false_intro; [apply Z.ltb_ge; lia|]. apply andb_false_iff.
         destruct (Z.eqb_spec i 9) as [->|]; [right|by left]. change (2 ^ (64 - 7 * 9)) with 2 in Hx. apply Z.ltb_ge. lia. }
    assert (u64 (Z.shiftl x (7 * i)) = Z.shiftl x (7 * i)) as U.
    { apply uN_id. unfold in_uN. rewrite Z.shiftl_mul_pow2 by lia. nia. }
    rewrite U, lor_low by lia. done.
Qed.

Lemma Uvarint_PutUvarint x k : in_uN 64 x -> Uvarint (PutUvarint x ++ k) = (x, zlen (PutUvarint x)).
Proof.
  intros H. unfold Uvarint, PutUvarint.
  change (Uvarint_loop 0 0) with (Uvarint_loop 0 (7 * 0)). rewrite (Uvarint_loop_put 10 0 0 x k); unfold in_uN in H; try lia.
  change (2 ^ (7 * 0)) with 1. f_equal; lia.
Qed.

Lemma Varint_PutVarint x k : in_sN 64 x -> Varint (PutVarint x ++ k) = (x, zlen (PutVarint x)).
Proof.
  intros H. unfold in_sN in H. change (2 ^ (64 - 1)) with 9223372036854775808 in H. unfold PutVarint, Varint.
  set (ux := u64 (Z.shiftl (u64 x) 1)).
  assert (ux = if x <? 0 then 2 * x + 2 ^ 64 else 2 * x) as Eu.
  { unfold ux, uN. rewrite Z.shiftl_mul_pow2 by lia. rewrite Zmult_mod_idemp_l. change (2 ^ 1) with 2.
    destruct (Z.ltb_spec x 0).
    - rewrite <- (Z.mod_add (x * 2) 1) by lia. rewrite Z.mod_small; lia.
    - rewrite Z.mod_small; lia. }
  clearbody ux. destruct (Z.ltb_spec x 0) as [L|L]; subst ux.
  - assert (u64 (Z.lnot (2 * x + 2 ^ 64)) = - (2 * x) - 1) as ->.
    { unfold Z.lnot, uN. rewrite <- (Z.mod_add _ 1) by lia. rewrite Z.mod_small; lia. }
    rewrite Uvarint_PutUvarint by (unfold in_uN; lia).
    assert (Z.shiftr (- (2 * x) - 1) 1 = - x - 1) as ->.
    { rewrite Z.shiftr_div_pow2 by lia. change (2 ^ 1) with 2. Z.to_euclidean_division_equations. lia. }
    assert (Z.land (- (2 * x) - 1) 1 = 1) as ->.
    { change 1 with (Z.ones 1) at 2. rewrite Z.land_ones by lia. change (2 ^ 1) with 2. Z.to_euclidean_division_equations. lia. }
    rewrite (sN_id 64 (- x - 1)) by (unfold in_sN; lia). cbn -[sN Z.lnot]. f_equal.
    unfold Z.lnot. rewrite sN_id by (unfold in_sN; lia). lia.
  - rewrite Uvarint_PutUvarint by (unfold in_uN; lia).
    rewrite Z.shiftr_div_pow2 by lia. change (2 ^ 1) with 2. rewrite (Z.mul_comm 2), Z.div_mul by lia.
    change 1 with (Z.ones 1). rewrite Z.land_ones by lia. change (2 ^ 1) with 2. rewrite Z.mod_mul by lia.
    cbn -[sN]. rewrite sN_id by (unfold in_sN; lia). done.
Qed.

Lemma uvarint_loop_length f x : (1 <= length (uvarint_loop f x) <= S f)%nat.
Proof.
  revert x. induction f as [|f IH]; intros x; cbn; [lia|]. destruct (_ <=? x); cbn; [|lia]. specialize (IH (Z.shiftr x 7)). lia.
Qed.

Lemma uvarint_loop_short f : forall x k, 0 <= x < 2 ^ (7 * Z.of_nat (S k)) -> (length (uvarint_loop f x) <= S k)%nat.
Proof.
  induction f as [|f IH]; intros x k Hx; cbn; [lia|]. destruct (Z.leb_spec 128 x); cbn; [|lia].
  destruct k as [|k]; [change (2 ^ (7 * Z.of_nat 1)) with 128 in Hx; lia|].
  assert (length (uvarint_loop f (Z.shiftr x 7)) <= S k)%nat; [|lia]. apply IH.
  rewrite Z.shiftr_div_pow2 by lia. change (2 ^ 7) with 128. split; [apply Z.div_pos; lia|].
  apply Z.div_lt_upper_bound; [lia|]. replace (7 * Z.of_nat (S (S k))) with (7 + 7 * Z.of_nat (S k)) in Hx by lia.
  rewrite Z.pow_add_r in Hx by lia. change (2 ^ 7) with 128 in Hx. lia.
Qed.

Lemma PutUvarint_pos x : 1 <= zlen (PutUvarint x).
Proof. unfold PutUvarint, zlen. pose proof (uvarint_loop_length 10 x). lia. Qed.

Lemma PutUvarint_ok x : 0 <= x -> bytes_ok (PutUvarint x).
Proof.
  unfold PutUvarint. generalize 10%nat as f. intros f. revert x.
  assert (forall x, byte_ok (u8 x)) as U by (intros x; apply (uN_range 8 x); lia).
  induction f as [|f IH]; intros x Hx; cbn; [by constructor|].
  destruct (_ <=? x); [|by constructor]. constructor; [|apply IH, Z.shiftr_nonneg, Hx].
  rewrite lor_128 by done. pose proof (Z.mod_pos_bound x 128). unfold byte_ok. lia.
Qed.
