(* ===== verification/Merkle.v ===== *)
(** * The simple Merkle tree (src/tendermint/tmlibs/merkle)

    Root hashes ([simple_tree.go]), audit paths ([simple_proof.go]) and hashed
    maps ([simple_map.go]).  RIPEMD-160 is a parameter.  A [[]byte] is a list of
    bytes; where the code tells [nil] from an empty slice it is an [option].
    The nodes of the proof trails point at each other and are updated in place,
    so [trailsFromHashers] runs on a heap of nodes. *)

From stdpp Require Import sorting.
From S2P Require Import Prelude GoBytes.

(** [Hasher] of types.go. *)
Class Hasher (A : Type) := Hash : A -> list Z.

(** [cmn.KVPair], with the methods [Less] and [Sort] of tmlibs/common/kvpair.go. *)
Record KVPair := { Key : list Z; Value : list Z }.

#[export] Instance KVPair_eq_dec : EqDecision KVPair.
Proof. solve_decision. Defined.

Definition KVPairs_Less (a b : KVPair) : bool :=
  let c := Compare (Key a) (Key b) in
  if c =? -1 then true
  else if c =? 0 then Compare (Value a) (Value b) <? 0
  else false.

Definition kv_le (a b : KVPair) : Prop := KVPairs_Less b a = false.

#[export] Instance kv_le_dec a b : Decision (kv_le a b).
Proof. unfold kv_le. apply _. Defined.

Definition KVPairs_Sort (kvs : list KVPair) : list KVPair := Sort kv_le kvs.

(** [encodeByteSlice] and [encodeUvarint] into a hasher: the bytes written. *)
Definition encodeUvarint (i : Z) : list Z := PutUvarint i.

Definition encodeByteSlice (bz : list Z) : list Z := encodeUvarint (u64 (zlen bz)) ++ bz.

(** [SimpleProof] and the node type of simple_proof.go; a pointer is an index
    into the heap. *)
Record SimpleProof := { Aunts : list (list Z) }.

Record SimpleProofNode := {
  spn_Hash : list Z;
  Parent : option nat;
  Left : option nat;
  Right : option nat;
}.

Abbreviation heap := (list SimpleProofNode).

(** No operation of this package returns an [error]. *)
Abbreviation run A := (res Empty_set A).

(** [spn.Hash], a dereference: nil pointers panic. *)
Definition deref (h : heap) (p : option nat) : run SimpleProofNode :=
  match p ≫= (h !!.) with Some n => Ok n | None => Panic end.

(** [leftRoot.Parent = root; leftRoot.Right = rightRoot] and its mirror image. *)
Definition set_right (n : SimpleProofNode) (root sib : nat) : SimpleProofNode :=
  {| spn_Hash := spn_Hash n; Parent := Some root; Left := Left n; Right := Some sib |}.

Definition set_left (n : SimpleProofNode) (root sib : nat) : SimpleProofNode :=
  {| spn_Hash := spn_Hash n; Parent := Some root; Left := Some sib; Right := Right n |}.

(** [FlattenAunts]: the loop, with the remaining rounds as fuel. *)
Fixpoint flatten_loop (fuel : nat) (h : heap) (spn : option nat)
    (innerHashes : list (list Z)) : run (list (list Z)) :=
  match spn with
  | None => Ok innerHashes
  | Some _ =>
      match fuel with
      | O => NoFuel
      | S f =>
          let* n := deref h spn in
          match Left n, Right n with
          | Some l, _ =>
              let* ln := deref h (Some l) in
              flatten_loop f h (Parent n) (innerHashes ++ [spn_Hash ln])
          | None, Some r =>
              let* rn := deref h (Some r) in
              flatten_loop f h (Parent n) (innerHashes ++ [spn_Hash rn])
          | None, None => Ok innerHashes
          end
      end
  end.

(** A trail visits a node at most once: the heap's size is enough fuel. *)
Definition FlattenAunts (h : heap) (spn : option nat) : run (list (list Z)) :=
  flatten_loop (S (length h)) h spn [].

(** [SimpleMap]. *)
Record SimpleMap := { kvs : list KVPair; sorted : bool }.

Definition NewSimpleMap : SimpleMap := {| kvs := []; sorted := false |}.

Definition SimpleMap_Sort (sm : SimpleMap) : SimpleMap :=
  if sorted sm then sm else {| kvs := KVPairs_Sort (kvs sm); sorted := true |}.

(** [KVPairs()]: the sorted map and the copy. *)
Definition KVPairs (sm : SimpleMap) : SimpleMap * list KVPair :=
  let sm' := SimpleMap_Sort sm in (sm', kvs sm').

Section merkle.
Variable ripemd160 : list Z -> list Z.

Definition SimpleHashFromTwoHashes (left right : list Z) : list Z :=
  ripemd160 (encodeByteSlice left ++ encodeByteSlice right).

(** The split point [(len+1)/2]. *)
Definition half {A} (l : list A) : nat := ((length l + 1) / 2)%nat.

(** [SimpleHashFromHashes]; the two halves are shorter than the slice. *)
Fixpoint hash_from_hashes (fuel : nat) (hashes : list (list Z)) : list Z :=
  match hashes, fuel with
  | [], _ => []
  | [h], _ => h
  | _, O => []
  | _, S f =>
      let left := hash_from_hashes f (take (half hashes) hashes) in
      let right := hash_from_hashes f (drop (half hashes) hashes) in
      SimpleHashFromTwoHashes left right
  end.

Definition SimpleHashFromHashes (hashes : list (list Z)) : list Z :=
  hash_from_hashes (length hashes) hashes.

Definition SimpleHashFromBytes (bz : list Z) : list Z := ripemd160 bz.

Definition SimpleHashFromByteslices (bzs : list (list Z)) : list Z :=
  SimpleHashFromHashes (SimpleHashFromBytes <$> bzs).

Definition SimpleHashFromHashers {A} `{Hasher A} (items : list A) : list Z :=
  SimpleHashFromHashes (Hash <$> items).

(** [computeHashFromAunts].  Each call takes the last inner hash off, so the
    recursion is on the reversed slice; [None] is [nil]. *)
Fixpoint compute_from (index total : Z) (leafHash : option (list Z))
    (rev_inner : list (list Z)) : option (list Z) :=
  if (total <=? index) || (index <? 0) || (total <=? 0) then None
  else if total =? 1 then
    match rev_inner with
    | [] => leafHash
    | _ :: _ => None
    end
  else
    match rev_inner with
    | [] => None
    | last :: init =>
        let numLeft := s64 (total + 1) ÷ 2 in
        if index <? numLeft then
          match compute_from index numLeft leafHash init with
          | None => None
          | Some leftHash => Some (SimpleHashFromTwoHashes leftHash last)
          end
        else
          match compute_from (s64 (index - numLeft)) (s64 (total - numLeft)) leafHash init with
          | None => None
          | Some rightHash => Some (SimpleHashFromTwoHashes last rightHash)
          end
    end.

Definition computeHashFromAunts (index total : Z) (leafHash : option (list Z))
    (innerHashes : list (list Z)) : option (list Z) :=
  compute_from index total leafHash (reverse innerHashes).

(** [bytes.Equal] does not tell a nil root from an empty one. *)
Definition Verify (sp : SimpleProof) (index total : Z) (leafHash : option (list Z))
    (rootHash : list Z) : bool :=
  match computeHashFromAunts index total leafHash (Aunts sp) with
  | Some computedHash => bool_decide (computedHash = rootHash)
  | None => false
  end.

(** [trailsFromHashers] on the items' hashes: the trails, the root, the heap. *)
Fixpoint trails_from (fuel : nat) (items : list (list Z)) (h : heap)
    : run (list nat * option nat * heap) :=
  match items, fuel with
  | [], _ => Ok ([], None, h)
  | [x], _ =>
      let trail := length h in
      Ok ([trail], Some trail,
        h ++ [{| spn_Hash := x; Parent := None; Left := None; Right := None |}])
  | _, O => NoFuel
  | _, S f =>
      let* (lefts, leftRoot, h1) := trails_from f (take (half items) items) h in
      let* (rights, rightRoot, h2) := trails_from f (drop (half items) items) h1 in
      let* ln := deref h2 leftRoot in
      let* rn := deref h2 rightRoot in
      match leftRoot, rightRoot with
      | Some l, Some r =>
          let root := length h2 in
          let h3 := h2 ++ [{| spn_Hash := SimpleHashFromTwoHashes (spn_Hash ln) (spn_Hash rn);
                              Parent := None; Left := None; Right := None |}] in
          Ok (lefts ++ rights, Some root,
            <[r := set_left rn root l]> (<[l := set_right ln root r]> h3))
      | _, _ => Panic
      end
  end.

Definition trailsFromHashers {A} `{Hasher A} (items : list A) (h : heap)
    : run (list nat * option nat * heap) :=
  trails_from (length items) (Hash <$> items) h.

Definition SimpleProofsFromHashers {A} `{Hasher A} (items : list A)
    : run (list Z * list SimpleProof) :=
  let* (trails, rootSPN, h) := trailsFromHashers items [] in
  let* rn := deref h rootSPN in
  let* proofs := res_all ((fun trail =>
    let* a := FlattenAunts h (Some trail) in Ok {| Aunts := a |}) <$> trails) in
  Ok (spn_Hash rn, proofs).

(** [KVPair.Hash] of simple_map.go. *)
#[local] Instance KVPair_Hash : Hasher KVPair := fun kv =>
  ripemd160 (encodeByteSlice (Key kv) ++ encodeByteSlice (Value kv)).

Definition SimpleMap_Set {A} `{Hasher A} (sm : SimpleMap) (key : list Z) (value : A)
    : SimpleMap :=
  {| kvs := kvs sm ++ [{| Key := SimpleHashFromBytes key; Value := Hash value |}];
     sorted := false |}.

Definition hashKVPairs (l : list KVPair) : list Z := SimpleHashFromHashers l.

(** [SimpleMap.Hash]: the map it leaves behind and the root. *)
Definition SimpleMap_Hash (sm : SimpleMap) : SimpleMap * list Z :=
  let sm' := SimpleMap_Sort sm in (sm', hashKVPairs (kvs sm')).

(** The loop [for k, v := range m { sm.Set(k, v) }], in iteration order. *)
Definition set_all {A} `{Hasher A} (m : list (list Z * A)) : SimpleMap :=
  foldl (fun sm kv => SimpleMap_Set sm kv.1 kv.2) NewSimpleMap m.

Definition SimpleHashFromMap {A} `{Hasher A} (m : list (list Z * A)) : list Z :=
  (SimpleMap_Hash (set_all m)).2.

Definition SimpleProofsFromMap {A} `{Hasher A} (m : list (list Z * A))
    : run (list Z * list SimpleProof) :=
  SimpleProofsFromHashers (kvs (SimpleMap_Sort (set_all m))).
End merkle.
