(* ===== verification/MerkleSpec.v ===== *)
(** * Merkle proofs are complete and sound

    Every proof [SimpleProofsFromHashers] builds verifies against the root, and
    a proof that verifies is one of those, unless a string hashed on the way
    collides with one of the tree.
    The hash of a map does not depend on the iteration order. *)

From stdpp Require Import sorting.
From S2P Require Import Prelude GoBytes Merkle.

(** ** Halving a list *)

Lemma half_bounds {A} (l : list A) : (2 <= length l)%nat ->
  (1 <= half l < length l)%nat /\ (length l <= 2 * half l <= length l + 1)%nat.
Proof.
  intros H. unfold half. pose proof (Nat.div_mod (length l + 1) 2 ltac:(lia)).
  pose proof (Nat.mod_upper_bound (length l + 1) 2 ltac:(lia)). lia.
Qed.

Lemma half_ind {A} (P : list A -> Prop) : P [] -> (forall x, P [x]) ->
  (forall l, (2 <= length l)%nat -> P (take (half l) l) -> P (drop (half l) l) -> P l) ->
  forall l, P l.
Proof.
  intros H0 H1 H2 l. induction l as [l IH] using (induction_ltof1 _ length).
  unfold ltof in IH. destruct l as [|x [|y l]]; [done..|].
  pose proof (half_bounds (x :: y :: l) ltac:(cbn; lia)).
  apply H2; [cbn; lia|apply IH..]; rewrite ?length_take, ?length_drop; lia.
Qed.

Lemma lookup_halves {A} (l : list A) i : (2 <= length l)%nat ->
  l !! i = if decide (i < half l)%nat then take (half l) l !! i
           else drop (half l) l !! (i - half l)%nat.
Proof.
  intros H. destruct (decide _) as [L|L].
  - by rewrite lookup_take_lt.
  - rewrite lookup_drop. f_equal. lia.
Qed.

Lemma zlen_half {A} (l : list A) : (2 <= length l)%nat ->
  zlen (take (half l) l) = (zlen l + 1) / 2 /\
  zlen (drop (half l) l) = zlen l - (zlen l + 1) / 2.
Proof.
  intros H. pose proof (half_bounds l H). unfold zlen.
  rewrite length_take, length_drop, Nat.min_l by lia.
  assert (Z.of_nat (half l) = (Z.of_nat (length l) + 1) / 2) as E.
  { unfold half. rewrite Nat2Z.inj_div, Nat2Z.inj_add. done. }
  lia.
Qed.

(** ** The encoding hashed at a node is injective *)

(** Lengths a Go slice can have. *)
Definition fits (l : list Z) : Prop := zlen l < 2 ^ 63.

Lemma fits_u64 l : fits l -> u64 (zlen l) = zlen l /\ in_uN 64 (zlen l).
Proof.
  unfold fits. intros H. pose proof (zlen_nonneg l).
  assert (in_uN 64 (zlen l)) by (unfold in_uN; lia).
  split; [by apply uN_id|done].
Qed.

Lemma encodeByteSlice_inj a b k l : fits a -> fits b ->
  encodeByteSlice a ++ k = encodeByteSlice b ++ l -> a = b /\ k = l.
Proof.
  intros Ha Hb. unfold encodeByteSlice, encodeUvarint. rewrite <- !app_assoc.
  destruct (fits_u64 a Ha) as [-> Ia], (fits_u64 b Hb) as [-> Ib].
  intros E. apply PutUvarint_inj in E as [El E]; [|done..].
  apply app_inj_1 in E; [done|]. unfold zlen in El. lia.
Qed.

Lemma encode_pair_inj a b c d : fits a -> fits b -> fits c -> fits d ->
  encodeByteSlice a ++ encodeByteSlice b = encodeByteSlice c ++ encodeByteSlice d ->
  a = c /\ b = d.
Proof.
  intros Ha Hb Hc Hd E. apply encodeByteSlice_inj in E as [-> E]; [|done..].
  rewrite <- (app_nil_r (encodeByteSlice b)), <- (app_nil_r (encodeByteSlice d)) in E.
  by apply encodeByteSlice_inj in E as [-> _].
Qed.

(** ** Trails in the heap *)

(** [trail h t r a]: following parents from node [t] reaches [r], and the
    siblings met on the way have the hashes [a]. *)
Inductive trail (h : heap) : nat -> nat -> list (list Z) -> Prop :=
| trail_here r : trail h r r []
| trail_up_left t n l ln p r a :
    h !! t = Some n -> Left n = Some l -> h !! l = Some ln -> Parent n = Some p ->
    trail h p r a -> trail h t r (spn_Hash ln :: a)
| trail_up_right t n l ln p r a :
    h !! t = Some n -> Left n = None -> Right n = Some l -> h !! l = Some ln ->
    Parent n = Some p -> trail h p r a -> trail h t r (spn_Hash ln :: a).

(** A later heap: hashes never change, and a node with a sibling is final. *)
Definition later (h h' : heap) : Prop := forall p n, h !! p = Some n ->
  exists n', h' !! p = Some n' /\ spn_Hash n' = spn_Hash n /\
    (Left n <> None \/ Right n <> None -> n' = n).

(** A call leaves the nodes that exist alone. *)
Definition keeps (h h' : heap) : Prop := forall p, (p < length h)%nat -> h' !! p = h !! p.

Lemma keeps_later h h' : keeps h h' -> later h h'.
Proof.
  intros H p n E. exists n. rewrite H by (by eapply lookup_lt_Some). done.
Qed.

Lemma trail_later h h' t r a : later h h' -> trail h t r a -> trail h' t r a.
Proof.
  intros L. induction 1 as [r|t n l ln p r a E1 E2 E3 E4 _ IH
    |t n l ln p r a E1 E2 E3 E4 E5 _ IH]; [constructor| |].
  - destruct (L t n E1) as (n' & T1 & _ & T2), (L l ln E3) as (ln' & S1 & <- & _).
    rewrite T2 in T1 by (left; congruence). by eapply trail_up_left.
  - destruct (L t n E1) as (n' & T1 & _ & T2), (L l ln E4) as (ln' & S1 & <- & _).
    rewrite T2 in T1 by (right; congruence). by eapply trail_up_right.
Qed.

Lemma trail_app h t r a r' b : trail h t r a -> trail h r r' b -> trail h t r' (a ++ b).
Proof.
  induction 1; [done|..]; intros T; cbn; [eapply trail_up_left|eapply trail_up_right]; eauto.
Qed.

(** The loop of [FlattenAunts] collects the siblings, given a round per node. *)
Lemma flatten_trail h t r a f acc n : trail h t r a -> h !! r = Some n ->
  Left n = None -> Right n = None -> (length a < f)%nat ->
  flatten_loop f h (Some t) acc = Ok (acc ++ a).
Proof.
  intros T. revert f acc.
  induction T as [r|t m l ln p r a E1 E2 E3 E4 _ IH|t m l ln p r a E1 E2 E3 E4 E5 _ IH];
    intros [|f] acc Er Hl Hr Hf; cbn [length] in Hf; try lia;
    cbn [flatten_loop]; unfold deref; cbn.
  - rewrite Er, Hl, Hr. by rewrite app_nil_r.
  - rewrite E1, E2, E3, E4. cbn. rewrite IH by (try done; lia).
    by rewrite <- app_assoc.
  - rewrite E1, E2, E3, E4, E5. cbn. rewrite IH by (try done; lia).
    by rewrite <- app_assoc.
Qed.

Section proofs.
Variable ripemd160 : list Z -> list Z.

Abbreviation two := (SimpleHashFromTwoHashes ripemd160).
Abbreviation root_of := (SimpleHashFromHashes ripemd160).
Abbreviation compute := (computeHashFromAunts ripemd160).

(** ** The tree hash *)

Lemma hash_fuel f g hs : (length hs <= f)%nat -> (length hs <= g)%nat ->
  hash_from_hashes ripemd160 f hs = hash_from_hashes ripemd160 g hs.
Proof.
  revert f g. induction hs as [|x|hs H2 IH1 IH2] using half_ind; intros f g Hf Hg.
  - by destruct f, g.
  - by destruct f, g.
  - pose proof (half_bounds hs H2). destruct f as [|f]; [lia|]. destruct g as [|g]; [lia|].
    destruct hs as [|x [|y hs]]; [cbn in H2; lia..|]. cbn [hash_from_hashes].
    f_equal; [apply IH1|apply IH2]; rewrite ?length_take, ?length_drop; lia.
Qed.

Lemma root_of_split hs : (2 <= length hs)%nat ->
  root_of hs = two (root_of (take (half hs) hs)) (root_of (drop (half hs) hs)).
Proof.
  intros H. pose proof (half_bounds hs H) as B. unfold root_of.
  destruct (length hs) as [|f] eqn:L; [lia|].
  destruct hs as [|x [|y hs]]; [cbn in L; lia..|]. cbn [hash_from_hashes].
  f_equal; apply hash_fuel; rewrite ?length_take, ?length_drop, ?L; lia.
Qed.

(** ** Audit paths: what a proof should hold

    [Audit hs i a]: [a] are the roots of the sibling subtrees of leaf [i], from
    the leaf up. *)
Inductive Audit : list (list Z) -> nat -> list (list Z) -> Prop :=
| Audit_leaf x : Audit [x] 0 []
| Audit_left hs i a : (2 <= length hs)%nat -> (i < half hs)%nat ->
    Audit (take (half hs) hs) i a -> Audit hs i (a ++ [root_of (drop (half hs) hs)])
| Audit_right hs i a : (2 <= length hs)%nat -> (half hs <= i)%nat ->
    Audit (drop (half hs) hs) (i - half hs) a ->
    Audit hs i (a ++ [root_of (take (half hs) hs)]).

Lemma Audit_fun hs i a b : Audit hs i a -> Audit hs i b -> a = b.
Proof.
  intros Ha. revert b.
  induction Ha as [x|hs i a H2 Hi Ha IH|hs i a H2 Hi Ha IH]; intros b Hb;
    inversion Hb; subst; try (cbn in *; lia); auto; f_equal; auto.
Qed.

(** [total] at which [(total+1)/2] does not overflow. *)
Definition total_ok (n : Z) : Prop := n < 2 ^ 63 - 1.

Lemma compute_nil i total l : 0 <= i < total ->
  compute i total l [] = if total =? 1 then l else None.
Proof.
  intros H. unfold computeHashFromAunts. cbn.
  destruct (Z.leb_spec total i), (Z.ltb_spec i 0), (Z.leb_spec total 0); try lia. done.
Qed.

Lemma compute_snoc i total l a x : 0 <= i < total -> total_ok total ->
  compute i total l (a ++ [x]) =
    if total =? 1 then None
    else let k := (total + 1) / 2 in
         if i <? k then (fun y => two y x) <$> compute i k l a
         else (fun y => two x y) <$> compute (i - k) (total - k) l a.
Proof.
  intros H Ht. unfold total_ok in Ht. unfold computeHashFromAunts.
  rewrite reverse_snoc. cbn [compute_from].
  destruct (Z.leb_spec total i), (Z.ltb_spec i 0), (Z.leb_spec total 0); try lia.
  cbn [orb]. destruct (Z.eqb_spec total 1); [done|].
  pose proof (Z.div_mod (total + 1) 2 ltac:(lia)).
  pose proof (Z.mod_pos_bound (total + 1) 2 ltac:(lia)).
  rewrite (sN_id 64 (total + 1)) by (unfold in_sN; lia).
  rewrite Z.quot_div_nonneg by lia. cbv zeta.
  rewrite !sN_id by (unfold in_sN; lia).
  destruct (i <? (total + 1) / 2); by destruct (compute_from _ _ _ _ _).
Qed.

Lemma compute_out i total l a : ~ 0 <= i < total -> compute i total l a = None.
Proof.
  intros H. unfold computeHashFromAunts. destruct (reverse a); cbn;
  destruct (Z.leb_spec total i), (Z.ltb_spec i 0), (Z.leb_spec total 0); try done; lia.
Qed.

Lemma compute_nil_leaf i total a : compute i total None a = None.
Proof.
  unfold computeHashFromAunts. revert i total.
  induction (reverse a) as [|x b IH]; intros i total; cbn [compute_from];
    destruct ((total <=? i) || (i <? 0) || (total <=? 0)), (total =? 1); try done.
  rewrite !IH. by destruct (i <? _).
Qed.

(** At an inner node the code goes on with the half that holds the leaf. *)
Lemma compute_node (hs : list (list Z)) (i : nat) l a x : (2 <= length hs)%nat ->
  total_ok (zlen hs) -> (i < length hs)%nat ->
  compute (Z.of_nat i) (zlen hs) l (a ++ [x]) =
    if decide (i < half hs)%nat
    then (fun y => two y x) <$> compute (Z.of_nat i) (zlen (take (half hs) hs)) l a
    else (fun y => two x y) <$> compute (Z.of_nat (i - half hs)) (zlen (drop (half hs) hs)) l a.
Proof.
  intros H2 Ht Hi. pose proof (half_bounds hs H2). destruct (zlen_half hs H2) as [Z1 Z2].
  assert (Z.of_nat (half hs) = (zlen hs + 1) / 2) as E.
  { rewrite <- Z1. unfold zlen. rewrite length_take. lia. }
  rewrite compute_snoc by (unfold zlen in *; lia || done).
  destruct (Z.eqb_spec (zlen hs) 1); [unfold zlen in *; lia|]. cbv zeta.
  rewrite Z1, Z2, <- E. destruct (decide _), (Z.ltb_spec (Z.of_nat i) (Z.of_nat (half hs)));
    try lia; [done|]. by rewrite Nat2Z.inj_sub by lia.
Qed.

Lemma total_ok_halves (hs : list (list Z)) : total_ok (zlen hs) ->
  total_ok (zlen (take (half hs) hs)) /\ total_ok (zlen (drop (half hs) hs)).
Proof. unfold total_ok, zlen. rewrite length_take, length_drop. lia. Qed.

(** Completeness: an audit path computes the root. *)
Lemma Audit_computes hs i a x : Audit hs i a -> total_ok (zlen hs) -> hs !! i = Some x ->
  compute (Z.of_nat i) (zlen hs) (Some x) a = Some (root_of hs).
Proof.
  induction 1 as [y|hs i a H2 Hi Ha IH|hs i a H2 Hi Ha IH]; intros Ht Hx.
  - injection Hx as ->. done.
  - pose proof (lookup_lt_Some _ _ _ Hx). rewrite compute_node, decide_True by done.
    rewrite (lookup_halves hs i H2), decide_True in Hx by done.
    apply total_ok_halves in Ht as [Ht _].
    rewrite IH by done. cbn. by rewrite (root_of_split hs H2).
  - pose proof (lookup_lt_Some _ _ _ Hx). rewrite compute_node, decide_False by (done || lia).
    rewrite (lookup_halves hs i H2), decide_False in Hx by lia.
    apply total_ok_halves in Ht as [_ Ht].
    rewrite IH by done. cbn. by rewrite (root_of_split hs H2).
Qed.

(** ** What [trailsFromHashers] builds *)

(** The heap after a call on the hashes [hs]: old nodes kept, a parentless root
    with the tree's hash, and a trail with the audit path from each leaf. *)
Record built (h : heap) (hs : list (list Z)) (ts : list nat) (r : nat) (h' : heap) : Prop := {
  built_keeps : keeps h h';
  built_size : (length h + length hs <= length h')%nat;
  built_new : (length h <= r)%nat;
  built_root : h' !! r = Some {| spn_Hash := root_of hs; Parent := None;
                                 Left := None; Right := None |};
  built_trails : length ts = length hs;
  built_audit : forall i t, ts !! i = Some t -> exists a,
    Audit hs i a /\ trail h' t r a /\ (length a < length hs)%nat;
}.

(** Joining two roots under a new one. *)
Lemma join_later (h : heap) l r ln rn n root : h !! l = Some ln -> h !! r = Some rn ->
  l <> r -> root = length h ->
  Left ln = None -> Right ln = None -> Left rn = None -> Right rn = None ->
  let h' := <[r := set_left rn root l]> (<[l := set_right ln root r]> (h ++ [n])) in
  later h h' /\ h' !! root = Some n /\
  trail h' l root [spn_Hash rn] /\ trail h' r root [spn_Hash ln].
Proof.
  intros El Er Hne -> L1 L2 R1 R2 h'.
  pose proof (lookup_lt_Some _ _ _ El). pose proof (lookup_lt_Some _ _ _ Er).
  assert (h' !! r = Some (set_left rn (length h) l)) as Hr.
  { apply list_lookup_insert_eq. rewrite length_insert, length_app. lia. }
  assert (h' !! l = Some (set_right ln (length h) r)) as Hl.
  { unfold h'. rewrite list_lookup_insert_ne by done.
    apply list_lookup_insert_eq. rewrite length_app. lia. }
  split; [|split; [|split]].
  - intros p m Ep. pose proof (lookup_lt_Some _ _ _ Ep).
    destruct (decide (p = r)) as [->|]; [|destruct (decide (p = l)) as [->|]].
    + rewrite Er in Ep. injection Ep as <-. eexists; split; [done|]. split; [done|]. tauto.
    + rewrite El in Ep. injection Ep as <-. eexists; split; [done|]. split; [done|]. tauto.
    + exists m. split; [|done]. unfold h'. rewrite !list_lookup_insert_ne by done.
      by rewrite lookup_app_l.
  - unfold h'. rewrite !list_lookup_insert_ne by lia. by apply list_lookup_middle.
  - change (spn_Hash rn) with (spn_Hash (set_left rn (length h) l)).
    eapply trail_up_right; [done|done|done|done|done|constructor].
  - change (spn_Hash ln) with (spn_Hash (set_right ln (length h) r)).
    eapply trail_up_left; [done|done|done|done|constructor].
Qed.

Lemma built_join h h1 h2 h' hs ts1 ts2 r1 r2 root : (2 <= length hs)%nat ->
  built h (take (half hs) hs) ts1 r1 h1 -> built h1 (drop (half hs) hs) ts2 r2 h2 ->
  length h' = S (length h2) -> root = length h2 ->
  (forall p, (p < length h2)%nat -> p <> r1 -> p <> r2 -> h' !! p = h2 !! p) ->
  later h2 h' ->
  h' !! root = Some {| spn_Hash := root_of hs; Parent := None; Left := None; Right := None |} ->
  trail h' r1 root [root_of (drop (half hs) hs)] ->
  trail h' r2 root [root_of (take (half hs) hs)] ->
  built h hs (ts1 ++ ts2) root h'.
Proof.
  intros H2 [K1 S1 N1 R1 L1 A1] [K2 S2 N2 R2 L2 A2] Hlen -> Same LT RT T1 T2.
  pose proof (half_bounds hs H2) as B.
  rewrite length_take, Nat.min_l in * by lia. rewrite length_drop in *.
  split; [|lia|lia|done|rewrite length_app; lia|].
  - intros p Hp. rewrite Same by lia. rewrite K2 by lia. by apply K1.
  - intros i t Et. apply lookup_app_Some in Et as [Et|[Hi Et]].
    + pose proof (lookup_lt_Some _ _ _ Et). destruct (A1 _ _ Et) as (a & Ha & Ta & La).
      eexists. split; [apply Audit_left; [done|lia|done]|]. rewrite length_app. cbn [length].
      split; [|lia]. eapply trail_app; [|done].
      eapply trail_later; [done|]. eapply trail_later; [by apply keeps_later|done].
    + rewrite L1 in *. destruct (A2 _ _ Et) as (a & Ha & Ta & La).
      eexists. split; [apply Audit_right; [done|lia|done]|]. rewrite length_app. cbn [length].
      split; [|lia]. eapply trail_app; [|done]. by eapply trail_later.
Qed.

Lemma trails_built f hs h : hs <> [] -> (length hs <= f)%nat ->
  exists ts r h', trails_from ripemd160 f hs h = Ok (ts, Some r, h') /\ built h hs ts r h'.
Proof.
  revert f h. induction hs as [|x|hs H2 IH1 IH2] using half_ind; intros f h Hne Hf; [done|..].
  - exists [length h], (length h). eexists. split; [by destruct f|]. split.
    + intros p Hp. by rewrite lookup_app_l.
    + rewrite length_app. done.
    + done.
    + by apply list_lookup_middle.
    + done.
    + intros [|i] t [= <-]. exists []. split; [constructor|]. split; [constructor|cbn; lia].
  - destruct f as [|f]; [lia|]. pose proof (half_bounds hs H2) as B.
    assert (length (take (half hs) hs) = half hs) as Lt by (rewrite length_take; lia).
    pose proof (length_drop hs (half hs)) as Ld.
    destruct (IH1 f h) as (ts1 & r1 & h1 & E1 & B1);
      [intros N; rewrite N in Lt; cbn [length] in Lt; lia|lia|].
    destruct (IH2 f h1) as (ts2 & r2 & h2 & E2 & B2);
      [intros N; rewrite N in Ld; cbn [length] in Ld; lia|lia|].
    pose proof (lookup_lt_Some _ _ _ (built_root _ _ _ _ _ B1)) as R1.
    pose proof (built_root _ _ _ _ _ B1) as Root1.
    rewrite <- (built_keeps _ _ _ _ _ B2) in Root1 by done.
    destruct (join_later h2 r1 r2 _ _
      {| spn_Hash := two (root_of (take (half hs) hs)) (root_of (drop (half hs) hs));
         Parent := None; Left := None; Right := None |} (length h2)
      Root1 (built_root _ _ _ _ _ B2))
      as (LT & RT & T1 & T2); try done; [pose proof (built_new _ _ _ _ _ B2); lia|].
    eexists _, _, _. split.
    { destruct hs as [|x [|y hs]]; [cbn in H2; lia..|]. cbn [trails_from].
      rewrite E1, E2. unfold deref. cbn [mbind option_bind].
      rewrite Root1, (built_root _ _ _ _ _ B2). reflexivity. }
    eapply built_join; try done.
    + rewrite !length_insert, length_app. cbn. lia.
    + intros p Hp P1 P2. rewrite !list_lookup_insert_ne by done. by rewrite lookup_app_l.
    + by rewrite (root_of_split hs H2).
Qed.

Lemma res_all_fmap {E A B} (g : A -> res E B) (P : nat -> B -> Prop) l :
  (forall i x, l !! i = Some x -> exists y, g x = Ok y /\ P i y) ->
  exists ys, res_all (g <$> l) = Ok ys /\ length ys = length l /\
    forall i y, ys !! i = Some y -> P i y.
Proof.
  revert P. induction l as [|x l IH]; intros P H; [by exists []|].
  destruct (H 0%nat x eq_refl) as (y & Ey & Py).
  destruct (IH (fun i => P (S i))) as (ys & Eys & Ly & Pys); [intros i z; apply (H (S i))|].
  exists (y :: ys). cbn [fmap list_fmap res_all]. rewrite Ey, Eys. split; [done|].
  split; [cbn; lia|]. intros [|i] z Hz; [by injection Hz as <-|by apply Pys].
Qed.

(** The proofs built hold exactly the audit paths. *)
Lemma SimpleProofs_built {A} `{Hasher A} (items : list A) : items <> [] ->
  exists proofs,
    SimpleProofsFromHashers ripemd160 items =
      Ok (SimpleHashFromHashers ripemd160 items, proofs) /\
    length proofs = length items /\
    forall i sp, proofs !! i = Some sp -> Audit (Hash <$> items) i (Aunts sp).
Proof.
  intros Hne. unfold SimpleProofsFromHashers, trailsFromHashers.
  destruct (trails_built (length items) (Hash <$> items) []) as (ts & r & h & E & B).
  { intros N. by apply fmap_nil_inv in N. }
  { by rewrite length_fmap. }
  rewrite E. unfold deref at 1. cbn [mbind option_bind]. rewrite (built_root _ _ _ _ _ B).
  destruct (res_all_fmap
    (fun t => let* a := FlattenAunts h (Some t) in Ok {| Aunts := a |} : run SimpleProof)
    (fun i sp => Audit (Hash <$> items) i (Aunts sp)) ts) as (ps & Eps & Lps & Pps).
  { intros i t Et. destruct (built_audit _ _ _ _ _ B i t Et) as (a & Ha & Ta & La).
    exists {| Aunts := a |}. split; [|done]. unfold FlattenAunts.
    pose proof (built_size _ _ _ _ _ B) as L. cbn [length] in L.
    by rewrite (flatten_trail h t r a (S (length h)) _ _ Ta (built_root _ _ _ _ _ B)
      eq_refl eq_refl ltac:(lia)). }
  exists ps. rewrite Eps. split; [done|]. split; [|done].
  rewrite Lps, (built_trails _ _ _ _ _ B). by rewrite length_fmap.
Qed.

(** ** Soundness *)

(** The string hashed for a node. *)
Definition node_string (left right : list Z) : list Z := encodeByteSlice left ++ encodeByteSlice right.

(** The strings hashed to compute the root of a tree. *)
Fixpoint tree_strings (fuel : nat) (hs : list (list Z)) : list (list Z) :=
  match hs, fuel with
  | [], _ | [_], _ | _, O => []
  | _, S f =>
      let left := take (half hs) hs in
      let right := drop (half hs) hs in
      node_string (root_of left) (root_of right) :: tree_strings f left ++ tree_strings f right
  end.

(** The strings hashed to compute a root from a leaf and the hashes of a proof, the last of them first. *)
Fixpoint path_strings (index total : Z) (leafHash : option (list Z)) (rev_inner : list (list Z)) : list (list Z) :=
  match rev_inner with
  | [] => []
  | last :: init =>
      let k := (total + 1) / 2 in
      if index <? k then
        match compute_from ripemd160 index k leafHash init with
        | Some h => node_string h last :: path_strings index k leafHash init
        | None => []
        end
      else
        match compute_from ripemd160 (index - k) (total - k) leafHash init with
        | Some h => node_string last h :: path_strings (index - k) (total - k) leafHash init
        | None => []
        end
  end.

(** No two different strings, one of each list, have the same digest. *)
Definition collision_free (xs ys : list (list Z)) : Prop :=
  forall x y, x ∈ xs -> y ∈ ys -> ripemd160 x = ripemd160 y -> x = y.

Lemma collision_free_cons x xs y ys zs : collision_free (x :: xs) (y :: ys ++ zs) ->
  (ripemd160 x = ripemd160 y -> x = y) /\ collision_free xs ys /\ collision_free xs zs.
Proof.
  intros H. split_and!; [apply H; by left|intros u v Hu Hv; apply H; by right; rewrite ?elem_of_app; auto..].
Qed.

Lemma tree_strings_fuel f g hs : (length hs <= f)%nat -> (length hs <= g)%nat -> tree_strings f hs = tree_strings g hs.
Proof.
  revert f g. induction hs as [|x|hs H2 IH1 IH2] using half_ind; intros f g Hf Hg; [by destruct f, g..|].
  pose proof (half_bounds hs H2). destruct f as [|f]; [lia|]. destruct g as [|g]; [lia|].
  destruct hs as [|x [|y hs]]; [cbn in H2; lia..|]. cbn [tree_strings].
  do 2 f_equal; [apply IH1|apply IH2]; rewrite ?length_take, ?length_drop; lia.
Qed.

Lemma tree_strings_split hs : (2 <= length hs)%nat ->
  let left := take (half hs) hs in let right := drop (half hs) hs in
  tree_strings (length hs) hs = node_string (root_of left) (root_of right) :: tree_strings (length left) left ++ tree_strings (length right) right.
Proof.
  intros H. pose proof (half_bounds hs H) as B. destruct (length hs) as [|f] eqn:L; [lia|].
  destruct hs as [|x [|y hs]]; [cbn in L; lia..|]. cbn [tree_strings]. do 2 f_equal; apply tree_strings_fuel; rewrite ?length_take, ?length_drop, ?L; lia.
Qed.

(** The strings of a proof at an inner node. *)
Lemma path_strings_node (hs : list (list Z)) (i : nat) l a x y : (2 <= length hs)%nat -> (i < length hs)%nat ->
  (if decide (i < half hs)%nat then compute (Z.of_nat i) (zlen (take (half hs) hs)) l a
   else compute (Z.of_nat (i - half hs)) (zlen (drop (half hs) hs)) l a) = Some y ->
  path_strings (Z.of_nat i) (zlen hs) l (reverse (a ++ [x])) =
    if decide (i < half hs)%nat then node_string y x :: path_strings (Z.of_nat i) (zlen (take (half hs) hs)) l (reverse a)
    else node_string x y :: path_strings (Z.of_nat (i - half hs)) (zlen (drop (half hs) hs)) l (reverse a).
Proof.
  intros H2 Hi. pose proof (half_bounds hs H2). destruct (zlen_half hs H2) as [Z1 Z2].
  assert (Z.of_nat (half hs) = (zlen hs + 1) / 2) as E.
  { rewrite <- Z1. unfold zlen. rewrite length_take. lia. }
  unfold computeHashFromAunts. rewrite reverse_snoc. cbn [path_strings]. rewrite Z1, Z2, <- E.
  destruct (decide _), (Z.ltb_spec (Z.of_nat i) (Z.of_nat (half hs))); try lia; [by intros ->|].
  rewrite Nat2Z.inj_sub by lia. by intros ->.
Qed.

Hypothesis ripemd160_Size : forall x, length (ripemd160 x) = 20%nat.

Lemma two_fits a b : fits (two a b).
Proof. unfold fits, zlen, SimpleHashFromTwoHashes. rewrite ripemd160_Size. lia. Qed.

Lemma two_inj a b c d : fits a -> fits b -> fits c -> fits d ->
  (ripemd160 (node_string a b) = ripemd160 (node_string c d) -> node_string a b = node_string c d) ->
  two a b = two c d -> a = c /\ b = d.
Proof. intros Ha Hb Hc Hd HC E. apply encode_pair_inj; [done..|]. by apply HC. Qed.

Lemma root_of_fits hs : Forall fits hs -> fits (root_of hs).
Proof.
  intros H. destruct (Nat.le_gt_cases 2 (length hs)) as [L|L].
  - rewrite (root_of_split hs L). apply two_fits.
  - destruct hs as [|x [|y hs]]; [done|by inversion H|cbn in L; lia].
Qed.

Lemma compute_fits i total l a x : total_ok total -> fits l ->
  compute i total (Some l) a = Some x -> fits x.
Proof.
  intros Ht Hl. destruct (decide (0 <= i < total)) as [R|R]; [|by rewrite compute_out].
  destruct a as [|y a _] using rev_ind.
  - rewrite compute_nil by done. destruct (total =? 1); [by intros [= ->]|done].
  - rewrite compute_snoc by done. destruct (total =? 1); [done|]. cbv zeta.
    destruct (i <? _); destruct (compute _ _ _ _); cbn; try done; intros [= <-]; apply two_fits.
Qed.

(** A path that computes the root is the audit path of the leaf at that index. *)
Lemma compute_sound hs i a l : total_ok (zlen hs) -> Forall fits hs -> Forall fits a -> fits l ->
  collision_free (path_strings (Z.of_nat i) (zlen hs) (Some l) (reverse a)) (tree_strings (length hs) hs) ->
  compute (Z.of_nat i) (zlen hs) (Some l) a = Some (root_of hs) -> hs !! i = Some l /\ Audit hs i a.
Proof.
  revert i a. induction hs as [|x|hs H2 IH1 IH2] using half_ind; intros i a Ht Hhs Ha Hl HC E.
  - rewrite compute_out in E; [done|]. unfold zlen; cbn [length]; lia.
  - destruct i as [|i]; [|by rewrite compute_out in E by (change (zlen [x]) with 1; lia)].
    destruct a as [|y a _] using rev_ind; 
      [|by rewrite compute_snoc in E by (change (zlen [x]) with 1; lia || done)].
    injection E as ->. split; [done|constructor].
  - destruct (decide (i < length hs)%nat) as [R|R];
      [|by rewrite compute_out in E by (unfold zlen; lia)].
    destruct a as [|y a _] using rev_ind.
    { rewrite compute_nil in E by (unfold zlen; lia).
      destruct (Z.eqb_spec (zlen hs) 1); [unfold zlen in *; lia|done]. }
    apply Forall_app in Ha as [Ha Hy]. rewrite Forall_singleton in Hy.
    rewrite compute_node in E by done. rewrite (root_of_split hs H2) in E. rewrite tree_strings_split in HC by done.
    pose proof (Forall_take _ (half hs) _ Hhs) as Ft.
    pose proof (Forall_drop _ (half hs) _ Hhs) as Fd.
    destruct (total_ok_halves hs Ht) as [Ht1 Ht2].
    pose proof (path_strings_node hs i (Some l) a y) as HP.
    rewrite (lookup_halves hs i H2). destruct (decide _) as [L|L];
      (destruct (compute _ _ _ a) as [z|] eqn:C; [|done]);
      cbn [fmap option_fmap option_map] in E; injection E as E;
      (rewrite (HP z H2 R eq_refl) in HC; apply collision_free_cons in HC as (HC0 & HC1 & HC2));
      (apply two_inj in E; [|by eauto using compute_fits, root_of_fits..]);
      destruct E as [-> ->].
    + destruct (IH1 i a) as [? ?]; [done..|]. split; [done|]. by apply Audit_left.
    + destruct (IH2 (i - half hs)%nat a) as [? ?]; [done..|]. split; [done|]. apply Audit_right; [done|lia|done].
Qed.
End proofs.

(** ** The order of key-value pairs *)

Lemma KVPairs_Less_spec a b : KVPairs_Less a b = true <->
  Compare (Key a) (Key b) = -1 \/ (Key a = Key b /\ Compare (Value a) (Value b) = -1).
Proof.
  unfold KVPairs_Less.
  destruct (Compare_cases (Key a) (Key b)) as [K|[K|K]]; rewrite K; cbn.
  - tauto.
  - apply Compare_eq in K as <-.
    destruct (Compare_cases (Value a) (Value b)) as [V|[V|V]]; rewrite V; cbn;
      intuition congruence.
  - split; [done|]. intros [?|[E _]]; [done|]. rewrite E, Compare_refl in K. done.
Qed.

Lemma KVPairs_Less_trans a b c :
  KVPairs_Less a b = true -> KVPairs_Less b c = true -> KVPairs_Less a c = true.
Proof.
  rewrite !KVPairs_Less_spec. intros [H1|[E1 H1]] [H2|[E2 H2]].
  - left. by eapply Compare_trans.
  - left. by rewrite <- E2.
  - left. by rewrite E1.
  - right. split; [congruence|]. by eapply Compare_trans.
Qed.

Lemma KVPairs_Less_total a b :
  KVPairs_Less a b = true \/ a = b \/ KVPairs_Less b a = true.
Proof.
  rewrite !KVPairs_Less_spec. rewrite (Compare_anti (Key a)), (Compare_anti (Value a)).
  destruct (Compare_cases (Key a) (Key b)) as [K|[K|K]]; [auto| |right; right; left; lia].
  destruct (Compare_cases (Value a) (Value b)) as [V|[V|V]];
    apply Compare_eq in K; [auto| |right; right; right; split; [done|lia]].
  apply Compare_eq in V. destruct a, b; cbn in *; subst; auto.
Qed.

Lemma KVPairs_Less_irrefl a : KVPairs_Less a a = false.
Proof. unfold KVPairs_Less. by rewrite !Compare_refl. Qed.

#[export] Instance kv_le_total : Total kv_le.
Proof.
  intros a b. unfold kv_le. destruct (KVPairs_Less b a) eqn:E; [|auto].
  destruct (KVPairs_Less a b) eqn:F; [|auto].
  pose proof (KVPairs_Less_trans _ _ _ E F) as G. by rewrite KVPairs_Less_irrefl in G.
Qed.

#[export] Instance kv_le_trans : Transitive kv_le.
Proof.
  intros a b c. unfold kv_le. intros H1 H2. destruct (KVPairs_Less c a) eqn:E; [|done].
  destruct (KVPairs_Less_total b c) as [L|[->|L]]; [|congruence..].
  rewrite (KVPairs_Less_trans _ _ _ L E) in H1. done.
Qed.

#[export] Instance kv_le_antisymm : AntiSymm eq kv_le.
Proof.
  intros a b. unfold kv_le. intros H1 H2.
  destruct (KVPairs_Less_total a b) as [L|[->|L]]; congruence.
Qed.

Lemma set_all_kvs ripemd160 {A} `{Hasher A} (m : list (list Z * A)) :
  set_all ripemd160 m =
    {| kvs := (fun kv => {| Key := ripemd160 kv.1; Value := Hash kv.2 |}) <$> m;
       sorted := false |}.
Proof.
  unfold set_all. induction m as [|x m IH] using rev_ind; [done|].
  rewrite foldl_snoc, IH, fmap_app. done.
Qed.

Lemma set_all_Sort ripemd160 {A} `{Hasher A} (m m' : list (list Z * A)) : m ≡ₚ m' ->
  SimpleMap_Sort (set_all ripemd160 m) = SimpleMap_Sort (set_all ripemd160 m').
Proof.
  intros P. rewrite !set_all_kvs. unfold SimpleMap_Sort, KVPairs_Sort; cbn. f_equal.
  apply Sort_unique; [apply _..|]. by apply fmap_Permutation.
Qed.

(** ** Properties *)

#[export] Instance bytes_Hasher : Hasher (list Z) := fun x => x.

(** C7: completeness of Merkle proofs.  On a non-empty list of items
    [SimpleProofsFromHashers] returns, without running out of fuel or
    dereferencing nil, the root [SimpleHashFromHashers] computes and one proof
    per item, and each proof verifies at its index with its item's hash.  On the
    empty list it dereferences the nil root: it panics. *)
Theorem SimpleProofs_complete ripemd160 {A} `{Hasher A} (items : list A) :
  zlen items < 2 ^ 63 - 1 ->
  (items = [] -> SimpleProofsFromHashers ripemd160 items = Panic) /\
  (items <> [] -> exists proofs,
    SimpleProofsFromHashers ripemd160 items =
      Ok (SimpleHashFromHashers ripemd160 items, proofs) /\
    length proofs = length items /\
    forall i sp x, proofs !! i = Some sp -> items !! i = Some x ->
      Verify ripemd160 sp (Z.of_nat i) (zlen items) (Some (Hash x))
        (SimpleHashFromHashers ripemd160 items) = true).
Proof.
  intros Hlen. split; [by intros ->|]. intros Hne. destruct (SimpleProofs_built ripemd160 items Hne) as (ps & E & L & P).
  exists ps. split; [done|]. split; [done|]. intros i sp x Hsp Hx.
  assert (zlen items = zlen (Hash <$> items)) as Z by (unfold zlen; by rewrite length_fmap).
  unfold Verify. rewrite Z, (Audit_computes ripemd160 _ _ _ (Hash x) (P i sp Hsp)).
  - by apply bool_decide_eq_true.
  - by unfold total_ok; rewrite <- Z.
  - by rewrite list_lookup_fmap, Hx.
Qed.

(** A stand-in hash with 20-byte digests. *)
Definition toy_hash (x : list Z) : list Z := replicate 19 0 ++ [foldr Z.add 0 x mod 256].

Lemma SimpleProofs_complete_witness :
  exists proofs,
    SimpleProofsFromHashers toy_hash [[1]; [2]; [3]] =
      Ok (SimpleHashFromHashers toy_hash [[1]; [2]; [3]], proofs) /\
    length proofs = 3%nat /\
    forall i sp x, proofs !! i = Some sp -> [[1]; [2]; [3]] !! i = Some x ->
      Verify toy_hash sp (Z.of_nat i) 3 (Some x)
        (SimpleHashFromHashers toy_hash [[1]; [2]; [3]]) = true.
Proof. apply (SimpleProofs_complete toy_hash [[1]; [2]; [3]]); [reflexivity|done]. Defined.

(** The strings [Verify] hashes, and those hashed for the root of the items. *)
Definition verify_strings ripemd160 (sp : SimpleProof) (index total : Z) (leafHash : option (list Z)) : list (list Z) :=
  path_strings ripemd160 index total leafHash (reverse (Aunts sp)).
Definition root_strings ripemd160 {A} `{Hasher A} (items : list A) : list (list Z) :=
  tree_strings ripemd160 (length items) (Hash <$> items).

(** C4: soundness of Merkle proofs.  Take a proof that verifies for a leaf hash at
    an index, against the root of a list of items, and suppose that the strings
    [Verify] hashes do not collide with those hashed for the root: two of them,
    one of each, with the same digest are equal.  Then the leaf hash is that of
    the item at the index and the proof is the one [SimpleProofsFromHashers]
    builds for it.  [ripemd160_Size] is the digest's size (ripemd160.Size); the
    remaining hypotheses are the sizes Go slices can have. *)
Theorem Verify_sound ripemd160 {A} `{Hasher A} (items : list A) sp index leafHash :
  (forall x, length (ripemd160 x) = 20%nat) ->
  zlen items < 2 ^ 63 - 1 ->
  Forall (fun x => fits (Hash x)) items -> Forall fits (Aunts sp) ->
  (forall l, leafHash = Some l -> fits l) ->
  collision_free ripemd160 (verify_strings ripemd160 sp index (zlen items) leafHash) (root_strings ripemd160 items) ->
  Verify ripemd160 sp index (zlen items) leafHash
    (SimpleHashFromHashers ripemd160 items) = true ->
  exists x root proofs, items !! Z.to_nat index = Some x /\ leafHash = Some (Hash x) /\
    SimpleProofsFromHashers ripemd160 items = Ok (root, proofs) /\
    proofs !! Z.to_nat index = Some sp.
Proof.
  intros Hs Hlen Hi Ha Hl HC V.
  assert (zlen items = zlen (Hash <$> items)) as Z by (unfold zlen; by rewrite length_fmap).
  destruct leafHash as [l|]; [|exfalso; revert V; unfold Verify; by rewrite compute_nil_leaf].
  unfold Verify in V. destruct (computeHashFromAunts _ _ _ _ _) as [r|] eqn:E; [|done].
  apply bool_decide_eq_true in V as ->. unfold verify_strings, root_strings in HC. rewrite Z in *.
  destruct (decide (0 <= index < zlen (Hash <$> items))) as [R|R]; [|by rewrite compute_out in E].
  rewrite <- (Z2Nat.id index) in E, HC by lia. rewrite <- (length_fmap Hash items) in HC.
  apply compute_sound in E as [Ex Au]; [|done|done|by apply Forall_fmap|done|by apply Hl|done].
  apply list_lookup_fmap_Some in Ex as (x & -> & Ex).
  destruct (SimpleProofs_built ripemd160 items) as (ps & Eps & Lps & Pps); [by intros ->|].
  eexists x, _, ps. split; [done|]. split; [done|]. split; [done|].
  destruct (lookup_lt_is_Some_2 ps (Z.to_nat index)) as [[b] Hb];
    [rewrite Lps; by eapply lookup_lt_Some|].
  rewrite Hb. destruct sp as [a]. do 2 f_equal. cbn in Au.
  by eapply Audit_fun; [apply (Pps _ _ Hb)|].
Qed.

Lemma Verify_sound_witness :
  exists x root proofs, [[1]; [2]; [3]] !! Z.to_nat 1 = Some x /\ Some [2] = Some (Hash x) /\
    SimpleProofsFromHashers toy_hash [[1]; [2]; [3]] = Ok (root, proofs) /\
    proofs !! Z.to_nat 1 = Some {| Aunts := [[1]; [3]] |}.
Proof.
  apply (Verify_sound toy_hash [[1]; [2]; [3]] {| Aunts := [[1]; [3]] |} 1 (Some [2])).
  - intros x. reflexivity.
  - reflexivity.
  - repeat constructor.
  - repeat constructor.
  - intros l [= <-]. reflexivity.
  - intros x y Hx Hy. apply list_elem_of_In in Hx, Hy. vm_compute in Hx, Hy.
    destruct Hx as [<-|[<-|[]]], Hy as [<-|[<-|[]]]; vm_compute; congruence.
  - reflexivity.
Defined.

(** The root hash of a map, and the proofs built for it, do not depend on
    the order in which the [range] loop visits the entries, and the root the
    proofs are built for is the map's root hash. *)
Theorem SimpleHashFromMap_order ripemd160 {A} `{Hasher A} (m m' : list (list Z * A)) :
  m ≡ₚ m' ->
  SimpleHashFromMap ripemd160 m = SimpleHashFromMap ripemd160 m' /\
  SimpleProofsFromMap ripemd160 m = SimpleProofsFromMap ripemd160 m' /\
  (m <> [] -> exists proofs, SimpleProofsFromMap ripemd160 m' =
     Ok (SimpleHashFromMap ripemd160 m, proofs) /\ length proofs = length m).
Proof.
  intros P. pose proof (set_all_Sort ripemd160 m m' P) as E.
  unfold SimpleHashFromMap, SimpleMap_Hash, SimpleProofsFromMap. cbn zeta. rewrite E.
  split; [done|]. split; [done|]. intros Hne. rewrite <- E.
  assert (length (kvs (SimpleMap_Sort (set_all ripemd160 m))) = length m) as L.
  { rewrite set_all_kvs. unfold SimpleMap_Sort, KVPairs_Sort; cbn.
    by rewrite Sort_perm, length_fmap. }
  destruct (SimpleProofs_built ripemd160 (H := KVPair_Hash ripemd160)
    (kvs (SimpleMap_Sort (set_all ripemd160 m)))) as (ps & Eps & Lps & _).
  { intros N. rewrite N in L. by destruct m. }
  exists ps. split; [by rewrite Eps|lia].
Qed.

Lemma SimpleHashFromMap_order_witness :
  SimpleHashFromMap toy_hash [([97], [1]); ([98], [2])] =
    SimpleHashFromMap toy_hash [([98], [2]); ([97], [1])] /\
  SimpleProofsFromMap toy_hash [([97], [1]); ([98], [2])] =
    SimpleProofsFromMap toy_hash [([98], [2]); ([97], [1])] /\
  ([([97], [1]); ([98], [2])] <> [] -> exists proofs,
     SimpleProofsFromMap toy_hash [([98], [2]); ([97], [1])] =
     Ok (SimpleHashFromMap toy_hash [([97], [1]); ([98], [2])], proofs) /\
     length proofs = 2%nat).
Proof.
  apply (SimpleHashFromMap_order toy_hash [([97], [1]); ([98], [2])] [([98], [2]); ([97], [1])]).
  apply perm_swap.
Defined.
