(* ===== verification/BitArray.v ===== *)
(** * Bit arrays (src/tendermint/tmlibs/common/bit_array.go)

    A [*BitArray] is an [option BitArray] ([None] is nil); the words are 64-bit
    values.  Methods that take the mutex are modelled as the sequential code
    between lock and unlock.  [RandIntn] of [PickRandom] is a parameter. *)

From S2P Require Import Prelude GoStrings GoSlice.

Record BitArray := mkBits { Bits : Z; Elems : list Z }.

(** The only [error] of the file: [UnmarshalJSON] on a malformed text. *)
Inductive bit_err := errFormat (b : list Z).

Abbreviation run A := (res bit_err A).

(** [make([]uint64, n)]: a negative or oversized length panics. *)
Definition make_uint64 (n : Z) : run (list Z) :=
  if (n <? 0) || (2 ^ 48 <? 8 * n) then Panic else Ok (replicate (Z.to_nat n) 0).

Definition words (bits : Z) : Z := s64 (bits + 63) ÷ 64.

Definition NewBitArray (bits : Z) : run (option BitArray) :=
  if bits <=? 0 then Ok None
  else let* e := make_uint64 (words bits) in Ok (Some (mkBits bits e)).

Definition Size (bA : option BitArray) : Z :=
  match bA with None => 0 | Some b => Bits b end.

(** [uint64(1) << uint(i%64)]; a shift by a wrapped negative amount gives 0. *)
Definition mask (i : Z) : Z :=
  let n := u64 (Z.rem i 64) in if n <? 64 then Z.shiftl 1 n else 0.

(** [^x] on [uint64]. *)
Definition not64 (x : Z) : Z := u64 (Z.lnot x).

(** [l[i]], with Go's bounds check. *)
Definition index (l : list Z) (i : Z) : run Z :=
  match (if i <? 0 then None else l !! Z.to_nat i) with Some e => Ok e | None => Panic end.

Definition getIndex (bA : BitArray) (i : Z) : run bool :=
  if Bits bA <=? i then Ok false
  else let* e := index (Elems bA) (i ÷ 64) in Ok (0 <? Z.land e (mask i)).

Definition GetIndex (bA : option BitArray) (i : Z) : run bool :=
  match bA with None => Ok false | Some b => getIndex b i end.

(** The array after the call and the result. *)
Definition setIndex (bA : BitArray) (i : Z) (v : bool) : run (BitArray * bool) :=
  if Bits bA <=? i then Ok (bA, false)
  else
    let* e := index (Elems bA) (i ÷ 64) in
    let e' := if v then Z.lor e (mask i) else Z.land e (not64 (mask i)) in
    Ok (mkBits (Bits bA) (<[Z.to_nat (i ÷ 64) := e']> (Elems bA)), true).

Definition SetIndex (bA : option BitArray) (i : Z) (v : bool)
    : run (option BitArray * bool) :=
  match bA with
  | None => Ok (None, false)
  | Some b => let* (b', r) := setIndex b i v in Ok (Some b', r)
  end.

Definition copy (bA : BitArray) : BitArray := mkBits (Bits bA) (Elems bA).

Definition Copy (bA : option BitArray) : option BitArray := copy <$> bA.

(** [copy(dst, src)] on slices. *)
Definition copy_over (dst src : list Z) : list Z :=
  take (length dst) src ++ drop (length src) dst.

Definition copyBits (bA : BitArray) (bits : Z) : run BitArray :=
  let* c := make_uint64 (words bits) in Ok (mkBits bits (copy_over c (Elems bA))).

(** The loops [c.Elems[i] op= o.Elems[i]] over the words of [c]: out of range
    in [o] panics. *)
Fixpoint word_loop (op : Z -> Z -> Z) (c o : list Z) : run (list Z) :=
  match c, o with
  | [], _ => Ok []
  | _ :: _, [] => Panic
  | x :: c', y :: o' => let* r := word_loop op c' o' in Ok (op x y :: r)
  end.

Definition Or (bA o : option BitArray) : run (option BitArray) :=
  match bA, o with
  | None, None => Ok None
  | None, Some _ => Ok (Copy o)
  | Some _, None => Ok (Copy bA)
  | Some a, Some b =>
      let* c := copyBits a (Z.max (Bits a) (Bits b)) in
      let* e := word_loop Z.lor (Elems c) (Elems b) in
      Ok (Some (mkBits (Bits c) e))
  end.

Definition and_ (a b : BitArray) : run BitArray :=
  let* c := copyBits a (Z.min (Bits a) (Bits b)) in
  let* e := word_loop Z.land (Elems c) (Elems b) in
  Ok (mkBits (Bits c) e).

Definition And (bA o : option BitArray) : run (option BitArray) :=
  match bA, o with
  | Some a, Some b => let* c := and_ a b in Ok (Some c)
  | _, _ => Ok None
  end.

Definition Not (bA : option BitArray) : option BitArray :=
  (fun b => mkBits (Bits b) (not64 <$> Elems b)) <$> bA.

(** The first loop of [Sub], [c.Elems[i] &= ^c.Elems[i]] for [i < n]. *)
Fixpoint sub_words (n : nat) (c : list Z) : run (list Z) :=
  match n, c with
  | O, _ => Ok c
  | S _, [] => Panic
  | S n', x :: c' => let* r := sub_words n' c' in Ok (Z.land x (not64 x) :: r)
  end.

(** The second loop, [n] indices from [idx] on. *)
Fixpoint sub_bits (n : nat) (idx : Z) (c o : BitArray) : run BitArray :=
  match n with
  | O => Ok c
  | S n' =>
      let* x := getIndex c idx in
      let* y := (if x then GetIndex (Some o) idx else Ok true) in
      let* (c', _) := setIndex c idx (x && negb y) in
      sub_bits n' (idx + 1) c' o
  end.

Definition Sub (bA o : option BitArray) : run (option BitArray) :=
  match bA, o with
  | Some a, Some b =>
      if Bits b <? Bits a then
        let c := copy a in
        let i := zlen (Elems b) - 1 in
        let* e := sub_words (Z.to_nat i) (Elems c) in
        let c := mkBits (Bits c) e in
        if 0 <=? i then
          let* c := sub_bits (Z.to_nat (Bits b - i * 64)) (i * 64) c b in Ok (Some c)
        else Ok (Some c)
      else
        match Not o with
        | Some b' => let* c := and_ a b' in Ok (Some c)
        | None => Panic
        end
  | _, _ => Ok None
  end.

Definition IsEmpty (bA : option BitArray) : bool :=
  match bA with
  | None => true
  | Some b => forallb (fun e => negb (0 <? e)) (Elems b)
  end.

Definition IsFull (bA : option BitArray) : run bool :=
  match bA with
  | None => Ok true
  | Some b =>
      match slice (Elems b) 0 (zlen (Elems b) - 1) with
      | None => Panic
      | Some init =>
          if forallb (fun elem => not64 elem =? 0) init then
            let lastElemBits := Z.rem (s64 (Bits b + 63)) 64 + 1 in
            let* lastElem := index (Elems b) (zlen (Elems b) - 1) in
            let m := u64 ((if lastElemBits <? 64 then Z.shiftl 1 lastElemBits else 0) - 1) in
            Ok (Z.land (u64 (lastElem + 1)) m =? 0)
          else Ok false
      end
  end.

(** [binary.LittleEndian.PutUint64]. *)
Definition le64 (x : Z) : list Z := rev (be_bytes 8 x).

(** The loop of [Bytes] from word [i] on: [copy(bytes[i*8:], elemBytes[:])]. *)
Fixpoint bytes_loop (elems : list Z) (i : Z) (bytes : list Z) : run (list Z) :=
  match elems with
  | [] => Ok bytes
  | e :: elems' =>
      match copy_at bytes (i * 8) (le64 e) with
      | None => Panic
      | Some (bytes', _) => bytes_loop elems' (i + 1) bytes'
      end
  end.

Definition Bytes (bA : option BitArray) : run (list Z) :=
  match bA with
  | None => Panic
  | Some b =>
      let numBytes := s64 (Bits b + 7) ÷ 8 in
      if (numBytes <? 0) || (2 ^ 48 <? numBytes) then Panic
      else bytes_loop (Elems b) 0 (replicate (Z.to_nat numBytes) 0)
  end.

(** [Update] copies words over the ones in place. *)
Definition Update (bA o : option BitArray) : option BitArray :=
  match bA, o with
  | Some a, Some b => Some (mkBits (Bits a) (copy_over (Elems a) (Elems b)))
  | _, _ => bA
  end.

(** The text of [n] bits from [i] on, "x" for 1 and "_" for 0. *)
Fixpoint marshal_loop (n : nat) (i : Z) (b : BitArray) : run (list Z) :=
  match n with
  | O => Ok []
  | S n' =>
      let* v := getIndex b i in
      let* r := marshal_loop n' (i + 1) b in
      Ok ((if v then 120 else 95) :: r)
  end.

Definition MarshalJSON (bA : option BitArray) : run (list Z) :=
  match bA with
  | None => Ok (bs "null")
  | Some b => let* r := marshal_loop (Z.to_nat (Bits b)) 0 b in Ok (34 :: r ++ [34])
  end.

(** [bitArrayJSONRegexp]: the characters between the quotes. *)
Definition match_bits (b : list Z) : option (list Z) :=
  match b with
  | q :: r =>
      match rev r with
      | q' :: mid =>
          if (q =? 34) && (q' =? 34) && forallb (fun c => (c =? 95) || (c =? 120)) mid
          then Some (rev mid) else None
      | [] => None
      end
  | [] => None
  end.

(** [for i := 0; i < numBits; i++ { if bits[i] == 'x' { bA2.SetIndex(i, true) } }]. *)
Fixpoint unmarshal_loop (bits : list Z) (i : Z) (bA2 : option BitArray)
    : run (option BitArray) :=
  match bits with
  | [] => Ok bA2
  | c :: bits' =>
      if c =? 120 then
        let* (bA2, _) := SetIndex bA2 i true in unmarshal_loop bits' (i + 1) bA2
      else unmarshal_loop bits' (i + 1) bA2
  end.

(** [UnmarshalJSON] into a non-nil receiver: its new contents.  [*bA = *bA2]
    panics when [bA2] is nil. *)
Definition UnmarshalJSON (b : list Z) : run BitArray :=
  if str_eqb b (bs "null") then Ok (mkBits 0 [])
  else
    match match_bits b with
    | None => Err (errFormat b)
    | Some bits =>
        let* bA2 := NewBitArray (zlen bits) in
        let* bA2 := unmarshal_loop bits 0 bA2 in
        match bA2 with Some b' => Ok b' | None => Panic end
    end.

(** ** [PickRandom]

    [RandIntn k n] is the answer of the [k]-th call of [RandIntn(n)], which
    comes from math/rand. *)
Section random.
Variable RandIntn : nat -> Z -> Z.

(** [for j := ...; j < m; j++] over the bits of a word, from a random start. *)
Fixpoint scan_bits (n : nat) (j start m e : Z) : option Z :=
  match n with
  | O => None
  | S n' =>
      let bitIdx := Z.rem (j + start) m in
      if 0 <? Z.land e (mask bitIdx) then Some bitIdx
      else scan_bits n' (j + 1) start m e
  end.

(** The loop over the words; [k] counts the calls of [RandIntn]. *)
Fixpoint pick_loop (n : nat) (i start : Z) (k : nat) (b : BitArray) : run (Z * bool) :=
  match n with
  | O => Ok (0, false)
  | S n' =>
      let length := zlen (Elems b) in
      let elemIdx := Z.rem (i + start) length in
      let* e := index (Elems b) elemIdx in
      if elemIdx <? length - 1 then
        if 0 <? e then
          match scan_bits 64 0 (RandIntn k 64) 64 e with
          | Some bitIdx => Ok (64 * elemIdx + bitIdx, true)
          | None => Panic
          end
        else pick_loop n' (i + 1) start k b
      else
        let elemBits := Z.rem (Bits b) 64 in
        let elemBits := if elemBits =? 0 then 64 else elemBits in
        if elemBits <=? 0 then Panic
        else
          match scan_bits (Z.to_nat elemBits) 0 (RandIntn k elemBits) elemBits e with
          | Some bitIdx => Ok (64 * elemIdx + bitIdx, true)
          | None => pick_loop n' (i + 1) start (S k) b
          end
  end.

Definition PickRandom (bA : option BitArray) : run (Z * bool) :=
  match bA with
  | None => Ok (0, false)
  | Some b =>
      if zlen (Elems b) =? 0 then Ok (0, false)
      else pick_loop (length (Elems b)) 0 (RandIntn 0 (zlen (Elems b))) 1 b
  end.
End random.
