(* ===== verification/BitArraySpec.v ===== *)
(** * Bit arrays implement sequences of booleans

    [bits_of] reads a bit array as the list of its [Bits] booleans; the
    operations are related to the operations on such lists.  Words may hold
    straggler bits past [Bits] (complementing sets them): [clean] says there
    are none. *)

From S2P Require Import Prelude GoStrings GoSlice BitArray.

(** Bit [i] of a slice of words. *)
Definition bit (E : list Z) (i : Z) : bool :=
  match E !! Z.to_nat (i / 64) with Some e => Z.testbit e (i mod 64) | None => false end.

Definition bits_of (b : BitArray) : list bool :=
  (fun i => bit (Elems b) (Z.of_nat i)) <$> seq 0 (Z.to_nat (Bits b)).

(** What [NewBitArray] establishes and every operation keeps. *)
Record wf (b : BitArray) : Prop := {
  wf_Bits : 0 < Bits b <= 2 ^ 51;
  wf_Elems : zlen (Elems b) = (Bits b + 63) / 64;
  wf_words : Forall (in_uN 64) (Elems b);
}.

Definition clean (b : BitArray) : Prop := forall i, Bits b <= i -> bit (Elems b) i = false.

(** ** Words *)

Lemma land_pow2 e k : 0 <= k -> (0 <? Z.land e (2 ^ k)) = Z.testbit e k.
Proof.
  intros Hk. assert (Z.land e (2 ^ k) = if Z.testbit e k then 2 ^ k else 0) as ->.
  { apply Z.bits_inj'. intros n Hn. rewrite Z.land_spec, Z.pow2_bits_eqb by lia.
    destruct (Z.eqb_spec k n) as [->|N].
    - destruct (Z.testbit e n); [by rewrite Z.pow2_bits_true|by rewrite Z.bits_0].
    - destruct (Z.testbit e k); rewrite ?Z.pow2_bits_false, ?Z.bits_0 by done; by rewrite andb_false_r. }
  pose proof (Z.pow_pos_nonneg 2 k). destruct (Z.testbit e k); [|done].
  apply Z.ltb_lt. lia.
Qed.

Lemma mask_spec i : 0 <= i -> mask i = 2 ^ (i mod 64).
Proof.
  intros H. unfold mask. rewrite Z.rem_mod_nonneg by lia.
  pose proof (Z.mod_pos_bound i 64 ltac:(lia)).
  rewrite uN_id by (unfold in_uN; lia). cbv zeta. destruct (Z.ltb_spec (i mod 64) 64); [|lia].
  by rewrite Z.shiftl_1_l.
Qed.

Lemma not64_bit x k : 0 <= k < 64 -> Z.testbit (not64 x) k = negb (Z.testbit x k).
Proof. intros H. unfold not64, uN. rewrite Z.mod_pow2_bits_low by lia. apply Z.lnot_spec. lia. Qed.

Lemma not64_range x : in_uN 64 (not64 x).
Proof. apply uN_range. lia. Qed.

Lemma uint64_bits x : in_uN 64 x <-> 0 <= x /\ (forall k, 64 <= k -> Z.testbit x k = false).
Proof.
  unfold in_uN. split.
  - intros [H1 H2]. split; [done|]. intros k Hk. destruct (Z.eq_dec x 0) as [->|N]; [apply Z.bits_0|].
    apply Z.bits_above_log2; [done|]. apply Z.log2_lt_pow2 in H2; lia.
  - intros [H1 H2]. split; [done|]. destruct (Z.eq_dec x 0) as [->|N]; [lia|].
    apply Z.log2_lt_pow2; [lia|]. destruct (Z.lt_ge_cases (Z.log2 x) 64) as [|G]; [done|].
    specialize (H2 _ G). rewrite Z.bit_log2 in H2 by lia. done.
Qed.

Lemma lor_range x y : in_uN 64 x -> in_uN 64 y -> in_uN 64 (Z.lor x y).
Proof.
  rewrite !uint64_bits. intros [H1 H2] [H3 H4]. split; [by apply Z.lor_nonneg|].
  intros k Hk. by rewrite Z.lor_spec, H2, H4.
Qed.

Lemma land_range x y : in_uN 64 x -> in_uN 64 y -> in_uN 64 (Z.land x y).
Proof.
  rewrite !uint64_bits. intros [H1 H2] [H3 H4]. split; [apply Z.land_nonneg; by left|].
  intros k Hk. by rewrite Z.land_spec, H2.
Qed.

Lemma pow2_range k : 0 <= k < 64 -> in_uN 64 (2 ^ k).
Proof.
  intros H. unfold in_uN. split; [lia|]. apply Z.pow_lt_mono_r; lia.
Qed.

(** ** Bits of arrays *)

Lemma word_index i n : 0 <= i < n -> (Z.to_nat (i / 64) < Z.to_nat ((n + 63) / 64))%nat.
Proof.
  intros H. apply Z2Nat.inj_lt; [apply Z.div_pos; lia..|].
  apply Z.div_lt_upper_bound; [lia|].
  pose proof (Z.div_mod (n + 63) 64 ltac:(lia)). pose proof (Z.mod_pos_bound (n + 63) 64). lia.
Qed.

Lemma wf_lookup b i : wf b -> 0 <= i < Bits b -> exists e, Elems b !! Z.to_nat (i / 64) = Some e.
Proof.
  intros [_ L _] H. apply lookup_lt_is_Some_2. apply word_index in H.
  unfold zlen in L. lia.
Qed.

Lemma index_word E i e : 0 <= i -> E !! Z.to_nat (i / 64) = Some e -> index E (i ÷ 64) = Ok e.
Proof.
  intros H L. unfold index. rewrite Z.quot_div_nonneg by lia.
  pose proof (Z.div_pos i 64). destruct (Z.ltb_spec (i / 64) 0); [lia|]. by rewrite L.
Qed.

Lemma getIndex_bit b i : wf b -> 0 <= i < Bits b -> getIndex b i = Ok (bit (Elems b) i).
Proof.
  intros W H. destruct (wf_lookup b i W H) as [e L]. unfold getIndex, bit.
  destruct (Z.leb_spec (Bits b) i); [lia|].
  rewrite (index_word _ _ _ (proj1 H) L), L, mask_spec, land_pow2; [done| |lia].
  apply Z.mod_pos_bound. lia.
Qed.

Lemma bits_of_length b : length (bits_of b) = Z.to_nat (Bits b).
Proof. unfold bits_of. by rewrite length_fmap, length_seq. Qed.

Lemma bits_of_lookup b i : bits_of b !! i =
  if decide (i < Z.to_nat (Bits b))%nat then Some (bit (Elems b) (Z.of_nat i)) else None.
Proof.
  unfold bits_of. rewrite list_lookup_fmap. destruct (decide _) as [H|H].
  - by rewrite lookup_seq_lt.
  - rewrite lookup_seq_ge by lia. done.
Qed.

(** Two lists of bits with the same reader are the same. *)
Lemma bits_of_ext b (l : list bool) : zlen l = Bits b ->
  (forall i v, l !! i = Some v -> bit (Elems b) (Z.of_nat i) = v) -> bits_of b = l.
Proof.
  intros L H. apply list_eq. intros i. rewrite bits_of_lookup. unfold zlen in L.
  destruct (decide _) as [D|D].
  - destruct (lookup_lt_is_Some_2 l i) as [v E]; [lia|]. by rewrite (H i v E), E.
  - symmetry. apply lookup_ge_None_2. lia.
Qed.

Lemma bit_fmap E f i : (forall x, Z.testbit (f x) (i mod 64) = negb (Z.testbit x (i mod 64))) ->
  (Z.to_nat (i / 64) < length E)%nat -> bit (f <$> E) i = negb (bit E i).
Proof.
  intros H L. unfold bit. rewrite list_lookup_fmap.
  destruct (lookup_lt_is_Some_2 E _ L) as [e ->]. apply H.
Qed.

Lemma bit_zip op f A B i :
  (forall x y, Z.testbit (op x y) (i mod 64) = f (Z.testbit x (i mod 64)) (Z.testbit y (i mod 64))) ->
  (Z.to_nat (i / 64) < length A)%nat -> (Z.to_nat (i / 64) < length B)%nat ->
  bit (zip_with op A B) i = f (bit A i) (bit B i).
Proof.
  intros H LA LB. unfold bit. rewrite lookup_zip_with.
  destruct (lookup_lt_is_Some_2 A _ LA) as [x ->], (lookup_lt_is_Some_2 B _ LB) as [y ->]. apply H.
Qed.

Lemma bit_past E i : (length E <= Z.to_nat (i / 64))%nat -> bit E i = false.
Proof. intros H. unfold bit. by rewrite lookup_ge_None_2. Qed.

Lemma word_loop_zip op c o : (length c <= length o)%nat -> word_loop op c o = Ok (zip_with op c o).
Proof.
  revert o. induction c as [|x c IH]; intros [|y o] H; cbn in *; try done; [lia|].
  by rewrite IH by lia.
Qed.

Lemma word_loop_short op c o : (length o < length c)%nat -> word_loop op c o = Panic.
Proof.
  revert o. induction c as [|x c IH]; intros [|y o] H; cbn in *; try done; try lia.
  by rewrite IH by lia.
Qed.

(** ** Making and copying *)

Abbreviation size_ok n := (0 < n <= 2 ^ 51).

Lemma make_words n : size_ok n ->
  make_uint64 (words n) = Ok (replicate (Z.to_nat ((n + 63) / 64)) 0).
Proof.
  intros H. unfold words. rewrite sN_id by (unfold in_sN; lia).
  rewrite Z.quot_div_nonneg by lia. unfold make_uint64.
  pose proof (Z.div_pos (n + 63) 64 ltac:(lia) ltac:(lia)).
  assert ((n + 63) / 64 <= 2 ^ 45) by (apply (Z.div_le_mono _ (2 ^ 51 + 63)); lia).
  destruct (Z.ltb_spec ((n + 63) / 64) 0); [lia|].
  destruct (Z.ltb_spec (2 ^ 48) (8 * ((n + 63) / 64))); [lia|]. done.
Qed.

Lemma words_len n : 0 < n -> Z.of_nat (Z.to_nat ((n + 63) / 64)) = (n + 63) / 64.
Proof. intros H. apply Z2Nat.id. apply Z.div_pos; lia. Qed.

Lemma bit_replicate n i : bit (replicate n 0) i = false.
Proof.
  unfold bit. destruct (replicate n 0 !! _) as [e|] eqn:E; [|done].
  apply lookup_replicate in E as [-> _]. apply Z.bits_0.
Qed.

Lemma copy_over_length c E : length (copy_over c E) = length c.
Proof. unfold copy_over. rewrite length_app, length_take, length_drop. lia. Qed.

Lemma bit_copy_over n E i : (Z.to_nat (i / 64) < n)%nat ->
  bit (copy_over (replicate n 0) E) i = bit E i.
Proof.
  intros H. unfold bit at 1, copy_over. rewrite length_replicate, drop_replicate.
  destruct (decide (Z.to_nat (i / 64) < length E)%nat) as [L|L].
  - rewrite lookup_app_l by (rewrite length_take; lia). by rewrite lookup_take_lt.
  - rewrite lookup_app_r, length_take, bit_past by (rewrite ?length_take; lia).
    destruct (replicate _ 0 !! _) as [e|] eqn:R; [|done].
    apply lookup_replicate in R as [-> _]. apply Z.bits_0.
Qed.

Lemma copyBits_ok a n : wf a -> size_ok n -> exists c,
  copyBits a n = Ok c /\ wf c /\ Bits c = n /\
  forall i, (Z.to_nat (i / 64) < Z.to_nat ((n + 63) / 64))%nat ->
    bit (Elems c) i = bit (Elems a) i.
Proof.
  intros [Ba La Wa] H. unfold copyBits. rewrite make_words by done.
  eexists. split; [done|]. split; [|split; [done|intros i; apply bit_copy_over]].
  split; cbn; [done| |].
  - unfold zlen. rewrite copy_over_length, length_replicate. apply words_len. lia.
  - apply Forall_app. split; [by apply Forall_take|].
    apply Forall_drop, Forall_replicate. unfold in_uN. lia.
Qed.

Lemma wf_index b n i : wf b -> 0 <= i < n -> n <= Bits b ->
  (Z.to_nat (i / 64) < Z.to_nat ((n + 63) / 64) <= length (Elems b))%nat.
Proof.
  intros [_ L _] H Hn. split; [by apply word_index|]. unfold zlen in L.
  assert ((n + 63) / 64 <= (Bits b + 63) / 64) by (apply Z.div_le_mono; lia). lia.
Qed.

Lemma wf_zip b c op : wf b -> (length (Elems b) <= length c)%nat ->
  (forall x y, in_uN 64 x -> in_uN 64 y -> in_uN 64 (op x y)) -> Forall (in_uN 64) c ->
  wf (mkBits (Bits b) (zip_with op (Elems b) c)).
Proof.
  intros [B L W] Hl Hop Hc. split; cbn; [done| |].
  - unfold zlen in *. rewrite length_zip_with. lia.
  - apply Forall_lookup. intros i z Hz.
    apply lookup_zip_with_Some in Hz as (x & y & -> & Hx & Hy).
    rewrite Forall_lookup in W, Hc. eauto.
Qed.

(** ** And, Not, Sub and Or *)

Lemma and_ok a b : wf a -> wf b -> exists c, and_ a b = Ok c /\ wf c /\
  bits_of c = zip_with andb (bits_of a) (bits_of b).
Proof.
  intros Wa Wb. pose proof (wf_Bits a Wa). pose proof (wf_Bits b Wb).
  unfold and_. destruct (copyBits_ok a (Z.min (Bits a) (Bits b)) Wa ltac:(lia))
    as (c & -> & Wc & Bc & Hc). pose proof (wf_Elems c Wc) as Lc. unfold zlen in Lc.
  pose proof (wf_index b (Bits c) 0 Wb ltac:(lia) ltac:(lia)) as [_ Lb].
  rewrite word_loop_zip by lia. eexists. split; [done|]. split.
  - apply wf_zip; [done|lia|by apply land_range|apply Wb].
  - apply bits_of_ext; [unfold zlen; rewrite length_zip_with, !bits_of_length; cbn; lia|].
    intros i v Hv. apply lookup_zip_with_Some in Hv as (x & y & -> & Hx & Hy). cbn.
    rewrite bits_of_lookup in Hx, Hy. repeat case_decide; simplify_eq.
    pose proof (word_index (Z.of_nat i) (Bits c) ltac:(lia)).
    rewrite (bit_zip Z.land andb), Hc by (try (intros; apply Z.land_spec); rewrite <- ?Bc; lia).
    done.
Qed.

Lemma Not_ok b : wf b -> exists c, Not (Some b) = Some c /\ wf c /\ Bits c = Bits b /\
  bits_of c = negb <$> bits_of b.
Proof.
  intros [B L W]. eexists. split; [done|]. split; [split; cbn|split; [done|]].
  - done.
  - unfold zlen in *. by rewrite length_fmap.
  - apply Forall_fmap, Forall_true. intros; apply not64_range.
  - apply bits_of_ext; [unfold zlen; rewrite length_fmap, bits_of_length; cbn; lia|].
    intros i v Hv. apply list_lookup_fmap_Some in Hv as (x & -> & Hx).
    rewrite bits_of_lookup in Hx. case_decide; [|done]. injection Hx as <-. cbn.
    apply bit_fmap; [intros; apply not64_bit, Z.mod_pos_bound; lia|].
    pose proof (word_index (Z.of_nat i) (Bits b) ltac:(lia)). unfold zlen in L. lia.
Qed.

Lemma Sub_ok a b : wf a -> wf b -> Bits a <= Bits b -> exists c,
  Sub (Some a) (Some b) = Ok (Some c) /\ wf c /\
  bits_of c = zip_with (fun x y => x && negb y) (bits_of a) (bits_of b).
Proof.
  intros Wa Wb H. destruct (Not_ok b Wb) as (b' & E & Wb' & _ & Hb').
  destruct (and_ok a b' Wa Wb') as (c & Ec & Wc & Hc).
  exists c. unfold Sub. destruct (Z.ltb_spec (Bits b) (Bits a)); [lia|].
  rewrite E, Ec. split; [done|]. split; [done|].
  by rewrite Hc, Hb', zip_with_fmap_r.
Qed.

(** Zero-extension of a bit list. *)
Definition extend (n : Z) (l : list bool) : list bool :=
  l ++ replicate (Z.to_nat n - length l) false.

Lemma extend_lookup n b i v : clean b -> Bits b <= n ->
  extend n (bits_of b) !! i = Some v -> v = bit (Elems b) (Z.of_nat i).
Proof.
  intros C Hn E. unfold extend in E. apply lookup_app_Some in E as [E|[L E]].
  - rewrite bits_of_lookup in E. case_decide; congruence.
  - apply lookup_replicate in E as [-> _]. rewrite bits_of_length in L.
    symmetry. apply C. lia.
Qed.

Lemma extend_length n b : wf b -> Bits b <= n -> length (extend n (bits_of b)) = Z.to_nat n.
Proof.
  intros W Hn. pose proof (wf_Bits b W). unfold extend.
  rewrite length_app, length_replicate, bits_of_length. lia.
Qed.

Lemma Or_ok a b : wf a -> wf b -> clean a -> clean b ->
  (length (Elems a) <= length (Elems b))%nat ->
  exists c, Or (Some a) (Some b) = Ok (Some c) /\ wf c /\
    let n := Z.max (Bits a) (Bits b) in
    bits_of c = zip_with orb (extend n (bits_of a)) (extend n (bits_of b)).
Proof.
  intros Wa Wb Ca Cb Hlen. pose proof (wf_Bits a Wa). pose proof (wf_Bits b Wb). unfold Or.
  destruct (copyBits_ok a (Z.max (Bits a) (Bits b)) Wa ltac:(lia)) as (c & -> & Wc & Bc & Hc).
  pose proof (wf_Elems c Wc) as Lc. pose proof (wf_Elems a Wa) as La.
  pose proof (wf_Elems b Wb) as Lb. unfold zlen in *. rewrite Bc in Lc.
  assert (length (Elems c) <= length (Elems b))%nat as Hl.
  { destruct (Z.max_spec (Bits a) (Bits b)) as [[_ M]|[_ M]]; rewrite M in Lc; lia. }
  rewrite word_loop_zip by done. eexists. split; [done|]. split.
  - apply wf_zip; [done|lia|by apply lor_range|apply Wb].
  - cbv zeta. apply bits_of_ext.
    + unfold zlen. rewrite length_zip_with, !extend_length by (done || lia). cbn. lia.
    + intros i v Hv. apply lookup_zip_with_Some in Hv as (x & y & -> & Hx & Hy). cbn.
      pose proof (lookup_lt_Some _ _ _ Hx) as Li. rewrite extend_length in Li by (done || lia).
      apply extend_lookup in Hx as ->; [|done|lia]. apply extend_lookup in Hy as ->; [|done|lia].
      pose proof (word_index (Z.of_nat i) (Z.max (Bits a) (Bits b)) ltac:(lia)).
      rewrite (bit_zip Z.lor orb), Hc by (try (intros; apply Z.lor_spec); lia). done.
Qed.

Lemma Or_panics a b : wf a -> wf b -> (length (Elems b) < length (Elems a))%nat ->
  Or (Some a) (Some b) = Panic.
Proof.
  intros Wa Wb Hlen. pose proof (wf_Bits a Wa). pose proof (wf_Bits b Wb). unfold Or.
  destruct (copyBits_ok a (Z.max (Bits a) (Bits b)) Wa ltac:(lia)) as (c & -> & Wc & Bc & Hc).
  pose proof (wf_Elems c Wc) as Lc. pose proof (wf_Elems a Wa) as La. unfold zlen in *.
  assert ((Bits a + 63) / 64 <= (Bits c + 63) / 64) by (apply Z.div_le_mono; lia).
  by rewrite word_loop_short by lia.
Qed.

(** ** Setting a bit *)

Lemma bit_insert E i e e' j : 0 <= i -> 0 <= j -> E !! Z.to_nat (i / 64) = Some e ->
  bit (<[Z.to_nat (i / 64) := e']> E) j =
    if j / 64 =? i / 64 then Z.testbit e' (j mod 64) else bit E j.
Proof.
  intros Hi Hj L. pose proof (Z.div_pos i 64). pose proof (Z.div_pos j 64). unfold bit.
  destruct (Z.eqb_spec (j / 64) (i / 64)) as [->|N].
  - rewrite list_lookup_insert_eq; [done|]. by eapply lookup_lt_Some.
  - by rewrite list_lookup_insert_ne by lia.
Qed.

Lemma setIndex_ok b i v : wf b -> 0 <= i < Bits b -> exists b',
  setIndex b i v = Ok (b', true) /\ wf b' /\ Bits b' = Bits b /\
  forall j, 0 <= j -> bit (Elems b') j = if j =? i then v else bit (Elems b) j.
Proof.
  intros W H. destruct (wf_lookup b i W H) as [e L]. destruct W as [B LE Wd].
  pose proof (Z.mod_pos_bound i 64 ltac:(lia)) as M.
  assert (in_uN 64 e) as He by (rewrite Forall_lookup in Wd; eauto).
  unfold setIndex. destruct (Z.leb_spec (Bits b) i); [lia|].
  rewrite (index_word _ _ _ (proj1 H) L), mask_spec, Z.quot_div_nonneg by lia.
  eexists. split; [done|]. split; [|split; [done|]]; cbn.
  - split; cbn; [done|unfold zlen in *; by rewrite length_insert|].
    apply Forall_insert; [done|]. destruct v; [apply lor_range|apply land_range]; try done.
    + by apply pow2_range.
    + apply not64_range.
  - intros j Hj. rewrite (bit_insert _ i e) by (done || lia).
    pose proof (Z.mod_pos_bound j 64 ltac:(lia)).
    pose proof (Z.div_mod i 64 ltac:(lia)). pose proof (Z.div_mod j 64 ltac:(lia)).
    destruct (Z.eqb_spec (j / 64) (i / 64)) as [D|D];
      [|destruct (Z.eqb_spec j i) as [->|]; [done|done]].
    assert (bit (Elems b) j = Z.testbit e (j mod 64)) as -> by (unfold bit; by rewrite D, L).
    destruct v; rewrite ?Z.lor_spec, ?Z.land_spec, ?not64_bit, Z.pow2_bits_eqb by lia;
      destruct (Z.eqb_spec (i mod 64) (j mod 64)), (Z.eqb_spec j i); subst; try lia; cbn;
      by rewrite ?orb_true_r, ?orb_false_r, ?andb_true_r, ?andb_false_r.
Qed.

(** ** [Sub] from a longer array *)

Lemma land_not64 x : in_uN 64 x -> Z.land x (not64 x) = 0.
Proof.
  intros H. apply uint64_bits in H as [_ H]. apply Z.bits_inj'. intros k Hk.
  rewrite Z.land_spec, Z.bits_0. destruct (Z.lt_ge_cases k 64).
  - rewrite not64_bit by lia. by destruct (Z.testbit x k).
  - by rewrite H.
Qed.

Lemma sub_words_ok n E : Forall (in_uN 64) E -> (n <= length E)%nat ->
  sub_words n E = Ok (replicate n 0 ++ drop n E).
Proof.
  intros H. revert n. induction H as [|x E Hx H IH]; intros [|n] L; cbn in *; try done; try lia.
  by rewrite IH, land_not64 by (done || lia).
Qed.

Lemma sub_bits_ok n idx c b : wf c -> wf b -> 0 <= idx -> idx + Z.of_nat n <= Bits b ->
  Bits b <= Bits c -> exists c', sub_bits n idx c b = Ok c' /\ wf c' /\ Bits c' = Bits c /\
  forall j, 0 <= j -> bit (Elems c') j =
    if (idx <=? j) && (j <? idx + Z.of_nat n) then bit (Elems c) j && negb (bit (Elems b) j)
    else bit (Elems c) j.
Proof.
  revert idx c. induction n as [|n IH]; intros idx c Wc Wb Hi Hn Hc; cbn [sub_bits].
  - exists c. split; [done|]. split; [done|]. split; [done|]. intros j Hj.
    destruct (Z.leb_spec idx j), (Z.ltb_spec j (idx + Z.of_nat 0)); try done; lia.
  - rewrite getIndex_bit by (done || lia).
    destruct (setIndex_ok c idx (bit (Elems c) idx && negb (bit (Elems b) idx)) Wc ltac:(lia))
      as (c1 & E1 & W1 & B1 & H1).
    destruct (IH (idx + 1) c1 W1 Wb ltac:(lia) ltac:(lia) ltac:(lia)) as (c2 & E2 & W2 & B2 & H2).
    exists c2. split; [|split; [done|split; [lia|]]].
    + destruct (bit (Elems c) idx) eqn:X; cbn [GetIndex] in *; [rewrite getIndex_bit by (done || lia)|];
        cbn [andb negb] in *; by rewrite E1.
    + intros j Hj. rewrite H2, H1 by done.
      destruct (Z.eqb_spec j idx), (Z.leb_spec (idx + 1) j), (Z.leb_spec idx j),
        (Z.ltb_spec j (idx + 1 + Z.of_nat n)), (Z.ltb_spec j (idx + Z.of_nat (S n)));
        subst; try lia; done.
Qed.

Lemma bit_zero_prefix n E i : (n <= length E)%nat -> 0 <= i ->
  bit (replicate n 0 ++ drop n E) i = if i <? 64 * Z.of_nat n then false else bit E i.
Proof.
  intros L Hi. pose proof (Z.div_pos i 64 ltac:(lia) ltac:(lia)).
  pose proof (Z.div_mod i 64 ltac:(lia)). pose proof (Z.mod_pos_bound i 64 ltac:(lia)).
  destruct (Z.ltb_spec i (64 * Z.of_nat n)); unfold bit.
  - rewrite lookup_app_l by (rewrite length_replicate; lia).
    rewrite lookup_replicate_2 by lia. apply Z.bits_0.
  - rewrite lookup_app_r by (rewrite length_replicate; lia).
    rewrite length_replicate, lookup_drop.
    by replace (n + (Z.to_nat (i / 64) - n))%nat with (Z.to_nat (i / 64)) by lia.
Qed.

Lemma Sub_longer_ok a b : wf a -> wf b -> Bits b < Bits a -> exists c,
  Sub (Some a) (Some b) = Ok (Some c) /\ wf c /\ Bits c = Bits a /\
  forall j, 0 <= j -> bit (Elems c) j =
    if j <? 64 * (zlen (Elems b) - 1) then false
    else if j <? Bits b then bit (Elems a) j && negb (bit (Elems b) j)
    else bit (Elems a) j.
Proof.
  intros Wa Wb H. pose proof (wf_Bits b Wb). pose proof (wf_Elems b Wb) as Lb.
  pose proof (wf_Elems a Wa) as La. pose proof (wf_Bits a Wa).
  pose proof (Z.div_mod (Bits b + 63) 64 ltac:(lia)).
  pose proof (Z.mod_pos_bound (Bits b + 63) 64 ltac:(lia)).
  assert (zlen (Elems b) <= zlen (Elems a)) by (rewrite La, Lb; apply Z.div_le_mono; lia).
  assert (1 <= zlen (Elems b)) as L1 by (rewrite Lb; apply Z.div_le_lower_bound; lia).
  set (n := Z.to_nat (zlen (Elems b) - 1)).
  assert (n <= length (Elems a))%nat as Hn by (unfold zlen in *; lia).
  unfold Sub. destruct (Z.ltb_spec (Bits b) (Bits a)); [|lia]. cbn [copy Elems Bits].
  fold n. rewrite (sub_words_ok n (Elems a) (wf_words a Wa) Hn).
  destruct (Z.leb_spec 0 (zlen (Elems b) - 1)); [|lia].
  set (c := mkBits (Bits a) (replicate n 0 ++ drop n (Elems a))).
  assert (wf c) as Wc.
  { split; cbn; [done| |].
    - unfold zlen in *. rewrite length_app, length_replicate, length_drop. lia.
    - apply Forall_app. split; [apply Forall_replicate; unfold in_uN; lia|].
      apply Forall_drop, Wa. }
  destruct (sub_bits_ok (Z.to_nat (Bits b - (zlen (Elems b) - 1) * 64))
    ((zlen (Elems b) - 1) * 64) c b Wc Wb) as (c' & -> & Wc' & Bc' & Hc'); try (cbn; lia).
  exists c'. split; [done|]. split; [done|]. split; [done|]. intros j Hj.
  rewrite Hc' by done. unfold c. cbn [Elems]. rewrite bit_zero_prefix by done.
  replace (Z.of_nat n) with (zlen (Elems b) - 1) by lia.
  destruct (Z.ltb_spec j (64 * (zlen (Elems b) - 1))), (Z.leb_spec ((zlen (Elems b) - 1) * 64) j),
    (Z.ltb_spec j ((zlen (Elems b) - 1) * 64 + Z.of_nat (Z.to_nat (Bits b - (zlen (Elems b) - 1) * 64)))),
    (Z.ltb_spec j (Bits b)); try lia; done.
Qed.

(** ** [IsFull] *)

Lemma low_ones x r : 0 <= r ->
  (forall k, 0 <= k < r -> Z.testbit x k = true) <-> (x + 1) mod 2 ^ r = 0.
Proof.
  intros Hr. pose proof (Z.pow_pos_nonneg 2 r ltac:(lia) Hr) as P.
  transitivity (x mod 2 ^ r = Z.ones r).
  - split.
    + intros H. apply Z.bits_inj'. intros k Hk. destruct (Z.lt_ge_cases k r).
      * rewrite Z.mod_pow2_bits_low, Z.ones_spec_low by lia. by apply H.
      * by rewrite Z.mod_pow2_bits_high, Z.ones_spec_high by lia.
    + intros H k Hk. rewrite <- (Z.mod_pow2_bits_low x r k) by lia.
      rewrite H. by apply Z.ones_spec_low.
  - rewrite Z.ones_equiv. pose proof (Z.mod_pos_bound x (2 ^ r) P).
    rewrite <- Z.add_mod_idemp_l by lia. split.
    + intros ->. rewrite Z.add_1_r, Z.succ_pred. by apply Z.mod_same; lia.
    + intros E. destruct (Z.eq_dec (x mod 2 ^ r + 1) (2 ^ r)); [lia|].
      rewrite Z.mod_small in E by lia. lia.
Qed.

Lemma not64_zero x : in_uN 64 x ->
  (not64 x = 0 <-> forall k, 0 <= k < 64 -> Z.testbit x k = true).
Proof.
  intros H. split.
  - intros E k Hk. pose proof (not64_bit x k Hk) as B. rewrite E, Z.bits_0 in B.
    by destruct (Z.testbit x k).
  - intros B. apply Z.bits_inj'. intros k Hk. rewrite Z.bits_0.
    destruct (Z.lt_ge_cases k 64); [rewrite not64_bit, B by lia; done|].
    pose proof (not64_range x) as R. apply uint64_bits in R as [_ R]. by apply R.
Qed.

Lemma bits_all b : Forall (fun v => v = true) (bits_of b) <->
  forall i, 0 <= i < Bits b -> bit (Elems b) i = true.
Proof.
  rewrite Forall_lookup. setoid_rewrite bits_of_lookup. split.
  - intros H i Hi. apply (H (Z.to_nat i)). case_decide; [|lia]. by rewrite Z2Nat.id by lia.
  - intros H i v E. case_decide; [|done]. injection E as <-. apply H. lia.
Qed.

(** The words before the last one and the last one. *)
Lemma wf_last b : wf b -> exists init last, Elems b = init ++ [last] /\
  in_uN 64 last /\ Forall (in_uN 64) init /\
  64 * zlen init < Bits b <= 64 * zlen init + 64.
Proof.
  intros [B L W]. destruct (Elems b) as [|last init _] using rev_ind.
  - rewrite zlen_nil in L. assert (1 <= (Bits b + 63) / 64) by (apply Z.div_le_lower_bound; lia). lia.
  - apply Forall_app in W as [Wi Wl]. rewrite Forall_singleton in Wl.
    exists init, last. split; [done|]. split; [done|]. split; [done|].
    rewrite zlen_app in L. change (zlen [last]) with 1 in L.
    pose proof (Z.div_mod (Bits b + 63) 64 ltac:(lia)).
    pose proof (Z.mod_pos_bound (Bits b + 63) 64 ltac:(lia)). lia.
Qed.

Lemma bit_word E q k e : 0 <= q -> 0 <= k < 64 -> E !! Z.to_nat q = Some e ->
  bit E (64 * q + k) = Z.testbit e k.
Proof.
  intros Hq Hk L. unfold bit.
  replace ((64 * q + k) / 64) with q by (rewrite Z.mul_comm, Z.div_add_l, Z.div_small; lia).
  replace ((64 * q + k) mod 64) with k
    by (rewrite Z.mul_comm, Z.add_comm, Z.mod_add, Z.mod_small; lia).
  by rewrite L.
Qed.

(** Splitting a statement about all bits at the last word. *)
Lemma all_bits_split (P : bool -> Prop) init last n : 64 * zlen init < n <= 64 * zlen init + 64 ->
  (forall i, 0 <= i < n -> P (bit (init ++ [last]) i)) <->
  Forall (fun e => forall k, 0 <= k < 64 -> P (Z.testbit e k)) init /\
  (forall k, 0 <= k < n - 64 * zlen init -> P (Z.testbit last k)).
Proof.
  intros Hn. assert ((init ++ [last]) !! Z.to_nat (zlen init) = Some last) as Hl.
  { apply list_lookup_middle. unfold zlen. by rewrite Nat2Z.id. }
  split.
  - intros H. split.
    + apply Forall_lookup. intros q e Hq k Hk. pose proof (lookup_lt_Some _ _ _ Hq) as Lq.
      rewrite <- (bit_word (init ++ [last]) (Z.of_nat q)) by
        (try rewrite Nat2Z.id, lookup_app_l; done || lia).
      apply H. unfold zlen in *. lia.
    + intros k Hk. rewrite <- (bit_word (init ++ [last]) (zlen init)) by (done || zl || lia).
      apply H. zl.
  - intros [H1 H2] i Hi. rewrite Forall_lookup in H1.
    pose proof (Z.div_mod i 64 ltac:(lia)) as D. pose proof (Z.mod_pos_bound i 64 ltac:(lia)).
    pose proof (Z.div_pos i 64 ltac:(lia) ltac:(lia)). rewrite D.
    destruct (Z.lt_ge_cases (i / 64) (zlen init)) as [G|G].
    + destruct (lookup_lt_is_Some_2 init (Z.to_nat (i / 64))) as [e He]; [unfold zlen in G; lia|].
      rewrite (bit_word _ _ _ e) by (rewrite ?lookup_app_l; done || (unfold zlen in G; lia)).
      by eapply H1.
    + assert (i / 64 = zlen init) as E by lia. rewrite E.
      rewrite (bit_word _ _ _ last) by (done || zl || lia). apply H2. lia.
Qed.

Lemma full_words init : Forall (in_uN 64) init ->
  forallb (fun e => not64 e =? 0) init = true <->
  Forall (fun e => forall k, 0 <= k < 64 -> Z.testbit e k = true) init.
Proof.
  induction 1 as [|e init He Hi IH]; cbn; [done|].
  rewrite andb_true_iff, IH, Forall_cons, Z.eqb_eq, not64_zero by done. done.
Qed.

(** The test on the last word, [(lastElem+1) & ((1<<n)-1) == 0]. *)
Lemma full_last last n : 0 < n <= 64 ->
  Z.land (u64 (last + 1)) (u64 ((if n <? 64 then Z.shiftl 1 n else 0) - 1)) = 0 <->
  forall k, 0 <= k < n -> Z.testbit last k = true.
Proof.
  intros Hn. rewrite low_ones by lia.
  assert (u64 ((if n <? 64 then Z.shiftl 1 n else 0) - 1) = Z.ones n) as ->.
  { destruct (Z.ltb_spec n 64); [|by replace n with 64 by lia].
    rewrite Z.shiftl_1_l, Z.ones_equiv, <- Z.sub_1_r. apply uN_id. unfold in_uN.
    pose proof (Z.pow_pos_nonneg 2 n). pose proof (Z.pow_lt_mono_r 2 n 64). lia. }
  rewrite Z.land_ones by lia. unfold uN.
  by rewrite Z.mod_mod_divide by
    (exists (2 ^ (64 - n)); rewrite <- Z.pow_add_r by lia; f_equal; lia).
Qed.

Lemma IsFull_ok b : wf b -> exists r, IsFull (Some b) = Ok r /\
  (r = true <-> Forall (fun v => v = true) (bits_of b)).
Proof.
  intros W. destruct (wf_last b W) as (init & last & E & Hl & Hi & Hn).
  pose proof (wf_Bits b W). unfold IsFull. rewrite E.
  replace (zlen (init ++ [last]) - 1) with (zlen init)
    by (rewrite zlen_app; change (zlen [last]) with 1; lia).
  rewrite (slice_mid [] init [last] : slice (init ++ [last]) 0 (zlen init) = Some init).
  assert (index (init ++ [last]) (zlen init) = Ok last) as ->.
  { unfold index. destruct (Z.ltb_spec (zlen init) 0); [zl|]. unfold zlen.
    by rewrite Nat2Z.id, list_lookup_middle. }
  assert (Z.rem (s64 (Bits b + 63)) 64 + 1 = Bits b - 64 * zlen init) as ->.
  { rewrite sN_id, Z.rem_mod_nonneg by (unfold in_sN; lia).
    rewrite <- (Z.mod_unique (Bits b + 63) 64 (zlen init + 1) (Bits b - 64 * zlen init - 1)); lia. }
  assert (Forall (fun v => v = true) (bits_of b) <->
    forallb (fun e => not64 e =? 0) init = true /\
    Z.land (u64 (last + 1)) (u64 ((if Bits b - 64 * zlen init <? 64
      then Z.shiftl 1 (Bits b - 64 * zlen init) else 0) - 1)) = 0) as A.
  { rewrite bits_all, E, (all_bits_split (fun v => v = true) init last (Bits b)) by done.
    by rewrite full_words, full_last by (done || lia). }
  destruct (forallb _ init); eexists; (split; [done|]); rewrite A, ?Z.eqb_eq; [tauto|].
  split; [done|]. by intros [? _].
Qed.

(** ** [PickRandom] *)

(** Every residue is visited by a round of [m] steps from any start. *)
Lemma rotation m start k : 0 <= start < m -> 0 <= k < m ->
  exists j, 0 <= j < m /\ Z.rem (j + start) m = k.
Proof.
  intros Hs Hk. exists ((k - start) mod m). pose proof (Z.mod_pos_bound (k - start) m ltac:(lia)).
  split; [done|]. rewrite Z.rem_mod_nonneg by lia.
  rewrite Z.add_mod_idemp_l by lia. replace (k - start + start) with k by lia.
  by apply Z.mod_small.
Qed.

Lemma rotation_range m start j : 0 <= start < m -> 0 <= j -> 0 <= Z.rem (j + start) m < m.
Proof. intros Hs Hj. rewrite Z.rem_mod_nonneg by lia. apply Z.mod_pos_bound. lia. Qed.

Lemma scan_bits_spec n j start m e : 0 <= start < m -> m <= 64 -> 0 <= j ->
  match scan_bits n j start m e with
  | Some k => 0 <= k < m /\ Z.testbit e k = true
  | None => forall i, j <= i < j + Z.of_nat n -> Z.testbit e (Z.rem (i + start) m) = false
  end.
Proof.
  intros Hs Hm. revert j. induction n as [|n IH]; intros j Hj; cbn [scan_bits]; [lia|].
  pose proof (rotation_range m start j Hs Hj) as R.
  rewrite mask_spec, (Z.mod_small _ 64), land_pow2 by lia.
  destruct (Z.testbit e (Z.rem (j + start) m)) eqn:T; [done|].
  specialize (IH (j + 1) ltac:(lia)). destruct (scan_bits n _ _ _ _); [done|].
  intros i Hi. destruct (Z.eq_dec i j) as [->|]; [done|]. apply IH. lia.
Qed.

Lemma scan_bits_none m start e : 0 <= start < m -> m <= 64 ->
  scan_bits (Z.to_nat m) 0 start m e = None -> forall k, 0 <= k < m -> Z.testbit e k = false.
Proof.
  intros Hs Hm E k Hk. pose proof (scan_bits_spec (Z.to_nat m) 0 start m e Hs Hm ltac:(lia)) as P.
  rewrite E in P. destruct (rotation m start k Hs Hk) as (j & Hj & <-). apply P. lia.
Qed.

Section pick.
Variable RandIntn : nat -> Z -> Z.
Hypothesis RandIntn_range : forall k n, 0 < n -> 0 <= RandIntn k n < n.

(** A position is good when its bit is set, and word [q] is exhausted when the
    bits of it that count are clear. *)
Definition picked (b : BitArray) (i : Z) : Prop := 0 <= i < Bits b /\ bit (Elems b) i = true.

Definition exhausted (b : BitArray) (q : Z) : Prop :=
  forall k, 0 <= k < 64 -> 64 * q + k < Bits b -> bit (Elems b) (64 * q + k) = false.

(** The bits that count in the last word. *)
Lemma last_bits b : wf b ->
  (if Z.rem (Bits b) 64 =? 0 then 64 else Z.rem (Bits b) 64) =
    Bits b - 64 * (zlen (Elems b) - 1) /\
  0 < Bits b - 64 * (zlen (Elems b) - 1) <= 64.
Proof.
  intros [B L _]. rewrite L, Z.rem_mod_nonneg by lia.
  pose proof (Z.div_mod (Bits b + 63) 64 ltac:(lia)).
  pose proof (Z.mod_pos_bound (Bits b + 63) 64 ltac:(lia)).
  pose proof (Z.div_mod (Bits b) 64 ltac:(lia)).
  pose proof (Z.mod_pos_bound (Bits b) 64 ltac:(lia)).
  destruct (Z.eqb_spec (Bits b mod 64) 0); lia.
Qed.

(** Scanning the bits of word [q] that count, in either branch of the loop. *)
Lemma scan_word b q e k w : 0 <= q -> Elems b !! Z.to_nat q = Some e ->
  w = Z.min 64 (Bits b - 64 * q) -> 0 < w ->
  match scan_bits (Z.to_nat w) 0 (RandIntn k w) w e with
  | Some x => picked b (64 * q + x)
  | None => exhausted b q
  end.
Proof.
  intros Hq He Hw Hpos. pose proof (RandIntn_range k w Hpos) as R.
  pose proof (scan_bits_spec (Z.to_nat w) 0 _ w e R ltac:(lia) ltac:(lia)) as S.
  destruct (scan_bits _ _ _ _ _) as [x|] eqn:E.
  - destruct S as [S1 S2]. split; [lia|]. by rewrite (bit_word _ _ _ e) by (done || lia).
  - intros x Hx Hb. rewrite (bit_word _ _ _ e) by (done || lia).
    apply (scan_bits_none w _ e R ltac:(lia) E). lia.
Qed.

(** A word that is not zero has a bit to find. *)
Lemma scan_nonzero e k : in_uN 64 e -> 0 < e -> scan_bits 64 0 (RandIntn k 64) 64 e <> None.
Proof.
  intros We P E. pose proof (Z.log2_nonneg e). unfold in_uN in We.
  assert (Z.log2 e < 64) by (apply Z.log2_lt_pow2; lia).
  pose proof (scan_bits_none 64 _ e (RandIntn_range k 64 ltac:(lia)) ltac:(lia) E (Z.log2 e) ltac:(lia)) as N.
  by rewrite Z.bit_log2 in N by lia.
Qed.

(** What the loop has found after the rounds [i .. i+n-1]. *)
Definition pick_post (b : BitArray) (start i : Z) (n : nat) (r : run (Z * bool)) : Prop :=
  exists p f, r = Ok (p, f) /\
  if f then picked b p
  else p = 0 /\ forall j, i <= j < i + Z.of_nat n ->
    exhausted b (Z.rem (j + start) (zlen (Elems b))).

Lemma pick_post_next b start i n r : exhausted b (Z.rem (i + start) (zlen (Elems b))) ->
  pick_post b start (i + 1) n r -> pick_post b start i (S n) r.
Proof.
  intros X (p & f & -> & P). exists p, f. split; [done|]. destruct f; [done|].
  destruct P as [-> P]. split; [done|]. intros j Hj.
  destruct (Z.eq_dec j i) as [->|]; [done|]. apply P. lia.
Qed.

Lemma pick_loop_ok b start n i k : wf b -> 0 <= start < zlen (Elems b) -> 0 <= i ->
  pick_post b start i n (pick_loop RandIntn n i start k b).
Proof.
  intros W Hs. destruct (last_bits b W) as [LB LR]. revert i k.
  induction n as [|n IH]; intros i k Hi; cbn [pick_loop].
  { exists 0, false. split; [done|]. split; [done|]. intros; lia. }
  pose proof (rotation_range _ start i Hs Hi) as R. specialize (IH (i + 1)).
  pose proof (pick_post_next b start i n) as Next.
  set (q := Z.rem (i + start) (zlen (Elems b))) in *.
  destruct (lookup_lt_is_Some_2 (Elems b) (Z.to_nat q)) as [e He]; [unfold zlen in *; lia|].
  assert (in_uN 64 e) as We by (pose proof (wf_words b W) as F; rewrite Forall_lookup in F; eauto).
  unfold index. destruct (Z.ltb_spec q 0); [lia|]. rewrite He.
  destruct (Z.ltb_spec q (zlen (Elems b) - 1)) as [Q|Q].
  - destruct (Z.ltb_spec 0 e) as [P|P].
    + pose proof (scan_word b q e k 64 ltac:(lia) He ltac:(lia) ltac:(lia)) as S.
      change (Z.to_nat 64) with 64%nat in S. pose proof (scan_nonzero e k We P).
      destruct (scan_bits 64 _ _ _ _) as [x|]; [|done]. by exists (64 * q + x), true.
    + apply Next; [|apply IH; lia]. intros x Hx _. rewrite (bit_word _ _ _ e) by (done || lia).
      unfold in_uN in We. replace e with 0 by lia. apply Z.bits_0.
  - cbv zeta. rewrite LB. assert (q = zlen (Elems b) - 1) as Eq by lia. rewrite <- Eq in *.
    destruct (Z.leb_spec (Bits b - 64 * q) 0); [lia|].
    pose proof (scan_word b q e k (Bits b - 64 * q) ltac:(lia) He ltac:(lia) ltac:(lia)) as S.
    destruct (scan_bits _ _ _ _ e) as [x|]; [by exists (64 * q + x), true|].
    apply Next; [done|]. apply IH. lia.
Qed.

Lemma PickRandom_ok b : wf b -> exists p f, PickRandom RandIntn (Some b) = Ok (p, f) /\
  if f then picked b p else p = 0 /\ forall i, 0 <= i < Bits b -> bit (Elems b) i = false.
Proof.
  intros W. destruct (last_bits b W) as [_ LR]. pose proof (wf_Bits b W).
  assert (1 <= zlen (Elems b)) as L by (rewrite (wf_Elems b W); apply Z.div_le_lower_bound; lia).
  unfold PickRandom. destruct (Z.eqb_spec (zlen (Elems b)) 0); [lia|].
  pose proof (RandIntn_range 0 (zlen (Elems b)) ltac:(lia)) as Hs.
  destruct (pick_loop_ok b _ (length (Elems b)) 0 1 W Hs ltac:(lia)) as (p & f & -> & P).
  exists p, f. split; [done|]. destruct f; [done|]. destruct P as [-> P]. split; [done|].
  intros i Hi. pose proof (Z.div_mod i 64 ltac:(lia)) as D.
  pose proof (Z.mod_pos_bound i 64 ltac:(lia)).
  pose proof (Z.div_pos i 64 ltac:(lia) ltac:(lia)).
  destruct (rotation (zlen (Elems b)) _ (i / 64) Hs) as (j & Hj & E); [lia|].
  specialize (P j ltac:(unfold zlen in *; lia)). rewrite E in P.
  rewrite D. apply P; lia.
Qed.
End pick.

(** ** JSON *)

Lemma words_ext b c : wf b -> wf c -> Bits b = Bits c ->
  (forall j, 0 <= j -> bit (Elems b) j = bit (Elems c) j) -> b = c.
Proof.
  intros Wb Wc E H. destruct b as [n B], c as [m C]. cbn in *. subst m. f_equal.
  apply list_eq_same_length with (length C); [done| |].
  - pose proof (wf_Elems _ Wb) as L1. pose proof (wf_Elems _ Wc) as L2.
    unfold zlen in *. cbn in *. lia.
  - intros q x y Hq Hx Hy. apply Z.bits_inj'. intros k Hk.
    pose proof (wf_words _ Wb) as F1. pose proof (wf_words _ Wc) as F2. cbn in *.
    rewrite Forall_lookup in F1, F2. specialize (F1 _ _ Hx). specialize (F2 _ _ Hy).
    apply uint64_bits in F1 as [_ F1], F2 as [_ F2].
    destruct (Z.lt_ge_cases k 64); [|by rewrite F1, F2].
    rewrite <- (bit_word B (Z.of_nat q) k x), <- (bit_word C (Z.of_nat q) k y)
      by (rewrite ?Nat2Z.id; done || lia).
    apply H. lia.
Qed.

Lemma NewBitArray_ok n : size_ok n -> exists c, NewBitArray n = Ok (Some c) /\ wf c /\
  Bits c = n /\ forall j, bit (Elems c) j = false.
Proof.
  intros H. unfold NewBitArray. destruct (Z.leb_spec n 0); [lia|]. rewrite make_words by done.
  eexists. split; [done|]. split; [split; cbn; [done| |]|split; [done|]].
  - unfold zlen. rewrite length_replicate. apply words_len. lia.
  - apply Forall_replicate. unfold in_uN. lia.
  - intros j. apply bit_replicate.
Qed.

(** The characters of the text. *)
Definition chr (v : bool) : Z := if v then 120 else 95.

Lemma marshal_loop_ok b n i : wf b -> 0 <= i -> i + Z.of_nat n <= Bits b ->
  marshal_loop n i b = Ok ((fun k => chr (bit (Elems b) (i + Z.of_nat k))) <$> seq 0 n).
Proof.
  intros W. revert i. induction n as [|n IH]; intros i Hi Hn; [done|].
  cbn [marshal_loop]. rewrite getIndex_bit, IH by (done || lia).
  cbn [seq fmap list_fmap]. rewrite Z.add_0_r, <- fmap_S_seq, <- list_fmap_compose. do 2 f_equal.
  apply list_fmap_ext. intros _ k _. cbn. do 2 f_equal. lia.
Qed.

Lemma MarshalJSON_ok b : wf b ->
  MarshalJSON (Some b) = Ok (34 :: (chr <$> bits_of b) ++ [34]).
Proof.
  intros W. pose proof (wf_Bits b W). unfold MarshalJSON.
  rewrite marshal_loop_ok by (done || lia). unfold bits_of. by rewrite <- list_fmap_compose.
Qed.

Lemma match_bits_ok t : Forall (fun c => c = 95 \/ c = 120) t ->
  match_bits (34 :: t ++ [34]) = Some t.
Proof.
  intros H. unfold match_bits. rewrite rev_app_distr. cbn [rev app Z.eqb Pos.eqb andb].
  replace (forallb _ (rev t)) with true; [by rewrite rev_involutive|].
  symmetry. apply forallb_forall. intros c Hc. apply in_rev in Hc.
  rewrite List.Forall_forall in H. apply H in Hc as [-> | ->]; done.
Qed.

Lemma unmarshal_loop_ok t i c : wf c -> 0 <= i -> i + zlen t <= Bits c -> exists c',
  unmarshal_loop t i (Some c) = Ok (Some c') /\ wf c' /\ Bits c' = Bits c /\
  forall j, 0 <= j -> bit (Elems c') j = bit (Elems c) j ||
    ((i <=? j) && bool_decide (t !! Z.to_nat (j - i) = Some 120)).
Proof.
  revert i c. induction t as [|x t IH]; intros i c W Hi Hn; cbn [unmarshal_loop].
  - exists c. split; [done|]. split; [done|]. split; [done|]. intros j Hj.
    by rewrite andb_false_r, orb_false_r.
  - rewrite zlen_cons in Hn. pose proof (zlen_nonneg t).
    assert (exists c1, wf c1 /\ Bits c1 = Bits c /\ (forall j, 0 <= j -> bit (Elems c1) j =
        bit (Elems c) j || ((j =? i) && (x =? 120))) /\
      (if x =? 120 then let* (bA2, _) := SetIndex (Some c) i true in unmarshal_loop t (i + 1) bA2
       else unmarshal_loop t (i + 1) (Some c)) = unmarshal_loop t (i + 1) (Some c1))
      as (c1 & W1 & B1 & H1 & ->).
    { destruct (Z.eqb_spec x 120) as [->|N].
      - destruct (setIndex_ok c i true W ltac:(lia)) as (c1 & E1 & W1 & B1 & H1).
        exists c1. split; [done|]. split; [done|]. split; [|cbn; by rewrite E1].
        intros j Hj. rewrite H1 by done. destruct (j =? i); by rewrite ?orb_true_r, ?orb_false_r.
      - exists c. split; [done|]. split; [done|]. split; [|done].
        intros j _. by rewrite andb_false_r, orb_false_r. }
    destruct (IH (i + 1) c1 W1 ltac:(lia) ltac:(lia)) as (c2 & E2 & W2 & B2 & H2).
    exists c2. split; [done|]. split; [done|]. split; [congruence|]. intros j Hj.
    rewrite H2, H1 by done. rewrite <- orb_assoc. f_equal.
    destruct (Z.eqb_spec j i) as [->|].
    + destruct (Z.leb_spec (i + 1) i), (Z.leb_spec i i); try lia. cbn [andb].
      rewrite Z.sub_diag, orb_false_r. cbn. destruct (Z.eqb_spec x 120); case_bool_decide; naive_solver.
    + destruct (Z.leb_spec (i + 1) j), (Z.leb_spec i j); try lia; try done. cbn [andb orb].
      replace (Z.to_nat (j - i)) with (S (Z.to_nat (j - (i + 1)))) by lia. done.
Qed.

Lemma JSON_ok b : wf b -> clean b -> exists text, MarshalJSON (Some b) = Ok text /\
  UnmarshalJSON text = Ok b.
Proof.
  intros W C. pose proof (wf_Bits b W). rewrite MarshalJSON_ok by done. eexists. split; [done|].
  assert (zlen (chr <$> bits_of b) = Bits b) as L.
  { unfold zlen. rewrite length_fmap, bits_of_length. lia. }
  unfold UnmarshalJSON. rewrite match_bits_ok, L.
  2:{ apply Forall_fmap, Forall_true. intros []; cbn; auto. }
  destruct (NewBitArray_ok (Bits b) ltac:(lia)) as (c & -> & Wc & Bc & Hc).
  destruct (unmarshal_loop_ok (chr <$> bits_of b) 0 c Wc) as (c' & E & Wc' & Bc' & Hc'); [lia..|].
  cbn [str_eqb]. unfold str_eqb. rewrite bool_decide_eq_false_2 by done. rewrite E.
  f_equal. apply words_ext; [done|done|congruence|]. intros j Hj.
  rewrite Hc', Hc by done. destruct (Z.leb_spec 0 j); [|lia]. cbn [orb andb].
  rewrite Z.sub_0_r, list_lookup_fmap, bits_of_lookup.
  destruct (decide (Z.to_nat j < Z.to_nat (Bits b))%nat) as [D|D]; cbn.
  - rewrite Z2Nat.id by done. by destruct (bit (Elems b) j).
  - symmetry. apply C. lia.
Qed.

(** ** Properties *)

(** Sample arrays: 65 and 3 bits. *)
Definition long : BitArray := mkBits 65 [5; 1].
Definition short : BitArray := mkBits 3 [6].

Lemma wf_long : wf long.
Proof. split; [cbn; lia|reflexivity|repeat constructor; unfold in_uN; lia]. Qed.

Lemma wf_short : wf short.
Proof. split; [cbn; lia|reflexivity|repeat constructor; unfold in_uN; lia]. Qed.

Lemma clean_bits b : wf b -> (forall q k e, Elems b !! Z.to_nat q = Some e -> 0 <= k < 64 ->
  0 <= q -> Bits b <= 64 * q + k -> Z.testbit e k = false) -> clean b.
Proof.
  intros W H i Hi. pose proof (wf_Bits b W). unfold bit.
  destruct (Elems b !! _) as [e|] eqn:E; [|done].
  pose proof (Z.div_mod i 64 ltac:(lia)). pose proof (Z.mod_pos_bound i 64 ltac:(lia)).
  pose proof (Z.div_pos i 64 ltac:(lia) ltac:(lia)).
  apply (H (i / 64) (i mod 64) e E); lia.
Qed.

Lemma small_bits e n k : 0 <= e < 2 ^ n -> n <= k -> Z.testbit e k = false.
Proof.
  intros H Hk. destruct (Z.eq_dec e 0) as [->|]; [apply Z.bits_0|].
  apply Z.bits_above_log2; [lia|]. apply Z.log2_lt_pow2; [lia|].
  destruct (Z.lt_ge_cases n 0); [rewrite Z.pow_neg_r in H by done; lia|].
  pose proof (Z.pow_le_mono_r 2 n k). lia.
Qed.

Lemma clean_short : clean short.
Proof.
  apply clean_bits; [apply wf_short|]. intros q k e E Hk Hq Hb. cbn in *.
  destruct (Z.to_nat q) as [|n] eqn:Q; [|by destruct n]. injection E as <-.
  apply (small_bits _ 3); lia.
Qed.

Lemma clean_long : clean long.
Proof.
  apply clean_bits; [apply wf_long|]. intros q k e E Hk Hq Hb. cbn in *.
  destruct (Z.to_nat q) as [|[|n]] eqn:Q; [lia| |by destruct n]. injection E as <-.
  apply (small_bits _ 1); lia.
Qed.

(** On well-formed arrays [And], [Not] and, when the receiver is not the
    longer one, [Sub] compute the operation on the booleans they stand for
    (on the common prefix), and their results are well formed. *)
Theorem And_Not_Sub_bits a b : wf a -> wf b ->
  (exists c, And (Some a) (Some b) = Ok (Some c) /\ wf c /\
     bits_of c = zip_with andb (bits_of a) (bits_of b)) /\
  (exists c, Not (Some a) = Some c /\ wf c /\ bits_of c = negb <$> bits_of a) /\
  (Bits a <= Bits b -> exists c, Sub (Some a) (Some b) = Ok (Some c) /\ wf c /\
     bits_of c = zip_with (fun x y => x && negb y) (bits_of a) (bits_of b)).
Proof.
  intros Wa Wb. split; [|split; [|by apply Sub_ok]].
  - destruct (and_ok a b Wa Wb) as (c & E & ? & ?). exists c. cbn. by rewrite E.
  - destruct (Not_ok a Wa) as (c & E & ? & _ & ?). by exists c.
Qed.

Lemma And_Not_Sub_bits_witness :
  (exists c, And (Some short) (Some long) = Ok (Some c) /\ wf c /\
     bits_of c = zip_with andb (bits_of short) (bits_of long)) /\
  (exists c, Not (Some short) = Some c /\ wf c /\ bits_of c = negb <$> bits_of short) /\
  (3 <= 65 -> exists c, Sub (Some short) (Some long) = Ok (Some c) /\ wf c /\
     bits_of c = zip_with (fun x y => x && negb y) (bits_of short) (bits_of long)).
Proof. apply (And_Not_Sub_bits short long); [apply wf_short|apply wf_long]. Defined.

(** [Sub] on a longer receiver clears every bit of the words before the
    other array's last one, whatever the other array holds there; from that
    word on it removes the other array's bits. *)
Theorem Sub_longer_clears a b : wf a -> wf b -> Bits b < Bits a -> exists c,
  Sub (Some a) (Some b) = Ok (Some c) /\ wf c /\ Bits c = Bits a /\
  forall i, 0 <= i < Bits a -> GetIndex (Some c) i = Ok
    (if i <? 64 * (zlen (Elems b) - 1) then false
     else if i <? Bits b then bit (Elems a) i && negb (bit (Elems b) i)
     else bit (Elems a) i).
Proof.
  intros Wa Wb H. destruct (Sub_longer_ok a b Wa Wb H) as (c & E & Wc & Bc & Hc).
  exists c. split; [done|]. split; [done|]. split; [done|]. intros i Hi. cbn [GetIndex].
  rewrite getIndex_bit by (done || lia). rewrite Hc by lia. done.
Qed.

Lemma Sub_longer_clears_witness : exists c,
  Sub (Some (mkBits 70 [5; 1])) (Some (mkBits 66 [0; 0])) = Ok (Some c) /\ wf c /\ Bits c = 70 /\
  forall i, 0 <= i < 70 -> GetIndex (Some c) i = Ok
    (if i <? 64 * (zlen [0; 0] - 1) then false
     else if i <? 66 then bit [5; 1] i && negb (bit [0; 0] i)
     else bit [5; 1] i).
Proof.
  apply (Sub_longer_clears (mkBits 70 [5; 1]) (mkBits 66 [0; 0]));
    [split; [cbn; lia|reflexivity|repeat constructor; unfold in_uN; lia]..|cbn; lia].
Defined.

(** [Or] of well-formed arrays without straggler bits panics exactly when
    the argument has fewer words than the receiver; otherwise the result has
    the size of the longer array and the disjunction of the two. *)
Theorem Or_bits a b : wf a -> wf b -> clean a -> clean b ->
  if (length (Elems b) <? length (Elems a))%nat then Or (Some a) (Some b) = Panic
  else exists c, Or (Some a) (Some b) = Ok (Some c) /\ wf c /\
    let n := Z.max (Bits a) (Bits b) in
    bits_of c = zip_with orb (extend n (bits_of a)) (extend n (bits_of b)).
Proof.
  intros Wa Wb Ca Cb. destruct (Nat.ltb_spec (length (Elems b)) (length (Elems a))).
  - by apply Or_panics.
  - by apply Or_ok.
Qed.

Lemma Or_bits_witness : Or (Some long) (Some short) = Panic.
Proof.
  apply (Or_bits long short); [apply wf_long|apply wf_short|apply clean_long|apply clean_short].
Defined.

(** [SetIndex] within the size updates that bit alone, keeps the array well
    formed and free of straggler bits, and [GetIndex] reads the bit back. *)
Theorem SetIndex_bits b i v : wf b -> 0 <= i < Bits b -> exists b',
  SetIndex (Some b) i v = Ok (Some b', true) /\ wf b' /\ (clean b -> clean b') /\
  bits_of b' = <[Z.to_nat i := v]> (bits_of b) /\ GetIndex (Some b') i = Ok v.
Proof.
  intros W H. destruct (setIndex_ok b i v W H) as (b' & E & W' & B' & H').
  exists b'. cbn [SetIndex GetIndex]. rewrite E. split; [done|]. split; [done|].
  split; [|split].
  - intros C j Hj. rewrite B' in Hj. rewrite H' by lia.
    destruct (Z.eqb_spec j i); [lia|]. by apply C.
  - apply bits_of_ext; [unfold zlen; rewrite length_insert, bits_of_length; lia|].
    intros j x Hx. rewrite H' by lia. destruct (Z.eqb_spec (Z.of_nat j) i) as [<-|N].
    + rewrite Nat2Z.id, list_lookup_insert_eq in Hx by (rewrite bits_of_length; lia). congruence.
    + rewrite list_lookup_insert_ne, bits_of_lookup in Hx by lia. case_decide; congruence.
  - rewrite getIndex_bit, H' by (done || lia). by rewrite Z.eqb_refl.
Qed.

Lemma SetIndex_bits_witness : exists b',
  SetIndex (Some long) 64 false = Ok (Some b', true) /\ wf b' /\ (clean long -> clean b') /\
  bits_of b' = <[Z.to_nat 64 := false]> (bits_of long) /\ GetIndex (Some b') 64 = Ok false.
Proof. apply (SetIndex_bits long 64 false); [apply wf_long|cbn; lia]. Defined.

(** [IsFull] of a well-formed array returns, without a panic, whether every
    bit is set, straggler bits not counted. *)
Theorem IsFull_bits b : wf b -> exists r, IsFull (Some b) = Ok r /\
  (r = true <-> Forall (fun v => v = true) (bits_of b)).
Proof. apply IsFull_ok. Qed.

Lemma IsFull_bits_witness : exists r, IsFull (Some long) = Ok r /\
  (r = true <-> Forall (fun v => v = true) (bits_of long)).
Proof. apply (IsFull_bits long), wf_long. Defined.

(** [PickRandom] of a well-formed array always returns.  When it finds a
    position, the bit there is set and lies within the size; when it does not,
    no bit is set.  The hypothesis is the contract of [RandIntn]. *)
Theorem PickRandom_correct RandIntn b :
  (forall k n, 0 < n -> 0 <= RandIntn k n < n) -> wf b ->
  exists p found, PickRandom RandIntn (Some b) = Ok (p, found) /\
  if found then 0 <= p < Bits b /\ bits_of b !! Z.to_nat p = Some true
  else Forall (fun v => v = false) (bits_of b).
Proof.
  intros R W. destruct (PickRandom_ok RandIntn R b W) as (p & f & E & P).
  exists p, f. split; [done|]. destruct f.
  - destruct P as [Hp Hb]. split; [done|]. rewrite bits_of_lookup, decide_True by lia.
    by rewrite Z2Nat.id, Hb by lia.
  - destruct P as [_ P]. apply Forall_lookup. intros i v Hv. rewrite bits_of_lookup in Hv.
    case_decide; [|done]. injection Hv as <-. apply P. lia.
Qed.

Lemma PickRandom_correct_witness :
  exists p found, PickRandom (fun k n => Z.of_nat k mod n) (Some long) = Ok (p, found) /\
  if found then 0 <= p < 65 /\ bits_of long !! Z.to_nat p = Some true
  else Forall (fun v => v = false) (bits_of long).
Proof.
  apply (PickRandom_correct (fun k n => Z.of_nat k mod n) long); [|apply wf_long].
  intros k n Hn. apply Z.mod_pos_bound, Hn.
Defined.

(** [UnmarshalJSON] reads back what [MarshalJSON] writes, for well-formed
    arrays without straggler bits. *)
Theorem BitArray_JSON_roundtrip b : wf b -> clean b ->
  exists text, MarshalJSON (Some b) = Ok text /\ UnmarshalJSON text = Ok b.
Proof. apply JSON_ok. Qed.

Lemma BitArray_JSON_roundtrip_witness :
  exists text, MarshalJSON (Some long) = Ok text /\ UnmarshalJSON text = Ok long.
Proof. apply (BitArray_JSON_roundtrip long); [apply wf_long|apply clean_long]. Defined.

(** The text of two quotes with nothing between passes the format check of
    [UnmarshalJSON] and then makes it panic: there is no bit array of size 0. *)
Theorem UnmarshalJSON_empty_panics : UnmarshalJSON [34; 34] = Panic.
Proof. reflexivity. Qed.
