(* ===== verification/MemCache.v ===== *)
(** * The transaction cache (src/mc/memcache.go)

    An [Instance] holds the committed values and, per open transaction, one
    [MemCache] per key with the stack of values its txs have written.  Callers
    keep the [*MemCache] pointers [NewMc] returns, so the caches live in a
    store and a pointer is an index into it.  A [[]byte] value is an
    [option (list Z)]; [None] is nil.  Every method holds its locks for its
    whole body: a history is a sequence of method calls.  The instance refines a
    specification without pointers. *)

From stdpp Require Import gmap.
From S2P Require Import Prelude.

Abbreviation value := (option (list Z)).
Abbreviation string := (list Z).

Record txCache := { id : Z; tx_value : value }.

Record MemCache := { transID : Z; key : string; tx : list txCache }.

Record Instance := {
  llCache : gmap string value;
  mcCache : gmap Z (gmap string nat);
  store : list MemCache;
}.

Definition NewMcInstance : Instance := {| llCache := ∅; mcCache := ∅; store := [] |}.

(** ** [MemCache] *)

Definition lastTx (mc : MemCache) : Z := zlen (tx mc) - 1.

Definition set_tx (mc : MemCache) (l : list txCache) : MemCache :=
  {| transID := transID mc; key := key mc; tx := l |}.

Definition top (mc : MemCache) : value :=
  if 0 <=? lastTx mc then tx mc !! Z.to_nat (lastTx mc) ≫= tx_value else None.

Definition push (mc : MemCache) (txid : Z) (data : value) : MemCache :=
  match tx mc !! Z.to_nat (lastTx mc) with
  | Some e =>
      if (0 <? zlen (tx mc)) && (id e =? txid)
      then set_tx mc (<[Z.to_nat (lastTx mc) := {| id := id e; tx_value := data |}]> (tx mc))
      else set_tx mc (tx mc ++ [{| id := txid; tx_value := data |}])
  | None => set_tx mc (tx mc ++ [{| id := txid; tx_value := data |}])
  end.

Definition pop (mc : MemCache) : MemCache * value :=
  let v := top mc in
  match v with
  | Some _ => (set_tx mc (take (Z.to_nat (lastTx mc)) (tx mc)), v)
  | None => (mc, v)
  end.

Definition empty (mc : MemCache) : bool := lastTx mc <? 0.

Definition Get (mc : MemCache) : value := top mc.

Definition Set_ (mc : MemCache) (txID : Z) (data : value) : MemCache := push mc txID data.

(** [MemCache.Dirty]. *)
Definition Dirty (mc : MemCache) (txID : Z) : MemCache :=
  let i := lastTx mc in
  if 0 <=? i then
    match tx mc !! Z.to_nat i with
    | Some e => if id e =? txID then set_tx mc (take (Z.to_nat i) (tx mc)) else mc
    | None => mc
    end
  else mc.

(** ** [Instance] *)

Definition newmc (transid : Z) (k : string) (mi : Instance) : MemCache :=
  {| transID := transid; key := k;
     tx := match llCache mi !! k with
           | Some v => [{| id := 0; tx_value := v |}]
           | None => []
           end |}.

(** The instance after the call and the pointer. *)
Definition NewMc (mi : Instance) (transid : Z) (k : string) : Instance * nat :=
  let trans := default ∅ (mcCache mi !! transid) in
  match trans !! k with
  | Some p => ({| llCache := llCache mi; mcCache := <[transid := trans]> (mcCache mi);
                  store := store mi |}, p)
  | None =>
      let p := length (store mi) in
      ({| llCache := llCache mi;
          mcCache := <[transid := <[k := p]> trans]> (mcCache mi);
          store := store mi ++ [newmc transid k mi] |}, p)
  end.

(** [mc.key] through a pointer. *)
Definition key_of (mi : Instance) (p : nat) : option string := key <$> store mi !! p.

(** [Instance.Dirty]: the inner loop deletes [key] from a transaction when one
    of its caches has that key. *)
Definition Instance_Dirty (mi : Instance) (k : string) : Instance :=
  {| llCache := delete k (llCache mi);
     mcCache := (fun mcs =>
       if existsb (fun e => bool_decide (key_of mi e.2 = Some k)) (map_to_list mcs)
       then delete k mcs else mcs) <$> mcCache mi;
     store := store mi |}.

Definition Clear (mi : Instance) : Instance :=
  {| llCache := ∅; mcCache := ∅; store := store mi |}.

(** [for _, mc := range mcs { mi.llCache[mc.key] = mc.top() }]. *)
Definition commit_loop (st : list MemCache) (mcs : list (string * nat))
    (ll : gmap string value) : gmap string value :=
  foldl (fun ll e => match st !! e.2 with
                     | Some mc => <[key mc := top mc]> ll
                     | None => ll
                     end) ll mcs.

Definition CommitTrans (mi : Instance) (transid : Z) : Instance :=
  match mcCache mi !! transid with
  | Some mcs =>
      {| llCache := commit_loop (store mi) (map_to_list mcs) (llCache mi);
         mcCache := delete transid (mcCache mi);
         store := store mi |}
  | None => mi
  end.

Definition DirtyTrans (mi : Instance) (transid : Z) : Instance :=
  {| llCache := llCache mi; mcCache := delete transid (mcCache mi); store := store mi |}.

(** [for _, mc := range mi.mcCache[transID] { mc.Dirty(txID) }]. *)
Definition DirtyTransTx (mi : Instance) (transid txID : Z) : Instance :=
  {| llCache := llCache mi; mcCache := mcCache mi;
     store := foldl (fun st e => alter (fun mc => Dirty mc txID) e.2 st) (store mi)
                (map_to_list (default ∅ (mcCache mi !! transid))) |}.

(** A method of a [*MemCache] the caller holds. *)
Definition on (p : nat) (f : MemCache -> MemCache) (mi : Instance) : Instance :=
  {| llCache := llCache mi; mcCache := mcCache mi; store := alter f p (store mi) |}.

(** ** Histories *)

(** The calls a client can make. *)
Inductive step : Instance -> Instance -> Prop :=
| step_NewMc mi t k : step mi (NewMc mi t k).1
| step_Set mi p txid data : step mi (on p (fun mc => Set_ mc txid data) mi)
| step_Dirty_tx mi p txid : step mi (on p (fun mc => Dirty mc txid) mi)
| step_Dirty mi k : step mi (Instance_Dirty mi k)
| step_Clear mi : step mi (Clear mi)
| step_CommitTrans mi t : step mi (CommitTrans mi t)
| step_DirtyTrans mi t : step mi (DirtyTrans mi t)
| step_DirtyTransTx mi t txid : step mi (DirtyTransTx mi t txid).

Inductive reachable : Instance -> Prop :=
| reachable_new : reachable NewMcInstance
| reachable_step mi mi' : reachable mi -> step mi mi' -> reachable mi'.

(** The invariant: a cache is filed under its own transaction and key, and
    never under two. *)
Definition mc_inv (mi : Instance) : Prop :=
  forall t mcs k p, mcCache mi !! t = Some mcs -> mcs !! k = Some p ->
    exists mc, store mi !! p = Some mc /\ transID mc = t /\ key mc = k.

(** ** Lemmas *)

Lemma top_last mc : top mc = last (tx mc) ≫= tx_value.
Proof.
  unfold top, lastTx. rewrite last_lookup. unfold zlen.
  destruct (tx mc) as [|e l] eqn:E; [done|].
  destruct (Z.leb_spec 0 (Z.of_nat (length (e :: l)) - 1)); [|cbn in *; lia].
  do 2 f_equal. cbn. lia.
Qed.

Lemma push_snoc mc txid data : id <$> last (tx mc) <> Some txid ->
  push mc txid data = set_tx mc (tx mc ++ [{| id := txid; tx_value := data |}]).
Proof.
  intros H. unfold push, lastTx, zlen. rewrite last_lookup in H.
  replace (Z.to_nat (Z.of_nat (length (tx mc)) - 1)) with (Nat.pred (length (tx mc))) by lia.
  destruct (tx mc !! _) as [e|] eqn:E; [|done]. cbn in H.
  destruct (Z.eqb_spec (id e) txid); [congruence|]. by rewrite andb_false_r.
Qed.

Lemma top_push mc txid data : top (push mc txid data) = data.
Proof.
  rewrite top_last. destruct (decide (id <$> last (tx mc) = Some txid)) as [E|N].
  - destruct (tx mc) as [|e l _] eqn:T using rev_ind; [done|].
    rewrite last_snoc in E. injection E as E.
    assert (Z.to_nat (lastTx mc) = length l) as L.
    { unfold lastTx, zlen. rewrite T, length_app. cbn. lia. }
    unfold push. rewrite L, T, list_lookup_middle, E, Z.eqb_refl by done.
    destruct (Z.ltb_spec 0 (zlen (l ++ [e]))); [|rewrite zlen_app in *; change (zlen [e]) with 1 in *; zl].
    cbn. rewrite insert_app_r_alt, Nat.sub_diag by done. cbn. by rewrite last_snoc.
  - rewrite push_snoc by done. cbn. by rewrite last_snoc.
Qed.

Lemma Dirty_snoc mc l txid v : tx mc = l ++ [{| id := txid; tx_value := v |}] ->
  Dirty mc txid = set_tx mc l.
Proof.
  intros E. unfold Dirty, lastTx, zlen. rewrite E, length_app. cbn [length].
  destruct (Z.leb_spec 0 (Z.of_nat (length l + 1) - 1)); [|lia].
  replace (Z.to_nat (Z.of_nat (length l + 1) - 1)) with (length l) by lia.
  rewrite list_lookup_middle by done. cbn. rewrite Z.eqb_refl.
  by rewrite take_app_length.
Qed.

(** The methods keep a cache's identity. *)
Lemma push_same mc txid v :
  transID (push mc txid v) = transID mc /\ key (push mc txid v) = key mc.
Proof. unfold push. by repeat casem. Qed.

Lemma Dirty_same mc txid : transID (Dirty mc txid) = transID mc /\ key (Dirty mc txid) = key mc.
Proof. unfold Dirty. by repeat casem. Qed.

(** The identity of the cache behind each pointer is all the invariant needs. *)
Definition ident (mc : MemCache) : Z * string := (transID mc, key mc).

Lemma mc_inv_ident mi : mc_inv mi <-> forall t mcs k p, mcCache mi !! t = Some mcs ->
  mcs !! k = Some p -> ident <$> store mi !! p = Some (t, k).
Proof.
  unfold mc_inv, ident. split; intros H t mcs k p E1 E2.
  - destruct (H _ _ _ _ E1 E2) as (mc & -> & <- & <-). done.
  - specialize (H _ _ _ _ E1 E2). destruct (store mi !! p) as [mc|]; [|done].
    injection H as <- <-. by exists mc.
Qed.

Lemma ident_alter f (p : nat) (st : list MemCache) (q : nat) : (forall mc, ident (f mc) = ident mc) ->
  ident <$> alter f p st !! q = ident <$> st !! q.
Proof.
  intros H. destruct (decide (p = q)) as [->|N].
  - rewrite list_lookup_alter_eq. destruct (st !! q); cbn; [by rewrite H|done].
  - by rewrite list_lookup_alter_ne.
Qed.

Lemma ident_Dirty mc txid : ident (Dirty mc txid) = ident mc.
Proof. unfold ident. by destruct (Dirty_same mc txid) as [-> ->]. Qed.

Lemma ident_Set mc txid v : ident (Set_ mc txid v) = ident mc.
Proof. unfold ident, Set_. by destruct (push_same mc txid v) as [-> ->]. Qed.

Lemma ident_dirty_all l (st : list MemCache) txid (q : nat) :
  ident <$> foldl (fun st (e : string * nat) => alter (fun mc => Dirty mc txid) e.2 st) st l !! q =
  ident <$> st !! q.
Proof.
  revert st. induction l as [|e l IH]; intros st; [done|]. cbn [foldl]. rewrite IH.
  apply ident_alter. intros; apply ident_Dirty.
Qed.

Lemma NewMc_inv mi t k : mc_inv mi -> mc_inv (NewMc mi t k).1.
Proof.
  rewrite !mc_inv_ident. intros H. unfold NewMc.
  assert (forall k' p, default ∅ (mcCache mi !! t) !! k' = Some p ->
    ident <$> store mi !! p = Some (t, k')) as D.
  { intros k' p E. destruct (mcCache mi !! t) as [mcs|] eqn:M; [by eapply H|].
    cbn in E. by rewrite lookup_empty in E. }
  destruct (default ∅ (mcCache mi !! t) !! k) as [p|] eqn:E; cbn.
  - intros t' mcs k' p' E1 E2. destruct (decide (t' = t)) as [->|].
    + rewrite lookup_insert_eq in E1. injection E1 as <-. by apply D.
    + rewrite lookup_insert_ne in E1 by done. by eapply H.
  - assert (forall i q, ident <$> store mi !! q = Some i ->
      ident <$> (store mi ++ [newmc t k mi]) !! q = Some i) as Old.
    { intros i q Hq. destruct (store mi !! q) as [mc|] eqn:S; [|done].
      by rewrite lookup_app_l, S by (by eapply lookup_lt_Some). }
    intros t' mcs k' p' E1 E2. destruct (decide (t' = t)) as [->|].
    + rewrite lookup_insert_eq in E1. injection E1 as <-. destruct (decide (k' = k)) as [->|].
      * rewrite lookup_insert_eq in E2. injection E2 as <-. by rewrite list_lookup_middle.
      * rewrite lookup_insert_ne in E2 by done. by apply Old, D.
    + rewrite lookup_insert_ne in E1 by done. by eapply Old, H.
Qed.

Lemma step_inv mi mi' : step mi mi' -> mc_inv mi -> mc_inv mi'.
Proof.
  intros S H. destruct S; [by apply NewMc_inv|..]; rewrite mc_inv_ident in *;
    intros t' mcs k' p' E1 E2; cbn in *.
  - rewrite ident_alter by (intros; apply ident_Set). by eapply H.
  - rewrite ident_alter by (intros; apply ident_Dirty). by eapply H.
  - rewrite lookup_fmap in E1. destruct (mcCache mi !! t') as [m|] eqn:M; [|done].
    injection E1 as <-. destruct (existsb _ _); [apply lookup_delete_Some in E2 as [_ E2]|]; by eapply H.
  - by rewrite lookup_empty in E1.
  - unfold CommitTrans in *. destruct (mcCache mi !! t); cbn in *; [|by eapply H].
    apply lookup_delete_Some in E1 as [_ E1]. by eapply H.
  - apply lookup_delete_Some in E1 as [_ E1]. by eapply H.
  - rewrite ident_dirty_all. by eapply H.
Qed.

Lemma reachable_inv mi : reachable mi -> mc_inv mi.
Proof.
  induction 1; [|by eapply step_inv]. intros t mcs k p E. cbn in E. by rewrite lookup_empty in E.
Qed.

(** Committing writes the top of each cache under its key. *)
Lemma commit_loop_lookup st (l : list (string * nat)) ll k : NoDup l.*1 ->
  (forall e, e ∈ l -> exists mc, st !! e.2 = Some mc /\ key mc = e.1) ->
  commit_loop st l ll !! k =
    match (list_to_map l : gmap string nat) !! k with
    | Some p => top <$> st !! p
    | None => ll !! k
    end.
Proof.
  revert ll. induction l as [|[k' p] l IH]; intros ll ND H; [done|].
  inversion ND as [|? ? Hk ND']; subst. destruct (H (k', p)) as (mc & E & Ek); [left|].
  cbn in E, Ek, Hk. subst k'.
  unfold commit_loop in *. cbn [foldl snd] in *. rewrite E.
  rewrite IH; [|done|intros e He; apply H; by right].
  change (list_to_map ((key mc, p) :: l)) with (<[key mc := p]> (list_to_map l : gmap string nat)).
  destruct (decide (k = key mc)) as [->|N].
  - rewrite not_elem_of_list_to_map_1 by done. rewrite !lookup_insert_eq. by rewrite E.
  - by rewrite !lookup_insert_ne by done.
Qed.

Lemma CommitTrans_llCache mi t mcs k : mc_inv mi -> mcCache mi !! t = Some mcs ->
  llCache (CommitTrans mi t) !! k =
    match mcs !! k with Some p => top <$> store mi !! p | None => llCache mi !! k end.
Proof.
  intros I M. unfold CommitTrans. rewrite M. cbn.
  rewrite commit_loop_lookup; [by rewrite list_to_map_to_list|apply NoDup_fst_map_to_list|].
  intros [k' p] He. apply elem_of_map_to_list in He.
  destruct (I _ _ _ _ M He) as (mc & E & _ & Ek). by exists mc.
Qed.

(** Applying [Dirty] through a list of distinct pointers. *)
Lemma dirty_all_lookup (l : list (string * nat)) (st : list MemCache) txid (q : nat) : NoDup l.*2 ->
  foldl (fun st e => alter (fun mc => Dirty mc txid) e.2 st) st l !! q =
    (if decide (q ∈ l.*2) then (fun mc => Dirty mc txid) else (fun mc => mc)) <$> st !! q.
Proof.
  revert st. induction l as [|[k p] l IH]; intros st ND; cbn [foldl fmap list_fmap fst snd].
  - rewrite decide_False by apply not_elem_of_nil. by destruct (st !! q).
  - inversion ND as [|? ? Hp ND']; subst. rewrite IH by done.
    destruct (decide (q = p)) as [->|N].
    + rewrite decide_False by done. rewrite decide_True by left.
      rewrite list_lookup_alter_eq. by destruct (st !! p).
    + rewrite list_lookup_alter_ne by done.
      destruct (decide (q ∈ l.*2)) as [D|D]; [rewrite decide_True by (by right)|
        rewrite decide_False by (by rewrite elem_of_cons; intros [|])]; done.
Qed.

Lemma trans_pointers_NoDup mi t mcs : mc_inv mi -> mcCache mi !! t = Some mcs ->
  NoDup (map_to_list mcs).*2.
Proof.
  intros I M. apply NoDup_fmap_2_strong; [|apply NoDup_map_to_list].
  intros [k1 p1] [k2 p2] H1 H2 E. cbn in E. subst p2.
  apply elem_of_map_to_list in H1, H2.
  destruct (I _ _ _ _ M H1) as (mc & E1 & _ & <-), (I _ _ _ _ M H2) as (mc' & E2 & _ & <-).
  congruence.
Qed.

Lemma DirtyTransTx_in mi t mcs k txid (q : nat) : mc_inv mi -> mcCache mi !! t = Some mcs ->
  mcs !! k = Some q ->
  store (DirtyTransTx mi t txid) !! q = (fun mc => Dirty mc txid) <$> store mi !! q.
Proof.
  intros I M E. unfold DirtyTransTx. cbn. rewrite M. cbn.
  rewrite dirty_all_lookup, decide_True; [done| |by eapply trans_pointers_NoDup].
  apply list_elem_of_fmap. exists (k, q). split; [done|]. by apply elem_of_map_to_list.
Qed.

Lemma DirtyTransTx_out mi t txid (q : nat) mc : mc_inv mi -> store mi !! q = Some mc ->
  transID mc <> t -> store (DirtyTransTx mi t txid) !! q = Some mc.
Proof.
  intros I E N. unfold DirtyTransTx. cbn. destruct (mcCache mi !! t) as [mcs|] eqn:M; [|done].
  cbn. rewrite dirty_all_lookup, decide_False, E; [done| |by eapply trans_pointers_NoDup].
  intros H. apply list_elem_of_fmap in H as ([k p] & -> & H). apply elem_of_map_to_list in H.
  cbn in E. destruct (I _ _ _ _ M H) as (mc' & E' & ? & _). congruence.
Qed.

(** ** The specification

    The cache without its pointers: the values that are published, and for each open transaction and key the number of the
    cache and the values its txs have written. *)
Record cache := {
  published : gmap string value;
  opened : gmap Z (gmap string (nat * list txCache));
  handles : nat;
}.

Definition empty_cache : cache := {| published := ∅; opened := ∅; handles := 0 |}.

(** The value read, a value written by a tx, and the last write of a tx taken back. *)
Definition value_of (st : list txCache) : value := last st ≫= tx_value.

Definition take_back (txid : Z) (st : list txCache) : list txCache :=
  match last st with Some e => if id e =? txid then removelast st else st | None => st end.

Definition write (txid : Z) (data : value) (st : list txCache) : list txCache :=
  take_back txid st ++ [{| id := txid; tx_value := data |}].

Inductive call :=
| CNewMc (t : Z) (k : string)
| CSet (p : nat) (txid : Z) (data : value)
| CDirty (p : nat) (txid : Z)
| CInstance_Dirty (k : string)
| CClear
| CCommitTrans (t : Z)
| CDirtyTrans (t : Z)
| CDirtyTransTx (t txid : Z).

Definition run_call (c : call) (mi : Instance) : Instance :=
  match c with
  | CNewMc t k => (NewMc mi t k).1
  | CSet p txid data => on p (fun mc => Set_ mc txid data) mi
  | CDirty p txid => on p (fun mc => Dirty mc txid) mi
  | CInstance_Dirty k => Instance_Dirty mi k
  | CClear => Clear mi
  | CCommitTrans t => CommitTrans mi t
  | CDirtyTrans t => DirtyTrans mi t
  | CDirtyTransTx t txid => DirtyTransTx mi t txid
  end.

Definition at_handle (p : nat) (f : list txCache -> list txCache) (e : nat * list txCache) : nat * list txCache :=
  (e.1, if decide (e.1 = p) then f e.2 else e.2).

Definition each (f : nat * list txCache -> nat * list txCache) (trans : gmap string (nat * list txCache)) : gmap string (nat * list txCache) :=
  f <$> trans.

Definition spec_call (c : call) (a : cache) : cache :=
  match c with
  | CNewMc t k =>
      let trans := default ∅ (opened a !! t) in
      match trans !! k with
      | Some _ => {| published := published a; opened := <[t := trans]> (opened a); handles := handles a |}
      | None =>
          let st := match published a !! k with Some v => [{| id := 0; tx_value := v |}] | None => [] end in
          {| published := published a; opened := <[t := <[k := (handles a, st)]> trans]> (opened a); handles := S (handles a) |}
      end
  | CSet p txid data => {| published := published a; opened := each (at_handle p (write txid data)) <$> opened a; handles := handles a |}
  | CDirty p txid => {| published := published a; opened := each (at_handle p (take_back txid)) <$> opened a; handles := handles a |}
  | CInstance_Dirty k => {| published := delete k (published a); opened := (fun trans => delete k trans) <$> opened a; handles := handles a |}
  | CClear => {| published := ∅; opened := ∅; handles := handles a |}
  | CCommitTrans t =>
      {| published := ((fun e : nat * list txCache => value_of e.2) <$> default ∅ (opened a !! t)) ∪ published a;
         opened := delete t (opened a); handles := handles a |}
  | CDirtyTrans t => {| published := published a; opened := delete t (opened a); handles := handles a |}
  | CDirtyTransTx t txid =>
      {| published := published a; opened := alter (each (prod_map (fun p => p) (take_back txid))) t (opened a); handles := handles a |}
  end.

Definition entry (st : list MemCache) (p : nat) : option (nat * list txCache) := (fun mc => (p, tx mc)) <$> st !! p.

Definition trans_view (st : list MemCache) (mcs : gmap string nat) : gmap string (nat * list txCache) := omap (entry st) mcs.

Arguments trans_view : simpl never.

Definition view (mi : Instance) : cache :=
  {| published := llCache mi; opened := trans_view (store mi) <$> mcCache mi; handles := length (store mi) |}.

Lemma trans_view_lookup st mcs k : trans_view st mcs !! k = (mcs !! k) ≫= entry st.
Proof. apply lookup_omap. Qed.

Lemma snoc_index {A} (l : list A) x : Z.to_nat (zlen (l ++ [x]) - 1) = length l.
Proof. unfold zlen. rewrite length_app. cbn. lia. Qed.

Lemma Dirty_take_back mc txid : Dirty mc txid = set_tx mc (take_back txid (tx mc)).
Proof.
  unfold Dirty, take_back, lastTx. destruct (tx mc) as [|e l _] eqn:E using rev_ind; [by destruct mc; cbn in *; subst|].
  rewrite snoc_index, list_lookup_middle, last_snoc, removelast_last, take_app_length by done.
  destruct (Z.leb_spec 0 (zlen (l ++ [e]) - 1)) as [|H]; [|unfold zlen in H; rewrite length_app in H; cbn in H; lia].
  destruct (id e =? txid); [done|]. rewrite <- E. by destruct mc.
Qed.

Lemma push_write mc txid data : push mc txid data = set_tx mc (write txid data (tx mc)).
Proof.
  unfold push, write, take_back, lastTx. destruct (tx mc) as [|e l _] eqn:E using rev_ind; [by destruct mc; cbn in *; subst|].
  rewrite snoc_index, list_lookup_middle, last_snoc, removelast_last by done.
  destruct (Z.ltb_spec 0 (zlen (l ++ [e]))) as [|H]; [|unfold zlen in H; rewrite length_app in H; cbn in H; lia].
  cbn [andb]. destruct (Z.eqb_spec (id e) txid) as [Ei|]; [|done]. rewrite insert_app_r_alt, Nat.sub_diag by done. cbn. by rewrite Ei.
Qed.

Lemma view_on p f g mi : (forall mc, f mc = set_tx mc (g (tx mc))) ->
  view (on p f mi) = {| published := published (view mi); opened := each (at_handle p g) <$> opened (view mi); handles := handles (view mi) |}.
Proof.
  intros Hf. unfold view. cbn. f_equal; [|by rewrite length_alter]. rewrite <- map_fmap_compose. apply map_fmap_ext. intros t mcs _.
  apply map_eq. intros k. cbn. unfold each. rewrite lookup_fmap, !trans_view_lookup. destruct (mcs !! k) as [q|]; [|done]. cbn. unfold entry.
  destruct (decide (q = p)) as [->|Hne].
  - rewrite list_lookup_alter_eq. destruct (store mi !! p) as [mc|]; [|done]. cbn. unfold at_handle. cbn. rewrite decide_True by done. by rewrite Hf.
  - rewrite list_lookup_alter_ne by done. destruct (store mi !! q) as [mc|]; [|done]. cbn. unfold at_handle. cbn. by rewrite decide_False.
Qed.

Lemma trans_view_default mi t : default ∅ (opened (view mi) !! t) = trans_view (store mi) (default ∅ (mcCache mi !! t)).
Proof. cbn. rewrite lookup_fmap. destruct (mcCache mi !! t); [done|]. cbn. symmetry. apply omap_empty. Qed.

Lemma default_inv mi t k p : mc_inv mi -> default ∅ (mcCache mi !! t) !! k = Some p ->
  exists mc, store mi !! p = Some mc /\ transID mc = t /\ key mc = k.
Proof. intros I E. destruct (mcCache mi !! t) as [mcs|] eqn:M; [by eapply I|]. cbn in E. by rewrite lookup_empty in E. Qed.

(** A new cache is at the end of the store, where no pointer leads. *)
Lemma trans_view_snoc mi t mcs mc : mc_inv mi -> mcCache mi !! t = Some mcs -> trans_view (store mi ++ [mc]) mcs = trans_view (store mi) mcs.
Proof.
  intros I M. apply map_eq. intros k. rewrite !trans_view_lookup. destruct (mcs !! k) as [p|] eqn:K; [|done]. cbn. unfold entry.
  destruct (I _ _ _ _ M K) as (mc' & E & _). rewrite E. by erewrite lookup_app_l_Some.
Qed.

Lemma view_NewMc mi t k : mc_inv mi -> view (NewMc mi t k).1 = spec_call (CNewMc t k) (view mi).
Proof.
  intros I. cbn [spec_call]. rewrite trans_view_default. unfold NewMc. rewrite trans_view_lookup.
  destruct (default ∅ (mcCache mi !! t) !! k) as [p|] eqn:E.
  - destruct (default_inv _ _ _ _ I E) as (mc & S & _). cbn. unfold entry at 1. rewrite S. unfold view. cbn. by rewrite fmap_insert.
  - cbn. unfold view. cbn. f_equal; [|by rewrite length_app, Nat.add_comm]. rewrite fmap_insert. f_equal.
    + apply map_eq. intros k'. rewrite trans_view_lookup. destruct (decide (k' = k)) as [->|Hne].
      * rewrite !lookup_insert_eq. cbn. unfold entry. by rewrite list_lookup_middle.
      * rewrite !lookup_insert_ne, trans_view_lookup by done. destruct (default ∅ (mcCache mi !! t) !! k') as [p|] eqn:E'; [|done]. cbn. unfold entry.
        destruct (default_inv _ _ _ _ I E') as (mc & S & _). rewrite S. by erewrite lookup_app_l_Some.
    + apply map_fmap_ext. intros t' mcs M. by eapply trans_view_snoc.
Qed.

Lemma view_Instance_Dirty mi k : mc_inv mi -> view (Instance_Dirty mi k) = spec_call (CInstance_Dirty k) (view mi).
Proof.
  intros I. unfold view. cbn. f_equal. rewrite <- !map_fmap_compose. apply map_fmap_ext. intros t mcs M. apply map_eq. intros k'. cbn.
  rewrite trans_view_lookup. destruct (existsb _ _) eqn:X.
  - destruct (decide (k' = k)) as [->|Hne]; [by rewrite !lookup_delete_eq|]. by rewrite !lookup_delete_ne, trans_view_lookup by done.
  - destruct (decide (k' = k)) as [->|Hne]; [|by rewrite lookup_delete_ne, trans_view_lookup by done].
    rewrite lookup_delete_eq. destruct (mcs !! k) as [p|] eqn:K; [|done]. destruct (I _ _ _ _ M K) as (mc & S & _ & Ek).
    apply not_true_iff_false in X. destruct X. apply existsb_exists. exists (k, p). split.
    + apply list_elem_of_In. by apply elem_of_map_to_list.
    + apply bool_decide_eq_true. unfold key_of. cbn. by rewrite S, <- Ek.
Qed.

Lemma view_CommitTrans mi t : mc_inv mi -> view (CommitTrans mi t) = spec_call (CCommitTrans t) (view mi).
Proof.
  intros I. cbn [spec_call]. rewrite trans_view_default. destruct (mcCache mi !! t) as [mcs|] eqn:M.
  - assert (llCache (CommitTrans mi t) = ((fun e : nat * list txCache => value_of e.2) <$> trans_view (store mi) mcs) ∪ llCache mi) as E.
    { apply map_eq. intros k. rewrite (CommitTrans_llCache mi t mcs) by done. rewrite lookup_union, lookup_fmap, trans_view_lookup.
      destruct (mcs !! k) as [p|] eqn:K; cbn; [|by destruct (llCache mi !! k)]. unfold entry.
      destruct (I _ _ _ _ M K) as (mc & -> & _). cbn. rewrite top_last. by destruct (llCache mi !! k). }
    unfold view. rewrite E. unfold CommitTrans. rewrite M. cbn. by rewrite fmap_delete.
  - unfold CommitTrans. rewrite M. cbn. unfold trans_view. rewrite omap_empty, fmap_empty, (left_id_L ∅ (∪)). unfold view. cbn.
    by rewrite <- fmap_delete, delete_id.
Qed.

Lemma view_DirtyTransTx mi t txid : mc_inv mi -> view (DirtyTransTx mi t txid) = spec_call (CDirtyTransTx t txid) (view mi).
Proof.
  intros I. unfold view. cbn [spec_call DirtyTransTx llCache mcCache store published opened handles]. f_equal.
  - apply map_eq. intros t'. rewrite lookup_fmap. destruct (decide (t' = t)) as [->|Hne].
    + rewrite lookup_alter_eq, lookup_fmap. destruct (mcCache mi !! t) as [mcs|] eqn:M; [|done]. cbn. f_equal. apply map_eq. intros k.
      unfold each. rewrite lookup_fmap, !trans_view_lookup. destruct (mcs !! k) as [p|] eqn:K; [|done]. cbn. unfold entry.
      pose proof (DirtyTransTx_in mi t mcs k txid p I M K) as E. unfold DirtyTransTx in E. cbn in E. rewrite M in E. cbn in E. rewrite E.
      destruct (store mi !! p) as [mc|]; [|done]. cbn. by rewrite Dirty_take_back.
    + rewrite lookup_alter_ne, lookup_fmap by done. destruct (mcCache mi !! t') as [mcs|] eqn:M; [|done]. cbn. f_equal. apply map_eq. intros k.
      rewrite !trans_view_lookup. destruct (mcs !! k) as [p|] eqn:K; [|done]. cbn. unfold entry.
      destruct (I _ _ _ _ M K) as (mc & S & Et & _). pose proof (DirtyTransTx_out mi t txid p mc I S ltac:(congruence)) as E.
      unfold DirtyTransTx in E. cbn in E. by rewrite E, S.
  - assert (forall (l : list (string * nat)) (st : list MemCache),
      length (foldl (fun st e => alter (fun mc => Dirty mc txid) e.2 st) st l) = length st) as Hl.
    { induction l as [|e l IH]; intros st; [done|]. cbn. by rewrite IH, length_alter. }
    apply Hl.
Qed.

Lemma view_call c mi : mc_inv mi -> view (run_call c mi) = spec_call c (view mi).
Proof.
  intros I. destruct c; cbn [run_call].
  - by apply view_NewMc.
  - apply view_on. intros mc. apply push_write.
  - apply view_on. intros mc. apply Dirty_take_back.
  - by apply view_Instance_Dirty.
  - unfold view. cbn. by rewrite fmap_empty.
  - by apply view_CommitTrans.
  - unfold view. cbn. by rewrite fmap_delete.
  - by apply view_DirtyTransTx.
Qed.

Definition run_calls (cs : list call) : Instance := fold_left (fun mi c => run_call c mi) cs NewMcInstance.

Lemma run_calls_view cs : forall mi, mc_inv mi ->
  mc_inv (fold_left (fun mi c => run_call c mi) cs mi) /\
  view (fold_left (fun mi c => run_call c mi) cs mi) = fold_left (fun a c => spec_call c a) cs (view mi).
Proof.
  induction cs as [|c cs IH]; intros mi I; [done|]. cbn. assert (mc_inv (run_call c mi)) as I'.
  { eapply step_inv; [|exact I]. destruct c; constructor. }
  rewrite <- view_call by done. by apply IH.
Qed.

(** ** Properties *)

(** C37: after any sequence of calls the cache holds what the specification says: [NewMc] opens a key in a transaction once,
    with the published value if there is one; [Set] writes over the last value of its tx or after the others; [Dirty] takes
    the last value back if it is the tx's; [CommitTrans] publishes the last value of every key of the transaction and
    closes it, [DirtyTrans] closes it, [DirtyTransTx] takes the tx's last value back at each of its keys; dirtying a
    key of the instance removes it from the published values and from every transaction, and [Clear] removes everything.
    A method of a cache that is not open any more changes nothing.  A pointer to an open cache reads the last value, and
    [NewMc] gives the same pointer again. *)
Theorem MemCache_refines (cs : list call) : let mi := run_calls cs in
  view mi = fold_left (fun a c => spec_call c a) cs empty_cache /\
  (forall t k p st, (opened (view mi) !! t) ≫= (.!! k) = Some (p, st) ->
     Get <$> store mi !! p = Some (value_of st) /\ (NewMc mi t k).2 = p) /\
  (forall t k, (opened (view mi) !! t) ≫= (.!! k) = None -> (NewMc mi t k).2 = handles (view mi)).
Proof.
  intros mi. assert (mc_inv NewMcInstance) as I0 by (intros t mcs k p E; cbn in E; by rewrite lookup_empty in E).
  destruct (run_calls_view cs NewMcInstance I0) as [I E]. fold (run_calls cs) in I, E. fold mi in I, E.
  assert (forall t k, (opened (view mi) !! t) ≫= (.!! k) = (default ∅ (mcCache mi !! t) !! k) ≫= entry (store mi)) as Hl.
  { intros t k. cbn. rewrite lookup_fmap. destruct (mcCache mi !! t) as [mcs|]; cbn; [apply trans_view_lookup|by rewrite lookup_empty]. }
  split; [|split].
  - rewrite E. unfold view. cbn. by rewrite fmap_empty.
  - intros t k p st. rewrite Hl. unfold NewMc. destruct (default ∅ _ !! k) as [q|] eqn:K; [|done]. cbn. unfold entry.
    destruct (store mi !! q) as [mc|] eqn:S; [|done]. intros [= -> <-]. rewrite S. cbn. split; [|done]. f_equal. apply top_last.
  - intros t k. rewrite Hl. unfold NewMc. destruct (default ∅ _ !! k) as [q|] eqn:K; [|done]. cbn. unfold entry.
    destruct (default_inv _ _ _ _ I K) as (mc & -> & _). done.
Qed.

(** Two transactions: the second reads what the first committed, and its own write is taken back. *)
Definition sample_calls : list call :=
  [CNewMc 5 [107]; CSet 0 7 (Some [1]); CCommitTrans 5; CNewMc 6 [107]; CSet 1 8 (Some [2]); CDirtyTransTx 6 8].

Lemma MemCache_refines_witness : Get <$> store (run_calls sample_calls) !! 1%nat = Some (Some [1]) /\ (NewMc (run_calls sample_calls) 6 [107]).2 = 1%nat.
Proof. exact (proj1 (proj2 (MemCache_refines sample_calls)) 6 [107] 1%nat [{| id := 0; tx_value := Some [1] |}] eq_refl). Defined.

(** A state with one open transaction that has written a key. *)
Definition sample_mi : Instance :=
  on 0 (fun mc => Set_ mc 7 (Some [1])) (NewMc NewMcInstance 5 [107]).1.

Lemma sample_reachable : reachable sample_mi.
Proof.
  eapply reachable_step; [|apply step_Set]. eapply reachable_step; [|apply step_NewMc].
  apply reachable_new.
Qed.

(** Committing a transaction publishes what its caches read.  Afterwards a
    transaction that opens the key anew reads the committed value, the committed
    transaction is closed, the keys it did not open keep their values, and no
    other transaction is touched. *)
Theorem CommitTrans_publishes mi t mcs k p mc : reachable mi ->
  mcCache mi !! t = Some mcs -> mcs !! k = Some p -> store mi !! p = Some mc ->
  let mi' := CommitTrans mi t in
  mcCache mi' = delete t (mcCache mi) /\ store mi' = store mi /\
  (forall t', default ∅ (mcCache mi' !! t') !! k = None ->
     let (mi'', q) := NewMc mi' t' k in Get <$> store mi'' !! q = Some (Get mc)) /\
  (forall k', mcs !! k' = None -> llCache mi' !! k' = llCache mi !! k').
Proof.
  intros R M K S mi'. pose proof (reachable_inv mi R) as I.
  pose proof (CommitTrans_llCache mi t mcs k I M) as L. rewrite K, S in L. cbn in L.
  assert (mcCache mi' = delete t (mcCache mi) /\ store mi' = store mi) as [E1 E2]
    by (unfold mi', CommitTrans; by rewrite M).
  split; [done|]. split; [done|]. split.
  - intros t' N. unfold NewMc. rewrite N. cbn. rewrite list_lookup_middle by done.
    unfold mi', newmc. rewrite L. done.
  - intros k' K'. unfold mi'. rewrite (CommitTrans_llCache mi t mcs) by done. by rewrite K'.
Qed.

Lemma CommitTrans_publishes_witness :
  let mi' := CommitTrans sample_mi 5 in
  mcCache mi' = delete 5 (mcCache sample_mi) /\ store mi' = store sample_mi /\
  (forall t', default ∅ (mcCache mi' !! t') !! [107] = None ->
     let (mi'', q) := NewMc mi' t' [107] in Get <$> store mi'' !! q = Some (Some [1])) /\
  (forall k', ({[ [107] := 0%nat ]} : gmap string nat) !! k' = None ->
     llCache mi' !! k' = llCache sample_mi !! k').
Proof.
  apply (CommitTrans_publishes sample_mi 5 {[ [107] := 0%nat ]} [107] 0%nat
    {| transID := 5; key := [107]; tx := [{| id := 7; tx_value := Some [1] |}] |});
    [apply sample_reachable|reflexivity..].
Defined.

(** A tx's write can be taken back.  If the last value of a cache is not the
    tx's own, setting a value and then dirtying the tx in the transaction
    restores the cache; between the two the cache reads the value set, and the
    caches of other transactions never change. *)
Theorem DirtyTransTx_undoes mi t mcs k p mc txid data : reachable mi ->
  mcCache mi !! t = Some mcs -> mcs !! k = Some p -> store mi !! p = Some mc ->
  id <$> last (tx mc) <> Some txid ->
  let mi1 := on p (fun mc => Set_ mc txid data) mi in
  let mi2 := DirtyTransTx mi1 t txid in
  Get <$> store mi1 !! p = Some data /\
  store mi2 !! p = Some mc /\
  (forall q mc', store mi !! q = Some mc' -> transID mc' <> t -> store mi2 !! q = Some mc').
Proof.
  intros R M K S N mi1 mi2.
  assert (reachable mi1) as R1 by (eapply reachable_step; [done|apply step_Set]).
  pose proof (reachable_inv _ R1) as I1. pose proof (reachable_inv _ R) as I.
  assert (store mi1 !! p = Some (push mc txid data)) as S1.
  { unfold mi1, on. cbn. by rewrite list_lookup_alter_eq, S. }
  split; [|split].
  - rewrite S1. cbn. f_equal. apply top_push.
  - unfold mi2. rewrite (DirtyTransTx_in mi1 t mcs k) by done. rewrite S1. cbn.
    rewrite push_snoc by done. erewrite Dirty_snoc by done. by destruct mc.
  - intros q mc' Hq Ht. apply DirtyTransTx_out; [done| |done].
    unfold mi1, on. cbn. rewrite list_lookup_alter_ne; [done|]. intros ->.
    destruct (I _ _ _ _ M K) as (mc2 & E & ? & _). congruence.
Qed.

Lemma DirtyTransTx_undoes_witness :
  let mi1 := on 0 (fun mc => Set_ mc 8 (Some [2])) sample_mi in
  let mi2 := DirtyTransTx mi1 5 8 in
  Get <$> store mi1 !! 0%nat = Some (Some [2]) /\
  store mi2 !! 0%nat =
    Some {| transID := 5; key := [107]; tx := [{| id := 7; tx_value := Some [1] |}] |} /\
  (forall q mc', store sample_mi !! q = Some mc' -> transID mc' <> 5 -> store mi2 !! q = Some mc').
Proof.
  apply (DirtyTransTx_undoes sample_mi 5 {[ [107] := 0%nat ]} [107] 0%nat);
    [apply sample_reachable|reflexivity..|done].
Defined.

(** Dirtying a key removes it everywhere: from the committed values and from
    every open transaction; the other keys stay. *)
Theorem Instance_Dirty_removes mi k : reachable mi ->
  let mi' := Instance_Dirty mi k in
  llCache mi' !! k = None /\
  (forall t mcs, mcCache mi' !! t = Some mcs -> mcs !! k = None) /\
  (forall k', k' <> k -> llCache mi' !! k' = llCache mi !! k' /\
     forall t, (mcCache mi' !! t) ≫= (.!! k') = (mcCache mi !! t) ≫= (.!! k')).
Proof.
  intros R mi'. pose proof (reachable_inv mi R) as I. unfold mi', Instance_Dirty. cbn.
  split; [apply lookup_delete_eq|]. split.
  - intros t mcs E. rewrite lookup_fmap in E. destruct (mcCache mi !! t) as [m|] eqn:M; [|done].
    injection E as <-. destruct (existsb _ _) eqn:X; [apply lookup_delete_eq|].
    destruct (m !! k) as [p|] eqn:K; [|done]. destruct (I _ _ _ _ M K) as (mc & S & _ & Ek).
    apply not_true_iff_false in X. destruct X. apply existsb_exists. exists (k, p). split.
    + apply list_elem_of_In. by apply elem_of_map_to_list.
    + apply bool_decide_eq_true. unfold key_of. cbn. by rewrite S, <- Ek.
  - intros k' N. split; [by apply lookup_delete_ne|]. intros t. rewrite lookup_fmap.
    destruct (mcCache mi !! t) as [m|]; [|done]. cbn.
    destruct (existsb _ _); [by apply lookup_delete_ne|done].
Qed.

Lemma Instance_Dirty_removes_witness :
  let mi' := Instance_Dirty sample_mi [107] in
  llCache mi' !! [107] = None /\
  (forall t mcs, mcCache mi' !! t = Some mcs -> mcs !! [107] = None) /\
  (forall k', k' <> [107] -> llCache mi' !! k' = llCache sample_mi !! k' /\
     forall t, (mcCache mi' !! t) ≫= (.!! k') = (mcCache sample_mi !! t) ≫= (.!! k')).
Proof. apply (Instance_Dirty_removes sample_mi [107]), sample_reachable. Defined.

(** [MemCache.Dirty] takes back at most the last value, although several
    values may carry the tx's id: after the writes of txs 1, 2 and 1, dirtying
    tx 1 leaves its first value in the stack. *)
Theorem Dirty_keeps_earlier :
  let mc := {| transID := 5; key := [107]; tx := [] |} in
  let mc3 := Set_ (Set_ (Set_ mc 1 (Some [1])) 2 (Some [2])) 1 (Some [3]) in
  id <$> tx (Dirty mc3 1) = [1; 2].
Proof. reflexivity. Qed.
