(* ===== verification/Base58.v ===== *)
(** * Base58 (src/tendermint/go-wire/data/base58/base58.go)

    [EncodeAlphabet] and [DecodeAlphabet] with the two alphabets, and their
    round trips.  Alphabets are ASCII, so that [strings.IndexAny] of one byte is
    a search for that byte. *)

From S2P Require Import Prelude GoStrings.

Definition BTCAlphabet : list Z :=
  bs "123456789ABCDEFGHJKLMNPQRSTUVWXYZabcdefghijkmnopqrstuvwxyz".
Definition FlickrAlphabet : list Z :=
  bs "123456789abcdefghijkmnopqrstuvwxyzABCDEFGHJKLMNPQRSTUVWXYZ".

Definition bigRadix : Z := 58.

(** ["Encountered unknown character: ..."]. *)
Inductive base58_err := errUnknownCharacter (c : Z).

Abbreviation run A := (res base58_err A).

(** [strings.IndexAny(alphabet, string(c))]; [None] is -1. *)
Fixpoint index_of (alphabet : list Z) (c : Z) : option Z :=
  match alphabet with
  | [] => None
  | a :: alphabet' => if a =? c then Some 0 else Z.succ <$> index_of alphabet' c
  end.

(** The loop from the last character to the first: [b] reversed. *)
Fixpoint decode_loop (alphabet rev_b : list Z) (answer j : Z) : run Z :=
  match rev_b with
  | [] => Ok answer
  | c :: rev_b' =>
      match index_of alphabet c with
      | None => Err (errUnknownCharacter c)
      | Some tmp => decode_loop alphabet rev_b' (answer + j * tmp) (j * bigRadix)
      end
  end.

(** Leading characters equal to [c]. *)
Fixpoint leading (c : Z) (b : list Z) : nat :=
  match b with
  | x :: b' => if x =? c then S (leading c b') else O
  | [] => O
  end.

(** [alphabet[0]] is only evaluated when [b] has a character. *)
Definition DecodeAlphabet (b alphabet : list Z) : run (list Z) :=
  let* answer := decode_loop alphabet (reverse b) 0 1 in
  match b, alphabet with
  | _ :: _, [] => Panic
  | [], _ => Ok (be_min answer)
  | _ :: _, a0 :: _ => Ok (replicate (leading a0 b) 0 ++ be_min answer)
  end.

(** [for x.Cmp(bigZero) > 0 { ... }]: the digits, least significant first. *)
Fixpoint encode_loop (fuel : nat) (alphabet : list Z) (x : Z) : run (list Z) :=
  if 0 <? x then
    match fuel with
    | O => NoFuel
    | S f =>
        match alphabet !! Z.to_nat (x mod bigRadix) with
        | None => Panic
        | Some c => let* r := encode_loop f alphabet (x / bigRadix) in Ok (c :: r)
        end
    end
  else Ok [].

(** A round divides the number by 58, so its bit length is fuel enough. *)
Definition EncodeAlphabet (b alphabet : list Z) : run (list Z) :=
  let x := be_val b in
  let* answer := encode_loop (Z.to_nat (Z.log2 x + 1)) alphabet x in
  match leading 0 b, alphabet with
  | O, _ => Ok (reverse answer)
  | n, a0 :: _ => Ok (reverse (answer ++ replicate n a0))
  | _, [] => Panic
  end.

Definition Decode (b : list Z) : run (list Z) := DecodeAlphabet b BTCAlphabet.
Definition Encode (b : list Z) : run (list Z) := EncodeAlphabet b BTCAlphabet.

(** ** Lemmas *)

Section alphabet.
Variable a0 : Z.
Variable rest : list Z.
Abbreviation alphabet := (a0 :: rest).
Hypothesis alphabet_len : length alphabet = 58%nat.
Hypothesis alphabet_nodup : NoDup alphabet.

Lemma index_of_lookup l c i : NoDup l -> l !! i = Some c -> index_of l c = Some (Z.of_nat i).
Proof.
  revert i. induction l as [|a l IH]; intros i ND H; [done|].
  inversion ND as [|? ? Ha ND']; subst. cbn. destruct i as [|i].
  - injection H as ->. by rewrite Z.eqb_refl.
  - cbn in H. destruct (Z.eqb_spec a c) as [->|].
    + destruct Ha. by eapply list_elem_of_lookup_2.
    + rewrite (IH i ND' H). cbn. f_equal. lia.
Qed.

Lemma index_of_Some l c k : index_of l c = Some k -> 0 <= k /\ l !! Z.to_nat k = Some c.
Proof.
  revert k. induction l as [|a l IH]; intros k; cbn; [done|].
  destruct (Z.eqb_spec a c) as [->|]; [intros [= <-]; done|].
  destruct (index_of l c) as [j|]; [|done]. cbn. intros [= <-].
  destruct (IH j eq_refl) as [H1 H2]. split; [lia|]. by rewrite Z2Nat.inj_succ by lia.
Qed.

(** The number a list of characters stands for, least significant first. *)
Fixpoint digits_val (l : list Z) : option Z :=
  match l with
  | [] => Some 0
  | c :: l' => d ← index_of alphabet c; v ← digits_val l'; Some (d + bigRadix * v)
  end.

Lemma decode_loop_val l answer j v : digits_val l = Some v ->
  decode_loop alphabet l answer j = Ok (answer + j * v).
Proof.
  revert answer j v. induction l as [|c l IH]; intros answer j v; cbn [decode_loop digits_val].
  - intros [= <-]. f_equal. lia.
  - destruct (index_of alphabet c) as [d|]; [|done]. cbn [mbind option_bind].
    destruct (digits_val l) as [w|]; [|done]. cbn [mbind option_bind]. intros [= <-].
    rewrite (IH _ _ w eq_refl). f_equal. unfold bigRadix. lia.
Qed.

Lemma decode_loop_inv l answer j r : decode_loop alphabet l answer j = Ok r ->
  exists v, digits_val l = Some v /\ r = answer + j * v.
Proof.
  revert answer j. induction l as [|c l IH]; intros answer j; cbn [decode_loop digits_val].
  - intros [= <-]. exists 0. split; [done|lia].
  - destruct (index_of alphabet c) as [d|]; [|done]. cbn [mbind option_bind].
    intros E. apply IH in E as (v & -> & ->). eexists. split; [done|]. unfold bigRadix. lia.
Qed.

Lemma digits_val_snoc_zeros l n : digits_val (l ++ replicate n a0) = digits_val l.
Proof.
  assert (digits_val (replicate n a0) = Some 0) as Z0.
  { induction n as [|n IH]; [done|]. cbn [replicate digits_val].
    rewrite (index_of_lookup _ a0 0%nat) by done. cbn [mbind option_bind]. by rewrite IH. }
  induction l as [|c l IH]; [done|]. cbn [app digits_val]. by rewrite IH.
Qed.

(** The encoder's digits stand for the number and have no leading zero digit. *)
Lemma encode_loop_ok f x : 0 <= x -> (Z.to_nat (Z.log2 x + 1) <= f)%nat -> exists l,
  encode_loop f alphabet x = Ok l /\ digits_val l = Some x /\ last l <> Some a0.
Proof.
  revert x. induction f as [|f IH]; intros x Hx Hf.
  - pose proof (Z.log2_nonneg x). lia.
  - cbn [encode_loop]. destruct (Z.ltb_spec 0 x) as [P|P].
    2:{ exists []. replace x with 0 by lia. done. }
    pose proof (Z.mod_pos_bound x bigRadix ltac:(done)) as M. unfold bigRadix in *.
    pose proof (Z.div_mod x 58 ltac:(lia)) as D.
    destruct (lookup_lt_is_Some_2 alphabet (Z.to_nat (x mod 58))) as [c Hc]; [lia|].
    assert (0 <= x / 58) by (apply Z.div_pos; lia).
    destruct (Z.eq_dec (x / 58) 0) as [E0|N0].
    + rewrite E0 in *. exists [c]. split; [by rewrite Hc; destruct f|]. split.
      * cbn [digits_val]. rewrite (index_of_lookup _ c _ alphabet_nodup Hc).
        cbn. f_equal. unfold bigRadix. lia.
      * intros [= ->].
        pose proof (NoDup_lookup alphabet (Z.to_nat (x mod 58)) 0%nat a0 alphabet_nodup Hc eq_refl).
        lia.
    + destruct (IH (x / 58)) as (l & El & Vl & Ll); [done| |].
      { assert (Z.log2 (x / 58) <= Z.log2 x - 1); [|lia].
        pose proof (Z.log2_le_mono (x / 58) (x / 2)) as L1.
        assert (x / 58 <= x / 2) by (apply Z.div_le_compat_l; lia).
        assert (Z.log2 (x / 2) = Z.log2 x - 1); [|lia].
        change 2 with (2 ^ 1) at 1. rewrite <- Z.shiftr_div_pow2, Z.log2_shiftr by lia.
        assert (1 <= Z.log2 x) by (apply Z.log2_le_pow2; lia). lia. }
      exists (c :: l). rewrite Hc, El. split; [done|]. split.
      * cbn [digits_val]. rewrite (index_of_lookup _ c _ alphabet_nodup Hc). cbn [mbind option_bind].
        rewrite Vl. cbn. f_equal. unfold bigRadix. lia.
      * destruct l; [|done]. cbn in Vl. congruence.
Qed.

(** Digits without a leading zero digit are determined by the number. *)
Lemma digits_range l v : digits_val l = Some v -> 0 <= v /\ (last l <> Some a0 -> l <> [] -> 0 < v).
Proof.
  revert v. induction l as [|c l IH]; intros v; cbn [digits_val]; [intros [= <-]; done|].
  destruct (index_of alphabet c) as [d|] eqn:E; [|done]. cbn [mbind option_bind].
  destruct (digits_val l) as [w|]; [|done]. cbn [mbind option_bind]. intros [= <-].
  destruct (IH w eq_refl) as [H1 H2]. apply index_of_Some in E as [Hd Hc]. unfold bigRadix.
  split; [lia|]. intros HL _. destruct l as [|c' l].
  - destruct (Z.eq_dec d 0) as [->|]; [|lia]. injection Hc as <-. by destruct HL.
  - specialize (H2 HL ltac:(done)). lia.
Qed.

Lemma digits_inj l l' v : digits_val l = Some v -> digits_val l' = Some v ->
  last l <> Some a0 -> last l' <> Some a0 -> l = l'.
Proof.
  revert l' v. induction l as [|c l IH]; intros [|c' l'] v E E' L L'; [done|..].
  - apply digits_range in E' as [_ H]. injection E as <-. specialize (H L' ltac:(done)). lia.
  - apply digits_range in E as [_ H]. injection E' as <-. specialize (H L ltac:(done)). lia.
  - cbn [digits_val] in E, E'.
    destruct (index_of alphabet c) as [d|] eqn:D; [|done].
    destruct (index_of alphabet c') as [d'|] eqn:D'; [|done]. cbn [mbind option_bind] in *.
    destruct (digits_val l) as [w|] eqn:W; [|done]. destruct (digits_val l') as [w'|] eqn:W'; [|done].
    cbn [mbind option_bind] in *. injection E as E. injection E' as E'.
    apply index_of_Some in D as [D1 D2], D' as [D1' D2'].
    pose proof (lookup_lt_Some _ _ _ D2). pose proof (lookup_lt_Some _ _ _ D2').
    unfold bigRadix in *. assert (d = d' /\ w = w') as [-> ->] by lia.
    rewrite D2 in D2'. injection D2' as <-. f_equal.
    destruct (decide (l = [])) as [->|Nl], (decide (l' = [])) as [->|Nl']; [done|..].
    + injection W as <-. apply digits_range in W' as [_ H']. destruct l'; [done|].
      specialize (H' L' ltac:(done)). lia.
    + injection W' as <-. apply digits_range in W as [_ H']. destruct l; [done|].
      specialize (H' L ltac:(done)). lia.
    + apply (IH l' w'); [done|done|by destruct l|by destruct l'].
Qed.

(** A list is its leading [c]s and a rest that starts with something else. *)
Lemma leading_split c b : exists r, b = replicate (leading c b) c ++ r /\ head r <> Some c.
Proof.
  induction b as [|x b (r & E & H)]; [by exists []|]. cbn [leading].
  destruct (Z.eqb_spec x c) as [->|N].
  - exists r. split; [cbn; congruence|done].
  - exists (x :: b). split; [done|]. cbn. congruence.
Qed.

Lemma leading_app c n r : head r <> Some c -> leading c (replicate n c ++ r) = n.
Proof.
  intros H. induction n as [|n IH]; cbn.
  - destruct r as [|x r]; [done|]. cbn in *. destruct (Z.eqb_spec x c); [congruence|done].
  - by rewrite Z.eqb_refl, IH.
Qed.

Lemma be_min_not0 z : head (be_min z) <> Some 0.
Proof.
  destruct (be_min z) as [|b l] eqn:E; [done|]. cbn. intros [= ->]. by apply be_min_head in E.
Qed.

Lemma EncodeAlphabet_ok b : bytes_ok b -> exists n l, let v := be_val b in
  b = replicate n 0 ++ be_min v /\ EncodeAlphabet b alphabet = Ok (replicate n a0 ++ reverse l) /\
  digits_val l = Some v /\ last l <> Some a0.
Proof.
  intros Hb. destruct (leading_split 0 b) as (r & E & H). set (n := leading 0 b) in *.
  assert (be_val b = be_val r) as V by (rewrite E at 1; apply be_val_lead0).
  assert (bytes_ok r) as Hr by (rewrite E in Hb; by apply bytes_ok_app in Hb as [_ ?]).
  pose proof (be_val_range r Hr).
  destruct (encode_loop_ok (Z.to_nat (Z.log2 (be_val b) + 1)) (be_val b)) as (l & El & Vl & Ll); [lia|done|].
  exists n, l. cbv zeta. split; [|split; [|done]].
  - rewrite V, be_min_val; [done|done|]. intros x k -> ->. by destruct H.
  - unfold EncodeAlphabet. rewrite El. fold n. destruct n as [|m]; [done|].
    by rewrite reverse_app, reverse_replicate.
Qed.

Lemma DecodeAlphabet_ok n l v : digits_val l = Some v -> last l <> Some a0 ->
  DecodeAlphabet (replicate n a0 ++ reverse l) alphabet = Ok (replicate n 0 ++ be_min v).
Proof.
  intros V L. unfold DecodeAlphabet.
  rewrite reverse_app, reverse_involutive, reverse_replicate.
  rewrite (decode_loop_val _ 0 1 v) by (by rewrite digits_val_snoc_zeros).
  replace (0 + 1 * v) with v by lia.
  assert (head (reverse l) <> Some a0) as H by (by rewrite head_reverse).
  pose proof (leading_app a0 n (reverse l) H) as LA.
  destruct (replicate n a0 ++ reverse l) as [|c k]; [|by rewrite LA].
  cbn in LA. by subst n.
Qed.
End alphabet.

(** ** Properties *)

(** An alphabet the package can be used with: 58 different characters, all of them ASCII, since the code takes a byte for a
    character. *)
Definition alphabet_ok (alphabet : list Z) : Prop :=
  length alphabet = 58%nat /\ NoDup alphabet /\ Forall (fun c => 0 <= c < 128) alphabet.

Lemma BTCAlphabet_ok : alphabet_ok BTCAlphabet.
Proof. split_and!; [reflexivity|apply (bool_decide_unpack _); vm_compute; exact I|repeat constructor; lia]. Qed.

Lemma FlickrAlphabet_ok : alphabet_ok FlickrAlphabet.
Proof. split_and!; [reflexivity|apply (bool_decide_unpack _); vm_compute; exact I|repeat constructor; lia]. Qed.

(** C38: base58 is a bijection.  Encoding a byte string with an alphabet of 58
    different ASCII characters returns a text, and decoding it gives the bytes back;
    a text that decodes without an error is the encoding of what it decodes
    to. *)
Theorem base58_roundtrip alphabet : alphabet_ok alphabet ->
  (forall b, bytes_ok b -> exists s,
     EncodeAlphabet b alphabet = Ok s /\ DecodeAlphabet s alphabet = Ok b) /\
  (forall s b, DecodeAlphabet s alphabet = Ok b ->
     bytes_ok b /\ EncodeAlphabet b alphabet = Ok s).
Proof.
  intros (L & ND & _). destruct alphabet as [|a0 rest]; [done|]. split.
  - intros b Hb. destruct (EncodeAlphabet_ok a0 rest L ND b Hb) as (n & l & Eb & Es & V & Ll).
    exists (replicate n a0 ++ reverse l). split; [done|]. rewrite Eb at 1. by apply DecodeAlphabet_ok.
  - intros s b E. destruct (leading_split a0 s) as (r & Er & H). set (n := leading a0 s) in *.
    assert (exists v, digits_val a0 rest (reverse r) = Some v) as [v V].
    { unfold DecodeAlphabet in E. destruct (decode_loop _ _ _ _) as [x| | |] eqn:D; try done.
      apply (decode_loop_inv a0 rest L) in D as (v & V & _). exists v.
      by rewrite Er, reverse_app, reverse_replicate, digits_val_snoc_zeros in V by done. }
    assert (last (reverse r) <> Some a0) as Lr by (by rewrite last_reverse).
    rewrite Er, <- (reverse_involutive r) in E.
    rewrite (DecodeAlphabet_ok a0 rest L ND n (reverse r) v) in E by done. injection E as <-.
    assert (bytes_ok (replicate n 0 ++ be_min v)) as Hb.
    { apply bytes_ok_app. split; [apply Forall_replicate; unfold byte_ok; lia|apply be_min_ok]. }
    split; [done|].
    destruct (EncodeAlphabet_ok a0 rest L ND _ Hb) as (m & l & Eb & Es & Vl & Ll).
    pose proof (digits_range a0 rest L _ _ V) as [Hv _].
    rewrite be_val_lead0, be_val_min, Z.abs_eq in Eb, Vl by done.
    assert (m = n) as ->.
    { apply (f_equal length) in Eb. rewrite !length_app, !length_replicate in Eb. lia. }
    rewrite Es, Er, (digits_inj a0 rest L l (reverse r) v) by done. by rewrite reverse_involutive.
Qed.

Lemma base58_roundtrip_witness :
  (forall b, bytes_ok b -> exists s,
     EncodeAlphabet b BTCAlphabet = Ok s /\ DecodeAlphabet s BTCAlphabet = Ok b) /\
  (forall s b, DecodeAlphabet s BTCAlphabet = Ok b ->
     bytes_ok b /\ EncodeAlphabet b BTCAlphabet = Ok s).
Proof. apply (base58_roundtrip BTCAlphabet), BTCAlphabet_ok. Defined.
