(* ===== verification/Db.v ===== *)
(** * Key-value databases (src/tendermint/tmlibs/db)

    The interfaces [DB], [Iterator] and [Batch] of types.go as a class, with the memory
    database (mem_db.go), its batches (mem_batch.go), the namespaces of prefix_db.go over
    any database, and the byte-string helpers of util.go.  A [[]byte] that may be nil is an
    [option].  Every method holds the mutex of its database for its whole body, so a
    history is a sequence of method calls.  An iterator is a value: the database it reads
    is an argument of the operation that reads it.  [Print], [Stats] and [Close] of a
    database do not change its state. *)

From stdpp Require Import gmap.
From S2P Require Import Prelude GoStrings GoBytes GoSlice.

Abbreviation bytes := (list Z).
Abbreviation obytes := (option (list Z)).

(** ** Interfaces (types.go) *)

Definition nonNilBytes (bz : obytes) : bytes := default [] bz.

Class DB (D I B : Type) := {
  db_Get : D -> obytes -> obytes;
  db_Has : D -> obytes -> bool;
  db_Set : D -> obytes -> obytes -> D;
  db_SetSync : D -> obytes -> obytes -> D;
  db_Delete : D -> obytes -> D;
  db_DeleteSync : D -> obytes -> D;
  db_Iterator : D -> obytes -> obytes -> res unit I;
  db_ReverseIterator : D -> obytes -> obytes -> res unit I;
  db_NewBatch : D -> B;
  it_Domain : I -> obytes * obytes;
  it_Valid : I -> bool;
  it_Next : I -> res unit I;
  it_Key : I -> res unit bytes;
  it_Value : D -> I -> res unit obytes;
  it_Close : I -> I;
  b_Set : B -> obytes -> obytes -> B;
  b_Delete : B -> obytes -> B;
  b_Write : B -> D -> D;
  b_WriteSync : B -> D -> D;
}.

(** ** Byte strings (util.go) *)

Definition cp (bz : bytes) : bytes := bz.

(** The loop from byte [n - 1] down. *)
Fixpoint incr_loop (n : nat) (ret : bytes) : obytes :=
  match n with
  | O => None
  | S i =>
      if nth i ret 0 <? 255 then Some (<[i := u8 (nth i ret 0 + 1)]> ret)
      else
        let ret := <[i := 0]> ret in
        if (i =? 0)%nat then None else incr_loop i ret
  end.

Definition cpIncr (bz : bytes) : res unit obytes :=
  if zlen bz =? 0 then Panic else Ok (incr_loop (length bz) (cp bz)).

Fixpoint decr_loop (n : nat) (ret : bytes) : obytes :=
  match n with
  | O => None
  | S i =>
      if 0 <? nth i ret 0 then Some (<[i := u8 (nth i ret 0 - 1)]> ret)
      else
        let ret := <[i := 255]> ret in
        if (i =? 0)%nat then None else decr_loop i ret
  end.

Definition cpDecr (bz : bytes) : res unit obytes :=
  if zlen bz =? 0 then Panic else Ok (decr_loop (length bz) (cp bz)).

Definition is_nil (bz : obytes) : bool := match bz with None => true | Some _ => false end.

Definition IsKeyInDomain (key : bytes) (start end_ : obytes) (isReverse : bool) : bool :=
  if negb isReverse then
    if Compare key (nonNilBytes start) <? 0 then false
    else if negb (is_nil end_) && (Compare (nonNilBytes end_) key <=? 0) then false
    else true
  else
    if negb (is_nil start) && (Compare (nonNilBytes start) key <? 0) then false
    else if negb (is_nil end_) && (Compare key (nonNilBytes end_) <=? 0) then false
    else true.

(** ** The memory database (mem_db.go) *)

Record MemDB := { db : gmap bytes bytes }.

Definition NewMemDB : MemDB := {| db := ∅ |}.

Definition MemDB_Get (d : MemDB) (key : obytes) : obytes := db d !! nonNilBytes key.

Definition MemDB_Has (d : MemDB) (key : obytes) : bool :=
  match db d !! nonNilBytes key with Some _ => true | None => false end.

Definition SetNoLockSync (d : MemDB) (key value : obytes) : MemDB :=
  {| db := <[nonNilBytes key := nonNilBytes value]> (db d) |}.

Definition SetNoLock (d : MemDB) (key value : obytes) : MemDB := SetNoLockSync d key value.

Definition MemDB_Set (d : MemDB) (key value : obytes) : MemDB := SetNoLock d key value.

Definition MemDB_SetSync (d : MemDB) (key value : obytes) : MemDB := SetNoLock d key value.

Definition DeleteNoLockSync (d : MemDB) (key : obytes) : MemDB :=
  {| db := delete (nonNilBytes key) (db d) |}.

Definition DeleteNoLock (d : MemDB) (key : obytes) : MemDB := DeleteNoLockSync d key.

Definition MemDB_Delete (d : MemDB) (key : obytes) : MemDB := DeleteNoLock d key.

Definition MemDB_DeleteSync (d : MemDB) (key : obytes) : MemDB := DeleteNoLock d key.

(** [sort.Strings] orders strings by their bytes. *)
Definition key_le (a b : bytes) : Prop := Compare a b <= 0.

#[export] Instance key_le_dec a b : Decision (key_le a b).
Proof. unfold key_le. apply _. Defined.

(** The swaps [for i := 0; i < nkeys/2; i++]. *)
Fixpoint swap_loop (n i : nat) (keys : list bytes) : list bytes :=
  match n with
  | O => keys
  | S n' =>
      let nkeys := length keys in
      let temp := nth i keys [] in
      let keys := <[i := nth (nkeys - i - 1) keys []]> keys in
      swap_loop n' (S i) (<[nkeys - i - 1 := temp]> keys)%nat
  end.

(** [keys] are the keys of the map in the order Go iterates over them. *)
Definition sorted_keys (keys : list bytes) (start end_ : obytes) (reverse : bool) : list bytes :=
  let keys := filter (fun k => IsKeyInDomain k start end_ reverse = true) keys in
  let keys := Sort key_le keys in
  if reverse then swap_loop (length keys / 2) 0 keys else keys.

Definition getSortedKeys (d : MemDB) (start end_ : obytes) (reverse : bool) : list bytes :=
  sorted_keys (map_to_list (db d)).*1 start end_ reverse.

(** [mi_open]: the pointer to the database is not nil. *)
Record memDBIterator := {
  mi_open : bool;
  cur : Z;
  keys : list bytes;
  mi_start : obytes;
  mi_end : obytes;
}.

Definition newMemDBIterator (keys : list bytes) (start end_ : obytes) : memDBIterator :=
  {| mi_open := true; cur := 0; keys := keys; mi_start := start; mi_end := end_ |}.

Definition MemDB_Iterator (d : MemDB) (start end_ : obytes) : res unit memDBIterator :=
  Ok (newMemDBIterator (getSortedKeys d start end_ false) start end_).

Definition MemDB_ReverseIterator (d : MemDB) (start end_ : obytes) : res unit memDBIterator :=
  Ok (newMemDBIterator (getSortedKeys d start end_ true) start end_).

Definition mem_Domain (itr : memDBIterator) : obytes * obytes := (mi_start itr, mi_end itr).

Definition mem_Valid (itr : memDBIterator) : bool := (0 <=? cur itr) && (cur itr <? zlen (keys itr)).

Definition assertIsValid {A} (itr : memDBIterator) (k : res unit A) : res unit A :=
  if negb (mem_Valid itr) then Panic else k.

Definition mem_Next (itr : memDBIterator) : res unit memDBIterator :=
  assertIsValid itr
    (Ok {| mi_open := mi_open itr; cur := cur itr + 1; keys := keys itr; mi_start := mi_start itr;
           mi_end := mi_end itr |}).

Definition mem_Key (itr : memDBIterator) : res unit bytes :=
  assertIsValid itr (Ok (nth (Z.to_nat (cur itr)) (keys itr) [])).

Definition mem_Value (d : MemDB) (itr : memDBIterator) : res unit obytes :=
  assertIsValid itr
    (let key := nth (Z.to_nat (cur itr)) (keys itr) [] in
     if mi_open itr then Ok (MemDB_Get d (Some key)) else Panic).

Definition mem_Close (itr : memDBIterator) : memDBIterator :=
  {| mi_open := false; cur := cur itr; keys := []; mi_start := mi_start itr; mi_end := mi_end itr |}.

(** ** Batches (mem_batch.go) *)

Inductive operation :=
| opTypeSet (key value : obytes)
| opTypeDelete (key : obytes).

Record memBatch := { ops : list operation }.

Definition MemDB_NewBatch (d : MemDB) : memBatch := {| ops := [] |}.

Definition mBatch_Set (b : memBatch) (key value : obytes) : memBatch :=
  {| ops := ops b ++ [opTypeSet key value] |}.

Definition mBatch_Delete (b : memBatch) (key : obytes) : memBatch :=
  {| ops := ops b ++ [opTypeDelete key] |}.

(** The loop of [write]; [n] is [len(mBatch.ops)] and [i] the index of the next operation. *)
Fixpoint write_loop (doSync : bool) (n i : Z) (l : list operation) (d : MemDB) : MemDB :=
  match l with
  | [] => d
  | op :: l' =>
      if doSync && (i =? n - 1) then
        match op with
        | opTypeSet key value => SetNoLockSync d key value
        | opTypeDelete key => DeleteNoLockSync d key
        end
      else
        write_loop doSync n (i + 1) l'
          match op with
          | opTypeSet key value => SetNoLock d key value
          | opTypeDelete key => DeleteNoLock d key
          end
  end.

Definition write (doSync : bool) (b : memBatch) (d : MemDB) : MemDB :=
  write_loop doSync (zlen (ops b)) 0 (ops b) d.

Definition mBatch_Write (b : memBatch) (d : MemDB) : MemDB := write false b d.

Definition mBatch_WriteSync (b : memBatch) (d : MemDB) : MemDB := write true b d.

#[export] Instance MemDB_DB : DB MemDB memDBIterator memBatch := {|
  db_Get := MemDB_Get;
  db_Has := MemDB_Has;
  db_Set := MemDB_Set;
  db_SetSync := MemDB_SetSync;
  db_Delete := MemDB_Delete;
  db_DeleteSync := MemDB_DeleteSync;
  db_Iterator := MemDB_Iterator;
  db_ReverseIterator := MemDB_ReverseIterator;
  db_NewBatch := MemDB_NewBatch;
  it_Domain := mem_Domain;
  it_Valid := mem_Valid;
  it_Next := mem_Next;
  it_Key := mem_Key;
  it_Value := mem_Value;
  it_Close := mem_Close;
  b_Set := mBatch_Set;
  b_Delete := mBatch_Delete;
  b_Write := mBatch_Write;
  b_WriteSync := mBatch_WriteSync;
|}.

(** ** Namespaces (prefix_db.go) *)

Record prefixDB (D : Type) := { prefix : bytes; pdb_db : D }.
Arguments prefix {D} _.
Arguments pdb_db {D} _.

Record prefixBatch (B : Type) := { pb_prefix : bytes; pb_source : B }.
Arguments pb_prefix {B} _.
Arguments pb_source {B} _.

Record prefixIterator (I : Type) := {
  pi_prefix : bytes;
  pi_start : obytes;
  pi_end : obytes;
  source : I;
  valid : bool;
}.
Arguments pi_prefix {I} _.
Arguments pi_start {I} _.
Arguments pi_end {I} _.
Arguments source {I} _.
Arguments valid {I} _.

Section prefix_db.
Context {D I B : Type} `{!DB D I B}.

Definition IteratePrefix (d : D) (prefix : bytes) : res unit I :=
  if zlen prefix =? 0 then db_Iterator d None None
  else
    let start := cp prefix in
    let* end_ := cpIncr prefix in
    db_Iterator d (Some start) end_.

Definition NewPrefixDB (d : D) (prefix : bytes) : prefixDB D := {| prefix := prefix; pdb_db := d |}.

Definition prefixed (pdb : prefixDB D) (key : obytes) : bytes := cp (prefix pdb) ++ nonNilBytes key.

Definition set_source (pdb : prefixDB D) (d : D) : prefixDB D := {| prefix := prefix pdb; pdb_db := d |}.

Definition prefix_Get (pdb : prefixDB D) (key : obytes) : obytes :=
  db_Get (pdb_db pdb) (Some (prefixed pdb key)).

Definition prefix_Has (pdb : prefixDB D) (key : obytes) : bool :=
  db_Has (pdb_db pdb) (Some (prefixed pdb key)).

Definition prefix_Set (pdb : prefixDB D) (key value : obytes) : prefixDB D :=
  set_source pdb (db_Set (pdb_db pdb) (Some (prefixed pdb key)) value).

Definition prefix_SetSync (pdb : prefixDB D) (key value : obytes) : prefixDB D :=
  set_source pdb (db_SetSync (pdb_db pdb) (Some (prefixed pdb key)) value).

Definition prefix_Delete (pdb : prefixDB D) (key : obytes) : prefixDB D :=
  set_source pdb (db_Delete (pdb_db pdb) (Some (prefixed pdb key))).

Definition prefix_DeleteSync (pdb : prefixDB D) (key : obytes) : prefixDB D :=
  set_source pdb (db_DeleteSync (pdb_db pdb) (Some (prefixed pdb key))).

(** The key of the source is not in the namespace. *)
Definition leaves_prefix (source : I) (prefix : bytes) : res unit bool :=
  if negb (it_Valid source) then Ok true
  else
    let* key := it_Key source in
    Ok (negb (HasPrefix key prefix)).

Definition newPrefixIterator (prefix : bytes) (start end_ : obytes) (source : I) :
  res unit (prefixIterator I) :=
  let* out := leaves_prefix source prefix in
  Ok {| pi_prefix := prefix; pi_start := start; pi_end := end_; source := source; valid := negb out |}.

Definition prefix_Iterator (pdb : prefixDB D) (start end_ : obytes) : res unit (prefixIterator I) :=
  let pstart := cp (prefix pdb) ++ nonNilBytes start in
  let* pend :=
    match end_ with
    | None => cpIncr (prefix pdb)
    | Some e => Ok (Some (cp (prefix pdb) ++ e))
    end in
  let* itr := db_Iterator (pdb_db pdb) (Some pstart) pend in
  newPrefixIterator (prefix pdb) start end_ itr.

Definition skipOne (itr : I) (skipKey : obytes) : res unit I :=
  if it_Valid itr then
    let* key := it_Key itr in
    if bool_decide (key = nonNilBytes skipKey) then it_Next itr else Ok itr
  else Ok itr.

Definition prefix_ReverseIterator (pdb : prefixDB D) (start end_ : obytes) : res unit (prefixIterator I) :=
  let* pstart :=
    match start with
    | None => cpIncr (prefix pdb)
    | Some s => Ok (Some (cp (prefix pdb) ++ s))
    end in
  let* pend :=
    match end_ with
    | None => cpDecr (prefix pdb)
    | Some e => Ok (Some (cp (prefix pdb) ++ e))
    end in
  let* ritr := db_ReverseIterator (pdb_db pdb) pstart pend in
  let* ritr :=
    match start with
    | None => let* skip := cpIncr (prefix pdb) in skipOne ritr skip
    | Some _ => Ok ritr
    end in
  newPrefixIterator (prefix pdb) start end_ ritr.

Definition set_it (itr : prefixIterator I) (source : I) : prefixIterator I :=
  {| pi_prefix := pi_prefix itr; pi_start := pi_start itr; pi_end := pi_end itr; source := source;
     valid := valid itr |}.

Definition prefix_Domain (itr : prefixIterator I) : obytes * obytes := (pi_start itr, pi_end itr).

Definition prefix_Valid (itr : prefixIterator I) : bool := valid itr && it_Valid (source itr).

(** The receiver is a value: [itr.valid = false] is lost, what [Close] does to the source is not. *)
Definition prefix_Next (itr : prefixIterator I) : res unit (prefixIterator I) :=
  if negb (valid itr) then Panic
  else
    let* source := it_Next (source itr) in
    let* out := leaves_prefix source (pi_prefix itr) in
    if (out : bool) then Ok (set_it itr (it_Close source)) else Ok (set_it itr source).

Definition stripPrefix (key prefix : bytes) : res unit bytes :=
  if zlen key <? zlen prefix then Panic
  else if negb (bool_decide (take (length prefix) key = prefix)) then Panic
  else Ok (drop (length prefix) key).

Definition prefix_Key (itr : prefixIterator I) : res unit bytes :=
  if negb (valid itr) then Panic
  else
    let* key := it_Key (source itr) in
    stripPrefix key (pi_prefix itr).

Definition prefix_Value (pdb : prefixDB D) (itr : prefixIterator I) : res unit obytes :=
  if negb (valid itr) then Panic else it_Value (pdb_db pdb) (source itr).

Definition prefix_Close (itr : prefixIterator I) : prefixIterator I := set_it itr (it_Close (source itr)).

Definition newPrefixBatch (prefix : bytes) (source : B) : prefixBatch B :=
  {| pb_prefix := prefix; pb_source := source |}.

Definition prefix_NewBatch (pdb : prefixDB D) : prefixBatch B :=
  newPrefixBatch (prefix pdb) (db_NewBatch (pdb_db pdb)).

Definition pb_Set (pb : prefixBatch B) (key value : obytes) : prefixBatch B :=
  let pkey := cp (pb_prefix pb) ++ nonNilBytes key in
  newPrefixBatch (pb_prefix pb) (b_Set (pb_source pb) (Some pkey) value).

Definition pb_Delete (pb : prefixBatch B) (key : obytes) : prefixBatch B :=
  let pkey := cp (pb_prefix pb) ++ nonNilBytes key in
  newPrefixBatch (pb_prefix pb) (b_Delete (pb_source pb) (Some pkey)).

Definition pb_Write (pb : prefixBatch B) (pdb : prefixDB D) : prefixDB D :=
  set_source pdb (b_Write (pb_source pb) (pdb_db pdb)).

Definition pb_WriteSync (pb : prefixBatch B) (pdb : prefixDB D) : prefixDB D :=
  set_source pdb (b_WriteSync (pb_source pb) (pdb_db pdb)).

#[export] Instance prefixDB_DB : DB (prefixDB D) (prefixIterator I) (prefixBatch B) := {|
  db_Get := prefix_Get;
  db_Has := prefix_Has;
  db_Set := prefix_Set;
  db_SetSync := prefix_SetSync;
  db_Delete := prefix_Delete;
  db_DeleteSync := prefix_DeleteSync;
  db_Iterator := prefix_Iterator;
  db_ReverseIterator := prefix_ReverseIterator;
  db_NewBatch := prefix_NewBatch;
  it_Domain := prefix_Domain;
  it_Valid := prefix_Valid;
  it_Next := prefix_Next;
  it_Key := prefix_Key;
  it_Value := prefix_Value;
  it_Close := prefix_Close;
  b_Set := pb_Set;
  b_Delete := pb_Delete;
  b_Write := pb_Write;
  b_WriteSync := pb_WriteSync;
|}.
End prefix_db.
