(* ===== verification/DbSpec.v ===== *)
(** * What the databases promise

    [DBLaws] says what the interface [DB] promises: a database is a finite map, an
    iterator visits the entries of its domain in the order of their keys, a batch applies
    its operations in order.  The memory database satisfies it; a namespace over any
    database that satisfies it satisfies it again, for prefixes whose last byte is not
    0xff. *)

From stdpp Require Import gmap sorting.
From S2P Require Import Prelude GoStrings GoBytes GoSlice Db.

(** ** The order of keys *)

Definition key_lt (a b : bytes) : Prop := Compare a b = -1.

Lemma key_lt_trans a b c : key_lt a b -> key_lt b c -> key_lt a c.
Proof. apply Compare_trans. Qed.

Lemma key_lt_irrefl a : ~ key_lt a a.
Proof. unfold key_lt. by rewrite Compare_refl. Qed.

Lemma key_trichotomy a b : key_lt a b \/ a = b \/ key_lt b a.
Proof.
  unfold key_lt. rewrite (Compare_anti a b). destruct (Compare_cases a b) as [H|[H|H]]; rewrite H; auto.
  right. left. by apply Compare_eq.
Qed.

Lemma key_le_cases a b : key_le a b <-> a = b \/ key_lt a b.
Proof.
  unfold key_le, key_lt. split; [|intros [->|E]; [rewrite Compare_refl|rewrite E]; lia].
  destruct (Compare_cases a b) as [H|[H|H]]; rewrite H; auto; [|lia]. apply Compare_eq in H. auto.
Qed.

Lemma key_not_lt a b : ~ key_lt a b <-> key_le b a.
Proof.
  rewrite key_le_cases. destruct (key_trichotomy a b) as [H|[->|H]].
  - split; [done|]. intros [->|H'] _; [by eapply key_lt_irrefl|]. eapply key_lt_irrefl, key_lt_trans; eauto.
  - split; [auto|]. intros _. apply key_lt_irrefl.
  - split; [auto|]. intros _ H'. eapply key_lt_irrefl, key_lt_trans; eauto.
Qed.

#[export] Instance key_lt_transitive : Transitive key_lt.
Proof. intros a b c. apply key_lt_trans. Qed.

#[export] Instance key_le_total : Total key_le.
Proof. intros a b. rewrite !key_le_cases. destruct (key_trichotomy a b) as [H|[->|H]]; auto. Qed.

#[export] Instance key_le_transitive : Transitive key_le.
Proof. intros a b c. rewrite !key_le_cases. intros [->|H] [->|H']; eauto using key_lt_trans. Qed.

#[export] Instance key_le_antisym : AntiSymm eq key_le.
Proof.
  intros a b. rewrite !key_le_cases. intros [->|H] [E|H']; auto. exfalso.
  eapply key_lt_irrefl, key_lt_trans; eauto.
Qed.

Lemma Compare_app p a b : Compare (p ++ a) (p ++ b) = Compare a b.
Proof. induction p as [|x p IH]; [done|]. cbn. by rewrite Z.ltb_irrefl. Qed.

Lemma key_lt_app a b c e : length a = length b -> key_lt a b -> key_lt (a ++ c) (b ++ e).
Proof.
  unfold key_lt. revert b. induction a as [|x a IH]; intros [|y b]; cbn; try done.
  intros [= Hl]. destruct (x <? y); [done|]. destruct (y <? x); [done|]. by apply IH.
Qed.

Lemma key_lt_trans' a b c : key_lt a b -> key_le b c -> key_lt a c.
Proof. rewrite key_le_cases. intros Hab [<-|Hbc]; [done|]. exact (key_lt_trans _ _ _ Hab Hbc). Qed.

Lemma key_le_nil a : key_le [] a.
Proof. destruct a; [apply Z.le_refl|]. unfold key_le. cbn. lia. Qed.

(** ** Keys with a prefix *)

Lemma HasPrefix_inv k p : HasPrefix k p = true -> exists a, k = p ++ a.
Proof.
  revert k. induction p as [|x p IH]; intros k H; [by exists k|].
  destruct k as [|y k]; [done|]. cbn in H. apply andb_prop in H as [->%Z.eqb_eq H].
  apply IH in H as [a ->]. by exists a.
Qed.

Lemma prefix_comparable p q k j : p ++ k = q ++ j -> HasPrefix p q = true \/ HasPrefix q p = true.
Proof.
  revert q. induction p as [|x p IH]; intros [|y q] E; [by left|by right|left; by destruct p|].
  injection E as -> E. cbn. rewrite Z.eqb_refl. by apply IH.
Qed.

(** A key without the prefix is below all keys with it or above all of them. *)
Lemma outside_prefix p c : HasPrefix c p = false ->
  (forall a, key_lt c (p ++ a)) \/ (forall a, key_lt (p ++ a) c).
Proof.
  unfold key_lt. revert c. induction p as [|x p IH]; intros c Hc; [by destruct c|].
  destruct c as [|y c]; [by left|]. cbn in Hc |- *.
  destruct (Z.ltb_spec x y), (Z.ltb_spec y x); try lia; auto.
  assert (y = x) as -> by lia. rewrite Z.eqb_refl in Hc. by apply IH.
Qed.

Lemma above_prefix p c : HasPrefix c p = false -> key_le p c -> forall a, key_lt (p ++ a) c.
Proof.
  intros Hc Hp. destruct (outside_prefix p c Hc) as [H|H]; [|done]. exfalso.
  apply key_not_lt in Hp. apply Hp. specialize (H []). by rewrite app_nil_r in H.
Qed.

(** ** [cpIncr] and [cpDecr] *)

Lemma take_insert_last (l : bytes) i x : (i < length l)%nat -> take (S i) (<[i := x]> l) = take i l ++ [x].
Proof.
  intros H. rewrite (take_S_r _ i x) by (by apply list_lookup_insert_eq). by rewrite take_insert_ge by lia.
Qed.

Lemma take_S_nth (l : bytes) i : (i < length l)%nat -> take (S i) l = take i l ++ [nth i l 0].
Proof.
  intros H. apply lookup_lt_is_Some in H as [x E]. by rewrite (take_S_r _ i x), nth_lookup, E by done.
Qed.

Lemma last_lt (x y : Z) : x < y -> key_lt [x] [y].
Proof. intros H. unfold key_lt. cbn. by rewrite (proj2 (Z.ltb_lt x y) H). Qed.

Lemma incr_loop_lt n : forall ret r, bytes_ok ret -> (n <= length ret)%nat -> incr_loop n ret = Some r ->
  length r = length ret /\ key_lt (take n ret) (take n r).
Proof.
  induction n as [|i IH]; intros ret r Hok Hn E; [done|]. cbn [incr_loop] in E.
  pose proof (nth_byte i ret Hok) as Hb. destruct (Z.ltb_spec (nth i ret 0) 255) as [Hl|Hl].
  - injection E as <-. rewrite length_insert, take_insert_last, take_S_nth, uN_id by (unfold in_uN; lia).
    split; [done|]. unfold key_lt. rewrite Compare_app. apply last_lt. lia.
  - destruct (i =? 0)%nat; [done|]. apply IH in E as [Hr Hlt].
    + rewrite length_insert in Hr. rewrite take_insert_ge in Hlt by lia. split; [done|].
      rewrite !(take_S_nth _ i) by lia. apply key_lt_app; [|done]. rewrite !length_take. lia.
    + apply Forall_insert; [done|]. unfold byte_ok. lia.
    + rewrite length_insert. lia.
Qed.

Lemma decr_loop_lt n : forall ret r, bytes_ok ret -> (n <= length ret)%nat -> decr_loop n ret = Some r ->
  length r = length ret /\ key_lt (take n r) (take n ret).
Proof.
  induction n as [|i IH]; intros ret r Hok Hn E; [done|]. cbn [decr_loop] in E.
  pose proof (nth_byte i ret Hok) as Hb. destruct (Z.ltb_spec 0 (nth i ret 0)) as [Hl|Hl].
  - injection E as <-. rewrite length_insert, take_insert_last, take_S_nth, uN_id by (unfold in_uN; lia).
    split; [done|]. unfold key_lt. rewrite Compare_app. apply last_lt. lia.
  - destruct (i =? 0)%nat; [done|]. apply IH in E as [Hr Hlt].
    + rewrite length_insert in Hr. rewrite take_insert_ge in Hlt by lia. split; [done|].
      rewrite !(take_S_nth _ i) by lia. apply key_lt_app; [|done]. rewrite !length_take. lia.
    + apply Forall_insert; [done|]. unfold byte_ok. lia.
    + rewrite length_insert. lia.
Qed.

Lemma cpIncr_above p : p <> [] -> bytes_ok p ->
  exists o, cpIncr p = Ok o /\ forall r, o = Some r -> forall a, key_lt (p ++ a) r.
Proof.
  intros Hp Hok. unfold cpIncr, cp. destruct (Z.eqb_spec (zlen p) 0) as [E|_]; [by apply zlen_0_inv in E|].
  eexists. split; [done|]. intros r E a. apply incr_loop_lt in E as [Hl Hlt]; [|done|done].
  rewrite !take_ge in Hlt by lia. rewrite <- (app_nil_r r). by apply key_lt_app.
Qed.

Lemma cpDecr_below p : p <> [] -> bytes_ok p ->
  exists o, cpDecr p = Ok o /\ forall r, o = Some r -> key_lt r p.
Proof.
  intros Hp Hok. unfold cpDecr, cp. destruct (Z.eqb_spec (zlen p) 0) as [E|_]; [by apply zlen_0_inv in E|].
  eexists. split; [done|]. intros r E. apply decr_loop_lt in E as [Hl Hlt]; [|done|done].
  by rewrite !take_ge in Hlt by lia.
Qed.

(** ** The contract *)

(** Ascending from [start] on, up to [end] exclusive; descending from [start], down to [end] exclusive. *)
Definition in_domain (start end_ : obytes) (reverse : bool) (k : bytes) : Prop :=
  if reverse then
    (forall s, start = Some s -> key_le k s) /\ (forall e, end_ = Some e -> key_lt e k)
  else
    key_le (nonNilBytes start) k /\ (forall e, end_ = Some e -> key_lt k e).

Definition key_order (reverse : bool) : relation bytes := if reverse then flip key_lt else key_lt.

(** [l] lists the entries of [m] whose keys satisfy [dom], in order. *)
Definition lists_in (m : gmap bytes bytes) (dom : bytes -> Prop) (reverse : bool)
  (l : list (bytes * bytes)) : Prop :=
  StronglySorted (key_order reverse) l.*1 /\
  forall k v, (k, v) ∈ l <-> m !! k = Some v /\ dom k.

Definition lists (m : gmap bytes bytes) (start end_ : obytes) (reverse : bool)
  (l : list (bytes * bytes)) : Prop := lists_in m (in_domain start end_ reverse) reverse l.

Definition apply_op (m : gmap bytes bytes) (op : operation) : gmap bytes bytes :=
  match op with
  | opTypeSet key value => <[nonNilBytes key := nonNilBytes value]> m
  | opTypeDelete key => delete (nonNilBytes key) m
  end.

Definition apply_ops (l : list operation) (m : gmap bytes bytes) : gmap bytes bytes := fold_left apply_op l m.

Inductive db_step {D I B} `{!DB D I B} (d : D) : operation -> D -> Prop :=
| step_Set k v : db_step d (opTypeSet k v) (db_Set d k v)
| step_SetSync k v : db_step d (opTypeSet k v) (db_SetSync d k v)
| step_Delete k : db_step d (opTypeDelete k) (db_Delete d k)
| step_DeleteSync k : db_step d (opTypeDelete k) (db_DeleteSync d k).

Class DBLaws {D I B} (H : DB D I B) := {
  db_ok : D -> Prop;
  contents : D -> gmap bytes bytes;
  Get_contents d k : db_Get d k = contents d !! nonNilBytes k;
  Has_contents d k : db_Has d k = bool_decide (is_Some (contents d !! nonNilBytes k));
  step_contents d op d' : db_ok d -> db_step d op d' -> db_ok d' /\ contents d' = apply_op (contents d) op;
  (** [l] is what the iterator has left. *)
  iterates : D -> I -> list (bytes * bytes) -> Prop;
  Iterator_lists d start end_ : db_ok d ->
    exists i l, db_Iterator d start end_ = Ok i /\ iterates d i l /\ lists (contents d) start end_ false l;
  ReverseIterator_lists d start end_ : db_ok d ->
    exists i l, db_ReverseIterator d start end_ = Ok i /\ iterates d i l /\ lists (contents d) start end_ true l;
  iterates_Valid d i l : iterates d i l -> it_Valid i = bool_decide (l <> []);
  iterates_Next d i k v l : iterates d i ((k, v) :: l) -> exists i', it_Next i = Ok i' /\ iterates d i' l;
  iterates_Key d i k v l : iterates d i ((k, v) :: l) -> it_Key i = Ok k;
  iterates_Value d i k v l : iterates d i ((k, v) :: l) -> it_Value d i = Ok (Some v);
  iterates_end d i : iterates d i [] -> it_Next i = Panic /\ it_Key i = Panic /\ it_Value d i = Panic;
  iterates_Close d i l : iterates d i l -> iterates d (it_Close i) [];
  (** [l] is what the batch of the database will do. *)
  pending : D -> B -> list operation -> Prop;
  NewBatch_pending d : pending d (db_NewBatch d) [];
  b_Set_pending d b l k v : pending d b l -> pending d (b_Set b k v) (l ++ [opTypeSet k v]);
  b_Delete_pending d b l k : pending d b l -> pending d (b_Delete b k) (l ++ [opTypeDelete k]);
  step_pending d op d' b l : db_step d op d' -> pending d b l -> pending d' b l;
  Write_contents d b l : db_ok d -> pending d b l ->
    (db_ok (b_Write b d) /\ contents (b_Write b d) = apply_ops l (contents d)) /\
    (db_ok (b_WriteSync b d) /\ contents (b_WriteSync b d) = apply_ops l (contents d));
}.

(** ** The memory database *)

#[export] Instance key_lt_dec a b : Decision (key_lt a b).
Proof. unfold key_lt. apply _. Defined.

Lemma Compare_ltb a b : (Compare a b <? 0) = bool_decide (key_lt a b).
Proof.
  symmetry. case_bool_decide as H; unfold key_lt in H; symmetry; [by rewrite H|].
  apply Z.ltb_ge. destruct (Compare_cases a b) as [E|[E|E]]; lia.
Qed.

Lemma Compare_leb a b : (Compare a b <=? 0) = bool_decide (~ key_lt b a).
Proof.
  destruct (decide (key_lt b a)) as [H|H].
  - rewrite bool_decide_false by tauto. unfold key_lt in H. rewrite Compare_anti, H. done.
  - rewrite bool_decide_true by done. apply Z.leb_le. by apply key_not_lt.
Qed.

Lemma IsKeyInDomain_spec k s e r : IsKeyInDomain k s e r = true <-> in_domain s e r k.
Proof.
  unfold IsKeyInDomain, in_domain.
  assert (forall (o : obytes) (P : bytes -> Prop),
    (forall x, o = Some x -> P x) <-> match o with Some x => P x | None => True end) as Q.
  { intros [x|] P; split; auto; intros H; [intros ? [= <-]; done|done]. }
  destruct r; rewrite !Q, !Compare_ltb, !Compare_leb; [destruct s as [s|]|]; destruct e as [e|];
    cbn [is_nil negb andb nonNilBytes default];
    rewrite <- ?key_not_lt; repeat case_bool_decide; split; try done; try tauto.
Qed.

Lemma swap_loop_lookup n : forall i ks j, (2 * (i + n) <= length ks)%nat -> (j < length ks)%nat ->
  length (swap_loop n i ks) = length ks /\
  swap_loop n i ks !! j =
    ks !! (if decide ((i <= j < i + n) \/ (i <= length ks - 1 - j < i + n))%nat then length ks - 1 - j else j)%nat.
Proof.
  induction n as [|n IH]; intros i ks j Hn Hj; cbn [swap_loop].
  - split; [done|]. rewrite decide_False by lia. done.
  - set (ks' := <[_ := _]> _). assert (length ks' = length ks) as L by (unfold ks'; by rewrite !length_insert).
    destruct (IH (S i) ks' j) as [-> ->]; [lia..|]. rewrite L. split; [done|].
    destruct (lookup_lt_is_Some_2 ks i ltac:(lia)) as [x Ex].
    destruct (lookup_lt_is_Some_2 ks (length ks - i - 1) ltac:(lia)) as [y Ey].
    unfold ks'. rewrite !nth_lookup, Ex, Ey. cbn [default].
    assert (E : forall k, (k < length ks)%nat -> <[(length ks - i - 1)%nat := x]> (<[i := y]> ks) !! k =
      ks !! (if decide (k = i \/ k = length ks - i - 1) then length ks - 1 - k else k)%nat).
    { intros k Hk. destruct (decide (k = length ks - i - 1)%nat) as [->|N1].
      - rewrite list_lookup_insert_eq by (rewrite length_insert; lia).
        rewrite decide_True by auto. replace (length ks - 1 - (length ks - i - 1))%nat with i by lia. done.
      - rewrite list_lookup_insert_ne by done. destruct (decide (k = i)) as [->|N2].
        + rewrite list_lookup_insert_eq, decide_True by auto. rewrite <- Ey. f_equal. lia.
        + rewrite list_lookup_insert_ne, decide_False by (done || tauto). done. }
    repeat case_decide; rewrite E by lia; case_decide; f_equal; lia.
Qed.

Lemma swap_loop_reverse ks : swap_loop (length ks / 2) 0 ks = reverse ks.
Proof.
  pose proof (Nat.div_mod_eq (length ks) 2) as Hd. pose proof (Nat.mod_upper_bound (length ks) 2 ltac:(lia)) as Hm.
  destruct (decide (length ks = 0)%nat) as [E|E]; [by destruct ks|].
  destruct (swap_loop_lookup (length ks / 2) 0 ks 0 ltac:(lia) ltac:(lia)) as [L _].
  apply list_eq. intros j. destruct (decide (j < length ks)%nat) as [Hj|Hj].
  - destruct (swap_loop_lookup (length ks / 2) 0 ks j ltac:(lia) Hj) as [_ ->].
    rewrite reverse_lookup by done. case_decide; f_equal; lia.
  - rewrite !lookup_ge_None_2; [done|rewrite length_reverse; lia|lia].
Qed.

Lemma keys_nodup (m : gmap bytes bytes) : NoDup (map_to_list m).*1.
Proof. apply NoDup_fst_map_to_list. Qed.

Lemma sorted_strict (l : list bytes) : NoDup l -> StronglySorted key_le l -> StronglySorted key_lt l.
Proof.
  intros Hn Hs. induction Hs as [|x l Hs IH Hx]; [constructor|]. apply NoDup_cons in Hn as [Hni Hn].
  constructor; [by apply IH|]. rewrite Forall_forall in *. intros y Hy. specialize (Hx y Hy).
  rewrite key_le_cases in Hx. by destruct Hx as [->|?].
Qed.

Lemma sorted_reverse {A} (R : relation A) l : StronglySorted R l -> StronglySorted (flip R) (reverse l).
Proof.
  induction 1 as [|x l Hs IH Hx]; [constructor|]. rewrite reverse_cons.
  apply StronglySorted_app. split_and!; [|done|by repeat constructor].
  intros a b Ha Hb. apply list_elem_of_singleton in Hb as ->. unfold flip. rewrite Forall_forall in Hx.
  apply Hx. by rewrite <- elem_of_reverse.
Qed.

(** The keys do not depend on the order in which the map is iterated. *)
Lemma sorted_keys_perm l k s e r : l ≡ₚ k -> sorted_keys l s e r = sorted_keys k s e r.
Proof.
  intros H. unfold sorted_keys. assert (Sort key_le (filter (fun k => IsKeyInDomain k s e r = true) l) =
    Sort key_le (filter (fun k => IsKeyInDomain k s e r = true) k)) as -> by (apply Sort_unique; [apply _..|by rewrite H]). done.
Qed.

Lemma getSortedKeys_spec d s e r :
  StronglySorted (key_order r) (getSortedKeys d s e r) /\
  forall k, k ∈ getSortedKeys d s e r <-> is_Some (db d !! k) /\ in_domain s e r k.
Proof.
  unfold getSortedKeys, sorted_keys. set (l := filter _ _).
  assert (forall k, k ∈ Sort key_le l <-> is_Some (db d !! k) /\ in_domain s e r k) as He.
  { intros k. rewrite Sort_perm. unfold l. rewrite list_elem_of_filter, IsKeyInDomain_spec, list_elem_of_fmap.
    split; [intros [Hd ([k' v] & -> & Hv)]|intros [[v Hv] Hd]].
    - apply elem_of_map_to_list in Hv. eauto.
    - split; [done|]. exists (k, v). split; [done|]. by apply elem_of_map_to_list. }
  assert (StronglySorted key_lt (Sort key_le l)) as Hs.
  { apply sorted_strict; [|apply Sort_sorted; apply _].
    rewrite Sort_perm. apply NoDup_filter, keys_nodup. }
  destruct r; [|done]. rewrite swap_loop_reverse. split; [by apply sorted_reverse|].
  intros k. by rewrite elem_of_reverse.
Qed.

(** The entries of a list of keys. *)
Definition entries (m : gmap bytes bytes) (ks : list bytes) : list (bytes * bytes) :=
  (fun k => (k, default [] (m !! k))) <$> ks.

Lemma entries_lists m ks s e r : StronglySorted (key_order r) ks ->
  (forall k, k ∈ ks <-> is_Some (m !! k) /\ in_domain s e r k) -> lists m s e r (entries m ks).
Proof.
  intros Hs He. unfold entries. split.
  - rewrite <- list_fmap_compose. by rewrite list_fmap_id.
  - intros k v. rewrite list_elem_of_fmap. split.
    + intros (k' & [= -> ->] & Hk). apply He in Hk as [[w Hw] Hd]. by rewrite Hw.
    + intros [Hm Hd]. exists k. rewrite Hm. split; [done|]. apply He. eauto.
Qed.

(** An open iterator is at the position after which its remaining keys start, and they are all present. *)
Definition mem_iterates (d : MemDB) (i : memDBIterator) (l : list (bytes * bytes)) : Prop :=
  exists n, cur i = Z.of_nat n /\
    (mi_open i = true /\ (n <= length (keys i))%nat /\ l = entries (db d) (drop n (keys i)) /\
       Forall (fun k => is_Some (db d !! k)) (keys i) \/
     l = [] /\ (length (keys i) <= n)%nat).

Lemma mem_iterates_Valid d i l : mem_iterates d i l -> mem_Valid i = bool_decide (l <> []).
Proof.
  intros (n & Hc & H). unfold mem_Valid. rewrite Hc, (proj2 (Z.leb_le 0 _)) by lia. cbn [andb].
  destruct H as [(_ & Hn & -> & _)|(-> & Hn)].
  - unfold zlen, entries. destruct (drop n (keys i)) as [|k ks] eqn:E.
    + apply (f_equal length) in E. rewrite length_drop in E. cbn in E. cbn [fmap list_fmap].
      rewrite bool_decide_false by tauto. apply Z.ltb_ge. lia.
    + apply (f_equal length) in E. rewrite length_drop in E. cbn in E.
      rewrite bool_decide_true by done. apply Z.ltb_lt. lia.
  - rewrite bool_decide_false by tauto. unfold zlen. apply Z.ltb_ge. lia.
Qed.

(** The current entry. *)
Lemma mem_iterates_cons d i k v l : mem_iterates d i ((k, v) :: l) ->
  mem_Valid i = true /\ mi_open i = true /\ nth (Z.to_nat (cur i)) (keys i) [] = k /\ db d !! k = Some v /\
  mem_iterates d {| mi_open := true; cur := cur i + 1; keys := keys i; mi_start := mi_start i;
                    mi_end := mi_end i |} l.
Proof.
  intros H. pose proof (mem_iterates_Valid _ _ _ H) as V. destruct H as (n & Hc & [(Ho & Hn & El & Hp)|(? & _)]); [|done].
  destruct (drop n (keys i)) as [|k' ks] eqn:E; [done|]. injection El as <- -> ->.
  assert (keys i !! n = Some k) as Ek by (by rewrite <- (Nat.add_0_r n), <- lookup_drop, E).
  pose proof (Forall_lookup_1 _ _ _ _ Hp Ek) as [v Hv]. rewrite Hc, Nat2Z.id, nth_lookup, Ek, Hv.
  split_and!; [done..|]. exists (S n). cbn. split; [lia|]. left. apply lookup_lt_Some in Ek as Hl.
  split_and!; [done|lia| |done]. apply drop_S in Ek. rewrite E in Ek. by injection Ek as ->.
Qed.

Lemma mem_iterates_new d s e r : exists l,
  mem_iterates d (newMemDBIterator (getSortedKeys d s e r) s e) l /\ lists (db d) s e r l.
Proof.
  destruct (getSortedKeys_spec d s e r) as [Hs He]. exists (entries (db d) (getSortedKeys d s e r)).
  split; [|by apply entries_lists]. exists 0%nat. split; [done|]. left. cbn. split_and!; [done|lia|done|].
  apply Forall_forall. intros k Hk. by apply He in Hk as [? _].
Qed.

Lemma write_loop_spec doSync l : forall n i d, n = i + zlen l ->
  db (write_loop doSync n i l d) = apply_ops l (db d).
Proof.
  unfold apply_ops. induction l as [|op l IH]; intros n i d Hn; [done|]. cbn [write_loop fold_left].
  rewrite zlen_cons in Hn. destruct (doSync && (i =? n - 1)) eqn:E.
  - apply andb_prop in E as [_ E%Z.eqb_eq]. assert (l = []) as -> by (apply zlen_0_inv; lia). by destruct op.
  - rewrite IH by lia. by destruct op.
Qed.

#[export] Instance MemDB_laws : DBLaws MemDB_DB.
Proof.
  refine {| db_ok _ := True; contents := db; iterates := mem_iterates; pending d b l := ops b = l |}.
  - done.
  - intros d k. cbn. unfold MemDB_Has. by destruct (db d !! nonNilBytes k).
  - intros d op d' _ H. by inversion H.
  - intros d s e _. destruct (mem_iterates_new d s e false) as (l & Hi & Hl). by exists (newMemDBIterator (getSortedKeys d s e false) s e), l.
  - intros d s e _. destruct (mem_iterates_new d s e true) as (l & Hi & Hl). by exists (newMemDBIterator (getSortedKeys d s e true) s e), l.
  - apply mem_iterates_Valid.
  - intros d i k v l (V & O & _ & _ & H)%mem_iterates_cons. cbn. unfold mem_Next, assertIsValid. rewrite V, O. cbn. eauto.
  - intros d i k v l (V & O & E & _ & H)%mem_iterates_cons. cbn. unfold mem_Key, assertIsValid. by rewrite V, E.
  - intros d i k v l (V & O & E & Ev & H)%mem_iterates_cons. cbn. unfold mem_Value, assertIsValid, MemDB_Get.
    by rewrite V, O, E, <- Ev.
  - intros d i V%mem_iterates_Valid. cbn. unfold mem_Next, mem_Key, mem_Value, assertIsValid. by rewrite V.
  - intros d i l (n & Hc & _). exists n. cbn. split; [done|]. right. split; [done|lia].
  - done.
  - intros d b l k v <-. done.
  - intros d b l k <-. done.
  - done.
  - intros d b l _ <-. cbn. unfold mBatch_Write, mBatch_WriteSync, write.
    rewrite !write_loop_spec by lia. done.
Defined.

(** ** Namespaces *)

(** The entries whose keys have the prefix, without it. *)
Definition strip (p : bytes) (m : gmap bytes bytes) : gmap bytes bytes :=
  list_to_map ((fun kv => (drop (length p) kv.1, kv.2)) <$> filter (fun kv => HasPrefix kv.1 p = true) (map_to_list m)).

Lemma strip_Some p m k v : strip p m !! k = Some v <-> m !! (p ++ k) = Some v.
Proof.
  unfold strip. rewrite <- elem_of_list_to_map.
  - rewrite list_elem_of_fmap. split.
    + intros ([k' v'] & [= -> ->] & H). apply list_elem_of_filter in H as [Hp H]. cbn in *.
      apply HasPrefix_inv in Hp as [a ->]. rewrite drop_app_length. by apply elem_of_map_to_list in H.
    + intros H. exists (p ++ k, v). cbn. rewrite drop_app_length. split; [done|].
      apply list_elem_of_filter. split; [apply HasPrefix_app|]. by apply elem_of_map_to_list.
  - rewrite <- list_fmap_compose.
    replace (compose fst (fun kv : bytes * bytes => (drop (length p) kv.1, kv.2))) with
      (compose (drop (length p)) (@fst bytes bytes)) by done.
    rewrite list_fmap_compose. apply NoDup_fmap_2_strong.
    + intros a b Ha Hb E. apply list_elem_of_fmap in Ha as ([a' ?] & -> & Ha), Hb as ([b' ?] & -> & Hb).
      apply list_elem_of_filter in Ha as [Ha _], Hb as [Hb _]. cbn in *.
      apply HasPrefix_inv in Ha as [x ->], Hb as [y ->]. rewrite !drop_app_length in E. by rewrite E.
    + apply (sublist_NoDup _ (map_to_list m).*1); [apply keys_nodup|]. apply fmap_sublist, sublist_filter.
Qed.

Lemma lookup_strip p m k : strip p m !! k = m !! (p ++ k).
Proof. apply option_eq. intros v. apply strip_Some. Qed.

Lemma strip_insert p m k v : strip p (<[p ++ k := v]> m) = <[k := v]> (strip p m).
Proof.
  apply map_eq. intros j. rewrite lookup_strip. destruct (decide (j = k)) as [->|N].
  - by rewrite !lookup_insert_eq.
  - rewrite !lookup_insert_ne, lookup_strip by (intros ?; simplify_eq); done.
Qed.

Lemma strip_delete p m k : strip p (delete (p ++ k) m) = delete k (strip p m).
Proof.
  apply map_eq. intros j. rewrite lookup_strip. destruct (decide (j = k)) as [->|N].
  - by rewrite !lookup_delete_eq.
  - rewrite !lookup_delete_ne, lookup_strip by (intros ?; simplify_eq); done.
Qed.

(** An operation on the namespace, in the database. *)
Definition prefix_op (p : bytes) (op : operation) : operation :=
  match op with
  | opTypeSet k v => opTypeSet (Some (p ++ nonNilBytes k)) v
  | opTypeDelete k => opTypeDelete (Some (p ++ nonNilBytes k))
  end.

Lemma strip_op p m op : strip p (apply_op m (prefix_op p op)) = apply_op (strip p m) op.
Proof. destruct op; [apply strip_insert|apply strip_delete]. Qed.

Lemma strip_ops p l : forall m, strip p (apply_ops (prefix_op p <$> l) m) = apply_ops l (strip p m).
Proof.
  unfold apply_ops. induction l as [|op l IH]; intros m; [done|]. cbn [fmap list_fmap fold_left].
  by rewrite IH, strip_op.
Qed.

(** A sorted list in which the elements with a property come first. *)
Lemma sorted_split {A} (R : relation A) (P : A -> bool) l : StronglySorted R l ->
  (forall x y, x ∈ l -> y ∈ l -> P x = true -> P y = false -> ~ R y x) ->
  exists l1 l2, l = l1 ++ l2 /\ Forall (fun x => P x = true) l1 /\ Forall (fun x => P x = false) l2.
Proof.
  induction 1 as [|x l Hs IH Hx]; intros Hl; [by exists [], []|].
  destruct (P x) eqn:Px.
  - destruct IH as (l1 & l2 & -> & H1 & H2); [intros; apply Hl; auto; by right|].
    exists (x :: l1), l2. split_and!; [done| |done]. by constructor.
  - exists [], (x :: l). split_and!; [done|done|]. constructor; [done|]. rewrite Forall_forall in Hx |- *.
    intros y Hy. destruct (P y) eqn:Py; [|done]. exfalso. eapply (Hl y x); auto; [by right|by left].
Qed.

(** The keys of a namespace in its database. *)
Definition add_prefix (p : bytes) (l : list (bytes * bytes)) : list (bytes * bytes) :=
  (fun kv => (p ++ kv.1, kv.2)) <$> l.

(** A listing of the database in which the keys of the namespace come first is a listing of the namespace. *)
Lemma lists_prefix p m (dom dom' : bytes -> Prop) r L : lists_in m dom' r L ->
  (forall k, dom' (p ++ k) <-> dom k) ->
  (forall c, c ∈ L.*1 -> HasPrefix c p = false -> forall a, ~ key_order r c (p ++ a)) ->
  exists l rest, L = add_prefix p l ++ rest /\ lists_in (strip p m) dom r l /\
    Forall (fun kv => HasPrefix kv.1 p = false) rest.
Proof.
  intros [Hs He] Hd Ho.
  assert (StronglySorted (fun a b : bytes * bytes => key_order r a.1 b.1) L) as HS.
  { clear -Hs. induction L as [|x L IH]; [constructor|]. rewrite fmap_cons in Hs. apply StronglySorted_inv in Hs as [Hs Hx].
    constructor; [by apply IH|]. by rewrite Forall_fmap in Hx. }
  destruct (sorted_split _ (fun kv => HasPrefix kv.1 p) L HS) as (L1 & rest & EL & H1 & H2).
  { intros x y Hx Hy Px Py. apply HasPrefix_inv in Px as [a Ea]. rewrite Ea. apply Ho; [|done].
    by apply list_elem_of_fmap_2. }
  set (l := (fun kv => (drop (length p) kv.1, kv.2)) <$> L1).
  assert (L1 = add_prefix p l) as E1.
  { unfold l, add_prefix. rewrite <- list_fmap_compose. clear -H1. induction H1 as [|[k v] L1 Hk H1 IH]; [done|].
    cbn. rewrite <- IH. apply HasPrefix_inv in Hk as [a Ea]. cbn in Ea. subst k. by rewrite drop_app_length. }
  exists l, rest. rewrite <- E1. split_and!; [done| |done]. split.
  - rewrite EL, fmap_app, E1 in Hs. apply StronglySorted_app in Hs as (_ & Hs & _).
    clear -Hs. unfold add_prefix in Hs. rewrite <- list_fmap_compose in Hs.
    induction l as [|x l IH]; [constructor|]. rewrite fmap_cons in Hs |- *. apply StronglySorted_inv in Hs as [Hs Hx].
    constructor; [by apply IH|]. rewrite Forall_fmap in Hx |- *. eapply Forall_impl; [exact Hx|].
    intros y. cbn. unfold key_order, flip, key_lt. destruct r; by rewrite Compare_app.
  - intros k v. rewrite strip_Some, <- Hd, <- He, EL, elem_of_app, E1. unfold add_prefix. rewrite list_elem_of_fmap.
    split.
    + intros Hk. left. by exists (k, v).
    + intros [([k' v'] & [= Ek ->] & Hk)|Hk].
      * apply app_inv_head in Ek as ->. done.
      * rewrite Forall_forall in H2. specialize (H2 _ Hk). cbn in H2. by rewrite HasPrefix_app in H2.
Qed.

Lemma between_incr q x c : 0 <= x < 255 -> key_le (q ++ [x]) c -> key_lt c (q ++ [x + 1]) ->
  HasPrefix c (q ++ [x]) = true.
Proof.
  intros Hx. unfold key_le, key_lt. revert c. induction q as [|y q IH]; intros [|z c]; cbn; try lia.
  - destruct (decide (z = x)) as [->|N]; [rewrite Z.eqb_refl; by destruct c|].
    destruct (Z.ltb_spec x z), (Z.ltb_spec z x), (Z.ltb_spec z (x + 1)), (Z.ltb_spec (x + 1) z); try lia.
    destruct c; cbn; lia.
  - destruct (Z.ltb_spec y z), (Z.ltb_spec z y); try lia. assert (z = y) as -> by lia.
    rewrite Z.eqb_refl. apply IH.
Qed.

(** The prefixes for which descending iteration works. *)
Definition good_prefix (p : bytes) : Prop := bytes_ok p /\ exists q x, p = q ++ [x] /\ x < 255.

Lemma good_prefix_nonempty p : good_prefix p -> p <> [].
Proof. intros [_ (q & x & -> & _)] E. by destruct q. Qed.

Lemma cpIncr_good q x : 0 <= x < 255 -> cpIncr (q ++ [x]) = Ok (Some (q ++ [x + 1])).
Proof.
  intros Hx. unfold cpIncr, cp. rewrite zlen_app, zlen_cons, zlen_nil.
  pose proof (zlen_nonneg q). rewrite (proj2 (Z.eqb_neq _ _)) by lia.
  rewrite length_app, Nat.add_1_r. cbn [incr_loop].
  rewrite app_nth2, Nat.sub_diag by lia. cbn [nth]. rewrite (proj2 (Z.ltb_lt x 255)) by lia.
  rewrite insert_app_r_alt, Nat.sub_diag by lia. cbn. by rewrite uN_id by (unfold in_uN; lia).
Qed.

Lemma some_all (o : obytes) (P : bytes -> Prop) :
  (forall x, o = Some x -> P x) <-> match o with Some x => P x | None => True end.
Proof. destruct o as [x|]; split; auto; intros H; [intros ? [= <-]; done|done]. Qed.

Lemma key_lt_prefix p a b : key_lt (p ++ a) (p ++ b) <-> key_lt a b.
Proof. unfold key_lt. by rewrite Compare_app. Qed.

Lemma key_le_prefix p a b : key_le (p ++ a) (p ++ b) <-> key_le a b.
Proof. unfold key_le. by rewrite Compare_app. Qed.

Section prefix_laws.
Context {D I B : Type} (H : DB D I B) (L : DBLaws H).

Definition no_prefix (p : bytes) (l : list (bytes * bytes)) : Prop := Forall (fun kv => HasPrefix kv.1 p = false) l.

(** The source is ahead of the keys outside the namespace, and closed when it reaches them. *)
Definition prefix_iterates (pdb : prefixDB D) (itr : prefixIterator I) (l : list (bytes * bytes)) : Prop :=
  pi_prefix itr = prefix pdb /\
  (valid itr = false /\ l = [] /\ (exists l', iterates (pdb_db pdb) (source itr) l') \/
   valid itr = true /\ exists rest, iterates (pdb_db pdb) (source itr) (add_prefix (prefix pdb) l ++ rest) /\
     no_prefix (prefix pdb) rest /\ (l = [] -> rest = [])).

Lemma leaves_prefix_spec d p src l rest : iterates d src (add_prefix p l ++ rest) -> no_prefix p rest ->
  leaves_prefix src p = Ok (bool_decide (l = [])).
Proof.
  intros Hi Hr. unfold leaves_prefix. rewrite (iterates_Valid _ _ _ Hi).
  destruct l as [|[k v] l]; cbn [add_prefix fmap list_fmap app] in *.
  - destruct rest as [|[c w] rest]; [done|]. rewrite bool_decide_true by done. cbn [negb].
    rewrite (iterates_Key _ _ _ _ _ Hi). apply Forall_cons in Hr as [Hc _]. cbn in Hc. by rewrite Hc.
  - rewrite bool_decide_true by done. cbn [negb fst snd]. rewrite (iterates_Key _ _ _ _ _ Hi).
    by rewrite HasPrefix_app.
Qed.

Lemma newPrefixIterator_spec pdb s e src l rest :
  iterates (pdb_db pdb) src (add_prefix (prefix pdb) l ++ rest) -> no_prefix (prefix pdb) rest ->
  exists itr, newPrefixIterator (prefix pdb) s e src = Ok itr /\ prefix_iterates pdb itr l.
Proof.
  intros Hi Hr. unfold newPrefixIterator. rewrite (leaves_prefix_spec _ _ _ _ _ Hi Hr).
  eexists. split; [reflexivity|]. split; [done|]. cbn. case_bool_decide as E.
  - left. subst l. eauto.
  - right. split; [done|]. exists rest. by split_and!.
Qed.

Lemma prefix_iterates_Valid pdb itr l : prefix_iterates pdb itr l -> prefix_Valid itr = bool_decide (l <> []).
Proof.
  intros [_ [(V & -> & _)|(V & rest & Hi & Hr & He)]]; unfold prefix_Valid; rewrite V; [done|]. cbn [andb].
  rewrite (iterates_Valid _ _ _ Hi). destruct l as [|[k v] l]; [|done]. by rewrite (He eq_refl).
Qed.

Lemma prefix_iterates_cons pdb itr k v l : prefix_iterates pdb itr ((k, v) :: l) ->
  valid itr = true /\ it_Key (source itr) = Ok (prefix pdb ++ k) /\ it_Value (pdb_db pdb) (source itr) = Ok (Some v) /\
  exists itr', prefix_Next itr = Ok itr' /\ prefix_iterates pdb itr' l.
Proof.
  intros [Hp [(_ & ? & _)|(V & rest & Hi & Hr & _)]]; [done|].
  cbn [add_prefix fmap list_fmap app fst snd] in Hi.
  split; [done|]. split; [exact (iterates_Key _ _ _ _ _ Hi)|]. split; [exact (iterates_Value _ _ _ _ _ Hi)|].
  destruct (iterates_Next _ _ _ _ _ Hi) as (src & En & Hs). unfold prefix_Next. rewrite V, En, Hp. cbn [negb].
  rewrite (leaves_prefix_spec _ _ _ _ _ Hs Hr). case_bool_decide as E; (eexists; split; [reflexivity|]); (split; [done|]);
    right; (split; [done|]); cbn [source set_it].
  - subst l. exists []. split_and!; [exact (iterates_Close _ _ _ Hs)|constructor|done].
  - exists rest. by split_and!.
Qed.

Lemma prefix_iterates_end pdb itr : prefix_iterates pdb itr [] ->
  prefix_Next itr = Panic /\ prefix_Key itr = Panic /\ prefix_Value pdb itr = Panic.
Proof.
  unfold prefix_Next, prefix_Key, prefix_Value.
  intros [_ [(-> & _)|(-> & rest & Hi & Hr & He)]]; [done|]. rewrite (He eq_refl) in Hi. cbn [negb].
  by destruct (iterates_end _ _ Hi) as (-> & -> & ->).
Qed.

Lemma prefix_iterates_Close pdb itr l : prefix_iterates pdb itr l -> prefix_iterates pdb (prefix_Close itr) [].
Proof.
  intros [Hp Hv]. split; [done|]. destruct Hv as [(V & _ & l' & Hi)|(V & rest & Hi & _)]; [left|right]; (split; [done|]).
  - split; [done|]. exists []. exact (iterates_Close _ _ _ Hi).
  - exists []. split_and!; [exact (iterates_Close _ _ _ Hi)|constructor|done].
Qed.

Lemma prefix_Iterator_lists pdb s e : prefix pdb <> [] -> bytes_ok (prefix pdb) -> db_ok (pdb_db pdb) ->
  exists itr l, prefix_Iterator pdb s e = Ok itr /\ prefix_iterates pdb itr l /\
    lists (strip (prefix pdb) (contents (pdb_db pdb))) s e false l.
Proof.
  intros Hp Hb Hok. unfold prefix_Iterator, cp. set (p := prefix pdb) in *.
  assert (exists pend, match e with None => cpIncr p | Some e => Ok (Some (p ++ e)) end = Ok pend /\
    forall k, (forall x, pend = Some x -> key_lt (p ++ k) x) <-> forall x, e = Some x -> key_lt k x) as (pend & -> & He).
  { destruct e as [e|].
    - eexists. split; [done|]. intros k. rewrite !some_all. apply key_lt_prefix.
    - destruct (cpIncr_above p Hp Hb) as (o & Eo & Ho). exists o. split; [done|]. split; [done|]. auto. }
  destruct (Iterator_lists (pdb_db pdb) (Some (p ++ nonNilBytes s)) pend Hok) as (src & Ls & -> & Hi & HL).
  destruct (lists_prefix p _ (in_domain s e false) _ _ _ HL) as (l & rest & -> & Hl & Hr).
  - intros k. cbv beta iota delta [in_domain]. rewrite He.
    change (nonNilBytes (Some ?x)) with x. by rewrite key_le_prefix.
  - intros c Hc Hn a Hlt. destruct HL as [_ HL]. apply list_elem_of_fmap in Hc as ([c' w] & -> & Hc).
    apply HL in Hc as [_ [Hle _]]. cbn in Hle, Hn, Hlt.
    apply (key_lt_irrefl c'), (key_lt_trans _ (p ++ a)); [done|]. apply above_prefix; [done|].
    transitivity (p ++ nonNilBytes s); [|done]. rewrite <- (app_nil_r p) at 1. apply key_le_prefix, key_le_nil.
  - destruct (newPrefixIterator_spec pdb s e src l rest Hi Hr) as (itr & E & Hit). by exists itr, l.
Qed.

(** Descending, with the first key skipped when it is just above the namespace. *)
Lemma skipOne_spec d src Ls m dom r : iterates d src Ls -> lists_in m dom true Ls ->
  (forall k, dom k -> key_le k r) ->
  exists src' Ls', skipOne src (Some r) = Ok src' /\ iterates d src' Ls' /\
    lists_in m (fun k => dom k /\ k <> r) true Ls'.
Proof.
  intros Hi [Hs He] Hle. unfold skipOne. rewrite (iterates_Valid _ _ _ Hi).
  change (nonNilBytes (Some r)) with r. destruct Ls as [|[k v] Ls].
  { rewrite bool_decide_false by tauto. exists src, []. split_and!; [done..|]. split; [constructor|].
    intros k v. split; [by intros ?%elem_of_nil|]. intros (Hm & Hd & _). by apply He. }
  rewrite bool_decide_true by done. rewrite (iterates_Key _ _ _ _ _ Hi).
  rewrite fmap_cons in Hs. apply StronglySorted_inv in Hs as [Hs Hk]. cbn [fst] in *.
  assert (forall c w, (c, w) ∈ Ls -> key_lt c k) as Hlt.
  { intros c w Hc. rewrite Forall_forall in Hk. apply (Hk c). by apply (list_elem_of_fmap_2 fst _ (c, w)). }
  case_bool_decide as E.
  - subst k. destruct (iterates_Next _ _ _ _ _ Hi) as (src' & -> & Hi'). exists src', Ls. split_and!; [done..|].
    split; [done|]. intros c w. specialize (He c w). rewrite elem_of_cons in He. split.
    + intros Hc. assert (c <> r) by (intros ->; by eapply key_lt_irrefl, Hlt). tauto.
    + intros (Hm & Hd & Hn). destruct (proj2 He (conj Hm Hd)) as [[= ]|?]; done.
  - exists src, ((k, v) :: Ls). split_and!; [done..|]. split; [rewrite fmap_cons; by constructor|].
    intros c w. split; [|intros (Hm & Hd & _); by apply He]. intros Hc. pose proof (proj1 (He c w) Hc) as [Hm Hd].
    split_and!; [done..|]. intros ->. apply elem_of_cons in Hc as [[= -> ->]|Hc]; [done|].
    apply (key_lt_irrefl k). assert (key_le k r) as [->|Hkr]%key_le_cases; [|done|].
    + apply (Hle k). apply (He k v). by left.
    + exact (key_lt_trans _ _ _ Hkr (Hlt _ _ Hc)).
Qed.
(** Where descending iteration starts. *)
Lemma reverse_start pdb s pend : good_prefix (prefix pdb) -> db_ok (pdb_db pdb) ->
  exists src Ls, (let* pstart := match s with None => cpIncr (prefix pdb) | Some s => Ok (Some (prefix pdb ++ s)) end in
     let* ritr := db_ReverseIterator (pdb_db pdb) pstart pend in
     match s with None => let* skip := cpIncr (prefix pdb) in skipOne ritr skip | Some _ => Ok ritr end) = Ok src /\
   iterates (pdb_db pdb) src Ls /\
   exists dom, lists_in (contents (pdb_db pdb)) dom true Ls /\
     (forall k, dom (prefix pdb ++ k) <-> (forall x, s = Some x -> key_le k x) /\
        forall x, pend = Some x -> key_lt x (prefix pdb ++ k)) /\
     (forall c, dom c -> HasPrefix c (prefix pdb) = false -> forall a, ~ key_lt (prefix pdb ++ a) c).
Proof.
  intros [Hb (q & x & Ep & Hx)] Hok. set (p := prefix pdb) in *.
  assert (0 <= x) as Hx0 by (rewrite Ep in Hb; apply bytes_ok_app in Hb as [_ Hb]; apply bytes_ok_cons in Hb as [[? _] _]; done).
  destruct s as [s|].
  - destruct (ReverseIterator_lists (pdb_db pdb) (Some (p ++ s)) pend Hok) as (src & Ls & -> & Hi & HL).
    exists src, Ls. split_and!; [done..|]. eexists. split; [exact HL|]. split.
    + intros k. unfold in_domain. by rewrite !some_all, key_le_prefix.
    + intros c [Hc _] Hn a Ha. specialize (Hc _ eq_refl). destruct (outside_prefix p c Hn) as [K|K].
      * eapply key_lt_irrefl, key_lt_trans; [apply K|exact Ha].
      * apply (key_not_lt (p ++ s) c) in Hc. exact (Hc (K s)).
  - assert (cpIncr p = Ok (Some (q ++ [x + 1]))) as Ei by (rewrite Ep; apply cpIncr_good; lia). rewrite Ei.
    destruct (ReverseIterator_lists (pdb_db pdb) (Some (q ++ [x + 1])) pend Hok) as (src & Ls & -> & Hi & HL).
    destruct (skipOne_spec _ _ _ _ _ (q ++ [x + 1]) Hi HL) as (src' & Ls' & E & Hi' & HL').
    { intros k [Hk _]. by apply Hk. }
    exists src', Ls'. split_and!; [done..|]. eexists. split; [exact HL'|].
    assert (forall k, key_lt (p ++ k) (q ++ [x + 1])) as Hup.
    { intros k. rewrite Ep, <- app_assoc. apply key_lt_prefix. unfold key_lt. cbn.
      by rewrite (proj2 (Z.ltb_lt x (x + 1))) by lia. }
    split.
    + intros k. unfold in_domain. rewrite !some_all. split; [tauto|]. intros [_ Hk]. split_and!; [|done|].
      * apply key_le_cases. by right.
      * intros E'. specialize (Hup k). rewrite E' in Hup. by apply key_lt_irrefl in Hup.
    + intros c [[Hc _] Hne] Hn a Ha. specialize (Hc _ eq_refl). apply key_le_cases in Hc as [?|Hc]; [done|].
      assert (key_le p c) as Hpc.
      { apply key_le_cases. right. destruct (outside_prefix p c Hn) as [K|K]; [|specialize (K []); by rewrite app_nil_r in K].
        exfalso. eapply key_lt_irrefl, key_lt_trans; [apply K|exact Ha]. }
      rewrite Ep in Hpc, Hn. by rewrite (between_incr q x c) in Hn by (done || lia).
Qed.

Lemma prefix_ReverseIterator_lists pdb s e : good_prefix (prefix pdb) -> db_ok (pdb_db pdb) ->
  exists itr l, prefix_ReverseIterator pdb s e = Ok itr /\ prefix_iterates pdb itr l /\
    lists (strip (prefix pdb) (contents (pdb_db pdb))) s e true l.
Proof.
  intros Hg Hok. pose proof (good_prefix_nonempty _ Hg) as Hp. unfold prefix_ReverseIterator, cp.
  assert (exists pend, match e with None => cpDecr (prefix pdb) | Some e => Ok (Some (prefix pdb ++ e)) end = Ok pend /\
    forall k, (forall x, pend = Some x -> key_lt x (prefix pdb ++ k)) <-> forall x, e = Some x -> key_lt x k) as (pend & -> & He).
  { destruct e as [e|].
    - eexists. split; [done|]. intros k. rewrite !some_all. apply key_lt_prefix.
    - destruct (cpDecr_below _ Hp (proj1 Hg)) as (o & Eo & Ho). exists o. split; [done|]. intros k. split; [done|].
      intros _ x Ex. apply (key_lt_trans' _ (prefix pdb)); [by apply Ho|]. rewrite <- (app_nil_r (prefix pdb)) at 1.
      apply key_le_prefix, key_le_nil. }
  destruct (reverse_start pdb s pend Hg Hok) as (src & Ls & Es & Hi & dom & HL & Hd & Hn).
  destruct (lists_prefix (prefix pdb) _ (in_domain s e true) _ _ _ HL) as (l & rest & -> & Hl & Hr).
  - intros k. rewrite Hd, He. done.
  - intros c Hc Hp' a. apply list_elem_of_fmap in Hc as ([c' w] & -> & Hc).
    destruct HL as [_ HL]. apply HL in Hc as [_ Hc]. by apply Hn.
  - destruct (newPrefixIterator_spec pdb s e src l rest Hi Hr) as (itr & E & Hit).
    exists itr, l. split_and!; [|done..]. revert Es.
    destruct (match s with None => _ | Some _ => _ end) as [pstart| | |]; [|done..].
    destruct (db_ReverseIterator _ pstart pend) as [ritr| | |]; [|done..]. by intros ->.
Qed.
End prefix_laws.

#[export] Instance prefixDB_laws {D I B} (H : DB D I B) (L : DBLaws H) : DBLaws (@prefixDB_DB D I B H).
Proof.
  refine {|
    db_ok pdb := good_prefix (prefix pdb) /\ db_ok (pdb_db pdb);
    contents pdb := strip (prefix pdb) (contents (pdb_db pdb));
    iterates := prefix_iterates H L;
    pending pdb b l := pb_prefix b = prefix pdb /\ pending (pdb_db pdb) (pb_source b) (prefix_op (prefix pdb) <$> l) |}.
  - intros pdb k. rewrite lookup_strip. exact (Get_contents (pdb_db pdb) (Some (prefixed pdb k))).
  - intros pdb k. rewrite lookup_strip. exact (Has_contents (pdb_db pdb) (Some (prefixed pdb k))).
  - intros pdb op pdb' [Hg Hok] Hst.
    assert (exists d', pdb' = set_source pdb d' /\ db_step (pdb_db pdb) (prefix_op (prefix pdb) op) d') as (d' & -> & Hd)
      by (inversion Hst; eexists; (split; [reflexivity|]); constructor).
    destruct (step_contents _ _ _ Hok Hd) as [Hok' E]. split; [done|]. cbn. by rewrite E, strip_op.
  - intros pdb s e [Hg Hok]. apply prefix_Iterator_lists; [by apply good_prefix_nonempty|apply Hg|done].
  - intros pdb s e [Hg Hok]. by apply prefix_ReverseIterator_lists.
  - apply prefix_iterates_Valid.
  - intros pdb i k v l (_ & _ & _ & Hn)%prefix_iterates_cons. exact Hn.
  - intros pdb i k v l Hi. pose proof Hi as [Hp _]. apply prefix_iterates_cons in Hi as (V & K & _). cbn.
    unfold prefix_Key. rewrite V, K, Hp. cbn [negb]. unfold stripPrefix.
    rewrite zlen_app, (proj2 (Z.ltb_ge _ _)) by (pose proof (zlen_nonneg k); lia).
    by rewrite take_app_length, bool_decide_true, drop_app_length.
  - intros pdb i k v l (V & _ & K & _)%prefix_iterates_cons. cbn. unfold prefix_Value. by rewrite V, K.
  - apply prefix_iterates_end.
  - apply prefix_iterates_Close.
  - intros pdb. split; [done|]. apply NewBatch_pending.
  - intros pdb b l k v [Hp Hl]. split; [done|]. rewrite fmap_app, <- Hp in *. by apply b_Set_pending.
  - intros pdb b l k [Hp Hl]. split; [done|]. rewrite fmap_app, <- Hp in *. by apply b_Delete_pending.
  - intros pdb op pdb' b l Hst [Hp Hl]. inversion Hst; (split; [done|]); (eapply step_pending; [|exact Hl]); constructor.
  - intros pdb b l [Hg Hok] [Hp Hl]. destruct (Write_contents _ _ _ Hok Hl) as [[O1 E1] [O2 E2]]. cbn.
    by rewrite E1, E2, !strip_ops.
Defined.

(** ** Iterating *)

(** The loop of the documentation of [Iterator]: [for ; itr.Valid(); itr.Next() { itr.Key(); itr.Value() }]. *)
Fixpoint visit {D I B} `{!DB D I B} (fuel : nat) (d : D) (itr : I) : res unit (list (bytes * obytes)) :=
  match fuel with
  | O => NoFuel
  | S fuel' =>
      if it_Valid itr then
        let* k := it_Key itr in
        let* v := it_Value d itr in
        let* itr := it_Next itr in
        let* l := visit fuel' d itr in
        Ok ((k, v) :: l)
      else Ok []
  end.

Lemma visit_spec {D I B} (H : DB D I B) (L : DBLaws H) d l : forall i n, iterates d i l -> (length l < n)%nat ->
  visit n d i = Ok ((fun kv => (kv.1, Some kv.2)) <$> l).
Proof.
  induction l as [|[k v] l IH]; intros i [|n] Hi Hn; cbn in Hn; try lia; cbn [visit];
    rewrite (iterates_Valid _ _ _ Hi); [done|]. rewrite bool_decide_true by done.
  rewrite (iterates_Key _ _ _ _ _ Hi), (iterates_Value _ _ _ _ _ Hi).
  destruct (iterates_Next _ _ _ _ _ Hi) as (i' & -> & Hi'). by rewrite (IH i' n Hi' ltac:(lia)).
Qed.

(** What a database with the entries [m] shows. *)
Definition shows {D I B} `{!DB D I B} (d : D) (m : gmap bytes bytes) : Prop :=
  (forall k, db_Get d k = m !! nonNilBytes k) /\
  (forall k, db_Has d k = bool_decide (is_Some (m !! nonNilBytes k))) /\
  (forall start end_, exists l, lists m start end_ false l /\ forall n, (length l < n)%nat ->
     (let* itr := db_Iterator d start end_ in visit n d itr) = Ok ((fun kv => (kv.1, Some kv.2)) <$> l)) /\
  (forall start end_, exists l, lists m start end_ true l /\ forall n, (length l < n)%nat ->
     (let* itr := db_ReverseIterator d start end_ in visit n d itr) = Ok ((fun kv => (kv.1, Some kv.2)) <$> l)).

Lemma laws_show {D I B} (H : DB D I B) (L : DBLaws H) d : db_ok d -> shows d (contents d).
Proof.
  intros Hok. split_and!.
  - apply Get_contents.
  - apply Has_contents.
  - intros s e. destruct (Iterator_lists d s e Hok) as (i & l & -> & Hi & Hl). exists l. split; [done|].
    intros n Hn. by apply (visit_spec H L).
  - intros s e. destruct (ReverseIterator_lists d s e Hok) as (i & l & -> & Hi & Hl). exists l. split; [done|].
    intros n Hn. by apply (visit_spec H L).
Qed.

(** A batch of operations, as a program calls it. *)
Definition batch_of {D I B} `{!DB D I B} (d : D) (l : list operation) : B :=
  fold_left (fun b op => match op with opTypeSet k v => b_Set b k v | opTypeDelete k => b_Delete b k end) l (db_NewBatch d).

Lemma batch_of_pending {D I B} (H : DB D I B) (L : DBLaws H) d l : pending d (batch_of d l) l.
Proof.
  unfold batch_of. induction l as [|op l IH] using rev_ind; [apply NewBatch_pending|].
  rewrite fold_left_app. cbn [fold_left]. destruct op; [by apply b_Set_pending|by apply b_Delete_pending].
Qed.

(** C24: the memory database is a finite map: reads, writes, deletions and batches act on
    the map, and the documented loop over an iterator visits exactly the entries of its
    domain, each once, in ascending (reverse: descending) order of the keys, and ends;
    the order in which Go iterates over the underlying map does not matter. *)
Theorem MemDB_refines (d : MemDB) (op : operation) (l : list operation) (d' : MemDB) : db_step d op d' ->
  shows d (db d) /\ db d' = apply_op (db d) op /\
  (db (b_Write (batch_of d l) d') = apply_ops l (db d') /\ db (b_WriteSync (batch_of d l) d') = apply_ops l (db d')) /\
  forall ks s e r, ks ≡ₚ (map_to_list (db d)).*1 -> sorted_keys ks s e r = getSortedKeys d s e r.
Proof.
  intros Hs. split; [exact (laws_show _ MemDB_laws d I)|]. split; [exact (proj2 (step_contents d op d' I Hs))|].
  split; [|intros; by apply sorted_keys_perm].
  pose proof (step_pending _ _ _ _ _ Hs (batch_of_pending _ MemDB_laws d l)) as Hp.
  by destruct (@Write_contents _ _ _ _ MemDB_laws d' _ _ I Hp) as [[_ ?] [_ ?]].
Qed.

Lemma MemDB_refines_witness : shows NewMemDB ∅.
Proof.
  exact (proj1 (MemDB_refines NewMemDB (opTypeDelete None) [] _ (step_Delete NewMemDB None))).
Defined.

(** C23: a namespace over a database that keeps the contract of the interface keeps it
    again, when the last byte of its prefix is not 0xff: it is the map of the entries with
    the prefix, without it, for reads, writes, batches and iterators in both directions.
    So do namespaces of namespaces. *)
Theorem prefixDB_refines {D I B} (H : DB D I B) (L : DBLaws H) (pdb pdb' : prefixDB D) op l :
  good_prefix (prefix pdb) -> db_ok (pdb_db pdb) -> db_step pdb op pdb' ->
  let m := strip (prefix pdb) (contents (pdb_db pdb)) in
  (forall k, m !! k = contents (pdb_db pdb) !! (prefix pdb ++ k)) /\
  shows pdb m /\ shows pdb' (apply_op m op) /\ shows (b_Write (batch_of pdb l) pdb) (apply_ops l m).
Proof.
  intros Hg Hok Hs m. assert (db_ok pdb) as Hpok by (split; assumption).
  split; [intros k; apply lookup_strip|]. split; [exact (laws_show _ _ pdb Hpok)|].
  destruct (step_contents pdb op pdb' Hpok Hs) as [Hok' E'].
  destruct (Write_contents pdb _ _ Hpok (batch_of_pending _ _ pdb l)) as [[Hokb Eb] _].
  change m with (contents pdb). rewrite <- E', <- Eb. split; by apply laws_show.
Qed.

Definition two_keys : MemDB := MemDB_Set (MemDB_Set NewMemDB (Some [97; 255; 1]) (Some [1])) (Some [98]) (Some [2]).

Lemma prefixDB_refines_witness : shows (NewPrefixDB two_keys [97]) (strip [97] (db two_keys)).
Proof.
  refine (proj1 (proj2 (prefixDB_refines MemDB_DB MemDB_laws (NewPrefixDB two_keys [97]) _ (opTypeDelete None) [] _ I
    (step_Delete _ None)))).
  split; [apply (bool_decide_unpack _); vm_compute; exact I|]. by exists [], 97.
Defined.

(** Writing in a namespace does not change what another namespace of the same
    database shows, when neither prefix is a prefix of the other one. *)
Theorem prefixDB_isolated {D I B} (H : DB D I B) (L : DBLaws H) (d : D) p q op pdb' : db_ok d ->
  good_prefix p -> good_prefix q -> HasPrefix p q = false -> HasPrefix q p = false ->
  db_step (NewPrefixDB d p) op pdb' ->
  shows (NewPrefixDB (pdb_db pdb') q) (strip q (contents d)) /\ shows (NewPrefixDB d q) (strip q (contents d)).
Proof.
  intros Hok Hp Hq Npq Nqp Hs.
  assert (forall k j, p ++ k <> q ++ j) as Hne.
  { intros k j E. destruct (prefix_comparable p q k j E) as [K|K]; congruence. }
  assert (exists d', pdb_db pdb' = d' /\ db_step d (prefix_op p op) d') as (d' & -> & Hd)
    by (inversion Hs; eexists; (split; [reflexivity|]); constructor).
  destruct (step_contents _ _ _ Hok Hd) as [Hok' E].
  assert (strip q (contents d') = strip q (contents d)) as Es.
  { apply map_eq. intros j. rewrite !lookup_strip, E. destruct op; cbn; [by rewrite lookup_insert_ne|by rewrite lookup_delete_ne]. }
  split; [rewrite <- Es|]; refine (laws_show _ (prefixDB_laws H L) (NewPrefixDB _ q) _); by split.
Qed.

Lemma prefixDB_isolated_witness :
  shows (NewPrefixDB (pdb_db (db_Set (NewPrefixDB two_keys [98]) (Some [5]) None)) [97]) (strip [97] (db two_keys)).
Proof.
  refine (proj1 (prefixDB_isolated MemDB_DB MemDB_laws two_keys [98] [97] (opTypeSet (Some [5]) None) _ I _ _ eq_refl
    eq_refl (step_Set _ (Some [5]) None))); (split; [apply (bool_decide_unpack _); vm_compute; exact I|]); by eexists [], _.
Defined.

(** Three cases in which prefixes go wrong.  With the prefix [a 0xff], [cpIncr] carries into
    the byte before and gives [b 0x00], so that [IteratePrefix] also visits the key [b] and a
    descending iterator of the namespace finds [b] first and is invalid, although the namespace
    has an entry.  With an empty prefix, an iterator without bounds panics. *)
Theorem prefix_ff_defects :
  (let* itr := IteratePrefix two_keys [97; 255] in visit 5 two_keys itr) =
    Ok [([97; 255; 1], Some [1]); ([98], Some [2])] /\
  prefix_Get (NewPrefixDB two_keys [97; 255]) (Some [1]) = Some [1] /\
  (let* itr := prefix_ReverseIterator (NewPrefixDB two_keys [97; 255]) None None in
   visit 5 (NewPrefixDB two_keys [97; 255]) itr) = Ok [] /\
  prefix_Iterator (NewPrefixDB two_keys []) None None = Panic.
Proof. split_and!; vm_compute; reflexivity. Qed.
