(* ===== verification/Clist.v ===== *)
(** * The concurrent linked list (src/tendermint/tmlibs/clist/clist.go)

    Elements, wait groups and channels live in a heap; a pointer is an index.  A wait
    group is its counter, a channel is whether it is closed; [Done] on a counter of 0 and
    [close] on a closed channel panic.  The methods of an element hold its lock for their
    whole body, so each one is a single step on the heap; the methods of the list hold the
    lock of the list and call the methods of elements one after the other ([micro]), and
    readers of elements can run in between.  A blocking reader ([NextWait], [PrevWait],
    [FrontWait], [BackWait]) is a small machine that reads, waits and reads again. *)

From S2P Require Import Prelude.

(** ** Data *)

Record CElement (V : Type) := {
  prev : option nat;
  prevWg : nat;
  prevWaitCh : nat;
  next : option nat;
  nextWg : nat;
  nextWaitCh : nat;
  removed : bool;
  Value : V;
}.
Arguments prev {V} _.
Arguments prevWg {V} _.
Arguments prevWaitCh {V} _.
Arguments next {V} _.
Arguments nextWg {V} _.
Arguments nextWaitCh {V} _.
Arguments removed {V} _.
Arguments Value {V} _.

Record heap (V : Type) := { elems : list (CElement V); wgs : list Z; chs : list bool }.
Arguments elems {V} _.
Arguments wgs {V} _.
Arguments chs {V} _.

Record CList := { wg : nat; waitCh : nat; head : option nat; tail : option nat; len : Z }.

Section clist.
Context {V : Type}.

(** ** The heap *)

(** [waitGroup1()] and [make(chan struct{})]. *)
Definition waitGroup1 (h : heap V) : nat * heap V :=
  (length (wgs h), {| elems := elems h; wgs := wgs h ++ [1]; chs := chs h |}).

Definition make_chan (h : heap V) : nat * heap V :=
  (length (chs h), {| elems := elems h; wgs := wgs h; chs := chs h ++ [false] |}).

Definition Done (w : nat) (h : heap V) : res unit (heap V) :=
  match wgs h !! w with
  | Some c => if c <=? 0 then Panic else Ok {| elems := elems h; wgs := <[w := c - 1]> (wgs h); chs := chs h |}
  | None => Panic
  end.

Definition close (c : nat) (h : heap V) : res unit (heap V) :=
  match chs h !! c with
  | Some false => Ok {| elems := elems h; wgs := wgs h; chs := <[c := true]> (chs h) |}
  | _ => Panic
  end.

(** A method call on a pointer: a nil or dangling pointer panics. *)
Definition on {A} (i : nat) (h : heap V) (k : CElement V -> res unit A) : res unit A :=
  match elems h !! i with Some e => k e | None => Panic end.

Definition put (i : nat) (e : CElement V) (h : heap V) : heap V :=
  {| elems := <[i := e]> (elems h); wgs := wgs h; chs := chs h |}.

(** ** Elements *)

Definition Next (i : nat) (h : heap V) : res unit (option nat) := on i h (fun e => Ok (next e)).
Definition Prev (i : nat) (h : heap V) : res unit (option nat) := on i h (fun e => Ok (prev e)).
Definition Removed (i : nat) (h : heap V) : res unit bool := on i h (fun e => Ok (removed e)).
Definition NextWaitChan (i : nat) (h : heap V) : res unit nat := on i h (fun e => Ok (nextWaitCh e)).
Definition PrevWaitChan (i : nat) (h : heap V) : res unit nat := on i h (fun e => Ok (prevWaitCh e)).

Definition with_next (e : CElement V) (n : option nat) : CElement V :=
  {| prev := prev e; prevWg := prevWg e; prevWaitCh := prevWaitCh e; next := n; nextWg := nextWg e;
     nextWaitCh := nextWaitCh e; removed := removed e; Value := Value e |}.

Definition with_nextWait (e : CElement V) (w c : nat) : CElement V :=
  {| prev := prev e; prevWg := prevWg e; prevWaitCh := prevWaitCh e; next := next e; nextWg := w;
     nextWaitCh := c; removed := removed e; Value := Value e |}.

Definition with_prev (e : CElement V) (p : option nat) : CElement V :=
  {| prev := p; prevWg := prevWg e; prevWaitCh := prevWaitCh e; next := next e; nextWg := nextWg e;
     nextWaitCh := nextWaitCh e; removed := removed e; Value := Value e |}.

Definition with_prevWait (e : CElement V) (w c : nat) : CElement V :=
  {| prev := prev e; prevWg := w; prevWaitCh := c; next := next e; nextWg := nextWg e;
     nextWaitCh := nextWaitCh e; removed := removed e; Value := Value e |}.

Definition with_removed (e : CElement V) : CElement V :=
  {| prev := prev e; prevWg := prevWg e; prevWaitCh := prevWaitCh e; next := next e; nextWg := nextWg e;
     nextWaitCh := nextWaitCh e; removed := true; Value := Value e |}.

Definition DetachNext (i : nat) (h : heap V) : res unit (heap V) :=
  let* r := Removed i h in
  if negb r then Panic else on i h (fun e => Ok (put i (with_next e None) h)).

Definition DetachPrev (i : nat) (h : heap V) : res unit (heap V) :=
  let* r := Removed i h in
  if negb r then Panic else on i h (fun e => Ok (put i (with_prev e None) h)).

Definition is_nil (p : option nat) : bool := match p with None => true | Some _ => false end.

Definition SetNext (i : nat) (newNext : option nat) (h : heap V) : res unit (heap V) :=
  on i h (fun e =>
    let oldNext := next e in
    let e := with_next e newNext in
    let h := put i e h in
    if negb (is_nil oldNext) && is_nil newNext then
      let (w, h) := waitGroup1 h in
      let (c, h) := make_chan h in
      Ok (put i (with_nextWait e w c) h)
    else if is_nil oldNext && negb (is_nil newNext) then
      let* h := Done (nextWg e) h in
      close (nextWaitCh e) h
    else Ok h).

Definition SetPrev (i : nat) (newPrev : option nat) (h : heap V) : res unit (heap V) :=
  on i h (fun e =>
    let oldPrev := prev e in
    let e := with_prev e newPrev in
    let h := put i e h in
    if negb (is_nil oldPrev) && is_nil newPrev then
      let (w, h) := waitGroup1 h in
      let (c, h) := make_chan h in
      Ok (put i (with_prevWait e w c) h)
    else if is_nil oldPrev && negb (is_nil newPrev) then
      let* h := Done (prevWg e) h in
      close (prevWaitCh e) h
    else Ok h).

Definition SetRemoved (i : nat) (h : heap V) : res unit (heap V) :=
  on i h (fun e =>
    let h := put i (with_removed e) h in
    let* h :=
      if is_nil (prev e) then let* h := Done (prevWg e) h in close (prevWaitCh e) h else Ok h in
    if is_nil (next e) then let* h := Done (nextWg e) h in close (nextWaitCh e) h else Ok h).

(** ** The list *)

Definition New (h : heap V) : CList * heap V :=
  let (w, h) := waitGroup1 h in
  let (c, h) := make_chan h in
  ({| wg := w; waitCh := c; head := None; tail := None; len := 0 |}, h).

Definition Len (l : CList) : Z := len l.
Definition Front (l : CList) : option nat := head l.
Definition Back (l : CList) : option nat := tail l.
Definition WaitChan (l : CList) : nat := waitCh l.

(** The calls of element methods a list operation makes. *)
Inductive micro :=
| MSetPrev (i : nat) (p : option nat)
| MSetNext (i : nat) (n : option nat)
| MSetRemoved (i : nat).

Definition exec (m : micro) (h : heap V) : res unit (heap V) :=
  match m with
  | MSetPrev i p => SetPrev i p h
  | MSetNext i n => SetNext i n h
  | MSetRemoved i => SetRemoved i h
  end.

Fixpoint run (ms : list micro) (h : heap V) : res unit (heap V) :=
  match ms with
  | [] => Ok h
  | m :: ms' => let* h := exec m h in run ms' h
  end.

(** [PushBack] up to its calls of [SetPrev] and [SetNext]; the fields of the list are read
    under its lock only, so that the place of the assignment to [l.tail] does not show. *)
Definition PushBack_enter (l : CList) (v : V) (h : heap V) : res unit (CList * nat * list micro * heap V) :=
  let (pw, h) := waitGroup1 h in
  let (pc, h) := make_chan h in
  let (nw, h) := waitGroup1 h in
  let (nc, h) := make_chan h in
  let e := {| prev := None; prevWg := pw; prevWaitCh := pc; next := None; nextWg := nw; nextWaitCh := nc;
              removed := false; Value := v |} in
  let i := length (elems h) in
  let h := {| elems := elems h ++ [e]; wgs := wgs h; chs := chs h |} in
  let* h := if len l =? 0 then let* h := Done (wg l) h in close (waitCh l) h else Ok h in
  let n := len l + 1 in
  match tail l with
  | None => Ok ({| wg := wg l; waitCh := waitCh l; head := Some i; tail := Some i; len := n |}, i, [], h)
  | Some t =>
      Ok ({| wg := wg l; waitCh := waitCh l; head := head l; tail := Some i; len := n |}, i,
          [MSetPrev i (Some t); MSetNext t (Some i)], h)
  end.

Definition PushBack (l : CList) (v : V) (h : heap V) : res unit (CList * nat * heap V) :=
  let* (l, i, ms, h) := PushBack_enter l v h in
  let* h := run ms h in
  Ok (l, i, h).

(** [Remove] up to its calls of [SetNext], [SetPrev] and [SetRemoved]. *)
Definition Remove_enter (l : CList) (i : nat) (h : heap V) : res unit (CList * list micro * heap V) :=
  let* prev := Prev i h in
  let* next := Next i h in
  if is_nil (head l) || is_nil (tail l) then Panic
  else if is_nil prev && negb (bool_decide (head l = Some i)) then Panic
  else if is_nil next && negb (bool_decide (tail l = Some i)) then Panic
  else
    let '(w, c, h) :=
      if len l =? 1 then
        let (w, h) := waitGroup1 h in
        let (c, h) := make_chan h in (w, c, h)
      else (wg l, waitCh l, h) in
    Ok ({| wg := w; waitCh := c; head := match prev with None => next | Some _ => head l end;
           tail := match next with None => prev | Some _ => tail l end; len := len l - 1 |},
        match prev with None => [] | Some p => [MSetNext p next] end ++
        match next with None => [] | Some n => [MSetPrev n prev] end ++
        [MSetRemoved i], h).

Definition Remove (l : CList) (i : nat) (h : heap V) : res unit (CList * V * heap V) :=
  let* (l, ms, h) := Remove_enter l i h in
  let* h := run ms h in
  on i h (fun e => Ok (l, Value e, h)).

(** ** Blocking readers *)

(** What [NextWait], [PrevWait], [FrontWait] and [BackWait] wait for. *)
Inductive slot := SNext (i : nat) | SPrev (i : nat) | SFront | SBack.

Inductive waiter :=
| Reading (s : slot)
| Waiting (s : slot) (w : nat)
| Returned (s : slot) (r : option nat).

(** The part of the loop under the read lock: the pointer, whether the element was removed, the wait group. *)
Definition read_slot (l : CList) (h : heap V) (s : slot) : res unit (option nat * bool * nat) :=
  match s with
  | SNext i => on i h (fun e => Ok (next e, removed e, nextWg e))
  | SPrev i => on i h (fun e => Ok (prev e, removed e, prevWg e))
  | SFront => Ok (head l, false, wg l)
  | SBack => Ok (tail l, false, wg l)
  end.

(** One step of a reader; [None] when it is blocked in [Wait]. *)
Definition wait_step (l : CList) (h : heap V) (t : waiter) : res unit (option waiter) :=
  match t with
  | Reading s =>
      let* (p, r, w) := read_slot l h s in
      Ok (Some (if negb (is_nil p) || r then Returned s p else Waiting s w))
  | Waiting s w =>
      match wgs h !! w with
      | Some c => Ok (if c =? 0 then Some (Reading s) else None)
      | None => Panic
      end
  | Returned s r => Ok None
  end.
End clist.
