(* ===== verification/ClistSpec.v ===== *)
(** * Theorems on the concurrent list

    A list operation refines the operation on the sequence of values; no operation
    panics while the list is used as its contract says; and no wake-up is lost: in every
    interleaving of list operations, detachments and blocking readers, a reader that is
    blocked waits for something that has not happened yet. *)

From stdpp Require Import relations.
From S2P Require Import Prelude Clist.

(** ** Who owns a wait group *)

Inductive owner := ONext (i : nat) | OPrev (i : nat) | OList.

#[export] Instance owner_eq_dec : EqDecision owner.
Proof. solve_decision. Defined.

(** Wait groups [gw] and channels [gc] by owner, and the owners that wait ([op]): an owner
    that waits has a counter of 1 and an open channel, one that does not has 0 and a closed
    one, nobody shares, and a group without an owner is at 0. *)
Record view_ok (gw gc : owner -> option nat) (op : owner -> bool) (ws : list Z) (cs : list bool) : Prop := {
  view_wg o w : gw o = Some w -> ws !! w = Some (Z.b2z (op o));
  view_ch o c : gc o = Some c -> cs !! c = Some (negb (op o));
  view_wg_inj o o' w : gw o = Some w -> gw o' = Some w -> o = o';
  view_ch_inj o o' c : gc o = Some c -> gc o' = Some c -> o = o';
  view_stale w c : ws !! w = Some c -> c <> 0 -> exists o, gw o = Some w;
}.

Definition upd {A} (f : owner -> A) (o : owner) (x : A) : owner -> A := fun o' => if decide (o' = o) then x else f o'.

Lemma upd_eq {A} (f : owner -> A) o x : upd f o x o = x.
Proof. unfold upd. by rewrite decide_True. Qed.

Lemma upd_ne {A} (f : owner -> A) o o' x : o' <> o -> upd f o x o' = f o'.
Proof. intros H. unfold upd. by rewrite decide_False. Qed.

Ltac upd_cases o' o :=
  destruct (decide (o' = o)) as [->|?]; rewrite ?upd_eq, ?upd_ne in * by assumption.

Lemma view_ext gw gc op gw' gc' op' ws cs : (forall o, gw o = gw' o) -> (forall o, gc o = gc' o) ->
  (forall o, op o = op' o) -> view_ok gw gc op ws cs -> view_ok gw' gc' op' ws cs.
Proof.
  intros Ew Ec Eo [H1 H2 H3 H4 H5]. constructor; intros *; rewrite <- ?Ew, <- ?Ec, <- ?Eo; eauto.
  intros H H'. destruct (H5 _ _ H H') as [o Ho]. exists o. by rewrite <- Ew.
Qed.

(** An owner stops waiting. *)
Lemma view_close gw gc op ws cs o w c : view_ok gw gc op ws cs -> gw o = Some w -> gc o = Some c -> op o = true ->
  ws !! w = Some 1 /\ cs !! c = Some false /\
  view_ok gw gc (upd op o false) (<[w := 0]> ws) (<[c := true]> cs).
Proof.
  intros [H1 H2 H3 H4 H5] Hw Hc Ho. pose proof (H1 _ _ Hw) as Ew. pose proof (H2 _ _ Hc) as Ec.
  rewrite Ho in Ew, Ec. split; [done|]. split; [done|]. constructor.
  - intros o' w' Hw'. upd_cases o' o.
    + assert (w' = w) as -> by congruence. apply list_lookup_insert_eq. by eapply lookup_lt_Some.
    + rewrite list_lookup_insert_ne by (intros ->; eauto). by apply H1.
  - intros o' c' Hc'. upd_cases o' o.
    + assert (c' = c) as -> by congruence. apply list_lookup_insert_eq. by eapply lookup_lt_Some.
    + rewrite list_lookup_insert_ne by (intros ->; eauto). by apply H2.
  - exact H3.
  - exact H4.
  - intros w' x Hx Hn. apply list_lookup_insert_Some in Hx as [(-> & <- & _)|[_ Hx]]; [done|eauto].
Qed.

(** An owner that does not wait, or a new one, waits with a new group and channel. *)
Lemma view_open gw gc op ws cs o : view_ok gw gc op ws cs -> (gw o <> None -> op o = false) ->
  view_ok (upd gw o (Some (length ws))) (upd gc o (Some (length cs))) (upd op o true) (ws ++ [1]) (cs ++ [false]).
Proof.
  intros [H1 H2 H3 H4 H5] Ho.
  assert (forall o' w, gw o' = Some w -> (w < length ws)%nat) as Bw by (intros; eapply lookup_lt_Some; eauto).
  assert (forall o' c, gc o' = Some c -> (c < length cs)%nat) as Bc by (intros; eapply lookup_lt_Some; eauto).
  constructor.
  - intros o' w Hw. upd_cases o' o; [injection Hw as <-; by rewrite list_lookup_middle|].
    rewrite lookup_app_l by eauto. by apply H1.
  - intros o' c Hc. upd_cases o' o; [injection Hc as <-; by rewrite list_lookup_middle|].
    rewrite lookup_app_l by eauto. by apply H2.
  - intros o1 o2 w E1 E2. upd_cases o1 o; upd_cases o2 o; simplify_eq; eauto; exfalso.
    + specialize (Bw _ _ E2). lia.
    + specialize (Bw _ _ E1). lia.
  - intros o1 o2 c E1 E2. upd_cases o1 o; upd_cases o2 o; simplify_eq; eauto; exfalso.
    + specialize (Bc _ _ E2). lia.
    + specialize (Bc _ _ E1). lia.
  - intros w x Hx Hn. apply lookup_app_Some in Hx as [Hx|[Hl Hx]].
    + destruct (H5 _ _ Hx Hn) as [o' Ho']. exists o'. rewrite upd_ne; [done|]. intros ->.
      specialize (H1 _ _ Ho'). rewrite Ho in H1 by congruence. cbn in H1. congruence.
    + exists o. rewrite upd_eq. apply list_lookup_singleton_Some in Hx as [E _]. f_equal. lia.
Qed.

Section spec.
Context {V : Type}.
Implicit Type (e : CElement V).

Definition owner_wg (l : CList) (h : heap V) (o : owner) : option nat :=
  match o with
  | ONext i => nextWg <$> elems h !! i
  | OPrev i => prevWg <$> elems h !! i
  | OList => Some (wg l)
  end.

Definition owner_ch (l : CList) (h : heap V) (o : owner) : option nat :=
  match o with
  | ONext i => nextWaitCh <$> elems h !! i
  | OPrev i => prevWaitCh <$> elems h !! i
  | OList => Some (waitCh l)
  end.

Definition owner_open (l : CList) (h : heap V) (o : owner) : bool :=
  match o with
  | ONext i => match elems h !! i with Some e => is_nil (next e) && negb (removed e) | None => false end
  | OPrev i => match elems h !! i with Some e => is_nil (prev e) && negb (removed e) | None => false end
  | OList => len l =? 0
  end.

Definition heap_ok (l : CList) (h : heap V) : Prop :=
  view_ok (owner_wg l h) (owner_ch l h) (owner_open l h) (wgs h) (chs h).

(** Wait groups keep their owners. *)
Definition extends (l : CList) (h : heap V) (l' : CList) (h' : heap V) : Prop :=
  (length (wgs h) <= length (wgs h'))%nat /\
  forall o w, owner_wg l' h' o = Some w -> (w < length (wgs h))%nat -> owner_wg l h o = Some w.

Lemma extends_refl l h : extends l h l h.
Proof. by split. Qed.

Lemma extends_trans l h l1 h1 l2 h2 : extends l h l1 h1 -> extends l1 h1 l2 h2 -> extends l h l2 h2.
Proof. intros [L1 E1] [L2 E2]. split; [lia|]. intros o w Hw Hl. apply E1; [|done]. apply E2; [done|lia]. Qed.

(** Agreement of [upd] with an update of an element. *)
Ltac by_owner i :=
  let o := fresh "o" in intros o; unfold upd; destruct o as [j|j|]; cbn;
  try (destruct (decide (j = i)) as [->|?]);
  repeat first
    [ rewrite list_insert_insert_eq
    | rewrite list_lookup_insert_eq by (by eapply lookup_lt_Some)
    | rewrite list_lookup_insert_ne by congruence
    | rewrite decide_True by congruence | rewrite decide_False by congruence
    | match goal with H : elems _ !! _ = Some _ |- _ => rewrite H end ]; cbn;
  repeat match goal with
    | H : next _ = _ |- _ => rewrite H | H : prev _ = _ |- _ => rewrite H | H : removed _ = _ |- _ => rewrite H end;
  try reflexivity.

(** An update of an element keeps the owners, up to groups that are new. *)
Ltac keeps_owners i :=
  split; [cbn; rewrite ?length_app, ?length_insert; lia|];
  let o := fresh "o" in let w := fresh "w" in let Hw := fresh in let Hl := fresh in
  intros o w Hw Hl; revert Hw; cbn in Hl; destruct o as [j|j|]; cbn; [| |done];
  (destruct (decide (j = i)) as [->|?];
    [rewrite ?list_insert_insert_eq, list_lookup_insert_eq by (by eapply lookup_lt_Some)
    |by rewrite ?list_insert_insert_eq, list_lookup_insert_ne by done]);
  match goal with H : elems _ !! _ = Some _ |- _ => rewrite H end; cbn; intros [= <-]; (done || lia).

(** The element [e'] is [e] with other links, and the groups may be new. *)
Definition relinked (e e' : CElement V) (p n : option nat) : Prop :=
  prev e' = p /\ next e' = n /\ removed e' = removed e /\ Value e' = Value e.

Lemma SetNext_ok l h i e n : heap_ok l h -> elems h !! i = Some e -> removed e = false ->
  exists e' h', SetNext i n h = Ok h' /\ elems h' = <[i := e']> (elems h) /\ relinked e e' (prev e) n /\
    heap_ok l h' /\ extends l h l h'.
Proof.
  intros Hok He Hr. unfold SetNext, on. rewrite He.
  destruct (next e) as [o|] eqn:En, n as [n|]; cbn [is_nil negb andb].
  - exists (with_next e (Some n)). eexists. split; [reflexivity|]. split_and!; [done|done| |keeps_owners i].
    revert Hok. apply view_ext; by_owner i.
  - eexists _, _. split; [reflexivity|]. cbn. split_and!; [by rewrite list_insert_insert_eq|done| |keeps_owners i].
    eapply view_ext; [| | |apply (view_open _ _ _ _ _ (ONext i) Hok)]; [by_owner i..|]. cbn. rewrite He. by rewrite En.
  - destruct (view_close _ _ _ _ _ (ONext i) (nextWg e) (nextWaitCh e) Hok) as (Ew & Ec & Hv);
      [cbn; by rewrite He|cbn; by rewrite He|cbn; by rewrite He, En, Hr|].
    unfold Done, close. cbn. rewrite Ew. cbn. rewrite Ec. exists (with_next e (Some n)). eexists.
    split; [reflexivity|]. split_and!; [done|done| |keeps_owners i]. revert Hv. apply view_ext; by_owner i.
  - exists (with_next e None). eexists. split; [reflexivity|]. split_and!; [done|done| |keeps_owners i].
    revert Hok. apply view_ext; by_owner i.
Qed.

Lemma SetPrev_ok l h i e p : heap_ok l h -> elems h !! i = Some e -> removed e = false ->
  exists e' h', SetPrev i p h = Ok h' /\ elems h' = <[i := e']> (elems h) /\ relinked e e' p (next e) /\
    heap_ok l h' /\ extends l h l h'.
Proof.
  intros Hok He Hr. unfold SetPrev, on. rewrite He.
  destruct (prev e) as [o|] eqn:Ep, p as [p|]; cbn [is_nil negb andb].
  - exists (with_prev e (Some p)). eexists. split; [reflexivity|]. split_and!; [done|done| |keeps_owners i].
    revert Hok. apply view_ext; by_owner i.
  - eexists _, _. split; [reflexivity|]. cbn. split_and!; [by rewrite list_insert_insert_eq|done| |keeps_owners i].
    eapply view_ext; [| | |apply (view_open _ _ _ _ _ (OPrev i) Hok)]; [by_owner i..|]. cbn. rewrite He. by rewrite Ep.
  - destruct (view_close _ _ _ _ _ (OPrev i) (prevWg e) (prevWaitCh e) Hok) as (Ew & Ec & Hv);
      [cbn; by rewrite He|cbn; by rewrite He|cbn; by rewrite He, Ep, Hr|].
    unfold Done, close. cbn. rewrite Ew. cbn. rewrite Ec. exists (with_prev e (Some p)). eexists.
    split; [reflexivity|]. split_and!; [done|done| |keeps_owners i]. revert Hv. apply view_ext; by_owner i.
  - exists (with_prev e None). eexists. split; [reflexivity|]. split_and!; [done|done| |keeps_owners i].
    revert Hok. apply view_ext; by_owner i.
Qed.

(** [Done] and [close] for an owner, if it waits. *)
Lemma shut_ok gw gc op (h : heap V) o w c : view_ok gw gc op (wgs h) (chs h) -> gw o = Some w -> gc o = Some c ->
  exists h', (if op o then let* h := Done w h in close c h else Ok h) = Ok h' /\ elems h' = elems h /\
    length (wgs h') = length (wgs h) /\ view_ok gw gc (upd op o false) (wgs h') (chs h').
Proof.
  intros Hv Hw Hc. destruct (op o) eqn:Ho.
  - destruct (view_close _ _ _ _ _ o w c Hv Hw Hc Ho) as (Ew & Ec & Hv'). unfold Done, close. rewrite Ew. cbn.
    rewrite Ec. eexists. split; [reflexivity|]. cbn. by rewrite length_insert.
  - exists h. split_and!; [done..|]. revert Hv. apply view_ext; [done..|]. intros o'. upd_cases o' o; auto.
Qed.

Lemma SetRemoved_ok l h i e : heap_ok l h -> elems h !! i = Some e -> removed e = false ->
  exists h', SetRemoved i h = Ok h' /\ elems h' = <[i := with_removed e]> (elems h) /\ heap_ok l h' /\ extends l h l h'.
Proof.
  intros Hok He Hr. unfold SetRemoved, on. rewrite He.
  assert (is_nil (prev e) = owner_open l h (OPrev i)) as -> by (cbn; by rewrite He, Hr, andb_true_r).
  destruct (shut_ok (owner_wg l h) (owner_ch l h) (owner_open l h) (put i (with_removed e) h) (OPrev i) (prevWg e)
    (prevWaitCh e)) as (h1 & -> & Ee1 & El1 & Hv1); [exact Hok|cbn; by rewrite He..|].
  assert (is_nil (next e) = upd (owner_open l h) (OPrev i) false (ONext i)) as ->
    by (rewrite upd_ne by done; cbn; by rewrite He, Hr, andb_true_r).
  destruct (shut_ok _ _ _ h1 (ONext i) (nextWg e) (nextWaitCh e) Hv1) as (h2 & -> & Ee2 & El2 & Hv2);
    [cbn; by rewrite He..|].
  exists h2. rewrite Ee2, Ee1. split_and!; [done|done| |].
  - revert Hv2. unfold heap_ok. apply view_ext; unfold owner_wg, owner_ch, owner_open; rewrite Ee2, Ee1; by_owner i;
      by rewrite andb_false_r.
  - split; [rewrite El2, El1; done|]. unfold owner_wg. rewrite Ee2, Ee1.
    intros [j|j|] w; cbn; [| |done]; (destruct (decide (j = i)) as [->|?];
      [rewrite list_lookup_insert_eq by (by eapply lookup_lt_Some)|by rewrite list_lookup_insert_ne by done]);
      by rewrite He.
Qed.

(** ** Element methods on the links *)

Definition core : Type := option nat * option nat * bool * V.

Definition at_ (h : heap V) (i : nat) : option core :=
  (fun e => (prev e, next e, removed e, Value e)) <$> elems h !! i.

Definition grows (h h' : heap V) : Prop := forall i, is_Some (at_ h i) -> is_Some (at_ h' i).

Definition live (h : heap V) (i : nat) : Prop := exists p n v, at_ h i = Some (p, n, false, v).

Definition target (m : micro) : nat :=
  match m with MSetPrev i _ => i | MSetNext i _ => i | MSetRemoved i => i end.

Definition micro_core (m : micro) (c : core) : core :=
  let '(p, n, r, v) := c in
  match m with MSetPrev _ p' => (p', n, r, v) | MSetNext _ n' => (p, n', r, v) | MSetRemoved _ => (p, n, true, v) end.

Definition micro_at (f : nat -> option core) (m : micro) : nat -> option core :=
  fun j => if decide (j = target m) then micro_core m <$> f j else f j.

Lemma at_insert (h h' : heap V) i e' p n r v : elems h' = <[i := e']> (elems h) -> is_Some (elems h !! i) ->
  prev e' = p -> next e' = n -> removed e' = r -> Value e' = v ->
  length (elems h') = length (elems h) /\ forall j, at_ h' j = if decide (j = i) then Some (p, n, r, v) else at_ h j.
Proof.
  intros E [e He] <- <- <- <-. unfold at_. rewrite E, length_insert. split; [done|]. intros j. case_decide as Ej.
  - subst j. rewrite list_lookup_insert_eq; [done|]. by eapply lookup_lt_Some.
  - by rewrite list_lookup_insert_ne by congruence.
Qed.

Lemma exec_ok l h m : heap_ok l h -> live h (target m) ->
  exists h', exec m h = Ok h' /\ heap_ok l h' /\ extends l h l h' /\ length (elems h') = length (elems h) /\
    forall j, at_ h' j = micro_at (at_ h) m j.
Proof.
  intros Hok (p & n & v & Ha). unfold at_ in Ha. destruct (elems h !! target m) as [e|] eqn:He; [|done].
  injection Ha as Ep En Er Ev. assert (is_Some (elems h !! target m)) as Hs by eauto.
  assert (forall j, j = target m -> at_ h j = Some (p, n, false, v)) as Hat by (intros j ->; unfold at_; rewrite He; cbn; by f_equal; f_equal; f_equal; f_equal).
  destruct m as [i p'|i n'|i]; cbn [target exec] in *.
  - destruct (SetPrev_ok l h i e p' Hok He Er) as (e' & h' & -> & Ee & (R1 & R2 & R3 & R4) & Hok' & Hx).
    destruct (at_insert h h' i e' _ _ _ _ Ee Hs R1 R2 R3 R4) as [El Ha]. exists h'. split_and!; [done..|].
    intros j. rewrite Ha. unfold micro_at. cbn. case_decide as Ej; [|done]. rewrite (Hat j Ej). cbn. by rewrite En, Er, Ev.
  - destruct (SetNext_ok l h i e n' Hok He Er) as (e' & h' & -> & Ee & (R1 & R2 & R3 & R4) & Hok' & Hx).
    destruct (at_insert h h' i e' _ _ _ _ Ee Hs R1 R2 R3 R4) as [El Ha]. exists h'. split_and!; [done..|].
    intros j. rewrite Ha. unfold micro_at. cbn. case_decide as Ej; [|done]. rewrite (Hat j Ej). cbn. by rewrite Ep, Er, Ev.
  - destruct (SetRemoved_ok l h i e Hok He Er) as (h' & -> & Ee & Hok' & Hx).
    destruct (at_insert h h' i _ _ _ _ _ Ee Hs eq_refl eq_refl eq_refl eq_refl) as [El Ha]. exists h'. split_and!; [done..|].
    intros j. rewrite Ha. unfold micro_at. cbn. case_decide as Ej; [|done]. rewrite (Hat j Ej). cbn. by rewrite Ep, En, Ev.
Qed.

(** The calls a list operation still has to make: on live elements, [SetRemoved] last. *)
Fixpoint pending_ok (h : heap V) (ms : list micro) : Prop :=
  match ms with
  | [] => True
  | m :: ms' => live h (target m) /\ ((exists i, m = MSetRemoved i) -> ms' = []) /\ pending_ok h ms'
  end.

Lemma live_exec h h' m i : (forall j, at_ h' j = micro_at (at_ h) m j) -> ~ (exists i, m = MSetRemoved i) ->
  live h i -> live h' i.
Proof.
  intros Ha Hm (p & n & v & Hi). unfold live. rewrite Ha. unfold micro_at. rewrite Hi.
  destruct (decide (i = target m)); [|eauto]. destruct m; cbn; eauto. exfalso. eauto.
Qed.

Lemma pending_exec h h' m ms : (forall j, at_ h' j = micro_at (at_ h) m j) -> pending_ok h (m :: ms) -> pending_ok h' ms.
Proof.
  intros Ha (_ & Hl & Hp). destruct ms as [|m1 ms]; [done|].
  assert (~ exists i, m = MSetRemoved i) as Hn by (intros Hm; specialize (Hl Hm); done). clear Hl. revert Hp.
  generalize (m1 :: ms). intros ms'. induction ms' as [|m2 ms' IH]; [done|]. intros (H1 & H2 & H3).
  split; [by eapply live_exec|]. split; [done|]. by apply IH.
Qed.

Lemma run_ok l ms : forall h, heap_ok l h -> pending_ok h ms ->
  exists h', run ms h = Ok h' /\ heap_ok l h' /\ extends l h l h' /\ length (elems h') = length (elems h) /\
    forall j, at_ h' j = fold_left micro_at ms (at_ h) j.
Proof.
  induction ms as [|m ms IH]; intros h Hok Hp; cbn [run fold_left].
  - exists h. split_and!; [done..|apply extends_refl|done|done].
  - destruct (exec_ok l h m Hok (proj1 Hp)) as (h1 & -> & Hok1 & Hx1 & El1 & Ha1).
    destruct (IH h1 Hok1 (pending_exec _ _ _ _ Ha1 Hp)) as (h2 & -> & Hok2 & Hx2 & El2 & Ha2).
    exists h2. split_and!; [done..|by eapply extends_trans|congruence|]. intros j. rewrite Ha2.
    clear -Ha1. revert Ha1. generalize (at_ h1) (micro_at (at_ h) m). clear. revert j.
    induction ms as [|m' ms IH]; intros j f g E; [apply E|]. cbn [fold_left]. apply IH.
    intros j'. unfold micro_at. by rewrite E.
Qed.

(** ** The list as a sequence of elements *)

Definition before (xs : list nat) (k : nat) : option nat := match k with O => None | S k' => xs !! k' end.

Record list_ok (l : CList) (h : heap V) (xs : list nat) : Prop := {
  ok_nodup : NoDup xs;
  ok_links k i : xs !! k = Some i -> exists v, at_ h i = Some (before xs k, xs !! S k, false, v);
  ok_head : head l = xs !! 0%nat;
  ok_tail : tail l = last xs;
  ok_len : len l = zlen xs;
  ok_rest i p n r v : at_ h i = Some (p, n, r, v) -> i ∈ xs \/ r = true;
}.

Definition values (h : heap V) (xs : list nat) : list (option V) := (fun i => snd <$> at_ h i) <$> xs.

Lemma ok_live l h xs i : list_ok l h xs -> live h i <-> i ∈ xs.
Proof.
  intros Hl. split.
  - intros (p & n & v & Hi). by destruct (ok_rest _ _ _ Hl _ _ _ _ _ Hi).
  - intros [k Hk]%list_elem_of_lookup. destruct (ok_links _ _ _ Hl _ _ Hk) as [v Hv]. unfold live. eauto.
Qed.

(** Two new groups and channels for a new element. *)
Definition alloc (h : heap V) (v : V) : heap V :=
  {| elems := elems h ++ [{| prev := None; prevWg := length (wgs h); prevWaitCh := length (chs h); next := None;
       nextWg := length (wgs h ++ [1]); nextWaitCh := length (chs h ++ [false]); removed := false; Value := v |}];
     wgs := (wgs h ++ [1]) ++ [1]; chs := (chs h ++ [false]) ++ [false] |}.

Lemma alloc_ok l h v : heap_ok l h -> heap_ok l (alloc h v) /\ extends l h l (alloc h v) /\
  forall j, at_ (alloc h v) j = if decide (j = length (elems h)) then Some (None, None, false, v) else at_ h j.
Proof.
  intros Hok. set (i := length (elems h)).
  assert (Ei : elems h !! i = None) by (by apply lookup_ge_None).
  assert (En : elems (alloc h v) !! i = Some {| prev := None; prevWg := length (wgs h); prevWaitCh := length (chs h);
    next := None; nextWg := length (wgs h ++ [1]); nextWaitCh := length (chs h ++ [false]); removed := false; Value := v |})
    by (cbn; by rewrite list_lookup_middle).
  assert (Eo : forall j, j <> i -> elems (alloc h v) !! j = elems h !! j).
  { intros j Hj. cbn. destruct (decide (j < i)%nat); [by apply lookup_app_l|].
    rewrite (lookup_ge_None_2 (elems h)) by (unfold i in *; lia). apply lookup_ge_None_2. rewrite length_app. cbn. unfold i in *. lia. }
  split; [|split].
  - pose proof (view_open _ _ _ _ _ (OPrev i) Hok) as H1. cbn in H1. rewrite Ei in H1. specialize (H1 ltac:(done)).
    pose proof (view_open _ _ _ _ _ (ONext i) H1) as H2. rewrite !upd_ne in H2 by done. cbn in H2. rewrite Ei in H2.
    specialize (H2 ltac:(done)). revert H2. apply view_ext; intros [j|j|]; unfold upd, owner_wg, owner_ch, owner_open;
      try (destruct (decide (j = i)) as [->|?]);
      repeat (first [rewrite decide_True by congruence|rewrite decide_False by congruence]);
      rewrite ?En, ?Eo by done; reflexivity.
  - split; [cbn; rewrite !length_app; lia|]. intros [j|j|] w; unfold owner_wg; [| |done];
      (destruct (decide (j = i)) as [->|?]; [rewrite En; cbn; intros [= <-]; rewrite ?length_app; lia|by rewrite Eo]).
  - intros j. unfold at_. case_decide as Ej; [subst j; fold i; by rewrite En|by rewrite Eo].
Qed.

Lemma values_app h xs ys : values h (xs ++ ys) = values h xs ++ values h ys.
Proof. unfold values. by rewrite fmap_app. Qed.

Lemma values_ext h h' xs : (forall i, i ∈ xs -> snd <$> at_ h' i = snd <$> at_ h i) -> values h' xs = values h xs.
Proof. intros H. apply list_fmap_ext. intros k i Hk. apply H. by eapply list_elem_of_lookup_2. Qed.

(** The new element and the release of [FrontWait] and [BackWait]. *)
Lemma PushBack_begin l v h xs : heap_ok l h -> list_ok l h xs ->
  let i := length (elems h) in
  let l' := {| wg := wg l; waitCh := waitCh l; head := match xs with [] => Some i | x :: _ => Some x end;
               tail := Some i; len := len l + 1 |} in
  exists h1, PushBack_enter l v h =
      Ok (l', i, match last xs with None => [] | Some t => [MSetPrev i (Some t); MSetNext t (Some i)] end, h1) /\
    heap_ok l' h1 /\ extends l h l' h1 /\
    forall j, at_ h1 j = if decide (j = i) then Some (None, None, false, v) else at_ h j.
Proof.
  intros Hok Hl. cbv zeta. set (i := length (elems h)). pose proof (ok_len _ _ _ Hl) as El. pose proof (zlen_nonneg xs) as Hn.
  destruct (alloc_ok l h v Hok) as (Ha & Hx & Hat).
  destruct (shut_ok _ _ _ (alloc h v) OList (wg l) (waitCh l) Ha eq_refl eq_refl) as (h1 & E1 & Ee & Ew & Hv).
  exists h1. split_and!.
  - unfold PushBack_enter, waitGroup1, make_chan. cbn [fst snd elems wgs chs].
    fold (alloc h v). change (owner_open l (alloc h v) OList) with (len l =? 0) in E1. rewrite E1, (ok_tail _ _ _ Hl).
    destruct xs as [|x xs]; [done|]. rewrite (ok_head _ _ _ Hl). destruct (last (x :: xs)) eqn:E; [done|by apply last_None in E].
  - revert Hv. unfold heap_ok. apply view_ext; intros [j|j|]; unfold upd, owner_wg, owner_ch, owner_open;
      rewrite ?decide_False by congruence; rewrite ?Ee; try reflexivity. rewrite decide_True by done. cbn. symmetry.
    apply Z.eqb_neq. lia.
  - destruct Hx as [Hx1 Hx2]. split; [by rewrite Ew|]. intros o w Hw. apply Hx2. rewrite <- Hw.
    destruct o; cbn; by rewrite ?Ee.
  - intros j. unfold at_ at 1. rewrite Ee. exact (Hat j).
Qed.

Lemma last_lookup_S (xs : list nat) t k j : last xs = Some t -> xs !! k = Some j -> xs !! S k = None -> j = t.
Proof.
  intros Ht Hk Hn. rewrite last_lookup in Ht. apply lookup_ge_None in Hn. apply lookup_lt_Some in Hk as Hl.
  replace (Init.Nat.pred (length xs)) with k in Ht by lia. congruence.
Qed.

(** The links after appending [i] to [xs]. *)
Lemma list_ok_snoc l l' h h2 xs i v : list_ok l h xs -> i ∉ xs ->
  (forall j, at_ h2 j = if decide (j = i) then Some (last xs, None, false, v)
     else if decide (last xs = Some j) then (fun '(p, n, r, v) => (p, Some i, r, v)) <$> at_ h j else at_ h j) ->
  head l' = match xs with [] => Some i | x :: _ => Some x end -> tail l' = Some i -> len l' = len l + 1 ->
  list_ok l' h2 (xs ++ [i]) /\ values h2 (xs ++ [i]) = values h xs ++ [Some v].
Proof.
  intros Hl Hi Ha Eh Et El. split; [constructor|].
  - apply NoDup_app. split_and!; [apply Hl|intros j Hj ->%list_elem_of_singleton; done|apply NoDup_singleton].
  - intros k j Hk. apply lookup_app_Some in Hk as [Hk|[Hge Hk]].
    + assert (j <> i) as Hj by (intros ->; by apply Hi, (list_elem_of_lookup_2 _ k)).
      destruct (ok_links _ _ _ Hl _ _ Hk) as [w Hw]. exists w. rewrite Ha, decide_False by done.
      assert (before (xs ++ [i]) k = before xs k) as ->.
      { destruct k as [|k]; [done|]. apply lookup_app_l. apply lookup_lt_Some in Hk. lia. }
      destruct (xs !! S k) as [n|] eqn:En.
      * rewrite (lookup_app_l_Some _ _ _ _ En). destruct (decide (last xs = Some j)) as [E|E]; [|done].
        exfalso. rewrite last_lookup in E. pose proof (NoDup_lookup _ _ _ _ (ok_nodup _ _ _ Hl) Hk E).
        apply lookup_lt_Some in En. lia.
      * rewrite decide_True.
        -- rewrite Hw. cbn. apply lookup_ge_None in En. apply lookup_lt_Some in Hk. rewrite lookup_app_r by lia.
           by replace (S k - length xs)%nat with 0%nat by lia.
        -- destruct (last xs) as [t|] eqn:Et'; [by rewrite (last_lookup_S _ _ _ _ Et' Hk En)|].
           apply last_None in Et' as ->. done.
    + apply list_lookup_singleton_Some in Hk as [Hk <-]. exists v. rewrite Ha, decide_True by done.
      assert (k = length xs) as -> by lia.
      rewrite (lookup_ge_None_2 (xs ++ [i])) by (rewrite length_app; cbn; lia).
      assert (before (xs ++ [i]) (length xs) = last xs) as ->; [|done].
      destruct xs as [|x xs] using rev_ind; [done|]. rewrite last_snoc, length_app, Nat.add_1_r. cbn [before].
      rewrite lookup_app_l by (rewrite length_app; cbn; lia). by rewrite list_lookup_middle.
  - rewrite Eh. by destruct xs.
  - by rewrite last_snoc.
  - rewrite El, (ok_len _ _ _ Hl), zlen_app, zlen_cons, zlen_nil. lia.
  - intros j p n r w Hj. rewrite elem_of_app, list_elem_of_singleton. rewrite Ha in Hj.
    destruct (decide (j = i)) as [->|]; [auto|].
    assert (exists n', at_ h j = Some (p, n', r, w)) as [n' Hj'].
    { destruct (decide (last xs = Some j)); [|eauto]. destruct (at_ h j) as [[[[? ?] ?] ?]|]; simplify_eq/=; eauto. }
    destruct (ok_rest _ _ _ Hl _ _ _ _ _ Hj'); auto.
  - rewrite values_app. f_equal; [|unfold values; cbn; by rewrite Ha, decide_True].
    apply values_ext. intros j Hj. rewrite Ha, decide_False by (by intros ->). case_decide; [|done].
    by destruct (at_ h j) as [[[[? ?] ?] ?]|].
Qed.

Lemma PushBack_ok l v h xs : heap_ok l h -> list_ok l h xs ->
  exists l' ms h1 h2, PushBack_enter l v h = Ok (l', length (elems h), ms, h1) /\ run ms h1 = Ok h2 /\
    heap_ok l' h1 /\ heap_ok l' h2 /\ extends l h l' h1 /\ grows h h1 /\ pending_ok h1 ms /\
    list_ok l' h2 (xs ++ [length (elems h)]) /\ values h2 (xs ++ [length (elems h)]) = values h xs ++ [Some v].
Proof.
  intros Hok Hl. destruct (PushBack_begin l v h xs Hok Hl) as (h1 & E & Hok1 & Hx & Ha). cbv zeta in E, Hok1, Hx.
  set (i := length (elems h)) in *. set (l' := {| head := _ |}) in *.
  assert (Hi : i ∉ xs).
  { intros Hi. apply (ok_live _ _ _ _ Hl) in Hi as (p & n & w & Hi). unfold at_ in Hi.
    by rewrite (lookup_ge_None_2 (elems h)) in Hi by done. }
  assert (Ht : forall t, last xs = Some t -> t <> i /\ live h1 t).
  { intros t Et. rewrite last_lookup in Et. apply list_elem_of_lookup_2 in Et.
    assert (t <> i) by (by intros ->). split; [done|]. apply (ok_live _ _ _ _ Hl) in Et as (p & n & w & Et).
    exists p, n, w. by rewrite Ha, decide_False. }
  set (ms := match last xs with None => [] | Some t => _ end) in *.
  assert (Hp : pending_ok h1 ms).
  { unfold ms. destruct (last xs) as [t|]; [|done]. destruct (Ht t eq_refl) as [Hti Hlt]. cbn.
    split_and!; [|by intros [? ?]|done|by intros [? ?]|done]. exists None, None, v. by rewrite Ha, decide_True. }
  destruct (run_ok l' ms h1 Hok1 Hp) as (h2 & Er & Hok2 & _ & _ & Ha2). exists l', ms, h1, h2.
  split_and!; [done..|intros j Hj; rewrite Ha; by case_decide|done| |].
  all: apply (list_ok_snoc l l' h h2 xs i v Hl Hi); try done; intros j; rewrite Ha2; unfold ms;
    destruct (last xs) as [t|] eqn:Et; cbn; unfold micro_at; cbn; rewrite ?Ha.
  all: try (destruct (Ht t eq_refl) as [Hti _]); repeat case_decide; simplify_eq; try done.
Qed.

Lemma before_Some xs k j : before xs k = Some j <-> exists k', k = S k' /\ xs !! k' = Some j.
Proof. destruct k as [|k]; cbn; split; [done|by intros (k' & ? & _)|eauto|]. by intros (k' & [= <-] & H). Qed.

Lemma before_None (xs : list nat) k i : xs !! k = Some i -> before xs k = None -> k = 0%nat.
Proof. destruct k as [|k]; [done|]. cbn. intros Hk Hn. apply lookup_lt_Some in Hk. apply lookup_ge_None in Hn. lia. Qed.

(** The neighbours of an element of a list without repetitions. *)
Lemma neighbours (xs : list nat) k j : NoDup xs -> is_Some (xs !! k) -> forall i, xs !! j = Some i ->
  (before xs k = Some i <-> S j = k) /\ (xs !! S k = Some i <-> j = S k) /\ (xs !! k = Some i <-> j = k).
Proof.
  intros Hn [x Hx] i Hi. split_and!.
  - rewrite before_Some. split; [|intros <-; eauto]. intros (k' & -> & Hk'). by rewrite (NoDup_lookup _ _ _ _ Hn Hk' Hi).
  - split; [|by intros ->]. intros Hk. by apply (NoDup_lookup _ _ _ _ Hn Hi).
  - split; [|by intros ->]. intros Hk. by apply (NoDup_lookup _ _ _ _ Hn Hi).
Qed.

Lemma last_delete (xs : list nat) k i : xs !! k = Some i ->
  last (delete k xs) = match xs !! S k with None => before xs k | Some _ => last xs end.
Proof.
  intros Hk. apply lookup_lt_Some in Hk as Hl. rewrite last_lookup, length_delete by eauto. rewrite list_lookup_delete.
  destruct (xs !! S k) as [n|] eqn:En.
  - apply lookup_lt_Some in En. rewrite decide_False by lia. rewrite last_lookup. f_equal. lia.
  - apply lookup_ge_None in En. destruct k as [|k]; cbn [before].
    + case_decide; [lia|]. apply lookup_ge_None. lia.
    + rewrite decide_True by lia. f_equal. lia.
Qed.

(** The links after taking position [k] out of [xs]. *)
Lemma list_ok_delete l l' h h2 xs k i v : list_ok l h xs -> xs !! k = Some i ->
  (forall j, at_ h2 j = if decide (j = i) then Some (before xs k, xs !! S k, true, v)
     else if decide (before xs k = Some j) then (fun '(p, n, r, v) => (p, xs !! S k, r, v)) <$> at_ h j
     else if decide (xs !! S k = Some j) then (fun '(p, n, r, v) => (before xs k, n, r, v)) <$> at_ h j else at_ h j) ->
  head l' = match before xs k with None => xs !! S k | Some _ => head l end ->
  tail l' = match xs !! S k with None => before xs k | Some _ => tail l end -> len l' = len l - 1 ->
  list_ok l' h2 (delete k xs) /\ values h2 (delete k xs) = values h (delete k xs).
Proof.
  intros Hl Hk Ha Eh Et El. pose proof (ok_nodup _ _ _ Hl) as Hnd. split; [constructor|].
  - eapply sublist_NoDup; [exact Hnd|apply sublist_delete].
  - intros j x Hj. rewrite list_lookup_delete in Hj. set (j' := if decide (j < k)%nat then j else S j) in *.
    destruct (ok_links _ _ _ Hl _ _ Hj) as [w Hw]. exists w.
    destruct (neighbours xs k j' Hnd ltac:(eauto) x Hj) as (N1 & N2 & N3).
    assert (j' <> k) as Hjk by (unfold j'; case_decide; lia). rewrite Ha, decide_False by (intros ->; by apply Hjk, N3).
    assert (before (delete k xs) j = if decide (j = k) then before xs k else before xs j') as ->.
    { unfold j'. destruct j as [|j]; cbn [before]; [repeat case_decide; subst; try done; lia|].
      rewrite list_lookup_delete. repeat case_decide; subst; cbn [before]; try done; lia. }
    rewrite list_lookup_delete. unfold j' in *.
    destruct (decide (before xs k = Some x)) as [P|P]; [|destruct (decide (xs !! S k = Some x)) as [Q|Q]]; rewrite Hw; cbn.
    + apply N1 in P. repeat case_decide; try lia. by rewrite <- P.
    + apply N2 in Q. repeat case_decide; try lia. done.
    + rewrite N1 in P. rewrite N2 in Q. repeat case_decide; try lia; done.
  - rewrite Eh, (ok_head _ _ _ Hl), list_lookup_delete. destruct (before xs k) as [p|] eqn:Eb.
    + apply before_Some in Eb as (k' & -> & _). by rewrite decide_True by lia.
    + apply (before_None _ _ _ Hk) in Eb as ->. done.
  - by rewrite Et, (ok_tail _ _ _ Hl), (last_delete _ _ _ Hk).
  - rewrite El, (ok_len _ _ _ Hl). unfold zlen. rewrite length_delete by eauto. apply lookup_lt_Some in Hk. lia.
  - intros j p n r w Hj. rewrite Ha in Hj. destruct (decide (j = i)) as [->|Hji]; [simplify_eq; by right|].
    assert (exists p' n', at_ h j = Some (p', n', r, w)) as (p' & n' & Hj').
    { destruct (at_ h j) as [[[[? ?] ?] ?]|]; repeat case_decide; simplify_eq/=; eauto. }
    destruct (ok_rest _ _ _ Hl _ _ _ _ _ Hj') as [Hx|]; [left|by right].
    apply list_elem_of_lookup in Hx as [q Hq]. destruct (decide (q < k)%nat).
    + apply (list_elem_of_lookup_2 _ q). by rewrite list_lookup_delete_lt.
    + assert (q <> k) by (intros ->; congruence). apply (list_elem_of_lookup_2 _ (pred q)).
      rewrite list_lookup_delete_ge by lia. by replace (S (pred q)) with q by lia.
  - apply values_ext. intros j Hj. assert (j <> i).
    { intros ->. apply list_elem_of_lookup in Hj as [q Hq]. rewrite list_lookup_delete in Hq.
      pose proof (NoDup_lookup _ _ _ _ Hnd Hk Hq). case_decide; lia. }
    rewrite Ha, decide_False by done. destruct (at_ h j) as [[[[? ?] ?] ?]|]; repeat case_decide; done.
Qed.

(** The list fields, and a new group when the list becomes empty. *)
Lemma Remove_begin l h xs k i : heap_ok l h -> list_ok l h xs -> xs !! k = Some i ->
  exists l' h1, Remove_enter l i h =
      Ok (l', match before xs k with None => [] | Some p => [MSetNext p (xs !! S k)] end ++
              match xs !! S k with None => [] | Some n => [MSetPrev n (before xs k)] end ++ [MSetRemoved i], h1) /\
    heap_ok l' h1 /\ extends l h l' h1 /\ (forall j, at_ h1 j = at_ h j) /\
    head l' = match before xs k with None => xs !! S k | Some _ => head l end /\
    tail l' = match xs !! S k with None => before xs k | Some _ => tail l end /\ len l' = len l - 1.
Proof.
  intros Hok Hl Hk. destruct (ok_links _ _ _ Hl _ _ Hk) as [v Hv]. apply lookup_lt_Some in Hk as Hlt.
  pose proof (ok_len _ _ _ Hl) as El. unfold Remove_enter, Prev, Next, on. unfold at_ in Hv.
  destruct (elems h !! i) as [e|] eqn:He; [|done]. injection Hv as -> -> _ _.
  assert (exists a, head l = Some a) as [a Ea] by (rewrite (ok_head _ _ _ Hl); apply lookup_lt_is_Some; lia).
  assert (exists b, tail l = Some b) as [b Eb] by (rewrite (ok_tail _ _ _ Hl), last_lookup; apply lookup_lt_is_Some; lia).
  rewrite Ea, Eb. cbn [is_nil orb].
  assert (is_nil (before xs k) && negb (bool_decide (Some a = Some i)) = false) as ->.
  { destruct (before xs k) eqn:E; [done|]. apply (before_None _ _ _ Hk) in E as ->. cbn.
    rewrite bool_decide_true; [done|]. by rewrite <- Ea, (ok_head _ _ _ Hl). }
  assert (is_nil (xs !! S k) && negb (bool_decide (Some b = Some i)) = false) as ->.
  { destruct (xs !! S k) eqn:E; [done|]. cbn. rewrite bool_decide_true; [done|].
    rewrite (ok_tail _ _ _ Hl) in Eb. by rewrite (last_lookup_S _ _ _ _ Eb Hk E). }
  destruct (Z.eqb_spec (len l) 1) as [E1|E1].
  - eexists _, _. split; [reflexivity|]. split_and!; [| |done..].
    + pose proof (view_open _ _ _ _ _ OList Hok ltac:(intros _; cbn; apply Z.eqb_neq; lia)) as Ho. revert Ho.
      apply view_ext; intros [j|j|]; unfold upd; rewrite ?decide_False by congruence; rewrite ?decide_True by done; try done.
      cbn. by rewrite E1.
    + split; [cbn; rewrite length_app; lia|]. intros [j|j|] w; cbn; [done..|]. intros [= <-]. lia.
  - eexists _, _. split; [reflexivity|]. split_and!; [| |done..].
    + revert Hok. apply view_ext; intros [j|j|]; try done. cbn. unfold zlen in El.
      rewrite !(proj2 (Z.eqb_neq _ _)) by lia. done.
    + split; [done|]. by intros [j|j|] w.
Qed.

Lemma Remove_ok l h xs k i : heap_ok l h -> list_ok l h xs -> xs !! k = Some i ->
  exists l' ms h1 h2, Remove_enter l i h = Ok (l', ms, h1) /\ run ms h1 = Ok h2 /\
    heap_ok l' h1 /\ heap_ok l' h2 /\ extends l h l' h1 /\ grows h h1 /\ pending_ok h1 ms /\
    list_ok l' h2 (delete k xs) /\ values h2 (delete k xs) = values h (delete k xs) /\
    snd <$> at_ h2 i = snd <$> at_ h i.
Proof.
  intros Hok Hl Hk. destruct (Remove_begin l h xs k i Hok Hl Hk) as (l' & h1 & E & Hok1 & Hx & Ha & Eh & Et & El).
  pose proof (ok_nodup _ _ _ Hl) as Hnd. destruct (ok_links _ _ _ Hl _ _ Hk) as [v Hv].
  set (ms := _ ++ _ ++ [MSetRemoved i]) in *.
  assert (Hlive : forall q j, xs !! q = Some j -> live h1 j).
  { intros q j Hq. destruct (ok_links _ _ _ Hl _ _ Hq) as [w Hw]. unfold live. rewrite Ha. eauto. }
  assert (Hp : pending_ok h1 ms).
  { unfold ms. destruct (before xs k) as [p|] eqn:Eb, (xs !! S k) as [n|] eqn:En; cbn;
      try (apply before_Some in Eb as (k' & -> & Eb)); split_and!; try done; try (by intros [? ?]); eauto. }
  destruct (run_ok l' ms h1 Hok1 Hp) as (h2 & Er & Hok2 & _ & _ & Ha2). exists l', ms, h1, h2.
  assert (Hat : forall j, at_ h2 j = if decide (j = i) then Some (before xs k, xs !! S k, true, v)
     else if decide (before xs k = Some j) then (fun '(p, n, r, v) => (p, xs !! S k, r, v)) <$> at_ h j
     else if decide (xs !! S k = Some j) then (fun '(p, n, r, v) => (before xs k, n, r, v)) <$> at_ h j else at_ h j).
  { assert (forall p, before xs k = Some p -> p <> i /\ xs !! S k <> Some p) as Hb.
    { intros p (k' & -> & Hp')%before_Some. split; intros E'; subst.
      - pose proof (NoDup_lookup _ _ _ _ Hnd Hp' Hk). lia.
      - pose proof (NoDup_lookup _ _ _ _ Hnd Hp' E'). lia. }
    assert (forall n, xs !! S k = Some n -> n <> i) as Hn
      by (intros n Hn ->; pose proof (NoDup_lookup _ _ _ _ Hnd Hn Hk); lia).
    intros j. rewrite Ha2. unfold ms. destruct (before xs k) as [p|] eqn:Eb, (xs !! S k) as [n|] eqn:En; cbn;
      unfold micro_at; cbn; rewrite Ha; try destruct (Hb _ eq_refl); try pose proof (Hn _ eq_refl);
      repeat case_decide; subst; simplify_eq; rewrite ?Hv; try done; congruence. }
  split_and!; [done..|intros j; by rewrite Ha|done| | |].
  1,2: by apply (list_ok_delete l l' h h2 xs k i v Hl Hk Hat Eh Et El).
  rewrite Hat, decide_True, Hv by done. done.
Qed.

(** ** The list with its readers *)

Record sys := { s_list : CList; s_heap : heap V; s_pending : list micro; s_waiters : list waiter }.

Definition slot_owner (s : slot) : owner :=
  match s with SNext i => ONext i | SPrev i => OPrev i | SFront | SBack => OList end.

Definition slot_ok (h : heap V) (s : slot) : Prop :=
  match s with SNext i | SPrev i => is_Some (elems h !! i) | SFront | SBack => True end.

(** Reading the fields of the list takes its lock. *)
Definition needs_list (t : waiter) : Prop := match t with Reading SFront | Reading SBack => True | _ => False end.

Inductive step : sys -> sys -> Prop :=
| step_push l h ws v l' i ms h' : PushBack_enter l v h = Ok (l', i, ms, h') ->
    step {| s_list := l; s_heap := h; s_pending := []; s_waiters := ws |}
         {| s_list := l'; s_heap := h'; s_pending := ms; s_waiters := ws |}
| step_remove l h ws i l' ms h' : live h i -> Remove_enter l i h = Ok (l', ms, h') ->
    step {| s_list := l; s_heap := h; s_pending := []; s_waiters := ws |}
         {| s_list := l'; s_heap := h'; s_pending := ms; s_waiters := ws |}
| step_micro l h ws m ms h' : exec m h = Ok h' ->
    step {| s_list := l; s_heap := h; s_pending := m :: ms; s_waiters := ws |}
         {| s_list := l; s_heap := h'; s_pending := ms; s_waiters := ws |}
| step_detach_next l h ws ms i h' : DetachNext i h = Ok h' ->
    step {| s_list := l; s_heap := h; s_pending := ms; s_waiters := ws |}
         {| s_list := l; s_heap := h'; s_pending := ms; s_waiters := ws |}
| step_detach_prev l h ws ms i h' : DetachPrev i h = Ok h' ->
    step {| s_list := l; s_heap := h; s_pending := ms; s_waiters := ws |}
         {| s_list := l; s_heap := h'; s_pending := ms; s_waiters := ws |}
| step_spawn l h ws ms s : slot_ok h s ->
    step {| s_list := l; s_heap := h; s_pending := ms; s_waiters := ws |}
         {| s_list := l; s_heap := h; s_pending := ms; s_waiters := ws ++ [Reading s] |}
| step_wait l h ws ms j t t' : ws !! j = Some t -> (needs_list t -> ms = []) -> wait_step l h t = Ok (Some t') ->
    step {| s_list := l; s_heap := h; s_pending := ms; s_waiters := ws |}
         {| s_list := l; s_heap := h; s_pending := ms; s_waiters := <[j := t']> ws |}.

(** A step that the reader [j] itself makes. *)
Inductive own_step (j : nat) : sys -> sys -> Prop :=
| own_step_wait l h ws ms t t' : ws !! j = Some t -> (needs_list t -> ms = []) -> wait_step l h t = Ok (Some t') ->
    own_step j {| s_list := l; s_heap := h; s_pending := ms; s_waiters := ws |}
               {| s_list := l; s_heap := h; s_pending := ms; s_waiters := <[j := t']> ws |}.

Lemma own_step_step j st st' : own_step j st st' -> step st st'.
Proof. intros []. by eapply step_wait. Qed.

Definition init : sys :=
  let (l, h) := New {| elems := []; wgs := []; chs := [] |} in
  {| s_list := l; s_heap := h; s_pending := []; s_waiters := [] |}.

Definition waiter_ok (l : CList) (h : heap V) (t : waiter) : Prop :=
  match t with
  | Reading s => slot_ok h s
  | Waiting s w => slot_ok h s /\ (w < length (wgs h))%nat /\ forall o, owner_wg l h o = Some w -> o = slot_owner s
  | Returned s r => True
  end.

Record sys_ok (st : sys) : Prop := {
  sys_heap : heap_ok (s_list st) (s_heap st);
  sys_pending : pending_ok (s_heap st) (s_pending st);
  sys_ends : exists xs h', run (s_pending st) (s_heap st) = Ok h' /\ list_ok (s_list st) h' xs;
  sys_waiters : Forall (waiter_ok (s_list st) (s_heap st)) (s_waiters st);
}.

Lemma New_ok : let (l, h) := New {| elems := @nil (CElement V); wgs := []; chs := [] |} in
  heap_ok l h /\ list_ok l h [].
Proof.
  cbn. split.
  - constructor; cbn.
    + intros [i|i|] w; cbn; [done..|]. by intros [= <-].
    + intros [i|i|] c; cbn; [done..|]. by intros [= <-].
    + intros [i|i|] [j|j|] w; cbn; done.
    + intros [i|i|] [j|j|] c; cbn; done.
    + intros w c Hw Hc. exists OList. cbn. by destruct w.
  - constructor; cbn; try done. constructor.
Qed.

Lemma waiter_ok_extends l h l' h' t : extends l h l' h' -> grows h h' -> waiter_ok l h t -> waiter_ok l' h' t.
Proof.
  intros [Hl Hx] Hg. assert (forall s, slot_ok h s -> slot_ok h' s) as Hs.
  { unfold grows, at_ in Hg. setoid_rewrite fmap_is_Some in Hg. intros [i|i| |]; cbn; auto. }
  destruct t as [s|s w|s r]; cbn; [apply Hs| |done]. intros (H1 & H2 & H3). split; [by apply Hs|].
  split; [lia|]. intros o Ho. apply H3. by apply Hx.
Qed.

(** A detachment commutes with the calls on other elements. *)
Lemma put_put i j x y (h : heap V) : i <> j -> put j y (put i x h) = put i x (put j y h).
Proof. intros Hn. unfold put. cbn. by rewrite list_insert_insert_ne. Qed.

Lemma wake_put i x w c (h h' : heap V) : (let* h := Done w h in close c h) = Ok h' ->
  (let* h := Done w (put i x h) in close c h) = Ok (put i x h').
Proof.
  unfold Done, close. cbn. destruct (wgs h !! w) as [z|]; [|done]. destruct (z <=? 0); [done|]. cbn.
  destruct (chs h !! c) as [[]|]; try done. by intros [= <-].
Qed.

Lemma exec_put m i x (h h' : heap V) : i <> target m -> exec m h = Ok h' -> exec m (put i x h) = Ok (put i x h').
Proof.
  intros Hi. destruct m as [j p|j n|j]; cbn [exec target] in *; unfold SetPrev, SetNext, SetRemoved, on.
  all: change (elems (put i x h)) with (<[i := x]> (elems h)); rewrite list_lookup_insert_ne by done.
  all: (destruct (elems h !! j) as [e|]; [|done]); rewrite (put_put _ _ _ _ h Hi).
  - destruct (_ && _); [intros [= <-]; unfold put; cbn; by rewrite (list_insert_insert_ne _ j i) by done|].
    destruct (_ && _); [apply wake_put|]. by intros [= <-].
  - destruct (_ && _); [intros [= <-]; unfold put; cbn; by rewrite (list_insert_insert_ne _ j i) by done|].
    destruct (_ && _); [apply wake_put|]. by intros [= <-].
  - assert (forall b w c (h h' : heap V), (if (b : bool) then let* h := Done w h in close c h else Ok h) = Ok h' ->
      (if b then let* h := Done w (put i x h) in close c h else Ok (put i x h)) = Ok (put i x h')) as Hb.
    { intros [] w c h0 h0'; [apply wake_put|]. by intros [= <-]. }
    destruct (if is_nil (prev e) then _ else _) as [h1| | |] eqn:E; [|done..].
    rewrite (Hb _ _ _ _ _ E). apply Hb.
Qed.

Lemma run_put ms i x : forall h h' : heap V, Forall (fun m => i <> target m) ms -> run ms h = Ok h' ->
  run ms (put i x h) = Ok (put i x h').
Proof.
  induction ms as [|m ms IH]; intros h h' Hf Hr; cbn [run] in *; [by injection Hr as ->|].
  apply Forall_cons in Hf as [Hi Hf]. destruct (exec m h) as [h1| | |] eqn:E; try done.
  rewrite (exec_put _ _ _ _ _ Hi E). by apply IH.
Qed.

Lemma fold_micro_other ms i : Forall (fun m => i <> target m) ms -> forall f, fold_left micro_at ms f i = f i.
Proof.
  induction 1 as [|m ms Hm _ IH]; intros f; [done|]. cbn. rewrite IH. unfold micro_at. by rewrite decide_False.
Qed.

(** Changing the links of a removed element. *)
Lemma detach_ok l (h : heap V) ms ws i e x : sys_ok {| s_list := l; s_heap := h; s_pending := ms; s_waiters := ws |} ->
  elems h !! i = Some e -> removed e = true -> x = with_next e None \/ x = with_prev e None ->
  sys_ok {| s_list := l; s_heap := put i x h; s_pending := ms; s_waiters := ws |}.
Proof.
  intros [Hok Hp (xs & h' & Hr & Hl) Hw] He Hrm Hx. cbn in *.
  assert (removed x = true /\ nextWg x = nextWg e /\ prevWg x = prevWg e /\ nextWaitCh x = nextWaitCh e /\
    prevWaitCh x = prevWaitCh e) as (X1 & X2 & X3 & X4 & X5) by (by destruct Hx as [-> | ->]).
  assert (Hlk : forall j, elems (put i x h) !! j = if decide (j = i) then Some x else elems h !! j).
  { intros j. cbn. case_decide; subst; [apply list_lookup_insert_eq; by eapply lookup_lt_Some|by rewrite list_lookup_insert_ne]. }
  assert (forall o, owner_wg l (put i x h) o = owner_wg l h o) as Ew.
  { intros [j|j|]; unfold owner_wg; rewrite ?Hlk; try (case_decide; [subst; rewrite He; cbn; by rewrite ?X2, ?X3|]); done. }
  assert (Hlive : forall j, live h j -> j <> i /\ live (put i x h) j).
  { intros j (p & n & v & Hj). assert (j <> i) by (intros ->; unfold at_ in Hj; rewrite He in Hj; cbn in Hj; congruence).
    split; [done|]. exists p, n, v. unfold at_. rewrite Hlk, decide_False by done. exact Hj. }
  assert (Hpt : Forall (fun m => i <> target m) ms /\ pending_ok (put i x h) ms).
  { clear Hr. induction ms as [|m ms IH]; [done|]. destruct Hp as (H1 & H2 & H3). destruct (Hlive _ H1) as [Hn Hl'].
    destruct (IH H3) as [H4 H5]. split; [by constructor|]. by split_and!. }
  destruct Hpt as [Hpt Hp']. destruct (run_ok l ms h Hok Hp) as (h0 & Er & _ & _ & El & Ha). assert (h0 = h') as -> by congruence.
  assert (Hi' : at_ h' i = at_ h i) by (rewrite Ha; by apply fold_micro_other).
  constructor; cbn.
  - revert Hok. unfold heap_ok. apply view_ext; [by intros o; rewrite Ew|..]; intros [j|j|];
      unfold owner_ch, owner_open; rewrite ?Hlk; try done; case_decide; try done; subst; rewrite He; cbn;
      rewrite ?X1, ?X4, ?X5, ?Hrm, ?andb_false_r; done.
  - done.
  - exists xs, (put i x h'). split; [by apply run_put|].
    assert (is_Some (elems h' !! i)) as Hsi.
    { apply lookup_lt_is_Some. rewrite El. by eapply lookup_lt_Some. }
    destruct (at_insert h' (put i x h') i x _ _ _ _ eq_refl Hsi eq_refl eq_refl eq_refl eq_refl) as [_ Hat'].
    assert (Hix : i ∉ xs).
    { intros Hix. apply (ok_live _ _ _ _ Hl) in Hix as (p & n & v & Hix). rewrite Hi' in Hix. unfold at_ in Hix.
      rewrite He in Hix. cbn in Hix. congruence. }
    destruct Hl as [L1 L2 L3 L4 L5 L6]. constructor; try done.
    + intros k j Hk. rewrite Hat', decide_False; [by apply L2|]. intros ->. by apply Hix, (list_elem_of_lookup_2 _ k).
    + intros j p n r v. rewrite Hat'. case_decide; [|apply L6]. intros [= _ _ <- _]. right. exact X1.
  - eapply Forall_impl; [exact Hw|]. intros t. apply waiter_ok_extends.
    + split; [done|]. intros o w. by rewrite Ew.
    + intros j. unfold at_. rewrite Hlk. case_decide; [|done]. by eexists.
Qed.

Lemma detach_inv i (f : CElement V -> CElement V) (h h' : heap V) :
  (let* r := Removed i h in if negb r then Panic else on i h (fun e => Ok (put i (f e) h))) = Ok h' ->
  exists e, elems h !! i = Some e /\ removed e = true /\ h' = put i (f e) h.
Proof.
  unfold Removed, on. destruct (elems h !! i) as [e|]; [|done]. destruct (removed e) eqn:E; [|done].
  cbn. intros [= <-]. eauto.
Qed.

Lemma wait_step_ok l (h : heap V) t t' : heap_ok l h -> waiter_ok l h t -> wait_step l h t = Ok (Some t') -> waiter_ok l h t'.
Proof.
  intros Hok Ht. destruct t as [s|s w|s r]; cbn [wait_step waiter_ok] in *; [| |done].
  - assert (forall p r w, read_slot l h s = Ok (p, r, w) -> owner_wg l h (slot_owner s) = Some w) as Hr.
    { intros p r w. destruct s as [i|i| |]; cbn; unfold on; [destruct (elems h !! i) as [e|]; [|done]..| |]; by intros [= _ _ <-]. }
    destruct (read_slot l h s) as [[[p r] w]| | |]; [|done..]. specialize (Hr _ _ _ eq_refl). intros [= <-].
    destruct (negb (is_nil p) || r); cbn; [done|]. split; [done|]. split.
    + eapply lookup_lt_Some, (view_wg _ _ _ _ _ Hok), Hr.
    + intros o Ho. exact (view_wg_inj _ _ _ _ _ Hok _ _ _ Ho Hr).
  - destruct (wgs h !! w) as [c|]; [|done]. destruct (c =? 0); [|done]. intros [= <-]. apply Ht.
Qed.

Lemma step_ok st st' : sys_ok st -> step st st' -> sys_ok st'.
Proof.
  intros Hs Hst. destruct Hst as [l h ws v l' i ms h' E|l h ws i l' ms h' Hi E|l h ws m ms h' E|l h ws ms i h' E
    |l h ws ms i h' E|l h ws ms s Hsl|l h ws ms j t t' Ht _ E].
  - destruct Hs as [Hok _ (xs & h0 & [= <-] & Hl) Hw]. cbn [s_list s_heap s_pending s_waiters] in *.
    destruct (PushBack_ok l v h xs Hok Hl) as (l1 & ms1 & h1 & h2 & E1 & Er & Hok1 & _ & Hx & Hg & Hp & Hl1 & _).
    rewrite E in E1. injection E1 as -> -> -> ->. constructor; cbn [s_list s_heap s_pending s_waiters]; [done|done|eauto|].
    eapply Forall_impl; [exact Hw|]. intros t. by apply waiter_ok_extends.
  - destruct Hs as [Hok _ (xs & h0 & [= <-] & Hl) Hw]. cbn [s_list s_heap s_pending s_waiters] in *. apply (ok_live _ _ _ _ Hl), list_elem_of_lookup in Hi as [k Hk].
    destruct (Remove_ok l h xs k i Hok Hl Hk) as (l1 & ms1 & h1 & h2 & E1 & Er & Hok1 & _ & Hx & Hg & Hp & Hl1 & _).
    rewrite E in E1. injection E1 as -> -> ->. constructor; cbn [s_list s_heap s_pending s_waiters]; [done|done|eauto|].
    eapply Forall_impl; [exact Hw|]. intros t. by apply waiter_ok_extends.
  - destruct Hs as [Hok Hp (xs & h0 & Er & Hl) Hw]. cbn [s_list s_heap s_pending s_waiters] in *.
    destruct (exec_ok l h m Hok (proj1 Hp)) as (h1 & E1 & Hok1 & Hx & El & Ha). cbn [run] in Er. rewrite E1 in E, Er. injection E as ->.
    constructor; cbn [s_list s_heap s_pending s_waiters]; [done|by eapply pending_exec|eauto|]. eapply Forall_impl; [exact Hw|]. intros t.
    apply waiter_ok_extends; [done|]. intros j. rewrite Ha. unfold micro_at. case_decide; [|done]. by rewrite fmap_is_Some.
  - apply (detach_inv i (fun e => with_next e None)) in E as (e & He & Hr & ->). eapply detach_ok; eauto.
  - apply (detach_inv i (fun e => with_prev e None)) in E as (e & He & Hr & ->). eapply detach_ok; eauto.
  - destruct Hs as [Hok Hp Hl Hw]. constructor; [done..|]. cbn [s_list s_heap s_pending s_waiters] in *. apply Forall_app. split; [done|]. by repeat constructor.
  - destruct Hs as [Hok Hp Hl Hw]. constructor; [done..|]. cbn [s_list s_heap s_pending s_waiters] in *. apply Forall_insert; [done|].
    eapply wait_step_ok; [done| |exact E]. by eapply Forall_lookup_1.
Qed.

Lemma reachable_ok st : rtc step init st -> sys_ok st.
Proof.
  intros H. assert (sys_ok init) as H0.
  { pose proof New_ok as [Hh Hl]. constructor; cbn; [exact Hh|done| |constructor]. exists [], (s_heap init). split; [done|exact Hl]. }
  induction H as [|st st1 st' Hst _ IH]; [done|]. apply IH. by eapply step_ok.
Qed.

(** What a reader of a slot finds: a pointer, or that the element is gone. *)
Definition ready (l : CList) (h : heap V) (s : slot) : Prop := owner_open l h (slot_owner s) = false.

Lemma ready_read l (h : heap V) s xs : slot_ok h s -> (needs_list (Reading s) -> list_ok l h xs) ->
  exists p r w, read_slot l h s = Ok (p, r, w) /\ owner_wg l h (slot_owner s) = Some w /\
    negb (is_nil p) || r = negb (owner_open l h (slot_owner s)).
Proof.
  destruct s as [i|i| |]; cbn; unfold on; intros Hs Hl.
  - destruct Hs as [e ->]. eexists _, _, _. split; [reflexivity|]. split; [done|]. by destruct (next e), (removed e).
  - destruct Hs as [e ->]. eexists _, _, _. split; [reflexivity|]. split; [done|]. by destruct (prev e), (removed e).
  - eexists _, _, _. split; [reflexivity|]. split; [done|]. destruct (Hl I) as [_ _ -> _ -> _]. by destruct xs.
  - eexists _, _, _. split; [reflexivity|]. split; [done|]. destruct (Hl I) as [_ _ _ -> -> _].
    destruct xs as [|x xs] using rev_ind; [done|]. rewrite last_snoc, zlen_app, zlen_cons, zlen_nil. cbn.
    rewrite (proj2 (Z.eqb_neq _ _)); [done|]. pose proof (zlen_nonneg xs). lia.
Qed.

Lemma blocked_not_ready st j s w : sys_ok st -> s_waiters st !! j = Some (Waiting s w) ->
  ready (s_list st) (s_heap st) s -> wgs (s_heap st) !! w = Some 0.
Proof.
  intros [Hok _ _ Hw] Hj Hr. pose proof (Forall_lookup_1 _ _ _ _ Hw Hj) as (_ & Hlt & Ho).
  apply lookup_lt_is_Some in Hlt as [c Hc]. destruct (decide (c = 0)) as [->|Hn]; [done|].
  destruct (view_stale _ _ _ _ _ Hok _ _ Hc Hn) as [o Eo]. pose proof (Ho _ Eo) as ->.
  rewrite (view_wg _ _ _ _ _ Hok _ _ Eo) in Hc. unfold ready in Hr. rewrite Hr in Hc. cbn in Hc. congruence.
Qed.

Lemma own_steps_rtc j n st st' : nsteps (own_step j) n st st' -> rtc step st st'.
Proof. induction 1; [done|]. eapply rtc_l; [by eapply own_step_step|done]. Qed.

(** A reader that reads a pointer, or that wakes up and then reads it. *)
Lemma own_steps st j t s p r w : s_waiters st !! j = Some t -> t = Reading s \/ (exists w, t = Waiting s w) ->
  (needs_list (Reading s) -> s_pending st = []) ->
  read_slot (s_list st) (s_heap st) s = Ok (p, r, w) -> negb (is_nil p) || r = true ->
  (forall w', t = Waiting s w' -> wgs (s_heap st) !! w' = Some 0) ->
  exists n, (n <= 2)%nat /\ nsteps (own_step j) n st
    {| s_list := s_list st; s_heap := s_heap st; s_pending := s_pending st; s_waiters := <[j := Returned s p]> (s_waiters st) |}.
Proof.
  destruct st as [l h ms ws]. cbn [s_list s_heap s_pending s_waiters]. intros Hj Ht Hp E Eb Hz. apply lookup_lt_Some in Hj as Hlt.
  assert (forall ws', ws' !! j = Some (Reading s) ->
    own_step j {| s_list := l; s_heap := h; s_pending := ms; s_waiters := ws' |}
               {| s_list := l; s_heap := h; s_pending := ms; s_waiters := <[j := Returned s p]> ws' |}) as Hread.
  { intros ws' Hj'. apply (own_step_wait j l h ws' ms (Reading s) (Returned s p)); [done..|]. cbn. rewrite E. by rewrite Eb. }
  destruct Ht as [->|[w' ->]].
  - exists 1%nat. split; [lia|]. by apply nsteps_once, Hread.
  - exists 2%nat. split; [lia|]. eapply nsteps_l.
    + apply (own_step_wait j l h ws ms (Waiting s w') (Reading s)); [done..|]. cbn. by rewrite (Hz w' eq_refl).
    + apply nsteps_once. rewrite <- (list_insert_insert_eq ws j (Returned s p) (Reading s)).
      apply Hread. by apply list_lookup_insert_eq.
Qed.
End spec.

Arguments sys : clear implicits.

(** C21: no wake-up is lost.  In every state that list operations, detachments and blocking
    readers can reach in any interleaving, a reader that is blocked in [Wait] waits for a
    pointer that is nil, on an element that was not removed (a list that is empty, for
    [FrontWait] and [BackWait]); and a reader whose pointer is there, or whose element was
    removed, returns that pointer after at most two steps of its own, which the other
    goroutines need not help with (for [FrontWait] and [BackWait], which take the lock of
    the list, when no list operation is in progress). *)
Theorem waiters_live {V} (st : sys V) j t : rtc step init st -> s_waiters st !! j = Some t ->
  (forall s w, t = Waiting s w -> wait_step (s_list st) (s_heap st) t = Ok None ->
     owner_open (s_list st) (s_heap st) (slot_owner s) = true) /\
  (forall s, t = Reading s \/ (exists w, t = Waiting s w) -> ready (s_list st) (s_heap st) s ->
     (needs_list (Reading s) -> s_pending st = []) ->
     exists p r w n st', read_slot (s_list st) (s_heap st) s = Ok (p, r, w) /\ negb (is_nil p) || r = true /\
       (n <= 2)%nat /\ nsteps (own_step j) n st st' /\ rtc step init st' /\
       s_waiters st' = <[j := Returned s p]> (s_waiters st) /\
       s_list st' = s_list st /\ s_heap st' = s_heap st).
Proof.
  intros Hreach Hj. pose proof (reachable_ok st Hreach) as Hok.
  assert (forall s w, t = Waiting s w -> ready (s_list st) (s_heap st) s -> wgs (s_heap st) !! w = Some 0) as Hz
    by (intros s w -> Hr; by eapply blocked_not_ready).
  split.
  - intros s w -> E. destruct (owner_open _ _ _) eqn:Ho; [done|]. cbn in E. by rewrite (Hz s w eq_refl Ho) in E.
  - intros s Ht Hr Hp.
    assert (slot_ok (s_heap st) s) as Hs.
    { pose proof (Forall_lookup_1 _ _ _ _ (sys_waiters _ Hok) Hj) as Hw. by destruct Ht as [->|[w ->]]; [|destruct Hw]. }
    destruct (sys_ends _ Hok) as (xs & h' & Er & Hl).
    destruct (ready_read (s_list st) (s_heap st) s xs Hs) as (p & r & w & E & _ & Eb).
    { intros Hn. rewrite (Hp Hn) in Er. by injection Er as ->. }
    unfold ready in Hr. rewrite Hr in Eb. cbn in Eb.
    destruct (own_steps st j t s p r w Hj Ht Hp E Eb) as (n & Hn & Hs').
    { intros w' ->. by apply (Hz s). }
    eexists p, r, w, n, _. split_and!; [done..|exact Hs'|etrans; [exact Hreach|by eapply own_steps_rtc]|done|done|done].
Qed.

(** No operation panics in a state that can be reached: a list operation can start when
    none is in progress, on any element of the list; each of its calls on elements
    succeeds; removed elements can be detached; readers never fail. *)
Theorem clist_safe {V} (st : sys V) : rtc step init st ->
  (forall v, s_pending st = [] -> is_ok (PushBack_enter (s_list st) v (s_heap st)) = true) /\
  (forall i, s_pending st = [] -> live (s_heap st) i -> is_ok (Remove_enter (s_list st) i (s_heap st)) = true) /\
  is_ok (run (s_pending st) (s_heap st)) = true /\
  (forall i, Removed i (s_heap st) = Ok true ->
     is_ok (DetachNext i (s_heap st)) = true /\ is_ok (DetachPrev i (s_heap st)) = true) /\
  (forall j t, s_waiters st !! j = Some t -> is_ok (wait_step (s_list st) (s_heap st) t) = true).
Proof.
  intros Hreach. pose proof (reachable_ok st Hreach) as [Hok Hp (xs & h' & Er & Hl) Hw]. split_and!.
  - intros v E. rewrite E in Er. injection Er as <-.
    by destruct (PushBack_ok _ v _ _ Hok Hl) as (? & ? & ? & ? & -> & _).
  - intros i E Hi. rewrite E in Er. injection Er as <-. apply (ok_live _ _ _ _ Hl), list_elem_of_lookup in Hi as [k Hk].
    by destruct (Remove_ok _ _ _ _ _ Hok Hl Hk) as (? & ? & ? & ? & -> & _).
  - by rewrite Er.
  - intros i Hi. unfold DetachNext, DetachPrev. rewrite Hi. cbn. unfold Removed, on in *. by destruct (elems _ !! i).
  - intros j t Hj. pose proof (Forall_lookup_1 _ _ _ _ Hw Hj) as Ht. destruct t as [s|s w|s r]; cbn; [| |done].
    + destruct s as [i|i| |]; cbn in Ht |- *; unfold on; [destruct Ht as [e ->]; reflexivity..|reflexivity|reflexivity].
    + destruct Ht as (_ & Hlt & _). apply lookup_lt_is_Some in Hlt as [c ->]. done.
Qed.

(** A run with a reader: it blocks on an empty list, a value is pushed, it wakes and returns. *)
Definition sample_blocked : sys Z :=
  let (l, h) := New {| elems := []; wgs := []; chs := [] |} in
  {| s_list := l; s_heap := h; s_pending := []; s_waiters := [Waiting SFront 0] |}.

Lemma sample_blocked_reachable : rtc step init sample_blocked.
Proof.
  eapply rtc_l; [exact (step_spawn _ _ [] [] SFront I)|]. apply rtc_once.
  exact (step_wait (s_list sample_blocked) (s_heap sample_blocked) [Reading SFront] [] 0 (Reading SFront) (Waiting SFront 0) eq_refl (fun _ => eq_refl) eq_refl).
Qed.

Definition sample_pushed : sys Z :=
  match PushBack_enter (s_list sample_blocked) 7 (s_heap sample_blocked) with
  | Ok (l, _, ms, h) => {| s_list := l; s_heap := h; s_pending := ms; s_waiters := [Waiting SFront 0] |}
  | _ => sample_blocked
  end.

Lemma sample_pushed_reachable : rtc step init sample_pushed.
Proof.
  eapply rtc_r; [exact sample_blocked_reachable|]. apply (step_push (s_list sample_blocked) (s_heap sample_blocked) [Waiting SFront 0] 7 _ 0). reflexivity.
Qed.

Lemma waiters_live_witness : exists p r w n st', read_slot (s_list sample_pushed) (s_heap sample_pushed) SFront = Ok (p, r, w) /\
  negb (is_nil p) || r = true /\ (n <= 2)%nat /\ nsteps (own_step 0) n sample_pushed st' /\ rtc step init st' /\
  s_waiters st' = <[0%nat := Returned SFront p]> (s_waiters sample_pushed) /\
  s_list st' = s_list sample_pushed /\ s_heap st' = s_heap sample_pushed.
Proof.
  refine (proj2 (waiters_live sample_pushed 0 (Waiting SFront 0) sample_pushed_reachable eq_refl) SFront _ _ _).
  - right. by exists 0%nat.
  - reflexivity.
  - reflexivity.
Defined.

Lemma clist_safe_witness : is_ok (PushBack_enter (s_list sample_blocked) 7 (s_heap sample_blocked)) = true.
Proof. exact (proj1 (clist_safe sample_blocked sample_blocked_reachable) 7 eq_refl). Defined.

(** A list with the elements [xs], from the head on, and their values [vs]. *)
Definition holds {V} (l : CList) (h : heap V) (xs : list nat) (vs : list V) : Prop :=
  heap_ok l h /\ list_ok l h xs /\ values h xs = Some <$> vs.

(** C22: the list refines a sequence of values: [New] makes an empty one, [Len] is its length,
    [Front] and [Back] its ends, [PushBack] appends a value, [Remove] of an element takes it
    out and returns its value, and neither of them panics. *)
Theorem clist_refines {V} (l : CList) (h : heap V) xs (vs : list V) : holds l h xs vs ->
  (let (l0, h0) := New {| elems := @nil (CElement V); wgs := []; chs := [] |} in holds l0 h0 [] []) /\
  (Len l = zlen vs /\ Front l = xs !! 0%nat /\ Back l = last xs) /\
  (forall v, exists l' i h', PushBack l v h = Ok (l', i, h') /\ holds l' h' (xs ++ [i]) (vs ++ [v])) /\
  (forall k i, xs !! k = Some i ->
     exists l' h' x, vs !! k = Some x /\ Remove l i h = Ok (l', x, h') /\ holds l' h' (delete k xs) (delete k vs)).
Proof.
  intros (Hok & Hl & Hv). split_and!.
  - pose proof (@New_ok V) as [H1 H2]. by split.
  - unfold Len. rewrite (ok_len _ _ _ Hl). apply (f_equal length) in Hv. unfold values in Hv.
    rewrite !length_fmap in Hv. unfold zlen. by rewrite Hv.
  - apply Hl.
  - apply Hl.
  - intros v. destruct (PushBack_ok l v h xs Hok Hl) as (l' & ms & h1 & h2 & E & Er & _ & Hok2 & _ & _ & _ & Hl' & Hv').
    exists l', (length (elems h)), h2. unfold PushBack. rewrite E, Er. split; [done|]. split_and!; [done|done|].
    by rewrite Hv', Hv, fmap_app.
  - intros k i Hk. destruct (Remove_ok l h xs k i Hok Hl Hk)
      as (l' & ms & h1 & h2 & E & Er & _ & Hok2 & _ & _ & _ & Hl' & Hv' & Hat).
    destruct (ok_links _ _ _ Hl _ _ Hk) as [x Hx]. exists l', h2, x.
    assert (vs !! k = Some x) as Hvk.
    { apply (f_equal (lookup k)) in Hv. unfold values in Hv. rewrite !list_lookup_fmap, Hk in Hv. cbn in Hv.
      rewrite Hx in Hv. cbn in Hv. destruct (vs !! k) as [y|]; cbn in Hv; congruence. }
    split; [done|]. split.
    + unfold Remove, on. rewrite E, Er. rewrite Hx in Hat. unfold at_ in Hat.
      destruct (elems h2 !! i) as [e|]; cbn in Hat; [|done]. injection Hat as ->. done.
    + split_and!; [done|done|]. rewrite Hv'. unfold values in *. by rewrite !list_fmap_delete, Hv.
Qed.

Lemma clist_refines_witness : exists l' i h',
  PushBack (s_list (@init Z)) 7 (s_heap init) = Ok (l', i, h') /\ holds l' h' [i] [7].
Proof.
  refine (proj1 (proj2 (proj2 (clist_refines (s_list (@init Z)) (s_heap init) [] [] _))) 7).
  pose proof (@New_ok Z) as [H1 H2]. split; [exact H1|]. split; [exact H2|]. reflexivity.
Defined.
