(* ===== verification/Service.v ===== *)
(** * Services and events (src/tendermint/tmlibs/common/service.go, src/tendermint/tmlibs/events)

    [BaseService] runs the life cycle of any service: its flags are 0 or 1, its quit channel
    is open or closed, and the methods of the embedding service are a class.  The event
    switch is such a service.  Its cells and listeners are pointers, so they live in a heap;
    a callback is a number.  Each of its methods takes the locks several times; a thread is
    the rest of a method call, and a step of it is what happens under one lock.  The event
    cache buffers events for anything that can fire them. *)

From stdpp Require Import gmap.
From S2P Require Import Prelude.

Abbreviation str := (list Z).

(** ** Services *)

Inductive service_err (E : Type) :=
| ErrAlreadyStarted
| ErrAlreadyStopped
| ErrNotStopped
| ErrImpl (e : E).
Arguments ErrAlreadyStarted {E}.
Arguments ErrAlreadyStopped {E}.
Arguments ErrNotStopped {E}.
Arguments ErrImpl {E} e.

(** What a service provides: the state after the call and its result. *)
Class Service (S E : Type) := {
  OnStart : S -> S * res E unit;
  OnStop : S -> S;
  OnReset : S -> S * res E unit;
}.

(** [quit]: whether the channel is closed. *)
Record BaseService (S : Type) := { started : Z; stopped : Z; quit : bool; impl : S }.
Arguments started {S} _.
Arguments stopped {S} _.
Arguments quit {S} _.
Arguments impl {S} _.

Section service.
Context {S E : Type} `{!Service S E}.

Definition NewBaseService (s : S) : BaseService S := {| started := 0; stopped := 0; quit := false; impl := s |}.

Definition wrap (r : res E unit) : res (service_err E) unit :=
  match r with Ok u => Ok u | Err e => Err (ErrImpl e) | Panic => Panic | NoFuel => NoFuel end.

Definition Start (bs : BaseService S) : BaseService S * res (service_err E) unit :=
  if started bs =? 0 then
    let bs := {| started := 1; stopped := stopped bs; quit := quit bs; impl := impl bs |} in
    if stopped bs =? 1 then (bs, Err ErrAlreadyStopped)
    else
      let (s, r) := OnStart (impl bs) in
      let bs := {| started := started bs; stopped := stopped bs; quit := quit bs; impl := s |} in
      match r with
      | Err e => ({| started := 0; stopped := stopped bs; quit := quit bs; impl := impl bs |}, Err (ErrImpl e))
      | r => (bs, wrap r)
      end
  else (bs, Err ErrAlreadyStarted).

Definition Stop (bs : BaseService S) : BaseService S * res (service_err E) unit :=
  if stopped bs =? 0 then
    let s := OnStop (impl bs) in
    let closed := quit bs in
    let bs := {| started := started bs; stopped := 1; quit := true; impl := s |} in
    (bs, if closed then Panic else Ok tt)
  else (bs, Err ErrAlreadyStopped).

Definition Reset (bs : BaseService S) : BaseService S * res (service_err E) unit :=
  if negb (stopped bs =? 1) then (bs, Err ErrNotStopped)
  else
    let (s, r) := OnReset (impl bs) in
    ({| started := if started bs =? 1 then 0 else started bs; stopped := 0; quit := false; impl := s |}, wrap r).

Definition IsRunning (bs : BaseService S) : bool := (started bs =? 1) && (stopped bs =? 0).

(** [Wait] returns when the channel is closed. *)
Definition Wait_returns (bs : BaseService S) : bool := quit bs.

(** *** The life cycle *)

Inductive phase := Fresh | Running | Stopped.

Definition phase_of (bs : BaseService S) : phase :=
  if stopped bs =? 1 then Stopped else if started bs =? 1 then Running else Fresh.

(** Flags are 0 or 1 and the channel is closed while the service is stopped. *)
Definition service_ok (bs : BaseService S) : Prop :=
  (started bs = 0 \/ started bs = 1) /\ (stopped bs = 0 \/ stopped bs = 1) /\ quit bs = (stopped bs =? 1).
End service.

(** ** The event switch *)

Record eventListener := { id : str; removed : bool; events : list str }.

(** [None] is a nil map. *)
Record eventSwitch := {
  eventCells : option (gmap str nat);
  listeners : option (gmap str nat);
  cells : list (gmap str nat);
  listener_heap : list eventListener;
}.

Definition newEventListener (i : str) : eventListener := {| id := i; removed := false; events := [] |}.

(** A switch that was not started. *)
Definition NewEventSwitch : eventSwitch :=
  {| eventCells := None; listeners := None; cells := []; listener_heap := [] |}.

#[export] Instance eventSwitch_service : Service eventSwitch unit := {|
  OnStart evsw := ({| eventCells := Some ∅; listeners := Some ∅; cells := cells evsw;
                      listener_heap := listener_heap evsw |}, Ok tt);
  OnStop evsw := {| eventCells := None; listeners := None; cells := cells evsw; listener_heap := listener_heap evsw |};
  OnReset evsw := (evsw, Panic);
|}.

(** The pointer a map holds; a missing key, or a nil map, gives nil. *)
Definition find (m : option (gmap str nat)) (k : str) : option nat := m ≫= lookup k.

Definition get_cell (event : str) (evsw : eventSwitch) : res unit (nat * eventSwitch) :=
  match find (eventCells evsw) event with
  | Some c => Ok (c, evsw)
  | None =>
      match eventCells evsw with
      | None => Panic
      | Some m =>
          let c := length (cells evsw) in
          Ok (c, {| eventCells := Some (<[event := c]> m); listeners := listeners evsw; cells := cells evsw ++ [∅];
                    listener_heap := listener_heap evsw |})
      end
  end.

Definition get_listener (listenerID : str) (evsw : eventSwitch) : res unit (nat * eventSwitch) :=
  match find (listeners evsw) listenerID with
  | Some l => Ok (l, evsw)
  | None =>
      match listeners evsw with
      | None => Panic
      | Some m =>
          let l := length (listener_heap evsw) in
          Ok (l, {| eventCells := eventCells evsw; listeners := Some (<[listenerID := l]> m); cells := cells evsw;
                    listener_heap := listener_heap evsw ++ [newEventListener listenerID] |})
      end
  end.

(** [eventCell.AddListener] and [eventCell.RemoveListener]. *)
Definition AddListener (c : nat) (listenerID : str) (cb : nat) (evsw : eventSwitch) : eventSwitch :=
  {| eventCells := eventCells evsw; listeners := listeners evsw;
     cells := alter (insert listenerID cb) c (cells evsw); listener_heap := listener_heap evsw |}.

Definition cell_RemoveListener (c : nat) (listenerID : str) (evsw : eventSwitch) : nat * eventSwitch :=
  let evsw := {| eventCells := eventCells evsw; listeners := listeners evsw;
                 cells := alter (delete listenerID) c (cells evsw); listener_heap := listener_heap evsw |} in
  (match cells evsw !! c with Some m => size m | None => 0%nat end, evsw).

Definition AddEvent (l : nat) (event : str) (evsw : eventSwitch) : eventSwitch :=
  {| eventCells := eventCells evsw; listeners := listeners evsw; cells := cells evsw;
     listener_heap := alter (fun evl => if removed evl then evl
       else {| id := id evl; removed := removed evl; events := events evl ++ [event] |}) l (listener_heap evsw) |}.

Definition GetEvents (l : nat) (evsw : eventSwitch) : list str :=
  match listener_heap evsw !! l with Some evl => events evl | None => [] end.

Definition SetRemoved (l : nat) (evsw : eventSwitch) : eventSwitch :=
  {| eventCells := eventCells evsw; listeners := listeners evsw; cells := cells evsw;
     listener_heap := alter (fun evl => {| id := id evl; removed := true; events := events evl |}) l (listener_heap evsw) |}.

(** Deletes the cell if it is still empty, under both locks. *)
Definition collect_cell (c : nat) (event : str) (evsw : eventSwitch) : eventSwitch :=
  match cells evsw !! c with
  | Some m =>
      if (size m =? 0)%nat then
        {| eventCells := delete event <$> eventCells evsw; listeners := listeners evsw; cells := cells evsw;
           listener_heap := listener_heap evsw |}
      else evsw
  | None => evsw
  end.

Definition delete_listener (listenerID : str) (evsw : eventSwitch) : eventSwitch :=
  {| eventCells := eventCells evsw; listeners := delete listenerID <$> listeners evsw; cells := cells evsw;
     listener_heap := listener_heap evsw |}.

(** The rest of a method call. *)
Inductive thread :=
| TAdd (listenerID event : str) (cb : nat)                     (* AddListenerForEvent *)
| TAdd_cell (c l : nat) (listenerID event : str) (cb : nat)    (*   before eventCell.AddListener *)
| TAdd_event (l : nat) (event : str)                           (*   before listener.AddEvent *)
| TRemFor (event listenerID : str) (rest : list str)           (* RemoveListenerForEvent, then for the events in rest *)
| TRem_cell (c : nat) (event listenerID : str) (rest : list str)
| TRem_collect (c : nat) (event listenerID : str) (rest : list str)
| TRem (listenerID : str)                                      (* RemoveListener *)
| TRem_delete (l : nat) (listenerID : str)
| TRem_mark (l : nat) (listenerID : str)
| TRem_events (l : nat) (listenerID : str)
| TDone.

(** The next event of the loop of [RemoveListener]. *)
Definition TRem_next (listenerID : str) (rest : list str) : thread :=
  match rest with [] => TDone | event :: rest' => TRemFor event listenerID rest' end.

Definition thread_step (t : thread) (evsw : eventSwitch) : res unit (thread * eventSwitch) :=
  match t with
  | TAdd listenerID event cb =>
      let* (c, evsw) := get_cell event evsw in
      let* (l, evsw) := get_listener listenerID evsw in
      Ok (TAdd_cell c l listenerID event cb, evsw)
  | TAdd_cell c l listenerID event cb => Ok (TAdd_event l event, AddListener c listenerID cb evsw)
  | TAdd_event l event => Ok (TDone, AddEvent l event evsw)
  | TRemFor event listenerID rest =>
      match find (eventCells evsw) event with
      | None => Ok (TRem_next listenerID rest, evsw)
      | Some c => Ok (TRem_cell c event listenerID rest, evsw)
      end
  | TRem_cell c event listenerID rest =>
      let (numListeners, evsw) := cell_RemoveListener c listenerID evsw in
      Ok (if (numListeners =? 0)%nat then TRem_collect c event listenerID rest else TRem_next listenerID rest, evsw)
  | TRem_collect c event listenerID rest => Ok (TRem_next listenerID rest, collect_cell c event evsw)
  | TRem listenerID =>
      match find (listeners evsw) listenerID with
      | None => Ok (TDone, evsw)
      | Some l => Ok (TRem_delete l listenerID, evsw)
      end
  | TRem_delete l listenerID => Ok (TRem_mark l listenerID, delete_listener listenerID evsw)
  | TRem_mark l listenerID => Ok (TRem_events l listenerID, SetRemoved l evsw)
  | TRem_events l listenerID => Ok (TRem_next listenerID (GetEvents l evsw), evsw)
  | TDone => Ok (TDone, evsw)
  end.

(** A method call without other threads. *)
Fixpoint alone (fuel : nat) (t : thread) (evsw : eventSwitch) : res unit eventSwitch :=
  match fuel with
  | O => match t with TDone => Ok evsw | _ => NoFuel end
  | S fuel' => let* (t, evsw) := thread_step t evsw in alone fuel' t evsw
  end.

Definition AddListenerForEvent (listenerID event : str) (cb : nat) (evsw : eventSwitch) : res unit eventSwitch :=
  alone 3 (TAdd listenerID event cb) evsw.

Definition RemoveListenerForEvent (event listenerID : str) (evsw : eventSwitch) : res unit eventSwitch :=
  alone 3 (TRemFor event listenerID []) evsw.

(** Four steps and at most three for each event of the listener. *)
Definition RemoveListener (listenerID : str) (evsw : eventSwitch) : res unit eventSwitch :=
  alone (4 + 3 * match find (listeners evsw) listenerID with Some l => length (GetEvents l evsw) | None => 0 end)
    (TRem listenerID) evsw.

(** The callbacks that are called, by listener; their order is the one of the Go map. *)
Definition FireEvent (event : str) (evsw : eventSwitch) : gmap str nat :=
  match find (eventCells evsw) event with
  | None => ∅
  | Some c => default ∅ (cells evsw !! c)
  end.

(** ** The event cache *)

Record EventCache (D : Type) := { cached : list (str * D) }.
Arguments cached {D} _.

Definition NewEventCache {D} : EventCache D := {| cached := [] |}.

Definition cache_FireEvent {D} (event : str) (data : D) (evc : EventCache D) : EventCache D :=
  {| cached := cached evc ++ [(event, data)] |}.

(** [fire] is [evsw.FireEvent] of the backend with state [S]. *)
Definition Flush {D S} (fire : str -> D -> S -> S) (evc : EventCache D) (s : S) : EventCache D * S :=
  ({| cached := [] |}, fold_left (fun s ei => fire ei.1 ei.2 s) (cached evc) s).
