(* ===== verification/ServiceSpec.v ===== *)
(** * Theorems on services and events

    The life cycle of a service; the event switch as a map from events and listeners to
    callbacks, which is there between its start and its stop, when its methods do not overlap; and two interleavings in which it loses a
    listener or keeps one that was removed. *)

From stdpp Require Import gmap.
From S2P Require Import Prelude Service.

(** ** Services *)

(** C35: a service is fresh, running or stopped.  [Start] of a fresh service runs [OnStart] and
    makes it running, or leaves it fresh when [OnStart] fails; of any other one it fails.
    [Stop] of a service that is not stopped runs [OnStop], closes the quit channel (which
    never panics) and makes it stopped; otherwise it fails.  [Reset] of a stopped service
    makes it fresh with a new channel; otherwise it fails.  [IsRunning] tells the phase. *)
Theorem service_lifecycle {S E} `{!Service S E} (bs : BaseService S) : service_ok bs ->
  (let (bs', r) := Start bs in service_ok bs' /\
     match phase_of bs with
     | Fresh => impl bs' = (OnStart (impl bs)).1 /\ r = wrap (OnStart (impl bs)).2 /\
                phase_of bs' = match (OnStart (impl bs)).2 with Err _ => Fresh | _ => Running end
     | Running => bs' = bs /\ r = Err ErrAlreadyStarted
     | Stopped => phase_of bs' = Stopped /\ impl bs' = impl bs /\ is_ok r = false
     end) /\
  (let (bs', r) := Stop (E := E) bs in service_ok bs' /\
     match phase_of bs with
     | Stopped => bs' = bs /\ r = Err ErrAlreadyStopped
     | _ => phase_of bs' = Stopped /\ impl bs' = OnStop (impl bs) /\ r = Ok tt /\ Wait_returns bs' = true
     end) /\
  (let (bs', r) := Reset bs in service_ok bs' /\
     match phase_of bs with
     | Stopped => phase_of bs' = Fresh /\ impl bs' = (OnReset (impl bs)).1 /\ r = wrap (OnReset (impl bs)).2 /\
                  Wait_returns bs' = false
     | _ => bs' = bs /\ r = Err ErrNotStopped
     end) /\
  IsRunning bs = match phase_of bs with Running => true | _ => false end.
Proof.
  destruct bs as [st sp q s]. unfold service_ok, Start, Stop, Reset, IsRunning, phase_of, Wait_returns. cbn.
  intros ([-> | ->] & [-> | ->] & ->); cbn; split_and!; cbn; auto.
  - destruct (OnStart s) as [s' [[]|e| |]]; cbn; auto 10.
  - destruct (OnReset s) as [s' r]; cbn; auto 10.
  - destruct (OnReset s) as [s' r]; cbn; auto 10.
Qed.

Lemma service_lifecycle_witness :
  IsRunning (NewBaseService NewEventSwitch) = match phase_of (NewBaseService NewEventSwitch) with Running => true | _ => false end.
Proof.
  refine (proj2 (proj2 (proj2 (service_lifecycle (NewBaseService NewEventSwitch) _)))). split_and!; cbn; auto.
Defined.

(** ** The event switch *)

(** The callback of a listener for an event. *)
Definition sub (evsw : eventSwitch) (event listenerID : str) : option nat := FireEvent event evsw !! listenerID.

(** Pointers are valid and not shared, known listeners are not removed, and a listener knows
    the events it has callbacks for, except perhaps the listener [ex]. *)
Record ev_ok (ex : option str) (ec ls : gmap str nat) (evsw : eventSwitch) : Prop := {
  ok_cells : eventCells evsw = Some ec;
  ok_listeners : listeners evsw = Some ls;
  cell_valid e c : ec !! e = Some c -> is_Some (cells evsw !! c);
  cell_inj e e' c : ec !! e = Some c -> ec !! e' = Some c -> e = e';
  listener_valid i l : ls !! i = Some l -> exists evl, listener_heap evsw !! l = Some evl /\ removed evl = false;
  listener_inj i i' l : ls !! i = Some l -> ls !! i' = Some l -> i = i';
  sub_known e i cb : sub evsw e i = Some cb -> ex <> Some i -> exists l, ls !! i = Some l /\ e ∈ GetEvents l evsw;
}.

Lemma sub_cell ex ec ls evsw e i : ev_ok ex ec ls evsw ->
  sub evsw e i = match ec !! e with Some c => default ∅ (cells evsw !! c) !! i | None => None end.
Proof. intros H. unfold sub, FireEvent, find. rewrite (ok_cells _ _ _ _ H). cbn. by destruct (ec !! e). Qed.

Lemma get_cell_ok ex ec ls evsw e : ev_ok ex ec ls evsw ->
  exists c evsw' ec', get_cell e evsw = Ok (c, evsw') /\ ev_ok ex ec' ls evsw' /\ ec' !! e = Some c /\
    (forall e' i, sub evsw' e' i = sub evsw e' i) /\ (forall l, GetEvents l evsw' = GetEvents l evsw).
Proof.
  intros H. unfold get_cell, find. rewrite (ok_cells _ _ _ _ H). cbn. destruct (ec !! e) as [c|] eqn:E; [by exists c, evsw, ec|].
  set (evsw' := {| eventCells := _ |}). set (c := length (cells evsw)) in *. exists c, evsw', (<[e := c]> ec).
  assert (Hc : forall e' c', ec !! e' = Some c' -> (c' < c)%nat)
    by (intros e' c' He'; by apply lookup_lt_is_Some, (cell_valid _ _ _ _ H _ _ He')).
  assert (Hs : forall e' i, sub evsw' e' i = sub evsw e' i).
  { intros e' i. rewrite (sub_cell _ _ _ _ _ _ H). unfold sub, FireEvent, find. cbn. destruct (decide (e' = e)) as [->|N].
    - rewrite lookup_insert_eq, E. cbn. by rewrite list_lookup_middle.
    - rewrite lookup_insert_ne by done. destruct (ec !! e') as [c'|] eqn:E'; [|done].
      by rewrite lookup_app_l by (by eapply Hc). }
  split_and!; [done| |by rewrite lookup_insert_eq|exact Hs|done].
  destruct H as [H1 H2 H3 H4 H5 H6 H7]. constructor; [done|done| | |done|done|].
  - intros e' c'. cbn. rewrite lookup_insert_Some. intros [[<- <-]|[N He']]; apply lookup_lt_is_Some; rewrite length_app; cbn;
      [lia|]. specialize (Hc _ _ He'). lia.
  - intros e1 e2 c'. rewrite !lookup_insert_Some. intros [[<- <-]|[N1 E1]] [[<- E2]|[N2 E2]]; eauto.
    + specialize (Hc _ _ E2). lia.
    + subst. specialize (Hc _ _ E1). lia.
  - intros e' i cb. rewrite Hs. apply H7.
Qed.

Lemma get_listener_ok ex ec ls evsw i : ev_ok ex ec ls evsw -> ex = None ->
  exists l evsw' ls', get_listener i evsw = Ok (l, evsw') /\ ev_ok ex ec ls' evsw' /\ ls' !! i = Some l /\
    (forall e i', sub evsw' e i' = sub evsw e i').
Proof.
  intros H Hex. unfold get_listener, find. rewrite (ok_listeners _ _ _ _ H). cbn.
  destruct (ls !! i) as [l|] eqn:E; [by exists l, evsw, ls|].
  set (evsw' := {| eventCells := _ |}). set (l := length (listener_heap evsw)) in *. exists l, evsw', (<[i := l]> ls).
  assert (Hl : forall i' l', ls !! i' = Some l' -> (l' < l)%nat).
  { intros i' l' Hi. destruct (listener_valid _ _ _ _ H _ _ Hi) as (evl & He & _). by eapply lookup_lt_Some. }
  split_and!; [done| |by rewrite lookup_insert_eq|done].
  destruct H as [H1 H2 H3 H4 H5 H6 H7]. constructor; [done|done|done|done| | |].
  - intros i' l'. cbn. rewrite lookup_insert_Some. intros [[<- <-]|[N Hi]].
    + eexists. rewrite list_lookup_middle by done. done.
    + rewrite lookup_app_l by (by eapply Hl). eauto.
  - intros i1 i2 l'. rewrite !lookup_insert_Some. intros [[<- <-]|[N1 E1]] [[<- E2]|[N2 E2]]; eauto.
    + specialize (Hl _ _ E2). lia.
    + subst. specialize (Hl _ _ E1). lia.
  - intros e i' cb Hs Hne. destruct (H7 e i' cb Hs Hne) as (l' & Hi & He). exists l'.
    assert (i <> i') by congruence. rewrite lookup_insert_ne by done. split; [done|].
    unfold GetEvents in *. cbn. by rewrite lookup_app_l by (by eapply Hl).
Qed.

(** A change of the callbacks of one cell. *)
Lemma alter_cell_sub (ex : option str) (ec ls : gmap str nat) (evsw evsw' : eventSwitch) (e : str) (c : nat) (f : gmap str nat -> gmap str nat) : ev_ok ex ec ls evsw -> ec !! e = Some c ->
  eventCells evsw' = eventCells evsw -> cells evsw' = alter f c (cells evsw) ->
  forall e' i, sub evsw' e' i = if decide (e' = e) then f (FireEvent e evsw) !! i else sub evsw e' i.
Proof.
  intros H Hc E1 E2 e' i. rewrite (sub_cell _ _ _ _ _ _ H). unfold sub, FireEvent, find. rewrite E1, E2, (ok_cells _ _ _ _ H).
  cbn. destruct (cell_valid _ _ _ _ H _ _ Hc) as [m Hm]. case_decide as D.
  - subst e'. rewrite Hc, list_lookup_alter_eq, Hm. done.
  - destruct (ec !! e') as [c'|] eqn:E'; [|done]. rewrite list_lookup_alter_ne; [done|]. intros ->.
    apply D. exact (cell_inj _ _ _ _ H _ _ _ E' Hc).
Qed.

Lemma AddListenerForEvent_ok ec ls evsw i e cb : ev_ok None ec ls evsw ->
  exists ec' ls' evsw', AddListenerForEvent i e cb evsw = Ok evsw' /\ ev_ok None ec' ls' evsw' /\
    forall e' i', sub evsw' e' i' = if decide (e' = e /\ i' = i) then Some cb else sub evsw e' i'.
Proof.
  intros H. destruct (get_cell_ok _ _ _ _ e H) as (c & evsw1 & ec1 & E1 & H1 & Hc & S1 & _).
  destruct (get_listener_ok _ _ _ _ i H1 eq_refl) as (l & evsw2 & ls2 & E2 & H2 & Hl & S2).
  set (evsw3 := AddListener c i cb evsw2). set (evsw4 := AddEvent l e evsw3).
  assert (Hs : forall e' i', sub evsw4 e' i' = if decide (e' = e /\ i' = i) then Some cb else sub evsw e' i').
  { intros e' i'. rewrite (alter_cell_sub _ _ _ _ evsw4 e c _ H2 Hc eq_refl eq_refl). rewrite <- S1, <- S2.
    destruct (decide (e' = e)) as [->|N]; [|by rewrite decide_False by tauto].
    destruct (decide (i' = i)) as [->|N]; [rewrite decide_True by done; apply lookup_insert_eq|].
    rewrite decide_False by tauto. by rewrite lookup_insert_ne. }
  exists ec1, ls2, evsw4. split; [unfold AddListenerForEvent; cbn; by rewrite E1, E2|]. split; [|exact Hs].
  assert (Hg : forall l' e', e' ∈ GetEvents l' evsw2 -> e' ∈ GetEvents l' evsw4).
  { intros l' e'. unfold GetEvents. cbn. destruct (decide (l' = l)) as [->|N].
    - rewrite list_lookup_alter_eq. destruct (listener_heap evsw2 !! l) as [evl|]; [|done]. cbn.
      destruct (removed evl); [done|]. cbn. rewrite elem_of_app. auto.
    - by rewrite list_lookup_alter_ne. }
  assert (Hn : e ∈ GetEvents l evsw4).
  { unfold GetEvents. cbn. rewrite list_lookup_alter_eq. destruct (listener_valid _ _ _ _ H2 _ _ Hl) as (evl & -> & Hr).
    cbn. rewrite Hr. cbn. rewrite elem_of_app. right. by apply list_elem_of_singleton. }
  destruct H2 as [A1 A2 A3 A4 A5 A6 A7]. constructor; [done|done| |done| |done|].
  - intros e' c' He'. cbn. apply lookup_lt_is_Some. rewrite length_alter. by apply lookup_lt_is_Some, (A3 e').
  - intros i' l' Hi'. destruct (A5 _ _ Hi') as (evl & He & Hr). cbn. destruct (decide (l' = l)) as [->|N].
    + rewrite list_lookup_alter_eq, He. cbn. rewrite Hr. eauto.
    + rewrite list_lookup_alter_ne by done. eauto.
  - intros e' i' cb' Hsub Hne. rewrite Hs in Hsub. case_decide as D; [destruct D as [-> ->]; eauto|].
    rewrite <- S1, <- S2 in Hsub. destruct (A7 _ _ _ Hsub Hne) as (l' & Hi' & He'). eauto.
Qed.

(** Removing from the cell of an event, and the cell when it is empty. *)
Lemma remove_for_ok ex ec ls evsw e i rest n : ev_ok ex ec ls evsw ->
  exists ec' evsw' n', alone (3 + n) (TRemFor e i rest) evsw = alone n' (TRem_next i rest) evsw' /\
    (n <= n' <= 2 + n)%nat /\ ev_ok ex ec' ls evsw' /\
    forall e' i', sub evsw' e' i' = if decide (e' = e /\ i' = i) then None else sub evsw e' i'.
Proof.
  intros H. cbn [Nat.add alone thread_step]. unfold find at 1. rewrite (ok_cells _ _ _ _ H). cbn [mbind option_bind].
  destruct (ec !! e) as [c|] eqn:Hc.
  2:{ exists ec, evsw, (2 + n)%nat. split; [done|]. split; [lia|]. split; [done|]. intros e' i'.
      case_decide as D; [|done]. destruct D as [-> ->]. rewrite (sub_cell _ _ _ _ _ _ H). by rewrite Hc. }
  cbn [alone thread_step]. unfold cell_RemoveListener.
  set (evsw1 := {| eventCells := eventCells evsw; listeners := listeners evsw; cells := alter (delete i) c (cells evsw);
                   listener_heap := listener_heap evsw |}).
  assert (Hs : forall e' i', sub evsw1 e' i' = if decide (e' = e /\ i' = i) then None else sub evsw e' i').
  { intros e' i'. rewrite (alter_cell_sub _ _ _ _ evsw1 e c _ H Hc eq_refl eq_refl).
    destruct (decide (e' = e)) as [->|N]; [|by rewrite decide_False by tauto].
    destruct (decide (i' = i)) as [->|N]; [rewrite decide_True by done; apply lookup_delete_eq|].
    rewrite decide_False by tauto. by rewrite lookup_delete_ne. }
  assert (H1 : ev_ok ex ec ls evsw1).
  { destruct H as [A1 A2 A3 A4 A5 A6 A7]. constructor; try done.
    - intros e' c' He'. cbn. apply lookup_lt_is_Some. rewrite length_alter. by apply lookup_lt_is_Some, (A3 e').
    - intros e' i' cb. rewrite Hs. case_decide; [done|]. apply A7. }
  destruct (cell_valid _ _ _ _ H1 _ _ Hc) as [m Hm]. rewrite Hm.
  destruct (Nat.eqb_spec (size m) 0) as [Hz|Hz]; [|exists ec, evsw1, (1 + n)%nat; split; [done|]; split; [lia|]; by split].
  apply map_size_empty_inv in Hz as ->. cbn [thread_step]. unfold collect_cell. rewrite Hm. rewrite map_size_empty. cbn [Nat.eqb].
  set (evsw2 := {| eventCells := delete e <$> eventCells evsw1; listeners := listeners evsw1; cells := cells evsw1;
                   listener_heap := listener_heap evsw1 |}).
  assert (Hs2 : forall e' i', sub evsw2 e' i' = sub evsw1 e' i').
  { intros e' i'. rewrite (sub_cell _ _ _ _ _ _ H1). unfold sub, FireEvent, find. cbn. rewrite (ok_cells _ _ _ _ H). cbn.
    destruct (decide (e' = e)) as [->|N].
    - rewrite lookup_delete_eq, Hc. cbn in Hm. rewrite Hm. cbn. by rewrite lookup_empty.
    - rewrite lookup_delete_ne by done. by destruct (ec !! e'). }
  exists (delete e ec), evsw2, n. split; [done|]. split; [lia|]. split; [|intros e' i'; by rewrite Hs2, Hs].
  destruct H1 as [A1 A2 A3 A4 A5 A6 A7]. constructor; [by unfold evsw2; cbn [eventCells]; rewrite A1|done|..|done|done|].
  - intros e' c' [_ He']%lookup_delete_Some. eauto.
  - intros e1 e2 c' [_ E1]%lookup_delete_Some [_ E2]%lookup_delete_Some. eauto.
  - intros e' i' cb. rewrite Hs2. apply A7.
Qed.

Lemma alone_done n evsw : alone n TDone evsw = Ok evsw.
Proof. by induction n. Qed.

Lemma RemoveListenerForEvent_ok ec ls evsw e i : ev_ok None ec ls evsw ->
  exists ec' evsw', RemoveListenerForEvent e i evsw = Ok evsw' /\ ev_ok None ec' ls evsw' /\
    forall e' i', sub evsw' e' i' = if decide (e' = e /\ i' = i) then None else sub evsw e' i'.
Proof.
  intros H. destruct (remove_for_ok _ _ _ _ e i [] 0 H) as (ec' & evsw' & n' & E & _ & H' & Hs).
  exists ec', evsw'. split; [|done]. unfold RemoveListenerForEvent. etransitivity; [exact E|apply alone_done].
Qed.

Lemma remove_rest_ok ex ls i rest : forall n ec evsw, ev_ok ex ec ls evsw -> (3 * length rest <= n)%nat ->
  exists ec' evsw', alone n (TRem_next i rest) evsw = Ok evsw' /\ ev_ok ex ec' ls evsw' /\
    forall e' i', sub evsw' e' i' = if decide (e' ∈ rest /\ i' = i) then None else sub evsw e' i'.
Proof.
  induction rest as [|e rest IH]; intros n ec evsw H Hn.
  - exists ec, evsw. split; [apply alone_done|]. split; [done|]. intros e' i'. rewrite decide_False; [done|]. by intros [?%elem_of_nil _].
  - cbn [TRem_next]. cbn in Hn. replace n with (3 + (n - 3))%nat by lia.
    destruct (remove_for_ok _ _ _ _ e i rest (n - 3) H) as (ec1 & evsw1 & n1 & -> & Hn1 & H1 & S1).
    destruct (IH n1 ec1 evsw1 H1 ltac:(lia)) as (ec2 & evsw2 & -> & H2 & S2). exists ec2, evsw2. split; [done|]. split; [done|].
    intros e' i'. rewrite S2, S1. destruct (decide (e' ∈ e :: rest /\ i' = i)) as [[D ->]|D].
    + apply elem_of_cons in D as [->|D]; [|by rewrite decide_True]. case_decide; [done|]. by rewrite decide_True.
    + rewrite elem_of_cons in D. rewrite !decide_False by tauto. done.
Qed.

Lemma RemoveListener_ok ec ls evsw i : ev_ok None ec ls evsw ->
  exists ec' ls' evsw', RemoveListener i evsw = Ok evsw' /\ ev_ok None ec' ls' evsw' /\
    forall e i', sub evsw' e i' = if decide (i' = i) then None else sub evsw e i'.
Proof.
  intros H. unfold RemoveListener, find. rewrite (ok_listeners _ _ _ _ H). cbn [mbind option_bind].
  cbn [Nat.add alone thread_step]. unfold find at 1. rewrite (ok_listeners _ _ _ _ H). cbn [mbind option_bind].
  destruct (ls !! i) as [l|] eqn:Hl.
  2:{ exists ec, ls, evsw. split; [apply alone_done|]. split; [done|]. intros e i'. case_decide as D; [|done]. subst i'.
      destruct (sub evsw e i) as [cb|] eqn:E; [|done]. destruct (sub_known _ _ _ _ H _ _ _ E ltac:(done)) as (l & Hi & _). congruence. }
  cbn [thread_step alone]. set (evsw2 := SetRemoved l (delete_listener i evsw)).
  assert (Hev : forall l', GetEvents l' evsw2 = GetEvents l' evsw).
  { intros l'. unfold GetEvents. cbn. destruct (decide (l' = l)) as [->|N]; [|by rewrite list_lookup_alter_ne].
    rewrite list_lookup_alter_eq. by destruct (listener_heap evsw !! l). }
  assert (H2 : ev_ok (Some i) ec (delete i ls) evsw2).
  { destruct H as [A1 A2 A3 A4 A5 A6 A7]. constructor; try done.
    - unfold evsw2, SetRemoved, delete_listener. cbn [listeners]. by rewrite A2.
    - intros i' l' [N Hi']%lookup_delete_Some. cbn. rewrite list_lookup_alter_ne; [eauto|]. intros <-. by apply N, (A6 _ _ l).
    - intros i1 i2 l' [_ E1]%lookup_delete_Some [_ E2]%lookup_delete_Some. eauto.
    - intros e i' cb Hs Hne. destruct (A7 e i' cb Hs ltac:(done)) as (l' & Hi' & He). exists l'.
      rewrite lookup_delete_ne by congruence. by rewrite Hev. }
  destruct (remove_rest_ok _ _ i (GetEvents l evsw2) (3 * length (GetEvents l evsw)) _ _ H2) as (ec3 & evsw3 & E3 & H3 & S3).
  { rewrite Hev. lia. }
  assert (Hs : forall e i', sub evsw3 e i' = if decide (i' = i) then None else sub evsw e i').
  { intros e i'. rewrite S3. change (sub evsw2 e i') with (sub evsw e i'). destruct (decide (i' = i)) as [->|N].
    - case_decide as D; [done|]. destruct (sub evsw e i) as [cb|] eqn:E; [|done]. exfalso. apply D. split; [|done].
      destruct (sub_known _ _ _ _ H _ _ _ E ltac:(done)) as (l' & Hi & He). assert (l' = l) as -> by congruence. by rewrite Hev.
    - by rewrite decide_False by tauto. }
  exists ec3, (delete i ls), evsw3. split; [exact E3|]. split; [|exact Hs].
  destruct H3 as [A1 A2 A3 A4 A5 A6 A7]. constructor; try done. intros e i' cb Hsub _. apply (A7 e i' cb Hsub).
  intros [= <-]. by rewrite Hs, decide_True in Hsub.
Qed.

(** Method calls that do not overlap, with the hooks of the service. *)
Inductive ev_op :=
| OpAdd (listenerID event : str) (cb : nat)
| OpRemoveFor (event listenerID : str)
| OpRemove (listenerID : str)
| OpStart
| OpStop.

Definition ev_call (op : ev_op) (evsw : eventSwitch) : res unit eventSwitch :=
  match op with
  | OpAdd i e cb => AddListenerForEvent i e cb evsw
  | OpRemoveFor e i => RemoveListenerForEvent e i evsw
  | OpRemove i => RemoveListener i evsw
  | OpStart => let (evsw, r) := OnStart evsw in let* _ := r in Ok evsw
  | OpStop => Ok (OnStop evsw)
  end.

Fixpoint ev_calls (ops : list ev_op) (evsw : eventSwitch) : res unit eventSwitch :=
  match ops with
  | [] => Ok evsw
  | op :: ops' => let* evsw := ev_call op evsw in ev_calls ops' evsw
  end.

(** What they mean: a table of callbacks by event and listener, which is there while the switch is started. *)
Definition ev_table : Type := option (gmap (str * str) nat).

Definition ev_spec (op : ev_op) (t : ev_table) : res unit ev_table :=
  match op, t with
  | OpAdd i e cb, Some t => Ok (Some (<[(e, i) := cb]> t))
  | OpAdd i e cb, None => Panic
  | OpRemoveFor e i, _ => Ok (delete (e, i) <$> t)
  | OpRemove i, _ => Ok (filter (fun kv => kv.1.2 <> i) <$> t)
  | OpStart, _ => Ok (Some ∅)
  | OpStop, _ => Ok None
  end.

Fixpoint ev_specs (ops : list ev_op) (t : ev_table) : res unit ev_table :=
  match ops with
  | [] => Ok t
  | op :: ops' => let* t := ev_spec op t in ev_specs ops' t
  end.

Definition fired (t : ev_table) (e i : str) : option nat := t ≫= lookup (e, i).

Definition ev_agrees (evsw : eventSwitch) (t : ev_table) : Prop :=
  (forall e i, sub evsw e i = fired t e i) /\
  match t with
  | Some _ => exists ec ls, ev_ok None ec ls evsw
  | None => eventCells evsw = None /\ listeners evsw = None
  end.

Lemma ev_call_ok op evsw t : ev_agrees evsw t ->
  match ev_call op evsw, ev_spec op t with
  | Ok evsw', Ok t' => ev_agrees evsw' t'
  | Panic, Panic => True
  | _, _ => False
  end.
Proof.
  intros [Hf Ht]. destruct op as [i e cb|e i|i| |]; cbn [ev_call ev_spec].
  - destruct t as [t|].
    + destruct Ht as (ec & ls & H). destruct (AddListenerForEvent_ok _ _ _ i e cb H) as (ec' & ls' & evsw' & -> & H' & Hs).
      split; [|by exists ec', ls']. intros e' i'. rewrite Hs, Hf. cbn. destruct (decide (e' = e /\ i' = i)) as [[-> ->]|Hne].
      * by rewrite lookup_insert_eq.
      * rewrite lookup_insert_ne; [done|]. intros [= -> ->]. by apply Hne.
    + destruct Ht as [E1 E2]. unfold AddListenerForEvent. cbn [alone thread_step]. unfold get_cell, find. by rewrite E1.
  - destruct t as [t|].
    + destruct Ht as (ec & ls & H). destruct (RemoveListenerForEvent_ok _ _ _ e i H) as (ec' & evsw' & -> & H' & Hs).
      split; [|by exists ec', ls]. intros e' i'. rewrite Hs, Hf. cbn. destruct (decide (e' = e /\ i' = i)) as [[-> ->]|Hne].
      * by rewrite lookup_delete_eq.
      * rewrite lookup_delete_ne; [done|]. intros [= -> ->]. by apply Hne.
    + destruct Ht as [E1 E2]. unfold RemoveListenerForEvent. cbn [alone thread_step]. unfold find. rewrite E1. by split.
  - destruct t as [t|].
    + destruct Ht as (ec & ls & H). destruct (RemoveListener_ok _ _ _ i H) as (ec' & ls' & evsw' & -> & H' & Hs).
      split; [|by exists ec', ls']. intros e' i'. rewrite Hs, Hf. cbn. case_decide as Hi.
      * subst i'. symmetry. apply map_lookup_filter_None. right. intros x _ []. done.
      * destruct (t !! (e', i')) as [x|] eqn:Ex; symmetry.
        { by apply map_lookup_filter_Some. }
        apply map_lookup_filter_None. by left.
    + destruct Ht as [E1 E2]. unfold RemoveListener, find. rewrite E2. cbn. unfold find. rewrite E2. by split.
  - split; [by intros e i; cbn; rewrite lookup_empty|]. exists ∅, ∅. constructor; try done; intros *; try by rewrite lookup_empty.
  - by split.
Qed.

Lemma ev_calls_ok ops : forall evsw t, ev_agrees evsw t ->
  match ev_calls ops evsw, ev_specs ops t with
  | Ok evsw', Ok t' => ev_agrees evsw' t'
  | Panic, Panic => True
  | _, _ => False
  end.
Proof.
  induction ops as [|op ops IH]; intros evsw t H; cbn [ev_calls ev_specs]; [done|]. pose proof (ev_call_ok op evsw t H) as H1.
  destruct (ev_call op evsw) as [evsw1|?| |], (ev_spec op t) as [t1|?| |]; try done. by apply IH.
Qed.

Definition started_switch : eventSwitch := (OnStart NewEventSwitch).1.

(** C36: for any sequence of calls that do not overlap on a new switch, its start and stop among them, the switch is a table
    of callbacks by event and listener: firing an event calls exactly the callbacks that were added for it last and not
    removed since, by listener or by listener and event, since the last start.  While the switch is not started its maps
    are nil: adding a listener panics, removing one does nothing and no event calls anything.  No other call panics. *)
Theorem event_switch_refines (ops : list ev_op) :
  match ev_calls ops NewEventSwitch, ev_specs ops None with
  | Ok evsw, Ok t => forall e i, FireEvent e evsw !! i = fired t e i
  | Panic, Panic => True
  | _, _ => False
  end.
Proof.
  assert (ev_agrees NewEventSwitch None) as H by by split. pose proof (ev_calls_ok ops _ _ H) as H1.
  destruct (ev_calls ops NewEventSwitch), (ev_specs ops None); try done. apply H1.
Qed.

(** Threads that overlap: [sched] says whose step is next. *)
Fixpoint interleave (sched : list nat) (ts : list thread) (evsw : eventSwitch) : res unit (list thread * eventSwitch) :=
  match sched with
  | [] => Ok (ts, evsw)
  | j :: sched' =>
      match ts !! j with
      | None => Ok (ts, evsw)
      | Some t => let* (t, evsw) := thread_step t evsw in interleave sched' (<[j := t]> ts) evsw
      end
  end.

(** Two overlaps the switch does not handle.  While the last listener of an event is being
    removed, adding another one can find the cell before it is deleted: the new listener is
    in a cell that no event reaches, though its call has returned.  And adding a callback for
    a listener while the listener is being removed can leave the callback behind. *)
Theorem event_switch_races :
  (exists evsw, (let* evsw := ev_calls [OpAdd [1] [9] 1%nat] started_switch in
     interleave [0; 1; 1; 1; 0; 0]%nat [TAdd [2] [9] 2%nat; TRemFor [9] [1] []] evsw) = Ok ([TDone; TDone], evsw) /\
     FireEvent [9] evsw !! [2] = None) /\
  (exists evsw, (let* evsw := ev_calls [OpAdd [1] [8] 1%nat] started_switch in
     interleave [0; 0; 1; 1; 1; 1; 1; 1; 1; 0]%nat [TAdd [1] [9] 2%nat; TRem [1]] evsw) = Ok ([TDone; TDone], evsw) /\
     FireEvent [9] evsw !! [1] = Some 2%nat).
Proof. split; (eexists; split; [vm_compute; reflexivity|vm_compute; reflexivity]). Qed.

(** ** The event cache *)

(** What was fired into the cache reaches the backend in the same order when it is flushed, once. *)
Lemma Flush_order {D S} (fire : str -> D -> S -> S) (l : list (str * D)) (s : S) :
  let evc := fold_left (fun evc ei => cache_FireEvent ei.1 ei.2 evc) l NewEventCache in
  Flush fire evc s = (NewEventCache, fold_left (fun s ei => fire ei.1 ei.2 s) l s).
Proof.
  cbv zeta. unfold Flush. assert (forall c, cached (fold_left (fun evc ei => cache_FireEvent ei.1 ei.2 evc) l c) = cached c ++ l) as E.
  { induction l as [|[e d] l IH]; intros c; [by rewrite app_nil_r|]. cbn. rewrite IH. cbn. by rewrite <- app_assoc. }
  rewrite E. done.
Qed.
