(* ===== verification/GoBase64.v ===== *)
(** * Go's [encoding/base64], standard encoding

    [StdEncoding.EncodeToString] and [DecodeString] with padding; the decoder
    skips line breaks and does not check trailing padding bits.  Errors are
    [CorruptInputError] without its offset. *)

From S2P Require Import Prelude GoStrings.

Definition encodeStd : list Z :=
  bs "ABCDEFGHIJKLMNOPQRSTUVWXYZabcdefghijklmnopqrstuvwxyz0123456789+/".

Definition padChar : Z := 61.

Inductive base64_err := CorruptInputError.

(** [enc.encode[n&0x3F]]. *)
Definition char64 (n : Z) : Z := nth (Z.to_nat (Z.land n 63)) encodeStd 0.

(** [EncodeToString]: whole groups of three bytes, then the rest with padding. *)
Fixpoint EncodeToString (src : list Z) : list Z :=
  match src with
  | a :: b :: c :: src' =>
      let val := Z.lor (Z.lor (Z.shiftl a 16) (Z.shiftl b 8)) c in
      char64 (Z.shiftr val 18) :: char64 (Z.shiftr val 12) ::
      char64 (Z.shiftr val 6) :: char64 val :: EncodeToString src'
  | [a; b] =>
      let val := Z.lor (Z.shiftl a 16) (Z.shiftl b 8) in
      [char64 (Z.shiftr val 18); char64 (Z.shiftr val 12); char64 (Z.shiftr val 6); padChar]
  | [a] =>
      let val := Z.shiftl a 16 in
      [char64 (Z.shiftr val 18); char64 (Z.shiftr val 12); padChar; padChar]
  | [] => []
  end.

(** [enc.decodeMap[in]]; [None] is 0xff. *)
Fixpoint decode_map (l : list Z) (c : Z) (i : Z) : option Z :=
  match l with
  | [] => None
  | a :: l' => if a =? c then Some i else decode_map l' c (i + 1)
  end.

Definition decodeMap (c : Z) : option Z := decode_map encodeStd c 0.

Definition is_newline (c : Z) : bool := (c =? 10) || (c =? 13).

Fixpoint skip_newlines (src : list Z) : list Z :=
  match src with
  | c :: src' => if is_newline c then skip_newlines src' else src
  | [] => []
  end.

(** What [decodeQuantum] finds: the end of the input, four values, or the
    padded last values. *)
Inductive quantum :=
| QEnd
| QFull (vs : list Z) (rest : list Z)
| QLast (vs : list Z)
| QErr.

(** The padding after [j] values; the first pad character has been read. *)
Definition padding (vs : list Z) (rest : list Z) : quantum :=
  match length vs with
  | 2%nat =>
      match skip_newlines rest with
      | p :: rest' =>
          if p =? padChar then
            match skip_newlines rest' with [] => QLast vs | _ => QErr end
          else QErr
      | [] => QErr
      end
  | 3%nat => match skip_newlines rest with [] => QLast vs | _ => QErr end
  | _ => QErr
  end.

(** [decodeQuantum], [vs] being the values read so far. *)
Fixpoint decodeQuantum (src : list Z) (vs : list Z) : quantum :=
  match src with
  | [] => match vs with [] => QEnd | _ => QErr end
  | c :: src' =>
      match decodeMap c with
      | Some v =>
          if Nat.eqb (length vs) 3 then QFull (vs ++ [v]) src'
          else decodeQuantum src' (vs ++ [v])
      | None =>
          if is_newline c then decodeQuantum src' vs
          else if c =? padChar then padding vs src'
          else QErr
      end
  end.

(** The bytes of the values; missing ones are zero. *)
Definition quantum_bytes (vs : list Z) : list Z :=
  let d i := nth i vs 0 in
  let val := Z.lor (Z.lor (Z.lor (Z.shiftl (d 0%nat) 18) (Z.shiftl (d 1%nat) 12))
                      (Z.shiftl (d 2%nat) 6)) (d 3%nat) in
  take (length vs - 1) [u8 (Z.shiftr val 16); u8 (Z.shiftr val 8); u8 val].

(** The loop over the quanta; each takes at least four characters. *)
Fixpoint decode_loop (fuel : nat) (src : list Z) : res base64_err (list Z) :=
  match fuel with
  | O => NoFuel
  | S f =>
      match decodeQuantum src [] with
      | QEnd => Ok []
      | QFull vs rest => let* r := decode_loop f rest in Ok (quantum_bytes vs ++ r)
      | QLast vs => Ok (quantum_bytes vs)
      | QErr => Err CorruptInputError
      end
  end.

Definition DecodeString (s : list Z) : res base64_err (list Z) := decode_loop (S (length s)) s.

(** ** Round trip *)

Lemma lor_shiftl_add a b n : 0 <= n -> 0 <= b < 2 ^ n -> Z.lor (Z.shiftl a n) b = a * 2 ^ n + b.
Proof.
  intros Hn Hb. rewrite <- Z.shiftl_mul_pow2 by done. symmetry.
  rewrite <- Z.add_lor_land. assert (Z.land (Z.shiftl a n) b = 0) as ->; [|lia].
  apply Z.bits_inj'. intros k Hk. rewrite Z.land_spec, Z.bits_0.
  destruct (Z.lt_ge_cases k n) as [L|L]; [by rewrite Z.shiftl_spec_low|].
  destruct (Z.eq_dec b 0) as [->|]; [by rewrite Z.bits_0, andb_false_r|].
  rewrite (Z.bits_above_log2 b k), andb_false_r; [done|lia|].
  assert (Z.log2 b < n) by (apply Z.log2_lt_pow2; lia). lia.
Qed.

(** A sextet survives the two tables. *)
Lemma decodeMap_char64 n : decodeMap (char64 n) = Some (n mod 64).
Proof.
  unfold char64. change 63 with (Z.ones 6). rewrite Z.land_ones by lia. change (2 ^ 6) with 64.
  pose proof (Z.mod_pos_bound n 64 ltac:(lia)) as R. revert R. generalize (n mod 64) as m.
  intros m R. assert (m ∈ seqZ 0 64) as Hm by (apply elem_of_seqZ; lia). revert m Hm R.
  assert (Forall (fun m => decodeMap (nth (Z.to_nat m) encodeStd 0) = Some m) (seqZ 0 64)) as F.
  { apply (bool_decide_unpack _). vm_compute. exact I. }
  intros m Hm _. rewrite Forall_forall in F. by apply F.
Qed.

Lemma decodeMap_pad : decodeMap padChar = None.
Proof. reflexivity. Qed.

Lemma sextets_val val : 0 <= val < 2 ^ 24 ->
  Z.lor (Z.lor (Z.lor (Z.shiftl (Z.shiftr val 18 mod 64) 18) (Z.shiftl (Z.shiftr val 12 mod 64) 12))
    (Z.shiftl (Z.shiftr val 6 mod 64) 6)) (val mod 64) = val.
Proof.
  intros H. rewrite !Z.shiftr_div_pow2 by lia.
  change (2 ^ 18) with 262144. change (2 ^ 12) with 4096. change (2 ^ 6) with 64.
  pose proof (Z.mod_pos_bound (val / 262144) 64 ltac:(lia)).
  pose proof (Z.mod_pos_bound (val / 4096) 64 ltac:(lia)).
  pose proof (Z.mod_pos_bound (val / 64) 64 ltac:(lia)).
  pose proof (Z.mod_pos_bound val 64 ltac:(lia)).
  rewrite <- !Z.lor_assoc. rewrite (lor_shiftl_add _ (val mod 64) 6) by lia.
  rewrite (lor_shiftl_add _ _ 12) by lia. rewrite (lor_shiftl_add _ _ 18) by lia.
  pose proof (Z.div_mod val 64 ltac:(lia)). pose proof (Z.div_mod (val / 64) 64 ltac:(lia)).
  pose proof (Z.div_mod (val / 4096) 64 ltac:(lia)).
  replace (val / 64 / 64) with (val / 4096) in * by (rewrite Z.div_div by lia; reflexivity).
  replace (val / 4096 / 64) with (val / 262144) in * by (rewrite Z.div_div by lia; reflexivity).
  assert (val / 262144 < 64) by (apply Z.div_lt_upper_bound; lia).
  rewrite (Z.mod_small (val / 262144)) by (split; [apply Z.div_pos; lia|done]). lia.
Qed.

Lemma bytes_val a b c : byte_ok a -> byte_ok b -> byte_ok c ->
  Z.lor (Z.lor (Z.shiftl a 16) (Z.shiftl b 8)) c = a * 65536 + b * 256 + c.
Proof.
  unfold byte_ok. intros. rewrite <- Z.lor_assoc. rewrite (lor_shiftl_add b c 8) by lia.
  rewrite (lor_shiftl_add a _ 16) by lia. lia.
Qed.

Lemma val_bytes a b c : byte_ok a -> byte_ok b -> byte_ok c ->
  let val := a * 65536 + b * 256 + c in
  [u8 (Z.shiftr val 16); u8 (Z.shiftr val 8); u8 val] = [a; b; c].
Proof.
  intros Ha Hb Hc val. unfold byte_ok, uN in *. rewrite !Z.shiftr_div_pow2 by lia.
  change (2 ^ 16) with 65536. change (2 ^ 8) with 256.
  assert (val / 65536 = a) as -> by (symmetry; apply (Z.div_unique _ _ a (b * 256 + c)); unfold val; lia).
  assert (val / 256 = a * 256 + b) as -> by (symmetry; apply (Z.div_unique _ _ _ c); unfold val; lia).
  assert (val mod 256 = c) as ->
    by (symmetry; apply (Z.mod_unique _ _ (a * 256 + b) c); unfold val; lia).
  rewrite (Z.mod_small a) by lia.
  by rewrite Z.add_comm, Z.mod_add, Z.mod_small by lia.
Qed.

(** One group: three bytes, through four characters and back. *)
Lemma group_bytes a b c : byte_ok a -> byte_ok b -> byte_ok c ->
  let val := Z.lor (Z.lor (Z.shiftl a 16) (Z.shiftl b 8)) c in
  quantum_bytes [Z.shiftr val 18 mod 64; Z.shiftr val 12 mod 64; Z.shiftr val 6 mod 64; val mod 64] =
  [a; b; c].
Proof.
  intros Ha Hb Hc. cbv zeta. rewrite bytes_val by done. unfold quantum_bytes. cbn [length nth].
  rewrite sextets_val by (unfold byte_ok in *; lia). by rewrite val_bytes.
Qed.

Lemma group_quantum w x y z r :
  decodeQuantum (char64 w :: char64 x :: char64 y :: char64 z :: r) [] =
  QFull [w mod 64; x mod 64; y mod 64; z mod 64] r.
Proof. cbn [decodeQuantum]. rewrite !decodeMap_char64. reflexivity. Qed.

(** Missing bytes of the last group are zero. *)
Lemma last_bytes a b : byte_ok a -> byte_ok b ->
  let val := Z.lor (Z.shiftl a 16) (Z.shiftl b 8) in
  quantum_bytes [Z.shiftr val 18 mod 64; Z.shiftr val 12 mod 64; Z.shiftr val 6 mod 64] = [a; b] /\
  (b = 0 -> quantum_bytes [Z.shiftr val 18 mod 64; Z.shiftr val 12 mod 64] = [a]).
Proof.
  intros Ha Hb. cbv zeta. assert (byte_ok 0) as H0 by (unfold byte_ok; lia).
  pose proof (bytes_val a b 0 Ha Hb H0) as V. rewrite Z.lor_0_r in V.
  pose proof (group_bytes a b 0 Ha Hb H0) as G. cbv zeta in G. rewrite Z.lor_0_r in G.
  rewrite V in *. set (val := a * 65536 + b * 256 + 0) in *.
  assert (val mod 64 = 0) as M0 by (apply Z.mod_divide; [lia|]; exists (a * 1024 + b * 4); unfold val; lia).
  rewrite M0 in G. unfold quantum_bytes in *. cbn [length nth take] in *. split.
  - change (4 - 1)%nat with 3%nat in G. change (3 - 1)%nat with 2%nat. cbn [take] in *. congruence.
  - intros ->. change (4 - 1)%nat with 3%nat in G. change (2 - 1)%nat with 1%nat. cbn [take] in *.
    assert (Z.shiftr val 6 mod 64 = 0) as M1.
    { rewrite Z.shiftr_div_pow2 by lia. change (2 ^ 6) with 64. apply Z.mod_divide; [lia|].
      exists (a * 16). unfold val. replace (a * 65536 + 0 * 256 + 0) with ((a * 1024) * 64) by lia.
      rewrite Z.div_mul by lia. lia. }
    rewrite M1 in G. congruence.
Qed.

Lemma decode_loop_EncodeToString f b : bytes_ok b -> (length (EncodeToString b) < f)%nat ->
  decode_loop f (EncodeToString b) = Ok b.
Proof.
  revert f. induction b as [b IH] using (induction_ltof1 _ length). unfold ltof in IH.
  intros [|f] Hb Hf; [lia|]. destruct b as [|a [|b [|c r]]].
  - reflexivity.
  - apply bytes_ok_cons in Hb as [Ha _].
    destruct (last_bytes a 0 Ha ltac:(unfold byte_ok; lia)) as [_ L]. specialize (L eq_refl).
    cbn [EncodeToString]. rewrite Z.shiftl_0_l, Z.lor_0_r in L.
    cbn [decode_loop decodeQuantum]. rewrite !decodeMap_char64. cbn. f_equal. exact L.
  - apply bytes_ok_cons in Hb as [Ha Hb]. apply bytes_ok_cons in Hb as [Hb _].
    destruct (last_bytes a b Ha Hb) as [L _].
    cbn [EncodeToString decode_loop decodeQuantum]. rewrite !decodeMap_char64. cbn. f_equal. exact L.
  - apply bytes_ok_cons in Hb as [Ha Hb]. apply bytes_ok_cons in Hb as [Hb Hc].
    apply bytes_ok_cons in Hc as [Hc Hr]. cbn [EncodeToString length] in *.
    cbn [decode_loop]. rewrite group_quantum, group_bytes by done.
    rewrite IH by (cbn; done || lia). done.
Qed.

Lemma DecodeString_EncodeToString b : bytes_ok b -> DecodeString (EncodeToString b) = Ok b.
Proof. intros H. apply decode_loop_EncodeToString; [done|lia]. Qed.
