(* ===== verification/PrimeCert.v ===== *)
(** * Primality certificates

    The field of src/tendermint/ed25519/edwards25519 is that of the integers
    modulo [2^255 - 19].  That this number is prime is proved here with
    Pocklington's criterion: a certificate for [n] names a few known primes
    whose product [F] divides [n - 1] and satisfies [n < (F + 1)^2], and a base
    whose powers modulo [n] are checked by computation. *)

From Stdlib Require Import Zmod Zdivisibility Zpow_facts.
From S2P Require Import Prelude.

(** Trial division, for the primes at the leaves of the certificates. *)
Definition no_divisor_below (n : Z) (k : nat) : bool :=
  forallb (fun i => negb (n mod Z.of_nat i =? 0)) (seq 2 (k - 2)).

(** [q] is one of the primes of the certificate of [n]. *)
Definition pocklington_at (n a q : Z) : bool :=
  (0 <? q) && ((n - 1) mod q =? 0) && (Z.gcd (Zpow_mod a ((n - 1) / q) n - 1) n =? 1).

Definition pocklington (n a : Z) (qs : list Z) : bool :=
  let F := fold_right Z.mul 1 qs in
  (1 <? n) && (0 <? a) && (n <? (F + 1) * (F + 1)) && forallb (pocklington_at n a) qs &&
  (Zpow_mod a (n - 1) n =? 1) && bool_decide (NoDup qs).

#[export] Instance Z_divide_dec (a b : Z) : Decision (a | b).
Proof.
  destruct ((b =? 0) || negb (a =? 0) && (b mod a =? 0)) eqn:E; [left|right];
    abstract (by destruct (Z.BoolSpec_divide a b)).
Defined.

Lemma prime_divisor n : 1 < n -> exists r, Z.prime r /\ (r | n).
Proof.
  induction (Z.lt_wf 1 n) as [n _ IH]. intros Hn.
  destruct (decide (Exists (fun i => (Z.of_nat i | n)) (seq 2 (Z.to_nat n - 2)))) as [H|H].
  - apply Exists_exists in H as (i & Hi%elem_of_seq & Hd).
    destruct (IH (Z.of_nat i)) as (r & Hr & Hri); [lia..|].
    exists r. split; [done|]. by etrans.
  - exists n. split; [|reflexivity]. split; [done|]. intros m Hm Hd. apply H, Exists_exists.
    exists (Z.to_nat m). rewrite elem_of_seq, Z2Nat.id by lia. split; [lia|done].
Qed.

(** A number without a prime divisor up to its square root is prime. *)
Lemma prime_by_divisors n : 1 < n ->
  (forall r, Z.prime r -> (r | n) -> n < r * r) -> Z.prime n.
Proof.
  intros Hn H. split; [done|]. intros m Hm [k ->].
  assert (exists s t, 1 < s /\ s <= t /\ k * m = s * t) as (s & t & Hs & Hst & E).
  { destruct (Z.le_gt_cases m k); [exists m, k|exists k, m]; nia. }
  destruct (prime_divisor s Hs) as (r & Hr & Hrs).
  assert (r <= s) by (apply Z.divide_pos_le; [lia|done]).
  pose proof (Z.prime_ge_2 r Hr).
  specialize (H r Hr). rewrite E in H. specialize (H (Z.divide_mul_l _ _ _ Hrs)). nia.
Qed.

Lemma prime_small n k : 1 < n -> n < Z.of_nat k * Z.of_nat k ->
  no_divisor_below n k = true -> Z.prime n.
Proof.
  intros Hn Hk H. apply prime_by_divisors; [done|]. intros r Hr Hd.
  pose proof (Z.prime_ge_2 r Hr).
  destruct (Z.lt_ge_cases r (Z.of_nat k)) as [Hl|]; [|nia].
  unfold no_divisor_below in H. rewrite forallb_forall in H.
  specialize (H (Z.to_nat r)). rewrite in_seq, Z2Nat.id in H by lia. specialize (H ltac:(lia)).
  apply negb_true_iff, Z.eqb_neq in H. by apply Z.mod_divide in Hd; [|lia].
Qed.

(** The order of [a^R] modulo a prime [r] is [q], so that [q] divides [r - 1]. *)
Lemma order_divides r q R a : Z.prime r -> Z.prime q -> 0 <= R ->
  a ^ (R * q) mod r = 1 -> a ^ R mod r <> 1 -> (q | r - 1).
Proof.
  intros Hr Hq HR H1 Hn. pose proof (Z.prime_ge_2 r Hr). pose proof (Z.prime_ge_2 q Hq).
  destruct (decide (q | r - 1)) as [?|Hd]; [done|]. exfalso.
  apply Z.coprime_prime_l, Z.Bezout_coprime in Hd as (u & v & E); [|done].
  set (b := Zmod.of_Z r (a ^ R)).
  assert (Hb : Zmod.pow b q = Zmod.one).
  { apply Zmod.to_Z_inj. unfold b. rewrite Zmod.to_Z_pow_nonneg_r, Zmod.to_Z_of_Z by lia.
    rewrite Z.mod_pow_l, <- Z.pow_mul_r, H1 by lia. by rewrite Zmod.to_Z_1_pos by lia. }
  assert (Hz : b <> Zmod.zero).
  { intros Ez. rewrite Ez, Zmod.pow_0_l in Hb by lia. symmetry in Hb. revert Hb.
    apply Zmod.one_neq_zero. lia. }
  assert (Hc : Z.gcd (Zmod.to_Z b) r = 1).
  { rewrite Z.gcd_comm. apply Z.coprime_prime_small; [done|].
    pose proof (Zmod.to_Z_range b). apply Zmod.to_Z_nz in Hz. lia. }
  apply Hn. assert (b = Zmod.one) as Eb.
  { transitivity (Zmod.pow b (q * u + (r - 1) * v)).
    - replace (q * u + (r - 1) * v) with 1 by lia. by rewrite Zmod.pow_1_r.
    - rewrite Zmod.pow_add_r_coprime, !Zmod.pow_mul_r_coprime, Hb by done.
      replace (r - 1) with (Z.pred r) by lia. rewrite Zmod.fermat_nz by done.
      by rewrite !Zmod.pow_1_l, Zmod.mul_1_l. }
  apply (f_equal Zmod.to_Z) in Eb. unfold b in Eb.
  by rewrite Zmod.to_Z_of_Z, Zmod.to_Z_1_pos in Eb by lia.
Qed.

Lemma divide_all_primes qs m : Forall Z.prime qs -> NoDup qs ->
  Forall (fun q => (q | m)) qs -> (fold_right Z.mul 1 qs | m).
Proof.
  intros Hp Hn Hd. induction qs as [|q qs IH]; cbn; [apply Z.divide_1_l|].
  apply Forall_cons in Hp as [Hq Hp]. apply NoDup_cons in Hn as [Hni Hn].
  apply Forall_cons in Hd as [Hqd Hd]. specialize (IH Hp Hn Hd).
  destruct Hqd as [k ->]. rewrite (Z.mul_comm k). apply Z.mul_divide_mono_l.
  rewrite Z.mul_comm in IH. apply Z.gauss with q; [done|].
  rewrite Z.gcd_comm. apply Z.coprime_prime_l; [done|].
  clear -Hq Hp Hni. induction qs as [|r qs IH]; cbn.
  - intros ?%Z.divide_1_r_nonneg; pose proof (Z.prime_ge_2 q Hq); lia.
  - apply Forall_cons in Hp as [Hr Hp]. intros [H|H]%Z.divide_prime_mul; [| |done].
    + apply Hni. apply Z.divide_prime_prime in H as ->; [left|done..].
    + apply IH; [done| |done]. intros ?. apply Hni. by right.
Qed.

Lemma Zpow_mod_spec a k n : 0 <= k -> 1 < n -> Zpow_mod a k n = a ^ k mod n.
Proof. intros Hk Hn. apply Zpow_mod_correct. lia. Qed.

Lemma mod_1_of_divide a m n : 1 < m -> 1 < n -> (m | n) -> a mod n = 1 -> a mod m = 1.
Proof.
  intros Hm Hn [k ->] H. rewrite (Z.div_mod a (k * m)), H by lia.
  replace (k * m * (a / (k * m)) + 1) with (1 + (k * (a / (k * m))) * m) by ring.
  rewrite Z.mod_add by lia. by apply Z.mod_small.
Qed.

(** Pocklington's criterion. *)
Lemma pocklington_prime n a qs : Forall Z.prime qs -> pocklington n a qs = true -> Z.prime n.
Proof.
  unfold pocklington. rewrite !andb_true_iff, bool_decide_eq_true, forallb_forall.
  intros Hp (((((Hn & Ha) & HF) & Hqs) & H1) & Hnd). zbool.
  apply prime_by_divisors; [done|]. intros r Hr Hd. pose proof (Z.prime_ge_2 r Hr).
  assert (Hall : Forall (fun q => (q | r - 1)) qs).
  { apply Forall_forall. intros q Hq. apply list_elem_of_In, Hqs in Hq as Hat.
    unfold pocklington_at in Hat. zbool. rewrite Zpow_mod_spec in * by (try apply Z.div_pos; lia).
    assert (E : (n - 1) / q * q = n - 1).
    { rewrite (Z.div_mod (n - 1) q) at 2 by lia. lia. }
    eapply (order_divides r q ((n - 1) / q) a); [done|by apply (proj1 (Forall_forall _ _) Hp), list_elem_of_In|apply Z.div_pos; lia|..].
    - rewrite E. apply (mod_1_of_divide _ _ n); [lia|done..].
    - intros Hm. assert (r | 1) as ?%Z.divide_pos_le; [|lia..].
      match goal with G : Z.gcd _ n = 1 |- _ => rewrite <- G end.
      apply Z.gcd_greatest; [|done]. destruct Hd as [k Hk].
      exists ((a ^ ((n - 1) / q)) / r - k * (a ^ ((n - 1) / q) / n)).
      rewrite Z.mod_eq by lia.
      pose proof (Z.div_mod (a ^ ((n - 1) / q)) r). lia. }
  assert (fold_right Z.mul 1 qs <= r - 1).
  { apply Z.divide_pos_le; [lia|]. by apply divide_all_primes. }
  assert (0 <= fold_right Z.mul 1 qs); [|nia].
  clear -Hp. induction Hp as [|q qs Hq _ IH]; cbn; [done|]. pose proof (Z.prime_ge_2 q Hq). nia.
Qed.

(** ** The prime of the field *)

Definition p25519 : Z := 57896044618658097711785492504343953926634992332820282019728792003956564819949.

Lemma p25519_eq : p25519 = 2 ^ 255 - 19.
Proof. reflexivity. Qed.

Ltac prime_leaf k := apply (prime_small _ k); [lia|lia|vm_compute; reflexivity].
Ltac prime_cert qs :=
  apply (pocklington_prime _ 2 qs); [repeat constructor|vm_compute; reflexivity].

Lemma prime_8574133 : Z.prime 8574133.
Proof. prime_cert [991; 103]; [prime_leaf 32%nat|prime_leaf 12%nat]. Qed.

Lemma prime_1919519569386763 : Z.prime 1919519569386763.
Proof. prime_cert [8574133; 127]; [apply prime_8574133|prime_leaf 12%nat]. Qed.

Lemma prime_569003 : Z.prime 569003.
Proof. prime_cert [419; 97]; [prime_leaf 21%nat|prime_leaf 10%nat]. Qed.

Lemma prime_72106336199 : Z.prime 72106336199.
Proof. prime_cert [2773320623]. prime_cert [569003]. apply prime_569003. Qed.

Lemma prime_75445702479781427272750846543864801 : Z.prime 75445702479781427272750846543864801.
Proof.
  prime_cert [1919519569386763; 72106336199];
    [apply prime_1919519569386763|apply prime_72106336199].
Qed.

Lemma prime_31757755568855353 : Z.prime 31757755568855353.
Proof.
  prime_cert [430751; 4153].
  - prime_cert [1723]. prime_leaf 42%nat.
  - prime_leaf 65%nat.
Qed.

Lemma prime_p25519 : Z.prime p25519.
Proof.
  prime_cert [74058212732561358302231226437062788676166966415465897661863160754340907].
  prime_cert [75445702479781427272750846543864801; 31757755568855353];
    [apply prime_75445702479781427272750846543864801|apply prime_31757755568855353].
Qed.
