(* ===== verification/EdCurve.v ===== *)
(** * The group of a twisted Edwards curve

    The curve [- x^2 + y^2 = 1 + d x^2 y^2] over the integers modulo a prime, the
    addition law on its points and the proof that they form a commutative group:
    the sum is defined for all points because [d] is not a square and [-1] is.
    Closure and associativity are identities modulo the curve equations, with the
    multiples of the equations written out.  This is what the group elements of
    src/tendermint/ed25519/edwards25519 stand for. *)

From Stdlib Require Import Zmod Zdivisibility Field.
From S2P Require Import Prelude.

(** ** Multiples in a commutative group *)

Class CommGroup (A : Type) := {
  cg_add : A -> A -> A;
  cg_zero : A;
  cg_neg : A -> A;
  cg_assoc : forall x y z, cg_add x (cg_add y z) = cg_add (cg_add x y) z;
  cg_comm : forall x y, cg_add x y = cg_add y x;
  cg_zero_l : forall x, cg_add cg_zero x = x;
  cg_neg_l : forall x, cg_add (cg_neg x) x = cg_zero;
}.

Section multiples.
Context `{CommGroup A}.

Fixpoint nmul (n : nat) (x : A) : A :=
  match n with
  | O => cg_zero
  | S n' => cg_add x (nmul n' x)
  end.

(** [smul z x] is [z] times [x]. *)
Definition smul (z : Z) (x : A) : A :=
  match z with
  | Zneg n => cg_neg (nmul (Pos.to_nat n) x)
  | _ => nmul (Z.to_nat z) x
  end.

Lemma cg_zero_r x : cg_add x cg_zero = x.
Proof. by rewrite cg_comm, cg_zero_l. Qed.

Lemma cg_cancel_l x y z : cg_add x y = cg_add x z -> y = z.
Proof.
  intros E. rewrite <- (cg_zero_l y), <- (cg_zero_l z), <- (cg_neg_l x), <- !cg_assoc. by rewrite E.
Qed.

Lemma cg_neg_unique x y : cg_add x y = cg_zero -> y = cg_neg x.
Proof. intros E. apply (cg_cancel_l x). by rewrite E, cg_comm, cg_neg_l. Qed.

Lemma cg_neg_zero : cg_neg cg_zero = cg_zero.
Proof. symmetry. apply cg_neg_unique, cg_zero_l. Qed.

Lemma cg_neg_neg x : cg_neg (cg_neg x) = x.
Proof. symmetry. apply cg_neg_unique, cg_neg_l. Qed.

Lemma cg_swap a b c e : cg_add (cg_add a b) (cg_add c e) = cg_add (cg_add a c) (cg_add b e).
Proof. by rewrite !cg_assoc, <- (cg_assoc a b c), (cg_comm b c), !cg_assoc. Qed.

Lemma cg_neg_add x y : cg_neg (cg_add x y) = cg_add (cg_neg x) (cg_neg y).
Proof.
  symmetry. apply cg_neg_unique. rewrite cg_swap, (cg_comm x), (cg_comm y), !cg_neg_l.
  apply cg_zero_l.
Qed.

Lemma nmul_add m n x : nmul (m + n) x = cg_add (nmul m x) (nmul n x).
Proof. induction m as [|m IH]; cbn; [by rewrite cg_zero_l|]. by rewrite IH, cg_assoc. Qed.

Lemma smul_nonneg z x : 0 <= z -> smul z x = nmul (Z.to_nat z) x.
Proof. by destruct z. Qed.

Lemma smul_neg z x : smul (- z) x = cg_neg (smul z x).
Proof. destruct z; [exact (eq_sym cg_neg_zero)|done|exact (eq_sym (cg_neg_neg _))]. Qed.

Lemma nmul_sub m n x : (n <= m)%nat -> nmul (m - n) x = cg_add (nmul m x) (cg_neg (nmul n x)).
Proof.
  intros Hl. replace m with (m - n + n)%nat at 2 by lia.
  by rewrite nmul_add, <- cg_assoc, (cg_comm (nmul n x)), cg_neg_l, cg_zero_r.
Qed.

Lemma smul_sub_nonneg a b x : 0 <= a -> 0 <= b ->
  smul (a - b) x = cg_add (smul a x) (cg_neg (smul b x)).
Proof.
  intros Ha Hb. rewrite (smul_nonneg a x Ha), (smul_nonneg b x Hb). destruct (Z.le_ge_cases b a).
  - rewrite smul_nonneg, Z2Nat.inj_sub by lia. apply nmul_sub. lia.
  - replace (a - b) with (- (b - a)) by lia.
    rewrite smul_neg, smul_nonneg, Z2Nat.inj_sub, nmul_sub by lia.
    by rewrite cg_neg_add, cg_neg_neg, cg_comm.
Qed.

Lemma smul_add a b x : smul (a + b) x = cg_add (smul a x) (smul b x).
Proof.
  destruct (Z.le_ge_cases 0 a), (Z.le_ge_cases 0 b).
  - rewrite !smul_nonneg, Z2Nat.inj_add by lia. apply nmul_add.
  - replace (a + b) with (a - (- b)) by lia. rewrite smul_sub_nonneg by lia.
    by rewrite smul_neg, cg_neg_neg.
  - replace (a + b) with (b - (- a)) by lia. rewrite smul_sub_nonneg by lia.
    by rewrite smul_neg, cg_neg_neg, cg_comm.
  - replace (a + b) with (- (- a - b)) by lia. rewrite smul_neg.
    replace (- a - b) with (- a + - b) by lia.
    rewrite smul_nonneg, Z2Nat.inj_add, nmul_add, <- !smul_nonneg by lia.
    by rewrite !smul_neg, cg_neg_add, !cg_neg_neg.
Qed.

Lemma smul_0 x : smul 0 x = cg_zero.
Proof. done. Qed.

Lemma smul_1 x : smul 1 x = x.
Proof. exact (cg_zero_r x). Qed.

Lemma smul_double a x : smul (2 * a) x = cg_add (smul a x) (smul a x).
Proof. replace (2 * a) with (a + a) by lia. apply smul_add. Qed.

Lemma smul_zero a : smul a cg_zero = cg_zero.
Proof.
  assert (E : forall n, nmul n cg_zero = cg_zero).
  { induction n as [|n IH]; cbn; [done|]. by rewrite IH, cg_zero_l. }
  destruct a; [done|apply E|]. unfold smul. by rewrite E, cg_neg_zero.
Qed.

Lemma smul_smul a b x : smul a (smul b x) = smul (a * b) x.
Proof.
  assert (E : forall n : nat, smul (Z.of_nat n) (smul b x) = smul (Z.of_nat n * b) x).
  { induction n as [|n IH]; [done|]. rewrite Nat2Z.inj_succ, <- Z.add_1_l.
    rewrite smul_add, IH, smul_1, <- smul_add. f_equal. lia. }
  destruct (Z.le_ge_cases 0 a).
  - rewrite <- (Z2Nat.id a) by done. apply E.
  - replace a with (- Z.of_nat (Z.to_nat (- a))) by lia.
    rewrite smul_neg, E, <- smul_neg. f_equal. lia.
Qed.

Lemma smul_neg_r a x : smul a (cg_neg x) = cg_neg (smul a x).
Proof.
  rewrite <- (smul_1 x) at 1. rewrite <- smul_neg, smul_smul, <- smul_neg. f_equal. lia.
Qed.

(** The multiples of an element of finite order. *)
Lemma smul_order n a x : 0 < n -> smul n x = cg_zero -> smul (a mod n) x = smul a x.
Proof.
  intros Hn E. rewrite (Z.div_mod a n) at 2 by lia.
  rewrite smul_add, Z.mul_comm, <- smul_smul, E, smul_zero. by rewrite cg_zero_l.
Qed.
End multiples.

(** ** The curve *)

Local Open Scope Zmod_scope.

Section curve.
Context (q : Z) (Hq : Z.prime q) (d i : Zmod q).
Hypothesis two_nz : 1 + 1 <> (0 : Zmod q).
Hypothesis i_sq : i * i = - (1).
Hypothesis d_nonsquare : forall s, s * s <> d.

Add Field Zmod_field : (Zmod.field_theory q Hq).

Local Abbreviation F := (Zmod q).
Local Infix "/" := Zmod.mdiv : Zmod_scope.

(** [- x^2 + y^2 - 1 - d x^2 y^2]. *)
Definition curve_eq (x y : F) : F := y * y - x * x - 1 - d * x * x * y * y.
Definition on_curve (x y : F) : Prop := curve_eq x y = 0.

Lemma mul_nz (a b : F) : a <> 0 -> b <> 0 -> a * b <> 0.
Proof. intros Ha Hb [|]%Zmod.mul_0_iff_prime; done. Qed.

Lemma nz_mul_l (a b : F) : a * b <> 0 -> a <> 0.
Proof. intros H ->. apply H. ring. Qed.

Lemma nz_mul_r (a b : F) : a * b <> 0 -> b <> 0.
Proof. intros H ->. apply H. ring. Qed.

(** If [d x1 x2 y1 y2] were [e] with [e^2 = 1], then [d] would be a square. *)
Lemma edwards_square x1 y1 x2 y2 (s e : F) : on_curve x1 y1 -> on_curve x2 y2 ->
  s * s = 1 -> e = d * x1 * x2 * y1 * y2 -> e * e = 1 -> i * x2 + s * y2 = 0.
Proof.
  intros H1 H2 Hs He Hee. destruct (Zmod.eqb_spec (i * x2 + s * y2) 0) as [|Hnz]; [done|exfalso].
  assert (Hxy : e <> 0).
  { intros E. rewrite E in Hee. apply (Zmod.one_neq_zero (m := q)).
    - pose proof (Z.prime_ge_2 q Hq). lia.
    - rewrite <- Hee. ring. }
  rewrite He in Hxy. assert (x1 <> 0) by (intros ->; apply Hxy; ring).
  assert (y1 <> 0) by (intros ->; apply Hxy; ring).
  apply (d_nonsquare ((i * x1 + s * e * y1) / (x1 * y1 * (i * x2 + s * y2)))).
  assert (E : d * (x1 * y1 * (i * x2 + s * y2)) * (x1 * y1 * (i * x2 + s * y2)) =
    (i * x1 + s * e * y1) * (i * x1 + s * e * y1)).
  { unfold on_curve, curve_eq in *.
    transitivity (d * x1 * x1 * y1 * y1 * (i * i * x2 * x2 + s * s * y2 * y2) +
      (1 + 1) * s * i * (d * x1 * x2 * y1 * y2) * x1 * y1); [ring|].
    transitivity (i * i * x1 * x1 + s * s * (e * e) * y1 * y1 + (1 + 1) * s * i * e * x1 * y1); [|ring].
    rewrite <- He, i_sq, Hs, Hee.
    transitivity (- (1) * x1 * x1 + y1 * y1 + (1 + 1) * s * i * e * x1 * y1
      + d * x1 * x1 * y1 * y1 * (y2 * y2 - x2 * x2 - 1 - d * x2 * x2 * y2 * y2)
      - (y1 * y1 - x1 * x1 - 1 - d * x1 * x1 * y1 * y1)
      + ((d * x1 * x2 * y1 * y2) * (d * x1 * x2 * y1 * y2) - 1)); [ring|].
    rewrite H1, H2, <- He, Hee. ring. }
  transitivity ((i * x1 + s * e * y1) * (i * x1 + s * e * y1) /
    ((x1 * y1 * (i * x2 + s * y2)) * (x1 * y1 * (i * x2 + s * y2)))).
  { field. repeat split; done. }
  rewrite <- E. field. repeat split; done.
Qed.

(** The denominators of the addition law do not vanish. *)
Lemma denominator_nz x1 y1 x2 y2 : on_curve x1 y1 -> on_curve x2 y2 ->
  1 + d * x1 * x2 * y1 * y2 <> 0 /\ 1 - d * x1 * x2 * y1 * y2 <> 0.
Proof.
  intros H1 H2. assert (K : forall e, e = d * x1 * x2 * y1 * y2 -> e * e <> 1).
  { intros e He Hee.
    pose proof (edwards_square x1 y1 x2 y2 1 e H1 H2 ltac:(ring) He Hee) as A1.
    pose proof (edwards_square x1 y1 x2 y2 (- (1)) e H1 H2 ltac:(ring) He Hee) as A2.
    assert (E : (1 + 1) * y2 = 0).
    { transitivity ((i * x2 + 1 * y2) - (i * x2 + - (1) * y2)); [ring|]. rewrite A1, A2. ring. }
    apply Zmod.mul_0_iff_prime in E as [|E]; [done| |done].
    rewrite He, E in Hee. apply (Zmod.one_neq_zero (m := q)); [pose proof (Z.prime_ge_2 q Hq); lia|].
    rewrite <- Hee. ring. }
  split; intros E; apply (K _ eq_refl); set (e := d * x1 * x2 * y1 * y2) in *.
  - transitivity ((1 + e) * (e - 1) + 1); [ring|]. rewrite E. ring.
  - transitivity ((1 - e) * (- (1) - e) + 1); [ring|]. rewrite E. ring.
Qed.

Definition add_x (x1 y1 x2 y2 : F) : F := (x1 * y2 + y1 * x2) / (1 + d * x1 * x2 * y1 * y2).
Definition add_y (x1 y1 x2 y2 : F) : F := (y1 * y2 + x1 * x2) / (1 - d * x1 * x2 * y1 * y2).

(** The sum is on the curve. *)
Lemma closure_eq x1 y1 x2 y2 : on_curve x1 y1 -> on_curve x2 y2 ->
  let X := x1 * y2 + y1 * x2 in let Y := y1 * y2 + x1 * x2 in
  let e := d * x1 * x2 * y1 * y2 in
  Y * Y * (1 + e) * (1 + e) - X * X * (1 - e) * (1 - e)
    - (1 + e) * (1 + e) * (1 - e) * (1 - e) - d * X * X * Y * Y = 0.
Proof.
  intros H1 H2. cbv zeta.
  transitivity ((y2*y2*y2*y2 - (1+1)*(1+1)*x2*x2*y2*y2 - (1+1)*x2*x2*y2*y2*d + (1+1)*x2*x2*y2*y2*y2*y2
    + x2*x2*x2*x2 - (1+1)*x2*x2*x2*x2*y2*y2 - (1+1)*x2*x2*x2*x2*y2*y2*y2*y2*d -
    x2*x2*x2*x2*y2*y2*y2*y2*d*d - y1*y1*x2*x2*y2*y2*y2*y2*d + y1*y1*x2*x2*x2*x2*y2*y2*d +
    y1*y1*x2*x2*x2*x2*y2*y2*y2*y2*d*d + x1*x1*x2*x2*y2*y2*y2*y2*d -
    x1*x1*x2*x2*x2*x2*y2*y2*d - x1*x1*x2*x2*x2*x2*y2*y2*y2*y2*d*d +
    x1*x1*y1*y1*x2*x2*x2*x2*y2*y2*y2*y2*d*d*d)
    * curve_eq x1 y1 +
    (1 + y2*y2 - x2*x2 + (1+1)*x2*x2*y2*y2 + x2*x2*y2*y2*d - y1*y1*y2*y2 + y1*y1*x2*x2 -
    (1+1)*y1*y1*x2*x2*y2*y2 - (1+1)*y1*y1*x2*x2*y2*y2*d + y1*y1*y1*y1*x2*x2*y2*y2*d +
    x1*x1*y2*y2 - x1*x1*x2*x2 + (1+1)*x1*x1*x2*x2*y2*y2 + (1+1)*x1*x1*x2*x2*y2*y2*d +
    x1*x1*x1*x1*x2*x2*y2*y2*d)
    * curve_eq x2 y2).
  - unfold curve_eq. ring.
  - rewrite H1, H2. ring.
Qed.

Lemma on_curve_add x1 y1 x2 y2 : on_curve x1 y1 -> on_curve x2 y2 ->
  on_curve (add_x x1 y1 x2 y2) (add_y x1 y1 x2 y2).
Proof.
  intros H1 H2. pose proof (closure_eq x1 y1 x2 y2 H1 H2) as E. cbv zeta in E.
  destruct (denominator_nz x1 y1 x2 y2 H1 H2) as [D1 D2].
  unfold on_curve, curve_eq, add_x, add_y.
  match type of E with ?l = _ => transitivity (l / ((1 + d * x1 * x2 * y1 * y2) *
    (1 + d * x1 * x2 * y1 * y2) * (1 - d * x1 * x2 * y1 * y2) * (1 - d * x1 * x2 * y1 * y2))) end.
  - field. done.
  - rewrite E. field. done.
Qed.

(** Associativity, with the denominators cleared. *)
Lemma assoc_eq x1 y1 x2 y2 x3 y3 : on_curve x1 y1 -> on_curve x2 y2 -> on_curve x3 y3 ->
  let x12 := x1 * y2 + y1 * x2 in let y12 := y1 * y2 + x1 * x2 in
  let a12 := 1 + d * x1 * x2 * y1 * y2 in let b12 := 1 - d * x1 * x2 * y1 * y2 in
  let x23 := x2 * y3 + y2 * x3 in let y23 := y2 * y3 + x2 * x3 in
  let a23 := 1 + d * x2 * x3 * y2 * y3 in let b23 := 1 - d * x2 * x3 * y2 * y3 in
  (x12 * b12 * y3 + y12 * a12 * x3) * (a23 * b23 + d * x1 * x23 * y1 * y23)
    - (x1 * y23 * a23 + y1 * x23 * b23) * (a12 * b12 + d * x12 * x3 * y12 * y3) = 0 /\
  (y12 * a12 * y3 + x12 * b12 * x3) * (a23 * b23 - d * x1 * x23 * y1 * y23)
    - (y1 * y23 * a23 + x1 * x23 * b23) * (a12 * b12 - d * x12 * x3 * y12 * y3) = 0.
Proof.
  intros H1 H2 H3. cbv zeta. split.
  - transitivity ((0 - y1*x2*y2*y2*y2*y2*x3*x3*y3*d - y1*x2*x2*y2*y2*y2*x3*d -
    y1*x2*x2*y2*y2*y2*x3*x3*x3*d - y1*x2*x2*x2*y2*y2*y3*d + y1*x2*x2*x2*y2*y2*y3*y3*y3*d +
    y1*x2*x2*x2*y2*y2*y2*y2*x3*x3*y3*d*d + y1*x2*x2*x2*x2*y2*x3*y3*y3*d +
    y1*x2*x2*x2*x2*y2*y2*y2*x3*y3*y3*d*d + x1*x2*y2*y2*y2*y2*x3*y3*y3*d -
    x1*x2*x2*y2*y2*y2*y3*d + x1*x2*x2*y2*y2*y2*y3*y3*y3*d - x1*x2*x2*x2*y2*y2*x3*d -
    x1*x2*x2*x2*y2*y2*x3*x3*x3*d - x1*x2*x2*x2*y2*y2*y2*y2*x3*y3*y3*d*d -
    x1*x2*x2*x2*x2*y2*x3*x3*y3*d - x1*x2*x2*x2*x2*y2*y2*y2*x3*x3*y3*d*d)
    * curve_eq x1 y1 +
    (0 - y1*x2*y2*y2*x3*x3*y3*d - y1*x2*x2*y2*x3*y3*y3*d + y1*y1*y1*x2*y2*y2*x3*x3*y3*d +
    y1*y1*y1*x2*x2*y2*x3*y3*y3*d + x1*x2*y2*y2*x3*y3*y3*d + x1*x2*x2*y2*x3*x3*y3*d -
    x1*y1*y1*x2*y2*y2*x3*d - x1*y1*y1*x2*y2*y2*x3*x3*x3*d + x1*y1*y1*x2*x2*y2*y3*d -
    x1*y1*y1*x2*x2*y2*y3*y3*y3*d + x1*x1*y1*x2*y2*y2*y3*d - x1*x1*y1*x2*y2*y2*y3*y3*y3*d -
    x1*x1*y1*x2*x2*y2*x3*d - x1*x1*y1*x2*x2*y2*x3*x3*x3*d + x1*x1*x1*x2*y2*y2*x3*y3*y3*d +
    x1*x1*x1*x2*x2*y2*x3*x3*y3*d)
    * curve_eq x2 y2 +
    (y1*x2*x2*y2*y2*y2*x3*d + y1*x2*x2*x2*y2*y2*y3*d - y1*y1*y1*x2*x2*y2*y2*y2*x3*d -
    y1*y1*y1*x2*x2*x2*y2*y2*y3*d + x1*x2*x2*y2*y2*y2*y3*d + x1*x2*x2*x2*y2*y2*x3*d -
    x1*y1*y1*x2*y2*y2*y2*y2*x3*d + x1*y1*y1*x2*x2*x2*y2*y2*y2*y2*x3*d*d -
    x1*y1*y1*x2*x2*x2*x2*y2*y3*d - x1*y1*y1*x2*x2*x2*x2*y2*y2*y2*y3*d*d +
    x1*x1*y1*x2*y2*y2*y2*y2*y3*d - x1*x1*y1*x2*x2*x2*y2*y2*y2*y2*y3*d*d +
    x1*x1*y1*x2*x2*x2*x2*y2*x3*d + x1*x1*y1*x2*x2*x2*x2*y2*y2*y2*x3*d*d +
    x1*x1*x1*x2*x2*y2*y2*y2*y3*d + x1*x1*x1*x2*x2*x2*y2*y2*x3*d)
    * curve_eq x3 y3); [unfold curve_eq; ring|]. rewrite H1, H2, H3. ring.
  - transitivity ((y1*x2*y2*y2*y2*y2*x3*y3*y3*d - y1*x2*x2*y2*y2*y2*y3*d + y1*x2*x2*y2*y2*y2*y3*y3*y3*d -
    y1*x2*x2*x2*y2*y2*x3*d - y1*x2*x2*x2*y2*y2*x3*x3*x3*d -
    y1*x2*x2*x2*y2*y2*y2*y2*x3*y3*y3*d*d - y1*x2*x2*x2*x2*y2*x3*x3*y3*d -
    y1*x2*x2*x2*x2*y2*y2*y2*x3*x3*y3*d*d - x1*x2*y2*y2*y2*y2*x3*x3*y3*d -
    x1*x2*x2*y2*y2*y2*x3*d - x1*x2*x2*y2*y2*y2*x3*x3*x3*d - x1*x2*x2*x2*y2*y2*y3*d +
    x1*x2*x2*x2*y2*y2*y3*y3*y3*d + x1*x2*x2*x2*y2*y2*y2*y2*x3*x3*y3*d*d +
    x1*x2*x2*x2*x2*y2*x3*y3*y3*d + x1*x2*x2*x2*x2*y2*y2*y2*x3*y3*y3*d*d)
    * curve_eq x1 y1 +
    (y1*x2*y2*y2*x3*y3*y3*d + y1*x2*x2*y2*x3*x3*y3*d - y1*y1*y1*x2*y2*y2*x3*y3*y3*d -
    y1*y1*y1*x2*x2*y2*x3*x3*y3*d - x1*x2*y2*y2*x3*x3*y3*d - x1*x2*x2*y2*x3*y3*y3*d -
    x1*y1*y1*x2*y2*y2*y3*d + x1*y1*y1*x2*y2*y2*y3*y3*y3*d + x1*y1*y1*x2*x2*y2*x3*d +
    x1*y1*y1*x2*x2*y2*x3*x3*x3*d + x1*x1*y1*x2*y2*y2*x3*d + x1*x1*y1*x2*y2*y2*x3*x3*x3*d -
    x1*x1*y1*x2*x2*y2*y3*d + x1*x1*y1*x2*x2*y2*y3*y3*y3*d - x1*x1*x1*x2*y2*y2*x3*x3*y3*d -
    x1*x1*x1*x2*x2*y2*x3*y3*y3*d)
    * curve_eq x2 y2 +
    (y1*x2*x2*y2*y2*y2*y3*d + y1*x2*x2*x2*y2*y2*x3*d - y1*y1*y1*x2*x2*y2*y2*y2*y3*d -
    y1*y1*y1*x2*x2*x2*y2*y2*x3*d + x1*x2*x2*y2*y2*y2*x3*d + x1*x2*x2*x2*y2*y2*y3*d -
    x1*y1*y1*x2*y2*y2*y2*y2*y3*d + x1*y1*y1*x2*x2*x2*y2*y2*y2*y2*y3*d*d -
    x1*y1*y1*x2*x2*x2*x2*y2*x3*d - x1*y1*y1*x2*x2*x2*x2*y2*y2*y2*x3*d*d +
    x1*x1*y1*x2*y2*y2*y2*y2*x3*d - x1*x1*y1*x2*x2*x2*y2*y2*y2*y2*x3*d*d +
    x1*x1*y1*x2*x2*x2*x2*y2*y3*d + x1*x1*y1*x2*x2*x2*x2*y2*y2*y2*y3*d*d +
    x1*x1*x1*x2*x2*y2*y2*y2*x3*d + x1*x1*x1*x2*x2*x2*y2*y2*y3*d)
    * curve_eq x3 y3); [unfold curve_eq; ring|]. rewrite H1, H2, H3. ring.
Qed.
(** Sums of points given by fractions. *)
Lemma add_x_frac (n a m b x y : F) : a <> 0 -> b <> 0 -> a * b + d * n * x * m * y <> 0 ->
  add_x (n / a) (m / b) x y = (n * b * y + m * a * x) / (a * b + d * n * x * m * y).
Proof. intros. unfold add_x. field. repeat split; done. Qed.

Lemma add_y_frac (n a m b x y : F) : a <> 0 -> b <> 0 -> a * b - d * n * x * m * y <> 0 ->
  add_y (n / a) (m / b) x y = (m * a * y + n * b * x) / (a * b - d * n * x * m * y).
Proof. intros. unfold add_y. field. repeat split; done. Qed.

Lemma frac_eq (a b c e : F) : b <> 0 -> e <> 0 -> a * e - c * b = 0 -> a / b = c / e.
Proof.
  intros Hb He E. transitivity ((a * e - c * b) / (b * e) + c / e); [by field|].
  rewrite E. by field.
Qed.

Record point := Point { px : F; py : F; p_on : on_curve px py }.

#[export] Instance Zmod_eq_dec : EqDecision F.
Proof. intros x y. destruct (Zmod.eqb x y) eqn:E; [left|right]; by destruct (Zmod.eqb_spec x y). Defined.

Lemma point_eq P Q : px P = px Q -> py P = py Q -> P = Q.
Proof. destruct P as [x y H], Q as [x' y' H']. cbn. intros <- <-. f_equal. apply proof_irrel. Qed.

Definition point_add (P Q : point) : point :=
  Point _ _ (on_curve_add _ _ _ _ (p_on P) (p_on Q)).

Lemma on_curve_zero : on_curve 0 1.
Proof. unfold on_curve, curve_eq. ring. Qed.

Lemma on_curve_neg x y : on_curve x y -> on_curve (- x) y.
Proof. unfold on_curve, curve_eq. intros <-. ring. Qed.

Definition point_zero : point := Point _ _ on_curve_zero.
Definition point_neg (P : point) : point := Point _ _ (on_curve_neg _ _ (p_on P)).

Lemma point_add_comm P Q : point_add P Q = point_add Q P.
Proof.
  apply point_eq; cbn; unfold add_x, add_y; f_equal; ring || (f_equal; ring).
Qed.

Lemma point_add_zero_l P : point_add point_zero P = P.
Proof.
  assert (Ho : (1 : F) <> 0) by (apply Zmod.one_neq_zero; pose proof (Z.prime_ge_2 q Hq); lia).
  apply point_eq; cbn; unfold add_x, add_y; field.
  all: intros E; apply Ho; first [done|rewrite <- E; ring].
Qed.

Lemma point_add_neg_l P : point_add (point_neg P) P = point_zero.
Proof.
  destruct (denominator_nz _ _ _ _ (on_curve_neg _ _ (p_on P)) (p_on P)) as [D1 D2].
  destruct P as [x y H]. cbn in *. apply point_eq; cbn; unfold add_x, add_y.
  - transitivity (0 / (1 + d * - x * x * y * y)); [f_equal; ring|]. by field.
  - transitivity ((curve_eq x y + (1 - d * - x * x * y * y)) / (1 - d * - x * x * y * y)).
    + f_equal. unfold curve_eq. ring.
    + rewrite H. by field.
Qed.

(** The denominators of nested sums, cleared. *)
Lemma nested_nz (n a m b x y : F) : a <> 0 -> b <> 0 ->
  1 + d * (n / a) * x * (m / b) * y <> 0 /\ 1 - d * (n / a) * x * (m / b) * y <> 0 ->
  a * b + d * n * x * m * y <> 0 /\ a * b - d * n * x * m * y <> 0.
Proof.
  intros Ha Hb [H1 H2]. split; intros E.
  - apply H1. transitivity ((a * b + d * n * x * m * y) / (a * b)); [by field|]. rewrite E. by field.
  - apply H2. transitivity ((a * b - d * n * x * m * y) / (a * b)); [by field|]. rewrite E. by field.
Qed.

Lemma point_add_assoc P Q R : point_add P (point_add Q R) = point_add (point_add P Q) R.
Proof.
  rewrite (point_add_comm P). destruct P as [x1 y1 H1], Q as [x2 y2 H2], R as [x3 y3 H3].
  pose proof (denominator_nz _ _ _ _ H1 H2) as [D1 D2].
  pose proof (denominator_nz _ _ _ _ H2 H3) as [D3 D4].
  pose proof (nested_nz _ _ _ _ _ _ D1 D2
    (denominator_nz _ _ _ _ (on_curve_add _ _ _ _ H1 H2) H3)) as [D5 D6].
  pose proof (nested_nz _ _ _ _ _ _ D3 D4
    (denominator_nz _ _ _ _ (on_curve_add _ _ _ _ H2 H3) H1)) as [D7 D8].
  pose proof (assoc_eq x1 y1 x2 y2 x3 y3 H1 H2 H3) as [EX EY]. cbv zeta in EX, EY.
  apply point_eq; cbn.
  - etransitivity; [by apply add_x_frac|]. symmetry. etransitivity; [by apply add_x_frac|].
    apply frac_eq; [done..|]. rewrite <- EX. ring.
  - etransitivity; [by apply add_y_frac|]. symmetry. etransitivity; [by apply add_y_frac|].
    apply frac_eq; [done..|]. rewrite <- EY. ring.
Qed.

#[export] Instance point_group : CommGroup point := {
  cg_add := point_add;
  cg_zero := point_zero;
  cg_neg := point_neg;
  cg_assoc := point_add_assoc;
  cg_comm := point_add_comm;
  cg_zero_l := point_add_zero_l;
  cg_neg_l := point_add_neg_l;
}.
End curve.
