(* ===== verification/Field25519.v ===== *)
(** * The field and the curve of Ed25519

    The field of integers modulo [2^255 - 19], the constants of the curve and
    the group its points form (EdCurve at these constants).  The modulus is kept
    abstract with its value as an equation, so that proofs about the field do not
    compute with it. *)

From Stdlib Require Import Zmod Zdivisibility Zpow_facts Field.
From S2P Require Import Prelude PrimeCert EdCurve.

Definition fe_p_value : { p : Z | p = 2 ^ 255 - 19 }.
Proof. by exists (2 ^ 255 - 19). Qed.

(** The modulus. *)
Definition fe_p : Z := proj1_sig fe_p_value.

Lemma fe_p_eq : fe_p = 2 ^ 255 - 19.
Proof. exact (proj2_sig fe_p_value). Qed.

Lemma fe_p_prime : Z.prime fe_p.
Proof. rewrite fe_p_eq. exact prime_p25519. Qed.

Abbreviation F := (Zmod fe_p).

Local Open Scope Zmod_scope.
Infix "/" := Zmod.mdiv : Zmod_scope.

Add Field F_field : (Zmod.field_theory fe_p fe_p_prime).

(** ** Integers as field elements *)

Definition toF (z : Z) : F := Zmod.of_Z fe_p z.

Lemma toF_add a b : toF (a + b)%Z = toF a + toF b.
Proof. apply Zmod.of_Z_add. Qed.

Lemma toF_sub a b : toF (a - b)%Z = toF a - toF b.
Proof. apply Zmod.of_Z_sub. Qed.

Lemma toF_mul a b : toF (a * b)%Z = toF a * toF b.
Proof. apply Zmod.of_Z_mul. Qed.

Lemma toF_opp a : toF (- a)%Z = - toF a.
Proof. rewrite <- Z.sub_0_l, toF_sub. unfold toF at 1. change (Zmod.of_Z fe_p 0) with (0 : F). ring. Qed.

Lemma toF_eq a b : (a mod fe_p = b mod fe_p)%Z <-> toF a = toF b.
Proof. symmetry. apply Zmod.of_Z_inj. Qed.

Lemma toF_p : toF fe_p = 0.
Proof. apply toF_eq. rewrite fe_p_eq. reflexivity. Qed.

(** Multiples of the modulus do not count. *)
Lemma toF_sub_p a k : toF (a - fe_p * k)%Z = toF a.
Proof. rewrite toF_sub, toF_mul, toF_p. ring. Qed.

(** Equalities between given integers are decided by computation. *)
Lemma toF_check a b : (a mod (2 ^ 255 - 19) =? b mod (2 ^ 255 - 19))%Z = true -> toF a = toF b.
Proof. intros E%Z.eqb_eq. apply toF_eq. by rewrite fe_p_eq. Qed.

Lemma toF_check_neq a b : (a mod (2 ^ 255 - 19) =? b mod (2 ^ 255 - 19))%Z = false -> toF a <> toF b.
Proof. intros E%Z.eqb_neq H%toF_eq. apply E. by rewrite fe_p_eq in H. Qed.

Lemma F_mul_0 (a b : F) : a * b = 0 -> a = 0 \/ b = 0.
Proof. apply Zmod.mul_0_iff_prime, fe_p_prime. Qed.

Lemma F_mul_nz (a b : F) : a <> 0 -> b <> 0 -> a * b <> 0.
Proof. intros Ha Hb [|]%F_mul_0; done. Qed.

Lemma F_one_nz : (1 : F) <> 0.
Proof. apply Zmod.one_neq_zero. rewrite fe_p_eq. lia. Qed.

Lemma F_two_nz : 1 + 1 <> (0 : F).
Proof. change (toF 1 + toF 1 <> toF 0). rewrite <- toF_add. apply toF_check_neq. reflexivity. Qed.

(** ** Computing in the field

    Products of integers reduced with [2^255 = 19]; results stay below [2^256] but
    are not canonical. *)

Definition fold255 (z : Z) : Z := (Z.land z (Z.ones 255) + 19 * Z.shiftr z 255)%Z.
Definition mulp (a b : Z) : Z := fold255 (fold255 (a * b)).

Fixpoint powp (a : Z) (n : positive) : Z :=
  match n with
  | xH => a
  | xO n' => let b := powp a n' in mulp b b
  | xI n' => let b := powp a n' in mulp a (mulp b b)
  end.

Lemma fold255_spec z : toF (fold255 z) = toF z.
Proof.
  unfold fold255. rewrite Z.land_ones, Z.shiftr_div_pow2 by lia.
  rewrite (Z.div_mod z (2 ^ 255)) at 3 by done.
  rewrite <- (toF_sub_p (2 ^ 255 * (z / 2 ^ 255) + z mod 2 ^ 255)%Z (z / 2 ^ 255)).
  f_equal. rewrite fe_p_eq. ring.
Qed.

Lemma mulp_spec a b : toF (mulp a b) = toF a * toF b.
Proof. unfold mulp. by rewrite !fold255_spec, toF_mul. Qed.

Lemma powp_spec a n : toF (powp a n) = toF a ^ Z.pos n.
Proof.
  induction n as [n IH|n IH|]; cbn [powp]; cbv zeta; rewrite ?mulp_spec.
  - rewrite IH. replace (Z.pos n~1) with (Z.succ (Z.pos n + Z.pos n)) by lia.
    by rewrite Zmod.pow_succ_nonneg_r, Zmod.pow_add_r_nonneg by lia.
  - rewrite IH. replace (Z.pos n~0) with (Z.pos n + Z.pos n)%Z by lia.
    by rewrite Zmod.pow_add_r_nonneg by lia.
  - by rewrite Zmod.pow_1_r.
Qed.

(** ** Constants of the curve *)

Definition d_value : Z := 37095705934669439343138083508754565189542113879843219016388785533085940283555.
Definition sqrtm1_value : Z := 19681161376707505956807079304988542015446066515923890162744021073123829784752.

Definition dF : F := toF d_value.
Definition iF : F := toF sqrtm1_value.

(** [d = -121665/121666], as the comment on group elements says. *)
Lemma dF_eq : dF * toF 121666 = - toF 121665.
Proof. unfold dF. rewrite <- toF_mul, <- toF_opp. apply toF_check. vm_compute. reflexivity. Qed.

Lemma iF_sq : iF * iF = - (1).
Proof.
  unfold iF. rewrite <- toF_mul. change (- (1) : F) with (- toF 1). rewrite <- toF_opp.
  apply toF_check. vm_compute. reflexivity.
Qed.

(** By Fermat's theorem: the power of [d] that is 1 for squares is not. *)
Lemma dF_nonsquare s : s * s <> dF.
Proof.
  intros E. assert (Hs : s <> 0).
  { intros ->. apply (toF_check_neq d_value 0); [vm_compute; reflexivity|].
    fold dF. rewrite <- E. change (toF 0) with (0 : F). ring. }
  pose proof (Zmod.fermat_nz s Hs fe_p_prime) as Hf.
  assert (Hd : Zmod.pow dF ((fe_p - 1) / 2) = 1).
  { rewrite <- Hf, <- E, <- Zmod.pow_2_r, <- Zmod.pow_mul_r_nonneg by (rewrite ?fe_p_eq; by vm_compute).
    f_equal. rewrite fe_p_eq. reflexivity. }
  replace ((fe_p - 1) / 2)%Z with (Z.pos (2 ^ 254 - 10)) in Hd by (rewrite fe_p_eq; vm_compute; reflexivity).
  unfold dF in Hd. rewrite <- powp_spec in Hd. change (1 : F) with (toF 1) in Hd. revert Hd.
  apply toF_check_neq. vm_compute. reflexivity.
Qed.

(** ** The group *)

Abbreviation point25519 := (point fe_p dF).

#[export] Instance group25519 : CommGroup point25519 :=
  point_group fe_p fe_p_prime dF iF F_two_nz iF_sq dF_nonsquare.
