(* ===== verification/LittleEndian.v ===== *)
(** * Little-endian numbers and byte arrays

    The number a byte array holds with its least significant byte first, and
    the reads of 3 and 4 bytes with which
    src/tendermint/ed25519/edwards25519/edwards25519.go cuts it into limbs. *)

From S2P Require Import Prelude.

Definition le_val (b : list Z) : Z := be_val (reverse b).
Definition le_bytes (n : nat) (z : Z) : list Z := reverse (be_bytes n z).

(** [n] bytes. *)
Definition array (n : nat) (b : list Z) : Prop := length b = n /\ bytes_ok b.

Lemma le_val_nil : le_val [] = 0.
Proof. done. Qed.

Lemma le_val_cons b l : le_val (b :: l) = b + 256 * le_val l.
Proof.
  unfold le_val. rewrite reverse_cons, be_val_app, be_val_cons, zlen_cons, zlen_nil, be_val_nil.
  change (256 ^ (1 + 0)) with 256. change (256 ^ 0) with 1. lia.
Qed.

Lemma le_val_app l k : le_val (l ++ k) = le_val l + 256 ^ zlen l * le_val k.
Proof.
  induction l as [|b l IH]; [cbn [app]; rewrite le_val_nil; change (256 ^ zlen []) with 1; lia|].
  cbn [app]. rewrite !le_val_cons, IH, zlen_cons, Z.pow_add_r by zl. lia.
Qed.

Lemma le_val_range l : bytes_ok l -> 0 <= le_val l < 256 ^ zlen l.
Proof.
  induction l as [|b l IH]; [done|]. intros [Hb Hl]%bytes_ok_cons. specialize (IH Hl).
  rewrite le_val_cons, zlen_cons, Z.pow_add_r by zl. unfold byte_ok in Hb. lia.
Qed.

Lemma le_val_bytes n z : 0 <= z < 256 ^ Z.of_nat n -> le_val (le_bytes n z) = z.
Proof.
  intros H. unfold le_val, le_bytes. rewrite reverse_involutive, be_val_bytes by lia.
  by apply Z.mod_small.
Qed.

Lemma le_bytes_array n z : array n (le_bytes n z).
Proof.
  split; [by unfold le_bytes; rewrite length_reverse, be_bytes_length|].
  unfold bytes_ok, le_bytes. rewrite Forall_reverse. apply be_bytes_ok.
Qed.

Lemma le_bytes_val n l : array n l -> le_bytes n (le_val l) = l.
Proof.
  intros [<- Hl]. unfold le_bytes, le_val. rewrite <- (length_reverse l), be_bytes_val.
  - apply reverse_involutive.
  - by apply Forall_reverse.
Qed.

Lemma le_val_inj n l k : array n l -> array n k -> le_val l = le_val k -> l = k.
Proof. intros Hl Hk E. by rewrite <- (le_bytes_val n l), <- (le_bytes_val n k), E. Qed.

(** The byte at an index. *)
Lemma le_val_nth i l : bytes_ok l -> nth i l 0 = le_val l / 256 ^ Z.of_nat i mod 256.
Proof.
  revert i. induction l as [|b l IH]; intros i Hl.
  - destruct i; cbn [nth]; rewrite le_val_nil, Z.div_0_l; [done| |done|]; apply Z.pow_nonzero; lia.
  - apply bytes_ok_cons in Hl as [Hb Hl]. unfold byte_ok in Hb. rewrite le_val_cons.
    destruct i as [|i]; cbn [nth].
    + change (256 ^ Z.of_nat 0) with 1. rewrite Z.div_1_r, Z.mul_comm, Z.mod_add by lia.
      by rewrite Z.mod_small.
    + assert (0 < 256 ^ Z.of_nat i) by (apply Z.pow_pos_nonneg; lia).
      rewrite IH, Nat2Z.inj_succ, Z.pow_succ_r, <- Z.div_div by (done || lia).
      do 2 f_equal. rewrite Z.mul_comm, Z.div_add, Z.div_small by lia. lia.
Qed.

(** ** Bits of a number *)

(** [w] bits of [z] from bit [k]. *)
Definition bits_at (z k w : Z) : Z := z / 2 ^ k mod 2 ^ w.

Lemma bits_at_split z k w w' : 0 <= k -> 0 <= w -> 0 <= w' ->
  bits_at z k (w + w') = bits_at z k w + 2 ^ w * bits_at z (k + w) w'.
Proof.
  intros. unfold bits_at. assert (0 < 2 ^ k /\ 0 < 2 ^ w /\ 0 < 2 ^ w') as (?&?&?)
    by (repeat split; apply Z.pow_pos_nonneg; lia).
  rewrite !Z.pow_add_r, <- Z.div_div by lia. apply Z.rem_mul_r; lia.
Qed.

Lemma bits_at_bits z k w k' w' : 0 <= k -> 0 <= k' -> 0 <= w' -> k' + w' <= w ->
  bits_at (bits_at z k w) k' w' = bits_at z (k + k') w'.
Proof.
  intros. unfold bits_at. apply Z.bits_inj'. intros n Hn.
  rewrite <- !Z.land_ones, <- !Z.shiftr_div_pow2 by lia.
  rewrite !Z.land_spec, !Z.shiftr_spec, Z.land_spec, Z.shiftr_spec by lia.
  destruct (Z.lt_ge_cases n w').
  - rewrite !Z.ones_spec_low by lia. rewrite !andb_true_r. f_equal. lia.
  - by rewrite !(Z.ones_spec_high w' n), !andb_false_r by lia.
Qed.

Lemma bits_at_small z w : 0 <= z < 2 ^ w -> bits_at z 0 w = z.
Proof. intros H. unfold bits_at. rewrite Z.div_1_r. by apply Z.mod_small. Qed.

Lemma bits_at_range z k w : 0 <= w -> 0 <= bits_at z k w < 2 ^ w.
Proof. intros Hw. apply Z.mod_pos_bound. lia. Qed.

(** Evaluate the positions. *)
Ltac norm_bits :=
  repeat match goal with |- context [bits_at ?V ?k ?w] =>
    let k' := eval vm_compute in k in let w' := eval vm_compute in w in
    lazymatch constr:((k, w)) with
    | (k', w') => fail
    | _ => change (bits_at V k w) with (bits_at V k' w')
    end end.

(** Disjoint bits: [|] adds. *)
Lemma lor_add a b k : 0 <= k -> 0 <= a < 2 ^ k -> Z.lor a (Z.shiftl b k) = a + 2 ^ k * b.
Proof.
  intros Hk Ha. assert (E : Z.land a (Z.shiftl b k) = 0).
  { apply Z.bits_inj'. intros n Hn. rewrite Z.land_spec, Z.bits_0.
    destruct (Z.lt_ge_cases n k); [by rewrite Z.shiftl_spec_low, andb_false_r by lia|].
    rewrite <- (Z.mod_small a (2 ^ k)), Z.mod_pow2_bits_high by lia. done. }
  pose proof (Z.add_lor_land a (Z.shiftl b k)) as S. rewrite E, Z.shiftl_mul_pow2 in S by lia.
  rewrite Z.shiftl_mul_pow2 by lia. lia.
Qed.

(** ** Reads *)

Definition load3 (b : list Z) : Z :=
  Z.lor (Z.lor (nth 0 b 0) (Z.shiftl (nth 1 b 0) 8)) (Z.shiftl (nth 2 b 0) 16).

Definition load4 (b : list Z) : Z :=
  Z.lor (Z.lor (Z.lor (nth 0 b 0) (Z.shiftl (nth 1 b 0) 8)) (Z.shiftl (nth 2 b 0) 16))
    (Z.shiftl (nth 3 b 0) 24).

Lemma load3_val b : bytes_ok b -> load3 b = bits_at (le_val b) 0 24.
Proof.
  intros H. unfold load3. pose proof (nth_byte 0 b H). pose proof (nth_byte 1 b H).
  rewrite (lor_add (nth 0 b 0)) by lia. rewrite lor_add by lia.
  rewrite !le_val_nth by done. change 24 with (8 + (8 + 8)). rewrite !bits_at_split by lia.
  change (le_val b / 256 ^ Z.of_nat 0 mod 256) with (bits_at (le_val b) 0 8).
  change (le_val b / 256 ^ Z.of_nat 1 mod 256) with (bits_at (le_val b) (0 + 8) 8).
  change (le_val b / 256 ^ Z.of_nat 2 mod 256) with (bits_at (le_val b) (0 + 8 + 8) 8). lia.
Qed.

Lemma load4_val b : bytes_ok b -> load4 b = bits_at (le_val b) 0 32.
Proof.
  intros H. unfold load4. fold (load3 b). pose proof (bits_at_range (le_val b) 0 24).
  rewrite load3_val, lor_add by (done || lia).
  change 32 with (24 + 8). rewrite bits_at_split by lia. f_equal. f_equal.
  rewrite le_val_nth by done. done.
Qed.

(** Reads at an offset. *)
Lemma le_val_drop i b : bytes_ok b -> le_val (drop i b) = le_val b / 256 ^ Z.of_nat i.
Proof.
  intros H. rewrite <- (take_drop i b) at 2. rewrite le_val_app.
  destruct (Nat.le_ge_cases i (length b)) as [Hi|Hi].
  - pose proof (le_val_range (take i b) (bytes_ok_take _ _ H)).
    assert (zlen (take i b) = Z.of_nat i) as E by (unfold zlen; rewrite length_take; lia).
    rewrite E in *. rewrite Z.mul_comm, Z.div_add, Z.div_small by lia. lia.
  - rewrite drop_ge, take_ge, le_val_nil by lia. rewrite Z.mul_0_r, Z.add_0_r, Z.div_small; [done|].
    pose proof (le_val_range b H). split; [lia|]. eapply Z.lt_le_trans; [apply H0|].
    apply Z.pow_le_mono_r; unfold zlen; lia.
Qed.

Lemma load3_at i b : bytes_ok b -> load3 (drop i b) = bits_at (le_val b) (8 * Z.of_nat i) 24.
Proof.
  intros H. rewrite load3_val, le_val_drop by (done || by apply bytes_ok_drop).
  unfold bits_at. change 256 with (2 ^ 8). by rewrite <- Z.pow_mul_r, Z.div_1_r by lia.
Qed.

Lemma load4_at i b : bytes_ok b -> load4 (drop i b) = bits_at (le_val b) (8 * Z.of_nat i) 32.
Proof.
  intros H. rewrite load4_val, le_val_drop by (done || by apply bytes_ok_drop).
  unfold bits_at. change 256 with (2 ^ 8). by rewrite <- Z.pow_mul_r, Z.div_1_r by lia.
Qed.
