(* ===== verification/Fe.v ===== *)
(** * Field elements (src/tendermint/ed25519/edwards25519/edwards25519.go)

    A [FieldElement] is an array of ten 32-bit signed limbs in mixed radix
    2^26, 2^25; it stands for an integer modulo [2^255 - 19].  Every 32-bit or
    64-bit operation of the code is followed by the wrap-around of its type
    ([s32], [s64]); a sum of 64-bit products is wrapped once, which is the same
    ([s64_add], [s64_mul]).  An operation that writes through a pointer returns
    the new value; [FeToBytes] also overwrites the element it reads.

    The theorems say that within the limb bounds the group operations keep,
    nothing wraps and each operation computes the field operation it is named
    after. *)

From Stdlib Require Import Zmod Field.
From S2P Require Import Prelude EdCurve Field25519.

(** ** Data *)

Inductive FieldElement : Type :=
| FE (f0 f1 f2 f3 f4 f5 f6 f7 f8 f9 : Z).

(** The integer an element stands for. *)
Definition fe_val (f : FieldElement) : Z :=
  let 'FE f0 f1 f2 f3 f4 f5 f6 f7 f8 f9 := f in
  f0 + 2 ^ 26 * f1 + 2 ^ 51 * f2 + 2 ^ 77 * f3 + 2 ^ 102 * f4 + 2 ^ 128 * f5 +
  2 ^ 153 * f6 + 2 ^ 179 * f7 + 2 ^ 204 * f8 + 2 ^ 230 * f9.

Definition feF (f : FieldElement) : F := toF (fe_val f).

(** ** Addition, subtraction, negation, conditional move *)

Definition FeZero : FieldElement := FE 0 0 0 0 0 0 0 0 0 0.

Definition FeOne : FieldElement := FE 1 0 0 0 0 0 0 0 0 0.

Definition FeAdd (a b : FieldElement) : FieldElement :=
  let 'FE a0 a1 a2 a3 a4 a5 a6 a7 a8 a9 := a in
  let 'FE b0 b1 b2 b3 b4 b5 b6 b7 b8 b9 := b in
  FE (s32 (a0 + b0)) (s32 (a1 + b1)) (s32 (a2 + b2)) (s32 (a3 + b3)) (s32 (a4 + b4))
     (s32 (a5 + b5)) (s32 (a6 + b6)) (s32 (a7 + b7)) (s32 (a8 + b8)) (s32 (a9 + b9)).

Definition FeSub (a b : FieldElement) : FieldElement :=
  let 'FE a0 a1 a2 a3 a4 a5 a6 a7 a8 a9 := a in
  let 'FE b0 b1 b2 b3 b4 b5 b6 b7 b8 b9 := b in
  FE (s32 (a0 - b0)) (s32 (a1 - b1)) (s32 (a2 - b2)) (s32 (a3 - b3)) (s32 (a4 - b4))
     (s32 (a5 - b5)) (s32 (a6 - b6)) (s32 (a7 - b7)) (s32 (a8 - b8)) (s32 (a9 - b9)).

Definition FeCopy (src : FieldElement) : FieldElement := src.

Definition FeNeg (f : FieldElement) : FieldElement :=
  let 'FE f0 f1 f2 f3 f4 f5 f6 f7 f8 f9 := f in
  FE (s32 (- f0)) (s32 (- f1)) (s32 (- f2)) (s32 (- f3)) (s32 (- f4))
     (s32 (- f5)) (s32 (- f6)) (s32 (- f7)) (s32 (- f8)) (s32 (- f9)).

(** [f ^= b & (f ^ g)]. *)
Definition cmove (b f g : Z) : Z := Z.lxor f (Z.land b (Z.lxor f g)).

Definition FeCMove (f g : FieldElement) (b : Z) : FieldElement :=
  let b := s32 (- b) in
  let 'FE f0 f1 f2 f3 f4 f5 f6 f7 f8 f9 := f in
  let 'FE g0 g1 g2 g3 g4 g5 g6 g7 g8 g9 := g in
  FE (cmove b f0 g0) (cmove b f1 g1) (cmove b f2 g2) (cmove b f3 g3) (cmove b f4 g4)
     (cmove b f5 g5) (cmove b f6 g6) (cmove b f7 g7) (cmove b f8 g8) (cmove b f9 g9).

(** ** Multiplication *)

(** Ten 64-bit coefficients to ten limbs. *)
Definition FeCombine (h0 h1 h2 h3 h4 h5 h6 h7 h8 h9 : Z) : FieldElement :=
  let c0 := Z.shiftr (s64 (h0 + Z.shiftl 1 25)) 26 in
  let h1 := s64 (h1 + c0) in
  let h0 := s64 (h0 - s64 (Z.shiftl c0 26)) in
  let c4 := Z.shiftr (s64 (h4 + Z.shiftl 1 25)) 26 in
  let h5 := s64 (h5 + c4) in
  let h4 := s64 (h4 - s64 (Z.shiftl c4 26)) in
  let c1 := Z.shiftr (s64 (h1 + Z.shiftl 1 24)) 25 in
  let h2 := s64 (h2 + c1) in
  let h1 := s64 (h1 - s64 (Z.shiftl c1 25)) in
  let c5 := Z.shiftr (s64 (h5 + Z.shiftl 1 24)) 25 in
  let h6 := s64 (h6 + c5) in
  let h5 := s64 (h5 - s64 (Z.shiftl c5 25)) in
  let c2 := Z.shiftr (s64 (h2 + Z.shiftl 1 25)) 26 in
  let h3 := s64 (h3 + c2) in
  let h2 := s64 (h2 - s64 (Z.shiftl c2 26)) in
  let c6 := Z.shiftr (s64 (h6 + Z.shiftl 1 25)) 26 in
  let h7 := s64 (h7 + c6) in
  let h6 := s64 (h6 - s64 (Z.shiftl c6 26)) in
  let c3 := Z.shiftr (s64 (h3 + Z.shiftl 1 24)) 25 in
  let h4 := s64 (h4 + c3) in
  let h3 := s64 (h3 - s64 (Z.shiftl c3 25)) in
  let c7 := Z.shiftr (s64 (h7 + Z.shiftl 1 24)) 25 in
  let h8 := s64 (h8 + c7) in
  let h7 := s64 (h7 - s64 (Z.shiftl c7 25)) in
  let c4 := Z.shiftr (s64 (h4 + Z.shiftl 1 25)) 26 in
  let h5 := s64 (h5 + c4) in
  let h4 := s64 (h4 - s64 (Z.shiftl c4 26)) in
  let c8 := Z.shiftr (s64 (h8 + Z.shiftl 1 25)) 26 in
  let h9 := s64 (h9 + c8) in
  let h8 := s64 (h8 - s64 (Z.shiftl c8 26)) in
  let c9 := Z.shiftr (s64 (h9 + Z.shiftl 1 24)) 25 in
  let h0 := s64 (h0 + s64 (c9 * 19)) in
  let h9 := s64 (h9 - s64 (Z.shiftl c9 25)) in
  let c0 := Z.shiftr (s64 (h0 + Z.shiftl 1 25)) 26 in
  let h1 := s64 (h1 + c0) in
  let h0 := s64 (h0 - s64 (Z.shiftl c0 26)) in
  FE (s32 h0) (s32 h1) (s32 h2) (s32 h3) (s32 h4) (s32 h5) (s32 h6) (s32 h7) (s32 h8) (s32 h9).

Definition FeMul (f g : FieldElement) : FieldElement :=
  let 'FE f0 f1 f2 f3 f4 f5 f6 f7 f8 f9 := f in
  let 'FE g0 g1 g2 g3 g4 g5 g6 g7 g8 g9 := g in
  let f1_2 := s32 (2 * f1) in
  let f3_2 := s32 (2 * f3) in
  let f5_2 := s32 (2 * f5) in
  let f7_2 := s32 (2 * f7) in
  let f9_2 := s32 (2 * f9) in
  let g1_19 := s32 (19 * g1) in
  let g2_19 := s32 (19 * g2) in
  let g3_19 := s32 (19 * g3) in
  let g4_19 := s32 (19 * g4) in
  let g5_19 := s32 (19 * g5) in
  let g6_19 := s32 (19 * g6) in
  let g7_19 := s32 (19 * g7) in
  let g8_19 := s32 (19 * g8) in
  let g9_19 := s32 (19 * g9) in
  let h0 := s64 (f0*g0 + f1_2*g9_19 + f2*g8_19 + f3_2*g7_19 + f4*g6_19 + f5_2*g5_19 + f6*g4_19 + f7_2*g3_19 + f8*g2_19 + f9_2*g1_19) in
  let h1 := s64 (f0*g1 + f1*g0 + f2*g9_19 + f3*g8_19 + f4*g7_19 + f5*g6_19 + f6*g5_19 + f7*g4_19 + f8*g3_19 + f9*g2_19) in
  let h2 := s64 (f0*g2 + f1_2*g1 + f2*g0 + f3_2*g9_19 + f4*g8_19 + f5_2*g7_19 + f6*g6_19 + f7_2*g5_19 + f8*g4_19 + f9_2*g3_19) in
  let h3 := s64 (f0*g3 + f1*g2 + f2*g1 + f3*g0 + f4*g9_19 + f5*g8_19 + f6*g7_19 + f7*g6_19 + f8*g5_19 + f9*g4_19) in
  let h4 := s64 (f0*g4 + f1_2*g3 + f2*g2 + f3_2*g1 + f4*g0 + f5_2*g9_19 + f6*g8_19 + f7_2*g7_19 + f8*g6_19 + f9_2*g5_19) in
  let h5 := s64 (f0*g5 + f1*g4 + f2*g3 + f3*g2 + f4*g1 + f5*g0 + f6*g9_19 + f7*g8_19 + f8*g7_19 + f9*g6_19) in
  let h6 := s64 (f0*g6 + f1_2*g5 + f2*g4 + f3_2*g3 + f4*g2 + f5_2*g1 + f6*g0 + f7_2*g9_19 + f8*g8_19 + f9_2*g7_19) in
  let h7 := s64 (f0*g7 + f1*g6 + f2*g5 + f3*g4 + f4*g3 + f5*g2 + f6*g1 + f7*g0 + f8*g9_19 + f9*g8_19) in
  let h8 := s64 (f0*g8 + f1_2*g7 + f2*g6 + f3_2*g5 + f4*g4 + f5_2*g3 + f6*g2 + f7_2*g1 + f8*g0 + f9_2*g9_19) in
  let h9 := s64 (f0*g9 + f1*g8 + f2*g7 + f3*g6 + f4*g5 + f5*g4 + f6*g3 + f7*g2 + f8*g1 + f9*g0) in
  FeCombine h0 h1 h2 h3 h4 h5 h6 h7 h8 h9.

Definition feSquare (f : FieldElement) : Z * Z * Z * Z * Z * Z * Z * Z * Z * Z :=
  let 'FE f0 f1 f2 f3 f4 f5 f6 f7 f8 f9 := f in
  let f0_2 := s32 (2 * f0) in
  let f1_2 := s32 (2 * f1) in
  let f2_2 := s32 (2 * f2) in
  let f3_2 := s32 (2 * f3) in
  let f4_2 := s32 (2 * f4) in
  let f5_2 := s32 (2 * f5) in
  let f6_2 := s32 (2 * f6) in
  let f7_2 := s32 (2 * f7) in
  let f5_38 := s64 (38 * f5) in
  let f6_19 := s64 (19 * f6) in
  let f7_38 := s64 (38 * f7) in
  let f8_19 := s64 (19 * f8) in
  let f9_38 := s64 (38 * f9) in
  let h0 := s64 (f0*f0 + f1_2*f9_38 + f2_2*f8_19 + f3_2*f7_38 + f4_2*f6_19 + f5*f5_38) in
  let h1 := s64 (f0_2*f1 + f2*f9_38 + f3_2*f8_19 + f4*f7_38 + f5_2*f6_19) in
  let h2 := s64 (f0_2*f2 + f1_2*f1 + f3_2*f9_38 + f4_2*f8_19 + f5_2*f7_38 + f6*f6_19) in
  let h3 := s64 (f0_2*f3 + f1_2*f2 + f4*f9_38 + f5_2*f8_19 + f6*f7_38) in
  let h4 := s64 (f0_2*f4 + f1_2*f3_2 + f2*f2 + f5_2*f9_38 + f6_2*f8_19 + f7*f7_38) in
  let h5 := s64 (f0_2*f5 + f1_2*f4 + f2_2*f3 + f6*f9_38 + f7_2*f8_19) in
  let h6 := s64 (f0_2*f6 + f1_2*f5_2 + f2_2*f4 + f3_2*f3 + f7_2*f9_38 + f8*f8_19) in
  let h7 := s64 (f0_2*f7 + f1_2*f6 + f2_2*f5 + f3_2*f4 + f8*f9_38) in
  let h8 := s64 (f0_2*f8 + f1_2*f7_2 + f2_2*f6 + f3_2*f5_2 + f4*f4 + f9*f9_38) in
  let h9 := s64 (f0_2*f9 + f1_2*f8 + f2_2*f7 + f3_2*f6 + f4_2*f5) in
  (h0, h1, h2, h3, h4, h5, h6, h7, h8, h9).

Definition FeSquare (f : FieldElement) : FieldElement :=
  let '(h0, h1, h2, h3, h4, h5, h6, h7, h8, h9) := feSquare f in
  FeCombine h0 h1 h2 h3 h4 h5 h6 h7 h8 h9.

Definition FeSquare2 (f : FieldElement) : FieldElement :=
  let '(h0, h1, h2, h3, h4, h5, h6, h7, h8, h9) := feSquare f in
  FeCombine (s64 (h0 + h0)) (s64 (h1 + h1)) (s64 (h2 + h2)) (s64 (h3 + h3)) (s64 (h4 + h4))
            (s64 (h5 + h5)) (s64 (h6 + h6)) (s64 (h7 + h7)) (s64 (h8 + h8)) (s64 (h9 + h9)).

(** ** Bounds *)

(** Odd limbs up to [e], even ones up to [2 e]. *)
Definition fe_bnd (e : Z) (f : FieldElement) : Prop :=
  let 'FE f0 f1 f2 f3 f4 f5 f6 f7 f8 f9 := f in
  (Z.abs f0 <= 2 * e /\ Z.abs f1 <= e /\ Z.abs f2 <= 2 * e /\ Z.abs f3 <= e /\ Z.abs f4 <= 2 * e) /\
  (Z.abs f5 <= e /\ Z.abs f6 <= 2 * e /\ Z.abs f7 <= e /\ Z.abs f8 <= 2 * e /\ Z.abs f9 <= e).

(** What products satisfy (1.01 * 2^24), and what their factors must (1.65 * 2^25). *)
Definition tight : Z := 16944988.
Definition loose : Z := 55364812.

Lemma s32_id z : - 2 ^ 31 <= z < 2 ^ 31 -> s32 z = z.
Proof. intros H. apply sN_id; [lia|done]. Qed.

Lemma s64_id z : - 2 ^ 63 <= z < 2 ^ 63 -> s64 z = z.
Proof. intros H. apply sN_id; [lia|done]. Qed.

(** Wrapping the parts of a 64-bit sum or product is wrapping it as a whole. *)
Lemma s64_mod a b : a mod 2 ^ 64 = b mod 2 ^ 64 -> s64 a = s64 b.
Proof. intros E. unfold sN. f_equal. rewrite Z.add_mod, E, <- Z.add_mod by lia. done. Qed.

Lemma s64_congr a : s64 a mod 2 ^ 64 = a mod 2 ^ 64.
Proof.
  unfold sN. rewrite Zminus_mod_idemp_l. f_equal. lia.
Qed.

Lemma s64_add a b : s64 (s64 a + s64 b) = s64 (a + b).
Proof. apply s64_mod. rewrite Z.add_mod, !s64_congr, <- Z.add_mod by lia. done. Qed.

Lemma s64_mul a b : s64 (s64 a * s64 b) = s64 (a * b).
Proof. apply s64_mod. rewrite Z.mul_mod, !s64_congr, <- Z.mul_mod by lia. done. Qed.

(** A rounding carry out of a value up to [N], and a sum, neither of which wraps. *)
Lemma carry_ok h N k : Z.abs h <= N -> (0 <? k) && (N + 2 ^ k <? 2 ^ 63) = true ->
  let c := Z.shiftr (s64 (h + Z.shiftl 1 (k - 1))) k in
  Z.abs c <= N / 2 ^ k + 1 /\ s64 (h - s64 (Z.shiftl c k)) = h - 2 ^ k * c /\
  Z.abs (h - 2 ^ k * c) <= 2 ^ (k - 1).
Proof.
  intros HN Hk c. zbool. assert (E : 2 ^ k = 2 * 2 ^ (k - 1)).
  { rewrite <- Z.pow_succ_r by lia. f_equal. lia. }
  assert (0 < 2 ^ (k - 1)) by (apply Z.pow_pos_nonneg; lia).
  assert (B : 2 ^ k * c <= h + 2 ^ (k - 1) < 2 ^ k * c + 2 ^ k).
  { unfold c. rewrite Z.shiftl_mul_pow2, Z.mul_1_l, s64_id, Z.shiftr_div_pow2 by lia.
    pose proof (Z.div_mod (h + 2 ^ (k - 1)) (2 ^ k)).
    pose proof (Z.mod_pos_bound (h + 2 ^ (k - 1)) (2 ^ k)). lia. }
  clearbody c. split; [|split].
  - pose proof (Z.div_mod N (2 ^ k)). pose proof (Z.mod_pos_bound N (2 ^ k)). nia.
  - rewrite Z.shiftl_mul_pow2, (s64_id (c * _)), s64_id by lia. lia.
  - lia.
Qed.

Lemma sum_ok a b A B : Z.abs a <= A -> Z.abs b <= B -> (A + B <? 2 ^ 63) = true ->
  s64 (a + b) = a + b /\ Z.abs (a + b) <= A + B.
Proof. intros Ha Hb H. zbool. split; [apply s64_id|]; lia. Qed.

Lemma scale_ok a k A : Z.abs a <= A -> (0 <? k) && (k * A <? 2 ^ 63) = true ->
  s64 (a * k) = k * a /\ Z.abs (k * a) <= k * A.
Proof. intros Ha H. zbool. split; [rewrite s64_id|]; nia. Qed.

(** One definition of a chain of carries: name it, drop the wrap-around, and keep
    its equation and a numeric bound. *)
Ltac bound_of h := lazymatch goal with B : Z.abs h <= ?N |- _ => constr:(B) end.
Ltac norm_bound B :=
  lazymatch type of B with Z.abs _ <= ?N =>
    let n := eval vm_compute in N in change N with n in B end.

Ltac carry_step :=
  lazymatch goal with
  | |- ?Q (let x := ?e in @?b x) =>
      let x := fresh "v" in let E := fresh "E" in let B := fresh "B" in
      let name_as t := (set (x := t) in *; clearbody x) in
      change (let x := e in Q (b x)); cbv beta; intro x;
      lazymatch e with
      | Z.shiftr (s64 (?h + Z.shiftl 1 _)) ?k =>
          let Bh := bound_of h in
          let B' := fresh "B" in let E' := fresh "C" in
          destruct (carry_ok h _ k Bh eq_refl) as (B & E' & B');
          change (Z.shiftr (s64 (h + Z.shiftl 1 (k - 1))) k) with x in B, E', B';
          norm_bound B; norm_bound B'; clearbody x
      | s64 (?h - s64 (Z.shiftl ?c ?k)) =>
          lazymatch goal with C : s64 (h - s64 (Z.shiftl c k)) = _ |- _ =>
            assert (E : x = h - 2 ^ k * c) by exact C; clear C; clearbody x;
            rewrite <- E in * end
      | s64 (?h + s64 (?c * ?n)) =>
          let Bc := bound_of c in let E' := fresh "E" in let B' := fresh "B" in
          destruct (scale_ok c n _ Bc eq_refl) as (E' & B'); norm_bound B';
          let Bh := bound_of h in
          destruct (sum_ok h (n * c) _ _ Bh B' eq_refl) as (E & B); norm_bound B;
          rewrite <- E' in E at 1; change (s64 (h + s64 (c * n))) with x in E;
          rewrite <- E in B; clearbody x; clear E' B'
      | s64 (?h + ?c) =>
          let Bh := bound_of h in let Bc := bound_of c in
          destruct (sum_ok h c _ _ Bh Bc eq_refl) as (E & B); norm_bound B;
          change (s64 (h + c)) with x in E; rewrite <- E in B; clearbody x
      end
  end.

Lemma s32_abs z N : Z.abs z <= N -> (N <? 2 ^ 31) = true -> s32 z = z.
Proof. intros H HN. zbool. apply s32_id. lia. Qed.

Lemma s64_abs z N : Z.abs z <= N -> (N <? 2 ^ 63) = true -> s64 z = z.
Proof. intros H HN. zbool. apply s64_id. lia. Qed.

(** Numeric bounds from the bounds of the context. *)
Ltac small_abs :=
  lazymatch goal with
  | |- Z.abs ?x <= ?N =>
      let B := bound_of x in apply (Z.le_trans _ _ _ B); vm_compute; discriminate
  | |- (_ <? _) = true => vm_compute; reflexivity
  end.

Section combine.
Variables h0 h1 h2 h3 h4 h5 h6 h7 h8 h9 : Z.
Hypothesis H0 : Z.abs h0 <= 2 ^ 62.
Hypothesis H1 : Z.abs h1 <= 2 ^ 62.
Hypothesis H2 : Z.abs h2 <= 2 ^ 62.
Hypothesis H3 : Z.abs h3 <= 2 ^ 62.
Hypothesis H4 : Z.abs h4 <= 2 ^ 62.
Hypothesis H5 : Z.abs h5 <= 2 ^ 62.
Hypothesis H6 : Z.abs h6 <= 2 ^ 62.
Hypothesis H7 : Z.abs h7 <= 2 ^ 62.
Hypothesis H8 : Z.abs h8 <= 2 ^ 62.
Hypothesis H9 : Z.abs h9 <= 2 ^ 62.

Lemma FeCombine_spec :
  fe_bnd tight (FeCombine h0 h1 h2 h3 h4 h5 h6 h7 h8 h9) /\
  feF (FeCombine h0 h1 h2 h3 h4 h5 h6 h7 h8 h9) = feF (FE h0 h1 h2 h3 h4 h5 h6 h7 h8 h9).
Proof.
  enough (fe_bnd tight (FeCombine h0 h1 h2 h3 h4 h5 h6 h7 h8 h9) /\
    exists k, fe_val (FeCombine h0 h1 h2 h3 h4 h5 h6 h7 h8 h9) =
      fe_val (FE h0 h1 h2 h3 h4 h5 h6 h7 h8 h9) - fe_p * k) as (Hb & k & Hk).
  { split; [done|]. unfold feF. rewrite Hk. apply toF_sub_p. }
  set (Q := fun f => fe_bnd tight f /\ exists k, fe_val f =
    fe_val (FE h0 h1 h2 h3 h4 h5 h6 h7 h8 h9) - fe_p * k).
  change (Q (FeCombine h0 h1 h2 h3 h4 h5 h6 h7 h8 h9)).
  cbv beta delta [FeCombine].
  do 36 carry_step. repeat match goal with |- context [s32 ?x] =>
    let B := bound_of x in rewrite (s32_abs x _ B eq_refl) end.
  split; [by repeat split; small_abs|]. exists v29. subst. rewrite fe_p_eq. cbv [fe_val]. ring.
Qed.
End combine.

(** ** Sums and products of bounded values *)

Lemma abs_add_le a b A B : Z.abs a <= A -> Z.abs b <= B -> Z.abs (a + b) <= A + B.
Proof. lia. Qed.

Lemma abs_sub_le a b A B : Z.abs a <= A -> Z.abs b <= B -> Z.abs (a - b) <= A + B.
Proof. lia. Qed.

Lemma abs_mul_le a b A B : Z.abs a <= A -> Z.abs b <= B -> Z.abs (a * b) <= A * B.
Proof. rewrite Z.abs_mul. nia. Qed.

Lemma abs_const c : Z.abs c <= Z.abs c.
Proof. done. Qed.

(** A numeric bound for an expression, from those of its variables. *)
Ltac abs_bound :=
  lazymatch goal with
  | |- Z.abs (_ + _) <= _ => eapply abs_add_le; abs_bound
  | |- Z.abs (_ - _) <= _ => eapply abs_sub_le; abs_bound
  | |- Z.abs (_ * _) <= _ => eapply abs_mul_le; abs_bound
  | |- Z.abs ?x <= _ => first [is_var x; eassumption | apply abs_const]
  end.

(** Drop the wrap-around of every expression whose bound allows it. *)
Ltac unwrap_step :=
  match goal with
  | |- context [sN ?w ?e] =>
      lazymatch e with context [sN] => fail | _ => idtac end;
      let B := fresh in
      eassert (B : Z.abs e <= _) by abs_bound;
      lazymatch type of B with _ <= ?N =>
        first [rewrite (s32_abs e N B eq_refl) | rewrite (s64_abs e N B eq_refl)] end;
      clear B
  end.
Ltac unwrap := repeat unwrap_step.

Ltac split_bnd H :=
  lazymatch type of H with fe_bnd _ ?f =>
    destruct f; destruct H as ((?&?&?&?&?)&(?&?&?&?&?)) end.

(** The part of a product above [2^255], divided by it. *)
Definition mul_high (f g : FieldElement) : Z :=
  let 'FE f0 f1 f2 f3 f4 f5 f6 f7 f8 f9 := f in
  let 'FE g0 g1 g2 g3 g4 g5 g6 g7 g8 g9 := g in
  f1 * (2 ^ 1 * g9) +
  f2 * (g8 + 2 ^ 26 * g9) +
  f3 * (2 ^ 1 * g7 + 2 ^ 26 * g8 + 2 ^ 52 * g9) +
  f4 * (g6 + 2 ^ 26 * g7 + 2 ^ 51 * g8 + 2 ^ 77 * g9) +
  f5 * (2 ^ 1 * g5 + 2 ^ 26 * g6 + 2 ^ 52 * g7 + 2 ^ 77 * g8 + 2 ^ 103 * g9) +
  f6 * (g4 + 2 ^ 26 * g5 + 2 ^ 51 * g6 + 2 ^ 77 * g7 + 2 ^ 102 * g8 + 2 ^ 128 * g9) +
  f7 * (2 ^ 1 * g3 + 2 ^ 26 * g4 + 2 ^ 52 * g5 + 2 ^ 77 * g6 + 2 ^ 103 * g7 + 2 ^ 128 * g8 + 2 ^ 154 * g9) +
  f8 * (g2 + 2 ^ 26 * g3 + 2 ^ 51 * g4 + 2 ^ 77 * g5 + 2 ^ 102 * g6 + 2 ^ 128 * g7 + 2 ^ 153 * g8 + 2 ^ 179 * g9) +
  f9 * (2 ^ 1 * g1 + 2 ^ 26 * g2 + 2 ^ 52 * g3 + 2 ^ 77 * g4 + 2 ^ 103 * g5 + 2 ^ 128 * g6 + 2 ^ 154 * g7 + 2 ^ 179 * g8 + 2 ^ 205 * g9).

Ltac combine_spec :=
  match goal with |- context [FeCombine ?h0 ?h1 ?h2 ?h3 ?h4 ?h5 ?h6 ?h7 ?h8 ?h9] =>
    destruct (FeCombine_spec h0 h1 h2 h3 h4 h5 h6 h7 h8 h9) as [? ->];
    [(eapply Z.le_trans; [abs_bound|vm_compute; discriminate])..|] end.

Lemma FeMul_spec f g : fe_bnd loose f -> fe_bnd loose g ->
  fe_bnd tight (FeMul f g) /\ feF (FeMul f g) = (feF f * feF g)%Zmod.
Proof.
  intros Hf Hg. unfold feF at 2 3. rewrite <- toF_mul, <- (toF_sub_p _ (mul_high f g)).
  split_bnd Hf. split_bnd Hg. unfold FeMul. unwrap. combine_spec. split; [done|].
  unfold feF. f_equal. rewrite fe_p_eq. cbv [fe_val mul_high]. ring.
Qed.

(** Squaring is multiplication with the symmetric products merged. *)
Lemma FeSquare_eq f : fe_bnd loose f -> FeSquare f = FeMul f f.
Proof.
  intros Hf. split_bnd Hf. unfold FeMul, FeSquare, feSquare. unwrap. f_equal; ring.
Qed.

Lemma FeSquare_spec f : fe_bnd loose f ->
  fe_bnd tight (FeSquare f) /\ feF (FeSquare f) = (feF f * feF f)%Zmod.
Proof. intros Hf. rewrite FeSquare_eq by done. by apply FeMul_spec. Qed.

Lemma FeSquare2_spec f : fe_bnd loose f ->
  fe_bnd tight (FeSquare2 f) /\ feF (FeSquare2 f) = (feF f * feF f + feF f * feF f)%Zmod.
Proof.
  intros Hf. unfold feF at 2 3 4 5. rewrite <- toF_mul, <- toF_add, <- (toF_sub_p _ (2 * mul_high f f)).
  split_bnd Hf. unfold FeSquare2, feSquare. unwrap. combine_spec. split; [done|].
  unfold feF. f_equal. rewrite fe_p_eq. cbv [fe_val mul_high]. ring.
Qed.

(** Limb by limb: [lia] from the bounds of the variables of the goal only. *)
Ltac limb_lia :=
  repeat match goal with B : Z.abs ?x <= _ |- _ =>
    lazymatch goal with |- context [x] => revert B | _ => clear B end end; lia.
Ltac limbs :=
  repeat match goal with |- context [s32 ?e] => rewrite (s32_id e) by limb_lia end;
  split; [repeat split; limb_lia|unfold feF; f_equal; cbv [fe_val]; ring].

(** Sums stay within the sum of the bounds. *)
Lemma FeAdd_spec a b f g : fe_bnd a f -> fe_bnd b g -> (2 * (a + b) <? 2 ^ 31) = true ->
  fe_bnd (a + b) (FeAdd f g) /\ feF (FeAdd f g) = (feF f + feF g)%Zmod.
Proof.
  intros Hf Hg E. zbool. unfold feF at 2 3. rewrite <- toF_add.
  split_bnd Hf. split_bnd Hg. unfold FeAdd. limbs.
Qed.

Lemma FeSub_spec a b f g : fe_bnd a f -> fe_bnd b g -> (2 * (a + b) <? 2 ^ 31) = true ->
  fe_bnd (a + b) (FeSub f g) /\ feF (FeSub f g) = (feF f - feF g)%Zmod.
Proof.
  intros Hf Hg E. zbool. unfold feF at 2 3. rewrite <- toF_sub.
  split_bnd Hf. split_bnd Hg. unfold FeSub. limbs.
Qed.

Lemma FeNeg_spec a f : fe_bnd a f -> (2 * a <? 2 ^ 31) = true ->
  fe_bnd a (FeNeg f) /\ feF (FeNeg f) = (- feF f)%Zmod.
Proof.
  intros Hf E. zbool. unfold feF at 2. rewrite <- toF_opp. split_bnd Hf. unfold FeNeg. limbs.
Qed.

Lemma fe_bnd_mono a b f : a <= b -> fe_bnd a f -> fe_bnd b f.
Proof. intros Hab Hf. split_bnd Hf. repeat split; limb_lia. Qed.

(** A conditional move chooses. *)
Lemma cmove_0 f g : cmove 0 f g = f.
Proof. unfold cmove. by rewrite Z.land_0_l, Z.lxor_0_r. Qed.

Lemma cmove_1 f g : cmove (-1) f g = g.
Proof. unfold cmove. by rewrite Z.land_m1_l, <- Z.lxor_assoc, Z.lxor_nilpotent, Z.lxor_0_l. Qed.

Lemma FeCMove_spec f g (b : bool) : FeCMove f g (Z.b2z b) = if b then g else f.
Proof.
  destruct f, g, b; unfold FeCMove; cbn [Z.b2z].
  - change (s32 (- (1))) with (-1). by rewrite !cmove_1.
  - change (s32 (- (0))) with 0. by rewrite !cmove_0.
Qed.
