(* ===== verification/FeBytes.v ===== *)
(** * Field elements and bytes, inversion and square roots
      (src/tendermint/ed25519/edwards25519/edwards25519.go)

    [FeToBytes] writes the canonical representative and leaves the reduced limbs
    in the element it is given, so it returns both; [FeIsNegative] and
    [FeIsNonZero] call it and change their argument in the same way.  The
    exponentiations run on the field operations of [Fe].  The shifts and masks of
    the reads stay below 2^32. *)

From Stdlib Require Import Zmod Field.
From S2P Require Import Prelude LittleEndian EdCurve Field25519 Fe.

Definition FeFromBytes (src : list Z) : FieldElement :=
  let h0 := load4 src in
  let h1 := Z.shiftl (load3 (drop 4 src)) 6 in
  let h2 := Z.shiftl (load3 (drop 7 src)) 5 in
  let h3 := Z.shiftl (load3 (drop 10 src)) 3 in
  let h4 := Z.shiftl (load3 (drop 13 src)) 2 in
  let h5 := load4 (drop 16 src) in
  let h6 := Z.shiftl (load3 (drop 20 src)) 7 in
  let h7 := Z.shiftl (load3 (drop 23 src)) 5 in
  let h8 := Z.shiftl (load3 (drop 26 src)) 4 in
  let h9 := Z.shiftl (Z.land (load3 (drop 29 src)) 8388607) 2 in
  FeCombine h0 h1 h2 h3 h4 h5 h6 h7 h8 h9.

(** The quotient [q] of [FeToBytes]. *)
Definition fe_quotient (h : FieldElement) : Z :=
  let 'FE h0 h1 h2 h3 h4 h5 h6 h7 h8 h9 := h in
  let q := Z.shiftr (s32 (s32 (19 * h9) + Z.shiftl 1 24)) 25 in
  let q := Z.shiftr (s32 (h0 + q)) 26 in
  let q := Z.shiftr (s32 (h1 + q)) 25 in
  let q := Z.shiftr (s32 (h2 + q)) 26 in
  let q := Z.shiftr (s32 (h3 + q)) 25 in
  let q := Z.shiftr (s32 (h4 + q)) 26 in
  let q := Z.shiftr (s32 (h5 + q)) 25 in
  let q := Z.shiftr (s32 (h6 + q)) 26 in
  let q := Z.shiftr (s32 (h7 + q)) 25 in
  let q := Z.shiftr (s32 (h8 + q)) 26 in
  Z.shiftr (s32 (h9 + q)) 25.

(** The reduction: [h - (2^255 - 19) q] in limbs without signs. *)
Definition fe_reduce (h : FieldElement) : FieldElement :=
  let q := fe_quotient h in
  let 'FE h0 h1 h2 h3 h4 h5 h6 h7 h8 h9 := h in
  let h0 := s32 (h0 + s32 (19 * q)) in
  let carry0 := Z.shiftr h0 26 in
  let h1 := s32 (h1 + carry0) in
  let h0 := s32 (h0 - s32 (Z.shiftl carry0 26)) in
  let carry1 := Z.shiftr h1 25 in
  let h2 := s32 (h2 + carry1) in
  let h1 := s32 (h1 - s32 (Z.shiftl carry1 25)) in
  let carry2 := Z.shiftr h2 26 in
  let h3 := s32 (h3 + carry2) in
  let h2 := s32 (h2 - s32 (Z.shiftl carry2 26)) in
  let carry3 := Z.shiftr h3 25 in
  let h4 := s32 (h4 + carry3) in
  let h3 := s32 (h3 - s32 (Z.shiftl carry3 25)) in
  let carry4 := Z.shiftr h4 26 in
  let h5 := s32 (h5 + carry4) in
  let h4 := s32 (h4 - s32 (Z.shiftl carry4 26)) in
  let carry5 := Z.shiftr h5 25 in
  let h6 := s32 (h6 + carry5) in
  let h5 := s32 (h5 - s32 (Z.shiftl carry5 25)) in
  let carry6 := Z.shiftr h6 26 in
  let h7 := s32 (h7 + carry6) in
  let h6 := s32 (h6 - s32 (Z.shiftl carry6 26)) in
  let carry7 := Z.shiftr h7 25 in
  let h8 := s32 (h8 + carry7) in
  let h7 := s32 (h7 - s32 (Z.shiftl carry7 25)) in
  let carry8 := Z.shiftr h8 26 in
  let h9 := s32 (h9 + carry8) in
  let h8 := s32 (h8 - s32 (Z.shiftl carry8 26)) in
  let carry9 := Z.shiftr h9 25 in
  let h9 := s32 (h9 - s32 (Z.shiftl carry9 25)) in
  FE h0 h1 h2 h3 h4 h5 h6 h7 h8 h9.

(** The bytes of reduced limbs. *)
Definition fe_pack (h : FieldElement) : list Z :=
  let 'FE h0 h1 h2 h3 h4 h5 h6 h7 h8 h9 := h in
  [u8 (Z.shiftr h0 0); u8 (Z.shiftr h0 8); u8 (Z.shiftr h0 16);
   u8 (Z.lor (Z.shiftr h0 24) (s32 (Z.shiftl h1 2)));
   u8 (Z.shiftr h1 6); u8 (Z.shiftr h1 14);
   u8 (Z.lor (Z.shiftr h1 22) (s32 (Z.shiftl h2 3)));
   u8 (Z.shiftr h2 5); u8 (Z.shiftr h2 13);
   u8 (Z.lor (Z.shiftr h2 21) (s32 (Z.shiftl h3 5)));
   u8 (Z.shiftr h3 3); u8 (Z.shiftr h3 11);
   u8 (Z.lor (Z.shiftr h3 19) (s32 (Z.shiftl h4 6)));
   u8 (Z.shiftr h4 2); u8 (Z.shiftr h4 10); u8 (Z.shiftr h4 18);
   u8 (Z.shiftr h5 0); u8 (Z.shiftr h5 8); u8 (Z.shiftr h5 16);
   u8 (Z.lor (Z.shiftr h5 24) (s32 (Z.shiftl h6 1)));
   u8 (Z.shiftr h6 7); u8 (Z.shiftr h6 15);
   u8 (Z.lor (Z.shiftr h6 23) (s32 (Z.shiftl h7 3)));
   u8 (Z.shiftr h7 5); u8 (Z.shiftr h7 13);
   u8 (Z.lor (Z.shiftr h7 21) (s32 (Z.shiftl h8 4)));
   u8 (Z.shiftr h8 4); u8 (Z.shiftr h8 12);
   u8 (Z.lor (Z.shiftr h8 20) (s32 (Z.shiftl h9 6)));
   u8 (Z.shiftr h9 2); u8 (Z.shiftr h9 10); u8 (Z.shiftr h9 18)].

(** The bytes, and what [h] holds afterwards. *)
Definition FeToBytes (h : FieldElement) : list Z * FieldElement :=
  let h := fe_reduce h in (fe_pack h, h).

Definition FeIsNegative (f : FieldElement) : Z * FieldElement :=
  let (s, f) := FeToBytes f in (Z.land (nth 0 s 0) 1, f).

(** [x |= x >> 4; x |= x >> 2; x |= x >> 1; x & 1]. *)
Definition smear (x : Z) : Z :=
  let x := Z.lor x (Z.shiftr x 4) in
  let x := Z.lor x (Z.shiftr x 2) in
  let x := Z.lor x (Z.shiftr x 1) in
  Z.land x 1.

Definition FeIsNonZero (f : FieldElement) : Z * FieldElement :=
  let (s, f) := FeToBytes f in
  (smear (fold_left Z.lor s 0), f).

(** [for i = 1; i < n; i++ { FeSquare(&t, &t) }]. *)
Definition square_loop (n : nat) (t : FieldElement) : FieldElement :=
  Nat.iter (n - 1) FeSquare t.

Definition FeInvert (z : FieldElement) : FieldElement :=
  let t0 := FeSquare z in
  let t1 := FeSquare t0 in
  let t1 := square_loop 2 t1 in
  let t1 := FeMul z t1 in
  let t0 := FeMul t0 t1 in
  let t2 := FeSquare t0 in
  let t1 := FeMul t1 t2 in
  let t2 := FeSquare t1 in
  let t2 := square_loop 5 t2 in
  let t1 := FeMul t2 t1 in
  let t2 := FeSquare t1 in
  let t2 := square_loop 10 t2 in
  let t2 := FeMul t2 t1 in
  let t3 := FeSquare t2 in
  let t3 := square_loop 20 t3 in
  let t2 := FeMul t3 t2 in
  let t2 := FeSquare t2 in
  let t2 := square_loop 10 t2 in
  let t1 := FeMul t2 t1 in
  let t2 := FeSquare t1 in
  let t2 := square_loop 50 t2 in
  let t2 := FeMul t2 t1 in
  let t3 := FeSquare t2 in
  let t3 := square_loop 100 t3 in
  let t2 := FeMul t3 t2 in
  let t2 := FeSquare t2 in
  let t2 := square_loop 50 t2 in
  let t1 := FeMul t2 t1 in
  let t1 := FeSquare t1 in
  let t1 := square_loop 5 t1 in
  FeMul t1 t0.

Definition fePow22523 (z : FieldElement) : FieldElement :=
  let t0 := FeSquare z in
  let t0 := square_loop 1 t0 in
  let t1 := FeSquare t0 in
  let t1 := square_loop 2 t1 in
  let t1 := FeMul z t1 in
  let t0 := FeMul t0 t1 in
  let t0 := FeSquare t0 in
  let t0 := square_loop 1 t0 in
  let t0 := FeMul t1 t0 in
  let t1 := FeSquare t0 in
  let t1 := square_loop 5 t1 in
  let t0 := FeMul t1 t0 in
  let t1 := FeSquare t0 in
  let t1 := square_loop 10 t1 in
  let t1 := FeMul t1 t0 in
  let t2 := FeSquare t1 in
  let t2 := square_loop 20 t2 in
  let t1 := FeMul t2 t1 in
  let t1 := FeSquare t1 in
  let t1 := square_loop 10 t1 in
  let t0 := FeMul t1 t0 in
  let t1 := FeSquare t0 in
  let t1 := square_loop 50 t1 in
  let t1 := FeMul t1 t0 in
  let t2 := FeSquare t1 in
  let t2 := square_loop 100 t2 in
  let t1 := FeMul t2 t1 in
  let t1 := FeSquare t1 in
  let t1 := square_loop 50 t1 in
  let t0 := FeMul t1 t0 in
  let t0 := FeSquare t0 in
  let t0 := square_loop 2 t0 in
  FeMul t0 z.

(** ** Reading *)

Lemma bits_at_abs z k w N : 0 <= w -> 2 ^ w <= N -> Z.abs (bits_at z k w) <= N.
Proof. intros Hw HN. pose proof (bits_at_range z k w Hw). lia. Qed.

Lemma FeFromBytes_spec s : array 32 s ->
  fe_bnd tight (FeFromBytes s) /\ feF (FeFromBytes s) = toF (bits_at (le_val s) 0 255).
Proof.
  intros [_ Hs]. unfold FeFromBytes. rewrite <- (drop_0 s) at 1 11.
  rewrite !load3_at, !load4_at by done.
  change 8388607 with (Z.ones 23). rewrite Z.land_ones by lia.
  set (V := le_val s). rewrite !Z.shiftl_mul_pow2 by lia.
  match goal with |- context [?x mod 2 ^ 23] =>
    replace (x mod 2 ^ 23) with (bits_at V 232 23) by
      (etransitivity; [symmetry; apply (bits_at_bits V 232 24 0 23); lia|];
       unfold bits_at at 1; by rewrite Z.div_1_r) end.
  match goal with |- context [FeCombine ?h0 ?h1 ?h2 ?h3 ?h4 ?h5 ?h6 ?h7 ?h8 ?h9] =>
    destruct (FeCombine_spec h0 h1 h2 h3 h4 h5 h6 h7 h8 h9) as [? ->] end.
  1-10: eapply Z.le_trans; [first [apply (bits_at_abs _ _ _ (2 ^ 32)); lia|apply (abs_mul_le _ _ (2 ^ 24) (2 ^ 7));
    [apply bits_at_abs; lia|lia]]|by vm_compute].
  split; [done|]. unfold feF. f_equal. cbv [fe_val].
  change 255 with (32 + (24 + (24 + (24 + (24 + (32 + (24 + (24 + (24 + 23))))))))).
  rewrite !bits_at_split by lia. norm_bits. ring.
Qed.

(** ** Writing *)

(** A floor carry out of a 32-bit value up to [N]. *)
Lemma floor_ok x N k : Z.abs x <= N -> (0 <=? k) = true ->
  Z.abs (Z.shiftr x k) <= N / 2 ^ k + 1 /\ 0 <= x - 2 ^ k * Z.shiftr x k <= 2 ^ k - 1.
Proof.
  intros HN Hk. zbool. rewrite Z.shiftr_div_pow2 by done.
  assert (0 < 2 ^ k) by (apply Z.pow_pos_nonneg; lia).
  pose proof (Z.div_mod x (2 ^ k)). pose proof (Z.mod_pos_bound x (2 ^ k)).
  pose proof (Z.div_mod N (2 ^ k)). pose proof (Z.mod_pos_bound N (2 ^ k)). split; [nia|lia].
Qed.

Lemma sum32_ok a b A B : Z.abs a <= A -> Z.abs b <= B -> (A + B <? 2 ^ 31) = true ->
  s32 (a + b) = a + b /\ Z.abs (a + b) <= A + B.
Proof. intros Ha Hb H. zbool. split; [apply s32_id|]; lia. Qed.

(** One division of the chain for the quotient. *)
Ltac quot_step :=
  lazymatch goal with
  | |- ?Q (let x := Z.shiftr (s32 (?h + ?q)) ?k in @?b x) =>
      let x := fresh "q" in let B := fresh "B" in let R := fresh "R" in
      let E' := fresh in let B' := fresh in
      let Bh := bound_of h in let Bq := bound_of q in
      destruct (sum32_ok h q _ _ Bh Bq eq_refl) as [E' B'];
      rewrite E'; destruct (floor_ok (h + q) _ k B' eq_refl) as [B R]; norm_bound B;
      set (x := Z.shiftr (h + q) k) in *; clearbody x;
      change (Q (b x)); cbv beta; clear E' B'
  end.

(** The remainders of the chain of divisions make up the value. *)
Lemma fe_quotient_spec h : fe_bnd loose h ->
  exists q0 h9 low, fe_val h = low + 2 ^ 230 * h9 /\ Z.abs low <= 2 ^ 232 /\
    Z.abs h9 <= 2 ^ 26 /\
    0 <= 19 * h9 + 2 ^ 24 - 2 ^ 25 * q0 <= 2 ^ 25 - 1 /\
    Z.abs (fe_quotient h) <= 3 /\
    0 <= fe_val h + q0 - 2 ^ 255 * fe_quotient h <= 2 ^ 255 - 1.
Proof.
  intros Hh. split_bnd Hh.
  exists (Z.shiftr (19 * f9 + 2 ^ 24) 25), f9, (fe_val (FE f0 f1 f2 f3 f4 f5 f6 f7 f8 0)).
  split; [cbv [fe_val]; ring|]. split.
  { eapply Z.le_trans; [cbv [fe_val]; abs_bound|by vm_compute]. }
  split; [small_abs|].
  assert (Z.abs (19 * f9 + 2 ^ 24) <= 2 ^ 31 - 1) as B0.
  { eapply Z.le_trans; [abs_bound|by vm_compute]. }
  destruct (floor_ok (19 * f9 + 2 ^ 24) _ 25 B0 eq_refl) as [B1 R0]. split; [done|].
  norm_bound B1.
  set (Q := fun q => Z.abs q <= 3 /\ 0 <= fe_val (FE f0 f1 f2 f3 f4 f5 f6 f7 f8 f9) +
    Z.shiftr (19 * f9 + 2 ^ 24) 25 - 2 ^ 255 * q <= 2 ^ 255 - 1).
  change (Q (fe_quotient (FE f0 f1 f2 f3 f4 f5 f6 f7 f8 f9))).
  cbv beta iota delta [fe_quotient].
  rewrite (s32_abs (19 * f9) (2 ^ 30)); [|eapply Z.le_trans; [abs_bound|by vm_compute]|done].
  change (Z.shiftl 1 24) with (2 ^ 24). rewrite (s32_abs (19 * f9 + 2 ^ 24) _ B0 eq_refl).
  set (q0 := Z.shiftr (19 * f9 + 2 ^ 24) 25) in *. clearbody q0.
  change (Q (let q := Z.shiftr (s32 (f0 + q0)) 26 in
    let q := Z.shiftr (s32 (f1 + q)) 25 in let q := Z.shiftr (s32 (f2 + q)) 26 in
    let q := Z.shiftr (s32 (f3 + q)) 25 in let q := Z.shiftr (s32 (f4 + q)) 26 in
    let q := Z.shiftr (s32 (f5 + q)) 25 in let q := Z.shiftr (s32 (f6 + q)) 26 in
    let q := Z.shiftr (s32 (f7 + q)) 25 in let q := Z.shiftr (s32 (f8 + q)) 26 in
    let q := Z.shiftr (s32 (f9 + q)) 25 in q)).
  do 10 quot_step. split; [small_abs|].
  repeat match goal with H : Z.abs _ <= _ |- _ => clear H end.
  cbv [fe_val]. lia.
Qed.

(** The estimate of the comment on [FeToBytes]: [q] is the quotient by the modulus. *)
Lemma quotient_floor h : fe_bnd loose h ->
  0 <= fe_val h - (2 ^ 255 - 19) * fe_quotient h <= 2 ^ 255 - 20.
Proof.
  intros Hh. destruct (fe_quotient_spec h Hh) as (q0 & h9 & low & E & Hl & H9 & Hq0 & Hq & Hr).
  rewrite E in *. lia.
Qed.

(** Limbs without signs, and a value below the modulus. *)
Definition fe_canon (f : FieldElement) : Prop :=
  let 'FE f0 f1 f2 f3 f4 f5 f6 f7 f8 f9 := f in
  (0 <= f0 <= 2 ^ 26 - 1 /\ 0 <= f1 <= 2 ^ 25 - 1 /\ 0 <= f2 <= 2 ^ 26 - 1 /\
   0 <= f3 <= 2 ^ 25 - 1 /\ 0 <= f4 <= 2 ^ 26 - 1) /\
  (0 <= f5 <= 2 ^ 25 - 1 /\ 0 <= f6 <= 2 ^ 26 - 1 /\ 0 <= f7 <= 2 ^ 25 - 1 /\
   0 <= f8 <= 2 ^ 26 - 1 /\ 0 <= f9 <= 2 ^ 25 - 1).

Lemma sub32_ok h c k : 0 <= h - 2 ^ k * c <= 2 ^ k - 1 -> Z.abs h <= 2 ^ 30 ->
  (0 <=? k) && (k <=? 30) = true -> s32 (h - s32 (Z.shiftl c k)) = h - 2 ^ k * c.
Proof.
  intros H Hh Hk. zbool. assert (2 ^ k <= 2 ^ 30) by (apply Z.pow_le_mono_r; lia).
  rewrite Z.shiftl_mul_pow2 by lia. rewrite (s32_id (c * _)) by lia. rewrite s32_id by lia. lia.
Qed.

Ltac reduce_step :=
  lazymatch goal with
  | |- ?Q (let x := ?e in @?b x) =>
      let E := fresh "E" in let B := fresh "B" in let R := fresh "R" in
      lazymatch e with
      | Z.shiftr ?h ?k =>
          let Bh := bound_of h in let x := fresh "c" in
          destruct (floor_ok h _ k Bh eq_refl) as [B R]; norm_bound B;
          set (x := Z.shiftr h k) in *; clearbody x; change (Q (b x)); cbv beta
      | s32 (?h + ?c) =>
          let Bh := bound_of h in let Bc := bound_of c in let x := fresh "v" in
          destruct (sum32_ok h c _ _ Bh Bc eq_refl) as [E B]; norm_bound B; rewrite E; clear E;
          remember (h + c) as x eqn:E; change (Q (b x)); cbv beta
      | s32 (?h - s32 (Z.shiftl ?c ?k)) =>
          lazymatch goal with R : 0 <= h - 2 ^ k * c <= _ |- _ =>
            let x := fresh "w" in let Bh := bound_of h in
            rewrite (sub32_ok h c k R ltac:(apply (Z.le_trans _ _ _ Bh); by vm_compute) eq_refl);
            remember (h - 2 ^ k * c) as x eqn:E; change (Q (b x)); cbv beta end
      end
  end.

Lemma fe_reduce_spec h : fe_bnd loose h ->
  fe_canon (fe_reduce h) /\
  fe_val (fe_reduce h) = fe_val h - (2 ^ 255 - 19) * fe_quotient h.
Proof.
  intros Hh. pose proof (quotient_floor h Hh) as Hq.
  destruct (fe_quotient_spec h Hh) as (_ & _ & _ & _ & _ & _ & _ & Bq & _).
  split_bnd Hh. set (q := fe_quotient (FE f0 f1 f2 f3 f4 f5 f6 f7 f8 f9)) in *.
  set (Q := fun f => fe_canon f /\ fe_val f =
    fe_val (FE f0 f1 f2 f3 f4 f5 f6 f7 f8 f9) - (2 ^ 255 - 19) * q).
  change (Q (fe_reduce (FE f0 f1 f2 f3 f4 f5 f6 f7 f8 f9))).
  cbv beta iota delta [fe_reduce].
  lazymatch goal with |- Q (let x := _ in @?b x) => change (Q (b q)) end. cbv beta. clearbody q.
  assert (Z.abs (19 * q) <= 57) as B19 by (eapply Z.le_trans; [abs_bound|by vm_compute]).
  rewrite (s32_abs (19 * q) _ B19 eq_refl). remember (19 * q) as q19 eqn:E19.
  do 30 reduce_step.
  repeat match goal with H : Z.abs _ <= _ |- _ => clear H end.
  unfold Q. cbv [fe_canon fe_val] in *. clear Q. split; [repeat split; lia|lia].
Qed.

Lemma u8_shr h k : 0 <= k -> u8 (Z.shiftr h k) = bits_at h k 8.
Proof. intros Hk. by rewrite Z.shiftr_div_pow2. Qed.

Lemma u8_lor a y : u8 (Z.lor a (s32 y)) = u8 (Z.lor a y).
Proof.
  unfold uN. rewrite <- !(Z.land_ones _ 8), !Z.land_lor_distr_l, !(Z.land_ones _ 8) by lia.
  f_equal. unfold sN. change (2 ^ 32) with (2 ^ 8 * 2 ^ 24). change (2 ^ (32 - 1)) with (2 ^ 8 * 2 ^ 23).
  rewrite Z.rem_mul_r by lia.
  replace (_ - 2 ^ 8 * 2 ^ 23) with ((y + 2 ^ 8 * 2 ^ 23) mod 2 ^ 8 +
    ((y + 2 ^ 8 * 2 ^ 23) / 2 ^ 8 mod 2 ^ 24 - 2 ^ 23) * 2 ^ 8) by lia.
  rewrite Z.mod_add, Z.mod_mod by lia.
  replace (y + 2 ^ 8 * 2 ^ 23) with (y + 2 ^ 23 * 2 ^ 8) by lia. by rewrite Z.mod_add by lia.
Qed.

(** A byte across two limbs. *)
Lemma u8_across a w h k : 0 <= w -> 0 <= k <= 8 -> 0 <= a < 2 ^ (w + k) ->
  u8 (Z.lor (Z.shiftr a w) (s32 (Z.shiftl h k))) = bits_at a w k + 2 ^ k * bits_at h 0 (8 - k).
Proof.
  intros Hw Hk Ha. rewrite u8_lor, Z.shiftr_div_pow2 by lia.
  assert (0 < 2 ^ w /\ 0 < 2 ^ k) as [] by (split; apply Z.pow_pos_nonneg; lia).
  assert (0 <= a / 2 ^ w < 2 ^ k).
  { split; [apply Z.div_pos; lia|]. apply Z.div_lt_upper_bound; [lia|]. rewrite <- Z.pow_add_r by lia. lia. }
  rewrite lor_add by lia. unfold uN, bits_at. rewrite Z.div_1_r, (Z.mod_small (a / 2 ^ w)) by lia.
  replace (2 ^ 8) with (2 ^ k * 2 ^ (8 - k)) by (rewrite <- Z.pow_add_r by lia; f_equal; lia).
  assert (0 < 2 ^ (8 - k)) by (apply Z.pow_pos_nonneg; lia).
  rewrite Z.rem_mul_r by lia.
  rewrite (Z.mul_comm (2 ^ k) h), Z.mod_add, Z.div_add by lia.
  by rewrite (Z.mod_small (a / 2 ^ w)), (Z.div_small (a / 2 ^ w)), Z.add_0_l by done.
Qed.

(** Write a limb of the given widths as the sum of its parts. *)
Ltac cut_limb h w ws :=
  let E := fresh "L" in
  assert (E : h = bits_at h 0 ws)
    by (symmetry; apply (bits_at_small h w); change (2 ^ w) with (2 ^ w - 1 + 1); lia);
  rewrite !bits_at_split in E by lia; revert E; norm_bits; intros E.

Lemma fe_pack_spec f : fe_canon f -> array 32 (fe_pack f) /\ le_val (fe_pack f) = fe_val f.
Proof.
  destruct f as [f0 f1 f2 f3 f4 f5 f6 f7 f8 f9].
  intros ((?&?&?&?&?)&(?&?&?&?&?)). split.
  { split; [done|]. repeat constructor; apply Z.mod_pos_bound; lia. }
  unfold fe_pack. rewrite !u8_shr, !u8_across by lia.
  cut_limb f0 26 (8 + (8 + (8 + 2))). cut_limb f1 25 (6 + (8 + (8 + 3))).
  cut_limb f2 26 (5 + (8 + (8 + 5))). cut_limb f3 25 (3 + (8 + (8 + 6))).
  cut_limb f4 26 (2 + (8 + (8 + 8))). cut_limb f5 25 (8 + (8 + (8 + 1))).
  cut_limb f6 26 (7 + (8 + (8 + 3))). cut_limb f7 25 (5 + (8 + (8 + 4))).
  cut_limb f8 26 (4 + (8 + (8 + 6))). cut_limb f9 26 (2 + (8 + (8 + 8))).
  rewrite !le_val_cons, le_val_nil. norm_bits. cbv [fe_val].
  repeat match goal with H : _ <= _ <= _ |- _ => clear H end. lia.
Qed.

(** What [FeToBytes] writes and what it leaves. *)
Lemma FeToBytes_spec h : fe_bnd loose h ->
  let (s, h') := FeToBytes h in
  s = le_bytes 32 (fe_val h mod fe_p) /\ fe_bnd (2 ^ 25) h' /\ feF h' = feF h.
Proof.
  intros Hh. unfold FeToBytes. destruct (fe_reduce_spec h Hh) as [Hc Hv].
  pose proof (quotient_floor h Hh) as Hq. destruct (fe_pack_spec _ Hc) as [Ha Hp].
  split; [|split].
  - rewrite <- (le_bytes_val 32 (fe_pack _)) by done. f_equal. rewrite Hp, Hv, fe_p_eq.
    apply (Z.mod_unique_pos _ _ (fe_quotient h)); lia.
  - destruct (fe_reduce h). destruct Hc as ((?&?&?&?&?)&(?&?&?&?&?)). repeat split; lia.
  - unfold feF. rewrite Hv, <- fe_p_eq. apply toF_sub_p.
Qed.

(** ** Powers *)

(** [f] is the [n]-th power of [z]. *)
Definition pow_of (z : FieldElement) (n : Z) (f : FieldElement) : Prop :=
  0 <= n /\ fe_bnd loose f /\ feF f = (feF z ^ n)%Zmod.

Lemma tight_loose f : fe_bnd tight f -> fe_bnd loose f.
Proof. apply fe_bnd_mono. by vm_compute. Qed.

Lemma pow_of_bnd z n f : pow_of z n f -> fe_bnd loose f.
Proof. by intros (_ & ? & _). Qed.

Lemma pow_of_1 z : fe_bnd loose z -> pow_of z 1 z.
Proof. intros H. split; [lia|]. split; [done|]. by rewrite Zmod.pow_1_r. Qed.

Lemma pow_of_mul z a b f g : pow_of z a f -> pow_of z b g -> pow_of z (a + b) (FeMul f g).
Proof.
  intros (Ha & Bf & Ef) (Hb & Bg & Eg). destruct (FeMul_spec f g Bf Bg) as [B E].
  split; [lia|]. split; [by apply tight_loose|]. rewrite E, Ef, Eg. by rewrite Zmod.pow_add_r_nonneg.
Qed.

Lemma pow_of_square z a f : pow_of z a f -> pow_of z (a * 2) (FeSquare f).
Proof.
  intros H. replace (a * 2) with (a + a) by lia. rewrite FeSquare_eq by apply H. by apply pow_of_mul.
Qed.

Lemma pow_of_loop z a n f : pow_of z a f -> pow_of z (a * 2 ^ Z.of_nat (n - 1)) (square_loop n f).
Proof.
  intros H. unfold square_loop. generalize (n - 1)%nat as m. induction m as [|m IH].
  - by rewrite Z.mul_1_r.
  - rewrite Nat2Z.inj_succ, Z.pow_succ_r, (Z.mul_comm 2), Z.mul_assoc by lia.
    by apply pow_of_square.
Qed.

(** Replace an integer by its value. *)
Ltac eval_to n n' H :=
  let E := fresh "E" in
  assert (E : (n =? n') = true) by (vm_compute; reflexivity);
  apply Z.eqb_eq in E; rewrite E in H; clear E.

(** Follow a chain of squarings and multiplications. *)
Ltac pow_chain :=
  lazymatch goal with
  | |- pow_of _ _ (FeMul _ _) => eapply pow_of_mul; pow_chain
  | |- pow_of _ _ (FeSquare _) => eapply pow_of_square; pow_chain
  | |- pow_of _ _ (square_loop _ _) => eapply pow_of_loop; pow_chain
  | |- _ => eassumption
  end.
Ltac pow_step :=
  lazymatch goal with
  | |- ?Q (let x := ?e in @?b x) =>
      let x := fresh "t" in let H := fresh "H" in
      change (let x := e in Q (b x)); cbv beta; intro x;
      match goal with Hz : pow_of ?z 1 ?z |- _ => eassert (H : pow_of z _ x) by (unfold x; pow_chain) end;
      lazymatch type of H with pow_of _ ?n _ =>
        let n' := eval vm_compute in n in eval_to n n' H end;
      clearbody x
  end.
Ltac pow_end H n :=
  let E := fresh "E" in pose proof H as E;
  lazymatch type of E with pow_of _ ?m _ =>
    eval_to m n E end; exact E.

Lemma FeInvert_spec z : fe_bnd loose z ->
  fe_bnd tight (FeInvert z) /\ feF (FeInvert z) = Zmod.inv (feF z).
Proof.
  intros Hz%pow_of_1. enough (H : fe_bnd tight (FeInvert z) /\ pow_of z (2 ^ 255 - 21) (FeInvert z)).
  { destruct H as (B & _ & _ & ->). split; [done|].
    replace (2 ^ 255 - 21) with (fe_p - 2) by (rewrite fe_p_eq; lia).
    destruct (Zmod.eqb_spec (feF z) 0%Zmod) as [->|H].
    - rewrite Zmod.inv_0, Zmod.pow_0_l; [done|]. rewrite fe_p_eq. lia.
    - by apply Zmod.fermat_inv, fe_p_prime. }
  set (Q := fun f => fe_bnd tight f /\ pow_of z (2 ^ 255 - 21) f). change (Q (FeInvert z)).
  cbv beta delta [FeInvert]. do 30 pow_step.
  split; [apply FeMul_spec; apply pow_of_bnd in H3, H28; done|].
  pow_end (pow_of_mul z _ _ _ _ H28 H3) (2 ^ 255 - 21).
Qed.

(** The exponent is [(p - 5) / 8]. *)
Lemma fePow22523_spec z : fe_bnd loose z ->
  fe_bnd tight (fePow22523 z) /\ feF (fePow22523 z) = (feF z ^ (2 ^ 252 - 3))%Zmod.
Proof.
  intros Hz%pow_of_1.
  enough (H : fe_bnd tight (fePow22523 z) /\ pow_of z (2 ^ 252 - 3) (fePow22523 z))
    by (destruct H as (? & _ & _ & ->); split; [assumption|reflexivity]).
  set (Q := fun f => fe_bnd tight f /\ pow_of z (2 ^ 252 - 3) f). change (Q (fePow22523 z)).
  cbv beta delta [fePow22523]. do 32 pow_step.
  split; [apply FeMul_spec; apply pow_of_bnd in H30, Hz; done|].
  pow_end (pow_of_mul z _ _ _ _ H30 Hz) (2 ^ 252 - 3).
Qed.

(** ** Sign and zero tests *)

(** The least significant bit of the canonical representative. *)
Definition parity (x : F) : Z := Zmod.to_Z x mod 2.

Lemma feF_to_Z f : Zmod.to_Z (feF f) = fe_val f mod fe_p.
Proof. apply Zmod.to_Z_of_Z. Qed.

Lemma fe_val_mod_range f : 0 <= fe_val f mod fe_p < 256 ^ Z.of_nat 32.
Proof.
  pose proof (Z.mod_pos_bound (fe_val f) fe_p) as H. rewrite fe_p_eq in *. split; [lia|].
  apply (Z.lt_trans _ (2 ^ 255 - 19)); [lia|by vm_compute].
Qed.

Lemma FeIsNegative_spec f : fe_bnd loose f ->
  let (b, f') := FeIsNegative f in
  b = parity (feF f) /\ fe_bnd (2 ^ 25) f' /\ feF f' = feF f.
Proof.
  intros Hf. unfold FeIsNegative. pose proof (FeToBytes_spec f Hf) as H.
  destruct (FeToBytes f) as [s f']. destruct H as (-> & HB & HE). split; [|done].
  destruct (le_bytes_array 32 (fe_val f mod fe_p)) as [_ Hb].
  rewrite le_val_nth, le_val_bytes by (done || apply fe_val_mod_range).
  unfold parity. rewrite feF_to_Z, Z.div_1_r. change 1 with (Z.ones 1). rewrite Z.land_ones by lia.
  change 256 with (2 * 128). rewrite Z.rem_mul_r by lia. change (2 ^ 1) with 2.
  rewrite Z.mul_comm, Z.mod_add, Z.mod_mod by lia. done.
Qed.

(** Smearing the bits of a byte down gives 1 unless it is zero. *)
Lemma smear_spec x : byte_ok x -> smear x = Z.b2z (negb (x =? 0)).
Proof.
  intros H. assert (Forall (fun x => smear x = Z.b2z (negb (x =? 0))) (seqZ 0 256)) as A.
  { apply (bool_decide_unpack _). vm_compute. exact I. }
  rewrite Forall_forall in A. apply A, elem_of_seqZ. unfold byte_ok in H. lia.
Qed.

Lemma byte_lor a b : byte_ok a -> byte_ok b -> byte_ok (Z.lor a b).
Proof.
  unfold byte_ok. intros Ha Hb. assert (E : Z.lor a b = Z.lor a b mod 2 ^ 8).
  { rewrite <- Z.land_ones, Z.land_lor_distr_l, !Z.land_ones, !Z.mod_small by lia. done. }
  rewrite E. apply Z.mod_pos_bound. lia.
Qed.

Lemma fold_lor_spec s x : bytes_ok s -> byte_ok x ->
  byte_ok (fold_left Z.lor s x) /\ (fold_left Z.lor s x = 0 <-> x = 0 /\ le_val s = 0).
Proof.
  revert x. induction s as [|b s IH]; intros x Hs Hx; cbn [fold_left].
  - rewrite le_val_nil. split; [done|]. split; [by intros ->|by intros [-> _]].
  - apply bytes_ok_cons in Hs as [Hb Hs]. destruct (IH (Z.lor x b) Hs (byte_lor _ _ Hx Hb)) as [B E].
    split; [done|]. rewrite E, Z.lor_eq_0_iff, le_val_cons.
    pose proof (le_val_range s Hs). unfold byte_ok in *. lia.
Qed.

Lemma FeIsNonZero_spec f : fe_bnd loose f ->
  let (b, f') := FeIsNonZero f in
  (b = if decide (feF f = 0%Zmod) then 0 else 1) /\ fe_bnd (2 ^ 25) f' /\ feF f' = feF f.
Proof.
  intros Hf. unfold FeIsNonZero. pose proof (FeToBytes_spec f Hf) as H.
  destruct (FeToBytes f) as [s f']. destruct H as (-> & HB & HE). split; [|done].
  destruct (le_bytes_array 32 (fe_val f mod fe_p)) as [_ Hb].
  destruct (fold_lor_spec _ 0 Hb) as [B E]; [done|].
  rewrite le_val_bytes in E by apply fe_val_mod_range.
  rewrite smear_spec by done. assert (Ez : feF f = 0%Zmod <-> fe_val f mod fe_p = 0).
  { rewrite <- feF_to_Z. split; [intros ->; apply Zmod.to_Z_0|].
    intros H. apply Zmod.to_Z_inj. by rewrite H, Zmod.to_Z_0. }
  destruct (decide _) as [D|D], (Z.eqb_spec (fold_left Z.lor (le_bytes 32 (fe_val f mod fe_p)) 0) 0) as [D'|D']; [reflexivity|exfalso|exfalso|reflexivity].
  - apply D'. apply (proj2 E). split; [reflexivity|]. exact (proj1 Ez D).
  - apply D. apply (proj2 Ez). exact (proj2 (proj1 E D')).
Qed.
