(* ===== verification/Ge.v ===== *)
(** * Group elements (src/tendermint/ed25519/edwards25519/edwards25519.go)

    The five representations of points, the conversions between them, the
    addition and doubling formulas, and the encoding of points as 32 bytes.  A
    method that fills a result through a pointer returns it.  [FromBytes] gives
    [None] where the code returns false. *)

From Stdlib Require Import Zmod Field.
From S2P Require Import Prelude LittleEndian EdCurve Field25519 Fe FeBytes.

(** ** Constants (const.go) *)

Definition d : FieldElement :=
  FE (-10913610) 13857413 (-15372611) 6949391 114729 (-8787816) (-6275908) (-3247719) (-18696448) (-12055116).

Definition d2 : FieldElement :=
  FE (-21827239) (-5839606) (-30745221) 13898782 229458 15978800 (-12551817) (-6495438) 29715968 9444199.

Definition SqrtM1 : FieldElement :=
  FE (-32595792) (-7943725) 9377950 3500415 12389472 (-272473) (-25146209) (-2005654) 326686 11406482.

(** ** Representations *)

Record ProjectiveGroupElement := Proj { pX : FieldElement; pY : FieldElement; pZ : FieldElement }.

Record ExtendedGroupElement := Ext {
  eX : FieldElement; eY : FieldElement; eZ : FieldElement; eT : FieldElement }.

Record CompletedGroupElement := Comp {
  cX : FieldElement; cY : FieldElement; cZ : FieldElement; cT : FieldElement }.

Record PreComputedGroupElement := Pre {
  yPlusX : FieldElement; yMinusX : FieldElement; xy2d : FieldElement }.

Record CachedGroupElement := Cached {
  c_yPlusX : FieldElement; c_yMinusX : FieldElement; c_Z : FieldElement; c_T2d : FieldElement }.

Definition Proj_Zero : ProjectiveGroupElement := Proj FeZero FeOne FeOne.
Definition Ext_Zero : ExtendedGroupElement := Ext FeZero FeOne FeOne FeZero.
Definition Pre_Zero : PreComputedGroupElement := Pre FeOne FeOne FeZero.

(** ** Formulas *)

Definition Proj_Double (p : ProjectiveGroupElement) : CompletedGroupElement :=
  let rX := FeSquare (pX p) in
  let rZ := FeSquare (pY p) in
  let rT := FeSquare2 (pZ p) in
  let rY := FeAdd (pX p) (pY p) in
  let t0 := FeSquare rY in
  let rY := FeAdd rZ rX in
  let rZ := FeSub rZ rX in
  let rX := FeSub t0 rY in
  let rT := FeSub rT rZ in
  Comp rX rY rZ rT.

Definition Ext_ToProjective (p : ExtendedGroupElement) : ProjectiveGroupElement :=
  Proj (FeCopy (eX p)) (FeCopy (eY p)) (FeCopy (eZ p)).

Definition Ext_Double (p : ExtendedGroupElement) : CompletedGroupElement :=
  Proj_Double (Ext_ToProjective p).

Definition Ext_ToCached (p : ExtendedGroupElement) : CachedGroupElement :=
  Cached (FeAdd (eY p) (eX p)) (FeSub (eY p) (eX p)) (FeCopy (eZ p)) (FeMul (eT p) d2).

Definition Comp_ToProjective (p : CompletedGroupElement) : ProjectiveGroupElement :=
  Proj (FeMul (cX p) (cT p)) (FeMul (cY p) (cZ p)) (FeMul (cZ p) (cT p)).

Definition Comp_ToExtended (p : CompletedGroupElement) : ExtendedGroupElement :=
  Ext (FeMul (cX p) (cT p)) (FeMul (cY p) (cZ p)) (FeMul (cZ p) (cT p)) (FeMul (cX p) (cY p)).

Definition geAdd (p : ExtendedGroupElement) (q : CachedGroupElement) : CompletedGroupElement :=
  let rX := FeAdd (eY p) (eX p) in
  let rY := FeSub (eY p) (eX p) in
  let rZ := FeMul rX (c_yPlusX q) in
  let rY := FeMul rY (c_yMinusX q) in
  let rT := FeMul (c_T2d q) (eT p) in
  let rX := FeMul (eZ p) (c_Z q) in
  let t0 := FeAdd rX rX in
  let rX := FeSub rZ rY in
  let rY := FeAdd rZ rY in
  let rZ := FeAdd t0 rT in
  let rT := FeSub t0 rT in
  Comp rX rY rZ rT.

Definition geSub (p : ExtendedGroupElement) (q : CachedGroupElement) : CompletedGroupElement :=
  let rX := FeAdd (eY p) (eX p) in
  let rY := FeSub (eY p) (eX p) in
  let rZ := FeMul rX (c_yMinusX q) in
  let rY := FeMul rY (c_yPlusX q) in
  let rT := FeMul (c_T2d q) (eT p) in
  let rX := FeMul (eZ p) (c_Z q) in
  let t0 := FeAdd rX rX in
  let rX := FeSub rZ rY in
  let rY := FeAdd rZ rY in
  let rZ := FeSub t0 rT in
  let rT := FeAdd t0 rT in
  Comp rX rY rZ rT.

Definition geMixedAdd (p : ExtendedGroupElement) (q : PreComputedGroupElement) : CompletedGroupElement :=
  let rX := FeAdd (eY p) (eX p) in
  let rY := FeSub (eY p) (eX p) in
  let rZ := FeMul rX (yPlusX q) in
  let rY := FeMul rY (yMinusX q) in
  let rT := FeMul (xy2d q) (eT p) in
  let t0 := FeAdd (eZ p) (eZ p) in
  let rX := FeSub rZ rY in
  let rY := FeAdd rZ rY in
  let rZ := FeAdd t0 rT in
  let rT := FeSub t0 rT in
  Comp rX rY rZ rT.

Definition geMixedSub (p : ExtendedGroupElement) (q : PreComputedGroupElement) : CompletedGroupElement :=
  let rX := FeAdd (eY p) (eX p) in
  let rY := FeSub (eY p) (eX p) in
  let rZ := FeMul rX (yMinusX q) in
  let rY := FeMul rY (yPlusX q) in
  let rT := FeMul (xy2d q) (eT p) in
  let t0 := FeAdd (eZ p) (eZ p) in
  let rX := FeSub rZ rY in
  let rY := FeAdd rZ rY in
  let rZ := FeSub t0 rT in
  let rT := FeAdd t0 rT in
  Comp rX rY rZ rT.

(** ** Encoding *)

(** The bytes of a point with coordinates X, Y, Z: the affine [y] with the sign
    of [x] in the top bit. *)
Definition coords_ToBytes (X Y Zc : FieldElement) : list Z :=
  let recip := FeInvert Zc in
  let x := FeMul X recip in
  let y := FeMul Y recip in
  let s := (FeToBytes y).1 in
  alter (fun b => Z.lxor b (u8 (Z.shiftl (FeIsNegative x).1 7))) 31%nat s.

Definition Proj_ToBytes (p : ProjectiveGroupElement) : list Z := coords_ToBytes (pX p) (pY p) (pZ p).
Definition Ext_ToBytes (p : ExtendedGroupElement) : list Z := coords_ToBytes (eX p) (eY p) (eZ p).

Definition Ext_FromBytes (s : list Z) : option ExtendedGroupElement :=
  let Y := FeFromBytes s in
  let Zc := FeOne in
  let u := FeSquare Y in
  let v := FeMul u d in
  let u := FeSub u Zc in
  let v := FeAdd v Zc in
  let v3 := FeSquare v in
  let v3 := FeMul v3 v in
  let X := FeSquare v3 in
  let X := FeMul X v in
  let X := FeMul X u in
  let X := fePow22523 X in
  let X := FeMul X v3 in
  let X := FeMul X u in
  let vxx := FeSquare X in
  let vxx := FeMul vxx v in
  let check := FeSub vxx u in
  let root :=
    if (FeIsNonZero check).1 =? 1 then
      let check := FeAdd vxx u in
      if (FeIsNonZero check).1 =? 1 then None
      else Some (FeToBytes (FeMul X SqrtM1)).2
    else Some X in
  match root with
  | None => None
  | Some X =>
      let (neg, X) := FeIsNegative X in
      let X := if negb (neg =? Z.shiftr (nth 31 s 0) 7) then FeNeg X else X in
      Some (Ext X Y Zc (FeMul X Y))
  end.

(** ** What the representations stand for *)

Local Open Scope Zmod_scope.
Add Field F_field_ge : (Zmod.field_theory fe_p fe_p_prime).

Abbreviation x_of P := (px fe_p dF P).
Abbreviation y_of P := (py fe_p dF P).

Definition proj_rep (P : point25519) (r : ProjectiveGroupElement) : Prop :=
  fe_bnd (2 ^ 25) (pX r) /\ fe_bnd tight (pY r) /\ fe_bnd tight (pZ r) /\ feF (pZ r) <> 0 /\
  feF (pX r) = x_of P * feF (pZ r) /\ feF (pY r) = y_of P * feF (pZ r).

Definition ext_rep (P : point25519) (r : ExtendedGroupElement) : Prop :=
  fe_bnd (2 ^ 25) (eX r) /\ fe_bnd tight (eY r) /\ fe_bnd tight (eZ r) /\ fe_bnd loose (eT r) /\
  feF (eZ r) <> 0 /\ feF (eX r) = x_of P * feF (eZ r) /\ feF (eY r) = y_of P * feF (eZ r) /\
  feF (eT r) = x_of P * y_of P * feF (eZ r).

Definition comp_rep (P : point25519) (r : CompletedGroupElement) : Prop :=
  fe_bnd loose (cX r) /\ fe_bnd loose (cY r) /\ fe_bnd loose (cZ r) /\ fe_bnd loose (cT r) /\
  feF (cZ r) <> 0 /\ feF (cT r) <> 0 /\
  feF (cX r) = x_of P * feF (cZ r) /\ feF (cY r) = y_of P * feF (cT r).

Definition pre_rep (P : point25519) (r : PreComputedGroupElement) : Prop :=
  fe_bnd loose (yPlusX r) /\ fe_bnd loose (yMinusX r) /\ fe_bnd loose (xy2d r) /\
  feF (yPlusX r) = y_of P + x_of P /\ feF (yMinusX r) = y_of P - x_of P /\
  feF (xy2d r) = (1 + 1) * dF * x_of P * y_of P.

Definition cached_rep (P : point25519) (r : CachedGroupElement) : Prop :=
  fe_bnd loose (c_yPlusX r) /\ fe_bnd loose (c_yMinusX r) /\ fe_bnd tight (c_Z r) /\
  fe_bnd loose (c_T2d r) /\ feF (c_Z r) <> 0 /\
  feF (c_yPlusX r) = (y_of P + x_of P) * feF (c_Z r) /\
  feF (c_yMinusX r) = (y_of P - x_of P) * feF (c_Z r) /\
  feF (c_T2d r) = (1 + 1) * dF * x_of P * y_of P * feF (c_Z r).

Lemma d_spec : fe_bnd tight d /\ feF d = dF.
Proof. split; [vm_compute; repeat split; discriminate|]. apply toF_check. vm_compute. reflexivity. Qed.

Lemma d2_spec : fe_bnd tight d2 /\ feF d2 = (1 + 1) * dF.
Proof.
  split; [vm_compute; repeat split; discriminate|]. unfold feF, dF. change (1 : F) with (toF 1).
  rewrite <- toF_add, <- toF_mul. apply toF_check. vm_compute. reflexivity.
Qed.

Lemma SqrtM1_spec : fe_bnd tight SqrtM1 /\ feF SqrtM1 = iF.
Proof. split; [vm_compute; repeat split; discriminate|]. apply toF_check. vm_compute. reflexivity. Qed.

Lemma FeOne_spec : fe_bnd 1 FeOne /\ feF FeOne = 1.
Proof. split; [vm_compute; repeat split; discriminate|]. done. Qed.

Lemma FeZero_spec : fe_bnd 0 FeZero /\ feF FeZero = 0.
Proof. split; [vm_compute; repeat split; discriminate|]. done. Qed.

(** ** The formulas compute sums *)

Ltac bnd_of f := lazymatch goal with B : fe_bnd _ f |- _ => constr:(B) end.
Ltac bnd_mono :=
  lazymatch goal with |- fe_bnd _ ?f =>
    let B := bnd_of f in refine (fe_bnd_mono _ _ f _ B); vm_compute; discriminate end.

(** One field operation of a formula: its bound and its value. *)
Ltac fe_op x e :=
  let B := fresh "B" in let E := fresh "E" in
  lazymatch e with
  | FeMul ?f ?g => destruct (FeMul_spec f g ltac:(bnd_mono) ltac:(bnd_mono)) as [B E]
  | FeSquare ?f => destruct (FeSquare_spec f ltac:(bnd_mono)) as [B E]
  | FeSquare2 ?f => destruct (FeSquare2_spec f ltac:(bnd_mono)) as [B E]
  | FeAdd ?f ?g =>
      let Bf := bnd_of f in let Bg := bnd_of g in
      destruct (FeAdd_spec _ _ f g Bf Bg eq_refl) as [B E]
  | FeSub ?f ?g =>
      let Bf := bnd_of f in let Bg := bnd_of g in
      destruct (FeSub_spec _ _ f g Bf Bg eq_refl) as [B E]
  | FeNeg ?f => let Bf := bnd_of f in destruct (FeNeg_spec _ f Bf eq_refl) as [B E]
  | fePow22523 ?f => destruct (fePow22523_spec f ltac:(bnd_mono)) as [B E]
  | FeInvert ?f => destruct (FeInvert_spec f ltac:(bnd_mono)) as [B E]
  end;
  change e with x in B, E.
Ltac fe_step :=
  lazymatch goal with
  | |- ?Q (let x := ?e in @?b x) =>
      let x := fresh "r" in
      change (let x := e in Q (b x)); cbv beta; intro x; fe_op x e; clearbody x
  end.

(** The coordinates of a sum up to a common factor. *)
Lemma comp_rep_add P Q r k : k <> 0 ->
  fe_bnd loose (cX r) -> fe_bnd loose (cY r) -> fe_bnd loose (cZ r) -> fe_bnd loose (cT r) ->
  feF (cX r) = k * (x_of P * y_of Q + y_of P * x_of Q) ->
  feF (cY r) = k * (y_of P * y_of Q + x_of P * x_of Q) ->
  feF (cZ r) = k * (1 + dF * x_of P * x_of Q * y_of P * y_of Q) ->
  feF (cT r) = k * (1 - dF * x_of P * x_of Q * y_of P * y_of Q) ->
  comp_rep (cg_add P Q) r.
Proof.
  intros Hk BX BY BZ BT EX EY EZ ET.
  destruct (denominator_nz fe_p fe_p_prime dF iF F_two_nz iF_sq dF_nonsquare _ _ _ _
    (p_on _ _ P) (p_on _ _ Q)) as [D1 D2].
  repeat split; try done.
  - rewrite EZ. by apply F_mul_nz.
  - rewrite ET. by apply F_mul_nz.
  - rewrite EX, EZ. cbn. unfold add_x. by field.
  - rewrite EY, ET. cbn. unfold add_y. by field.
Qed.

Ltac fe_rewrite := repeat match goal with E : feF ?r = _ |- context [feF ?r] => rewrite E end.
Ltac comp_end k :=
  apply (comp_rep_add _ _ _ k); cbn [cX cY cZ cT]; [|bnd_mono..| | | |];
  [repeat apply F_mul_nz; first [assumption|exact F_two_nz]|fe_rewrite; cbn; ring..].

Lemma geAdd_spec P Q p q : ext_rep P p -> cached_rep Q q -> comp_rep (cg_add P Q) (geAdd p q).
Proof.
  destruct p as [X1 Y1 Z1 T1], q as [yp ym Z2 t2d].
  intros (BX & BY & BZ & BT & NZ & EX & EY & ET) (Byp & Bym & BZ2 & Bt & NZ2 & Eyp & Eym & Et).
  cbn [eX eY eZ eT c_yPlusX c_yMinusX c_Z c_T2d] in *.
  cbv beta iota delta [geAdd eX eY eZ eT c_yPlusX c_yMinusX c_Z c_T2d].
  do 11 fe_step. comp_end ((1 + 1) * feF Z1 * feF Z2).
Qed.

Lemma geSub_spec P Q p q : ext_rep P p -> cached_rep Q q ->
  comp_rep (cg_add P (cg_neg Q)) (geSub p q).
Proof.
  destruct p as [X1 Y1 Z1 T1], q as [yp ym Z2 t2d].
  intros (BX & BY & BZ & BT & NZ & EX & EY & ET) (Byp & Bym & BZ2 & Bt & NZ2 & Eyp & Eym & Et).
  cbn [eX eY eZ eT c_yPlusX c_yMinusX c_Z c_T2d] in *.
  cbv beta iota delta [geSub eX eY eZ eT c_yPlusX c_yMinusX c_Z c_T2d].
  do 11 fe_step. comp_end ((1 + 1) * feF Z1 * feF Z2).
Qed.

Lemma geMixedAdd_spec P Q p q : ext_rep P p -> pre_rep Q q -> comp_rep (cg_add P Q) (geMixedAdd p q).
Proof.
  destruct p as [X1 Y1 Z1 T1], q as [yp ym t2d].
  intros (BX & BY & BZ & BT & NZ & EX & EY & ET) (Byp & Bym & Bt & Eyp & Eym & Et).
  cbn [eX eY eZ eT yPlusX yMinusX xy2d] in *.
  cbv beta iota delta [geMixedAdd eX eY eZ eT yPlusX yMinusX xy2d].
  do 10 fe_step. comp_end ((1 + 1) * feF Z1).
Qed.

Lemma geMixedSub_spec P Q p q : ext_rep P p -> pre_rep Q q ->
  comp_rep (cg_add P (cg_neg Q)) (geMixedSub p q).
Proof.
  destruct p as [X1 Y1 Z1 T1], q as [yp ym t2d].
  intros (BX & BY & BZ & BT & NZ & EX & EY & ET) (Byp & Bym & Bt & Eyp & Eym & Et).
  cbn [eX eY eZ eT yPlusX yMinusX xy2d] in *.
  cbv beta iota delta [geMixedSub eX eY eZ eT yPlusX yMinusX xy2d].
  do 10 fe_step. comp_end ((1 + 1) * feF Z1).
Qed.

Lemma curve_yx P : y_of P * y_of P - x_of P * x_of P =
  1 + dF * x_of P * x_of P * y_of P * y_of P.
Proof.
  pose proof (p_on _ _ P) as H. unfold on_curve, curve_eq in H.
  transitivity (0 + 1 + dF * x_of P * x_of P * y_of P * y_of P); [|ring]. rewrite <- H. ring.
Qed.

Lemma Proj_Double_spec P p : proj_rep P p -> comp_rep (cg_add P P) (Proj_Double p).
Proof.
  destruct p as [X1 Y1 Z1]. intros (BX & BY & BZ & NZ & EX & EY). cbn [pX pY pZ] in *.
  cbv beta iota delta [Proj_Double pX pY pZ]. do 9 fe_step.
  apply (comp_rep_add _ _ _ (feF Z1 * feF Z1)); cbn [cX cY cZ cT]; [|bnd_mono..| | | |].
  - by apply F_mul_nz.
  - fe_rewrite. ring.
  - fe_rewrite. ring.
  - rewrite <- curve_yx. fe_rewrite. ring.
  - transitivity (feF Z1 * feF Z1 * (1 + 1 - (1 + dF * x_of P * x_of P * y_of P * y_of P))); [|ring].
    rewrite <- curve_yx. fe_rewrite. ring.
Qed.

Lemma Ext_Double_spec P p : ext_rep P p -> comp_rep (cg_add P P) (Ext_Double p).
Proof. intros (?&?&?&?&?&?&?&?). by apply Proj_Double_spec. Qed.

Lemma Comp_ToProjective_spec P p : comp_rep P p -> proj_rep P (Comp_ToProjective p).
Proof.
  destruct p as [X1 Y1 Z1 T1]. intros (BX & BY & BZ & BT & NZ & NT & EX & EY).
  cbn [cX cY cZ cT] in *. unfold Comp_ToProjective. cbn [cX cY cZ cT].
  destruct (FeMul_spec X1 T1 BX BT) as [B1 E1]. destruct (FeMul_spec Y1 Z1 BY BZ) as [B2 E2].
  destruct (FeMul_spec Z1 T1 BZ BT) as [B3 E3].
  repeat split; cbn [pX pY pZ]; try bnd_mono; fe_rewrite; [by apply F_mul_nz|ring..].
Qed.

Lemma Comp_ToExtended_spec P p : comp_rep P p -> ext_rep P (Comp_ToExtended p).
Proof.
  intros H. pose proof (Comp_ToProjective_spec P p H) as (BX' & BY' & BZ' & NZ' & EX' & EY').
  destruct p as [X1 Y1 Z1 T1]. destruct H as (BX & BY & BZ & BT & NZ & NT & EX & EY).
  cbn [cX cY cZ cT pX pY pZ Comp_ToProjective] in *. unfold Comp_ToExtended. cbn [cX cY cZ cT].
  destruct (FeMul_spec X1 Y1 BX BY) as [B4 E4]. destruct (FeMul_spec Z1 T1 BZ BT) as [B3 E3].
  repeat split; cbn [eX eY eZ eT]; try assumption; [bnd_mono|]. rewrite E4, E3, EX, EY. ring.
Qed.

Lemma Ext_ToCached_spec P p : ext_rep P p -> cached_rep P (Ext_ToCached p).
Proof.
  destruct p as [X1 Y1 Z1 T1]. intros (BX & BY & BZ & BT & NZ & EX & EY & ET).
  cbn [eX eY eZ eT] in *. unfold Ext_ToCached, FeCopy. cbn [eX eY eZ eT].
  destruct (FeAdd_spec _ _ Y1 X1 BY BX eq_refl) as [B1 E1].
  destruct (FeSub_spec _ _ Y1 X1 BY BX eq_refl) as [B2 E2]. destruct d2_spec as [Bd Ed].
  destruct (FeMul_spec T1 d2 BT ltac:(bnd_mono)) as [B3 E3].
  repeat split; cbn [c_yPlusX c_yMinusX c_Z c_T2d]; try assumption; try bnd_mono;
    [rewrite E1, EX, EY|rewrite E2, EX, EY|rewrite E3, ET, Ed]; ring.
Qed.

Lemma Ext_ToProjective_spec P p : ext_rep P p -> proj_rep P (Ext_ToProjective p).
Proof. by intros (?&?&?&?&?&?&?&?). Qed.

Lemma Ext_Zero_spec : ext_rep cg_zero Ext_Zero.
Proof.
  destruct FeZero_spec as [B0 E0], FeOne_spec as [B1 E1].
  unfold ext_rep. cbn [eX eY eZ eT Ext_Zero]. do 4 (split; [bnd_mono|]). rewrite E0, E1. cbn.
  split; [apply F_one_nz|]. repeat split; ring.
Qed.

Lemma Proj_Zero_spec : proj_rep cg_zero Proj_Zero.
Proof. exact (Ext_ToProjective_spec _ _ Ext_Zero_spec). Qed.

Lemma Pre_Zero_spec : pre_rep cg_zero Pre_Zero.
Proof.
  destruct FeZero_spec as [B0 E0], FeOne_spec as [B1 E1].
  unfold pre_rep. cbn [yPlusX yMinusX xy2d Pre_Zero]. do 3 (split; [bnd_mono|]). rewrite E0, E1. cbn.
  repeat split; ring.
Qed.
