(* ===== verification/GeBytes.v ===== *)
(** * Encoding and decoding of points

    [ToBytes] writes the canonical [y] and the sign of [x] of the point an
    element stands for, whatever its coordinates; [FromBytes] accepts exactly
    the [y] for which there is a point, and undoes [ToBytes].  The square root is
    the one of the code: [u v^3 (u v^7)^((p-5)/8)], corrected by a square root of
    [-1]. *)

From Stdlib Require Import Zmod Field.
From S2P Require Import Prelude LittleEndian EdCurve Field25519 Fe FeBytes Ge.

Local Open Scope Zmod_scope.
Add Field F_field_gb : (Zmod.field_theory fe_p fe_p_prime).

(** ** The encoding of a point *)

Definition point_bytes (P : point25519) : list Z :=
  alter (fun b => Z.lxor b (u8 (Z.shiftl (parity (x_of P)) 7))) 31%nat
    (le_bytes 32 (Zmod.to_Z (y_of P))).

Lemma parity_01 x : (0 <= parity x < 2)%Z.
Proof. apply Z.mod_pos_bound. lia. Qed.

Lemma coords_ToBytes_spec P X Y Zc : fe_bnd (2 ^ 25) X -> fe_bnd tight Y -> fe_bnd tight Zc ->
  feF Zc <> 0 -> feF X = x_of P * feF Zc -> feF Y = y_of P * feF Zc ->
  coords_ToBytes X Y Zc = point_bytes P.
Proof.
  intros BX BY BZ NZ EX EY. unfold coords_ToBytes, point_bytes.
  destruct (FeInvert_spec Zc ltac:(bnd_mono)) as [BR ER].
  destruct (FeMul_spec X (FeInvert Zc) ltac:(bnd_mono) ltac:(bnd_mono)) as [Bx Ex].
  destruct (FeMul_spec Y (FeInvert Zc) ltac:(bnd_mono) ltac:(bnd_mono)) as [By Ey].
  assert (feF (FeMul X (FeInvert Zc)) = x_of P) as Ex' by (rewrite Ex, EX, ER; by field).
  assert (feF (FeMul Y (FeInvert Zc)) = y_of P) as Ey' by (rewrite Ey, EY, ER; by field).
  pose proof (FeToBytes_spec (FeMul Y (FeInvert Zc)) ltac:(bnd_mono)) as HY.
  destruct (FeToBytes (FeMul Y (FeInvert Zc))) as [s y']. destruct HY as (-> & _).
  pose proof (FeIsNegative_spec (FeMul X (FeInvert Zc)) ltac:(bnd_mono)) as HX.
  destruct (FeIsNegative (FeMul X (FeInvert Zc))) as [b x']. destruct HX as (-> & _).
  cbn [fst]. by rewrite <- feF_to_Z, Ex', Ey'.
Qed.

Lemma Ext_ToBytes_spec P p : ext_rep P p -> Ext_ToBytes p = point_bytes P.
Proof. intros (?&?&?&?&?&?&?&?). unfold Ext_ToBytes. apply coords_ToBytes_spec; assumption. Qed.

Lemma Proj_ToBytes_spec P p : proj_rep P p -> Proj_ToBytes p = point_bytes P.
Proof. intros (?&?&?&?&?&?). unfold Proj_ToBytes. apply coords_ToBytes_spec; assumption. Qed.

(** Its number: the representative of [y] with the sign as bit 255. *)
Lemma F_to_Z_range (x : F) : (0 <= Zmod.to_Z x < 2 ^ 255 - 19)%Z.
Proof. pose proof (Zmod.to_Z_range x) as H. pose proof fe_p_eq. lia. Qed.

Lemma array_last s : array 32 s -> s = take 31 s ++ [nth 31 s 0%Z].
Proof.
  intros [Hl _]. rewrite <- (take_drop 31 s) at 1. f_equal.
  destruct (drop 31 s) as [|b [|]] eqn:E; apply (f_equal length) in E as L;
    rewrite length_drop, Hl in L; try done.
  rewrite nth_lookup, <- (Nat.add_0_r 31), <- lookup_drop, E. done.
Qed.

Lemma top_bit b k : (0 <= b < 128 -> 0 <= k < 2 -> Z.lxor b (u8 (Z.shiftl k 7)) = b + 128 * k)%Z.
Proof.
  intros Hb Hk. assert (Hk' : (k = 0 \/ k = 1)%Z) by lia. destruct Hk' as [-> | ->].
  - change (u8 (Z.shiftl 0 7)) with 0%Z. rewrite Z.lxor_0_r. lia.
  - change (u8 (Z.shiftl 1 7)) with 128%Z.
    assert (Forall (fun b => Z.lxor b 128 = b + 128)%Z (seqZ 0 128)) as A.
    { apply (bool_decide_unpack _). vm_compute. exact I. }
    rewrite Forall_forall in A. rewrite A by (apply elem_of_seqZ; lia). lia.
Qed.

Lemma point_bytes_val P : array 32 (point_bytes P) /\
  le_val (point_bytes P) = (Zmod.to_Z (y_of P) + 2 ^ 255 * parity (x_of P))%Z.
Proof.
  unfold point_bytes. set (y := Zmod.to_Z (y_of P)).
  assert (Hy : (0 <= y < 2 ^ 255 - 19)%Z) by apply F_to_Z_range.
  pose proof (le_bytes_array 32 y) as HA. pose proof (parity_01 (x_of P)) as Hp.
  assert (HV : le_val (le_bytes 32 y) = y) by (apply le_val_bytes; change (256 ^ Z.of_nat 32)%Z with (2 ^ 256)%Z; lia).
  rewrite (array_last _ HA) in HV |- *.
  assert (Hb : (0 <= nth 31 (le_bytes 32 y) 0 < 128)%Z).
  { rewrite le_val_nth, le_val_bytes by (apply HA || (change (256 ^ Z.of_nat 32)%Z with (2 ^ 256)%Z; lia)).
    pose proof (Z.mod_pos_bound (y / 256 ^ Z.of_nat 31) 256 ltac:(lia)). split; [lia|].
    assert (y / 256 ^ Z.of_nat 31 < 128)%Z
      by (apply Z.div_lt_upper_bound; [done|change (256 ^ Z.of_nat 31 * 128)%Z with (2 ^ 255)%Z; lia]).
    eapply Z.le_lt_trans; [apply Z.mod_le; [apply Z.div_pos; [lia|done]|lia]|done]. }
  destruct HA as [Hl Hok]. set (t := take 31 (le_bytes 32 y)) in *.
  assert (Lt : length t = 31%nat) by (unfold t; rewrite length_take; lia).
  set (b := nth 31 (le_bytes 32 y) 0%Z) in *. clearbody b.
  rewrite alter_app_r_alt by lia. rewrite Lt, Nat.sub_diag. cbn [alter list_alter].
  rewrite top_bit by done. rewrite le_val_app in HV |- *.
  rewrite le_val_cons, le_val_nil in HV |- *.
  replace (256 ^ zlen t)%Z with (2 ^ 248)%Z in * by (unfold zlen; by rewrite Lt).
  split; [|lia]. split; [rewrite length_app, Lt; done|].
  apply bytes_ok_app. split; [by apply bytes_ok_take|]. repeat constructor; lia.
Qed.

(** ** Square roots *)

Lemma F_pow_half (h : F) : h <> 0 -> h ^ (2 ^ 254 - 10)%Z * h ^ (2 ^ 254 - 10)%Z = 1.
Proof.
  intros Hh. rewrite <- Zmod.pow_add_r_nonneg by (by vm_compute).
  rewrite <- (Zmod.fermat_nz h Hh fe_p_prime). f_equal. pose proof fe_p_eq. lia.
Qed.

Lemma F_square_1 (h : F) : h * h = 1 -> h = 1 \/ h = - (1).
Proof.
  intros H. assert ((h - 1) * (h + 1) = 0) as [E|E]%F_mul_0.
  - transitivity (h * h - 1); [ring|]. rewrite H. ring.
  - left. transitivity (h - 1 + 1); [ring|]. rewrite E. ring.
  - right. transitivity (h + 1 - 1); [ring|]. rewrite E. ring.
Qed.

(** The candidate of the code. *)
Definition root (u v : F) : F :=
  let v3 := v * v * v in (v3 * v3 * v * u) ^ (2 ^ 252 - 3)%Z * v3 * u.

Lemma root_square u v : v * (root u v * root u v) = u * (v * v * v * (v * v * v) * v * u) ^ (2 ^ 253 - 5)%Z.
Proof.
  unfold root. cbv zeta. set (a := v * v * v * (v * v * v) * v * u).
  replace (2 ^ 253 - 5)%Z with (Z.succ ((2 ^ 252 - 3) + (2 ^ 252 - 3))) by lia.
  rewrite Zmod.pow_succ_nonneg_r, Zmod.pow_add_r_nonneg by (by vm_compute).
  set (b := a ^ (2 ^ 252 - 3)%Z). unfold a. ring.
Qed.

(** If [u/v] is a square, the candidate squares to it up to a sign. *)
Lemma root_spec u v s : v <> 0 -> v * (s * s) = u ->
  v * (root u v * root u v) = u \/ v * (root u v * root u v) = - u.
Proof.
  intros Hv Hs. rewrite root_square. destruct (decide (s = 0)) as [->|Hs0].
  { left. rewrite <- Hs. ring. }
  set (h := v * v * v * v * s).
  assert (Hh : h <> 0) by (unfold h; repeat apply F_mul_nz; assumption).
  assert (E : v * v * v * (v * v * v) * v * u = h ^ 2) by (rewrite Zmod.pow_2_r; unfold h; rewrite <- Hs; ring).
  rewrite E, <- Zmod.pow_mul_r_nonneg by (by vm_compute).
  replace (2 * (2 ^ 253 - 5))%Z with (2 ^ 254 - 10)%Z by lia.
  destruct (F_square_1 _ (F_pow_half h Hh)) as [-> | ->]; [left|right]; ring.
Qed.

(** ** Decoding *)

Lemma v_nz y : dF * (y * y) + 1 <> 0.
Proof.
  intros E. destruct (decide (y = 0)) as [->|Hy].
  - apply F_one_nz. rewrite <- E. ring.
  - apply (dF_nonsquare (iF / y)). transitivity (iF * iF / (y * y)); [by field|].
    rewrite iF_sq. transitivity ((dF * (y * y) - (dF * (y * y) + 1)) / (y * y)).
    + f_equal. ring.
    + rewrite E. by field.
Qed.

(** The points with a given [y]. *)
Lemma on_curve_root x y : on_curve fe_p dF x y <-> (dF * (y * y) + 1) * (x * x) = y * y - 1.
Proof.
  unfold on_curve, curve_eq. split; intros E.
  - transitivity (y * y - 1 - (y * y - x * x - 1 - dF * x * x * y * y)); [ring|]. rewrite E. ring.
  - transitivity (y * y - 1 - (dF * (y * y) + 1) * (x * x)); [ring|]. rewrite E. ring.
Qed.

Lemma parity_opp x : x <> 0 -> parity (- x) = (1 - parity x)%Z.
Proof.
  intros Hx. unfold parity. pose proof (F_to_Z_range x) as R. apply Zmod.to_Z_nz in Hx as Hz.
  assert (E : Zmod.to_Z (- x) = (2 ^ 255 - 19 - Zmod.to_Z x)%Z).
  { rewrite Zmod.to_Z_opp. pose proof fe_p_eq as Hp.
    symmetry. apply (Z.mod_unique_pos _ _ (-1)); lia. }
  rewrite E. set (z := Zmod.to_Z x) in *. clearbody z. clear -R.
  pose proof (Z.mod_pos_bound z 2). pose proof (Z.div_mod z 2).
  pose proof (Z.mod_pos_bound (2 ^ 255 - 19 - z) 2). pose proof (Z.div_mod (2 ^ 255 - 19 - z) 2). lia.
Qed.

(** The end of the decoding, once the square root [X] is known. *)
Lemma FromBytes_sign s X Y y : array 32 s -> fe_bnd loose X -> fe_bnd tight Y -> feF Y = y ->
  (dF * (y * y) + 1) * (feF X * feF X) = y * y - 1 ->
  exists P, ext_rep P (let (neg, X) := FeIsNegative X in
      let X := if negb (neg =? Z.shiftr (nth 31 s 0%Z) 7)%Z then FeNeg X else X in
      Ext X Y FeOne (FeMul X Y)) /\
    y_of P = y /\ (x_of P <> 0 -> parity (x_of P) = Z.shiftr (nth 31 s 0%Z) 7).
Proof.
  intros Hs BX BY EY Hroot. pose proof (FeIsNegative_spec X BX) as HN.
  destruct (FeIsNegative X) as [neg X']. destruct HN as (Hneg & BX' & EX').
  assert (Hbit : (0 <= Z.shiftr (nth 31 s 0) 7 < 2)%Z).
  { pose proof (nth_byte 31 s (proj2 Hs)). rewrite Z.shiftr_div_pow2 by lia.
    split; [apply Z.div_pos; lia|apply Z.div_lt_upper_bound; lia]. }
  set (bit := Z.shiftr (nth 31 s 0%Z) 7) in *. clearbody bit.
  set (X2 := if negb (neg =? bit)%Z then FeNeg X' else X').
  assert (fe_bnd (2 ^ 25) X2 /\ (feF X2 * feF X2 = feF X * feF X) /\
    (feF X2 <> 0 -> parity (feF X2) = bit)) as (B2 & E2 & S2).
  { unfold X2. rewrite Hneg. pose proof (parity_01 (feF X)).
    destruct (FeNeg_spec _ X' BX' eq_refl) as [Bn En].
    destruct (Z.eqb_spec (parity (feF X)) bit) as [E|E]; cbn [negb].
    - split; [done|]. rewrite EX'. split; [done|]. by intros _.
    - split; [done|]. rewrite En, EX'. split; [ring|]. intros Hnz. rewrite parity_opp; [lia|].
      intros E0. apply Hnz. rewrite E0. ring. }
  assert (on : on_curve fe_p dF (feF X2) y) by (apply on_curve_root; by rewrite E2).
  exists (Point _ _ _ _ on). split; [|by split].
  cbv zeta. fold X2. destruct FeOne_spec as [B1 E1].
  destruct (FeMul_spec X2 Y ltac:(bnd_mono) ltac:(bnd_mono)) as [BT ET].
  unfold ext_rep. cbn [eX eY eZ eT px py]. rewrite E1, ET, EY.
  split; [done|]. split; [done|]. split; [bnd_mono|]. split; [bnd_mono|].
  split; [apply F_one_nz|]. repeat split; ring.
Qed.

Lemma nonzero_test f : fe_bnd loose f ->
  ((FeIsNonZero f).1 =? 1)%Z = negb (bool_decide (feF f = 0)).
Proof.
  intros B. pose proof (FeIsNonZero_spec f B) as H. destruct (FeIsNonZero f) as [b f'].
  destruct H as [-> _]. cbn [fst]. by case_decide; case_bool_decide.
Qed.

Definition FromBytes_post (s : list Z) (r : option ExtendedGroupElement) : Prop :=
  let y := toF (bits_at (le_val s) 0 255) in
  match r with
  | Some r => exists P, ext_rep P r /\ y_of P = y /\
      (x_of P <> 0 -> parity (x_of P) = Z.shiftr (nth 31 s 0%Z) 7)
  | None => forall P, y_of P <> y
  end.

Lemma Ext_FromBytes_spec s : array 32 s -> FromBytes_post s (Ext_FromBytes s).
Proof.
  intros Hs. destruct (FeFromBytes_spec s Hs) as [BY EY].
  set (y := toF (bits_at (le_val s) 0 255)) in *.
  destruct d_spec as [Bd Ed], SqrtM1_spec as [Bi Ei], FeOne_spec as [B1 E1].
  cbv beta delta [Ext_FromBytes]. set (Y := FeFromBytes s) in *. clearbody Y.
  lazymatch goal with |- ?Q (let x := _ in @?b x) => change (Q (b Y)); cbv beta end.
  lazymatch goal with |- ?Q (let x := _ in @?b x) => change (Q (b FeOne)); cbv beta end.
  do 15 fe_step. rename r1 into u, r2 into v, r10 into X, r12 into vxx, r13 into check.
  assert (Eu : feF u = y * y - 1) by (fe_rewrite; ring).
  assert (Ev : feF v = dF * (y * y) + 1) by (fe_rewrite; ring).
  assert (EX : feF X = root (feF u) (feF v)).
  { rewrite E11, E10, E9, E8, E7, E6, E5, E4. unfold root. reflexivity. }
  assert (Evxx : feF vxx = feF v * (feF X * feF X)) by (rewrite E13, E12; ring).
  assert (Hfin : forall X', fe_bnd loose X' -> feF v * (feF X' * feF X') = feF u ->
    FromBytes_post s (let (neg, X) := FeIsNegative X' in
      let X := if negb (neg =? Z.shiftr (nth 31 s 0%Z) 7)%Z then FeNeg X else X in
      Some (Ext X Y FeOne (FeMul X Y)))).
  { intros X' BX' H. rewrite Ev, Eu in H.
    pose proof (FromBytes_sign s X' Y y Hs BX' BY EY H) as HP.
    destruct (FeIsNegative X') as [neg X'']. exact HP. }
  clear E2 E3 E4 E5 E6 E7 E8 E9 E10 E11 E12 E13. cbv zeta.
  rewrite nonzero_test by bnd_mono. case_bool_decide as C1; cbn [negb].
  { apply Hfin; [bnd_mono|]. rewrite <- Evxx.
    transitivity (feF check + feF u); [rewrite E14; ring|]. rewrite C1. ring. }
  destruct (FeAdd_spec _ _ vxx u ltac:(eassumption) ltac:(eassumption) eq_refl) as [Bc Ec].
  rewrite nonzero_test by bnd_mono. case_bool_decide as C2; cbn [negb].
  - destruct (FeMul_spec X SqrtM1 ltac:(bnd_mono) ltac:(bnd_mono)) as [Bm Em].
    pose proof (FeToBytes_spec (FeMul X SqrtM1) ltac:(bnd_mono)) as HT.
    destruct (FeToBytes (FeMul X SqrtM1)) as [tmpX X']. destruct HT as (_ & BX' & EX').
    apply Hfin; [cbn [snd]; bnd_mono|]. cbn [snd]. rewrite EX', Em, Ei.
    transitivity (iF * iF * (feF v * (feF X * feF X))); [ring|]. rewrite iF_sq, <- Evxx.
    transitivity (feF u - (feF vxx + feF u)); [ring|]. rewrite <- Ec, C2. ring.
  - intros P EP. pose proof (proj1 (on_curve_root _ _) (p_on _ _ P)) as HP.
    rewrite EP in HP. fold y in HP. rewrite <- Ev, <- Eu in HP.
    destruct (root_spec (feF u) (feF v) (x_of P)) as [H|H]; [rewrite Ev; apply v_nz|done| |].
    + apply C1. rewrite E14, Evxx, EX, H. ring.
    + apply C2. rewrite Ec, Evxx, EX, H. ring.
Qed.

(** What [FromBytes] reads from the encoding of a point. *)
Lemma point_bytes_bits P :
  toF (bits_at (le_val (point_bytes P)) 0 255) = y_of P /\
  Z.shiftr (nth 31 (point_bytes P) 0%Z) 7 = parity (x_of P).
Proof.
  destruct (point_bytes_val P) as [HA HV]. pose proof (F_to_Z_range (y_of P)) as Ry.
  pose proof (parity_01 (x_of P)) as Rp. split.
  { rewrite HV. unfold bits_at. rewrite Z.div_1_r, (Z.mul_comm (2 ^ 255)), Z.mod_add, Z.mod_small by lia.
    apply Zmod.of_Z_to_Z. }
  rewrite le_val_nth, HV, Z.shiftr_div_pow2 by (lia || apply HA).
  set (yz := Zmod.to_Z (y_of P)) in *. clearbody yz.
  change 256%Z with (2 ^ 8)%Z. rewrite <- Z.pow_mul_r by lia. change (8 * Z.of_nat 31)%Z with 248%Z.
  transitivity (bits_at (bits_at (yz + 2 ^ 255 * parity (x_of P)) 248 8) 7 1).
  - symmetry. apply Z.mod_small.
    change (0 <= bits_at (yz + 2 ^ 255 * parity (x_of P)) 248 8 / 2 ^ 7 < 2)%Z.
    pose proof (bits_at_range (yz + 2 ^ 255 * parity (x_of P)) 248 8 ltac:(lia)).
    split; [apply Z.div_pos; lia|apply Z.div_lt_upper_bound; lia].
  - rewrite bits_at_bits by lia. change (248 + 7)%Z with 255%Z. unfold bits_at.
    rewrite (Z.mul_comm (2 ^ 255)), Z.div_add, Z.div_small, Z.add_0_l by lia. by apply Z.mod_small.
Qed.

(** A point is given by [y] and the sign of [x]. *)
Lemma point_by_sign P Q : y_of Q = y_of P ->
  (x_of Q <> 0 -> parity (x_of Q) = parity (x_of P)) -> Q = P.
Proof.
  intros EyQ Hsign. apply point_eq; [|done].
  pose proof (proj1 (on_curve_root _ _) (p_on _ _ P)) as HP.
  pose proof (proj1 (on_curve_root _ _) (p_on _ _ Q)) as HQ. rewrite EyQ in HQ.
  assert ((dF * (y_of P * y_of P) + 1) * ((x_of Q - x_of P) * (x_of Q + x_of P)) = 0) as Hz.
  { transitivity ((dF * (y_of P * y_of P) + 1) * (x_of Q * x_of Q)
      - (dF * (y_of P * y_of P) + 1) * (x_of P * x_of P)); [ring|]. rewrite HP, HQ. ring. }
  apply F_mul_0 in Hz as [Hz|[E|E]%F_mul_0]; [by destruct (v_nz _ Hz)| |].
  { transitivity (x_of Q - x_of P + x_of P); [ring|]. rewrite E. ring. }
  assert (EQ : x_of Q = - x_of P) by (transitivity (x_of Q + x_of P - x_of P); [ring|]; rewrite E; ring).
  destruct (decide (x_of P = 0)) as [E0|E0]; [rewrite EQ, E0; ring|exfalso].
  rewrite EQ, parity_opp in Hsign by done.
  assert (- x_of P <> 0) as Hn; [|specialize (Hsign Hn); pose proof (parity_01 (x_of P)); lia].
  intros E1. apply E0. transitivity (- - x_of P); [ring|]. rewrite E1. ring.
Qed.

(** Decoding undoes the encoding of a point. *)
Lemma FromBytes_point_bytes P : exists r, Ext_FromBytes (point_bytes P) = Some r /\ ext_rep P r.
Proof.
  destruct (point_bytes_val P) as [HA _]. destruct (point_bytes_bits P) as [Ey Eb].
  pose proof (Ext_FromBytes_spec _ HA) as H. generalize dependent (Ext_FromBytes (point_bytes P)).
  intros o H. unfold FromBytes_post in H. rewrite Ey, Eb in H. destruct o as [r|]; [|by destruct (H P)].
  destruct H as (Q & HQ & EyQ & Hsign). exists r. split; [done|].
  by rewrite <- (point_by_sign P Q EyQ Hsign).
Qed.
