(* ===== verification/EdTablesOk.v ===== *)
(** * The tables hold the multiples of the base point

    Every entry of [base] and [bi] (EdTables) is compared, by computation in the
    field, with the sum or the repeated double of entries before it; with the
    group laws this makes entry [(i, j)] of [base] the point [(j + 1) 256^i B] and
    entry [j] of [bi] the point [(2 j + 1) B]. *)

From Stdlib Require Import Zmod Field.
From S2P Require Import Prelude EdCurve Field25519 Fe FeBytes Ge EdTables.

Local Open Scope Zmod_scope.
Add Field F_field_tb : (Zmod.field_theory fe_p fe_p_prime).

(** ** The base point *)

Definition Bx_value : Z := 15112221349535400772501151409588531511454012693041857206046113283949847762202.
Definition By_value : Z := 46316835694926478169428394003475163141307993866256225615783033603165251855960.

Lemma B_on_curve : on_curve fe_p dF (toF Bx_value) (toF By_value).
Proof.
  unfold on_curve, curve_eq, dF. change (1 : F) with (toF 1). change (0 : F) with (toF 0).
  rewrite <- !toF_mul, <- !toF_sub. apply toF_check. vm_compute. reflexivity.
Qed.

(** The point [(x, 4/5)] with [x] positive. *)
Definition B25519 : point25519 := Point fe_p dF _ _ B_on_curve.

Lemma B25519_y : y_of B25519 * toF 5 = toF 4 /\ parity (x_of B25519) = 0%Z.
Proof.
  split.
  - cbn. rewrite <- toF_mul. apply toF_check. vm_compute. reflexivity.
  - cbn. unfold parity, toF. rewrite Zmod.to_Z_of_Z, fe_p_eq. vm_compute. reflexivity.
Qed.

(** ** Checks *)

Definition zero_p (z : Z) : bool :=
  let r := fold255 (fold255 z) in (r =? 0)%Z || (r =? 2 ^ 255 - 19)%Z.

Lemma zero_p_spec z : zero_p z = true -> toF z = 0.
Proof.
  unfold zero_p. cbv zeta. intros [E|E]%orb_true_iff; apply Z.eqb_eq in E;
    rewrite <- (fold255_spec z), <- (fold255_spec (fold255 z)), E; [done|].
  rewrite <- fe_p_eq. apply toF_p.
Qed.

Definition fe_bnd_b (e : Z) (f : FieldElement) : bool :=
  let 'FE f0 f1 f2 f3 f4 f5 f6 f7 f8 f9 := f in
  (forallb (fun x => Z.abs x <=? 2 * e) [f0; f2; f4; f6; f8] &&
   forallb (fun x => Z.abs x <=? e) [f1; f3; f5; f7; f9])%Z.

Lemma fe_bnd_b_spec e f : fe_bnd_b e f = true -> fe_bnd e f.
Proof.
  destruct f. unfold fe_bnd_b, fe_bnd. cbn [forallb]. rewrite !andb_true_iff, !Z.leb_le. tauto.
Qed.

Definition pre_bnd_b (q : PreComputedGroupElement) : bool :=
  fe_bnd_b loose (yPlusX q) && fe_bnd_b loose (yMinusX q) && fe_bnd_b loose (xy2d q).

(** [1 / (4 d)]. *)
Definition inv4d : Z := 21774842047284482506429428831299246420514751955462597088725269624896613416460.

(** [q] holds [2 d x y] for the [x] and [y] it holds. *)
Definition check_xy2d (q : PreComputedGroupElement) : bool :=
  let X := (fe_val (yPlusX q) - fe_val (yMinusX q))%Z in
  let Y := (fe_val (yPlusX q) + fe_val (yMinusX q))%Z in
  zero_p (2 * fe_val (xy2d q) - mulp d_value (mulp X Y)).

(** [q3] is the sum of [q1] and [q2]. *)
Definition check_add (q1 q2 q3 : PreComputedGroupElement) : bool :=
  let A := mulp (fe_val (yMinusX q1)) (fe_val (yMinusX q2)) in
  let B := mulp (fe_val (yPlusX q1)) (fe_val (yPlusX q2)) in
  let e := mulp (mulp (fe_val (xy2d q1)) (fe_val (xy2d q2))) inv4d in
  pre_bnd_b q3 && check_xy2d q3 &&
  zero_p (mulp (fe_val (yPlusX q3) - fe_val (yMinusX q3)) (1 + e) - (B - A)) &&
  zero_p (mulp (fe_val (yPlusX q3) + fe_val (yMinusX q3)) (1 - e) - (B + A)).

Lemma inv4d_spec : toF inv4d * ((1 + 1) * (1 + 1) * dF) = 1.
Proof.
  change (1 : F) with (toF 1). unfold dF. rewrite <- !toF_add, <- !toF_mul.
  apply toF_check. vm_compute. reflexivity.
Qed.

Lemma two_cancel (a b : F) : (1 + 1) * a = (1 + 1) * b -> a = b.
Proof.
  intros E. assert ((1 + 1) * (a - b) = 0) as [|H]%F_mul_0.
  - transitivity ((1 + 1) * a - (1 + 1) * b); [ring|]. rewrite E. ring.
  - by destruct F_two_nz.
  - transitivity (a - b + b); [ring|]. rewrite H. ring.
Qed.

Lemma toF_2 : toF 2 = 1 + 1.
Proof. apply (toF_add 1 1). Qed.

Lemma sub_0 (a b : F) : a - b = 0 -> a = b.
Proof. intros E. transitivity (a - b + b); [ring|]. rewrite E. ring. Qed.

(** An entry from its [x] and [y], doubled. *)
Lemma pre_rep_intro P q : pre_bnd_b q = true -> check_xy2d q = true ->
  feF (yPlusX q) - feF (yMinusX q) = (1 + 1) * x_of P ->
  feF (yPlusX q) + feF (yMinusX q) = (1 + 1) * y_of P -> pre_rep P q.
Proof.
  unfold pre_bnd_b, check_xy2d. rewrite !andb_true_iff. cbv zeta.
  intros ((B1 & B2) & B3) Ht%zero_p_spec EX EY.
  rewrite toF_sub, toF_mul, !mulp_spec, toF_sub, toF_add in Ht. apply sub_0 in Ht.
  change (toF (fe_val (yPlusX q))) with (feF (yPlusX q)) in Ht.
  change (toF (fe_val (yMinusX q))) with (feF (yMinusX q)) in Ht.
  change (toF (fe_val (xy2d q))) with (feF (xy2d q)) in Ht. change (toF d_value) with dF in Ht.
  rewrite EX, EY in Ht. rewrite toF_2 in Ht.
  repeat split; [by apply fe_bnd_b_spec..| | |]; apply two_cancel.
  - transitivity ((feF (yPlusX q) + feF (yMinusX q)) + (feF (yPlusX q) - feF (yMinusX q))); [ring|].
    rewrite EX, EY. ring.
  - transitivity ((feF (yPlusX q) + feF (yMinusX q)) - (feF (yPlusX q) - feF (yMinusX q))); [ring|].
    rewrite EX, EY. ring.
  - rewrite Ht. ring.
Qed.

Ltac push_toF H :=
  repeat first [rewrite mulp_spec in H|rewrite toF_sub in H|rewrite toF_add in H|rewrite toF_mul in H];
  repeat match type of H with context [toF (fe_val ?e)] =>
    change (toF (fe_val e)) with (feF e) in H end;
  change (toF 1) with (1 : F) in H; rewrite ?toF_2 in H; apply sub_0 in H.

Lemma div_of_mul (a b c : F) : c <> 0 -> a * c = b -> a = b / c.
Proof. intros Hc <-. by field. Qed.

Lemma pre_add P Q q1 q2 q3 : pre_rep P q1 -> pre_rep Q q2 -> check_add q1 q2 q3 = true ->
  pre_rep (cg_add P Q) q3.
Proof.
  intros (_ & _ & _ & E1 & E2 & E3) (_ & _ & _ & E4 & E5 & E6). unfold check_add. cbv zeta.
  rewrite !andb_true_iff. intros (((Hb & Ht) & HX%zero_p_spec) & HY%zero_p_spec).
  push_toF HX. push_toF HY. rewrite E1, E2, E3, E4, E5, E6 in HX, HY.
  destruct (denominator_nz fe_p fe_p_prime dF iF F_two_nz iF_sq dF_nonsquare _ _ _ _
    (p_on _ _ P) (p_on _ _ Q)) as [D1 D2].
  set (e := (1 + 1) * dF * x_of P * y_of P * ((1 + 1) * dF * x_of Q * y_of Q) * toF inv4d) in HX, HY.
  assert (He : e = dF * x_of P * x_of Q * y_of P * y_of Q).
  { transitivity (dF * x_of P * x_of Q * y_of P * y_of Q * (toF inv4d * ((1 + 1) * (1 + 1) * dF))).
    - unfold e. ring.
    - rewrite inv4d_spec. ring. }
  rewrite He in HX, HY. apply div_of_mul in HX, HY; [|done..].
  apply pre_rep_intro; [done..|rewrite HX|rewrite HY]; cbn; unfold add_x, add_y; by field.
Qed.

(** ** Doublings, in projective coordinates *)

Definition zproj : Type := Z * Z * Z.

Definition zrep (P : point25519) (r : zproj) : Prop :=
  let '(X, Y, Z) := r in toF Z <> 0 /\ toF X = x_of P * toF Z /\ toF Y = y_of P * toF Z.

Definition zdouble (r : zproj) : zproj :=
  let '(X, Y, Z) := r in
  let xx := mulp X X in
  let yy := mulp Y Y in
  let z' := (yy - xx)%Z in
  let y' := (yy + xx)%Z in
  let x' := (2 * mulp X Y)%Z in
  let t' := (2 * mulp Z Z - z')%Z in
  (mulp x' t', mulp y' z', mulp z' t').

Lemma zdouble_spec P r : zrep P r -> zrep (cg_add P P) (zdouble r).
Proof.
  destruct r as [[X Y] Z]. intros (NZ & EX & EY). unfold zdouble. cbv zeta.
  destruct (denominator_nz fe_p fe_p_prime dF iF F_two_nz iF_sq dF_nonsquare _ _ _ _
    (p_on _ _ P) (p_on _ _ P)) as [D1 D2].
  pose proof (curve_yx P) as C.
  assert (Ez : toF (mulp Y Y - mulp X X) =
    (1 + dF * x_of P * x_of P * y_of P * y_of P) * (toF Z * toF Z)).
  { rewrite toF_sub, !mulp_spec, EX, EY, <- C. ring. }
  assert (Et : toF (2 * mulp Z Z - (mulp Y Y - mulp X X)) =
    (1 - dF * x_of P * x_of P * y_of P * y_of P) * (toF Z * toF Z)).
  { rewrite toF_sub, Ez, toF_mul, mulp_spec, toF_2. ring. }
  unfold zrep. rewrite !mulp_spec, Ez, Et, toF_add, toF_mul, !mulp_spec, EX, EY, toF_2.
  split; [by repeat apply F_mul_nz|]. split; cbn; unfold add_x, add_y; by field.
Qed.

Lemma zdoubles n P r : zrep P r -> zrep (smul (2 ^ Z.of_nat n) P) (Nat.iter n zdouble r).
Proof.
  intros H. induction n as [|n IH]; [by rewrite smul_1|].
  rewrite Nat2Z.inj_succ, Z.pow_succ_r, smul_double by lia. by apply zdouble_spec.
Qed.

Definition zpre (q : PreComputedGroupElement) : zproj :=
  (fe_val (yPlusX q) - fe_val (yMinusX q), fe_val (yPlusX q) + fe_val (yMinusX q), 2)%Z.

Lemma zpre_spec P q : pre_rep P q -> zrep P (zpre q).
Proof.
  intros (_ & _ & _ & E1 & E2 & _). unfold zpre, zrep. rewrite toF_sub, toF_add, toF_2.
  fold (feF (yPlusX q)) (feF (yMinusX q)). rewrite E1, E2. split; [exact F_two_nz|split; ring].
Qed.

(** [q] is the point [r]. *)
Definition check_eq (r : zproj) (q : PreComputedGroupElement) : bool :=
  let '(X, Y, Z) := r in
  let '(X', Y', _) := zpre q in
  pre_bnd_b q && check_xy2d q && zero_p (mulp X' Z - 2 * X) && zero_p (mulp Y' Z - 2 * Y).

Lemma pre_eq P r q : zrep P r -> check_eq r q = true -> pre_rep P q.
Proof.
  destruct r as [[X Y] Z]. intros (NZ & EX & EY). unfold check_eq, zpre.
  rewrite !andb_true_iff. intros (((Hb & Ht) & HX%zero_p_spec) & HY%zero_p_spec).
  push_toF HX. push_toF HY. apply div_of_mul in HX, HY; [|done..].
  apply pre_rep_intro; [done..|rewrite HX, EX|rewrite HY, EY]; by field.
Qed.

(** ** Rows and tables *)

(** Each entry of the row is the one before it plus [g]. *)
Fixpoint check_row (g prev : PreComputedGroupElement) (row : list PreComputedGroupElement) : bool :=
  match row with
  | [] => true
  | q :: row' => check_add prev g q && check_row g q row'
  end.

Lemma check_row_spec P Q g row : forall a prev, pre_rep P g -> pre_rep (cg_add Q (smul a P)) prev ->
  check_row g prev row = true ->
  forall j q, row !! j = Some q -> pre_rep (cg_add Q (smul (a + 1 + Z.of_nat j) P)) q.
Proof.
  induction row as [|q' row IH]; [done|]. intros a prev Hg Hp [Ha Hr]%andb_true_iff j q Hj.
  assert (Hq : pre_rep (cg_add Q (smul (a + 1) P)) q').
  { rewrite smul_add, smul_1, cg_assoc. by apply (pre_add _ _ prev g). }
  destruct j as [|j]; cbn in Hj.
  - simplify_eq. by rewrite Z.add_0_r.
  - specialize (IH _ _ Hg Hq Hr j q Hj).
    by replace (a + 1 + Z.of_nat (S j))%Z with (a + 1 + 1 + Z.of_nat j)%Z by lia.
Qed.

(** The first entry of the first row is the point [r], each row holds the multiples of its first
    entry, and the first entry of the next row is 32 times the eighth of this one. *)
Fixpoint check_rows (r : zproj) (rows : list (list PreComputedGroupElement)) : bool :=
  match rows with
  | [] => true
  | (g :: row) :: rows' =>
      check_eq r g && check_row g g row &&
      match row !! 6%nat with
      | Some q => check_rows (Nat.iter 5 zdouble (zpre q)) rows'
      | None => false
      end
  | _ => false
  end.

Lemma row_spec P g row : pre_rep P g -> check_row g g row = true ->
  forall j q, (g :: row) !! j = Some q -> pre_rep (smul (Z.of_nat j + 1) P) q.
Proof.
  intros Hg Hr [|j] q Hj; cbn in Hj; [simplify_eq; by rewrite smul_1|].
  rewrite <- (cg_zero_l (smul _ P)). replace (Z.of_nat (S j) + 1)%Z with (1 + 1 + Z.of_nat j)%Z by lia.
  apply (check_row_spec P cg_zero g row 1 g); [done| |done..]. by rewrite cg_zero_l, smul_1.
Qed.

Lemma check_rows_spec rows : forall P r, zrep P r -> check_rows r rows = true ->
  forall i j row q, rows !! i = Some row -> row !! j = Some q ->
  pre_rep (smul ((Z.of_nat j + 1) * 256 ^ Z.of_nat i) P) q.
Proof.
  induction rows as [|[|g row] rows IH]; [done..|].
  intros P r Hr. cbn [check_rows]. rewrite !andb_true_iff. intros ((Hg & Hrow) & Hrows).
  apply (pre_eq P) in Hg; [|done]. intros [|i] j row' q Hi Hj; cbn in Hi.
  - simplify_eq. rewrite Z.mul_1_r. by apply (row_spec P g row).
  - destruct (row !! 6%nat) as [q8|] eqn:E8; [|done].
    pose proof (row_spec P g row Hg Hrow 7%nat q8 E8) as H8.
    specialize (IH _ _ (zdoubles 5 _ _ (zpre_spec _ _ H8)) Hrows i j row' q Hi Hj).
    rewrite !smul_smul in IH. rewrite Nat2Z.inj_succ, Z.pow_succ_r by lia.
    by replace ((Z.of_nat j + 1) * (256 * 256 ^ Z.of_nat i))%Z
      with ((Z.of_nat j + 1) * 256 ^ Z.of_nat i * 2 ^ Z.of_nat 5 * (Z.of_nat 7 + 1))%Z by lia.
Qed.

Definition zB : zproj := (Bx_value, By_value, 1%Z).

Lemma zB_spec : zrep B25519 zB.
Proof.
  unfold zB, zrep. change (toF 1) with (1 : F). split; [exact F_one_nz|].
  split; unfold B25519; cbn [x_of y_of px py]; ring.
Qed.

Lemma base_check : check_rows zB base = true.
Proof. vm_compute. reflexivity. Qed.

Lemma base_shape : forallb (fun row => (length row =? 8)%nat) base = true /\ length base = 32%nat.
Proof. split; reflexivity. Qed.

(** Entry [(i, j)] of [base] is [(j + 1) 256^i B]. *)
Lemma base_spec i j row q : base !! i = Some row -> row !! j = Some q ->
  pre_rep (smul ((Z.of_nat j + 1) * 256 ^ Z.of_nat i) B25519) q.
Proof. apply (check_rows_spec base B25519 zB zB_spec base_check). Qed.

(** The first entry is [B] and each of the others is the one before it plus [twoB]. *)
Definition check_odd (twoB : option PreComputedGroupElement) (row : list PreComputedGroupElement) : bool :=
  match twoB, row with
  | Some g, q :: row => check_eq zB q && check_row g q row
  | _, _ => false
  end.

Lemma check_odd_spec g row : pre_rep (smul 2 B25519) g -> check_odd (Some g) row = true ->
  forall j q, row !! j = Some q -> pre_rep (smul (2 * Z.of_nat j + 1) B25519) q.
Proof.
  intros Hg. destruct row as [|q0 row]; [done|]. cbn [check_odd]. intros [H0 Hr]%andb_true_iff.
  apply (pre_eq B25519) in H0; [|exact zB_spec]. intros [|j] q Hj; cbn in Hj.
  - simplify_eq. by rewrite smul_1.
  - assert (pre_rep (cg_add B25519 (smul 0 (smul 2 B25519))) q0) as H0'.
    { by rewrite smul_0, cg_comm, cg_zero_l. }
    pose proof (check_row_spec _ _ _ _ _ _ Hg H0' Hr j q Hj) as K.
    rewrite smul_smul in K. rewrite <- (smul_1 B25519) in K at 1. rewrite <- smul_add in K.
    by replace (2 * Z.of_nat (S j) + 1)%Z with (1 + (0 + 1 + Z.of_nat j) * 2)%Z by lia.
Qed.

Lemma bi_check : check_odd (base_0 !! 1%nat) bi = true.
Proof. vm_compute. reflexivity. Qed.

(** Entry [j] of [bi] is [(2 j + 1) B]. *)
Lemma bi_spec j q : bi !! j = Some q -> pre_rep (smul (2 * Z.of_nat j + 1) B25519) q.
Proof.
  pose proof bi_check as H. pose proof (base_spec 0 1 base_0) as Hb.
  destruct (base_0 !! 1%nat) as [g|]; [|discriminate].
  refine (check_odd_spec g bi (Hb g eq_refl eq_refl) H j q).
Qed.
