(* ===== verification/GeBase.v ===== *)
(** * Multiples of the base point: [GeScalarMultBase]

    src/tendermint/ed25519/edwards25519/edwards25519.go: the recoding of a scalar
    into 64 digits between -8 and 8, the constant-time table look-up [selectPoint] and
    [GeScalarMultBase], proved to compute [a B]. *)

From Stdlib Require Import Zmod Field.
From S2P Require Import Prelude EdCurve Field25519 LittleEndian Fe FeBytes Ge EdTables EdTablesOk.

Local Open Scope Z_scope.
Add Field F_field_gb : (Zmod.field_theory fe_p fe_p_prime).

(** ** Definitions *)

Definition equal (b c : Z) : Z :=
  let x := u32 (Z.lxor b c) in
  let x := u32 (x - 1) in
  s32 (Z.shiftr x 31).

Definition negative (b : Z) : Z := Z.land (Z.shiftr b 31) 1.

Definition PreComputedGroupElementCMove (t u : PreComputedGroupElement) (b : Z) : PreComputedGroupElement :=
  Pre (FeCMove (yPlusX t) (yPlusX u) b) (FeCMove (yMinusX t) (yMinusX u) b) (FeCMove (xy2d t) (xy2d u) b).

Definition selectPoint (pos : nat) (b : Z) : PreComputedGroupElement :=
  let bNegative := negative b in
  let bAbs := s32 (b - s32 (Z.shiftl (Z.land (s32 (- bNegative)) b) 1)) in
  let t := fold_left (fun t i =>
    PreComputedGroupElementCMove t (nth i (nth pos base []) Pre_Zero) (equal bAbs (s32 (Z.of_nat i + 1))))
    (seq 0 8) Pre_Zero in
  let minusT := Pre (FeCopy (yMinusX t)) (FeCopy (yPlusX t)) (FeNeg (xy2d t)) in
  PreComputedGroupElementCMove t minusT bNegative.

(** The four-bit digits of the scalar, lowest first. *)
Definition nibbles (a : list Z) : list Z :=
  concat (map (fun v => [s8 (Z.land v 15); s8 (Z.land (Z.shiftr v 4) 15)]) a).

(** The loop over [e[0..62]] and the step for [e[63]]. *)
Fixpoint recenter (carry : Z) (e : list Z) : list Z :=
  match e with
  | [] => []
  | [x] => [s8 (x + carry)]
  | x :: e' =>
      let x := s8 (x + carry) in
      let carry := Z.shiftr (s8 (x + 8)) 4 in
      s8 (x - s8 (Z.shiftl carry 4)) :: recenter carry e'
  end.

Definition add_digits (e : list Z) (h : ExtendedGroupElement) (ix : list nat) : ExtendedGroupElement :=
  fold_left (fun h i =>
    let t := selectPoint (i / 2) (nth i e 0) in
    let r := geMixedAdd h t in
    Comp_ToExtended r) ix h.

Definition GeScalarMultBase (a : list Z) : ExtendedGroupElement :=
  let e := recenter 0 (nibbles a) in
  let h := add_digits e Ext_Zero (map (fun k => 2 * k + 1)%nat (seq 0 32)) in
  let r := Ext_Double h in
  let s := Comp_ToProjective r in
  let r := Proj_Double s in
  let s := Comp_ToProjective r in
  let r := Proj_Double s in
  let s := Comp_ToProjective r in
  let r := Proj_Double s in
  let h := Comp_ToExtended r in
  add_digits e h (map (fun k => 2 * k)%nat (seq 0 32)).

(** ** The table look-up *)

Lemma PreCMove_spec t u (b : bool) : PreComputedGroupElementCMove t u (Z.b2z b) = if b then u else t.
Proof. unfold PreComputedGroupElementCMove. rewrite !FeCMove_spec. by destruct b, t, u. Qed.

Lemma PreCMove_1 t u : PreComputedGroupElementCMove t u 1 = u.
Proof. apply (PreCMove_spec t u true). Qed.
Lemma PreCMove_0 t u : PreComputedGroupElementCMove t u 0 = t.
Proof. apply (PreCMove_spec t u false). Qed.

Lemma neg_pre_rep P q : pre_rep P q ->
  pre_rep (cg_neg P) (Pre (FeCopy (yMinusX q)) (FeCopy (yPlusX q)) (FeNeg (xy2d q))).
Proof.
  intros (B1 & B2 & B3 & E1 & E2 & E3). destruct (FeNeg_spec loose (xy2d q) B3) as [B4 E4]; [done|].
  unfold pre_rep, FeCopy. cbn [yPlusX yMinusX xy2d]. rewrite E1, E2, E4, E3.
  repeat split; [done..| | |]; cbn; ring.
Qed.

(** The values a digit takes. *)
Lemma digit_cases b : -8 <= b <= 8 ->
  In b [-8; -7; -6; -5; -4; -3; -2; -1; 0; 1; 2; 3; 4; 5; 6; 7; 8].
Proof. intros H. cbn. lia. Qed.

Ltac eval_equal :=
  repeat match goal with |- context [equal ?a ?b] =>
    let v := eval vm_compute in (equal a b) in change (equal a b) with v end;
  rewrite ?PreCMove_1, ?PreCMove_0.

Lemma selectPoint_eq pos b : -8 <= b <= 8 -> selectPoint pos b =
  let t := if b =? 0 then Pre_Zero else nth (Z.to_nat (Z.abs b - 1)) (nth pos base []) Pre_Zero in
  if b <? 0 then Pre (FeCopy (yMinusX t)) (FeCopy (yPlusX t)) (FeNeg (xy2d t)) else t.
Proof.
  intros H%digit_cases. unfold selectPoint. generalize (nth pos base []). intros row.
  cbv beta zeta. unfold seq. cbn [fold_left].
  repeat (destruct H as [<-|H]; [
    match goal with |- context [s32 (?b - s32 ?x)] =>
      let v := eval vm_compute in (s32 (b - s32 x)) in change (s32 (b - s32 x)) with v end;
    match goal with |- context [negative ?b] =>
      let v := eval vm_compute in (negative b) in change (negative b) with v end;
    eval_equal; reflexivity|]). destruct H.
Qed.

Lemma base_rows : Forall (fun row => length row = 8%nat) base.
Proof.
  apply Forall_forall. intros row Hr%list_elem_of_In. destruct base_shape as [H _].
  rewrite forallb_forall in H. by apply Nat.eqb_eq, H.
Qed.

Lemma base_entry pos j : (pos < 32)%nat -> (j < 8)%nat ->
  pre_rep (smul ((Z.of_nat j + 1) * 256 ^ Z.of_nat pos) B25519) (nth j (nth pos base []) Pre_Zero).
Proof.
  intros Hp Hj. destruct base_shape as [_ Hl]. pose proof base_rows as Hr.
  pose proof (base_spec pos j) as Hs. revert Hl Hr Hs. generalize base. intros l Hl Hr Hs.
  destruct (lookup_lt_is_Some_2 l pos) as [row Hrow]; [lia|].
  rewrite Forall_lookup in Hr. pose proof (Hr _ _ Hrow) as H8.
  destruct (lookup_lt_is_Some_2 row j) as [q Hq]; [lia|].
  by rewrite (nth_lookup_Some l _ _ _ Hrow), (nth_lookup_Some row _ _ _ Hq); apply (Hs row).
Qed.

Lemma selectPoint_spec pos b : (pos < 32)%nat -> -8 <= b <= 8 ->
  pre_rep (smul (b * 256 ^ Z.of_nat pos) B25519) (selectPoint pos b).
Proof.
  intros Hp Hb. rewrite selectPoint_eq by done. cbv zeta.
  destruct (Z.eqb_spec b 0) as [->|Hz]; [rewrite smul_0; exact Pre_Zero_spec|].
  pose proof (base_entry pos (Z.to_nat (Z.abs b - 1)) Hp) as He.
  replace (Z.of_nat (Z.to_nat (Z.abs b - 1)) + 1) with (Z.abs b) in He by lia.
  specialize (He ltac:(lia)). destruct (Z.ltb_spec b 0).
  - replace b with (- Z.abs b) at 1 by lia. rewrite Z.mul_opp_l, smul_neg. by apply neg_pre_rep.
  - by replace b with (Z.abs b) at 1 by lia.
Qed.

(** ** The digits *)

Fixpoint radix16 (e : list Z) : Z :=
  match e with
  | [] => 0
  | x :: e' => x + 16 * radix16 e'
  end.

Lemma s8_id z : -128 <= z < 128 -> s8 z = z.
Proof. intros H. unfold sN. change (2 ^ (8 - 1)) with 128. change (2 ^ 8) with 256. rewrite Z.mod_small; lia. Qed.

Lemma nibbles_spec a : bytes_ok a -> radix16 (nibbles a) = le_val a /\
  length (nibbles a) = (2 * length a)%nat /\ Forall (fun x => 0 <= x < 16) (nibbles a).
Proof.
  induction 1 as [|v a Hv Ha (IHv & IHl & IHf)]; [done|]. unfold byte_ok in Hv.
  unfold nibbles. cbn [map concat]. fold (nibbles a). cbn [app radix16 length].
  change 15 with (Z.ones 4). rewrite !Z.land_ones, Z.shiftr_div_pow2 by lia. change (2 ^ 4) with 16.
  pose proof (Z.mod_pos_bound v 16). pose proof (Z.mod_pos_bound (v / 16) 16).
  rewrite !s8_id by lia. rewrite le_val_cons, IHv, IHl. split; [|split; [lia|]].
  - assert (v / 16 < 16) by (apply Z.div_lt_upper_bound; lia).
    assert (0 <= v / 16) by (apply Z.div_pos; lia).
    rewrite (Z.mod_small (v / 16)) by lia. pose proof (Z.div_mod v 16). lia.
  - repeat constructor; lia || done.
Qed.

Lemma recenter_step x c : 0 <= x < 16 -> 0 <= c <= 1 ->
  let c' := Z.shiftr (s8 (s8 (x + c) + 8)) 4 in
  0 <= c' <= 1 /\ s8 (s8 (x + c) - s8 (Z.shiftl c' 4)) = x + c - 16 * c' /\ -8 <= x + c - 16 * c' <= 8.
Proof.
  intros Hx Hc. cbv zeta. rewrite (s8_id (x + c)), (s8_id (x + c + 8)), Z.shiftr_div_pow2, Z.shiftl_mul_pow2 by lia.
  change (2 ^ 4) with 16. pose proof (Z.div_mod (x + c + 8) 16). pose proof (Z.mod_pos_bound (x + c + 8) 16).
  rewrite (s8_id (_ * 16)) by lia. rewrite s8_id by lia. lia.
Qed.

Lemma recenter_spec e : forall c, 0 <= c <= 1 -> Forall (fun x => 0 <= x < 16) e -> e <> [] ->
  radix16 e < 8 * 16 ^ (Z.of_nat (length e) - 1) ->
  radix16 (recenter c e) = radix16 e + c /\ length (recenter c e) = length e /\
  Forall (fun x => -8 <= x <= 8) (recenter c e).
Proof.
  induction e as [|x e IH]; [done|]. intros c Hc [Hx He]%Forall_cons _ Hlt.
  destruct e as [|y e].
  - cbn in *. rewrite s8_id by lia. repeat constructor; lia.
  - destruct (recenter_step x c Hx Hc) as (Hc' & Ed & Hd). cbv zeta in Hc', Ed, Hd.
    change (recenter c (x :: y :: e)) with
      (let x := s8 (x + c) in let carry := Z.shiftr (s8 (x + 8)) 4 in
       s8 (x - s8 (Z.shiftl carry 4)) :: recenter carry (y :: e)). cbv zeta. rewrite Ed.
    destruct (IH _ Hc' He) as (E1 & E2 & E3); [done| |].
    + cbn [radix16] in Hlt |- *. cbn [length] in Hlt |- *.
      replace (Z.of_nat (S (S (length e))) - 1) with (Z.succ (Z.of_nat (S (length e)) - 1)) in Hlt by lia.
      rewrite Z.pow_succ_r in Hlt by lia. lia.
    + cbn [radix16 length] in *. rewrite E1, E2. split; [|split; [lia|]]; [|by constructor]. lia.
Qed.

(** ** The sum *)

Definition digit_sum (e : list Z) (ix : list nat) : Z :=
  foldr (fun i s => nth i e 0 * 256 ^ Z.of_nat (i / 2) + s) 0 ix.

Lemma add_digits_spec e ix : Forall (fun x => -8 <= x <= 8) e -> Forall (fun i => i < 64)%nat ix ->
  forall P h, ext_rep P h ->
  ext_rep (cg_add P (smul (digit_sum e ix) B25519)) (add_digits e h ix).
Proof.
  intros He. induction 1 as [|i ix Hi Hix IH]; intros P h Hh.
  - cbn [digit_sum foldr add_digits fold_left]. by rewrite smul_0, cg_comm, cg_zero_l.
  - cbn [add_digits fold_left digit_sum foldr]. fold (digit_sum e ix).
    assert (Hd : -8 <= nth i e 0 <= 8).
    { destruct (nth_in_or_default i e 0) as [Hin| ->]; [|lia].
      rewrite Forall_forall in He. by apply He, list_elem_of_In. }
    assert (Hp : (i / 2 < 32)%nat) by (apply Nat.Div0.div_lt_upper_bound; lia).
    rewrite smul_add, cg_assoc. apply IH, Comp_ToExtended_spec, geMixedAdd_spec; [done|].
    by apply selectPoint_spec.
Qed.

Lemma digit_sum_shift x y e f n : (forall k, f (S k) = S (S (f k))) ->
  digit_sum (x :: y :: e) (map f (seq 1 n)) = 256 * digit_sum e (map f (seq 0 n)).
Proof.
  intros Hf. rewrite <- (seq_shift n 0), map_map. induction (seq 0 n) as [|k l IH]; [done|].
  cbn [map digit_sum foldr]. unfold digit_sum in IH. rewrite IH, Hf.
  replace (S (S (f k)) / 2)%nat with (S (f k / 2))
    by (symmetry; apply (Nat.div_add_l 1 2 (f k)); lia).
  rewrite Nat2Z.inj_succ, Z.pow_succ_r by lia. cbn [nth]. lia.
Qed.

Lemma digit_sum_split n : forall e, length e = (2 * n)%nat ->
  radix16 e = 16 * digit_sum e (map (fun k => 2 * k + 1)%nat (seq 0 n)) +
    digit_sum e (map (fun k => 2 * k)%nat (seq 0 n)).
Proof.
  induction n as [|n IH]; intros e He.
  - destruct e; [done|discriminate].
  - destruct e as [|x [|y e]]; cbn [length] in He; [lia..|].
    change (seq 0 (S n)) with (0%nat :: seq 1 n). cbn [map]. unfold digit_sum. cbn [foldr].
    fold (digit_sum (x :: y :: e) (map (fun k => 2 * k + 1)%nat (seq 1 n))).
    fold (digit_sum (x :: y :: e) (map (fun k => 2 * k)%nat (seq 1 n))).
    rewrite !digit_sum_shift by lia. cbn [radix16]. rewrite (IH e) by lia.
    change ((2 * 0 + 1) / 2)%nat with 0%nat. change ((2 * 0) / 2)%nat with 0%nat.
    change (nth (2 * 0 + 1) (x :: y :: e) 0) with y. change (nth (2 * 0) (x :: y :: e) 0) with x.
    change (256 ^ Z.of_nat 0) with 1. lia.
Qed.

(** [GeScalarMultBase] computes [a B] for [a < 2^255]. *)
Lemma GeScalarMultBase_rep a : array 32 a -> le_val a < 2 ^ 255 ->
  ext_rep (smul (le_val a) B25519) (GeScalarMultBase a).
Proof.
  intros [Hl Ha] Hlt. destruct (nibbles_spec a Ha) as (Ev & El & Ef). rewrite Hl in El.
  destruct (recenter_spec (nibbles a) 0) as (Rv & Rl & Rf); [lia|done| | |].
  { by intros E; rewrite E in El. }
  { rewrite El, Ev. exact Hlt. }
  unfold GeScalarMultBase. cbv beta zeta. revert Rv Rl Rf. generalize (recenter 0 (nibbles a)).
  intros e Rv Rl Rf. rewrite El in Rl. rewrite (digit_sum_split 32 e Rl), Ev in Rv.
  replace (le_val a) with (2 * (2 * (2 * (2 * digit_sum e (map (fun k => 2 * k + 1)%nat (seq 0 32))))) +
    digit_sum e (map (fun k => 2 * k)%nat (seq 0 32))) by lia.
  rewrite smul_add, !smul_double. apply add_digits_spec; [done| |].
  { apply Forall_forall. intros i Hi%list_elem_of_In%in_map_iff. destruct Hi as (k & <- & Hk%in_seq). lia. }
  apply Comp_ToExtended_spec, Proj_Double_spec, Comp_ToProjective_spec, Proj_Double_spec,
    Comp_ToProjective_spec, Proj_Double_spec, Comp_ToProjective_spec, Ext_Double_spec.
  rewrite <- (cg_zero_l (smul _ _)). apply add_digits_spec; [done| |exact Ext_Zero_spec].
  apply Forall_forall. intros i Hi%list_elem_of_In%in_map_iff. destruct Hi as (k & <- & Hk%in_seq). lia.
Qed.
