(* ===== verification/GeDouble.v ===== *)
(** * The double-scalar product: [slide] and [GeDoubleScalarMultVartime]

    src/tendermint/ed25519/edwards25519/edwards25519.go: the signed sliding-window
    recoding of a scalar, in place on an array of 256 digits, and the product
    [a A + b B] computed from it. *)

From Stdlib Require Import Zmod Field.
From S2P Require Import Prelude EdCurve Field25519 LittleEndian Fe FeBytes Ge EdTables EdTablesOk GeBase.

Local Open Scope Z_scope.

(** ** Definitions *)

(** [for k := ..; k < 256; k++ { if r[k] == 0 { r[k] = 1; break }; r[k] = 0 }]; [n] is the
    number of indices left. *)
Fixpoint ripple (n k : nat) (r : list Z) : list Z :=
  match n with
  | O => r
  | S n' => if nth k r 0 =? 0 then <[k := 1]> r else ripple n' (S k) (<[k := 0]> r)
  end.

(** [for b := 1; b <= 6 && i+b < 256; b++]; [n] is the number of values of [b] left. *)
Fixpoint slide_inner (n b i : nat) (r : list Z) : list Z :=
  match n with
  | O => r
  | S n' =>
      if (i + b <? 256)%nat then
        let x := nth i r 0 in
        let y := nth (i + b) r 0 in
        if y =? 0 then slide_inner n' (S b) i r
        else
          let v := s8 (Z.shiftl y (Z.of_nat b)) in
          if s8 (x + v) <=? 15 then
            slide_inner n' (S b) i (<[(i + b)%nat := 0]> (<[i := s8 (x + v)]> r))
          else if s8 (x - v) >=? -15 then
            slide_inner n' (S b) i (ripple (256 - (i + b)) (i + b) (<[i := s8 (x - v)]> r))
          else r
      else r
  end.

Definition scalar_bits (a : list Z) : list Z :=
  map (fun i => s8 (Z.land 1 (Z.shiftr (nth (Nat.shiftr i 3) a 0) (Z.of_nat (Nat.land i 7))))) (seq 0 256).

Definition slide (a : list Z) : list Z :=
  fold_left (fun r i => if nth i r 0 =? 0 then r else slide_inner 6 1 i r) (seq 0 256) (scalar_bits a).

(** The loop that fills [Ai]: [n] more odd multiples after [q]. *)
Fixpoint odd_multiples (n : nat) (A2 : ExtendedGroupElement) (q : CachedGroupElement) :
  list CachedGroupElement :=
  match n with
  | O => [q]
  | S n' =>
      let t := geAdd A2 q in
      let u := Comp_ToExtended t in
      q :: odd_multiples n' A2 (Ext_ToCached u)
  end.

(** The first loop over [i], downwards: [n] is [i + 1]. *)
Fixpoint top_digit (aSlide bSlide : list Z) (n : nat) : nat :=
  match n with
  | O => O
  | S i =>
      if negb (nth i aSlide 0 =? 0) || negb (nth i bSlide 0 =? 0) then n
      else top_digit aSlide bSlide i
  end.

Definition Cached_Zero : CachedGroupElement := Cached FeZero FeZero FeZero FeZero.

Definition add_a (Ai : list CachedGroupElement) (x : Z) (t : CompletedGroupElement) : CompletedGroupElement :=
  if x >? 0 then
    let u := Comp_ToExtended t in
    geAdd u (nth (Z.to_nat (Z.quot x 2)) Ai Cached_Zero)
  else if x <? 0 then
    let u := Comp_ToExtended t in
    geSub u (nth (Z.to_nat (Z.quot (s8 (- x)) 2)) Ai Cached_Zero)
  else t.

Definition add_b (x : Z) (t : CompletedGroupElement) : CompletedGroupElement :=
  if x >? 0 then
    let u := Comp_ToExtended t in
    geMixedAdd u (nth (Z.to_nat (Z.quot x 2)) bi Pre_Zero)
  else if x <? 0 then
    let u := Comp_ToExtended t in
    geMixedSub u (nth (Z.to_nat (Z.quot (s8 (- x)) 2)) bi Pre_Zero)
  else t.

(** The second loop over [i], downwards: [n] is [i + 1]. *)
Fixpoint double_loop (aSlide bSlide : list Z) (Ai : list CachedGroupElement) (n : nat)
  (r : ProjectiveGroupElement) : ProjectiveGroupElement :=
  match n with
  | O => r
  | S i =>
      let t := Proj_Double r in
      let t := add_a Ai (nth i aSlide 0) t in
      let t := add_b (nth i bSlide 0) t in
      double_loop aSlide bSlide Ai i (Comp_ToProjective t)
  end.

Definition GeDoubleScalarMultVartime (a : list Z) (A : ExtendedGroupElement) (b : list Z) :
  ProjectiveGroupElement :=
  let aSlide := slide a in
  let bSlide := slide b in
  let t := Ext_Double A in
  let A2 := Comp_ToExtended t in
  let Ai := odd_multiples 7 A2 (Ext_ToCached A) in
  double_loop aSlide bSlide Ai (top_digit aSlide bSlide 256) Proj_Zero.

(** ** Sums of binary digits *)

Fixpoint val2 (l : list Z) : Z :=
  match l with
  | [] => 0
  | x :: l' => x + 2 * val2 l'
  end.

Definition bits (l : list Z) : Prop := Forall (fun x => x = 0 \/ x = 1) l.

(** A digit of the recoding. *)
Definition digit (x : Z) : Prop := x = 0 \/ -15 <= x <= 15 /\ x mod 2 = 1.

Lemma val2_bits l : bits l -> 0 <= val2 l < 2 ^ Z.of_nat (length l).
Proof.
  induction 1 as [|x l Hx Hl IH]; [done|]. cbn [val2 length].
  rewrite Nat2Z.inj_succ, Z.pow_succ_r by lia. lia.
Qed.

Lemma val2_app l k : val2 (l ++ k) = val2 l + 2 ^ Z.of_nat (length l) * val2 k.
Proof.
  induction l as [|x l IH]; [cbn [app val2 length]; change (2 ^ Z.of_nat 0) with 1; lia|].
  cbn [app val2 length]. rewrite IH, Nat2Z.inj_succ, Z.pow_succ_r by lia. lia.
Qed.

(** ** The recoding on the digits from [i] on *)

Fixpoint ripple_from (l : list Z) : list Z :=
  match l with
  | [] => []
  | x :: l' => if x =? 0 then 1 :: l' else 0 :: ripple_from l'
  end.

Lemma ripple_from_spec l : bits l -> val2 l + 1 < 2 ^ Z.of_nat (length l) ->
  bits (ripple_from l) /\ length (ripple_from l) = length l /\ val2 (ripple_from l) = val2 l + 1.
Proof.
  induction 1 as [|x l Hx Hl IH]; [done|]. cbn [ripple_from val2 length]. intros Hlt.
  rewrite Nat2Z.inj_succ, Z.pow_succ_r in Hlt by lia. destruct (Z.eqb_spec x 0) as [->|Hnz].
  - repeat split; [by constructor; [right|]..|]. cbn [val2]. lia.
  - destruct IH as (B & L & V); [lia|]. repeat split; [constructor; [by left|done]|cbn; by rewrite L|].
    cbn [val2]. lia.
Qed.

(** The window of a digit [x]; [l] holds the digits from distance [b] on. *)
Fixpoint window_from (n b : nat) (x : Z) (l : list Z) : Z * list Z :=
  match n, l with
  | S n', y :: l' =>
      let v := 2 ^ Z.of_nat b in
      if y =? 0 then let '(x', t) := window_from n' (S b) x l' in (x', 0 :: t)
      else if x + v <=? 15 then let '(x', t) := window_from n' (S b) (x + v) l' in (x', 0 :: t)
      else if x - v >=? -15 then
        let '(x', t) := window_from n' (S b) (x - v) (ripple_from l') in (x', 0 :: t)
      else (x, l)
  | _, _ => (x, l)
  end.

Definition odd_digit (x : Z) : Prop := -15 <= x <= 15 /\ x mod 2 = 1.

Lemma window_from_spec n : forall b x l, (1 <= b)%nat -> bits l -> odd_digit x ->
  2 * (x + 2 ^ Z.of_nat b * val2 l) <= 2 ^ Z.of_nat b * 2 ^ Z.of_nat (length l) ->
  2 * val2 l <= 2 ^ Z.of_nat (length l) ->
  let '(x', l') := window_from n b x l in
  odd_digit x' /\ bits l' /\ length l' = length l /\
  x' + 2 ^ Z.of_nat b * val2 l' = x + 2 ^ Z.of_nat b * val2 l /\
  2 * val2 l' <= 2 ^ Z.of_nat (length l).
Proof.
  induction n as [|n IH]; intros b x l Hb Hl Hx HV HT; [done|].
  destruct l as [|y l]; [done|]. apply Forall_cons in Hl as [Hy Hl]. cbn [window_from].
  pose proof (val2_bits l Hl) as Hv.
  assert (HB : 2 ^ Z.of_nat b = 2 * 2 ^ (Z.of_nat b - 1)).
  { rewrite <- Z.pow_succ_r by lia. f_equal. lia. }
  assert (HS : 2 ^ Z.of_nat (S b) = 2 * 2 ^ Z.of_nat b) by (rewrite Nat2Z.inj_succ, Z.pow_succ_r; lia).
  assert (HL : 2 ^ Z.of_nat (length (y :: l)) = 2 * 2 ^ Z.of_nat (length l))
    by (cbn [length]; rewrite Nat2Z.inj_succ, Z.pow_succ_r; lia).
  pose proof (Z.pow_pos_nonneg 2 (Z.of_nat b - 1) ltac:(lia) ltac:(lia)) as HP.
  rewrite HL in *. cbn [val2] in *.
  assert (Hpar : odd_digit x -> forall s, -15 <= x + s * 2 ^ Z.of_nat b <= 15 -> odd_digit (x + s * 2 ^ Z.of_nat b)).
  { intros [_ Ho] s Hs. split; [done|]. rewrite HB.
    replace (s * (2 * 2 ^ (Z.of_nat b - 1))) with (s * 2 ^ (Z.of_nat b - 1) * 2) by ring.
    by rewrite Z.mod_add. }
  assert (STEP : forall x' l', bits l' -> length l' = length l -> odd_digit x' ->
    x' + 2 * 2 ^ Z.of_nat b * val2 l' = x + 2 ^ Z.of_nat b * (y + 2 * val2 l) ->
    2 * val2 l' <= 2 ^ Z.of_nat (length l) ->
    let '(x'', l'') := (let '(x'', t) := window_from n (S b) x' l' in (x'', 0 :: t)) in
    odd_digit x'' /\ bits l'' /\ length l'' = length (y :: l) /\
    x'' + 2 ^ Z.of_nat b * val2 l'' = x + 2 ^ Z.of_nat b * (y + 2 * val2 l) /\
    2 * val2 l'' <= 2 * 2 ^ Z.of_nat (length l)).
  { intros x' l' Hl' El Hx' EV ET. specialize (IH (S b) x' l' ltac:(lia) Hl' Hx').
    rewrite El, HS in IH. specialize (IH ltac:(nia) ET).
    destruct (window_from n (S b) x' l') as [x'' t]. destruct IH as (O & Bt & Lt & Vt & Tt).
    split; [done|]. split; [constructor; [by left|done]|]. cbn [length val2]. repeat split; nia. }
  destruct (Z.eqb_spec y 0) as [->|Hy0]; [apply STEP; [done..|nia|lia]|].
  assert (y = 1) as -> by lia. destruct (Z.leb_spec (x + 2 ^ Z.of_nat b) 15).
  { apply STEP; [done|done| |nia|lia]. rewrite <- (Z.mul_1_l (2 ^ Z.of_nat b)). apply Hpar; [done|].
    destruct Hx. lia. }
  rewrite Z.geb_leb. destruct (Z.leb_spec (-15) (x - 2 ^ Z.of_nat b));
    [|by repeat split; [destruct Hx; lia..|constructor; [right|]|]].
  destruct (ripple_from_spec l Hl) as (Br & Lr & Vr); [nia|].
  apply STEP; [done|done| |nia|nia]. replace (x - 2 ^ Z.of_nat b) with (x + -1 * 2 ^ Z.of_nat b) by ring.
  apply Hpar; [done|]. destruct Hx. lia.
Qed.

Fixpoint slide_from (n : nat) (l : list Z) : list Z :=
  match n, l with
  | S n', x :: l' =>
      if x =? 0 then 0 :: slide_from n' l'
      else let '(x', t) := window_from 6 1 x l' in x' :: slide_from n' t
  | _, _ => l
  end.

Lemma slide_from_spec n : forall l, length l = n -> bits l -> 2 * val2 l <= 2 ^ Z.of_nat n ->
  Forall digit (slide_from n l) /\ length (slide_from n l) = n /\ val2 (slide_from n l) = val2 l.
Proof.
  induction n as [|n IH]; intros l El Hl HV; [by destruct l|].
  destruct l as [|x l]; [done|]. injection El as El. apply Forall_cons in Hl as [Hx Hl].
  rewrite Nat2Z.inj_succ, Z.pow_succ_r in HV by lia. cbn [slide_from val2] in *.
  destruct (Z.eqb_spec x 0) as [->|Hx0].
  - destruct (IH l El Hl) as (D & L & V); [lia|]. repeat split; [by constructor; [left|]|cbn; by rewrite L|].
    cbn [val2]. lia.
  - assert (x = 1) as -> by lia.
    pose proof (window_from_spec 6 1 1 l ltac:(lia) Hl ltac:(split; [lia|done])) as W.
    rewrite El in W. change (2 ^ Z.of_nat 1) with 2 in W. specialize (W ltac:(lia) ltac:(lia)).
    destruct (window_from 6 1 1 l) as [x' t]. destruct W as (O & Bt & Lt & Vt & Tt).
    destruct (IH t Lt Bt Tt) as (D & L & V). repeat split; [by constructor; [right|]|cbn; by rewrite L|].
    cbn [val2]. lia.
Qed.

(** ** The loops over the array compute the recoding *)

Lemma nth_mid {A} (p : list A) x l d : nth (length p) (p ++ x :: l) d = x.
Proof. rewrite app_nth2, Nat.sub_diag by lia. done. Qed.

Lemma insert_mid {A} (p : list A) x y l : <[length p := y]> (p ++ x :: l) = p ++ y :: l.
Proof. rewrite insert_app_r_alt, Nat.sub_diag by lia. done. Qed.

Lemma ripple_eq l : forall p, ripple (length l) (length p) (p ++ l) = p ++ ripple_from l.
Proof.
  induction l as [|x l IH]; intros p; [done|]. cbn [length ripple ripple_from].
  rewrite nth_mid. destruct (x =? 0); rewrite insert_mid; [done|].
  specialize (IH (p ++ [0])). rewrite length_app, <- !app_assoc, Nat.add_1_r in IH. exact IH.
Qed.

Lemma ripple_from_bits l : bits l -> bits (ripple_from l) /\ length (ripple_from l) = length l.
Proof.
  induction 1 as [|x l Hx Hl [IHb IHl]]; [by split; [constructor|]|]. cbn [ripple_from]. destruct (x =? 0).
  - split; [by constructor; [right|]|done].
  - split; [by constructor; [left|]|cbn; by rewrite IHl].
Qed.

Lemma shl_digit b : (b <= 6)%nat -> s8 (Z.shiftl 1 (Z.of_nat b)) = 2 ^ Z.of_nat b /\ 1 <= 2 ^ Z.of_nat b <= 64.
Proof.
  intros Hb. rewrite Z.shiftl_1_l. pose proof (Z.pow_le_mono_r 2 (Z.of_nat b) 6 ltac:(lia) ltac:(lia)).
  pose proof (Z.pow_pos_nonneg 2 (Z.of_nat b) ltac:(lia) ltac:(lia)). change (2 ^ 6) with 64 in *.
  rewrite s8_id; lia.
Qed.

Lemma slide_inner_eq n : forall b p x z l, (b + n <= 7)%nat -> (length z = b - 1)%nat -> (1 <= b)%nat ->
  (length p + b + length l = 256)%nat -> bits l -> -15 <= x <= 15 ->
  slide_inner n b (length p) (p ++ x :: z ++ l) =
    let '(x', l') := window_from n b x l in p ++ x' :: z ++ l'.
Proof.
  induction n as [|n IH]; intros b p x z l Hb Hz Hb1 Hlen Hl Hx; [done|].
  cbn [slide_inner window_from]. destruct l as [|y l].
  - cbn [length] in Hlen. destruct (Nat.ltb_spec (length p + b) 256); [lia|done].
  - apply Forall_cons in Hl as [Hy Hl]. cbn [length] in Hlen.
    destruct (Nat.ltb_spec (length p + b) 256); [|lia]. cbv zeta.
    assert (E : forall x y l, p ++ x :: z ++ y :: l = (p ++ x :: z) ++ y :: l) by (intros; by rewrite <- app_assoc).
    assert (Lz : forall x, (length p + b = length (p ++ x :: z))%nat) by (intros; rewrite length_app; cbn; lia).
    assert (STEP : forall x' l', bits l' -> length l' = length l -> -15 <= x' <= 15 ->
      slide_inner n (S b) (length p) (p ++ x' :: z ++ 0 :: l') =
      (let '(x'', l'') := (let '(x'', t) := window_from n (S b) x' l' in (x'', 0 :: t)) in p ++ x'' :: z ++ l'')).
    { intros x' l' Hl' El Hx'. specialize (IH (S b) p x' (z ++ [0]) l'). rewrite length_app, <- app_assoc in IH.
      cbn [app length] in IH. rewrite IH by (done || lia).
      destruct (window_from n (S b) x' l') as [x'' t]. by rewrite <- app_assoc. }
    rewrite nth_mid, E, (Lz x), nth_mid, <- E, <- (Lz x).
    destruct (Z.eqb_spec y 0) as [->|Hy0]; [by apply STEP|]. assert (y = 1) as -> by lia.
    destruct (shl_digit b) as [-> Hp]; [lia|]. rewrite !s8_id, Z.geb_leb by lia. rewrite !insert_mid.
    destruct (Z.leb_spec (x + 2 ^ Z.of_nat b) 15).
    { rewrite E, (Lz (x + 2 ^ Z.of_nat b)), insert_mid, <- E. apply STEP; [done..|lia]. }
    destruct (Z.leb_spec (-15) (x - 2 ^ Z.of_nat b)); [|done].
    destruct (ripple_from_bits l Hl) as [Hr Lr]. rewrite <- STEP by (done || lia). f_equal.
    rewrite E, (Lz (x - 2 ^ Z.of_nat b)). replace (256 - _)%nat with (length (1 :: l))
      by (rewrite <- (Lz (x - 2 ^ Z.of_nat b)); cbn; lia).
    rewrite ripple_eq. by rewrite <- app_assoc.
Qed.

Lemma window_from_bits n : forall b x l, bits l ->
  bits (window_from n b x l).2 /\ length (window_from n b x l).2 = length l.
Proof.
  induction n as [|n IH]; intros b x [|y l] Hl; try done. cbn [window_from].
  pose proof Hl as [Hy Hl']%Forall_cons. destruct (ripple_from_bits l Hl') as [Hr Lr].
  assert (STEP : forall x' l', bits l' -> length l' = length l ->
    let q := (let '(x'', t) := window_from n (S b) x' l' in (x'', 0 :: t)) in
    bits q.2 /\ length q.2 = length (y :: l)).
  { intros x' l' Hb El. destruct (IH (S b) x' l' Hb) as [Bq Lq].
    destruct (window_from n (S b) x' l') as [x'' t]. cbn in *. split; [by constructor; [left|]|lia]. }
  cbv zeta. destruct (y =? 0); [by apply STEP|]. destruct (_ <=? 15); [by apply STEP|].
  destruct (_ >=? _); [by apply STEP|done].
Qed.

Lemma slide_loop_eq n : forall k p l, length l = n -> length p = k -> (k + n = 256)%nat -> bits l ->
  fold_left (fun r i => if nth i r 0 =? 0 then r else slide_inner 6 1 i r) (seq k n) (p ++ l) =
  p ++ slide_from n l.
Proof.
  induction n as [|n IH]; intros k p [|x l] El <- Hp Hl; try done.
  injection El as El.
  apply Forall_cons in Hl as [Hx Hl]. cbn [seq fold_left slide_from]. rewrite nth_mid.
  assert (STEP : forall x l, length l = n -> bits l ->
    fold_left (fun r i => if nth i r 0 =? 0 then r else slide_inner 6 1 i r) (seq (S (length p)) n) (p ++ x :: l) =
    p ++ x :: slide_from n l).
  { intros x' l' El' Hl'. specialize (IH (S (length p)) (p ++ [x']) l' El'). rewrite length_app, <- !app_assoc in IH.
    apply IH; [cbn; lia|lia|done]. }
  destruct (Z.eqb_spec x 0) as [->|Hx0]; [by apply STEP|].
  pose proof (slide_inner_eq 6 1 p x [] l ltac:(lia) eq_refl ltac:(lia) ltac:(lia) Hl ltac:(lia)) as W.
  cbn [app] in W. rewrite W. destruct (window_from_bits 6 1 x l Hl) as [Bt Lt].
  destruct (window_from 6 1 x l) as [x' t]. apply STEP; [by rewrite <- El|done].
Qed.

(** ** The bits of the scalar *)

Lemma land_1_shiftr z k : 0 <= k -> Z.land 1 (Z.shiftr z k) = bits_at z k 1.
Proof.
  intros Hk. rewrite Z.land_comm. change 1 with (Z.ones 1) at 1.
  by rewrite Z.land_ones, Z.shiftr_div_pow2 by lia.
Qed.

Lemma scalar_bit a i : bytes_ok a ->
  s8 (Z.land 1 (Z.shiftr (nth (Nat.shiftr i 3) a 0) (Z.of_nat (Nat.land i 7)))) =
  bits_at (le_val a) (Z.of_nat i) 1.
Proof.
  intros Ha. rewrite land_1_shiftr, (le_val_nth _ a Ha) by lia.
  rewrite Nat.shiftr_div_pow2. change 7%nat with (Nat.ones 3). rewrite Nat.land_ones.
  change (2 ^ 3)%nat with 8%nat. pose proof (Nat.div_mod i 8 ltac:(lia)) as Ei.
  pose proof (Nat.mod_upper_bound i 8 ltac:(lia)) as Hm.
  replace (256 ^ Z.of_nat (i / 8)) with (2 ^ (8 * Z.of_nat (i / 8))) by (rewrite Z.pow_mul_r; [done|lia..]).
  change (le_val a / 2 ^ (8 * Z.of_nat (i / 8)) mod 256) with (bits_at (le_val a) (8 * Z.of_nat (i / 8)) 8).
  rewrite bits_at_bits by lia. replace (8 * _ + _) with (Z.of_nat i) by lia.
  pose proof (bits_at_range (le_val a) (Z.of_nat i) 1 ltac:(lia)). change (2 ^ 1) with 2 in *.
  by rewrite s8_id by lia.
Qed.

Lemma val2_bits_at z n : forall k,
  val2 (map (fun i => bits_at z (Z.of_nat i) 1) (seq k n)) = bits_at z (Z.of_nat k) (Z.of_nat n).
Proof.
  induction n as [|n IH]; intros k; [unfold bits_at; cbn; by rewrite Z.mod_1_r|].
  cbn [seq map val2]. rewrite IH. replace (Z.of_nat (S n)) with (1 + Z.of_nat n) by lia.
  rewrite bits_at_split by lia. by replace (Z.of_nat (S k)) with (Z.of_nat k + 1) by lia.
Qed.

Lemma scalar_bits_spec a : array 32 a ->
  bits (scalar_bits a) /\ length (scalar_bits a) = 256%nat /\ val2 (scalar_bits a) = le_val a.
Proof.
  intros [Hl Ha]. unfold scalar_bits.
  rewrite (map_ext _ _ (fun i => scalar_bit a i Ha)). split; [|split].
  - apply Forall_forall. intros x Hx%list_elem_of_In%in_map_iff. destruct Hx as (i & <- & _).
    pose proof (bits_at_range (le_val a) (Z.of_nat i) 1 ltac:(lia)). change (2 ^ 1) with 2 in *. lia.
  - by rewrite length_map, length_seq.
  - rewrite val2_bits_at. apply bits_at_small. pose proof (le_val_range a Ha) as R.
    unfold zlen in R. rewrite Hl in R. exact R.
Qed.

Lemma slide_eq a : array 32 a -> slide a = slide_from 256 (scalar_bits a).
Proof. intros Ha. destruct (scalar_bits_spec a Ha) as (B & L & _). unfold slide.
  pose proof (slide_loop_eq 256 0 [] _ L eq_refl eq_refl B) as E. rewrite !app_nil_l in E. exact E. Qed.

(** The recoding of a scalar up to [2^255]: digits that are zero or odd and at most 15 in size,
    with the same value. *)
Lemma slide_rep a : array 32 a -> le_val a <= 2 ^ 255 ->
  Forall digit (slide a) /\ length (slide a) = 256%nat /\ val2 (slide a) = le_val a.
Proof.
  intros Ha Hlt. destruct (scalar_bits_spec a Ha) as (B & L & V). rewrite slide_eq, <- V by done.
  apply slide_from_spec; [done..|]. rewrite V.
  replace (2 ^ Z.of_nat 256) with (2 * 2 ^ 255) by (apply Z.eqb_eq; vm_compute; reflexivity). lia.
Qed.

(** ** The product *)

Lemma odd_multiples_spec P A2 n : forall c q, ext_rep (smul 2 P) A2 -> cached_rep (smul c P) q ->
  forall j, (j <= n)%nat ->
  cached_rep (smul (c + 2 * Z.of_nat j) P) (nth j (odd_multiples n A2 q) Cached_Zero).
Proof.
  induction n as [|n IH]; intros c q HA Hq [|j] Hj; try lia;
    [by replace (c + 2 * Z.of_nat 0) with c by lia..|].
  replace (c + 2 * Z.of_nat (S j)) with (2 + c + 2 * Z.of_nat j) by lia.
  cbn [odd_multiples nth]. apply IH; [done| |lia].
  rewrite smul_add. by apply Ext_ToCached_spec, Comp_ToExtended_spec, geAdd_spec.
Qed.

Lemma cg_double_add (p q s t : point25519) :
  cg_add (cg_add (cg_add (cg_add p q) (cg_add p q)) s) t = cg_add (cg_add (cg_add p p) s) (cg_add (cg_add q q) t).
Proof. by rewrite (cg_swap p q p q), (cg_swap (cg_add p p) s), (cg_assoc _ s t). Qed.

Section digits.
  Context (P : point25519) (Ai : list CachedGroupElement).
  Hypothesis Ai_rep : forall j, (j < 8)%nat -> cached_rep (smul (1 + 2 * Z.of_nat j) P) (nth j Ai Cached_Zero).

(** The index of an odd digit. *)
Lemma half_digit x : 0 < x -> odd_digit x ->
  (Z.to_nat (Z.quot x 2) < 8)%nat /\ 1 + 2 * Z.of_nat (Z.to_nat (Z.quot x 2)) = x.
Proof.
  intros Hx [Hr Ho]. rewrite Z.quot_div_nonneg by lia. pose proof (Z.div_mod x 2). lia.
Qed.

Lemma odd_opp x : odd_digit x -> odd_digit (- x).
Proof. intros [Hr Ho]. split; [lia|]. pose proof (Z.div_mod x 2). pose proof (Z.div_mod (- x) 2).
  pose proof (Z.mod_pos_bound (- x) 2). lia. Qed.

Lemma add_a_spec R x t : digit x -> comp_rep R t -> comp_rep (cg_add R (smul x P)) (add_a Ai x t).
Proof.
  intros [->|Hx] Ht; unfold add_a; cbv zeta.
  - by rewrite smul_0, cg_comm, cg_zero_l.
  - rewrite Z.gtb_ltb. destruct (Z.ltb_spec 0 x); [|destruct (Z.ltb_spec x 0)].
    + destruct (half_digit x) as [Hj Ej]; [done..|]. rewrite <- Ej at 1.
      by apply geAdd_spec; [apply Comp_ToExtended_spec|apply Ai_rep].
    + destruct (half_digit (- x)) as [Hj Ej]; [lia|by apply odd_opp|].
      rewrite s8_id by (destruct Hx; lia). replace x with (- (- x)) at 1 by lia. rewrite smul_neg, <- Ej at 1.
      by apply geSub_spec; [apply Comp_ToExtended_spec|apply Ai_rep].
    + assert (x = 0) as -> by lia. by destruct Hx.
Qed.

Lemma bi_entry j : (j < 8)%nat -> pre_rep (smul (1 + 2 * Z.of_nat j) B25519) (nth j bi Pre_Zero).
Proof.
  intros Hj. pose proof (bi_spec j) as Hs. assert (length bi = 8%nat) as Hl by reflexivity.
  revert Hs Hl. generalize bi. intros l Hs Hl. destruct (lookup_lt_is_Some_2 l j) as [q Hq]; [lia|].
  rewrite (nth_lookup_Some l _ _ _ Hq), Z.add_comm. by apply Hs.
Qed.

Lemma add_b_spec R x t : digit x -> comp_rep R t -> comp_rep (cg_add R (smul x B25519)) (add_b x t).
Proof.
  intros [->|Hx] Ht; unfold add_b; cbv zeta.
  - by rewrite smul_0, cg_comm, cg_zero_l.
  - rewrite Z.gtb_ltb. destruct (Z.ltb_spec 0 x); [|destruct (Z.ltb_spec x 0)].
    + destruct (half_digit x) as [Hj Ej]; [done..|]. rewrite <- Ej at 1.
      by apply geMixedAdd_spec; [apply Comp_ToExtended_spec|apply bi_entry].
    + destruct (half_digit (- x)) as [Hj Ej]; [lia|by apply odd_opp|].
      rewrite s8_id by (destruct Hx; lia). replace x with (- (- x)) at 1 by lia. rewrite smul_neg, <- Ej at 1.
      by apply geMixedSub_spec; [apply Comp_ToExtended_spec|apply bi_entry].
    + assert (x = 0) as -> by lia. by destruct Hx.
Qed.

  Context (aS bS : list Z).
  Hypothesis aS_digit : Forall digit aS.
  Hypothesis bS_digit : Forall digit bS.

Lemma nth_digit l i : Forall digit l -> digit (nth i l 0).
Proof.
  intros Hl. destruct (nth_in_or_default i l 0) as [Hin| ->]; [|by left].
  rewrite Forall_forall in Hl. by apply Hl, list_elem_of_In.
Qed.

Lemma val2_take_S l i : (i < length l)%nat ->
  val2 (take (S i) l) = val2 (take i l) + 2 ^ Z.of_nat i * nth i l 0.
Proof.
  intros Hi. destruct (lookup_lt_is_Some_2 l i Hi) as [x Hx].
  rewrite (take_S_r l i x Hx), val2_app, length_take, Nat.min_l, (nth_lookup_Some l _ _ _ Hx) by lia.
  cbn [val2]. lia.
Qed.

Lemma double_loop_spec n : (n <= length aS)%nat -> (n <= length bS)%nat -> forall u v r,
  proj_rep (cg_add (smul u P) (smul v B25519)) r ->
  proj_rep (cg_add (smul (2 ^ Z.of_nat n * u + val2 (take n aS)) P)
    (smul (2 ^ Z.of_nat n * v + val2 (take n bS)) B25519)) (double_loop aS bS Ai n r).
Proof.
  induction n as [|i IH]; intros Ha Hb u v r Hr; cbn [double_loop].
  - rewrite !take_0. cbn [val2]. change (2 ^ Z.of_nat 0) with 1. by rewrite !Z.mul_1_l, !Z.add_0_r.
  - rewrite !val2_take_S, Nat2Z.inj_succ, Z.pow_succ_r by lia.
    replace (2 * 2 ^ Z.of_nat i * u + _) with (2 ^ Z.of_nat i * (2 * u + nth i aS 0) + val2 (take i aS)) by ring.
    replace (2 * 2 ^ Z.of_nat i * v + _) with (2 ^ Z.of_nat i * (2 * v + nth i bS 0) + val2 (take i bS)) by ring.
    apply IH; [lia..|]. apply Comp_ToProjective_spec.
    replace (cg_add _ _) with (cg_add (cg_add (cg_add (cg_add (smul u P) (smul v B25519))
      (cg_add (smul u P) (smul v B25519))) (smul (nth i aS 0) P)) (smul (nth i bS 0) B25519)).
    { by apply add_b_spec, add_a_spec, Proj_Double_spec; try apply nth_digit. }
    by rewrite !smul_add, !smul_double, cg_double_add.
Qed.
End digits.

Lemma top_digit_spec aS bS n : (n <= length aS)%nat -> (n <= length bS)%nat ->
  (top_digit aS bS n <= n)%nat /\ val2 (take (top_digit aS bS n) aS) = val2 (take n aS) /\
  val2 (take (top_digit aS bS n) bS) = val2 (take n bS).
Proof.
  induction n as [|i IH]; intros Ha Hb; [done|]. cbn [top_digit].
  destruct (Z.eqb_spec (nth i aS 0) 0) as [Ea|]; cbn [negb orb]; [|done].
  destruct (Z.eqb_spec (nth i bS 0) 0) as [Eb|]; cbn [negb]; [|done].
  destruct IH as (Hn & Va & Vb); [lia..|]. rewrite !val2_take_S, Va, Vb, Ea, Eb by lia. lia.
Qed.

(** [GeDoubleScalarMultVartime] computes [a A + b B] for scalars up to [2^255]. *)
Lemma GeDoubleScalarMultVartime_rep P a A b : array 32 a -> array 32 b ->
  le_val a <= 2 ^ 255 -> le_val b <= 2 ^ 255 -> ext_rep P A ->
  proj_rep (cg_add (smul (le_val a) P) (smul (le_val b) B25519)) (GeDoubleScalarMultVartime a A b).
Proof.
  intros Ha Hb La Lb HA. destruct (slide_rep a Ha La) as (Da & Na & Va).
  destruct (slide_rep b Hb Lb) as (Db & Nb & Vb). unfold GeDoubleScalarMultVartime. cbv beta zeta.
  revert Da Na Va Db Nb Vb. generalize (slide a) (slide b). intros aS bS Da Na Va Db Nb Vb.
  destruct (top_digit_spec aS bS 256) as (Hn & Ta & Tb); [lia..|].
  rewrite (take_ge aS 256) in Ta by lia. rewrite (take_ge bS 256) in Tb by lia.
  pose proof (double_loop_spec P (odd_multiples 7 (Comp_ToExtended (Ext_Double A)) (Ext_ToCached A))) as L.
  specialize (L ltac:(intros j Hj; apply odd_multiples_spec; [|by rewrite smul_1; apply Ext_ToCached_spec|lia];
    rewrite (smul_double 1), smul_1; by apply Comp_ToExtended_spec, Ext_Double_spec)).
  specialize (L aS bS Da Db (top_digit aS bS 256) ltac:(lia) ltac:(lia) 0 0 Proj_Zero).
  rewrite !smul_0, cg_zero_l, !Z.mul_0_r, !Z.add_0_l, Ta, Tb, Va, Vb in L. apply L, Proj_Zero_spec.
Qed.
