(* ===== verification/Sc.v ===== *)
(** * Scalars modulo the group order: [ScMulAdd] and [ScReduce]

    src/tendermint/ed25519/edwards25519/edwards25519.go.  A scalar in progress is 24
    int64 limbs of 21 bits, the variables [s0] to [s23].  The code is a straight line of
    three idioms (a rounding carry, a floor carry, the elimination of a limb with
    [2^252 = -(l - 2^252) mod l]), so it is a list of instructions here.  An interval
    analysis of such lists, proved sound once, shows that no intermediate value leaves
    the int64 range; running it on the instructions of the two functions gives the
    bounds, and with them that the results are reduced modulo [l]. *)

From S2P Require Import Prelude LittleEndian Fe FeBytes.

Local Open Scope Z_scope.

(** The order of the base point. *)
Definition order : Z := 2 ^ 252 + 27742317777372353535851937790883648493.

(** ** Definitions *)

Inductive sc_op :=
| Round (i : nat)   (* carry[i] = (si + (1 << 20)) >> 21; si+1 += carry[i]; si -= carry[i] << 21 *)
| Floor (i : nat)   (* carry[i] = si >> 21; si+1 += carry[i]; si -= carry[i] << 21 *)
| Elim (i : nat).   (* the six updates of si-12 .. si-7 with multiples of si; si = 0 *)

Definition carry_into (s : list Z) (i : nat) (c : Z) : list Z :=
  let s := <[S i := s64 (nth (S i) s 0 + c)]> s in
  <[i := s64 (nth i s 0 - s64 (Z.shiftl c 21))]> s.

Definition mul_add (i : nat) (s : list Z) (j : nat) (k : Z) : list Z :=
  <[j := s64 (nth j s 0 + s64 (nth i s 0 * k))]> s.

Definition mul_sub (i : nat) (s : list Z) (j : nat) (k : Z) : list Z :=
  <[j := s64 (nth j s 0 - s64 (nth i s 0 * k))]> s.

Definition sc_step (s : list Z) (o : sc_op) : list Z :=
  match o with
  | Round i => carry_into s i (Z.shiftr (s64 (nth i s 0 + Z.shiftl 1 20)) 21)
  | Floor i => carry_into s i (Z.shiftr (nth i s 0) 21)
  | Elim i =>
      let s := mul_add i s (i - 12) 666643 in
      let s := mul_add i s (i - 11) 470296 in
      let s := mul_add i s (i - 10) 654183 in
      let s := mul_sub i s (i - 9) 997805 in
      let s := mul_add i s (i - 8) 136657 in
      let s := mul_sub i s (i - 7) 683901 in
      <[i := 0]> s
  end.

Definition sc_run (ops : list sc_op) (s : list Z) : list Z := fold_left sc_step ops s.

(** The carries of [ScMulAdd] after the products. *)
Definition product_carries : list sc_op :=
  [Round 0; Round 2; Round 4; Round 6; Round 8; Round 10; Round 12; Round 14; Round 16; Round 18;
   Round 20; Round 22;
   Round 1; Round 3; Round 5; Round 7; Round 9; Round 11; Round 13; Round 15; Round 17; Round 19;
   Round 21].

(** The upper twelve limbs. *)
Definition eliminate_high : list sc_op :=
  [Elim 23; Elim 22; Elim 21; Elim 20; Elim 19; Elim 18;
   Round 6; Round 8; Round 10; Round 12; Round 14; Round 16;
   Round 7; Round 9; Round 11; Round 13; Round 15;
   Elim 17; Elim 16; Elim 15; Elim 14; Elim 13; Elim 12].

(** The carries and eliminations of [s12] before the last one. *)
Definition reduce_low : list sc_op :=
  [Round 0; Round 2; Round 4; Round 6; Round 8; Round 10;
   Round 1; Round 3; Round 5; Round 7; Round 9; Round 11;
   Elim 12;
   Floor 0; Floor 1; Floor 2; Floor 3; Floor 4; Floor 5; Floor 6; Floor 7; Floor 8; Floor 9;
   Floor 10; Floor 11].

Definition reduce_last : list sc_op :=
  [Elim 12;
   Floor 0; Floor 1; Floor 2; Floor 3; Floor 4; Floor 5; Floor 6; Floor 7; Floor 8; Floor 9; Floor 10].

(** The twelve limbs of a 32-byte scalar. *)
Definition load_limbs (a : list Z) : list Z :=
  [Z.land 2097151 (load3 a);
   Z.land 2097151 (Z.shiftr (load4 (drop 2 a)) 5);
   Z.land 2097151 (Z.shiftr (load3 (drop 5 a)) 2);
   Z.land 2097151 (Z.shiftr (load4 (drop 7 a)) 7);
   Z.land 2097151 (Z.shiftr (load4 (drop 10 a)) 4);
   Z.land 2097151 (Z.shiftr (load3 (drop 13 a)) 1);
   Z.land 2097151 (Z.shiftr (load4 (drop 15 a)) 6);
   Z.land 2097151 (Z.shiftr (load3 (drop 18 a)) 3);
   Z.land 2097151 (load3 (drop 21 a));
   Z.land 2097151 (Z.shiftr (load4 (drop 23 a)) 5);
   Z.land 2097151 (Z.shiftr (load3 (drop 26 a)) 2);
   Z.shiftr (load4 (drop 28 a)) 7].

(** [ck + a0*bk + .. + ak*b0], of the products of limbs 0 to 11. *)
Definition product_limb (a b c : list Z) (k : nat) : Z :=
  fold_left (fun acc i => s64 (acc + s64 (nth i a 0 * nth (k - i) b 0)))
    (seq (k - 11) (S (min k 11) - (k - 11))) (nth k c 0).

(** [s0] to [s22], and [s23 := 0]. *)
Definition product_limbs (a b c : list Z) : list Z := map (product_limb a b c) (seq 0 23) ++ [0].

Definition pack_limbs (s : list Z) : list Z :=
  let s_ i := nth i s 0 in
  [u8 (Z.shiftr (s_ 0%nat) 0);
   u8 (Z.shiftr (s_ 0%nat) 8);
   u8 (Z.lor (Z.shiftr (s_ 0%nat) 16) (s64 (Z.shiftl (s_ 1%nat) 5)));
   u8 (Z.shiftr (s_ 1%nat) 3);
   u8 (Z.shiftr (s_ 1%nat) 11);
   u8 (Z.lor (Z.shiftr (s_ 1%nat) 19) (s64 (Z.shiftl (s_ 2%nat) 2)));
   u8 (Z.shiftr (s_ 2%nat) 6);
   u8 (Z.lor (Z.shiftr (s_ 2%nat) 14) (s64 (Z.shiftl (s_ 3%nat) 7)));
   u8 (Z.shiftr (s_ 3%nat) 1);
   u8 (Z.shiftr (s_ 3%nat) 9);
   u8 (Z.lor (Z.shiftr (s_ 3%nat) 17) (s64 (Z.shiftl (s_ 4%nat) 4)));
   u8 (Z.shiftr (s_ 4%nat) 4);
   u8 (Z.shiftr (s_ 4%nat) 12);
   u8 (Z.lor (Z.shiftr (s_ 4%nat) 20) (s64 (Z.shiftl (s_ 5%nat) 1)));
   u8 (Z.shiftr (s_ 5%nat) 7);
   u8 (Z.lor (Z.shiftr (s_ 5%nat) 15) (s64 (Z.shiftl (s_ 6%nat) 6)));
   u8 (Z.shiftr (s_ 6%nat) 2);
   u8 (Z.shiftr (s_ 6%nat) 10);
   u8 (Z.lor (Z.shiftr (s_ 6%nat) 18) (s64 (Z.shiftl (s_ 7%nat) 3)));
   u8 (Z.shiftr (s_ 7%nat) 5);
   u8 (Z.shiftr (s_ 7%nat) 13);
   u8 (Z.shiftr (s_ 8%nat) 0);
   u8 (Z.shiftr (s_ 8%nat) 8);
   u8 (Z.lor (Z.shiftr (s_ 8%nat) 16) (s64 (Z.shiftl (s_ 9%nat) 5)));
   u8 (Z.shiftr (s_ 9%nat) 3);
   u8 (Z.shiftr (s_ 9%nat) 11);
   u8 (Z.lor (Z.shiftr (s_ 9%nat) 19) (s64 (Z.shiftl (s_ 10%nat) 2)));
   u8 (Z.shiftr (s_ 10%nat) 6);
   u8 (Z.lor (Z.shiftr (s_ 10%nat) 14) (s64 (Z.shiftl (s_ 11%nat) 7)));
   u8 (Z.shiftr (s_ 11%nat) 1);
   u8 (Z.shiftr (s_ 11%nat) 9);
   u8 (Z.shiftr (s_ 11%nat) 17)].

(** The limbs of the 64 bytes of a hash. *)
Definition load_wide (s : list Z) : list Z :=
  [Z.land 2097151 (load3 s);
   Z.land 2097151 (Z.shiftr (load4 (drop 2 s)) 5);
   Z.land 2097151 (Z.shiftr (load3 (drop 5 s)) 2);
   Z.land 2097151 (Z.shiftr (load4 (drop 7 s)) 7);
   Z.land 2097151 (Z.shiftr (load4 (drop 10 s)) 4);
   Z.land 2097151 (Z.shiftr (load3 (drop 13 s)) 1);
   Z.land 2097151 (Z.shiftr (load4 (drop 15 s)) 6);
   Z.land 2097151 (Z.shiftr (load3 (drop 18 s)) 3);
   Z.land 2097151 (load3 (drop 21 s));
   Z.land 2097151 (Z.shiftr (load4 (drop 23 s)) 5);
   Z.land 2097151 (Z.shiftr (load3 (drop 26 s)) 2);
   Z.land 2097151 (Z.shiftr (load4 (drop 28 s)) 7);
   Z.land 2097151 (Z.shiftr (load4 (drop 31 s)) 4);
   Z.land 2097151 (Z.shiftr (load3 (drop 34 s)) 1);
   Z.land 2097151 (Z.shiftr (load4 (drop 36 s)) 6);
   Z.land 2097151 (Z.shiftr (load3 (drop 39 s)) 3);
   Z.land 2097151 (load3 (drop 42 s));
   Z.land 2097151 (Z.shiftr (load4 (drop 44 s)) 5);
   Z.land 2097151 (Z.shiftr (load3 (drop 47 s)) 2);
   Z.land 2097151 (Z.shiftr (load4 (drop 49 s)) 7);
   Z.land 2097151 (Z.shiftr (load4 (drop 52 s)) 4);
   Z.land 2097151 (Z.shiftr (load3 (drop 55 s)) 1);
   Z.land 2097151 (Z.shiftr (load4 (drop 57 s)) 6);
   Z.shiftr (load4 (drop 60 s)) 3].

(** From the elimination of the upper limbs on. *)
Definition finish_limbs (s : list Z) : list Z := pack_limbs (sc_run reduce_last (sc_run reduce_low s)).

Definition ScReduce (s : list Z) : list Z := finish_limbs (sc_run eliminate_high (load_wide s)).

Definition ScMulAdd (a b c : list Z) : list Z :=
  let s := product_limbs (load_limbs a) (load_limbs b) (load_limbs c) in
  let s := sc_run product_carries s in
  finish_limbs (sc_run eliminate_high s).

(** ** The value of the limbs *)

Fixpoint sval (s : list Z) : Z :=
  match s with
  | [] => 0
  | x :: s' => x + 2 ^ 21 * sval s'
  end.

Lemma sval_insert s : forall i v, (i < length s)%nat ->
  sval (<[i := v]> s) = sval s + (v - nth i s 0) * 2 ^ (21 * Z.of_nat i).
Proof.
  induction s as [|x s IH]; intros i v Hi; cbn [length] in Hi; [lia|]. destruct i as [|i].
  - cbn [insert list_insert sval nth]. change (2 ^ (21 * Z.of_nat 0)) with 1. lia.
  - cbn [insert list_insert sval nth]. fold (<[i := v]> s). rewrite IH by lia.
    replace (21 * Z.of_nat (S i)) with (21 + 21 * Z.of_nat i) by lia. rewrite Z.pow_add_r by lia. lia.
Qed.

Lemma nth_insert_eq s : forall i (v : Z), (i < length s)%nat -> nth i (<[i := v]> s) 0 = v.
Proof.
  intros i v Hi. apply nth_lookup_Some, list_lookup_insert_eq. done.
Qed.

Lemma nth_insert_ne s i j (v : Z) : i <> j -> nth j (<[i := v]> s) 0 = nth j s 0.
Proof. intros H. by rewrite !nth_lookup, list_lookup_insert_ne. Qed.

(** ** Intervals *)

Definition iv : Type := Z * Z.
Definition in_iv (x : Z) (b : iv) : Prop := b.1 <= x <= b.2.
Definition in_ivs (s : list Z) (bs : list iv) : Prop := Forall2 in_iv s bs.

Definition iv_add (a b : iv) : iv := (a.1 + b.1, a.2 + b.2).
Definition iv_sub (a b : iv) : iv := (a.1 - b.2, a.2 - b.1).
Definition iv_scale (k : Z) (a : iv) : iv := (k * a.1, k * a.2).
Definition iv_shr (a : iv) : iv := (Z.shiftr a.1 21, Z.shiftr a.2 21).

(** The interval lies in the int64 range. *)
Definition iv_ok (a : iv) : bool := (- 2 ^ 63 <=? a.1) && (a.2 <? 2 ^ 63).

Lemma iv_ok_s64 x b : in_iv x b -> iv_ok b = true -> s64 x = x.
Proof. unfold in_iv, iv_ok. intros H K. zbool. apply s64_id. lia. Qed.

Lemma in_iv_add x y a b : in_iv x a -> in_iv y b -> in_iv (x + y) (iv_add a b).
Proof. unfold in_iv, iv_add. cbn. lia. Qed.
Lemma in_iv_sub x y a b : in_iv x a -> in_iv y b -> in_iv (x - y) (iv_sub a b).
Proof. unfold in_iv, iv_sub. cbn. lia. Qed.
Lemma in_iv_scale k x a : 0 <= k -> in_iv x a -> in_iv (x * k) (iv_scale k a).
Proof. unfold in_iv, iv_scale. cbn. nia. Qed.
Lemma in_iv_shr x a : in_iv x a -> in_iv (Z.shiftr x 21) (iv_shr a).
Proof.
  unfold in_iv, iv_shr. cbn. rewrite !Z.shiftr_div_pow2 by lia. intros [H1 H2].
  split; by apply Z.div_le_mono.
Qed.

Lemma in_ivs_nth s bs i : in_ivs s bs -> in_iv (nth i s 0) (nth i bs (0, 0)).
Proof.
  intros H. rewrite !nth_lookup. destruct (s !! i) as [x|] eqn:E.
  - destruct (Forall2_lookup_l _ _ _ _ _ H E) as (b & -> & Hb). done.
  - apply lookup_ge_None in E. rewrite (Forall2_length _ _ _ H) in E.
    apply lookup_ge_None in E. rewrite E. by split.
Qed.

Lemma in_ivs_insert s bs i x b : in_ivs s bs -> in_iv x b -> in_ivs (<[i := x]> s) (<[i := b]> bs).
Proof. intros H Hx. by apply Forall2_insert. Qed.

Definition iv_check (b : bool) (bs : list iv) : option (list iv) := if b then Some bs else None.

Definition iv_carry (bs : list iv) (i : nat) (c r : iv) : option (list iv) :=
  let y := iv_add (nth (S i) bs (0, 0)) c in
  iv_check ((S i <? length bs)%nat && iv_ok y && iv_ok (iv_scale (2 ^ 21) c) && iv_ok r)
    (<[i := r]> (<[S i := y]> bs)).

Definition iv_mul (comb : iv -> iv -> iv) (i : nat) (j : nat) (k : Z) (bs : list iv) : option (list iv) :=
  let t := iv_scale k (nth i bs (0, 0)) in
  let y := comb (nth j bs (0, 0)) t in
  iv_check ((j <? length bs)%nat && (j <? i)%nat && (0 <=? k) && iv_ok t && iv_ok y) (<[j := y]> bs).

Definition iv_step (bs : list iv) (o : sc_op) : option (list iv) :=
  match o with
  | Round i =>
      let t := iv_add (nth i bs (0, 0)) (2 ^ 20, 2 ^ 20) in
      if iv_ok t then iv_carry bs i (iv_shr t) (- 2 ^ 20, 2 ^ 20 - 1) else None
  | Floor i => iv_carry bs i (iv_shr (nth i bs (0, 0))) (0, 2 ^ 21 - 1)
  | Elim i =>
      if (12 <=? i)%nat && (i <? length bs)%nat then
        bs ← iv_mul iv_add i (i - 12) 666643 bs;
        bs ← iv_mul iv_add i (i - 11) 470296 bs;
        bs ← iv_mul iv_add i (i - 10) 654183 bs;
        bs ← iv_mul iv_sub i (i - 9) 997805 bs;
        bs ← iv_mul iv_add i (i - 8) 136657 bs;
        bs ← iv_mul iv_sub i (i - 7) 683901 bs;
        Some (<[i := (0, 0)]> bs)
      else None
  end.

Fixpoint iv_run (ops : list sc_op) (bs : list iv) : option (list iv) :=
  match ops with
  | [] => Some bs
  | o :: ops' => bs ← iv_step bs o; iv_run ops' bs
  end.

(** ** Soundness *)

Lemma carry_into_spec s bs bs' i c ci r : in_ivs s bs -> in_iv c ci ->
  in_iv (nth i s 0 - 2 ^ 21 * c) r -> iv_carry bs i ci r = Some bs' ->
  in_ivs (carry_into s i c) bs' /\ sval (carry_into s i c) = sval s.
Proof.
  intros Hs Hc Hr. unfold iv_carry, iv_check. destruct (_ && _) eqn:E; [|done]. intros [= <-].
  repeat rewrite andb_true_iff in E. destruct E as [[[El Ey] Et] Er].
  apply Nat.ltb_lt in El. pose proof (Forall2_length _ _ _ Hs) as L. unfold carry_into. cbv zeta.
  pose proof (in_iv_add _ _ _ _ (in_ivs_nth s bs (S i) Hs) Hc) as Hy.
  rewrite nth_insert_ne by lia. rewrite (iv_ok_s64 _ _ Hy Ey).
  assert (Z.shiftl c 21 = c * 2 ^ 21) as -> by (by rewrite Z.shiftl_mul_pow2).
  rewrite (iv_ok_s64 _ _ (in_iv_scale (2 ^ 21) c ci ltac:(lia) Hc) Et).
  replace (c * 2 ^ 21) with (2 ^ 21 * c) by ring. rewrite (iv_ok_s64 _ _ Hr Er). split.
  - by apply in_ivs_insert; [apply in_ivs_insert|].
  - rewrite !sval_insert, nth_insert_ne by (rewrite ?length_insert; lia).
    replace (21 * Z.of_nat (S i)) with (21 + 21 * Z.of_nat i) by lia. rewrite Z.pow_add_r by lia. ring.
Qed.

(** One update of the elimination of limb [i], which holds [x]. *)
Lemma mul_spec (sub : bool) s bs bs' i j k : in_ivs s bs ->
  iv_mul (if sub then iv_sub else iv_add) i j k bs = Some bs' ->
  let s' := (if sub then mul_sub else mul_add) i s j k in
  in_ivs s' bs' /\ nth i s' 0 = nth i s 0 /\
  sval s' = sval s + (if sub then -1 else 1) * k * 2 ^ (21 * Z.of_nat j) * nth i s 0.
Proof.
  intros Hs. unfold iv_mul, iv_check. cbv zeta. destruct (_ && _) eqn:E; [|done]. intros [= <-].
  repeat rewrite andb_true_iff in E. destruct E as [[[[El Ej] Ek] Et] Ey].
  apply Nat.ltb_lt in El, Ej. apply Z.leb_le in Ek. pose proof (Forall2_length _ _ _ Hs) as L.
  pose proof (in_iv_scale k _ _ Ek (in_ivs_nth s bs i Hs)) as Ht. pose proof (in_ivs_nth s bs j Hs) as Hj.
  destruct sub; unfold mul_sub, mul_add; rewrite (iv_ok_s64 _ _ Ht Et).
  - pose proof (in_iv_sub _ _ _ _ Hj Ht) as Hy. rewrite (iv_ok_s64 _ _ Hy Ey).
    split; [by apply in_ivs_insert|]. rewrite nth_insert_ne, sval_insert by lia. split; [done|ring].
  - pose proof (in_iv_add _ _ _ _ Hj Ht) as Hy. rewrite (iv_ok_s64 _ _ Hy Ey).
    split; [by apply in_ivs_insert|]. rewrite nth_insert_ne, sval_insert by lia. split; [done|ring].
Qed.

Ltac elim_step sub Hs H N V :=
  lazymatch goal with |- mbind _ ?e = Some _ -> _ =>
    let E := fresh "E" in destruct e eqn:E; [cbn [mbind option_bind]|discriminate];
    destruct (mul_spec sub _ _ _ _ _ _ Hs E) as (H & N & V); clear E end.

(** [-(l - 2^252)] in limbs. *)
Lemma elim_value : 666643 + 470296 * 2 ^ 21 + 654183 * 2 ^ 42 - 997805 * 2 ^ 63 + 136657 * 2 ^ 84
  - 683901 * 2 ^ 105 - 2 ^ 252 = - order.
Proof. reflexivity. Qed.

Lemma Elim_spec s bs bs' i : in_ivs s bs -> iv_step bs (Elim i) = Some bs' ->
  in_ivs (sc_step s (Elim i)) bs' /\
  sval (sc_step s (Elim i)) = sval s - order * (nth i s 0 * 2 ^ (21 * (Z.of_nat i - 12))).
Proof.
  intros Hs. cbn [iv_step sc_step]. destruct (_ && _) eqn:E; [|done].
  apply andb_true_iff in E as [Ei El]. apply Nat.leb_le in Ei. apply Nat.ltb_lt in El.
  elim_step false Hs H1 N1 V1. elim_step false H1 H2 N2 V2. elim_step false H2 H3 N3 V3.
  elim_step true H3 H4 N4 V4. elim_step false H4 H5 N5 V5. elim_step true H5 H6 N6 V6.
  intros [= <-]. split; [by apply in_ivs_insert|].
  rewrite sval_insert by (unfold mul_add, mul_sub; rewrite !length_insert, (Forall2_length _ _ _ Hs); done).
  rewrite N6, V6, N5, V5, N4, V4, N3, V3, N2, V2, N1, V1. cbv iota.
  set (b := Z.of_nat i - 12).
  replace (Z.of_nat i) with (b + 12) by lia. replace (Z.of_nat (i - 12)) with b by lia.
  replace (Z.of_nat (i - 11)) with (b + 1) by lia. replace (Z.of_nat (i - 10)) with (b + 2) by lia.
  replace (Z.of_nat (i - 9)) with (b + 3) by lia. replace (Z.of_nat (i - 8)) with (b + 4) by lia.
  replace (Z.of_nat (i - 7)) with (b + 5) by lia.
  rewrite !Z.mul_add_distr_l, !Z.pow_add_r by lia. rewrite <- (Z.opp_involutive order), <- elim_value.
  change (21 * 1) with 21. change (21 * 2) with 42. change (21 * 3) with 63. change (21 * 4) with 84.
  change (21 * 5) with 105. change (21 * 12) with 252. generalize (2 ^ (21 * b)). intros t. ring.
Qed.

Lemma round_range x : in_iv (x - 2 ^ 21 * Z.shiftr (x + 2 ^ 20) 21) (- 2 ^ 20, 2 ^ 20 - 1).
Proof.
  unfold in_iv. cbn [fst snd]. rewrite Z.shiftr_div_pow2 by lia. pose proof (Z.div_mod (x + 2 ^ 20) (2 ^ 21)).
  pose proof (Z.mod_pos_bound (x + 2 ^ 20) (2 ^ 21)). lia.
Qed.

Lemma floor_range x : in_iv (x - 2 ^ 21 * Z.shiftr x 21) (0, 2 ^ 21 - 1).
Proof.
  unfold in_iv. cbn [fst snd]. rewrite Z.shiftr_div_pow2 by lia. pose proof (Z.div_mod x (2 ^ 21)).
  pose proof (Z.mod_pos_bound x (2 ^ 21)). lia.
Qed.

(** The multiple of [order] a step takes off. *)
Definition quotient (s : list Z) (o : sc_op) : Z :=
  match o with
  | Elim i => nth i s 0 * 2 ^ (21 * (Z.of_nat i - 12))
  | _ => 0
  end.

(** A step stays in the intervals computed for it. *)
Lemma sc_step_spec s bs bs' o : in_ivs s bs -> iv_step bs o = Some bs' ->
  in_ivs (sc_step s o) bs' /\ sval (sc_step s o) = sval s - order * quotient s o.
Proof.
  intros Hs E. destruct o as [i|i|i]; cbn [quotient]; [rewrite Z.mul_0_r, Z.sub_0_r..|].
  - cbn [iv_step sc_step] in *. cbv zeta in E. destruct (iv_ok _) eqn:Ho in E; [|done].
    pose proof (in_iv_add _ (2 ^ 20) _ (2 ^ 20, 2 ^ 20) (in_ivs_nth s bs i Hs) ltac:(split; reflexivity || done)) as Ht.
    change (Z.shiftl 1 20) with (2 ^ 20). rewrite (iv_ok_s64 _ _ Ht Ho).
    exact (carry_into_spec s bs bs' i _ _ _ Hs (in_iv_shr _ _ Ht) (round_range _) E).
  - cbn [iv_step sc_step] in *.
    exact (carry_into_spec s bs bs' i _ _ _ Hs (in_iv_shr _ _ (in_ivs_nth s bs i Hs)) (floor_range _) E).
  - exact (Elim_spec s bs bs' i Hs E).
Qed.

Fixpoint quotients (ops : list sc_op) (s : list Z) : Z :=
  match ops with
  | [] => 0
  | o :: ops' => quotient s o + quotients ops' (sc_step s o)
  end.

Lemma sc_run_spec ops : forall s bs bs', in_ivs s bs -> iv_run ops bs = Some bs' ->
  in_ivs (sc_run ops s) bs' /\ sval (sc_run ops s) = sval s - order * quotients ops s.
Proof.
  induction ops as [|o ops IH]; intros s bs bs' Hs; cbn [iv_run sc_run fold_left quotients].
  - intros [= <-]. split; [done|lia].
  - destruct (iv_step bs o) as [b1|] eqn:E; [cbn [mbind option_bind]|done]. intros E'.
    destruct (sc_step_spec s bs b1 o Hs E) as [H1 V1].
    destruct (IH _ b1 bs' H1 E') as [H2 V2]. split; [done|]. fold (sc_run ops (sc_step s o)). lia.
Qed.

Lemma sc_run_app l l' s : sc_run (l ++ l') s = sc_run l' (sc_run l s).
Proof. apply fold_left_app. Qed.

Lemma quotients_mod v q : (v - order * q) mod order = v mod order.
Proof. rewrite <- Z.add_opp_r, <- Z.mul_opp_r, Z.mul_comm. by apply Z.mod_add. Qed.

(** ** The last steps *)

Definition full_iv : iv := (0, 2 ^ 21 - 1).

Lemma sval_app s t : sval (s ++ t) = sval s + 2 ^ (21 * Z.of_nat (length s)) * sval t.
Proof.
  induction s as [|x s IH]; cbn [app sval length]; [change (2 ^ (21 * Z.of_nat 0)) with 1; lia|].
  rewrite IH. replace (21 * Z.of_nat (S (length s))) with (21 + 21 * Z.of_nat (length s)) by lia.
  rewrite Z.pow_add_r by lia. ring.
Qed.

Lemma sval_full n : forall s, in_ivs s (repeat full_iv n) -> 0 <= sval s < 2 ^ (21 * Z.of_nat n).
Proof.
  induction n as [|n IH]; intros s H; inversion H as [|x b s' l Hx Hs]; subst; cbn [sval]; [done|].
  specialize (IH _ Hs). unfold in_iv, full_iv in Hx. cbn [fst snd] in Hx.
  replace (21 * Z.of_nat (S n)) with (21 + 21 * Z.of_nat n) by lia. rewrite Z.pow_add_r by lia. lia.
Qed.

Lemma sval_zeros n : forall s, in_ivs s (repeat (0, 0) n) -> sval s = 0.
Proof.
  induction n as [|n IH]; intros s H; inversion H as [|x b s' l Hx Hs]; subst; cbn [sval]; [done|].
  rewrite (IH _ Hs). unfold in_iv in Hx. cbn in Hx. lia.
Qed.

(** Twelve limbs and a limb [x]. *)
Lemma sval_twelve n s b : in_ivs s (repeat full_iv 12 ++ b :: repeat (0, 0) n) ->
  0 <= sval s - 2 ^ 252 * nth 12 s 0 < 2 ^ 252 /\ in_iv (nth 12 s 0) b.
Proof.
  intros H. apply Forall2_app_inv_r in H as (s1 & s2 & H1 & H2 & ->).
  pose proof (Forall2_length _ _ _ H1) as L. rewrite repeat_length in L.
  inversion H2 as [|x b' s' l Hx Hs]; subst. rewrite sval_app, L. cbn [sval].
  rewrite (sval_zeros _ _ Hs). rewrite app_nth2, L by lia. cbn [Nat.sub nth].
  pose proof (sval_full _ _ H1) as R. change (21 * Z.of_nat 12) with 252 in *. split; [lia|done].
Qed.

Definition low_ivs : list iv := repeat full_iv 12 ++ (-1, 0) :: repeat (0, 0) 11.
Definition last_ivs : list iv := repeat full_iv 11 ++ (-1, 2 ^ 21) :: repeat (0, 0) 12.

Lemma reduce_last_ivs : iv_run reduce_last low_ivs = Some last_ivs.
Proof. vm_compute. reflexivity. Qed.

(** The last elimination leaves a reduced value. *)
Lemma reduce_last_spec s : in_ivs s low_ivs ->
  in_ivs (sc_run reduce_last s) last_ivs /\ sval (sc_run reduce_last s) = sval s mod order.
Proof.
  intros Hs. destruct (sc_run_spec reduce_last s _ _ Hs reduce_last_ivs) as [H V]. split; [done|].
  destruct (sval_twelve 11 s (-1, 0) Hs) as [R X]. unfold in_iv in X. cbn [fst snd] in X.
  replace (quotients reduce_last s) with (nth 12 s 0) in V
    by (cbn [quotients quotient reduce_last]; change (2 ^ (21 * (Z.of_nat 12 - 12))) with 1; lia).
  rewrite V. apply (Z.mod_unique_pos _ _ (nth 12 s 0)); [|lia].
  assert (order = 2 ^ 252 + 27742317777372353535851937790883648493) as -> by reflexivity. lia.
Qed.

Lemma reduce_spec ops s bs : in_ivs s bs -> iv_run (ops ++ reduce_low) bs = Some low_ivs ->
  let s' := sc_run reduce_last (sc_run reduce_low (sc_run ops s)) in
  in_ivs s' last_ivs /\ sval s' = sval s mod order.
Proof.
  intros Hs Hb. destruct (sc_run_spec (ops ++ reduce_low) s bs _ Hs Hb) as [H V].
  rewrite sc_run_app in H, V. cbv zeta.
  destruct (reduce_last_spec _ H) as [H' V']. split; [done|]. rewrite V', V. apply quotients_mod.
Qed.

(** ** Bytes *)

Lemma u8_across64 a w h k : 0 <= w -> 0 <= k <= 8 -> 0 <= a < 2 ^ (w + k) -> 0 <= h < 2 ^ 22 ->
  u8 (Z.lor (Z.shiftr a w) (s64 (Z.shiftl h k))) = bits_at a w k + 2 ^ k * bits_at h 0 (8 - k).
Proof.
  intros Hw Hk Ha Hh. rewrite <- u8_across by done. rewrite Z.shiftl_mul_pow2 by lia.
  pose proof (Z.pow_le_mono_r 2 k 8 ltac:(lia) ltac:(lia)). pose proof (Z.pow_pos_nonneg 2 k).
  rewrite s64_id, s32_id by nia. done.
Qed.

Lemma pack_limbs_spec s : in_ivs s last_ivs -> 0 <= sval s < 2 ^ 253 ->
  array 32 (pack_limbs s) /\ le_val (pack_limbs s) = sval s.
Proof.
  intros H R. split.
  { split; [done|]. repeat constructor; apply Z.mod_pos_bound; lia. }
  apply Forall2_app_inv_r in H as (s1 & s2 & H1 & H2 & ->).
  inversion H2 as [|x b' s' l Hx Hs]; subst. pose proof (Forall2_length _ _ _ H1) as L.
  rewrite repeat_length in L. rewrite sval_app, L in *. cbn [sval] in *.
  rewrite (sval_zeros 12 _ Hs) in *. pose proof (sval_full _ _ H1) as R1.
  change (21 * Z.of_nat 11) with 231 in *. assert (0 <= x <= 2 ^ 22 - 1) as Bx by lia. clear Hx R R1 H2 Hs.
  destruct s1 as [|s0 [|s1 [|s2 [|s3 [|s4 [|s5 [|s6 [|s7 [|s8 [|s9 [|s10 [|s11 r]]]]]]]]]]]];
    try discriminate L. clear L.
  cbn [repeat] in H1. rewrite !Forall2_cons in H1. unfold in_iv, full_iv in H1. cbn [fst snd] in H1.
  destruct H1 as (?&?&?&?&?&?&?&?&?&?&?&_).
  unfold pack_limbs. cbn [nth app sval]. rewrite !u8_shr, !u8_across64 by lia.
  cut_limb s0 21 (8 + (8 + 5)). cut_limb s1 21 (3 + (8 + (8 + 2))). cut_limb s2 21 (6 + (8 + 7)).
  cut_limb s3 21 (1 + (8 + (8 + 4))). cut_limb s4 21 (4 + (8 + (8 + 1))). cut_limb s5 21 (7 + (8 + 6)).
  cut_limb s6 21 (2 + (8 + (8 + 3))). cut_limb s7 21 (5 + (8 + 8)). cut_limb s8 21 (8 + (8 + 5)).
  cut_limb s9 21 (3 + (8 + (8 + 2))). cut_limb s10 21 (6 + (8 + 7)). cut_limb x 25 (1 + (8 + (8 + 8))).
  rewrite !le_val_cons, le_val_nil. norm_bits.
  repeat match goal with H : _ <= _ <= _ |- _ => clear H end. lia.
Qed.

Lemma finish_limbs_spec ops s bs : in_ivs s bs -> iv_run (ops ++ reduce_low) bs = Some low_ivs ->
  finish_limbs (sc_run ops s) = le_bytes 32 (sval s mod order).
Proof.
  intros Hs Hb. destruct (reduce_spec ops s bs Hs Hb) as [H V]. cbv zeta in H, V. unfold finish_limbs.
  pose proof (Z.mod_pos_bound (sval s) order ltac:(done)) as R.
  destruct (pack_limbs_spec _ H) as [A E]; [rewrite V; assert (order < 2 ^ 253) by done; lia|].
  rewrite <- (le_bytes_val 32 (pack_limbs _)), E, V by done. done.
Qed.

Lemma land_shiftr_bits V p w k : 0 <= p -> 0 <= k -> k + 21 <= w ->
  Z.land 2097151 (Z.shiftr (bits_at V p w) k) = bits_at V (p + k) 21.
Proof.
  intros. rewrite Z.land_comm. change 2097151 with (Z.ones 21).
  rewrite Z.land_ones, Z.shiftr_div_pow2, <- (bits_at_bits V p w k 21) by lia. done.
Qed.

Lemma land_bits V p w : 0 <= p -> 21 <= w -> Z.land 2097151 (bits_at V p w) = bits_at V p 21.
Proof.
  intros. rewrite <- (Z.shiftr_0_r (bits_at V p w)), land_shiftr_bits by lia. by rewrite Z.add_0_r.
Qed.

Lemma shiftr_bits V p w k : 0 <= p -> 0 <= k <= w ->
  Z.shiftr (bits_at V p w) k = bits_at V (p + k) (w - k).
Proof.
  intros. rewrite Z.shiftr_div_pow2, <- (bits_at_bits V p w k (w - k)) by lia.
  unfold bits_at at 2. rewrite (Z.mod_small (_ / 2 ^ k)); [done|]. pose proof (bits_at_range V p w ltac:(lia)).
  split; [apply Z.div_pos; lia|]. apply Z.div_lt_upper_bound; [lia|]. rewrite <- Z.pow_add_r by lia.
  replace (k + (w - k)) with w by lia. lia.
Qed.

Lemma bits_iv V p w : 0 <= w -> in_iv (bits_at V p w) (0, 2 ^ w - 1).
Proof. intros Hw. pose proof (bits_at_range V p w Hw). unfold in_iv. cbn [fst snd]. lia. Qed.

Definition limbs_ivs : list iv := repeat full_iv 11 ++ [(0, 2 ^ 25 - 1)].
Definition wide_ivs : list iv := repeat full_iv 23 ++ [(0, 2 ^ 29 - 1)].

Lemma load_limbs_spec a : array 32 a -> in_ivs (load_limbs a) limbs_ivs /\ sval (load_limbs a) = le_val a.
Proof.
  intros [Hl Ha]. unfold load_limbs. rewrite <- (drop_0 a) at 1 13.
  rewrite !load3_at, !load4_at by done. set (V := le_val a).
  rewrite !land_shiftr_bits, !land_bits, shiftr_bits by lia. norm_bits. split.
  { repeat constructor; apply bits_iv; lia. }
  rewrite <- (bits_at_small V 256) at 13.
  2:{ pose proof (le_val_range a Ha) as R. unfold zlen in R. rewrite Hl in R. exact R. }
  change 256 with (21 + (21 + (21 + (21 + (21 + (21 + (21 + (21 + (21 + (21 + (21 + 25))))))))))).
  rewrite !bits_at_split by lia. norm_bits. cbn [sval]. ring.
Qed.

Lemma load_wide_spec s : array 64 s -> in_ivs (load_wide s) wide_ivs /\ sval (load_wide s) = le_val s.
Proof.
  intros [Hl Hs]. unfold load_wide. rewrite <- (drop_0 s) at 1 25.
  rewrite !load3_at, !load4_at by done. set (V := le_val s).
  rewrite !land_shiftr_bits, !land_bits, shiftr_bits by lia. norm_bits. split.
  { repeat constructor; apply bits_iv; lia. }
  rewrite <- (bits_at_small V 512) at 25.
  2:{ pose proof (le_val_range s Hs) as R. unfold zlen in R. rewrite Hl in R. exact R. }
  change 512 with (21 + (21 + (21 + (21 + (21 + (21 + (21 + (21 + (21 + (21 + (21 + (21 +
    (21 + (21 + (21 + (21 + (21 + (21 + (21 + (21 + (21 + (21 + (21 + 29))))))))))))))))))))))).
  rewrite !bits_at_split by lia. norm_bits. cbn [sval]. ring.
Qed.

(** [ScReduce] reduces 64 bytes modulo [order]. *)
Lemma ScReduce_val s : array 64 s -> ScReduce s = le_bytes 32 (le_val s mod order).
Proof.
  intros Hs. destruct (load_wide_spec s Hs) as [H V]. unfold ScReduce.
  rewrite (finish_limbs_spec eliminate_high _ _ H), V; [done|]. vm_compute. reflexivity.
Qed.

(** ** Products *)

Fixpoint dot (a b : list Z) (k : nat) (l : list nat) : Z :=
  match l with
  | [] => 0
  | i :: l' => nth i a 0 * nth (k - i) b 0 + dot a b k l'
  end.

Definition small_limbs (s : list Z) : Prop := forall i, 0 <= nth i s 0 <= 2 ^ 25.

Lemma product_fold a b k l : small_limbs a -> small_limbs b -> forall c N, 0 <= c <= N ->
  N + 2 ^ 50 * Z.of_nat (length l) < 2 ^ 63 ->
  fold_left (fun acc i => s64 (acc + s64 (nth i a 0 * nth (k - i) b 0))) l c = c + dot a b k l /\
  0 <= c + dot a b k l <= N + 2 ^ 50 * Z.of_nat (length l).
Proof.
  intros Ha Hb. induction l as [|i l IH]; intros c N Hc HN; cbn [fold_left dot length] in *; [lia|].
  pose proof (Ha i). pose proof (Hb (k - i)%nat).
  assert (0 <= nth i a 0 * nth (k - i) b 0 <= 2 ^ 50) as Hp by nia.
  rewrite (s64_id (_ * _)), s64_id by lia.
  destruct (IH (c + nth i a 0 * nth (k - i) b 0) (N + 2 ^ 50)) as [E R]; lia.
Qed.

Lemma small_limbs_ivs s : in_ivs s limbs_ivs -> small_limbs s.
Proof.
  intros H i. pose proof (in_ivs_nth s _ i H) as Hi.
  assert (Forall (fun b : iv => 0 <= b.1 /\ b.2 <= 2 ^ 25) (limbs_ivs)) as Hf by (repeat constructor; done).
  destruct (nth_in_or_default i limbs_ivs (0, 0)) as [Hin|E].
  - rewrite Forall_forall in Hf. apply list_elem_of_In, Hf in Hin. unfold in_iv in Hi. lia.
  - rewrite E in Hi. unfold in_iv in Hi. cbn in Hi. lia.
Qed.

Lemma product_limb_spec a b c k : small_limbs a -> small_limbs b -> small_limbs c ->
  product_limb a b c k = nth k c 0 + dot a b k (seq (k - 11) (S (min k 11) - (k - 11))) /\
  in_iv (product_limb a b c k) (0, 2 ^ 54).
Proof.
  intros Ha Hb Hc. unfold product_limb.
  destruct (product_fold a b k (seq (k - 11) (S (min k 11) - (k - 11))) Ha Hb (nth k c 0) (2 ^ 25) (Hc k))
    as [-> R]; rewrite ?length_seq in *; [lia|]. split; [done|]. unfold in_iv. cbn [fst snd]. lia.
Qed.

Definition product_ivs : list iv := repeat (0, 2 ^ 54) 23 ++ [(0, 0)].

Lemma product_limbs_ivs a b c : small_limbs a -> small_limbs b -> small_limbs c ->
  in_ivs (product_limbs a b c) product_ivs.
Proof.
  intros Ha Hb Hc. apply Forall2_app; [|by repeat constructor].
  replace (repeat (0, 2 ^ 54) 23) with (map (fun _ : nat => (0, 2 ^ 54)) (seq 0 23)) by reflexivity.
  induction (seq 0 23) as [|k l IH]; constructor; [|done]. by apply product_limb_spec.
Qed.

Lemma product_limbs_val a b c : in_ivs a limbs_ivs -> in_ivs b limbs_ivs -> in_ivs c limbs_ivs ->
  sval (product_limbs a b c) = sval a * sval b + sval c.
Proof.
  intros Ha Hb Hc. unfold product_limbs.
  rewrite (map_ext _ (fun k => nth k c 0 + dot a b k (seq (k - 11) (S (min k 11) - (k - 11)))))
    by (intros k; apply product_limb_spec; by apply small_limbs_ivs).
  apply Forall2_length in Ha, Hb, Hc.
  destruct a as [|a0 [|a1 [|a2 [|a3 [|a4 [|a5 [|a6 [|a7 [|a8 [|a9 [|a10 [|a11 [|]]]]]]]]]]]]];
    try discriminate Ha.
  destruct b as [|b0 [|b1 [|b2 [|b3 [|b4 [|b5 [|b6 [|b7 [|b8 [|b9 [|b10 [|b11 [|]]]]]]]]]]]]];
    try discriminate Hb.
  destruct c as [|c0 [|c1 [|c2 [|c3 [|c4 [|c5 [|c6 [|c7 [|c8 [|c9 [|c10 [|c11 [|]]]]]]]]]]]]];
    try discriminate Hc.
  clear. cbn [map seq Nat.sub Nat.min dot nth app sval]. ring.
Qed.

Lemma product_check : iv_run ((product_carries ++ eliminate_high) ++ reduce_low) product_ivs = Some low_ivs.
Proof. vm_compute. reflexivity. Qed.

(** [ScMulAdd] computes [a b + c] modulo [order]. *)
Lemma ScMulAdd_val a b c : array 32 a -> array 32 b -> array 32 c ->
  ScMulAdd a b c = le_bytes 32 ((le_val a * le_val b + le_val c) mod order).
Proof.
  intros Ha Hb Hc. destruct (load_limbs_spec a Ha) as [Ia <-].
  destruct (load_limbs_spec b Hb) as [Ib <-]. destruct (load_limbs_spec c Hc) as [Ic <-].
  unfold ScMulAdd. cbv zeta. rewrite <- product_limbs_val by done.
  rewrite <- sc_run_app. apply (finish_limbs_spec _ _ product_ivs); [|exact product_check].
  apply product_limbs_ivs; by apply small_limbs_ivs.
Qed.
