(* ===== verification/EdImpl.v ===== *)
(** * The curve arithmetic as its clients see it

    What src/tendermint/ed25519/ed25519.go relies on beyond the theorems of Ge,
    GeBytes, GeBase, GeDouble and Sc: the order of the base point, the negation
    [Verify] does in place, and the points that 32 bytes stand for. *)

From Stdlib Require Import Zmod Zdivisibility Field.
From S2P Require Import Prelude PrimeCert EdCurve Field25519 LittleEndian Fe FeBytes Ge GeBytes EdTables EdTablesOk GeBase Sc.

Local Open Scope Zmod_scope.
Add Field F_field_im : (Zmod.field_theory fe_p fe_p_prime).

(** ** The order of the base point *)

(** The code's own product of [order] and [B] is the neutral element. *)
Lemma order_check :
  let h := GeScalarMultBase (le_bytes 32 order) in
  zero_p (fe_val (eX h)) && zero_p (fe_val (eY h) - fe_val (eZ h)) = true.
Proof. vm_compute. reflexivity. Qed.

Lemma order_rep : ext_rep (smul order B25519) (GeScalarMultBase (le_bytes 32 order)).
Proof.
  assert (0 <= order < 256 ^ Z.of_nat 32)%Z as R by (split; by vm_compute).
  pose proof (GeScalarMultBase_rep (le_bytes 32 order) (le_bytes_array 32 order)) as H.
  rewrite (le_val_bytes 32 order R) in H. apply H. by vm_compute.
Qed.

Lemma zero_point (P : point25519) r : ext_rep P r ->
  zero_p (fe_val (eX r)) && zero_p (fe_val (eY r) - fe_val (eZ r)) = true -> P = cg_zero.
Proof.
  intros (_ & _ & _ & _ & NZ & EX & EY & _) [HX HY]%andb_true_iff.
  apply zero_p_spec in HX, HY. rewrite toF_sub in HY. apply sub_0 in HY.
  change (feF (eX r) = 0) in HX. change (feF (eY r) = feF (eZ r)) in HY.
  rewrite EX in HX. rewrite EY in HY. apply F_mul_0 in HX as [HX|]; [|done].
  apply point_eq; [exact HX|]. transitivity (feF (eZ r) / feF (eZ r)); [rewrite <- HY at 1|cbn]; by field.
Qed.

Lemma B25519_order : smul order B25519 = cg_zero.
Proof. exact (zero_point _ _ order_rep order_check). Qed.

(** ** The order is prime *)

Lemma prime_1257559732178653 : Z.prime 1257559732178653.
Proof.
  prime_cert [1224481; 531581].
  - prime_cert [2551]. prime_leaf 51%nat.
  - prime_cert [3797]. prime_leaf 62%nat.
Qed.

Lemma prime_172054593956031949258510691 : Z.prime 172054593956031949258510691.
Proof.
  prime_cert [4434155615661930479]. prime_cert [1257559732178653]. apply prime_1257559732178653.
Qed.

Lemma order_prime : Z.prime order.
Proof.
  assert (order = 7237005577332262213973186563042994240857116359379907606001950938285454250989)%Z
    as -> by reflexivity.
  prime_cert [276602624281642239937218680557139826668747].
  prime_cert [19757330305831588566944191468367130476339].
  prime_cert [172054593956031949258510691]. apply prime_172054593956031949258510691.
Qed.

Lemma B25519_nz : B25519 <> cg_zero.
Proof.
  intros E. apply (f_equal (fun P : point25519 => y_of P)) in E. revert E. change (toF By_value <> toF 1).
  apply toF_check_neq. vm_compute. reflexivity.
Qed.

(** Only the multiples of [order] annihilate the base point. *)
Lemma smul_B25519_zero a : smul a B25519 = cg_zero -> (order | a).
Proof.
  intros H. destruct (decide (order | a)) as [?|Hd]; [done|]. exfalso. apply B25519_nz.
  apply Z.coprime_prime_l, Z.Bezout_coprime in Hd as (u & v & E); [|exact order_prime].
  rewrite <- (smul_1 B25519), <- E, smul_add, <- !smul_smul.
  by rewrite H, B25519_order, !smul_zero, cg_zero_l.
Qed.

(** ** Negation in place *)

(** [FeNeg(&A.X, &A.X); FeNeg(&A.T, &A.T)]. *)
Definition neg_XT (A : ExtendedGroupElement) : ExtendedGroupElement :=
  Ext (FeNeg (eX A)) (eY A) (eZ A) (FeNeg (eT A)).

Lemma neg_XT_rep P r : ext_rep P r -> ext_rep (cg_neg P) (neg_XT r).
Proof.
  intros (BX & BY & BZ & BT & NZ & EX & EY & ET).
  destruct (FeNeg_spec _ _ BX eq_refl) as [BX' EX']. destruct (FeNeg_spec _ _ BT eq_refl) as [BT' ET'].
  unfold neg_XT, ext_rep. cbn [eX eY eZ eT]. rewrite EX', EX, EY, ET', ET.
  split_and!; [done..| | |]; cbn; ring.
Qed.

(** ** Decoding *)

(** The point 32 bytes stand for: [y] in the low 255 bits, reduced, and the sign of [x] on top,
    which is ignored when [x = 0]. *)
Definition decodes_point (s : list Z) (P : point25519) : Prop :=
  y_of P = toF (bits_at (le_val s) 0 255) /\
  (x_of P <> 0 -> parity (x_of P) = Z.shiftr (nth 31 s 0%Z) 7).

Lemma FromBytes_decodes_point s : array 32 s ->
  match Ext_FromBytes s with
  | Some r => exists P, ext_rep P r /\ decodes_point s P
  | None => forall P, ~ decodes_point s P
  end.
Proof.
  intros Hs. pose proof (Ext_FromBytes_spec s Hs) as H. generalize dependent (Ext_FromBytes s).
  intros [r|] H; [done|]. intros P [HP _]. by destruct (H P).
Qed.

Lemma decodes_point_bytes P : decodes_point (point_bytes P) P.
Proof. destruct (point_bytes_bits P) as [Ey Eb]. split; [done|]. by intros _. Qed.

Lemma decodes_point_inj s P Q : decodes_point s P -> decodes_point s Q -> P = Q.
Proof.
  intros [YP SP] [YQ SQ]. destruct (decide (x_of P = 0)) as [Z|Z].
  - apply point_by_sign; [by rewrite YP, YQ|]. by intros NZ.
  - symmetry. apply point_by_sign; [by rewrite YP, YQ|]. intros NZ. by rewrite SQ, SP.
Qed.
