(* ===== verification/Sha2.v ===== *)
(** * SHA-512 and SHA-256

    The hash of Go's crypto/sha512, which src/tendermint/ed25519/ed25519.go uses:
    [New], a sequence of [Write] and [Sum] give the digest of the concatenated
    bytes.  Words are 64-bit numbers.  SHA-256, which go-amino uses, is at the end. *)
From S2P Require Import Prelude GoStrings.
Local Open Scope Z_scope.

(** ** The compression function *)

Definition rotr (x n : Z) : Z := Z.lor (Z.shiftr x n) (u64 (Z.shiftl x (64 - n))).

Definition Ch (x y z : Z) : Z := Z.lxor (Z.land x y) (Z.land (2 ^ 64 - 1 - x) z).
Definition Maj (x y z : Z) : Z := Z.lxor (Z.lxor (Z.land x y) (Z.land x z)) (Z.land y z).
Definition Sigma0 (x : Z) : Z := Z.lxor (Z.lxor (rotr x 28) (rotr x 34)) (rotr x 39).
Definition Sigma1 (x : Z) : Z := Z.lxor (Z.lxor (rotr x 14) (rotr x 18)) (rotr x 41).
Definition sigma0 (x : Z) : Z := Z.lxor (Z.lxor (rotr x 1) (rotr x 8)) (Z.shiftr x 7).
Definition sigma1 (x : Z) : Z := Z.lxor (Z.lxor (rotr x 19) (rotr x 61)) (Z.shiftr x 6).

(** The cube roots of the first eighty primes. *)
Definition sha512_K : list Z :=
  [0x428a2f98d728ae22; 0x7137449123ef65cd; 0xb5c0fbcfec4d3b2f; 0xe9b5dba58189dbbc;
   0x3956c25bf348b538; 0x59f111f1b605d019; 0x923f82a4af194f9b; 0xab1c5ed5da6d8118;
   0xd807aa98a3030242; 0x12835b0145706fbe; 0x243185be4ee4b28c; 0x550c7dc3d5ffb4e2;
   0x72be5d74f27b896f; 0x80deb1fe3b1696b1; 0x9bdc06a725c71235; 0xc19bf174cf692694;
   0xe49b69c19ef14ad2; 0xefbe4786384f25e3; 0x0fc19dc68b8cd5b5; 0x240ca1cc77ac9c65;
   0x2de92c6f592b0275; 0x4a7484aa6ea6e483; 0x5cb0a9dcbd41fbd4; 0x76f988da831153b5;
   0x983e5152ee66dfab; 0xa831c66d2db43210; 0xb00327c898fb213f; 0xbf597fc7beef0ee4;
   0xc6e00bf33da88fc2; 0xd5a79147930aa725; 0x06ca6351e003826f; 0x142929670a0e6e70;
   0x27b70a8546d22ffc; 0x2e1b21385c26c926; 0x4d2c6dfc5ac42aed; 0x53380d139d95b3df;
   0x650a73548baf63de; 0x766a0abb3c77b2a8; 0x81c2c92e47edaee6; 0x92722c851482353b;
   0xa2bfe8a14cf10364; 0xa81a664bbc423001; 0xc24b8b70d0f89791; 0xc76c51a30654be30;
   0xd192e819d6ef5218; 0xd69906245565a910; 0xf40e35855771202a; 0x106aa07032bbd1b8;
   0x19a4c116b8d2d0c8; 0x1e376c085141ab53; 0x2748774cdf8eeb99; 0x34b0bcb5e19b48a8;
   0x391c0cb3c5c95a63; 0x4ed8aa4ae3418acb; 0x5b9cca4f7763e373; 0x682e6ff3d6b2b8a3;
   0x748f82ee5defb2fc; 0x78a5636f43172f60; 0x84c87814a1f0ab72; 0x8cc702081a6439ec;
   0x90befffa23631e28; 0xa4506cebde82bde9; 0xbef9a3f7b2c67915; 0xc67178f2e372532b;
   0xca273eceea26619c; 0xd186b8c721c0c207; 0xeada7dd6cde0eb1e; 0xf57d4f7fee6ed178;
   0x06f067aa72176fba; 0x0a637dc5a2c898a6; 0x113f9804bef90dae; 0x1b710b35131c471b;
   0x28db77f523047d84; 0x32caab7b40c72493; 0x3c9ebe0a15c9bebc; 0x431d67c49c100d4c;
   0x4cc5d4becb3e42b6; 0x597f299cfc657e2a; 0x5fcb6fab3ad6faec; 0x6c44198c4a475817].

(** The square roots of the first eight primes. *)
Definition sha512_init : list Z :=
  [0x6a09e667f3bcc908; 0xbb67ae8584caa73b; 0x3c6ef372fe94f82b; 0xa54ff53a5f1d36f1;
   0x510e527fade682d1; 0x9b05688c2b3e6c1f; 0x1f83d9abfb41bd6b; 0x5be0cd19137e2179].

(** [n] more words of the schedule; [w] holds the words so far, the last one first. *)
Fixpoint schedule (n : nat) (w : list Z) : list Z :=
  match n with
  | O => reverse w
  | S n' =>
      schedule n' (u64 (sigma1 (nth 1 w 0) + nth 6 w 0 + sigma0 (nth 14 w 0) + nth 15 w 0) :: w)
  end.

Definition sha512_round (s : list Z) (kw : Z * Z) : list Z :=
  match s with
  | [a; b; c; d; e; f; g; h] =>
      let t1 := h + Sigma1 e + Ch e f g + kw.1 + kw.2 in
      let t2 := Sigma0 a + Maj a b c in
      [u64 (t1 + t2); a; b; c; u64 (d + t1); e; f; g]
  | _ => s
  end.

Fixpoint words (n : nat) (b : list Z) : list Z :=
  match n with
  | O => []
  | S n' => be_val (take 8 b) :: words n' (drop 8 b)
  end.

Definition sha512_block (s : list Z) (block : list Z) : list Z :=
  let w := schedule 64 (reverse (words 16 block)) in
  zip_with (fun x y => u64 (x + y)) s (fold_left sha512_round (zip sha512_K w) s).

Fixpoint sha512_blocks (n : nat) (s : list Z) (m : list Z) : list Z :=
  match n with
  | O => s
  | S n' => sha512_blocks n' (sha512_block s (take 128 m)) (drop 128 m)
  end.

(** A one bit, zeros, and the length in bits: a multiple of 128 bytes. *)
Definition sha512_pad (m : list Z) : list Z :=
  m ++ [128] ++ replicate (Z.to_nat ((111 - zlen m) mod 128)) 0 ++ be_bytes 16 (8 * zlen m).

Definition sha512 (m : list Z) : list Z :=
  let p := sha512_pad m in
  concat (map (be_bytes 8) (sha512_blocks (length p / 128) sha512_init p)).

(** ** The digest has 64 bytes *)

Lemma sha512_round_length s kw : length (sha512_round s kw) = length s.
Proof. by destruct s as [|? [|? [|? [|? [|? [|? [|? [|? [|]]]]]]]]]. Qed.

Lemma sha512_rounds_length l : forall s, length (fold_left sha512_round l s) = length s.
Proof. induction l as [|kw l IH]; intros s; [done|]. cbn [fold_left]. by rewrite IH, sha512_round_length. Qed.

Lemma sha512_blocks_length n : forall s m, length (sha512_blocks n s m) = length s.
Proof.
  induction n as [|n IH]; intros s m; [done|]. cbn [sha512_blocks]. rewrite IH. unfold sha512_block.
  rewrite length_zip_with, sha512_rounds_length. lia.
Qed.

Lemma concat_be_bytes l : length (concat (map (be_bytes 8) l)) = (8 * length l)%nat /\
  bytes_ok (concat (map (be_bytes 8) l)).
Proof.
  induction l as [|x l [IHl IHb]]; [by split; [|constructor]|]. cbn [map concat length].
  rewrite length_app, be_bytes_length, IHl. split; [lia|]. apply bytes_ok_app. split; [apply be_bytes_ok|done].
Qed.

Lemma sha512_size m : length (sha512 m) = 64%nat /\ bytes_ok (sha512 m).
Proof.
  unfold sha512. cbv zeta. destruct (concat_be_bytes (sha512_blocks (length (sha512_pad m) / 128) sha512_init
    (sha512_pad m))) as [-> H]. by rewrite sha512_blocks_length.
Qed.

(** Padding gives whole blocks. *)
Lemma sha512_pad_blocks m : (Z.of_nat (length (sha512_pad m))) mod 128 = 0.
Proof.
  unfold sha512_pad. rewrite !length_app, length_replicate, be_bytes_length. cbn [length].
  pose proof (Z.mod_pos_bound (111 - zlen m) 128). pose proof (Z.div_mod (111 - zlen m) 128). unfold zlen in *.
  rewrite !Nat2Z.inj_add, Z2Nat.id by lia.
  replace (_ + _) with ((1 - (111 - Z.of_nat (length m)) / 128) * 128) by lia. by apply Z.mod_mul.
Qed.

(** ** The standard's examples *)

Lemma sha512_empty : sha512 [] =
  [207; 131; 225; 53; 126; 239; 184; 189; 241; 84; 40; 80; 214; 109; 128; 7;
   214; 32; 228; 5; 11; 87; 21; 220; 131; 244; 169; 33; 211; 108; 233; 206;
   71; 208; 209; 60; 93; 133; 242; 176; 255; 131; 24; 210; 135; 126; 236; 47;
   99; 185; 49; 189; 71; 65; 122; 129; 165; 56; 50; 122; 249; 39; 218; 62].
Proof. vm_compute. reflexivity. Qed.

Lemma sha512_abc : sha512 [97; 98; 99] =
  [221; 175; 53; 161; 147; 97; 122; 186; 204; 65; 115; 73; 174; 32; 65; 49;
   18; 230; 250; 78; 137; 169; 126; 162; 10; 158; 238; 230; 75; 85; 211; 154;
   33; 146; 153; 42; 39; 79; 193; 168; 54; 186; 60; 35; 163; 254; 235; 189;
   69; 77; 68; 35; 100; 60; 232; 14; 42; 154; 201; 79; 165; 76; 164; 159].
Proof. vm_compute. reflexivity. Qed.

(** ** SHA-256

    The hash of Go's crypto/sha256, which src/tendermint/go-amino/codec.go uses to
    name registered types: [New], [Write] and [Sum] give the digest of the bytes
    written.  Words are 32-bit numbers. *)

Definition rotr32 (x n : Z) : Z := Z.lor (Z.shiftr x n) (u32 (Z.shiftl x (32 - n))).

Definition Ch32 (x y z : Z) : Z := Z.lxor (Z.land x y) (Z.land (2 ^ 32 - 1 - x) z).
Definition BigSigma0 (x : Z) : Z := Z.lxor (Z.lxor (rotr32 x 2) (rotr32 x 13)) (rotr32 x 22).
Definition BigSigma1 (x : Z) : Z := Z.lxor (Z.lxor (rotr32 x 6) (rotr32 x 11)) (rotr32 x 25).
Definition SmallSigma0 (x : Z) : Z := Z.lxor (Z.lxor (rotr32 x 7) (rotr32 x 18)) (Z.shiftr x 3).
Definition SmallSigma1 (x : Z) : Z := Z.lxor (Z.lxor (rotr32 x 17) (rotr32 x 19)) (Z.shiftr x 10).

(** The first 32 bits of the cube roots of the first 64 primes and of the square roots of
    the first eight: the high halves of the constants of SHA-512. *)
Definition sha256_K : list Z := map (fun k => Z.shiftr k 32) (take 64 sha512_K).
Definition sha256_init : list Z := map (fun k => Z.shiftr k 32) sha512_init.

(** [n] more words of the schedule; [w] holds the words so far, the last one first. *)
Fixpoint schedule32 (n : nat) (w : list Z) : list Z :=
  match n with
  | O => reverse w
  | S n' =>
      schedule32 n' (u32 (SmallSigma1 (nth 1 w 0) + nth 6 w 0 + SmallSigma0 (nth 14 w 0) + nth 15 w 0) :: w)
  end.

Definition sha256_round (s : list Z) (kw : Z * Z) : list Z :=
  match s with
  | [a; b; c; d; e; f; g; h] =>
      let t1 := h + BigSigma1 e + Ch32 e f g + kw.1 + kw.2 in
      let t2 := BigSigma0 a + Maj a b c in
      [u32 (t1 + t2); a; b; c; u32 (d + t1); e; f; g]
  | _ => s
  end.

Fixpoint words32 (n : nat) (b : list Z) : list Z :=
  match n with
  | O => []
  | S n' => be_val (take 4 b) :: words32 n' (drop 4 b)
  end.

Definition sha256_block (s : list Z) (block : list Z) : list Z :=
  let w := schedule32 48 (reverse (words32 16 block)) in
  zip_with (fun x y => u32 (x + y)) s (fold_left sha256_round (zip sha256_K w) s).

Fixpoint sha256_blocks (n : nat) (s : list Z) (m : list Z) : list Z :=
  match n with
  | O => s
  | S n' => sha256_blocks n' (sha256_block s (take 64 m)) (drop 64 m)
  end.

(** A one bit, zeros, and the length in bits: a multiple of 64 bytes. *)
Definition sha256_pad (m : list Z) : list Z :=
  m ++ [128] ++ replicate (Z.to_nat ((55 - zlen m) mod 64)) 0 ++ be_bytes 8 (8 * zlen m).

Definition sha256 (m : list Z) : list Z :=
  let p := sha256_pad m in
  concat (map (be_bytes 4) (sha256_blocks (length p / 64) sha256_init p)).

(** ** The digest has 32 bytes *)

Lemma sha256_round_length s kw : length (sha256_round s kw) = length s.
Proof. by destruct s as [|? [|? [|? [|? [|? [|? [|? [|? [|]]]]]]]]]. Qed.

Lemma sha256_rounds_length l : forall s, length (fold_left sha256_round l s) = length s.
Proof. induction l as [|kw l IH]; intros s; [done|]. cbn [fold_left]. by rewrite IH, sha256_round_length. Qed.

Lemma sha256_blocks_length n : forall s m, length (sha256_blocks n s m) = length s.
Proof.
  induction n as [|n IH]; intros s m; [done|]. cbn [sha256_blocks]. rewrite IH. unfold sha256_block.
  rewrite length_zip_with, sha256_rounds_length. lia.
Qed.

Lemma concat_be_bytes4 l : length (concat (map (be_bytes 4) l)) = (4 * length l)%nat /\
  bytes_ok (concat (map (be_bytes 4) l)).
Proof.
  induction l as [|x l [IHl IHb]]; [by split; [|constructor]|]. cbn [map concat length].
  rewrite length_app, be_bytes_length, IHl. split; [lia|]. apply bytes_ok_app. split; [apply be_bytes_ok|done].
Qed.

Lemma sha256_size m : length (sha256 m) = 32%nat /\ bytes_ok (sha256 m).
Proof.
  unfold sha256. cbv zeta. destruct (concat_be_bytes4 (sha256_blocks (length (sha256_pad m) / 64) sha256_init
    (sha256_pad m))) as [-> H]. by rewrite sha256_blocks_length.
Qed.

(** The test vectors of FIPS 180-4 for one and for two blocks. *)
Example sha256_abc : be_val (sha256 [97; 98; 99]) =
  0xba7816bf8f01cfea414140de5dae2223b00361a396177a9cb410ff61f20015ad.
Proof. vm_compute. reflexivity. Qed.

Example sha256_two_blocks : be_val (sha256 (bs "abcdbcdecdefdefgefghfghighijhijkijkljklmklmnlmnomnopnopq"%string)) =
  0x248d6a61d20638b8e5c026930c3e6039a33ce45964ff2167f6ecedd419db06c1.
Proof. vm_compute. reflexivity. Qed.
