(* ===== verification/Ed25519.v ===== *)
(** * Ed25519 signatures (src/tendermint/ed25519/ed25519.go)

    [GenerateKey], [MakePublicKey], [Sign] and [Verify] over an interface to the curve
    arithmetic ([Edwards25519], with what its operations promise as
    [Edwards25519Laws]).  The interface is implemented by the code of
    src/tendermint/ed25519/edwards25519 (Ge, GeBytes, GeBase, GeDouble, Sc), whose
    theorems discharge the laws, so that the properties at the end are about that
    code.  A [[n]byte] array is a list of [n] bytes. *)

From S2P Require Import Prelude EdCurve Field25519 LittleEndian Sha2 Fe FeBytes Ge GeBytes EdTablesOk GeBase GeDouble Sc EdImpl.

(** ** The interface to edwards25519 *)

Class Edwards25519 := {
  ExtendedGroupElement : Type;
  ProjectiveGroupElement : Type;
  GeScalarMultBase : list Z -> ExtendedGroupElement;
  Ext_ToBytes : ExtendedGroupElement -> list Z;
  Ext_FromBytes : list Z -> option ExtendedGroupElement;
  (** [FeNeg] of the coordinates X and T. *)
  Ext_neg_XT : ExtendedGroupElement -> ExtendedGroupElement;
  GeDoubleScalarMultVartime :
    list Z -> ExtendedGroupElement -> list Z -> ProjectiveGroupElement;
  Proj_ToBytes : ProjectiveGroupElement -> list Z;
  ScReduce : list Z -> list Z;
  ScMulAdd : list Z -> list Z -> list Z -> list Z;
}.

(** What the operations promise: the elements stand for points of a group in which [B] has order
    [order], and a point has one encoding, which can be undone. *)
Class Edwards25519Laws (E : Edwards25519) := {
  G : Type;
  G_group : CommGroup G;
  B : G;
  B_order : smul order B = cg_zero;
  ext_point : G -> ExtendedGroupElement -> Prop;
  proj_point : G -> ProjectiveGroupElement -> Prop;
  encode : G -> list Z;
  decodes : list Z -> G -> Prop;
  GeScalarMultBase_point : forall a, array 32 a -> le_val a < 2 ^ 255 ->
    ext_point (smul (le_val a) B) (GeScalarMultBase a);
  neg_point : forall P r, ext_point P r -> ext_point (cg_neg P) (Ext_neg_XT r);
  GeDoubleScalarMultVartime_point : forall P a r b, array 32 a -> array 32 b ->
    le_val a <= 2 ^ 255 -> le_val b <= 2 ^ 255 -> ext_point P r ->
    proj_point (cg_add (smul (le_val a) P) (smul (le_val b) B)) (GeDoubleScalarMultVartime a r b);
  encode_array : forall P, array 32 (encode P);
  Ext_ToBytes_encode : forall P r, ext_point P r -> Ext_ToBytes r = encode P;
  Proj_ToBytes_encode : forall P r, proj_point P r -> Proj_ToBytes r = encode P;
  encode_decodes : forall P, decodes (encode P) P;
  decodes_inj : forall s P Q, decodes s P -> decodes s Q -> P = Q;
  FromBytes_decodes : forall s, array 32 s ->
    match Ext_FromBytes s with
    | Some r => exists P, ext_point P r /\ decodes s P
    | None => forall P, ~ decodes s P
    end;
  ScReduce_reduces : forall s, array 64 s -> ScReduce s = le_bytes 32 (le_val s mod order);
  ScMulAdd_reduces : forall a b c, array 32 a -> array 32 b -> array 32 c ->
    ScMulAdd a b c = le_bytes 32 ((le_val a * le_val b + le_val c) mod order);
}.
#[export] Existing Instance G_group.

(** ** ed25519.go *)

Section ed25519.
Context `{E : Edwards25519}.

(** [digest[0] &= 248; digest[31] &= top; digest[31] |= 64]. *)
Definition clamp (top : Z) (digest : list Z) : list Z :=
  alter (fun x => Z.lor (Z.land x top) 64) 31%nat (alter (fun x => Z.land x 248) 0%nat digest).

(** The public key and the private key with its second half overwritten. *)
Definition MakePublicKey (privateKey : list Z) : list Z * list Z :=
  let digest := clamp 127 (sha512 (take 32 privateKey)) in
  let hBytes := take 32 digest in
  let A := GeScalarMultBase hBytes in
  let publicKey := Ext_ToBytes A in
  (publicKey, take 32 privateKey ++ publicKey).

(** The bytes [rand] has left; an error when there are fewer than 32 of them. *)
Definition GenerateKey (rand : list Z) : option (list Z * list Z) :=
  if (length rand <? 32)%nat then None
  else Some (MakePublicKey (take 32 rand ++ replicate 32 0)).

Definition Sign (privateKey message : list Z) : list Z :=
  let digest1 := sha512 (take 32 privateKey) in
  let expandedSecretKey := clamp 63 (take 32 digest1) in
  let messageDigest := sha512 (drop 32 digest1 ++ message) in
  let messageDigestReduced := ScReduce messageDigest in
  let R := GeScalarMultBase messageDigestReduced in
  let encodedR := Ext_ToBytes R in
  let hramDigest := sha512 (encodedR ++ drop 32 privateKey ++ message) in
  let hramDigestReduced := ScReduce hramDigest in
  let s := ScMulAdd hramDigestReduced expandedSecretKey messageDigestReduced in
  encodedR ++ s.

Definition Verify (publicKey message sig : list Z) : bool :=
  if negb (Z.land (nth 63 sig 0) 224 =? 0) then false
  else
    match Ext_FromBytes publicKey with
    | None => false
    | Some A =>
        let A := Ext_neg_XT A in
        let digest := sha512 (take 32 sig ++ publicKey ++ message) in
        let hReduced := ScReduce digest in
        let b := drop 32 sig in
        let R := GeDoubleScalarMultVartime hReduced A b in
        let checkR := Proj_ToBytes R in
        bool_decide (take 32 sig = checkR)
    end.

(** ** Lemmas *)

(** The last byte of an array. *)
Lemma last_byte a : array 32 a -> nth 31 a 0 = le_val a / 2 ^ 248 /\ 0 <= le_val a < 2 ^ 256.
Proof.
  intros [Hl Ha]. pose proof (le_val_range a Ha) as R. unfold zlen in R. rewrite Hl in R.
  change (256 ^ Z.of_nat 32) with (2 ^ 256) in R. split; [|done].
  rewrite (le_val_nth 31 a Ha). change (256 ^ Z.of_nat 31) with (2 ^ 248).
  apply Z.mod_small. split; [apply Z.div_pos; lia|]. apply Z.div_lt_upper_bound; lia.
Qed.

Lemma last_byte_lt a k : array 32 a -> nth 31 a 0 < k <-> le_val a < 2 ^ 248 * k.
Proof.
  intros Ha. destruct (last_byte a Ha) as [-> R]. split; intros H.
  - pose proof (Z.div_mod (le_val a) (2 ^ 248)). pose proof (Z.mod_pos_bound (le_val a) (2 ^ 248)). lia.
  - apply Z.div_lt_upper_bound; lia.
Qed.

(** The two ways the code masks the top byte agree, and clear its top bit. *)
Lemma top_masks x : byte_ok x ->
  Z.lor (Z.land x 127) 64 = Z.lor (Z.land x 63) 64 /\
  0 <= Z.lor (Z.land x 63) 64 <= 127 /\ 0 <= Z.land x 248 < 256.
Proof.
  intros H. unfold byte_ok in H.
  assert (Forall (fun x => Z.lor (Z.land x 127) 64 = Z.lor (Z.land x 63) 64 /\
    0 <= Z.lor (Z.land x 63) 64 <= 127 /\ 0 <= Z.land x 248 < 256) (seqZ 0 256)) as F.
  { apply (bool_decide_unpack _). vm_compute. exact I. }
  rewrite Forall_forall in F. apply F, elem_of_seqZ. lia.
Qed.

Lemma take_alter {A} (f : A -> A) n i (l : list A) : take n (alter f i l) = alter f i (take n l).
Proof.
  apply list_eq. intros j. destruct (decide (j < n)%nat) as [L|L].
  - rewrite lookup_take_lt by done. destruct (decide (i = j)) as [->|].
    + by rewrite !list_lookup_alter_eq, lookup_take_lt.
    + by rewrite !list_lookup_alter_ne, lookup_take_lt.
  - rewrite !lookup_ge_None_2; [done|rewrite length_alter, length_take; lia|rewrite length_take; lia].
Qed.

Lemma alter_ext_lookup {A} (f g : A -> A) i (l : list A) :
  (forall x, l !! i = Some x -> f x = g x) -> alter f i l = alter g i l.
Proof.
  intros H. apply list_eq. intros j. destruct (decide (i = j)) as [->|].
  - rewrite !list_lookup_alter_eq. destruct (l !! j); cbn; [by rewrite (H _ eq_refl)|done].
  - by rewrite !list_lookup_alter_ne.
Qed.

Lemma clamp_spec d : array 64 d ->
  take 32 (clamp 127 d) = clamp 63 (take 32 d) /\
  array 32 (clamp 63 (take 32 d)) /\ nth 31 (clamp 63 (take 32 d)) 0 <= 127.
Proof.
  intros [Ld Hd]. assert (bytes_ok (alter (fun x => Z.land x 248) 0%nat (take 32 d))) as H1.
  { apply Forall_alter; [by apply Forall_take|]. intros x _ Hx. by apply top_masks in Hx as (_ & _ & ?). }
  assert (forall x, alter (fun x => Z.land x 248) 0%nat (take 32 d) !! 31%nat = Some x -> byte_ok x) as H31.
  { intros x Hx. unfold bytes_ok in H1. rewrite Forall_lookup in H1. eauto. }
  split; [|split; [split|]]; unfold clamp.
  - rewrite !take_alter. apply alter_ext_lookup. intros x Hx. by apply top_masks, H31.
  - rewrite !length_alter, length_take. lia.
  - apply Forall_alter; [done|]. intros x Hx _. apply H31, top_masks in Hx as (_ & ? & _).
    unfold byte_ok. lia.
  - rewrite nth_lookup, list_lookup_alter_eq.
    destruct (alter _ 0%nat (take 32 d) !! 31%nat) as [x|]; cbn; [|lia].
    specialize (H31 x eq_refl). apply top_masks in H31. lia.
Qed.


(** The check of the top bits of a signature. *)
Lemma top_bits x : byte_ok x -> Z.land x 224 = 0 <-> x < 32.
Proof.
  intros H. unfold byte_ok in H.
  assert (Forall (fun x => Z.land x 224 = 0 <-> x < 32) (seqZ 0 256)) as F.
  { apply (bool_decide_unpack _). vm_compute. exact I. }
  rewrite Forall_forall in F. apply F, elem_of_seqZ. lia.
Qed.

Lemma sha512_array m : array 64 (sha512 m).
Proof. apply sha512_size. Qed.

(** ** Signing and verifying *)

Context `{!Edwards25519Laws E}.

(** A private key whose second half is its public key, as the generators of
    go-crypto build it. *)
Definition key_ok (privateKey : list Z) : Prop :=
  length privateKey = 64%nat /\ drop 32 privateKey = (MakePublicKey privateKey).1.

Lemma reduced z : 0 <= z mod order < 2 ^ 253 /\ 0 <= z mod order < 256 ^ Z.of_nat 32.
Proof.
  pose proof (Z.mod_pos_bound z order ltac:(reflexivity)).
  assert (order < 2 ^ 253) by reflexivity. assert (2 ^ 253 < 256 ^ Z.of_nat 32) by reflexivity. lia.
Qed.

Lemma ScReduce_ok s : array 64 s -> array 32 (ScReduce s) /\ le_val (ScReduce s) = le_val s mod order /\
  le_val (ScReduce s) < 2 ^ 255.
Proof.
  intros H. rewrite ScReduce_reduces by done. destruct (reduced (le_val s)).
  split; [apply le_bytes_array|]. rewrite le_val_bytes by done. lia.
Qed.

(** The secret scalar of a key. *)
Definition secret_scalar (privateKey : list Z) : Z :=
  le_val (clamp 63 (take 32 (sha512 (take 32 privateKey)))).

Lemma MakePublicKey_point privateKey :
  (MakePublicKey privateKey).1 = encode (smul (secret_scalar privateKey) B).
Proof.
  unfold MakePublicKey, secret_scalar. cbn [fst].
  destruct (clamp_spec _ (sha512_array (take 32 privateKey))) as (-> & Aa & Ta).
  apply Ext_ToBytes_encode, GeScalarMultBase_point; [done|]. apply (last_byte_lt _ 128); [done|lia].
Qed.

(** What [Verify] checks of the encoding of a point. *)
Lemma Verify_iff publicKey message sig : array 32 publicKey -> array 64 sig ->
  let h := le_val (sha512 (take 32 sig ++ publicKey ++ message)) mod order in
  let s := le_val (drop 32 sig) in
  Verify publicKey message sig = true <->
  s < 2 ^ 253 /\ exists P, decodes publicKey P /\
    take 32 sig = encode (cg_add (smul h (cg_neg P)) (smul s B)).
Proof.
  intros Hpk [Ls Hs]. cbv zeta. unfold Verify.
  assert (array 32 (drop 32 sig)) as Hb by (split; [rewrite length_drop; lia|by apply Forall_drop]).
  assert (nth 63 sig 0 = nth 31 (drop 32 sig) 0) as ->
    by (rewrite !nth_lookup, lookup_drop; done).
  assert (byte_ok (nth 31 (drop 32 sig) 0)) as H31 by (destruct Hb; by apply nth_byte).
  pose proof (top_bits _ H31) as Ht. pose proof (last_byte_lt _ 32 Hb) as Hl.
  change (2 ^ 248 * 32) with (2 ^ 253) in Hl.
  destruct (Z.eqb_spec (Z.land (nth 31 (drop 32 sig) 0) 224) 0) as [E0|E0]; cbn [negb].
  2:{ split; [done|]. intros [? _]. destruct E0. apply Ht, Hl. done. }
  destruct (ScReduce_ok (sha512 (take 32 sig ++ publicKey ++ message)) (sha512_array _)) as (Ah & Eh & Lh).
  assert (le_val (drop 32 sig) < 2 ^ 253) as Hlt by (by apply Hl, Ht).
  pose proof (FromBytes_decodes publicKey Hpk) as HF.
  destruct (Ext_FromBytes publicKey) as [r|].
  2:{ split; [done|]. intros (_ & P & HP & _). by destruct (HF P). }
  destruct HF as (P & HP & HD). rewrite bool_decide_eq_true.
  rewrite (Proj_ToBytes_encode _ _ (GeDoubleScalarMultVartime_point _ _ _ _ Ah Hb ltac:(lia) ltac:(lia)
    (neg_point _ _ HP))), Eh.
  split; [intros EQ; split; [done|]; by exists P|].
  intros (_ & Q & HQ & EQ). by rewrite (decodes_inj _ _ _ HD HQ).
Qed.

(** What [Sign] makes of a key, whatever its second half: [R] is [rB] and [s] is [(ha + r) mod l],
    where [h] hashes [R], the second half and the message. *)
Lemma Sign_shape privateKey message : exists r,
  let encR := encode (smul r B) in
  let h := le_val (sha512 (encR ++ drop 32 privateKey ++ message)) mod order in
  let z := (h * secret_scalar privateKey + r) mod order in
  Sign privateKey message = encR ++ le_bytes 32 z /\ array 64 (Sign privateKey message).
Proof.
  unfold Sign. set (digest1 := sha512 (take 32 privateKey)) in *.
  destruct (clamp_spec digest1 (sha512_array _)) as (_ & Aa & _).
  destruct (ScReduce_ok (sha512 (drop 32 digest1 ++ message)) (sha512_array _)) as (Ar & _ & Tr).
  set (r := ScReduce (sha512 (drop 32 digest1 ++ message))) in *. exists (le_val r). cbv zeta.
  rewrite (Ext_ToBytes_encode _ _ (GeScalarMultBase_point r Ar Tr)).
  set (encR := encode (smul (le_val r) B)). destruct (encode_array (smul (le_val r) B)) as [LR HR].
  fold encR in LR, HR. set (m := sha512 (encR ++ drop 32 privateKey ++ message)).
  destruct (ScReduce_ok m (sha512_array _)) as (Ah & Eh & _).
  rewrite (ScMulAdd_reduces _ _ _ Ah Aa Ar), Eh.
  change (le_val (clamp 63 (take 32 digest1))) with (secret_scalar privateKey). split; [done|].
  split; [rewrite length_app, LR; by destruct (le_bytes_array 32 ((le_val m mod order * secret_scalar privateKey + le_val r) mod order)) as [-> _]|].
  apply bytes_ok_app. split; [done|apply le_bytes_array].
Qed.

(** A signature of a key verifies under its public key [A] when the second half of the key and [A]
    give the same hash, and only then if [B] has order [l] and [l] does not divide the scalar. *)
Lemma Verify_Sign_iff privateKey message :
  let A := (MakePublicKey privateKey).1 in
  let sig := Sign privateKey message in
  let h K := le_val (sha512 (take 32 sig ++ K ++ message)) mod order in
  array 64 sig /\
  (Verify A message sig = true <->
   smul ((h (drop 32 privateKey) - h A) * secret_scalar privateKey) B = cg_zero).
Proof.
  cbv zeta. destruct (Sign_shape privateKey message) as (r & Es & Ha). cbv zeta in Es. split; [done|].
  rewrite MakePublicKey_point. set (a := secret_scalar privateKey) in *.
  rewrite Verify_iff by (done || apply encode_array).
  destruct (encode_array (smul r B)) as [LR HR]. rewrite Es, take_app_length', drop_app_length' by done.
  set (hD := le_val (sha512 (encode (smul r B) ++ drop 32 privateKey ++ message)) mod order) in *.
  set (hA := le_val (sha512 (encode (smul r B) ++ encode (smul a B) ++ message)) mod order).
  pose proof (reduced (hD * a + r)) as [R1 R2]. rewrite le_val_bytes by done.
  assert (forall P, cg_add (smul hA (cg_neg (smul a B))) (smul ((hD * a + r) mod order) B) = P <->
    cg_add (smul ((hD - hA) * a) B) (smul r B) = P) as Eq.
  { intros P. rewrite smul_order by (done || apply B_order). rewrite smul_neg_r, smul_smul, <- smul_neg, <- !smul_add.
    by replace (- (hA * a) + (hD * a + r)) with ((hD - hA) * a + r) by lia. }
  split.
  - intros (_ & P & HP & EP). pose proof (decodes_inj _ _ _ HP (encode_decodes _)) as ->.
    assert (forall P Q, encode P = encode Q -> P = Q) as Hinj.
    { intros P Q H. eapply decodes_inj; [apply encode_decodes|]. rewrite H. apply encode_decodes. }
    apply Hinj, eq_sym, Eq in EP. apply (cg_cancel_l (smul r B)). by rewrite cg_comm, EP, cg_comm, cg_zero_l.
  - intros EZ. split; [lia|]. exists (smul a B). split; [apply encode_decodes|]. f_equal. symmetry. apply Eq. by rewrite EZ, cg_zero_l.
Qed.

Lemma Verify_Sign_ok privateKey message : key_ok privateKey ->
  array 64 (Sign privateKey message) /\
  Verify (drop 32 privateKey) message (Sign privateKey message) = true.
Proof.
  intros [_ Hpk]. destruct (Verify_Sign_iff privateKey message) as [A V]. split; [done|].
  rewrite Hpk. apply V. by rewrite Hpk, Z.sub_diag.
Qed.

(** The key [MakePublicKey] leaves is complete. *)
Lemma MakePublicKey_key_ok secret : length secret = 64%nat ->
  let (publicKey, privateKey) := MakePublicKey secret in
  MakePublicKey privateKey = (publicKey, privateKey) /\ drop 32 privateKey = publicKey /\
  key_ok privateKey.
Proof.
  intros Hl. pose proof (MakePublicKey_point secret) as Hp.
  destruct (MakePublicKey secret) as [publicKey privateKey] eqn:M. cbn [fst] in Hp.
  assert (length (take 32 secret) = 32%nat) as L32 by (rewrite length_take; lia).
  assert (take 32 privateKey = take 32 secret /\ drop 32 privateKey = publicKey) as [T D].
  { unfold MakePublicKey in M. injection M as <- <-.
    by rewrite take_app_length', drop_app_length' by done. }
  assert (MakePublicKey privateKey = (publicKey, privateKey)) as M'.
  { rewrite <- M. unfold MakePublicKey. by rewrite T. }
  split; [done|]. split; [done|]. split; [|by rewrite M'].
  rewrite <- (take_drop 32 privateKey), length_app, T, L32, D, Hp.
  by destruct (encode_array (smul (secret_scalar secret) B)) as [-> _].
Qed.
End ed25519.

(** ** The code of edwards25519 implements the interface *)

#[export] Instance edwards25519 : Edwards25519 := {|
  ExtendedGroupElement := Ge.ExtendedGroupElement;
  ProjectiveGroupElement := Ge.ProjectiveGroupElement;
  GeScalarMultBase := GeBase.GeScalarMultBase;
  Ext_ToBytes := Ge.Ext_ToBytes;
  Ext_FromBytes := Ge.Ext_FromBytes;
  Ext_neg_XT := neg_XT;
  GeDoubleScalarMultVartime := GeDouble.GeDoubleScalarMultVartime;
  Proj_ToBytes := Ge.Proj_ToBytes;
  ScReduce := Sc.ScReduce;
  ScMulAdd := Sc.ScMulAdd;
|}.

#[export] Instance edwards25519_laws : Edwards25519Laws edwards25519 := {|
  G := point25519;
  G_group := group25519;
  B := B25519;
  B_order := B25519_order;
  ext_point := ext_rep;
  proj_point := proj_rep;
  encode := point_bytes;
  decodes := decodes_point;
  GeScalarMultBase_point := GeScalarMultBase_rep;
  neg_point := neg_XT_rep;
  GeDoubleScalarMultVartime_point := GeDoubleScalarMultVartime_rep;
  encode_array P := proj1 (point_bytes_val P);
  Ext_ToBytes_encode := Ext_ToBytes_spec;
  Proj_ToBytes_encode := Proj_ToBytes_spec;
  encode_decodes := decodes_point_bytes;
  decodes_inj := decodes_point_inj;
  FromBytes_decodes := FromBytes_decodes_point;
  ScReduce_reduces := ScReduce_val;
  ScMulAdd_reduces := ScMulAdd_val;
|}.

(** ** Properties *)

(** C8: a signature made with a private key that [MakePublicKey] completed is 64
    bytes long and verifies under the public key, for every message; the
    completed key is one [MakePublicKey] would leave as it is. *)
Theorem Verify_Sign (secret message : list Z) : length secret = 64%nat ->
  let (publicKey, privateKey) := MakePublicKey secret in
  MakePublicKey privateKey = (publicKey, privateKey) /\
  array 64 (Sign privateKey message) /\
  Verify publicKey message (Sign privateKey message) = true.
Proof.
  intros Hl. pose proof (MakePublicKey_key_ok secret Hl) as K.
  destruct (MakePublicKey secret) as [publicKey privateKey]. destruct K as (M & D & K).
  split; [done|]. rewrite <- D at 1. by apply Verify_Sign_ok.
Qed.

Lemma Verify_Sign_witness :
  let (publicKey, privateKey) := MakePublicKey (replicate 64 7) in
  MakePublicKey privateKey = (publicKey, privateKey) /\
  array 64 (Sign privateKey [1; 2; 3]) /\
  Verify publicKey [1; 2; 3] (Sign privateKey [1; 2; 3]) = true.
Proof. apply (Verify_Sign (replicate 64 7) [1; 2; 3]). reflexivity. Defined.
