(* ===== verification/EdSpec.v ===== *)
(** * What the code of edwards25519 computes

    The properties of the field, the group, the table and the scalars, over the lemmas
    of the files before, and the exact condition under which [Verify] of
    src/tendermint/ed25519/ed25519.go accepts a signature. *)

From Stdlib Require Import Zmod.
From S2P Require Import Prelude EdCurve Field25519 LittleEndian Sha2 Fe FeBytes Ge GeBytes EdTables EdTablesOk GeBase GeDouble Sc EdImpl Ed25519.

Local Open Scope Z_scope.

(** C13: multiplication, squaring, doubled squaring and inversion of field elements whose
    limbs stay within the loose bound (1.65 * 2^26 and 1.65 * 2^25 in turn) compute the
    operation modulo 2^255 - 19, and their results are within the tight bound
    (1.01 * 2^25, 1.01 * 2^24), so that sums and differences of two of them are within
    the loose one again: no int64 or int32 of the code overflows. *)
Theorem field_bounds f g : fe_bnd loose f -> fe_bnd loose g ->
  (fe_bnd tight (FeMul f g) /\ feF (FeMul f g) = (feF f * feF g)%Zmod) /\
  (fe_bnd tight (FeSquare f) /\ feF (FeSquare f) = (feF f * feF f)%Zmod) /\
  (fe_bnd tight (FeSquare2 f) /\ feF (FeSquare2 f) = (feF f * feF f + feF f * feF f)%Zmod) /\
  (fe_bnd tight (FeInvert f) /\ feF (FeInvert f) = Zmod.inv (feF f)) /\
  forall x y, fe_bnd tight x -> fe_bnd tight y ->
    (fe_bnd loose (FeAdd x y) /\ feF (FeAdd x y) = (feF x + feF y)%Zmod) /\
    (fe_bnd loose (FeSub x y) /\ feF (FeSub x y) = (feF x - feF y)%Zmod).
Proof.
  intros Hf Hg. split; [by apply FeMul_spec|]. split; [by apply FeSquare_spec|].
  split; [by apply FeSquare2_spec|]. split; [by apply FeInvert_spec|].
  intros x y Hx Hy. destruct (FeAdd_spec _ _ x y Hx Hy eq_refl) as [Ba Ea], (FeSub_spec _ _ x y Hx Hy eq_refl) as [Bs Es].
  split; (split; [|done]); bnd_mono.
Qed.

Lemma field_bounds_witness :
  fe_bnd tight (FeMul d SqrtM1) /\ feF (FeMul d SqrtM1) = (feF d * feF SqrtM1)%Zmod.
Proof.
  refine (proj1 (field_bounds d SqrtM1 _ _)); apply (bool_decide_unpack _); vm_compute; exact I.
Defined.

(** The bytes of a field element are those of its residue, so two elements have the
    same bytes exactly when they are equal modulo 2^255 - 19, and reading the bytes back
    gives the element again. *)
Theorem field_bytes f g : fe_bnd loose f -> fe_bnd loose g ->
  array 32 (FeToBytes f).1 /\ le_val (FeToBytes f).1 = fe_val f mod (2 ^ 255 - 19) /\
  feF (FeFromBytes (FeToBytes f).1) = feF f /\
  ((FeToBytes f).1 = (FeToBytes g).1 <-> feF f = feF g).
Proof.
  intros Hf Hg. pose proof (FeToBytes_spec f Hf) as Sf. pose proof (FeToBytes_spec g Hg) as Sg.
  destruct (FeToBytes f) as [s f'], (FeToBytes g) as [t g']. cbn [fst].
  destruct Sf as (-> & _ & _), Sg as (-> & _ & _). pose proof fe_p_eq as Ep.
  assert (R : forall z, 0 <= z mod fe_p < 2 ^ 255) by (intros z; pose proof (Z.mod_pos_bound z fe_p); lia).
  assert (V : forall z, le_val (le_bytes 32 (z mod fe_p)) = z mod fe_p).
  { intros z. apply le_val_bytes. specialize (R z). change (256 ^ Z.of_nat 32) with (2 ^ 256). lia. }
  split_and!; [apply le_bytes_array|by rewrite V, Ep| |].
  - destruct (FeFromBytes_spec _ (le_bytes_array 32 (fe_val f mod fe_p))) as [_ ->].
    rewrite V, bits_at_small by apply R. apply Zmod.of_Z_inj. apply Z.mod_mod. lia.
  - split; intros H.
    + apply Zmod.of_Z_inj. by rewrite <- V, H, V.
    + apply Zmod.of_Z_inj in H. by rewrite H.
Qed.

Lemma field_bytes_witness : le_val (FeToBytes d2).1 = fe_val d2 mod (2 ^ 255 - 19).
Proof.
  refine (proj1 (proj2 (field_bytes d2 FeOne _ _))); apply (bool_decide_unpack _); vm_compute; exact I.
Defined.

(** Decoding 32 bytes gives a point of the curve with the encoded ordinate (and the
    encoded sign, unless its abscissa is 0), and fails exactly when there is no such
    point; decoding the encoding of a point gives the point. *)
Theorem point_codec s P p : array 32 s -> ext_rep P p ->
  match Ge.Ext_FromBytes s with
  | Some r => exists Q, ext_rep Q r /\ decodes_point s Q
  | None => forall Q, ~ decodes_point s Q
  end /\
  exists r, Ge.Ext_FromBytes (Ge.Ext_ToBytes p) = Some r /\ ext_rep P r.
Proof.
  intros Hs Hp. split; [by apply FromBytes_decodes_point|].
  rewrite (Ext_ToBytes_spec P p Hp). apply FromBytes_point_bytes.
Qed.

Lemma point_codec_witness : exists s, array 32 s /\
  match Ge.Ext_FromBytes s with
  | Some r => exists Q, ext_rep Q r /\ decodes_point s Q
  | None => forall Q, ~ decodes_point s Q
  end /\
  exists r, Ge.Ext_FromBytes (Ge.Ext_ToBytes Ext_Zero) = Some r /\ ext_rep cg_zero r.
Proof.
  assert (H : array 32 (replicate 32 0)) by (apply (bool_decide_unpack _); vm_compute; exact I).
  exists (replicate 32 0). split; [exact H|]. revert H. generalize (replicate 32 0). intros s H.
  exact (point_codec s cg_zero Ext_Zero H Ext_Zero_spec).
Defined.

(** The addition, subtraction and doubling formulas on the five representations of
    points compute the group law of the curve, for all pairs of points (the law is
    complete), and keep the bounds of the limbs. *)
Theorem group_operations P Q p q c t : ext_rep P p -> proj_rep P q -> cached_rep Q c -> pre_rep Q t ->
  comp_rep (cg_add P Q) (geAdd p c) /\ comp_rep (cg_add P (cg_neg Q)) (geSub p c) /\
  comp_rep (cg_add P Q) (geMixedAdd p t) /\ comp_rep (cg_add P (cg_neg Q)) (geMixedSub p t) /\
  comp_rep (cg_add P P) (Ext_Double p) /\ comp_rep (cg_add P P) (Proj_Double q) /\
  cached_rep P (Ext_ToCached p) /\ proj_rep P (Ext_ToProjective p) /\
  forall R r, comp_rep R r -> proj_rep R (Comp_ToProjective r) /\ ext_rep R (Comp_ToExtended r).
Proof.
  intros. split_and!; eauto using geAdd_spec, geSub_spec, geMixedAdd_spec, geMixedSub_spec, Ext_Double_spec,
    Proj_Double_spec, Ext_ToCached_spec, Ext_ToProjective_spec.
  intros R r Hr. split; eauto using Comp_ToProjective_spec, Comp_ToExtended_spec.
Qed.

Lemma group_operations_witness : comp_rep (cg_add cg_zero cg_zero) (geAdd Ext_Zero (Ext_ToCached Ext_Zero)).
Proof.
  exact (proj1 (group_operations cg_zero cg_zero Ext_Zero Proj_Zero (Ext_ToCached Ext_Zero) Pre_Zero
    Ext_Zero_spec Proj_Zero_spec (Ext_ToCached_spec _ _ Ext_Zero_spec) Pre_Zero_spec)).
Defined.

(** The two tables of const.go hold what their comments say: entry [j] of row [i] of
    [base] is [(j + 1) 256^i B], and entry [j] of [bi] is [(2 j + 1) B], for the base
    point [B] with ordinate 4/5 and even abscissa; [base] has 32 rows of 8 entries and
    [bi] has 8. *)
Theorem tables_correct :
  (forall i j, (i < 32)%nat -> (j < 8)%nat -> exists row q, base !! i = Some row /\ row !! j = Some q /\
     pre_rep (smul ((Z.of_nat j + 1) * 256 ^ Z.of_nat i) B25519) q) /\
  (forall j, (j < 8)%nat -> exists q, bi !! j = Some q /\ pre_rep (smul (2 * Z.of_nat j + 1) B25519) q) /\
  (py fe_p dF B25519 * toF 5 = toF 4)%Zmod /\ parity (px fe_p dF B25519) = 0.
Proof.
  split; [|split; [|exact B25519_y]].
  - intros i j Hi Hj. destruct base_shape as [R L].
    destruct (lookup_lt_is_Some_2 base i ltac:(by rewrite L)) as [row Er].
    rewrite forallb_forall in R. pose proof (R row (proj1 (list_elem_of_In _ _) (list_elem_of_lookup_2 _ _ _ Er))) as Lr.
    apply Nat.eqb_eq in Lr.
    destruct (lookup_lt_is_Some_2 row j ltac:(by rewrite Lr)) as [q Eq].
    exists row, q. split; [done|]. split; [done|]. by apply (base_spec i j row q).
  - intros j Hj. destruct (lookup_lt_is_Some_2 bi j Hj) as [q Eq]. exists q. split; [done|]. by apply bi_spec.
Qed.

(** C14: [GeScalarMultBase] multiplies the base point by the 32-byte little-endian scalar,
    for every scalar below 2^255 (its precondition). *)
Theorem GeScalarMultBase_correct a : array 32 a -> nth 31 a 0 <= 127 ->
  ext_rep (smul (le_val a) B25519) (GeBase.GeScalarMultBase a).
Proof.
  intros Ha Hl. apply GeScalarMultBase_rep; [done|].
  pose proof (last_byte_lt a 128 Ha) as H. change (2 ^ 248 * 128) with (2 ^ 255) in H. apply H. lia.
Qed.

Lemma GeScalarMultBase_correct_witness :
  ext_rep (smul (le_val (5 :: replicate 31 0)) B25519) (GeBase.GeScalarMultBase (5 :: replicate 31 0)).
Proof. apply GeScalarMultBase_correct; [|discriminate]. apply (bool_decide_unpack _). vm_compute. exact I. Defined.

(** C10: [slide] writes a scalar of at most 2^255 as 256 signed odd digits or zeros, and
    [GeDoubleScalarMultVartime] computes [a A + b B] from them. *)
Theorem GeDoubleScalarMultVartime_correct P a A b : array 32 a -> array 32 b ->
  le_val a <= 2 ^ 255 -> le_val b <= 2 ^ 255 -> ext_rep P A ->
  (Forall digit (slide a) /\ length (slide a) = 256%nat /\ val2 (slide a) = le_val a) /\
  proj_rep (cg_add (smul (le_val a) P) (smul (le_val b) B25519)) (GeDouble.GeDoubleScalarMultVartime a A b).
Proof. intros. split; [by apply slide_rep|]. by apply GeDoubleScalarMultVartime_rep. Qed.

Lemma GeDoubleScalarMultVartime_correct_witness :
  val2 (slide (255 :: 7 :: replicate 30 0)) = le_val (255 :: 7 :: replicate 30 0).
Proof.
  refine (proj2 (proj2 (proj1 (GeDoubleScalarMultVartime_correct cg_zero (255 :: 7 :: replicate 30 0) Ext_Zero
    (255 :: 7 :: replicate 30 0) _ _ _ _ Ext_Zero_spec)))); try (apply (bool_decide_unpack _); vm_compute; exact I);
  apply Z.leb_le; vm_compute; reflexivity.
Defined.

(** [ScReduce] and [ScMulAdd] return the 32 little-endian bytes of the residue modulo
    the group order, for all inputs; the result is the reduced one, below the order. *)
Theorem scalars_reduced a b c s : array 32 a -> array 32 b -> array 32 c -> array 64 s ->
  (le_val (Sc.ScReduce s) = le_val s mod order /\
   le_val (Sc.ScMulAdd a b c) = (le_val a * le_val b + le_val c) mod order) /\
  (array 32 (Sc.ScReduce s) /\ array 32 (Sc.ScMulAdd a b c)) /\
  le_val (Sc.ScReduce s) < order /\ le_val (Sc.ScMulAdd a b c) < order.
Proof.
  intros Ha Hb Hc Hs. rewrite ScReduce_val, ScMulAdd_val by done.
  pose proof (proj2 (reduced (le_val s))) as R1. pose proof (proj2 (reduced (le_val a * le_val b + le_val c))) as R2.
  rewrite !le_val_bytes by assumption.
  split; [done|]. split; [split; apply le_bytes_array|]. split; by apply Z.mod_pos_bound.
Qed.

Lemma scalars_reduced_witness :
  le_val (Sc.ScMulAdd (replicate 32 255) (replicate 32 255) (replicate 32 255)) < order.
Proof.
  refine (proj2 (proj2 (proj2 (scalars_reduced (replicate 32 255) (replicate 32 255) (replicate 32 255)
    (replicate 64 255) _ _ _ _)))); apply (bool_decide_unpack _); vm_compute; exact I.
Defined.

(** C9: [Verify] accepts exactly the signatures [R || s] with [s < 2^253] for which the
    public key decodes to a point [P] of the curve and [R] is the encoding of
    [h (-P) + s B], where [h] is the SHA-512 of [R], the key and the message modulo the
    group order. *)
Theorem Verify_exact publicKey message sig : array 32 publicKey -> array 64 sig ->
  let h := le_val (sha512 (take 32 sig ++ publicKey ++ message)) mod order in
  let s := le_val (drop 32 sig) in
  Ed25519.Verify publicKey message sig = true <->
  s < 2 ^ 253 /\ exists P, decodes_point publicKey P /\
    take 32 sig = point_bytes (cg_add (smul h (cg_neg P)) (smul s B25519)).
Proof. exact (@Verify_iff edwards25519 edwards25519_laws publicKey message sig). Qed.

Lemma Verify_exact_witness : Ed25519.Verify (replicate 32 0) [1; 2] (replicate 64 255) = false.
Proof.
  apply not_true_is_false. intros H.
  pose proof (proj1 (Verify_exact (replicate 32 0) [1; 2] (replicate 64 255)
    ltac:(apply (bool_decide_unpack _); vm_compute; exact I)
    ltac:(apply (bool_decide_unpack _); vm_compute; exact I)) H) as [K _].
  revert K. apply Z.ltb_nlt. vm_compute. reflexivity.
Defined.
