(* ===== verification/Extra25519.v ===== *)
(** * Curve25519 keys (src/tendermint/ed25519/extra25519)

    The conversion of Ed25519 keys to Curve25519, the public key with its Elligator
    representative ([ScalarBaseMult]) and the map from representatives back to public
    keys ([RepresentativeToPublicKey]).  Extra25519Spec has the theorems. *)

From S2P Require Import Prelude LittleEndian Sha2 Fe FeBytes Ge GeBase Ed25519.

Local Open Scope Z_scope.

(** const.go: the coefficient of the Montgomery curve. *)
Definition A : FieldElement := FE 486662 0 0 0 0 0 0 0 0 0.

(** ** Keys *)

Definition PrivateKeyToCurve25519 (privateKey : list Z) : list Z :=
  let digest := sha512 (take 32 privateKey) in
  take 32 (clamp 127 digest).

Definition edwardsToMontgomeryX (y : FieldElement) : FieldElement :=
  let oneMinusY := FeOne in
  let oneMinusY := FeSub oneMinusY y in
  let oneMinusY := FeInvert oneMinusY in
  let outX := FeOne in
  let outX := FeAdd outX y in
  FeMul outX oneMinusY.

Definition PublicKeyToCurve25519 (publicKey : list Z) : option (list Z) :=
  match Ge.Ext_FromBytes publicKey with
  | None => None
  | Some P => Some (FeToBytes (edwardsToMontgomeryX (eY P))).1
  end.

Definition sqrtMinusAPlus2 : FieldElement :=
  FE (-12222970) (-8312128) (-11511410) 9067497 (-15300785) (-241793) 25456130 14121551 (-12187136) 3972024.

Definition sqrtMinusHalf : FieldElement :=
  FE (-17256545) 3971863 28865457 (-1750208) 27359696 (-16640980) 12573105 1002827 (-163343) 11073975.

Definition halfQMinus1Bytes : list Z :=
  [0xf6; 0xff; 0xff; 0xff; 0xff; 0xff; 0xff; 0xff; 0xff; 0xff; 0xff; 0xff; 0xff; 0xff; 0xff; 0xff;
   0xff; 0xff; 0xff; 0xff; 0xff; 0xff; 0xff; 0xff; 0xff; 0xff; 0xff; 0xff; 0xff; 0xff; 0xff; 0x3f].

(** One iteration of [feBytesLE]. *)
Definition feBytesLE_step (st : Z * Z) (xy : Z * Z) : Z * Z :=
  let '(equalSoFar, greater) := st in
  let '(x, y) := xy in
  (Z.land equalSoFar (Z.shiftr (s32 (Z.lxor x y - 1)) 31),
   Z.lor (Z.land (Z.lnot equalSoFar) greater) (Z.land equalSoFar (Z.shiftr (s32 (x - y)) 31))).

(** The bytes from the last one down. *)
Definition feBytesLE (a b : list Z) : Z :=
  let '(equalSoFar, greater) := fold_left feBytesLE_step (zip (reverse a) (reverse b)) (-1, 0) in
  Z.land (Z.land (Z.lnot equalSoFar) 1) greater.

(** ** Powers *)

Definition q58 (z : FieldElement) : FieldElement :=
  let t1 := FeSquare z in
  let t1 := FeMul t1 z in
  let t1 := FeSquare t1 in
  let t2 := FeSquare t1 in
  let t2 := FeSquare t2 in
  let t2 := FeMul t2 t1 in
  let t1 := FeMul t2 z in
  let t2 := FeSquare t1 in
  let t2 := square_loop 5 t2 in
  let t1 := FeMul t2 t1 in
  let t2 := FeSquare t1 in
  let t2 := square_loop 10 t2 in
  let t2 := FeMul t2 t1 in
  let t3 := FeSquare t2 in
  let t3 := square_loop 20 t3 in
  let t2 := FeMul t3 t2 in
  let t2 := FeSquare t2 in
  let t2 := square_loop 10 t2 in
  let t1 := FeMul t2 t1 in
  let t2 := FeSquare t1 in
  let t2 := square_loop 50 t2 in
  let t2 := FeMul t2 t1 in
  let t3 := FeSquare t2 in
  let t3 := square_loop 100 t3 in
  let t2 := FeMul t3 t2 in
  let t2 := FeSquare t2 in
  let t2 := square_loop 50 t2 in
  let t1 := FeMul t2 t1 in
  let t1 := FeSquare t1 in
  let t1 := FeSquare t1 in
  FeMul t1 z.

Definition chi (z : FieldElement) : FieldElement :=
  let t0 := FeSquare z in
  let t1 := FeMul t0 z in
  let t0 := FeSquare t1 in
  let t2 := FeSquare t0 in
  let t2 := FeSquare t2 in
  let t2 := FeMul t2 t0 in
  let t1 := FeMul t2 z in
  let t2 := FeSquare t1 in
  let t2 := square_loop 5 t2 in
  let t1 := FeMul t2 t1 in
  let t2 := FeSquare t1 in
  let t2 := square_loop 10 t2 in
  let t2 := FeMul t2 t1 in
  let t3 := FeSquare t2 in
  let t3 := square_loop 20 t3 in
  let t2 := FeMul t3 t2 in
  let t2 := FeSquare t2 in
  let t2 := square_loop 10 t2 in
  let t1 := FeMul t2 t1 in
  let t2 := FeSquare t1 in
  let t2 := square_loop 50 t2 in
  let t2 := FeMul t2 t1 in
  let t3 := FeSquare t2 in
  let t3 := square_loop 100 t3 in
  let t2 := FeMul t3 t2 in
  let t2 := FeSquare t2 in
  let t2 := square_loop 50 t2 in
  let t1 := FeMul t2 t1 in
  let t1 := FeSquare t1 in
  let t1 := square_loop 4 t1 in
  FeMul t1 t0.

(** ** Elligator *)

(** The coordinates of the point on the Montgomery curve. *)
Definition montgomery_u (P : Ge.ExtendedGroupElement) (inv1 : FieldElement) : FieldElement :=
  let u := FeMul inv1 (eX P) in
  let t0 := FeAdd (eY P) (eZ P) in
  FeMul u t0.

Definition montgomery_v (P : Ge.ExtendedGroupElement) (inv1 : FieldElement) : FieldElement :=
  let t0 := FeAdd (eY P) (eZ P) in
  let v := FeMul t0 inv1 in
  let v := FeMul v (eZ P) in
  FeMul v sqrtMinusAPlus2.

(** The value of which [chiBytes] is taken. *)
Definition minus_chi (u b7 c : FieldElement) : FieldElement :=
  let chi := FeSquare c in
  let chi := FeSquare chi in
  let t0 := FeSquare u in
  let chi := FeMul chi t0 in
  let t0 := FeSquare b7 in
  let chi := FeMul chi t0 in
  FeNeg chi.

(** The end of the computations of [r1] and [r]: a factor [sqrt(-1)] unless [2 r^2 x + y] is zero. *)
Definition fix_root (r x y : FieldElement) : FieldElement :=
  let t0 := FeSquare r in
  let t0 := FeMul t0 x in
  let t0 := FeAdd t0 t0 in
  let t0 := FeAdd t0 y in
  let maybeSqrtM1 := FeOne in
  let maybeSqrtM1 := FeCMove maybeSqrtM1 SqrtM1 (FeIsNonZero t0).1 in
  FeMul r maybeSqrtM1.

(** [r1 = sqrt(-u/(2*(u+A)))]. *)
Definition root_r1 (u b b3 c : FieldElement) : FieldElement :=
  let r1 := FeMul c u in
  let r1 := FeMul r1 b3 in
  let r1 := FeMul r1 sqrtMinusHalf in
  fix_root r1 b u.

(** [r = sqrt(-(u+A)/(2u))]. *)
Definition root_r (u b b8 c : FieldElement) : FieldElement :=
  let t0 := FeSquare c in
  let t0 := FeMul t0 c in
  let t0 := FeSquare t0 in
  let r := FeMul t0 c in
  let t0 := FeSquare u in
  let t0 := FeMul t0 u in
  let r := FeMul r t0 in
  let t0 := FeSquare b8 in
  let t0 := FeMul t0 b8 in
  let t0 := FeMul t0 b in
  let r := FeMul r t0 in
  let r := FeMul r sqrtMinusHalf in
  fix_root r u b.

(** The public key and its representative, or none. *)
Definition ScalarBaseMult (privateKey : list Z) : option (list Z * list Z) :=
  let maskedPrivateKey := clamp 127 privateKey in
  let P := GeBase.GeScalarMultBase maskedPrivateKey in
  let inv1 := FeSub (eZ P) (eY P) in
  let inv1 := FeMul inv1 (eX P) in
  let inv1 := FeInvert inv1 in
  let u := montgomery_u P inv1 in
  let v := montgomery_v P inv1 in
  let b := FeAdd u A in
  let b3 := FeSquare b in
  let b3 := FeMul b3 b in
  let c := FeSquare b3 in
  let b7 := FeMul c b in
  let b8 := FeMul b7 b in
  let c := FeMul b7 u in
  let c := q58 c in
  let chiBytes := (FeToBytes (minus_chi u b7 c)).1 in
  if nth 1 chiBytes 0 =? 0xff then None
  else
    let r1 := root_r1 u b b3 c in
    let r := root_r u b b8 c in
    let vBytes := (FeToBytes v).1 in
    let vInSquareRootImage := feBytesLE vBytes halfQMinus1Bytes in
    let r := FeCMove r r1 vInSquareRootImage in
    Some ((FeToBytes u).1, (FeToBytes r).1).

(** [rr2[0]++]. *)
Definition incr (f : FieldElement) : FieldElement :=
  let 'FE f0 f1 f2 f3 f4 f5 f6 f7 f8 f9 := f in FE (s32 (f0 + 1)) f1 f2 f3 f4 f5 f6 f7 f8 f9.

Definition RepresentativeToPublicKey (representative : list Z) : list Z :=
  let rr2 := FeFromBytes representative in
  let rr2 := FeSquare2 rr2 in
  let rr2 := incr rr2 in
  let rr2 := FeInvert rr2 in
  let v := FeMul A rr2 in
  let v := FeNeg v in
  let v2 := FeSquare v in
  let v3 := FeMul v v2 in
  let e := FeAdd v3 v in
  let v2 := FeMul v2 A in
  let e := FeAdd v2 e in
  let e := chi e in
  let eBytes := (FeToBytes e).1 in
  let eIsMinus1 := Z.land (nth 1 eBytes 0) 1 in
  let negV := FeNeg v in
  let v := FeCMove v negV eIsMinus1 in
  let v2 := FeZero in
  let v2 := FeCMove v2 A eIsMinus1 in
  let v := FeSub v v2 in
  (FeToBytes v).1.
