(* ===== verification/Extra25519Spec.v ===== *)
(** * Theorems on Curve25519 keys

    The public keys of Extra25519 are the Montgomery coordinates
    [u = (1 + y) / (1 - y)] of Ed25519 points, the map from representatives is the
    Elligator 2 map, and it takes the representative [ScalarBaseMult] makes back to
    the public key. *)

From Stdlib Require Import Zmod Field.
From S2P Require Import Prelude EdCurve Field25519 LittleEndian Sha2 Fe FeBytes Ge GeBytes EdTablesOk GeBase Sc EdImpl Ed25519 Extra25519.

Local Open Scope Zmod_scope.
Add Field F_field_ex : (Zmod.field_theory fe_p fe_p_prime).

(** ** Powers and constants *)

(** The exponent of [q58] is [(p - 5) / 8]. *)
Lemma q58_spec z : fe_bnd loose z ->
  fe_bnd tight (q58 z) /\ feF (q58 z) = feF z ^ (2 ^ 252 - 3)%Z.
Proof.
  intros Hz%pow_of_1.
  enough (H : fe_bnd tight (q58 z) /\ pow_of z (2 ^ 252 - 3) (q58 z))
    by (destruct H as (? & _ & _ & ->); split; [assumption|reflexivity]).
  set (Q := fun f => fe_bnd tight f /\ pow_of z (2 ^ 252 - 3) f). change (Q (q58 z)).
  cbv beta delta [q58]. do 30 pow_step.
  split; [apply FeMul_spec; eapply pow_of_bnd; eassumption|].
  pow_end (pow_of_mul z _ _ _ _ H28 Hz) (2 ^ 252 - 3)%Z.
Qed.

(** The exponent of [chi] is [(p - 1) / 2]. *)
Lemma chi_spec z : fe_bnd loose z ->
  fe_bnd tight (chi z) /\ feF (chi z) = feF z ^ (2 ^ 254 - 10)%Z.
Proof.
  intros Hz%pow_of_1.
  enough (H : fe_bnd tight (chi z) /\ pow_of z (2 ^ 254 - 10) (chi z))
    by (destruct H as (? & _ & _ & ->); split; [assumption|reflexivity]).
  set (Q := fun f => fe_bnd tight f /\ pow_of z (2 ^ 254 - 10) f). change (Q (chi z)).
  cbv beta delta [chi]. do 30 pow_step.
  split; [apply FeMul_spec; eapply pow_of_bnd; eassumption|].
  pow_end (pow_of_mul z _ _ _ _ H28 H1) (2 ^ 254 - 10)%Z.
Qed.

Definition AF : F := toF 486662.

Lemma A_spec : fe_bnd 243331 A /\ feF A = AF.
Proof. split; [vm_compute; repeat split; discriminate|]. done. Qed.

Lemma sqrtMinusAPlus2_spec : fe_bnd tight sqrtMinusAPlus2 /\
  feF sqrtMinusAPlus2 * feF sqrtMinusAPlus2 = - (AF + (1 + 1)).
Proof.
  split; [vm_compute; repeat split; discriminate|]. unfold feF, AF. rewrite <- toF_2, <- toF_add, <- toF_opp, <- toF_mul.
  apply toF_check. vm_compute. reflexivity.
Qed.

(** The square of [sqrtMinusHalf] is [-sqrt(-1)/2]: [-1/2] has no square root. *)
Lemma sqrtMinusHalf_spec : fe_bnd tight sqrtMinusHalf /\
  (1 + 1) * (feF sqrtMinusHalf * feF sqrtMinusHalf) = - iF.
Proof.
  split; [vm_compute; repeat split; discriminate|]. unfold feF, iF.
  rewrite <- toF_2, <- toF_opp, <- !toF_mul. apply toF_check. vm_compute. reflexivity.
Qed.

Lemma d_A : dF * (AF + (1 + 1)) = - (AF - (1 + 1)).
Proof.
  unfold dF, AF. rewrite <- toF_2, <- toF_add, <- toF_sub, <- toF_opp, <- toF_mul.
  apply toF_check. vm_compute. reflexivity.
Qed.

(** ** Quadratic characters *)

Definition chiF (x : F) : F := x ^ (2 ^ 254 - 10)%Z.

Lemma chiF_mul a b : chiF (a * b) = chiF a * chiF b.
Proof. apply Zmod.pow_mul_l_nonneg. by vm_compute. Qed.

Lemma chiF_0 : chiF 0 = 0.
Proof. apply Zmod.pow_0_l. by vm_compute. Qed.

Lemma chiF_square a : a <> 0 -> chiF (a * a) = 1.
Proof. intros H. rewrite chiF_mul. by apply F_pow_half. Qed.

Lemma chiF_cases a : a <> 0 -> chiF a = 1 \/ chiF a = - (1).
Proof. intros H. apply F_square_1. by apply F_pow_half. Qed.

Lemma iF_nz : iF <> 0.
Proof. intros E. pose proof iF_sq as H. rewrite E in H. apply F_one_nz. transitivity (- (0 * 0) : F); [rewrite H|]; ring. Qed.

Lemma chiF_opp a : chiF (- a) = chiF a.
Proof.
  replace (- a) with (iF * iF * a) by (rewrite iF_sq; ring).
  rewrite chiF_mul, chiF_square by exact iF_nz. ring.
Qed.

Lemma one_neq_opp : (1 : F) <> - (1).
Proof. intros E. apply F_two_nz. rewrite E at 1. ring. Qed.

(** [A] is not a square. *)
Lemma chiF_A : chiF AF = - (1).
Proof.
  unfold chiF, AF. change (2 ^ 254 - 10)%Z with (Z.pos (2 ^ 254 - 10)). rewrite <- powp_spec.
  change (- (1) : F) with (- toF 1). rewrite <- toF_opp. apply toF_check. vm_compute. reflexivity.
Qed.

(** ** The Elligator map *)

Definition elligator (r : F) : F :=
  let v := - (AF / (1 + (1 + 1) * (r * r))) in
  if decide (chiF (v * v * v + v + v * v * AF) = - (1)) then - v - AF else v.

Section inverse.
  Context (u w : F).
Let b := u + AF.
  Hypothesis u_nz : u <> 0.
  Hypothesis w_nz : w <> 0.
  Hypothesis curve : w * w = u * u * u + AF * (u * u) + u.

Lemma AF_nz : AF <> 0.
Proof. apply (toF_check_neq 486662 0). vm_compute. reflexivity. Qed.

Lemma F_opp_nz (a : F) : a <> 0 -> - a <> 0.
Proof. intros Ha E. apply Ha. transitivity (- - a); [ring|]. rewrite E. ring. Qed.

Lemma b_nz : b <> 0.
Proof.
  intros E. assert (Eu : u = - AF) by (transitivity (b - AF); [unfold b; ring|rewrite E; ring]).
  assert (Ew : w * w = - AF) by (rewrite curve, Eu; ring).
  apply one_neq_opp. rewrite <- chiF_A, <- chiF_opp, <- Ew. symmetry. by apply chiF_square.
Qed.

(** The map at a root for [v] outside the image of the square root. *)
Lemma elligator_r r : (1 + 1) * u * (r * r) = - b -> elligator r = u.
Proof.
  intros Hr. assert (E : 1 + (1 + 1) * (r * r) = - AF / u).
  { transitivity ((u + (1 + 1) * u * (r * r)) / u); [by field|]. rewrite Hr. unfold b. by field. }
  unfold elligator. cbv zeta. rewrite E.
  replace (- (AF / (- AF / u))) with u by (field; repeat split; first [done|exact AF_nz|exact (F_opp_nz _ AF_nz)]).
  replace (u * u * u + u + u * u * AF) with (w * w) by (rewrite curve; ring).
  rewrite chiF_square by done. destruct (decide _) as [H|_]; [by destruct one_neq_opp|done].
Qed.

(** The map at a root for [v] in the image of the square root. *)
Lemma elligator_r1 r : chiF (u * b) = - (1) -> (1 + 1) * b * (r * r) = - u -> elligator r = u.
Proof.
  intros Hc Hr. pose proof b_nz as Hb. assert (E : 1 + (1 + 1) * (r * r) = AF / b).
  { transitivity ((b + (1 + 1) * b * (r * r)) / b); [by field|]. rewrite Hr. unfold b. by field. }
  unfold elligator. cbv zeta. rewrite E.
  replace (- (AF / (AF / b))) with (- b) by (field; repeat split; first [done|exact AF_nz|exact (F_opp_nz _ AF_nz)]).
  assert (Hchi : chiF (- b * - b * - b + - b + - b * - b * AF) = - (1)).
  { transitivity (chiF (u * u) * chiF (- b * - b * - b + - b + - b * - b * AF)).
    { rewrite chiF_square by done. ring. }
    rewrite <- chiF_mul.
    replace (u * u * (- b * - b * - b + - b + - b * - b * AF)) with (- (u * b * (w * w)))
      by (rewrite curve; unfold b; ring).
    rewrite chiF_opp, chiF_mul, Hc, chiF_square by done. ring. }
  destruct (decide _) as [_|H]; [|by destruct H]. unfold b. ring.
Qed.
End inverse.

(** ** The roots *)

(** The character of a number from its [(p - 5) / 8]-th power. *)
Lemma chiF_pow58 t : let c := t ^ (2 ^ 252 - 3)%Z in chiF t = c * c * (c * c) * (t * t).
Proof.
  cbv zeta. unfold chiF.
  replace (2 ^ 254 - 10)%Z with ((2 ^ 252 - 3) + (2 ^ 252 - 3) + ((2 ^ 252 - 3) + (2 ^ 252 - 3)) + 2)%Z by lia.
  rewrite !Zmod.pow_add_r_nonneg, Zmod.pow_2_r by (by vm_compute). done.
Qed.

Lemma chiF_cube_odd u b : b <> 0 -> chiF (b * b * b * (b * b * b) * b * u) = chiF (u * b).
Proof.
  intros Hb. replace (b * b * b * (b * b * b) * b * u) with (b * b * b * (b * b * b) * (u * b)) by ring.
  rewrite chiF_mul, chiF_square; [ring|]. by repeat apply F_mul_nz.
Qed.

(** [c^2 t] is one of the square roots of -1. *)
Lemma c_root t : chiF t = - (1) -> let c := t ^ (2 ^ 252 - 3)%Z in
  c * c * t = iF \/ c * c * t = - iF.
Proof.
  intros H. cbv zeta. pose proof (chiF_pow58 t) as E. cbv zeta in E. rewrite H in E.
  set (c := t ^ (2 ^ 252 - 3)%Z) in *.
  assert ((c * c * t - iF) * (c * c * t + iF) = 0) as [K|K]%F_mul_0.
  - transitivity (c * c * (c * c) * (t * t) - iF * iF); [ring|]. rewrite <- E, iF_sq. ring.
  - left. by apply sub_0.
  - right. transitivity (c * c * t + iF - iF); [ring|]. rewrite K. ring.
Qed.

Lemma FeToBytes_fst h : fe_bnd loose h -> (FeToBytes h).1 = le_bytes 32 (Zmod.to_Z (feF h)).
Proof.
  intros Hh. pose proof (FeToBytes_spec h Hh) as H. destruct (FeToBytes h) as [s h'].
  destruct H as [-> _]. cbn [fst]. by rewrite feF_to_Z.
Qed.

Lemma nonzero_bit f : fe_bnd loose f -> (FeIsNonZero f).1 = Z.b2z (negb (bool_decide (feF f = 0))).
Proof.
  intros Hf. pose proof (FeIsNonZero_spec f Hf) as H. destruct (FeIsNonZero f) as [x f'].
  destruct H as [-> _]. cbn [fst]. by case_decide; case_bool_decide.
Qed.

(** A root of [y / (2 x)] or [-y / (2 x)] becomes one of [-y / (2 x)]. *)
Lemma fix_root_spec r x y : fe_bnd loose r -> fe_bnd loose x -> fe_bnd (tight + 243331) y -> feF y <> 0 ->
  let k := (1 + 1) * feF x * (feF r * feF r) in
  k = feF y \/ k = - feF y ->
  fe_bnd tight (fix_root r x y) /\
  (1 + 1) * feF x * (feF (fix_root r x y) * feF (fix_root r x y)) = - feF y.
Proof.
  intros Br Bx By Hy k Hk. destruct SqrtM1_spec as [Bi Ei], FeOne_spec as [B1 E1].
  set (Q := fun R => fe_bnd tight R /\ (1 + 1) * feF x * (feF R * feF R) = - feF y).
  change (Q (fix_root r x y)). cbv beta delta [fix_root]. do 4 fe_step.
  lazymatch goal with |- ?Q (let x := ?e in @?b x) => change (Q (b e)); cbv beta end.
  rewrite nonzero_bit by bnd_mono. rewrite FeCMove_spec.
  assert (Et : feF r3 = k + feF y) by (fe_rewrite; unfold k; ring).
  lazymatch goal with |- ?Q (let x := ?e in @?b x) => change (Q (b e)); cbv beta end.
  case_bool_decide as H0; cbn [negb].
  - destruct (FeMul_spec r FeOne ltac:(bnd_mono) ltac:(bnd_mono)) as [BR ER]. split; [done|].
    assert (Hk' : k = - feF y) by (transitivity (feF r3 - feF y); [rewrite Et|rewrite H0]; ring).
    rewrite <- Hk'. unfold k. rewrite ER, E1. ring.
  - destruct (FeMul_spec r SqrtM1 ltac:(bnd_mono) ltac:(bnd_mono)) as [BR ER]. split; [done|].
    destruct Hk as [Hk|Hk]; [|by destruct H0; rewrite Et, Hk; ring].
    rewrite <- Hk. unfold k. rewrite ER, Ei.
    transitivity ((1 + 1) * feF x * (feF r * feF r) * (iF * iF)); [ring|]. rewrite iF_sq. ring.
Qed.

Section roots.
  Context (u b b3 b7 b8 c : FieldElement).
  Hypothesis Bu : fe_bnd tight u.
  Hypothesis Bb : fe_bnd (tight + 243331) b.
  Hypothesis Bb3 : fe_bnd tight b3.
  Hypothesis Bb7 : fe_bnd tight b7.
  Hypothesis Bb8 : fe_bnd tight b8.
  Hypothesis Bc : fe_bnd tight c.
  Hypothesis u_nz : feF u <> 0.
  Hypothesis b_nz' : feF b <> 0.
  Hypothesis Eb3 : feF b3 = feF b * feF b * feF b.
  Hypothesis Eb7 : feF b7 = feF b3 * feF b3 * feF b.
  Hypothesis Eb8 : feF b8 = feF b7 * feF b.
Let t := feF b7 * feF u.
  Hypothesis Ec : feF c = t ^ (2 ^ 252 - 3)%Z.

Lemma minus_chi_spec : fe_bnd tight (minus_chi u b7 c) /\ feF (minus_chi u b7 c) = - chiF (feF u * feF b).
Proof.
  assert (Et : chiF (feF u * feF b) = chiF t).
  { unfold t. rewrite Eb7, Eb3. symmetry. apply chiF_cube_odd. assumption. }
  rewrite Et, chiF_pow58, <- Ec. cbv zeta. clear Et Ec Eb7 Eb8 Eb3.
  set (Q := fun R => fe_bnd tight R /\ feF R = - (feF c * feF c * (feF c * feF c) * (t * t))).
  change (Q (minus_chi u b7 c)). cbv beta delta [minus_chi]. do 6 fe_step.
  destruct (FeNeg_spec tight r4 B4 eq_refl) as [B5 E5]. split; [done|]. rewrite E5. fe_rewrite. unfold t. ring.
Qed.

  Hypothesis chi_ok : chiF (feF u * feF b) = - (1).

Lemma c_t : feF c * feF c * t = iF \/ feF c * feF c * t = - iF.
Proof.
  rewrite Ec. apply c_root. unfold t. rewrite Eb7, Eb3, chiF_cube_odd by assumption. exact chi_ok.
Qed.

Lemma root_r1_spec : fe_bnd tight (root_r1 u b b3 c) /\
  (1 + 1) * feF b * (feF (root_r1 u b b3 c) * feF (root_r1 u b b3 c)) = - feF u.
Proof.
  pose proof c_t as Hct. destruct sqrtMinusHalf_spec as [Bs Es]. clear Ec.
  set (Q := fun R => fe_bnd tight R /\ (1 + 1) * feF b * (feF R * feF R) = - feF u).
  change (Q (root_r1 u b b3 c)). cbv beta delta [root_r1]. do 3 fe_step.
  apply fix_root_spec; [bnd_mono..|done|]. fe_rewrite. set (s := feF sqrtMinusHalf) in *.
  match goal with |- ?l = _ \/ _ => assert (E' : l = feF c * feF c * t * feF u * ((1 + 1) * (s * s))) end.
  { unfold t. fe_rewrite. ring. }
  rewrite E', Es. destruct Hct as [-> | ->]; [left|right].
  - transitivity (- (iF * iF) * feF u); [ring|]. rewrite iF_sq. ring.
  - transitivity (iF * iF * feF u); [ring|]. rewrite iF_sq. ring.
Qed.

Lemma root_r_spec : fe_bnd tight (root_r u b b8 c) /\
  (1 + 1) * feF u * (feF (root_r u b b8 c) * feF (root_r u b b8 c)) = - feF b.
Proof.
  pose proof c_t as Hct. destruct sqrtMinusHalf_spec as [Bs Es]. clear Ec.
  set (Q := fun R => fe_bnd tight R /\ (1 + 1) * feF u * (feF R * feF R) = - feF b).
  change (Q (root_r u b b8 c)). cbv beta delta [root_r]. do 12 fe_step.
  apply fix_root_spec; [bnd_mono..|done|]. fe_rewrite.
  set (k := feF c * feF c * t). set (s := feF sqrtMinusHalf) in *.
  match goal with |- ?l = _ \/ _ => assert (E' : l = k * k * k * k * k * k * k * feF b * ((1 + 1) * (s * s))) end.
  { unfold k, t. fe_rewrite. ring. }
  rewrite E', Es. unfold k. destruct Hct as [-> | ->]; [right|left].
  - transitivity (- (iF * iF * (iF * iF) * (iF * iF) * (iF * iF)) * feF b); [ring|]. rewrite iF_sq. ring.
  - transitivity (iF * iF * (iF * iF) * (iF * iF) * (iF * iF) * feF b); [ring|]. rewrite iF_sq. ring.
Qed.
End roots.

(** ** Points on the Montgomery curve *)

Definition montgomery (P : point25519) : F := (1 + y_of P) / (1 - y_of P).

Lemma d_neq_opp : dF <> - (1).
Proof. intros E. apply (dF_nonsquare iF). by rewrite iF_sq. Qed.

Lemma y_neq_1 (P : point25519) : x_of P <> 0 -> 1 - y_of P <> 0.
Proof.
  intros Hx Hy. pose proof (proj1 (on_curve_root _ _) (p_on _ _ P)) as H.
  assert (E : y_of P = 1) by (symmetry; by apply sub_0). rewrite E in H.
  assert ((dF + 1) * (x_of P * x_of P) = 0) as [K|K]%F_mul_0.
  - transitivity ((dF * (1 * 1) + 1) * (x_of P * x_of P)); [ring|]. rewrite H. ring.
  - apply d_neq_opp. transitivity (dF + 1 - 1); [ring|]. rewrite K. ring.
  - revert K. by apply F_mul_nz.
Qed.

Lemma montgomery_nz (P : point25519) : x_of P <> 0 -> montgomery P <> 0.
Proof.
  intros Hx H. pose proof (y_neq_1 P Hx) as Hy.
  assert (E : 1 + y_of P = 0).
  { transitivity (montgomery P * (1 - y_of P)); [unfold montgomery; by field|]. rewrite H. ring. }
  pose proof (proj1 (on_curve_root _ _) (p_on _ _ P)) as C.
  assert (Ey : y_of P = - (1)) by (transitivity (1 + y_of P - 1); [ring|rewrite E; ring]).
  rewrite Ey in C. assert ((dF + 1) * (x_of P * x_of P) = 0) as [K|K]%F_mul_0.
  - transitivity ((dF * (- (1) * - (1)) + 1) * (x_of P * x_of P)); [ring|]. rewrite C. ring.
  - apply d_neq_opp. transitivity (dF + 1 - 1); [ring|]. rewrite K. ring.
  - revert K. by apply F_mul_nz.
Qed.

(** The other coordinate, and the equation of the curve. *)
Lemma montgomery_curve (P : point25519) : x_of P <> 0 ->
  let u := montgomery P in let w := feF sqrtMinusAPlus2 * u / x_of P in
  w <> 0 /\ w * w = u * u * u + AF * (u * u) + u.
Proof.
  intros Hx. cbv zeta. pose proof (y_neq_1 P Hx) as Hy. pose proof (montgomery_nz P Hx) as Hu.
  destruct sqrtMinusAPlus2_spec as [_ Hs]. set (s := feF sqrtMinusAPlus2) in *.
  pose proof (proj1 (on_curve_root _ _) (p_on _ _ P)) as C. pose proof d_A as HA.
  assert (K : - (AF + (1 + 1)) * ((1 + y_of P) * (1 + y_of P)) * (1 - y_of P) =
    x_of P * x_of P * (1 + y_of P) * (AF + (1 + 1) - (AF - (1 + 1)) * (y_of P * y_of P))).
  { transitivity ((AF + (1 + 1)) * (1 + y_of P) * (y_of P * y_of P - 1)); [ring|]. rewrite <- C.
    transitivity (x_of P * x_of P * (1 + y_of P) *
      (AF + (1 + 1) + dF * (AF + (1 + 1)) * (y_of P * y_of P))); [ring|]. rewrite HA. ring. }
  assert (E : s * montgomery P / x_of P * (s * montgomery P / x_of P) = montgomery P * montgomery P *
    montgomery P + AF * (montgomery P * montgomery P) + montgomery P).
  { transitivity (s * s * ((1 + y_of P) * (1 + y_of P)) * (1 - y_of P) /
      (x_of P * x_of P * ((1 - y_of P) * (1 - y_of P) * (1 - y_of P)))).
    - unfold montgomery. by field.
    - rewrite Hs, K. unfold montgomery. by field. }
  split; [|exact E]. intros Hw.
  assert (s <> 0) as Hsn.
  { intros E0. rewrite E0 in Hs. apply (toF_check_neq 486664 0); [vm_compute; reflexivity|].
    change (toF 0) with (0 : F). change 486664%Z with (486662 + 2)%Z. rewrite toF_add, toF_2. fold AF.
    transitivity (- - (AF + (1 + 1))); [ring|]. rewrite <- Hs. ring. }
  assert (s * montgomery P = 0) as K0.
  { transitivity (s * montgomery P / x_of P * x_of P); [by field|]. rewrite Hw. ring. }
  revert K0. by apply F_mul_nz.
Qed.

Lemma mdiv_inv (a b : F) : a * Zmod.inv b = a / b.
Proof. done. Qed.

Lemma edwardsToMontgomeryX_spec P Y : fe_bnd tight Y -> feF Y = y_of P ->
  fe_bnd tight (edwardsToMontgomeryX Y) /\ feF (edwardsToMontgomeryX Y) = montgomery P.
Proof.
  intros BY EY. destruct FeOne_spec as [B1 E1]. unfold montgomery.
  set (Q := fun r => fe_bnd tight r /\ feF r = (1 + y_of P) / (1 - y_of P)).
  change (Q (edwardsToMontgomeryX Y)). cbv beta delta [edwardsToMontgomeryX].
  lazymatch goal with |- ?Q (let x := ?e in @?b x) => change (Q (b e)); cbv beta end.
  do 2 fe_step.
  lazymatch goal with |- ?Q (let x := ?e in @?b x) => change (Q (b e)); cbv beta end.
  fe_step. destruct (FeMul_spec r1 r0 ltac:(bnd_mono) ltac:(bnd_mono)) as [Bm Em].
  split; [done|]. rewrite Em. fe_rewrite. apply mdiv_inv.
Qed.

Lemma montgomery_u_spec P p inv1 : ext_rep P p -> x_of P <> 0 -> fe_bnd tight inv1 ->
  feF inv1 = Zmod.inv ((feF (eZ p) - feF (eY p)) * feF (eX p)) ->
  fe_bnd tight (montgomery_u p inv1) /\ feF (montgomery_u p inv1) = montgomery P.
Proof.
  intros (BX & BY & BZ & BT & NZ & EX & EY & ET) Hx Bi Ei. pose proof (y_neq_1 P Hx) as Hy.
  destruct p as [X Y Zc T]. cbn [eX eY eZ eT] in *.
  set (Q := fun r => fe_bnd tight r /\ feF r = montgomery P).
  change (Q (montgomery_u (Ext X Y Zc T) inv1)). cbv beta iota delta [montgomery_u eX eY eZ]. do 2 fe_step.
  destruct (FeMul_spec r r0 ltac:(bnd_mono) ltac:(bnd_mono)) as [Bm Em]. split; [done|]. rewrite Em. fe_rewrite.
  transitivity (x_of P * feF Zc * (y_of P * feF Zc + feF Zc) /
    ((feF Zc - y_of P * feF Zc) * (x_of P * feF Zc))); [rewrite <- mdiv_inv; ring|].
  unfold montgomery. field. repeat split; try done.
  intros H. assert (feF Zc * (1 - y_of P) = 0) as [|]%F_mul_0; [|done..]. rewrite <- H. ring.
Qed.

Lemma montgomery_v_bnd P p inv1 : ext_rep P p -> fe_bnd tight inv1 -> fe_bnd tight (montgomery_v p inv1).
Proof.
  intros (BX & BY & BZ & BT & NZ & EX & EY & ET) Bi. destruct sqrtMinusAPlus2_spec as [Bs _].
  destruct p as [X Y Zc T]. cbn [eX eY eZ eT] in *.
  set (Q := fun r => fe_bnd tight r). change (Q (montgomery_v (Ext X Y Zc T) inv1)).
  cbv beta iota delta [montgomery_v eX eY eZ]. do 3 fe_step.
  apply (FeMul_spec r1 sqrtMinusAPlus2); bnd_mono.
Qed.

(** ** Bytes of characters *)

Lemma character_byte (x : F) : x = 0 \/ x = 1 \/ x = - (1) ->
  nth 1 (le_bytes 32 (Zmod.to_Z x)) 0%Z = if decide (x = - (1)) then 255%Z else 0%Z.
Proof.
  assert (H : forall z, toF z = x -> nth 1 (le_bytes 32 (Zmod.to_Z x)) 0%Z = nth 1 (le_bytes 32 (z mod (2 ^ 255 - 19))) 0%Z).
  { intros z <-. unfold toF. rewrite Zmod.to_Z_of_Z. pose proof fe_p_eq as ->. done. }
  intros [->|[->| ->]].
  - rewrite (H 0%Z eq_refl). destruct (decide _) as [E|_]; [|reflexivity].
    exfalso. apply F_one_nz. transitivity (- (- (1)) : F); [ring|]. rewrite <- E. ring.
  - rewrite (H 1%Z eq_refl). destruct (decide _) as [E|_]; [by destruct one_neq_opp|reflexivity].
  - rewrite (H (- (1))%Z (toF_opp 1)). destruct (decide _) as [_|E]; [vm_compute; reflexivity|done].
Qed.

Lemma chiF_range x : chiF x = 0 \/ chiF x = 1 \/ chiF x = - (1).
Proof. destruct (decide (x = 0)) as [->|H]; [left; exact chiF_0|right; by apply chiF_cases]. Qed.

(** ** The map from representatives *)

Lemma incr_spec f : fe_bnd tight f -> fe_bnd (tight + 1) (incr f) /\ feF (incr f) = feF f + 1.
Proof.
  intros Hf. change (1 : F) with (toF 1). unfold feF. rewrite <- toF_add.
  pose proof (fe_bnd_mono tight (tight + 1) f ltac:(lia) Hf) as Hm. destruct f as [f0 f1 f2 f3 f4 f5 f6 f7 f8 f9].
  unfold incr. destruct Hm as ((H0 & Hr) & Ho), Hf as ((H0' & _) & _).
  rewrite s32_id by (unfold tight in *; lia). split; [|f_equal; cbv [fe_val]; ring].
  split; [split; [lia|done]|done].
Qed.

Ltac let_step :=
  lazymatch goal with |- ?Q (let x := ?e in @?b x) => change (Q (b e)); cbv beta end.

Lemma RepresentativeToPublicKey_val representative : array 32 representative ->
  RepresentativeToPublicKey representative =
    le_bytes 32 (Zmod.to_Z (elligator (toF (bits_at (le_val representative) 0 255)))).
Proof.
  intros Hr. destruct (FeFromBytes_spec _ Hr) as [B0 E0].
  set (rho := toF (bits_at (le_val representative) 0 255)) in *.
  destruct A_spec as [BA EA], FeZero_spec as [Bz Ez].
  set (Q := fun b => b = le_bytes 32 (Zmod.to_Z (elligator rho))).
  change (Q (RepresentativeToPublicKey representative)). cbv beta delta [RepresentativeToPublicKey].
  let_step. generalize dependent (FeFromBytes representative). intros f B0 E0. fe_step.
  destruct (incr_spec r B) as [Bi Ei]. let_step. set (r' := incr r) in *. clearbody r'.
  do 8 fe_step. destruct (chi_spec r7 ltac:(bnd_mono)) as [Bc Ec]. let_step. set (e := chi r7) in *. clearbody e.
  let_step. rewrite (FeToBytes_fst e) by bnd_mono.
  assert (Ev : feF r2 = - (AF / (1 + (1 + 1) * (rho * rho)))).
  { rewrite <- mdiv_inv. fe_rewrite. f_equal. f_equal. f_equal. ring. }
  assert (Ee : feF e = chiF (feF r2 * feF r2 * feF r2 + feF r2 + feF r2 * feF r2 * AF)).
  { fold (chiF (feF r7)) in Ec. rewrite Ec. clear Ec.
    replace (feF r7) with (feF r2 * feF r2 * feF r2 + feF r2 + feF r2 * feF r2 * AF); [reflexivity|].
    rewrite E8, E7, E6, E5, E4, EA. ring. }
  let_step. rewrite character_byte by (rewrite Ee; apply chiF_range).
  destruct (FeNeg_spec _ r2 B3 eq_refl) as [Bn En]. let_step. set (negV := FeNeg r2) in *. clearbody negV.
  unfold Q, elligator. cbv zeta. rewrite <- Ev, <- Ee. destruct (decide (feF e = - (1))).
  - change (Z.land 255 1) with (Z.b2z true). rewrite !FeCMove_spec.
    destruct (FeSub_spec _ _ negV A Bn BA eq_refl) as [Bs Es]. rewrite FeToBytes_fst by bnd_mono.
    by rewrite Es, En, EA.
  - change (Z.land 0 1) with (Z.b2z false). rewrite !FeCMove_spec.
    destruct (FeSub_spec _ _ r2 FeZero B3 Bz eq_refl) as [Bs Es]. rewrite FeToBytes_fst by bnd_mono.
    rewrite Es, Ez. do 2 f_equal. ring.
Qed.

(** ** Comparison of encodings *)

Lemma lxor_byte x y : byte_ok x -> byte_ok y -> x <> y -> (1 <= Z.lxor x y < 256)%Z.
Proof.
  unfold byte_ok. intros Hx Hy Hn. assert (0 <= Z.lxor x y)%Z by (apply Z.lxor_nonneg; lia).
  assert (Z.lxor x y <> 0%Z) by (by rewrite Z.lxor_eq_0_iff). split; [lia|].
  change 256%Z with (2 ^ 8)%Z. apply Z.log2_lt_pow2; [lia|].
  pose proof (Z.log2_lxor x y ltac:(lia) ltac:(lia)).
  assert (Z.log2 x <= 7 /\ Z.log2 y <= 7)%Z as [] by (split; apply (Z.log2_le_mono _ 255); lia). lia.
Qed.

(** Once two bytes differ the result is decided. *)
Lemma feBytesLE_decided l g : fold_left feBytesLE_step l (0%Z, g) = (0%Z, g).
Proof.
  induction l as [|[x y] l IH]; [done|]. cbn [fold_left feBytesLE_step].
  change (Z.lnot 0) with (-1)%Z. by rewrite !Z.land_0_l, Z.lor_0_r, Z.land_m1_l, IH.
Qed.

Lemma feBytesLE_fold la : forall lb g, length la = length lb -> bytes_ok la -> bytes_ok lb ->
  let '(e, g') := fold_left feBytesLE_step (zip la lb) ((-1)%Z, g) in
  Z.land (Z.land (Z.lnot e) 1) g' = Z.b2z (be_val la <? be_val lb)%Z.
Proof.
  induction la as [|x la IH]; intros [|y lb] g Hl Ha Hb; try done.
  apply bytes_ok_cons in Ha as [Hx Ha]. apply bytes_ok_cons in Hb as [Hy Hb]. injection Hl as Hl.
  cbn [zip zip_with fold_left]. unfold feBytesLE_step at 2. change (Z.lnot (-1)) with 0%Z.
  rewrite !Z.land_m1_l, Z.land_0_l, Z.lor_0_l, !be_val_cons.
  assert (zlen la = zlen lb) as Ez by (unfold zlen; lia). rewrite Ez.
  pose proof (be_val_range la Ha) as Ra. pose proof (be_val_range lb Hb) as Rb. rewrite Ez in Ra.
  unfold byte_ok in Hx, Hy. destruct (decide (x = y)) as [->|Hn].
  - rewrite Z.lxor_nilpotent, Z.sub_diag.
    change (Z.shiftr (s32 (0 - 1)) 31) with (-1)%Z. change (Z.shiftr (s32 0) 31) with 0%Z.
    specialize (IH lb 0%Z Hl Ha Hb). destruct (fold_left _ _ _) as [e g']. rewrite IH. f_equal.
    destruct (Z.ltb_spec (be_val la) (be_val lb)), (Z.ltb_spec (y * 256 ^ zlen lb + be_val la) (y * 256 ^ zlen lb + be_val lb)); lia.
  - pose proof (lxor_byte x y Hx Hy Hn) as Hlx.
    assert (Z.shiftr (s32 (Z.lxor x y - 1)) 31 = 0%Z) as ->
      by (rewrite s32_id, Z.shiftr_div_pow2, Z.div_small by lia; done).
    rewrite feBytesLE_decided. change (Z.land (Z.lnot 0) 1) with 1%Z.
    rewrite s32_id, Z.shiftr_div_pow2 by lia.
    destruct (Z.ltb_spec (x * 256 ^ zlen lb + be_val la) (y * 256 ^ zlen lb + be_val lb)); cbn [Z.b2z].
    + assert (x < y)%Z by nia. replace ((x - y) / 2 ^ 31)%Z with (-1)%Z; [done|].
      apply (Z.div_unique_pos _ _ _ (x - y + 2 ^ 31)); lia.
    + assert (y < x)%Z by nia. rewrite Z.div_small by lia. done.
Qed.

(** [feBytesLE] decides [<], not [<=]. *)
Lemma feBytesLE_val a b : array 32 a -> array 32 b -> feBytesLE a b = Z.b2z (le_val a <? le_val b)%Z.
Proof.
  intros [La Ha] [Lb Hb]. unfold feBytesLE, le_val.
  pose proof (feBytesLE_fold (reverse a) (reverse b) 0%Z) as H.
  rewrite !length_reverse in H. specialize (H ltac:(by rewrite La, Lb)).
  specialize (H ltac:(by apply Forall_reverse) ltac:(by apply Forall_reverse)).
  destruct (fold_left _ _ _) as [e g]. exact H.
Qed.

(** ** Masked scalars *)

Lemma low_mask x : byte_ok x -> (8 | Z.land x 248)%Z /\ Z.land (Z.land x 248) 248 = Z.land x 248.
Proof.
  intros H. unfold byte_ok in H.
  assert (Forall (fun x => Z.land x 248 mod 8 = 0 /\ Z.land (Z.land x 248) 248 = Z.land x 248)%Z (seqZ 0 256)) as F.
  { apply (bool_decide_unpack _). vm_compute. exact I. }
  rewrite Forall_forall in F. destruct (F x) as [E ->]; [apply elem_of_seqZ; lia|].
  split; [|done]. by apply Z.mod_divide.
Qed.

Definition high_masked (x y : Z) : Prop :=
  (64 <= y < 128)%Z /\ Z.lor (Z.land y 127) 64 = y /\ Z.lor (Z.land x 63) 64 = y.

Lemma high_mask x : byte_ok x -> high_masked x (Z.lor (Z.land x 127) 64).
Proof.
  intros H. unfold byte_ok in H.
  assert (Forall (fun x => high_masked x (Z.lor (Z.land x 127) 64)) (seqZ 0 256)) as F.
  { unfold high_masked. apply (bool_decide_unpack _). vm_compute. exact I. }
  rewrite Forall_forall in F. apply F, elem_of_seqZ. lia.
Qed.

(** 32 bytes as their first, their last and the rest. *)
Lemma array_ends d : array 32 d -> exists x m y, d = x :: m ++ [y] /\ length m = 30%nat /\
  byte_ok x /\ bytes_ok m /\ byte_ok y.
Proof.
  intros [Hl Hd]. destruct d as [|x d]; [done|]. destruct (@exists_last _ d) as (m & y & ->); [by destruct d|].
  apply bytes_ok_cons in Hd as [Hx Hd]. apply bytes_ok_app in Hd as [Hm Hy]. apply bytes_ok_cons in Hy as [Hy _].
  cbn in Hl. rewrite length_app in Hl. cbn in Hl. exists x, m, y.
  split; [reflexivity|]. split; [lia|]. split; [exact Hx|]. split; [exact Hm|exact Hy].
Qed.

Lemma clamp_ends top x m y : length m = 30%nat ->
  clamp top (x :: m ++ [y]) = Z.land x 248 :: m ++ [Z.lor (Z.land y top) 64].
Proof.
  intros Hm. unfold clamp. cbn [alter list_alter].
  rewrite alter_app_r_alt by lia. by replace (30 - length m)%nat with 0%nat by lia.
Qed.

(** A masked key is a multiple of 8 between [2^254] and [2^255]; masking it again changes nothing. *)
Lemma clamp_key d : array 32 d -> let k := clamp 127 d in
  array 32 k /\ (8 | le_val k)%Z /\ (2 ^ 254 <= le_val k < 2 ^ 255)%Z /\ clamp 127 k = k /\ clamp 63 d = k.
Proof.
  intros Hd. destruct (array_ends d Hd) as (x & m & y & -> & Lm & Hx & Hm & Hy). cbv zeta.
  rewrite !clamp_ends by done. destruct (low_mask x Hx) as [H8 Hxx], (high_mask y Hy) as (R & Hyy & H63).
  pose proof (top_masks x Hx) as (_ & _ & Rx). rewrite Hxx, Hyy, H63.
  rewrite le_val_cons, le_val_app, le_val_cons, le_val_nil. unfold zlen. rewrite Lm.
  change (256 ^ Z.of_nat 30)%Z with (2 ^ 240)%Z.
  pose proof (le_val_range m Hm) as Rm. unfold zlen in Rm. rewrite Lm in Rm.
  change (256 ^ Z.of_nat 30)%Z with (2 ^ 240)%Z in Rm. split_and!; try done.
  - split; [cbn; by rewrite length_app, Lm|].
    constructor; [done|]. apply Forall_app. split; [done|]. constructor; [unfold byte_ok; lia|constructor].
  - apply Z.divide_add_r; [done|]. apply Z.divide_mul_l. by exists 32%Z.
  - lia.
  - lia.
Qed.

(** The points of masked keys are not on the vertical axis. *)
Lemma key_x_nz a : (8 | a)%Z -> (2 ^ 254 <= a < 2 ^ 255)%Z -> x_of (smul a B25519) <> 0.
Proof.
  intros [k Hk] Ha Hx. set (P := smul a B25519) in *.
  assert (E : cg_neg P = P) by (apply point_eq; [transitivity (- x_of P); [reflexivity|rewrite Hx; ring]|reflexivity]).
  assert (H : smul (2 * a) B25519 = cg_zero) by (rewrite smul_double; fold P; rewrite <- E at 1; apply cg_neg_l).
  apply smul_B25519_zero in H. rewrite Hk in H. replace (2 * (k * 8))%Z with (2 ^ 4 * k)%Z in H by lia.
  apply Z.gauss in H; [|by vm_compute]. apply Z.divide_pos_le in H; [|lia]. revert H.
  apply Z.lt_nge. change order with (2 ^ 252 + 27742317777372353535851937790883648493)%Z. lia.
Qed.

(** What the bytes of a field element are read back as. *)
Lemma bytes_value (x : F) : toF (bits_at (le_val (le_bytes 32 (Zmod.to_Z x))) 0 255) = x.
Proof.
  pose proof (F_to_Z_range x) as R. rewrite le_val_bytes by (change (256 ^ Z.of_nat 32)%Z with (2 ^ 256)%Z; lia).
  rewrite bits_at_small by lia. apply Zmod.of_Z_to_Z.
Qed.

(** ** Key pairs with a representative *)

(** What [ScalarBaseMult] answers for a point. *)
Definition represents (P : point25519) (r : option (list Z * list Z)) : Prop :=
  let u := montgomery P in
  match r with
  | Some (publicKey, representative) =>
      chiF (u * (u + AF)) = - (1) /\ publicKey = le_bytes 32 (Zmod.to_Z u) /\ array 32 representative /\
      RepresentativeToPublicKey representative = publicKey
  | None => chiF (u * (u + AF)) = 1
  end.

Lemma represents_root P x : x_of P <> 0 -> chiF (montgomery P * (montgomery P + AF)) = - (1) ->
  (1 + 1) * montgomery P * (x * x) = - (montgomery P + AF) \/
  (1 + 1) * (montgomery P + AF) * (x * x) = - montgomery P ->
  represents P (Some (le_bytes 32 (Zmod.to_Z (montgomery P)), le_bytes 32 (Zmod.to_Z x))).
Proof.
  intros Hx Hc Hr. destruct (montgomery_curve P Hx) as [Hw Hcv]. pose proof (montgomery_nz P Hx) as Hu.
  split; [done|]. split; [done|]. split; [apply le_bytes_array|].
  rewrite RepresentativeToPublicKey_val by apply le_bytes_array. rewrite bytes_value.
  assert (elligator x = montgomery P) as ->; [|done].
  destruct Hr as [Hr|Hr]; [exact (elligator_r _ _ Hu Hw Hcv x Hr)|exact (elligator_r1 _ _ Hu Hw Hcv x Hc Hr)].
Qed.

Lemma FeToBytes_array h : fe_bnd loose h -> array 32 (FeToBytes h).1.
Proof. intros H. rewrite FeToBytes_fst by done. apply le_bytes_array. Qed.

Lemma halfQMinus1_array : array 32 halfQMinus1Bytes.
Proof. split; [reflexivity|]. apply (bool_decide_unpack _). vm_compute. exact I. Qed.

(** The choice between the two roots, after the test of the character. *)
Lemma choose_root P u b b3 b7 b8 c v : x_of P <> 0 -> feF u = montgomery P ->
  fe_bnd tight u -> fe_bnd (tight + 243331) b -> fe_bnd tight b3 -> fe_bnd tight b7 -> fe_bnd tight b8 ->
  fe_bnd tight c -> fe_bnd tight v -> feF b = feF u + AF -> feF b3 = feF b * feF b * feF b ->
  feF b7 = feF b3 * feF b3 * feF b -> feF b8 = feF b7 * feF b -> feF c = (feF b7 * feF u) ^ (2 ^ 252 - 3)%Z ->
  represents P
    (if (nth 1 (FeToBytes (minus_chi u b7 c)).1 0 =? 255)%Z then None
     else Some ((FeToBytes u).1,
       (FeToBytes (FeCMove (root_r u b b8 c) (root_r1 u b b3 c)
                     (feBytesLE (FeToBytes v).1 halfQMinus1Bytes))).1)).
Proof.
  intros Hx Eu Bu Bb B3 B7 B8 Bc Bv Eb E3 E7 E8 Ec. pose proof (montgomery_nz P Hx) as Hu.
  destruct (montgomery_curve P Hx) as [Hw Hcv]. pose proof (b_nz _ _ Hw Hcv) as Hb.
  rewrite <- Eu, <- Eb in Hb. rewrite <- Eu in Hu.
  destruct (minus_chi_spec u b b3 b7 c Bu B7 Bc Hb E3 E7 Ec) as [Bm Em].
  rewrite FeToBytes_fst by bnd_mono. rewrite Em.
  destruct (chiF_cases (feF u * feF b)) as [H|H]; [by apply F_mul_nz|..]; rewrite H.
  - rewrite character_byte by auto. rewrite decide_True by done. cbv iota beta. unfold represents. cbv zeta.
    by rewrite <- Eu, <- Eb.
  - replace (- - (1) : F) with (1 : F) by ring. rewrite character_byte by auto.
    rewrite decide_False by exact one_neq_opp. change (0 =? 255)%Z with false. cbv iota.
    rewrite feBytesLE_val by first [apply FeToBytes_array; bnd_mono|exact halfQMinus1_array].
    rewrite FeCMove_spec, (FeToBytes_fst u) by bnd_mono. rewrite Eu.
    destruct (root_r1_spec u b b3 b7 c Bu Bb B3 Bc Hu Hb E3 E7 Ec H) as [BR1 ER1].
    destruct (root_r_spec u b b3 b7 b8 c Bu Bb B8 Bc Hb E3 E7 E8 Ec H) as [BR ER].
    rewrite Eu, Eb in H. rewrite Eb, Eu in ER1, ER. rewrite Eu in H.
    destruct (_ <? _)%Z; rewrite FeToBytes_fst by bnd_mono; apply represents_root; auto.
Qed.

Lemma ScalarBaseMult_represents privateKey : array 32 privateKey ->
  represents (smul (le_val (clamp 127 privateKey)) B25519) (ScalarBaseMult privateKey).
Proof.
  intros Hk. destruct (clamp_key _ Hk) as (HA & H8 & Hr & _).
  pose proof (key_x_nz _ H8 Hr) as Hx. pose proof (GeScalarMultBase_rep _ HA (proj2 Hr)) as HP.
  set (P := smul _ B25519) in *. clearbody P. set (Q := represents P). change (Q (ScalarBaseMult privateKey)).
  cbv beta delta [ScalarBaseMult]. let_step. let_step.
  set (p := GeBase.GeScalarMultBase (clamp 127 privateKey)) in *. clearbody p.
  pose proof HP as (BX & BY & BZ & BT & NZ & EX & EY & ET). destruct A_spec as [BA EA].
  do 3 fe_step.
  destruct (montgomery_u_spec P p r1 HP Hx B1 ltac:(by rewrite E1, E0, E)) as [Bu Eu].
  pose proof (montgomery_v_bnd P p r1 HP B1) as Bv. clear EX EY ET E E0 E1.
  let_step. set (u := montgomery_u p r1) in *. clearbody u. let_step. set (v := montgomery_v p r1) in *. clearbody v.
  do 7 fe_step. destruct (q58_spec r8 ltac:(bnd_mono)) as [Bc Ec].
  let_step. set (c := q58 r8) in *. clearbody c. rewrite E5 in Ec.
  apply (choose_root P u r2 r4 r6 r7 c v Hx Eu Bu B2 B4 B6 B7 Bc Bv); [..|exact Ec]; clear Ec.
  - by rewrite E, EA.
  - by rewrite E1, E0.
  - by rewrite E3, E2.
  - exact E4.
Qed.

(** ** Conversion of Ed25519 keys *)

Lemma Ext_FromBytes_Z s r : Ge.Ext_FromBytes s = Some r -> eZ r = FeOne.
Proof.
  set (Q := fun o => o = Some r -> eZ r = FeOne). change (Q (Ge.Ext_FromBytes s)).
  cbv beta delta [Ge.Ext_FromBytes]. repeat let_step.
  lazymatch goal with |- Q (match ?o with _ => _ end) => generalize o end.
  intros [X|]; unfold Q; [|discriminate]. generalize (FeIsNegative X). intros [neg Y] [= <-]. reflexivity.
Qed.

Lemma PublicKeyToCurve25519_point P :
  PublicKeyToCurve25519 (point_bytes P) = Some (le_bytes 32 (Zmod.to_Z (montgomery P))).
Proof.
  destruct (FromBytes_point_bytes P) as (r & Er & HP). unfold PublicKeyToCurve25519. rewrite Er.
  pose proof (Ext_FromBytes_Z _ _ Er) as EZ. destruct HP as (_ & BY & _ & _ & _ & _ & EY & _).
  rewrite EZ in EY. destruct FeOne_spec as [_ E1]. rewrite E1 in EY.
  destruct (edwardsToMontgomeryX_spec P (eY r) BY ltac:(rewrite EY; ring)) as [Bm <-].
  by rewrite FeToBytes_fst by bnd_mono.
Qed.

Lemma PrivateKeyToCurve25519_clamped privateKey :
  let k := PrivateKeyToCurve25519 privateKey in
  array 32 k /\ clamp 127 k = k /\ le_val k = secret_scalar privateKey.
Proof.
  unfold PrivateKeyToCurve25519, secret_scalar. cbv zeta.
  set (digest := sha512 (take 32 privateKey)). assert (HA : array 64 digest) by apply sha512_size.
  destruct (clamp_spec _ HA) as (-> & HA32 & _). split; [done|]. split; [|done].
  assert (array 32 (take 32 digest)) as HT.
  { destruct HA as [L B]. split; [rewrite length_take; lia|by apply Forall_take]. }
  destruct (clamp_key _ HT) as (_ & _ & _ & Hi & E). by rewrite E, Hi.
Qed.

Definition ed_public_point (privateKey : list Z) : point25519 := smul (secret_scalar privateKey) B25519.

(** C15: for a 32-byte private key whose masked scalar gives the point [P] with Montgomery
    coordinate [u = (1 + y) / (1 - y)], [ScalarBaseMult] fails exactly when
    [u (u + 486662)] is a square; otherwise it returns the bytes of [u] and a
    representative that [RepresentativeToPublicKey] takes back to them. *)
Theorem ScalarBaseMult_correct privateKey : array 32 privateKey ->
  represents (smul (le_val (clamp 127 privateKey)) B25519) (ScalarBaseMult privateKey).
Proof. exact (ScalarBaseMult_represents privateKey). Qed.

Definition sample_key : list Z := replicate 32 7%Z.

Lemma ScalarBaseMult_correct_witness :
  represents (smul (le_val (clamp 127 sample_key)) B25519) (ScalarBaseMult sample_key).
Proof.
  assert (H : array 32 sample_key) by (apply (bool_decide_unpack _); vm_compute; exact I).
  exact (ScalarBaseMult_correct sample_key H).
Defined.

(** Converting an Ed25519 public key to Curve25519 always succeeds for keys
    [MakePublicKey] makes, and gives the public key that belongs to the converted
    private key: the one [ScalarBaseMult] returns for it, when it returns one. *)
Theorem converted_keys privateKey :
  PublicKeyToCurve25519 (MakePublicKey privateKey).1 =
    Some (le_bytes 32 (Zmod.to_Z (montgomery (ed_public_point privateKey)))) /\
  match ScalarBaseMult (PrivateKeyToCurve25519 privateKey) with
  | Some (publicKey, _) => PublicKeyToCurve25519 (MakePublicKey privateKey).1 = Some publicKey
  | None => True
  end.
Proof.
  destruct (PrivateKeyToCurve25519_clamped privateKey) as (HA & Hi & Hs).
  assert (E : PublicKeyToCurve25519 (MakePublicKey privateKey).1 =
    Some (le_bytes 32 (Zmod.to_Z (montgomery (ed_public_point privateKey))))).
  { rewrite MakePublicKey_point. apply PublicKeyToCurve25519_point. }
  split; [exact E|]. rewrite E. pose proof (ScalarBaseMult_represents _ HA) as H. rewrite Hi, Hs in H.
  destruct (ScalarBaseMult _) as [[publicKey representative]|]; [|exact I].
  destruct H as (_ & -> & _). reflexivity.
Qed.
