(* ===== verification/RlpClient.v ===== *)
(** * RLP for its clients

    What the packages that serialise with rlp rely on: a Go struct type [A] is
    [RlpCoded] when its reflected values can be told back from and its valid
    values are canonical; every such type goes through [EncodeToBytes],
    [EncodeToReader] and [Decode] without loss. *)

From S2P Require Import Prelude GoStrings GoSlice BigNum RlpTypes RlpEncode RlpEncodeSpec RlpReader RlpStream RlpStreamSpec RlpDecode RlpRoundTrip.

(** A Go type as rlp sees it by reflection. *)
Class RlpType (A : Type) := {
  go_type : gotype;
  to_val : A -> goval;
  of_val : goval -> option A;
}.
Arguments go_type A {_}.

(** Its valid values and what rlp needs of them. *)
Class RlpCoded (A : Type) `{RlpType A} := {
  valid : A -> Prop;
  of_to_val : forall a, of_val (to_val a) = Some a;
  coded_wt : forall a, valid a -> wt (to_val a) (go_type A);
  coded_canon : forall a, valid a -> canon (to_val a) (go_type A) no_tags;
  coded_enc : forall a, valid a -> exists b, enc_bytes (to_val a) (go_type A) = Ok b;
}.

(** [rlp.EncodeToBytes(a)]. *)
Definition rlp_EncodeToBytes {A} `{RlpType A} (a : A) : result (list Z) :=
  EncodeToBytes (to_val a) (go_type A).

(** [size, r, err := rlp.EncodeToReader(a); b := make([]byte, size); r.Read(b)]:
    the buffer, zero where [Read] left it. *)
Definition rlp_EncodeToReader {A} `{RlpType A} (a : A) : result (list Z) :=
  let* (size, r) := EncodeToReader (to_val a) (go_type A) in
  let* (got, _, _) := Read r size in
  Ok (got ++ replicate (Z.to_nat (size - zlen got)) 0).

(** [var a A; rlp.Decode(bytes.NewReader(b), &a)]. *)
Definition rlp_Decode A `{RlpType A} (b : list Z) : result A :=
  let* v := (Decode b (TargetPtr (go_type A) (zero (go_type A)))).1 in
  match of_val v with Some a => Ok a | None => Panic end.

(** The encoding the reference gives a valid value, within the limits of the
    decoder. *)
Definition encodes {A} `{RlpType A} (a : A) (b : list Z) : Prop :=
  enc_bytes (to_val a) (go_type A) = Ok b /\ zlen b < maxAlloc - 9.

Section client.
Context `{RlpCoded A}.

Lemma rlp_EncodeToBytes_ok a b : valid a -> encodes a b -> rlp_EncodeToBytes a = Ok b.
Proof.
  intros Hv [E Hm]. unfold rlp_EncodeToBytes, EncodeToBytes, encode.
  pose proof (coded_wt a Hv) as W. unfold enc_bytes in E. destruct (cachedTypeInfo _); try done.
  apply writes_toBytes, makeWriter_writes; [done..|]. unfold maxAlloc in Hm. lia.
Qed.

Lemma rlp_EncodeToReader_ok a b : valid a -> encodes a b -> rlp_EncodeToReader a = Ok b.
Proof.
  intros Hv [E Hm]. pose proof (coded_wt a Hv) as W. pose proof (zlen_nonneg b).
  destruct (encode_closed _ _ b W E) as (s & Es & S1 & S2 & S3); [unfold maxAlloc in Hm; lia|].
  unfold rlp_EncodeToReader, EncodeToReader. rewrite Es, S3.
  destruct (Read_spec (mkReader (Some s) 0 0 None) b (zlen b)) as (r' & -> & _).
  - exists [], (lheads s), [], (str s). cbn [lhpos strpos piece default app].
    change (zlen []) with 0. by rewrite S2.
  - done.
  - rewrite take_zlen, Z.sub_diag. by rewrite app_nil_r.
Qed.

Lemma rlp_Decode_ok a b : valid a -> encodes a b -> rlp_Decode A b = Ok a.
Proof.
  intros Hv [E Hm]. pose proof (coded_canon a Hv) as C.
  unfold enc_bytes, cachedTypeInfo in E. destruct (genTypeInfo_err (go_type A)) eqn:Et; [done|].
  pose proof (rt_all (to_val a) (go_type A) no_tags (zero (go_type A)) b C (zero_okold _) E Hm) as R.
  rewrite unshared_no_tail in R by done. destruct R as [_ R]. pose proof (zlen_nonneg b).
  destruct (R (NewStream b true 0) [] 0 []) as (s' & Es & _).
  - apply ready_primed. unfold NewStream, Reset. rewrite app_nil_r, Z.add_0_r. done.
  - unfold fits, maxAlloc in *. lia.
  - done.
  - unfold rlp_Decode, Decode, Stream_Decode, stream_decode. rewrite Et, Es. cbn [res_map_err fst].
    by rewrite of_to_val.
Qed.

(** Encodings are bytes. *)
Lemma encodes_bytes_ok a b : valid a -> encodes a b -> bytes_ok b.
Proof.
  intros Hv [E Hm]. unfold enc_bytes in E. destruct (cachedTypeInfo _); try done.
  eapply enc_val_bytes_ok; [apply coded_canon, Hv|exact E|lia].
Qed.
End client.
