(* ===== verification/Tx.v ===== *)
(** * Transactions (src/tx/v1, v2, v3, with src/types/types.go, src/sig and the
      keys of src/tendermint/go-crypto)

    A transaction travels as the text
    [chainID<tx>.version.payload.<1>.signature].  The wrappers encode and sign
    a payload, the parsers check the text, verify the signature and decode.
    Parameters of the section: SHA-512, SHA3-256 and RIPEMD-160, the base58
    package of btcutil (outside the repository), and [LoadAccount], the key a
    wallet file holds.  On an error the parsers return partly filled results
    with it; the model keeps the error. *)

From S2P Require Import Prelude GoStrings GoBase64 Base58 BigNum RlpTypes RlpEncode RlpEncodeSpec RlpStream RlpDecode RlpRoundTrip RlpClient Ed25519.

(** ** Data *)

Record Message := { Contract : list Z; MethodID : Z; Items : list (list Z) }.

Record Transaction := {
  Nonce : Z;
  GasLimit : Z;
  Note : list Z;
  Messages : list Message;
}.

(** [Transaction] of tx/v1. *)
Record Transaction1 := {
  Nonce1 : Z;
  GasLimit1 : Z;
  Note1 : list Z;
  To : list Z;
  Data : list Z;
}.

Record Ed25519Sig := { SigType : list Z; PubKey : list Z; SigValue : list Z }.

Record Query := { QueryKey : list Z }.

(** An exported field without an [rlp] tag. *)
Definition fld (name : string) (t : gotype) : field * gotype := (mkField (bs name) true [], t).

Definition byte_slice : gotype := TSlice (TUint 8).

Definition Message_t : gotype :=
  TStruct (bs "Message") [fld "Contract" TString; fld "MethodID" (TUint 32);
                          fld "Items" (TSlice byte_slice)].

Definition tx_fields : list (field * gotype) :=
  [fld "Nonce" (TUint 64); fld "GasLimit" (TInt 64); fld "Note" TString;
   fld "Messages" (TSlice Message_t)].

(** [types.Transaction], and the local type [transaction] of [WrapPayload]. *)
Definition Transaction_t : gotype := TStruct (bs "Transaction") tx_fields.
Definition transaction_t : gotype := TStruct (bs "transaction") tx_fields.

Definition Transaction1_t : gotype :=
  TStruct (bs "Transaction") [fld "Nonce" (TUint 64); fld "GasLimit" (TUint 64);
    fld "Note" TString; fld "To" TString; fld "Data" byte_slice].

Definition Ed25519Sig_t : gotype :=
  TStruct (bs "Ed25519Sig") [fld "SigType" TString; fld "PubKey" (TArray 32 (TUint 8));
                             fld "SigValue" (TArray 64 (TUint 8))].

Definition Query_t : gotype := TStruct (bs "Query") [fld "QueryKey" TString].

(** Values as reflection shows them. *)
Definition Message_val (m : Message) : goval :=
  VList [VStr (Contract m); VUint (MethodID m); VList (VBytes <$> Items m)].

Definition Transaction_val (tx : Transaction) : goval :=
  VList [VUint (Nonce tx); VInt (GasLimit tx); VStr (Note tx); VList (Message_val <$> Messages tx)].

Definition bytes_of (v : goval) : option (list Z) := match v with VBytes b => Some b | _ => None end.

Definition Message_of (v : goval) : option Message :=
  match v with
  | VList [VStr c; VUint m; VList items] =>
      l ← mapM bytes_of items; Some {| Contract := c; MethodID := m; Items := l |}
  | _ => None
  end.

Definition Transaction_of (v : goval) : option Transaction :=
  match v with
  | VList [VUint n; VInt g; VStr note; VList ms] =>
      l ← mapM Message_of ms;
      Some {| Nonce := n; GasLimit := g; Note := note; Messages := l |}
  | _ => None
  end.

#[export] Instance Transaction_rlp : RlpType Transaction :=
  {| go_type := Transaction_t; to_val := Transaction_val; of_val := Transaction_of |}.

#[export] Instance Transaction1_rlp : RlpType Transaction1 := {|
  go_type := Transaction1_t;
  to_val tx := VList [VUint (Nonce1 tx); VUint (GasLimit1 tx); VStr (Note1 tx); VStr (To tx);
                      VBytes (Data tx)];
  of_val v := match v with
              | VList [VUint n; VUint g; VStr note; VStr to; VBytes d] =>
                  Some {| Nonce1 := n; GasLimit1 := g; Note1 := note; To := to; Data := d |}
              | _ => None
              end |}.

#[export] Instance Ed25519Sig_rlp : RlpType Ed25519Sig := {|
  go_type := Ed25519Sig_t;
  to_val s := VList [VStr (SigType s); VBytes (PubKey s); VBytes (SigValue s)];
  of_val v := match v with
              | VList [VStr t; VBytes p; VBytes s] =>
                  Some {| SigType := t; PubKey := p; SigValue := s |}
              | _ => None
              end |}.

#[export] Instance Query_rlp : RlpType Query := {|
  go_type := Query_t;
  to_val q := VList [VStr (QueryKey q)];
  of_val v := match v with VList [VStr k] => Some {| QueryKey := k |} | _ => None end |}.

(** [NewTransaction] of tx/v1. *)
Definition NewTransaction (nonce gaslimit : Z) (note to data : list Z) : Transaction1 :=
  {| Nonce1 := nonce; GasLimit1 := gaslimit; Note1 := note; To := to; Data := data |}.

(** ** Errors *)

Inductive tx_err :=
| errTxData                       (* "tx data error" *)
| errRlp (e : rlp_err)
| errBase64 (e : base64_err)
| errVerifySig                    (* "verify sig fail" *)
| errTooManyMessages              (* "Up to two messages at one time" *)
| errNoMessage                    (* "no message in transaction" *)
| errTxDecode (e : rlp_err)       (* decoding failed; v2 and v3 may report the
                                     number of messages decoded so far instead *)
| errEmptyKeyOrSig
| errVerifyFailed.

Abbreviation run A := (res tx_err A).

(** Passing an error of another package on, or panicking on it. *)
Definition on_err {E A} (f : E -> tx_err) (r : res E A) : run A :=
  match r with Ok a => Ok a | Err e => Err (f e) | Panic => Panic | NoFuel => NoFuel end.

Definition or_panic {E A} (r : res E A) : run A :=
  match r with Ok a => Ok a | Err _ => Panic | Panic => Panic | NoFuel => NoFuel end.

(** ** [encoding/hex] *)

Definition fromHexChar (c : Z) : option Z :=
  if (48 <=? c) && (c <=? 57) then Some (c - 48)
  else if (97 <=? c) && (c <=? 102) then Some (c - 97 + 10)
  else if (65 <=? c) && (c <=? 70) then Some (c - 65 + 10)
  else None.

(** [None] is an invalid byte or an odd length. *)
Fixpoint hex_DecodeString (s : list Z) : option (list Z) :=
  match s with
  | [] => Some []
  | [_] => None
  | a :: b :: s' =>
      x ← fromHexChar a; y ← fromHexChar b; r ← hex_DecodeString s';
      Some (Z.lor (Z.shiftl x 4) y :: r)
  end.

(** [copy(arr[:], data)] into a fresh array of [n] bytes. *)
Definition to_array (n : nat) (data : list Z) : list Z :=
  take n data ++ replicate (n - length data) 0.

(** [strings.Index] of a byte. *)
Fixpoint Index (s : list Z) (c : Z) : option nat :=
  match s with
  | [] => None
  | x :: s' => if x =? c then Some O else S <$> Index s' c
  end.

Section tx.
Variable sha3_256 ripemd160 : list Z -> list Z.
Variable btc_Encode : list Z -> list Z.
Variable btc_Decode : list Z -> list Z.
(** [wal.LoadAccount(".", name, password)]: the private key of the account. *)
Variable LoadAccount : list Z -> list Z -> option (list Z).

(** ** Keys: go-crypto *)

Definition PrivKeyEd25519FromBytes (data : list Z) : list Z := to_array 64 data.
Definition PubKeyEd25519FromBytes (data : list Z) : list Z := to_array 32 data.
Definition SignatureEd25519FromBytes (data : list Z) : list Z := to_array 64 data.

(** [PrivKeyEd25519.PubKey] works on a copy of the key. *)
Definition PrivKey_PubKey (privKey : list Z) : list Z := (MakePublicKey privKey).1.
Definition PrivKey_Sign (privKey msg : list Z) : list Z := Sign privKey msg.
Definition VerifyBytes (pubKey msg sig : list Z) : bool := Verify pubKey msg sig.

(** [PubKeyEd25519.Address]; an empty chain id and a missing bracket panic. *)
Definition Address (pubKey chainID : list Z) : run (list Z) :=
  if str_eqb chainID [] then Panic
  else
    let* (mainChainID, chainName) :=
      match Index chainID 91 with
      | None => Ok (chainID, [])
      | Some start =>
          match Index chainID 93 with
          | None => Panic
          | Some stop =>
              if (stop <? S start)%nat then Panic
              else Ok (take start chainID, take (stop - S start) (drop (S start) chainID))
          end
      end in
    let rpd := ripemd160 (sha3_256 (mainChainID ++ pubKey)) in
    let md := ripemd160 rpd in
    if zlen md <? 4 then Panic
    else
      let addr := rpd ++ take 4 md in
      let address := mainChainID ++ btc_Encode addr in
      Ok (if str_eqb chainName [] then address else address ++ bs "0" ++ btc_Encode chainName).

(** ** src/sig *)

(** [Sign]: the error on empty data. *)
Definition sig_Sign (privateKey data : list Z) : option Ed25519Sig :=
  if zlen data <=? 0 then None
  else Some {| SigType := bs "ed25519"; PubKey := PrivKey_PubKey privateKey;
               SigValue := PrivKey_Sign privateKey data |}.

(** [Verify]: [Ok true] or an error. *)
Definition sig_Verify (pubkey data sig : list Z) : run bool :=
  if (zlen pubkey =? 0) || (zlen sig =? 0) then Err errEmptyKeyOrSig
  else if VerifyBytes (PubKeyEd25519FromBytes pubkey) data (SignatureEd25519FromBytes sig)
  then Ok true
  else Err errVerifyFailed.

(** ** Wrappers: tx/v2/wrapper.go and tx/v3/wrapper.go *)

(** [WrapInvokeParams]: the parameters as pairs of a type and a value. *)
Definition WrapInvokeParams (params : list (gotype * goval)) : run (list (list Z)) :=
  res_all ((fun p => or_panic (EncodeToBytes p.2 p.1)) <$> params).

Definition WrapPayload (nonce gasLimit : Z) (note : list Z) (messages : list Message)
    : run (list Z) :=
  or_panic (EncodeToBytes
    (Transaction_val {| Nonce := nonce; GasLimit := gasLimit; Note := note; Messages := messages |})
    transaction_t).

(** The signature [WrapTxEx] makes, with the three formats of a private key. *)
Definition sign_payload (payload privateKey : list Z) : run Ed25519Sig :=
  let isHexPrivKey := HasPrefix privateKey (bs "0x") in
  let segPrivKey := Split privateKey 58 in
  if isHexPrivKey && (zlen segPrivKey =? 1) then
    match hex_DecodeString (drop 2 privateKey) with
    | None => Panic
    | Some privKeyBytes =>
        let privKey := PrivKeyEd25519FromBytes privKeyBytes in
        Ok {| SigType := bs "ed25519"; PubKey := PrivKey_PubKey privKey;
              SigValue := PrivKey_Sign privKey payload |}
    end
  else
    match segPrivKey with
    | [name; password] =>
        match LoadAccount name password with
        | None => Panic
        | Some privKey =>
            match sig_Sign privKey payload with Some si => Ok si | None => Panic end
        end
    | _ => Panic
    end.

(** The five fields joined with dots. *)
Definition tx_text (chainID version payloadString sigString : list Z) : list Z :=
  chainID ++ bs "<tx>" ++ bs "." ++ version ++ bs "." ++ payloadString ++ bs "." ++ bs "<1>" ++
  bs "." ++ sigString.

Definition WrapTxEx_v2 (chainID payload privateKey : list Z) : run (list Z) :=
  let* sigInfo := sign_payload payload privateKey in
  let* sig := or_panic (rlp_EncodeToReader sigInfo) in
  let* payloadString := or_panic (Base58.Encode payload) in
  let* sigString := or_panic (Base58.Encode sig) in
  Ok (tx_text chainID (bs "v2") payloadString sigString).

(** [Init] of v2 and v3 sets the package variable [gChainID]; an operation that
    reads the variable takes its value as an argument. *)
Definition Init (gChainID _chainID : list Z) : list Z := _chainID.

Definition WrapTx_v2 (gChainID payload privateKey : list Z) : run (list Z) :=
  WrapTxEx_v2 gChainID payload privateKey.

Definition WrapTxEx_v3 (chainID payload privateKey : list Z) : run (list Z) :=
  let* sigInfo := sign_payload payload privateKey in
  let* sig := or_panic (rlp_EncodeToReader sigInfo) in
  Ok (tx_text chainID (bs "v3") (EncodeToString payload) (EncodeToString sig)).

Definition WrapTx_v3 (gChainID payload privateKey : list Z) : run (list Z) :=
  WrapTxEx_v3 gChainID payload privateKey.

(** ** Parsers: tx.go of v1, unwrapper.go of v2 and v3 *)

(** The check of the fixed fields. *)
Definition tx_guard (chainID tag version s0 s1 s3 : list Z) : bool :=
  str_eqb s0 (chainID ++ tag) && str_eqb s1 version && str_eqb s3 (bs "<1>").

Definition TxParse_v1 (chainID txString : list Z) : run (list Z * list Z * Transaction1) :=
  match Split txString 46 with
  | [s0; s1; s2; s3; s4] =>
      if tx_guard chainID (bs "<tx>") (bs "v1") s0 s1 s3 then
        let txData := btc_Decode s2 in
        let sigBytes := btc_Decode s4 in
        let* siginfo := on_err errRlp (rlp_Decode Ed25519Sig sigBytes) in
        if VerifyBytes (PubKey siginfo) txData (SigValue siginfo) then
          let* tx := on_err errRlp (rlp_Decode Transaction1 txData) in
          let* addr := Address (PubKey siginfo) chainID in
          Ok (addr, PubKey siginfo, tx)
        else Err errVerifySig
      else Err errTxData
  | _ => Err errTxData
  end.

(** The common end of [TxParse] in v2 and v3. *)
Definition parse_signed (txData sigBytes : list Z) : run (Transaction * list Z) :=
  let* siginfo := on_err errRlp (rlp_Decode Ed25519Sig sigBytes) in
  if VerifyBytes (PubKey siginfo) txData (SigValue siginfo) then
    let* tx := on_err errTxDecode (rlp_Decode Transaction txData) in
    if 2 <? zlen (Messages tx) then Err errTooManyMessages
    else if zlen (Messages tx) =? 0 then Err errNoMessage
    else Ok (tx, PubKey siginfo)
  else Err errVerifySig.

Definition TxParse_v2 (gChainID txString : list Z) : run (Transaction * list Z) :=
  match Split txString 46 with
  | [s0; s1; s2; s3; s4] =>
      if tx_guard gChainID (bs "<tx>") (bs "v2") s0 s1 s3
      then parse_signed (btc_Decode s2) (btc_Decode s4)
      else Err errTxData
  | _ => Err errTxData
  end.

Definition TxParse_v3 (gChainID txString : list Z) : run (Transaction * list Z) :=
  match Split txString 46 with
  | [s0; s1; s2; s3; s4] =>
      if tx_guard gChainID (bs "<tx>") (bs "v3") s0 s1 s3 then
        let* txData := on_err errBase64 (DecodeString s2) in
        let* sigBytes := on_err errBase64 (DecodeString s4) in
        parse_signed txData sigBytes
      else Err errTxData
  | _ => Err errTxData
  end.

(** [strs[i]]. *)
Definition seg (strs : list (list Z)) (i : nat) : run (list Z) :=
  match strs !! i with Some s => Ok s | None => Panic end.

(** [QueryDataParse] up to the signature check: the segments are indexed without
    a check of their number, the later ones only when the earlier comparisons of
    the [||] fail. *)
Definition query_signed (chainID txString : list Z) : run (list Z * Ed25519Sig) :=
  let strs := Split txString 46 in
  let* s0 := seg strs 0 in
  if negb (str_eqb s0 (chainID ++ bs "<qy>")) then Err errTxData
  else
    let* s1 := seg strs 1 in
    if negb (str_eqb s1 (bs "v1")) then Err errTxData
    else
      let* s3 := seg strs 3 in
      if negb (str_eqb s3 (bs "<1>")) then Err errTxData
      else
        let* s2 := seg strs 2 in
        let* s4 := seg strs 4 in
        let txData := btc_Decode s2 in
        let sigBytes := btc_Decode s4 in
        let* siginfo := on_err errRlp (rlp_Decode Ed25519Sig sigBytes) in
        if VerifyBytes (PubKey siginfo) txData (SigValue siginfo)
        then Ok (txData, siginfo)
        else Err errVerifySig.

(** The chain id of the package go-crypto. *)
Definition SetChainId (chainId cid : list Z) : list Z := cid.

Definition GetChainId (chainId : list Z) : run (list Z) :=
  if str_eqb chainId [] then Panic else Ok chainId.

(** [QueryDataParse], the same in v2 and v3: the result, and the chain id of the
    package go-crypto, which [SetChainId] changes once the signature holds. *)
Definition QueryDataParse (crypto_chainId chainID txString : list Z)
    : run (list Z * Query) * list Z :=
  match query_signed chainID txString with
  | Ok (txData, siginfo) =>
      (let* _ := Address (PubKey siginfo) chainID in
       let* qy := on_err errRlp (rlp_Decode Query txData) in
       let* addr := Address (PubKey siginfo) chainID in
       Ok (addr, qy), SetChainId crypto_chainId chainID)
  | Err e => (Err e, crypto_chainId)
  | Panic => (Panic, crypto_chainId)
  | NoFuel => (NoFuel, crypto_chainId)
  end.
End tx.
