(* ===== verification/TxSpec.v ===== *)
(** * Transactions: what is wrapped is parsed, what is parsed was signed

    The struct types of the transactions are [RlpCoded]; with the laws of the
    signature scheme the parsers of v2 and v3 invert the wrappers, and every
    parser accepts only what verifies. *)

From S2P Require Import Prelude GoStrings GoBase64 Base58 BigNum RlpTypes RlpEncode RlpEncodeSpec RlpReader RlpStream RlpStreamInv RlpDecode RlpRoundTrip RlpClient LittleEndian Ed25519 Tx.

(** ** The coded types *)

Definition message_ok (m : Message) : Prop :=
  bytes_ok (Contract m) /\ in_uN 32 (MethodID m) /\ Forall bytes_ok (Items m).

Definition transaction_ok (tx : Transaction) : Prop :=
  in_uN 64 (Nonce tx) /\ in_sN 64 (GasLimit tx) /\ bytes_ok (Note tx) /\
  Forall message_ok (Messages tx).

Definition sig_ok (s : Ed25519Sig) : Prop :=
  bytes_ok (SigType s) /\ array 32 (PubKey s) /\ array 64 (SigValue s).

Lemma mapM_of_to {A B} (f : A -> option B) (g : B -> A) (l : list B) :
  (forall x, f (g x) = Some x) -> mapM f (g <$> l) = Some l.
Proof. intros H. induction l as [|x l IH]; [done|]. cbn. by rewrite H, IH. Qed.

Lemma Message_of_val m : Message_of (Message_val m) = Some m.
Proof. destruct m. cbn. by rewrite mapM_of_to. Qed.

Lemma enc_elems_ok (f : goval -> result (list Z)) vs :
  Forall (fun v => exists b, f v = Ok b) vs -> exists b, enc_elems f vs = Ok b.
Proof.
  induction 1 as [|v vs [b E] H [p Ep]]; [by eexists|]. exists (b ++ p).
  cbn. by rewrite E, Ep.
Qed.

Lemma enc_items l : exists b,
  enc_elems (fun x => enc_val x byte_slice no_tags) (VBytes <$> l) = Ok b.
Proof. apply enc_elems_ok, Forall_fmap, Forall_true. intros x. by eexists. Qed.

Lemma Message_enc m : exists b, enc_val (Message_val m) Message_t no_tags = Ok b.
Proof.
  destruct (enc_items (Items m)) as [b E]. cbn. cbn in E. rewrite E. by eexists.
Qed.

Lemma Message_wt m : message_ok m -> wt (Message_val m) Message_t.
Proof.
  intros (H1 & H2 & H3). cbn. split; [done|]. split; [split; [|done]; unfold width_ok; auto|].
  split; [|done]. split; [done|]. apply allP_Forall, Forall_fmap.
  eapply Forall_impl; [exact H3|]. done.
Qed.

Lemma Message_canon m : message_ok m -> canon (Message_val m) Message_t no_tags.
Proof.
  intros (H1 & H2 & H3). cbn. split; [done|]. split; [split; [|done]; unfold width_ok; auto|].
  split; [|done]. split; [done|]. split; [done|]. apply allP_Forall, Forall_fmap.
  eapply Forall_impl; [exact H3|]. done.
Qed.

(** The encoding does not depend on the name of the struct type. *)
Lemma Transaction_enc tx : exists b, enc_bytes (Transaction_val tx) Transaction_t = Ok b /\
  enc_bytes (Transaction_val tx) transaction_t = Ok b.
Proof.
  destruct (enc_elems_ok (fun x => enc_val x Message_t no_tags) (Message_val <$> Messages tx)) as [b E].
  { apply Forall_fmap, Forall_true. intros x. apply Message_enc. }
  unfold enc_bytes. cbn -[enc_elems Message_t]. rewrite E. by eexists.
Qed.

Lemma untagged tname nf fi name ft : fieldTags tname nf fi (mkField name true []) ft = Some no_tags.
Proof. reflexivity. Qed.

#[export] Instance Transaction_coded : RlpCoded Transaction.
Proof.
  refine {| valid := transaction_ok |}.
  - intros []. cbn. by rewrite (mapM_of_to _ _ _ Message_of_val).
  - intros tx (H1 & H2 & H3 & H4). cbn -[Message_t]. unfold width_ok.
    split; [auto|]. split; [auto|]. split; [done|]. split; [|done]. split; [done|].
    apply allP_Forall, Forall_fmap. eapply Forall_impl; [exact H4|]. apply Message_wt.
  - intros tx (H1 & H2 & H3 & H4).
    cbn [to_val go_type Transaction_rlp Transaction_val Transaction_t tx_fields fld canon canon_fields
         length]. rewrite !untagged. unfold width_ok.
    split; [auto|]. split; [auto|]. split; [done|]. split; [|done]. split; [done|]. split; [done|].
    apply allP_Forall, Forall_fmap. eapply Forall_impl; [exact H4|]. apply Message_canon.
  - intros tx _. destruct (Transaction_enc tx) as (b & E & _). by exists b.
Defined.

#[export] Instance Ed25519Sig_coded : RlpCoded Ed25519Sig.
Proof.
  refine {| valid := sig_ok |}.
  - by intros [].
  - intros s (H1 & [H2 H3] & [H4 H5]). cbn. repeat split; done.
  - intros s (H1 & [H2 H3] & [H4 H5]). cbn.
    repeat split; try done; intros N; rewrite N in *; done.
  - intros s _. by eexists.
Defined.

(** ** The text of a transaction *)

Lemma tx_text_split chainID version p q : 46 ∉ chainID -> 46 ∉ version -> 46 ∉ p -> 46 ∉ q ->
  Split (tx_text chainID version p q) 46 = [chainID ++ bs "<tx>"; version; p; bs "<1>"; q].
Proof.
  intros Hc Hv Hp Hq. unfold tx_text.
  change (bs ".") with [46]. rewrite app_assoc. cbn [app].
  assert (46 ∉ bs "<tx>") as Ht by (apply (bool_decide_unpack _); vm_compute; exact I).
  assert (46 ∉ bs "<1>") as H1 by (apply (bool_decide_unpack _); vm_compute; exact I).
  rewrite Split_app by (rewrite elem_of_app; tauto).
  by rewrite !Split_app, Split_none by done.
Qed.

Lemma tx_guard_refl chainID tag version :
  tx_guard chainID tag version (chainID ++ tag) version (bs "<1>") = true.
Proof. unfold tx_guard. by rewrite !str_eqb_refl. Qed.

(** Base58 text has no dots. *)
Lemma encode_loop_chars f alphabet x l : encode_loop f alphabet x = Ok l ->
  Forall (fun c => c ∈ alphabet) l.
Proof.
  revert x l. induction f as [|f IH]; intros x l; cbn; destruct (0 <? x); try done;
    try (intros [= <-]; constructor).
  destruct (alphabet !! _) as [c|] eqn:C; [|done].
  destruct (encode_loop f _ _) as [r| | |] eqn:R; try done. intros [= <-].
  constructor; [by eapply list_elem_of_lookup_2|by eapply IH].
Qed.

Lemma base58_no_dot b s : Base58.Encode b = Ok s -> 46 ∉ s.
Proof.
  unfold Base58.Encode, EncodeAlphabet.
  destruct (encode_loop _ _ _) as [l| | |] eqn:L; try done.
  intros E D. assert (Forall (fun c => c ∈ BTCAlphabet) s) as F.
  { apply encode_loop_chars in L. destruct (leading 0 b) as [|n]; injection E as <-;
      rewrite Forall_reverse; [done|]. apply Forall_app. split; [done|].
    assert (49 ∈ BTCAlphabet) as H1 by (apply (bool_decide_unpack _); vm_compute; exact I).
    constructor; [exact H1|]. apply Forall_replicate, H1. }
  rewrite Forall_forall in F. apply F in D. revert D. apply (bool_decide_unpack _). vm_compute. exact I.
Qed.

Lemma base64_no_dot b : 46 ∉ EncodeToString b.
Proof.
  assert (forall n, char64 n <> 46) as C.
  { intros n H. pose proof (decodeMap_char64 n) as D. rewrite H in D. done. }
  assert (padChar <> 46) as P by done.
  induction b as [b IH] using (induction_ltof1 _ length). unfold ltof in IH.
  destruct b as [|x [|y [|z b]]]; cbn [EncodeToString]; rewrite ?not_elem_of_cons;
    repeat split; try apply not_elem_of_nil; try done; try (intros N; by apply eq_sym, C in N).
  apply IH. cbn. lia.
Qed.

Lemma base58_total b : bytes_ok b -> exists s, Base58.Encode b = Ok s.
Proof.
  intros H. destruct BTCAlphabet_ok as (L & ND & _).
  destruct (EncodeAlphabet_ok _ _ L ND b H) as (n & l & _ & E & _). by eexists.
Qed.

(** ** Wrapping and parsing *)

Lemma enc_string_len_le b : zlen b < 2 ^ 64 -> zlen (enc_string b) <= zlen b + 9.
Proof.
  intros H. pose proof (zlen_nonneg b).
  assert (forall n s l, 0 <= n < 2 ^ 64 -> zlen (header s l n) <= 9) as Hh.
  { intros n sm lg Hn. rewrite header_len by done. pose proof (header_len_le n Hn). lia. }
  destruct b as [|x [|y b]]; cbn [enc_string]; [| |rewrite zlen_app; pose proof (Hh (zlen (x :: y :: b)) 0x80 0xB7); lia].
  - rewrite zlen_app. pose proof (Hh 0 0x80 0xB7). change (zlen []) with 0 in *. lia.
  - destruct (x <? 128); [change (zlen [x]) with 1; lia|].
    rewrite zlen_app. pose proof (Hh 1 0x80 0xB7). lia.
Qed.

Lemma enc_list_len_le b : zlen b < 2 ^ 64 -> zlen (enc_list b) <= zlen b + 9.
Proof.
  intros H. pose proof (zlen_nonneg b). unfold enc_list. rewrite zlen_app, header_len by lia.
  pose proof (header_len_le (zlen b)). lia.
Qed.

Lemma sig_encodes s : sig_ok s -> zlen (SigType s) < 100 -> exists b, encodes s b.
Proof.
  intros (_ & [Hp _] & [Hs _]) Ht. eexists. split; [reflexivity|].
  pose proof (enc_string_len_le (SigType s)). pose proof (enc_string_len_le (PubKey s)).
  pose proof (enc_string_len_le (SigValue s)).
  assert (zlen (PubKey s) = 32) by (unfold zlen; lia).
  assert (zlen (SigValue s) = 64) by (unfold zlen; lia).
  set (p := enc_string (SigType s) ++ enc_string (PubKey s) ++ enc_string (SigValue s) ++ []).
  assert (zlen p < 300) by (unfold p; rewrite !zlen_app; change (zlen []) with 0; lia).
  pose proof (enc_list_len_le p). unfold maxAlloc. lia.
Qed.

Section roundtrip.
Variable LoadAccount : list Z -> list Z -> option (list Z).

(** The key a private-key text names. *)
Definition key_of (privateKey : list Z) : option (list Z) :=
  if HasPrefix privateKey (bs "0x") && (zlen (Split privateKey 58) =? 1) then
    PrivKeyEd25519FromBytes <$> hex_DecodeString (drop 2 privateKey)
  else match Split privateKey 58 with
       | [name; password] => LoadAccount name password
       | _ => None
       end.

Definition sig_of (k payload : list Z) : Ed25519Sig :=
  {| SigType := bs "ed25519"; PubKey := PrivKey_PubKey k;
     SigValue := PrivKey_Sign k payload |}.

Lemma sign_payload_ok privateKey k payload : key_of privateKey = Some k -> payload <> [] ->
  sign_payload LoadAccount payload privateKey = Ok (sig_of k payload).
Proof.
  intros K Hp. unfold sign_payload, key_of in *.
  destruct (HasPrefix _ _ && _).
  - destruct (hex_DecodeString _); [|done]. injection K as <-. done.
  - destruct (Split privateKey 58) as [|n [|w [|]]]; try done. rewrite K. unfold sig_Sign.
    destruct (Z.leb_spec (zlen payload) 0); [|done]. destruct payload; [done|].
    rewrite zlen_cons in *. pose proof (zlen_nonneg payload). lia.
Qed.

Lemma sig_of_ok k payload : key_ok k -> sig_ok (sig_of k payload) /\
  VerifyBytes (PubKey (sig_of k payload)) payload (SigValue (sig_of k payload)) = true.
Proof.
  intros Hk. destruct (Verify_Sign_ok k payload Hk) as [A V].
  destruct Hk as [_ Hk]. unfold sig_of, VerifyBytes, PrivKey_PubKey. cbn [PubKey SigValue].
  rewrite <- Hk. split; [|done]. split; [|split]; cbn [PubKey SigValue SigType]; [|rewrite Hk, MakePublicKey_point; apply encode_array|done].
  apply (bool_decide_unpack _). vm_compute. exact I.
Qed.

Definition tx_of (nonce gasLimit : Z) (note : list Z) (messages : list Message) : Transaction :=
  {| Nonce := nonce; GasLimit := gasLimit; Note := note; Messages := messages |}.

(** The payload is the encoding of the transaction. *)
Lemma WrapPayload_ok nonce gasLimit note messages payload :
  let tx := tx_of nonce gasLimit note messages in
  transaction_ok tx -> encodes tx payload ->
  WrapPayload nonce gasLimit note messages = Ok payload /\ payload <> [].
Proof.
  intros tx Hv [E1 Hm]. destruct (Transaction_enc tx) as (b & E1' & E2).
  assert (b = payload) as -> by (cbn [to_val go_type Transaction_rlp] in E1; congruence).
  split.
  - assert (EncodeToBytes (Transaction_val tx) transaction_t = Ok payload) as B.
    { unfold EncodeToBytes, encode. unfold enc_bytes in E2. destruct (cachedTypeInfo _); try done.
      apply writes_toBytes, makeWriter_writes; [exact (coded_wt tx Hv)|done|].
      unfold maxAlloc in Hm. lia. }
    unfold WrapPayload. unfold tx, tx_of in B. by rewrite B.
  - intros ->. unfold enc_bytes, cachedTypeInfo in E1'.
    destruct (genTypeInfo_err Transaction_t); [done|]. cbn -[enc_fields] in E1'.
    destruct (enc_fields _ _ _ _ _ _) as [p| | |]; try done. injection E1' as E1'.
    pose proof (enc_list_len p) as Lp. rewrite E1' in Lp. pose proof (zlen_nonneg p).
    change (zlen []) with 0 in Lp. lia.
Qed.

(** What a node answers to a transaction signed with [k]: one or two messages are admitted. *)
Definition answer (tx : Transaction) (k : list Z) (r : run (Transaction * list Z)) : Prop :=
  (1 <= zlen (Messages tx) <= 2 -> r = Ok (tx, PrivKey_PubKey k)) /\
  (zlen (Messages tx) = 0 -> r = Err errNoMessage) /\
  (2 < zlen (Messages tx) -> r = Err errTooManyMessages).

(** The end of the parsers on a signed encoding. *)
Lemma parse_signed_ok tx payload k sigb : transaction_ok tx -> encodes tx payload ->
  key_ok k -> encodes (sig_of k payload) sigb -> answer tx k (parse_signed payload sigb).
Proof.
  intros Hv He Hk Hs. destruct (sig_of_ok k payload Hk) as [Sok V].
  unfold parse_signed. rewrite (rlp_Decode_ok (sig_of k payload) sigb) by done. cbn [on_err].
  rewrite V, (rlp_Decode_ok tx payload) by done. cbn [on_err].
  unfold answer. destruct (Z.ltb_spec 2 (zlen (Messages tx))); [by split_and!; intros; try lia|].
  destruct (Z.eqb_spec (zlen (Messages tx)) 0); by split_and!; intros; try lia.
Qed.
End roundtrip.

(** Version 2: wrapping and parsing. *)
Lemma wrap_parse_v2 btc_Decode LoadAccount
    chainID privateKey k nonce gasLimit note messages payload :
  (forall b s, bytes_ok b -> Base58.Encode b = Ok s -> btc_Decode s = b) ->
  let tx := tx_of nonce gasLimit note messages in
  transaction_ok tx -> encodes tx payload ->
  46 ∉ chainID -> key_of LoadAccount privateKey = Some k -> key_ok k ->
  exists text, WrapPayload nonce gasLimit note messages = Ok payload /\
    WrapTx_v2 LoadAccount chainID payload privateKey = Ok text /\
    answer tx k (TxParse_v2 btc_Decode chainID text).
Proof.
  intros Hbtc tx Hv He Hc HK Hk.
  destruct (WrapPayload_ok nonce gasLimit note messages payload Hv He) as [Wp Ne].
  destruct (sig_of_ok k payload Hk) as [Sok _].
  destruct (sig_encodes _ Sok ltac:(reflexivity)) as [sigb Hs].
  assert (bytes_ok payload) as B1 by (by apply (encodes_bytes_ok tx)).
  assert (bytes_ok sigb) as B2 by (by apply (encodes_bytes_ok (sig_of k payload))).
  destruct (base58_total payload B1) as [ps Eps], (base58_total sigb B2) as [ss Ess].
  eexists. split; [done|]. split.
  - unfold WrapTx_v2, WrapTxEx_v2. rewrite (sign_payload_ok LoadAccount _ k) by done.
    rewrite (rlp_EncodeToReader_ok _ sigb) by done. cbn [or_panic]. by rewrite Eps, Ess.
  - unfold TxParse_v2.
    rewrite tx_text_split; [|done|by apply (bool_decide_unpack _); vm_compute|by eapply base58_no_dot..].
    rewrite tx_guard_refl, (Hbtc _ _ B1 Eps), (Hbtc _ _ B2 Ess).
    by apply parse_signed_ok.
Qed.

(** ** Properties *)

(** C2: round trip of version 2.  Take a transaction whose fields fit their Go
    types and whose encoding is within the decoder's limits, a chain id without
    dots and a private-key text that names a key whose second half is its public
    key.  [WrapPayload] and [WrapTx] produce a text.  If the transaction has one or
    two messages, [TxParse] of the text returns it with the signer's public key;
    without messages, or with more than two, [TxParse] refuses the text with the
    error for that.  Hypothesis on code outside the model: btcutil's [Decode] reads
    Bitcoin base58. *)
Theorem TxParse_WrapTx_v2 btc_Decode LoadAccount
    chainID privateKey k nonce gasLimit note messages payload :
  (forall b s, bytes_ok b -> Base58.Encode b = Ok s -> btc_Decode s = b) ->
  let tx := tx_of nonce gasLimit note messages in
  transaction_ok tx -> encodes tx payload ->
  46 ∉ chainID -> key_of LoadAccount privateKey = Some k -> key_ok k ->
  exists text, WrapPayload nonce gasLimit note messages = Ok payload /\
    WrapTx_v2 LoadAccount chainID payload privateKey = Ok text /\
    answer tx k (TxParse_v2 btc_Decode chainID text).
Proof. apply wrap_parse_v2. Qed.

(** C11: round trip of version 3, whose fields are base64, under the conditions of
    version 2 on the transaction, the chain id and the key: the text of one or two
    messages parses to the transaction and the public key, other texts are refused. *)
Theorem TxParse_WrapTx_v3 LoadAccount
    chainID privateKey k nonce gasLimit note messages payload :
  let tx := tx_of nonce gasLimit note messages in
  transaction_ok tx -> encodes tx payload ->
  46 ∉ chainID -> key_of LoadAccount privateKey = Some k -> key_ok k ->
  exists text, WrapPayload nonce gasLimit note messages = Ok payload /\
    WrapTx_v3 LoadAccount chainID payload privateKey = Ok text /\
    answer tx k (TxParse_v3 chainID text).
Proof.
  intros tx Hv He Hc HK Hk.
  destruct (WrapPayload_ok nonce gasLimit note messages payload Hv He) as [Wp Ne].
  destruct (sig_of_ok k payload Hk) as [Sok _].
  destruct (sig_encodes _ Sok ltac:(reflexivity)) as [sigb Hs].
  assert (bytes_ok payload) as B1 by (by apply (encodes_bytes_ok tx)).
  assert (bytes_ok sigb) as B2 by (by apply (encodes_bytes_ok (sig_of k payload))).
  eexists. split; [done|]. split.
  - unfold WrapTx_v3, WrapTxEx_v3. rewrite (sign_payload_ok LoadAccount _ k) by done.
    by rewrite (rlp_EncodeToReader_ok _ sigb) by done.
  - unfold TxParse_v3.
    rewrite tx_text_split; [|done|by apply (bool_decide_unpack _); vm_compute|apply base64_no_dot..].
    rewrite tx_guard_refl, !DecodeString_EncodeToString by done. cbn [on_err].
    by apply parse_signed_ok.
Qed.

(** *** Samples for the witnesses *)

Definition toy_btc_Decode (s : list Z) : list Z :=
  match Base58.Decode s with Ok b => b | _ => [] end.
Definition toy_key : list Z := (MakePublicKey (replicate 64 7)).2.
Definition toy_LoadAccount (name password : list Z) : option (list Z) := Some toy_key.
Definition sample_messages : list Message :=
  [{| Contract := bs "bcbTest"; MethodID := 7; Items := [[1; 2]; [3]] |}].
Definition sample_payload : list Z :=
  match WrapPayload 1 1000 (bs "note") sample_messages with Ok b => b | _ => [] end.
Definition text_of (r : run (list Z)) : list Z := match r with Ok s => s | _ => [] end.
Definition sample_text : list Z :=
  text_of (WrapTx_v2 toy_LoadAccount (bs "bcb") sample_payload (bs "alice:pw")).

Lemma toy_key_ok : key_ok toy_key.
Proof.
  pose proof (MakePublicKey_key_ok (replicate 64 7) eq_refl) as K.
  unfold toy_key. destruct (MakePublicKey (replicate 64 7)). apply K.
Qed.

Lemma toy_btc_Decode_ok b s : bytes_ok b -> Base58.Encode b = Ok s -> toy_btc_Decode s = b.
Proof.
  intros Hb E. destruct BTCAlphabet_ok as (L & ND & _).
  destruct (EncodeAlphabet_ok _ _ L ND b Hb) as (n & l & Eb & Es & V & Ll).
  pose proof (eq_trans (eq_sym E) Es) as Q.
  injection Q as ->. unfold toy_btc_Decode, Base58.Decode.
  pose proof (DecodeAlphabet_ok _ _ L ND n l (be_val b) V Ll) as D.
  rewrite <- Eb in D. 
  exact (f_equal (fun r => match r with Ok b => b | _ => [] end) D).
Qed.

Lemma sample_ok : transaction_ok (tx_of 1 1000 (bs "note") sample_messages).
Proof.
  repeat split; cbn; try (unfold in_uN, in_sN; lia);
    repeat constructor; unfold in_uN, in_sN, byte_ok; cbn; try lia; repeat constructor; lia.
Qed.

Lemma sample_encodes : encodes (tx_of 1 1000 (bs "note") sample_messages) sample_payload.
Proof. split; [vm_compute; reflexivity|vm_compute; reflexivity]. Qed.

Lemma sample_parse : TxParse_v2 toy_btc_Decode (bs "bcb") sample_text =
  Ok (tx_of 1 1000 (bs "note") sample_messages, PrivKey_PubKey toy_key).
Proof.
  destruct (wrap_parse_v2 toy_btc_Decode toy_LoadAccount (bs "bcb") (bs "alice:pw") toy_key
    1 1000 (bs "note") sample_messages sample_payload) as (text & _ & W & P).
  - apply toy_btc_Decode_ok.
  - apply sample_ok.
  - apply sample_encodes.
  - apply (bool_decide_unpack _). vm_compute. exact I.
  - reflexivity.
  - apply toy_key_ok.
  - unfold sample_text. rewrite W. apply P. vm_compute. split; discriminate.
Qed.

Lemma TxParse_WrapTx_v2_witness :
  let tx := tx_of 1 1000 (bs "note") sample_messages in
  exists text, WrapPayload 1 1000 (bs "note") sample_messages = Ok sample_payload /\
    WrapTx_v2 toy_LoadAccount (bs "bcb") sample_payload (bs "alice:pw") = Ok text /\
    answer tx toy_key (TxParse_v2 toy_btc_Decode (bs "bcb") text).
Proof.
  apply (TxParse_WrapTx_v2 toy_btc_Decode toy_LoadAccount (bs "bcb") (bs "alice:pw") toy_key
    1 1000 (bs "note") sample_messages sample_payload).
  - apply toy_btc_Decode_ok.
  - apply sample_ok.
  - apply sample_encodes.
  - apply (bool_decide_unpack _). vm_compute. exact I.
  - reflexivity.
  - apply toy_key_ok.
Defined.

Lemma TxParse_WrapTx_v3_witness :
  let tx := tx_of 1 1000 (bs "note") sample_messages in
  exists text, WrapPayload 1 1000 (bs "note") sample_messages = Ok sample_payload /\
    WrapTx_v3 toy_LoadAccount (bs "bcb") sample_payload (bs "alice:pw") = Ok text /\
    answer tx toy_key (TxParse_v3 (bs "bcb") text).
Proof.
  apply (TxParse_WrapTx_v3 toy_LoadAccount (bs "bcb") (bs "alice:pw") toy_key
    1 1000 (bs "note") sample_messages sample_payload).
  - apply sample_ok.
  - apply sample_encodes.
  - apply (bool_decide_unpack _). vm_compute. exact I.
  - reflexivity.
  - apply toy_key_ok.
Defined.

(** What [parse_signed] accepts. *)
Lemma parse_signed_inv txData sigBytes tx pub :
  parse_signed txData sigBytes = Ok (tx, pub) ->
  exists siginfo, rlp_Decode Ed25519Sig sigBytes = Ok siginfo /\ PubKey siginfo = pub /\
    VerifyBytes pub txData (SigValue siginfo) = true /\
    rlp_Decode Transaction txData = Ok tx /\ 1 <= zlen (Messages tx) <= 2.
Proof.
  unfold parse_signed. destruct (rlp_Decode Ed25519Sig sigBytes) as [s| | |]; try done.
  cbn [on_err]. destruct (VerifyBytes _ _ _) eqn:V; [|done].
  destruct (rlp_Decode Transaction txData) as [t| | |]; try done. cbn [on_err].
  destruct (Z.ltb_spec 2 (zlen (Messages t))); [done|].
  destruct (Z.eqb_spec (zlen (Messages t)) 0); [done|]. intros [= <- <-].
  exists s. pose proof (zlen_nonneg (Messages t)). repeat split; try done; lia.
Qed.

(** The five segments the parsers accept. *)
Lemma split_guard chainID tag version text s0 s1 s2 s3 s4 :
  Split text 46 = [s0; s1; s2; s3; s4] -> tx_guard chainID tag version s0 s1 s3 = true ->
  text = Join [chainID ++ tag; version; s2; bs "<1>"; s4] 46.
Proof.
  intros S G. unfold tx_guard in G. apply andb_prop in G as [G G3]. apply andb_prop in G as [G0 G1].
  apply str_eqb_eq in G0 as ->, G1 as ->, G3 as ->. by rewrite <- S, Join_Split.
Qed.

(** C6: authenticity.  A transaction that [TxParse] of v2 or v3 returns was
    signed: the text has the five fields for this chain and version, the
    signature field decodes to a signature by the returned public key that
    verifies over the payload bytes, the transaction is what these bytes decode
    to, and it has one or two messages. *)
Theorem TxParse_authentic btc_Decode chainID text tx pub :
  TxParse_v2 btc_Decode chainID text = Ok (tx, pub) \/
  TxParse_v3 chainID text = Ok (tx, pub) ->
  exists version s2 s4 txData sigBytes siginfo,
    text = Join [chainID ++ bs "<tx>"; version; s2; bs "<1>"; s4] 46 /\
    ((version = bs "v2" /\ txData = btc_Decode s2 /\ sigBytes = btc_Decode s4) \/
     (version = bs "v3" /\ DecodeString s2 = Ok txData /\ DecodeString s4 = Ok sigBytes)) /\
    rlp_Decode Ed25519Sig sigBytes = Ok siginfo /\ PubKey siginfo = pub /\
    VerifyBytes pub txData (SigValue siginfo) = true /\
    rlp_Decode Transaction txData = Ok tx /\ 1 <= zlen (Messages tx) <= 2.
Proof.
  unfold TxParse_v2, TxParse_v3.
  intros H. destruct (Split text 46) as [|s0 [|s1 [|s2 [|s3 [|s4 [|]]]]]] eqn:S; try (by destruct H).
  destruct H as [H|H]; destruct (tx_guard _ _ _ _ _ _) eqn:G; try done.
  - apply parse_signed_inv in H as (si & H). exists (bs "v2"), s2, s4, (btc_Decode s2), (btc_Decode s4), si.
    split; [by eapply split_guard|]. split; [by left|done].
  - destruct (DecodeString s2) as [txData| | |] eqn:D2; try done. cbn [on_err] in H.
    destruct (DecodeString s4) as [sigBytes| | |] eqn:D4; try done. cbn [on_err] in H.
    apply parse_signed_inv in H as (si & H). exists (bs "v3"), s2, s4, txData, sigBytes, si.
    split; [by eapply split_guard|]. split; [by right|done].
Qed.

Lemma TxParse_authentic_witness :
  let tx := tx_of 1 1000 (bs "note") sample_messages in
  let pub := PrivKey_PubKey toy_key in
  exists version s2 s4 txData sigBytes siginfo,
    sample_text = Join [bs "bcb" ++ bs "<tx>"; version; s2; bs "<1>"; s4] 46 /\
    ((version = bs "v2" /\ txData = toy_btc_Decode s2 /\ sigBytes = toy_btc_Decode s4) \/
     (version = bs "v3" /\ DecodeString s2 = Ok txData /\ DecodeString s4 = Ok sigBytes)) /\
    rlp_Decode Ed25519Sig sigBytes = Ok siginfo /\ PubKey siginfo = pub /\
    VerifyBytes pub txData (SigValue siginfo) = true /\
    rlp_Decode Transaction txData = Ok tx /\ 1 <= zlen (Messages tx) <= 2.
Proof.
  apply (TxParse_authentic toy_btc_Decode (bs "bcb") sample_text).
  left. exact sample_parse.
Defined.

(** [QueryDataParse] indexes the segments of the text without counting them:
    a text with the right first two fields and nothing else makes it panic. *)
Theorem QueryDataParse_short_panics sha3_256 ripemd160 btc_Encode
    btc_Decode chainId :
  QueryDataParse sha3_256 ripemd160 btc_Encode btc_Decode chainId (bs "bcb")
    (bs "bcb<qy>.v1") = (Panic, chainId).
Proof. reflexivity. Qed.
