(* ===== verification/AminoTypes.v ===== *)
(** * go-amino: Go types and values, and the primitive encoders and decoders

    Models src/tendermint/go-amino/reflect.go, encoder.go and decoder.go.  The
    types of the encoded data belong to the program that uses the codec: a
    [Types] holds its named types and which of them implement which interface.
    Go values are trees; a pointer is the value it points to.  The elements of
    a slice or array whose element kind is [Uint8] are stored as bytes.  Writers
    are [bytes.Buffer]s, which never fail: an encoder returns the bytes it
    writes.  A decoder returns the value and the number of bytes it read.
    Floating-point numbers are their bit patterns. *)

From S2P Require Import Prelude GoStrings GoBytes.

#[local] Set Warnings "-register-all".
Local Open Scope Z_scope.

Abbreviation bytes := (list Z).
Abbreviation str := (list Z).

(** ** Types *)

(** The widths of integer types; [W] is [int] and [uint], which have 64 bits. *)
Inductive ikind := W | W8 | W16 | W32 | W64.

Definition bits (k : ikind) : Z := match k with W | W64 => 64 | W32 => 32 | W16 => 16 | W8 => 8 end.

Inductive rtype :=
| TBool
| TInt (k : ikind)
| TUint (k : ikind)
| TFloat32
| TFloat64
| TString
| TTime                        (* time.Time *)
| TSlice (e : rtype)
| TArray (n : nat) (e : rtype)
| TPtr (e : rtype)
| TMap (k e : rtype)
| TOther                       (* channels, functions, complex numbers *)
| TNamed (name : str).         (* a defined type; an unnamed struct or interface type has its expression as a name *)

#[export] Instance ikind_eq_dec : EqDecision ikind.
Proof. solve_decision. Defined.
#[export] Instance rtype_eq_dec : EqDecision rtype.
Proof. solve_decision. Defined.

(** [reflect.StructField]; the tag as the list of its keys and values. *)
Record StructField := { sf_Name : str; sf_PkgPath : str; sf_Tag : list (str * str); sf_Type : rtype }.

(** What a named type is declared as; the type of [DType] is neither a named nor a pointer type. *)
Inductive declared := DType (t : rtype) | DStruct (fs : list StructField) | DInterface.

(** The types of the program.  [ptr_implements t i]: type [*t] implements the interface named
    [i]; [implements t i]: [t] does. *)
Record Types := {
  decls : list (str * declared);
  ptr_implements : rtype -> str -> bool;
  implements : rtype -> str -> bool;
}.

Fixpoint assoc {A} (n : str) (l : list (str * A)) : option A :=
  match l with [] => None | (m, a) :: l' => if str_eqb n m then Some a else assoc n l' end.

Definition decl (T : Types) (n : str) : option declared := assoc n (decls T).

(** The kind of a type with what [Elem], [Len] and [Field] tell about it. *)
Inductive shape :=
| SBool | SInt (k : ikind) | SUint (k : ikind) | SFloat32 | SFloat64 | SString | STime
| SSlice (e : rtype) | SArray (n : nat) (e : rtype) | SPtr (e : rtype) | SMap
| SStruct (fs : list StructField) | SInterface (name : str) | SOther.

Definition shape_unnamed (rt : rtype) : shape :=
  match rt with
  | TBool => SBool | TInt k => SInt k | TUint k => SUint k | TFloat32 => SFloat32 | TFloat64 => SFloat64
  | TString => SString | TTime => STime | TSlice e => SSlice e | TArray n e => SArray n e | TPtr e => SPtr e
  | TMap _ _ => SMap | TOther | TNamed _ => SOther
  end.

Definition shape_of (T : Types) (rt : rtype) : shape :=
  match rt with
  | TNamed n =>
      match decl T n with
      | Some (DType (TPtr _ | TNamed _)) | None => SOther
      | Some (DType TTime) => SStruct []
      | Some (DType t) => shape_unnamed t
      | Some (DStruct fs) => SStruct fs
      | Some DInterface => SInterface n
      end
  | _ => shape_unnamed rt
  end.

Definition is_byte (T : Types) (e : rtype) : bool := match shape_of T e with SUint W8 => true | _ => false end.

(** ** Values *)

Inductive value :=
| VBool (b : bool)
| VInt (z : Z)
| VUint (z : Z)
| VFloat (b : Z)                              (* math.Float32bits, math.Float64bits *)
| VString (s : str)
| VTime (sec nsec : Z)                        (* Unix, Nanosecond *)
| VBytes (o : option bytes)                   (* a slice of bytes, or nil *)
| VByteArray (l : bytes)
| VSlice (o : option (list value))
| VArray (l : list value)
| VPtr (o : option value)
| VMap (n : option nat)                       (* nil, or the number of entries *)
| VStruct (vs : list value)
| VIface (o : option (rtype * value))         (* the dynamic type and value, or nil *)
| VOther.

(** [reflect.Zero].  Go has no struct type that contains itself: as many levels of named
    types as there are declarations are enough. *)
Fixpoint zero_at (T : Types) (fuel : nat) : rtype -> value :=
  fix z rt :=
    match rt with
    | TBool => VBool false
    | TInt _ => VInt 0
    | TUint _ => VUint 0
    | TFloat32 | TFloat64 => VFloat 0
    | TString => VString []
    | TTime => VTime (-62135596800) 0
    | TSlice e => if is_byte T e then VBytes None else VSlice None
    | TArray n e => if is_byte T e then VByteArray (replicate n 0) else VArray (replicate n (z e))
    | TPtr _ => VPtr None
    | TMap _ _ => VMap None
    | TOther => VOther
    | TNamed n =>
        match fuel, decl T n with
        | S f, Some (DType (TPtr _ | TNamed _)) => VOther
        | S f, Some (DType TTime) => VStruct []
        | S f, Some (DType t) => zero_at T f t
        | S f, Some (DStruct fs) => VStruct (map (fun fd => zero_at T f (sf_Type fd)) fs)
        | _, Some DInterface => VIface None
        | _, _ => VOther
        end
    end.

Definition zero (T : Types) (rt : rtype) : value := zero_at T (length (decls T)) rt.

(** ** reflect.go *)

Fixpoint derefPointers (rv : value) : value * bool * bool :=
  match rv with
  | VPtr None => (rv, true, true)
  | VPtr (Some v) => let '(drv, _, isNilPtr) := derefPointers v in (drv, true, isNilPtr)
  | _ => (rv, false, false)
  end.

Definition isVoid (rv : value) : value * bool :=
  let '(rv, _, isNilPtr) := derefPointers rv in
  if isNilPtr then (rv, true)
  else
    (rv, match rv with
         | VString s => zlen s =? 0
         | VBytes o => match o with None => true | Some l => zlen l =? 0 end
         | VSlice o => match o with None => true | Some l => zlen l =? 0 end
         | VMap o => match o with None => true | Some n => (n =? 0)%nat end
         | VIface None => true
         | _ => false
         end).

(** The type behind all pointers, and whether there was one. *)
Fixpoint derefType (rt : rtype) : rtype * bool :=
  match rt with TPtr e => ((derefType e).1, true) | _ => (rt, false) end.

(** [Typ3] and [Typ4] (amino.go). *)
Definition Typ3_Varint : Z := 0.
Definition Typ3_8Byte : Z := 1.
Definition Typ3_ByteLength : Z := 2.
Definition Typ3_Struct : Z := 3.
Definition Typ3_StructTerm : Z := 4.
Definition Typ3_4Byte : Z := 5.
Definition Typ3_List : Z := 6.
Definition Typ3_Interface : Z := 7.
Definition Typ4_Pointer : Z := 8.

Definition Typ3 (typ : Z) : Z := Z.land typ 7.
Definition IsPointer (typ : Z) : bool := 0 <? Z.land typ 8.

Inductive amino_err :=
| EOF | Invalid_int | Invalid_bool | Expected_field_number | Expected_typ3 | Invalid_time | Insufficient_bytes
| Negative_length | Invalid_field_num | Invalid_typ | Typ_mismatch | Unexpected_nil_byte | Float_unsafe
| Unregistered_interface | Unregistered_concrete | Non_nil_interface | Unrecognized_prefix | Conflicting_types
| Length_mismatch | Impossible_count | Empty_bytes | Not_all_read | Read_overflow.

Abbreviation R := (res amino_err).

Record FieldOptions := {
  JSONName : str; JSONOmitEmpty : bool; BinVarint : bool; BinFieldNum : Z; Unsafe : bool;
}.

Definition typeToTyp3 (T : Types) (rt : rtype) (opts : FieldOptions) : R Z :=
  match shape_of T rt with
  | SInterface _ => Ok Typ3_Interface
  | SArray _ ert | SSlice ert => Ok (if is_byte T ert then Typ3_ByteLength else Typ3_List)
  | SString => Ok Typ3_ByteLength
  | SStruct _ | STime | SMap => Ok Typ3_Struct
  | SInt W64 | SUint W64 => Ok (if BinVarint opts then Typ3_Varint else Typ3_8Byte)
  | SFloat64 => Ok Typ3_8Byte
  | SInt W32 | SUint W32 | SFloat32 => Ok Typ3_4Byte
  | SInt _ | SUint _ | SBool => Ok Typ3_Varint
  | SPtr _ | SOther => Panic
  end.

Definition typeToTyp4 (T : Types) (rt : rtype) (opts : FieldOptions) : R Z :=
  let (rt, pointer) := derefType rt in
  let* typ := typeToTyp3 T rt opts in
  Ok (if pointer then Z.lor typ Typ4_Pointer else typ).

(** [slide] moves the input on and counts; it panics when there is not that much input. *)
Definition slide (bz : bytes) (n _n : Z) : R (bytes * Z) :=
  if (_n <? 0) || (zlen bz <? _n) then Panic else Ok (drop (Z.to_nat _n) bz, n + _n).

(** ** encoder.go *)

Definition EncodeVarint (i : Z) : bytes := PutVarint i.
Definition EncodeInt8 (i : Z) : bytes := EncodeVarint i.
Definition EncodeInt16 (i : Z) : bytes := EncodeVarint i.
Definition EncodeInt32 (i : Z) : bytes := be_bytes 4 (u32 i).
Definition EncodeInt64 (i : Z) : bytes := be_bytes 8 (u64 i).
Definition VarintSize (i : Z) : Z := zlen (PutVarint i).

Definition EncodeUvarint (u : Z) : bytes := PutUvarint u.
Definition EncodeUint8 (u : Z) : bytes := EncodeUvarint u.
Definition EncodeByte (b : Z) : bytes := EncodeUvarint b.
Definition EncodeUint16 (u : Z) : bytes := EncodeUvarint u.
Definition EncodeUint32 (u : Z) : bytes := be_bytes 4 u.
Definition EncodeUint64 (u : Z) : bytes := be_bytes 8 u.
Definition UvarintSize (u : Z) : Z := zlen (PutUvarint u).

Definition EncodeBool (b : bool) : bytes := if b then EncodeUint8 1 else EncodeUint8 0.
Definition EncodeFloat32 (f : Z) : bytes := EncodeUint32 f.
Definition EncodeFloat64 (f : Z) : bytes := EncodeUint64 f.

(** The key of a field (binary-encode.go). *)
Definition encodeFieldNumberAndTyp3 (num typ : Z) : R bytes :=
  if negb (Z.land typ 0xF8 =? 0) then Panic
  else if (num <? 0) || (2 ^ 29 - 1 <? num) then Panic
  else Ok (PutUvarint (Z.lor (u64 (Z.shiftl num 3)) typ)).

Definition EncodeTime (s ns : Z) : R bytes :=
  let* k1 := encodeFieldNumberAndTyp3 1 Typ3_8Byte in
  let* k2 := encodeFieldNumberAndTyp3 2 Typ3_4Byte in
  Ok (k1 ++ EncodeInt64 s ++ k2 ++ EncodeInt32 (s32 ns) ++ EncodeByte 0x04).

Definition EncodeByteSlice (bz : bytes) : bytes := EncodeUvarint (zlen bz) ++ bz.
Definition ByteSliceSize (bz : bytes) : Z := UvarintSize (zlen bz) + zlen bz.
Definition EncodeString (s : str) : bytes := EncodeByteSlice s.

(** ** decoder.go *)

Definition DecodeVarint (bz : bytes) : R (Z * Z) :=
  let (i, n) := Varint bz in if n <? 0 then Err EOF else Ok (i, n).

Definition DecodeInt8 (bz : bytes) : R (Z * Z) :=
  let* (i64, n) := DecodeVarint bz in if 127 <? i64 then Err Invalid_int else Ok (s8 i64, n).

Definition DecodeInt16 (bz : bytes) : R (Z * Z) :=
  let* (i64, n) := DecodeVarint bz in if 32767 <? i64 then Err Invalid_int else Ok (sN 16 i64, n).

Definition DecodeUint32 (bz : bytes) : R (Z * Z) :=
  if zlen bz <? 4 then Err EOF else Ok (be_val (take 4 bz), 4).

Definition DecodeUint64 (bz : bytes) : R (Z * Z) :=
  if zlen bz <? 8 then Err EOF else Ok (be_val (take 8 bz), 8).

Definition DecodeInt32 (bz : bytes) : R (Z * Z) :=
  if zlen bz <? 4 then Err EOF else Ok (s32 (be_val (take 4 bz)), 4).

Definition DecodeInt64 (bz : bytes) : R (Z * Z) :=
  if zlen bz <? 8 then Err EOF else Ok (s64 (be_val (take 8 bz)), 8).

Definition DecodeUvarint (bz : bytes) : R (Z * Z) :=
  let (u, n) := Uvarint bz in if n <=? 0 then Err EOF else Ok (u, n).

Definition DecodeUint8 (bz : bytes) : R (Z * Z) :=
  let* (u64, n) := DecodeUvarint bz in if 255 <? u64 then Err Invalid_int else Ok (u8 u64, n).

Definition DecodeByte (bz : bytes) : R (Z * Z) := DecodeUint8 bz.

Definition DecodeUint16 (bz : bytes) : R (Z * Z) :=
  let* (u64, n) := DecodeUvarint bz in if 65535 <? u64 then Err Invalid_int else Ok (uN 16 u64, n).

Definition DecodeBool (bz : bytes) : R (bool * Z) :=
  match bz with
  | [] => Err EOF
  | b :: _ => if b =? 0 then Ok (false, 1) else if b =? 1 then Ok (true, 1) else Err Invalid_bool
  end.

Definition DecodeFloat32 (bz : bytes) : R (Z * Z) :=
  if zlen bz <? 4 then Err EOF else Ok (be_val (take 4 bz), 4).

Definition DecodeFloat64 (bz : bytes) : R (Z * Z) :=
  if zlen bz <? 8 then Err EOF else Ok (be_val (take 8 bz), 8).

(** The key of a field and the [Typ3] byte (binary-decode.go). *)
Definition decodeFieldNumberAndTyp3 (bz : bytes) : R (Z * Z * Z) :=
  let* (value64, n) := DecodeUvarint bz in
  let num64 := Z.shiftr value64 3 in
  if 2 ^ 29 - 1 <? num64 then Err Invalid_field_num else Ok (u32 num64, Z.land value64 0x07, n).

Definition decodeTyp3 (bz : bytes) : R (Z * Z) :=
  match bz with
  | [] => Err EOF
  | b :: _ => if negb (Z.land b 0xF8 =? 0) then Err Invalid_typ else Ok (b, 1)
  end.

(** A field key that must have this number and type. *)
Definition expect_key (bz : bytes) (n num typ : Z) : R (bytes * Z) :=
  let* (fieldNum, typ', _n) := decodeFieldNumberAndTyp3 bz in
  let* (bz, n) := slide bz n _n in
  if negb (fieldNum =? num) then Err Expected_field_number
  else if negb (typ' =? typ) then Err Expected_typ3
  else Ok (bz, n).

Definition DecodeTime (bz : bytes) : R (Z * Z * Z) :=
  let* (bz, n) := expect_key bz 0 1 Typ3_8Byte in
  let* (sec, _n) := DecodeInt64 bz in
  let* (bz, n) := slide bz n _n in
  let* (bz, n) := expect_key bz n 2 Typ3_4Byte in
  let* (nsec, _n) := DecodeInt32 bz in
  let* (bz, n) := slide bz n _n in
  if (nsec <? 0) || (999999999 <? nsec) then Err Invalid_time
  else
    let* (typ, _n) := decodeTyp3 bz in
    let* (bz, n) := slide bz n _n in
    if negb (typ =? Typ3_StructTerm) then Err Expected_typ3 else Ok (sec, nsec, n).

Definition DecodeByteSlice (bz : bytes) : R (bytes * Z) :=
  let* (count, _n) := DecodeUvarint bz in
  let* (bz, n) := slide bz 0 _n in
  if s64 count <? 0 then Err Negative_length
  else if zlen bz <? s64 count then Err Insufficient_bytes
  else Ok (take (Z.to_nat count) bz, n + s64 count).

Definition DecodeString (bz : bytes) : R (str * Z) := DecodeByteSlice bz.
