(* ===== verification/AminoCodec.v ===== *)
(** * go-amino: the codec and its registered types

    Models src/tendermint/go-amino/codec.go.  The information about a concrete
    type never changes after it is made, so that a pointer to it is its value; the
    information about an interface is changed by later registrations and is in the
    codec once.  Registration returns the codec together with the outcome: Go code
    can recover from a panic and use the codec as the panic left it.  The lock is
    held by every operation from start to end and is left out. *)

From stdpp Require Import gmap.
From S2P Require Import Prelude GoStrings GoBytes Sha2 AminoTypes.

Local Open Scope Z_scope.

(** ** Prefix bytes *)

Definition PrefixBytesLen : Z := 4.

(** [copy(a[:], b)] into a new array of length [n]. *)
Definition new_array (n : nat) (b : bytes) : bytes := take n b ++ replicate (n - length b) 0.

Definition NewPrefixBytes (prefixBytes : bytes) : bytes := new_array 4 prefixBytes.

Definition WithTyp3 (pb : bytes) (typ : Z) : bytes := alter (fun b => Z.lor b typ) 3%nat pb.

Definition SplitTyp3 (pb : bytes) : bytes * Z :=
  (alter (fun b => Z.land b 0xF8) 3%nat pb, Z.land (nth 3 pb 0) 0x07).

(** The loop [for bz[0] == 0x00]; it panics at the end of the slice. *)
Fixpoint skip_zeros (bz : bytes) : R bytes :=
  match bz with [] => Panic | b :: bz' => if b =? 0 then skip_zeros bz' else Ok bz end.

(** [bz[0:n]] of a slice that ends where its array ends. *)
Definition upto (n : nat) (bz : bytes) : R bytes := if (length bz <? n)%nat then Panic else Ok (take n bz).

Definition nameToDisfix (name : str) : R (bytes * bytes) :=
  let* bz := skip_zeros (sha256 name) in
  let* db := upto 3 bz in
  let* bz := skip_zeros (drop 3 bz) in
  let* pb := upto 4 bz in
  Ok (db, alter (fun b => Z.land b 0xF8) 3%nat pb).

Definition nameToDisamb (name : str) : R bytes := let* (db, _) := nameToDisfix name in Ok db.
Definition nameToPrefix (name : str) : R bytes := let* (_, pb) := nameToDisfix name in Ok pb.
Definition toDisfix (db pb : bytes) : bytes := db ++ pb.

(** ** Type information *)

Record FieldInfo := {
  fi_Name : str; fi_Type : rtype; fi_Index : nat; fi_opts : FieldOptions; BinTyp3 : Z;
}.

Record ConcreteInfo := {
  Type_ : rtype;
  Registered : bool;
  PointerPreferred : bool;
  Name : str;
  Disamb : bytes;
  Prefix : bytes;
  Fields : list FieldInfo;
}.

Definition GetDisfix (cinfo : ConcreteInfo) : bytes := toDisfix (Disamb cinfo) (Prefix cinfo).

Record InterfaceInfo := {
  iType : str;
  Priority : list bytes;
  AlwaysDisambiguate : bool;
  Implementers : gmap bytes (list ConcreteInfo);
}.

Inductive TypeInfo := CInfo (c : ConcreteInfo) | IInfo (i : InterfaceInfo).

Definition is_registered (info : TypeInfo) : bool := match info with CInfo c => Registered c | IInfo _ => false end.
Definition info_type (info : TypeInfo) : rtype := match info with CInfo c => Type_ c | IInfo i => TNamed (iType i) end.
Definition info_prefix (info : TypeInfo) : bytes :=
  match info with CInfo c => Prefix c | IInfo _ => replicate 4 0 end.

(** [typeInfos] holds the concrete types; those of interface types are in [interfaceInfos]. *)
Record Codec := {
  typeInfos : list (rtype * ConcreteInfo);
  interfaceInfos : list InterfaceInfo;
  concreteInfos : list ConcreteInfo;
  disfixToTypeInfo : gmap bytes ConcreteInfo;
}.

Definition NewCodec : Codec :=
  {| typeInfos := []; interfaceInfos := []; concreteInfos := []; disfixToTypeInfo := ∅ |}.

(** ** Parsing struct types *)

Definition Tag_Get (tag : list (str * str)) (key : str) : str := default [] (assoc key tag).

(** Field names are ASCII: [unicode.IsUpper] is the range A-Z. *)
Definition isExported (field : StructField) : bool :=
  str_eqb (sf_PkgPath field) [] && match sf_Name field with c :: _ => (65 <=? c) && (c <=? 90) | [] => false end.

Definition no_opts : FieldOptions :=
  {| JSONName := []; JSONOmitEmpty := false; BinVarint := false; BinFieldNum := 0; Unsafe := false |}.

Definition parseFieldOptions (field : StructField) : bool * FieldOptions :=
  let binTag := Tag_Get (sf_Tag field) (bs "binary") in
  let aminoTag := Tag_Get (sf_Tag field) (bs "amino") in
  let jsonTag := Tag_Get (sf_Tag field) (bs "json") in
  if str_eqb jsonTag (bs "-") then (true, no_opts)
  else
    let jsonTagParts := Split jsonTag 44 in
    let p0 := nth 0 jsonTagParts [] in
    (false,
     {| JSONName := if str_eqb p0 [] then sf_Name field else p0;
        JSONOmitEmpty := (1 <? zlen jsonTagParts) && str_eqb (nth 1 jsonTagParts []) (bs "omitempty");
        BinVarint := str_eqb binTag (bs "varint");
        BinFieldNum := 0;
        Unsafe := str_eqb aminoTag (bs "unsafe") |}).

Section codec.
Context (T : Types).

(** It panics when it returns false. *)
Definition checkUnsafe (fi : FieldInfo) : bool :=
  Unsafe (fi_opts fi) || match shape_of T (fi_Type fi) with SFloat32 | SFloat64 => false | _ => true end.

Definition with_field_num (opts : FieldOptions) (n : Z) : FieldOptions :=
  {| JSONName := JSONName opts; JSONOmitEmpty := JSONOmitEmpty opts; BinVarint := BinVarint opts;
     BinFieldNum := n; Unsafe := Unsafe opts |}.

(** The loop over the fields from index [i], with the infos so far. *)
Fixpoint parse_fields (i : nat) (fs : list StructField) (infos : list FieldInfo) : R (list FieldInfo) :=
  match fs with
  | [] => Ok infos
  | field :: fs' =>
      if negb (isExported field) then parse_fields (S i) fs' infos
      else
        let (skip, opts) := parseFieldOptions field in
        if skip then parse_fields (S i) fs' infos
        else
          let opts := with_field_num opts (u32 (zlen infos + 1)) in
          let* typ := typeToTyp4 T (sf_Type field) opts in
          let fi := {| fi_Name := sf_Name field; fi_Type := sf_Type field; fi_Index := i; fi_opts := opts;
                       BinTyp3 := Typ3 typ |} in
          if checkUnsafe fi then parse_fields (S i) fs' (infos ++ [fi]) else Panic
  end.

Definition parseStructInfo (rt : rtype) : R (list FieldInfo) :=
  match shape_of T rt with
  | SStruct fs => parse_fields 0 fs []
  | STime => Ok []
  | _ => Panic
  end.

Definition is_struct (rt : rtype) : bool := match shape_of T rt with SStruct _ | STime => true | _ => false end.

Definition newTypeInfoUnregistered (rt : rtype) : R ConcreteInfo :=
  match shape_of T rt with
  | SPtr _ | SInterface _ => Panic
  | _ =>
      let* fields := if is_struct rt then parseStructInfo rt else Ok [] in
      Ok {| Type_ := rt; Registered := false; PointerPreferred := false; Name := []; Disamb := replicate 3 0;
            Prefix := replicate 4 0; Fields := fields |}
  end.

Definition newTypeInfoFromInterfaceType (name : str) (priority : list str) (always : bool) : R InterfaceInfo :=
  let* prio := res_all (map (fun n => let* (db, pb) := nameToDisfix n in Ok (toDisfix db pb)) priority) in
  Ok {| iType := name; Priority := prio; AlwaysDisambiguate := always; Implementers := ∅ |}.

Definition newTypeInfoFromRegisteredConcreteType (rt : rtype) (pointerPreferred : bool) (name : str) : R ConcreteInfo :=
  let* info := newTypeInfoUnregistered rt in
  let* db := nameToDisamb name in
  let* pb := nameToPrefix name in
  Ok {| Type_ := rt; Registered := true; PointerPreferred := pointerPreferred; Name := name; Disamb := db;
        Prefix := pb; Fields := Fields info |}.

(** ** Looking up *)

Fixpoint find_type (rt : rtype) (l : list (rtype * ConcreteInfo)) : option ConcreteInfo :=
  match l with [] => None | (t, c) :: l' => if decide (rt = t) then Some c else find_type rt l' end.

Fixpoint find_iface (n : str) (l : list InterfaceInfo) : option InterfaceInfo :=
  match l with [] => None | i :: l' => if str_eqb n (iType i) then Some i else find_iface n l' end.

(** [cdc.typeInfos[rt]] *)
Definition lookup_info (cdc : Codec) (rt : rtype) : option TypeInfo :=
  match shape_of T rt with
  | SInterface n => IInfo <$> find_iface n (interfaceInfos cdc)
  | _ => CInfo <$> find_type rt (typeInfos cdc)
  end.

Definition set_type (cdc : Codec) (info : ConcreteInfo) : Codec :=
  {| typeInfos := (Type_ info, info) :: typeInfos cdc; interfaceInfos := interfaceInfos cdc;
     concreteInfos := concreteInfos cdc; disfixToTypeInfo := disfixToTypeInfo cdc |}.

(** [setTypeInfo_nolock] of a concrete type and of an interface type. *)
Definition setTypeInfo_nolock (cdc : Codec) (info : ConcreteInfo) : Codec * R unit :=
  match shape_of T (Type_ info) with
  | SPtr _ => (cdc, Panic)
  | _ =>
      match find_type (Type_ info) (typeInfos cdc) with
      | Some _ => (cdc, Panic)
      | None =>
          let cdc := set_type cdc info in
          if Registered info then
            let cdc := {| typeInfos := typeInfos cdc; interfaceInfos := interfaceInfos cdc;
                          concreteInfos := concreteInfos cdc ++ [info]; disfixToTypeInfo := disfixToTypeInfo cdc |} in
            match disfixToTypeInfo cdc !! GetDisfix info with
            | Some _ => (cdc, Panic)
            | None =>
                ({| typeInfos := typeInfos cdc; interfaceInfos := interfaceInfos cdc; concreteInfos := concreteInfos cdc;
                    disfixToTypeInfo := <[GetDisfix info := info]> (disfixToTypeInfo cdc) |}, Ok tt)
            end
          else (cdc, Ok tt)
      end
  end.

Definition setTypeInfo_iface (cdc : Codec) (info : InterfaceInfo) : Codec * R unit :=
  match find_iface (iType info) (interfaceInfos cdc) with
  | Some _ => (cdc, Panic)
  | None =>
      ({| typeInfos := typeInfos cdc; interfaceInfos := interfaceInfos cdc ++ [info]; concreteInfos := concreteInfos cdc;
          disfixToTypeInfo := disfixToTypeInfo cdc |}, Ok tt)
  end.

(** Makes and keeps the information about a type that has none yet. *)
Definition getTypeInfo_wlock (cdc : Codec) (rt : rtype) : Codec * R TypeInfo :=
  let rt := (derefType rt).1 in
  match lookup_info cdc rt with
  | Some info => (cdc, Ok info)
  | None =>
      match shape_of T rt with
      | SInterface _ => (cdc, Err Unregistered_interface)
      | _ =>
          match newTypeInfoUnregistered rt with
          | Ok info =>
              let (cdc, r) := setTypeInfo_nolock cdc info in
              (cdc, let* _ := r in Ok (CInfo info))
          | Err e => (cdc, Err e)
          | Panic => (cdc, Panic)
          | NoFuel => (cdc, NoFuel)
          end
      end
  end.

Definition getTypeInfo (cdc : Codec) (rt : rtype) : R TypeInfo := (getTypeInfo_wlock cdc rt).2.

Definition getTypeInfoFromPrefix_rlock (iinfo : InterfaceInfo) (pb : bytes) : R ConcreteInfo :=
  match Implementers iinfo !! pb with
  | None => Err Unrecognized_prefix
  | Some infos => if 1 <? zlen infos then Err Conflicting_types else match infos with c :: _ => Ok c | [] => Panic end
  end.

Definition getTypeInfoFromDisfix_rlock (cdc : Codec) (df : bytes) : R ConcreteInfo :=
  match disfixToTypeInfo cdc !! df with None => Err Unrecognized_prefix | Some info => Ok info end.

(** ** Registration *)

(** [m[pb] = append(m[pb], cinfo)] *)
Definition add_implementer (m : gmap bytes (list ConcreteInfo)) (cinfo : ConcreteInfo) : gmap bytes (list ConcreteInfo) :=
  <[Prefix cinfo := default [] (m !! Prefix cinfo) ++ [cinfo]]> m.

Definition with_implementers (info : InterfaceInfo) (m : gmap bytes (list ConcreteInfo)) : InterfaceInfo :=
  {| iType := iType info; Priority := Priority info; AlwaysDisambiguate := AlwaysDisambiguate info; Implementers := m |}.

Definition collectImplementers_nolock (cdc : Codec) (info : InterfaceInfo) : InterfaceInfo :=
  fold_left (fun info cinfo =>
    if ptr_implements T (Type_ cinfo) (iType info)
    then with_implementers info (add_implementer (Implementers info) cinfo) else info) (concreteInfos cdc) info.

(** Whether there is no error: all types of a prefix with several of them are in the list. *)
Definition checkConflictsInPrio_nolock (iinfo : InterfaceInfo) : bool :=
  forallb (fun e : bytes * list ConcreteInfo =>
    (zlen e.2 <? 2) || forallb (fun cinfo => existsb (str_eqb (GetDisfix cinfo)) (Priority iinfo)) e.2)
    (map_to_list (Implementers iinfo)).

Definition RegisterInterface (cdc : Codec) (name : str) (priority : list str) (always : bool) : Codec * R unit :=
  match shape_of T (TNamed name) with
  | SInterface _ =>
      match newTypeInfoFromInterfaceType name priority always with
      | Ok info =>
          let info := collectImplementers_nolock cdc info in
          if checkConflictsInPrio_nolock info then setTypeInfo_iface cdc info else (cdc, Panic)
      | _ => (cdc, Panic)
      end
  | _ => (cdc, Panic)
  end.

(** The loop over the interfaces: those before the one that fails keep the new type. *)
Fixpoint add_to_interfaces (cinfo : ConcreteInfo) (l : list InterfaceInfo) : list InterfaceInfo * R unit :=
  match l with
  | [] => ([], Ok tt)
  | iinfo :: l' =>
      if negb (ptr_implements T (Type_ cinfo) (iType iinfo)) then
        let (l'', r) := add_to_interfaces cinfo l' in (iinfo :: l'', r)
      else
        let iinfo' := with_implementers iinfo (add_implementer (Implementers iinfo) cinfo) in
        if checkConflictsInPrio_nolock iinfo' then
          let (l'', r) := add_to_interfaces cinfo l' in (iinfo' :: l'', r)
        else (with_implementers iinfo (<[Prefix cinfo := default [] (Implementers iinfo !! Prefix cinfo)]> (Implementers iinfo)) :: l', Panic)
  end.

Definition addCheckConflictsWithConcrete_nolock (cdc : Codec) (cinfo : ConcreteInfo) : Codec * R unit :=
  let (l, r) := add_to_interfaces cinfo (interfaceInfos cdc) in
  ({| typeInfos := typeInfos cdc; interfaceInfos := l; concreteInfos := concreteInfos cdc;
      disfixToTypeInfo := disfixToTypeInfo cdc |}, r).

(** [RegisterConcrete(o, name, nil)] for a value [o] of type [ot]. *)
Definition RegisterConcrete (cdc : Codec) (ot : rtype) (name : str) : Codec * R unit :=
  let '(rt, pointerPreferred) := match ot with TPtr e => (e, true) | _ => (ot, false) end in
  match shape_of T rt with
  | SInterface _ | SPtr _ => (cdc, Panic)
  | _ =>
      match newTypeInfoFromRegisteredConcreteType rt pointerPreferred name with
      | Ok info =>
          match addCheckConflictsWithConcrete_nolock cdc info with
          | (cdc, Ok _) => setTypeInfo_nolock cdc info
          | (cdc, r) => (cdc, r)
          end
      | _ => (cdc, Panic)
      end
  end.
End codec.
