(* ===== verification/AminoBinary.v ===== *)
(** * go-amino: binary encoding and decoding

    Models src/tendermint/go-amino/binary-encode.go, binary-decode.go and the
    binary part of amino.go.  The functions that reach each other through
    [_encodeReflectBinary] and [_decodeReflectBinary] are written over the
    recursive call [rec]; fuel ties the knot (AminoSpec shows that the fuel of
    [MarshalBinaryBare] and [UnmarshalBinaryBare] is always enough).  A decoder
    is given the value that the target holds before and returns the one it holds
    after success; the value that a failed decoding leaves behind is not
    modelled.  Types that implement [MarshalAmino] or [UnmarshalAmino] are left
    out: no type of the repository does. *)

From S2P Require Import Prelude GoStrings GoBytes AminoTypes AminoCodec.

Local Open Scope Z_scope.

Section binary.
Context (T : Types) (cdc : Codec).

(** ** Encoding *)

Section encode.
(** [_encodeReflectBinary] *)
Context (rec : TypeInfo -> value -> FieldOptions -> R bytes).

Definition encodeReflectBinary (info : TypeInfo) (rv : value) (opts : FieldOptions) : R bytes :=
  match rv with
  | VPtr _ => Panic
  | _ =>
      let* pre :=
        if is_registered info then
          let* typ := typeToTyp4 T (info_type info) opts in Ok (WithTyp3 (info_prefix info) (Typ3 typ))
        else Ok [] in
      let* bz := rec info rv opts in
      Ok (pre ++ bz)
  end.

Definition encodeReflectBinaryInterface (iinfo : InterfaceInfo) (rv : option (rtype * value)) (opts : FieldOptions) :
  R bytes :=
  match rv with
  | None => Ok [0x00; 0x00]
  | Some (t, v) =>
      let '(crv, isPtr, isNilPtr) := derefPointers v in
      let crt := (derefType t).1 in
      if isPtr && match crv with VIface _ => true | _ => false end then Panic
      else if isNilPtr then Panic
      else
        let* info := getTypeInfo T cdc crt in
        match info with
        | IInfo _ => Err Unregistered_concrete
        | CInfo cinfo =>
            if negb (Registered cinfo) then Err Unregistered_concrete
            else
              let needDisamb :=
                AlwaysDisambiguate iinfo || (1 <? zlen (default [] (Implementers iinfo !! Prefix cinfo))) in
              let disamb := if needDisamb then 0x00 :: Disamb cinfo else [] in
              let* typ := typeToTyp3 T crt opts in
              let* bz := rec info crv opts in
              Ok (disamb ++ WithTyp3 (Prefix cinfo) typ ++ bz)
        end
  end.

Definition encodeReflectBinaryByteArray (byteslice : bytes) : R bytes := Ok (EncodeByteSlice byteslice).

Definition encodeReflectBinaryByteSlice (o : option bytes) : R bytes := Ok (EncodeByteSlice (default [] o)).

(** The loop over the elements. *)
Fixpoint encode_elems (einfo : TypeInfo) (typ : Z) (rv : list value) (opts : FieldOptions) : R bytes :=
  match rv with
  | [] => Ok []
  | e :: rv' =>
      let (erv, void) := isVoid e in
      if IsPointer typ && void then
        let* bz := encode_elems einfo typ rv' opts in Ok (0x01 :: bz)
      else
        let* bz := encodeReflectBinary einfo erv opts in
        let* bz' := encode_elems einfo typ rv' opts in
        Ok ((if IsPointer typ then [0x00] else []) ++ bz ++ bz')
  end.

Definition encodeReflectBinaryList (ert : rtype) (rv : list value) (opts : FieldOptions) : R bytes :=
  if is_byte T ert then Panic
  else
    let* typ := typeToTyp4 T ert opts in
    let* einfo := getTypeInfo T cdc ert in
    let* bz := encode_elems einfo typ rv opts in
    Ok (EncodeByte typ ++ EncodeUvarint (zlen rv) ++ bz).

(** The loop over the fields. *)
Fixpoint encode_fields (fs : list FieldInfo) (rv : list value) : R bytes :=
  match fs with
  | [] => Ok []
  | field :: fs' =>
      match rv !! fi_Index field with
      | None => Panic
      | Some v =>
          let (frv, void) := isVoid v in
          if void then encode_fields fs' rv
          else
            let* finfo := getTypeInfo T cdc (fi_Type field) in
            let* key := encodeFieldNumberAndTyp3 (BinFieldNum (fi_opts field)) (BinTyp3 field) in
            let* bz := encodeReflectBinary finfo frv (fi_opts field) in
            let* bz' := encode_fields fs' rv in
            Ok (key ++ bz ++ bz')
      end
  end.

Definition encodeReflectBinaryStruct (info : ConcreteInfo) (rv : list value) : R bytes :=
  let* bz := encode_fields (Fields info) rv in Ok (bz ++ EncodeByte Typ3_StructTerm).

(** One call of [_encodeReflectBinary]; a value that is not of the type of [info] cannot be made. *)
Definition encode_step (info : TypeInfo) (rv : value) (opts : FieldOptions) : R bytes :=
  match shape_of T (info_type info), info, rv with
  | SInterface _, IInfo iinfo, VIface o => encodeReflectBinaryInterface iinfo o opts
  | SArray _ _, CInfo _, VByteArray l => encodeReflectBinaryByteArray l
  | SArray _ e, CInfo _, VArray l => encodeReflectBinaryList e l opts
  | SSlice _, CInfo _, VBytes o => encodeReflectBinaryByteSlice o
  | SSlice e, CInfo _, VSlice o => encodeReflectBinaryList e (default [] o) opts
  | STime, CInfo _, VTime s ns => EncodeTime s ns
  | SStruct _, CInfo cinfo, VStruct vs => encodeReflectBinaryStruct cinfo vs
  | SInt W64, CInfo _, VInt z => Ok (if BinVarint opts then EncodeVarint z else EncodeInt64 z)
  | SInt W32, CInfo _, VInt z => Ok (EncodeInt32 (s32 z))
  | SInt W16, CInfo _, VInt z => Ok (EncodeInt16 (sN 16 z))
  | SInt W8, CInfo _, VInt z => Ok (EncodeInt8 (s8 z))
  | SInt W, CInfo _, VInt z => Ok (EncodeVarint z)
  | SUint W64, CInfo _, VUint z => Ok (if BinVarint opts then EncodeUvarint z else EncodeUint64 z)
  | SUint W32, CInfo _, VUint z => Ok (EncodeUint32 (u32 z))
  | SUint W16, CInfo _, VUint z => Ok (EncodeUint16 (uN 16 z))
  | SUint W8, CInfo _, VUint z => Ok (EncodeUint8 (u8 z))
  | SUint W, CInfo _, VUint z => Ok (EncodeUvarint z)
  | SBool, CInfo _, VBool b => Ok (EncodeBool b)
  | SFloat64, CInfo _, VFloat f => if Unsafe opts then Ok (EncodeFloat64 f) else Err Float_unsafe
  | SFloat32, CInfo _, VFloat f => if Unsafe opts then Ok (EncodeFloat32 f) else Err Float_unsafe
  | SString, CInfo _, VString s => Ok (EncodeString s)
  | _, _, _ => Panic
  end.
End encode.

Fixpoint _encodeReflectBinary (fuel : nat) : TypeInfo -> value -> FieldOptions -> R bytes :=
  match fuel with
  | O => fun _ _ _ => NoFuel
  | S f => encode_step (_encodeReflectBinary f)
  end.

(** How deep a value is. *)
Fixpoint depth (v : value) : nat :=
  match v with
  | VSlice (Some l) | VArray l | VStruct l => S (list_max (map depth l))
  | VPtr (Some v) | VIface (Some (_, v)) => S (depth v)
  | _ => 1%nat
  end.

(** [o] is a value [v] of type [rt]. *)
Definition MarshalBinaryBare (rt : rtype) (v : value) : R bytes :=
  let '(rv, _, isNilPtr) := derefPointers v in
  if isNilPtr then Panic
  else
    let* info := getTypeInfo T cdc (derefType rt).1 in
    encodeReflectBinary (_encodeReflectBinary (depth rv)) info rv no_opts.

Definition MarshalBinary (rt : rtype) (v : value) : R bytes :=
  let* bz := MarshalBinaryBare rt v in
  Ok (EncodeUvarint (zlen bz) ++ bz).

(** What the writer holds afterwards and the number of bytes written; the writer does not fail. *)
Definition MarshalBinaryWriter (w : bytes) (rt : rtype) (v : value) : R (bytes * Z) :=
  let* bz := MarshalBinary rt v in
  Ok (w ++ bz, zlen bz).

(** The [Must] functions panic where the others return an error. *)
Definition must {A} (r : R A) : R A := match r with Err _ => Panic | _ => r end.

Definition MustMarshalBinary (rt : rtype) (v : value) : R bytes := must (MarshalBinary rt v).
Definition MustMarshalBinaryBare (rt : rtype) (v : value) : R bytes := must (MarshalBinaryBare rt v).

(** ** Decoding *)

Definition DecodeDisambPrefixBytes (bz : bytes) : R (option (option bytes * bytes * Z) * Z) :=
  match bz with
  | 0x00 :: 0x00 :: _ => Ok (None, 2)
  | _ =>
      if zlen bz <? 4 then Err EOF
      else if nth 0 bz 0 =? 0x00 then
        if zlen bz <? 8 then Err EOF
        else
          let (pb, typ) := SplitTyp3 (take 4 (drop 4 bz)) in
          Ok (Some (Some (take 3 (drop 1 bz)), pb, typ), 8)
      else
        let (pb, typ) := SplitTyp3 (take 4 bz) in Ok (Some (None, pb, typ), 4)
  end.

Definition decodeTyp4 (bz : bytes) : R (Z * Z) :=
  match bz with
  | [] => Err EOF
  | b :: _ => if negb (Z.land b 0xF0 =? 0) then Err Invalid_typ else Ok (b, 1)
  end.

Definition decodeTyp4AndCheck (rt : rtype) (bz : bytes) (opts : FieldOptions) : R (bool * Z) :=
  let* (typ, n) := decodeTyp4 bz in
  let* typWanted := typeToTyp4 T rt opts in
  if negb (typWanted =? typ) then Err Typ_mismatch else Ok (negb (Z.land typ 0x08 =? 0), n).

Definition checkTyp3 (rt : rtype) (typ : Z) (opts : FieldOptions) : R unit :=
  let* typWanted := typeToTyp3 T rt opts in
  if negb (typ =? typWanted) then Err Typ_mismatch else Ok tt.

Definition decodeNumNilBytes (bz : bytes) : R (Z * Z) :=
  match bz with
  | [] => Err EOF
  | b :: _ => if b =? 0x00 then Ok (0, 1) else if b =? 0x01 then Ok (1, 1) else Err Unexpected_nil_byte
  end.

(** [rv = rv.Elem()] while [rv], of type [rt], is a pointer; a nil pointer is set to a new value first. *)
Fixpoint through_pointers (rt : rtype) (rv : value) (k : rtype -> value -> R (value * Z)) : R (value * Z) :=
  match rt with
  | TPtr e =>
      let* (v, n) := through_pointers e (match rv with VPtr (Some v) => v | _ => zero T e end) k in
      Ok (VPtr (Some v), n)
  | _ => k rt rv
  end.

(** The value that [constructConcreteType] makes for an interface, and its type. *)
Definition constructed (cinfo : ConcreteInfo) (crv : value) : rtype * value :=
  if PointerPreferred cinfo then (TPtr (Type_ cinfo), VPtr (Some crv)) else (Type_ cinfo, crv).

(** Whether [rv.Set] of such a value does not panic. *)
Definition settable (iinfo : InterfaceInfo) (cinfo : ConcreteInfo) : bool :=
  if PointerPreferred cinfo then ptr_implements T (Type_ cinfo) (iType iinfo)
  else implements T (Type_ cinfo) (iType iinfo).

Section decode.
(** [_decodeReflectBinary] of the input into a target of a type that holds a value. *)
Context (rec : bytes -> TypeInfo -> rtype -> value -> FieldOptions -> R (value * Z)).

Definition decodeReflectBinary (bz : bytes) (info : TypeInfo) (rt : rtype) (rv : value) (opts : FieldOptions) :
  R (value * Z) :=
  match shape_of T (info_type info), rt with
  | SInterface _, TPtr _ => Panic
  | _, _ =>
      let* (bz, n) :=
        if is_registered info then
          if zlen bz <? PrefixBytesLen then Err EOF
          else
            let (prefix, typ) := SplitTyp3 (NewPrefixBytes (take 4 bz)) in
            if negb (str_eqb (info_prefix info) prefix) then Panic
            else
              let* _ := checkTyp3 (info_type info) typ opts in
              Ok (drop 4 bz, PrefixBytesLen)
        else Ok (bz, 0) in
      let* (v, _n) := rec bz info rt rv opts in
      let* (bz, n) := slide bz n _n in
      Ok (v, n)
  end.

Definition decodeReflectBinaryInterface (bz : bytes) (iinfo : InterfaceInfo) (rv : option (rtype * value))
  (opts : FieldOptions) : R (value * Z) :=
  match rv with
  | Some _ => Err Non_nil_interface
  | None =>
      let* (d, _n) := DecodeDisambPrefixBytes bz in
      let* (bz, n) := slide bz 0 _n in
      match d with
      | None => Ok (VIface None, n)
      | Some (disamb, prefix, typ) =>
          let* cinfo :=
            match disamb with
            | Some db => getTypeInfoFromDisfix_rlock cdc (toDisfix db prefix)
            | None => getTypeInfoFromPrefix_rlock iinfo prefix
            end in
          let* _ := checkTyp3 (Type_ cinfo) typ opts in
          match rec bz (CInfo cinfo) (Type_ cinfo) (zero T (Type_ cinfo)) opts with
          | Ok (crv, _n) =>
              let* (bz, n) := slide bz n _n in
              if settable iinfo cinfo then Ok (VIface (Some (constructed cinfo crv)), n) else Panic
          | Err e => if settable iinfo cinfo then Err e else Panic
          | Panic => Panic
          | NoFuel => NoFuel
          end
      end
  end.

Definition decodeReflectBinaryByteArray (bz : bytes) (length_ : nat) : R (value * Z) :=
  if zlen bz <? Z.of_nat length_ then Err Insufficient_bytes
  else
    let* (byteslice, _n) := DecodeByteSlice bz in
    let* (bz, n) := slide bz 0 _n in
    if negb (zlen byteslice =? Z.of_nat length_) then Err Length_mismatch else Ok (VByteArray byteslice, n).

(** The loop over the elements, of type [ert], with the values they hold before. *)
Fixpoint decode_elems (einfo : TypeInfo) (ert : rtype) (ptr : bool) (olds : list value) (opts : FieldOptions)
  (bz : bytes) (n : Z) : R (list value * Z) :=
  match olds with
  | [] => Ok ([], n)
  | erv :: olds' =>
      let* (numNil, _n) := if ptr then decodeNumNilBytes bz else Ok (0, 0) in
      let* (bz, n) := slide bz n _n in
      if numNil =? 0 then
        let* (v, _n) := decodeReflectBinary bz einfo ert erv opts in
        let* (bz, n) := slide bz n _n in
        let* (vs, n) := decode_elems einfo ert ptr olds' opts bz n in
        Ok (v :: vs, n)
      else if numNil =? 1 then
        let* (vs, n) := decode_elems einfo ert ptr olds' opts bz n in
        Ok (zero T ert :: vs, n)
      else Panic
  end.

Definition decodeReflectBinaryArray (bz : bytes) (length_ : nat) (ert : rtype) (rv : list value) (opts : FieldOptions) :
  R (value * Z) :=
  if is_byte T ert then Panic
  else
    let* einfo := getTypeInfo T cdc ert in
    let* (ptr, _n) := decodeTyp4AndCheck ert bz opts in
    let* (bz, n) := slide bz 0 _n in
    let* (count, _n) := DecodeUvarint bz in
    let* (bz, n) := slide bz n _n in
    if negb (s64 count =? Z.of_nat length_) then Err Length_mismatch
    else
      let* (vs, n) := decode_elems einfo ert ptr rv opts bz n in
      Ok (VArray vs, n).

(** [rv.Set(byteslice)] panics when the elements are of another type than [byte]. *)
Definition decodeReflectBinaryByteSlice (bz : bytes) (ert : rtype) : R (value * Z) :=
  let* (byteslice, _n) := DecodeByteSlice bz in
  let* (bz, n) := slide bz 0 _n in
  if zlen byteslice =? 0 then Ok (VBytes None, n)
  else match ert with TUint W8 => Ok (VBytes (Some byteslice), n) | _ => Panic end.

Definition decodeReflectBinarySlice (bz : bytes) (ert : rtype) (opts : FieldOptions) : R (value * Z) :=
  if is_byte T ert then Panic
  else
    let* einfo := getTypeInfo T cdc ert in
    let* (ptr, _n) := decodeTyp4AndCheck ert bz opts in
    let* (bz, n) := slide bz 0 _n in
    let* (count, _n) := DecodeUvarint bz in
    let* (bz, n) := slide bz n _n in
    if s64 count <? 0 then Err Impossible_count
    else if zlen bz <? s64 count then Err Impossible_count
    else if count =? 0 then Ok (VSlice None, n)
    else
      let* (vs, n) := decode_elems einfo ert ptr (replicate (Z.to_nat (s64 count)) (zero T ert)) opts bz n in
      Ok (VSlice (Some vs), n).

(** The loop over the fields; at the end of the struct the fields that are left keep their values. *)
Fixpoint decode_fields (fs : list FieldInfo) (rv : list value) (bz : bytes) (n : Z) : R (list value * bytes * Z) :=
  match fs with
  | [] => Ok (rv, bz, n)
  | field :: fs' =>
      match rv !! fi_Index field with
      | None => Panic
      | Some frv =>
          let* finfo := getTypeInfo T cdc (fi_Type field) in
          match decodeFieldNumberAndTyp3 bz with
          | Ok (fieldNum, typ, _n) =>
              if BinFieldNum (fi_opts field) <? fieldNum then
                decode_fields fs' (<[fi_Index field := zero T (fi_Type field)]> rv) bz n
              else if fieldNum =? 0 then Ok (rv, bz, n)
              else
                let* (bz, n) := slide bz n _n in
                if negb (BinFieldNum (fi_opts field) =? fieldNum) then Err Expected_field_number
                else
                  let* typWanted := typeToTyp4 T (fi_Type field) (fi_opts field) in
                  if negb (typ =? Typ3 typWanted) then Err Expected_typ3
                  else
                    let* (v, _n) := decodeReflectBinary bz finfo (fi_Type field) frv (fi_opts field) in
                    let* (bz, n) := slide bz n _n in
                    decode_fields fs' (<[fi_Index field := v]> rv) bz n
          | Err _ => Ok (rv, bz, n)
          | Panic => Panic
          | NoFuel => NoFuel
          end
      end
  end.

Definition decodeReflectBinaryStruct (bz : bytes) (info : ConcreteInfo) (rv : list value) : R (value * Z) :=
  let* (vs, bz, n) := decode_fields (Fields info) rv bz 0 in
  let* (typ, _n) := decodeTyp3 bz in
  let* (bz, n) := slide bz n _n in
  if negb (typ =? Typ3_StructTerm) then Err Expected_typ3 else Ok (VStruct vs, n).

(** [num, _n, err = DecodeX(bz)]; [slide]; [rv.SetX(num)] *)
Definition set_num {A} (mk : A -> value) (bz : bytes) (r : R (A * Z)) : R (value * Z) :=
  let* (num, _n) := r in
  let* (bz, n) := slide bz 0 _n in
  Ok (mk num, n).

(** One call of [_decodeReflectBinary] on a target behind no pointer. *)
Definition decode_step (bz : bytes) (info : TypeInfo) (rv : value) (opts : FieldOptions) : R (value * Z) :=
  match shape_of T (info_type info), info, rv with
  | SInterface _, IInfo iinfo, VIface o => decodeReflectBinaryInterface bz iinfo o opts
  | SArray n _, CInfo _, VByteArray _ => decodeReflectBinaryByteArray bz n
  | SArray n e, CInfo _, VArray l => decodeReflectBinaryArray bz n e l opts
  | SSlice e, CInfo _, VBytes _ => decodeReflectBinaryByteSlice bz e
  | SSlice e, CInfo _, VSlice _ => decodeReflectBinarySlice bz e opts
  | STime, CInfo _, VTime _ _ => set_num (fun t => VTime t.1 t.2) bz (DecodeTime bz)
  | SStruct _, CInfo cinfo, VStruct vs => decodeReflectBinaryStruct bz cinfo vs
  | SInt W64, CInfo _, VInt _ => set_num VInt bz (if BinVarint opts then DecodeVarint bz else DecodeInt64 bz)
  | SInt W32, CInfo _, VInt _ => set_num VInt bz (DecodeInt32 bz)
  | SInt W16, CInfo _, VInt _ => set_num VInt bz (DecodeInt16 bz)
  | SInt W8, CInfo _, VInt _ => set_num VInt bz (DecodeInt8 bz)
  | SInt W, CInfo _, VInt _ => set_num VInt bz (DecodeVarint bz)
  | SUint W64, CInfo _, VUint _ => set_num VUint bz (if BinVarint opts then DecodeUvarint bz else DecodeUint64 bz)
  | SUint W32, CInfo _, VUint _ => set_num VUint bz (DecodeUint32 bz)
  | SUint W16, CInfo _, VUint _ => set_num VUint bz (DecodeUint16 bz)
  | SUint W8, CInfo _, VUint _ => set_num VUint bz (DecodeUint8 bz)
  | SUint W, CInfo _, VUint _ => set_num VUint bz (DecodeUvarint bz)
  | SBool, CInfo _, VBool _ => set_num VBool bz (DecodeBool bz)
  | SFloat64, CInfo _, VFloat _ => if Unsafe opts then set_num VFloat bz (DecodeFloat64 bz) else Err Float_unsafe
  | SFloat32, CInfo _, VFloat _ => if Unsafe opts then set_num VFloat bz (DecodeFloat32 bz) else Err Float_unsafe
  | SString, CInfo _, VString _ => set_num VString bz (DecodeString bz)
  | _, _, _ => Panic
  end.
End decode.

Fixpoint _decodeReflectBinary (fuel : nat) (bz : bytes) (info : TypeInfo) (rt : rtype) (rv : value) (opts : FieldOptions) :
  R (value * Z) :=
  match fuel with
  | O => NoFuel
  | S f =>
      match shape_of T (info_type info), rt with
      | SInterface _, TPtr _ => Panic
      | _, _ => through_pointers rt rv (fun _ rv => decode_step (_decodeReflectBinary f) bz info rv opts)
      end
  end.

(** [ptr] points to a variable of type [rt] that holds [rv]. *)
Definition UnmarshalBinaryBare (bz : bytes) (rt : rtype) (rv : value) : R value :=
  if zlen bz =? 0 then Err Empty_bytes
  else
    let* info := getTypeInfo T cdc rt in
    let* (v, n) := decodeReflectBinary (_decodeReflectBinary (S (length bz))) bz info rt rv no_opts in
    if negb (n =? zlen bz) then Err Not_all_read else Ok v.

Definition UnmarshalBinary (bz : bytes) (rt : rtype) (rv : value) : R value :=
  if zlen bz =? 0 then Err Empty_bytes
  else
    let (u64, n) := Uvarint bz in
    if n <? 0 then Err EOF
    else if zlen bz - n <? u64 then Err Length_mismatch
    else if u64 <? zlen bz - n then Err Length_mismatch
    else UnmarshalBinaryBare (drop (Z.to_nat n) bz) rt rv.

(** The loop that reads the length byte by byte into [buf], from index [i]; [err] is the error that is
    set and not yet overwritten.  The reader is the list of the bytes it has left. *)
Fixpoint read_length (i : nat) (r : bytes) (maxSize : Z) (buf : bytes) (n : Z) (err : bool) : R (bytes * bytes * Z * bool) :=
  match i with
  | O => Ok (r, buf, n, err)
  | S i' =>
      match r with
      | [] => Err EOF
      | b :: r' =>
          let buf := buf ++ [b] in
          let n := n + 1 in
          if Z.land b 0x80 =? 0 then Ok (r', buf, n, false)
          else read_length i' r' maxSize buf n (maxSize <=? n)
      end
  end.

(** The value, the bytes left in the reader and the number of bytes read.  [make] panics for a
    length that is negative or beyond the address space. *)
Definition UnmarshalBinaryReader (r : bytes) (rt : rtype) (rv : value) (maxSize : Z) : R (value * bytes * Z) :=
  if maxSize <? 0 then Panic
  else
    let* (r, buf, n, err) := read_length 10 r maxSize [] 0 false in
    let (u64, _) := Uvarint (buf ++ replicate (10 - length buf) 0) in
    if err then Err Read_overflow
    else if (0 <? maxSize) && (maxSize <? u64) then Err Read_overflow
    else if (0 <? maxSize) && (maxSize - n <? s64 u64) then Err Read_overflow
    else
      let l := s64 u64 in
      if (l <? 0) || (2 ^ 48 <? l) then Panic
      else if zlen r <? l then Err EOF
      else
        let* v := UnmarshalBinaryBare (take (Z.to_nat l) r) rt rv in
        Ok (v, drop (Z.to_nat l) r, n + l).

Definition MustUnmarshalBinary (bz : bytes) (rt : rtype) (rv : value) : R value := must (UnmarshalBinary bz rt rv).
Definition MustUnmarshalBinaryBare (bz : bytes) (rt : rtype) (rv : value) : R value := must (UnmarshalBinaryBare bz rt rv).
End binary.
