(* ===== verification/AminoPrim.v ===== *)
(** * go-amino: the primitive encoders and decoders are inverse

    Each decoder of decoder.go reads back what the encoder of encoder.go wrote,
    whatever follows, and reads no more than the input. *)

From S2P Require Import Prelude GoStrings GoBytes AminoTypes.

Local Open Scope Z_scope.

(** ** Slices of the input *)

Lemma slide_app l k n : slide (l ++ k) n (zlen l) = Ok (k, n + zlen l).
Proof.
  unfold slide. replace ((zlen l <? 0) || (zlen (l ++ k) <? zlen l)) with false.
  - by rewrite drop_app_zlen.
  - symmetry. apply orb_false_intro; apply Z.ltb_ge; zl.
Qed.

Lemma slide_ok bz n m : 0 <= m <= zlen bz -> slide bz n m = Ok (drop (Z.to_nat m) bz, n + m).
Proof.
  intros H. unfold slide. by replace ((m <? 0) || (zlen bz <? m)) with false
    by (symmetry; apply orb_false_intro; apply Z.ltb_ge; lia).
Qed.

(** A reader of the input: it returns a number of bytes that the input has, and never panics. *)
Definition reads {A} (bz : bytes) (r : R (A * Z)) : Prop :=
  match r with Ok (_, n) => 0 <= n <= zlen bz | Err _ => True | _ => False end.

(** ** Integers *)

Lemma DecodeUvarint_Encode x k : in_uN 64 x -> DecodeUvarint (EncodeUvarint x ++ k) = Ok (x, zlen (EncodeUvarint x)).
Proof.
  intros H. unfold DecodeUvarint, EncodeUvarint. rewrite Uvarint_PutUvarint by done. pose proof (PutUvarint_pos x).
  by destruct (Z.leb_spec (zlen (PutUvarint x)) 0); [lia|].
Qed.

Lemma DecodeVarint_Encode x k : in_sN 64 x -> DecodeVarint (EncodeVarint x ++ k) = Ok (x, zlen (EncodeVarint x)).
Proof.
  intros H. unfold DecodeVarint, EncodeVarint. rewrite Varint_PutVarint by done.
  by destruct (Z.ltb_spec (zlen (PutVarint x)) 0); [zl|].
Qed.

Lemma in_sN_mono w w' z : 1 <= w <= w' -> in_sN w z -> in_sN w' z.
Proof. unfold in_sN. intros Hw H. pose proof (Z.pow_le_mono_r 2 (w - 1) (w' - 1)). lia. Qed.

Lemma in_uN_mono w w' z : 0 <= w <= w' -> in_uN w z -> in_uN w' z.
Proof. unfold in_uN. intros Hw H. pose proof (Z.pow_le_mono_r 2 w w'). lia. Qed.

Lemma DecodeInt8_Encode x k : in_sN 8 x -> DecodeInt8 (EncodeInt8 x ++ k) = Ok (x, zlen (EncodeInt8 x)).
Proof.
  intros H. unfold DecodeInt8, EncodeInt8. rewrite DecodeVarint_Encode by (apply (in_sN_mono 8); [lia|done]).
  rewrite sN_id by (done || lia). unfold in_sN in H. by destruct (Z.ltb_spec 127 x); [lia|].
Qed.

Lemma DecodeInt16_Encode x k : in_sN 16 x -> DecodeInt16 (EncodeInt16 x ++ k) = Ok (x, zlen (EncodeInt16 x)).
Proof.
  intros H. unfold DecodeInt16, EncodeInt16. rewrite DecodeVarint_Encode by (apply (in_sN_mono 16); [lia|done]).
  rewrite sN_id by (done || lia). unfold in_sN in H. by destruct (Z.ltb_spec 32767 x); [lia|].
Qed.

Lemma DecodeUint8_Encode x k : in_uN 8 x -> DecodeUint8 (EncodeUint8 x ++ k) = Ok (x, zlen (EncodeUint8 x)).
Proof.
  intros H. unfold DecodeUint8, EncodeUint8. rewrite DecodeUvarint_Encode by (apply (in_uN_mono 8); [lia|done]).
  rewrite uN_id by done. unfold in_uN in H. by destruct (Z.ltb_spec 255 x); [lia|].
Qed.

Lemma DecodeUint16_Encode x k : in_uN 16 x -> DecodeUint16 (EncodeUint16 x ++ k) = Ok (x, zlen (EncodeUint16 x)).
Proof.
  intros H. unfold DecodeUint16, EncodeUint16. rewrite DecodeUvarint_Encode by (apply (in_uN_mono 16); [lia|done]).
  rewrite uN_id by done. unfold in_uN in H. by destruct (Z.ltb_spec 65535 x); [lia|].
Qed.

(** A fixed number of big-endian bytes. *)
Lemma take_be_bytes m x k : take m (be_bytes m x ++ k) = be_bytes m x.
Proof. rewrite <- (be_bytes_length m x) at 1. apply take_app_length. Qed.

Lemma be_bytes_short m x k : (zlen (be_bytes m x ++ k) <? Z.of_nat m) = false.
Proof. apply Z.ltb_ge. rewrite zlen_app, be_bytes_zlen. zl. Qed.

Lemma DecodeUint32_Encode x k : in_uN 32 x -> DecodeUint32 (EncodeUint32 x ++ k) = Ok (x, zlen (EncodeUint32 x)).
Proof.
  intros [H0 H]. unfold DecodeUint32, EncodeUint32. rewrite (be_bytes_short 4), take_be_bytes, be_bytes_zlen.
  rewrite be_val_bytes, Z.mod_small; done.
Qed.

Lemma DecodeUint64_Encode x k : in_uN 64 x -> DecodeUint64 (EncodeUint64 x ++ k) = Ok (x, zlen (EncodeUint64 x)).
Proof.
  intros [H0 H]. unfold DecodeUint64, EncodeUint64. rewrite (be_bytes_short 8), take_be_bytes, be_bytes_zlen.
  rewrite be_val_bytes, Z.mod_small; done.
Qed.

Lemma DecodeInt32_Encode x k : in_sN 32 x -> DecodeInt32 (EncodeInt32 x ++ k) = Ok (x, zlen (EncodeInt32 x)).
Proof.
  intros H. unfold DecodeInt32, EncodeInt32. rewrite (be_bytes_short 4), take_be_bytes, be_bytes_zlen.
  destruct (uN_range 32 x ltac:(lia)). rewrite be_val_bytes, Z.mod_small by done. by rewrite sN_uN.
Qed.

Lemma DecodeInt64_Encode x k : in_sN 64 x -> DecodeInt64 (EncodeInt64 x ++ k) = Ok (x, zlen (EncodeInt64 x)).
Proof.
  intros H. unfold DecodeInt64, EncodeInt64. rewrite (be_bytes_short 8), take_be_bytes, be_bytes_zlen.
  destruct (uN_range 64 x ltac:(lia)). rewrite be_val_bytes, Z.mod_small by done. by rewrite sN_uN.
Qed.

Lemma DecodeBool_Encode b k : DecodeBool (EncodeBool b ++ k) = Ok (b, zlen (EncodeBool b)).
Proof. by destruct b. Qed.

Lemma DecodeFloat32_Encode x k : in_uN 32 x -> DecodeFloat32 (EncodeFloat32 x ++ k) = Ok (x, zlen (EncodeFloat32 x)).
Proof. apply DecodeUint32_Encode. Qed.

Lemma DecodeFloat64_Encode x k : in_uN 64 x -> DecodeFloat64 (EncodeFloat64 x ++ k) = Ok (x, zlen (EncodeFloat64 x)).
Proof. apply DecodeUint64_Encode. Qed.

(** ** Field keys and types *)

Lemma small_uvarint x : 0 <= x < 128 -> PutUvarint x = [x].
Proof.
  intros H. unfold PutUvarint. cbn [uvarint_loop]. destruct (Z.leb_spec 128 x); [lia|].
  by rewrite uN_id by (unfold in_uN; change (2 ^ 8) with 256; lia).
Qed.

Lemma key_value num typ : 0 <= num -> 0 <= typ < 8 -> num <= 2 ^ 29 - 1 ->
  Z.lor (u64 (Z.shiftl num 3)) typ = 8 * num + typ.
Proof.
  intros Hn Ht Hm. rewrite uN_id by (unfold in_uN; rewrite Z.shiftl_mul_pow2 by lia; lia).
  rewrite Z.lor_comm, lor_low by lia. lia.
Qed.

Lemma land_248 typ : 0 <= typ < 8 -> Z.land typ 0xF8 = 0.
Proof.
  intros H. assert (typ = 0 \/ typ = 1 \/ typ = 2 \/ typ = 3 \/ typ = 4 \/ typ = 5 \/ typ = 6 \/ typ = 7) as D by lia.
  by destruct D as [->|[->|[->|[->|[->|[->|[->| ->]]]]]]].
Qed.

Lemma encodeFieldNumberAndTyp3_ok num typ : 0 <= num <= 2 ^ 29 - 1 -> 0 <= typ < 8 ->
  encodeFieldNumberAndTyp3 num typ = Ok (PutUvarint (8 * num + typ)).
Proof.
  intros Hn Ht. unfold encodeFieldNumberAndTyp3. rewrite land_248, key_value by lia. cbn [negb Z.eqb].
  by replace ((num <? 0) || (2 ^ 29 - 1 <? num)) with false by (symmetry; apply orb_false_intro; apply Z.ltb_ge; lia).
Qed.

Lemma decode_key num typ k : 0 <= num <= 2 ^ 29 - 1 -> 0 <= typ < 8 ->
  decodeFieldNumberAndTyp3 (PutUvarint (8 * num + typ) ++ k) = Ok (num, typ, zlen (PutUvarint (8 * num + typ))).
Proof.
  intros Hn Ht. unfold decodeFieldNumberAndTyp3.
  rewrite (DecodeUvarint_Encode (8 * num + typ)) by (unfold in_uN; lia).
  assert (Z.shiftr (8 * num + typ) 3 = num) as ->.
  { rewrite Z.shiftr_div_pow2 by lia. change (2 ^ 3) with 8. symmetry. apply (Z.div_unique _ _ _ typ); lia. }
  assert (Z.land (8 * num + typ) 0x07 = typ) as ->.
  { change 0x07 with (Z.ones 3). rewrite Z.land_ones by lia. symmetry. apply (Z.mod_unique _ _ num); lia. }
  destruct (Z.ltb_spec (2 ^ 29 - 1) num); [lia|]. by rewrite uN_id by (unfold in_uN; lia).
Qed.

Lemma expect_key_ok num typ k n : 0 <= num <= 2 ^ 29 - 1 -> 0 <= typ < 8 ->
  expect_key (PutUvarint (8 * num + typ) ++ k) n num typ = Ok (k, n + zlen (PutUvarint (8 * num + typ))).
Proof. intros Hn Ht. unfold expect_key. by rewrite decode_key, slide_app, !Z.eqb_refl. Qed.

(** ** Time, strings *)

Lemma DecodeTime_Encode s ns k : in_sN 64 s -> 0 <= ns <= 999999999 ->
  exists bz, EncodeTime s ns = Ok bz /\ DecodeTime (bz ++ k) = Ok (s, ns, zlen bz).
Proof.
  intros Hs Hn. unfold EncodeTime. rewrite !encodeFieldNumberAndTyp3_ok by (unfold Typ3_8Byte, Typ3_4Byte; lia).
  eexists. split; [reflexivity|].
  assert (in_sN 32 ns) as Hn' by (unfold in_sN; lia). rewrite (sN_id 32 ns) by (done || lia).
  unfold DecodeTime. rewrite <- !app_assoc, expect_key_ok by (unfold Typ3_8Byte; lia).
  rewrite DecodeInt64_Encode, slide_app, expect_key_ok by (done || unfold Typ3_4Byte; lia).
  rewrite DecodeInt32_Encode, slide_app by done.
  replace ((ns <? 0) || (999999999 <? ns)) with false by (symmetry; apply orb_false_intro; apply Z.ltb_ge; lia).
  unfold EncodeByte, EncodeUvarint. rewrite (small_uvarint 4) by lia. cbn [app decodeTyp3].
  change (negb (Z.land 4 0xF8 =? 0)) with false. cbv iota.
  rewrite slide_ok by zl. cbv iota. rewrite Z.eqb_refl. cbv iota. f_equal; f_equal; zl.
Qed.

Lemma DecodeByteSlice_Encode l k : zlen l < 2 ^ 63 ->
  DecodeByteSlice (EncodeByteSlice l ++ k) = Ok (l, zlen (EncodeByteSlice l)).
Proof.
  intros H. unfold DecodeByteSlice, EncodeByteSlice. pose proof (zlen_nonneg l). rewrite <- app_assoc.
  rewrite DecodeUvarint_Encode, slide_app by (unfold in_uN; lia).
  rewrite sN_id by (unfold in_sN; lia). destruct (Z.ltb_spec (zlen l) 0); [lia|].
  destruct (Z.ltb_spec (zlen (l ++ k)) (zlen l)); [zl|]. rewrite take_app_zlen. f_equal. f_equal. zl.
Qed.

(** ** Bounds *)

Lemma DecodeUvarint_reads bz : reads bz (DecodeUvarint bz).
Proof.
  unfold DecodeUvarint. destruct (Uvarint bz) as [u n] eqn:E. apply Uvarint_bounds in E as (_ & H & _).
  destruct (Z.leb_spec n 0); cbn; [done|lia].
Qed.

(** The number of bytes an unsigned varint takes is positive. *)
Lemma DecodeUvarint_inv bz u n : DecodeUvarint bz = Ok (u, n) -> 0 < n <= zlen bz /\ in_uN 64 u.
Proof.
  unfold DecodeUvarint. destruct (Uvarint bz) as [u' n'] eqn:E. apply Uvarint_bounds in E as (? & H & _).
  destruct (Z.leb_spec n' 0); [done|]. intros [= <- <-]. split; [lia|done].
Qed.

Lemma DecodeVarint_reads bz : reads bz (DecodeVarint bz).
Proof.
  unfold DecodeVarint. destruct (Varint bz) as [u n] eqn:E. apply Varint_bounds in E as (_ & H & _).
  pose proof (zlen_nonneg bz). destruct (Z.ltb_spec n 0); cbn; [done|lia].
Qed.

Lemma reads_check {A B} bz (r : R (A * Z)) (c : A -> bool) (f : A -> B) e : reads bz r ->
  reads bz (let* (x, n) := r in if c x then Err e else Ok (f x, n)).
Proof. destruct r as [[x n]| | |]; try done. intros H. by destruct (c x). Qed.

Lemma fixed_reads {A} bz m (x : A) : 0 <= m -> reads bz (if zlen bz <? m then Err EOF else Ok (x, m)).
Proof. intros H. destruct (Z.ltb_spec (zlen bz) m); cbn; [done|lia]. Qed.

Lemma DecodeBool_reads bz : reads bz (DecodeBool bz).
Proof. destruct bz as [|b bz]; [done|]. unfold DecodeBool. destruct (b =? 0), (b =? 1); cbn; try done; zl. Qed.

Lemma decodeTyp3_reads bz : reads bz (decodeTyp3 bz).
Proof. destruct bz as [|b bz]; [done|]. unfold decodeTyp3. destruct (negb _); cbn; [done|zl]. Qed.

Lemma decodeTyp3_inv bz t n : decodeTyp3 bz = Ok (t, n) -> n = 1 /\ 1 <= zlen bz.
Proof. destruct bz as [|b bz]; [done|]. unfold decodeTyp3. destruct (negb _); [done|]. intros [= <- <-]. zl. Qed.

Lemma decode_key_inv bz num typ n : decodeFieldNumberAndTyp3 bz = Ok (num, typ, n) -> 0 < n <= zlen bz /\ 0 <= num.
Proof.
  unfold decodeFieldNumberAndTyp3. destruct (DecodeUvarint bz) as [[u m]| | |] eqn:E; try done.
  apply DecodeUvarint_inv in E as [H [Hu _]]. destruct (_ <? _); [done|]. intros [= <- _ <-]. split; [done|].
  apply (uN_range 32). lia.
Qed.

Lemma decode_key_total bz : decodeFieldNumberAndTyp3 bz <> Panic /\ decodeFieldNumberAndTyp3 bz <> NoFuel.
Proof.
  unfold decodeFieldNumberAndTyp3. pose proof (DecodeUvarint_reads bz) as H.
  destruct (DecodeUvarint bz) as [[u m]| | |]; try done. by destruct (_ <? _).
Qed.

(** Reading one thing after another. *)
Lemma slide_drop bz n m bz' n' : slide bz n m = Ok (bz', n') ->
  0 <= m <= zlen bz /\ bz' = drop (Z.to_nat m) bz /\ n' = n + m /\ zlen bz' = zlen bz - m.
Proof.
  unfold slide. destruct (_ || _) eqn:G; [done|]. apply orb_false_elim in G as [G1 G2]. zbool. intros [= <- <-].
  split_and!; try done; try lia. unfold zlen in *. rewrite length_drop. lia.
Qed.

Lemma expect_key_reads bz n num typ : match expect_key bz n num typ with
  | Ok (bz', n') => n < n' /\ zlen bz' + n' = zlen bz + n | Err _ => True | _ => False end.
Proof.
  unfold expect_key. destruct (decode_key_total bz) as [H1 H2].
  destruct (decodeFieldNumberAndTyp3 bz) as [[[a b] m]| | |] eqn:E; try done.
  apply decode_key_inv in E as [E _]. rewrite slide_ok by lia.
  destruct (negb _); [done|]. destruct (negb _); [done|]. unfold zlen in *. rewrite length_drop. lia.
Qed.

Lemma DecodeTime_reads bz : reads bz (DecodeTime bz).
Proof.
  unfold DecodeTime. pose proof (expect_key_reads bz 0 1 Typ3_8Byte) as H.
  destruct (expect_key bz 0 1 Typ3_8Byte) as [[bz1 n1]| | |]; try done.
  unfold DecodeInt64. destruct (Z.ltb_spec (zlen bz1) 8); [done|]. rewrite slide_ok by lia.
  assert (zlen (drop (Z.to_nat 8) bz1) = zlen bz1 - 8) as L1 by (unfold zlen in *; rewrite length_drop; lia).
  set (bz2 := drop _ bz1) in *. clearbody bz2. pose proof (expect_key_reads bz2 (n1 + 8) 2 Typ3_4Byte) as H'.
  destruct (expect_key bz2 (n1 + 8) 2 Typ3_4Byte) as [[bz3 n3]| | |]; try done.
  unfold DecodeInt32. destruct (Z.ltb_spec (zlen bz3) 4); [done|]. rewrite slide_ok by lia.
  assert (zlen (drop (Z.to_nat 4) bz3) = zlen bz3 - 4) as L2 by (unfold zlen in *; rewrite length_drop; lia).
  set (bz4 := drop _ bz3) in *. clearbody bz4. destruct (_ || _); [done|].
  destruct (decodeTyp3 bz4) as [[t m]| | |] eqn:E; pose proof (decodeTyp3_reads bz4) as H4; rewrite E in H4; try done.
  apply decodeTyp3_inv in E as [-> E]. rewrite slide_ok by lia. destruct (negb _); [done|]. cbn. zl.
Qed.

Lemma DecodeByteSlice_reads bz : reads bz (DecodeByteSlice bz).
Proof.
  unfold DecodeByteSlice. destruct (DecodeUvarint bz) as [[u m]| | |] eqn:E; pose proof (DecodeUvarint_reads bz) as H;
    rewrite E in H; try done. apply DecodeUvarint_inv in E as [E _]. rewrite slide_ok by lia.
  destruct (Z.ltb_spec (s64 u) 0); [done|].
  assert (zlen (drop (Z.to_nat m) bz) = zlen bz - m) as L by (unfold zlen in *; rewrite length_drop; lia).
  rewrite L. destruct (Z.ltb_spec (zlen bz - m) (s64 u)); cbn; [done|lia].
Qed.

Lemma DecodeInt8_reads bz : reads bz (DecodeInt8 bz).
Proof. unfold DecodeInt8. apply (reads_check bz (DecodeVarint bz) (fun x => 127 <? x)), DecodeVarint_reads. Qed.

Lemma DecodeInt16_reads bz : reads bz (DecodeInt16 bz).
Proof. unfold DecodeInt16. apply (reads_check bz (DecodeVarint bz) (fun x => 32767 <? x)), DecodeVarint_reads. Qed.

Lemma DecodeUint8_reads bz : reads bz (DecodeUint8 bz).
Proof. unfold DecodeUint8. apply (reads_check bz (DecodeUvarint bz) (fun x => 255 <? x)), DecodeUvarint_reads. Qed.

Lemma DecodeUint16_reads bz : reads bz (DecodeUint16 bz).
Proof. unfold DecodeUint16. apply (reads_check bz (DecodeUvarint bz) (fun x => 65535 <? x)), DecodeUvarint_reads. Qed.

Lemma DecodeInt32_reads bz : reads bz (DecodeInt32 bz).
Proof. apply fixed_reads. lia. Qed.
Lemma DecodeInt64_reads bz : reads bz (DecodeInt64 bz).
Proof. apply fixed_reads. lia. Qed.
Lemma DecodeUint32_reads bz : reads bz (DecodeUint32 bz).
Proof. apply fixed_reads. lia. Qed.
Lemma DecodeUint64_reads bz : reads bz (DecodeUint64 bz).
Proof. apply fixed_reads. lia. Qed.
Lemma DecodeFloat32_reads bz : reads bz (DecodeFloat32 bz).
Proof. apply fixed_reads. lia. Qed.
Lemma DecodeFloat64_reads bz : reads bz (DecodeFloat64 bz).
Proof. apply fixed_reads. lia. Qed.

Create HintDb amino.
#[export] Hint Resolve DecodeUvarint_reads DecodeVarint_reads DecodeInt8_reads DecodeInt16_reads DecodeInt32_reads
  DecodeInt64_reads DecodeUint8_reads DecodeUint16_reads DecodeUint32_reads DecodeUint64_reads DecodeFloat32_reads
  DecodeFloat64_reads DecodeBool_reads DecodeTime_reads DecodeByteSlice_reads : amino.
