(* ===== verification/AminoReg.v ===== *)
(** * go-amino: what registration keeps true

    The invariant of a codec whose registrations have succeeded: every registered
    type is found by its disambiguation and prefix bytes, and each interface knows
    exactly the registered types that implement it, in the order of registration.
    Information made on demand is kept and does not change what is found. *)

From stdpp Require Import gmap relations.
From S2P Require Import Prelude GoStrings GoBytes Sha2 AminoTypes AminoCodec.

Local Open Scope Z_scope.

(** ** Names *)

(** Three disambiguation bytes and four prefix bytes that do not start with zero; the prefix
    has room for a [Typ3] in its last byte. *)
Definition disfix_ok (db pb : bytes) : Prop :=
  (exists a b c, db = [a; b; c] /\ a <> 0) /\
  (exists a b c d, pb = [a; b; c; d] /\ a <> 0 /\ Z.land d 0xF8 = d).

Lemma skip_zeros_head bz l : skip_zeros bz = Ok l -> exists b l', l = b :: l' /\ b <> 0.
Proof.
  induction bz as [|b bz IH]; cbn; [done|]. destruct (Z.eqb_spec b 0); [done|]. intros [= <-]. by exists b, bz.
Qed.

Lemma upto_inv n bz l : upto n bz = Ok l -> l = take n bz /\ (n <= length bz)%nat.
Proof. unfold upto. destruct (Nat.ltb_spec (length bz) n); [done|]. by intros [= <-]. Qed.

Lemma nameToDisfix_ok name db pb : nameToDisfix name = Ok (db, pb) -> disfix_ok db pb.
Proof.
  unfold nameToDisfix. destruct (skip_zeros (sha256 name)) as [bz| | |] eqn:E1; try done.
  destruct (upto 3 bz) as [db'| | |] eqn:E2; try done.
  destruct (skip_zeros (drop 3 bz)) as [bz'| | |] eqn:E3; try done.
  destruct (upto 4 bz') as [pb'| | |] eqn:E4; try done. intros [= <- <-].
  apply skip_zeros_head in E1 as (a & l & -> & Ha), E3 as (b & l' & -> & Hb).
  apply upto_inv in E2 as [-> L2], E4 as [-> L4].
  destruct l as [|? [|? ?]]; cbn in L2; try lia. destruct l' as [|? [|? [|d ?]]]; cbn in L4; try lia.
  split; [by eexists _, _, _|]. eexists b, _, _, _. split; [reflexivity|]. split; [done|].
  change 0xF8 with (Z.land 0xF8 0xF8) at 3. by rewrite Z.land_assoc.
Qed.

(** Distinct pairs of disambiguation and prefix bytes have distinct disfix bytes. *)
Lemma toDisfix_inj db pb db' pb' : disfix_ok db pb -> disfix_ok db' pb' ->
  toDisfix db pb = toDisfix db' pb' -> db = db' /\ pb = pb'.
Proof.
  intros [(? & ? & ? & -> & _) (? & ? & ? & ? & -> & _)] [(? & ? & ? & -> & _) (? & ? & ? & ? & -> & _)].
  unfold toDisfix. cbn. by intros [= <- <- <- <- <- <- <-].
Qed.

Section reg.
Context (T : Types).

(** ** The invariant *)

Definition implementer (i : InterfaceInfo) (pb : bytes) (c : ConcreteInfo) : Prop :=
  ptr_implements T (Type_ c) (iType i) = true /\ Prefix c = pb.

#[export] Instance implementer_dec i pb c : Decision (implementer i pb c).
Proof. unfold implementer. apply _. Defined.

(** What the codec keeps about type [rt]. *)
Definition info_ok (rt : rtype) (c : ConcreteInfo) : Prop :=
  Type_ c = rt /\
  match shape_of T rt with
  | SPtr _ | SInterface _ => False
  | SStruct fs => parse_fields T 0 fs [] = Ok (Fields c)
  | _ => True
  end.

Record codec_ok (cdc : Codec) : Prop := {
  co_types rt c : find_type rt (typeInfos cdc) = Some c -> info_ok rt c;
  co_registered rt c : find_type rt (typeInfos cdc) = Some c -> Registered c = true -> c ∈ concreteInfos cdc;
  co_concrete c : c ∈ concreteInfos cdc ->
    find_type (Type_ c) (typeInfos cdc) = Some c /\ Registered c = true /\ disfix_ok (Disamb c) (Prefix c) /\
    disfixToTypeInfo cdc !! GetDisfix c = Some c;
  co_disfix df c : disfixToTypeInfo cdc !! df = Some c -> df = GetDisfix c /\ c ∈ concreteInfos cdc;
  co_implementers i pb : i ∈ interfaceInfos cdc ->
    default [] (Implementers i !! pb) = filter (implementer i pb) (concreteInfos cdc);
  co_nonempty i pb : i ∈ interfaceInfos cdc -> Implementers i !! pb <> Some [];
  co_priority i : i ∈ interfaceInfos cdc -> checkConflictsInPrio_nolock i = true;
  co_names : NoDup (iType <$> interfaceInfos cdc);
}.

Lemma NewCodec_ok : codec_ok NewCodec.
Proof. constructor; cbn; intros; try done; try (by apply elem_of_nil in H); constructor. Qed.

(** ** Maps of implementers *)

Lemma add_implementer_lookup m c pb : default [] (add_implementer m c !! pb) =
  default [] (m !! pb) ++ (if decide (Prefix c = pb) then [c] else []).
Proof.
  unfold add_implementer. destruct (decide (Prefix c = pb)) as [<-|N].
  - by rewrite lookup_insert_eq.
  - rewrite lookup_insert_ne by done. by rewrite app_nil_r.
Qed.

Lemma add_implementer_nonempty m c pb : m !! pb <> Some [] -> add_implementer m c !! pb <> Some [].
Proof.
  intros H. unfold add_implementer. destruct (decide (Prefix c = pb)) as [<-|N].
  - rewrite lookup_insert_eq. intros [= E]. by apply app_nil in E as [_ ?].
  - by rewrite lookup_insert_ne.
Qed.

(** The interface after the concrete type is added, if it implements it. *)
Definition grown (c : ConcreteInfo) (i : InterfaceInfo) : InterfaceInfo :=
  if ptr_implements T (Type_ c) (iType i) then with_implementers i (add_implementer (Implementers i) c) else i.

Lemma grown_iType c i : iType (grown c i) = iType i.
Proof. unfold grown. by destruct (ptr_implements _ _ _). Qed.

Lemma grown_implementers c i pb : default [] (Implementers (grown c i) !! pb) =
  default [] (Implementers i !! pb) ++ filter (implementer i pb) [c].
Proof.
  unfold grown. rewrite filter_cons, filter_nil. destruct (ptr_implements T (Type_ c) (iType i)) eqn:E; cbn [with_implementers Implementers].
  - rewrite add_implementer_lookup. f_equal. unfold implementer.
    destruct (decide (Prefix c = pb)) as [Ep|Ep], (decide _) as [Hc|Hc]; try done; exfalso; [by apply Hc|by apply Ep, Hc].
  - rewrite decide_False by (intros [? _]; congruence). by rewrite app_nil_r.
Qed.

Lemma grown_nonempty c i pb : Implementers i !! pb <> Some [] -> Implementers (grown c i) !! pb <> Some [].
Proof. unfold grown. destruct (ptr_implements _ _ _); [apply add_implementer_nonempty|done]. Qed.

Lemma implementer_grown c i pb c' : implementer (grown c i) pb c' <-> implementer i pb c'.
Proof. unfold implementer. by rewrite grown_iType. Qed.

Lemma collect_spec l i :
  let i' := fold_left (fun info cinfo => if ptr_implements T (Type_ cinfo) (iType info)
    then with_implementers info (add_implementer (Implementers info) cinfo) else info) l i in
  iType i' = iType i /\
  (forall pb, default [] (Implementers i' !! pb) = default [] (Implementers i !! pb) ++ filter (implementer i pb) l) /\
  (forall pb, Implementers i !! pb <> Some [] -> Implementers i' !! pb <> Some []).
Proof.
  revert i. induction l as [|c l IH]; intros i; cbn [fold_left].
  - split; [done|]. split; [|done]. intros pb. by rewrite filter_nil, app_nil_r.
  - change (if ptr_implements T (Type_ c) (iType i) then _ else i) with (grown c i).
    destruct (IH (grown c i)) as (H1 & H2 & H3). rewrite grown_iType in H1. split; [done|]. split.
    + intros pb. rewrite H2, grown_implementers, <- app_assoc. f_equal.
      change (c :: l) with ([c] ++ l). rewrite filter_app. f_equal.
      apply list_filter_iff. intros c'. apply implementer_grown.
    + intros pb H. apply H3, grown_nonempty, H.
Qed.

Lemma add_to_interfaces_ok c l l' u : add_to_interfaces T c l = (l', Ok u) ->
  l' = grown c <$> l /\ (Forall (fun i => checkConflictsInPrio_nolock i = true) l ->
                         Forall (fun i => checkConflictsInPrio_nolock i = true) l').
Proof.
  revert l'. induction l as [|i l IH]; intros l' E; cbn in E; [by injection E as <- _|].
  rewrite fmap_cons. unfold grown at 1. destruct (ptr_implements T (Type_ c) (iType i)); cbn [negb] in E.
  - destruct (checkConflictsInPrio_nolock _) eqn:C; [|done].
    destruct (add_to_interfaces T c l) as [l'' r] eqn:E'. injection E as <- ->.
    destruct (IH l'' eq_refl) as [-> H]. split; [done|]. intros [_ ?]%Forall_cons. by constructor; auto.
  - destruct (add_to_interfaces T c l) as [l'' r] eqn:E'. injection E as <- ->.
    destruct (IH l'' eq_refl) as [-> H]. split; [done|]. intros [? ?]%Forall_cons. by constructor; auto.
Qed.

(** ** Registration keeps the invariant *)

Lemma newTypeInfoUnregistered_ok rt c : newTypeInfoUnregistered T rt = Ok c -> info_ok rt c /\ Registered c = false.
Proof.
  unfold newTypeInfoUnregistered, info_ok, is_struct, parseStructInfo.
  destruct (shape_of T rt) eqn:Sh; try done; try (intros [= <-]; done).
  destruct (parse_fields T 0 fs []) eqn:E; try done. by intros [= <-].
Qed.

Lemma newRegistered_ok rt p name c : newTypeInfoFromRegisteredConcreteType T rt p name = Ok c ->
  info_ok rt c /\ Registered c = true /\ disfix_ok (Disamb c) (Prefix c).
Proof.
  unfold newTypeInfoFromRegisteredConcreteType. destruct (newTypeInfoUnregistered T rt) as [c0| | |] eqn:E; try done.
  apply newTypeInfoUnregistered_ok in E as [[<- E] _]. unfold nameToDisamb, nameToPrefix.
  destruct (nameToDisfix name) as [[db pb]| | |] eqn:N; try done. intros [= <-]. apply nameToDisfix_ok in N.
  split; [|done]. by split.
Qed.

Lemma find_type_cons rt t c l : find_type rt ((t, c) :: l) = if decide (rt = t) then Some c else find_type rt l.
Proof. done. Qed.

Lemma set_type_ok cdc c : codec_ok cdc -> info_ok (Type_ c) c -> Registered c = false ->
  find_type (Type_ c) (typeInfos cdc) = None -> codec_ok (set_type cdc c).
Proof.
  intros [] Hi Hr F. constructor; cbn [typeInfos set_type interfaceInfos concreteInfos disfixToTypeInfo]; try done.
  - intros rt c'. rewrite find_type_cons. destruct (decide (rt = Type_ c)) as [->|N]; [|apply co_types0].
    intros [= <-]. done.
  - intros rt c'. rewrite find_type_cons. destruct (decide (rt = Type_ c)) as [->|N]; [|apply co_registered0].
    intros [= <-]. congruence.
  - intros c' Hc. destruct (co_concrete0 c' Hc) as (Hf & ?). split; [|done]. rewrite find_type_cons.
    destruct (decide _) as [E|]; [|done]. rewrite E in Hf. congruence.
Qed.

Lemma setTypeInfo_fresh cdc c : info_ok (Type_ c) c -> Registered c = false ->
  find_type (Type_ c) (typeInfos cdc) = None -> setTypeInfo_nolock T cdc c = (set_type cdc c, Ok tt).
Proof. intros [_ Hs] Hr F. unfold setTypeInfo_nolock. rewrite F, Hr. by destruct (shape_of T (Type_ c)). Qed.

(** The information made for a type of which there is none. *)
Definition made (rt : rtype) : R TypeInfo :=
  match shape_of T rt with
  | SInterface _ => Err Unregistered_interface
  | _ => let* c := newTypeInfoUnregistered T rt in Ok (CInfo c)
  end.

(** What [getTypeInfo_wlock] does: it finds the information, or makes it and keeps it. *)
Lemma getTypeInfo_wlock_spec cdc rt :
  let b := (derefType rt).1 in
  match lookup_info T cdc b with
  | Some info => getTypeInfo_wlock T cdc rt = (cdc, Ok info)
  | None =>
      match newTypeInfoUnregistered T b with
      | Ok c => info_ok b c /\ Registered c = false /\ find_type b (typeInfos cdc) = None /\
                getTypeInfo_wlock T cdc rt = (set_type cdc c, Ok (CInfo c))
      | _ => getTypeInfo_wlock T cdc rt = (cdc, made b)
      end
  end.
Proof.
  cbv zeta. unfold getTypeInfo_wlock, made. set (b := (derefType rt).1). clearbody b.
  destruct (lookup_info T cdc b) as [info|] eqn:L; [done|]. unfold lookup_info in L.
  destruct (newTypeInfoUnregistered T b) as [c| | |] eqn:E; try (by rewrite ?E; destruct (shape_of T b)).
  pose proof E as E'. apply newTypeInfoUnregistered_ok in E' as [Hi Hr]. pose proof Hi as [Ht Hs].
  assert (find_type b (typeInfos cdc) = None) as F by (destruct (shape_of T b); try done; by apply fmap_None in L).
  split_and!; try done. rewrite setTypeInfo_fresh by (by rewrite ?Ht). by destruct (shape_of T b).
Qed.

Lemma getTypeInfo_wlock_ok cdc rt : codec_ok cdc -> codec_ok (getTypeInfo_wlock T cdc rt).1.
Proof.
  intros H. pose proof (getTypeInfo_wlock_spec cdc rt) as E. cbv zeta in E.
  destruct (lookup_info _ _ _); [by rewrite E|]. destruct (newTypeInfoUnregistered _ _) as [c| | |].
  - destruct E as (Hi & Hr & F & ->). pose proof Hi as [Ht _]. cbn [fst]. apply set_type_ok; by rewrite ?Ht.
  - by rewrite E.
  - by rewrite E.
  - by rewrite E.
Qed.

(** Keeping information does not change what is found for any type. *)
Lemma getTypeInfo_transparent cdc rt rt' : getTypeInfo T (getTypeInfo_wlock T cdc rt).1 rt' = getTypeInfo T cdc rt'.
Proof.
  pose proof (getTypeInfo_wlock_spec cdc rt) as E. cbv zeta in E.
  destruct (lookup_info T cdc (derefType rt).1) as [info|] eqn:L; [by rewrite E|].
  destruct (newTypeInfoUnregistered T (derefType rt).1) as [c| | |] eqn:N; [|by rewrite E..].
  destruct E as (Hi & Hr & F & ->). cbn [fst]. pose proof Hi as [Ht Hs]. unfold getTypeInfo.
  pose proof (getTypeInfo_wlock_spec cdc rt') as E. pose proof (getTypeInfo_wlock_spec (set_type cdc c) rt') as E'.
  cbv zeta in E, E'. set (b := (derefType rt).1) in *. set (b' := (derefType rt').1) in *. clearbody b b'.
  destruct (decide (b' = b)) as [->|Nb].
  - rewrite L, N in E. destruct E as (_ & _ & _ & ->). cbn [snd].
    assert (lookup_info T (set_type cdc c) b = Some (CInfo c)) as L'.
    { unfold lookup_info. cbn [set_type typeInfos]. rewrite find_type_cons, Ht, decide_True by done.
      by destruct (shape_of T b). }
    rewrite L' in E'. by rewrite E'.
  - assert (lookup_info T (set_type cdc c) b' = lookup_info T cdc b') as L'.
    { unfold lookup_info. cbn [set_type typeInfos interfaceInfos]. rewrite find_type_cons, Ht. by rewrite decide_False. }
    rewrite L' in E'. destruct (lookup_info T cdc b'); [by rewrite E, E'|].
    destruct (newTypeInfoUnregistered T b') as [c'| | |] eqn:N';
      [destruct E as (_ & _ & _ & ->), E' as (_ & _ & _ & ->); done|by rewrite E, E'..].
Qed.

Lemma RegisterInterface_ok cdc name prio always cdc' u : codec_ok cdc ->
  RegisterInterface T cdc name prio always = (cdc', Ok u) -> codec_ok cdc'.
Proof.
  intros H. unfold RegisterInterface. destruct (shape_of T (TNamed name)); try done.
  destruct (newTypeInfoFromInterfaceType name prio always) as [i0| | |] eqn:E; try done.
  assert (iType i0 = name /\ Implementers i0 = ∅) as [Hn Hi].
  { unfold newTypeInfoFromInterfaceType in E. destruct (res_all _); try done. by injection E as <-. }
  unfold collectImplementers_nolock. destruct (collect_spec (concreteInfos cdc) i0) as (C1 & C2 & C3).
  set (i := fold_left _ _ _) in *. clearbody i.
  destruct (checkConflictsInPrio_nolock i) eqn:P; [|done]. unfold setTypeInfo_iface.
  destruct (find_iface (iType i) (interfaceInfos cdc)) eqn:F; [done|]. intros [= <- _]. destruct H.
  constructor; cbn [typeInfos interfaceInfos concreteInfos disfixToTypeInfo]; try done.
  - intros j pb [Hj| ->%list_elem_of_singleton]%elem_of_app; [by apply co_implementers0|].
    rewrite C2, Hi, lookup_empty. cbn. apply list_filter_iff. intros c. unfold implementer. by rewrite C1.
  - intros j pb [Hj| ->%list_elem_of_singleton]%elem_of_app; [by apply co_nonempty0|]. apply C3. by rewrite Hi.
  - intros j [Hj| ->%list_elem_of_singleton]%elem_of_app; [by apply co_priority0|done].
  - rewrite fmap_app. apply NoDup_app. split; [done|]. split; [|apply NoDup_singleton].
    intros n Hin ->%list_elem_of_singleton. clear - Hin F. induction (interfaceInfos cdc) as [|j l IH]; cbn in *; [by apply elem_of_nil in Hin|].
    destruct (str_eqb _ _) eqn:E; [done|]. apply elem_of_cons in Hin as [Hin|Hin]; [|by apply IH].
    rewrite Hin, str_eqb_refl in E. done.
Qed.

(** The codec after a concrete type was added to it and to the interfaces it implements. *)
Definition with_concrete (cdc : Codec) (c : ConcreteInfo) : Codec :=
  {| typeInfos := (Type_ c, c) :: typeInfos cdc; interfaceInfos := grown c <$> interfaceInfos cdc;
     concreteInfos := concreteInfos cdc ++ [c]; disfixToTypeInfo := <[GetDisfix c := c]> (disfixToTypeInfo cdc) |}.

Lemma with_concrete_ok cdc c : codec_ok cdc -> info_ok (Type_ c) c -> Registered c = true ->
  disfix_ok (Disamb c) (Prefix c) -> find_type (Type_ c) (typeInfos cdc) = None ->
  disfixToTypeInfo cdc !! GetDisfix c = None ->
  Forall (fun i => checkConflictsInPrio_nolock i = true) (grown c <$> interfaceInfos cdc) ->
  codec_ok (with_concrete cdc c).
Proof.
  intros [] Hi Hr Hd F Fd A. constructor; cbn [with_concrete typeInfos interfaceInfos concreteInfos disfixToTypeInfo].
  - intros rt c'. rewrite find_type_cons. destruct (decide (rt = Type_ c)) as [->|N]; [|apply co_types0].
    by intros [= <-].
  - intros rt c'. rewrite find_type_cons, elem_of_app, list_elem_of_singleton.
    destruct (decide (rt = Type_ c)) as [->|N]; [|by left; eapply co_registered0]. intros [= <-]. by right.
  - intros c' [Hc| ->%list_elem_of_singleton]%elem_of_app.
    + destruct (co_concrete0 c' Hc) as (Hf & Hr' & Hd' & Hl). rewrite find_type_cons.
      destruct (decide _) as [E|]; [rewrite E in Hf; congruence|]. rewrite lookup_insert_ne by congruence. done.
    + rewrite find_type_cons, decide_True, lookup_insert_eq; done.
  - intros df c'. rewrite lookup_insert_Some, elem_of_app, list_elem_of_singleton.
    intros [[<- <-]|[_ E]]; [by auto|]. destruct (co_disfix0 df c' E). auto.
  - intros i' pb (i & -> & Hin)%list_elem_of_fmap. rewrite grown_implementers, co_implementers0, filter_app by done.
    f_equal; apply list_filter_iff; intros c'; by rewrite implementer_grown.
  - intros i' pb (i & -> & Hin)%list_elem_of_fmap. by apply grown_nonempty, co_nonempty0.
  - intros i' Hin. by eapply Forall_forall in A.
  - rewrite <- list_fmap_compose. erewrite list_fmap_ext; [exact co_names0|]. intros k i _. apply grown_iType.
Qed.

Lemma RegisterConcrete_spec cdc ot name cdc' u : RegisterConcrete T cdc ot name = (cdc', Ok u) ->
  (forall i, i ∈ interfaceInfos cdc -> checkConflictsInPrio_nolock i = true) ->
  exists c, cdc' = with_concrete cdc c /\ info_ok (Type_ c) c /\ Registered c = true /\
    disfix_ok (Disamb c) (Prefix c) /\ find_type (Type_ c) (typeInfos cdc) = None /\
    disfixToTypeInfo cdc !! GetDisfix c = None /\
    Forall (fun i => checkConflictsInPrio_nolock i = true) (grown c <$> interfaceInfos cdc).
Proof.
  intros E Hp. unfold RegisterConcrete in E.
  destruct (match ot with TPtr e => (e, true) | _ => (ot, false) end) as [rt p].
  destruct (newTypeInfoFromRegisteredConcreteType T rt p name) as [c| | |] eqn:N; try (by destruct (shape_of T rt)).
  apply newRegistered_ok in N as (Hi & Hr & Hd). pose proof Hi as [Ht Hs].
  assert (match addCheckConflictsWithConcrete_nolock T cdc c with
    (cdc, Ok _) => setTypeInfo_nolock T cdc c | (cdc, r) => (cdc, r) end = (cdc', Ok u)) as E' by (by destruct (shape_of T rt)).
  clear E. unfold addCheckConflictsWithConcrete_nolock in E'.
  destruct (add_to_interfaces T c (interfaceInfos cdc)) as [l r] eqn:A. destruct r as [[]| | |]; try done.
  apply add_to_interfaces_ok in A as [-> A]. exists c. rewrite Ht. unfold setTypeInfo_nolock in E'. rewrite Ht, Hr in E'.
  cbn [typeInfos set_type concreteInfos disfixToTypeInfo interfaceInfos] in E'.
  destruct (find_type rt (typeInfos cdc)) eqn:F; [by destruct (shape_of T rt)|].
  destruct (disfixToTypeInfo cdc !! GetDisfix c) eqn:Fd; [by destruct (shape_of T rt)|].
  split; [destruct (shape_of T rt); naive_solver|]. split_and!; try done. apply A. by apply Forall_forall.
Qed.

Lemma RegisterConcrete_ok cdc ot name cdc' u : codec_ok cdc ->
  RegisterConcrete T cdc ot name = (cdc', Ok u) -> codec_ok cdc'.
Proof.
  intros H E. apply RegisterConcrete_spec in E as (c & -> & ?); [|apply H]. destruct_and!. by apply with_concrete_ok.
Qed.

(** ** The codecs a program can make *)

(** One successful registration, or one look-up. *)
Inductive registers : relation Codec :=
| reg_interface cdc name prio always cdc' : RegisterInterface T cdc name prio always = (cdc', Ok tt) -> registers cdc cdc'
| reg_concrete cdc ot name cdc' : RegisterConcrete T cdc ot name = (cdc', Ok tt) -> registers cdc cdc'
| reg_lookup cdc rt : registers cdc (getTypeInfo_wlock T cdc rt).1.

Lemma registers_ok cdc cdc' : rtc registers cdc cdc' -> codec_ok cdc -> codec_ok cdc'.
Proof.
  induction 1 as [|cdc1 cdc2 cdc3 Hs _ IH]; [done|]. intros H. apply IH. destruct Hs.
  - by eapply RegisterInterface_ok.
  - by eapply RegisterConcrete_ok.
  - by apply getTypeInfo_wlock_ok.
Qed.

(** A sequence of calls, up to the first one that panics. *)
Inductive registration := RegInterface (name : str) (prio : list str) (always : bool) | RegConcrete (ot : rtype) (name : str).

Fixpoint register_all (regs : list registration) (cdc : Codec) : Codec * R unit :=
  match regs with
  | [] => (cdc, Ok tt)
  | r :: regs' =>
      match (match r with
             | RegInterface name prio always => RegisterInterface T cdc name prio always
             | RegConcrete ot name => RegisterConcrete T cdc ot name
             end) with
      | (cdc, Ok _) => register_all regs' cdc
      | (cdc, r) => (cdc, r)
      end
  end.

Lemma register_all_registers regs : forall cdc, (register_all regs cdc).2 = Ok tt -> rtc registers cdc (register_all regs cdc).1.
Proof.
  induction regs as [|r regs IH]; intros cdc H; cbn [register_all] in *; [apply rtc_refl|].
  destruct r as [name prio always|ot name].
  - destruct (RegisterInterface T cdc name prio always) as [cdc' [[]| | |]] eqn:E; try done.
    eapply rtc_l; [by eapply reg_interface|by apply IH].
  - destruct (RegisterConcrete T cdc ot name) as [cdc' [[]| | |]] eqn:E; try done.
    eapply rtc_l; [by eapply reg_concrete|by apply IH].
Qed.
End reg.
