(* ===== verification/AminoRound.v ===== *)
(** * go-amino: decoding reverses encoding

    [good] describes the values that the binary format supports and [norm] the
    value that decoding gives for one of them: nil for what is empty, the zero value for
    fields that are not encoded, and in an interface a pointer exactly when the type
    was registered with one. *)

From S2P Require Import Prelude GoStrings GoBytes AminoTypes AminoCodec AminoBinary AminoPrim AminoReg.

Local Open Scope Z_scope.

Section round.
Context (T : Types) (cdc : Codec).

(** ** Zero values *)

Definition zero_shape (sh : shape) : value :=
  match sh with
  | SBool => VBool false
  | SInt _ => VInt 0
  | SUint _ => VUint 0
  | SFloat32 | SFloat64 => VFloat 0
  | SString => VString []
  | STime => VTime (-62135596800) 0
  | SSlice e => if is_byte T e then VBytes None else VSlice None
  | SArray n e => if is_byte T e then VByteArray (replicate n 0) else VArray (replicate n (zero T e))
  | SPtr _ => VPtr None
  | SMap => VMap None
  | SStruct fs => VStruct (map (fun fd => zero T (sf_Type fd)) fs)
  | SInterface _ => VIface None
  | SOther => VOther
  end.

(** No named type contains itself other than behind a pointer, slice, map or interface. *)
Definition types_ok : Prop := forall n, zero T (TNamed n) = zero_shape (shape_of T (TNamed n)).

(** It is enough to look at the declared types. *)
Lemma types_ok_declared :
  Forall (fun nd : str * declared => zero T (TNamed nd.1) = zero_shape (shape_of T (TNamed nd.1))) (decls T) -> types_ok.
Proof.
  intros H n. destruct (decl T n) as [d|] eqn:E.
  - apply (Forall_forall _ (decls T)) with (x := (n, d)) in H; [done|]. unfold decl in E. clear - E.
    induction (decls T) as [|[m d'] l IH]; cbn in E; [done|]. destruct (str_eqb n m) eqn:S; [|right; auto].
    apply str_eqb_eq in S as ->. injection E as ->. left.
  - unfold zero, shape_of. rewrite E. destruct (length (decls T)); cbn; by rewrite E.
Qed.

Lemma zero_eq rt : types_ok -> zero T rt = zero_shape (shape_of T rt).
Proof. intros H. destruct rt; try (unfold zero_shape, shape_of, shape_unnamed, zero; by destruct (length (decls T))). apply H. Qed.

(** ** Values that can be encoded *)

(** The field is encoded. *)
Definition kept (fd : StructField) : bool := isExported fd && negb (parseFieldOptions fd).1.

(** [rt] is not an interface type. *)
Definition not_iface (rt : rtype) : Prop := match shape_of T rt with SInterface _ => False | _ => True end.

(** A value of an interface: its type [c] is registered and its pointer implements the interface,
    and so does what decoding makes. *)
Definition iface_ok (i : str) (t : rtype) (v : value) : Prop :=
  (derefPointers v).2 = false /\
  exists iinfo c, find_iface i (interfaceInfos cdc) = Some iinfo /\
    find_type (derefType t).1 (typeInfos cdc) = Some c /\ Registered c = true /\
    ptr_implements T (Type_ c) i = true /\ settable T iinfo c = true.

(** A value of type [rt], in a place where floating-point numbers are allowed or not. *)
Fixpoint good (v : value) (rt : rtype) (unsafe : bool) {struct v} : Prop :=
  match v, shape_of T rt with
  | VBool _, SBool => True
  | VInt z, SInt k => in_sN (bits k) z
  | VUint z, SUint k => in_uN (bits k) z
  | VFloat f, SFloat32 => unsafe = true /\ in_uN 32 f
  | VFloat f, SFloat64 => unsafe = true /\ in_uN 64 f
  | VString s, SString => zlen s < 2 ^ 63
  | VTime s ns, STime => in_sN 64 s /\ 0 <= ns <= 999999999
  | VBytes o, SSlice e => e = TUint W8 /\ match o with None => True | Some l => zlen l < 2 ^ 63 end
  | VByteArray l, SArray n e => is_byte T e = true /\ length l = n /\ zlen l < 2 ^ 63
  | VSlice o, SSlice e =>
      is_byte T e = false /\ is_ok (typeToTyp4 T e no_opts) = true /\ is_ok (getTypeInfo T cdc e) = true /\
      match o with
      | None => True
      | Some l => zlen l < 2 ^ 63 /\
          (fix all l := match l with [] => True | v :: l' => good v e unsafe /\ all l' end) l
      end
  | VArray l, SArray n e =>
      is_byte T e = false /\ is_ok (typeToTyp4 T e no_opts) = true /\ is_ok (getTypeInfo T cdc e) = true /\
      length l = n /\ zlen l < 2 ^ 63 /\
      (fix all l := match l with [] => True | v :: l' => good v e unsafe /\ all l' end) l
  | VPtr o, SPtr e =>
      not_iface (derefType e).1 /\ is_ok (getTypeInfo T cdc e) = true /\
      match o with None => True | Some v => good v e unsafe end
  | VStruct vs, SStruct fs =>
      is_ok (parse_fields T 0 fs []) = true /\ zlen fs < 2 ^ 29 /\ length vs = length fs /\
      (fix all vs fs :=
         match vs, fs with
         | v :: vs', fd :: fs' =>
             (kept fd = true -> good v (sf_Type fd) (Unsafe (parseFieldOptions fd).2) /\
                is_ok (getTypeInfo T cdc (sf_Type fd)) = true) /\ all vs' fs'
         | _, _ => True
         end) vs fs
  | VIface None, SInterface i => True
  | VIface (Some (t, v)), SInterface i => good v t unsafe /\ iface_ok i t v
  | _, _ => False
  end.

(** ** What decoding gives *)

Fixpoint norm (v : value) (rt : rtype) {struct v} : value :=
  match v, shape_of T rt with
  | VBytes (Some []), _ => VBytes None
  | VSlice (Some []), _ => VSlice None
  | VSlice (Some l), SSlice e => VSlice (Some (map (fun v => if (isVoid v).2 then zero T e else norm v e) l))
  | VArray l, SArray n e => VArray (map (fun v => if (isVoid v).2 then zero T e else norm v e) l)
  | VPtr (Some v), SPtr e => VPtr (Some (norm v e))
  | VStruct vs, SStruct fs =>
      VStruct ((fix go vs fs :=
        match vs, fs with
        | v :: vs', fd :: fs' =>
            (if kept fd && negb (isVoid v).2 then norm v (sf_Type fd) else zero T (sf_Type fd)) :: go vs' fs'
        | _, _ => []
        end) vs fs)
  | VIface (Some (t, v)), SInterface _ =>
      match find_type (derefType t).1 (typeInfos cdc) with
      | Some c => VIface (Some (constructed c (derefPointers (norm v t)).1.1))
      | None => VIface None
      end
  | _, _ => v
  end.

(** ** Pointers *)

Fixpoint wrap (rt : rtype) (v : value) : value := match rt with TPtr e => VPtr (Some (wrap e v)) | _ => v end.

Definition no_ptr (rt : rtype) : Prop := forall e, rt <> TPtr e.

Lemma derefType_no_ptr rt : no_ptr (derefType rt).1.
Proof. induction rt; cbn; try (intros e'; done). Qed.

Lemma no_ptr_deref rt : no_ptr rt -> derefType rt = (rt, false).
Proof. destruct rt; try done. intros H. by destruct (H rt). Qed.

Lemma shape_ptr rt e : shape_of T rt = SPtr e -> rt = TPtr e.
Proof.
  destruct rt; try done; [by intros [= ->]|]. cbn. destruct (decl T name) as [[[]| |]|]; cbn; done.
Qed.

Lemma good_no_ptr v rt u : no_ptr rt -> good v rt u -> forall o, v <> VPtr o.
Proof.
  intros Hr H o ->. cbn in H. destruct (shape_of T rt) eqn:Sh; try done. apply shape_ptr in Sh. by destruct (Hr e).
Qed.

Lemma deref_no_ptr v : (forall o, v <> VPtr o) -> derefPointers v = (v, false, false).
Proof. destruct v; try done. intros H. by destruct (H o). Qed.

(** Following the pointers of a value of type [rt]. *)
Lemma deref_good rt : forall v u, good v rt u -> (derefPointers v).2 = false ->
  exists drv, derefPointers v = (drv, (derefType rt).2, false) /\ good drv (derefType rt).1 u /\
    (forall o, drv <> VPtr o) /\ (depth drv <= depth v)%nat /\ norm v rt = wrap rt (norm drv (derefType rt).1).
Proof.
  induction rt; intros v u H Hn; try (exists v; assert (forall o, v <> VPtr o) as Hp by (eapply good_no_ptr; [|exact H]; by intros ?);
    rewrite (deref_no_ptr v Hp); by split_and!).
  destruct v; try done; [|by destruct o as [[]|]]. cbn in H. destruct H as (_ & _ & H). destruct o as [v|]; [|done].
  cbn in Hn. destruct (derefPointers v) as [[drv p] q] eqn:E. destruct (IHrt v u H) as (d & E' & ? & ? & ? & Hw); [by rewrite E|].
  exists d. rewrite E in E'. injection E' as -> -> ->. cbn. rewrite E. split_and!; try done; [lia|]. by rewrite Hw.
Qed.

Lemma depth_deref v : (depth (derefPointers v).1.1 <= depth v)%nat.
Proof.
  assert (forall n v, (depth v <= n)%nat -> (depth (derefPointers v).1.1 <= depth v)%nat) as H; [|by apply (H (depth v))].
  intros n. induction n as [|n IH]; intros w Hw; destruct w as [| | | | | | | | | |[w|]| | | |]; cbn in *; try lia.
  specialize (IH w ltac:(lia)). destruct (derefPointers w) as [[d p] q]. cbn in *. lia.
Qed.

(** A value that is not void is not behind a nil pointer. *)
Lemma isVoid_deref v : isVoid v = ((derefPointers v).1.1, (isVoid v).2).
Proof. unfold isVoid. destruct (derefPointers v) as [[d p] q]. by destruct q. Qed.

Lemma not_void_deref v : (isVoid v).2 = false -> (derefPointers v).2 = false.
Proof. unfold isVoid. destruct (derefPointers v) as [[d p] q]. by destruct q. Qed.

Lemma void_norm v rt u : types_ok -> no_ptr rt -> good v rt u -> (isVoid v).2 = true -> norm v rt = zero T rt.
Proof.
  intros HT Hp H Hv. pose proof (good_no_ptr v rt u Hp H) as Hn. unfold isVoid in Hv.
  rewrite (deref_no_ptr v Hn) in Hv. cbn in Hv. rewrite zero_eq by done.
  destruct v; try done; [| | |destruct o; [done|]]; cbn in H |- *; destruct (shape_of T rt); try done.
  - apply Z.eqb_eq, zlen_0_inv in Hv as ->. done.
  - destruct H as [-> _]. cbn. destruct o as [l|]; [|done]. by apply Z.eqb_eq, zlen_0_inv in Hv as ->.
  - destruct H as [E _]. cbn. rewrite E. destruct o as [l|]; [|done]. by apply Z.eqb_eq, zlen_0_inv in Hv as ->.
Qed.

Lemma through_pointers_zero rt k : types_ok -> through_pointers T rt (zero T rt) k =
  (let* (v, n) := k (derefType rt).1 (zero T (derefType rt).1) in Ok (wrap rt v, n)).
Proof.
  intros HT. induction rt; cbn [derefType fst wrap through_pointers];
    try (match goal with |- k ?a ?b = _ => by destruct (k a b) as [[? ?]| | |] end).
  rewrite (zero_eq (TPtr rt)) by done. cbn [shape_of shape_unnamed zero_shape]. rewrite IHrt.
  by destruct (k _ _) as [[v n]| | |].
Qed.

(** ** Type information *)

Definition info_for (rt : rtype) (info : TypeInfo) : Prop :=
  info_type info = rt /\
  match info with
  | CInfo c => info_ok T rt c /\ (Registered c = true -> c ∈ concreteInfos cdc)
  | IInfo i => shape_of T rt = SInterface (iType i) /\ i ∈ interfaceInfos cdc /\
               find_iface (iType i) (interfaceInfos cdc) = Some i
  end.

Lemma find_iface_inv n l i : find_iface n l = Some i -> iType i = n /\ i ∈ l.
Proof.
  induction l as [|j l IH]; cbn; [done|]. destruct (str_eqb n (iType j)) eqn:E.
  - intros [= <-]. apply str_eqb_eq in E. split; [done|left].
  - intros [? ?]%IH. split; [done|by right].
Qed.

Lemma shape_iface rt n : shape_of T rt = SInterface n -> rt = TNamed n.
Proof.
  destruct rt; try done. cbn. destruct (decl T name) as [[[]| |]|]; cbn; try done. by intros [= ->].
Qed.

Lemma getTypeInfo_for rt info : codec_ok T cdc -> getTypeInfo T cdc rt = Ok info -> info_for (derefType rt).1 info.
Proof.
  intros Hc E. pose proof (getTypeInfo_wlock_spec T cdc rt) as Hs. cbv zeta in Hs. unfold getTypeInfo in E.
  set (b := (derefType rt).1) in *. clearbody b.
  destruct (lookup_info T cdc b) as [info'|] eqn:L.
  - rewrite Hs in E. injection E as ->. unfold lookup_info in L.
    destruct (shape_of T b) eqn:Sh; apply fmap_Some in L as (c & F & ->); cycle 12.
    { apply find_iface_inv in F as H. destruct H as [<- Hi]. split; [cbn; symmetry; by apply shape_iface|by split_and!]. }
    all: pose proof (co_types _ _ Hc _ _ F) as Hi; split; [apply Hi|split; [done|apply (co_registered _ _ Hc _ _ F)]].
  - destruct (newTypeInfoUnregistered T b) as [c| | |] eqn:N.
    + destruct Hs as (Hi & Hr & _ & Hs). rewrite Hs in E. injection E as <-. split; [apply Hi|]. split; [done|]. by rewrite Hr.
    + exfalso. rewrite Hs in E. unfold made in E. rewrite N in E. by destruct (shape_of T b).
    + exfalso. rewrite Hs in E. unfold made in E. rewrite N in E. by destruct (shape_of T b).
    + exfalso. rewrite Hs in E. unfold made in E. rewrite N in E. by destruct (shape_of T b).
Qed.

Lemma getTypeInfo_found b c : codec_ok T cdc -> find_type b (typeInfos cdc) = Some c ->
  no_ptr b /\ Type_ c = b /\ getTypeInfo T cdc b = Ok (CInfo c).
Proof.
  intros Hc F. destruct (co_types _ _ Hc _ _ F) as [Ht Hsh].
  assert (no_ptr b) as Hp by (intros e ->; done). split; [done|]. split; [done|].
  pose proof (getTypeInfo_wlock_spec T cdc b) as Hs. cbv zeta in Hs. rewrite no_ptr_deref in Hs by done. cbn [fst] in Hs.
  assert (lookup_info T cdc b = Some (CInfo c)) as Hl by (unfold lookup_info; rewrite F; by destruct (shape_of T b)).
  rewrite Hl in Hs. unfold getTypeInfo. by rewrite Hs.
Qed.

(** ** Type bytes and prefixes *)

Lemma typeToTyp3_range rt opts typ : typeToTyp3 T rt opts = Ok typ -> 0 <= typ < 8.
Proof.
  unfold typeToTyp3. destruct (shape_of T rt) as [|[]|[]| | | | | | | | | | |]; try done; intros [= <-];
    repeat case_match; unfold Typ3_Varint, Typ3_8Byte, Typ3_ByteLength, Typ3_Struct, Typ3_4Byte, Typ3_List, Typ3_Interface; lia.
Qed.

Lemma lor_8 typ : 0 <= typ < 8 -> Z.lor typ 8 = 8 + typ.
Proof. intros H. change 8 with (Z.shiftl 1 3) at 1. rewrite lor_low by lia. lia. Qed.

Lemma land_7 x : Z.land x 7 = x mod 8.
Proof. change 7 with (Z.ones 3). by rewrite Z.land_ones. Qed.

(** The pointer bit is above the three bits of the type. *)
Lemma typeToTyp4_inv rt opts typ : typeToTyp4 T rt opts = Ok typ ->
  exists t3, typeToTyp3 T (derefType rt).1 opts = Ok t3 /\ 0 <= t3 < 8 /\ Typ3 typ = t3 /\
    typ = (if (derefType rt).2 then 8 + t3 else t3) /\ IsPointer typ = (derefType rt).2.
Proof.
  unfold typeToTyp4. destruct (derefType rt) as [b p]. destruct (typeToTyp3 T b opts) as [t3| | |] eqn:E; try done.
  apply typeToTyp3_range in E as H. intros [= <-]. exists t3. split; [done|]. split; [done|].
  unfold Typ3, Typ4_Pointer. rewrite lor_8 by done.
  assert (IsPointer (if p then 8 + t3 else t3) = p) as P.
  { assert (t3 = 0 \/ t3 = 1 \/ t3 = 2 \/ t3 = 3 \/ t3 = 4 \/ t3 = 5 \/ t3 = 6 \/ t3 = 7) as D by lia.
    destruct p; by destruct D as [->|[->|[->|[->|[->|[->|[->| ->]]]]]]]. }
  split; [|done]. rewrite land_7. destruct p; [|by apply Z.mod_small].
  replace (8 + t3) with (t3 + 1 * 8) by lia. by rewrite Z.mod_add, Z.mod_small by lia.
Qed.

Lemma typeToTyp4_no_ptr rt opts : no_ptr rt -> typeToTyp4 T rt opts = typeToTyp3 T rt opts.
Proof. intros H. unfold typeToTyp4. rewrite no_ptr_deref by done. by destruct (typeToTyp3 T rt opts). Qed.

(** Whether a type has a type byte does not depend on the options. *)
Lemma typeToTyp3_opts rt opts opts' : is_ok (typeToTyp3 T rt opts) = is_ok (typeToTyp3 T rt opts').
Proof. unfold typeToTyp3. by destruct (shape_of T rt) as [|[]|[]| | | | | | | | | | |]. Qed.

Lemma typeToTyp4_opts rt opts opts' : is_ok (typeToTyp4 T rt opts) = is_ok (typeToTyp4 T rt opts').
Proof.
  unfold typeToTyp4. destruct (derefType rt) as [b p]. pose proof (typeToTyp3_opts b opts opts').
  by destruct (typeToTyp3 T b opts), (typeToTyp3 T b opts').
Qed.

Lemma split_with db pb typ : disfix_ok db pb -> 0 <= typ < 8 ->
  SplitTyp3 (WithTyp3 pb typ) = (pb, typ) /\ length (WithTyp3 pb typ) = 4%nat /\
  (exists a l, WithTyp3 pb typ = a :: l /\ a <> 0).
Proof.
  intros [_ (a & b & c & d & -> & Ha & Hd)] Ht. cbn. split; [|split; [done|by eexists _, _]].
  assert (Z.land d 7 = 0) as Hd7.
  { rewrite <- Hd, <- Z.land_assoc. change (Z.land 0xF8 7) with 0. apply Z.land_0_r. }
  unfold SplitTyp3. cbn. f_equal.
  - repeat f_equal. rewrite Z.land_lor_distr_l, Hd, land_248, Z.lor_0_r by done. done.
  - rewrite Z.land_lor_distr_l, Hd7, Z.lor_0_l, land_7. by apply Z.mod_small.
Qed.

(** ** The round trip at one level, from the one below *)

(** Encoding with fuel [f] succeeds and decoding with fuel [g] reverses it, for values behind no pointer. *)
Definition round_trips (f g : nat) : Prop := forall v rt opts info,
  (depth v <= f)%nat -> no_ptr rt -> getTypeInfo T cdc rt = Ok info -> good v rt (Unsafe opts) ->
  exists bz, _encodeReflectBinary T cdc f info v opts = Ok bz /\ 0 < zlen bz /\
    forall rest, _decodeReflectBinary T cdc g (bz ++ rest) info rt (zero T rt) opts = Ok (norm v rt, zlen bz).

(** Only a pointer to an interface is refused. *)
Lemma iface_ptr_match {A} sh rt (a b : A) : no_ptr rt \/ (forall n, sh <> SInterface n) ->
  match sh, rt with SInterface _, TPtr _ => a | _, _ => b end = b.
Proof. intros H. destruct sh; try done. destruct rt; try done. destruct H as [H|H]; [by destruct (H rt)|by destruct (H name)]. Qed.

Lemma decode_unfold f bz info rt rv opts : no_ptr rt ->
  _decodeReflectBinary T cdc (S f) bz info rt rv opts = decode_step T cdc (_decodeReflectBinary T cdc f) bz info rv opts.
Proof.
  intros H. cbn [_decodeReflectBinary]. rewrite iface_ptr_match by (by left). destruct rt; try done. by destruct (H rt).
Qed.

Lemma getTypeInfo_deref rt : getTypeInfo T cdc rt = getTypeInfo T cdc (derefType rt).1.
Proof.
  unfold getTypeInfo, getTypeInfo_wlock. by rewrite (no_ptr_deref (derefType rt).1) by apply derefType_no_ptr.
Qed.

(** Decoding into a nil pointer makes the values it points to. *)
Lemma decode_pointers f bz info rt opts : types_ok -> info_type info = (derefType rt).1 ->
  (rt = (derefType rt).1 \/ not_iface (derefType rt).1) ->
  _decodeReflectBinary T cdc f bz info rt (zero T rt) opts =
  (let* (v, n) := _decodeReflectBinary T cdc f bz info (derefType rt).1 (zero T (derefType rt).1) opts in Ok (wrap rt v, n)).
Proof.
  intros HT Hi Hd. destruct f as [|f]; [done|]. rewrite (decode_unfold f bz info (derefType rt).1) by apply derefType_no_ptr.
  cbn [_decodeReflectBinary]. rewrite through_pointers_zero by done. rewrite Hi.
  apply iface_ptr_match. destruct Hd as [Hd|Hd]; [left; rewrite Hd; apply derefType_no_ptr|right].
  intros n E. unfold not_iface in Hd. by rewrite E in Hd.
Qed.

Lemma good_pointer_info rt v u : good v rt u -> rt = (derefType rt).1 \/ not_iface (derefType rt).1.
Proof.
  destruct rt; try (by left). destruct v; try done; [|by destruct o as [[]|]]. cbn. intros (H & _). by right.
Qed.

Lemma NewPrefixBytes_id pb : length pb = 4%nat -> NewPrefixBytes pb = pb.
Proof. intros H. unfold NewPrefixBytes, new_array. rewrite H, take_ge by lia. apply app_nil_r. Qed.

Lemma Typ3_id t : 0 <= t < 8 -> Typ3 t = t.
Proof. intros H. unfold Typ3. rewrite land_7. by apply Z.mod_small. Qed.

(** Values with their prefix, through pointers. *)
Lemma round_trip_value f g v rt opts info : types_ok -> codec_ok T cdc -> round_trips f g ->
  (depth (derefPointers v).1.1 <= f)%nat -> getTypeInfo T cdc rt = Ok info -> good v rt (Unsafe opts) ->
  (derefPointers v).2 = false -> is_ok (typeToTyp4 T rt opts) = true ->
  exists bz, encodeReflectBinary T (_encodeReflectBinary T cdc f) info (derefPointers v).1.1 opts = Ok bz /\ 0 < zlen bz /\
    forall rest, decodeReflectBinary T (_decodeReflectBinary T cdc g) (bz ++ rest) info rt (zero T rt) opts = Ok (norm v rt, zlen bz).
Proof.
  intros HT Hc HR Hd Hg Hv Hn Hk. destruct (deref_good rt v _ Hv Hn) as (d & E & Hgd & Hp & _ & Hw).
  rewrite E in Hd |- *. cbn [fst] in *. pose proof (getTypeInfo_for rt info Hc Hg) as [Hi Hf].
  rewrite getTypeInfo_deref in Hg.
  destruct (HR d (derefType rt).1 opts info Hd (derefType_no_ptr rt) Hg Hgd) as (bz & Ee & Hpos & Ed).
  unfold encodeReflectBinary. rewrite Ee.
  assert (forall A (a b : A), match d with VPtr _ => a | _ => b end = b) as -> by (intros; destruct d; try done; by destruct (Hp o)).
  assert (forall rest, _decodeReflectBinary T cdc g (bz ++ rest) info rt (zero T rt) opts = Ok (norm v rt, zlen bz)) as Ed'.
  { intros rest. rewrite decode_pointers; [|done|done|by eapply good_pointer_info]. by rewrite Ed, Hw. }
  assert (forall A (a b : A), match shape_of T (info_type info), rt with SInterface _, TPtr _ => a | _, _ => b end = b) as Hm.
  { intros. apply iface_ptr_match. rewrite Hi. destruct (good_pointer_info _ _ _ Hv) as [Er|Hni].
    - left. rewrite Er. apply derefType_no_ptr.
    - right. intros n En. unfold not_iface in Hni. by rewrite En in Hni. }
  unfold decodeReflectBinary. setoid_rewrite Hm. destruct (is_registered info) eqn:Er.
  2: { exists bz. split; [done|]. split; [done|]. intros rest. rewrite Ed', slide_app. done. }
  destruct info as [c|i]; [|done]. cbn in Er, Hi. destruct Hf as [_ Hf].
  destruct (co_concrete _ _ Hc c (Hf Er)) as (_ & _ & Hdf & _).
  destruct (typeToTyp4 T rt opts) as [t4| | |] eqn:E4; try done.
  apply typeToTyp4_inv in E4 as (t3 & E3 & R3 & _). cbn [info_type info_prefix]. rewrite Hi.
  rewrite typeToTyp4_no_ptr by apply derefType_no_ptr. rewrite E3, Typ3_id by done.
  destruct (split_with _ _ _ Hdf R3) as (Hs & Hl & _). set (pre := WithTyp3 (Prefix c) t3) in *. clearbody pre.
  exists (pre ++ bz). split; [done|]. split; [zl|]. intros rest. rewrite <- app_assoc.
  assert (zlen pre = 4) as Hz by (unfold zlen; lia).
  destruct (Z.ltb_spec (zlen (pre ++ bz ++ rest)) PrefixBytesLen) as [?|_]; [unfold PrefixBytesLen in *; zl|].
  assert (take 4 (pre ++ bz ++ rest) = pre) as -> by (rewrite <- Hl; apply take_app_length).
  assert (drop 4 (pre ++ bz ++ rest) = bz ++ rest) as -> by (rewrite <- Hl; apply drop_app_length).
  rewrite NewPrefixBytes_id, Hs, str_eqb_refl by done. cbn [negb].
  unfold checkTyp3. rewrite E3, Z.eqb_refl. cbn [negb]. rewrite Ed', slide_app. unfold PrefixBytesLen. by rewrite zlen_app, Hz.
Qed.

(** ** Lists *)

Definition all_good (l : list value) (e : rtype) (u : bool) : Prop :=
  (fix all l := match l with [] => True | v :: l' => good v e u /\ all l' end) l.

Lemma IsPointer_bit typ : IsPointer typ = negb (Z.land typ 8 =? 0).
Proof. unfold IsPointer. assert (0 <= Z.land typ 8) by (apply Z.land_nonneg; lia). destruct (Z.ltb_spec 0 (Z.land typ 8)), (Z.eqb_spec (Z.land typ 8) 0); lia || done. Qed.

Lemma round_trip_elems f g e opts info typ : types_ok -> codec_ok T cdc -> round_trips f g ->
  getTypeInfo T cdc e = Ok info -> typeToTyp4 T e opts = Ok typ ->
  forall l, all_good l e (Unsafe opts) -> Forall (fun v => (depth v <= f)%nat) l ->
  exists bz, encode_elems T (_encodeReflectBinary T cdc f) info typ l opts = Ok bz /\ zlen l <= zlen bz /\
    forall rest n, decode_elems T (_decodeReflectBinary T cdc g) info e (IsPointer typ) (replicate (length l) (zero T e)) opts (bz ++ rest) n
      = Ok (map (fun v => if (isVoid v).2 then zero T e else norm v e) l, n + zlen bz).
Proof.
  intros HT Hc HR Hg H4. pose proof H4 as H4'. apply typeToTyp4_inv in H4' as (t3 & _ & _ & _ & _ & Hp).
  induction l as [|v l IH]; intros Hl Hd.
  - exists []. split; [done|]. split; [done|]. intros rest n. cbn. f_equal. f_equal. zl.
  - destruct Hl as [Hv Hl]. apply Forall_cons in Hd as [Hd1 Hd]. destruct (IH Hl Hd) as (bz & Ee & Hlen & Ed).
    cbn [encode_elems]. rewrite (isVoid_deref v). destruct (IsPointer typ && (isVoid v).2) eqn:Ev.
    + apply andb_true_iff in Ev as [Ep Ev]. rewrite Ee. exists (1 :: bz). split; [done|]. split; [zl|]. intros rest n.
      cbn [length replicate decode_elems map]. rewrite Ep, Ev in *. cbn [app decodeNumNilBytes].
      change (1 =? 0) with false. change (1 =? 1) with true. cbv iota. rewrite slide_ok by zl.
      change (drop (Z.to_nat 1) (1 :: bz ++ rest)) with (bz ++ rest). rewrite Ed. f_equal. f_equal. zl.
    + assert ((derefPointers v).2 = false) as Hn.
      { apply andb_false_iff in Ev as [Ep|Ev]; [|by apply not_void_deref].
        rewrite (deref_no_ptr v); [done|]. eapply good_no_ptr; [|exact Hv]. intros e' ->. by rewrite Hp in Ep. }
      destruct (round_trip_value f g v e opts info HT Hc HR (Nat.le_trans _ _ _ (depth_deref v) Hd1) Hg Hv Hn) as (bz1 & Ee1 & Hpos & Ed1); [by rewrite H4|].
      rewrite Ee1, Ee. eexists. split; [reflexivity|].
      assert ((if (isVoid v).2 then zero T e else norm v e) = norm v e) as En.
      { destruct (isVoid v).2 eqn:V; [|done]. rewrite andb_true_r in Ev. symmetry. eapply void_norm; try done.
        intros e' ->. by rewrite Hp in Ev. }
      split; [destruct (IsPointer typ); zl|]. intros rest n. cbn [length replicate decode_elems map]. rewrite En.
      destruct (IsPointer typ) eqn:Ep; cbn [app].
      * cbn [decodeNumNilBytes]. change (0 =? 0) with true. cbv iota. rewrite slide_ok by zl.
        change (drop (Z.to_nat 1) (0 :: (bz1 ++ bz) ++ rest)) with ((bz1 ++ bz) ++ rest). rewrite <- app_assoc, Ed1, slide_app, Ed.
        f_equal. f_equal. zl.
      * rewrite slide_ok by zl. change (drop (Z.to_nat 0) ((bz1 ++ bz) ++ rest)) with ((bz1 ++ bz) ++ rest).
        change (0 =? 0) with true. cbv iota. rewrite <- app_assoc, Ed1, slide_app, Ed. f_equal. f_equal. zl.
Qed.

Lemma typ4_byte e opts typ rest : typeToTyp4 T e opts = Ok typ ->
  EncodeByte typ = [typ] /\ decodeTyp4AndCheck T e (typ :: rest) opts = Ok (IsPointer typ, 1).
Proof.
  intros E. apply typeToTyp4_inv in E as H. destruct H as (t3 & _ & R3 & _ & Et & _).
  assert (0 <= typ < 16) as R by (rewrite Et; destruct (derefType e).2; lia). split; [apply small_uvarint; lia|].
  unfold decodeTyp4AndCheck. cbn [decodeTyp4].
  assert (Z.land typ 0xF0 = 0) as ->.
  { rewrite <- (Z.mod_small typ (2 ^ 4)), <- Z.land_ones, <- Z.land_assoc by lia. change (Z.land (Z.ones 4) 0xF0) with 0. apply Z.land_0_r. }
  cbn [negb Z.eqb]. rewrite E, Z.eqb_refl. cbn [negb]. by rewrite IsPointer_bit.
Qed.

(** The type byte, the length and the elements. *)
Lemma round_trip_list f g e opts l : types_ok -> codec_ok T cdc -> round_trips f g ->
  is_byte T e = false -> is_ok (typeToTyp4 T e no_opts) = true -> is_ok (getTypeInfo T cdc e) = true ->
  zlen l < 2 ^ 63 -> all_good l e (Unsafe opts) -> Forall (fun v => (depth v <= f)%nat) l ->
  let r := map (fun v => if (isVoid v).2 then zero T e else norm v e) l in
  exists bz, encodeReflectBinaryList T cdc (_encodeReflectBinary T cdc f) e l opts = Ok bz /\ 0 < zlen bz /\
    forall rest,
      decodeReflectBinarySlice T cdc (_decodeReflectBinary T cdc g) (bz ++ rest) e opts =
        Ok (VSlice (match r with [] => None | _ => Some r end), zlen bz) /\
      decodeReflectBinaryArray T cdc (_decodeReflectBinary T cdc g) (bz ++ rest) (length l) e (replicate (length l) (zero T e)) opts =
        Ok (VArray r, zlen bz).
Proof.
  intros HT Hc HR Hb Hk Hi Hz Hl Hd r. rewrite (typeToTyp4_opts e no_opts opts) in Hk.
  destruct (typeToTyp4 T e opts) as [typ| | |] eqn:E4; try done.
  destruct (getTypeInfo T cdc e) as [info| | |] eqn:Ei; try done.
  destruct (round_trip_elems f g e opts info typ HT Hc HR Ei E4 l Hl Hd) as (bz & Ee & Hlen & Ed).
  unfold encodeReflectBinaryList. rewrite Hb, E4, Ei, Ee. eexists. split; [reflexivity|].
  destruct (typ4_byte e opts typ [] E4) as [-> _]. split; [zl|]. intros rest. rewrite <- !app_assoc. cbn [app].
  pose proof (zlen_nonneg l). assert (in_uN 64 (zlen l)) as Hu by (unfold in_uN; lia).
  assert (s64 (zlen l) = zlen l) as Hs by (apply sN_id; unfold in_sN; lia).
  unfold decodeReflectBinarySlice, decodeReflectBinaryArray. rewrite Hb, Ei.
  destruct (typ4_byte e opts typ (EncodeUvarint (zlen l) ++ bz ++ rest) E4) as [_ ->].
  rewrite slide_ok by zl. change (drop (Z.to_nat 1) (typ :: ?x)) with x. rewrite DecodeUvarint_Encode, slide_app, Hs by done.
  split.
  - destruct (Z.ltb_spec (zlen l) 0); [lia|]. destruct (Z.ltb_spec (zlen (bz ++ rest)) (zlen l)); [zl|].
    destruct (Z.eqb_spec (zlen l) 0) as [E0|E0].
    + apply zlen_0_inv in E0 as ->. injection Ee as <-. cbn. f_equal.
    + replace (Z.to_nat (zlen l)) with (length l) by (unfold zlen; lia). rewrite Ed. destruct l; [done|].
      f_equal. f_equal. zl.
  - change (Z.of_nat (length l)) with (zlen l). rewrite Z.eqb_refl. cbn [negb]. rewrite Ed. f_equal. f_equal. zl.
Qed.

(** ** Structs *)

(** What [parse_fields] makes of the fields of a struct type: the kept ones, numbered from one. *)
Record fields_ok (fs : list StructField) (infos : list FieldInfo) : Prop := {
  fo_field k fi : infos !! k = Some fi -> exists fd, fs !! fi_Index fi = Some fd /\ kept fd = true /\
    fi_Type fi = sf_Type fd /\ Unsafe (fi_opts fi) = Unsafe (parseFieldOptions fd).2 /\
    BinFieldNum (fi_opts fi) = u32 (Z.of_nat k + 1) /\ exists t, typeToTyp4 T (fi_Type fi) (fi_opts fi) = Ok t /\ BinTyp3 fi = Typ3 t;
  fo_index k k' fi fi' : infos !! k = Some fi -> infos !! k' = Some fi' -> fi_Index fi = fi_Index fi' -> k = k';
  fo_all i fd : fs !! i = Some fd -> kept fd = true -> exists k fi, infos !! k = Some fi /\ fi_Index fi = i;
}.

Lemma fields_ok_snoc_skip fs fd infos : fields_ok fs infos -> kept fd = false -> fields_ok (fs ++ [fd]) infos.
Proof.
  intros [H1 H2 H3] Hk. constructor; [|done|].
  - intros k fi E. destruct (H1 k fi E) as (fd' & E' & ?). exists fd'. split; [by apply lookup_app_l_Some|done].
  - intros i fd'. rewrite lookup_snoc_Some. intros [[_ E]|[_ <-]] Hk'; [by eapply H3|congruence].
Qed.

Lemma fields_ok_snoc fs fd infos fi : fields_ok fs infos -> kept fd = true ->
  fi_Index fi = length fs -> fi_Type fi = sf_Type fd -> Unsafe (fi_opts fi) = Unsafe (parseFieldOptions fd).2 ->
  BinFieldNum (fi_opts fi) = u32 (zlen infos + 1) ->
  (exists t, typeToTyp4 T (fi_Type fi) (fi_opts fi) = Ok t /\ BinTyp3 fi = Typ3 t) -> fields_ok (fs ++ [fd]) (infos ++ [fi]).
Proof.
  intros [H1 H2 H3] Hk Hi Ht Hu Hn Hty.
  assert (forall k fi', infos !! k = Some fi' -> (fi_Index fi' < length fs)%nat) as Hlt.
  { intros k fi' E. destruct (H1 k fi' E) as (fd' & E' & _). by eapply lookup_lt_Some. }
  constructor.
  - intros k fi'. rewrite lookup_snoc_Some. intros [[_ E]|[-> <-]].
    + destruct (H1 k fi' E) as (fd' & E' & ?). exists fd'. split; [by apply lookup_app_l_Some|done].
    + exists fd. rewrite Hi, lookup_app_r, Nat.sub_diag by lia. by split_and!.
  - intros k k' fi1 fi2. rewrite !lookup_snoc_Some. intros [[_ E1]|[-> <-]] [[_ E2]|[-> <-]] E; [by eapply H2| | |done].
    + apply Hlt in E1. lia.
    + apply Hlt in E2. lia.
  - intros i fd'. rewrite lookup_snoc_Some. intros [[_ E]|[-> <-]] Hk'.
    + destruct (H3 i fd' E Hk') as (k & fi' & E' & <-). exists k, fi'. split; [by apply lookup_app_l_Some|done].
    + exists (length infos), fi. split; [by rewrite lookup_app_r, Nat.sub_diag by lia|done].
Qed.

Lemma parse_fields_ok fs : forall pre infos r, fields_ok pre infos ->
  parse_fields T (length pre) fs infos = Ok r -> fields_ok (pre ++ fs) r.
Proof.
  induction fs as [|fd fs IH]; intros pre infos r H; cbn [parse_fields].
  - rewrite app_nil_r. by intros [= <-].
  - assert (pre ++ fd :: fs = (pre ++ [fd]) ++ fs) as -> by (by rewrite <- app_assoc).
    assert (S (length pre) = length (pre ++ [fd])) as -> by (rewrite length_app; cbn; lia).
    destruct (isExported fd) eqn:Ex; cbn [negb].
    2: { intros E. eapply IH, E. apply fields_ok_snoc_skip; [done|]. unfold kept. by rewrite Ex. }
    destruct (parseFieldOptions fd) as [skip opts] eqn:Ep. destruct skip.
    { intros E. eapply IH, E. apply fields_ok_snoc_skip; [done|]. unfold kept. by rewrite Ex, Ep. }
    destruct (typeToTyp4 _ _ _) as [t| | |] eqn:E4; try done. destruct (checkUnsafe T _); [|done].
    intros E. eapply IH, E. apply fields_ok_snoc; cbn; try done.
    + unfold kept. by rewrite Ex, Ep.
    + by rewrite Ep.
    + by exists t.
Qed.

Definition field_val (vs : list value) (fi : FieldInfo) : value :=
  match vs !! fi_Index fi with
  | Some v => if (isVoid v).2 then zero T (fi_Type fi) else norm v (fi_Type fi)
  | None => zero T (fi_Type fi)
  end.

Definition apply_fields (vs : list value) (infos : list FieldInfo) (rv : list value) : list value :=
  fold_left (fun rv fi => <[fi_Index fi := field_val vs fi]> rv) infos rv.

Lemma apply_fields_id vs infos rv :
  Forall (fun fi => rv !! fi_Index fi = Some (field_val vs fi)) infos -> apply_fields vs infos rv = rv.
Proof. induction 1 as [|fi l E _ IH]; [done|]. cbn. by rewrite list_insert_id. Qed.

Lemma decode_term rest : decodeFieldNumberAndTyp3 (4 :: rest) = Ok (0, 4, 1).
Proof.
  change (4 :: rest) with ([4] ++ rest). rewrite <- (small_uvarint 4) by lia. change 4 with (8 * 0 + 4) at 1.
  rewrite decode_key by lia. done.
Qed.

(** A field that can be encoded. *)
Definition field_ok (f : nat) (vs : list value) (fi : FieldInfo) : Prop :=
  exists v info t, vs !! fi_Index fi = Some v /\ good v (fi_Type fi) (Unsafe (fi_opts fi)) /\ (depth v <= f)%nat /\
    getTypeInfo T cdc (fi_Type fi) = Ok info /\ typeToTyp4 T (fi_Type fi) (fi_opts fi) = Ok t /\ BinTyp3 fi = Typ3 t.

Definition field_void (vs : list value) (fi : FieldInfo) : Prop :=
  exists v, vs !! fi_Index fi = Some v /\ (isVoid v).2 = true.

(** Fields numbered from [base]. *)
Fixpoint numbered (base : Z) (infos : list FieldInfo) : Prop :=
  match infos with [] => True | fi :: l => BinFieldNum (fi_opts fi) = base /\ numbered (base + 1) l end.

Lemma round_trip_fields f g vs : types_ok -> codec_ok T cdc -> round_trips f g ->
  forall infos base, 1 <= base -> base + zlen infos <= 2 ^ 29 -> numbered base infos -> NoDup (fi_Index <$> infos) ->
  Forall (field_ok f vs) infos ->
  exists bz, encode_fields T cdc (_encodeReflectBinary T cdc f) infos vs = Ok bz /\
    (bz = [] /\ Forall (field_void vs) infos \/
     exists num typ k, base <= num <= 2 ^ 29 - 1 /\ 0 <= typ < 8 /\ bz = PutUvarint (8 * num + typ) ++ k) /\
    forall rv rest n, Forall (fun fi => rv !! fi_Index fi = Some (zero T (fi_Type fi))) infos ->
      decode_fields T cdc (_decodeReflectBinary T cdc g) infos rv (bz ++ 4 :: rest) n =
        Ok (apply_fields vs infos rv, 4 :: rest, n + zlen bz).
Proof.
  intros HT Hc HR. induction infos as [|fi infos IH]; intros base Hb Hlen Hnum Hnd Hok.
  { exists []. split; [done|]. split; [by left|]. intros rv rest n _. cbn. f_equal. f_equal. zl. }
  destruct Hnum as [Hn Hnum]. rewrite fmap_cons in Hnd. apply NoDup_cons in Hnd as [Hni Hnd].
  apply Forall_cons in Hok as [(v & info & t & Ev & Hg & Hd & Ei & E4 & E3) Hok].
  rewrite zlen_cons in Hlen. pose proof (zlen_nonneg infos).
  destruct (IH (base + 1) ltac:(lia) ltac:(lia) Hnum Hnd Hok) as (bz & Ee & Hfirst & Ed).
  assert (forall (rv : list value) x, Forall (fun fj => rv !! fi_Index fj = Some (zero T (fi_Type fj))) infos ->
    Forall (fun fj => <[fi_Index fi := x]> rv !! fi_Index fj = Some (zero T (fi_Type fj))) infos) as Hkeep.
  { intros rv x Hz. apply Forall_forall. intros fj Hj. rewrite list_lookup_insert_ne.
    - by eapply Forall_forall in Hz.
    - intros E. apply Hni. rewrite E. by apply list_elem_of_fmap_2. }
  cbn [encode_fields decode_fields apply_fields fold_left]. rewrite Ev, (isVoid_deref v), Ei.
  destruct (isVoid v).2 eqn:V.
  - exists bz. split; [done|]. split.
    { destruct Hfirst as [[-> Hv]|(num & typ & k & ? & ? & ->)]; [left|right; exists num, typ, k; split; [lia|done]].
      split; [done|]. constructor; [by exists v|done]. }
    intros rv rest n Hz. apply Forall_cons in Hz as [Hz0 Hz]. rewrite Hz0.
    assert (field_val vs fi = zero T (fi_Type fi)) as Efv by (unfold field_val; by rewrite Ev, V).
    destruct Hfirst as [[-> Hv]|(num & typ & k & Hnum' & Htyp & ->)].
    + cbn [app]. rewrite decode_term, Hn. destruct (Z.ltb_spec base 0); [lia|]. cbn [Z.eqb].
      change (fold_left _ infos ?r) with (apply_fields vs infos r).
      rewrite Efv, list_insert_id by done. rewrite apply_fields_id.
      * f_equal. f_equal. zl.
      * apply Forall_forall. intros fj Hj. eapply Forall_forall in Hz as ->, Hv as (w & Ew & Vw); try done.
        unfold field_val. by rewrite Ew, Vw.
    + rewrite <- app_assoc, decode_key by lia. rewrite Hn. destruct (Z.ltb_spec base num); [|lia].
      rewrite app_assoc, Ed by (by apply Hkeep). by rewrite Efv.
  - apply typeToTyp4_inv in E4 as H4. destruct H4 as (t3 & _ & R3 & Et & _ & _). rewrite E3, Et, Hn.
    rewrite encodeFieldNumberAndTyp3_ok by lia.
    destruct (round_trip_value f g v _ _ _ HT Hc HR (Nat.le_trans _ _ _ (depth_deref v) Hd) Ei Hg (not_void_deref v V)) as (bz1 & Ee1 & Hpos & Ed1); [by rewrite E4|].
    rewrite Ee1, Ee. eexists. split; [reflexivity|]. split; [right; exists base, t3; eexists; split; [lia|by split]|].
    intros rv rest n Hz. apply Forall_cons in Hz as [Hz0 Hz]. rewrite Hz0, <- app_assoc, decode_key by lia.
    destruct (Z.ltb_spec base base); [lia|]. destruct (Z.eqb_spec base 0); [lia|]. rewrite slide_app, Z.eqb_refl, E4, Et, Z.eqb_refl.
    cbn [negb]. rewrite <- app_assoc, Ed1, slide_app, Ed by (by apply Hkeep).
    assert (field_val vs fi = norm v (fi_Type fi)) as -> by (unfold field_val; by rewrite Ev, V). f_equal. f_equal. zl.
Qed.

(** The loops of [good] and [norm] over the fields. *)
Definition fields_good (vs : list value) (fs : list StructField) : Prop :=
  (fix all vs fs :=
     match vs, fs with
     | v :: vs', fd :: fs' =>
         (kept fd = true -> good v (sf_Type fd) (Unsafe (parseFieldOptions fd).2) /\
            is_ok (getTypeInfo T cdc (sf_Type fd)) = true) /\ all vs' fs'
     | _, _ => True
     end) vs fs.

Definition norm_fields (vs : list value) (fs : list StructField) : list value :=
  (fix go vs fs :=
     match vs, fs with
     | v :: vs', fd :: fs' =>
         (if kept fd && negb (isVoid v).2 then norm v (sf_Type fd) else zero T (sf_Type fd)) :: go vs' fs'
     | _, _ => []
     end) vs fs.

Lemma fields_good_lookup vs : forall fs i v fd, fields_good vs fs -> vs !! i = Some v -> fs !! i = Some fd -> kept fd = true ->
  good v (sf_Type fd) (Unsafe (parseFieldOptions fd).2) /\ is_ok (getTypeInfo T cdc (sf_Type fd)) = true.
Proof.
  induction vs as [|w vs IH]; intros [|fd' fs] i v fd H Ev Ef Hk; try done.
  destruct H as [H1 H2]. destruct i as [|i]; [|by eapply (IH fs i)]. injection Ev as ->. injection Ef as ->. auto.
Qed.

Lemma norm_fields_lookup vs : forall fs i v fd, vs !! i = Some v -> fs !! i = Some fd ->
  norm_fields vs fs !! i = Some (if kept fd && negb (isVoid v).2 then norm v (sf_Type fd) else zero T (sf_Type fd)).
Proof.
  induction vs as [|w vs IH]; intros [|fd' fs] i v fd Ev Ef; try done.
  destruct i as [|i]; [|by apply (IH fs i)]. injection Ev as ->. by injection Ef as ->.
Qed.

Lemma norm_fields_length vs : forall fs, length vs = length fs -> length (norm_fields vs fs) = length fs.
Proof. induction vs as [|w vs IH]; intros [|fd fs] H; try done. cbn in *. f_equal. apply IH. lia. Qed.

Lemma apply_fields_lookup vs infos : forall rv, NoDup (fi_Index <$> infos) ->
  length (apply_fields vs infos rv) = length rv /\
  (forall fi, fi ∈ infos -> (fi_Index fi < length rv)%nat -> apply_fields vs infos rv !! fi_Index fi = Some (field_val vs fi)) /\
  (forall i, i ∉ fi_Index <$> infos -> apply_fields vs infos rv !! i = rv !! i).
Proof.
  induction infos as [|fi infos IH]; intros rv Hnd.
  { split; [done|]. split; [by intros fi ?%elem_of_nil|done]. }
  rewrite fmap_cons in Hnd |- *. apply NoDup_cons in Hnd as [Hni Hnd].
  change (apply_fields vs (fi :: infos) rv) with (apply_fields vs infos (<[fi_Index fi := field_val vs fi]> rv)).
  destruct (IH (<[fi_Index fi := field_val vs fi]> rv) Hnd) as (L & H1 & H2). rewrite length_insert in L, H1.
  split; [done|]. split.
  - intros fj [->|Hj]%elem_of_cons Hlt; [|by apply H1]. rewrite H2 by done. by apply list_lookup_insert_eq.
  - intros i [Hne Hi]%not_elem_of_cons. rewrite H2 by done. by apply list_lookup_insert_ne.
Qed.

(** The decoded fields. *)
Lemma apply_fields_norm vs fs infos : fields_ok fs infos -> length vs = length fs -> NoDup (fi_Index <$> infos) ->
  apply_fields vs infos (map (fun fd => zero T (sf_Type fd)) fs) = norm_fields vs fs.
Proof.
  intros Hf Hl Hnd. destruct (apply_fields_lookup vs infos (map (fun fd => zero T (sf_Type fd)) fs) Hnd) as (L & H1 & H2).
  rewrite length_map in L, H1. apply (list_eq_same_length _ _ (length fs)); [by rewrite norm_fields_length|done|].
  intros i x y Hi Ex Ey. destruct (lookup_lt_is_Some_2 fs i Hi) as [fd Ef].
  destruct (lookup_lt_is_Some_2 vs i) as [v Ev]; [by rewrite Hl|].
  rewrite (norm_fields_lookup vs fs i v fd Ev Ef) in Ey. injection Ey as <-. destruct (kept fd) eqn:Hk.
  - destruct (fo_all _ _ Hf i fd Ef Hk) as (k & fi & Ek & Hidx). pose proof (fo_field _ _ Hf k fi Ek) as (fd' & Ef' & _ & Ht & _).
    rewrite Hidx, Ef in Ef'. injection Ef' as <-. rewrite <- Hidx in Ex, Hi. rewrite H1 in Ex; [|by eapply list_elem_of_lookup_2|done].
    injection Ex as <-. unfold field_val. rewrite Hidx, Ev, Ht. by destruct (isVoid v).2.
  - rewrite H2 in Ex.
    + change (map ?g fs) with (g <$> fs) in Ex. rewrite list_lookup_fmap, Ef in Ex. by injection Ex as <-.
    + intros (fi & -> & (k & Ek)%list_elem_of_lookup_1)%list_elem_of_fmap_1.
      destruct (fo_field _ _ Hf k fi Ek) as (fd' & Ef' & Hk' & _). congruence.
Qed.

Lemma parse_fields_length fs : forall i infos r, parse_fields T i fs infos = Ok r -> (length r <= length infos + length fs)%nat.
Proof.
  induction fs as [|fd fs IH]; intros i infos r; cbn [parse_fields length]; [intros [= <-]; lia|].
  destruct (negb _); [intros ?%IH; lia|]. destruct (parseFieldOptions fd) as [[] opts]; [intros ?%IH; lia|].
  destruct (typeToTyp4 _ _ _); try done. destruct (checkUnsafe _ _); [|done]. intros E%IH. rewrite length_app in E. cbn in E. lia.
Qed.

Lemma numbered_lookup infos : forall base, 1 <= base -> base + zlen infos <= 2 ^ 29 ->
  (forall k fi, infos !! k = Some fi -> BinFieldNum (fi_opts fi) = u32 (Z.of_nat k + base)) -> numbered base infos.
Proof.
  induction infos as [|fi infos IH]; intros base Hb Hl H; [done|]. rewrite zlen_cons in Hl. pose proof (zlen_nonneg infos). split.
  - rewrite (H O fi eq_refl). apply uN_id. unfold in_uN. lia.
  - apply IH; [lia|lia|]. intros k fi' E. rewrite (H (S k) fi' E). f_equal. lia.
Qed.

Lemma fields_ok_NoDup fs infos : fields_ok fs infos -> NoDup (fi_Index <$> infos).
Proof.
  intros H. apply NoDup_alt. intros i j x. rewrite !list_lookup_fmap_Some.
  intros (fi & -> & Ei) (fj & E & Ej). by eapply (fo_index _ _ H).
Qed.

Lemma zero_fields_ok fs infos : fields_ok fs infos ->
  Forall (fun fi => map (fun fd => zero T (sf_Type fd)) fs !! fi_Index fi = Some (zero T (fi_Type fi))) infos.
Proof.
  intros Hf. apply Forall_lookup. intros k fi E. destruct (fo_field _ _ Hf k fi E) as (fd & Ef & _ & Ht & _).
  change (map ?g fs) with (g <$> fs). by rewrite list_lookup_fmap, Ef, Ht.
Qed.

Lemma list_max_depth l n : (list_max (map depth l) <= n)%nat -> Forall (fun v => (depth v <= n)%nat) l.
Proof. intros H. apply list_max_le in H. by apply Forall_map in H. Qed.

Lemma round_trip_struct f g vs fs c rest : types_ok -> codec_ok T cdc -> round_trips f g ->
  parse_fields T 0 fs [] = Ok (Fields c) -> zlen fs < 2 ^ 29 -> length vs = length fs -> fields_good vs fs ->
  Forall (fun v => (depth v <= f)%nat) vs ->
  exists bz, encodeReflectBinaryStruct T cdc (_encodeReflectBinary T cdc f) c vs = Ok bz /\ 0 < zlen bz /\
    decodeReflectBinaryStruct T cdc (_decodeReflectBinary T cdc g) (bz ++ rest) c (map (fun fd => zero T (sf_Type fd)) fs)
      = Ok (VStruct (norm_fields vs fs), zlen bz).
Proof.
  intros HT Hc HR Hp Hz Hl Hg Hd.
  assert (fields_ok fs (Fields c)) as Hf.
  { apply (parse_fields_ok fs [] []); [|done]. constructor; done. }
  pose proof (fields_ok_NoDup _ _ Hf) as Hnd. apply parse_fields_length in Hp. cbn in Hp.
  assert (1 + zlen (Fields c) <= 2 ^ 29) as Hn by (unfold zlen in *; lia).
  destruct (round_trip_fields f g vs HT Hc HR (Fields c) 1) as (bz & Ee & _ & Ed); try done.
  - apply numbered_lookup; [lia|done|]. intros k fi E. by destruct (fo_field _ _ Hf k fi E) as (? & _ & _ & _ & _ & -> & _).
  - apply Forall_lookup. intros k fi E. destruct (fo_field _ _ Hf k fi E) as (fd & Ef & Hk & Ht & Hu & _ & t & E4 & E3).
    destruct (lookup_lt_is_Some_2 vs (fi_Index fi)) as [v Ev]; [rewrite Hl; by eapply lookup_lt_Some|].
    destruct (fields_good_lookup vs fs _ v fd Hg Ev Ef Hk) as [Hgv Hi]. rewrite <- Ht in Hgv, Hi.
    destruct (getTypeInfo T cdc (fi_Type fi)) as [info| | |] eqn:Ei; try done. exists v, info, t. rewrite Hu. split_and!; try done.
    by eapply Forall_lookup_1 in Hd.
  - unfold encodeReflectBinaryStruct. rewrite Ee. eexists. split; [reflexivity|].
    unfold EncodeByte, EncodeUvarint. rewrite (small_uvarint Typ3_StructTerm) by (unfold Typ3_StructTerm; lia).
    split; [zl|]. unfold decodeReflectBinaryStruct. rewrite <- app_assoc. cbn [app]. rewrite Ed by (by apply zero_fields_ok).
    cbn [decodeTyp3]. change (negb (Z.land 4 0xF8 =? 0)) with false. cbv iota. rewrite slide_ok by zl.
    change (negb (4 =? Typ3_StructTerm)) with false. cbv iota. rewrite apply_fields_norm by done. f_equal. f_equal. zl.
Qed.

(** ** Interfaces *)

Lemma good_typ v rt u : no_ptr rt -> good v rt u -> forall opts, is_ok (typeToTyp3 T rt opts) = true.
Proof.
  intros Hp H opts. unfold typeToTyp3. destruct (shape_of T rt) as [|[]|[]| | | | | | |e| | | |] eqn:Sh; try done.
  - apply shape_ptr in Sh. by destruct (Hp e).
  - destruct v; cbn in H; rewrite ?Sh in H; try done; destruct o as [[]|]; by rewrite ?Sh in H.
Qed.

(** Types with one prefix are found by it, others by their disambiguation bytes. *)
Lemma find_by_prefix iinfo c : codec_ok T cdc -> iinfo ∈ interfaceInfos cdc -> c ∈ concreteInfos cdc ->
  ptr_implements T (Type_ c) (iType iinfo) = true ->
  (1 <? zlen (default [] (Implementers iinfo !! Prefix c))) = false ->
  getTypeInfoFromPrefix_rlock iinfo (Prefix c) = Ok c.
Proof.
  intros Hc Hi Hin Him H1. unfold getTypeInfoFromPrefix_rlock.
  assert (c ∈ default [] (Implementers iinfo !! Prefix c)) as He.
  { rewrite (co_implementers _ _ Hc) by done. apply list_elem_of_filter. by split. }
  destruct (Implementers iinfo !! Prefix c) as [l|]; [|by apply elem_of_nil in He]. cbn in H1, He. rewrite H1.
  destruct l as [|c' l]; [by apply elem_of_nil in He|]. destruct l; [|apply Z.ltb_ge in H1; zl].
  by apply list_elem_of_singleton in He as ->.
Qed.

Lemma decode_prefix db pb typ rest : disfix_ok db pb -> 0 <= typ < 8 ->
  DecodeDisambPrefixBytes (WithTyp3 pb typ ++ rest) = Ok (Some (None, pb, typ), 4) /\
  DecodeDisambPrefixBytes (0 :: db ++ WithTyp3 pb typ ++ rest) = Ok (Some (Some db, pb, typ), 8).
Proof.
  intros Hd Ht. destruct (split_with db pb typ Hd Ht) as (Hs & Hl & a & l & E & Ha). destruct Hd as [(x & y & z & -> & Hx) _].
  rewrite E in *. destruct l as [|b [|c [|d [|]]]]; try done. unfold DecodeDisambPrefixBytes. split.
  - destruct a; try done; cbn [app]; (match goal with |- context [?a <? 4] => destruct (Z.ltb_spec a 4); [zl|] end);
      cbn in Hs |- *; rewrite take_0; by injection Hs as <- <-.
  - destruct x; try done; cbn [app]; (match goal with |- context [?a <? 4] => destruct (Z.ltb_spec a 4); [zl|] end);
      (match goal with |- context [?a <? 8] => destruct (Z.ltb_spec a 8); [zl|] end);
      cbn in Hs |- *; rewrite take_0; by injection Hs as <- <-.
Qed.

Lemma norm_no_ptr v rt : (forall o, v <> VPtr o) -> forall o, norm v rt <> VPtr o.
Proof.
  intros H o. destruct v; cbn; repeat case_match; try done; subst; naive_solver.
Qed.

Lemma deref_wrap rt v : (forall o, v <> VPtr o) -> (derefPointers (wrap rt v)).1.1 = v.
Proof.
  intros H. induction rt; cbn [wrap]; try (by rewrite deref_no_ptr). cbn.
  by destruct (derefPointers (wrap rt v)) as [[d p] q].
Qed.

Lemma round_trip_iface f g i t v opts : types_ok -> codec_ok T cdc -> round_trips f g ->
  (depth v <= f)%nat -> good v t (Unsafe opts) -> iface_ok i t v ->
  exists iinfo bz, find_iface i (interfaceInfos cdc) = Some iinfo /\
    encodeReflectBinaryInterface T cdc (_encodeReflectBinary T cdc f) iinfo (Some (t, v)) opts = Ok bz /\ 0 < zlen bz /\
    forall rest, exists c, find_type (derefType t).1 (typeInfos cdc) = Some c /\
      decodeReflectBinaryInterface T cdc (_decodeReflectBinary T cdc g) (bz ++ rest) iinfo None opts =
        Ok (VIface (Some (constructed c (derefPointers (norm v t)).1.1)), zlen bz).
Proof.
  intros HT Hc HR Hd Hg [Hn (iinfo & c & Ei & Ec & Hr & Him & Hset)].
  destruct (deref_good t v _ Hg Hn) as (d & E & Hgd & Hp & Hdd & Hw). exists iinfo.
  set (b := (derefType t).1) in *. destruct (getTypeInfo_found b c Hc Ec) as (Hb & Ht & Hinfo).
  pose proof (co_types _ _ Hc _ _ Ec) as [_ Hsh].
  destruct (HR d b opts (CInfo c) ltac:(lia) Hb Hinfo Hgd) as (bz & Ee & Hpos & Ed).
  destruct (find_iface_inv _ _ _ Ei) as [<- Hin]. pose proof (co_registered _ _ Hc _ _ Ec Hr) as Hcin.
  destruct (co_concrete _ _ Hc c Hcin) as (_ & _ & Hdf & Hdl).
  pose proof (good_typ d b _ Hb Hgd opts) as Hk. destruct (typeToTyp3 T b opts) as [typ| | |] eqn:E3; try done.
  apply typeToTyp3_range in E3 as R3. unfold encodeReflectBinaryInterface. rewrite E. change (derefType t).1 with b.
  rewrite Hinfo, Hr, E3, Ee. cbn [negb].
  assert ((derefType t).2 && match d with VIface _ => true | _ => false end = false) as ->.
  { destruct d; try (apply andb_false_r). exfalso. destruct o as [[]|]; cbn in Hgd; destruct (shape_of T b); try done. }
  set (need := AlwaysDisambiguate iinfo || _).
  eexists. split; [done|]. split; [reflexivity|]. destruct (split_with _ _ _ Hdf R3) as (_ & Hl4 & _).
  assert (zlen (WithTyp3 (Prefix c) typ) = 4) as Hz4 by (unfold zlen; by rewrite Hl4).
  assert (zlen (Disamb c) = 3) as Hz3 by (destruct Hdf as [(? & ? & ? & -> & _) _]; done).
  split; [zl|]. intros rest. exists c. split; [done|]. unfold decodeReflectBinaryInterface. rewrite <- !app_assoc.
  destruct (decode_prefix _ _ typ (bz ++ rest) Hdf R3) as [Dp Dd].
  assert (getTypeInfoFromDisfix_rlock cdc (toDisfix (Disamb c) (Prefix c)) = Ok c) as Fd
    by (unfold getTypeInfoFromDisfix_rlock, GetDisfix in *; by rewrite Hdl).
  rewrite Hw. unfold checkTyp3. destruct need eqn:Hneed; cbn [app].
  - rewrite Dd, slide_ok, Fd, Ht, E3, Z.eqb_refl by zl. cbn [negb].
    change (0 :: ?x) with ([0] ++ x). rewrite (app_assoc [0]), app_assoc.
    replace (Z.to_nat 8) with (length (([0] ++ Disamb c) ++ WithTyp3 (Prefix c) typ)) by (unfold zlen in *; rewrite !length_app; cbn; lia).
    rewrite drop_app_length, Ed, slide_app, Hset, deref_wrap by (by apply norm_no_ptr). f_equal. f_equal. zl.
  - rewrite Dp, slide_ok by zl. apply orb_false_elim in Hneed as [_ Hneed].
    rewrite find_by_prefix, Ht, E3, Z.eqb_refl by (done || by rewrite <- Ht). cbn [negb].
    replace (Z.to_nat 4) with (length (WithTyp3 (Prefix c) typ)) by lia.
    rewrite drop_app_length, Ed, slide_app, Hset, deref_wrap by (by apply norm_no_ptr). f_equal. f_equal. zl.
Qed.

(** ** All levels *)

Lemma set_num_ok {A} (mk : A -> value) x bz rest : set_num mk (bz ++ rest) (Ok (x, zlen bz)) = Ok (mk x, zlen bz).
Proof. unfold set_num. by rewrite slide_app. Qed.

Lemma EncodeVarint_pos x : 0 < zlen (EncodeVarint x).
Proof. unfold EncodeVarint, PutVarint. cbv zeta. destruct (x <? 0); pose proof (PutUvarint_pos (u64 (Z.lnot (u64 (Z.shiftl (u64 x) 1)))));
  pose proof (PutUvarint_pos (u64 (Z.shiftl (u64 x) 1))); lia. Qed.

Lemma EncodeUvarint_pos x : 0 < zlen (EncodeUvarint x).
Proof. pose proof (PutUvarint_pos x). unfold EncodeUvarint. lia. Qed.

Lemma EncodeByteSlice_pos l : 0 < zlen (EncodeByteSlice l).
Proof. unfold EncodeByteSlice. pose proof (EncodeUvarint_pos (zlen l)). zl. Qed.

(** The integers, in any of their formats. *)
Lemma round_trip_int f k z opts c rt : shape_of T rt = SInt k -> in_sN (bits k) z -> Type_ c = rt ->
  exists bz, encode_step T cdc f (CInfo c) (VInt z) opts = Ok bz /\ 0 < zlen bz /\
    forall g rest, decode_step T cdc g (bz ++ rest) (CInfo c) (VInt 0) opts = Ok (VInt z, zlen bz).
Proof.
  intros Sh H Ht. unfold encode_step, decode_step. cbn [info_type]. rewrite Ht, Sh. destruct k; cbn [bits] in H.
  - eexists. split; [reflexivity|]. split; [apply EncodeVarint_pos|]. intros g rest. by rewrite DecodeVarint_Encode, set_num_ok.
  - rewrite (sN_id 8 z) by (done || lia). eexists. split; [reflexivity|]. split; [apply EncodeVarint_pos|]. intros g rest.
    by rewrite DecodeInt8_Encode, set_num_ok.
  - rewrite (sN_id 16 z) by (done || lia). eexists. split; [reflexivity|]. split; [apply EncodeVarint_pos|]. intros g rest.
    by rewrite DecodeInt16_Encode, set_num_ok.
  - rewrite (sN_id 32 z) by (done || lia). eexists. split; [reflexivity|].
    split; [unfold EncodeInt32; rewrite be_bytes_zlen; lia|]. intros g rest. by rewrite DecodeInt32_Encode, set_num_ok.
  - eexists. split; [reflexivity|]. destruct (BinVarint opts).
    + split; [apply EncodeVarint_pos|]. intros g rest. by rewrite DecodeVarint_Encode, set_num_ok.
    + split; [unfold EncodeInt64; rewrite be_bytes_zlen; lia|]. intros g rest. by rewrite DecodeInt64_Encode, set_num_ok.
Qed.

Lemma round_trip_uint f k z opts c rt : shape_of T rt = SUint k -> in_uN (bits k) z -> Type_ c = rt ->
  exists bz, encode_step T cdc f (CInfo c) (VUint z) opts = Ok bz /\ 0 < zlen bz /\
    forall g rest, decode_step T cdc g (bz ++ rest) (CInfo c) (VUint 0) opts = Ok (VUint z, zlen bz).
Proof.
  intros Sh H Ht. unfold encode_step, decode_step. cbn [info_type]. rewrite Ht, Sh. destruct k; cbn [bits] in H.
  - eexists. split; [reflexivity|]. split; [apply EncodeUvarint_pos|]. intros g rest. by rewrite DecodeUvarint_Encode, set_num_ok.
  - rewrite (uN_id 8 z) by done. eexists. split; [reflexivity|]. split; [apply EncodeUvarint_pos|]. intros g rest.
    by rewrite DecodeUint8_Encode, set_num_ok.
  - rewrite (uN_id 16 z) by done. eexists. split; [reflexivity|]. split; [apply EncodeUvarint_pos|]. intros g rest.
    by rewrite DecodeUint16_Encode, set_num_ok.
  - rewrite (uN_id 32 z) by done. eexists. split; [reflexivity|].
    split; [unfold EncodeUint32; rewrite be_bytes_zlen; lia|]. intros g rest. by rewrite DecodeUint32_Encode, set_num_ok.
  - eexists. split; [reflexivity|]. destruct (BinVarint opts).
    + split; [apply EncodeUvarint_pos|]. intros g rest. by rewrite DecodeUvarint_Encode, set_num_ok.
    + split; [unfold EncodeUint64; rewrite be_bytes_zlen; lia|]. intros g rest. by rewrite DecodeUint64_Encode, set_num_ok.
Qed.

Lemma info_for_concrete rt info : info_for rt info -> (forall n, shape_of T rt <> SInterface n) ->
  exists c, info = CInfo c /\ Type_ c = rt /\ info_ok T rt c.
Proof.
  intros [Ht Hi] N. destruct info as [c|i]; [exists c; by destruct Hi|]. destruct Hi as [Hi _]. by destruct (N (iType i)).
Qed.

(** The values of a type with the shape given by [Sh] that are good by [Hg]. *)
Ltac good_inv v Hg Sh :=
  destruct v as [| | | | | | | | | | | | |[[]|]|]; cbn [good] in Hg; rewrite ?Sh in Hg; try done.

(** Types without components. *)
Lemma round_trip_flat v rt opts c f g : types_ok -> Type_ c = rt -> good v rt (Unsafe opts) ->
  match shape_of T rt with
  | SBool | SInt _ | SUint _ | SFloat32 | SFloat64 | SString | STime => True
  | SSlice e | SArray _ e => is_byte T e = true
  | _ => False
  end ->
  exists bz, encode_step T cdc f (CInfo c) v opts = Ok bz /\ 0 < zlen bz /\
    forall rest, decode_step T cdc g (bz ++ rest) (CInfo c) (zero T rt) opts = Ok (norm v rt, zlen bz).
Proof.
  intros HT Ht Hg Hsh. rewrite zero_eq by done. destruct (shape_of T rt) eqn:Sh; try done; good_inv v Hg Sh.
  - unfold encode_step, decode_step. cbn [info_type]. rewrite Ht, Sh. eexists. split; [reflexivity|].
    split; [by destruct b|]. intros rest. cbn [zero_shape]. by rewrite DecodeBool_Encode, set_num_ok.
  - destruct (round_trip_int f k z opts c rt Sh Hg Ht) as (bz & Ee & Hz & Ed). exists bz. by rewrite Ee.
  - destruct (round_trip_uint f k z opts c rt Sh Hg Ht) as (bz & Ee & Hz & Ed). exists bz. by rewrite Ee.
  - destruct Hg as [Hu Hr]. unfold encode_step, decode_step. cbn [info_type]. rewrite Ht, Sh, Hu. eexists. split; [reflexivity|].
    split; [unfold EncodeFloat32, EncodeUint32; rewrite be_bytes_zlen; lia|]. intros rest.
    cbn [zero_shape]. by rewrite DecodeFloat32_Encode, set_num_ok.
  - destruct Hg as [Hu Hr]. unfold encode_step, decode_step. cbn [info_type]. rewrite Ht, Sh, Hu. eexists. split; [reflexivity|].
    split; [unfold EncodeFloat64, EncodeUint64; rewrite be_bytes_zlen; lia|]. intros rest.
    cbn [zero_shape]. by rewrite DecodeFloat64_Encode, set_num_ok.
  - unfold encode_step, decode_step. cbn [info_type]. rewrite Ht, Sh. eexists. split; [reflexivity|].
    split; [apply EncodeByteSlice_pos|]. intros rest. cbn [zero_shape]. unfold DecodeString, EncodeString.
    by rewrite DecodeByteSlice_Encode, set_num_ok.
  - destruct Hg as [Hs Hn]. unfold encode_step, decode_step. cbn [info_type]. rewrite Ht, Sh.
    destruct (DecodeTime_Encode sec nsec [] Hs Hn) as (bz & Ee & _). exists bz. split; [done|].
    assert (forall rest, DecodeTime (bz ++ rest) = Ok (sec, nsec, zlen bz)) as Ed.
    { intros rest. destruct (DecodeTime_Encode sec nsec rest Hs Hn) as (bz' & Ee' & Ed). congruence. }
    split; [pose proof (Ed []) as E0; destruct bz; [done|zl]|]. intros rest. cbn [zero_shape]. by rewrite Ed, set_num_ok.
  - destruct Hg as [-> Hl]. unfold encode_step, decode_step. cbn [info_type zero_shape]. rewrite Ht, Sh, Hsh. eexists. split; [reflexivity|].
    split; [apply EncodeByteSlice_pos|]. intros rest. unfold decodeReflectBinaryByteSlice.
    rewrite DecodeByteSlice_Encode, slide_app by (by destruct o).
    destruct o as [[|x l]|]; cbn [default]; [done| |done]. destruct (Z.eqb_spec (zlen (x :: l)) 0); [zl|done].
  - destruct Hg as (Hg & _). congruence.
  - destruct Hg as (_ & Hn & Hl). unfold encode_step, decode_step. cbn [info_type zero_shape]. rewrite Ht, Sh, Hsh. eexists. split; [reflexivity|].
    split; [apply EncodeByteSlice_pos|]. intros rest. unfold decodeReflectBinaryByteArray.
    destruct (Z.ltb_spec (zlen (EncodeByteSlice l ++ rest)) (Z.of_nat n)) as [L|_].
    { exfalso. subst n. unfold EncodeByteSlice in L. zl. unfold zlen in *. lia. }
    rewrite DecodeByteSlice_Encode, slide_app by done. subst n. change (Z.of_nat (length l)) with (zlen l). by rewrite Z.eqb_refl.
  - destruct Hg as (Hg & _). congruence.
Qed.

Theorem all_round_trip f : types_ok -> codec_ok T cdc -> forall g, (f <= g)%nat -> round_trips f g.
Proof.
  intros HT Hc. induction f as [|f IH]; intros g Hfg v rt opts info Hd Hp Hi Hg.
  { destruct v as [| | | | | | | |[]| |[]| | |[[]|]|]; cbn in Hd; lia. }
  destruct g as [|g]; [lia|]. assert (round_trips f g) as HR by (apply IH; lia).
  apply getTypeInfo_for in Hi; [|done]. rewrite no_ptr_deref in Hi by done. cbn [fst] in Hi.
  setoid_rewrite decode_unfold; [|done]. cbn [_encodeReflectBinary].
  destruct (shape_of T rt) as [| | | | | | |e|n e| | |fs|i|] eqn:Sh; try (good_inv v Hg Sh; done);
    try (destruct (info_for_concrete rt info Hi) as (c & -> & Ht & Hok); [by rewrite Sh|]);
    try (apply round_trip_flat; [done|done|done|by rewrite Sh]).
  - destruct (is_byte T e) eqn:Hb; [apply round_trip_flat; [done..|by rewrite Sh]|].
    rewrite zero_eq, Sh by done. cbn [zero_shape]. rewrite Hb. good_inv v Hg Sh; [by destruct Hg as [-> _]|].
    destruct Hg as (_ & H4 & Hti & Hl). unfold encode_step, decode_step. cbn [info_type]. rewrite Ht, Sh.
    assert (zlen (default [] o) < 2 ^ 63 /\ all_good (default [] o) e (Unsafe opts)) as [Hl1 Hl2] by (by destruct o).
    destruct (round_trip_list f g e opts (default [] o) HT Hc HR Hb H4 Hti Hl1 Hl2) as (bz & Ee & Hz & Ed).
    { destruct o as [l|]; [|by constructor]. cbn in Hd |- *. apply list_max_depth. lia. }
    exists bz. split; [done|]. split; [done|]. intros rest. destruct (Ed rest) as [-> _]. cbn [norm]. rewrite Sh.
    by destruct o as [[|w l]|].
  - destruct (is_byte T e) eqn:Hb; [apply round_trip_flat; [done..|by rewrite Sh]|].
    rewrite zero_eq, Sh by done. cbn [zero_shape]. rewrite Hb. good_inv v Hg Sh; [destruct Hg; congruence|].
    destruct Hg as (_ & H4 & Hti & Hn & Hl1 & Hl2). unfold encode_step, decode_step. cbn [info_type]. rewrite Ht, Sh.
    destruct (round_trip_list f g e opts l HT Hc HR Hb H4 Hti Hl1 Hl2) as (bz & Ee & Hz & Ed).
    { apply list_max_depth. cbn in Hd. lia. }
    exists bz. split; [done|]. split; [done|]. intros rest. destruct (Ed rest) as [_ Ed']. rewrite Hn in Ed'. rewrite Ed'.
    cbn [norm]. by rewrite Sh.
  - apply shape_ptr in Sh. by destruct (Hp e).
  - destruct Hok as [_ Hok]. rewrite Sh in Hok. rewrite zero_eq, Sh by done. cbn [zero_shape]. good_inv v Hg Sh.
    destruct Hg as (_ & Hz & Hl & Hall). unfold encode_step, decode_step. cbn [info_type norm]. rewrite Ht, Sh.
    assert (Forall (fun v => (depth v <= f)%nat) vs) as Hdv by (apply list_max_depth; cbn in Hd; lia).
    destruct (round_trip_struct f g vs fs c [] HT Hc HR Hok Hz Hl Hall Hdv) as (bz & Ee & Hpos & _).
    exists bz. split; [done|]. split; [done|]. intros rest.
    destruct (round_trip_struct f g vs fs c rest HT Hc HR Hok Hz Hl Hall Hdv) as (bz' & Ee' & _ & Ed).
    rewrite Ee in Ee'. injection Ee' as <-. exact Ed.
  - destruct Hi as [Hti Hi]. destruct info as [c|iinfo].
    { destruct Hi as [[_ Hi] _]. by rewrite Sh in Hi. }
    destruct Hi as (Hs & Hin & Hf). rewrite Hs in Sh. injection Sh as <-. rewrite zero_eq, Hs by done. cbn [zero_shape].
    unfold encode_step, decode_step. rewrite Hti, Hs. good_inv v Hg Hs; cbn [norm]; rewrite ?Hs.
    + destruct Hg as [Hg Hif].
      destruct (round_trip_iface f g (iType iinfo) r v opts HT Hc HR ltac:(cbn in Hd; lia) Hg Hif) as (iinfo' & bz & Ei & Ee & Hz & Ed).
      rewrite Hf in Ei. injection Ei as <-. exists bz. split; [done|]. split; [done|]. intros rest.
      by destruct (Ed rest) as (c & -> & ->).
    + exists [0; 0]. split; [done|]. split; [done|]. intros rest. cbn [app]. unfold decodeReflectBinaryInterface. cbn [DecodeDisambPrefixBytes]. by rewrite slide_ok by zl.
Qed.
End round.
