(* ===== verification/AminoTotal.v ===== *)
(** * go-amino: decoding terminates, and when it cannot panic

    The fuel of [UnmarshalBinaryBare] is enough for every input: each nested value
    takes at least one byte.  Panics are possible for some targets; for the others
    every input gives a value or an error. *)

From S2P Require Import Prelude GoStrings GoBytes AminoTypes AminoCodec AminoBinary AminoPrim AminoReg AminoRound.

Local Open Scope Z_scope.

(** Two results are the same and there was fuel for it. *)
Definition same {A} (r r' : R A) : Prop := r = r' /\ r <> NoFuel.

Lemma same_refl {A} (r : R A) : r <> NoFuel -> same r r.
Proof. by split. Qed.

Lemma slide_fuel bz n m : slide bz n m <> NoFuel.
Proof. unfold slide. by destruct (_ || _). Qed.

Lemma typeToTyp3_fuel T rt opts : typeToTyp3 T rt opts <> NoFuel.
Proof. unfold typeToTyp3. by destruct (shape_of T rt) as [|[]|[]| | | | | | | | | | |]. Qed.

Lemma typeToTyp4_fuel T rt opts : typeToTyp4 T rt opts <> NoFuel.
Proof.
  unfold typeToTyp4. destruct (derefType rt) as [b p]. pose proof (typeToTyp3_fuel T b opts).
  by destruct (typeToTyp3 T b opts).
Qed.

Lemma parse_fields_fuel T fs : forall i infos, parse_fields T i fs infos <> NoFuel.
Proof.
  induction fs as [|fd fs IH]; intros i infos; cbn; [done|]. destruct (negb _); [apply IH|].
  destruct (parseFieldOptions fd) as [[] opts]; [apply IH|]. pose proof (typeToTyp4_fuel T (sf_Type fd) (with_field_num opts (u32 (zlen infos + 1)))).
  destruct (typeToTyp4 _ _ _); try done. by destruct (checkUnsafe _ _).
Qed.

Lemma newTypeInfoUnregistered_fuel T rt : newTypeInfoUnregistered T rt <> NoFuel.
Proof.
  unfold newTypeInfoUnregistered, is_struct, parseStructInfo. destruct (shape_of T rt); try done.
  pose proof (parse_fields_fuel T fs 0 []). by destruct (parse_fields T 0 fs []).
Qed.

Lemma getTypeInfo_fuel T cdc rt : getTypeInfo T cdc rt <> NoFuel.
Proof.
  unfold getTypeInfo. pose proof (getTypeInfo_wlock_spec T cdc rt) as H. cbv zeta in H.
  destruct (lookup_info _ _ _); [by rewrite H|]. pose proof (newTypeInfoUnregistered_fuel T (derefType rt).1) as Hn.
  unfold made in H. destruct (newTypeInfoUnregistered _ _).
  - by destruct H as (_ & _ & _ & ->).
  - rewrite H. by destruct (shape_of _ _).
  - rewrite H. by destruct (shape_of _ _).
  - done.
Qed.

Lemma reads_fuel {A} bz (r : R (A * Z)) : reads bz r -> r <> NoFuel.
Proof. by destruct r as [[]| | |]. Qed.

Section total.
Context (T : Types) (cdc : Codec).

Abbreviation decoder := (bytes -> TypeInfo -> rtype -> value -> FieldOptions -> R (value * Z)).

(** Two decoders agree on inputs shorter than [N]. *)
Definition agree (N : Z) (rec rec' : decoder) : Prop :=
  forall bz info rt rv opts, zlen bz < N -> same (rec bz info rt rv opts) (rec' bz info rt rv opts).

Section agree.
Context (N : Z) (rec rec' : decoder) (Hrec : agree N rec rec').

Lemma decodeReflectBinary_agree bz info rt rv opts : zlen bz < N ->
  same (decodeReflectBinary T rec bz info rt rv opts) (decodeReflectBinary T rec' bz info rt rv opts).
Proof.
  intros Hl. unfold decodeReflectBinary.
  set (pre := if is_registered info then _ else _).
  assert (match pre with Ok (bz', _) => zlen bz' <= zlen bz | NoFuel => False | _ => True end) as Hp.
  { unfold pre. destruct (is_registered info); [|lia]. destruct (_ <? _); [done|]. destruct (SplitTyp3 _) as [p t].
    destruct (negb _); [done|]. unfold checkTyp3. pose proof (typeToTyp3_fuel T (info_type info) opts).
    destruct (typeToTyp3 _ _ _); try done. destruct (negb _); [done|]. unfold zlen. rewrite length_drop. lia. }
  clearbody pre.
  assert (same (let* (bz0, n) := pre in let* (v, _n) := rec bz0 info rt rv opts in let* (_, n0) := slide bz0 n _n in Ok (v, n0))
    (let* (bz0, n) := pre in let* (v, _n) := rec' bz0 info rt rv opts in let* (_, n0) := slide bz0 n _n in Ok (v, n0))) as Hm.
  { destruct pre as [[bz' n]| | |]; try done. destruct (Hrec bz' info rt rv opts ltac:(lia)) as [-> Hn].
    apply same_refl. destruct (rec' bz' info rt rv opts) as [[v m]| | |]; try done.
    pose proof (slide_fuel bz' n m). by destruct (slide bz' n m) as [[]| | |]. }
  destruct (shape_of T (info_type info)); try done. by destruct rt.
Qed.

Lemma decode_elems_agree einfo ert ptr olds opts : forall bz n, zlen bz < N ->
  same (decode_elems T rec einfo ert ptr olds opts bz n) (decode_elems T rec' einfo ert ptr olds opts bz n).
Proof.
  induction olds as [|erv olds IH]; intros bz n Hl; cbn [decode_elems]; [done|].
  set (nn := if ptr then _ else _).
  assert (reads bz nn) as Hnn.
  { unfold nn. pose proof (zlen_nonneg bz). destruct ptr; [|cbn; lia]. destruct bz as [|b bz']; [done|]. unfold decodeNumNilBytes.
    destruct (_ =? _); [cbn; zl|]. destruct (_ =? _); cbn; [zl|done]. }
  clearbody nn. destruct nn as [[k m]| | |]; try done. cbn in Hnn. rewrite slide_ok by lia.
  set (bz1 := drop (Z.to_nat m) bz). assert (zlen bz1 < N) as Hl1 by (unfold bz1, zlen in *; rewrite length_drop; lia).
  clearbody bz1. destruct (k =? 0).
  - destruct (decodeReflectBinary_agree bz1 einfo ert erv opts Hl1) as [-> Hn].
    destruct (decodeReflectBinary T rec' bz1 einfo ert erv opts) as [[v m']| | |]; try done.
    destruct (slide bz1 (n + m) m') as [[bz2 n2]| | |] eqn:E; [|done..|by destruct (slide_fuel bz1 (n + m) m')].
    apply slide_drop in E as (? & _ & _ & Hz). destruct (IH bz2 n2 ltac:(lia)) as [-> Hn'].
    apply same_refl. by destruct (decode_elems T rec' einfo ert ptr olds opts bz2 n2) as [[]| | |].
  - destruct (k =? 1); [|done]. destruct (IH bz1 (n + m) Hl1) as [-> Hn'].
    apply same_refl. by destruct (decode_elems T rec' einfo ert ptr olds opts bz1 (n + m)) as [[]| | |].
Qed.

Lemma DecodeDisamb_reads bz : match DecodeDisambPrefixBytes bz with Ok (_, n) => 0 < n <= zlen bz | Err _ => True | _ => False end.
Proof.
  unfold DecodeDisambPrefixBytes.
  assert (match (if zlen bz <? 4 then Err EOF
    else if nth 0 bz 0 =? 0 then if zlen bz <? 8 then Err EOF
      else let (pb, typ) := SplitTyp3 (take 4 (drop 4 bz)) in Ok (Some (Some (take 3 (drop 1 bz)), pb, typ), 8)
    else let (pb, typ) := SplitTyp3 (take 4 bz) in Ok (Some (None, pb, typ), 4) : R (option (option bytes * bytes * Z) * Z))
    with Ok (_, n) => 0 < n <= zlen bz | Err _ => True | _ => False end) as H.
  { destruct (Z.ltb_spec (zlen bz) 4); [done|]. destruct (_ =? _); [destruct (Z.ltb_spec (zlen bz) 8); [done|]|];
      destruct (SplitTyp3 _) as [pb typ]; cbn; lia. }
  destruct bz as [|[] [|[] bz]]; try exact H; cbn; zl.
Qed.

Lemma decodeReflectBinaryInterface_agree bz iinfo rv opts : zlen bz <= N ->
  same (decodeReflectBinaryInterface T cdc rec bz iinfo rv opts) (decodeReflectBinaryInterface T cdc rec' bz iinfo rv opts).
Proof.
  intros Hl. unfold decodeReflectBinaryInterface. destruct rv; [done|]. pose proof (DecodeDisamb_reads bz) as Hd.
  destruct (DecodeDisambPrefixBytes bz) as [[d m]| | |]; try done. rewrite slide_ok by lia.
  set (bz1 := drop (Z.to_nat m) bz). assert (zlen bz1 < N) as Hl1 by (unfold bz1, zlen in *; rewrite length_drop; lia).
  clearbody bz1. destruct d as [[[db pb] typ]|]; [|done].
  set (ci := match db with Some _ => _ | None => _ end). assert (ci <> NoFuel) as Hci.
  { unfold ci, getTypeInfoFromDisfix_rlock, getTypeInfoFromPrefix_rlock.
    destruct db; [by destruct (disfixToTypeInfo cdc !! _)|]. destruct (Implementers iinfo !! pb) as [l|]; [|done].
    destruct (_ <? _); [done|]. by destruct l. }
  clearbody ci. destruct ci as [c| | |]; try done. unfold checkTyp3. pose proof (typeToTyp3_fuel T (Type_ c) opts).
  destruct (typeToTyp3 T (Type_ c) opts); try done. destruct (negb _); [done|].
  destruct (Hrec bz1 (CInfo c) (Type_ c) (zero T (Type_ c)) opts Hl1) as [-> Hn]. apply same_refl.
  destruct (rec' bz1 (CInfo c) (Type_ c) (zero T (Type_ c)) opts) as [[v k]| | |]; try done.
  - pose proof (slide_fuel bz1 (0 + m) k). destruct (slide bz1 (0 + m) k) as [[]| | |]; try done. by destruct (settable _ _ _).
  - by destruct (settable _ _ _).
Qed.

(** The type byte and the number of the elements take two bytes. *)
Lemma list_header_reads ert bz opts : match decodeTyp4AndCheck T ert bz opts with
  | Ok (_, n) => 0 < n <= zlen bz | NoFuel => False | _ => True end.
Proof.
  unfold decodeTyp4AndCheck. destruct bz as [|b bz]; [done|]. cbn [decodeTyp4]. destruct (negb _); [done|].
  pose proof (typeToTyp4_fuel T ert opts). destruct (typeToTyp4 T ert opts); try done. destruct (negb _); [done|]. zl.
Qed.

Lemma decodeReflectBinaryArray_agree bz l ert rv opts : zlen bz <= N ->
  same (decodeReflectBinaryArray T cdc rec bz l ert rv opts) (decodeReflectBinaryArray T cdc rec' bz l ert rv opts).
Proof.
  intros Hl. unfold decodeReflectBinaryArray. destruct (is_byte T ert); [done|]. pose proof (getTypeInfo_fuel T cdc ert).
  destruct (getTypeInfo T cdc ert) as [einfo| | |]; try done. pose proof (list_header_reads ert bz opts) as H4.
  destruct (decodeTyp4AndCheck T ert bz opts) as [[ptr m]| | |]; try done. rewrite slide_ok by lia.
  set (bz1 := drop (Z.to_nat m) bz). assert (zlen bz1 < N) as Hl1 by (unfold bz1, zlen in *; rewrite length_drop; lia).
  clearbody bz1. pose proof (DecodeUvarint_reads bz1) as Hu. destruct (DecodeUvarint bz1) as [[u k]| | |]; try done.
  cbn in Hu. rewrite slide_ok by lia. destruct (negb _); [done|].
  set (bz2 := drop (Z.to_nat k) bz1). assert (zlen bz2 < N) as Hl2 by (unfold bz2, zlen in *; rewrite length_drop; lia).
  clearbody bz2. destruct (decode_elems_agree einfo ert ptr rv opts bz2 (0 + m + k) Hl2) as [-> Hn]. apply same_refl.
  by destruct (decode_elems T rec' einfo ert ptr rv opts bz2 (0 + m + k)) as [[]| | |].
Qed.

Lemma decodeReflectBinarySlice_agree bz ert opts : zlen bz <= N ->
  same (decodeReflectBinarySlice T cdc rec bz ert opts) (decodeReflectBinarySlice T cdc rec' bz ert opts).
Proof.
  intros Hl. unfold decodeReflectBinarySlice. destruct (is_byte T ert); [done|]. pose proof (getTypeInfo_fuel T cdc ert).
  destruct (getTypeInfo T cdc ert) as [einfo| | |]; try done. pose proof (list_header_reads ert bz opts) as H4.
  destruct (decodeTyp4AndCheck T ert bz opts) as [[ptr m]| | |]; try done. rewrite slide_ok by lia.
  set (bz1 := drop (Z.to_nat m) bz). assert (zlen bz1 < N) as Hl1 by (unfold bz1, zlen in *; rewrite length_drop; lia).
  clearbody bz1. pose proof (DecodeUvarint_reads bz1) as Hu. destruct (DecodeUvarint bz1) as [[u k]| | |]; try done.
  cbn in Hu. rewrite slide_ok by lia. destruct (_ <? 0); [done|].
  set (bz2 := drop (Z.to_nat k) bz1). assert (zlen bz2 < N) as Hl2 by (unfold bz2, zlen in *; rewrite length_drop; lia).
  clearbody bz2. destruct (_ <? _); [done|]. destruct (u =? 0); [done|].
  set (rv := replicate _ _). clearbody rv.
  destruct (decode_elems_agree einfo ert ptr rv opts bz2 (0 + m + k) Hl2) as [-> Hn]. apply same_refl.
  by destruct (decode_elems T rec' einfo ert ptr rv opts bz2 (0 + m + k)) as [[]| | |].
Qed.

Lemma decode_fields_agree fs : forall rv bz n, zlen bz <= N ->
  same (decode_fields T cdc rec fs rv bz n) (decode_fields T cdc rec' fs rv bz n).
Proof.
  induction fs as [|field fs IH]; intros rv bz n Hl; cbn [decode_fields]; [done|].
  destruct (rv !! fi_Index field) as [frv|]; [|done]. pose proof (getTypeInfo_fuel T cdc (fi_Type field)).
  destruct (getTypeInfo T cdc (fi_Type field)) as [finfo| | |]; [|done..]. destruct (decode_key_total bz) as [Hk1 Hk2].
  destruct (decodeFieldNumberAndTyp3 bz) as [[[num typ] m]| | |] eqn:Ek; [|done..]. apply decode_key_inv in Ek as [Hm _].
  destruct (_ <? num); [by apply IH|]. destruct (num =? 0); [done|]. rewrite slide_ok by lia.
  set (bz1 := drop (Z.to_nat m) bz). assert (zlen bz1 < N) as Hl1 by (unfold bz1, zlen in *; rewrite length_drop; lia).
  clearbody bz1. destruct (negb _); [done|]. pose proof (typeToTyp4_fuel T (fi_Type field) (fi_opts field)).
  destruct (typeToTyp4 _ _ _); try done. destruct (negb _); [done|].
  destruct (decodeReflectBinary_agree bz1 finfo (fi_Type field) frv (fi_opts field) Hl1) as [-> Hn].
  destruct (decodeReflectBinary T rec' bz1 finfo (fi_Type field) frv (fi_opts field)) as [[v k]| | |]; try done.
  destruct (slide bz1 (n + m) k) as [[bz2 n2]| | |] eqn:E; [|done..|by destruct (slide_fuel bz1 (n + m) k)].
  apply slide_drop in E as (? & _ & _ & Hz). apply IH. lia.
Qed.

Lemma decodeReflectBinaryStruct_agree bz c rv : zlen bz <= N ->
  same (decodeReflectBinaryStruct T cdc rec bz c rv) (decodeReflectBinaryStruct T cdc rec' bz c rv).
Proof.
  intros Hl. unfold decodeReflectBinaryStruct. destruct (decode_fields_agree (Fields c) rv bz 0 Hl) as [-> Hn]. apply same_refl.
  destruct (decode_fields T cdc rec' (Fields c) rv bz 0) as [[[vs bz'] n]| | |]; try done.
  pose proof (reads_fuel _ _ (decodeTyp3_reads bz')). destruct (decodeTyp3 bz') as [[t k]| | |]; try done.
  pose proof (slide_fuel bz' n k). destruct (slide bz' n k) as [[]| | |]; try done. by destruct (negb _).
Qed.

Lemma set_num_reads {A} (mk : A -> value) bz r : reads bz r -> reads bz (set_num mk bz r).
Proof. unfold set_num. destruct r as [[x n]| | |]; try done. cbn. intros H. rewrite slide_ok by lia. cbn. lia. Qed.

Lemma ByteArray_reads bz n : reads bz (decodeReflectBinaryByteArray bz n).
Proof.
  unfold decodeReflectBinaryByteArray. destruct (_ <? _); [done|]. pose proof (DecodeByteSlice_reads bz) as H.
  destruct (DecodeByteSlice bz) as [[l k]| | |]; try done. cbn in H. rewrite slide_ok by lia. destruct (negb _); [done|]. cbn. lia.
Qed.

Lemma decode_step_agree bz info rv opts : zlen bz <= N ->
  same (decode_step T cdc rec bz info rv opts) (decode_step T cdc rec' bz info rv opts).
Proof.
  intros Hl. unfold decode_step.
  destruct (shape_of T (info_type info)) as [|[]|[]| | | | | | | | | | |], info, rv; try done;
    try (apply same_refl, (reads_fuel bz), set_num_reads; repeat case_match; auto with amino).
  - destruct (Unsafe opts); [|done]. apply same_refl, (reads_fuel bz), set_num_reads. auto with amino.
  - destruct (Unsafe opts); [|done]. apply same_refl, (reads_fuel bz), set_num_reads. auto with amino.
  - apply same_refl. unfold decodeReflectBinaryByteSlice. pose proof (DecodeByteSlice_reads bz) as H.
    destruct (DecodeByteSlice bz) as [[l k]| | |]; try done. cbn in H. rewrite slide_ok by lia.
    destruct (_ =? _); [done|]. by destruct e as [|[]|[]| | | | | | | | | | ].
  - by apply decodeReflectBinarySlice_agree.
  - apply same_refl, (reads_fuel bz), ByteArray_reads.
  - by apply decodeReflectBinaryArray_agree.
  - by apply decodeReflectBinaryStruct_agree.
  - by apply decodeReflectBinaryInterface_agree.
Qed.
End agree.

Lemma through_pointers_agree rt k k' : (forall b rv, same (k b rv) (k' b rv)) -> forall rv,
  same (through_pointers T rt rv k) (through_pointers T rt rv k').
Proof.
  intros H. induction rt; intros rv; cbn [through_pointers]; try apply H.
  set (v := match rv with VPtr (Some v) => v | _ => zero T rt end). clearbody v.
  destruct (IHrt v) as [-> Hn]. apply same_refl. by destruct (through_pointers T rt v k') as [[]| | |].
Qed.

(** Any fuel above the length of the input gives the same result. *)
Lemma decode_agree f g N : (N <= Z.of_nat f) -> (N <= Z.of_nat g) ->
  agree N (_decodeReflectBinary T cdc f) (_decodeReflectBinary T cdc g).
Proof.
  revert g N. induction f as [|f IH]; intros g N Hf Hg bz info rt rv opts Hl; [zl|].
  destruct g as [|g]; [zl|]. cbn [_decodeReflectBinary].
  assert (same (through_pointers T rt rv (fun _ rv => decode_step T cdc (_decodeReflectBinary T cdc f) bz info rv opts))
    (through_pointers T rt rv (fun _ rv => decode_step T cdc (_decodeReflectBinary T cdc g) bz info rv opts))) as H.
  { apply through_pointers_agree. intros _ v. apply (decode_step_agree (zlen bz)); [|done]. apply IH; lia. }
  destruct (shape_of T (info_type info)); try exact H. destruct rt; try exact H. done.
Qed.

(** ** Targets that cannot panic *)

Section safe.
Context (HT : types_ok T) (Hc : codec_ok T cdc) (S : rtype -> Prop).

(** A component of a type of the set: behind pointers a type of the set that is not registered. *)
Definition safe_ref (rt : rtype) : Prop :=
  S (derefType rt).1 /\ (rt = (derefType rt).1 \/ not_iface T (derefType rt).1) /\ is_ok (typeToTyp4 T rt no_opts) = true /\
  match getTypeInfo T cdc rt with Ok info => is_registered info = false | Err _ => True | _ => False end.

(** The set is closed under components; any registered type may be asked for by the bytes of an
    interface value, so that it must be one of the set that implements the interface. *)
Definition closed : Prop := forall b, S b -> no_ptr b /\
  match shape_of T b with
  | SPtr _ | SMap | SOther => False
  | SSlice e | SArray _ e => if is_byte T e then e = TUint W8 else safe_ref e
  | SStruct fs => is_ok (parse_fields T 0 fs []) = true /\ forall fd, fd ∈ fs -> kept fd = true -> safe_ref (sf_Type fd)
  | SInterface n => forall i c, find_iface n (interfaceInfos cdc) = Some i -> c ∈ concreteInfos cdc ->
      S (Type_ c) /\ settable T i c = true
  | _ => True
  end.

Context (HS : closed).

Definition safe (N : Z) (rec : decoder) : Prop := forall bz rt info opts, zlen bz < N -> S (derefType rt).1 ->
  (rt = (derefType rt).1 \/ not_iface T (derefType rt).1) -> getTypeInfo T cdc rt = Ok info ->
  reads bz (rec bz info rt (zero T rt) opts).

Section step.
Context (N : Z) (rec : decoder) (Hrec : safe N rec).

Lemma decodeReflectBinary_safe bz rt info opts : zlen bz < N -> safe_ref rt -> getTypeInfo T cdc rt = Ok info ->
  reads bz (decodeReflectBinary T rec bz info rt (zero T rt) opts).
Proof.
  intros Hl (Hs & Hp & _ & Hr) Hi. rewrite Hi in Hr. unfold decodeReflectBinary. rewrite iface_ptr_match.
  - rewrite Hr. pose proof (Hrec bz rt info opts Hl Hs Hp Hi) as H.
    destruct (rec bz info rt (zero T rt) opts) as [[v k]| | |]; try done. cbn in H. rewrite slide_ok by lia. cbn. lia.
  - destruct (getTypeInfo_for T cdc rt info Hc Hi) as [-> _]. destruct Hp as [->|Hp]; [left; apply derefType_no_ptr|right].
    intros n E. unfold not_iface in Hp. by rewrite E in Hp.
Qed.

Lemma decode_elems_safe info ert ptr opts m : safe_ref ert -> getTypeInfo T cdc ert = Ok info ->
  forall bz n, zlen bz < N ->
  match decode_elems T rec info ert ptr (replicate m (zero T ert)) opts bz n with
  | Ok (_, n') => n <= n' <= n + zlen bz | Err _ => True | _ => False end.
Proof.
  intros Hs Hi. induction m as [|m IH]; intros bz n Hl; cbn [replicate decode_elems]; [zl|].
  set (nn := if ptr then _ else _).
  assert (match nn with Ok (k, j) => 0 <= j <= zlen bz /\ (k = 0 \/ k = 1) | Err _ => True | _ => False end) as Hnn.
  { unfold nn. pose proof (zlen_nonneg bz). destruct ptr; [|lia]. destruct bz as [|b bz']; [done|]. unfold decodeNumNilBytes.
    destruct (_ =? _); [zl|]. destruct (_ =? _); [zl|done]. }
  clearbody nn. destruct nn as [[k j]| | |]; try done. destruct Hnn as [Hj Hk]. rewrite slide_ok by lia.
  assert (zlen (drop (Z.to_nat j) bz) = zlen bz - j) as Hz by (unfold zlen in *; rewrite length_drop; lia).
  set (bz1 := drop (Z.to_nat j) bz) in *. clearbody bz1. destruct Hk as [->| ->]; cbn [Z.eqb].
  - pose proof (decodeReflectBinary_safe bz1 ert info opts ltac:(lia) Hs Hi) as Hd.
    destruct (decodeReflectBinary T rec bz1 info ert (zero T ert) opts) as [[v q]| | |]; try done. cbn in Hd. rewrite slide_ok by lia.
    assert (zlen (drop (Z.to_nat q) bz1) = zlen bz1 - q) as Hz2 by (unfold zlen in *; rewrite length_drop; lia).
    set (bz2 := drop (Z.to_nat q) bz1) in *. clearbody bz2. specialize (IH bz2 (n + j + q) ltac:(lia)).
    destruct (decode_elems _ _ _ _ _ _ _ bz2 _) as [[]| | |]; try done. lia.
  - specialize (IH bz1 (n + j) ltac:(lia)). destruct (decode_elems _ _ _ _ _ _ _ bz1 _) as [[]| | |]; try done. cbn. lia.
Qed.

Lemma list_header_safe ert bz opts : is_ok (typeToTyp4 T ert no_opts) = true -> reads bz (decodeTyp4AndCheck T ert bz opts).
Proof.
  intros H4. rewrite (typeToTyp4_opts T ert no_opts opts) in H4. unfold decodeTyp4AndCheck. destruct bz as [|b bz]; [done|].
  cbn [decodeTyp4]. destruct (negb _); [done|]. destruct (typeToTyp4 T ert opts); try done. destruct (negb _); [done|]. cbn. zl.
Qed.

(** The type byte and the number of elements have been read; then the elements are. *)
Lemma decode_list_safe bz ert opts : zlen bz <= N -> is_byte T ert = false -> safe_ref ert ->
  (forall n, reads bz (decodeReflectBinaryArray T cdc rec bz n ert (replicate n (zero T ert)) opts)) /\
  reads bz (decodeReflectBinarySlice T cdc rec bz ert opts).
Proof.
  intros Hl Hb Hs. unfold decodeReflectBinaryArray, decodeReflectBinarySlice. rewrite Hb. pose proof Hs as (_ & _ & H4 & Hi).
  destruct (getTypeInfo T cdc ert) as [info| | |] eqn:Ei; try done. pose proof (list_header_reads ert bz opts) as Hh.
  pose proof (list_header_safe ert bz opts H4) as Hh'. destruct (decodeTyp4AndCheck T ert bz opts) as [[ptr m]| | |]; try done.
  rewrite slide_ok by lia. assert (zlen (drop (Z.to_nat m) bz) = zlen bz - m) as Hz by (unfold zlen in *; rewrite length_drop; lia).
  set (bz1 := drop (Z.to_nat m) bz) in *. clearbody bz1. pose proof (DecodeUvarint_reads bz1) as Hu.
  destruct (DecodeUvarint bz1) as [[u k]| | |]; try done. cbn in Hu. rewrite slide_ok by lia.
  assert (zlen (drop (Z.to_nat k) bz1) = zlen bz1 - k) as Hz2 by (unfold zlen in *; rewrite length_drop; lia).
  set (bz2 := drop (Z.to_nat k) bz1) in *. clearbody bz2. split.
  - intros n. destruct (negb _); [done|]. pose proof (decode_elems_safe info ert ptr opts n Hs Ei bz2 (0 + m + k) ltac:(lia)) as H.
    destruct (decode_elems _ _ _ _ _ _ _ bz2 _) as [[]| | |]; try done. cbn. lia.
  - destruct (_ <? 0); [done|]. destruct (_ <? _); [done|]. destruct (u =? 0); [cbn; zl|].
    pose proof (decode_elems_safe info ert ptr opts (Z.to_nat (s64 u)) Hs Ei bz2 (0 + m + k) ltac:(lia)) as H.
    destruct (decode_elems _ _ _ _ _ _ _ bz2 _) as [[]| | |]; try done. cbn. lia.
Qed.

Lemma decode_fields_safe fs infos : fields_ok T fs infos -> (forall fd, fd ∈ fs -> kept fd = true -> safe_ref (sf_Type fd)) ->
  forall l rv bz n, l ⊆ infos -> NoDup (fi_Index <$> l) ->
  Forall (fun fi => rv !! fi_Index fi = Some (zero T (fi_Type fi))) l -> zlen bz <= N ->
  match decode_fields T cdc rec l rv bz n with
  | Ok (_, bz', n') => n <= n' /\ zlen bz' + n' = zlen bz + n | Err _ => True | _ => False end.
Proof.
  intros Hf Hall. induction l as [|fi l IH]; intros rv bz n Hsub Hnd Hz Hl; cbn [decode_fields]; [lia|].
  apply Forall_cons in Hz as [E0 Hz]. rewrite E0. rewrite fmap_cons in Hnd. apply NoDup_cons in Hnd as [Hni Hnd].
  assert (fi ∈ infos) as (k & Ek)%list_elem_of_lookup_1 by (apply Hsub; left).
  assert (l ⊆ infos) as Hsub' by (intros x Hx; apply Hsub; by right).
  destruct (fo_field _ _ _ Hf k fi Ek) as (fd & Efd & Hk & Ht & _ & _ & t & E4 & E3).
  assert (safe_ref (fi_Type fi)) as Hs by (rewrite Ht; apply Hall; [by eapply list_elem_of_lookup_2|done]).
  assert (forall x, Forall (fun fj => <[fi_Index fi := x]> rv !! fi_Index fj = Some (zero T (fi_Type fj))) l) as Hkeep.
  { intros x. apply Forall_forall. intros fj Hj. rewrite list_lookup_insert_ne; [by eapply Forall_forall in Hz|].
    intros E. apply Hni. rewrite E. by apply list_elem_of_fmap_2. }
  pose proof Hs as (_ & _ & _ & Hr). destruct (getTypeInfo T cdc (fi_Type fi)) as [info| | |] eqn:Ei; try done.
  destruct (decode_key_total bz) as [Hk1 Hk2].
  destruct (decodeFieldNumberAndTyp3 bz) as [[[num typ] m]| | |] eqn:Ekey; try done.
  apply decode_key_inv in Ekey as [Hm _]. destruct (_ <? num); [by apply IH|]. destruct (num =? 0); [cbn; lia|].
  rewrite slide_ok by lia. assert (zlen (drop (Z.to_nat m) bz) = zlen bz - m) as Hz1 by (unfold zlen in *; rewrite length_drop; lia).
  set (bz1 := drop (Z.to_nat m) bz) in *. clearbody bz1. destruct (negb _); [done|]. rewrite E4. destruct (negb _); [done|].
  pose proof (decodeReflectBinary_safe bz1 (fi_Type fi) info (fi_opts fi) ltac:(lia) Hs Ei) as Hd.
  destruct (decodeReflectBinary T rec bz1 info (fi_Type fi) (zero T (fi_Type fi)) (fi_opts fi)) as [[v q]| | |]; try done.
  cbn in Hd. rewrite slide_ok by lia.
  assert (zlen (drop (Z.to_nat q) bz1) = zlen bz1 - q) as Hz2 by (unfold zlen in *; rewrite length_drop; lia).
  set (bz2 := drop (Z.to_nat q) bz1) in *. clearbody bz2.
  specialize (IH (<[fi_Index fi := v]> rv) bz2 (n + m + q) Hsub' Hnd (Hkeep v) ltac:(lia)).
  destruct (decode_fields _ _ _ l _ bz2 _) as [[[]]| | |]; try done. lia.
Qed.

Lemma decode_iface_safe bz n i opts : zlen bz <= N -> S (TNamed n) -> shape_of T (TNamed n) = SInterface n ->
  find_iface n (interfaceInfos cdc) = Some i -> reads bz (decodeReflectBinaryInterface T cdc rec bz i None opts).
Proof.
  intros Hl Hs Hsh Hf. destruct (HS _ Hs) as [_ Hcl]. rewrite Hsh in Hcl. destruct (find_iface_inv _ _ _ Hf) as [Hn Hin].
  unfold decodeReflectBinaryInterface. pose proof (DecodeDisamb_reads bz) as Hd.
  destruct (DecodeDisambPrefixBytes bz) as [[d m]| | |]; try done. rewrite slide_ok by lia.
  assert (zlen (drop (Z.to_nat m) bz) = zlen bz - m) as Hz by (unfold zlen in *; rewrite length_drop; lia).
  set (bz1 := drop (Z.to_nat m) bz) in *. clearbody bz1. destruct d as [[[db pb] typ]|]; [|cbn; lia].
  set (ci := match db with Some _ => _ | None => _ end).
  assert (match ci with Ok c => c ∈ concreteInfos cdc | Err _ => True | _ => False end) as Hci.
  { unfold ci, getTypeInfoFromDisfix_rlock, getTypeInfoFromPrefix_rlock. destruct db.
    - destruct (disfixToTypeInfo cdc !! _) as [c|] eqn:E; [|done]. by apply (co_disfix _ _ Hc) in E as [_ ?].
    - pose proof (co_implementers _ _ Hc i pb Hin) as Hi. pose proof (co_nonempty _ _ Hc i pb Hin) as Hne.
      destruct (Implementers i !! pb) as [[|c l]|]; [done| |done]. destruct (_ <? _); [done|].
      assert (c ∈ filter (implementer T i pb) (concreteInfos cdc)) as [_ ?]%list_elem_of_filter; [|done].
      rewrite <- Hi. left. }
  clearbody ci. destruct ci as [c| | |]; try done. destruct (Hcl i c Hf Hci) as [HSc Hset].
  destruct (co_concrete _ _ Hc c Hci) as (Hft & Hreg & _). destruct (getTypeInfo_found T cdc _ c Hc Hft) as (Hnp & _ & Hinfo).
  destruct (HS _ HSc) as [_ Hclc].
  unfold checkTyp3. destruct (typeToTyp3 T (Type_ c) opts) as [t| | |] eqn:E3.
  2-4: unfold typeToTyp3 in E3; by destruct (shape_of T (Type_ c)) as [|[]|[]| | | | | | | | | | |].
  destruct (negb _); [done|]. pose proof (no_ptr_deref _ Hnp) as Hdr.
  pose proof (Hrec bz1 (Type_ c) (CInfo c) opts ltac:(lia)) as Hr. rewrite Hdr in Hr. specialize (Hr HSc (or_introl eq_refl) Hinfo).
  rewrite Hset. destruct (rec bz1 (CInfo c) (Type_ c) (zero T (Type_ c)) opts) as [[v q]| | |]; try done.
  cbn in Hr. rewrite slide_ok by lia. cbn. lia.
Qed.

Lemma decode_step_safe bz b info opts : zlen bz <= N -> S b -> getTypeInfo T cdc b = Ok info ->
  reads bz (decode_step T cdc rec bz info (zero T b) opts).
Proof.
  intros Hl Hs Hi. destruct (HS b Hs) as [Hp Hcl]. apply getTypeInfo_for in Hi; [|done]. rewrite no_ptr_deref in Hi by done.
  cbn [fst] in Hi. rewrite zero_eq by done. unfold decode_step. pose proof Hi as [Hti Hi']. rewrite Hti.
  destruct (shape_of T b) as [|[]|[]| | | | |e|n e| | |fs|i|] eqn:Sh; try done;
    try (destruct (info_for_concrete T cdc b info Hi) as (c & -> & Ht & Hok); [by rewrite Sh|]); cbn [zero_shape];
    try (apply set_num_reads; repeat case_match; auto with amino).
  - destruct (Unsafe opts); [|done]. apply set_num_reads. auto with amino.
  - destruct (Unsafe opts); [|done]. apply set_num_reads. auto with amino.
  - destruct (is_byte T e) eqn:Hb; [|by apply decode_list_safe]. subst e. unfold decodeReflectBinaryByteSlice.
    pose proof (DecodeByteSlice_reads bz) as H. destruct (DecodeByteSlice bz) as [[l k]| | |]; try done. cbn in H.
    rewrite slide_ok by lia. destruct (_ =? _); cbn; lia.
  - destruct (is_byte T e) eqn:Hb; [apply ByteArray_reads|by apply decode_list_safe].
  - destruct Hok as [_ Hok]. rewrite Sh in Hok. destruct Hcl as [_ Hcl].
    assert (fields_ok T fs (Fields c)) as Hf by (apply (parse_fields_ok T fs [] []); [by constructor|done]).
    unfold decodeReflectBinaryStruct.
    pose proof (decode_fields_safe fs (Fields c) Hf Hcl (Fields c) (map (fun fd => zero T (sf_Type fd)) fs) bz 0
      ltac:(done) (fields_ok_NoDup _ _ _ Hf) (zero_fields_ok _ _ _ Hf) Hl) as H.
    destruct (decode_fields _ _ _ _ _ bz 0) as [[[vs bz'] n']| | |]; try done.
    pose proof (decodeTyp3_reads bz') as Ht3. destruct (decodeTyp3 bz') as [[t k]| | |]; try done. cbn in Ht3.
    rewrite slide_ok by lia. destruct (negb _); [done|]. cbn. lia.
  - destruct info as [c|iinfo]; [destruct Hi' as [[_ Hi'] _]; by rewrite Sh in Hi'|]. destruct Hi' as (Hsh & _ & Hf).
    injection Hsh as ->. pose proof (shape_iface T b _ Sh) as ->. by eapply decode_iface_safe.
Qed.
End step.

Lemma decode_safe f : safe (Z.of_nat f) (_decodeReflectBinary T cdc f).
Proof.
  induction f as [|f IH]; intros bz rt info opts Hl Hs Hp Hi; [zl|]. pose proof (getTypeInfo_for T cdc rt info Hc Hi) as [Hti _].
  rewrite decode_pointers by done. rewrite decode_unfold by apply derefType_no_ptr. rewrite getTypeInfo_deref in Hi.
  assert (safe (zlen bz) (_decodeReflectBinary T cdc f)) as HR.
  { intros bz' rt' info' opts' Hl'. apply IH. lia. }
  pose proof (decode_step_safe (zlen bz) _ HR bz _ info opts ltac:(lia) Hs Hi) as H.
  by destruct (decode_step _ _ _ _ _ _ _) as [[]| | |].
Qed.
End safe.
End total.
