(* ===== verification/AminoSpec.v ===== *)
(** * go-amino: what the codec guarantees

    The round trip through [MarshalBinaryBare], [MarshalBinary] and their inverses, the
    termination of decoding on every input, what registration guarantees, and inputs on
    which decoding misbehaves. *)

From stdpp Require Import gmap relations.
From S2P Require Import Prelude GoStrings GoBytes Sha2 AminoTypes AminoCodec AminoBinary AminoPrim AminoReg.
From S2P Require Import AminoRound AminoTotal.

Local Open Scope Z_scope.

(** ** Framing *)

Lemma land_128_small x : 0 <= x < 128 -> Z.land x 0x80 = 0.
Proof. intros H. rewrite <- (Z.mod_small x (2 ^ 7)), <- Z.land_ones, <- Z.land_assoc by lia. apply Z.land_0_r. Qed.

Lemma land_128_big x : 0 <= x < 128 -> Z.land (128 + x) 0x80 <> 0.
Proof.
  intros H E. apply (f_equal (fun z => Z.testbit z 7)) in E. rewrite Z.land_spec, Z.bits_0 in E.
  change (Z.testbit 0x80 7) with true in E. rewrite andb_true_r in E. apply Z.testbit_false in E; [|lia].
  change (2 ^ 7) with 128 in E. replace (128 + x) with (x + 1 * 128) in E by lia. by rewrite Z.div_add, Z.div_small in E by lia.
Qed.

Lemma shiftr7_range x m : 0 <= x < 2 ^ (7 + m) -> 0 <= m -> 0 <= Z.shiftr x 7 < 2 ^ m.
Proof.
  intros Hx Hm. rewrite Z.shiftr_div_pow2 by lia. rewrite Z.pow_add_r in Hx by lia. change (2 ^ 7) with 128 in *.
  split; [apply Z.div_pos; lia|]. apply Z.div_lt_upper_bound; lia.
Qed.

Lemma read_length_put f : forall i x buf n e r maxSize, 0 <= x < 2 ^ (7 * Z.of_nat (S f)) ->
  (length (uvarint_loop f x) <= i)%nat ->
  read_length i (uvarint_loop f x ++ r) maxSize buf n e = Ok (r, buf ++ uvarint_loop f x, n + zlen (uvarint_loop f x), false).
Proof.
  assert (forall x, 0 <= x < 128 -> u8 x = x) as U by (intros; apply uN_id; unfold in_uN; change (2 ^ 8) with 256; lia).
  induction f as [|f IH]; intros i x buf n e r maxSize Hx Hi.
  - change (2 ^ (7 * Z.of_nat 1)) with 128 in Hx. destruct i as [|i]; [cbn in Hi; lia|]. cbn [uvarint_loop app read_length].
    by rewrite U, land_128_small.
  - cbn [uvarint_loop] in *. destruct (Z.leb_spec 128 x) as [L|L]; (destruct i as [|i]; [cbn in Hi; lia|]); cbn [app read_length].
    + rewrite lor_128 by lia. pose proof (land_128_big (x mod 128) (Z.mod_pos_bound x 128 ltac:(lia))) as Hb.
      apply Z.eqb_neq in Hb as ->. rewrite IH.
      * rewrite <- app_assoc. f_equal. f_equal. f_equal. zl.
      * apply shiftr7_range; [|lia]. by replace (7 + 7 * Z.of_nat (S f)) with (7 * Z.of_nat (S (S f))) by lia.
      * cbn in Hi. lia.
    + by rewrite U, land_128_small by lia.
Qed.

Section spec.
Context (T : Types) (cdc : Codec).

(** Decoding of the bytes an encoding starts with, with the fuel of [UnmarshalBinaryBare]. *)
Lemma decode_bare bz info rt rv opts g : zlen bz < Z.of_nat g ->
  decodeReflectBinary T (_decodeReflectBinary T cdc (S (length bz))) bz info rt rv opts =
  decodeReflectBinary T (_decodeReflectBinary T cdc g) bz info rt rv opts.
Proof.
  intros Hg. apply (decodeReflectBinary_agree T (zlen bz + 1)); [|lia]. apply decode_agree; unfold zlen in *; lia.
Qed.

Lemma good_typ4 v rt u : good T cdc v rt u -> (derefPointers v).2 = false -> forall opts, is_ok (typeToTyp4 T rt opts) = true.
Proof.
  intros H Hn opts. destruct (deref_good T cdc rt v u H Hn) as (d & _ & Hd & _).
  pose proof (good_typ T cdc d _ u (derefType_no_ptr rt) Hd opts) as H3. unfold typeToTyp4.
  destruct (derefType rt) as [b p]. cbn in H3. by destruct (typeToTyp3 T b opts).
Qed.

Lemma bare_roundtrip rt v : types_ok T -> codec_ok T cdc -> is_ok (getTypeInfo T cdc rt) = true ->
  good T cdc v rt false -> (derefPointers v).2 = false ->
  exists bz, MarshalBinaryBare T cdc rt v = Ok bz /\ 0 < zlen bz /\
    UnmarshalBinaryBare T cdc bz rt (zero T rt) = Ok (norm T cdc v rt).
Proof.
  intros HT Hc Hi Hg Hn. destruct (getTypeInfo T cdc rt) as [info| | |] eqn:Ei; try done.
  pose proof (good_typ4 v rt false Hg Hn no_opts) as H4. set (f := depth (derefPointers v).1.1).
  destruct (round_trip_value T cdc f f v rt no_opts info HT Hc) as (bz & Ee & Hz & _); try done; [by apply all_round_trip|].
  assert (f <= Nat.max f (S (length bz)))%nat as Hle by lia.
  destruct (round_trip_value T cdc f (Nat.max f (S (length bz))) v rt no_opts info HT Hc) as (bz' & Ee' & _ & Ed); try done;
    [by apply all_round_trip|]. rewrite Ee in Ee'. injection Ee' as <-. exists bz. unfold MarshalBinaryBare, UnmarshalBinaryBare.
  rewrite <- getTypeInfo_deref, Ei. destruct (derefPointers v) as [[d p] q]. cbn in Hn, Ee, f. subst q. split; [done|]. split; [done|].
  destruct (Z.eqb_spec (zlen bz) 0); [lia|].
  rewrite (decode_bare bz info rt (zero T rt) no_opts (Nat.max f (S (length bz)))) by (unfold zlen; lia).
  specialize (Ed []). rewrite app_nil_r in Ed. rewrite Ed, Z.eqb_refl. done.
Qed.

Lemma framed_roundtrip bz rt rv v : 0 < zlen bz < 2 ^ 48 -> UnmarshalBinaryBare T cdc bz rt rv = Ok v ->
  UnmarshalBinary T cdc (EncodeUvarint (zlen bz) ++ bz) rt rv = Ok v /\
  forall rest maxSize, maxSize = 0 \/ zlen (EncodeUvarint (zlen bz) ++ bz) <= maxSize ->
    UnmarshalBinaryReader T cdc ((EncodeUvarint (zlen bz) ++ bz) ++ rest) rt rv maxSize =
      Ok (v, rest, zlen (EncodeUvarint (zlen bz) ++ bz)).
Proof.
  intros Hz E. unfold EncodeUvarint. pose proof (PutUvarint_pos (zlen bz)) as Hp. assert (in_uN 64 (zlen bz)) as Hu by (unfold in_uN; lia). split.
  - unfold UnmarshalBinary. destruct (Z.eqb_spec (zlen (PutUvarint (zlen bz) ++ bz)) 0); [zl|].
    rewrite Uvarint_PutUvarint by done. destruct (Z.ltb_spec (zlen (PutUvarint (zlen bz))) 0); [zl|]. rewrite zlen_app.
    replace (zlen (PutUvarint (zlen bz)) + zlen bz - zlen (PutUvarint (zlen bz))) with (zlen bz) by lia.
    rewrite Z.ltb_irrefl. by rewrite drop_app_zlen.
  - intros rest maxSize Hm. unfold UnmarshalBinaryReader. destruct (Z.ltb_spec maxSize 0); [zl|]. rewrite <- app_assoc.
    unfold PutUvarint at 1.
    rewrite (read_length_put 10) by (first [change (2 ^ (7 * Z.of_nat 11)) with (2 ^ 77); lia |
      apply uvarint_loop_short; change (2 ^ (7 * Z.of_nat 10)) with (2 ^ 70); lia]).
    change (uvarint_loop 10 (zlen bz)) with (PutUvarint (zlen bz)). cbn [app]. rewrite Uvarint_PutUvarint by done.
    rewrite sN_id by (lia || unfold in_sN; lia). rewrite zlen_app in *.
    assert ((0 <? maxSize) && (maxSize <? zlen bz) = false) as ->.
    { destruct (Z.ltb_spec 0 maxSize), (Z.ltb_spec maxSize (zlen bz)); done || zl. }
    assert ((0 <? maxSize) && (maxSize - (0 + zlen (PutUvarint (zlen bz))) <? zlen bz) = false) as ->.
    { destruct (Z.ltb_spec 0 maxSize), (Z.ltb_spec (maxSize - (0 + zlen (PutUvarint (zlen bz)))) (zlen bz)); done || zl. }
    assert ((zlen bz <? 0) || (2 ^ 48 <? zlen bz) = false) as -> by (apply orb_false_intro; apply Z.ltb_ge; lia).
    destruct (Z.ltb_spec (zlen bz + zlen rest) (zlen bz)); [zl|]. rewrite take_app_zlen, drop_app_zlen, E. f_equal. f_equal. zl.
Qed.
End spec.


(** ** An example program *)

Definition Animal : rtype := TNamed (bs "Animal").
Definition Dog : rtype := TNamed (bs "Dog").
Definition Cat : rtype := TNamed (bs "Cat").

Definition field (name : str) (tag : list (str * str)) (t : rtype) : StructField :=
  {| sf_Name := name; sf_PkgPath := []; sf_Tag := tag; sf_Type := t |}.

(** An interface; a struct with a varint, a list of pointers to itself, a time, an interface and a field that
    is not encoded; and a byte array.  Only pointers to cats are animals. *)
Definition pets : Types := {|
  decls := [(bs "Animal", DInterface);
            (bs "Dog", DStruct [field (bs "Name") [] TString; field (bs "Age") [(bs "binary", bs "varint")] (TInt W64);
                                field (bs "Pups") [] (TSlice (TPtr Dog)); field (bs "Born") [] TTime;
                                field (bs "Friend") [] Animal; field (bs "mood") [] (TMap TString TBool)]);
            (bs "Cat", DType (TArray 2 (TUint W8)))];
  ptr_implements := fun t i => str_eqb i (bs "Animal") && (bool_decide (t = Dog) || bool_decide (t = Cat));
  implements := fun t i => str_eqb i (bs "Animal") && bool_decide (t = Dog);
|}.

Definition pet_registrations : list registration :=
  [RegInterface (bs "Animal") [] false; RegConcrete (TPtr Dog) (bs "Dog"); RegConcrete (TPtr Cat) (bs "Cat")].

Definition pet_codec : Codec := (register_all pets pet_registrations NewCodec).1.

Lemma pets_ok : types_ok pets.
Proof. apply types_ok_declared. repeat constructor. Qed.

Lemma pet_codec_registers : rtc (registers pets) NewCodec pet_codec.
Proof. apply register_all_registers. vm_compute. reflexivity. Qed.

(** Evaluates the conditions of a closed value. *)
Ltac good_values := vm_compute; repeat first [exact I | reflexivity | discriminate | intros ? | eexists | split].

(** A dog with a pup and no pup, and a cat as a friend. *)
Definition rex : value :=
  VStruct [VString (bs "Rex"); VInt (-7);
           VSlice (Some [VPtr (Some (VStruct [VString []; VInt 0; VSlice None; VTime 1000 5; VIface None; VMap None])); VPtr None]);
           VTime 1500000000 0; VIface (Some (TPtr Cat, VPtr (Some (VByteArray [1; 2])))); VMap None].


(** ** Decoding any input *)

Lemma bare_fuel T cdc bz rt rv : UnmarshalBinaryBare T cdc bz rt rv <> NoFuel.
Proof.
  unfold UnmarshalBinaryBare. destruct (_ =? _); [done|]. pose proof (getTypeInfo_fuel T cdc rt).
  destruct (getTypeInfo T cdc rt) as [info| | |]; try done.
  assert (agree (zlen bz + 1) (_decodeReflectBinary T cdc (S (length bz))) (_decodeReflectBinary T cdc (S (length bz)))) as Ha
    by (apply decode_agree; unfold zlen; lia).
  destruct (decodeReflectBinary_agree T _ _ _ Ha bz info rt rv no_opts ltac:(lia)) as [_ Hn].
  destruct (decodeReflectBinary _ _ _ _ _ _ _) as [[v n]| | |]; try done. by destruct (negb _).
Qed.

Lemma bare_safe T cdc S bz rt : types_ok T -> codec_ok T cdc -> closed T cdc S -> safe_ref T cdc S rt ->
  match UnmarshalBinaryBare T cdc bz rt (zero T rt) with Ok _ | Err _ => True | _ => False end.
Proof.
  intros HT Hc HS Hs. unfold UnmarshalBinaryBare. destruct (_ =? _); [done|]. pose proof Hs as (_ & _ & _ & Hi).
  destruct (getTypeInfo T cdc rt) as [info| | |] eqn:Ei; try done.
  assert (safe T cdc S (zlen bz + 1) (_decodeReflectBinary T cdc (Datatypes.S (length bz)))) as HR.
  { intros bz' rt' info' opts' Hl. apply decode_safe; try done. unfold zlen in *. lia. }
  pose proof (decodeReflectBinary_safe T cdc Hc S _ _ HR bz rt info no_opts ltac:(lia) Hs Ei) as H.
  destruct (decodeReflectBinary _ _ _ _ _ _ _) as [[v n]| | |]; try done. by destruct (negb _).
Qed.

(** C17: decoding returns for every input.  Whatever the bytes, the target and the value it
    holds, decoding ends.  When the target has no component of a registered concrete type,
    no pointer to an interface and no type the format lacks, and every registered type
    implements its interfaces, the outcome is a value or an error: no input makes decoding panic. *)
Theorem amino_decode_total (T : Types) (cdc : Codec) (S : rtype -> Prop) (rt : rtype) :
  types_ok T -> rtc (registers T) NewCodec cdc -> closed T cdc S -> safe_ref T cdc S rt ->
  (forall bz rt' rv, UnmarshalBinaryBare T cdc bz rt' rv <> NoFuel /\ UnmarshalBinary T cdc bz rt' rv <> NoFuel) /\
  (forall bz, match UnmarshalBinaryBare T cdc bz rt (zero T rt) with Ok _ | Err _ => True | _ => False end) /\
  (forall bz, match UnmarshalBinary T cdc bz rt (zero T rt) with Ok _ | Err _ => True | _ => False end).
Proof.
  intros HT Hr HS Hs. pose proof (registers_ok T _ _ Hr (NewCodec_ok T)) as Hc.
  assert (forall bz, match UnmarshalBinaryBare T cdc bz rt (zero T rt) with Ok _ | Err _ => True | _ => False end) as Hb
    by (intros bz; by eapply bare_safe).
  split_and!; [|done|].
  - intros bz rt' rv. split; [apply bare_fuel|]. unfold UnmarshalBinary. destruct (_ =? _); [done|]. destruct (Uvarint bz) as [u n].
    destruct (_ <? _); [done|]. destruct (_ <? u); [done|]. destruct (u <? _); [done|]. apply bare_fuel.
  - intros bz. unfold UnmarshalBinary. destruct (_ =? _); [done|]. destruct (Uvarint bz) as [u n].
    destruct (_ <? _); [done|]. destruct (_ <? u); [done|]. destruct (u <? _); [done|]. apply Hb.
Qed.

(** The types a dog is made of, in a codec without registrations. *)
Definition dog_parts (t : rtype) : Prop := t ∈ [Dog; Animal; TString; TInt W64; TTime; TSlice (TPtr Dog)].

Lemma dog_ref t : bool_decide (t ∈ [TString; TInt W64; TSlice (TPtr Dog); TTime; Animal; TPtr Dog; Dog]) = true ->
  safe_ref pets NewCodec dog_parts t.
Proof.
  intros H%bool_decide_eq_true_1. unfold safe_ref, dog_parts.
  repeat (apply elem_of_cons in H as [->|H]); [..|by apply elem_of_nil in H];
    (split; [repeat (apply elem_of_cons; (by left) || right)|]); (split; [by left + by right|]); split; vm_compute; done.
Qed.

Lemma dog_closed : closed pets NewCodec dog_parts.
Proof.
  intros b Hb. unfold dog_parts in Hb. repeat (apply elem_of_cons in Hb as [->|Hb]); [..|by apply elem_of_nil in Hb];
    (split; [by intros e|]); try done.
  - change (shape_of pets Dog) with (SStruct (match decls pets with [_; (_, DStruct fs); _] => fs | _ => [] end)). cbv iota.
    split; [vm_compute; reflexivity|]. cbn [decls pets]. intros fd Hfd Hk.
    repeat (apply elem_of_cons in Hfd as [->|Hfd]); [..|by apply elem_of_nil in Hfd];
      try (apply dog_ref; vm_compute; reflexivity). vm_compute in Hk. done.
  - change (shape_of pets (TSlice (TPtr Dog))) with (SSlice (TPtr Dog)). cbv iota. apply dog_ref. vm_compute. reflexivity.
Qed.

Lemma amino_decode_total_witness :
  match UnmarshalBinaryBare pets NewCodec [0x0a; 0xff; 0x01] (TPtr Dog) (VPtr None) with Ok _ | Err _ => True | _ => False end.
Proof.
  refine (proj1 (proj2 (amino_decode_total pets NewCodec dog_parts (TPtr Dog) pets_ok (rtc_refl _ _) dog_closed _)) [0x0a; 0xff; 0x01]).
  apply dog_ref. vm_compute. reflexivity.
Defined.

(** ** The registry *)

Lemma in_priority T i c : checkConflictsInPrio_nolock i = true -> c ∈ default [] (Implementers i !! Prefix c) ->
  (1 <? zlen (default [] (Implementers i !! Prefix c))) = true -> implementer T i (Prefix c) c -> GetDisfix c ∈ Priority i.
Proof.
  intros Hp Hin Hl _. destruct (Implementers i !! Prefix c) as [l|] eqn:E; [|by apply elem_of_nil in Hin]. cbn in Hin, Hl.
  unfold checkConflictsInPrio_nolock in Hp. rewrite forallb_forall in Hp.
  specialize (Hp (Prefix c, l)). cbn in Hp. assert (In (Prefix c, l) (map_to_list (Implementers i))) as Hm.
  { apply list_elem_of_In. by apply elem_of_map_to_list. }
  specialize (Hp Hm). apply orb_prop in Hp as [Hp|Hp]; [zbool; lia|]. rewrite forallb_forall in Hp.
  specialize (Hp c ltac:(by apply list_elem_of_In)). apply existsb_exists in Hp as (df & Hdf & Heq).
  apply str_eqb_eq in Heq as ->. by apply list_elem_of_In.
Qed.

(** C18: a codec that registrations made resolves types without ambiguity.  Every registered
    type is found by its disambiguation and prefix bytes, and no two of them share these.
    An interface finds each registered type that implements it by its prefix alone, unless
    another one that implements it has the same prefix, and then both were given priority.
    Looking a type up never changes what is found for any type. *)
Theorem amino_registry (T : Types) (cdc : Codec) : rtc (registers T) NewCodec cdc ->
  (forall c, c ∈ concreteInfos cdc -> getTypeInfoFromDisfix_rlock cdc (GetDisfix c) = Ok c) /\
  (forall c c', c ∈ concreteInfos cdc -> c' ∈ concreteInfos cdc -> GetDisfix c = GetDisfix c' -> c = c') /\
  (forall i c, i ∈ interfaceInfos cdc -> c ∈ concreteInfos cdc -> ptr_implements T (Type_ c) (iType i) = true ->
     getTypeInfoFromPrefix_rlock i (Prefix c) = Ok c \/
     (getTypeInfoFromPrefix_rlock i (Prefix c) = Err Conflicting_types /\ GetDisfix c ∈ Priority i)) /\
  (forall rt rt', getTypeInfo T (getTypeInfo_wlock T cdc rt).1 rt' = getTypeInfo T cdc rt').
Proof.
  intros Hr. pose proof (registers_ok T _ _ Hr (NewCodec_ok T)) as Hc.
  assert (forall c, c ∈ concreteInfos cdc -> disfixToTypeInfo cdc !! GetDisfix c = Some c) as Hd
    by (intros c Hin; by destruct (co_concrete _ _ Hc c Hin) as (_ & _ & _ & ?)).
  split_and!.
  - intros c Hin. unfold getTypeInfoFromDisfix_rlock. by rewrite Hd.
  - intros c c' H1 H2 E. apply Hd in H1, H2. rewrite E in H1. congruence.
  - intros i c Hi Hin Him. destruct (1 <? zlen (default [] (Implementers i !! Prefix c))) eqn:L; [right|left; by apply (find_by_prefix T cdc)].
    assert (implementer T i (Prefix c) c) as Himp by done.
    assert (c ∈ default [] (Implementers i !! Prefix c)) as He
      by (rewrite (co_implementers _ _ Hc) by done; by apply list_elem_of_filter).
    split; [|by eapply in_priority; [by eapply (co_priority _ _ Hc)|..]]. unfold getTypeInfoFromPrefix_rlock.
    destruct (Implementers i !! Prefix c) as [l|]; [|by apply elem_of_nil in He]. cbn in L. by rewrite L.
  - intros rt rt'. apply getTypeInfo_transparent.
Qed.

Lemma amino_registry_witness : getTypeInfo pets (getTypeInfo_wlock pets pet_codec (TSlice Dog)).1 Dog = getTypeInfo pets pet_codec Dog.
Proof. exact (proj2 (proj2 (proj2 (amino_registry pets pet_codec pet_codec_registers))) (TSlice Dog) Dog). Defined.

(** ** Between concrete types and interfaces *)

(** A value of a registered type decodes into an interface that knows its prefix. *)
Lemma into_interface T cdc c i v bz : types_ok T -> codec_ok T cdc -> i ∈ interfaceInfos cdc ->
  find_iface (iType i) (interfaceInfos cdc) = Some i -> shape_of T (TNamed (iType i)) = SInterface (iType i) ->
  c ∈ concreteInfos cdc -> ptr_implements T (Type_ c) (iType i) = true -> settable T i c = true ->
  (1 <? zlen (default [] (Implementers i !! Prefix c))) = false ->
  good T cdc v (Type_ c) false -> MarshalBinaryBare T cdc (Type_ c) v = Ok bz ->
  UnmarshalBinaryBare T cdc bz (TNamed (iType i)) (VIface None) = Ok (VIface (Some (constructed c (norm T cdc v (Type_ c))))).
Proof.
  intros HT Hc Hi Hf Hsh Hin Him Hset H1 Hg Em.
  destruct (co_concrete _ _ Hc c Hin) as (Hft & Hr & Hdf & _). destruct (getTypeInfo_found T cdc _ c Hc Hft) as (Hp & _ & Hinfo).
  pose proof (good_no_ptr T cdc v (Type_ c) false Hp Hg) as Hv. unfold MarshalBinaryBare in Em.
  rewrite (deref_no_ptr v Hv), no_ptr_deref in Em by done. cbn [fst] in Em. rewrite Hinfo in Em. unfold encodeReflectBinary in Em.
  assert (forall A (a b : A), match v with VPtr _ => a | _ => b end = b) as Hm by (intros; destruct v; try done; by destruct (Hv o)).
  rewrite Hm in Em. cbn [is_registered info_type info_prefix] in Em. rewrite Hr, typeToTyp4_no_ptr in Em by done.
  destruct (typeToTyp3 T (Type_ c) no_opts) as [t3| | |] eqn:E3; try done. apply typeToTyp3_range in E3 as R3.
  rewrite Typ3_id in Em by done.
  destruct (_encodeReflectBinary T cdc (depth v) (CInfo c) v no_opts) as [bz0| | |] eqn:Ee; try done. injection Em as <-.
  destruct (split_with _ _ _ Hdf R3) as (_ & Hl4 & _). set (pre := WithTyp3 (Prefix c) t3) in *.
  assert (getTypeInfo T cdc (TNamed (iType i)) = Ok (IInfo i)) as Hii.
  { pose proof (getTypeInfo_wlock_spec T cdc (TNamed (iType i))) as Hw. cbv zeta in Hw.
    cbn [derefType fst] in Hw. unfold lookup_info in Hw. rewrite Hsh, Hf in Hw. cbn in Hw. unfold getTypeInfo. by rewrite Hw. }
  assert (zlen pre = 4) as Hz by (unfold zlen; lia).
  unfold UnmarshalBinaryBare. destruct (Z.eqb_spec (zlen (pre ++ bz0)) 0); [zl|]. rewrite Hii. unfold decodeReflectBinary.
  cbn [info_type is_registered]. rewrite Hsh, decode_unfold by done. unfold decode_step. cbn [info_type].
  rewrite Hsh. unfold decodeReflectBinaryInterface. destruct (decode_prefix _ _ t3 bz0 Hdf R3) as [Dp _].
  change (WithTyp3 (Prefix c) t3) with pre in Dp. rewrite Dp, slide_ok by zl.
  replace (Z.to_nat 4) with (length pre) by lia. rewrite drop_app_length, (find_by_prefix T cdc) by done.
  unfold checkTyp3. rewrite E3, Z.eqb_refl. cbn [negb].
  set (g := Nat.max (depth v) (length (pre ++ bz0))).
  destruct (all_round_trip T cdc (depth v) HT Hc g ltac:(unfold g; lia) v (Type_ c) no_opts (CInfo c) ltac:(lia) Hp Hinfo Hg) as (bz' & Ee' & _ & Ed).
  rewrite Ee in Ee'. injection Ee' as <-. specialize (Ed []). rewrite app_nil_r in Ed.
  assert (same (_decodeReflectBinary T cdc (length (pre ++ bz0)) bz0 (CInfo c) (Type_ c) (zero T (Type_ c)) no_opts)
    (_decodeReflectBinary T cdc g bz0 (CInfo c) (Type_ c) (zero T (Type_ c)) no_opts)) as [-> _].
  { apply (decode_agree T cdc _ _ (zlen bz0 + 1)); rewrite ?length_app; unfold g, zlen in *; rewrite ?length_app; lia. }
  rewrite Ed. rewrite <- (app_nil_r bz0) at 1. rewrite slide_app, Hset. rewrite slide_ok by zl.
  rewrite zlen_app, Hz, Z.eqb_refl. done.
Qed.

(** ** Inputs on which decoding misbehaves *)

(** A codec in which the cat was registered by value, though only its pointer is an animal. *)
Definition cat_codec : Codec :=
  (register_all pets [RegInterface (bs "Animal") [] false; RegConcrete Cat (bs "Cat")] NewCodec).1.

(** A dog without name, pups and friend. *)
Definition plain_dog : value := VStruct [VString []; VInt 3; VSlice None; VTime 1000 5; VIface None; VMap None].

(** A pointer to an animal that is a pointer to a cat. *)
Definition an_animal : value := VPtr (Some (VIface (Some (TPtr Cat, VPtr (Some (VByteArray [1; 2])))))).

(** Inputs that make decoding panic.  Bytes with another prefix than the one of the
    registered type that is decoded; a length of 2^64-1 read from a stream without a limit;
    and an interface value of a type that was registered by value but implements the
    interface by pointer only, which registration and encoding accept. *)
Theorem amino_decode_panics :
  UnmarshalBinaryBare pets pet_codec [1; 2; 3; 4] Dog (zero pets Dog) = Panic /\
  UnmarshalBinaryReader pets pet_codec [255; 255; 255; 255; 255; 255; 255; 255; 255; 1] TString (VString []) 0 = Panic /\
  (register_all pets [RegInterface (bs "Animal") [] false; RegConcrete Cat (bs "Cat")] NewCodec).2 = Ok tt /\
  is_ok (MarshalBinaryBare pets cat_codec (TPtr Animal) an_animal) = true /\
  (let* bz := MarshalBinaryBare pets cat_codec (TPtr Animal) an_animal in
   UnmarshalBinaryBare pets cat_codec bz Animal (VIface None)) = Panic.
Proof. split_and!; vm_compute; reflexivity. Qed.

(** What decoding accepts wrongly.  A missing varint is zero; an [int8] below the range
    wraps around; and decoding into a variable in use keeps the fields after the last one
    that is encoded, though it resets the ones before: the decoded dog has the friend of
    the old one. *)
Theorem amino_decode_lenient :
  DecodeVarint [] = Ok (0, 0) /\
  DecodeInt8 (EncodeVarint (-200)) = Ok (56, 2) /\
  (let* bz := MarshalBinaryBare pets pet_codec Dog plain_dog in
   UnmarshalBinaryBare pets pet_codec bz Dog (zero pets Dog)) = Ok plain_dog /\
  (let* bz := MarshalBinaryBare pets pet_codec Dog plain_dog in UnmarshalBinaryBare pets pet_codec bz Dog rex) =
      Ok (VStruct [VString []; VInt 3; VSlice None; VTime 1000 5; VIface (Some (TPtr Cat, VPtr (Some (VByteArray [1; 2])))); VMap None]).
Proof. split_and!; vm_compute; reflexivity. Qed.
