(* ===== verification/AminoKeys.v ===== *)
(** * go-crypto: the binary format of keys and signatures

    Models src/tendermint/go-crypto/amino.go and the methods of pub_key.go,
    priv_key.go and signature.go that encode and decode: the codec of the package with its
    three interfaces and six registered types, [Bytes] and the [FromBytes] functions. *)

From stdpp Require Import gmap relations.
From S2P Require Import Prelude GoStrings GoBytes Sha2 AminoTypes AminoCodec AminoBinary AminoPrim AminoReg.
From S2P Require Import AminoRound AminoTotal AminoSpec.

Local Open Scope Z_scope.

(** ** The types of the package *)

Definition PubKey : str := bs "crypto.PubKey".
Definition PrivKey : str := bs "crypto.PrivKey".
Definition Signature : str := bs "crypto.Signature".
Definition PubKeyEd25519 : rtype := TNamed (bs "crypto.PubKeyEd25519").
Definition PubKeySecp256k1 : rtype := TNamed (bs "crypto.PubKeySecp256k1").
Definition PrivKeyEd25519 : rtype := TNamed (bs "crypto.PrivKeyEd25519").
Definition PrivKeySecp256k1 : rtype := TNamed (bs "crypto.PrivKeySecp256k1").
Definition SignatureEd25519 : rtype := TNamed (bs "crypto.SignatureEd25519").
Definition SignatureSecp256k1 : rtype := TNamed (bs "crypto.SignatureSecp256k1").

(** The types that have the methods of an interface; all of them are value receivers. *)
Definition key_implements (t : rtype) (i : str) : bool :=
  (str_eqb i PubKey && bool_decide (t ∈ [PubKeyEd25519; PubKeySecp256k1])) ||
  (str_eqb i PrivKey && bool_decide (t ∈ [PrivKeyEd25519; PrivKeySecp256k1])) ||
  (str_eqb i Signature && bool_decide (t ∈ [SignatureEd25519; SignatureSecp256k1])).

Definition key_types : Types := {|
  decls := [(PubKey, DInterface); (PrivKey, DInterface); (Signature, DInterface);
            (bs "crypto.PubKeyEd25519", DType (TArray 32 (TUint W8)));
            (bs "crypto.PubKeySecp256k1", DType (TArray 33 (TUint W8)));
            (bs "crypto.PrivKeyEd25519", DType (TArray 64 (TUint W8)));
            (bs "crypto.PrivKeySecp256k1", DType (TArray 32 (TUint W8)));
            (bs "crypto.SignatureEd25519", DType (TArray 64 (TUint W8)));
            (bs "crypto.SignatureSecp256k1", DType (TSlice (TUint W8)));
            (bs "struct { PrivKey [64]uint8; Index int }", DStruct
              [{| sf_Name := bs "PrivKey"; sf_PkgPath := []; sf_Tag := []; sf_Type := TArray 64 (TUint W8) |};
               {| sf_Name := bs "Index"; sf_PkgPath := []; sf_Tag := []; sf_Type := TInt W |}])];
  ptr_implements := key_implements;
  implements := key_implements;
|}.

Definition RegisterAmino : list registration :=
  [RegInterface PubKey [] false;
   RegConcrete PubKeyEd25519 (bs "tendermint/PubKeyEd25519");
   RegConcrete PubKeySecp256k1 (bs "tendermint/PubKeySecp256k1");
   RegInterface PrivKey [] false;
   RegConcrete PrivKeyEd25519 (bs "tendermint/PrivKeyEd25519");
   RegConcrete PrivKeySecp256k1 (bs "tendermint/PrivKeySecp256k1");
   RegInterface Signature [] false;
   RegConcrete SignatureEd25519 (bs "tendermint/SignatureKeyEd25519");
   RegConcrete SignatureSecp256k1 (bs "tendermint/SignatureKeySecp256k1")].

(** The codec of the package after [init]. *)
Definition cdc : Codec := (register_all key_types RegisterAmino NewCodec).1.

(** [Bytes] of a key or signature of type [t]; an error becomes a panic. *)
Definition Bytes (t : rtype) (v : value) : R bytes :=
  must (MarshalBinaryBare key_types cdc t v).

Definition PubKeyFromBytes (bz : bytes) : R value := UnmarshalBinaryBare key_types cdc bz (TNamed PubKey) (VIface None).
Definition PrivKeyFromBytes (bz : bytes) : R value := UnmarshalBinaryBare key_types cdc bz (TNamed PrivKey) (VIface None).
Definition SignatureFromBytes (bz : bytes) : R value := UnmarshalBinaryBare key_types cdc bz (TNamed Signature) (VIface None).

(** ** Facts about the codec *)

Lemma key_types_ok : types_ok key_types.
Proof. apply types_ok_declared. repeat (constructor; [vm_compute; reflexivity|]). constructor. Qed.

Lemma cdc_registers : rtc (registers key_types) NewCodec cdc.
Proof. apply register_all_registers. vm_compute. reflexivity. Qed.

Section resolution.
Context (T : Types) (C : Codec).

(** The type is registered by value, and the interface, which it implements, knows its prefix. *)
Definition resolves (t : rtype) (i : str) : bool :=
  match find_type t (typeInfos C), find_iface i (interfaceInfos C), shape_of T (TNamed i) with
  | Some c, Some info, SInterface _ =>
      Registered c && negb (PointerPreferred c) && ptr_implements T t i && implements T t i &&
      negb (1 <? zlen (default [] (Implementers info !! Prefix c)))
  | _, _, _ => false
  end.

Lemma resolved_roundtrip t i v : types_ok T -> codec_ok T C -> resolves t i = true -> good T C v t false ->
  exists bz, MarshalBinaryBare T C t v = Ok bz /\
    UnmarshalBinaryBare T C bz (TNamed i) (VIface None) = Ok (VIface (Some (t, norm T C v t))).
Proof.
  intros HT Hc H Hg. unfold resolves in H.
  destruct (find_type t (typeInfos C)) as [c|] eqn:Ft; [|done]. destruct (find_iface i (interfaceInfos C)) as [info|] eqn:Fi; [|done].
  destruct (shape_of T (TNamed i)) eqn:Sh; try done. pose proof (shape_iface _ _ _ Sh) as [= <-].
  rewrite !andb_true_iff, !negb_true_iff in H. destruct H as [[[[Hr Hpp] Hpi] Him] H1].
  destruct (getTypeInfo_found _ _ _ _ Hc Ft) as (Hp & <- & Hi). destruct (find_iface_inv _ _ _ Fi) as [<- Hin].
  pose proof (co_registered _ _ Hc _ _ Ft Hr) as Hcin.
  assert ((derefPointers v).2 = false) as Hd by (rewrite (deref_no_ptr v); [done|by eapply good_no_ptr]).
  destruct (bare_roundtrip T C _ v HT Hc ltac:(by rewrite Hi) Hg Hd) as (bz & Em & _). exists bz. split; [done|].
  rewrite (into_interface T C c info v bz); try done.
  - unfold constructed. by rewrite Hpp.
  - unfold settable. by rewrite Hpp.
Qed.

(** The bytes of a registered byte array or slice: the prefix, the length and the bytes. *)
Definition byte_content (t : rtype) (v : value) : option bytes :=
  match v, shape_of T t with
  | VByteArray l, SArray _ e => if is_byte T e then Some l else None
  | VBytes o, SSlice e => if is_byte T e then Some (default [] o) else None
  | _, _ => None
  end.

Lemma marshal_bytes t c v l : codec_ok T C -> find_type t (typeInfos C) = Some c -> Registered c = true ->
  byte_content t v = Some l ->
  MarshalBinaryBare T C t v = Ok (WithTyp3 (Prefix c) Typ3_ByteLength ++ EncodeByteSlice l).
Proof.
  intros Hc Hf Hr Hl. destruct (getTypeInfo_found T C _ c Hc Hf) as (Hp & Ht & Hinfo). subst t.
  unfold byte_content in Hl. unfold MarshalBinaryBare, encodeReflectBinary.
  destruct v; try done; cbn [derefPointers fst]; rewrite no_ptr_deref by done; cbn [fst]; rewrite Hinfo;
    cbn [is_registered info_type info_prefix]; rewrite Hr; rewrite typeToTyp4_no_ptr by done; unfold typeToTyp3;
    destruct (shape_of T (Type_ c)) eqn:Sh; try done; destruct (is_byte T e) eqn:B; try done; injection Hl as <-;
    cbn [depth _encodeReflectBinary]; unfold encode_step; cbn [info_type]; rewrite Sh; rewrite ?B; reflexivity.
Qed.

End resolution.

Lemma cdc_ok : codec_ok key_types cdc.
Proof. exact (registers_ok _ _ _ cdc_registers (NewCodec_ok _)). Qed.

Lemma key_roundtrip t i v : resolves key_types cdc t i = true -> good key_types cdc v t false ->
  (let* bz := Bytes t v in UnmarshalBinaryBare key_types cdc bz (TNamed i) (VIface None)) =
  Ok (VIface (Some (t, norm key_types cdc v t))).
Proof.
  intros H Hg. destruct (resolved_roundtrip key_types cdc t i v key_types_ok cdc_ok H Hg) as (bz & Em & Eu).
  unfold Bytes. rewrite Em. exact Eu.
Qed.

(** ** The bytes of the six types *)

(** A byte sequence shorter than 128 has its length before it. *)
Lemma short_slice l : zlen l < 128 -> EncodeByteSlice l = zlen l :: l.
Proof.
  intros H. unfold EncodeByteSlice, EncodeUvarint. by rewrite small_uvarint by (unfold zlen in *; lia).
Qed.

Lemma key_bytes t c v l : find_type t (typeInfos cdc) = Some c -> Registered c = true ->
  byte_content key_types t v = Some l -> zlen l < 128 ->
  Bytes t v = Ok (WithTyp3 (Prefix c) Typ3_ByteLength ++ zlen l :: l).
Proof.
  intros Hf Hr Hl Hs. unfold Bytes. rewrite (marshal_bytes _ _ _ _ _ _ cdc_ok Hf Hr Hl). by rewrite short_slice.
Qed.

(** The format of keys and signatures.  A key or a signature is the four bytes that
    mark its type, its length and its bytes; the marks of the public keys are
    those of the README, 16 24 DE 60 and EB 5A E9 80, with the type byte 2 of byte sequences added. *)
Theorem key_formats (k32 k33 k64 sig : bytes) :
  length k32 = 32%nat -> length k33 = 33%nat -> length k64 = 64%nat -> zlen sig < 128 ->
  Bytes PubKeyEd25519 (VByteArray k32) = Ok ([22; 36; 222; 98; 32] ++ k32) /\
  Bytes PubKeySecp256k1 (VByteArray k33) = Ok ([235; 90; 233; 130; 33] ++ k33) /\
  Bytes PrivKeyEd25519 (VByteArray k64) = Ok ([163; 40; 137; 18; 64] ++ k64) /\
  Bytes PrivKeySecp256k1 (VByteArray k32) = Ok ([225; 176; 247; 154; 32] ++ k32) /\
  Bytes SignatureEd25519 (VByteArray k64) = Ok ([61; 161; 219; 42; 64] ++ k64) /\
  Bytes SignatureSecp256k1 (VBytes (Some sig)) = Ok ([22; 225; 254; 234; zlen sig] ++ sig).
Proof.
  intros H32 H33 H64 Hs. assert (zlen k32 = 32 /\ zlen k33 = 33 /\ zlen k64 = 64) as (L1 & L2 & L3) by (unfold zlen; lia).
  split_and!; (erewrite key_bytes; [|vm_compute; reflexivity|vm_compute; reflexivity|reflexivity|first [lia|exact Hs]]);
    rewrite ?L1, ?L2, ?L3; reflexivity.
Qed.

Lemma key_formats_witness :
  Bytes PubKeyEd25519 (VByteArray (repeat 7 32)) = Ok ([22; 36; 222; 98; 32] ++ repeat 7 32).
Proof. apply (key_formats (repeat 7 32) (repeat 8 33) (repeat 9 64) [1; 2; 3]); reflexivity. Defined.

Lemma array_good t n k : shape_of key_types t = SArray n (TUint W8) -> length k = n -> zlen k < 2 ^ 63 ->
  good key_types cdc (VByteArray k) t false.
Proof. intros Hs Hn Hz. cbn [good]. rewrite Hs. by split_and!. Qed.

Lemma array_norm t k : norm key_types cdc (VByteArray k) t = VByteArray k.
Proof. cbn [norm]. by destruct (shape_of key_types t). Qed.

(** C19: keys and signatures survive their encoding.  [PubKeyFromBytes], [PrivKeyFromBytes]
    and [SignatureFromBytes] of the [Bytes] of a value give it back, with its type; only an
    empty secp256k1 signature comes back as a nil slice. *)
Theorem keys_roundtrip (k32 k33 k64 sig : bytes) :
  length k32 = 32%nat -> length k33 = 33%nat -> length k64 = 64%nat -> zlen sig < 2 ^ 63 ->
  (let* bz := Bytes PubKeyEd25519 (VByteArray k32) in PubKeyFromBytes bz) = Ok (VIface (Some (PubKeyEd25519, VByteArray k32))) /\
  (let* bz := Bytes PubKeySecp256k1 (VByteArray k33) in PubKeyFromBytes bz) = Ok (VIface (Some (PubKeySecp256k1, VByteArray k33))) /\
  (let* bz := Bytes PrivKeyEd25519 (VByteArray k64) in PrivKeyFromBytes bz) = Ok (VIface (Some (PrivKeyEd25519, VByteArray k64))) /\
  (let* bz := Bytes PrivKeySecp256k1 (VByteArray k32) in PrivKeyFromBytes bz) = Ok (VIface (Some (PrivKeySecp256k1, VByteArray k32))) /\
  (let* bz := Bytes SignatureEd25519 (VByteArray k64) in SignatureFromBytes bz) = Ok (VIface (Some (SignatureEd25519, VByteArray k64))) /\
  (let* bz := Bytes SignatureSecp256k1 (VBytes (Some sig)) in SignatureFromBytes bz) =
    Ok (VIface (Some (SignatureSecp256k1, VBytes (match sig with [] => None | _ => Some sig end)))).
Proof.
  intros H32 H33 H64 Hs. unfold PubKeyFromBytes, PrivKeyFromBytes, SignatureFromBytes.
  split_and!; (rewrite key_roundtrip; [rewrite ?array_norm|vm_compute; reflexivity|]); try reflexivity;
    try (eapply array_good; [reflexivity|done|unfold zlen; lia]).
  - by destruct sig.
  - by split.
Qed.

Lemma keys_roundtrip_witness :
  (let* bz := Bytes PrivKeyEd25519 (VByteArray (repeat 9 64)) in PrivKeyFromBytes bz) =
  Ok (VIface (Some (PrivKeyEd25519, VByteArray (repeat 9 64)))).
Proof. apply (keys_roundtrip (repeat 7 32) (repeat 8 33) (repeat 9 64) [1; 2; 3]); reflexivity. Defined.

(** The bytes of a value with its disambiguation bytes. *)
Definition disambiguated (disamb bz : bytes) : bytes := [0] ++ disamb ++ bz.

(** A key of the wrong kind.  The bytes of a private key are an error where a public key
    is expected; with the disambiguation bytes of its type before them, which are looked up
    among all registered types, they make [PubKeyFromBytes] panic. *)
Theorem key_confusion (k64 : bytes) :
  length k64 = 64%nat ->
  PubKeyFromBytes ([163; 40; 137; 18; 64] ++ k64) = Err Unrecognized_prefix /\
  PubKeyFromBytes (disambiguated [149; 69; 104] ([163; 40; 137; 18; 64] ++ k64)) = Panic.
Proof.
  intros H. do 64 (destruct k64 as [|? k64]; [done|]). destruct k64; [|done].
  split; vm_compute; reflexivity.
Qed.

Lemma key_confusion_witness :
  PubKeyFromBytes (disambiguated [149; 69; 104] ([163; 40; 137; 18; 64] ++ repeat 9 64)) = Panic.
Proof. apply (key_confusion (repeat 9 64)). reflexivity. Defined.
