(* ===== verification/KeyGen.v ===== *)
(** * go-crypto: making ed25519 keys

    Models the rest of src/tendermint/go-crypto/priv_key.go, pub_key.go and signature.go for
    ed25519: the generators of private keys, [Generate], the comparisons and [IsZero].  The
    properties say which of the keys made here sign so that [VerifyBytes] accepts. *)

From Stdlib Require Import Zdivisibility.
From stdpp Require Import gmap relations.
From S2P Require Import Prelude GoStrings GoBytes EdCurve LittleEndian Sha2 EdTablesOk Sc EdImpl Ed25519 Tx.
From S2P Require Import AminoTypes AminoCodec AminoBinary AminoPrim AminoReg AminoRound AminoTotal AminoSpec AminoKeys.

Local Open Scope Z_scope.

(** ** Making keys *)

Definition Sha256 (bytes : list Z) : list Z := sha256 bytes.

(** [ed25519.MakePublicKey] completes the key it is given in place. *)
Definition completed (privKey32 : list Z) : list Z := (MakePublicKey (to_array 64 (take 32 privKey32))).2.

(** [rand]: the 32 bytes of [CRandBytes]. *)
Definition GenPrivKeyEd25519 (rand : list Z) : list Z := completed rand.
Definition GenPrivKeyEd25519FromSecret (secret : list Z) : list Z := completed (Sha256 secret).

(** The anonymous struct that [Generate] hashes. *)
Definition key_index : rtype := TNamed (bs "struct { PrivKey [64]uint8; Index int }").

(** The key made of the encoding. *)
Definition hashed_key (encoded : R bytes) : R (list Z) :=
  let* bz := encoded in
  Ok (to_array 64 (Sha256 bz)).

Definition Generate (privKey : list Z) (index : Z) : R (list Z) :=
  hashed_key (MustMarshalBinaryBare key_types cdc key_index (VStruct [VByteArray privKey; VInt index])).

(** ** Comparing *)

(** [Equals] of two values of an interface: of the same type, and with the same bytes. *)
Definition Equals (t : rtype) (k : list Z) (other : option (rtype * list Z)) : bool :=
  match other with
  | Some (t', k') => bool_decide (t' = t) && bool_decide (k = k')
  | None => false
  end.

Definition IsZero (sig : list Z) : bool := zlen sig =? 0.

(** ** Lemmas *)

Lemma clamped_bytes x : byte_ok x -> Z.land x 248 mod 8 = 0 /\ 64 <= Z.lor (Z.land x 63) 64.
Proof.
  intros H. assert (Forall (fun x => Z.land x 248 mod 8 = 0 /\ 64 <= Z.lor (Z.land x 63) 64) (seqZ 0 256)) as F.
  { apply (bool_decide_unpack _). vm_compute. exact I. }
  rewrite Forall_forall in F. apply F, elem_of_seqZ. unfold byte_ok in H. lia.
Qed.

(** The scalar of a key is a multiple of 8 between 2^254 and 2^255. *)
Lemma secret_scalar_range privateKey : 2 ^ 254 <= secret_scalar privateKey < 2 ^ 255 /\ secret_scalar privateKey mod 8 = 0.
Proof.
  unfold secret_scalar. pose proof (sha512_array (take 32 privateKey)) as [Ld Hd].
  destruct (clamp_spec _ (conj Ld Hd)) as (_ & Aa & Ta). set (d := sha512 (take 32 privateKey)) in *.
  destruct (last_byte _ Aa) as [E31 R]. destruct Aa as [La Ha]. pose proof (le_val_nth 0 _ Ha) as E0.
  assert (exists x y, byte_ok x /\ byte_ok y /\ nth 0 (clamp 63 (take 32 d)) 0 = Z.land x 248 /\
    nth 31 (clamp 63 (take 32 d)) 0 = Z.lor (Z.land y 63) 64) as (x & y & Hx & Hy & N0 & N31).
  { exists (nth 0 d 0), (nth 31 d 0). split; [by apply nth_byte|]. split; [by apply nth_byte|].
    unfold clamp. do 32 (destruct d as [|? d]; [done|]). done. }
  destruct (clamped_bytes x Hx) as [M0 _], (clamped_bytes y Hy) as [_ M31].
  change (256 ^ Z.of_nat 0) with 1 in E0. rewrite Z.div_1_r in E0. set (a := le_val (clamp 63 (take 32 d))) in *.
  rewrite N0 in E0. rewrite N31 in E31, Ta. split; [|rewrite E0 in M0; clear - M0; Z.div_mod_to_equations; lia].
  pose proof (Z.div_mod a (2 ^ 248)). pose proof (Z.mod_pos_bound a (2 ^ 248)). rewrite <- E31 in *. clear - H H0 M31 Ta. lia.
Qed.

Lemma secret_scalar_not_zero privateKey : ~ (order | secret_scalar privateKey).
Proof.
  intros [k E]. destruct (secret_scalar_range privateKey) as [R M]. rewrite E in R, M.
  unfold order in *. Z.div_mod_to_equations. lia.
Qed.

(** A signature of a key, complete or not, verifies exactly when its second half and its public key
    hash to the same scalar. *)
Lemma Verify_Sign_hash privKey msg :
  let pub := PrivKey_PubKey privKey in
  let sig := PrivKey_Sign privKey msg in
  let h K := le_val (sha512 (take 32 sig ++ K ++ msg)) mod order in
  VerifyBytes pub msg sig = true <-> h (drop 32 privKey) = h pub.
Proof.
  cbv zeta. unfold PrivKey_PubKey, PrivKey_Sign, VerifyBytes.
  destruct (Verify_Sign_iff privKey msg) as [_ ->]. cbv zeta. set (h := fun K : list Z => le_val (sha512 (take 32 (Sign privKey msg) ++ K ++ msg)) mod order).
  change (le_val (sha512 (take 32 (Sign privKey msg) ++ drop 32 privKey ++ msg)) mod order) with (h (drop 32 privKey)).
  change (le_val (sha512 (take 32 (Sign privKey msg) ++ (MakePublicKey privKey).1 ++ msg)) mod order) with (h (MakePublicKey privKey).1).
  split; [|by intros ->; rewrite Z.sub_diag].
  intros [H|H]%smul_B25519_zero%(Z.divide_prime_mul _ _ _ order_prime); [|by destruct (secret_scalar_not_zero privKey)].
  assert (forall K, 0 <= h K < order) as R by (intros K; exact (Z.mod_pos_bound _ order eq_refl)).
  pose proof (R (drop 32 privKey)) as R1. pose proof (R (MakePublicKey privKey).1) as R2. destruct H as [q H].
  clearbody h. revert R1 R2 H. generalize (h (drop 32 privKey)) (h (MakePublicKey privKey).1). clear.
  intros x y R1 R2 H. assert (q = 0) as -> by (unfold order in *; lia). lia.
Qed.

Lemma to_array_length n data : length (to_array n data) = n.
Proof. unfold to_array. rewrite length_app, length_take, length_replicate. lia. Qed.

Lemma to_array_short n data : (length data <= n)%nat -> to_array n data = data ++ replicate (n - length data) 0.
Proof. intros H. unfold to_array. by rewrite take_ge. Qed.

Lemma Generate_ok privKey index : length privKey = 64%nat -> in_sN 64 index ->
  exists bz, Generate privKey index = Ok (sha256 bz ++ replicate 32 0).
Proof.
  intros Hl Hi. unfold Generate, MustMarshalBinaryBare.
  destruct (bare_roundtrip key_types cdc key_index (VStruct [VByteArray privKey; VInt index]) key_types_ok cdc_ok) as (bz & -> & _).
  - vm_compute. reflexivity.
  - cbn [good]. split; [vm_compute; reflexivity|]. split; [vm_compute; reflexivity|]. split; [done|].
    split; [intros _; split; [|vm_compute; reflexivity]|split; [intros _; split; [exact Hi|vm_compute; reflexivity]|exact I]].
    split; [reflexivity|]. split; [exact Hl|unfold zlen; lia].
  - done.
  - exists bz. destruct (sha256_size bz) as [L _]. unfold hashed_key, must, Sha256. rewrite to_array_short, L by lia. reflexivity.
Qed.

Lemma completed_ok privKey32 : let k := completed privKey32 in
  length k = 64%nat /\ drop 32 k = PrivKey_PubKey k /\ forall msg, VerifyBytes (PrivKey_PubKey k) msg (PrivKey_Sign k msg) = true.
Proof.
  cbv zeta. unfold completed, PrivKey_PubKey, PrivKey_Sign, VerifyBytes.
  pose proof (MakePublicKey_key_ok (to_array 64 (take 32 privKey32)) (to_array_length _ _)) as K.
  destruct (MakePublicKey (to_array 64 (take 32 privKey32))) as [pub key]. destruct K as (M & D & K). cbn [snd].
  rewrite M. cbn [fst]. split; [apply K|]. split; [done|]. intros msg. rewrite <- D. by apply Verify_Sign_ok.
Qed.

(** Keys that sign.  The keys of [GenPrivKeyEd25519] and [GenPrivKeyEd25519FromSecret] end in
    their public key, and every signature of them verifies.  A key of [Generate] ends in 32 zeros
    instead: a signature of it verifies under its own public key only when the SHA-512 of [R], the
    zeros and the message and that of [R], the public key and the message are the same number
    modulo the group order. *)
Theorem generated_keys (privKey rand secret msg : list Z) (index : Z) :
  length privKey = 64%nat -> in_sN 64 index ->
  (let k := GenPrivKeyEd25519 rand in
   length k = 64%nat /\ drop 32 k = PrivKey_PubKey k /\ VerifyBytes (PrivKey_PubKey k) msg (PrivKey_Sign k msg) = true) /\
  (let k := GenPrivKeyEd25519FromSecret secret in
   length k = 64%nat /\ drop 32 k = PrivKey_PubKey k /\ VerifyBytes (PrivKey_PubKey k) msg (PrivKey_Sign k msg) = true) /\
  exists k, Generate privKey index = Ok k /\ length k = 64%nat /\ drop 32 k = replicate 32 0 /\
    let pub := PrivKey_PubKey k in
    let sig := PrivKey_Sign k msg in
    VerifyBytes pub msg sig = true <->
    le_val (sha512 (take 32 sig ++ replicate 32 0 ++ msg)) mod order = le_val (sha512 (take 32 sig ++ pub ++ msg)) mod order.
Proof.
  intros Hl Hi. split; [|split].
  - destruct (completed_ok rand) as (? & ? & ?). by split_and!.
  - destruct (completed_ok (Sha256 secret)) as (? & ? & ?). by split_and!.
  - destruct (Generate_ok privKey index Hl Hi) as [bz E]. exists (sha256 bz ++ replicate 32 0). split; [done|].
    destruct (sha256_size bz) as [L _].
    assert (drop 32 (sha256 bz ++ replicate 32 0) = replicate 32 0) as D by (by rewrite drop_app_length' by lia).
    split; [by rewrite length_app, L|]. split; [done|]. pose proof (Verify_Sign_hash (sha256 bz ++ replicate 32 0) msg) as V.
    cbv zeta in V. rewrite D in V. exact V.
Qed.

Lemma generated_keys_witness : exists k, Generate (replicate 64 7) 1 = Ok k /\ drop 32 k = replicate 32 0.
Proof.
  destruct (generated_keys (replicate 64 7) [] [1; 2] [3] 1 eq_refl ltac:(done)) as (_ & _ & k & E & _ & D & _).
  exact (ex_intro _ k (conj E D)).
Defined.

(** [Equals] holds of two values exactly when they have the same type and the same bytes. *)
Lemma Equals_iff t k other : Equals t k other = true <-> other = Some (t, k).
Proof.
  destruct other as [[t' k']|]; cbn [Equals]; [|done]. rewrite andb_true_iff, !bool_decide_eq_true. split; [by intros [-> ->]|by intros [= -> ->]].
Qed.

(** [IsZero] holds of no ed25519 signature, not even of the zero value. *)
Lemma IsZero_ed25519 data : IsZero (SignatureEd25519FromBytes data) = false.
Proof. unfold IsZero, SignatureEd25519FromBytes, zlen. by rewrite to_array_length. Qed.
