(* ===== verification/GoText.v ===== *)
(** * Go: decimal text, dates, floating-point numbers and runes

    What the repository uses of strconv and fmt for integers: [strconv.Itoa], [strconv.Atoi]
    on 64-bit integers and the verb [%03d]; then dates and floating-point numbers; then the runes of a string. *)
From S2P Require Import Prelude GoBig.
From stdpp Require Import list.
From Stdlib Require Import SpecFloat.
Local Open Scope Z_scope.

Definition is_digit (c : Z) : bool := (48 <=? c) && (c <=? 57).

(** The value of the digits after a number [acc]; [None] when one is not a digit. *)
Fixpoint dec_val (acc : Z) (s : list Z) : option Z :=
  match s with
  | [] => Some acc
  | c :: s' => if is_digit c then dec_val (10 * acc + (c - 48)) s' else None
  end.

Definition in_int64 (z : Z) : bool := (- 2 ^ 63 <=? z) && (z <? 2 ^ 63).

(** [strconv.Atoi]; [None] is an error, of the syntax or of the range. *)
Definition Atoi (s : list Z) : option Z :=
  let '(neg, ds) :=
    match s with
    | c :: s' => if c =? 45 then (true, s') else if c =? 43 then (false, s') else (false, s)
    | [] => (false, s)
    end in
  match ds with
  | [] => None
  | _ =>
      match dec_val 0 ds with
      | Some v => let z := if neg then - v else v in if in_int64 z then Some z else None
      | None => None
      end
  end.

Definition Itoa (z : Z) : list Z := big_String z.

(** The verb [%0wd]: zeros between the sign and the digits up to the width. *)
Definition pad (w : nat) (s : list Z) : list Z := replicate (w - length s) 48 ++ s.
Definition fmt_0d (w : nat) (z : Z) : list Z :=
  if z <? 0 then 45 :: pad (w - 1) (dec_nonneg (- z)) else pad w (dec_nonneg z).

(** ** Lemmas *)

Lemma dec_val_digits fuel : forall z acc a, 0 <= z -> (0 < fuel)%nat -> z < 2 ^ Z.of_nat fuel ->
  exists n, dec_val a (dec_digits fuel z acc) = dec_val (a * 10 ^ n + z) acc /\ 0 <= n.
Proof.
  induction fuel as [|f IH]; intros z acc a Hz Hf Hb; [lia|]. cbn [dec_digits].
  destruct (Z.ltb_spec z 10).
  - exists 1. split; [|lia]. cbn [dec_val]. unfold is_digit, ascii_0.
    destruct (Z.leb_spec 48 (48 + z)), (Z.leb_spec (48 + z) 57); try lia. cbn [andb]. f_equal. lia.
  - rewrite Nat2Z.inj_succ, Z.pow_succ_r in Hb by lia.
    assert (0 < f)%nat by (destruct f; [cbn in Hb; lia|lia]).
    destruct (IH (z / 10) ((ascii_0 + z mod 10) :: acc) a) as (n & E & Hn); [apply Z.div_pos; lia|done|apply Z.div_lt_upper_bound; lia|].
    exists (Z.succ n). split; [|lia]. rewrite E. cbn [dec_val]. unfold is_digit, ascii_0.
    pose proof (Z.mod_pos_bound z 10). destruct (Z.leb_spec 48 (48 + z mod 10)), (Z.leb_spec (48 + z mod 10) 57); try lia.
    cbn [andb]. f_equal. rewrite Z.pow_succ_r by lia. pose proof (Z.div_mod z 10). lia.
Qed.

Lemma dec_val_nonneg z a : 0 <= z -> exists n, dec_val a (dec_nonneg z) = Some (a * 10 ^ n + z) /\ 0 <= n.
Proof.
  intros Hz. unfold dec_nonneg.
  destruct (dec_val_digits (Z.to_nat (Z.log2 z + 1)) z [] a) as (n & E & Hn); [done|pose proof (Z.log2_nonneg z); lia|..].
  - rewrite Z2Nat.id by (pose proof (Z.log2_nonneg z); lia). destruct (Z.eq_dec z 0) as [->|]; [done|].
    apply Z.log2_lt_pow2; lia.
  - by exists n.
Qed.

Lemma dec_val_zeros k s : dec_val 0 (replicate k 48 ++ s) = dec_val 0 s.
Proof. induction k as [|k IH]; [done|]. cbn. done. Qed.

Lemma dec_nonneg_digits z : 0 <= z -> Forall (fun c => is_digit c = true) (dec_nonneg z) /\ dec_nonneg z <> [].
Proof.
  intros Hz. split.
  - destruct (dec_val_nonneg z 0 Hz) as (n & E & _). revert E. generalize (0 * 10 ^ n + z). generalize 0 at 1.
    induction (dec_nonneg z) as [|c s IH]; intros a b E; [constructor|]. cbn in E. destruct (is_digit c) eqn:D; [|done].
    constructor; [done|]. by eapply IH.
  - destruct (dec_nonneg_head z Hz) as (c & l & -> & _). done.
Qed.

(** A number written with leading zeros reads back. *)
Lemma dec_val_pad w z : 0 <= z -> dec_val 0 (pad w (dec_nonneg z)) = Some z.
Proof. intros Hz. unfold pad. rewrite dec_val_zeros. by destruct (dec_val_nonneg z 0 Hz) as (n & -> & _). Qed.

Lemma Atoi_fmt w z : 0 <= z < 2 ^ 63 -> Atoi (fmt_0d w z) = Some z.
Proof.
  intros Hz. unfold fmt_0d. destruct (Z.ltb_spec z 0); [lia|]. pose proof (dec_val_pad w z ltac:(lia)) as E.
  unfold Atoi. assert (exists c s, pad w (dec_nonneg z) = c :: s /\ 48 <= c <= 57) as (c & s & Ec & Hc).
  { unfold pad. destruct (w - length (dec_nonneg z))%nat as [|k]; cbn; [|by eexists _, _; split; [done|lia]].
    by apply dec_nonneg_head. }
  rewrite Ec in *. destruct (Z.eqb_spec c 45), (Z.eqb_spec c 43); try lia.
  rewrite E. unfold in_int64. destruct (Z.leb_spec (- 2 ^ 63) z), (Z.ltb_spec z (2 ^ 63)); try lia. done.
Qed.

Lemma fmt_0d_inj w i j : 0 <= i -> 0 <= j -> fmt_0d w i = fmt_0d w j -> i = j.
Proof.
  intros Hi Hj. unfold fmt_0d. destruct (Z.ltb_spec i 0), (Z.ltb_spec j 0); try lia. intros E.
  apply (f_equal (dec_val 0)) in E. rewrite !dec_val_pad in E by done. congruence.
Qed.

(** ** Dates and floating-point numbers

    What the repository uses of the packages time and strconv and of the conversions between numbers. An instant is a
    number of nanoseconds since 1970, a floating-point number a value of the format of the standard library with 53
    bits and exponents up to 1024. *)

(** ** Dates *)

Definition leap (y : Z) : bool := (y mod 4 =? 0) && (negb (y mod 100 =? 0) || (y mod 400 =? 0)).

Definition daysIn (m y : Z) : Z :=
  if m =? 2 then if leap y then 29 else 28
  else if (m =? 4) || (m =? 6) || (m =? 9) || (m =? 11) then 30 else 31.

Fixpoint days_before (m : nat) (y : Z) : Z :=
  match m with O | S O => 0 | S m' => days_before m' y + daysIn (Z.of_nat m') y end.

(** The days from 1970-01-01 to a date. *)
Definition day_number (y m d : Z) : Z :=
  365 * (y - 1) + (y - 1) / 4 - (y - 1) / 100 + (y - 1) / 400 + days_before (Z.to_nat m) y + (d - 1) - 719162.

Definition second : Z := 1000000000.

Definition valid_date (y m d : Z) : bool := (1 <=? m) && (m <=? 12) && (1 <=? d) && (d <=? daysIn m y).

Definition dv (c : Z) : Z := c - 48.

(** [time.Parse] with the layout 2006-01-02, which fixes the number of digits. *)
Definition parse_date (s : list Z) : option Z :=
  match s with
  | [y1; y2; y3; y4; a; m1; m2; b; d1; d2] =>
      if forallb is_digit [y1; y2; y3; y4; m1; m2; d1; d2] && (a =? 45) && (b =? 45) then
        let y := dv y1 * 1000 + dv y2 * 100 + dv y3 * 10 + dv y4 in
        let m := dv m1 * 10 + dv m2 in
        let d := dv d1 * 10 + dv d2 in
        if valid_date y m d then Some (day_number y m d * 86400 * second) else None
      else None
  | _ => None
  end.

(** The offset of a zone in seconds. *)
Definition zone (s : list Z) : option Z :=
  match s with
  | [c] => if c =? 90 then Some 0 else None
  | [c; h1; h2; a; m1; m2] =>
      if forallb is_digit [h1; h2; m1; m2] && (a =? 58) && ((c =? 43) || (c =? 45)) then
        let z := (dv h1 * 10 + dv h2) * 3600 + (dv m1 * 10 + dv m2) * 60 in
        Some (if c =? 45 then - z else z)
      else None
  | _ => None
  end.

(** The texts of the form of the RFC 3339 layout without fractions of a second. [time.Parse] accepts further ones (a
    fraction, an hour of one digit). *)
Definition rfc3339_shape (s : list Z) : bool :=
  match s with
  | y1 :: y2 :: y3 :: y4 :: a :: m1 :: m2 :: b :: d1 :: d2 :: t :: h1 :: h2 :: c :: n1 :: n2 :: d :: s1 :: s2 :: z =>
      forallb is_digit [y1; y2; y3; y4; m1; m2; d1; d2; h1; h2; n1; n2; s1; s2] && (a =? 45) && (b =? 45) &&
      (t =? 84) && (c =? 58) && (d =? 58) && match zone z with Some _ => true | None => false end
  | _ => false
  end.

Definition parse_rfc3339 (s : list Z) : option Z :=
  match s with
  | y1 :: y2 :: y3 :: y4 :: a :: m1 :: m2 :: b :: d1 :: d2 :: t :: h1 :: h2 :: c :: n1 :: n2 :: d :: s1 :: s2 :: z =>
      let h := dv h1 * 10 + dv h2 in
      let n := dv n1 * 10 + dv n2 in
      let sec := dv s1 * 10 + dv s2 in
      match parse_date [y1; y2; y3; y4; a; m1; m2; b; d1; d2], zone z with
      | Some midnight, Some off =>
          if (h <? 24) && (n <? 60) && (sec <? 60) then Some (midnight + (h * 3600 + n * 60 + sec - off) * second) else None
      | _, _ => None
      end
  | _ => None
  end.

(** ** Floating-point numbers *)

Definition prec : Z := 53.
Definition emax : Z := 1024.

Definition float := spec_float.

Definition float_of_Z (z : Z) : float := binary_normalize prec emax z 0 false.

(** A number of a narrower format. *)
Definition float64_of_float32 (f : float) : float :=
  match f with S754_finite s m e => binary_normalize prec emax (cond_Zopp s (Zpos m)) e s | _ => f end.

(** The float nearest to [n / 10^k]. *)
Definition decimal (n : Z) (k : nat) : float :=
  match n, 10 ^ Z.of_nat k with
  | Zpos p, Zpos q => SFdiv prec emax (S754_finite false p 0) (S754_finite false q 0)
  | _, _ => S754_zero false
  end.

(** Digits, a point, digits. *)
Definition split_point (s : list Z) : option (list Z * list Z) :=
  (fix go acc s := match s with
    | [] => None
    | c :: s' => if c =? 46 then Some (rev acc, s') else go (c :: acc) s'
    end) [] s.

Definition decimal_shape (s : list Z) : bool :=
  match split_point s with Some (a, b) => negb (bool_decide (a = [])) && forallb is_digit a && forallb is_digit b | None => false end.

(** [strconv.ParseFloat] on such a text; too large a number is an error. *)
Definition parse_decimal (s : list Z) : option float :=
  match split_point s with
  | Some (a, b) =>
      match dec_val 0 (a ++ b) with
      | Some n => match decimal n (length b) with S754_infinity _ => None | f => Some f end
      | None => None
      end
  | None => None
  end.

(** The integer part, towards zero. *)
Definition trunc (f : float) : option Z :=
  match f with
  | S754_zero _ => Some 0
  | S754_finite s m e => Some (cond_Zopp s (if 0 <=? e then Zpos m * 2 ^ e else Zpos m / 2 ^ (- e)))
  | _ => None
  end.

(** ** Runes

    The conversion of a string to its runes: a byte that does not start a valid UTF-8 sequence
    becomes the replacement rune on its own. *)

Definition RuneError : Z := 65533.

Definition between (lo hi c : Z) : bool := (lo <=? c) && (c <=? hi).
Definition cont (c : Z) : bool := between 128 191 c.

(** The range of the second byte after a first byte of a sequence of three or four. *)
Definition second_ok (c0 c1 : Z) : bool :=
  if c0 =? 224 then between 160 191 c1 else if c0 =? 237 then between 128 159 c1
  else if c0 =? 240 then between 144 191 c1 else if c0 =? 244 then between 128 143 c1 else cont c1.

Fixpoint runes (s : list Z) : list Z :=
  match s with
  | [] => []
  | c0 :: s0 =>
      if c0 <? 128 then c0 :: runes s0
      else if between 194 223 c0 then
        match s0 with
        | c1 :: s1 => if cont c1 then ((c0 - 192) * 64 + (c1 - 128)) :: runes s1 else RuneError :: runes s0
        | [] => RuneError :: runes s0
        end
      else if between 224 239 c0 then
        match s0 with
        | c1 :: c2 :: s2 =>
            if second_ok c0 c1 && cont c2 then ((c0 - 224) * 4096 + (c1 - 128) * 64 + (c2 - 128)) :: runes s2
            else RuneError :: runes s0
        | _ => RuneError :: runes s0
        end
      else if between 240 244 c0 then
        match s0 with
        | c1 :: c2 :: c3 :: s3 =>
            if second_ok c0 c1 && cont c2 && cont c3
            then ((c0 - 240) * 262144 + (c1 - 128) * 4096 + (c2 - 128) * 64 + (c3 - 128)) :: runes s3
            else RuneError :: runes s0
        | _ => RuneError :: runes s0
        end
      else RuneError :: runes s0
  end.

Definition ascii_only (s : list Z) : Prop := Forall (fun c => 0 <= c < 128) s.

Lemma runes_ascii s : ascii_only s -> runes s = s.
Proof. induction 1 as [|c s Hc _ IH]; cbn; [done|]. destruct (Z.ltb_spec c 128); [|lia]. by rewrite IH. Qed.

(** There are at most as many runes as bytes. *)
Lemma runes_length s : (length (runes s) <= length s)%nat.
Proof.
  induction s as [s IH] using (induction_ltof1 _ (@length Z)). unfold ltof in IH. destruct s as [|c0 s0]; [done|].
  cbn [runes]. pose proof (IH s0 ltac:(cbn; lia)).
  repeat match goal with |- context [if ?b then _ else _] => destruct b end; cbn [length]; try lia.
  - destruct s0 as [|c1 s1]; cbn [length] in *; [lia|]. pose proof (IH s1 ltac:(cbn; lia)). destruct (cont c1); cbn [length]; lia.
  - destruct s0 as [|c1 [|c2 s2]]; cbn [length] in *; try lia. pose proof (IH s2 ltac:(cbn; lia)). destruct (_ && _); cbn [length]; lia.
  - destruct s0 as [|c1 [|c2 [|c3 s3]]]; cbn [length] in *; try lia. pose proof (IH s3 ltac:(cbn; lia)). destruct (_ && _); cbn [length]; lia.
Qed.

(** The runes of bytes are code points. *)
Lemma runes_range s : Forall (fun c => 0 <= c < 256) s -> Forall (fun r => 0 <= r < 1114112) (runes s).
Proof.
  induction s as [s IH] using (induction_ltof1 _ (@length Z)). unfold ltof in IH. intros H. destruct s as [|c0 s0]; [constructor|].
  apply Forall_cons in H as [H0 H]. pose proof (IH s0 ltac:(cbn; lia) H) as I0.
  cbn [runes]. unfold second_ok, cont, between.
  repeat match goal with
  | |- context [if ?b then _ else _] => destruct b eqn:?
  | |- context [match ?l with [] => _ | _ :: _ => _ end] => is_var l; destruct l; [|apply Forall_cons in H as [? H]]
  end; rewrite ?andb_true_iff, ?Z.leb_le, ?Z.ltb_lt, ?Z.eqb_eq in *; subst;
  (constructor; [unfold RuneError; lia|first [exact I0|apply IH; [cbn; lia|done]]]).
Qed.

(** An ASCII character ends whatever sequence comes before it. *)
Lemma runes_app_ascii s c t : 0 <= c < 128 -> runes (s ++ c :: t) = runes s ++ c :: runes t.
Proof.
  intros Hc. induction s as [s IH] using (induction_ltof1 _ (@length Z)). unfold ltof in IH.
  destruct s as [|c0 s0]; [cbn; by destruct (Z.ltb_spec c 128); [|lia]|].
  pose proof (IH s0 ltac:(cbn; lia)) as I0. cbn [app runes].
  assert (cont c = false) as Hn by (unfold cont, between; destruct (Z.leb_spec 128 c); [lia|done]).
  assert (forall x, second_ok x c = false) as Hs.
  { intros x. unfold second_ok, cont, between. repeat case_match; destruct (Z.leb_spec 128 c), (Z.leb_spec 160 c), (Z.leb_spec 144 c); try lia; done. }
  destruct (c0 <? 128); [by rewrite I0|]. destruct (between 194 223 c0); [|destruct (between 224 239 c0); [|destruct (between 240 244 c0); [|by rewrite I0]]].
  - destruct s0 as [|c1 s1]; cbn [app] in *; [by rewrite Hn, I0|]. destruct (cont c1); [by rewrite (IH s1) by (cbn; lia)|by rewrite I0].
  - destruct s0 as [|c1 [|c2 s2]]; cbn [app] in *.
    + destruct t as [|c2 t]; [by rewrite I0|]. by rewrite Hs, I0.
    + by rewrite Hn, andb_false_r, I0.
    + destruct (_ && _); [by rewrite (IH s2) by (cbn; lia)|by rewrite I0].
  - destruct s0 as [|c1 [|c2 [|c3 s3]]]; cbn [app] in *.
    + destruct t as [|c2 [|c3 t]]; try (by rewrite I0). by rewrite Hs, I0.
    + destruct t as [|c3 t]; [by rewrite I0|]. by rewrite Hn, andb_false_r, I0.
    + by rewrite Hn, andb_false_r, I0.
    + destruct (_ && _); [by rewrite (IH s3) by (cbn; lia)|by rewrite I0].
Qed.
