(* ===== verification/Autofile.v ===== *)
(** * tmlibs: log files that rotate, and groups of them

    Models src/tendermint/tmlibs/autofile/autofile.go and group.go over a directory of a file
    system that keeps the files behind the names, so that a file that was opened stays what it
    is when its name moves.  The disk does not fail: opening a name that is not there is the
    only error.  A [bufio.Writer] is its buffer; a [bufio.Reader] on a file is a position in
    it, as files only grow and what is read ahead is what the file still holds there.  Every
    method holds its lock from start to end.  Logging, identifiers and the tickers that call
    [closeFile], [checkHeadSizeLimit] and [checkTotalSizeLimit] are left out. *)

From stdpp Require Import gmap list.
From S2P Require Import Prelude GoStrings GoText.

Local Open Scope Z_scope.

Abbreviation str := (list Z).
Abbreviation bytes := (list Z).

Inductive file_err := EOF | NotExist | Empty_slice | Bad_marker.
Abbreviation R := (res file_err).

(** ** The directory *)

(** The names and, by number, the contents of the files. *)
Record FS := { dir : gmap str nat; inodes : list bytes }.

Definition contents (fs : FS) (i : nat) : bytes := default [] (inodes fs !! i).

(** [os.OpenFile] with [O_CREATE] and [O_APPEND]. *)
Definition open_append (fs : FS) (path : str) : FS * nat :=
  match dir fs !! path with
  | Some i => (fs, i)
  | None => ({| dir := <[path := length (inodes fs)]> (dir fs); inodes := inodes fs ++ [[]] |}, length (inodes fs))
  end.

Definition append (fs : FS) (i : nat) (b : bytes) : FS :=
  {| dir := dir fs; inodes := alter (fun c => c ++ b) i (inodes fs) |}.

Definition Rename (fs : FS) (old new : str) : option FS :=
  match dir fs !! old with
  | Some i => Some {| dir := <[new := i]> (delete old (dir fs)); inodes := inodes fs |}
  | None => None
  end.

Definition Remove (fs : FS) (path : str) : FS := {| dir := delete path (dir fs); inodes := inodes fs |}.

(** ** AutoFile *)

Record AutoFile := { Path : str; file : option nat }.

Definition af_openFile (fs : FS) (af : AutoFile) : FS * AutoFile * nat :=
  let (fs, i) := open_append fs (Path af) in
  (fs, {| Path := Path af; file := Some i |}, i).

(** The open file of an AutoFile; it is opened when it is not. *)
Definition af_file (fs : FS) (af : AutoFile) : FS * AutoFile * nat :=
  match file af with Some i => (fs, af, i) | None => af_openFile fs af end.

Definition OpenAutoFile (fs : FS) (path : str) : FS * AutoFile :=
  (af_openFile fs {| Path := path; file := None |}).1.

Definition af_closeFile (af : AutoFile) : AutoFile := {| Path := Path af; file := None |}.

Definition af_Write (fs : FS) (af : AutoFile) (b : bytes) : FS * AutoFile :=
  let '(fs, af, i) := af_file fs af in (append fs i b, af).

Definition af_Sync (fs : FS) (af : AutoFile) : FS * AutoFile := (af_file fs af).1.

Definition af_Size (fs : FS) (af : AutoFile) : FS * AutoFile * Z :=
  let '(fs, af, i) := af_file fs af in (fs, af, zlen (contents fs i)).

(** ** Group *)

Record Group := {
  Head : AutoFile;
  headBuf : bytes;
  headSizeLimit : Z;
  totalSizeLimit : Z;
  minIndex : Z;
  maxIndex : Z;
}.

Definition defaultHeadSizeLimit : Z := 10 * 1024 * 1024.
Definition defaultTotalSizeLimit : Z := 1 * 1024 * 1024 * 1024.
Definition maxFilesToRemove : nat := 4.
Definition headBufSize : Z := 4096 * 10.

Definition with_head (g : Group) (h : AutoFile) (buf : bytes) : Group :=
  {| Head := h; headBuf := buf; headSizeLimit := headSizeLimit g; totalSizeLimit := totalSizeLimit g;
     minIndex := minIndex g; maxIndex := maxIndex g |}.

Definition filePathForIndex (headPath : str) (index maxIndex : Z) : str :=
  if index =? maxIndex then headPath else headPath ++ [46] ++ fmt_0d 3 index.

(** *** The files of the group *)

Record GroupInfo := { MinIndex : Z; MaxIndex : Z; TotalSize : Z; HeadSize : Z }.

(** The longest prefix of digits and the rest. *)
Fixpoint span_digits (s : str) : str * str :=
  match s with
  | c :: s' => if is_digit c then let (d, r) := span_digits s' in (c :: d, r) else ([], s)
  | [] => ([], [])
  end.

(** The submatch of the pattern of a name: something, a dot and at least three digits. *)
Definition index_of_name (name : str) : option str :=
  let (d, r) := span_digits (rev name) in
  match r with
  | 46 :: c :: p => if (3 <=? length d)%nat && forallb (fun x => negb (x =? 10)) (c :: p) then Some (rev d) else None
  | _ => None
  end.

(** The loop over the entries of the directory, with the size of each. *)
Fixpoint info_loop (headBase : str) (fiz : list (str * Z)) (minI maxI total head : Z) : R (Z * Z * Z * Z) :=
  match fiz with
  | [] => Ok (minI, maxI, total, head)
  | (name, size) :: fiz' =>
      if str_eqb name headBase then info_loop headBase fiz' minI maxI (total + size) size
      else if HasPrefix name headBase then
        match index_of_name name with
        | Some d =>
            match Atoi d with
            | None => Panic
            | Some fileIndex =>
                info_loop headBase fiz'
                  (if (minI =? -1) || (fileIndex <? minI) then fileIndex else minI)
                  (if maxI <? fileIndex then fileIndex else maxI) (total + size) head
            end
        | None => info_loop headBase fiz' minI maxI (total + size) head
        end
      else info_loop headBase fiz' minI maxI total head
  end.

Definition Readdir (fs : FS) : list (str * Z) :=
  map (fun e : str * nat => (e.1, zlen (contents fs e.2))) (map_to_list (dir fs)).

Definition readGroupInfo (fs : FS) (headPath : str) : R GroupInfo :=
  let* (minI, maxI, total, head) := info_loop headPath (Readdir fs) (-1) (-1) 0 0 in
  let '(minI, maxI) := if minI =? -1 then (0, 0) else (minI, maxI + 1) in
  Ok {| MinIndex := minI; MaxIndex := maxI; TotalSize := total; HeadSize := head |}.

Definition OpenGroup (fs : FS) (headPath : str) : FS * R Group :=
  let (fs, head) := OpenAutoFile fs headPath in
  (fs, let* gInfo := readGroupInfo fs headPath in
       Ok {| Head := head; headBuf := []; headSizeLimit := defaultHeadSizeLimit; totalSizeLimit := defaultTotalSizeLimit;
             minIndex := MinIndex gInfo; maxIndex := MaxIndex gInfo |}).

Definition ReadGroupInfo (fs : FS) (g : Group) : R GroupInfo := readGroupInfo fs (Path (Head g)).

(** *** Writing *)

(** [bufio.Writer.Write]: the loop that writes while the data does not fit runs at most twice. *)
Definition Group_Write (fs : FS) (g : Group) (p : bytes) : FS * Group * Z :=
  let avail := headBufSize - zlen (headBuf g) in
  if zlen p <=? avail then (fs, with_head g (Head g) (headBuf g ++ p), zlen p)
  else
    match headBuf g with
    | [] => let (fs, h) := af_Write fs (Head g) p in (fs, with_head g h [], zlen p)
    | buf =>
        let n := Z.to_nat avail in
        let (fs, h) := af_Write fs (Head g) (buf ++ take n p) in
        let p' := drop n p in
        if zlen p' <=? headBufSize then (fs, with_head g h p', zlen p)
        else let (fs, h) := af_Write fs h p' in (fs, with_head g h [], zlen p)
    end.

Definition WriteLine (fs : FS) (g : Group) (line : str) : FS * Group := (Group_Write fs g (line ++ [10])).1.

Definition Flush (fs : FS) (g : Group) : FS * Group :=
  let (fs, h) := match headBuf g with [] => (fs, Head g) | buf => af_Write fs (Head g) buf end in
  let (fs, h) := af_Sync fs h in
  (fs, with_head g h []).

(** *** Limits *)

Definition SetHeadSizeLimit (g : Group) (limit : Z) : Group :=
  {| Head := Head g; headBuf := headBuf g; headSizeLimit := limit; totalSizeLimit := totalSizeLimit g;
     minIndex := minIndex g; maxIndex := maxIndex g |}.

Definition SetTotalSizeLimit (g : Group) (limit : Z) : Group :=
  {| Head := Head g; headBuf := headBuf g; headSizeLimit := headSizeLimit g; totalSizeLimit := limit;
     minIndex := minIndex g; maxIndex := maxIndex g |}.

(** The head is closed and gets its index; a missing head panics. *)
Definition RotateFile (fs : FS) (g : Group) : FS * Group * R unit :=
  let headPath := Path (Head g) in
  let h := af_closeFile (Head g) in
  match Rename fs headPath (filePathForIndex headPath (maxIndex g) (maxIndex g + 1)) with
  | None => (fs, with_head g h (headBuf g), Panic)
  | Some fs =>
      (fs, {| Head := h; headBuf := headBuf g; headSizeLimit := headSizeLimit g; totalSizeLimit := totalSizeLimit g;
              minIndex := minIndex g; maxIndex := maxIndex g + 1 |}, Ok tt)
  end.

Definition checkHeadSizeLimit (fs : FS) (g : Group) : FS * Group * R unit :=
  let limit := headSizeLimit g in
  if limit =? 0 then (fs, g, Ok tt)
  else
    let '(fs, h, size) := af_Size fs (Head g) in
    let g := with_head g h (headBuf g) in
    if limit <=? size then RotateFile fs g else (fs, g, Ok tt).

(** The loop over the oldest files, [n] of them from [index]. *)
Fixpoint remove_loop (n : nat) (fs : FS) (headPath : str) (index max totalSize limit : Z) : FS :=
  match n with
  | O => fs
  | S n' =>
      if totalSize <? limit then fs
      else if index =? max then fs
      else
        let pathToRemove := filePathForIndex headPath index max in
        match dir fs !! pathToRemove with
        | None => remove_loop n' fs headPath (index + 1) max totalSize limit
        | Some i => remove_loop n' (Remove fs pathToRemove) headPath (index + 1) max (totalSize - zlen (contents fs i)) limit
        end
  end.

Definition checkTotalSizeLimit (fs : FS) (g : Group) : R FS :=
  let limit := totalSizeLimit g in
  if limit =? 0 then Ok fs
  else
    let headPath := Path (Head g) in
    let* gInfo := readGroupInfo fs headPath in
    Ok (remove_loop maxFilesToRemove fs headPath (MinIndex gInfo) (MaxIndex gInfo) (TotalSize gInfo) limit).

(** ** GroupReader *)

(** The file that is read with the position in it, and the line that was pushed back. *)
Record GroupReader := { curIndex : Z; curFile : option (nat * nat); curLine : option str }.

Definition newGroupReader : GroupReader := {| curIndex := 0; curFile := None; curLine := None |}.

Definition gr_Close (gr : GroupReader) : GroupReader :=
  match curFile gr with Some _ => newGroupReader | None => gr end.

Section reader.
Context (fs : FS) (g : Group).

Definition gr_openFile (gr : GroupReader) (index : Z) : GroupReader * R unit :=
  if maxIndex g <? index then (gr, Err EOF)
  else
    match dir fs !! filePathForIndex (Path (Head g)) index (maxIndex g) with
    | None => (gr, Err NotExist)
    | Some i => ({| curIndex := index; curFile := Some (i, 0%nat); curLine := None |}, Ok tt)
    end.

Definition SetIndex := gr_openFile.
Definition CurIndex (gr : GroupReader) : Z := curIndex gr.

Definition NewReader (index : Z) : R GroupReader :=
  let (r, e) := SetIndex newGroupReader index in
  let* _ := e in Ok r.

(** Opens the file of the cursor when none is open. *)
Definition opened (gr : GroupReader) : GroupReader * R (nat * nat) :=
  match curFile gr with
  | Some c => (gr, Ok c)
  | None =>
      let (gr, e) := gr_openFile gr (curIndex gr) in
      (gr, let* _ := e in match curFile gr with Some c => Ok c | None => Panic end)
  end.

Definition at_pos (gr : GroupReader) (i pos : nat) : GroupReader :=
  {| curIndex := curIndex gr; curFile := Some (i, pos); curLine := curLine gr |}.

(** How often the loops of [Read] and [ReadLine] can go on to the next file. *)
Definition files_left (gr : GroupReader) : nat := Z.to_nat (maxIndex g - curIndex gr + 1).

(** The loop of [Read] for [n] more bytes: the bytes read, with the error. *)
Fixpoint read_loop (fuel : nat) (gr : GroupReader) (n : nat) (acc : bytes) : GroupReader * bytes * R unit :=
  match fuel with
  | O => (gr, acc, NoFuel)
  | S fuel' =>
      match curFile gr with
      | None => (gr, acc, Panic)
      | Some (i, pos) =>
          let chunk := take n (drop pos (contents fs i)) in
          let gr := at_pos gr i (pos + length chunk) in
          if (n <=? length chunk)%nat then (gr, acc ++ chunk, Ok tt)
          else
            match gr_openFile gr (curIndex gr + 1) with
            | (gr, Ok _) => read_loop fuel' gr (n - length chunk) (acc ++ chunk)
            | (gr, e) => (gr, acc ++ chunk, e)
            end
      end
  end.

(** [Read] into a slice of length [lenP]. *)
Definition gr_Read (gr : GroupReader) (lenP : nat) : GroupReader * bytes * R unit :=
  match lenP with
  | O => (gr, [], Err Empty_slice)
  | _ =>
      match opened gr with
      | (gr, Ok _) => read_loop (S (files_left gr)) gr lenP []
      | (gr, Err e) => (gr, [], Err e)
      | (gr, Panic) => (gr, [], Panic)
      | (gr, NoFuel) => (gr, [], NoFuel)
      end
  end.

(** [ReadBytes('\n')]: the bytes up to the first newline, without it; [None] at the end of the file. *)
Fixpoint split_line (s : bytes) : option bytes :=
  match s with
  | [] => None
  | c :: s' => if c =? 10 then Some [] else (cons c) <$> split_line s'
  end.

(** The loop of [ReadLine]; the bytes before the end of a file are lost when there is no next file. *)
Fixpoint line_loop (fuel : nat) (gr : GroupReader) (linePrefix : str) : GroupReader * R str :=
  match fuel with
  | O => (gr, NoFuel)
  | S fuel' =>
      match curFile gr with
      | None => (gr, Panic)
      | Some (i, pos) =>
          let rest := drop pos (contents fs i) in
          match split_line rest with
          | Some l => (at_pos gr i (pos + length l + 1), Ok (linePrefix ++ l))
          | None =>
              let gr := at_pos gr i (pos + length rest) in
              match gr_openFile gr (curIndex gr + 1) with
              | (gr, Ok _) => line_loop fuel' gr (linePrefix ++ rest)
              | (gr, e) => (gr, let* _ := e in Panic)
              end
          end
      end
  end.

Definition ReadLine (gr : GroupReader) : GroupReader * R str :=
  match curLine gr with
  | Some line => ({| curIndex := curIndex gr; curFile := curFile gr; curLine := None |}, Ok line)
  | None =>
      match opened gr with
      | (gr, Ok _) => line_loop (S (files_left gr)) gr []
      | (gr, e) => (gr, let* _ := e in Panic)
      end
  end.

Definition PushLine (gr : GroupReader) (line : str) : R GroupReader :=
  match curLine gr with
  | None => Ok {| curIndex := curIndex gr; curFile := curFile gr; curLine := Some line |}
  | Some _ => Panic
  end.

(** ** Searching *)

Definition file_bytes (index : Z) : bytes :=
  match dir fs !! filePathForIndex (Path (Head g)) index (maxIndex g) with Some i => contents fs i | None => [] end.

(** [ReadLine] takes at least one byte of the files. *)
Definition line_fuel : nat :=
  S (length (concat (map file_bytes (seqZ (minIndex g) (maxIndex g - minIndex g + 1))))).

Fixpoint scanNext (fuel : nat) (r : GroupReader) (prefix : str) : GroupReader * R (Z * str) :=
  match fuel with
  | O => (r, NoFuel)
  | S fuel' =>
      match ReadLine r with
      | (r, Ok line) =>
          if negb (HasPrefix line prefix) then scanNext fuel' r prefix
          else (r, Ok (CurIndex r, line))
      | (r, e) => (r, let* _ := e in Panic)
      end
  end.

(** -1 if the line comes before what is searched, 0 if it is it, 1 if it comes after. *)
Definition SearchFunc := str -> R Z.

Fixpoint scanUntil (fuel : nat) (r : GroupReader) (prefix : str) (cmp : SearchFunc) : GroupReader * R bool :=
  match fuel with
  | O => (r, NoFuel)
  | S fuel' =>
      match ReadLine r with
      | (r, Ok line) =>
          if negb (HasPrefix line prefix) then scanUntil fuel' r prefix cmp
          else
            match cmp line with
            | Ok val =>
                if val <? 0 then scanUntil fuel' r prefix cmp
                else match PushLine r line with Ok r => (r, Ok (val =? 0)) | e => (r, let* _ := e in Panic) end
            | e => (r, let* _ := e in Panic)
            end
      | (r, e) => (r, let* _ := e in Panic)
      end
  end.

(** The loop of [Search]: a reader and whether its next line is an exact match. *)
Fixpoint search_loop (fuel : nat) (prefix : str) (cmp : SearchFunc) (minI maxI : Z) : R (GroupReader * bool) :=
  match fuel with
  | O => NoFuel
  | S fuel' =>
      let curI := Z.quot (minI + maxI + 1) 2 in
      if minI =? maxI then
        let* r := NewReader maxI in
        let (r, m) := scanUntil line_fuel r prefix cmp in
        let* mtch := m in Ok (r, mtch)
      else
        let* r := NewReader curI in
        let* (foundIndex, line) := (scanNext line_fuel r prefix).2 in
        let* val := cmp line in
        if val <? 0 then search_loop fuel' prefix cmp foundIndex maxI
        else if val =? 0 then
          let* r := NewReader foundIndex in
          match scanUntil line_fuel r prefix cmp with
          | (r, Ok true) => Ok (r, true)
          | (_, NoFuel) => NoFuel
          | _ => Panic
          end
        else search_loop fuel' prefix cmp minI (curI - 1)
  end.

(** Each round of a search among sorted markers leaves fewer files. *)
Definition Search (prefix : str) (cmp : SearchFunc) : R (GroupReader * bool) :=
  search_loop (S (Z.to_nat (maxIndex g - minIndex g))) prefix cmp (minIndex g) (maxIndex g).

(** The lines of file [i], up to the first one that ends in a later file: the last one with the prefix. *)
Fixpoint last_loop (fuel : nat) (r : GroupReader) (prefix : str) (i : Z) (mtch : option str) : GroupReader * R (option str) :=
  match fuel with
  | O => (r, NoFuel)
  | S fuel' =>
      match ReadLine r with
      | (r, Ok line) =>
          let mtch := if HasPrefix line prefix then Some line else mtch in
          if i <? CurIndex r then (r, Ok mtch) else last_loop fuel' r prefix i mtch
      | (r, Err EOF) => (r, Ok mtch)
      | (r, e) => (r, let* _ := e in Panic)
      end
  end.

(** The files from [i] down, [n] of them. *)
Fixpoint find_loop (n : nat) (r : GroupReader) (prefix : str) (i : Z) : R (option str) :=
  match n with
  | O => Ok None
  | S n' =>
      let (r, e) := SetIndex r i in
      let* _ := e in
      let (r, m) := last_loop line_fuel r prefix i None in
      let* mtch := m in
      match mtch with
      | Some line => Ok (Some line)
      | None => find_loop n' r prefix (i - 1)
      end
  end.

(** [None]: not found. *)
Definition FindLast (prefix : str) : R (option str) :=
  let* r := NewReader (maxIndex g) in
  find_loop (Z.to_nat (maxIndex g - minIndex g + 1)) r prefix (maxIndex g).
End reader.

Definition MakeSimpleSearchFunc (prefix : str) (target : Z) : SearchFunc := fun line =>
  if negb (HasPrefix line prefix) then Err Bad_marker
  else
    match Atoi (drop (length prefix) line) with
    | None => Err Bad_marker
    | Some i => Ok (if target <? i then 1 else if target =? i then 0 else -1)
    end.
