(* ===== verification/AutofileSpec.v ===== *)
(** * Properties of rotating log files

    A group stores the bytes that are written to it, in order, over its files; readers give
    them back; searching finds marker lines. *)

From stdpp Require Import gmap list relations.
From S2P Require Import Prelude GoStrings GoText Autofile.

Local Open Scope Z_scope.

(** ** The files of a group *)

Section names.
Context (base : str).

(** The name of the rotated file [j]. *)
Definition name (j : Z) : str := base ++ [46] ++ fmt_0d 3 j.

Lemma path_name j m : j <> m -> filePathForIndex base j m = name j.
Proof. intros H. unfold filePathForIndex. by destruct (Z.eqb_spec j m). Qed.

Lemma path_head m : filePathForIndex base m m = base.
Proof. unfold filePathForIndex. by rewrite Z.eqb_refl. Qed.

Lemma name_inj i j : 0 <= i -> 0 <= j -> name i = name j -> i = j.
Proof. intros Hi Hj E. unfold name in E. apply app_inv_head in E. injection E as E. by eapply fmt_0d_inj. Qed.

Lemma name_base j : name j <> base.
Proof.
  intros E. apply (f_equal length) in E. unfold name in E. rewrite !length_app in E. cbn in E. lia.
Qed.
End names.

(** The bytes of the file with a name; none when there is no such file. *)
Definition fcontent (fs : FS) (p : str) : bytes := match dir fs !! p with Some i => contents fs i | None => [] end.

(** The directory is the group's own from file [lo] on: its rotated files and perhaps the head
    are the files whose names start with its name, and an open head is the file of that name. *)
Record group_ok (fs : FS) (g : Group) (lo : Z) : Prop := {
  ok_range : 0 <= lo <= maxIndex g;
  ok_files j : lo <= j < maxIndex g -> is_Some (dir fs !! name (Path (Head g)) j);
  ok_inodes p i : dir fs !! p = Some i -> (i < length (inodes fs))%nat;
  ok_links p q i : dir fs !! p = Some i -> dir fs !! q = Some i -> p = q;
  ok_own p i : dir fs !! p = Some i -> HasPrefix p (Path (Head g)) = true ->
    p = Path (Head g) \/ exists j, lo <= j < maxIndex g /\ p = name (Path (Head g)) j;
  ok_head i : file (Head g) = Some i -> dir fs !! Path (Head g) = Some i;
  ok_buf : zlen (headBuf g) <= headBufSize;
}.

(** What the files hold from file [i] on. *)
Definition stored (fs : FS) (g : Group) (i : Z) : bytes :=
  concat (map (fun j => fcontent fs (name (Path (Head g)) j)) (seqZ i (maxIndex g - i))) ++ fcontent fs (Path (Head g)).

(** ** Writing *)

(** Opening the head creates it when it is missing and changes no contents. *)
Lemma af_file_ok fs g lo : group_ok fs g lo ->
  let '(fs', h, i) := af_file fs (Head g) in
  h = {| Path := Path (Head g); file := Some i |} /\ dir fs' !! Path (Head g) = Some i /\
  (forall p, fcontent fs' p = fcontent fs p) /\ (forall p, p <> Path (Head g) -> dir fs' !! p = dir fs !! p) /\
  forall buf, zlen buf <= headBufSize -> group_ok fs' (with_head g h buf) lo.
Proof.
  intros []. unfold af_file. destruct (file (Head g)) as [i|] eqn:Ef.
  - destruct (Head g) as [base f] eqn:Eh. cbn in *. subst f. split; [done|]. split; [by apply ok_head0|]. split; [done|]. split; [done|].
    intros buf Hb. by split.
  - unfold af_openFile, open_append. destruct (dir fs !! Path (Head g)) as [i|] eqn:Ed; cbn.
    + split_and!; try done. intros buf Hb. split; cbn; try done. by intros ? [= ->].
    + set (n := length (inodes fs)). split_and!; try done.
      * by rewrite lookup_insert_eq.
      * intros p. unfold fcontent, contents. cbn. destruct (decide (p = Path (Head g))) as [->|N].
        -- rewrite lookup_insert_eq, Ed. cbn. by rewrite lookup_app_r, Nat.sub_diag by done.
        -- rewrite lookup_insert_ne by done. destruct (dir fs !! p) as [i|] eqn:E; [|done].
           by rewrite lookup_app_l by eauto.
      * intros p N. by rewrite lookup_insert_ne by done.
      * intros buf Hb. split; cbn; try done.
        -- intros j Hj. rewrite lookup_insert_ne by (intros E; by apply (name_base (Path (Head g)) j)). by apply ok_files0.
        -- intros p i. rewrite length_app. cbn. rewrite lookup_insert_Some. intros [[_ <-]|[_ E]]; [fold n; lia|].
           apply ok_inodes0 in E. lia.
        -- intros p q i. rewrite !lookup_insert_Some. intros [[<- <-]|[N1 E1]] [[<- E2]|[N2 E2]]; try done.
           ++ apply ok_inodes0 in E2. fold n in E2. lia.
           ++ subst i. apply ok_inodes0 in E1. fold n in E1. lia.
           ++ by eapply ok_links0.
        -- intros p i. rewrite lookup_insert_Some. intros [[<- _]|[_ E]]; [by left|]. by eapply ok_own0.
        -- intros i [= <-]. by rewrite lookup_insert_eq.
Qed.

Lemma contents_append fs i b j : (i < length (inodes fs))%nat ->
  contents (append fs i b) j = if decide (i = j) then contents fs j ++ b else contents fs j.
Proof.
  intros Hi. unfold contents, append. cbn. destruct (decide (i = j)) as [<-|N].
  - rewrite list_lookup_alter_eq. destruct (lookup_lt_is_Some_2 _ _ Hi) as [c ->]. done.
  - by rewrite list_lookup_alter_ne.
Qed.

Lemma af_Write_ok fs g lo b : group_ok fs g lo ->
  let (fs', h) := af_Write fs (Head g) b in
  Path h = Path (Head g) /\ fcontent fs' (Path (Head g)) = fcontent fs (Path (Head g)) ++ b /\
  (forall p, p <> Path (Head g) -> fcontent fs' p = fcontent fs p) /\
  forall buf, zlen buf <= headBufSize -> group_ok fs' (with_head g h buf) lo.
Proof.
  intros Hg. unfold af_Write. pose proof (af_file_ok fs g lo Hg) as H.
  destruct (af_file fs (Head g)) as [[fs1 h] i]. destruct H as (-> & Hd & Hc & Ho & Hk).
  pose proof (Hk [] ltac:(done)) as [_ _ Hi Hl _ _ _]. cbn in Hi, Hl. pose proof (Hi _ _ Hd) as Hlt.
  assert (forall p, fcontent (append fs1 i b) p = if decide (p = Path (Head g)) then fcontent fs p ++ b else fcontent fs p) as Hf.
  { intros p. rewrite <- Hc. unfold fcontent at 1. cbn [append dir]. destruct (dir fs1 !! p) as [j|] eqn:E.
    - rewrite contents_append by done. destruct (decide (p = Path (Head g))) as [->|N].
      + rewrite Hd in E. injection E as <-. rewrite decide_True by done. unfold fcontent. by rewrite Hd.
      + rewrite decide_False by (intros ->; by apply N, (Hl _ _ j)). unfold fcontent. by rewrite E.
    - rewrite decide_False by (intros ->; congruence). unfold fcontent. by rewrite E. }
  split_and!; [done|by rewrite Hf, decide_True|intros p N; by rewrite Hf, decide_False|].
  intros buf Hb. destruct (Hk buf Hb). split; try done. cbn in *. intros p j E. rewrite length_alter. by eapply ok_inodes0.
Qed.

(** Files do not change but for the head, so that neither does what is stored before it. *)
Lemma stored_head fs fs' g h buf i b :
  Path h = Path (Head g) -> fcontent fs' (Path (Head g)) = fcontent fs (Path (Head g)) ++ b ->
  (forall p, p <> Path (Head g) -> fcontent fs' p = fcontent fs p) ->
  stored fs' (with_head g h buf) i = stored fs g i ++ b.
Proof.
  intros Hp Hb Ho. unfold stored. cbn [Head with_head maxIndex]. rewrite Hp, Hb, app_assoc. f_equal. f_equal. f_equal.
  apply map_ext. intros j. apply Ho, name_base.
Qed.

Lemma with_head_same g : with_head g (Head g) (headBuf g) = g.
Proof. by destruct g. Qed.

Lemma group_ok_buf fs g lo buf : group_ok fs g lo -> zlen buf <= headBufSize -> group_ok fs (with_head g (Head g) buf) lo.
Proof. intros [] Hb. by split. Qed.

Lemma Group_Write_ok fs g lo p : group_ok fs g lo ->
  let '(fs', g', n) := Group_Write fs g p in
  group_ok fs' g' lo /\ n = zlen p /\ stored fs' g' lo ++ headBuf g' = stored fs g lo ++ headBuf g ++ p.
Proof.
  intros Hg. unfold Group_Write. destruct (Z.leb_spec (zlen p) (headBufSize - zlen (headBuf g))) as [Hp|Hp].
  { split_and!; [apply group_ok_buf; [done|zl]|done|]. unfold stored. cbn [headBuf with_head]. by rewrite !app_assoc. }
  pose proof (ok_buf _ _ _ Hg) as Hs. destruct (headBuf g) as [|b buf] eqn:Eb.
  { pose proof (af_Write_ok fs g lo p Hg) as H. destruct (af_Write fs (Head g) p) as [fs1 h]. destruct H as (Hh & Hc & Ho & Hk).
    split_and!; [by apply Hk|done|]. rewrite (stored_head fs fs1 g h [] lo p) by done. cbn. by rewrite app_nil_r. }
  rewrite <- Eb in *. set (n := Z.to_nat (headBufSize - zlen (headBuf g))).
  pose proof (af_Write_ok fs g lo (headBuf g ++ take n p) Hg) as H.
  destruct (af_Write fs (Head g) (headBuf g ++ take n p)) as [fs1 h]. destruct H as (Hh & Hc & Ho & Hk).
  assert (forall buf, stored fs1 (with_head g h buf) lo = stored fs g lo ++ headBuf g ++ take n p) as Es
    by (intros buf'; by apply (stored_head fs fs1)).
  destruct (Z.leb_spec (zlen (drop n p)) headBufSize) as [Hd|Hd].
  { split_and!; [by apply Hk|done|]. rewrite Es. cbn [headBuf with_head]. rewrite <- !app_assoc. by rewrite take_drop. }
  pose proof (af_Write_ok fs1 _ lo (drop n p) (Hk [] ltac:(done))) as H. cbn [Head with_head] in H.
  destruct (af_Write fs1 h (drop n p)) as [fs2 h2]. destruct H as (Hh2 & Hc2 & Ho2 & Hk2).
  split_and!; [by apply (Hk2 [])|done|]. change (with_head g h2 []) with (with_head (with_head g h []) h2 []).
  rewrite (stored_head fs1 fs2 (with_head g h []) h2 [] lo (drop n p)), Es by done. cbn [headBuf with_head].
  rewrite app_nil_r, <- !app_assoc. by rewrite take_drop.
Qed.

Lemma Flush_ok fs g lo : group_ok fs g lo ->
  let (fs', g') := Flush fs g in
  group_ok fs' g' lo /\ headBuf g' = [] /\ is_Some (dir fs' !! Path (Head g')) /\ stored fs' g' lo = stored fs g lo ++ headBuf g.
Proof.
  intros Hg. unfold Flush.
  assert (let (fs1, h) := match headBuf g with [] => (fs, Head g) | buf => af_Write fs (Head g) buf end in
    Path h = Path (Head g) /\ group_ok fs1 (with_head g h []) lo /\ stored fs1 (with_head g h []) lo = stored fs g lo ++ headBuf g) as H.
  { destruct (headBuf g) as [|b buf] eqn:Eb.
    - split_and!; [done|by apply group_ok_buf|]. by rewrite app_nil_r.
    - pose proof (af_Write_ok fs g lo (b :: buf) Hg) as H. destruct (af_Write fs (Head g) (b :: buf)) as [fs1 h].
      destruct H as (Hh & Hc & Ho & Hk). split_and!; [done|by apply Hk|]. by rewrite (stored_head fs fs1 g h [] lo (b :: buf)). }
  destruct (match headBuf g with [] => (fs, Head g) | buf => af_Write fs (Head g) buf end) as [fs1 h]. destruct H as (Hh & Hk & Es).
  unfold af_Sync. pose proof (af_file_ok fs1 _ lo Hk) as H. cbn [Head with_head] in H.
  destruct (af_file fs1 h) as [[fs2 h2] i]. destruct H as (-> & Hd & Hc & _ & Hk2). cbn [fst].
  split_and!; [by apply (Hk2 [])|done|cbn; by rewrite Hd|]. rewrite <- Es. unfold stored. cbn [Head with_head maxIndex Path].
  rewrite Hc. f_equal. f_equal. apply map_ext. intros j. apply Hc.
Qed.

Lemma seqZ_snoc lo n : 0 <= n -> seqZ lo (n + 1) = seqZ lo n ++ [lo + n].
Proof. intros H. by rewrite seqZ_app by lia. Qed.

Lemma RotateFile_ok fs g lo : group_ok fs g lo -> is_Some (dir fs !! Path (Head g)) ->
  let '(fs', g', r) := RotateFile fs g in
  r = Ok tt /\ group_ok fs' g' lo /\ headBuf g' = headBuf g /\ stored fs' g' lo = stored fs g lo /\
  maxIndex g' = maxIndex g + 1 /\ dir fs' !! Path (Head g') = None.
Proof.
  intros Hg [i Hi]. pose proof Hg as []. unfold RotateFile, Rename. rewrite Hi.
  rewrite path_name by lia. set (base := Path (Head g)) in *. set (m := maxIndex g) in *. cbn zeta.
  assert (name base m <> base) as Nb by apply name_base.
  assert (forall j, lo <= j < m -> name base j <> name base m) as Nm by (intros j Hj E; apply name_inj in E; lia).
  assert (forall p, p <> base -> p <> name base m -> <[name base m := i]> (delete base (dir fs)) !! p = dir fs !! p) as Hsame
    by (intros p N1 N2; by rewrite lookup_insert_ne, lookup_delete_ne by done).
  split_and!; try done; cbn [Head headBuf maxIndex Path af_closeFile].
  - split; cbn [Head headBuf maxIndex minIndex Path file af_closeFile dir inodes]; fold base; try done; [lia|..].
    + intros j Hj. destruct (decide (j = m)) as [->|]; [by rewrite lookup_insert_eq|].
      rewrite Hsame by (try apply name_base; apply Nm; lia). apply ok_files0. lia.
    + intros p j. rewrite lookup_insert_Some, lookup_delete_Some. intros [[_ <-]|[_ [_ E]]]; eauto.
    + intros p q j. rewrite !lookup_insert_Some, !lookup_delete_Some. intros [[<- <-]|(N1 & N2 & E1)] [[<- E2]|(N3 & N4 & E2)]; try done.
      * destruct N4. by eapply ok_links0.
      * subst j. destruct N2. by eapply ok_links0.
      * by eapply ok_links0.
    + intros p j. rewrite lookup_insert_Some, lookup_delete_Some. intros [[<- _]|(N1 & N2 & E)] Hp; [right; exists m; split; [lia|done]|].
      destruct (ok_own0 p j E Hp) as [->|(k & Hk & ->)]; [done|]. right. exists k. split; [lia|done].
  - unfold stored. cbn [Head maxIndex Path af_closeFile]. fold base m. replace (m + 1 - lo) with (m - lo + 1) by lia.
    rewrite seqZ_snoc, map_app, concat_app by lia. replace (lo + (m - lo)) with m by lia. cbn [map concat]. rewrite app_nil_r.
    assert (fcontent {| dir := <[name base m := i]> (delete base (dir fs)); inodes := inodes fs |} base = []) as ->.
    { unfold fcontent. cbn [dir]. by rewrite lookup_insert_ne, lookup_delete_eq by done. }
    assert (fcontent {| dir := <[name base m := i]> (delete base (dir fs)); inodes := inodes fs |} (name base m) = fcontent fs base) as ->.
    { unfold fcontent. cbn [dir]. by rewrite lookup_insert_eq, Hi. }
    rewrite app_nil_r. f_equal. f_equal. apply map_ext_in. intros j Hj%list_elem_of_In%elem_of_seqZ. unfold fcontent. cbn [dir].
    rewrite Hsame by (try apply name_base; apply Nm; lia). done.
  - cbn [dir]. fold base. by rewrite lookup_insert_ne, lookup_delete_eq by done.
Qed.

Lemma checkHeadSizeLimit_ok fs g lo : group_ok fs g lo ->
  let '(fs', g', r) := checkHeadSizeLimit fs g in
  r = Ok tt /\ group_ok fs' g' lo /\ headBuf g' = headBuf g /\ stored fs' g' lo = stored fs g lo.
Proof.
  intros Hg. unfold checkHeadSizeLimit. destruct (_ =? 0); [done|]. unfold af_Size.
  pose proof (af_file_ok fs g lo Hg) as H. destruct (af_file fs (Head g)) as [[fs1 h] i]. destruct H as (-> & Hd & Hc & _ & Hk).
  pose proof (Hk (headBuf g) (ok_buf _ _ _ Hg)) as Hk1.
  assert (stored fs1 (with_head g {| Path := Path (Head g); file := Some i |} (headBuf g)) lo = stored fs g lo) as Es.
  { unfold stored. cbn [Head with_head maxIndex Path]. rewrite Hc. f_equal. f_equal. apply map_ext. intros j. apply Hc. }
  destruct (_ <=? _); [|done]. set (g1 := with_head g _ _) in *. pose proof (RotateFile_ok fs1 g1 lo Hk1 ltac:(by cbn; rewrite Hd)) as H.
  destruct (RotateFile fs1 g1) as [[fs2 g2] r]. destruct H as (-> & ? & -> & -> & _). done.
Qed.

(** ** What a directory tells about its group *)

Lemma span_digits_app d r : Forall (fun c => is_digit c = true) d -> span_digits (d ++ 46 :: r) = (d, 46 :: r).
Proof. induction 1 as [|c d Hc Hd IH]; [done|]. cbn. by rewrite Hc, IH. Qed.

Lemma fmt_digits j : 0 <= j -> Forall (fun c => is_digit c = true) (fmt_0d 3 j) /\ (3 <= length (fmt_0d 3 j))%nat.
Proof.
  intros Hj. unfold fmt_0d, pad. destruct (Z.ltb_spec j 0); [lia|]. destruct (dec_nonneg_digits j Hj) as [Hd _].
  split; [|rewrite length_app, length_replicate; lia]. apply Forall_app. split; [|done]. by apply Forall_replicate.
Qed.

(** The names of rotated files are recognised and tell their index. *)
Lemma index_of_name_name base j : base <> [] -> 10 ∉ base -> 0 <= j -> index_of_name (name base j) = Some (fmt_0d 3 j).
Proof.
  intros Hb Hn Hj. destruct (fmt_digits j Hj) as [Hd Hl]. unfold index_of_name, name.
  rewrite !rev_app_distr, <- app_assoc. cbn [rev app]. rewrite span_digits_app by (by apply Forall_rev).
  destruct (rev base) as [|c p] eqn:E; [destruct base; [done|]; cbn in E; by apply app_eq_nil in E as []|].
  rewrite length_rev. destruct (Nat.leb_spec 3 (length (fmt_0d 3 j))); [|lia]. cbn [andb].
  assert (forallb (fun x => negb (x =? 10)) (c :: p) = true) as ->; [|by rewrite rev_involutive].
  apply forallb_forall. intros x Hx. destruct (Z.eqb_spec x 10) as [->|]; [|done].
  destruct Hn. apply list_elem_of_In, in_rev. by rewrite E.
Qed.

(** The entries of a directory: the head, a rotated file or a file with another name. *)
Inductive entry := EHead | EFile (j : Z) | EOther (p : str).

#[export] Instance entry_eq_dec : EqDecision entry.
Proof. solve_decision. Defined.

Section entries.
Context (base : str) (Hb : base <> []) (Hn : 10 ∉ base).

Definition entry_name (e : entry) : str :=
  match e with EHead => base | EFile j => name base j | EOther p => p end.

Definition entry_ok (e : entry) : Prop :=
  match e with EHead => True | EFile j => 0 <= j < 2 ^ 63 | EOther p => HasPrefix p base = false end.

Definition indices (es : list (entry * Z)) : list Z := omap (fun e : entry * Z => match e.1 with EFile j => Some j | _ => None end) es.
Fixpoint total (es : list (entry * Z)) : Z :=
  match es with [] => 0 | (EOther _, _) :: es' => total es' | (_, s) :: es' => s + total es' end.

Definition fold_min (js : list Z) (m : Z) : Z := foldl (fun m j => if (m =? -1) || (j <? m) then j else m) m js.
Definition fold_max (js : list Z) (m : Z) : Z := foldl (fun m j => if m <? j then j else m) m js.

Lemma info_loop_entries es : Forall entry_ok es.*1 -> forall mi ma t h, exists h',
  info_loop base (map (fun e : entry * Z => (entry_name e.1, e.2)) es) mi ma t h =
  Ok (fold_min (indices es) mi, fold_max (indices es) ma, t + total es, h') /\
  (forall s, (EHead, s) ∈ es -> (forall s', (EHead, s') ∈ es -> s' = s) -> h' = s) /\ ((forall s, (EHead, s) ∉ es) -> h' = h).
Proof.
  induction es as [|[e s] es IH]; intros He mi ma t h; cbn [map info_loop].
  { exists h. split; [cbn; by rewrite Z.add_0_r|]. split; [by intros s ?%elem_of_nil|done]. }
  inversion_clear He. cbn [fst] in *. destruct e as [|j|p]; cbn [entry_name fst snd].
  - rewrite str_eqb_refl. destruct (IH ltac:(done) mi ma (t + s) s) as (h' & E & H1 & H2). exists h'. rewrite E. split_and!.
    + cbn. by rewrite Z.add_assoc.
    + intros s' _ Hu. assert (s = s') as -> by (apply Hu; left).
      destruct (decide (Exists (fun e => e.1 = EHead) es)) as [Hx|Hx].
      * apply Exists_exists in Hx as ([? s''] & Hx & E'). cbn in E'. subst. assert (s'' = s') as -> by (apply Hu; by right).
        apply H1; [done|]. intros ? ?. apply Hu. by right.
      * apply H2. intros s'' Hs. apply Hx, Exists_exists. by exists (EHead, s'').
    + intros Hno. destruct (Hno s). left.
  - assert (str_eqb (name base j) base = false) as ->.
    { destruct (str_eqb _ _) eqn:E; [|done]. apply str_eqb_eq in E. by apply name_base in E. }
    unfold name at 1. rewrite HasPrefix_app, index_of_name_name, Atoi_fmt by (done || (cbn in H; lia)).
    edestruct (IH ltac:(done)) as (h' & E & H1 & H2). exists h'. rewrite E. split_and!.
    + cbn. by rewrite Z.add_assoc.
    + intros s' [?|Hs]%elem_of_cons Hu; [done|]. apply H1; [done|]. intros ? ?. apply Hu. by right.
    + intros Hno. apply H2. intros s' Hs. apply (Hno s'). by right.
  - assert (str_eqb p base = false) as ->.
    { destruct (str_eqb p base) eqn:E; [|done]. apply str_eqb_eq in E as ->. cbn in H. rewrite <- (app_nil_r base) in H at 1.
      by rewrite HasPrefix_app in H. }
    cbn in H. rewrite H. edestruct (IH ltac:(done)) as (h' & E & H1 & H2). exists h'. rewrite E. split_and!; [done|..].
    + intros s' [?|Hs]%elem_of_cons Hu; [done|]. apply H1; [done|]. intros ? ?. apply Hu. by right.
    + intros Hno. apply H2. intros s' Hs. apply (Hno s'). by right.
Qed.
End entries.

Lemma fold_min_spec js : forall m, (m = -1 \/ 0 <= m) -> Forall (fun j => 0 <= j) js ->
  let r := fold_min js m in
  (m = -1 /\ js = [] /\ r = -1) \/ (0 <= r /\ (r = m \/ r ∈ js) /\ (m <> -1 -> r <= m) /\ Forall (fun j => r <= j) js).
Proof.
  induction js as [|j js IH]; intros m Hm Hf; cbn [fold_min foldl].
  - destruct Hm as [->|?]; [by left|right]. by split_and!; [|left| |].
  - inversion_clear Hf. right. set (m' := if (m =? -1) || (j <? m) then j else m).
    assert (0 <= m' /\ m' <= j /\ (m <> -1 -> m' <= m) /\ (m' = m \/ m' = j)) as (H1 & H2 & H3 & H4).
    { unfold m'. destruct (Z.eqb_spec m (-1)), (Z.ltb_spec j m); cbn [orb]; lia. }
    destruct (IH m' ltac:(lia) ltac:(done)) as [(? & _)|(H5 & H6 & H7 & H8)]; [lia|]. fold (fold_min js m').
    specialize (H7 ltac:(lia)). split_and!; [done| |intros; specialize (H3 ltac:(done)); lia|constructor; [lia|done]].
    destruct H6 as [->|]; [destruct H4 as [->| ->]; [by left|right; left]|right; by right].
Qed.

Lemma fold_max_spec js : forall m, let r := fold_max js m in m <= r /\ (r = m \/ r ∈ js) /\ Forall (fun j => j <= r) js.
Proof.
  induction js as [|j js IH]; intros m; cbn [fold_max foldl]; [split_and!; [lia|by left|done]|].
  set (m' := if m <? j then j else m). destruct (IH m') as (H1 & H2 & H3). fold (fold_max js m').
  assert (m <= m' /\ j <= m' /\ (m' = m \/ m' = j)) as (? & ? & H4) by (unfold m'; destruct (Z.ltb_spec m j); lia).
  split_and!; [lia| |constructor; [lia|done]]. destruct H2 as [->|]; [destruct H4 as [->| ->]; [by left|right; left]|right; by right].
Qed.

Definition is_own (e : entry) : bool := match e with EOther _ => false | _ => true end.

Lemma total_perm es es' : es ≡ₚ es' -> total es = total es'.
Proof.
  induction 1 as [|[[] s] l l' H IH|[[] s] [[] s'] l|l1 l2 l3 H1 IH1 H2 IH2]; cbn [total] in *; try lia; congruence.
Qed.

Lemma indices_perm es es' : es ≡ₚ es' -> indices es ≡ₚ indices es'.
Proof. intros H. unfold indices. by rewrite H. Qed.

Lemma filter_total es : total (filter (fun e => is_own e.1 = true) es) = total es.
Proof.
  induction es as [|[[] s] es IH]; [done|..]; rewrite ?filter_cons_True, ?filter_cons_False by done; cbn [total indices omap list_omap fst] in *; rewrite ?IH; done.
Qed.

Lemma filter_indices es : indices (filter (fun e => is_own e.1 = true) es) = indices es.
Proof.
  unfold indices. induction es as [|[[] s] es IH]; [done|..]; rewrite ?filter_cons_True, ?filter_cons_False by done; cbn; by rewrite ?IH.
Qed.

Section directory.
Context (fs : FS) (g : Group) (lo : Z) (Hg : group_ok fs g lo) (Hm : maxIndex g <= 2 ^ 63).

(** The entries that belong to the group. *)
Definition own_entry (e : entry) : Prop :=
  entry_ok (Path (Head g)) e /\ is_Some (dir fs !! entry_name (Path (Head g)) e) /\
  match e with EFile j => lo <= j < maxIndex g | _ => True end.

Lemma entries_exist (l : list (str * nat)) : (forall p i, (p, i) ∈ l -> dir fs !! p = Some i) -> exists es : list (entry * Z),
  map (fun e : entry * Z => (entry_name (Path (Head g)) e.1, e.2)) es = map (fun e : str * nat => (e.1, zlen (contents fs e.2))) l /\
  Forall (fun e : entry * Z => own_entry e.1) es.
Proof.
  destruct Hg. induction l as [|[p i] l IH]; intros Hl; [by exists []|]. destruct IH as (es & E & F); [intros; apply Hl; by right|].
  pose proof (Hl p i ltac:(left)) as Ep. unfold own_entry. destruct (HasPrefix p (Path (Head g))) eqn:P.
  - destruct (ok_own0 p i Ep P) as [->|(j & Hj & ->)].
    + exists ((EHead, zlen (contents fs i)) :: es). split; [cbn; by rewrite E|]. constructor; [|done]. cbn. by rewrite Ep.
    + exists ((EFile j, zlen (contents fs i)) :: es). split; [cbn; by rewrite E|]. constructor; [|done]. cbn. rewrite Ep.
      split; [lia|]. split; [done|lia].
  - exists ((EOther p, zlen (contents fs i)) :: es). split; [cbn; by rewrite E|]. constructor; [|done]. cbn. by rewrite Ep.
Qed.

Lemma entry_name_inj e e' : own_entry e -> own_entry e' -> is_own e = true -> entry_name (Path (Head g)) e' = entry_name (Path (Head g)) e -> e' = e.
Proof.
  intros (_ & _ & Hj) (Hok & _ & Hj') Hk En. destruct Hg. set (base := Path (Head g)) in *.
  assert (forall s, HasPrefix (base ++ s) base = true) as Hp by apply HasPrefix_app.
  destruct e as [|j|p]; [..|done]; destruct e' as [|j'|p']; cbn in En, Hok; try done.
  - by apply name_base in En.
  - subst p'. specialize (Hp []). rewrite app_nil_r in Hp. congruence.
  - by apply eq_sym, name_base in En.
  - f_equal. eapply name_inj; [lia|lia|done].
  - subst p'. unfold name in Hok. by rewrite Hp in Hok.
Qed.

Definition own_entries : list entry :=
  match dir fs !! Path (Head g) with Some _ => [EHead] | None => [] end ++ map EFile (seqZ lo (maxIndex g - lo)).

Lemma own_entries_elem e : e ∈ own_entries <-> is_own e = true /\ own_entry e.
Proof.
  destruct Hg. unfold own_entries, own_entry. rewrite elem_of_app, list_elem_of_fmap. split.
  - intros [He|(j & -> & Hj%elem_of_seqZ)].
    + destruct (dir fs !! Path (Head g)) as [i|] eqn:E; [|by apply elem_of_nil in He]. apply list_elem_of_singleton in He as ->. cbn. by rewrite E.
    + split; [done|]. split; [cbn; lia|]. split; [apply ok_files0|]; lia.
  - intros (Hk & _ & [i Hi] & Hj). destruct e as [|j|p]; [left|right|done].
    + cbn in Hi. rewrite Hi. left.
    + exists j. split; [done|]. apply elem_of_seqZ. lia.
Qed.

Lemma own_entries_NoDup : NoDup own_entries.
Proof.
  unfold own_entries. apply NoDup_app. split; [destruct (dir fs !! _); repeat constructor; set_solver|].
  split; [|apply NoDup_fmap; [by intros ? ? [= ->]|apply NoDup_seqZ]].
  intros e He. destruct (dir fs !! _); [|by apply elem_of_nil in He]. apply list_elem_of_singleton in He as ->.
  rewrite list_elem_of_fmap. by intros (? & ? & _).
Qed.

(** The directory as entries: those of the group, with their sizes, are its files. *)
Lemma Readdir_entries : exists es,
  Readdir fs = map (fun e : entry * Z => (entry_name (Path (Head g)) e.1, e.2)) es /\ Forall (entry_ok (Path (Head g))) es.*1 /\
  filter (fun e => is_own e.1 = true) es ≡ₚ map (fun e => (e, zlen (fcontent fs (entry_name (Path (Head g)) e)))) own_entries.
Proof.
  destruct (entries_exist (map_to_list (dir fs))) as (es & E & F); [intros p i; apply elem_of_map_to_list|]. exists es.
  fold (Readdir fs) in E. split; [done|]. split; [apply Forall_fmap; eapply Forall_impl; [exact F|]; by intros ? [? _]|].
  rewrite Forall_forall in F. set (base := Path (Head g)) in *.
  assert (forall p s, (p, s) ∈ Readdir fs <-> exists i, dir fs !! p = Some i /\ s = zlen (contents fs i)) as Hr.
  { intros p s. unfold Readdir. rewrite list_elem_of_fmap. split.
    - intros ([q i] & [= -> ->] & Hi%elem_of_map_to_list). by exists i.
    - intros (i & Hi & ->). exists (p, i). split; [done|]. by apply elem_of_map_to_list. }
  assert (forall e s, (e, s) ∈ es -> s = zlen (fcontent fs (entry_name base e))) as Hsz.
  { intros e s He. destruct (proj1 (Hr (entry_name base e) s)) as (i & Hi & ->); [rewrite <- E; apply list_elem_of_fmap; by exists (e, s)|].
    unfold fcontent. by rewrite Hi. }
  assert (NoDup (map (fun e : entry * Z => entry_name base e.1) es)) as Hnd.
  { apply (f_equal (map fst)) in E. unfold Readdir in E. rewrite !map_map in E. cbn in E. rewrite E. apply NoDup_fst_map_to_list. }
  apply NoDup_Permutation; [apply NoDup_filter; by eapply NoDup_fmap_1|apply NoDup_fmap_2_strong; [by intros ? ? _ _ [= ->]|apply own_entries_NoDup]|].
  intros [e s]. rewrite list_elem_of_filter, list_elem_of_fmap. cbn [fst]. split.
  - intros [Hk He]. exists e. rewrite (Hsz e s He). split; [done|]. apply own_entries_elem. split; [done|]. apply (F _ He).
  - intros (e' & [= <- ->] & [Hk He]%own_entries_elem). split; [done|]. pose proof He as (_ & [i Hi] & _). fold base in Hi.
    assert ((entry_name base e, zlen (contents fs i)) ∈ Readdir fs) as Hin by (apply Hr; by exists i).
    rewrite <- E in Hin. apply list_elem_of_fmap in Hin as ([e' s] & [= En Es] & He'). cbn in En, Es. subst s.
    unfold fcontent. rewrite Hi. by rewrite <- (entry_name_inj e e' He (F _ He') Hk (eq_sym En)).
Qed.
End directory.

Lemma total_own fs g lo : total (map (fun e => (e, zlen (fcontent fs (entry_name (Path (Head g)) e)))) (own_entries fs g lo)) = zlen (stored fs g lo).
Proof.
  unfold own_entries, stored. rewrite map_app, zlen_app. set (base := Path (Head g)).
  assert (forall js, total (map (fun e => (e, zlen (fcontent fs (entry_name base e)))) (map EFile js)) =
    zlen (concat (map (fun j => fcontent fs (name base j)) js))) as H.
  { induction js as [|j js IH]; [done|]. cbn [map total concat entry_name]. by rewrite zlen_app, IH. }
  destruct (dir fs !! base) as [i|] eqn:E; cbn [map app total entry_name]; rewrite H; [lia|].
  unfold fcontent at 3. rewrite E. zl.
Qed.

Lemma indices_own fs g lo : indices (map (fun e => (e, zlen (fcontent fs (entry_name (Path (Head g)) e)))) (own_entries fs g lo)) = seqZ lo (maxIndex g - lo).
Proof.
  unfold own_entries, indices. rewrite map_app. assert (forall js, omap (fun e : entry * Z => match e.1 with EFile j => Some j | _ => None end)
    (map (fun e => (e, zlen (fcontent fs (entry_name (Path (Head g)) e)))) (map EFile js)) = js) as H.
  { induction js as [|j js IH]; [done|]. cbn. f_equal. exact IH. }
  destruct (dir fs !! Path (Head g)); cbn; apply H.
Qed.

(** The indices and sizes of a group as its directory tells them. *)
Lemma readGroupInfo_ok fs g lo : group_ok fs g lo -> maxIndex g <= 2 ^ 63 -> Path (Head g) <> [] -> 10 ∉ Path (Head g) ->
  exists head, readGroupInfo fs (Path (Head g)) =
    Ok {| MinIndex := if lo =? maxIndex g then 0 else lo; MaxIndex := if lo =? maxIndex g then 0 else maxIndex g;
          TotalSize := zlen (stored fs g lo); HeadSize := head |}.
Proof.
  intros Hg Hm Hb Hn. destruct (Readdir_entries fs g lo Hg Hm) as (es & Er & Hok & Hp).
  unfold readGroupInfo. rewrite Er. destruct (info_loop_entries (Path (Head g)) Hb Hn es Hok (-1) (-1) 0 0) as (h & -> & _).
  rewrite <- filter_total, (total_perm _ _ Hp), total_own. rewrite Z.add_0_l.
  apply indices_perm in Hp. rewrite filter_indices, indices_own in Hp. exists h. pose proof (ok_range _ _ _ Hg) as Hlo.
  assert (forall j, j ∈ indices es <-> lo <= j < maxIndex g) as Hj by (intros j; rewrite Hp, elem_of_seqZ; lia).
  assert (Forall (fun j => 0 <= j) (indices es)) as Hpos by (apply Forall_forall; intros j ?%Hj; lia).
  destruct (fold_min_spec (indices es) (-1) ltac:(by left) Hpos) as [(_ & Ee & ->)|(Hr0 & Hin & _ & Hall)].
  - rewrite Ee in Hj. cbn. destruct (Z.eqb_spec lo (maxIndex g)); [done|].
    pose proof (proj2 (Hj lo) ltac:(lia)) as K. by apply elem_of_nil in K.
  - destruct Hin as [?|Hin]; [lia|]. pose proof (proj1 (Hj _) Hin) as Hin'. destruct (Z.eqb_spec lo (maxIndex g)); [lia|].
    rewrite Forall_forall in Hall. pose proof (Hall lo (proj2 (Hj lo) ltac:(lia))) as Hle.
    destruct (Z.eqb_spec (fold_min (indices es) (-1)) (-1)); [lia|].
    destruct (fold_max_spec (indices es) (-1)) as (_ & Hmx & Hall'). rewrite Forall_forall in Hall'.
    pose proof (Hall' (maxIndex g - 1) (proj2 (Hj (maxIndex g - 1)) ltac:(lia))) as Hge.
    destruct Hmx as [?|Hmx%Hj]; [lia|]. repeat f_equal; lia.
Qed.

(** ** Removing the oldest files *)

Lemma stored_cons fs g lo : lo < maxIndex g -> stored fs g lo = fcontent fs (name (Path (Head g)) lo) ++ stored fs g (lo + 1).
Proof.
  intros H. unfold stored. rewrite seqZ_cons by lia. cbn [map concat]. rewrite <- app_assoc.
  by replace (Z.pred (maxIndex g - lo)) with (maxIndex g - (lo + 1)) by lia.
Qed.

Lemma stored_ext fs fs' g i :
  (forall p, p = Path (Head g) \/ (exists j, i <= j < maxIndex g /\ p = name (Path (Head g)) j) -> fcontent fs' p = fcontent fs p) ->
  stored fs' g i = stored fs g i.
Proof.
  intros H. unfold stored. rewrite (H (Path (Head g))) by (by left). f_equal. f_equal. apply map_ext_in.
  intros j Hj%list_elem_of_In%elem_of_seqZ. apply H. right. exists j. split; [lia|done].
Qed.

Lemma fs_Remove_ok fs g lo : group_ok fs g lo -> lo < maxIndex g ->
  let fs' := Remove fs (name (Path (Head g)) lo) in
  group_ok fs' g (lo + 1) /\ stored fs' g (lo + 1) = stored fs g (lo + 1) /\ forall p, p <> name (Path (Head g)) lo -> dir fs' !! p = dir fs !! p.
Proof.
  intros [] Hlt. cbv zeta. set (base := Path (Head g)) in *. set (p0 := name base lo).
  assert (forall p, p <> p0 -> dir (Remove fs p0) !! p = dir fs !! p) as Hd by (intros p N; cbn; by rewrite lookup_delete_ne).
  assert (forall j, lo < j -> name base j <> p0) as Nj by (intros j Hj E; apply name_inj in E; lia).
  split_and!; [| |done].
  - split; cbn [Remove dir inodes]; fold base; try done; [lia|..].
    + intros j Hj. rewrite lookup_delete_ne by (apply not_eq_sym, Nj; lia). apply ok_files0. lia.
    + intros p i. rewrite lookup_delete_Some. intros [_ E]. eauto.
    + intros p q i. rewrite !lookup_delete_Some. intros [_ E1] [_ E2]. eauto.
    + intros p i. rewrite lookup_delete_Some. intros [N E] Hp. destruct (ok_own0 p i E Hp) as [->|(j & Hj & ->)]; [by left|].
      right. exists j. split; [|done]. destruct (decide (j = lo)) as [->|]; [done|lia].
    + intros i Hi. rewrite lookup_delete_ne by apply name_base. by apply ok_head0.
  - apply stored_ext. intros p Hp. unfold fcontent. rewrite Hd; [done|].
    destruct Hp as [->|(j & Hj & ->)]; [intros E; by apply eq_sym, name_base in E|apply Nj; lia].
Qed.

(** Removing stops at the head, at the fourth file and as soon as the rest is below the limit. *)
Lemma remove_loop_ok n : forall fs g lo limit, group_ok fs g lo ->
  exists k, 0 <= k <= Z.of_nat n /\ lo + k <= maxIndex g /\
    let fs' := remove_loop n fs (Path (Head g)) lo (maxIndex g) (zlen (stored fs g lo)) limit in
    group_ok fs' g (lo + k) /\ stored fs' g (lo + k) = stored fs g (lo + k) /\ inodes fs' = inodes fs /\
    dir fs' !! Path (Head g) = dir fs !! Path (Head g) /\
    (zlen (stored fs g (lo + k)) < limit \/ k = Z.of_nat n \/ lo + k = maxIndex g) /\
    forall k', 0 <= k' < k -> limit <= zlen (stored fs g (lo + k')).
Proof.
  induction n as [|n IH]; intros fs g lo limit Hg; pose proof (ok_range _ _ _ Hg) as Hlo; cbn [remove_loop].
  - exists 0. rewrite Z.add_0_r. split_and!; try lia; try done.
  - destruct (Z.ltb_spec (zlen (stored fs g lo)) limit).
    { exists 0. rewrite Z.add_0_r. split_and!; try lia; try done. }
    destruct (Z.eqb_spec lo (maxIndex g)).
    { exists 0. rewrite Z.add_0_r. split_and!; try lia; try done. }
    rewrite path_name by done. destruct (ok_files _ _ _ Hg lo ltac:(lia)) as [i Hi]. rewrite Hi.
    destruct (fs_Remove_ok fs g lo Hg ltac:(lia)) as (Hg' & Es & Hd).
    assert (zlen (stored fs g lo) - zlen (contents fs i) = zlen (stored (Remove fs (name (Path (Head g)) lo)) g (lo + 1))) as ->.
    { rewrite Es, (stored_cons fs g lo) by lia. unfold fcontent. rewrite Hi. zl. }
    destruct (IH _ g (lo + 1) limit Hg') as (k & Hk & Hm & HH). cbv zeta in HH. destruct HH as (H1 & H2 & H3 & H4 & H5 & H6).
    assert (forall j, lo + 1 <= j -> stored (Remove fs (name (Path (Head g)) lo)) g j = stored fs g j) as Esj.
    { intros j Hj. apply stored_ext. intros p Hp. unfold fcontent. rewrite Hd; [done|].
      destruct Hp as [->|(j' & Hj' & ->)]; intros E; [by apply eq_sym, name_base in E|apply name_inj in E; lia]. }
    exists (k + 1). replace (lo + (k + 1)) with (lo + 1 + k) by lia. rewrite (Esj (lo + 1 + k)) in H2 by lia.
    split_and!; try lia; try done.
    + rewrite H4. apply Hd. intros E; symmetry in E; by apply name_base in E.
    + rewrite (Esj (lo + 1 + k)) in H5 by lia. destruct H5 as [?|[?|?]]; [by left|right; left; lia|by right; right].
    + intros k' Hk'. destruct (decide (k' = 0)) as [->|]; [by rewrite Z.add_0_r|].
      specialize (H6 (k' - 1) ltac:(lia)). rewrite Esj in H6 by lia. by replace (lo + 1 + (k' - 1)) with (lo + k') in H6 by lia.
Qed.

(** ** Sequences of operations *)

Inductive op :=
| OWrite (p : bytes) | OWriteLine (line : str) | OFlush | OTick | OCheckHead | ORotate | OHeadLimit (n : Z) | OTotalLimit (n : Z).

(** [OTick]: the ticker of the head closes its file. *)
Definition run_op (fs : FS) (g : Group) (o : op) : FS * Group * R unit :=
  match o with
  | OWrite p => ((Group_Write fs g p).1, Ok tt)
  | OWriteLine l => (WriteLine fs g l, Ok tt)
  | OFlush => (Flush fs g, Ok tt)
  | OTick => (fs, with_head g (af_closeFile (Head g)) (headBuf g), Ok tt)
  | OCheckHead => checkHeadSizeLimit fs g
  | ORotate => RotateFile fs g
  | OHeadLimit n => (fs, SetHeadSizeLimit g n, Ok tt)
  | OTotalLimit n => (fs, SetTotalSizeLimit g n, Ok tt)
  end.

Definition data (o : op) : bytes := match o with OWrite p => p | OWriteLine l => l ++ [10] | _ => [] end.

Fixpoint run (ops : list op) (fs : FS) (g : Group) : FS * Group * R unit :=
  match ops with
  | [] => (fs, g, Ok tt)
  | o :: ops' => match run_op fs g o with (fs, g, Ok _) => run ops' fs g | r => r end
  end.

Lemma run_op_ok fs g lo o : group_ok fs g lo ->
  match run_op fs g o with
  | (fs', g', Ok _) => group_ok fs' g' lo /\ stored fs' g' lo ++ headBuf g' = stored fs g lo ++ headBuf g ++ data o
  | (fs', g', Panic) => o = ORotate /\ dir fs' !! Path (Head g') = None
  | _ => False
  end.
Proof.
  intros Hg. destruct o as [p|l| | | | |n|n]; cbn [run_op data]; rewrite ?app_nil_r.
  - pose proof (Group_Write_ok fs g lo p Hg) as H. destruct (Group_Write fs g p) as [[fs' g'] n]. by destruct H as (? & _ & ?).
  - unfold WriteLine. pose proof (Group_Write_ok fs g lo (l ++ [10]) Hg) as H.
    destruct (Group_Write fs g (l ++ [10])) as [[fs' g'] n]. by destruct H as (? & _ & ?).
  - pose proof (Flush_ok fs g lo Hg) as H. destruct (Flush fs g) as [fs' g']. destruct H as (? & -> & _ & ->). by rewrite app_nil_r.
  - split; [|done]. destruct Hg. by split.
  - pose proof (checkHeadSizeLimit_ok fs g lo Hg) as H. destruct (checkHeadSizeLimit fs g) as [[fs' g'] r].
    by destruct H as (-> & ? & -> & ->).
  - destruct (dir fs !! Path (Head g)) as [i|] eqn:E.
    + pose proof (RotateFile_ok fs g lo Hg ltac:(by rewrite E)) as H. destruct (RotateFile fs g) as [[fs' g'] r].
      by destruct H as (-> & ? & -> & -> & _).
    + unfold RotateFile, Rename. rewrite E. done.
  - split; [|done]. destruct Hg. by split.
  - split; [|done]. destruct Hg. by split.
Qed.

Lemma group_run_ok ops : forall fs g lo, group_ok fs g lo ->
  match run ops fs g with
  | (fs', g', Ok _) => group_ok fs' g' lo /\ stored fs' g' lo ++ headBuf g' = stored fs g lo ++ headBuf g ++ concat (map data ops)
  | (fs', g', Panic) => ORotate ∈ ops /\ dir fs' !! Path (Head g') = None
  | _ => False
  end.
Proof.
  induction ops as [|o ops IH]; intros fs g lo Hg; cbn [run map concat]; [by rewrite app_nil_r|].
  pose proof (run_op_ok fs g lo o Hg) as H. destruct (run_op fs g o) as [[fs1 g1] [u|e| |]]; try done.
  - destruct H as [H1 E]. specialize (IH fs1 g1 lo H1). destruct (run ops fs1 g1) as [[fs2 g2] [|e| |]]; try done.
    + destruct IH as [? ->]. split; [done|]. by rewrite app_assoc, E, <- !app_assoc.
    + destruct IH as [? ?]. split; [by right|done].
  - destruct H as [-> ?]. split; [left|done].
Qed.

(** ** Opening *)

Definition empty_dir : FS := {| dir := ∅; inodes := [] |}.

Lemma OpenGroup_ok fs g lo : group_ok fs g lo -> maxIndex g <= 2 ^ 63 -> Path (Head g) <> [] -> 10 ∉ Path (Head g) ->
  exists fs' g', OpenGroup fs (Path (Head g)) = (fs', Ok g') /\ Path (Head g') = Path (Head g) /\ headBuf g' = [] /\
    minIndex g' = (if lo =? maxIndex g then 0 else lo) /\ maxIndex g' = (if lo =? maxIndex g then 0 else maxIndex g) /\
    group_ok fs' g' (if lo =? maxIndex g then 0 else lo) /\ stored fs' g' (minIndex g') = stored fs g lo.
Proof.
  intros Hg Hm Hb Hn. set (g0 := with_head g (af_closeFile (Head g)) []).
  assert (group_ok fs g0 lo) as Hg0 by (destruct Hg; by split). pose proof (af_file_ok fs g0 lo Hg0) as H.
  unfold OpenGroup, OpenAutoFile.
  change (af_file fs (Head g0)) with (af_openFile fs {| Path := Path (Head g); file := None |}) in H.
  change (Path (Head g0)) with (Path (Head g)) in H.
  destruct (af_openFile fs {| Path := Path (Head g); file := None |}) as [[fs' h] i]. destruct H as (-> & Hd & Hc & _ & Hk).
  specialize (Hk [] ltac:(done)). set (g1 := with_head _ _ _) in Hk. cbn [fst].
  destruct (readGroupInfo_ok fs' g1 lo Hk Hm Hb Hn) as [hs E]. change (Path (Head g1)) with (Path (Head g)) in E.
  rewrite E. cbn [MinIndex MaxIndex]. change (maxIndex g1) with (maxIndex g).
  assert (stored fs' g1 lo = stored fs g lo) as Es by (apply (stored_ext fs fs' g); intros; apply Hc).
  eexists fs', _. split; [reflexivity|]. cbn [Head headBuf minIndex maxIndex Path]. split_and!; try done.
  - pose proof Hk as []. destruct (Z.eqb_spec lo (maxIndex g)) as [El|]; [|by split].
    split; cbn in *; try done; try (intros; lia). intros p j Ep Hp. destruct (ok_own0 p j Ep Hp) as [?|(? & ? & _)]; [by left|lia].
  - rewrite <- Es. unfold stored. cbn [Head maxIndex Path]. destruct (Z.eqb_spec lo (maxIndex g)) as [->|]; [|done].
    change (maxIndex g1) with (maxIndex g). by rewrite !Z.sub_diag.
Qed.

Lemma empty_group_ok base : group_ok empty_dir {| Head := {| Path := base; file := None |}; headBuf := []; headSizeLimit := 0; totalSizeLimit := 0; minIndex := 0; maxIndex := 0 |} 0.
Proof. split; cbn; try done; intros; lia. Qed.

(** ** Reading *)

(** What a reader that opens file [i] reads. *)
Definition from (fs : FS) (g : Group) (i : Z) : bytes := if maxIndex g <? i then [] else stored fs g i.

Definition path (g : Group) (i : Z) : str := filePathForIndex (Path (Head g)) i (maxIndex g).

(** The reader has a file of the group open. *)
Definition reader_ok (fs : FS) (g : Group) (lo : Z) (gr : GroupReader) : Prop :=
  lo <= curIndex gr <= maxIndex g /\ exists i pos, curFile gr = Some (i, pos) /\ dir fs !! path g (curIndex gr) = Some i /\
    (pos <= length (contents fs i))%nat.

(** The bytes a reader has still to give, but for a pushed line. *)
Definition remaining (fs : FS) (g : Group) (gr : GroupReader) : bytes :=
  match curFile gr with
  | Some (i, pos) => drop pos (contents fs i) ++ from fs g (curIndex gr + 1)
  | None => []
  end.

Section readers.
Context (fs : FS) (g : Group) (lo : Z) (Hg : group_ok fs g lo) (Hh : is_Some (dir fs !! Path (Head g))).

Lemma path_exists i : lo <= i <= maxIndex g -> exists n, dir fs !! path g i = Some n /\ from fs g i = contents fs n ++ from fs g (i + 1).
Proof.
  intros Hi. unfold path, from. destruct (Z.ltb_spec (maxIndex g) i); [lia|]. destruct (decide (i = maxIndex g)) as [->|Ne].
  - destruct Hh as [n Hn]. exists n. rewrite path_head. split; [done|]. destruct (Z.ltb_spec (maxIndex g) (maxIndex g + 1)); [|lia].
    rewrite app_nil_r. unfold stored, fcontent. by rewrite Z.sub_diag, Hn.
  - destruct (ok_files _ _ _ Hg i ltac:(lia)) as [n Hn]. exists n. rewrite path_name by done. split; [done|].
    destruct (Z.ltb_spec (maxIndex g) (i + 1)); [lia|]. rewrite stored_cons by lia. unfold fcontent. by rewrite Hn.
Qed.

Lemma openFile_ok gr i : lo <= i <= maxIndex g -> exists gr', gr_openFile fs g gr i = (gr', Ok tt) /\
  reader_ok fs g lo gr' /\ remaining fs g gr' = from fs g i /\ curIndex gr' = i /\ curLine gr' = None.
Proof.
  intros Hi. destruct (path_exists i Hi) as (n & Hn & Ef). unfold gr_openFile. destruct (Z.ltb_spec (maxIndex g) i); [lia|].
  unfold path in Hn. rewrite Hn. eexists. split; [done|]. split; [|by rewrite Ef]. split; [done|].
  eexists n, 0%nat. split; [done|]. split; [done|lia].
Qed.

Lemma openFile_end gr : gr_openFile fs g gr (maxIndex g + 1) = (gr, Err EOF).
Proof. unfold gr_openFile. by destruct (Z.ltb_spec (maxIndex g) (maxIndex g + 1)); [|lia]. Qed.

Lemma from_end : from fs g (maxIndex g + 1) = [].
Proof. unfold from. by destruct (Z.ltb_spec (maxIndex g) (maxIndex g + 1)); [|lia]. Qed.

Lemma split_line_spec s : match split_line s with
  | Some l => exists k, s = l ++ 10 :: k /\ 10 ∉ l
  | None => 10 ∉ s
  end.
Proof.
  induction s as [|c s IH]; cbn [split_line]; [apply not_elem_of_nil|]. destruct (Z.eqb_spec c 10) as [->|N].
  - exists s. split; [done|apply not_elem_of_nil].
  - destruct (split_line s) as [l|]; cbn.
    + destruct IH as (k & -> & Hl). exists k. split; [done|]. by apply not_elem_of_cons.
    + by apply not_elem_of_cons.
Qed.

Lemma split_line_app l k : 10 ∉ l -> split_line (l ++ 10 :: k) = Some l.
Proof.
  induction l as [|c l IH]; intros H; [done|]. apply not_elem_of_cons in H as [N H]. cbn. destruct (Z.eqb_spec c 10); [done|].
  by rewrite IH.
Qed.

Lemma split_line_none s k : 10 ∉ s -> split_line (s ++ k) = (app s) <$> split_line k.
Proof.
  induction s as [|c s IH]; intros H; [cbn; by destruct (split_line k)|]. apply not_elem_of_cons in H as [N H]. cbn.
  destruct (Z.eqb_spec c 10); [done|]. rewrite IH by done. by destruct (split_line k).
Qed.

Lemma at_pos_ok gr i pos : lo <= curIndex gr <= maxIndex g -> dir fs !! path g (curIndex gr) = Some i ->
  (pos <= length (contents fs i))%nat -> reader_ok fs g lo (at_pos gr i pos) /\
  remaining fs g (at_pos gr i pos) = drop pos (contents fs i) ++ from fs g (curIndex gr + 1).
Proof. intros Hc Hd Hp. split; [|done]. split; [done|]. by exists i, pos. Qed.

Lemma line_loop_ok fuel : forall gr pre, reader_ok fs g lo gr -> (files_left g gr < fuel)%nat ->
  match split_line (remaining fs g gr) with
  | Some l => exists gr', line_loop fs g fuel gr pre = (gr', Ok (pre ++ l)) /\ reader_ok fs g lo gr' /\ curIndex gr <= curIndex gr' /\
      remaining fs g gr = l ++ 10 :: remaining fs g gr' /\ (curLine gr = None -> curLine gr' = None)
  | None => exists gr', line_loop fs g fuel gr pre = (gr', Err EOF) /\ reader_ok fs g lo gr' /\ remaining fs g gr' = []
  end.
Proof.
  induction fuel as [|f IH]; intros gr pre Hr Hf; [lia|]. destruct Hr as (Hc & i & pos & Ec & Hd & Hp).
  unfold remaining at 1 2. rewrite Ec. cbn [line_loop]. rewrite Ec. set (rest := drop pos (contents fs i)).
  assert (length rest = length (contents fs i) - pos)%nat as Lr by (unfold rest; by rewrite length_drop).
  pose proof (split_line_spec rest) as Hs. destruct (split_line rest) as [l|] eqn:El.
  - destruct Hs as (k & Erest & Hl). rewrite Erest, <- app_assoc. cbn [app]. rewrite split_line_app by done.
    assert (pos + length l + 1 <= length (contents fs i))%nat as Hle by (rewrite Erest in Lr; rewrite length_app in Lr; cbn in Lr; lia).
    destruct (at_pos_ok gr i _ Hc Hd Hle) as [Hok Erem]. eexists. split; [done|]. split; [done|]. split; [done|]. split; [|done].
    rewrite Erem. do 2 f_equal. f_equal. replace (pos + length l + 1)%nat with (pos + (length l + 1))%nat by lia. rewrite <- drop_drop. fold rest. rewrite Erest.
    change (l ++ 10 :: k) with (l ++ [10] ++ k). rewrite app_assoc, drop_app_length'; [done|]. rewrite length_app. cbn. lia.
  - rewrite split_line_none by done. destruct (at_pos_ok gr i (pos + length rest) Hc Hd ltac:(lia)) as [Hok Erem].
    change (curIndex (at_pos gr i (pos + length rest))) with (curIndex gr). destruct (decide (curIndex gr = maxIndex g)) as [Em|].
    + rewrite Em, openFile_end, from_end. cbn. eexists. split; [done|]. split; [done|]. rewrite Erem, Em, from_end, app_nil_r.
      apply drop_ge. lia.
    + destruct (openFile_ok (at_pos gr i (pos + length rest)) (curIndex gr + 1) ltac:(lia)) as (gr' & -> & Hr' & Er' & Ei' & El').
      specialize (IH gr' (pre ++ rest) Hr' ltac:(unfold files_left in *; lia)). rewrite Er' in IH.
      destruct (split_line (from fs g (curIndex gr + 1))) as [l|]; cbn.
      * destruct IH as (gr'' & -> & H1 & H2 & H3 & H4). exists gr''. rewrite <- !app_assoc. split; [done|]. split; [done|].
        split; [lia|]. split; [by rewrite H3|]. intros _. by apply H4.
      * destruct IH as (gr'' & -> & H1 & H2). by exists gr''.
Qed.

Lemma ReadLine_ok gr : reader_ok fs g lo gr -> curLine gr = None ->
  match split_line (remaining fs g gr) with
  | Some l => exists gr', ReadLine fs g gr = (gr', Ok l) /\ reader_ok fs g lo gr' /\ curIndex gr <= curIndex gr' /\
      remaining fs g gr = l ++ 10 :: remaining fs g gr' /\ curLine gr' = None
  | None => exists gr', ReadLine fs g gr = (gr', Err EOF) /\ reader_ok fs g lo gr' /\ remaining fs g gr' = []
  end.
Proof.
  intros Hr El. pose proof (line_loop_ok (S (files_left g gr)) gr [] Hr ltac:(lia)) as H. unfold ReadLine, opened. rewrite El.
  destruct Hr as (_ & i & pos & Ec & _). rewrite Ec. destruct (split_line _) as [l|]; [|done].
  destruct H as (gr' & ? & ? & ? & ? & Hn). exists gr'. split_and!; try done. by apply Hn.
Qed.

Lemma read_loop_ok fuel : forall gr n acc, reader_ok fs g lo gr -> (files_left g gr < fuel)%nat ->
  exists gr', read_loop fs g fuel gr n acc =
    (gr', acc ++ take n (remaining fs g gr), if (n <=? length (remaining fs g gr))%nat then Ok tt else Err EOF) /\
    reader_ok fs g lo gr' /\ remaining fs g gr' = drop n (remaining fs g gr).
Proof.
  induction fuel as [|f IH]; intros gr n acc Hr Hf; [lia|]. destruct Hr as (Hc & i & pos & Ec & Hd & Hp).
  unfold remaining. rewrite Ec. cbn [read_loop]. rewrite Ec. set (rest := drop pos (contents fs i)).
  assert (length rest = length (contents fs i) - pos)%nat as Lr by (unfold rest; by rewrite length_drop).
  rewrite length_take, length_app. destruct (at_pos_ok gr i (pos + Nat.min n (length rest)) Hc Hd ltac:(lia)) as [Hok Erem].
  assert (drop (pos + Nat.min n (length rest)) (contents fs i) = drop n rest) as Ed.
  { rewrite <- drop_drop. fold rest. destruct (Nat.le_ge_cases n (length rest)); [by rewrite Nat.min_l by lia|].
    rewrite Nat.min_r, !drop_ge by lia. done. }
  rewrite Ed in Erem. destruct (Nat.leb_spec n (Nat.min n (length rest))) as [Hn|Hn].
  - eexists. rewrite take_app_le by lia. destruct (Nat.leb_spec n (length rest + length (from fs g (curIndex gr + 1)))); [|lia].
    split; [done|]. split; [done|]. change (remaining fs g (at_pos gr i (pos + Nat.min n (length rest))) = drop n (rest ++ from fs g (curIndex gr + 1))). rewrite Erem. by rewrite drop_app_le by lia.
  - rewrite Nat.min_r in * by lia. rewrite (drop_ge rest) in * by lia. rewrite take_ge by (rewrite ?length_take; lia).
    change (curIndex (at_pos gr i (pos + length rest))) with (curIndex gr). destruct (decide (curIndex gr = maxIndex g)) as [Em|].
    + rewrite Em, openFile_end, from_end, app_nil_r. cbn [length]. destruct (Nat.leb_spec n (length rest + 0)); [lia|].
      eexists. rewrite (take_ge rest) by lia. split; [done|]. split; [done|].
      change (remaining fs g (at_pos gr i (pos + length rest)) = drop n rest). rewrite Erem, Em, from_end, drop_ge by lia. done.
    + destruct (openFile_ok (at_pos gr i (pos + length rest)) (curIndex gr + 1) ltac:(lia)) as (gr' & -> & Hr' & Er' & Ei' & _).
      destruct (IH gr' (n - length rest)%nat (acc ++ rest) Hr' ltac:(unfold files_left in *; lia)) as (gr'' & -> & Hr'' & Er'').
      exists gr''. rewrite Er' in *. split; [|split; [done|]].
      * rewrite take_app_ge, app_assoc by lia. destruct (Nat.leb_spec (n - length rest) (length (from fs g (curIndex gr + 1)))),
          (Nat.leb_spec n (length rest + length (from fs g (curIndex gr + 1)))); try lia; done.
      * change (remaining fs g gr'' = drop n (rest ++ from fs g (curIndex gr + 1))). by rewrite Er'', drop_app_ge by lia.
Qed.

Lemma Read_ok gr n : reader_ok fs g lo gr -> (0 < n)%nat -> exists gr',
  gr_Read fs g gr n = (gr', take n (remaining fs g gr), if (n <=? length (remaining fs g gr))%nat then Ok tt else Err EOF) /\
  reader_ok fs g lo gr' /\ remaining fs g gr' = drop n (remaining fs g gr).
Proof.
  intros Hr Hn. destruct (read_loop_ok (S (files_left g gr)) gr n [] Hr ltac:(lia)) as (gr' & E & H). exists gr'. split; [|done].
  unfold gr_Read, opened. destruct n; [lia|]. destruct Hr as (_ & i & pos & Ec & _). rewrite Ec. exact E.
Qed.

Lemma NewReader_ok i : lo <= i <= maxIndex g -> exists gr, NewReader fs g i = Ok gr /\ reader_ok fs g lo gr /\
  remaining fs g gr = stored fs g i /\ curIndex gr = i /\ curLine gr = None.
Proof.
  intros Hi. destruct (openFile_ok newGroupReader i Hi) as (gr & E & H1 & H2 & H3 & H4). exists gr.
  unfold NewReader, SetIndex. rewrite E. split_and!; try done. rewrite H2. unfold from. by destruct (Z.ltb_spec (maxIndex g) i); [lia|].
Qed.
End readers.

(** ** Reading while the group is written *)

(** Files keep their indices and only grow, rotated ones do not change. *)
Record extends (lo : Z) (fs : FS) (g : Group) (fs' : FS) (g' : Group) : Prop := {
  ext_path : Path (Head g') = Path (Head g);
  ext_max : maxIndex g <= maxIndex g';
  ext_dir j i : lo <= j <= maxIndex g -> dir fs !! path g j = Some i -> dir fs' !! path g' j = Some i;
  ext_grow i : exists k, contents fs' i = contents fs i ++ k;
  ext_old j : lo <= j < maxIndex g -> fcontent fs' (name (Path (Head g)) j) = fcontent fs (name (Path (Head g)) j);
}.

Lemma ext_trans lo fs g fs1 g1 fs2 g2 : extends lo fs g fs1 g1 -> extends lo fs1 g1 fs2 g2 -> extends lo fs g fs2 g2.
Proof.
  intros [] []. split; [congruence|lia|..].
  - intros j i Hj E. apply ext_dir1; [lia|]. by apply ext_dir0.
  - intros i. destruct (ext_grow0 i) as [k Ek], (ext_grow1 i) as [k' Ek']. exists (k ++ k'). by rewrite Ek', Ek, app_assoc.
  - intros j Hj. rewrite <- ext_old0 by lia. rewrite <- ext_path0. apply ext_old1. lia.
Qed.

(** An operation on the group that changes no index and only appends to the head. *)
Lemma extends_head lo fs g fs' h buf : Path h = Path (Head g) ->
  (forall p i, dir fs !! p = Some i -> dir fs' !! p = Some i) -> (forall i, exists k, contents fs' i = contents fs i ++ k) ->
  (forall p, p <> Path (Head g) -> fcontent fs' p = fcontent fs p) -> extends lo fs g fs' (with_head g h buf).
Proof.
  intros Hp Hd Hg Ho. split; cbn; [done|lia| |done|].
  - intros j i _ E. unfold path in *. cbn. rewrite Hp. by apply Hd.
  - intros j _. apply Ho, name_base.
Qed.

Lemma af_file_extends fs af :
  let '(fs', h, _) := af_file fs af in Path h = Path af /\
  (forall p i, dir fs !! p = Some i -> dir fs' !! p = Some i) /\ (forall i, contents fs' i = contents fs i).
Proof.
  unfold af_file, af_openFile, open_append. destruct (file af); [done|]. destruct (dir fs !! Path af) eqn:E; [done|]. cbn.
  split_and!; [done|intros p i Ep; rewrite lookup_insert_ne by congruence; done|].
  intros i. unfold contents. cbn. destruct (decide (i < length (inodes fs))%nat); [by rewrite lookup_app_l|].
  rewrite lookup_app_r, (lookup_ge_None_2 (inodes fs)) by lia. by destruct (i - length (inodes fs))%nat as [|[]].
Qed.

Lemma af_Write_extends lo fs g b buf : group_ok fs g lo ->
  let (fs', h) := af_Write fs (Head g) b in extends lo fs g fs' (with_head g h buf).
Proof.
  intros Hg. pose proof (af_Write_ok fs g lo b Hg) as H. pose proof (af_file_extends fs (Head g)) as He. unfold af_Write in *.
  destruct (af_file fs (Head g)) as [[fs1 h] i]. destruct H as (Hp & _ & Ho & _). destruct He as (_ & Hd & Hc).
  apply extends_head; [done|done| |done]. intros j. rewrite <- Hc. unfold contents, append. cbn.
  destruct (decide (i = j)) as [<-|].
  - rewrite list_lookup_alter_eq. destruct (inodes fs1 !! i); cbn; [by exists b|by exists []].
  - rewrite list_lookup_alter_ne by done. exists []. by rewrite app_nil_r.
Qed.

Lemma extends_same lo fs g g' : Path (Head g') = Path (Head g) -> maxIndex g' = maxIndex g -> extends lo fs g fs g'.
Proof.
  intros Hp Hm. split; [done|lia| |intros i; exists []; by rewrite app_nil_r|done].
  intros j i _. unfold path. by rewrite Hp, Hm.
Qed.

Lemma af_file_group lo fs g buf : group_ok fs g lo -> let '(fs', h, _) := af_file fs (Head g) in extends lo fs g fs' (with_head g h buf).
Proof.
  intros Hg. pose proof (af_file_extends fs (Head g)) as H. pose proof (af_file_ok fs g lo Hg) as Hok.
  destruct (af_file fs (Head g)) as [[fs1 h] i]. destruct H as (Hp & Hd & Hc). destruct Hok as (_ & _ & Ho & _).
  apply extends_head; [done|done|intros j; exists []; by rewrite app_nil_r|by intros p _].
Qed.

Lemma Group_Write_extends lo fs g p : group_ok fs g lo -> let '(fs', g', _) := Group_Write fs g p in extends lo fs g fs' g'.
Proof.
  intros Hg. unfold Group_Write. destruct (_ <=? _); [by apply extends_same|]. destruct (headBuf g) as [|b buf] eqn:Eb.
  { pose proof (af_Write_extends lo fs g p [] Hg) as H. by destruct (af_Write fs (Head g) p). }
  rewrite <- Eb. set (q := headBuf g ++ take _ p). pose proof (af_Write_ok fs g lo q Hg) as H. destruct (af_Write fs (Head g) q) as [fs1 h] eqn:E.
  destruct H as (_ & _ & _ & Hk). assert (forall buf, extends lo fs g fs1 (with_head g h buf)) as He.
  { intros buf'. pose proof (af_Write_extends lo fs g q buf' Hg) as H. by rewrite E in H. }
  destruct (_ <=? _); [apply He|]. set (p' := drop _ p).
  pose proof (af_Write_extends lo fs1 (with_head g h []) p' [] (Hk [] ltac:(done))) as H. cbn [Head with_head] in H.
  destruct (af_Write fs1 h p') as [fs2 h2]. eapply ext_trans; [apply (He [])|exact H].
Qed.

Lemma Flush_extends lo fs g : group_ok fs g lo -> let (fs', g') := Flush fs g in extends lo fs g fs' g'.
Proof.
  intros Hg. unfold Flush.
  assert (let (fs1, h) := match headBuf g with [] => (fs, Head g) | buf => af_Write fs (Head g) buf end in
    extends lo fs g fs1 (with_head g h []) /\ group_ok fs1 (with_head g h []) lo) as H.
  { destruct (headBuf g) as [|b buf] eqn:Eb; [split; [by apply extends_same|by apply group_ok_buf]|].
    pose proof (af_Write_extends lo fs g (b :: buf) [] Hg) as H. pose proof (af_Write_ok fs g lo (b :: buf) Hg) as Hk.
    destruct (af_Write fs (Head g) (b :: buf)). split; [done|]. destruct Hk as (_ & _ & _ & Hk). by apply Hk. }
  destruct (match headBuf g with [] => (fs, Head g) | buf => af_Write fs (Head g) buf end) as [fs1 h]. destruct H as [He Hk].
  unfold af_Sync. pose proof (af_file_group lo fs1 _ [] Hk) as H. cbn [Head with_head] in H. destruct (af_file fs1 h) as [[fs2 h2] i].
  eapply ext_trans; [exact He|exact H].
Qed.

Lemma RotateFile_extends lo fs g : group_ok fs g lo -> is_Some (dir fs !! Path (Head g)) ->
  let '(fs', g', _) := RotateFile fs g in extends lo fs g fs' g'.
Proof.
  intros Hg [i Hi]. pose proof (ok_range _ _ _ Hg) as Hlo. unfold RotateFile, Rename. rewrite Hi, path_name by lia. set (base := Path (Head g)) in *.
  assert (forall j, lo <= j < maxIndex g -> <[name base (maxIndex g) := i]> (delete base (dir fs)) !! name base j = dir fs !! name base j) as Hd.
  { intros j Hj. rewrite lookup_insert_ne by (intros E; apply name_inj in E; lia). by rewrite lookup_delete_ne by (intros E; by apply eq_sym, name_base in E). }
  split; cbn [Head maxIndex Path af_closeFile]; fold base; [done|lia|..].
  - intros j k Hj. unfold path. cbn [Head maxIndex Path af_closeFile dir]. fold base. rewrite (path_name base j (maxIndex g + 1)) by lia.
    destruct (decide (j = maxIndex g)) as [->|]; [rewrite path_head, lookup_insert_eq; congruence|]. rewrite path_name, Hd by lia. done.
  - intros j. exists []. by rewrite app_nil_r.
  - intros j Hj. unfold fcontent. cbn [dir]. by rewrite Hd.
Qed.

Lemma run_op_extends lo fs g o : group_ok fs g lo -> match run_op fs g o with (fs', g', Ok _) => extends lo fs g fs' g' | _ => True end.
Proof.
  intros Hg. destruct o as [p|l| | | | |n|n]; cbn [run_op].
  - pose proof (Group_Write_extends lo fs g p Hg) as H. by destruct (Group_Write fs g p) as [[fs' g'] n].
  - unfold WriteLine. pose proof (Group_Write_extends lo fs g (l ++ [10]) Hg) as H. by destruct (Group_Write fs g (l ++ [10])) as [[fs' g'] n].
  - pose proof (Flush_extends lo fs g Hg) as H. by destruct (Flush fs g).
  - by apply extends_same.
  - unfold checkHeadSizeLimit. destruct (_ =? 0); [by apply extends_same|]. unfold af_Size.
    pose proof (af_file_group lo fs g (headBuf g) Hg) as H. pose proof (af_file_ok fs g lo Hg) as Hok.
    destruct (af_file fs (Head g)) as [[fs1 h] i]. destruct Hok as (-> & Hd & _ & _ & Hk). destruct (_ <=? _); [|done].
    set (g1 := with_head g _ _) in *. pose proof (RotateFile_extends lo fs1 g1 (Hk _ (ok_buf _ _ _ Hg)) ltac:(by cbn; rewrite Hd)) as H'.
    destruct (RotateFile fs1 g1) as [[fs2 g2] [| | |]]; try done. by eapply ext_trans.
  - destruct (dir fs !! Path (Head g)) as [i|] eqn:E.
    + pose proof (RotateFile_extends lo fs g Hg ltac:(by rewrite E)) as H. by destruct (RotateFile fs g) as [[fs' g'] [| | |]].
    + unfold RotateFile, Rename. by rewrite E.
  - by apply extends_same.
  - by apply extends_same.
Qed.

(** What is stored is what the reader has read or skipped, then what it has still to read. *)
Lemma stored_reader fs g lo gr i pos : group_ok fs g lo -> lo <= curIndex gr <= maxIndex g -> curFile gr = Some (i, pos) ->
  dir fs !! path g (curIndex gr) = Some i ->
  stored fs g lo = concat (map (fun j => fcontent fs (name (Path (Head g)) j)) (seqZ lo (curIndex gr - lo))) ++ take pos (contents fs i) ++ remaining fs g gr.
Proof.
  intros Hg Hc Ec Hd. set (base := Path (Head g)) in *.
  assert (stored fs g lo = concat (map (fun j => fcontent fs (name base j)) (seqZ lo (curIndex gr - lo))) ++ stored fs g (curIndex gr)) as ->.
  { unfold stored. fold base. replace (maxIndex g - lo) with (curIndex gr - lo + (maxIndex g - curIndex gr)) by lia.
    rewrite seqZ_app, map_app, concat_app, <- app_assoc by lia. by replace (lo + (curIndex gr - lo)) with (curIndex gr) by lia. }
  f_equal. unfold remaining. rewrite Ec, app_assoc, take_drop. unfold from, path in *. destruct (decide (curIndex gr = maxIndex g)) as [E|Ne].
  - rewrite E in *. destruct (Z.ltb_spec (maxIndex g) (maxIndex g + 1)); [|lia]. rewrite path_head in Hd. unfold stored, fcontent. fold base in Hd.
    fold base. by rewrite Z.sub_diag, Hd, app_nil_r.
  - destruct (Z.ltb_spec (maxIndex g) (curIndex gr + 1)); [lia|]. rewrite path_name in Hd by done.
    rewrite stored_cons by lia. fold base. fold base in Hd. unfold fcontent at 1. by rewrite Hd.
Qed.

Lemma run_op_reader fs g lo gr o : group_ok fs g lo -> reader_ok fs g lo gr ->
  match run_op fs g o with
  | (fs', g', Ok _) => reader_ok fs' g' lo gr /\ remaining fs' g' gr ++ headBuf g' = remaining fs g gr ++ headBuf g ++ data o
  | _ => True
  end.
Proof.
  intros Hg (Hc & i & pos & Ec & Hd & Hp). pose proof (run_op_ok fs g lo o Hg) as H. pose proof (run_op_extends lo fs g o Hg) as He.
  destruct (run_op fs g o) as [[fs' g'] [u| | |]]; try done. destruct H as [Hg' Es]. destruct He.
  destruct (ext_grow0 i) as [k Ek]. pose proof (ext_dir0 _ _ Hc Hd) as Hd'.
  assert (reader_ok fs' g' lo gr) as Hr'.
  { split; [lia|]. exists i, pos. split_and!; [done|done|]. rewrite Ek, length_app. lia. }
  split; [done|]. rewrite (stored_reader fs g lo gr i pos), (stored_reader fs' g' lo gr i pos), ext_path0 in Es by (done || lia).
  assert (map (fun j => fcontent fs' (name (Path (Head g)) j)) (seqZ lo (curIndex gr - lo)) =
    map (fun j => fcontent fs (name (Path (Head g)) j)) (seqZ lo (curIndex gr - lo))) as Em.
  { apply map_ext_in. intros j Hj%list_elem_of_In%elem_of_seqZ. apply ext_old0. lia. }
  rewrite Em, Ek, take_app_le, <- !app_assoc in Es by lia. by do 2 apply app_inv_head in Es.
Qed.

Lemma run_reader ops : forall fs g lo gr, group_ok fs g lo -> reader_ok fs g lo gr ->
  match run ops fs g with
  | (fs', g', Ok _) => group_ok fs' g' lo /\ reader_ok fs' g' lo gr /\
      remaining fs' g' gr ++ headBuf g' = remaining fs g gr ++ headBuf g ++ concat (map data ops)
  | _ => True
  end.
Proof.
  induction ops as [|o ops IH]; intros fs g lo gr Hg Hr; cbn [run map concat]; [by rewrite app_nil_r|].
  pose proof (run_op_ok fs g lo o Hg) as H. pose proof (run_op_reader fs g lo gr o Hg Hr) as H'.
  destruct (run_op fs g o) as [[fs1 g1] [u| | |]]; try done. destruct H as [Hg1 _], H' as [Hr1 E].
  specialize (IH fs1 g1 lo gr Hg1 Hr1). destruct (run ops fs1 g1) as [[fs2 g2] [| | |]]; try done.
  destruct IH as (? & ? & ->). split_and!; [done|done|]. by rewrite app_assoc, E, <- !app_assoc.
Qed.

(** ** Lines *)

(** The complete lines of a text, and whether it ends with one. *)
Fixpoint lines_from (acc : str) (s : bytes) : list str :=
  match s with
  | [] => []
  | c :: s' => if c =? 10 then rev acc :: lines_from [] s' else lines_from (c :: acc) s'
  end.
Definition lines (s : bytes) : list str := lines_from [] s.
Definition whole (s : bytes) : Prop := s = [] \/ exists t, s = t ++ [10].

Lemma lines_from_none l acc : 10 ∉ l -> lines_from acc l = [].
Proof.
  revert acc. induction l as [|c l IH]; intros acc H; [done|]. apply not_elem_of_cons in H as [N H]. cbn.
  destruct (Z.eqb_spec c 10); [done|]. by apply IH.
Qed.

Lemma lines_from_app l k acc : 10 ∉ l -> lines_from acc (l ++ 10 :: k) = (rev acc ++ l) :: lines k.
Proof.
  revert acc. induction l as [|c l IH]; intros acc H; [cbn; by rewrite app_nil_r|]. apply not_elem_of_cons in H as [N H]. cbn.
  destruct (Z.eqb_spec c 10); [done|]. rewrite IH by done. cbn. by rewrite <- app_assoc.
Qed.

Lemma lines_app l k : 10 ∉ l -> lines (l ++ 10 :: k) = l :: lines k.
Proof. apply lines_from_app. Qed.

Lemma whole_line l k : whole (l ++ 10 :: k) <-> whole k.
Proof.
  unfold whole. split.
  - intros [E|[t E]]; [by destruct l|]. destruct k as [|c k] using rev_ind; [by left|]. right. exists k.
    change (l ++ 10 :: k ++ [c]) with (l ++ (10 :: k) ++ [c]) in E. rewrite app_assoc in E. by apply app_inj_tail in E as [_ ->].
  - intros [->|[t ->]]; right; [by exists l|]. exists (l ++ 10 :: t). by rewrite <- app_assoc.
Qed.

Lemma whole_no_line s : whole s -> 10 ∉ s -> s = [].
Proof. intros [->|[t ->]] H; [done|]. destruct H. apply elem_of_app. right. left. Qed.
