(* ===== verification/AutofileSearch.v ===== *)
(** * What a group of log files stores and finds

    The bytes a group holds after any operations, trims included; its readers; [Search] and
    [FindLast] on a group whose files hold whole lines, and what they do on other groups. *)

From stdpp Require Import gmap list relations sorting.
From S2P Require Import Prelude GoStrings GoText Autofile AutofileSpec.

Local Open Scope Z_scope.

(** The first element with a property, with those after it. *)
Fixpoint seek {A} (P : A -> bool) (l : list A) : option (A * list A) :=
  match l with [] => None | x :: l' => if P x then Some (x, l') else seek P l' end.

Lemma seek_Some {A} (P : A -> bool) l x r : seek P l = Some (x, r) ->
  exists b, l = b ++ x :: r /\ P x = true /\ forall y, y ∈ b -> P y = false.
Proof.
  induction l as [|y l IH]; cbn; [done|]. destruct (P y) eqn:E.
  - intros [= -> ->]. exists []. split_and!; [done|done|by intros ? ?%elem_of_nil].
  - intros H. destruct (IH H) as (b & -> & Hx & Hb). exists (y :: b). split_and!; [done|done|].
    intros z [->|Hz]%elem_of_cons; [done|by apply Hb].
Qed.

Lemma seek_None {A} (P : A -> bool) l : seek P l = None -> forall y, y ∈ l -> P y = false.
Proof.
  induction l as [|x l IH]; cbn; [by intros _ y ?%elem_of_nil|]. destruct (P x) eqn:E; [done|].
  intros H y [->|Hy]%elem_of_cons; [done|by apply IH].
Qed.

Lemma elem_of_mid {A} (x : A) b t : x ∈ b ++ x :: t.
Proof. apply elem_of_app. right. left. Qed.

Lemma seek_app {A} (P : A -> bool) l k :
  seek P (l ++ k) = match seek P l with Some (x, t) => Some (x, t ++ k) | None => seek P k end.
Proof. induction l as [|x l IH]; cbn; [done|]. by destruct (P x). Qed.

Section whole_files.
Context (fs : FS) (g : Group) (lo : Z) (Hg : group_ok fs g lo) (Hh : is_Some (dir fs !! Path (Head g))).
Context (Hw : forall j, lo <= j <= maxIndex g -> whole (file_bytes fs g j)).

(** The lines from file [j] on, with the index of the file. *)
Definition file_lines (j : Z) : list (Z * str) := map (pair j) (lines (file_bytes fs g j)).
Definition later (j : Z) : list (Z * str) := concat (map file_lines (seqZ j (maxIndex g + 1 - j))).

(** The lines a reader has still to give. *)
Definition todo (gr : GroupReader) : list (Z * str) :=
  match curFile gr with
  | Some (i, pos) => map (pair (curIndex gr)) (lines (drop pos (contents fs i))) ++ later (curIndex gr + 1)
  | None => []
  end.

Definition good (gr : GroupReader) : Prop := reader_ok fs g lo gr /\
  match curFile gr with Some (i, pos) => whole (drop pos (contents fs i)) | None => False end.

Lemma later_cons j : j <= maxIndex g -> later j = file_lines j ++ later (j + 1).
Proof.
  intros H. unfold later. rewrite seqZ_cons by lia. cbn [map concat].
  by replace (Z.pred (maxIndex g + 1 - j)) with (maxIndex g + 1 - (j + 1)) by lia.
Qed.

Lemma later_end : later (maxIndex g + 1) = [].
Proof. unfold later. by rewrite Z.sub_diag. Qed.

Lemma later_app i j : i <= j <= maxIndex g + 1 -> later i = concat (map file_lines (seqZ i (j - i))) ++ later j.
Proof.
  intros H. unfold later. replace (maxIndex g + 1 - i) with (j - i + (maxIndex g + 1 - j)) by lia.
  rewrite seqZ_app, map_app, concat_app by lia. by replace (i + (j - i)) with j by lia.
Qed.

Lemma later_index j x : x ∈ later j -> j <= x.1 <= maxIndex g.
Proof.
  unfold later. intros H. apply list_elem_of_In, in_concat in H as (l & Hl & Hx). apply in_map_iff in Hl as (k & <- & Hk).
  apply list_elem_of_In, elem_of_seqZ in Hk. unfold file_lines in Hx. apply in_map_iff in Hx as (s & <- & _). cbn. lia.
Qed.

Lemma open_good gr i : lo <= i <= maxIndex g -> exists gr', gr_openFile fs g gr i = (gr', Ok tt) /\ good gr' /\ todo gr' = later i /\
  curIndex gr' = i /\ curLine gr' = None.
Proof.
  intros Hi. destruct (openFile_ok fs g lo Hg Hh gr i Hi) as (gr' & E & Hr & _ & Hc & Hl). exists gr'. split; [done|].
  pose proof (Hw i Hi) as W. unfold file_bytes in W. unfold gr_openFile in E. destruct (Z.ltb_spec (maxIndex g) i); [lia|].
  destruct (dir fs !! filePathForIndex (Path (Head g)) i (maxIndex g)) as [n|] eqn:Ed; [|done]. injection E as <-.
  split_and!; try done. unfold todo. cbn. rewrite (later_cons i) by lia. unfold file_lines, file_bytes. by rewrite Ed.
Qed.

Lemma line_loop_todo fuel : forall gr, good gr -> (files_left g gr < fuel)%nat ->
  match todo gr with
  | (j, l) :: t => exists gr', line_loop fs g fuel gr [] = (gr', Ok l) /\ good gr' /\ curIndex gr' = j /\ todo gr' = t /\
      (curLine gr = None -> curLine gr' = None)
  | [] => exists gr', line_loop fs g fuel gr [] = (gr', Err EOF) /\ good gr'
  end.
Proof.
  induction fuel as [|f IH]; intros gr [Hr W] Hf; [lia|]. pose proof Hr as (Hc & i & pos & Ec & Hd & Hp).
  rewrite Ec in W. unfold todo. rewrite Ec. cbn [line_loop]. rewrite Ec. set (rest := drop pos (contents fs i)) in *.
  pose proof (split_line_spec rest) as Hs. destruct (split_line rest) as [l|].
  - destruct Hs as (k & Er & Hl). rewrite Er, lines_app by done. cbn [map app].
    assert (drop (pos + length l + 1) (contents fs i) = k) as Ek.
    { replace (pos + length l + 1)%nat with (pos + (length l + 1))%nat by lia. rewrite <- drop_drop. fold rest. rewrite Er.
      change (l ++ 10 :: k) with (l ++ [10] ++ k). rewrite app_assoc, drop_app_length'; [done|]. rewrite length_app. cbn. lia. }
    rewrite Er in W. apply whole_line in W. assert (length rest = length (contents fs i) - pos)%nat as Lr by (unfold rest; by rewrite length_drop).
    rewrite Er, length_app in Lr. cbn in Lr. eexists. split; [done|]. split; [split|].
    + apply (at_pos_ok fs g lo); [done|done|lia].
    + cbn. by rewrite Ek.
    + cbn. by rewrite Ek.
  - pose proof (whole_no_line rest W Hs) as E. rewrite E. cbn [lines lines_from map app length]. rewrite Nat.add_0_r.
    change (curIndex (at_pos gr i pos)) with (curIndex gr). destruct (decide (curIndex gr = maxIndex g)) as [Em|].
    + rewrite Em, later_end, openFile_end. eexists. split; [done|]. split; [by apply (at_pos_ok fs g lo)|]. cbn. fold rest. by rewrite E; left.
    + destruct (open_good (at_pos gr i pos) (curIndex gr + 1) ltac:(lia)) as (gr' & -> & Hg' & Et & Ei & El).
      specialize (IH gr' Hg' ltac:(unfold files_left in *; lia)). rewrite Et in IH. cbn [app].
      destruct (later (curIndex gr + 1)) as [|[j l] t]; [done|]. destruct IH as (gr'' & ? & ? & ? & ? & Hn). exists gr''. split_and!; try done.
      intros _. by apply Hn.
Qed.

Lemma ReadLine_todo gr : good gr -> curLine gr = None ->
  match todo gr with
  | (j, l) :: t => exists gr', ReadLine fs g gr = (gr', Ok l) /\ good gr' /\ curIndex gr' = j /\ todo gr' = t /\ curLine gr' = None
  | [] => exists gr', ReadLine fs g gr = (gr', Err EOF) /\ good gr'
  end.
Proof.
  intros Hgd El. pose proof (line_loop_todo (S (files_left g gr)) gr Hgd ltac:(lia)) as H. unfold ReadLine, opened. rewrite El.
  destruct Hgd as [(_ & i & pos & Ec & _) _]. rewrite Ec. destruct (todo gr) as [|[j l] t]; [done|].
  destruct H as (gr' & ? & ? & ? & ? & Hn). exists gr'. split_and!; try done. by apply Hn.
Qed.

Lemma NewReader_good i : lo <= i <= maxIndex g -> exists r, NewReader fs g i = Ok r /\ good r /\ todo r = later i /\ curLine r = None.
Proof.
  intros Hi. unfold NewReader, SetIndex. destruct (open_good (newGroupReader) i Hi) as (r & -> & Hgd & Et & _ & El). by exists r.
Qed.

(** *** Scanning *)

Context (prefix : str).
Definition is_marker (x : Z * str) : bool := HasPrefix x.2 prefix.

Lemma lines_from_length s : forall acc, (length (lines_from acc s) <= length s)%nat.
Proof. induction s as [|c s IH]; intros acc; cbn; [lia|]. destruct (c =? 10); cbn; [specialize (IH [])|specialize (IH (c :: acc))]; lia. Qed.

Lemma later_fuel j : minIndex g <= j <= maxIndex g -> (length (later j) < line_fuel fs g)%nat.
Proof.
  intros Hj. unfold line_fuel, later. replace (maxIndex g - minIndex g + 1) with (j - minIndex g + (maxIndex g + 1 - j)) by lia.
  rewrite seqZ_app, map_app, concat_app, length_app by lia. replace (minIndex g + (j - minIndex g)) with j by lia.
  enough (length (concat (map file_lines (seqZ j (maxIndex g + 1 - j)))) <= length (concat (map (file_bytes fs g) (seqZ j (maxIndex g + 1 - j)))))%nat by lia.
  generalize (seqZ j (maxIndex g + 1 - j)). intros js. induction js as [|k js IH]; cbn; [lia|]. rewrite !length_app.
  unfold file_lines at 1. rewrite length_map. pose proof (lines_from_length (file_bytes fs g k) []). unfold lines. lia.
Qed.

Lemma scanNext_ok fuel : forall gr, good gr -> curLine gr = None -> (length (todo gr) < fuel)%nat ->
  (scanNext fs g fuel gr prefix).2 = match seek is_marker (todo gr) with Some (x, _) => Ok x | None => Err EOF end.
Proof.
  induction fuel as [|f IH]; intros gr Hgd El Hf; [lia|]. cbn [scanNext]. pose proof (ReadLine_todo gr Hgd El) as H.
  destruct (todo gr) as [|[j l] t]; [by destruct H as (gr' & -> & _)|]. destruct H as (gr' & -> & Hg' & Ej & Et & El').
  cbn [seek]. unfold is_marker at 1. cbn. destruct (HasPrefix l prefix); cbn; [by rewrite <- Ej|].
  rewrite IH, Et by (done || (rewrite Et; cbn in Hf; lia)). done.
Qed.

Context (cmp : SearchFunc) (val : str -> Z) (Hc : forall l, HasPrefix l prefix = true -> cmp l = Ok (val l)).
Definition is_hit (x : Z * str) : bool := is_marker x && (0 <=? val x.2).

Lemma scanUntil_ok fuel : forall gr, good gr -> curLine gr = None -> (length (todo gr) < fuel)%nat ->
  match seek is_hit (todo gr) with
  | Some ((j, l), t) => exists gr', scanUntil fs g fuel gr prefix cmp = (gr', Ok (val l =? 0)) /\ good gr' /\ curIndex gr' = j /\ todo gr' = t /\
      curLine gr' = Some l
  | None => exists gr', scanUntil fs g fuel gr prefix cmp = (gr', Err EOF)
  end.
Proof.
  induction fuel as [|f IH]; intros gr Hgd El Hf; [lia|]. cbn [scanUntil]. pose proof (ReadLine_todo gr Hgd El) as H.
  destruct (todo gr) as [|[j l] t]; [destruct H as (gr' & -> & _); by eexists|]. destruct H as (gr' & -> & Hg' & Ej & Et & El').
  cbn [seek]. unfold is_hit at 1, is_marker at 1. cbn [snd]. specialize (IH gr' Hg' El' ltac:(rewrite Et; cbn in Hf; lia)). rewrite Et in IH.
  destruct (HasPrefix l prefix) eqn:Ep; cbn [negb andb]; [|done]. rewrite (Hc l Ep).
  destruct (Z.ltb_spec (val l) 0), (Z.leb_spec 0 (val l)); try lia; [done|]. unfold PushLine. rewrite El'.
  eexists. split; [done|]. split; [exact Hg'|done].
Qed.

(** The reader of a search result: the line found comes next, then those after it. *)
Definition found (r : GroupReader) (exact : bool) : Prop :=
  exists before j l rest, later lo = before ++ (j, l) :: rest /\ is_marker (j, l) = true /\
    (exists r', ReadLine fs g r = (r', Ok l) /\ good r' /\ curIndex r' = j /\ todo r' = rest /\ curLine r' = None) /\
    (if exact then val l = 0 else 0 < val l /\ forall x, x ∈ before -> is_marker x = true -> val x.2 < 0).

Lemma pushed_found r before j l rest b : later lo = before ++ (j, l) :: rest -> is_marker (j, l) = true ->
  good r -> curIndex r = j -> todo r = rest -> curLine r = Some l ->
  (if b : bool then val l = 0 else 0 < val l /\ forall x, x ∈ before -> is_marker x = true -> val x.2 < 0) -> found r b.
Proof.
  intros El Em Hgd Ej Et Hl Hb. exists before, j, l, rest. split_and!; try done. unfold ReadLine, opened. rewrite Hl.
  destruct Hgd as [(? & i & pos & Ec & ?) W]. unfold todo in Et. rewrite Ec in *.
  eexists. split; [done|]. split; [split; [|exact W]|done]. split; [done|]. by exists i, pos.
Qed.

Definition markers (l : list (Z * str)) : list (Z * str) := filter (fun x => is_marker x = true) l.
Definition sorted_markers : Prop := StronglySorted (fun x y => val x.2 <= val y.2) (markers (later lo)).

(** *** The bisection *)

Section bisection.
Context (Hs : sorted_markers) (Hm : minIndex g = lo) (Hl : exists l, (maxIndex g, l) ∈ later lo /\ HasPrefix l prefix = true).

Lemma scan_from i : lo <= i <= maxIndex g -> exists r, NewReader fs g i = Ok r /\
  (scanNext fs g (line_fuel fs g) r prefix).2 = match seek is_marker (later i) with Some (x, _) => Ok x | None => Err EOF end /\
  match seek is_hit (later i) with
  | Some ((j, l), t) => exists r', scanUntil fs g (line_fuel fs g) r prefix cmp = (r', Ok (val l =? 0)) /\ good r' /\ curIndex r' = j /\ todo r' = t /\
      curLine r' = Some l
  | None => exists r', scanUntil fs g (line_fuel fs g) r prefix cmp = (r', Err EOF)
  end.
Proof.
  intros Hi. destruct (NewReader_good i Hi) as (r & -> & Hgd & Et & El). exists r.
  split; [done|]. rewrite <- Et. pose proof (later_fuel i ltac:(lia)). split; [apply scanNext_ok|apply scanUntil_ok]; try done; by rewrite Et.
Qed.

Lemma marker_from i : lo <= i <= maxIndex g -> exists x t, seek is_marker (later i) = Some (x, t).
Proof.
  intros Hi. destruct (seek is_marker (later i)) as [[x t]|] eqn:E; [by eauto|]. destruct Hl as (l & He & Hp).
  rewrite (later_app lo i), elem_of_app in He by lia. destruct He as [He|He].
  - apply list_elem_of_In, in_concat in He as (k & Hk & Hx). apply in_map_iff in Hk as (j & <- & Hj%list_elem_of_In%elem_of_seqZ).
    apply in_map_iff in Hx as (s & [= -> _] & _). lia.
  - pose proof (seek_None _ _ E _ He) as H. unfold is_marker in H. cbn in H. congruence.
Qed.

Definition past (i : Z) : Prop := exists x t, seek is_marker (later (i + 1)) = Some (x, t) /\ 0 < val x.2.
Definition bounded (minI maxI : Z) : Prop := lo <= minI <= maxI /\ maxI <= maxIndex g /\
  (forall x, x ∈ later lo -> x.1 < minI -> is_marker x = true -> val x.2 < 0) /\ (maxI = maxIndex g \/ past maxI).

Definition search_ok (res : R (GroupReader * bool)) : Prop :=
  match res with
  | Ok (r, exact) => found r exact
  | Err EOF => forall x, x ∈ later lo -> is_marker x = true -> val x.2 < 0
  | _ => False
  end.

Lemma later_sorted n : forall i, n = Z.to_nat (maxIndex g + 1 - i) -> StronglySorted (fun x y => x.1 <= y.1) (later i).
Proof.
  induction n as [|n IH]; intros i En; [unfold later; rewrite seqZ_nil by lia; constructor|]. rewrite later_cons by lia.
  apply StronglySorted_app_2; [| |by apply IH; lia].
  - intros x y Hx Hy%later_index. apply list_elem_of_In, in_map_iff in Hx as (s & <- & _). cbn. lia.
  - unfold file_lines. generalize (lines (file_bytes fs g i)). intros ls. induction ls as [|l ls IHl]; cbn; constructor; [done|].
    apply Forall_forall. intros y Hy. apply list_elem_of_In, in_map_iff in Hy as (s & <- & _). cbn. lia.
Qed.

Lemma first_from i j k l t : seek is_marker (later i) = Some ((k, l), t) -> i <= j <= k -> seek is_marker (later j) = Some ((k, l), t).
Proof.
  intros E Hj. pose proof (seek_Some _ _ _ _ E) as (b & Eb & _). pose proof (later_index i (k, l)) as Hk. rewrite Eb in Hk.
  specialize (Hk (elem_of_mid _ _ _)). cbn in Hk. rewrite (later_app i j), seek_app in E by lia.
  destruct (seek is_marker (concat _)) as [[x t']|] eqn:E'; [|done]. injection E as -> _. apply seek_Some in E' as (b' & Eb' & _).
  assert ((k, l) ∈ concat (map file_lines (seqZ i (j - i)))) as He by (rewrite Eb'; apply elem_of_mid).
  apply list_elem_of_In, in_concat in He as (ls & Hls & Hx). apply in_map_iff in Hls as (m & <- & Hm'%list_elem_of_In%elem_of_seqZ).
  apply in_map_iff in Hx as (s & [= -> _] & _). lia.
Qed.

Lemma first_before i k l t : lo <= i <= maxIndex g -> seek is_marker (later i) = Some ((k, l), t) -> val l < 0 ->
  forall x, x ∈ later lo -> x.1 < k -> is_marker x = true -> val x.2 < 0.
Proof.
  intros Hi E Hv x Hx Hk Mx. apply seek_Some in E as (b & Eb & Ml & Hb). pose proof Hs as S. unfold sorted_markers, markers in S.
  rewrite (later_app lo i) in Hx, S by lia. rewrite filter_app in S. apply elem_of_app in Hx as [Hx|Hx].
  - enough (val x.2 <= val l) by lia. apply (StronglySorted_app_1_elem_of _ _ _ x (k, l) S); apply list_elem_of_filter; [done|].
    split; [done|]. rewrite Eb. apply elem_of_mid.
  - pose proof (later_sorted _ i eq_refl) as SI. rewrite Eb in Hx, SI. apply elem_of_app in Hx as [Hx|Hx]; [by rewrite (Hb x Hx) in Mx|].
    apply elem_of_cons in Hx as [->|Hx]; [cbn in Hk; lia|]. apply StronglySorted_app_1_r in SI. apply StronglySorted_inv in SI as [_ SI].
    rewrite Forall_forall in SI. specialize (SI x Hx). cbn in SI. lia.
Qed.

Lemma scan_found i : lo <= i <= maxIndex g -> (forall x, x ∈ later lo -> x.1 < i -> is_marker x = true -> val x.2 < 0) ->
  exists r, NewReader fs g i = Ok r /\ search_ok (let (r, m) := scanUntil fs g (line_fuel fs g) r prefix cmp in let* mtch := m in Ok (r, mtch)).
Proof.
  intros Hi Hlt. destruct (scan_from i Hi) as (r & En & _ & Hu). exists r. split; [done|]. pose proof (later_app lo i ltac:(lia)) as Ea.
  assert (forall x, x ∈ concat (map file_lines (seqZ lo (i - lo))) -> is_marker x = true -> val x.2 < 0) as Ha.
  { intros x Hx Mx. apply Hlt; [rewrite Ea; apply elem_of_app; by left| |done].
    apply list_elem_of_In, in_concat in Hx as (ls & Hls & Hx). apply in_map_iff in Hls as (m & <- & Hj%list_elem_of_In%elem_of_seqZ).
    apply in_map_iff in Hx as (s & <- & _). cbn. lia. }
  destruct (seek is_hit (later i)) as [[[j l] t]|] eqn:E.
  - destruct Hu as (r' & -> & Hgd & Ej & Et & El). cbn. apply seek_Some in E as (b & Eb & Hh' & Hb). rewrite Eb, app_assoc in Ea.
    apply andb_prop in Hh' as [Ml Hv%Z.leb_le]. cbn in Hv. apply (pushed_found r' _ j l t _ Ea); try done.
    destruct (Z.eqb_spec (val l) 0); [done|]. split; [lia|]. intros x [Hx|Hx]%elem_of_app Mx; [by apply Ha|].
    specialize (Hb x Hx). unfold is_hit in Hb. rewrite Mx in Hb. by apply Z.leb_gt in Hb.
  - destruct Hu as (r' & ->). cbn. intros x Hx Mx. rewrite Ea in Hx. apply elem_of_app in Hx as [Hx|Hx]; [by apply Ha|].
    pose proof (seek_None _ _ E x Hx) as Hb. unfold is_hit in Hb. rewrite Mx in Hb. by apply Z.leb_gt in Hb.
Qed.

Lemma lucky_found i k l t : lo <= i <= maxIndex g -> seek is_marker (later i) = Some ((k, l), t) -> val l = 0 ->
  exists r r', NewReader fs g k = Ok r /\ scanUntil fs g (line_fuel fs g) r prefix cmp = (r', Ok true) /\ found r' true.
Proof.
  intros Hi E Hv. pose proof (seek_Some _ _ _ _ E) as (b & Eb & Ml & _).
  pose proof (later_index i (k, l) ltac:(rewrite Eb; apply elem_of_mid)) as Hk. cbn in Hk.
  destruct (scan_from k ltac:(lia)) as (r & En & _ & Hu). pose proof (first_from i k k l t E ltac:(lia)) as Ek.
  assert (seek is_hit (later k) = Some ((k, l), t)) as Eh.
  { clear -Ek Ml Hv. induction (later k) as [|y ls IH]; cbn in *; [done|]. unfold is_hit at 1. destruct (is_marker y) eqn:Ey; cbn.
    - injection Ek as -> ->. cbn. by rewrite Hv.
    - by apply IH. }
  rewrite Eh, Hv in Hu. destruct Hu as (r' & Eu & Hgd & Ej & Et & El). exists r, r'. split_and!; [done|done|].
  pose proof (later_app lo i ltac:(lia)) as Ea. rewrite Eb, app_assoc in Ea. by apply (pushed_found r' _ k l t true Ea).
Qed.

Lemma search_loop_ok fuel : forall minI maxI, bounded minI maxI -> maxI - minI < Z.of_nat fuel ->
  search_ok (search_loop fs g fuel prefix cmp minI maxI).
Proof.
  induction fuel as [|f IH]; intros minI maxI (H1 & H2 & HA & HB) Hf; [lia|]. cbn [search_loop].
  destruct (Z.eqb_spec minI maxI) as [<-|Ne]; [by destruct (scan_found minI ltac:(lia) HA) as (r & -> & Hr)|].
  set (cur := Z.quot (minI + maxI + 1) 2).
  assert (minI < cur <= maxI) as Hcur by (unfold cur; rewrite Z.quot_div_nonneg by (pose proof (ok_range _ _ _ Hg); lia); Z.div_mod_to_equations; lia).
  destruct (scan_from cur ltac:(lia)) as (r & -> & Es & _). rewrite Es. destruct (marker_from cur ltac:(lia)) as ([k l] & t & Ek).
  rewrite Ek. pose proof (seek_Some _ _ _ _ Ek) as (b & Eb & Ml & _). rewrite (Hc l Ml).
  pose proof (later_index cur (k, l) ltac:(rewrite Eb; apply elem_of_mid)) as Hk. cbn in Hk.
  destruct (Z.ltb_spec (val l) 0) as [Hv|Hv]; [|destruct (Z.eqb_spec (val l) 0) as [Hz|Hz]].
  - assert (k <= maxI).
    { destruct HB as [->|(x & t' & Ex & Hx)]; [lia|]. apply Znot_gt_le. intros Hgt.
      rewrite (first_from cur (maxI + 1) k l t Ek) in Ex by lia. injection Ex as <- _. cbn in Hx. lia. }
    apply IH; [|lia]. split_and!; [lia|lia|done| |done]. by apply (first_before cur k l t); [lia|..].
  - destruct (lucky_found cur k l t ltac:(lia) Ek Hz) as (r1 & r2 & -> & -> & Hf2). done.
  - apply IH; [|lia]. split_and!; [lia|lia|lia|done|]. right. exists (k, l), t. replace (cur - 1 + 1) with cur by lia. split; [done|cbn; lia].
Qed.

Lemma Search_ok : search_ok (Search fs g prefix cmp).
Proof.
  unfold Search. pose proof (ok_range _ _ _ Hg). apply search_loop_ok; [|lia]. rewrite Hm. split_and!; [lia|lia|lia| |by left].
  intros x Hx%later_index. lia.
Qed.
End bisection.

(** *** The last marker *)

Definition last_marker (l : list (Z * str)) (m : option str) : option str :=
  match last (markers l) with Some x => Some x.2 | None => m end.

Lemma last_marker_cons x l m : last_marker (x :: l) m = last_marker l (if is_marker x then Some x.2 else m).
Proof.
  unfold last_marker, markers. rewrite filter_cons. destruct (decide (is_marker x = true)) as [E|E].
  - rewrite E, last_cons. by destruct (last (filter _ l)).
  - by apply not_true_is_false in E as ->.
Qed.

Lemma last_marker_app k l m : last_marker (k ++ l) m = last_marker l (last_marker k m).
Proof. unfold last_marker, markers. rewrite filter_app, last_app. by destruct (last (filter _ l)). Qed.

Lemma last_marker_none l m : Forall (fun x => is_marker x = false) l -> last_marker l m = m.
Proof. induction 1 as [|x l E _ IH]; [done|]. by rewrite last_marker_cons, E. Qed.

Lemma last_loop_ok fuel : forall gr i ls m, good gr -> curLine gr = None -> (length (todo gr) < fuel)%nat ->
  todo gr = map (pair i) ls ++ later (i + 1) -> Forall (fun x => is_marker x = false) (later (i + 1)) ->
  exists gr', last_loop fs g fuel gr prefix i m = (gr', Ok (last_marker (map (pair i) ls) m)).
Proof.
  induction fuel as [|f IH]; intros gr i ls m Hgd El Hf Et Hn; [lia|]. cbn [last_loop]. pose proof (ReadLine_todo gr Hgd El) as H.
  destruct ls as [|l ls]; cbn [map app] in *; rewrite Et in H.
  - destruct (later (i + 1)) as [|[j l] t] eqn:Ea; destruct H as (gr' & -> & H); [by eexists|]. destruct H as (Hg' & Ej & _).
    apply Forall_cons in Hn as [Hl _]. unfold is_marker in Hl. cbn in Hl. rewrite Hl. unfold CurIndex. rewrite Ej.
    pose proof (later_index (i + 1) (j, l) ltac:(rewrite Ea; left)) as Hj. cbn in Hj. destruct (Z.ltb_spec i j); [|lia]. by eexists.
  - destruct H as (gr' & -> & Hg' & Ej & Et' & El'). unfold CurIndex. rewrite Ej. destruct (Z.ltb_spec i i); [lia|].
    rewrite last_marker_cons. apply IH; try done. rewrite Et'. rewrite Et in Hf. cbn in Hf. lia.
Qed.

Lemma find_loop_ok n : forall gr i, minIndex g = lo -> i <= maxIndex g -> Z.of_nat n = i - lo + 1 ->
  Forall (fun x => is_marker x = false) (later (i + 1)) -> find_loop fs g n gr prefix i = Ok (last_marker (later lo) None).
Proof.
  induction n as [|n IH]; intros gr i Hm Hi Hn Hf; cbn [find_loop].
  - replace (i + 1) with lo in Hf by lia. by rewrite last_marker_none.
  - unfold SetIndex. destruct (open_good gr i ltac:(lia)) as (gr' & -> & Hgd & Et & _ & El).
    pose proof Et as Et'. rewrite later_cons in Et' by lia. pose proof (later_fuel i ltac:(lia)) as Hlf. rewrite <- Et in Hlf.
    destruct (last_loop_ok (line_fuel fs g) gr' i _ None Hgd El Hlf Et' Hf) as (gr'' & ->). fold (file_lines i).
    destruct (last_marker (file_lines i) None) as [l|] eqn:E.
    + rewrite (later_app lo i), (later_cons i), !last_marker_app, (last_marker_none _ _ Hf) by lia.
      unfold last_marker in E |- *. destruct (last (markers (file_lines i))); congruence.
    + apply IH; [done|lia|lia|]. replace (i - 1 + 1) with i by lia. rewrite later_cons by lia. apply Forall_app. split; [|done].
      apply Forall_forall. intros x Hx. apply not_true_is_false. intros Mx. unfold last_marker in E.
      destruct (last (markers (file_lines i))) eqn:E'; [done|]. apply last_None in E'.
      assert (x ∈ markers (file_lines i)) as He by (by apply list_elem_of_filter). rewrite E' in He. by apply elem_of_nil in He.
Qed.

Lemma FindLast_ok : minIndex g = lo -> FindLast fs g prefix = Ok (last_marker (later lo) None).
Proof.
  intros Hm. pose proof (ok_range _ _ _ Hg). unfold FindLast. destruct (NewReader_good (maxIndex g) ltac:(lia)) as (r & -> & _).
  apply find_loop_ok; [done|done|lia|]. rewrite later_end. constructor.
Qed.
End whole_files.

(** ** The properties of groups *)

Lemma af_file_path fs h : Path (af_file fs h).1.2 = Path h.
Proof. unfold af_file, af_openFile. destruct (file h); [done|]. by destruct (open_append fs (Path h)). Qed.

Lemma af_Write_path fs h b : Path (af_Write fs h b).2 = Path h.
Proof. unfold af_Write. pose proof (af_file_path fs h). by destruct (af_file fs h) as [[fs' h'] i]. Qed.

Definition same (g g' : Group) : Prop := Path (Head g') = Path (Head g) /\ minIndex g' = minIndex g.

Lemma Group_Write_same fs g p : same g (Group_Write fs g p).1.2.
Proof.
  unfold Group_Write. case_match; [done|]. destruct (headBuf g) as [|c buf].
  - pose proof (af_Write_path fs (Head g) p). by destruct (af_Write fs (Head g) p).
  - pose proof (af_Write_path fs (Head g) ((c :: buf) ++ take (Z.to_nat (headBufSize - zlen (c :: buf))) p)) as E.
    destruct (af_Write fs (Head g) _) as [fs1 h1]. case_match; [done|].
    pose proof (af_Write_path fs1 h1 (drop (Z.to_nat (headBufSize - zlen (c :: buf))) p)) as E'.
    destruct (af_Write fs1 h1 _) as [fs2 h2]. split; [cbn in *; congruence|done].
Qed.

Lemma Flush_same fs g : same g (Flush fs g).2 /\ maxIndex (Flush fs g).2 = maxIndex g.
Proof.
  unfold Flush, af_Sync. destruct (headBuf g) as [|c buf].
  - pose proof (af_file_path fs (Head g)). by destruct (af_file fs (Head g)) as [[fs1 h1] i].
  - pose proof (af_Write_path fs (Head g) (c :: buf)) as E. destruct (af_Write fs (Head g) (c :: buf)) as [fs1 h1].
    pose proof (af_file_path fs1 h1) as E'. destruct (af_file fs1 h1) as [[fs2 h2] i]. split; [split; [cbn in *; congruence|done]|done].
Qed.

Lemma RotateFile_same fs g : same g (RotateFile fs g).1.2.
Proof. unfold RotateFile. by destruct (Rename _ _ _). Qed.

Lemma run_op_same fs g o : same g (run_op fs g o).1.2.
Proof.
  destruct o as [p|l| | | | |n|n]; cbn [run_op]; try done.
  - pose proof (Group_Write_same fs g p). by destruct (Group_Write fs g p) as [[fs' g'] n].
  - unfold WriteLine. pose proof (Group_Write_same fs g (l ++ [10])). by destruct (Group_Write fs g (l ++ [10])) as [[fs' g'] n].
  - pose proof (Flush_same fs g) as [H _]. by destruct (Flush fs g).
  - unfold checkHeadSizeLimit, af_Size. case_match; [done|]. pose proof (af_file_path fs (Head g)) as E.
    destruct (af_file fs (Head g)) as [[fs1 h1] i]. case_match; [|done].
    pose proof (RotateFile_same fs1 (with_head g h1 (headBuf g))) as [E1 E2]. split; [rewrite E1; exact E|exact E2].
  - apply RotateFile_same.
Qed.

Lemma run_same ops : forall fs g, same g (run ops fs g).1.2.
Proof.
  induction ops as [|o ops IH]; intros fs g; cbn [run]; [done|]. pose proof (run_op_same fs g o) as [E1 E2].
  destruct (run_op fs g o) as [[fs1 g1] [u|e| |]]; try done. destruct (IH fs1 g1) as [E3 E4]. cbn in *. split; congruence.
Qed.

Lemma run_op_max fs g o : maxIndex (run_op fs g o).1.2 <= maxIndex g + 1.
Proof.
  assert (forall fs g, maxIndex (RotateFile fs g).1.2 <= maxIndex g + 1) as Hr
    by (intros fs0 g0; unfold RotateFile; destruct (Rename _ _ _); cbn; lia).
  destruct o as [p|l| | | | |n|n]; cbn [run_op]; try (cbn; lia).
  - unfold Group_Write. case_match; [cbn; lia|]. destruct (headBuf g); [destruct (af_Write _ _ _); cbn; lia|].
    destruct (af_Write _ _ _). case_match; [cbn; lia|]. destruct (af_Write _ _ _). cbn. lia.
  - unfold WriteLine, Group_Write. case_match; [cbn; lia|]. destruct (headBuf g); [destruct (af_Write _ _ _); cbn; lia|].
    destruct (af_Write _ _ _). case_match; [cbn; lia|]. destruct (af_Write _ _ _). cbn. lia.
  - pose proof (Flush_same fs g) as [_ H]. destruct (Flush fs g). cbn in *. lia.
  - unfold checkHeadSizeLimit. case_match; [cbn; lia|]. destruct (af_Size fs (Head g)) as [[fs1 h1] i]. case_match; [apply (Hr fs1 (with_head g h1 (headBuf g)))|cbn; lia].
  - apply Hr.
Qed.

(** What [checkTotalSizeLimit] does: it removes [k] of the oldest files, at most four and never the head, each while
    the files hold the limit or more, and it stops before the fourth only below the limit or at the head. *)
Definition trims (fs : FS) (g : Group) (lo : Z) (fs' : FS) (k : Z) : Prop :=
  0 <= k <= 4 /\ lo + k <= maxIndex g /\ stored fs' g (lo + k) = stored fs g (lo + k) /\
  (forall k', 0 <= k' < k -> totalSizeLimit g <> 0 /\ totalSizeLimit g <= zlen (stored fs g (lo + k'))) /\
  (totalSizeLimit g = 0 \/ zlen (stored fs g (lo + k)) < totalSizeLimit g \/ k = 4 \/ lo + k = maxIndex g).

Lemma checkTotalSizeLimit_ok fs g lo : group_ok fs g lo -> maxIndex g <= 2 ^ 63 -> Path (Head g) <> [] -> 10 ∉ Path (Head g) ->
  exists fs' k, checkTotalSizeLimit fs g = Ok fs' /\ group_ok fs' g (lo + k) /\ trims fs g lo fs' k.
Proof.
  intros Hg Hm Hb Hn. pose proof (ok_range _ _ _ Hg) as Hlo. unfold checkTotalSizeLimit, trims. destruct (Z.eqb_spec (totalSizeLimit g) 0).
  { exists fs, 0. rewrite Z.add_0_r. split_and!; try done; lia. }
  destruct (readGroupInfo_ok fs g lo Hg Hm Hb Hn) as [h ->]. cbn [MinIndex MaxIndex TotalSize]. destruct (Z.eqb_spec lo (maxIndex g)).
  { exists fs, 0. rewrite Z.add_0_r. cbn. split; [by case_match|]. split_and!; try done; lia. }
  destruct (remove_loop_ok 4 fs g lo (totalSizeLimit g) Hg) as (k & Hk & Hmk & H1 & H2 & _ & _ & H4 & H5).
  change (Z.of_nat 4) with 4 in *. eexists _, k. split; [reflexivity|]. split; [exact H1|]. split_and!; try done; try lia.
  intros k' Hk'. split; [done|by apply H5].
Qed.

(** The operations of a group together with the trimming that its ticker does. *)
Inductive gop := GOp (o : op) | GCheckTotal.

Definition grun_op (fs : FS) (g : Group) (o : gop) : FS * Group * R unit :=
  match o with
  | GOp o => run_op fs g o
  | GCheckTotal =>
      let r := checkTotalSizeLimit fs g in
      (match r with Ok fs' => fs' | _ => fs end, g, let* _ := r in Ok tt)
  end.

Definition gdata (o : gop) : bytes := match o with GOp o => data o | GCheckTotal => [] end.

Fixpoint grun (ops : list gop) (fs : FS) (g : Group) : FS * Group * R unit :=
  match ops with
  | [] => (fs, g, Ok tt)
  | o :: ops' => match grun_op fs g o with (fs, g, Ok _) => grun ops' fs g | r => r end
  end.

Lemma stored_from fs g lo k : 0 <= k -> lo + k <= maxIndex g -> exists gone, stored fs g lo = gone ++ stored fs g (lo + k).
Proof.
  intros Hk Hm. exists (concat (map (fun j => fcontent fs (name (Path (Head g)) j)) (seqZ lo k))). unfold stored.
  rewrite app_assoc, <- concat_app, <- map_app, <- seqZ_app by lia. do 4 f_equal. lia.
Qed.

(** One operation: what is stored loses a beginning to a trim and gets what is written at its end. *)
Lemma grun_op_ok fs g lo o : group_ok fs g lo -> maxIndex g <= 2 ^ 63 -> Path (Head g) <> [] -> 10 ∉ Path (Head g) ->
  match grun_op fs g o with
  | (fs', g', Ok _) => same g g' /\ maxIndex g' <= maxIndex g + 1 /\ exists lo' gone, group_ok fs' g' lo' /\
      gone ++ stored fs' g' lo' ++ headBuf g' = stored fs g lo ++ headBuf g ++ gdata o /\ (o <> GCheckTotal -> lo' = lo /\ gone = [])
  | (fs', g', Panic) => o = GOp ORotate /\ Path (Head g') = Path (Head g) /\ dir fs' !! Path (Head g') = None
  | _ => False
  end.
Proof.
  intros Hg Hm Hb Hn. destruct o as [o|]; cbn [grun_op gdata].
  - pose proof (run_op_ok fs g lo o Hg) as H. pose proof (run_op_same fs g o) as Hs. pose proof (run_op_max fs g o) as Hx.
    destruct (run_op fs g o) as [[fs' g'] [u|e| |]]; try done; cbn in Hs, Hx.
    + destruct H as [H E]. split_and!; [apply Hs..|done|]. by exists lo, [].
    + destruct H as [-> H]. split_and!; [done|apply Hs|done].
  - destruct (checkTotalSizeLimit_ok fs g lo Hg Hm Hb Hn) as (fs' & k & -> & Hg' & Hk & Hle & Es & _). cbn. split_and!; [done|lia|].
    destruct (stored_from fs g lo k ltac:(lia) Hle) as [gone E]. exists (lo + k), gone. split_and!; [done|by rewrite E, Es, app_nil_r, <- app_assoc|done].
Qed.

Lemma grun_ok ops : forall fs g lo, group_ok fs g lo -> maxIndex g + zlen ops <= 2 ^ 63 -> Path (Head g) <> [] -> 10 ∉ Path (Head g) ->
  match grun ops fs g with
  | (fs', g', Ok _) => same g g' /\ maxIndex g' <= maxIndex g + zlen ops /\ exists lo' gone, group_ok fs' g' lo' /\
      gone ++ stored fs' g' lo' ++ headBuf g' = stored fs g lo ++ headBuf g ++ concat (map gdata ops) /\
      (GCheckTotal ∉ ops -> lo' = lo /\ gone = [])
  | (fs', g', Panic) => GOp ORotate ∈ ops /\ Path (Head g') = Path (Head g) /\ dir fs' !! Path (Head g') = None
  | _ => False
  end.
Proof.
  induction ops as [|o ops IH]; intros fs g lo Hg Hm Hb Hn; cbn [grun map concat].
  { rewrite zlen_nil in *. split_and!; [done|lia|]. exists lo, []. by rewrite app_nil_r. }
  rewrite zlen_cons in *. pose proof (zlen_nonneg ops). pose proof (grun_op_ok fs g lo o Hg ltac:(lia) Hb Hn) as H1.
  destruct (grun_op fs g o) as [[fs1 g1] [u|e| |]]; try done; [|destruct H1 as (-> & ? & ?); split_and!; [left|done|done]].
  destruct H1 as ([Ep Ei] & Hx & lo1 & gone1 & Hg1 & E1 & Hc1). rewrite <- Ep in Hb, Hn. specialize (IH fs1 g1 lo1 Hg1 ltac:(lia) Hb Hn).
  destruct (grun ops fs1 g1) as [[fs2 g2] [u2|e| |]]; try done; [|destruct IH as (? & ? & ?); split_and!; [by right|congruence|done]].
  destruct IH as ([Ep2 Ei2] & Hx2 & lo2 & gone2 & Hg2 & E2 & Hc2). split_and!; [split; congruence|lia|].
  exists lo2, (gone1 ++ gone2). split_and!; [done| |].
  - rewrite <- app_assoc, E2, app_assoc. rewrite (app_assoc _ (headBuf g1)), (app_assoc gone1), <- (app_assoc gone1), E1 in *. by rewrite <- !app_assoc.
  - intros [Ho Hi]%not_elem_of_cons. destruct Hc1 as [-> ->]; [done|]. by destruct Hc2 as [-> ->].
Qed.

(** C25: A group opened in an empty directory, and then written, flushed, ticked, rotated and trimmed in any order with any
    limits, holds in its files and its buffer, in order, the bytes written, less a beginning that trims removed (nothing,
    when [checkTotalSizeLimit] never ran).  The only panic is an explicit [RotateFile] while the head file is missing, which
    is so between a rotation and the next write, flush or check.  [checkTotalSizeLimit] removes whole files, the oldest
    first, at most four and never the head, and only while the files hold the limit or more.  A flush writes out the whole
    buffer, and opening the group again finds the same bytes, under the same indices unless only the head is left. *)
Theorem group_stream base ops : base <> [] -> 10 ∉ base -> zlen ops <= 2 ^ 63 -> exists fs0 g0, OpenGroup empty_dir base = (fs0, Ok g0) /\
  match grun ops fs0 g0 with
  | (fs, g, Ok _) => exists lo gone, 0 <= lo <= maxIndex g /\
      gone ++ stored fs g lo ++ headBuf g = concat (map gdata ops) /\ (GCheckTotal ∉ ops -> lo = 0 /\ gone = []) /\ minIndex g = 0 /\
      (exists fs' k, checkTotalSizeLimit fs g = Ok fs' /\ trims fs g lo fs' k) /\
      let (fs1, g1) := Flush fs g in headBuf g1 = [] /\ gone ++ stored fs1 g1 lo = concat (map gdata ops) /\
      exists fs2 g2, OpenGroup fs1 base = (fs2, Ok g2) /\ stored fs2 g2 (minIndex g2) = stored fs1 g1 lo /\
        minIndex g2 = (if lo =? maxIndex g then 0 else lo) /\ maxIndex g2 = (if lo =? maxIndex g then 0 else maxIndex g)
  | (fs, g, Panic) => GOp ORotate ∈ ops /\ dir fs !! base = None
  | _ => False
  end.
Proof.
  intros Hb Hn Hops. destruct (OpenGroup_ok _ _ 0 (empty_group_ok base) ltac:(done) Hb Hn) as (fs0 & g0 & E & Hp & Hbuf & Hmi & Hma & Hg & Hst).
  exists fs0, g0. split; [exact E|]. cbn in *. rewrite Hmi in Hst. assert (stored fs0 g0 0 = []) as Hst' by exact Hst.
  assert (maxIndex g0 = 0) as Hma' by exact Hma. rewrite <- Hp in Hb, Hn.
  pose proof (grun_ok ops fs0 g0 0 Hg ltac:(lia) Hb Hn) as H. rewrite Hbuf, Hst' in H.
  destruct (grun ops fs0 g0) as [[fs g] [u|e| |]]; try done; [|destruct H as (H1 & H2 & H3); by rewrite H2, Hp in H3].
  destruct H as ([Hpath Hmin] & Hx & lo & gone & Hg1 & Es & Hc). exists lo, gone. rewrite <- Hpath in Hb, Hn.
  split_and!; [by apply (ok_range _ _ _ Hg1)..|exact Es|exact Hc|by rewrite Hmin, Hmi| |].
  { destruct (checkTotalSizeLimit_ok fs g lo Hg1 ltac:(lia) Hb Hn) as (fs' & k & H1 & _ & H2). by exists fs', k. }
  pose proof (Flush_ok fs g lo Hg1) as Hfl. destruct (Flush fs g) as [fs1 g1] eqn:Ef. destruct Hfl as (Hg2 & Hb1 & _ & Est).
  pose proof (Flush_same fs g) as [[Hp1 _] Hm1]. rewrite Ef in *. cbn in Hp1, Hm1. split_and!; [done|by rewrite Est|].
  rewrite <- Hp1 in Hb, Hn. destruct (OpenGroup_ok fs1 g1 lo Hg2 ltac:(lia) Hb Hn) as (fs2 & g2 & Eo & _ & _ & Hmi2 & Hma2 & _ & Hst2).
  exists fs2, g2. rewrite Hp1, Hpath, Hp in Eo. rewrite <- Hm1. by split_and!.
Qed.

(** C26: A new reader at file [i] has before it the bytes stored from that file on. While
    the group is written, flushed and rotated a reader keeps its place: what it has still to
    give grows by exactly what the operations write. Once the head file is there, [Read] fills the
    buffer from those bytes and says at the end that there are no more, and [ReadLine] gives the next line,
    also when the line is spread over several files. *)
Theorem group_reader fs g lo gr ops : group_ok fs g lo -> reader_ok fs g lo gr -> curLine gr = None ->
  (is_Some (dir fs !! Path (Head g)) -> forall i, lo <= i <= maxIndex g ->
    exists r, NewReader fs g i = Ok r /\ reader_ok fs g lo r /\ remaining fs g r = stored fs g i /\ curLine r = None) /\
  match run ops fs g with
  | (fs', g', Ok _) => remaining fs' g' gr ++ headBuf g' = remaining fs g gr ++ headBuf g ++ concat (map data ops) /\
      (is_Some (dir fs' !! Path (Head g')) ->
        (forall n, (0 < n)%nat -> exists gr', reader_ok fs' g' lo gr' /\ remaining fs' g' gr' = drop n (remaining fs' g' gr) /\
           gr_Read fs' g' gr n = (gr', take n (remaining fs' g' gr), if (n <=? length (remaining fs' g' gr))%nat then Ok tt else Err EOF)) /\
        match split_line (remaining fs' g' gr) with
        | Some l => exists gr', ReadLine fs' g' gr = (gr', Ok l) /\ reader_ok fs' g' lo gr' /\ remaining fs' g' gr = l ++ 10 :: remaining fs' g' gr'
        | None => (10 ∉ remaining fs' g' gr) /\ exists gr', ReadLine fs' g' gr = (gr', Err EOF)
        end)
  | (_, _, Panic) => ORotate ∈ ops
  | _ => False
  end.
Proof.
  intros Hg Hr El. split.
  { intros Hh i Hi. destruct (NewReader_ok fs g lo Hg Hh i Hi) as (r & ? & ? & ? & _ & ?). by exists r. }
  pose proof (run_reader ops fs g lo gr Hg Hr) as H. pose proof (group_run_ok ops fs g lo Hg) as H'.
  destruct (run ops fs g) as [[fs' g'] [u|e| |]]; try done; [|by destruct H']. destruct H as (Hg' & Hr' & E). split; [done|]. intros Hh. split.
  - intros n Hn. destruct (Read_ok fs' g' lo Hg' Hh gr n Hr' Hn) as (gr' & ? & ? & ?). by exists gr'.
  - pose proof (ReadLine_ok fs' g' lo Hg' Hh gr Hr' El) as HL. pose proof (split_line_spec (remaining fs' g' gr)) as Hs.
    destruct (split_line _) as [l|]; destruct HL as (gr' & ? & ? & HL); [|split; [done|by exists gr']].
    exists gr'. by destruct HL as (_ & ? & _).
Qed.

(** A group opened in an empty directory, after some operations. *)
Definition after (base : str) (ops : list op) : FS * Group :=
  match OpenGroup empty_dir base with
  | (fs, Ok g) => (run ops fs g).1
  | (fs, _) => (fs, {| Head := {| Path := base; file := None |}; headBuf := []; headSizeLimit := 0; totalSizeLimit := 0; minIndex := 0; maxIndex := 0 |})
  end.

Lemma after_ok base ops : base <> [] -> 10 ∉ base ->
  match OpenGroup empty_dir base with (fs, Ok g) => is_ok (run ops fs g).2 | _ => false end = true ->
  group_ok (after base ops).1 (after base ops).2 0.
Proof.
  intros Hb Hn. destruct (OpenGroup_ok _ _ 0 (empty_group_ok base) ltac:(done) Hb Hn) as (fs0 & g0 & E & _ & _ & _ & _ & Hg & _).
  unfold after. cbn in E. rewrite E. pose proof (group_run_ok ops fs0 g0 0 Hg) as H. destruct (run ops fs0 g0) as [[fs g] [| | |]]; try done. by intros _; destruct H.
Qed.

Definition two_files : FS * Group := after [108] [OWriteLine [97]; OFlush; ORotate; OWrite [98]; OFlush].

Lemma group_reader_witness : exists gr, NewReader two_files.1 two_files.2 0 = Ok gr /\ remaining two_files.1 two_files.2 gr = [97; 10; 98] /\
  match run [OWriteLine [99]; OFlush] two_files.1 two_files.2 with
  | (fs', g', Ok _) => remaining fs' g' gr ++ headBuf g' = [97; 10; 98] ++ [99; 10]
  | _ => False
  end.
Proof.
  assert (group_ok two_files.1 two_files.2 0) as Hg by (apply after_ok; [done|by intros [|?%elem_of_nil]%elem_of_cons|by vm_compute]).
  assert (exists gr, NewReader two_files.1 two_files.2 0 = Ok gr /\ reader_ok two_files.1 two_files.2 0 gr /\
    remaining two_files.1 two_files.2 gr = stored two_files.1 two_files.2 0 /\ curIndex gr = 0 /\ curLine gr = None) as (gr & En & Hr & Er & _ & El)
    by (apply (NewReader_ok _ _ 0 Hg); [eexists; by vm_compute|by vm_compute]).
  exists gr. split; [done|]. pose proof (group_reader _ _ 0 gr [OWriteLine [99]; OFlush] Hg Hr El) as [_ H].
  assert (is_ok (run [OWriteLine [99]; OFlush] two_files.1 two_files.2).2 = true) as Hok by (by vm_compute).
  assert (stored two_files.1 two_files.2 0 = [97; 10; 98]) as Es by (by vm_compute). assert (headBuf two_files.2 = []) as Eb by (by vm_compute).
  rewrite Er, Es in *. rewrite Eb in H. split; [done|].
  revert H Hok. generalize (run [OWriteLine [99]; OFlush] two_files.1 two_files.2). intros [[fs' g'] [u|e| |]] H Hok; [|discriminate Hok..].
  exact (proj1 H).
Defined.

(** Five files and a total limit of three bytes. *)
Definition many_files : FS * Group :=
  after [108] (OTotalLimit 3 :: concat (repeat [OWriteLine [97]; OFlush; ORotate] 4) ++ [OWrite [98]; OFlush]).

Definition sample_ops : list gop :=
  [GOp (OWriteLine [97]); GOp OFlush; GOp ORotate; GOp (OWrite [98]); GOp OFlush; GOp (OTotalLimit 2); GCheckTotal; GOp (OWrite [99])].

Lemma group_stream_witness : exists fs0 g0, OpenGroup empty_dir [108] = (fs0, Ok g0) /\
  match grun sample_ops fs0 g0 with
  | (fs, g, Ok _) => exists lo gone, gone ++ stored fs g lo ++ headBuf g = [97; 10; 98; 99]
  | (fs, g, Panic) => GOp ORotate ∈ sample_ops /\ dir fs !! [108] = None
  | _ => False
  end.
Proof.
  destruct (group_stream [108] sample_ops) as (fs0 & g0 & E & H); [done|by intros [|?%elem_of_nil]%elem_of_cons|done|].
  exists fs0, g0. split; [exact E|]. destruct (grun sample_ops fs0 g0) as [[fs g] [u|e| |]]; [|exact H..].
  destruct H as (lo & gone & _ & H & _). exists lo, gone. exact H.
Defined.

(** The same run: the first file is gone. *)
Example group_stream_trimmed :
  match OpenGroup empty_dir [108] with
  | (fs0, Ok g0) => match grun sample_ops fs0 g0 with (fs, g, Ok _) => stored fs g 1 ++ headBuf g = [98; 99] /\ dir fs !! name [108] 0 = None | _ => False end
  | _ => False
  end.
Proof. vm_compute. by split. Qed.

(** C27: In a group never trimmed whose files end with whole lines, whose markers (the lines with
    the prefix) come in the order of the comparison, and whose head has a marker, [Search] finishes: it finds an exact match whenever
    there is one, otherwise it stops at the first marker past the target, and it answers EOF only when every marker
    comes before the target. The reader it gives reads the marker found and then the lines after it. [FindLast]
    finds the last marker of the group. *)
Theorem group_search fs g prefix cmp val : group_ok fs g (minIndex g) -> is_Some (dir fs !! Path (Head g)) ->
  (forall j, minIndex g <= j <= maxIndex g -> whole (file_bytes fs g j)) ->
  (forall l, HasPrefix l prefix = true -> cmp l = Ok (val l)) ->
  sorted_markers fs g (minIndex g) prefix val ->
  (exists l, (maxIndex g, l) ∈ later fs g (minIndex g) /\ HasPrefix l prefix = true) ->
  search_ok fs g (minIndex g) prefix val (Search fs g prefix cmp) /\
  FindLast fs g prefix = Ok (last_marker prefix (later fs g (minIndex g)) None).
Proof. intros Hg Hh Hw Hc Hs Hl. split; [by apply Search_ok|by apply FindLast_ok]. Qed.

(** The markers 1, 2 and 4 in three files. *)
Definition three_files : FS * Group :=
  after [108] [OWriteLine [35; 49]; OWriteLine [97]; OFlush; ORotate; OWriteLine [35; 50]; OFlush; ORotate; OWriteLine [98]; OWriteLine [35; 52]; OFlush].

(** The value of a marker [#n] against a target. *)
Definition marker_val (target : Z) (l : str) : Z :=
  match MakeSimpleSearchFunc [35] target l with Ok v => v | _ => 0 end.

Lemma group_search_witness : exists r,
  Search three_files.1 three_files.2 [35] (fun l => Ok (marker_val 2 l)) = Ok (r, true) /\
  found three_files.1 three_files.2 0 [35] (marker_val 2) r true /\
  FindLast three_files.1 three_files.2 [35] = Ok (Some [35; 52]).
Proof.
  assert (group_ok three_files.1 three_files.2 0) as Hg by (apply after_ok; [done|by intros [|?%elem_of_nil]%elem_of_cons|by vm_compute]).
  assert (minIndex three_files.2 = 0) as Emi by (by vm_compute). assert (maxIndex three_files.2 = 2) as Em by (by vm_compute).
  assert (later three_files.1 three_files.2 0 = [(0, [35; 49]); (0, [97]); (1, [35; 50]); (2, [98]); (2, [35; 52])]) as El by (by vm_compute).
  pose proof (group_search three_files.1 three_files.2 [35] (fun l => Ok (marker_val 2 l)) (marker_val 2)) as H. rewrite Emi, Em in H.
  destruct H as [H1 H2].
  - exact Hg.
  - eexists. by vm_compute.
  - intros j Hj. assert (j = 0 \/ j = 1 \/ j = 2) as [->|[->| ->]] by lia; right.
    + exists [35; 49; 10; 97]. by vm_compute.
    + exists [35; 50]. by vm_compute.
    + exists [98; 10; 35; 52]. by vm_compute.
  - done.
  - unfold sorted_markers. rewrite El.
    assert (markers [35] [(0, [35; 49]); (0, [97]); (1, [35; 50]); (2, [98]); (2, [35; 52])] = [(0, [35; 49]); (1, [35; 50]); (2, [35; 52])]) as -> by (by vm_compute).
    repeat constructor; vm_compute; discriminate.
  - exists [35; 52]. rewrite El. split; [|done]. do 4 right. left.
  - assert (exists r, Search three_files.1 three_files.2 [35] (fun l => Ok (marker_val 2 l)) = Ok (r, true)) as [r E] by (eexists; by vm_compute).
    exists r. rewrite E in H1. split; [exact E|]. split; [exact H1|]. rewrite H2, El. by vm_compute.
Defined.

Definition rotated : FS * Group := after [108] [OWriteLine [97]; OFlush; ORotate].
Definition unfinished : FS * Group := after [108] [OWrite [97]; OFlush].
Definition finished : FS * Group := (run [OWriteLine [98]; OFlush] unfinished.1 unfinished.2).1.
Definition marker_first : FS * Group :=
  after [108] [OWriteLine [35; 49]; OFlush; ORotate; OWriteLine [97]; OFlush; ORotate; OWriteLine [98]; OFlush].
Definition split_marker : FS * Group := after [108] [OWrite [97; 35]; OFlush; ORotate; OWriteLine [35; 49]; OFlush].
Definition trimmed : R FS := checkTotalSizeLimit many_files.1 many_files.2.

(** What groups get wrong. Between a rotation and the next write a second rotation panics, and a
    reader of the head and [FindLast] fail with a missing file. A reader that meets the end of the group in the middle of a
    line loses the part read. [Search] answers EOF for a marker that is there when the files
    from the middle on have none. [FindLast] takes the end of a line that is split over two files for a line. After a
    trim [Search] and [FindLast] fail until the group is opened again. A new group
    counts the files of another group whose name starts with its own. *)
Theorem group_defects :
  (run [ORotate] rotated.1 rotated.2).2 = Panic /\ NewReader rotated.1 rotated.2 1 = Err NotExist /\
  FindLast rotated.1 rotated.2 [97] = Err NotExist /\
  (exists r, NewReader unfinished.1 unfinished.2 0 = Ok r /\
    let '(r, l) := ReadLine unfinished.1 unfinished.2 r in l = Err EOF /\
    (ReadLine finished.1 finished.2 r).2 = Ok [98] /\ stored finished.1 finished.2 0 = [97; 98; 10]) /\
  Search marker_first.1 marker_first.2 [35] (MakeSimpleSearchFunc [35] 1) = Err EOF /\
  stored marker_first.1 marker_first.2 0 = [35; 49; 10; 97; 10; 98; 10] /\
  FindLast split_marker.1 split_marker.2 [35] = Ok (Some [35; 49]) /\ lines (stored split_marker.1 split_marker.2 0) = [[97; 35; 35; 49]] /\
  FindLast many_files.1 many_files.2 [97] = Ok (Some [97]) /\
  (exists fs, trimmed = Ok fs /\ FindLast fs many_files.2 [97] = Err NotExist /\ Search fs many_files.2 [98] (fun _ => Ok 0) = Err NotExist) /\
  (exists g, (OpenGroup many_files.1 [108; 46; 48]).2 = Ok g /\ maxIndex g = 4).
Proof.
  repeat match goal with |- _ /\ _ => split end;
    match goal with
    | |- exists _, _ => eexists; split; [vm_compute; reflexivity|]; vm_compute; try split; try split; reflexivity
    | |- _ => vm_compute; reflexivity
    end.
Qed.
