(* ===== verification/QueryPeg.v ===== *)
(** * The parser of subscription queries

    src/tendermint/tmlibs/pubsub/query/query.peg.go. The parser walks over the runes of the query and records a
    token for each rule that matches; a rule that fails takes back the position and the tokens but not the
    farthest token seen, which the error message shows. The blocks the generator repeats (a character, an optional
    blank, a choice, a repetition) are combinators; each rule is one definition. Positions are natural numbers: the
    32-bit counters of the code do not wrap around below 2^32 runes.

    The second half of the file has the lemmas on the combinators. *)
From S2P Require Import Prelude GoStrings GoText.
From stdpp Require Import list.
Local Open Scope Z_scope.

Abbreviation str := (list Z) (only parsing).

Definition endSymbol : Z := 1114112.

Inductive pegRule :=
| ruleUnknown | rulee | rulecondition | ruletag | rulevalue | rulenumber | ruledigit | ruletime | ruledate | ruleyear
| rulemonth | ruleday | ruleand | ruleequal | rulecontains | rulele | rulege | rulel | ruleg | rulePegText.

Record token32 := Token { rule_ : pegRule; begin_ : nat; end_ : nat }.

(** The variables of the parser: the position, the tokens so far and the farthest token. *)
Record parser := { position : nat; tokens : list token32; max : token32 }.

(** What a rule does: it matches and moves on, it fails with the farthest token, or it reads past the buffer. *)
Inductive outcome := Yes (p : parser) | No (m : token32) | Out_of_range.

Definition rule := parser -> outcome.

Definition with_max (p : parser) (m : token32) : parser := {| position := position p; tokens := tokens p; max := m |}.

(** ** The blocks of the generated code *)

Section blocks.
Context (buffer : list Z).

Definition fails : rule := fun p => No (max p).
Definition succeeds : rule := fun p => Yes p.

(** [buffer[position]], tested and passed. *)
Definition matchRune (ok : Z -> bool) : rule := fun p =>
  match buffer !! position p with
  | Some c => if ok c then Yes {| position := S (position p); tokens := tokens p; max := max p |} else No (max p)
  | None => Out_of_range
  end.

Definition matchChar (c : Z) : rule := matchRune (Z.eqb c).
Definition matchDot : rule := matchRune (fun c => negb (c =? endSymbol)).
Definition matchRange (lo hi : Z) : rule := matchRune (fun c => (lo <=? c) && (c <=? hi)).

Definition seq_ (r1 r2 : rule) : rule := fun p =>
  match r1 p with Yes p' => r2 p' | o => o end.

Definition alt (r1 r2 : rule) : rule := fun p =>
  match r1 p with No m => r2 (with_max p m) | o => o end.

(** A negative lookahead. *)
Definition nomatch (r : rule) : rule := fun p =>
  match r p with
  | Yes p' => No (max p')
  | No m => Yes (with_max p m)
  | Out_of_range => Out_of_range
  end.

Fixpoint star_loop (fuel : nat) (r : rule) : rule := fun p =>
  match fuel with
  | O => Yes p
  | S fuel' => match r p with Yes p' => star_loop fuel' r p' | No m => Yes (with_max p m) | o => o end
  end.

(** Each round passes a rune. *)
Definition star (r : rule) : rule := star_loop (S (length buffer)) r.

(** A choice by the next rune. *)
Definition switch (k : Z -> rule) : rule := fun p =>
  match buffer !! position p with Some c => k c p | None => Out_of_range end.

Definition add (t : pegRule) (begin : nat) (p : parser) : parser :=
  let k := Token t begin (position p) in
  {| position := position p; tokens := tokens p ++ [k];
     max := if negb (begin =? position p)%nat && (end_ (max p) <? position p)%nat then k else max p |}.

Definition mark (t : pegRule) (r : rule) : rule := fun p =>
  match r p with Yes p' => Yes (add t (position p) p') | o => o end.

Definition text (r : rule) : rule := mark rulePegText r.

(** A letter in either case, the small one tried first. *)
Definition letter (c : Z) : rule := alt (matchChar c) (matchChar (c - 32)).

Fixpoint word (s : str) : rule :=
  match s with [] => succeeds | c :: s' => seq_ (letter c) (word s') end.

Definition blanks : rule := star (matchChar 32).

(** ** The rules *)

Definition digit : rule := mark ruledigit (matchRange 48 57).
Definition year : rule := mark ruleyear (seq_ (alt (matchChar 49) (matchChar 50)) (seq_ digit (seq_ digit digit))).
Definition month : rule := mark rulemonth (seq_ (alt (matchChar 48) (matchChar 49)) digit).
Definition day : rule := mark ruleday
  (seq_ (switch (fun c => if c =? 51 then matchChar 51 else if c =? 50 then matchChar 50 else if c =? 49 then matchChar 49 else matchChar 48)) digit).

Definition ymd : rule := seq_ year (seq_ (matchChar 45) (seq_ month (seq_ (matchChar 45) day))).
Definition two_digits : rule := seq_ digit digit.
Definition hm : rule := seq_ two_digits (seq_ (matchChar 58) two_digits).

Definition date : rule := mark ruledate
  (seq_ (word [100; 97; 116; 101]) (seq_ (matchChar 32) (text ymd))).

Definition time : rule := mark ruletime
  (seq_ (word [116; 105; 109; 101]) (seq_ (matchChar 32) (text
    (seq_ ymd (seq_ (matchChar 84) (seq_ hm (seq_ (matchChar 58) (seq_ two_digits
      (alt (seq_ (alt (matchChar 45) (matchChar 43)) hm) (matchChar 90)))))))))).

Definition number : rule := mark rulenumber (text
  (alt (matchChar 48)
    (seq_ (matchRange 49 57) (seq_ (star digit) (alt (seq_ (matchChar 46) (star digit)) succeeds))))).

Definition value : rule := mark rulevalue (text
  (seq_ (matchChar 39)
    (seq_ (star (seq_ (nomatch (alt (matchChar 34) (matchChar 39))) matchDot)) (matchChar 39)))).

(** The runes a tag does not have: blank, tab, newline, return, backslash, parentheses, quotes and comparisons. *)
Definition reserved : rule := switch (fun c =>
  if c =? 60 then matchChar 60 else if c =? 62 then matchChar 62 else if c =? 61 then matchChar 61
  else if c =? 39 then matchChar 39 else if c =? 34 then matchChar 34 else if c =? 41 then matchChar 41
  else if c =? 40 then matchChar 40 else if c =? 92 then matchChar 92 else if c =? 13 then matchChar 13
  else if c =? 10 then matchChar 10 else if c =? 9 then matchChar 9 else matchChar 32).

Definition tag_rune : rule := seq_ (nomatch reserved) matchDot.
Definition tag : rule := mark ruletag (text (seq_ tag_rune (star tag_rune))).

(** [c] is one of two letters. *)
Definition either (a b c : Z) : bool := (c =? a) || (c =? b).

Definition number_or_time : rule := switch (fun c =>
  if either 68 100 c then date else if either 84 116 c then time else number).
Definition any_operand : rule := switch (fun c =>
  if c =? 39 then value else if either 68 100 c then date else if either 84 116 c then time else number).

Definition le : rule := mark rulele (seq_ (matchChar 60) (matchChar 61)).
Definition ge : rule := mark rulege (seq_ (matchChar 62) (matchChar 61)).
Definition equal : rule := mark ruleequal (matchChar 61).
Definition g : rule := mark ruleg (matchChar 62).
Definition l : rule := mark rulel (matchChar 60).
Definition contains : rule := mark rulecontains (word [99; 111; 110; 116; 97; 105; 110; 115]).

(** An operator with its operand: the longer operators first, then by the next rune. *)
Definition comparison : rule :=
  alt (seq_ le (seq_ blanks number_or_time))
    (alt (seq_ ge (seq_ blanks number_or_time))
    (switch (fun c =>
      if c =? 61 then seq_ equal (seq_ blanks any_operand)
      else if c =? 62 then seq_ g (seq_ blanks number_or_time)
      else if c =? 60 then seq_ l (seq_ blanks number_or_time)
      else seq_ contains (seq_ blanks value)))).

Definition condition : rule := mark rulecondition (seq_ tag (seq_ blanks comparison)).

Definition and_ : rule := mark ruleand (word [97; 110; 100]).

(** A further condition. *)
Definition further_rule : rule :=
  seq_ (matchChar 32) (seq_ blanks (seq_ and_ (seq_ (matchChar 32) (seq_ blanks condition)))).

Definition e : rule := mark rulee
  (seq_ (matchChar 34) (seq_ condition (seq_ (star further_rule) (seq_ (matchChar 34) (nomatch matchDot))))).
End blocks.

(** ** The parser *)

(** [reset]: the runes with the end symbol, unless they have it. *)
Definition reset (Buffer : str) : list Z :=
  let rs := runes Buffer in
  if match last rs with Some c => negb (c =? endSymbol) | None => true end then rs ++ [endSymbol] else rs.

Inductive parse_err := Parse_error (max : token32).

Definition Parse (Buffer : str) : res parse_err (list token32) :=
  match e (reset Buffer) {| position := 0; tokens := []; max := Token ruleUnknown 0 0 |} with
  | Yes p => Ok (tokens p)
  | No m => Err (Parse_error m)
  | Out_of_range => Panic
  end.

(** ** The blocks of the query parser

    Three views of a rule: it accepts a text in front of a rest and records the tokens that matter ([acc]), it rejects a
    text ([rej]), and whatever it accepts is in a language ([sound]). Each block of the parser takes them from
    its parts. A rule never reads past the end symbol ([safe]). *)

(** The tokens the conditions are read from. *)
Definition relevant (r : pegRule) : bool :=
  match r with
  | rulePegText | ruletag | rulele | rulege | rulel | ruleg | ruleequal | rulecontains | rulevalue | rulenumber | ruletime | ruledate => true
  | _ => false
  end.
Definition shown (ts : list token32) : list token32 := filter (fun t => relevant (rule_ t) = true) ts.

Lemma shown_app a b : shown (a ++ b) = shown a ++ shown b.
Proof. apply filter_app. Qed.

Definition own (t : pegRule) (i n : nat) : list token32 := if relevant t then [Token t i (i + n)] else [].

Lemma shown_own t i n : shown [Token t i (i + n)] = own t i n.
Proof. unfold shown, own. cbn. by destruct (relevant t). Qed.

Abbreviation Par i ts m := {| position := i; tokens := ts; max := m |}.
Definition marks := nat -> list token32.
Definition nil_marks : marks := fun _ => [].
Definition app_marks (k1 : marks) (n : nat) (k2 : marks) : marks := fun i => k1 i ++ k2 (i + n)%nat.

Section rules.
Context (buffer : list Z).

Definition acc (r : rule) (w : list Z) (ks : marks) (rest : list Z) : Prop := forall i ts m, drop i buffer = w ++ rest ->
  exists m' ts', r (Par i ts m) = Yes (Par (i + length w)%nat (ts ++ ts') m') /\ shown ts' = ks i.

Definition rej (r : rule) (s : list Z) : Prop := forall i ts m, drop i buffer = s -> exists m', r (Par i ts m) = No m'.

(** ** Accepting *)

Lemma drop_cons i c s : drop i buffer = c :: s -> buffer !! i = Some c /\ drop (S i) buffer = s.
Proof.
  intros H. split; [by rewrite <- (Nat.add_0_r i), <- lookup_drop, H|]. by rewrite <- Nat.add_1_r, <- drop_drop, H.
Qed.

Lemma drop_app_rest i w rest : drop i buffer = w ++ rest -> drop (i + length w) buffer = rest.
Proof. intros H. by rewrite <- drop_drop, H, drop_app_length. Qed.

Lemma acc_ext r w k k' rest : (forall i, k i = k' i) -> acc r w k rest -> acc r w k' rest.
Proof. intros E H i ts m Hd. destruct (H i ts m Hd) as (m' & ts' & ? & Hs). exists m', ts'. by rewrite <- E. Qed.

Lemma acc_rune ok c rest : ok c = true -> acc (matchRune buffer ok) [c] nil_marks rest.
Proof.
  intros Hc i ts m [E _]%drop_cons. exists m, []. unfold matchRune. cbn. rewrite E, Hc, app_nil_r. split; [|done]. by rewrite Nat.add_1_r.
Qed.

Lemma rej_rune ok c s : ok c = false -> rej (matchRune buffer ok) (c :: s).
Proof. intros Hc i ts m [E _]%drop_cons. exists m. unfold matchRune. cbn. by rewrite E, Hc. Qed.

Lemma acc_char c rest : acc (matchChar buffer c) [c] nil_marks rest.
Proof. apply acc_rune, Z.eqb_refl. Qed.

Lemma rej_char c x s : c <> x -> rej (matchChar buffer c) (x :: s).
Proof. intros H. by apply rej_rune, Z.eqb_neq. Qed.

Lemma acc_succeeds rest : acc succeeds [] nil_marks rest.
Proof. intros i ts m _. exists m, []. unfold succeeds. by rewrite Nat.add_0_r, app_nil_r. Qed.

Lemma acc_seq r1 r2 w1 w2 k1 k2 rest : acc r1 w1 k1 (w2 ++ rest) -> acc r2 w2 k2 rest ->
  acc (seq_ r1 r2) (w1 ++ w2) (app_marks k1 (length w1) k2) rest.
Proof.
  intros H1 H2 i ts m Hd. rewrite <- app_assoc in Hd. destruct (H1 i ts m Hd) as (m1 & t1 & E1 & S1).
  destruct (H2 (i + length w1)%nat (ts ++ t1) m1 (drop_app_rest _ _ _ Hd)) as (m2 & t2 & E2 & S2).
  exists m2, (t1 ++ t2). unfold seq_. rewrite E1, E2, length_app, app_assoc, Nat.add_assoc. split; [done|]. by rewrite shown_app, S1, S2.
Qed.

Lemma rej_seq1 r1 r2 s : rej r1 s -> rej (seq_ r1 r2) s.
Proof. intros H i ts m Hd. destruct (H i ts m Hd) as (m' & E). exists m'. unfold seq_. by rewrite E. Qed.

Lemma rej_seq2 r1 r2 w k rest : acc r1 w k rest -> rej r2 rest -> rej (seq_ r1 r2) (w ++ rest).
Proof.
  intros H1 H2 i ts m Hd. destruct (H1 i ts m Hd) as (m1 & t1 & E1 & _). destruct (H2 _ (ts ++ t1) m1 (drop_app_rest _ _ _ Hd)) as (m2 & E2).
  exists m2. unfold seq_. by rewrite E1.
Qed.

Lemma acc_alt1 r1 r2 w k rest : acc r1 w k rest -> acc (alt r1 r2) w k rest.
Proof. intros H i ts m Hd. destruct (H i ts m Hd) as (m' & ts' & E & S). exists m', ts'. unfold alt. by rewrite E. Qed.

Lemma acc_alt2 r1 r2 w k rest : rej r1 (w ++ rest) -> acc r2 w k rest -> acc (alt r1 r2) w k rest.
Proof.
  intros H1 H2 i ts m Hd. destruct (H1 i ts m Hd) as (m1 & E1). destruct (H2 i ts m1 Hd) as (m2 & t2 & E2 & S2).
  exists m2, t2. unfold alt. by rewrite E1.
Qed.

Lemma rej_alt r1 r2 s : rej r1 s -> rej r2 s -> rej (alt r1 r2) s.
Proof.
  intros H1 H2 i ts m Hd. destruct (H1 i ts m Hd) as (m1 & E1). destruct (H2 i ts m1 Hd) as (m2 & E2). exists m2. unfold alt. by rewrite E1.
Qed.

Lemma acc_nomatch r s : rej r s -> acc (nomatch r) [] nil_marks s.
Proof.
  intros H i ts m Hd. destruct (H i ts m Hd) as (m' & E). exists m', []. unfold nomatch. by rewrite E, Nat.add_0_r, app_nil_r.
Qed.

Lemma rej_nomatch r w k rest : acc r w k rest -> rej (nomatch r) (w ++ rest).
Proof. intros H i ts m Hd. destruct (H i ts m Hd) as (m' & t' & E & _). exists m'. unfold nomatch. by rewrite E. Qed.

Lemma acc_switch f c w k rest : head (w ++ rest) = Some c -> acc (f c) w k rest -> acc (switch buffer f) w k rest.
Proof.
  intros Hc H i ts m Hd. destruct (w ++ rest) as [|c' s] eqn:E; [done|]. injection Hc as ->. destruct (drop_cons _ _ _ Hd) as [El _].
  destruct (H i ts m ltac:(by rewrite E)) as (m' & t' & E' & S'). exists m', t'. unfold switch. cbn. by rewrite El.
Qed.

Lemma rej_switch f c s : rej (f c) (c :: s) -> rej (switch buffer f) (c :: s).
Proof.
  intros H i ts m Hd. destruct (H i ts m Hd) as (m' & E). exists m'. apply drop_cons in Hd as [El _]. unfold switch. cbn. by rewrite El.
Qed.

Lemma acc_mark t r w k rest : acc r w k rest -> acc (mark t r) w (fun i => k i ++ own t i (length w)) rest.
Proof.
  intros H i ts m Hd. destruct (H i ts m Hd) as (m' & t' & E & S'). unfold mark. rewrite E. eexists _, (t' ++ [Token t i (i + length w)]).
  unfold add. cbn. rewrite app_assoc. split; [done|]. by rewrite shown_app, S', shown_own.
Qed.

Lemma rej_mark t r s : rej r s -> rej (mark t r) s.
Proof. intros H i ts m Hd. destruct (H i ts m Hd) as (m' & E). exists m'. unfold mark. by rewrite E. Qed.

(** *** Repetition *)

Section star.
Context {A : Type} (r : rule) (pr : A -> list Z) (kk : A -> marks) (follow : list Z -> Prop).
Context (Hacc : forall x rest, follow rest -> acc r (pr x) (kk x) rest).
Context (Hne : forall x, pr x <> []) (Hf : forall x rest, follow rest -> follow (pr x ++ rest)).

Fixpoint all_marks (xs : list A) : marks :=
  match xs with [] => nil_marks | x :: xs' => app_marks (kk x) (length (pr x)) (all_marks xs') end.

Lemma follow_all xs rest : follow rest -> follow (concat (map pr xs) ++ rest).
Proof. intros H. induction xs as [|x xs IH]; [done|]. cbn. rewrite <- app_assoc. by apply Hf. Qed.

Lemma acc_star_loop xs : forall fuel rest, (length xs < fuel)%nat -> follow rest -> rej r rest ->
  acc (star_loop fuel r) (concat (map pr xs)) (all_marks xs) rest.
Proof.
  induction xs as [|x xs IH]; intros [|fuel] rest Hl Hr Hj i ts m Hd; cbn in Hl; try lia.
  - destruct (Hj i ts m Hd) as (m' & E). exists m', []. cbn. by rewrite E, Nat.add_0_r, app_nil_r.
  - cbn [map concat] in *. rewrite <- app_assoc in Hd.
    destruct (Hacc x _ (follow_all xs rest Hr) i ts m Hd) as (m1 & t1 & E1 & S1).
    destruct (IH fuel rest ltac:(lia) Hr Hj (i + length (pr x))%nat (ts ++ t1) m1 (drop_app_rest _ _ _ Hd)) as (m2 & t2 & E2 & S2).
    exists m2, (t1 ++ t2). cbn [star_loop]. rewrite E1, E2, length_app, app_assoc, Nat.add_assoc. split; [done|].
    cbn. unfold app_marks. by rewrite shown_app, S1, S2.
Qed.

Lemma all_length xs : (length xs <= length (concat (map pr xs)))%nat.
Proof.
  induction xs as [|x xs IH]; cbn; [lia|]. rewrite length_app. pose proof (Hne x). destruct (pr x); [done|]. cbn. lia.
Qed.

Lemma acc_star xs rest : follow rest -> rej r rest -> acc (star buffer r) (concat (map pr xs)) (all_marks xs) rest.
Proof.
  intros Hr Hj i ts m Hd. refine (acc_star_loop xs (S (length buffer)) rest _ Hr Hj i ts m Hd). pose proof (all_length xs).
  apply (f_equal length) in Hd. rewrite length_drop, length_app in Hd. lia.
Qed.
End star.

(** A repetition of runes. *)
Lemma acc_star_runes r (P : Z -> Prop) ws rest : (forall c s, P c -> acc r [c] nil_marks s) -> Forall P ws -> rej r rest ->
  acc (star buffer r) ws nil_marks rest.
Proof.
  intros Hr Hws Hj.
  assert (exists xs : list (sig P), ws = concat (map (fun x => [`x]) xs)) as [xs ->].
  { induction Hws as [|c ws Hc _ [xs ->]]; [by exists []|]. by exists (exist _ c Hc :: xs). }
  apply (acc_ext _ _ (all_marks (fun x : sig P => [`x]) (fun _ => nil_marks) xs)).
  { intros i. revert i. clear. induction xs as [|x xs IH]; intros i; cbn; [done|]. unfold app_marks. by rewrite IH. }
  apply (acc_star r _ _ (fun _ => True)); try done. intros [c Hc] s _. by apply Hr.
Qed.

(** ** What is accepted *)

(** A language: the position, the text, the tokens that matter and the rest. *)
Definition lang := nat -> list Z -> list token32 -> list Z -> Prop.

Definition sound (r : rule) (L : lang) : Prop := forall p p', r p = Yes p' -> exists w ts',
  drop (position p) buffer = w ++ drop (position p') buffer /\ position p' = (position p + length w)%nat /\
  tokens p' = tokens p ++ ts' /\ L (position p) w (shown ts') (drop (position p') buffer).

Lemma peg_sound_weaken r (L L' : lang) : (forall i w ks rest, L i w ks rest -> L' i w ks rest) -> sound r L -> sound r L'.
Proof. intros HL H p p' E. destruct (H p p' E) as (w & ts & ? & ? & ? & ?). exists w, ts. split_and!; try done. by apply HL. Qed.

Definition one (ok : Z -> bool) : lang := fun _ w ks _ => ks = [] /\ exists c, ok c = true /\ w = [c].

Lemma sound_rune ok : sound (matchRune buffer ok) (one ok).
Proof.
  intros p p' E. unfold matchRune in E. destruct (buffer !! position p) as [c|] eqn:El; [|done]. destruct (ok c) eqn:Ec; [|done].
  injection E as <-. exists [c], []. cbn. split_and!; [by apply drop_S|lia|by rewrite app_nil_r|]. split; [done|]. by exists c.
Qed.

Lemma sound_char c : sound (matchChar buffer c) (fun _ w ks _ => w = [c] /\ ks = []).
Proof. eapply peg_sound_weaken; [|apply sound_rune]. intros i w ks rest [-> (x & Hx%Z.eqb_eq & ->)]. by subst. Qed.

Lemma sound_succeeds : sound succeeds (fun _ w ks _ => w = [] /\ ks = []).
Proof. intros p p' [= <-]. exists [], []. cbn. by rewrite Nat.add_0_r, app_nil_r. Qed.

Definition cat (L1 L2 : lang) : lang := fun i w ks rest => exists w1 w2 k1 k2, w = w1 ++ w2 /\ ks = k1 ++ k2 /\
  L1 i w1 k1 (w2 ++ rest) /\ L2 (i + length w1)%nat w2 k2 rest.

Lemma sound_seq r1 r2 L1 L2 : sound r1 L1 -> sound r2 L2 -> sound (seq_ r1 r2) (cat L1 L2).
Proof.
  intros H1 H2 p p'' E. unfold seq_ in E. destruct (r1 p) as [p'| |] eqn:E1; try done.
  destruct (H1 p p' E1) as (w1 & t1 & D1 & P1 & T1 & S1). destruct (H2 p' p'' E) as (w2 & t2 & D2 & P2 & T2 & S2).
  exists (w1 ++ w2), (t1 ++ t2). rewrite D2 in D1, S1. split_and!; [by rewrite D1, app_assoc|rewrite length_app; lia|by rewrite T2, T1, app_assoc|].
  exists w1, w2, (shown t1), (shown t2). rewrite shown_app, <- P1. by split_and!.
Qed.

Lemma sound_alt r1 r2 L1 L2 : sound r1 L1 -> sound r2 L2 -> sound (alt r1 r2) (fun i w ks rest => L1 i w ks rest \/ L2 i w ks rest).
Proof.
  intros H1 H2 p p' E. unfold alt in E. destruct (r1 p) as [p1|m|] eqn:E1; try done.
  - injection E as ->. destruct (H1 p p' E1) as (w & t & ? & ? & ? & ?). exists w, t. split_and!; try done. by left.
  - destruct (H2 _ p' E) as (w & t & ? & ? & ? & ?). exists w, t. split_and!; try done. by right.
Qed.

(** A rule does not match in front of this text. *)
Definition stuck (r : rule) (s : list Z) : Prop := forall w k rest, s = w ++ rest -> ~ acc r w k rest.

Lemma No_stuck r p m : r p = No m -> stuck r (drop (position p) buffer).
Proof. intros E w k rest Hd H. destruct p as [i ts m0]. destruct (H i ts m0 Hd) as (m' & ts' & E' & _). congruence. Qed.

Lemma sound_nomatch r : sound (nomatch r) (fun _ w ks rest => w = [] /\ ks = [] /\ stuck r rest).
Proof.
  intros p p' E. unfold nomatch in E. destruct (r p) as [|m|] eqn:Er; try done. injection E as <-. exists [], []. cbn.
  rewrite Nat.add_0_r, app_nil_r. split_and!; try done. by eapply No_stuck.
Qed.

Lemma sound_switch f Lf : (forall c, sound (f c) (Lf c)) -> sound (switch buffer f) (fun i w ks rest => exists c, head (w ++ rest) = Some c /\ Lf c i w ks rest).
Proof.
  intros H p p' E. unfold switch in E. destruct (buffer !! position p) as [c|] eqn:El; [|done].
  destruct (H c p p' E) as (w & t & D & ? & ? & ?). exists w, t. split_and!; try done. exists c. split; [|done].
  by rewrite <- D, (drop_S _ _ _ El).
Qed.

Definition marked (t : pegRule) (L : lang) : lang := fun i w ks rest => exists ks', ks = ks' ++ own t i (length w) /\ L i w ks' rest.

Lemma sound_mark t r L : sound r L -> sound (mark t r) (marked t L).
Proof.
  intros H p p'' E. unfold mark in E. destruct (r p) as [p'| |] eqn:Er; try done. injection E as <-.
  destruct (H p p' Er) as (w & t' & D & P & T & S'). exists w, (t' ++ [Token t (position p) (position p')]). unfold add. cbn.
  split_and!; [done|done|by rewrite T, app_assoc|]. exists (shown t'). split; [|done]. by rewrite shown_app, P, shown_own.
Qed.

Inductive rep (L : lang) : lang :=
| rep_nil i rest : rep L i [] [] rest
| rep_cons i w1 w2 k1 k2 rest : L i w1 k1 (w2 ++ rest) -> rep L (i + length w1)%nat w2 k2 rest -> rep L i (w1 ++ w2) (k1 ++ k2) rest.

Lemma sound_star r L : sound r L -> (forall i w ks rest, L i w ks rest -> w <> []) ->
  sound (star buffer r) (fun i w ks rest => rep L i w ks rest /\ stuck r rest).
Proof.
  intros H Hne p p' E. unfold star in E.
  assert (length (drop (position p) buffer) < S (length buffer))%nat as Hl by (rewrite length_drop; lia).
  revert p Hl E. generalize (S (length buffer)). intros fuel. induction fuel as [|fuel IH]; intros p Hl E; [lia|]. cbn in E.
  destruct (r p) as [p1|m|] eqn:Er; try done.
  - destruct (H p p1 Er) as (w1 & t1 & D1 & P1 & T1 & S1). pose proof (Hne _ _ _ _ S1) as Hw.
    assert (length (drop (position p1) buffer) < fuel)%nat as Hl1.
    { rewrite D1, length_app in Hl. destruct w1; [done|]. cbn in Hl. lia. }
    destruct (IH p1 Hl1 E) as (w2 & t2 & D2 & P2 & T2 & S2 & Hs). exists (w1 ++ w2), (t1 ++ t2). rewrite D2 in D1, S1.
    split_and!; [by rewrite D1, app_assoc|rewrite length_app; lia|by rewrite T2, T1, app_assoc| |done].
    rewrite shown_app. constructor; [done|]. by rewrite <- P1.
  - injection E as <-. exists [], []. cbn. rewrite Nat.add_0_r, app_nil_r. split_and!; try done; [constructor|by eapply No_stuck].
Qed.

Lemma rep_runes P i w ks rest : rep (fun _ w ks _ => ks = [] /\ exists c, P c /\ w = [c]) i w ks rest -> ks = [] /\ Forall P w.
Proof.
  induction 1 as [|i w1 w2 k1 k2 rest [-> (c & Hc & ->)] _ [-> IH]]; [done|]. split; [done|]. by constructor.
Qed.

(** ** Staying in the buffer *)

Context (Hend : last buffer = Some endSymbol).

Definition safe (r : rule) : Prop := forall p, (position p < length buffer)%nat ->
  match r p with Yes p' => (position p' < length buffer)%nat | No _ => True | Out_of_range => False end.

Lemma safe_rune ok : ok endSymbol = false -> safe (matchRune buffer ok).
Proof.
  intros Hok p Hp. unfold matchRune. destruct (lookup_lt_is_Some_2 _ _ Hp) as [c El]. rewrite El. destruct (ok c) eqn:Ec; [|done]. cbn.
  destruct (decide (S (position p) = length buffer)) as [E|]; [|lia]. rewrite last_lookup, <- E in Hend. cbn in Hend. congruence.
Qed.

Lemma safe_seq r1 r2 : safe r1 -> safe r2 -> safe (seq_ r1 r2).
Proof. intros H1 H2 p Hp. unfold seq_. specialize (H1 p Hp). destruct (r1 p) as [p'| |]; try done. by apply H2. Qed.

Lemma safe_alt r1 r2 : safe r1 -> safe r2 -> safe (alt r1 r2).
Proof. intros H1 H2 p Hp. unfold alt. specialize (H1 p Hp). destruct (r1 p) as [p'| |]; try done. by apply H2. Qed.

Lemma safe_nomatch r : safe r -> safe (nomatch r).
Proof. intros H p Hp. unfold nomatch. specialize (H p Hp). by destruct (r p). Qed.

Lemma safe_star r : safe r -> safe (star buffer r).
Proof.
  intros H. unfold star. generalize (S (length buffer)). intros fuel. induction fuel as [|fuel IH]; intros p Hp; cbn; [done|].
  specialize (H p Hp). destruct (r p) as [p'| |]; try done. by apply IH.
Qed.

Lemma safe_switch f : (forall c, safe (f c)) -> safe (switch buffer f).
Proof. intros H p Hp. unfold switch. destruct (lookup_lt_is_Some_2 _ _ Hp) as [c ->]. by apply H. Qed.

Lemma safe_mark t r : safe r -> safe (mark t r).
Proof. intros H p Hp. unfold mark. specialize (H p Hp). by destruct (r p). Qed.

Lemma safe_succeeds : safe succeeds.
Proof. by intros p Hp. Qed.
End rules.
