(* ===== verification/Query.v ===== *)
(** * Subscription queries

    src/tendermint/tmlibs/pubsub/query/query.go and empty.go: a query is a text and the tokens its parser recorded; the
    conditions are read off the tokens. The tokens count runes and the text is sliced in bytes, as in the code. What the
    standard library does outside of the grammar (a fraction of a second, an exponent, a float beyond the integers) is a
    parameter. *)

From stdpp Require Import gmap list.
From Stdlib Require Import SpecFloat.
From S2P Require Import Prelude GoStrings GoText QueryPeg.

Local Open Scope Z_scope.

Inductive Operator := OpLessEqual | OpGreaterEqual | OpLess | OpGreater | OpEqual | OpContains.

(** The operand of a condition: [interface{}] with one of four types. *)
Inductive Operand := OString (s : list Z) | OFloat64 (f : float) | OInt64 (z : Z) | OTime (t : Z).

Record Condition := { Tag : list Z; Op : Operator; Operand_ : Operand }.

(** The value of a tag: [interface{}]. *)
Inductive tag_value :=
| VTime (t : Z) | VFloat64 (f : float) | VFloat32 (f : float)
| VInt (z : Z) | VInt8 (z : Z) | VInt16 (z : Z) | VInt32 (z : Z) | VInt64 (z : Z)
| VString (s : list Z) | VOther.

Definition tagMap := gmap (list Z) tag_value.
Definition Get (ts : tagMap) (key : list Z) : option tag_value := ts !! key.
Definition Len (ts : tagMap) : Z := Z.of_nat (size ts).

Record Query := { q_str : list Z; q_tokens : list token32 }.

Definition Buffer (s : list Z) : list Z := 34 :: s ++ [34].

Definition New (s : list Z) : res parse_err Query :=
  let* ts := Parse (Buffer s) in Ok {| q_str := s; q_tokens := ts |}.

Definition MustParse (s : list Z) : res parse_err Query :=
  match New s with Err _ => Panic | r => r end.

Definition String_ (q : Query) : list Z := q_str q.

Definition slice (s : list Z) (b e : nat) : list Z := take (e - b) (drop b s).

(** [strings.Contains]. *)
Fixpoint Contains (s sub : list Z) : bool :=
  HasPrefix s sub || match s with [] => false | _ :: s' => Contains s' sub end.

Class Rest := {
  ParseFloat_rest : list Z -> option float;
  Parse_rest : list Z -> option Z;
  int64_rest : float -> Z;
}.

Section query.
Context `{!Rest}.

Definition R := res Empty_set.

Definition ParseFloat (s : list Z) : option float := if decimal_shape s then parse_decimal s else ParseFloat_rest s.
Definition Parse_RFC3339 (s : list Z) : option Z := if rfc3339_shape s then parse_rfc3339 s else Parse_rest s.

Definition int64_of_float (f : float) : Z :=
  match trunc f with Some z => if in_int64 z then z else int64_rest f | None => int64_rest f end.

(** What a token of an operand stands for; a text that does not parse panics. *)
Definition or_panic {A} (o : option A) : R A := match o with Some a => Ok a | None => Panic end.

Definition number_operand (number : list Z) : R Operand :=
  if Contains number [46] then let* v := or_panic (ParseFloat number) in Ok (OFloat64 v)
  else let* v := or_panic (Atoi number) in Ok (OInt64 v).

(** The operator a token stands for. *)
Definition op_of (r : pegRule) : option Operator :=
  match r with
  | rulele => Some OpLessEqual | rulege => Some OpGreaterEqual | rulel => Some OpLess | ruleg => Some OpGreater
  | ruleequal => Some OpEqual | rulecontains => Some OpContains
  | _ => None
  end.

(** The operand an operand token stands for; other tokens have none. *)
Definition operand_of (buffer : list Z) (b e : nat) (r : pegRule) : option (R Operand) :=
  match r with
  | rulevalue => Some (Ok (OString (slice buffer (b + 1) (e - 1))))
  | rulenumber => Some (number_operand (slice buffer b e))
  | ruletime => Some (let* v := or_panic (Parse_RFC3339 (slice buffer b e)) in Ok (OTime v))
  | ruledate => Some (let* v := or_panic (parse_date (slice buffer b e)) in Ok (OTime v))
  | _ => None
  end.

(** The loop over the tokens with the variables begin, end, tag and op. *)
Fixpoint conditions_loop (buffer : list Z) (ts : list token32) (b e : nat) (tag : list Z) (op : Operator)
    (conditions : list Condition) : R (list Condition) :=
  match ts with
  | [] => Ok conditions
  | t :: ts' =>
      match rule_ t with
      | rulePegText => conditions_loop buffer ts' (begin_ t) (end_ t) tag op conditions
      | ruletag => conditions_loop buffer ts' b e (slice buffer b e) op conditions
      | r =>
          match op_of r with
          | Some op => conditions_loop buffer ts' b e tag op conditions
          | None =>
              match operand_of buffer b e r with
              | Some v => let* v := v in conditions_loop buffer ts' b e tag op (conditions ++ [{| Tag := tag; Op := op; Operand_ := v |}])
              | None => conditions_loop buffer ts' b e tag op conditions
              end
          end
      end
  end.

Definition Conditions (q : Query) : R (list Condition) :=
  conditions_loop (Buffer (q_str q)) (q_tokens q) 0 0 [] OpLessEqual [].

(** *** Comparing *)

Definition compare_Z (op : Operator) (v o : Z) : bool :=
  match op with
  | OpLessEqual => v <=? o | OpGreaterEqual => o <=? v | OpLess => v <? o | OpGreater => o <? v | OpEqual => v =? o
  | OpContains => false
  end.

Definition compare_time (op : Operator) (v o : Z) : bool :=
  match op with
  | OpLessEqual => (v <? o) || (v =? o) | OpGreaterEqual => (v =? o) || (o <? v) | OpLess => v <? o | OpGreater => o <? v
  | OpEqual => v =? o | OpContains => false
  end.

Definition compare_float (op : Operator) (v o : float) : bool :=
  match op with
  | OpLessEqual => SFleb v o | OpGreaterEqual => SFleb o v | OpLess => SFltb v o | OpGreater => SFltb o v | OpEqual => SFeqb v o
  | OpContains => false
  end.

Definition compare_string (op : Operator) (v o : list Z) : bool :=
  match op with OpEqual => str_eqb v o | OpContains => Contains v o | _ => false end.

Definition match_ (tag : list Z) (op : Operator) (operand : Operand) (tags : tagMap) : R bool :=
  match Get tags tag with
  | None => Ok false
  | Some value =>
      match operand with
      | OTime o => match value with VTime v => Ok (compare_time op v o) | _ => Ok false end
      | OFloat64 o =>
          match value with
          | VFloat64 v => Ok (compare_float op v o)
          | VFloat32 v => Ok (compare_float op (float64_of_float32 v) o)
          | VInt v | VInt8 v | VInt16 v | VInt32 v | VInt64 v => Ok (compare_float op (float_of_Z v) o)
          | _ => Panic
          end
      | OInt64 o =>
          match value with
          | VInt64 v | VInt8 v | VInt16 v | VInt32 v | VInt v => Ok (compare_Z op v o)
          | VFloat64 v => Ok (compare_Z op (int64_of_float v) o)
          | VFloat32 v => Ok (compare_Z op (int64_of_float (float64_of_float32 v)) o)
          | _ => Panic
          end
      | OString o => match value with VString v => Ok (compare_string op v o) | _ => Ok false end
      end
  end.

Fixpoint matches_loop (buffer : list Z) (tags : tagMap) (ts : list token32) (b e : nat) (tag : list Z) (op : Operator) : R bool :=
  match ts with
  | [] => Ok true
  | t :: ts' =>
      match rule_ t with
      | rulePegText => matches_loop buffer tags ts' (begin_ t) (end_ t) tag op
      | ruletag => matches_loop buffer tags ts' b e (slice buffer b e) op
      | r =>
          match op_of r with
          | Some op => matches_loop buffer tags ts' b e tag op
          | None =>
              match operand_of buffer b e r with
              | Some v =>
                  let* v := v in
                  let* ok := match_ tag op v tags in
                  if ok then matches_loop buffer tags ts' b e tag op else Ok false
              | None => matches_loop buffer tags ts' b e tag op
              end
          end
      end
  end.

Definition Matches (q : Query) (tags : tagMap) : R bool :=
  if Len tags =? 0 then Ok false else matches_loop (Buffer (q_str q)) tags (q_tokens q) 0 0 [] OpLessEqual.
End query.

Definition Empty_Matches {E} (tags : tagMap) : res E bool := Ok true.
Definition Empty_String : list Z := bs "empty".
