(* ===== verification/QuerySpec.v ===== *)
(** * The grammar and the meaning of subscription queries

    The spellings of a query (its conditions with the blanks and the case of the keywords), and that the parser accepts
    exactly their texts and records their tokens; then what a query matches. *)
From stdpp Require Import gmap list.
From S2P Require Import Prelude GoStrings GoText QueryPeg Query.
Local Open Scope Z_scope.

(** ** Spellings *)

Definition digit_ (c : Z) : Prop := 48 <= c <= 57.
Definition spelling (kw w : list Z) : Prop := Forall2 (fun c x => x = c \/ x = c - 32) kw w.

Definition number_text (t : list Z) : Prop := t = [48] \/ exists c ds fs, 49 <= c <= 57 /\ Forall digit_ ds /\
  (fs = [] \/ exists fs', fs = 46 :: fs' /\ Forall digit_ fs') /\ t = c :: ds ++ fs.

Definition date_text (t : list Z) : Prop := exists y1 y2 y3 y4 m1 m2 d1 d2, (y1 = 49 \/ y1 = 50) /\ (m1 = 48 \/ m1 = 49) /\ 48 <= d1 <= 51 /\
  Forall digit_ [y2; y3; y4; m2; d2] /\ t = [y1; y2; y3; y4; 45; m1; m2; 45; d1; d2].

Definition hm_text (t : list Z) : Prop := exists a b c d, Forall digit_ [a; b; c; d] /\ t = [a; b; 58; c; d].

Definition zone_text (t : list Z) : Prop := t = [90] \/ exists c t', (c = 45 \/ c = 43) /\ hm_text t' /\ t = c :: t'.

Definition time_text (t : list Z) : Prop := exists d hm s1 s2 z, date_text d /\ hm_text hm /\ digit_ s1 /\ digit_ s2 /\ zone_text z /\
  t = d ++ 84 :: hm ++ 58 :: s1 :: s2 :: z.

Definition value_rune (c : Z) : Prop := c <> 34 /\ c <> 39 /\ c <> endSymbol.

Definition reserved_runes : list Z := [60; 62; 61; 39; 34; 41; 40; 92; 13; 10; 9; 32].
Definition tag_rune_ok (c : Z) : Prop := (c ∉ reserved_runes) /\ c <> endSymbol.

Inductive operand_text := SNumber (t : list Z) | SDate (kw t : list Z) | STime (kw t : list Z) | SValue (t : list Z).

Definition kw_date : list Z := [100; 97; 116; 101].
Definition kw_time : list Z := [116; 105; 109; 101].
Definition kw_contains : list Z := [99; 111; 110; 116; 97; 105; 110; 115].
Definition kw_and : list Z := [97; 110; 100].

Definition operand_ok (o : operand_text) : Prop :=
  match o with
  | SNumber t => number_text t
  | SDate kw t => spelling kw_date kw /\ date_text t
  | STime kw t => spelling kw_time kw /\ time_text t
  | SValue t => Forall value_rune t
  end.

Definition print_operand (o : operand_text) : list Z :=
  match o with SNumber t => t | SDate kw t | STime kw t => kw ++ 32 :: t | SValue t => 39 :: t ++ [39] end.

Definition operand_rule (o : operand_text) : pegRule :=
  match o with SNumber _ => rulenumber | SDate _ _ => ruledate | STime _ _ => ruletime | SValue _ => rulevalue end.

(** Where the text of an operand at position [i] starts. *)
Definition text_start (o : operand_text) (i : nat) : nat := match o with SDate kw _ | STime kw _ => i + length kw + 1 | _ => i end.

Definition operand_marks (o : operand_text) : marks := fun i =>
  let j := (i + length (print_operand o))%nat in [Token rulePegText (text_start o i) j; Token (operand_rule o) i j].

Definition op_rule (o : Operator) : pegRule :=
  match o with
  | OpLessEqual => rulele | OpGreaterEqual => rulege | OpLess => rulel | OpGreater => ruleg | OpEqual => ruleequal | OpContains => rulecontains
  end.

Record spelled := { s_tag : list Z; s_b1 : nat; s_op : Operator; s_kw : list Z; s_b2 : nat; s_arg : operand_text }.

Definition blank (n : nat) : list Z := replicate n 32.

(** How an operator is written; a keyword needs a blank before it. Only equality compares both texts and numbers. *)
Definition op_kw (op : Operator) (kw : list Z) : Prop :=
  match op with
  | OpLessEqual => kw = [60; 61] | OpGreaterEqual => kw = [62; 61] | OpLess => kw = [60] | OpGreater => kw = [62]
  | OpEqual => kw = [61] | OpContains => spelling kw_contains kw
  end.
Definition op_ok (x : spelled) : Prop := op_kw (s_op x) (s_kw x) /\ (s_op x = OpContains -> (0 < s_b1 x)%nat).
Definition arg_ok (op : Operator) (o : operand_text) : Prop :=
  match op, o with OpContains, SValue _ => True | OpContains, _ => False | OpEqual, _ => True | _, SValue _ => False | _, _ => True end.

Definition spelled_ok (x : spelled) : Prop := s_tag x <> [] /\ Forall tag_rune_ok (s_tag x) /\ op_ok x /\ operand_ok (s_arg x) /\ arg_ok (s_op x) (s_arg x).

Definition print_spelled (x : spelled) : list Z :=
  s_tag x ++ blank (s_b1 x) ++ s_kw x ++ blank (s_b2 x) ++ print_operand (s_arg x).

Definition spelled_marks (x : spelled) : marks := fun i =>
  let a := (i + length (s_tag x))%nat in
  let b := (a + s_b1 x)%nat in
  let c := (b + length (s_kw x))%nat in
  [Token rulePegText i a; Token ruletag i a; Token (op_rule (s_op x)) b c] ++ operand_marks (s_arg x) (c + s_b2 x)%nat.

(** A further condition: blanks, the conjunction, blanks, the condition. *)
Record further := { f_b1 : nat; f_kw : list Z; f_b2 : nat; f_cond : spelled }.
Definition further_ok (f : further) : Prop := spelling kw_and (f_kw f) /\ spelled_ok (f_cond f).
Definition print_further (f : further) : list Z := blank (S (f_b1 f)) ++ f_kw f ++ blank (S (f_b2 f)) ++ print_spelled (f_cond f).
Definition further_marks (f : further) : marks := fun i =>
  spelled_marks (f_cond f) (i + (S (f_b1 f) + length (f_kw f) + S (f_b2 f)))%nat.

Definition query_ok (x : spelled) (fs : list further) : Prop := spelled_ok x /\ Forall further_ok fs.
Definition print_query (x : spelled) (fs : list further) : list Z := print_spelled x ++ concat (map print_further fs).
Definition query_marks (x : spelled) (fs : list further) : marks :=
  app_marks (spelled_marks x) (length (print_spelled x)) (all_marks print_further further_marks fs).

Ltac in_list := first [left|right; in_list].

Ltac marks_eq := repeat match goal with
  | |- _ :: _ = _ :: _ => f_equal
  | |- Token _ _ _ = Token _ _ _ => f_equal; lia
  end.

(** ** Accepting spellings *)

Section accepting.
Context (buffer : list Z).
Abbreviation acc := (acc buffer).
Abbreviation rej := (rej buffer).

Lemma acc_seq0 r1 r2 w1 w2 rest : acc r1 w1 nil_marks (w2 ++ rest) -> acc r2 w2 nil_marks rest -> acc (seq_ r1 r2) (w1 ++ w2) nil_marks rest.
Proof. intros H1 H2. by apply (acc_seq buffer _ _ _ _ nil_marks nil_marks). Qed.

Lemma acc_cons0 r1 r2 c w rest : acc r1 [c] nil_marks (w ++ rest) -> acc r2 w nil_marks rest -> acc (seq_ r1 r2) (c :: w) nil_marks rest.
Proof. apply (acc_seq0 r1 r2 [c]). Qed.

Lemma acc_mark0 t r w rest : relevant t = false -> acc r w nil_marks rest -> acc (mark t r) w nil_marks rest.
Proof.
  intros Ht H. eapply acc_ext; [|apply acc_mark, H]. intros i. unfold own. by rewrite Ht.
Qed.

Lemma acc_digit c rest : digit_ c -> acc (digit buffer) [c] nil_marks rest.
Proof. intros [? ?]. apply acc_mark0; [done|]. apply acc_rune. apply andb_true_iff. split; by apply Z.leb_le. Qed.

Lemma rej_digit c s : ~ digit_ c -> rej (digit buffer) (c :: s).
Proof. intros H. apply rej_mark, rej_rune. unfold digit_ in H. destruct (Z.leb_spec 48 c), (Z.leb_spec c 57); try done; lia. Qed.

Lemma acc_either a b c rest : (c = a \/ c = b) -> acc (alt (matchChar buffer a) (matchChar buffer b)) [c] nil_marks rest.
Proof.
  intros H. destruct (decide (c = a)) as [->|]; [apply acc_alt1, acc_char|]. destruct H as [?| ->]; [done|].
  apply acc_alt2; [by apply rej_char|apply acc_char].
Qed.

Lemma acc_two a b rest : digit_ a -> digit_ b -> acc (two_digits buffer) [a; b] nil_marks rest.
Proof. intros. by apply acc_cons0; apply acc_digit. Qed.

Lemma acc_year y1 y2 y3 y4 rest : (y1 = 49 \/ y1 = 50) -> digit_ y2 -> digit_ y3 -> digit_ y4 -> acc (year buffer) [y1; y2; y3; y4] nil_marks rest.
Proof.
  intros. apply acc_mark0; [done|]. apply acc_cons0; [by apply acc_either|]. apply acc_cons0; [by apply acc_digit|]. by apply acc_two.
Qed.

Lemma acc_month m1 m2 rest : (m1 = 48 \/ m1 = 49) -> digit_ m2 -> acc (month buffer) [m1; m2] nil_marks rest.
Proof. intros. apply acc_mark0; [done|]. apply acc_cons0; [by apply acc_either|by apply acc_digit]. Qed.

Lemma acc_day d1 d2 rest : 48 <= d1 <= 51 -> digit_ d2 -> acc (day buffer) [d1; d2] nil_marks rest.
Proof.
  intros. apply acc_mark0; [done|]. apply acc_cons0; [|by apply acc_digit]. apply (acc_switch _ _ d1); [done|].
  destruct (Z.eqb_spec d1 51) as [->|]; [apply acc_char|]. destruct (Z.eqb_spec d1 50) as [->|]; [apply acc_char|].
  destruct (Z.eqb_spec d1 49) as [->|]; [apply acc_char|]. replace d1 with 48 by lia. apply acc_char.
Qed.

Lemma acc_ymd t rest : date_text t -> acc (ymd buffer) t nil_marks rest.
Proof.
  intros (y1 & y2 & y3 & y4 & m1 & m2 & d1 & d2 & Hy & Hm & Hd & Hf & ->). decompose_Forall_hyps. unfold ymd.
  apply (acc_seq0 _ _ [y1; y2; y3; y4]); [by apply acc_year|]. apply acc_cons0; [apply acc_char|].
  apply (acc_seq0 _ _ [m1; m2]); [by apply acc_month|]. apply acc_cons0; [apply acc_char|]. by apply acc_day.
Qed.

Lemma acc_hm t rest : hm_text t -> acc (hm buffer) t nil_marks rest.
Proof.
  intros (a & b & c & d & Hf & ->). decompose_Forall_hyps. apply (acc_seq0 _ _ [a; b]); [by apply acc_two|].
  apply acc_cons0; [apply acc_char|by apply acc_two].
Qed.

Lemma acc_word kw w rest : spelling kw w -> acc (word buffer kw) w nil_marks rest.
Proof.
  intros H. induction H as [|c x kw w Hx _ IH]; [apply acc_succeeds|]. cbn [word]. apply acc_cons0; [|done]. by apply acc_either.
Qed.

Lemma acc_blanks n rest : head rest <> Some 32 -> rest <> [] -> acc (blanks buffer) (blank n) nil_marks rest.
Proof.
  intros Hr Hn. apply (acc_star_runes buffer _ (eq 32)).
  - intros c s <-. apply acc_char.
  - apply Forall_replicate. done.
  - destruct rest as [|c s]; [done|]. apply rej_char. intros <-. done.
Qed.

(** What may follow a condition. *)
Definition ends (rest : list Z) : Prop := exists s, rest = 32 :: s \/ rest = 34 :: s.

Lemma acc_date kw t rest : operand_ok (SDate kw t) -> acc (date buffer) (print_operand (SDate kw t)) (operand_marks (SDate kw t)) rest.
Proof.
  intros [Hk Ht]. eapply acc_ext; [|apply acc_mark, (acc_seq _ _ _ kw (32 :: t)); [by apply acc_word|]].
  2:{ apply (acc_seq _ _ _ [32] t); [apply acc_char|]. apply acc_mark. by apply acc_ymd. }
  intros i. unfold app_marks, operand_marks, own, nil_marks. cbn. rewrite length_app. cbn. by marks_eq.
Qed.

Lemma acc_time kw t rest : operand_ok (STime kw t) -> acc (time buffer) (print_operand (STime kw t)) (operand_marks (STime kw t)) rest.
Proof.
  intros [Hk Ht]. eapply acc_ext; [|apply acc_mark, (acc_seq _ _ _ kw (32 :: t)); [by apply acc_word|]].
  2:{ apply (acc_seq _ _ _ [32] t); [apply acc_char|]. apply acc_mark. destruct Ht as (d & h & s1 & s2 & z & Hd & Hh & H1 & H2 & Hz & ->).
    apply acc_seq0; [by apply acc_ymd|]. apply acc_cons0; [apply acc_char|]. apply acc_seq0; [by apply acc_hm|].
    apply acc_cons0; [apply acc_char|]. apply (acc_seq0 _ _ [s1; s2]); [by apply acc_two|].
    destruct Hz as [->|(c & t' & Hc & Ht' & ->)].
    - apply acc_alt2; [|apply acc_char]. apply rej_seq1, rej_alt; by apply rej_char.
    - apply acc_alt1, acc_cons0; [by apply acc_either|by apply acc_hm]. }
  intros i. unfold app_marks, operand_marks, own, nil_marks. cbn. rewrite length_app. cbn. by marks_eq.
Qed.

Lemma acc_text t r w rest : acc r w nil_marks rest ->
  acc (mark t (text r)) w (fun i => Token rulePegText i (i + length w) :: own t i (length w)) rest.
Proof. intros H. exact (acc_mark _ t _ _ _ _ (acc_mark _ rulePegText _ _ nil_marks _ H)). Qed.

Lemma acc_digits ds rest : Forall digit_ ds -> match rest with c :: _ => ~ digit_ c | [] => False end -> acc (star buffer (digit buffer)) ds nil_marks rest.
Proof.
  intros Hd Hr. apply (acc_star_runes buffer _ digit_); [by intros; apply acc_digit|done|]. destruct rest; [done|]. by apply rej_digit.
Qed.

Lemma ends_cons rest : ends rest -> exists c s, rest = c :: s /\ (c = 32 \/ c = 34).
Proof. intros [s [->| ->]]; eauto. Qed.

Lemma acc_number t rest : number_text t -> ends rest -> acc (number buffer) t (operand_marks (SNumber t)) rest.
Proof.
  intros Ht (c' & s' & -> & Hc')%ends_cons. apply acc_text.
  destruct Ht as [->|(c & ds & fs & Hc & Hds & Hfs & ->)]; [apply acc_alt1, acc_char|].
  apply acc_alt2; [apply rej_char; lia|]. apply acc_cons0; [apply acc_rune, andb_true_iff; split; apply Z.leb_le; lia|].
  destruct Hfs as [->|(fs' & -> & Hfs)].
  - apply acc_seq0; [apply acc_digits; [done|unfold digit_; cbn; lia]|]. apply acc_alt2; [|apply acc_succeeds]. apply rej_seq1, rej_char. lia.
  - apply acc_seq0; [apply acc_digits; [done|unfold digit_; cbn; lia]|]. apply acc_alt1, acc_cons0; [apply acc_char|].
    apply acc_digits; [done|unfold digit_; lia].
Qed.

Lemma acc_value_rune c rest : value_rune c -> acc (seq_ (nomatch (alt (matchChar buffer 34) (matchChar buffer 39))) (matchDot buffer)) [c] nil_marks rest.
Proof.
  intros (H1 & H2 & H3). apply (acc_seq0 _ _ []); [apply acc_nomatch, rej_alt; by apply rej_char; congruence|].
  apply acc_rune. by apply negb_true_iff, Z.eqb_neq.
Qed.

Lemma acc_value t rest : Forall value_rune t -> acc (value buffer) (print_operand (SValue t)) (operand_marks (SValue t)) rest.
Proof.
  intros Ht. apply acc_text. apply acc_cons0; [apply acc_char|].
  apply acc_seq0; [|apply acc_char]. apply (acc_star_runes buffer _ value_rune); [intros; by apply acc_value_rune|done|].
  apply rej_seq1, (rej_nomatch buffer _ [39] nil_marks). apply acc_alt2; [by apply rej_char|apply acc_char].
Qed.

Lemma acc_reserved c rest : c ∈ reserved_runes -> acc (reserved buffer) [c] nil_marks rest.
Proof.
  intros H. apply (acc_switch _ _ c); [done|]. unfold reserved_runes in H.
  repeat (apply elem_of_cons in H as [->|H]; [cbn; apply acc_char|]). by apply elem_of_nil in H.
Qed.

Lemma rej_reserved c s : c ∉ reserved_runes -> rej (reserved buffer) (c :: s).
Proof.
  intros H. apply rej_switch. unfold reserved_runes in H.
  repeat match goal with |- context [if c =? ?x then _ else _] => destruct (Z.eqb_spec c x) as [->|]; [destruct H; in_list|] end.
  apply rej_char. intros <-. destruct H. in_list.
Qed.

Lemma acc_tag_rune c rest : tag_rune_ok c -> acc (tag_rune buffer) [c] nil_marks rest.
Proof.
  intros [H1 H2]. apply (acc_seq0 _ _ []); [apply acc_nomatch; by apply rej_reserved|]. apply acc_rune. by apply negb_true_iff, Z.eqb_neq.
Qed.

Lemma acc_tag t rest : t <> [] -> Forall tag_rune_ok t -> match rest with c :: _ => c ∈ reserved_runes | [] => False end ->
  acc (tag buffer) t (fun i => [Token rulePegText i (i + length t); Token ruletag i (i + length t)]) rest.
Proof.
  intros Hn Ht Hr. apply acc_text. destruct t as [|c t]; [done|].
  apply Forall_cons in Ht as [Hc Ht]. apply acc_cons0; [by apply acc_tag_rune|].
  apply (acc_star_runes buffer _ tag_rune_ok); [by intros; apply acc_tag_rune|done|]. destruct rest as [|x s]; [done|].
  apply rej_seq1, (rej_nomatch buffer _ [x] nil_marks). by apply acc_reserved.
Qed.

(** The first rune of an operand. *)
Definition starts (o : operand_text) (c : Z) : Prop :=
  match o with SNumber _ => digit_ c | SDate _ _ => c = 100 \/ c = 68 | STime _ _ => c = 116 \/ c = 84 | SValue _ => c = 39 end.

Lemma operand_head o : operand_ok o -> exists c s, print_operand o = c :: s /\ starts o c.
Proof.
  destruct o as [t|kw t|kw t|t]; cbn.
  - unfold digit_. intros [->|(c & ds & fs & ? & _ & _ & ->)]; eexists _, _; (split; [done|lia]).
  - intros [H _]. inversion H; subst. eexists _, _. split; [done|]. lia.
  - intros [H _]. inversion H; subst. eexists _, _. split; [done|]. lia.
  - intros _. by eexists _, _.
Qed.

Ltac pick c := repeat match goal with
  | |- context [if ?b then _ else _] => destruct b eqn:?
  end; unfold either in *; rewrite ?orb_true_iff, ?orb_false_iff, ?Z.eqb_eq, ?Z.eqb_neq in *; try lia.

Lemma acc_number_or_time o rest : operand_ok o -> match o with SValue _ => False | _ => True end -> ends rest ->
  acc (number_or_time buffer) (print_operand o) (operand_marks o) rest.
Proof.
  intros Ho Hv Hr. destruct (operand_head o Ho) as (c & s & E & Hc). apply (acc_switch _ _ c); [by rewrite E|].
  destruct o; cbn [starts] in Hc; unfold digit_ in Hc; pick c; try done; first [by apply acc_number|by apply acc_date|by apply acc_time].
Qed.

Lemma acc_any_operand o rest : operand_ok o -> ends rest -> acc (any_operand buffer) (print_operand o) (operand_marks o) rest.
Proof.
  intros Ho Hr. destruct (operand_head o Ho) as (c & s & E & Hc). apply (acc_switch _ _ c); [by rewrite E|].
  destruct o; cbn [starts] in Hc; unfold digit_ in Hc; pick c; first [by apply acc_number|by apply acc_date|by apply acc_time|by apply acc_value].
Qed.

Lemma operand_next b o rest : operand_ok o -> exists c s, blank b ++ print_operand o ++ rest = c :: s /\ (c = 32 \/ starts o c).
Proof.
  intros Ho. destruct b as [|b]; [|by eexists _, _; split; [done|left]]. destruct (operand_head o Ho) as (c & s & E & Hc).
  exists c, (s ++ rest). cbn. rewrite E. split; [done|by right].
Qed.

Lemma starts_not o c x : c = 32 \/ starts o c -> x ∈ [60; 61; 62; 34] -> c <> x.
Proof.
  intros H Hx ->. unfold starts, digit_ in H. assert (x = 60 \/ x = 61 \/ x = 62 \/ x = 34) as Hx' by (repeat (apply elem_of_cons in Hx as [->|Hx]; [tauto|]); by apply elem_of_nil in Hx). destruct o; lia.
Qed.

Lemma acc_op t r kw orule b o rest : relevant t = true -> operand_ok o -> acc r kw nil_marks (blank b ++ print_operand o ++ rest) ->
  acc orule (print_operand o) (operand_marks o) rest ->
  acc (seq_ (mark t r) (seq_ (blanks buffer) orule)) (kw ++ blank b ++ print_operand o)
    (fun i => Token t i (i + length kw) :: operand_marks o (i + length kw + b)%nat) rest.
Proof.
  intros Ht Ho Hk Hr. eapply acc_ext; [|apply acc_seq; [apply acc_mark|]].
  3:{ apply acc_seq; [|exact Hr]. apply acc_blanks; destruct (operand_next 0 o rest Ho) as (c & s & E & Hc); cbn in E; rewrite E; [|done].
      intros [= ->]. destruct (operand_head o Ho) as (c & s' & E' & Hc'). rewrite E' in E. injection E as -> _.
      unfold starts, digit_ in Hc'. destruct o; lia. }
  2:{ rewrite <- app_assoc. exact Hk. }
  intros i. unfold app_marks, own, nil_marks. rewrite Ht. cbn. unfold blank. by rewrite length_replicate.
Qed.

Lemma rej_2 a b t c s : c <> a -> rej (mark t (seq_ (matchChar buffer a) (matchChar buffer b))) (c :: s).
Proof. intros H. apply rej_mark, rej_seq1, rej_char. congruence. Qed.

Lemma rej_2' a b t c s : c <> b -> rej (mark t (seq_ (matchChar buffer a) (matchChar buffer b))) (a :: c :: s).
Proof. intros H. apply rej_mark. apply (rej_seq2 buffer _ _ [a] nil_marks); [apply acc_char|]. apply rej_char. congruence. Qed.

Lemma rej_both c s r1 r2 : c <> 60 -> c <> 62 -> rej (seq_ (le buffer) r1) (c :: s) /\ rej (seq_ (ge buffer) r2) (c :: s).
Proof. intros. split; apply rej_seq1; by apply rej_2. Qed.

Lemma contains_head kw : spelling kw_contains kw -> exists c s, kw = c :: s /\ (c = 99 \/ c = 67).
Proof. intros H. inversion H; subst. eexists _, _. split; [done|]. lia. Qed.

Lemma acc_ops op kw b o rest : op_kw op kw ->
  operand_ok o -> arg_ok op o -> ends rest ->
  acc (comparison buffer) (kw ++ blank b ++ print_operand o) (fun i => Token (op_rule op) i (i + length kw) :: operand_marks o (i + length kw + b)%nat) rest.
Proof.
  intros Hk Ho Ha Hr. destruct (operand_next b o rest Ho) as (c & s & E & Hc). destruct op; cbn in Hk; subst; unfold comparison.
  - apply acc_alt1. apply acc_op; [done|done|apply acc_cons0; apply acc_char|apply acc_number_or_time; [done|by destruct o|done]].
  - apply acc_alt2; [apply rej_seq1; by apply rej_2|]. apply acc_alt1.
    apply acc_op; [done|done|apply acc_cons0; apply acc_char|apply acc_number_or_time; [done|by destruct o|done]].
  - apply acc_alt2; [cbn [app]; rewrite <- app_assoc, E; apply rej_seq1, rej_2'; apply (starts_not o); [done|right; left]|].
    apply acc_alt2; [apply rej_seq1; by apply rej_2|]. apply (acc_switch _ _ 60); [done|]. cbn [Z.eqb Pos.eqb].
    apply acc_op; [done|done|apply acc_char|apply acc_number_or_time; [done|by destruct o|done]].
  - apply acc_alt2; [apply rej_seq1; by apply rej_2|].
    apply acc_alt2; [cbn [app]; rewrite <- app_assoc, E; apply rej_seq1, rej_2'; apply (starts_not o); [done|right; left]|].
    apply (acc_switch _ _ 62); [done|]. cbn [Z.eqb Pos.eqb].
    apply acc_op; [done|done|apply acc_char|apply acc_number_or_time; [done|by destruct o|done]].
  - apply acc_alt2; [apply rej_seq1; by apply rej_2|]. apply acc_alt2; [apply rej_seq1; by apply rej_2|].
    apply (acc_switch _ _ 61); [done|]. cbn [Z.eqb Pos.eqb]. apply acc_op; [done|done|apply acc_char|by apply acc_any_operand].
  - destruct (contains_head kw Hk) as (x & s' & -> & Hx). apply acc_alt2; [apply rej_seq1, rej_2; lia|]. apply acc_alt2; [apply rej_seq1, rej_2; lia|].
    apply (acc_switch _ _ x); [done|]. destruct (Z.eqb_spec x 61), (Z.eqb_spec x 62), (Z.eqb_spec x 60); try lia.
    apply acc_op; [done|done|by apply acc_word|]. destruct o; try done. by apply acc_value.
Qed.

Lemma acc_condition x rest : spelled_ok x -> ends rest -> acc (condition buffer) (print_spelled x) (spelled_marks x) rest.
Proof.
  intros (Hn & Ht & [Hop Hb] & Ho & Ha) Hr. destruct x as [t b1 op kw b2 o]. cbn in *.
  assert (exists c s, kw ++ blank b2 ++ print_operand o ++ rest = c :: s /\ c <> 32 /\ (c ∈ reserved_runes \/ (0 < b1)%nat)) as (c & s & E & Hc & Hc').
  { destruct op; cbn in Hop; subst; cbn; try (eexists _, _; split; [done|]; split; [done|]; left; in_list).
    destruct (contains_head kw Hop) as (x & s' & -> & Hx). eexists _, _. split; [done|]. split; [lia|right; by apply Hb]. }
  eapply acc_ext; [|apply acc_mark, (acc_seq _ _ _ t (blank b1 ++ kw ++ blank b2 ++ print_operand o)); [apply acc_tag; [done|done|]|]].
  3:{ apply (acc_seq _ _ _ (blank b1) (kw ++ blank b2 ++ print_operand o)); [apply acc_blanks; rewrite <- !app_assoc, E; [by intros [= ->]|done]|].
      by apply (acc_ops op). }
  2:{ rewrite <- !app_assoc, E. destruct b1; cbn; [|in_list]. destruct Hc' as [|]; [done|lia]. }
  intros i. unfold app_marks, spelled_marks, own, nil_marks. cbn. unfold blank. by rewrite length_replicate.
Qed.

Lemma tag_head t : t <> [] -> Forall tag_rune_ok t -> exists c s, t = c :: s /\ c <> 32.
Proof. destruct t as [|c s]; [done|]. intros _ [[Hc _] _]%Forall_cons. exists c, s. split; [done|]. intros ->. destruct Hc. in_list. Qed.

Lemma and_head kw : spelling kw_and kw -> exists c s, kw = c :: s /\ c <> 32.
Proof. intros H. inversion H; subst. eexists _, _. split; [done|]. lia. Qed.

Lemma acc_blanks1 n c s rest r k : c <> 32 -> acc r (c :: s) k rest ->
  acc (seq_ (matchChar buffer 32) (seq_ (blanks buffer) r)) (blank (S n) ++ c :: s) (fun i => k (i + S n)%nat) rest.
Proof.
  intros Hc H. eapply acc_ext; [|apply (acc_seq _ _ _ [32] (blank n ++ c :: s)); [apply acc_char|]].
  2:{ apply acc_seq; [|exact H]. apply acc_blanks; [by intros [= ->]|done]. }
  intros i. unfold app_marks, nil_marks, blank. cbn. rewrite length_replicate. f_equal. lia.
Qed.

Lemma acc_further f rest : further_ok f -> ends rest -> acc (further_rule buffer) (print_further f) (further_marks f) rest.
Proof.
  intros [Hk Hx] Hr. destruct f as [b1 kw b2 x]. cbn in *. destruct (and_head kw Hk) as (c & s & E & Hc).
  destruct (tag_head (s_tag x)) as (c' & s' & E' & Hc'); [by destruct Hx|by destruct Hx as (_ & ? & _)|].
  pose proof (acc_condition x rest Hx Hr) as H.
  assert (exists t, print_spelled x = c' :: t) as [t Et] by (unfold print_spelled; rewrite E'; by eexists).
  rewrite Et in H. pose proof (acc_blanks1 b2 c' t rest _ _ Hc' H) as H2.
  unfold print_further, further_rule. cbn [f_b1 f_kw f_b2 f_cond]. rewrite E, Et.
  eapply acc_ext; [|apply (acc_blanks1 b1 c (s ++ blank (S b2) ++ c' :: t)); [done|]].
  2:{ rewrite app_comm_cons, <- E. apply acc_seq; [|exact H2]. apply acc_mark0; [done|]. by apply acc_word. }
  intros i. unfold app_marks, nil_marks, further_marks. cbn [f_b1 f_kw f_b2 f_cond app]. rewrite E. f_equal. lia.
Qed.

Lemma further_ends f rest : ends rest -> ends (print_further f ++ rest).
Proof. intros _. eexists. left. done. Qed.

Lemma all_marks_map {A B} (f : A -> B) pr kk gs : forall i, all_marks pr kk (map f gs) i = all_marks (fun x => pr (f x)) (fun x => kk (f x)) gs i.
Proof. induction gs as [|y gs IH]; intros i; cbn; [done|]. unfold app_marks. by rewrite IH. Qed.

Lemma acc_e x fs : query_ok x fs -> acc (e buffer) (Buffer (print_query x fs)) (fun i => query_marks x fs (S i)) [endSymbol].
Proof.
  intros [Hx Hfs].
  assert (exists gs : list (sig further_ok), fs = map proj1_sig gs) as [gs ->].
  { clear -Hfs. induction Hfs as [|f fs Hf _ [gs ->]]; [by exists []|]. by exists (exist _ f Hf :: gs). }
  assert (ends [34; endSymbol]) as He by (eexists; by right).
  pose proof (acc_star buffer (further_rule buffer) (fun g : sig further_ok => print_further (`g)) (fun g => further_marks (`g)) ends
    (fun g rest => acc_further (`g) rest (proj2_sig g)) ltac:(done) (fun g => further_ends (`g)) gs _ He ltac:(by apply rej_seq1, rej_char)) as Hst.
  pose proof (follow_all (fun g : sig further_ok => print_further (`g)) ends (fun g => further_ends (`g)) gs _ He) as Hfo.
  eapply acc_ext; [|apply acc_mark, (acc_seq _ _ _ [34]); [apply acc_char|]].
  2:{ unfold print_query. rewrite <- app_assoc. apply acc_seq; [rewrite <- app_assoc; apply acc_condition; [done|]|].
      - rewrite map_map. exact Hfo.
      - apply acc_seq; [rewrite map_map; exact Hst|]. apply acc_cons0; [apply acc_char|]. apply acc_nomatch. by apply rej_rune. }
  intros i. unfold query_marks, app_marks, own, nil_marks. cbn [app length relevant]. rewrite Nat.add_1_r, !app_nil_r. f_equal. by rewrite all_marks_map.
Qed.
End accepting.

(** ** Only spellings are accepted *)

Section only.
Context (buffer : list Z).
Abbreviation acc := (acc buffer).
Abbreviation sound := (sound buffer).
Abbreviation stuck := (stuck buffer).

(** A rule without tokens that matter. *)
Definition plain (r : rule) (P : list Z -> Prop) : Prop := sound r (fun _ w ks _ => ks = [] /\ P w).

Lemma plain_weaken r (P Q : list Z -> Prop) : (forall w, P w -> Q w) -> plain r P -> plain r Q.
Proof. intros H. apply peg_sound_weaken. intros i w ks rest [-> Hp]. split; [done|by apply H]. Qed.

Lemma plain_seq r1 r2 P1 P2 : plain r1 P1 -> plain r2 P2 -> plain (seq_ r1 r2) (fun w => exists w1 w2, w = w1 ++ w2 /\ P1 w1 /\ P2 w2).
Proof.
  intros H1 H2. eapply peg_sound_weaken; [|by apply sound_seq]. intros i w ks rest (w1 & w2 & k1 & k2 & -> & -> & [-> ?] & [-> ?]). split; [done|]. by exists w1, w2.
Qed.

Lemma plain_cons r1 r2 (P1 : Z -> Prop) P2 : plain r1 (fun w => exists c, P1 c /\ w = [c]) -> plain r2 P2 ->
  plain (seq_ r1 r2) (fun w => exists c w', P1 c /\ P2 w' /\ w = c :: w').
Proof.
  intros H1 H2. eapply plain_weaken; [|by apply plain_seq]. intros w (w1 & w2 & -> & (c & ? & ->) & ?). by exists c, w2.
Qed.

Lemma plain_mark t r P : relevant t = false -> plain r P -> plain (mark t r) P.
Proof.
  intros Ht H. eapply peg_sound_weaken; [|by apply sound_mark]. intros i w ks rest (ks' & -> & -> & ?). unfold own. by rewrite Ht.
Qed.

Lemma plain_alt r1 r2 P1 P2 : plain r1 P1 -> plain r2 P2 -> plain (alt r1 r2) (fun w => P1 w \/ P2 w).
Proof. intros H1 H2. eapply peg_sound_weaken; [|by apply sound_alt]. intros i w ks rest [[-> ?]|[-> ?]]; split; auto. Qed.

Lemma plain_char c : plain (matchChar buffer c) (fun w => exists x, x = c /\ w = [x]).
Proof. eapply peg_sound_weaken; [|apply sound_char]. intros i w ks rest [-> ->]. split; [done|]. by exists c. Qed.

Lemma plain_range a b : plain (matchRange buffer a b) (fun w => exists c, a <= c <= b /\ w = [c]).
Proof.
  eapply peg_sound_weaken; [|apply sound_rune]. intros i w ks rest [-> (c & [H1%Z.leb_le H2%Z.leb_le]%andb_prop & ->)]. split; [done|]. by exists c.
Qed.

Lemma plain_digit : plain (digit buffer) (fun w => exists c, digit_ c /\ w = [c]).
Proof. apply plain_mark; [done|]. apply plain_range. Qed.

Lemma plain_either a b : plain (alt (matchChar buffer a) (matchChar buffer b)) (fun w => exists c, (c = a \/ c = b) /\ w = [c]).
Proof.
  eapply plain_weaken; [|apply plain_alt; apply plain_char]. intros w [(x & -> & ->)|(x & -> & ->)]; eexists; eauto.
Qed.

Lemma plain_two : plain (two_digits buffer) (fun w => exists a b, digit_ a /\ digit_ b /\ w = [a; b]).
Proof.
  eapply plain_weaken; [|apply plain_cons; apply plain_digit]. intros w (a & w' & Ha & (b & Hb & ->) & ->). eauto.
Qed.

Lemma plain_year : plain (year buffer) (fun w => exists a b c d, (a = 49 \/ a = 50) /\ digit_ b /\ digit_ c /\ digit_ d /\ w = [a; b; c; d]).
Proof.
  apply plain_mark; [done|]. eapply plain_weaken; [|apply plain_cons; [apply plain_either|apply plain_cons; [apply plain_digit|apply plain_two]]].
  intros w (a & w' & Ha & (b & w'' & Hb & (c & d & ? & ? & ->) & ->) & ->). by exists a, b, c, d.
Qed.

Lemma plain_month : plain (month buffer) (fun w => exists a b, (a = 48 \/ a = 49) /\ digit_ b /\ w = [a; b]).
Proof.
  apply plain_mark; [done|]. eapply plain_weaken; [|apply plain_cons; [apply plain_either|apply plain_digit]].
  intros w (a & w' & Ha & (b & ? & ->) & ->). by exists a, b.
Qed.

Lemma plain_day : plain (day buffer) (fun w => exists a b, 48 <= a <= 51 /\ digit_ b /\ w = [a; b]).
Proof.
  apply plain_mark; [done|].
  eapply plain_weaken; [|apply (plain_cons _ _ (fun a => 48 <= a <= 51)); [|apply plain_digit]].
  { intros w (a & w' & Ha & (b & ? & ->) & ->). by exists a, b. }
  eapply peg_sound_weaken; [|apply sound_switch with (Lf := fun _ _ w ks _ => ks = [] /\ exists x, 48 <= x <= 51 /\ w = [x])].
  { by intros i w ks rest (c & _ & H). }
  intros c. repeat case_match; (eapply peg_sound_weaken; [|apply sound_char]; intros i w ks rest [-> ->]; split; [done|]; eexists; (split; [|done]; lia)).
Qed.

Lemma plain_ymd : plain (ymd buffer) date_text.
Proof.
  eapply plain_weaken; [|apply plain_seq; [apply plain_year|]; apply plain_cons; [apply plain_char|]; apply plain_seq; [apply plain_month|];
    apply plain_cons; [apply plain_char|apply plain_day]].
  intros w (w1 & w2 & -> & (y1 & y2 & y3 & y4 & ? & ? & ? & ? & ->) & (x & w3 & -> & (w4 & w5 & -> & (m1 & m2 & ? & ? & ->) & (x6 & w6 & -> & (d1 & d2 & ? & ? & ->) & ->)) & ->)).
  exists y1, y2, y3, y4, m1, m2, d1, d2. split_and!; try done; try lia. repeat (constructor; [done|]); constructor.
Qed.

Lemma plain_hm : plain (hm buffer) hm_text.
Proof.
  eapply plain_weaken; [|apply plain_seq; [apply plain_two|]; apply plain_cons; [apply plain_char|apply plain_two]].
  intros w (w1 & w2 & -> & (a & b & ? & ? & ->) & (x & w3 & -> & (c & d & ? & ? & ->) & ->)). exists a, b, c, d. split; [|done]. repeat (constructor; [done|]); constructor.
Qed.

Lemma plain_word kw : plain (word buffer kw) (spelling kw).
Proof.
  induction kw as [|c kw IH]; cbn [word].
  - eapply peg_sound_weaken; [|apply sound_succeeds]. intros i w ks rest [-> ->]. split; [done|constructor].
  - eapply plain_weaken; [|apply plain_cons; [apply plain_either|exact IH]]. intros w (x & w' & Hx & Hw & ->). by constructor.
Qed.

Lemma plain_star r (P : Z -> Prop) : plain r (fun w => exists c, P c /\ w = [c]) ->
  sound (star buffer r) (fun _ w ks rest => (ks = [] /\ Forall P w) /\ stuck r rest).
Proof.
  intros H. eapply peg_sound_weaken; [|apply sound_star; [exact H|]]; cbn.
  - intros i w ks rest [Hr Hs]. split; [by eapply rep_runes|done].
  - by intros i w ks rest [_ (c & _ & ->)].
Qed.

Lemma plain_stars r (P : Z -> Prop) : plain r (fun w => exists c, P c /\ w = [c]) -> plain (star buffer r) (Forall P).
Proof. intros H. eapply peg_sound_weaken; [|by apply plain_star]. by intros i w ks rest [? _]. Qed.

Lemma plain_blanks : plain (blanks buffer) (fun w => exists n, w = blank n).
Proof.
  eapply plain_weaken; [|apply plain_stars, plain_char]. intros w H. exists (length w). induction H as [|c w -> _ IH]; [done|]. cbn. by rewrite IH at 1.
Qed.

(** An operand of some kinds. *)
Definition operand_lang (P : operand_text -> Prop) : lang := fun i w ks _ => exists o, operand_ok o /\ P o /\ w = print_operand o /\ ks = operand_marks o i.

Lemma sound_text r t P (mk : list Z -> operand_text) : relevant t = true -> (forall w, P w -> exists o, operand_ok o /\ o = mk w /\ w = print_operand o /\ operand_rule o = t /\ forall i, text_start o i = i) ->
  plain r P -> sound (mark t (text r)) (operand_lang (fun o => exists w, o = mk w)).
Proof.
  intros Ht HP H. eapply peg_sound_weaken; [|apply sound_mark, sound_mark, H]. intros i w ks rest (k1 & -> & k2 & -> & -> & Hw).
  destruct (HP w Hw) as (o & Ho & Eo & Ew & Er & Es). exists o. split_and!; [done|by exists w|done|]. unfold operand_marks, own. rewrite Ht, Er, Es, <- Ew. done.
Qed.

Lemma sound_number : sound (number buffer) (operand_lang (fun o => exists t, o = SNumber t)).
Proof.
  apply (sound_text _ _ number_text SNumber); [done|intros w Hw; by exists (SNumber w)|].
  eapply plain_weaken; [|apply plain_alt; [apply plain_char|]; apply plain_cons; [apply plain_range|]; apply plain_seq; [apply plain_stars, plain_digit|];
    eapply (plain_alt _ _ _ (eq [])); [apply plain_cons; [apply plain_char|apply plain_stars, plain_digit]|]].
  - intros w [(x & -> & ->)|(c & w' & Hc & (ds & fs & -> & Hds & Hfs) & ->)]; [by left|]. right. exists c, ds, fs. split_and!; try done; try lia.
    destruct Hfs as [(x & fs' & -> & ? & ->)|<-]; [right; by exists fs'|by left].
  - eapply peg_sound_weaken; [|apply sound_succeeds]. by intros i w ks rest [-> ->].
Qed.

Lemma stuck_value c s : stuck (alt (matchChar buffer 34) (matchChar buffer 39)) (c :: s) -> c <> 34 /\ c <> 39.
Proof.
  intros H. split; intros ->; (eapply (H [_]); [done|]); apply acc_either; auto.
Qed.

Lemma plain_value_rune : plain (seq_ (nomatch (alt (matchChar buffer 34) (matchChar buffer 39))) (matchDot buffer)) (fun w => exists c, value_rune c /\ w = [c]).
Proof.
  eapply peg_sound_weaken; [|apply sound_seq; [apply sound_nomatch|apply sound_rune]].
  intros i w ks rest (w1 & w2 & k1 & k2 & -> & -> & (-> & -> & Hs) & -> & c & Hc%negb_true_iff%Z.eqb_neq & ->). split; [done|]. exists c. split; [|done].
  destruct (stuck_value c rest Hs). by split_and!.
Qed.

Lemma sound_value : sound (value buffer) (operand_lang (fun o => exists t, o = SValue t)).
Proof.
  eapply peg_sound_weaken; [|apply sound_mark, sound_mark, plain_cons; [apply plain_char|]; apply plain_seq; [apply plain_stars, plain_value_rune|apply plain_char]].
  intros i w ks rest (k1 & -> & k2 & -> & -> & x & w' & -> & (t & w2 & -> & Ht & (x2 & -> & ->)) & ->). exists (SValue t). split_and!; try done. by exists t.
Qed.

Lemma sound_date : sound (date buffer) (operand_lang (fun o => exists kw t, o = SDate kw t)).
Proof.
  eapply peg_sound_weaken; [|apply sound_mark, sound_seq; [apply plain_word|apply sound_seq; [apply sound_char|apply sound_mark, plain_ymd]]].
  intros i w ks rest (k1 & -> & kw & w2 & k2 & k3 & -> & -> & [-> Hk] & w3 & w4 & k4 & k5 & -> & -> & [-> ->] & k6 & -> & -> & Ht).
  exists (SDate kw w4). split_and!; [done|by eexists _, _|done|]. unfold operand_marks, own. cbn. rewrite length_app. cbn. by marks_eq.
Qed.

Lemma sound_time : sound (time buffer) (operand_lang (fun o => exists kw t, o = STime kw t)).
Proof.
  assert (plain (seq_ (ymd buffer) (seq_ (matchChar buffer 84) (seq_ (hm buffer) (seq_ (matchChar buffer 58) (seq_ (two_digits buffer)
    (alt (seq_ (alt (matchChar buffer 45) (matchChar buffer 43)) (hm buffer)) (matchChar buffer 90))))))) time_text) as Ht.
  { eapply plain_weaken; [|apply plain_seq; [apply plain_ymd|]; apply plain_cons; [apply plain_char|]; apply plain_seq; [apply plain_hm|];
      apply plain_cons; [apply plain_char|]; apply plain_seq; [apply plain_two|]; apply plain_alt; [apply plain_cons; [apply plain_either|apply plain_hm]|apply plain_char]].
    intros w (d & w2 & -> & Hd & x & w3 & -> & (h & w4 & -> & Hh & x' & w5 & -> & (w6 & z & -> & (s1 & s2 & ? & ? & ->) & Hz) & ->) & ->).
    exists d, h, s1, s2, z. split_and!; try done. destruct Hz as [(c & t' & ? & ? & ->)|(x & -> & ->)]; [right; by exists c, t'|by left]. }
  eapply peg_sound_weaken; [|apply sound_mark, sound_seq; [apply plain_word|apply sound_seq; [apply sound_char|apply sound_mark, Ht]]].
  intros i w ks rest (k1 & -> & kw & w2 & k2 & k3 & -> & -> & [-> Hk] & w3 & w4 & k4 & k5 & -> & -> & [-> ->] & k6 & -> & -> & Ht').
  exists (STime kw w4). split_and!; [done|by eexists _, _|done|]. unfold operand_marks, own. cbn. rewrite length_app. cbn. by marks_eq.
Qed.

Definition not_value (o : operand_text) : Prop := match o with SValue _ => False | _ => True end.

Lemma operand_weaken r P (Q : operand_text -> Prop) : (forall o, P o -> Q o) -> sound r (operand_lang P) -> sound r (operand_lang Q).
Proof. intros H. apply peg_sound_weaken. intros i w ks rest (o & ? & ? & ? & ?). exists o. split_and!; try done. by apply H. Qed.

Lemma sound_number_or_time : sound (number_or_time buffer) (operand_lang not_value).
Proof.
  eapply peg_sound_weaken; [|apply sound_switch with (Lf := fun _ => operand_lang not_value)]; [by intros i w ks rest (c & _ & H)|].
  intros c. repeat case_match; (eapply operand_weaken; [|first [apply sound_number|apply sound_time|apply sound_date]]).
  - by intros o (kw & t & ->).
  - by intros o (kw & t & ->).
  - by intros o (t & ->).
Qed.

Lemma sound_any_operand : sound (any_operand buffer) (operand_lang (fun _ => True)).
Proof.
  eapply peg_sound_weaken; [|apply sound_switch with (Lf := fun _ => operand_lang (fun _ => True))]; [by intros i w ks rest (c & _ & H)|].
  intros c. repeat case_match; (eapply operand_weaken; [|first [apply sound_number|apply sound_time|apply sound_date|apply sound_value]]; done).
Qed.

Lemma plain_tag_rune : plain (tag_rune buffer) (fun w => exists c, tag_rune_ok c /\ w = [c]).
Proof.
  eapply peg_sound_weaken; [|apply sound_seq; [apply sound_nomatch|apply sound_rune]].
  intros i w ks rest (w1 & w2 & k1 & k2 & -> & -> & (-> & -> & Hs) & -> & c & Hc%negb_true_iff%Z.eqb_neq & ->). split; [done|]. exists c. split; [|done].
  split; [|done]. intros Hr. eapply (Hs [c]); [done|]. by apply acc_reserved.
Qed.

Lemma sound_tag : sound (tag buffer) (fun i w ks rest => w <> [] /\ Forall tag_rune_ok w /\
  ks = [Token rulePegText i (i + length w); Token ruletag i (i + length w)] /\ stuck (tag_rune buffer) rest).
Proof.
  eapply peg_sound_weaken; [|apply sound_mark, sound_mark, sound_seq; [apply plain_tag_rune|apply plain_star, plain_tag_rune]].
  intros i w ks rest (k1 & -> & k2 & -> & w1 & w2 & k3 & k4 & -> & -> & [-> (c & Hc & ->)] & [[-> Hw] Hs]). split_and!; [done|by constructor|done|done].
Qed.

Lemma sound_op t r orule P Q : relevant t = true -> plain r P -> sound orule (operand_lang Q) ->
  sound (seq_ (mark t r) (seq_ (blanks buffer) orule)) (fun i w ks _ => exists kw b o, P kw /\ operand_ok o /\ Q o /\
    w = kw ++ blank b ++ print_operand o /\ ks = Token t i (i + length kw) :: operand_marks o (i + length kw + b)%nat).
Proof.
  intros Ht Hr Ho. eapply peg_sound_weaken; [|apply sound_seq; [apply sound_mark, Hr|apply sound_seq; [apply plain_blanks|exact Ho]]].
  intros i w ks rest (kw & w2 & k1 & k2 & -> & -> & (k3 & -> & -> & Hk) & w3 & w4 & k4 & k5 & -> & -> & [-> (b & ->)] & o & ? & ? & -> & ->).
  exists kw, b, o. split_and!; try done. unfold own. rewrite Ht. cbn. unfold blank. by rewrite length_replicate.
Qed.

Lemma plain_pair a b : plain (seq_ (matchChar buffer a) (matchChar buffer b)) (eq [a; b]).
Proof. eapply plain_weaken; [|apply plain_cons; apply plain_char]. by intros w (x & w' & -> & (y & -> & ->) & ->). Qed.

Lemma plain_single a : plain (matchChar buffer a) (eq [a]).
Proof. eapply plain_weaken; [|apply plain_char]. by intros w (x & -> & ->). Qed.

Definition ops_lang : lang := fun i w ks _ => exists op kw b o, op_kw op kw /\ operand_ok o /\ arg_ok op o /\
  w = kw ++ blank b ++ print_operand o /\ ks = Token (op_rule op) i (i + length kw) :: operand_marks o (i + length kw + b)%nat.

Lemma sound_op_lang op r orule P Q : plain r P -> sound orule (operand_lang Q) -> (forall kw, P kw -> op_kw op kw) -> (forall o, Q o -> arg_ok op o) ->
  sound (seq_ (mark (op_rule op) r) (seq_ (blanks buffer) orule)) ops_lang.
Proof.
  intros Hr Ho HP HQ. eapply peg_sound_weaken; [|apply sound_op; [by destruct op|exact Hr|exact Ho]].
  intros i w ks rest (kw & b & o & Hk & Hok & Hq & -> & ->). exists op, kw, b, o. split_and!; auto.
Qed.

Lemma sound_ops : sound (comparison buffer) ops_lang.
Proof.
  unfold comparison.
  assert (forall op, op <> OpContains -> forall o, not_value o -> arg_ok op o) as Ha by (intros [] ? [] ?; done).
  eapply peg_sound_weaken; [|apply sound_alt; [|apply sound_alt; [|apply sound_switch with (Lf := fun _ => ops_lang)]]].
  - intros i w ks rest [H|[H|(c & _ & H)]]; exact H.
  - apply (sound_op_lang OpLessEqual _ _ _ _ (plain_pair 60 61) sound_number_or_time); [by intros ? <-|by apply Ha].
  - apply (sound_op_lang OpGreaterEqual _ _ _ _ (plain_pair 62 61) sound_number_or_time); [by intros ? <-|by apply Ha].
  - intros c. repeat case_match.
    + apply (sound_op_lang OpEqual _ _ _ _ (plain_single 61) sound_any_operand); [by intros ? <-|by intros []].
    + apply (sound_op_lang OpGreater _ _ _ _ (plain_single 62) sound_number_or_time); [by intros ? <-|by apply Ha].
    + apply (sound_op_lang OpLess _ _ _ _ (plain_single 60) sound_number_or_time); [by intros ? <-|by apply Ha].
    + apply (sound_op_lang OpContains _ _ _ _ (plain_word kw_contains) sound_value); [done|by intros o (t & ->)].
Qed.

Lemma sound_condition : sound (condition buffer) (fun i w ks _ => exists x, spelled_ok x /\ w = print_spelled x /\ ks = spelled_marks x i).
Proof.
  eapply peg_sound_weaken; [|apply sound_mark, sound_seq; [apply sound_tag|apply sound_seq; [apply plain_blanks|apply sound_ops]]].
  intros i w ks rest (k0 & -> & t & w2 & k1 & k2 & -> & -> & (Hn & Ht & -> & Hs) & w3 & w4 & k3 & k4 & -> & -> & [-> (b & ->)] & op & kw & b2 & o & Hk & Ho & Ha & -> & ->).
  exists {| s_tag := t; s_b1 := b; s_op := op; s_kw := kw; s_b2 := b2; s_arg := o |}. split; [|split; [done|]].
  - unfold spelled_ok, op_ok. cbn. split_and!; try done. intros ->. destruct b; [|lia]. exfalso.
    destruct (contains_head kw Hk) as (c & s & -> & Hc). eapply (Hs [c]); [done|]. apply acc_tag_rune. split; [|unfold endSymbol; lia].
    intros Hr. unfold reserved_runes in Hr. repeat (apply elem_of_cons in Hr as [->|Hr]; [lia|]). by apply elem_of_nil in Hr.
  - unfold spelled_marks, own. cbn. unfold blank. by rewrite length_replicate.
Qed.

Lemma sound_further : sound (further_rule buffer) (fun i w ks _ => exists f, further_ok f /\ w = print_further f /\ ks = further_marks f i).
Proof.
  eapply peg_sound_weaken; [|apply sound_seq; [apply sound_char|apply sound_seq; [apply plain_blanks|apply sound_seq; [apply plain_mark; [done|apply plain_word]|
    apply sound_seq; [apply sound_char|apply sound_seq; [apply plain_blanks|apply sound_condition]]]]]].
  intros i w ks rest (w1 & w2 & k1 & k2 & -> & -> & [-> ->] & w3 & w4 & k3 & k4 & -> & -> & [-> (b1 & ->)] & kw & w6 & k5 & k6 & -> & -> & [-> Hk] &
    w7 & w8 & k7 & k8 & -> & -> & [-> ->] & w9 & w10 & k9 & k10 & -> & -> & [-> (b2 & ->)] & x & Hx & -> & ->).
  exists {| f_b1 := b1; f_kw := kw; f_b2 := b2; f_cond := x |}. split; [done|]. split; [done|].
  unfold further_marks. cbn [f_b1 f_kw f_b2 f_cond app length]. unfold blank. rewrite !length_replicate. f_equal. lia.
Qed.

Lemma rep_further i w ks rest : rep (fun i w ks _ => exists f, further_ok f /\ w = print_further f /\ ks = further_marks f i) i w ks rest ->
  exists fs, Forall further_ok fs /\ w = concat (map print_further fs) /\ ks = all_marks print_further further_marks fs i.
Proof.
  induction 1 as [|i w1 w2 k1 k2 rest (f & Hf & -> & ->) _ (fs & Hfs & -> & ->)]; [by exists []|]. exists (f :: fs). split_and!; [by constructor|done|done].
Qed.

Lemma sound_e : sound (e buffer) (fun i w ks rest => exists x fs, query_ok x fs /\ w = Buffer (print_query x fs) /\ ks = query_marks x fs (S i) /\
  stuck (matchDot buffer) rest).
Proof.
  eapply peg_sound_weaken; [|apply sound_mark, sound_seq; [apply sound_char|apply sound_seq; [apply sound_condition|apply sound_seq; [apply sound_star; [apply sound_further|]|
    apply sound_seq; [apply sound_char|apply sound_nomatch]]]]].
  - intros i w ks rest (k0 & -> & w1 & w2 & k1 & k2 & -> & -> & [-> ->] & w3 & w4 & k3 & k4 & -> & -> & (x & Hx & -> & ->) & w5 & w6 & k5 & k6 & -> & -> &
      [Hrep _] & w7 & w8 & k7 & k8 & -> & -> & [-> ->] & -> & -> & Hs).
    apply rep_further in Hrep as (fs & Hfs & -> & ->). exists x, fs. split; [done|]. unfold Buffer, print_query, query_marks, app_marks, own.
    cbn [app length relevant]. rewrite <- !app_assoc, !app_nil_r, Nat.add_1_r. done.
  - by intros i w ks rest (f & _ & -> & _).
Qed.
End only.

(** ** The parser *)

Lemma last_reset s : last (reset s) = Some endSymbol.
Proof.
  unfold reset. destruct (last (runes s)) as [c|] eqn:E; [|apply last_snoc]. destruct (Z.eqb_spec c endSymbol) as [->|]; [done|]. apply last_snoc.
Qed.

Lemma reset_runes s : Forall (fun c => 0 <= c < 256) s -> reset s = runes s ++ [endSymbol].
Proof.
  intros H%runes_range. unfold reset. destruct (last (runes s)) as [c|] eqn:E; [|done]. destruct (Z.eqb_spec c endSymbol) as [->|]; [|done].
  apply last_Some_elem_of in E. rewrite Forall_forall in H. specialize (H _ E). unfold endSymbol in H. lia.
Qed.

Lemma e_safe buffer : last buffer = Some endSymbol -> safe buffer (e buffer).
Proof.
  intros Hend. unfold e, further_rule, condition, comparison, and_, contains, l, g, equal, ge, le, any_operand, number_or_time, tag, tag_rune, reserved, value, number, time, date, hm,
    two_digits, ymd, day, month, year, digit, blanks, word, letter, text, matchRange, matchDot, matchChar.
  repeat match goal with
  | |- safe _ (matchRune _ _) => apply safe_rune; [assumption|reflexivity]
  | |- safe _ (switch _ _) => apply safe_switch; intros ?
  | |- safe _ (if ?b then _ else _) => destruct b
  | |- _ => first [apply safe_mark|apply safe_seq|apply safe_alt|apply safe_nomatch|apply safe_star|apply safe_succeeds]
  end.
Qed.

Lemma Parse_total s : match Parse s with Ok _ | Err _ => True | _ => False end.
Proof.
  pose proof (e_safe (reset s) (last_reset s) (Par 0%nat [] (Token ruleUnknown 0 0))) as H. unfold Parse.
  destruct (e _ _); try done. apply H. cbn. pose proof (last_reset s). destruct (reset s); [done|cbn; lia].
Qed.

(** ** What subscription queries mean

    The parser accepts exactly the spellings; the conditions of an ASCII query are those of its spelling, and a query
    matches a set of tags when all of them do. *)

Definition byte_list (s : list Z) : Prop := Forall (fun c => 0 <= c < 256) s.

Lemma runes_Buffer s : byte_list s -> reset (Buffer s) = Buffer (runes s) ++ [endSymbol].
Proof.
  intros H. rewrite reset_runes by (constructor; [lia|]; apply Forall_app; split; [done|]; constructor; [lia|done]). unfold Buffer. cbn [runes].
  change (34 <? 128) with true. cbv iota. by rewrite runes_app_ascii by lia.
Qed.

Lemma stuck_dot buffer c s : stuck buffer (matchDot buffer) (c :: s) -> c = endSymbol.
Proof. intros H. destruct (decide (c = endSymbol)); [done|]. exfalso. eapply (H [c]); [done|]. apply acc_rune. by apply negb_true_iff, Z.eqb_neq. Qed.

Lemma New_accepts s x fs : byte_list s -> query_ok x fs -> runes s = print_query x fs ->
  exists q, New s = Ok q /\ q_str q = s /\ shown (q_tokens q) = query_marks x fs 1%nat.
Proof.
  intros Hb Hq Heq. unfold New, Parse. rewrite (runes_Buffer s Hb), Heq.
  destruct (acc_e (Buffer (print_query x fs) ++ [endSymbol]) x fs Hq 0%nat [] (Token ruleUnknown 0 0) eq_refl) as (m' & ts & E' & Hs).
  rewrite E'. eexists. split; [done|]. split; [done|]. exact Hs.
Qed.

Lemma query_New_ok s : byte_list s ->
  match New s with
  | Ok q => q_str q = s /\ exists x fs, query_ok x fs /\ runes s = print_query x fs /\ shown (q_tokens q) = query_marks x fs 1%nat
  | Err _ => forall x fs, query_ok x fs -> runes s <> print_query x fs
  | _ => False
  end.
Proof.
  intros Hb. pose proof (Parse_total (Buffer s)) as Ht. pose proof (runes_Buffer s Hb) as Er. unfold New, Parse in *.
  set (p0 := Par 0%nat [] (Token ruleUnknown 0 0)) in *. destruct (e (reset (Buffer s)) p0) as [p|m|] eqn:E; try done.
  - cbn. split; [done|]. destruct (sound_e (reset (Buffer s)) p0 p E) as (w & ts & Hd & Hp & Hts & x & fs & Hq & -> & Hm & Hs). cbn in Hd, Hts, Hm.
    exists x, fs. split; [done|]. rewrite Er in Hd, Hs. rewrite drop_0 in Hd.
    assert (drop (position p) (Buffer (runes s) ++ [endSymbol]) = [endSymbol]) as Hrest.
    { assert (forall c t, drop (position p) (Buffer (runes s) ++ [endSymbol]) = c :: t -> c = endSymbol) as Hc by (intros c t Ect; rewrite Ect in Hs; by eapply stuck_dot).
      assert (endSymbol ∉ Buffer (runes s)) as Hni.
      { intros Hi. apply elem_of_cons in Hi as [?|Hi]; [done|]. apply elem_of_app in Hi as [Hi|Hi]; [|by apply elem_of_cons in Hi as [?|?%elem_of_nil]].
        pose proof (runes_range s Hb) as Hr. rewrite Forall_forall in Hr. specialize (Hr _ Hi). unfold endSymbol in Hr. lia. }
      destruct (decide (position p < length (Buffer (runes s)))%nat) as [Hlt|].
      - destruct (lookup_lt_is_Some_2 _ _ Hlt) as [c Hl]. rewrite drop_app_le in * by lia. rewrite (drop_S _ _ _ Hl) in Hc. cbn in Hc.
        rewrite (Hc _ _ eq_refl) in Hl. destruct Hni. by eapply list_elem_of_lookup_2.
      - rewrite drop_app_ge in Hc |- * by lia. destruct (position p - length (Buffer (runes s)))%nat as [|k] eqn:En; [done|]. exfalso.
        assert (drop (position p) (Buffer (runes s) ++ [endSymbol]) = []) as Hnil by (apply drop_ge; rewrite length_app; cbn [length]; lia).
        rewrite Hnil, app_nil_r in Hd. apply (f_equal last) in Hd. unfold Buffer in Hd. rewrite last_snoc, app_comm_cons, last_snoc in Hd. done. }
    rewrite Hrest in Hd. unfold Buffer in Hd. injection Hd as Hd%app_inv_tail%app_inv_tail. split; [done|]. by rewrite Hts.
  - intros x fs Hq Heq. destruct (New_accepts s x fs Hb Hq Heq) as (q & Eq & _). unfold New, Parse in Eq. fold p0 in Eq. by rewrite E in Eq.
Qed.

(** ** Conditions *)

Lemma shown_cons t ts : shown (t :: ts) = if relevant (rule_ t) then t :: shown ts else shown ts.
Proof. unfold shown. rewrite filter_cons. by destruct (relevant (rule_ t)). Qed.

Section conditions.
Context `{!Rest}.

Lemma conditions_shown B ts : forall b e tag op cs, conditions_loop B ts b e tag op cs = conditions_loop B (shown ts) b e tag op cs.
Proof.
  induction ts as [|[r i j] ts IH]; intros b e tag op cs; [done|]. rewrite shown_cons.
  destruct r; cbn; try apply IH; repeat case_match; try done; apply IH.
Qed.

Lemma matches_shown B tags ts : forall b e tag op, matches_loop B tags ts b e tag op = matches_loop B tags (shown ts) b e tag op.
Proof.
  induction ts as [|[r i j] ts IH]; intros b e tag op; [done|]. rewrite shown_cons.
  destruct r; cbn; try apply IH; repeat case_match; try done; apply IH.
Qed.

(** What an operand stands for. *)
Definition operand_value (o : operand_text) : R Operand :=
  match o with
  | SNumber t => number_operand t
  | SDate _ t => let* v := or_panic (parse_date t) in Ok (OTime v)
  | STime _ t => let* v := or_panic (Parse_RFC3339 t) in Ok (OTime v)
  | SValue t => Ok (OString t)
  end.

Definition condition_of (x : spelled) : R Condition :=
  let* v := operand_value (s_arg x) in Ok {| Tag := s_tag x; Op := s_op x; Operand_ := v |}.

Lemma peg_slice_mid a w c : slice (a ++ w ++ c) (length a) (length a + length w) = w.
Proof. unfold slice. rewrite drop_app_length. replace (length a + length w - length a)%nat with (length w) by lia. apply take_app_length. Qed.

Lemma slice_at B a w c i j : B = a ++ w ++ c -> i = length a -> j = (i + length w)%nat -> slice B i j = w.
Proof. intros -> -> ->. apply peg_slice_mid. Qed.

(** The tokens of an operand in the buffer. *)
Lemma operand_of_marks B a o c i : B = a ++ print_operand o ++ c -> i = length a ->
  operand_of B (text_start o i) (i + length (print_operand o)) (operand_rule o) = Some (operand_value o).
Proof.
  intros HB Hi. destruct o as [t|kw t|kw t|t]; cbn [operand_rule operand_of operand_value text_start print_operand] in *.
  - by rewrite (slice_at B a t c).
  - rewrite (slice_at B (a ++ kw ++ [32]) t c); [done| |rewrite !length_app; cbn; lia|rewrite length_app; cbn; lia].
    rewrite HB, <- !app_assoc. done.
  - rewrite (slice_at B (a ++ kw ++ [32]) t c); [done| |rewrite !length_app; cbn; lia|rewrite length_app; cbn; lia].
    rewrite HB, <- !app_assoc. done.
  - rewrite (slice_at B (a ++ [39]) t ([39] ++ c)); [done| |rewrite length_app; cbn; lia|cbn; rewrite length_app; cbn; lia].
    rewrite HB, <- !app_assoc. cbn. by rewrite <- app_assoc.
Qed.

(** One token in each of the loops. *)
Section tokens.
Context (B : list Z) (tags : tagMap) (k : list token32) (b e : nat) (tag : list Z) (op : Operator) (cs : list Condition) (u v : nat).

Lemma conditions_text : conditions_loop B (Token rulePegText u v :: k) b e tag op cs = conditions_loop B k u v tag op cs.
Proof. done. Qed.
Lemma conditions_tag : conditions_loop B (Token ruletag u v :: k) b e tag op cs = conditions_loop B k b e (slice B b e) op cs.
Proof. done. Qed.
Lemma conditions_op op' : conditions_loop B (Token (op_rule op') u v :: k) b e tag op cs = conditions_loop B k b e tag op' cs.
Proof. by destruct op'. Qed.
Lemma conditions_operand o w : operand_of B b e (operand_rule o) = Some w -> conditions_loop B (Token (operand_rule o) u v :: k) b e tag op cs =
  let* w := w in conditions_loop B k b e tag op (cs ++ [{| Tag := tag; Op := op; Operand_ := w |}]).
Proof. intros E. destruct o; cbn [conditions_loop rule_ operand_rule op_of] in *; by rewrite E. Qed.

Lemma matches_text : matches_loop B tags (Token rulePegText u v :: k) b e tag op = matches_loop B tags k u v tag op.
Proof. done. Qed.
Lemma matches_tag : matches_loop B tags (Token ruletag u v :: k) b e tag op = matches_loop B tags k b e (slice B b e) op.
Proof. done. Qed.
Lemma matches_op op' : matches_loop B tags (Token (op_rule op') u v :: k) b e tag op = matches_loop B tags k b e tag op'.
Proof. by destruct op'. Qed.
Lemma matches_operand o w : operand_of B b e (operand_rule o) = Some w -> matches_loop B tags (Token (operand_rule o) u v :: k) b e tag op =
  let* w := w in let* ok := match_ tag op w tags in if ok then matches_loop B tags k b e tag op else Ok false.
Proof. intros E. destruct o; cbn [matches_loop rule_ operand_rule op_of] in *; by rewrite E. Qed.
End tokens.

Section one_condition.
Context (B a c : list Z) (x : spelled) (HB : B = a ++ print_spelled x ++ c) (i : nat) (Hi : i = length a) (ks : list token32).

(** Where the operand starts and the variables of the loops after a condition. *)
Definition arg_start : nat := (i + length (s_tag x) + s_b1 x + length (s_kw x) + s_b2 x)%nat.
Definition b' : nat := text_start (s_arg x) arg_start.
Definition e' : nat := (arg_start + length (print_operand (s_arg x)))%nat.

Lemma tag_slice : slice B i (i + length (s_tag x)) = s_tag x.
Proof. apply (slice_at B a _ (blank (s_b1 x) ++ s_kw x ++ blank (s_b2 x) ++ print_operand (s_arg x) ++ c)); [|done|done]. rewrite HB. unfold print_spelled. by rewrite <- !app_assoc. Qed.

Lemma arg_operand : operand_of B b' e' (operand_rule (s_arg x)) = Some (operand_value (s_arg x)).
Proof.
  apply (operand_of_marks B (a ++ s_tag x ++ blank (s_b1 x) ++ s_kw x ++ blank (s_b2 x)) _ c).
  - rewrite HB. unfold print_spelled. by rewrite <- !app_assoc.
  - unfold arg_start, blank. rewrite !length_app, !length_replicate. lia.
Qed.

Lemma conditions_spelled b e tag op cs : conditions_loop B (spelled_marks x i ++ ks) b e tag op cs =
  let* cd := condition_of x in conditions_loop B ks b' e' (s_tag x) (s_op x) (cs ++ [cd]).
Proof.
  unfold spelled_marks, operand_marks. cbn [app]. rewrite conditions_text, conditions_tag, tag_slice, conditions_op, conditions_text.
  fold arg_start. fold b'. fold e'. rewrite (conditions_operand _ _ _ _ _ _ _ _ _ _ _ arg_operand). unfold condition_of. by destruct (operand_value _).
Qed.

Lemma matches_spelled tags b e tag op : matches_loop B tags (spelled_marks x i ++ ks) b e tag op =
  let* cd := condition_of x in let* ok := match_ (Tag cd) (Op cd) (Operand_ cd) tags in
  if ok then matches_loop B tags ks b' e' (s_tag x) (s_op x) else Ok false.
Proof.
  unfold spelled_marks, operand_marks. cbn [app]. rewrite matches_text, matches_tag, tag_slice, matches_op, matches_text.
  fold arg_start. fold b'. fold e'. rewrite (matches_operand _ _ _ _ _ _ _ _ _ _ _ arg_operand). unfold condition_of. by destruct (operand_value _).
Qed.
End one_condition.

Lemma conditions_further fs : forall B a c i b e tag op cs, B = a ++ concat (map print_further fs) ++ c -> i = length a ->
  conditions_loop B (all_marks print_further further_marks fs i) b e tag op cs =
  let* ds := res_all (map condition_of (map f_cond fs)) in Ok (cs ++ ds).
Proof.
  induction fs as [|f fs IH]; intros B a c i b e tag op cs HB Hi; cbn [map concat all_marks res_all]; [cbn; by rewrite app_nil_r|].
  unfold app_marks. set (a' := a ++ blank (S (f_b1 f)) ++ f_kw f ++ blank (S (f_b2 f))). cbn [map concat] in HB. unfold further_marks at 1.
  rewrite (conditions_spelled B a' (concat (map print_further fs) ++ c) (f_cond f)).
  - destruct (condition_of (f_cond f)) as [cd| | |]; try done.
    rewrite (IH B (a ++ print_further f) c); [|by rewrite HB, <- !app_assoc|rewrite length_app; lia]. destruct (res_all _); try done. by rewrite <- app_assoc.
  - rewrite HB. unfold a', print_further at 1. by rewrite <- !app_assoc.
  - unfold a', blank. rewrite !length_app, !length_replicate. lia.
Qed.

(** The conditions in turn, as far as they hold. *)
Fixpoint all_match (tags : tagMap) (cs : list (R Condition)) : R bool :=
  match cs with
  | [] => Ok true
  | c :: cs' => let* c := c in let* ok := match_ (Tag c) (Op c) (Operand_ c) tags in if ok then all_match tags cs' else Ok false
  end.

Lemma matches_further tags fs : forall B a c i b e tag op, B = a ++ concat (map print_further fs) ++ c -> i = length a ->
  matches_loop B tags (all_marks print_further further_marks fs i) b e tag op = all_match tags (map condition_of (map f_cond fs)).
Proof.
  induction fs as [|f fs IH]; intros B a c i b e tag op HB Hi; cbn [map concat all_marks all_match]; [done|].
  unfold app_marks. set (a' := a ++ blank (S (f_b1 f)) ++ f_kw f ++ blank (S (f_b2 f))). cbn [map concat] in HB. unfold further_marks at 1.
  rewrite (matches_spelled B a' (concat (map print_further fs) ++ c) (f_cond f)).
  - destruct (condition_of (f_cond f)) as [cd| | |]; try done. destruct (match_ _ _ _ _) as [[]| | |]; try done.
    apply (IH B (a ++ print_further f) c); [by rewrite HB, <- !app_assoc|rewrite length_app; lia].
  - rewrite HB. unfold a', print_further at 1. by rewrite <- !app_assoc.
  - unfold a', blank. rewrite !length_app, !length_replicate. lia.
Qed.

Lemma all_match_true tags cs : all_match tags cs = Ok true <->
  Forall (fun c => exists cd, c = Ok cd /\ match_ (Tag cd) (Op cd) (Operand_ cd) tags = Ok true) cs.
Proof.
  induction cs as [|c cs IH]; cbn; [split; [constructor|done]|]. rewrite Forall_cons, <- IH. destruct c as [cd| | |].
  2-4: split; [done|]; by intros [(cd & ? & _) _].
  destruct (match_ _ _ _ _) as [[]| | |] eqn:E.
  - split; [intros Hm; split; [by exists cd|done]|by intros [_ Hm]].
  - split; [done|]. intros [(cd' & [= <-] & E') _]. congruence.
  - split; [done|]. intros [(cd' & [= <-] & E') _]. congruence.
  - split; [done|]. intros [(cd' & [= <-] & E') _]. congruence.
  - split; [done|]. intros [(cd' & [= <-] & E') _]. congruence.
Qed.

Definition conditions_of (x : spelled) (fs : list further) : list (R Condition) := map condition_of (x :: map f_cond fs).

Lemma loops_ok x fs ts tags : shown ts = query_marks x fs 1%nat ->
  conditions_loop (Buffer (print_query x fs)) ts 0 0 [] OpLessEqual [] = res_all (conditions_of x fs) /\
  matches_loop (Buffer (print_query x fs)) tags ts 0 0 [] OpLessEqual = all_match tags (conditions_of x fs).
Proof.
  intros E. rewrite conditions_shown, matches_shown, E. unfold query_marks, app_marks, conditions_of.
  assert (Buffer (print_query x fs) = [34] ++ print_spelled x ++ concat (map print_further fs) ++ [34]) as EB by (unfold Buffer, print_query; by rewrite <- app_assoc).
  rewrite (conditions_spelled _ [34] _ x EB), (matches_spelled _ [34] _ x EB) by done. cbn [map res_all all_match].
  assert (Buffer (print_query x fs) = ([34] ++ print_spelled x) ++ concat (map print_further fs) ++ [34]) as EB' by (by rewrite EB, <- !app_assoc). split.
  - destruct (condition_of x) as [cd| | |]; try done. rewrite (conditions_further fs _ ([34] ++ print_spelled x) [34]); [|done|done]. by destruct (res_all _).
  - destruct (condition_of x) as [cd| | |]; try done. destruct (match_ _ _ _ _) as [[]| | |]; try done.
    by rewrite (matches_further tags fs _ ([34] ++ print_spelled x) [34]).
Qed.
End conditions.

(** ** The properties of queries *)

Lemma ascii_byte_list s : ascii_only s -> byte_list s.
Proof. intros H. eapply Forall_impl; [exact H|]. cbn. lia. Qed.

(** C28: [New] accepts exactly the texts of the grammar: conditions separated by AND, each a tag, a comparison and an
    operand of a kind the comparison takes, with any blanks and any case of the keywords. The tokens it records are those of
    the tags, operators and operands in order, at their positions in runes. It never reads past the text. *)
Theorem query_grammar s : byte_list s ->
  match New s with
  | Ok q => q_str q = s /\ exists x fs, query_ok x fs /\ runes s = print_query x fs /\ shown (q_tokens q) = query_marks x fs 1%nat
  | Err _ => forall x fs, query_ok x fs -> runes s <> print_query x fs
  | _ => False
  end.
Proof. apply query_New_ok. Qed.

(** The query tx.gas > 7. *)
Definition gas_gt (t : list Z) : spelled := {| s_tag := bs "tx.gas"; s_b1 := 1; s_op := OpGreater; s_kw := [62]; s_b2 := 1; s_arg := SNumber t |}.

Lemma gas_gt_ok c : 49 <= c <= 57 -> spelled_ok (gas_gt [c]).
Proof.
  intros Hc. unfold spelled_ok, gas_gt. cbn [s_tag s_b1 s_op s_kw s_b2 s_arg]. split_and!; [done| |done| |done].
  - apply Forall_forall. intros x Hx. split; [|intros ->; vm_compute in Hx; repeat (apply elem_of_cons in Hx as [Hx|Hx]; [done|]); by apply elem_of_nil in Hx].
    intros Hr. unfold reserved_runes in Hr. vm_compute in Hx. repeat (apply elem_of_cons in Hx as [->|Hx]; [repeat (apply elem_of_cons in Hr as [?|Hr]; [done|]); by apply elem_of_nil in Hr|]).
    by apply elem_of_nil in Hx.
  - right. exists c, [], []. split_and!; try lia; [constructor|by left|done].
Qed.

Lemma query_grammar_witness :
  (exists q x fs, New (bs "tx.gas > 7") = Ok q /\ query_ok x fs /\ runes (bs "tx.gas > 7") = print_query x fs /\ shown (q_tokens q) = query_marks x fs 1%nat) /\
  (forall x fs, query_ok x fs -> runes (bs "tx.gas 7") <> print_query x fs).
Proof.
  split.
  - pose proof (query_grammar (bs "tx.gas > 7") ltac:(repeat constructor; lia)) as H.
    destruct (New (bs "tx.gas > 7")) as [q|e| |] eqn:E; [|by vm_compute in E..]. destruct H as (_ & x & fs & H). exists q, x, fs. split; [reflexivity|exact H].
  - pose proof (query_grammar (bs "tx.gas 7") ltac:(repeat constructor; lia)) as H.
    destruct (New (bs "tx.gas 7")) as [q|e| |] eqn:E; [by vm_compute in E|exact H|by vm_compute in E..].
Defined.

(** C29: The conditions of an ASCII query are those of its text: tag, operator and the value of the operand. A query matches
    a non-empty set of tags exactly when its conditions match in turn, and [Matches] panics only where the value
    of an operand or a comparison does. *)
Theorem query_matches `{!Rest} x fs : query_ok x fs -> ascii_only (print_query x fs) -> exists q, New (print_query x fs) = Ok q /\
  Conditions q = res_all (conditions_of x fs) /\
  (forall tags, Matches q tags = if Len tags =? 0 then Ok false else all_match tags (conditions_of x fs)) /\
  (forall tags, Matches q tags = Ok true <-> Len tags <> 0 /\
    Forall (fun c => exists cd, c = Ok cd /\ match_ (Tag cd) (Op cd) (Operand_ cd) tags = Ok true) (conditions_of x fs)).
Proof.
  intros Hq Ha. destruct (New_accepts (print_query x fs) x fs (ascii_byte_list _ Ha) Hq (runes_ascii _ Ha)) as (q & Eq & Es & Et).
  exists q. split; [done|]. unfold Conditions, Matches. rewrite Es. split; [by apply (loops_ok x fs _ ∅)|].
  assert (forall tags, matches_loop (Buffer (print_query x fs)) tags (q_tokens q) 0 0 [] OpLessEqual = all_match tags (conditions_of x fs)) as Em
    by (intros tags; by apply loops_ok).
  split; intros tags; rewrite Em; [done|]. rewrite <- all_match_true. destruct (Z.eqb_spec (Len tags) 0); [|tauto]. split; [done|]. by intros [? _].
Qed.

Definition no_rest : Rest := {| ParseFloat_rest := fun _ => None; Parse_rest := fun _ => None; int64_rest := fun _ => 0 |}.

Lemma query_matches_witness : let _ := no_rest in exists q, New (bs "tx.gas > 7") = Ok q /\
  Conditions q = Ok [{| Tag := bs "tx.gas"; Op := OpGreater; Operand_ := OInt64 7 |}] /\
  Matches q {[bs "tx.gas" := VInt 8]} = Ok true /\ Matches q {[bs "tx.gas" := VInt 7]} = Ok false.
Proof.
  intros rest. destruct (query_matches (gas_gt [55]) []) as (q & Eq & Ec & Em & _).
  - split; [by apply gas_gt_ok|constructor].
  - repeat constructor; vm_compute; congruence.
  - exists q. split; [exact Eq|]. rewrite Ec, !Em. split; [by vm_compute|]. split; by vm_compute.
Defined.

(** The query with the given text, against one tag. *)
Definition matches_text_ `{!Rest} (s : list Z) (tag : list Z) (v : tag_value) : R bool :=
  match New s with Ok q => Matches q {[tag := v]} | _ => NoFuel end.

(** Queries that [New] accepts and that panic when a message is matched against them: a number beyond 64 bits, a
    date or a time that does not exist, a text where a number is expected, and a query with a character of two bytes, whose
    positions count runes where the text is sliced in bytes. *)
Theorem query_panics `{!Rest} :
  matches_text_ (bs "a=9223372036854775808") (bs "a") (VInt 1) = Panic /\
  matches_text_ (bs "a=DATE 2017-13-01") (bs "a") (VTime 0) = Panic /\
  matches_text_ (bs "a=TIME 2017-01-01T25:00:00Z") (bs "a") (VTime 0) = Panic /\
  matches_text_ (bs "a=7") (bs "a") (VString (bs "7")) = Panic /\
  matches_text_ ([195; 169] ++ bs "=7") [195; 169] (VInt 7) = Panic.
Proof. repeat match goal with |- _ /\ _ => split end; vm_compute; reflexivity. Qed.
