(* ===== verification/PubSub.v ===== *)
(** * The publish-subscribe server

    src/tendermint/tmlibs/pubsub/pubsub.go. The loop of the server owns two maps, from queries to the channels of their
    clients and from clients to their queries, and serves commands in the order of a queue. The methods run in the threads of
    the callers: they check and update a second record of the subscriptions under a lock and put commands into the queue in
    between; each of these is one step. The inner maps of that record are shared by reference. A channel is a number; the world
    keeps the messages sent, in order, and the channels closed: sending to a closed channel and closing it again
    panic. A send that has to wait for its receiver is a send that happens later. Go visits a map in any order, given by
    [order]. *)

From stdpp Require Import gmap list.
From S2P Require Import Prelude GoStrings Query.

Local Open Scope Z_scope.

Abbreviation str := (list Z) (only parsing).
Abbreviation R := (res Empty_set).

(** What a query is to the server: a key that can be compared, [Matches] and [String]. *)
Class PubQuery (Q : Type) `{Countable Q} := {
  q_Matches : Q -> tagMap -> res Empty_set bool;
  q_String : Q -> str;
}.

(** The iteration order of a map. *)
Class MapOrder := {
  order {A} : list A -> list A;
  order_perm {A} (l : list A) : order l ≡ₚ l;
}.

Section server.
Context {Q : Type} `{PubQuery Q} `{MapOrder} {M : Type}.

Definition chan := nat.

(** ** Channels *)

Record world := { sent : list (chan * M); closed : gset chan }.

Definition send_ch (w : world) (c : chan) (m : M) : R world :=
  if bool_decide (c ∈ closed w) then Panic else Ok {| sent := sent w ++ [(c, m)]; closed := closed w |}.

Definition close_ch (w : world) (c : chan) : R world :=
  if bool_decide (c ∈ closed w) then Panic else Ok {| sent := sent w; closed := {[c]} ∪ closed w |}.

(** ** The loop *)

Record state := { queries : gmap Q (gmap str chan); clients : gmap str (gset Q) }.

Definition new_state : state := {| queries := ∅; clients := ∅ |}.

Definition state_add (s : state) (clientID : str) (q : Q) (ch : chan) : state :=
  {| queries := <[q := <[clientID := ch]> (default ∅ (queries s !! q))]> (queries s);
     clients := <[clientID := {[q]} ∪ default ∅ (clients s !! clientID)]> (clients s) |}.

(** Deleting a key of an inner map, and the inner map when it becomes empty. *)
Definition drop_query (cs : gmap str (gset Q)) (clientID : str) (q : Q) : gmap str (gset Q) :=
  match cs !! clientID with
  | Some qs => let qs' := qs ∖ {[q]} in if bool_decide (qs' = ∅) then delete clientID cs else <[clientID := qs']> cs
  | None => cs
  end.

Definition drop_client (qs : gmap Q (gmap str chan)) (q : Q) (clientID : str) : gmap Q (gmap str chan) :=
  match qs !! q with
  | Some cs => let cs' := delete clientID cs in if bool_decide (cs' = ∅) then delete q qs else <[q := cs']> qs
  | None => qs
  end.

Definition state_remove (s : state) (w : world) (clientID : str) (q : Q) : R (state * world) :=
  match queries s !! q with
  | None => Ok (s, w)
  | Some clientToChannelMap =>
      match clientToChannelMap !! clientID with
      | None => Ok (s, w)
      | Some ch =>
          let* w := close_ch w ch in
          Ok ({| queries := drop_client (queries s) q clientID; clients := drop_query (clients s) clientID q |}, w)
      end
  end.

(** The loop over the queries of a client; a missing channel is nil, and closing it panics. *)
Fixpoint removeAll_loop (qs : list Q) (m : gmap Q (gmap str chan)) (w : world) (clientID : str) : R (gmap Q (gmap str chan) * world) :=
  match qs with
  | [] => Ok (m, w)
  | q :: qs' =>
      match m !! q with
      | Some cs =>
          match cs !! clientID with
          | Some ch => let* w := close_ch w ch in removeAll_loop qs' (drop_client m q clientID) w clientID
          | None => Panic
          end
      | None => Panic
      end
  end.

Definition state_removeAll (s : state) (w : world) (clientID : str) : R (state * world) :=
  match clients s !! clientID with
  | None => Ok (s, w)
  | Some queryMap =>
      let* (m, w) := removeAll_loop (order (elements queryMap)) (queries s) w clientID in
      Ok ({| queries := m; clients := delete clientID (clients s) |}, w)
  end.

Fixpoint send_all (w : world) (chs : list chan) (msg : M) : R world :=
  match chs with [] => Ok w | ch :: chs' => let* w := send_ch w ch msg in send_all w chs' msg end.

Fixpoint send_loop (qs : list (Q * gmap str chan)) (w : world) (msg : M) (tags : tagMap) : R world :=
  match qs with
  | [] => Ok w
  | (q, clientToChannelMap) :: qs' =>
      let* b := q_Matches q tags in
      let* w := if b then send_all w (snd <$> order (map_to_list clientToChannelMap)) msg else Ok w in
      send_loop qs' w msg tags
  end.

Definition state_send (s : state) (w : world) (msg : M) (tags : tagMap) : R world :=
  send_loop (order (map_to_list (queries s))) w msg tags.

Inductive cmd := Pub (msg : M) (tags : tagMap) | Sub (clientID : str) (q : Q) (ch : chan) | Unsub (clientID : str) (q : Q) | UnsubAll (clientID : str) | Shutdown.

Fixpoint shutdown_loop (cs : list str) (s : state) (w : world) : R (state * world) :=
  match cs with [] => Ok (s, w) | c :: cs' => let* (s, w) := state_removeAll s w c in shutdown_loop cs' s w end.

(** One command; the loop ends after a shutdown. *)
Definition loop_step (s : state) (w : world) (c : cmd) : R (option state * world) :=
  match c with
  | Unsub clientID q => let* (s, w) := state_remove s w clientID q in Ok (Some s, w)
  | UnsubAll clientID => let* (s, w) := state_removeAll s w clientID in Ok (Some s, w)
  | Shutdown => let* (s, w) := shutdown_loop (order (elements (dom (clients s)))) s w in Ok (None, w)
  | Sub clientID q ch => Ok (Some (state_add s clientID q ch), w)
  | Pub msg tags => let* w := state_send s w msg tags in Ok (Some s, w)
  end.

(** ** The server *)

(** The record of the subscriptions: client -> reference to a map from the text of a query to the query. *)
Record Server := {
  cmds : list cmd;
  cmdsCap : nat;
  subscriptions : gmap str nat;
  maps : list (gmap str Q);
  loop : option state;
  chans : world;
}.

Definition with_cmds (s : Server) (cs : list cmd) : Server :=
  {| cmds := cs; cmdsCap := cmdsCap s; subscriptions := subscriptions s; maps := maps s; loop := loop s; chans := chans s |}.
Definition with_subs (s : Server) (subs : gmap str nat) (ms : list (gmap str Q)) : Server :=
  {| cmds := cmds s; cmdsCap := cmdsCap s; subscriptions := subs; maps := ms; loop := loop s; chans := chans s |}.
Definition with_loop (s : Server) (l : option state) (w : world) : Server :=
  {| cmds := cmds s; cmdsCap := cmdsCap s; subscriptions := subscriptions s; maps := maps s; loop := l; chans := w |}.

(** The option [BufferCapacity]; a server without it has a queue without a buffer. *)
Definition BufferCapacity (cap : Z) (cmdsCap : nat) : nat := if 0 <? cap then Z.to_nat cap else cmdsCap.

Definition NewServer (cap : nat) : Server :=
  {| cmds := []; cmdsCap := cap; subscriptions := ∅; maps := []; loop := None; chans := {| sent := []; closed := ∅ |} |}.

(** [OnStart] starts the loop on an empty state; [OnReset] does nothing. *)
Definition OnStart (s : Server) : Server := with_loop s (Some new_state) (chans s).
Definition OnReset (s : Server) : Server := s.

(** The loop takes the next command. *)
Definition serve (s : Server) : R Server :=
  match cmds s, loop s with
  | c :: cs, Some st => let* (st, w) := loop_step st (chans s) c in Ok (with_loop (with_cmds s cs) st w)
  | _, _ => Ok s
  end.

(** *** The methods *)

Inductive pubsub_err := ErrSubscriptionNotFound | ErrAlreadySubscribed | Ctx_err.

Inductive call :=
| Subscribe (clientID : str) (q : Q) (out : chan)
| Unsubscribe (clientID : str) (q : Q)
| UnsubscribeAll (clientID : str)
| PublishWithTags (msg : M) (tags : tagMap)
| OnStop.

Definition Publish (msg : M) : call := PublishWithTags msg ∅.

(** A call in progress: before its check, about to send a command, about to record it, and done. *)
Inductive thread :=
| TCheck (c : call)
| TSend (c : cmd) (after : Server -> Server)
| TRecord (after : Server -> Server)
| TDone (r : option pubsub_err).

(** The map of a client. *)
Definition client_map (s : Server) (clientID : str) : option (nat * gmap str Q) :=
  match subscriptions s !! clientID with
  | Some i => match maps s !! i with Some m => Some (i, m) | None => None end
  | None => None
  end.

Definition record_sub (clientID : str) (q : Q) (s : Server) : Server :=
  match subscriptions s !! clientID with
  | Some i => with_subs s (subscriptions s) (alter (<[q_String q := q]>) i (maps s))
  | None => with_subs s (<[clientID := length (maps s)]> (subscriptions s)) (maps s ++ [{[q_String q := q]}])
  end.

(** Unsubscribe deletes in the map it found before it sent the command. *)
Definition record_unsub (i : nat) (key : str) (s : Server) : Server :=
  with_subs s (subscriptions s) (alter (delete key) i (maps s)).

Definition record_unsubAll (clientID : str) (s : Server) : Server :=
  with_subs s (delete clientID (subscriptions s)) (maps s).

Definition check (s : Server) (c : call) : thread :=
  match c with
  | Subscribe clientID q out =>
      match client_map s clientID with
      | Some (_, m) => match m !! q_String q with Some _ => TDone (Some ErrAlreadySubscribed) | None => TSend (Sub clientID q out) (record_sub clientID q) end
      | None => TSend (Sub clientID q out) (record_sub clientID q)
      end
  | Unsubscribe clientID q =>
      match client_map s clientID with
      | Some (i, m) =>
          match m !! q_String q with
          | Some origQuery => TSend (Unsub clientID origQuery) (record_unsub i (q_String q))
          | None => TDone (Some ErrSubscriptionNotFound)
          end
      | None => TDone (Some ErrSubscriptionNotFound)
      end
  | UnsubscribeAll clientID =>
      match subscriptions s !! clientID with
      | Some _ => TSend (UnsubAll clientID) (record_unsubAll clientID)
      | None => TDone (Some ErrSubscriptionNotFound)
      end
  | PublishWithTags msg tags => TSend (Pub msg tags) id
  | OnStop => TSend Shutdown id
  end.

(** A step of a call. A send waits for room in the queue, where the command the loop works on does not count; its
    context can end it. *)
Inductive thread_step : Server -> thread -> Server -> thread -> Prop :=
| step_check s c : thread_step s (TCheck c) s (check s c)
| step_send s c k : (length (cmds s) <= cmdsCap s)%nat -> thread_step s (TSend c k) (with_cmds s (cmds s ++ [c])) (TRecord k)
| step_cancel s c k : c <> Shutdown -> thread_step s (TSend c k) s (TDone (Some Ctx_err))
| step_record s k : thread_step s (TRecord k) (k s) (TDone None).

(** A call on its own: its steps one after the other, then the loop serves the command. *)
Definition run_call (s : Server) (c : call) : R (Server * option pubsub_err) :=
  match check s c with
  | TDone r => Ok (s, r)
  | TSend cm k =>
      let s := k (with_cmds s (cmds s ++ [cm])) in
      let* s := serve s in Ok (s, None)
  | _ => Panic
  end.

Fixpoint run_calls (s : Server) (cs : list call) : R (Server * list (option pubsub_err)) :=
  match cs with
  | [] => Ok (s, [])
  | c :: cs' => let* (s, r) := run_call s c in let* (s, rs) := run_calls s cs' in Ok (s, r :: rs)
  end.
End server.
