(* ===== verification/PubSubSpec.v ===== *)
(** * The publish-subscribe server delivers

    The two maps of the loop agree and stand for one map from clients and queries to channels; the commands act on it; and a
    server whose calls do not overlap is a table of subscriptions by client and text of the query. *)

From stdpp Require Import gmap list.
From S2P Require Import Prelude GoStrings Query QuerySpec PubSub.

Local Open Scope Z_scope.

Section loop.
Context {Q : Type} `{EqD : EqDecision Q, Cnt : !Countable Q, PQ : !PubQuery Q} `{MO : MapOrder} {M : Type}.
Abbreviation state := (@state Q _ _).
Abbreviation world := (@world M).
Implicit Types (s : state) (w : world).

Definition sub s (c : str) (q : Q) : option chan := match queries s !! q with Some m => m !! c | None => None end.

Record state_ok s : Prop := {
  ok_agree c q : q ∈ default ∅ (clients s !! c) <-> is_Some (sub s c q);
  ok_queries q m : queries s !! q = Some m -> m <> ∅;
  ok_clients c qs : clients s !! c = Some qs -> qs <> ∅;
}.

Lemma new_state_ok : state_ok new_state.
Proof. split; cbn; [|done|done]. intros c q. unfold sub. cbn. rewrite !lookup_empty. cbn. split; [set_solver|by intros [? ?]]. Qed.

Lemma sub_drop_client s (cs : gmap str (gset Q)) c q c' q' : sub {| queries := drop_client (queries s) q c; clients := cs |} c' q' =
  if bool_decide (c' = c /\ q' = q) then None else sub s c' q'.
Proof.
  unfold sub, drop_client. cbn. destruct (queries s !! q) as [m|] eqn:Eq.
  - case_bool_decide as Em.
    + destruct (decide (q' = q)) as [->|Nq].
      * rewrite lookup_delete_eq, Eq. case_bool_decide as Hc; [done|]. assert (delete c m !! c' = None) as El by (by rewrite Em).
        rewrite lookup_delete_ne in El by naive_solver. done.
      * rewrite lookup_delete_ne by done. case_bool_decide; [naive_solver|done].
    + destruct (decide (q' = q)) as [->|Nq].
      * rewrite lookup_insert_eq, Eq. destruct (decide (c' = c)) as [->|]; [rewrite lookup_delete_eq|rewrite lookup_delete_ne by done]; case_bool_decide; naive_solver.
      * rewrite lookup_insert_ne by done. case_bool_decide; [naive_solver|done].
  - case_bool_decide as Hc; [|done]. destruct Hc as [-> ->]. by rewrite Eq.
Qed.

Lemma drop_client_nonempty s q c q' m : (forall q m, queries s !! q = Some m -> m <> ∅) -> drop_client (queries s) q c !! q' = Some m -> m <> ∅.
Proof.
  intros H. unfold drop_client. destruct (queries s !! q) as [m'|] eqn:E; [|apply H]. case_bool_decide.
  - intros [_ ?]%lookup_delete_Some. by eapply H.
  - intros [[-> <-]|[_ ?]]%lookup_insert_Some; [done|by eapply H].
Qed.

Lemma clients_drop_query (cs : gmap str (gset Q)) c q c' q' : q' ∈ default ∅ (drop_query cs c q !! c') <->
  q' ∈ default ∅ (cs !! c') /\ ~ (c' = c /\ q' = q).
Proof.
  unfold drop_query. destruct (cs !! c) as [qs|] eqn:E.
  - case_bool_decide as Em.
    + destruct (decide (c' = c)) as [->|]; [rewrite lookup_delete_eq, E; cbn; set_solver|rewrite lookup_delete_ne by done; naive_solver].
    + destruct (decide (c' = c)) as [->|]; [rewrite lookup_insert_eq, E; cbn; set_solver|rewrite lookup_insert_ne by done; naive_solver].
  - split; [|tauto]. intros Hq. split; [done|]. intros [-> ->]. rewrite E in Hq. by apply elem_of_empty in Hq.
Qed.

Lemma drop_query_nonempty (cs : gmap str (gset Q)) c q c' qs : (forall c qs, cs !! c = Some qs -> qs <> ∅) -> drop_query cs c q !! c' = Some qs -> qs <> ∅.
Proof.
  intros H. unfold drop_query. destruct (cs !! c) as [qs'|] eqn:E; [|apply H]. case_bool_decide.
  - intros [_ ?]%lookup_delete_Some. by eapply H.
  - intros [[-> <-]|[_ ?]]%lookup_insert_Some; [done|by eapply H].
Qed.

(** ** Adding and removing *)

Lemma sub_add s c q ch c' q' : sub (state_add s c q ch) c' q' = if bool_decide (c' = c /\ q' = q) then Some ch else sub s c' q'.
Proof.
  unfold sub, state_add. cbn. destruct (decide (q' = q)) as [->|].
  - rewrite lookup_insert_eq. destruct (decide (c' = c)) as [->|].
    + rewrite lookup_insert_eq. by case_bool_decide; naive_solver.
    + rewrite lookup_insert_ne by done. case_bool_decide; [naive_solver|]. by destruct (queries s !! q).
  - rewrite lookup_insert_ne by done. case_bool_decide; [naive_solver|done].
Qed.

Lemma add_ok s c q ch : state_ok s -> state_ok (state_add s c q ch).
Proof.
  intros [H1 H2 H3]. split.
  - intros c' q'. rewrite sub_add. cbn. destruct (decide (c' = c)) as [->|].
    + rewrite lookup_insert_eq. cbn. case_bool_decide as E; [destruct E as [_ ->]; split; [done|set_solver]|]. rewrite <- H1. set_solver.
    + rewrite lookup_insert_ne by done. case_bool_decide; [naive_solver|]. apply H1.
  - cbn. intros q' m [[-> <-]|[_ ?]]%lookup_insert_Some; [apply insert_non_empty|by eapply H2].
  - cbn. intros c' qs [[-> <-]|[_ ?]]%lookup_insert_Some; [set_solver|by eapply H3].
Qed.

Lemma remove_ok s w c q : state_ok s -> (forall ch, sub s c q = Some ch -> ch ∉ closed w) -> exists s' w',
  state_remove s w c q = Ok (s', w') /\ state_ok s' /\ sent w' = sent w /\
  closed w' = (match sub s c q with Some ch => {[ch]} | None => ∅ end) ∪ closed w /\
  forall c' q', sub s' c' q' = if bool_decide (c' = c /\ q' = q) then None else sub s c' q'.
Proof.
  intros Hs Ho. unfold state_remove. pose proof (ok_agree s Hs c q) as Ha.
  assert (sub s c q = None -> forall c' q', sub s c' q' = if bool_decide (c' = c /\ q' = q) then None else sub s c' q') as Hsame
    by (intros E c' q'; case_bool_decide as Hc; [by destruct Hc as [-> ->]|done]).
  unfold sub in Ho, Hsame |- * at 1. destruct (queries s !! q) as [m|] eqn:Eq; [|exists s, w; split_and!; [done|done|done|set_solver|by apply Hsame]].
  destruct (m !! c) as [ch|] eqn:Ec; [|exists s, w; split_and!; [done|done|done|set_solver|by apply Hsame]].
  unfold close_ch. rewrite bool_decide_eq_false_2 by (by apply Ho). eexists _, _. split; [done|]. split_and!; [|done|done|].
  - destruct Hs as [H1 H2 H3]. split.
    + intros c' q'. rewrite sub_drop_client. cbn. rewrite clients_drop_query, H1. case_bool_decide; [split; [naive_solver|by intros []]|naive_solver].
    + cbn. intros q' m'. by apply drop_client_nonempty.
    + cbn. intros c' qs. by apply drop_query_nonempty.
  - intros c' q'. apply sub_drop_client.
Qed.

(** The loop over the queries of a client, on the map alone. *)
Abbreviation sub_in m := (sub {| queries := m; clients := ∅ |}).

Lemma removeAll_loop_ok qs c : forall m w, NoDup qs -> (forall q, q ∈ qs -> exists ch, sub_in m c q = Some ch /\ (ch ∉ closed w)) ->
  (forall q q' ch, q ∈ qs -> q' ∈ qs -> sub_in m c q = Some ch -> sub_in m c q' = Some ch -> q = q') -> (forall q cs, m !! q = Some cs -> cs <> ∅) ->
  exists m' w', removeAll_loop qs m w c = Ok (m', w') /\ sent w' = sent w /\ (forall q cs, m' !! q = Some cs -> cs <> ∅) /\
    (forall ch, ch ∈ closed w' <-> ch ∈ closed w \/ exists q, q ∈ qs /\ sub_in m c q = Some ch) /\
    forall c' q', sub_in m' c' q' = if bool_decide (c' = c /\ q' ∈ qs) then None else sub_in m c' q'.
Proof.
  induction qs as [|q qs IH]; intros m w Hnd Hsub Hinj Hne.
  { exists m, w. split_and!; try done; [set_solver|]. intros c' q'. case_bool_decide as E; [|done]. destruct E as [_ E]. by apply elem_of_nil in E. }
  apply NoDup_cons in Hnd as [Hq Hnd]. destruct (Hsub q ltac:(left)) as (ch & Ech & Hopen). cbn [removeAll_loop].
  pose proof Ech as Ech'. unfold sub in Ech. cbn in Ech. destruct (m !! q) as [cs|] eqn:Eq; [|done]. rewrite Ech. unfold close_ch. rewrite bool_decide_eq_false_2 by done.
  pose proof (sub_drop_client {| queries := m; clients := ∅ |} ∅ c q) as Hd. cbn in Hd.
  assert (forall q', q' ∈ qs -> sub_in (drop_client m q c) c q' = sub_in m c q') as Hd' by (intros q' Hq'; rewrite Hd, bool_decide_eq_false_2; [done|naive_solver]).
  destruct (IH (drop_client m q c) {| sent := sent w; closed := {[ch]} ∪ closed w |} Hnd) as (m' & w' & -> & Hsent & Hne' & Hcl & Hs').
  - intros q' Hq'. rewrite Hd' by done. destruct (Hsub q' ltac:(by right)) as (ch' & E' & Ho'). exists ch'. split; [done|]. cbn.
    intros [->%elem_of_singleton|]%elem_of_union; [|done]. destruct Hq. by rewrite (Hinj q q' ch ltac:(left) ltac:(by right)).
  - intros q1 q2 ch' H1 H2. rewrite !Hd' by done. by apply Hinj; right.
  - intros q' cs'. by apply (drop_client_nonempty {| queries := m; clients := ∅ |}).
  - exists m', w'. split_and!; try done.
    + intros ch'. rewrite Hcl. cbn. rewrite elem_of_union, elem_of_singleton. split.
      * intros [[->|?]|(q' & Hq' & E')]; [right; exists q; split; [left|done]|by left|right; exists q'; rewrite Hd' in E' by done; split; [by right|done]].
      * intros [?|(q' & [->|Hq']%elem_of_cons & E')]; [by left; right|left; left; congruence|right; exists q'; by rewrite Hd'].
    + intros c' q'. rewrite Hs', Hd. repeat case_bool_decide; try done; set_solver.
Qed.

Definition chan_open s w : Prop := forall c q ch, sub s c q = Some ch -> ch ∉ closed w.
Definition chan_own s : Prop := forall c q c' q' ch, sub s c q = Some ch -> sub s c' q' = Some ch -> c = c' /\ q = q'.

Lemma removeAll_ok s w c : state_ok s -> chan_open s w -> chan_own s -> exists s' w',
  state_removeAll s w c = Ok (s', w') /\ state_ok s' /\ sent w' = sent w /\
  (forall ch, ch ∈ closed w' <-> ch ∈ closed w \/ exists q, sub s c q = Some ch) /\
  forall c' q', sub s' c' q' = if bool_decide (c' = c) then None else sub s c' q'.
Proof.
  intros Hs Ho Hu. unfold state_removeAll. pose proof (ok_agree s Hs c) as Ha. destruct (clients s !! c) as [qs|] eqn:Ec; cbn in Ha.
  - destruct (removeAll_loop_ok (order (elements qs)) c (queries s) w) as (m' & w' & -> & Hsent & Hne & Hcl & Hsub).
    + rewrite order_perm. apply NoDup_elements.
    + intros q Hq. rewrite order_perm in Hq. apply elem_of_elements, Ha in Hq as [ch E]. exists ch. split; [exact E|by eapply Ho].
    + intros q q' ch _ _ E1 E2. by destruct (Hu c q c q' ch E1 E2).
    + apply (ok_queries s Hs).
    + assert (forall q, q ∈ order (elements qs) <-> is_Some (sub s c q)) as Hin by (intros q; by rewrite order_perm, elem_of_elements).
      assert (forall c' q', sub_in m' c' q' = if bool_decide (c' = c) then None else sub s c' q') as Hsub'.
      { intros c' q'. rewrite Hsub. destruct (decide (c' = c)) as [->|]; [|rewrite !bool_decide_eq_false_2; naive_solver].
        rewrite (bool_decide_eq_true_2 (c = c)) by done. case_bool_decide as E; [done|]. change (sub s c q' = None).
        destruct (sub s c q') eqn:E'; [|done]. destruct E. split; [done|]. apply Hin. by rewrite E'. }
      eexists _, _. split; [done|]. split_and!; [|done| |exact Hsub'].
      * destruct Hs as [H1 H2 H3]. split; cbn; [|done|intros c' qs' [_ ?]%lookup_delete_Some; by eapply H3].
        intros c' q'. change (sub {| queries := m'; clients := delete c (clients s) |} c' q') with (sub_in m' c' q'). rewrite Hsub'.
        destruct (decide (c' = c)) as [->|]; [rewrite lookup_delete_eq, bool_decide_eq_true_2 by done; cbn; split; [set_solver|by intros []]|].
        rewrite lookup_delete_ne, bool_decide_eq_false_2 by done. apply H1.
      * intros ch. rewrite Hcl. split; (intros [?|(q & Hq)]; [by left|right; exists q]); [by destruct Hq|]. split; [apply Hin; by rewrite Hq|exact Hq].
  - assert (forall q, sub s c q = None) as Hnone by (intros q; destruct (sub s c q) eqn:E; [|done]; assert (q ∈ (∅ : gset Q)) as Hq by (apply Ha; by rewrite E); set_solver).
    exists s, w. split_and!; try done; [intros ch; split; [by left|intros [?|(q & E)]; [done|by rewrite Hnone in E]]|].
    intros c' q'. case_bool_decide as E; [by subst|done].
Qed.

Lemma own_smaller s s' : chan_own s -> (forall c q ch, sub s' c q = Some ch -> sub s c q = Some ch) -> chan_own s'.
Proof. intros Hu Hs c q c' q' ch H1 H2. by apply (Hu c q c' q' ch); apply Hs. Qed.

Lemma removeAll_open s w s' w' c : chan_open s w -> chan_own s -> (forall ch, ch ∈ closed w' <-> ch ∈ closed w \/ exists q, sub s c q = Some ch) ->
  (forall c' q', sub s' c' q' = if bool_decide (c' = c) then None else sub s c' q') -> chan_open s' w' /\ chan_own s'.
Proof.
  intros Ho Hu Hcl Hsub. split.
  - intros c' q' ch E. rewrite Hsub in E. case_bool_decide; [done|]. rewrite Hcl. intros [?|(q & E')]; [by eapply Ho|]. by destruct (Hu c' q' c q ch E E').
  - eapply own_smaller; [exact Hu|]. intros c' q' ch E. rewrite Hsub in E. by case_bool_decide.
Qed.

Lemma shutdown_ok cs : forall s w, state_ok s -> chan_open s w -> chan_own s -> exists s' w', shutdown_loop cs s w = Ok (s', w') /\ sent w' = sent w /\
  forall ch, ch ∈ closed w' <-> ch ∈ closed w \/ exists c q, c ∈ cs /\ sub s c q = Some ch.
Proof.
  induction cs as [|c cs IH]; intros s w Hs Ho Hu; cbn [shutdown_loop].
  { exists s, w. split_and!; try done. intros ch. split; [by left|]. intros [?|(c & q & E & _)]; [done|]. by apply elem_of_nil in E. }
  destruct (removeAll_ok s w c Hs Ho Hu) as (s1 & w1 & -> & Hs1 & Hsent & Hcl & Hsub). destruct (removeAll_open s w s1 w1 c Ho Hu Hcl Hsub) as [Ho1 Hu1].
  destruct (IH s1 w1 Hs1 Ho1 Hu1) as (s2 & w2 & -> & Hsent2 & Hcl2). exists s2, w2. split_and!; [done|by rewrite Hsent2|]. intros ch. rewrite Hcl2, Hcl. split.
  - intros [[?|(q & E)]|(c' & q & Hc' & E)]; [by left|right; exists c, q; split; [left|done]|].
    rewrite Hsub in E. case_bool_decide; [done|]. right. exists c', q. split; [by right|done].
  - intros [?|(c' & q & [->|Hc']%elem_of_cons & E)]; [by left; left|left; right; by exists q|].
    destruct (decide (c' = c)) as [->|]; [left; right; by exists q|]. right. exists c', q. split; [done|]. by rewrite Hsub, bool_decide_eq_false_2.
Qed.

(** ** Sending *)

Lemma send_all_ok chs msg : forall w, (forall ch, ch ∈ chs -> ch ∉ closed w) -> send_all w chs msg = Ok {| sent := sent w ++ map (fun ch => (ch, msg)) chs; closed := closed w |}.
Proof.
  induction chs as [|ch chs IH]; intros w Ho; cbn; [rewrite app_nil_r; by destruct w|]. unfold send_ch. rewrite bool_decide_eq_false_2 by (apply Ho; left).
  rewrite IH; cbn; [by rewrite <- app_assoc|]. intros ch' Hch'. apply Ho. by right.
Qed.

(** The channels of the queries that match. *)
Definition targets (tags : tagMap) (qs : list (Q * gmap str chan)) : list (Q * str * chan) :=
  concat (map (fun qm : Q * gmap str chan => match q_Matches qm.1 tags with Ok true => (fun e : str * chan => (qm.1, e.1, e.2)) <$> order (map_to_list qm.2) | _ => [] end) qs).

Lemma send_loop_ok qs msg tags : forall w, (forall q m, (q, m) ∈ qs -> exists b, q_Matches q tags = Ok b) ->
  (forall q m c ch, (q, m) ∈ qs -> m !! c = Some ch -> ch ∉ closed w) ->
  send_loop qs w msg tags = Ok {| sent := sent w ++ map (fun ch => (ch, msg)) (snd <$> targets tags qs); closed := closed w |}.
Proof.
  induction qs as [|[q m] qs IH]; intros w Hm Ho; cbn [send_loop]; [cbn; rewrite app_nil_r; by destruct w|].
  destruct (Hm q m ltac:(left)) as [b Eb]. rewrite Eb. unfold targets. cbn [map concat fst snd]. rewrite Eb. fold (targets tags qs).
  assert (forall w', closed w' = closed w -> send_loop qs w' msg tags = Ok {| sent := sent w' ++ map (fun ch => (ch, msg)) (snd <$> targets tags qs); closed := closed w' |}) as Hrest.
  { intros w' Ew. apply IH; [intros q' m' Hin; by apply (Hm q' m'); right|]. intros q' m' c ch Hin. rewrite Ew. apply (Ho q' m' c ch). by right. }
  destruct b; [|by rewrite Hrest]. rewrite send_all_ok.
  - rewrite Hrest by done. cbn [sent closed]. rewrite fmap_app, map_app, app_assoc.
    assert (snd <$> ((fun e : str * chan => (q, e.1, e.2)) <$> order (map_to_list m)) = snd <$> order (map_to_list m)) as -> by (by rewrite <- list_fmap_compose). done.
  - intros ch Hin. apply list_elem_of_fmap in Hin as ([c ch'] & -> & Hin). rewrite order_perm in Hin. apply elem_of_map_to_list in Hin. by apply (Ho q m c ch'); [left|].
Qed.

Lemma targets_spec tags s q c ch : (q, c, ch) ∈ targets tags (order (map_to_list (queries s))) <-> sub s c q = Some ch /\ q_Matches q tags = Ok true.
Proof.
  unfold targets. rewrite list_elem_of_In, in_concat. unfold sub. split.
  - intros (l & Hl & Hx). apply in_map_iff in Hl as ([q' m] & <- & Hq). rewrite <- list_elem_of_In, order_perm in Hq. apply elem_of_map_to_list in Hq. cbn in Hx.
    destruct (q_Matches q' tags) as [[]| | |] eqn:E; try done. rewrite <- list_elem_of_In in Hx. apply list_elem_of_fmap in Hx as ([c' ch'] & [= -> -> ->] & Hin).
    rewrite order_perm in Hin. apply elem_of_map_to_list in Hin. by rewrite Hq.
  - intros [Hs E]. destruct (queries s !! q) as [m|] eqn:Eq; [|done]. eexists. split.
    + apply in_map_iff. exists (q, m). split; [reflexivity|]. rewrite <- list_elem_of_In, order_perm. by apply elem_of_map_to_list.
    + cbn. rewrite E, <- list_elem_of_In. apply list_elem_of_fmap. exists (c, ch). split; [done|]. rewrite order_perm. by apply elem_of_map_to_list.
Qed.

Lemma targets_NoDup (tags : tagMap) (m : gmap Q (gmap str chan)) : NoDup (targets tags (order (map_to_list m))).
Proof.
  assert (NoDup (order (map_to_list m)).*1) as Hnd by (rewrite order_perm; apply NoDup_fst_map_to_list). revert Hnd.
  generalize (order (map_to_list m)). intros qs. unfold targets. induction qs as [|[q cs] qs IH]; intros Hnd; cbn; [constructor|].
  apply NoDup_cons in Hnd as [Hq Hnd]. destruct (q_Matches q tags) as [[]| | |]; [|by apply IH..]. apply NoDup_app. split_and!; [| |by apply IH].
  - apply NoDup_fmap_2; [intros [] []; cbn; congruence|]. rewrite order_perm. apply NoDup_map_to_list.
  - intros [[q1 c1] ch1] H1 H2. apply list_elem_of_fmap in H1 as (e1 & [= -> -> ->] & _). apply list_elem_of_In, in_concat in H2 as (l & Hl & Hx).
    apply in_map_iff in Hl as ([q' m'] & <- & Hin). cbn in Hx. destruct (q_Matches q' tags) as [[]| | |]; try done.
    rewrite <- list_elem_of_In in Hx. apply list_elem_of_fmap in Hx as (e2 & [= -> _ _] & _). destruct Hq. apply list_elem_of_fmap. exists (q', m'). split; [done|]. by apply list_elem_of_In.
Qed.

Lemma send_ok s w msg tags : chan_open s w -> chan_own s -> (forall c q, is_Some (sub s c q) -> exists b, q_Matches q tags = Ok b) -> (forall q m, queries s !! q = Some m -> m <> ∅) ->
  exists chs, state_send s w msg tags = Ok {| sent := sent w ++ map (fun ch => (ch, msg)) chs; closed := closed w |} /\ NoDup chs /\
    forall ch, ch ∈ chs <-> exists c q, sub s c q = Some ch /\ q_Matches q tags = Ok true.
Proof.
  intros Ho Hu Hm Hne. exists (snd <$> targets tags (order (map_to_list (queries s)))). split_and!.
  - apply send_loop_ok.
    + intros q m Hin. rewrite order_perm in Hin. apply elem_of_map_to_list in Hin. destruct (map_choose m (Hne q m Hin)) as (c & ch & E). apply (Hm c q). unfold sub. by rewrite Hin, E.
    + intros q m c ch Hin E. rewrite order_perm in Hin. apply elem_of_map_to_list in Hin. apply (Ho c q). unfold sub. by rewrite Hin.
  - apply NoDup_fmap_2_strong; [|apply targets_NoDup]. intros [[q c] ch] [[q' c'] ch'] [H1 _]%targets_spec [H2 _]%targets_spec E. cbn in E. subst. by destruct (Hu _ _ _ _ _ H1 H2) as [-> ->].
  - intros ch. rewrite list_elem_of_fmap. split.
    + intros ([[q c] ch'] & -> & [H1 H2]%targets_spec). by exists c, q.
    + intros (c & q & H1 & H2). exists (q, c, ch). split; [done|]. by apply targets_spec.
Qed.
End loop.

(** ** The server as a table *)

Section table.
Context {Q : Type} `{EqD : EqDecision Q, Cnt : !Countable Q, PQ : !PubQuery Q} `{MO : MapOrder} {M : Type}.
Abbreviation Server := (@Server Q _ _ M).
Abbreviation call := (@call Q M).

(** The subscriptions by client and text, the clients on record, the messages and the closed channels. *)
Record table := {
  t_subs : gmap (str * str) (Q * chan);
  t_known : gset str;
  t_sent : list (chan * M);
  t_closed : gset chan;
}.
Implicit Types (t : table) (s : Server).

Definition table0 : table := {| t_subs := ∅; t_known := ∅; t_sent := []; t_closed := ∅ |}.

Definition is_match (tags : tagMap) (q : Q) : bool := match q_Matches q tags with Ok true => true | _ => false end.

Definition receivers t (tags : tagMap) : list chan :=
  map (fun e : (str * str) * (Q * chan) => e.2.2) (filter (fun e => is_match tags e.2.1 = true) (map_to_list (t_subs t))).

Definition table_call t (c : call) : table * option pubsub_err :=
  match c with
  | Subscribe cl q out =>
      match t_subs t !! (cl, q_String q) with
      | Some _ => (t, Some ErrAlreadySubscribed)
      | None => ({| t_subs := <[(cl, q_String q) := (q, out)]> (t_subs t); t_known := {[cl]} ∪ t_known t; t_sent := t_sent t; t_closed := t_closed t |}, None)
      end
  | Unsubscribe cl q =>
      match t_subs t !! (cl, q_String q) with
      | Some (_, ch) => ({| t_subs := delete (cl, q_String q) (t_subs t); t_known := t_known t; t_sent := t_sent t; t_closed := {[ch]} ∪ t_closed t |}, None)
      | None => (t, Some ErrSubscriptionNotFound)
      end
  | UnsubscribeAll cl =>
      if bool_decide (cl ∈ t_known t) then
        ({| t_subs := filter (fun e => e.1.1 <> cl) (t_subs t); t_known := t_known t ∖ {[cl]}; t_sent := t_sent t;
            t_closed := list_to_set (map (fun e : (str * str) * (Q * chan) => e.2.2) (filter (fun e => e.1.1 = cl) (map_to_list (t_subs t)))) ∪ t_closed t |}, None)
      else (t, Some ErrSubscriptionNotFound)
  | PublishWithTags msg tags =>
      ({| t_subs := t_subs t; t_known := t_known t; t_sent := t_sent t ++ map (fun ch => (ch, msg)) (receivers t tags); t_closed := t_closed t |}, None)
  | OnStop => (t, None)
  end.

Fixpoint table_calls t (cs : list call) : table * list (option pubsub_err) :=
  match cs with
  | [] => (t, [])
  | c :: cs' => let (t, r) := table_call t c in let (t, rs) := table_calls t cs' in (t, r :: rs)
  end.

Definition recorded s (c key : str) : option Q := match client_map s c with Some (_, m) => m !! key | None => None end.

Definition msgs (ch : chan) (l : list (chan * M)) : list M := snd <$> filter (fun e => e.1 = ch) l.

Lemma msgs_app ch l k : msgs ch (l ++ k) = msgs ch l ++ msgs ch k.
Proof. unfold msgs. by rewrite filter_app, fmap_app. Qed.

Lemma msgs_map ch chs (msg : M) : NoDup chs -> msgs ch (map (fun c => (c, msg)) chs) = if bool_decide (ch ∈ chs) then [msg] else [].
Proof.
  induction 1 as [|c chs Hc _ IH]; [done|]. unfold msgs in *. cbn [map]. rewrite filter_cons. cbn [fst].
  destruct (decide (c = ch)) as [->|Hne].
  - rewrite fmap_cons, IH, bool_decide_eq_false_2 by done. by rewrite bool_decide_eq_true_2 by left.
  - rewrite IH. apply (f_equal (fun b : bool => if b then [msg] else [])). apply bool_decide_ext. set_solver.
Qed.

(** No [Matches] of a query panics. *)
Definition calm (q : Q) : Prop := forall tags, exists b, q_Matches q tags = Ok b.

Record agrees s t : Prop := {
  ag_cmds : cmds s = [];
  ag_loop : exists st, loop s = Some st /\ state_ok st /\
    (forall c q ch, sub st c q = Some ch <-> t_subs t !! (c, q_String q) = Some (q, ch));
  ag_key c key q ch : t_subs t !! (c, key) = Some (q, ch) -> key = q_String q /\ calm q /\ (ch ∉ t_closed t);
  ag_own k k' q q' ch : t_subs t !! k = Some (q, ch) -> t_subs t !! k' = Some (q', ch) -> k = k';
  ag_record c key : recorded s c key = fst <$> t_subs t !! (c, key);
  ag_range c i : subscriptions s !! c = Some i -> (i < length (maps s))%nat;
  ag_inj c c' i : subscriptions s !! c = Some i -> subscriptions s !! c' = Some i -> c = c';
  ag_known c : c ∈ t_known t <-> is_Some (subscriptions s !! c);
  ag_sent ch : msgs ch (sent (chans s)) = msgs ch (t_sent t);
  ag_closed ch : ch ∈ closed (chans s) <-> ch ∈ t_closed t;
}.

Lemma start_agrees cap : agrees (OnStart (NewServer cap)) table0.
Proof.
  split; cbn; try done.
  - exists new_state. split; [done|]. split; [apply new_state_ok|]. intros c q ch. unfold sub. cbn. by rewrite !lookup_empty.
  - intros c. split; [set_solver|by intros [? ?]].
Qed.

Lemma recorded_eq s c key : recorded s c key = match subscriptions s !! c with Some i => maps s !! i ≫= (.!! key) | None => None end.
Proof. unfold recorded, client_map. destruct (subscriptions s !! c) as [i|]; [|done]. by destruct (maps s !! i). Qed.

(** The references of the record: each client has a map of its own. *)
Definition refs_ok s : Prop := (forall c i, subscriptions s !! c = Some i -> (i < length (maps s))%nat) /\
  (forall c c' i, subscriptions s !! c = Some i -> subscriptions s !! c' = Some i -> c = c').

Lemma record_sub_ok s c q : refs_ok s -> refs_ok (record_sub c q s) /\
  (forall c' key, recorded (record_sub c q s) c' key = if bool_decide (c' = c /\ key = q_String q) then Some q else recorded s c' key) /\
  (forall c', is_Some (subscriptions (record_sub c q s) !! c') <-> c' = c \/ is_Some (subscriptions s !! c')).
Proof.
  intros [Hr Hi]. unfold record_sub. destruct (subscriptions s !! c) as [i|] eqn:E; split_and!.
  - split; cbn; [|done]. intros c' j Hj. rewrite length_alter. by eapply Hr.
  - intros c' key. rewrite !recorded_eq. cbn. destruct (subscriptions s !! c') as [j|] eqn:E'; [|case_bool_decide as Hc; [destruct Hc; congruence|done]].
    destruct (decide (c' = c)) as [->|].
    + replace j with i by congruence. rewrite list_lookup_alter_eq. destruct (lookup_lt_is_Some_2 (maps s) i (Hr c i E)) as [m ->]. cbn.
      destruct (decide (key = q_String q)) as [->|]; [rewrite lookup_insert_eq; by case_bool_decide; naive_solver|].
      rewrite lookup_insert_ne by done. case_bool_decide; naive_solver.
    + rewrite list_lookup_alter_ne by (intros ->; destruct n; by eapply Hi). case_bool_decide; naive_solver.
  - intros c'. cbn. split; [by right|]. intros [->|?]; [by rewrite E|done].
  - split; cbn.
    + intros c' j [[-> <-]|[_ Hj]]%lookup_insert_Some; rewrite length_app; cbn; [lia|]. specialize (Hr c' j Hj). lia.
    + intros c1 c2 j [[<- <-]|[N1 H1]]%lookup_insert_Some [[<- E2]|[N2 H2]]%lookup_insert_Some; [done| | |by eapply Hi].
      * specialize (Hr c2 _ H2). lia.
      * subst. specialize (Hr c1 _ H1). lia.
  - intros c' key. rewrite !recorded_eq. cbn. destruct (decide (c' = c)) as [->|].
    + rewrite lookup_insert_eq, list_lookup_middle by done. cbn. destruct (decide (key = q_String q)) as [->|].
      * rewrite lookup_singleton_eq. by rewrite bool_decide_eq_true_2.
      * rewrite lookup_singleton_ne by done. rewrite E. case_bool_decide; naive_solver.
    + rewrite lookup_insert_ne by done. rewrite bool_decide_eq_false_2 by naive_solver. destruct (subscriptions s !! c') as [j|] eqn:E'; [|done].
      by rewrite lookup_app_l by (by eapply Hr).
  - intros c'. cbn. rewrite lookup_insert_is_Some. destruct (decide (c' = c)); naive_solver.
Qed.

Lemma record_unsub_ok s c i key : refs_ok s -> subscriptions s !! c = Some i -> refs_ok (record_unsub i key s) /\
  forall c' key', recorded (record_unsub i key s) c' key' = if bool_decide (c' = c /\ key' = key) then None else recorded s c' key'.
Proof.
  intros [Hr Hi] E. split; [split; cbn; [|done]; intros c' j Hj; rewrite length_alter; by eapply Hr|]. intros c' key'. rewrite !recorded_eq. cbn.
  destruct (subscriptions s !! c') as [j|] eqn:E'; [|by case_bool_decide]. destruct (decide (c' = c)) as [->|].
  - replace j with i by congruence. rewrite list_lookup_alter_eq. destruct (maps s !! i) as [m|]; cbn; [|by case_bool_decide].
    destruct (decide (key' = key)) as [->|]; [rewrite lookup_delete_eq; case_bool_decide; naive_solver|]. rewrite lookup_delete_ne by done. case_bool_decide; naive_solver.
  - rewrite list_lookup_alter_ne by (intros ->; destruct n; by eapply Hi). case_bool_decide; naive_solver.
Qed.

Lemma record_unsubAll_ok s c : refs_ok s -> refs_ok (record_unsubAll c s) /\
  forall c' key, recorded (record_unsubAll c s) c' key = if bool_decide (c' = c) then None else recorded s c' key.
Proof.
  intros [Hr Hi]. split; [split; cbn|].
  - intros c' j [_ ?]%lookup_delete_Some. by eapply Hr.
  - intros c1 c2 j [_ ?]%lookup_delete_Some [_ ?]%lookup_delete_Some. by eapply Hi.
  - intros c' key. rewrite !recorded_eq. cbn. destruct (decide (c' = c)) as [->|]; [rewrite lookup_delete_eq; case_bool_decide; naive_solver|].
    rewrite lookup_delete_ne by done. by rewrite bool_decide_eq_false_2.
Qed.

(** What a call needs: a channel of its own and a query that does not panic. *)
Definition call_fine t (c : call) : Prop :=
  match c with
  | Subscribe _ q out => calm q /\ (out ∉ t_closed t) /\ forall k q' ch, t_subs t !! k = Some (q', ch) -> ch <> out
  | OnStop => False
  | _ => True
  end.

Section agreeing.
Context s t (Ha : agrees s t) (st : state) (El : loop s = Some st) (Hst : state_ok st).
Context (Hsub : forall c q ch, sub st c q = Some ch <-> t_subs t !! (c, q_String q) = Some (q, ch)).

Lemma agrees_refs : refs_ok s.
Proof. split; [apply (ag_range s t Ha)|apply (ag_inj s t Ha)]. Qed.

Lemma agrees_open : chan_open st (chans s).
Proof. intros c q ch E%Hsub. rewrite (ag_closed s t Ha). by destruct (ag_key s t Ha _ _ _ _ E) as (_ & _ & ?). Qed.

Lemma agrees_own : chan_own st.
Proof.
  intros c q c' q' ch E%Hsub E'%Hsub. pose proof (ag_own s t Ha _ _ _ _ _ E E') as Hk. rewrite Hk in E. split; congruence.
Qed.

Lemma serve_eq (k : Server -> Server) c : serve (k (with_cmds s (cmds s ++ [c]))) = serve (k (with_cmds s [c])).
Proof. by rewrite (ag_cmds s t Ha). Qed.

Lemma subscribe_agrees cl q out : call_fine t (Subscribe cl q out) -> t_subs t !! (cl, q_String q) = None ->
  agrees (with_loop (with_cmds (record_sub cl q s) []) (Some (state_add st cl q out)) (chans s)) (table_call t (Subscribe cl q out)).1.
Proof.
  intros (Hq & Hcl & Hfresh) En. destruct (record_sub_ok s cl q agrees_refs) as ([Hr Hi] & Hrec & Hkn). cbn [table_call]. rewrite En.
  split; cbn [cmds loop subscriptions maps chans with_loop with_cmds fst t_subs t_known t_sent t_closed]; try done.
  - eexists. split; [done|]. split; [by apply add_ok|]. intros c' q' ch. rewrite sub_add. case_bool_decide as Hc.
    + destruct Hc as [-> ->]. rewrite lookup_insert_eq. split; congruence.
    + destruct (decide ((c', q_String q') = (cl, q_String q))) as [Ek|Nk]; [|by rewrite lookup_insert_ne, Hsub].
      rewrite Ek, lookup_insert_eq. rewrite Hsub, Ek, En. split; [done|]. intros [= <- _]. destruct Hc. split; congruence.
  - intros c' key q' ch [[[= <- <-] [= <- <-]]|[_ E]]%lookup_insert_Some; [done|by apply (ag_key s t Ha) in E].
  - intros k k' q1 q2 ch [[<- E1]|[_ E1]]%lookup_insert_Some [[<- E2]|[_ E2]]%lookup_insert_Some; [done| | |by eapply (ag_own s t Ha)].
    + destruct (Hfresh _ _ _ E2). congruence.
    + destruct (Hfresh _ _ _ E1). congruence.
  - intros c' key. change (recorded (record_sub cl q s) c' key = fst <$> <[(cl, q_String q):=(q, out)]> (t_subs t) !! (c', key)). rewrite Hrec. case_bool_decide as Hc.
    + destruct Hc as [-> ->]. by rewrite lookup_insert_eq.
    + rewrite lookup_insert_ne by (intros [= E1 E2]; destruct Hc; by subst). apply (ag_record s t Ha).
  - intros c'. change (c' ∈ {[cl]} ∪ t_known t <-> is_Some (subscriptions (record_sub cl q s) !! c')). rewrite Hkn, elem_of_union, elem_of_singleton, (ag_known s t Ha). done.
  - apply (ag_sent s t Ha).
  - apply (ag_closed s t Ha).
Qed.

Lemma unsubscribe_agrees cl q q0 ch i : t_subs t !! (cl, q_String q) = Some (q0, ch) -> subscriptions s !! cl = Some i ->
  exists st' w', state_remove st (chans s) cl q0 = Ok (st', w') /\
    agrees (with_loop (with_cmds (record_unsub i (q_String q) s) []) (Some st') w') (table_call t (Unsubscribe cl q)).1.
Proof.
  intros E Ei. destruct (ag_key s t Ha _ _ _ _ E) as (Ek & _ & _). rewrite Ek in E |- *.
  destruct (remove_ok st (chans s) cl q0 Hst) as (st' & w' & Er & Hst' & Hsent & Hcl & Hsub'); [intros ch' E'; by eapply agrees_open|].
  assert (sub st cl q0 = Some ch) as E0 by (by apply Hsub). rewrite E0 in Hcl.
  destruct (record_unsub_ok s cl i (q_String q0) agrees_refs Ei) as ([Hr Hi] & Hrec). exists st', w'. split; [done|]. cbn [table_call]. rewrite Ek, E.
  split; cbn [cmds loop subscriptions maps chans with_loop with_cmds fst t_subs t_known t_sent t_closed]; try done.
  - exists st'. split_and!; try done. intros c' q' ch'. rewrite Hsub'. case_bool_decide as Hc.
    + destruct Hc as [-> ->]. by rewrite lookup_delete_eq.
    + destruct (decide ((c', q_String q') = (cl, q_String q0))) as [Ek'|Nk]; [|by rewrite lookup_delete_ne, Hsub].
      rewrite Ek', lookup_delete_eq. rewrite Hsub, Ek', E. split; [|done]. intros [= <- _]. destruct Hc. split; congruence.
  - intros c' key q' ch' [Nk E']%lookup_delete_Some. destruct (ag_key s t Ha _ _ _ _ E') as (? & ? & ?). split_and!; try done.
    intros [->%elem_of_singleton|]%elem_of_union; [|done]. destruct Nk. symmetry. by eapply (ag_own s t Ha).
  - intros k k' q1 q2 ch' [_ E1]%lookup_delete_Some [_ E2]%lookup_delete_Some. by eapply (ag_own s t Ha).
  - intros c' key. change (recorded (record_unsub i (q_String q0) s) c' key = fst <$> delete (cl, q_String q0) (t_subs t) !! (c', key)). rewrite Hrec. case_bool_decide as Hc.
    + destruct Hc as [-> ->]. by rewrite lookup_delete_eq.
    + rewrite lookup_delete_ne by (intros [= E1 E2]; destruct Hc; by subst). apply (ag_record s t Ha).
  - apply (ag_known s t Ha).
  - intros ch'. rewrite Hsent. apply (ag_sent s t Ha).
  - intros ch'. rewrite Hcl, !elem_of_union, (ag_closed s t Ha). done.
Qed.

Lemma unsubscribeAll_agrees cl : cl ∈ t_known t -> exists st' w', state_removeAll st (chans s) cl = Ok (st', w') /\
  agrees (with_loop (with_cmds (record_unsubAll cl s) []) (Some st') w') (table_call t (UnsubscribeAll cl)).1.
Proof.
  intros Hk. destruct (removeAll_ok st (chans s) cl Hst agrees_open agrees_own) as (st' & w' & Er & Hst' & Hsent & Hcl & Hsub').
  destruct (record_unsubAll_ok s cl agrees_refs) as ([Hr Hi] & Hrec). exists st', w'. split; [done|]. cbn [table_call]. rewrite bool_decide_eq_true_2 by done.
  split; cbn [cmds loop subscriptions maps chans with_loop with_cmds fst t_subs t_known t_sent t_closed]; try done.
  - exists st'. split_and!; try done. intros c' q' ch'. rewrite Hsub', map_lookup_filter_Some. cbn. case_bool_decide as Hc; [naive_solver|]. rewrite Hsub. naive_solver.
  - intros c' key q' ch' [E' Nc]%map_lookup_filter_Some. cbn in Nc. destruct (ag_key s t Ha _ _ _ _ E') as (? & ? & ?). split_and!; try done.
    intros [Hin|]%elem_of_union; [|done]. apply elem_of_list_to_set, list_elem_of_fmap in Hin as ([[c1 k1] [q1 ch1]] & -> & [Hc1 Hin]%list_elem_of_filter).
    apply elem_of_map_to_list in Hin. cbn in *. pose proof (ag_own s t Ha _ _ _ _ _ E' Hin) as [= -> ->]. done.
  - intros k k' q1 q2 ch' [E1 _]%map_lookup_filter_Some [E2 _]%map_lookup_filter_Some. by eapply (ag_own s t Ha).
  - intros c' key. change (recorded (record_unsubAll cl s) c' key = fst <$> filter (fun e => e.1.1 <> cl) (t_subs t) !! (c', key)). rewrite Hrec. case_bool_decide as Hc.
    + subst. rewrite map_lookup_filter_None_2; [done|]. right. intros ? _. cbn. tauto.
    + rewrite (ag_record s t Ha). destruct (t_subs t !! (c', key)) as [x|] eqn:E.
      * by rewrite (map_lookup_filter_Some_2 _ _ _ x E).
      * by rewrite map_lookup_filter_None_2 by (by left).
  - intros c'. change (c' ∈ t_known t ∖ {[cl]} <-> is_Some (delete cl (subscriptions s) !! c')). rewrite elem_of_difference, elem_of_singleton, (ag_known s t Ha), lookup_delete_is_Some. naive_solver.
  - intros ch'. rewrite Hsent. apply (ag_sent s t Ha).
  - intros ch'. rewrite Hcl, elem_of_union, (ag_closed s t Ha), elem_of_list_to_set, list_elem_of_fmap. split.
    + intros [?|(q & E%Hsub)]; [by right|]. left. exists ((cl, q_String q), (q, ch')). split; [done|]. apply list_elem_of_filter. split; [done|]. by apply elem_of_map_to_list.
    + intros [([[c1 k1] [q1 ch1]] & -> & [Hc1 Hin]%list_elem_of_filter)|?]; [|by left]. apply elem_of_map_to_list in Hin. cbn in *. subst. right. exists q1.
      apply Hsub. by destruct (ag_key s t Ha _ _ _ _ Hin) as (<- & _).
Qed.

Lemma receivers_spec tags ch : ch ∈ receivers t tags <-> exists c q, sub st c q = Some ch /\ q_Matches q tags = Ok true.
Proof.
  unfold receivers. rewrite list_elem_of_fmap. split.
  - intros ([[c k] [q ch']] & -> & [Hm Hin]%list_elem_of_filter). apply elem_of_map_to_list in Hin. cbn in *. exists c, q. split.
    + apply Hsub. by destruct (ag_key s t Ha _ _ _ _ Hin) as (<- & _).
    + unfold is_match in Hm. by destruct (q_Matches q tags) as [[]| | |].
  - intros (c & q & E%Hsub & Hm). exists ((c, q_String q), (q, ch)). split; [done|]. apply list_elem_of_filter. cbn. unfold is_match. rewrite Hm. split; [done|]. by apply elem_of_map_to_list.
Qed.

Lemma receivers_NoDup tags : NoDup (receivers t tags).
Proof.
  unfold receivers. apply NoDup_fmap_2_strong; [|apply NoDup_filter, NoDup_map_to_list].
  intros [k [q ch]] [k' [q' ch']] [_ H1]%list_elem_of_filter [_ H2]%list_elem_of_filter E. cbn in E. subst. apply elem_of_map_to_list in H1, H2.
  pose proof (ag_own s t Ha _ _ _ _ _ H1 H2) as ->. congruence.
Qed.

Lemma publish_agrees msg tags : exists w', state_send st (chans s) msg tags = Ok w' /\
  agrees (with_loop (with_cmds s []) (Some st) w') (table_call t (PublishWithTags msg tags)).1.
Proof.
  destruct (send_ok st (chans s) msg tags agrees_open agrees_own) as (chs & -> & Hnd & Hch).
  - intros c q [ch E%Hsub]. destruct (ag_key s t Ha _ _ _ _ E) as (_ & Hq & _). apply Hq.
  - apply (ok_queries st Hst).
  - eexists. split; [done|]. destruct Ha. split; cbn [cmds loop subscriptions maps chans with_loop with_cmds fst t_subs t_known t_sent t_closed table_call sent closed]; try done; [by exists st|].
    intros ch. rewrite !msgs_app, ag_sent0, !msgs_map by (done || apply receivers_NoDup). f_equal.
    rewrite (bool_decide_ext (ch ∈ chs) (ch ∈ receivers t tags)) by (by rewrite Hch, receivers_spec). done.
Qed.
End agreeing.

Lemma call_ok s t c : agrees s t -> call_fine t c -> exists s', run_call s c = Ok (s', (table_call t c).2) /\ agrees s' (table_call t c).1.
Proof.
  intros Ha Hf. destruct (ag_loop s t Ha) as (st & El & Hst & Hsub). unfold run_call. destruct c as [cl q out|cl q|cl|msg tags|]; [| | | |done].
  - pose proof (ag_record s t Ha cl (q_String q)) as Hr. unfold recorded in Hr. cbn [check].
    assert (t_subs t !! (cl, q_String q) = None -> exists s', (let* x := serve (record_sub cl q (with_cmds s (cmds s ++ [Sub cl q out]))) in Ok (x, None)) =
      Ok (s', (table_call t (Subscribe cl q out)).2) /\ agrees s' (table_call t (Subscribe cl q out)).1) as Hnew.
    { intros En. rewrite (serve_eq s t Ha). pose proof (subscribe_agrees s t Ha st Hst Hsub cl q out Hf En) as Hs. exists (with_loop (with_cmds (record_sub cl q s) []) (Some (state_add st cl q out)) (chans s)). split; [|done].
      cbn [table_call]. rewrite En. unfold serve, record_sub. cbn. by destruct (subscriptions s !! cl); cbn; rewrite El. }
    destruct (t_subs t !! (cl, q_String q)) as [[q0 ch]|] eqn:E; cbn in Hr.
    + destruct (client_map s cl) as [[i m]|]; [|done]. rewrite Hr. exists s. cbn [table_call]. by rewrite E.
    + destruct (client_map s cl) as [[i m]|]; [rewrite Hr|]; by apply Hnew.
  - pose proof (ag_record s t Ha cl (q_String q)) as Hr. unfold recorded in Hr. cbn [check].
    destruct (t_subs t !! (cl, q_String q)) as [[q0 ch]|] eqn:E; cbn in Hr.
    + unfold client_map in *. destruct (subscriptions s !! cl) as [i|] eqn:Ei; [|done]. destruct (maps s !! i) as [m|]; [|done]. rewrite Hr, (serve_eq s t Ha).
      destruct (unsubscribe_agrees s t Ha st Hst Hsub cl q q0 ch i E Ei) as (st' & w' & Er & Hs). eexists. split; [|exact Hs].
      cbn [table_call]. rewrite E. unfold serve. cbn. rewrite El. cbn. by rewrite Er.
    + exists s. cbn [table_call]. rewrite E. destruct (client_map s cl) as [[i m]|]; [by rewrite Hr|done].
  - cbn [check]. destruct (decide (cl ∈ t_known t)) as [Hk|Hk].
    + destruct (proj1 (ag_known s t Ha cl) Hk) as [i Ei]. rewrite Ei, (serve_eq s t Ha). destruct (unsubscribeAll_agrees s t Ha st Hst Hsub cl Hk) as (st' & w' & Er & Hs).
      eexists. split; [|exact Hs]. cbn [table_call]. rewrite bool_decide_eq_true_2 by done. unfold serve. cbn. rewrite El. cbn. by rewrite Er.
    + destruct (subscriptions s !! cl) eqn:Ei; [destruct Hk; apply (ag_known s t Ha); by rewrite Ei|]. exists s. cbn [table_call]. by rewrite bool_decide_eq_false_2.
  - cbn [check]. rewrite (serve_eq s t Ha id). destruct (publish_agrees s t Ha st Hst Hsub msg tags) as (w' & Er & Hs). eexists. split; [|exact Hs].
    unfold serve. cbn. rewrite El. cbn. by rewrite Er.
Qed.

(** The channels and the queries calls subscribe with. *)
Definition outs (cs : list call) : list chan := omap (fun c => match c with Subscribe _ _ out => Some out | _ => None end) cs.
Definition subscribed (cs : list call) : list Q := omap (fun c => match c with Subscribe _ q _ => Some q | _ => None end) cs.

Definition unused t (out : chan) : Prop := (out ∉ t_closed t) /\ forall k q ch, t_subs t !! k = Some (q, ch) -> ch <> out.

Lemma unused_call t c out : unused t out -> (forall cl q out', c = Subscribe cl q out' -> out' <> out) -> unused (table_call t c).1 out.
Proof.
  intros [Hc Hs] Hne. destruct c as [cl q out'|cl q|cl|msg tags|]; cbn [table_call]; try done.
  - destruct (t_subs t !! (cl, q_String q)); [done|]. split; [done|]. cbn. intros k q' ch [[_ E]|[_ E]]%lookup_insert_Some; [injection E as _ <-; by eapply Hne|by eapply Hs].
  - destruct (t_subs t !! (cl, q_String q)) as [[q0 ch]|] eqn:E; [|done]. split; cbn.
    + intros [->%elem_of_singleton|?]%elem_of_union; [by eapply Hs|done].
    + intros k q' ch' [_ E']%lookup_delete_Some. by eapply Hs.
  - case_bool_decide; [|done]. split; cbn.
    + intros [Hin|?]%elem_of_union; [|done]. apply elem_of_list_to_set, list_elem_of_fmap in Hin as ([k [q ch]] & -> & [_ Hin]%list_elem_of_filter).
      apply elem_of_map_to_list in Hin. by eapply Hs.
    + intros k q ch [E _]%map_lookup_filter_Some. by eapply Hs.
Qed.

Lemma calls_ok cs : forall s t, agrees s t -> NoDup (outs cs) -> Forall calm (subscribed cs) -> OnStop ∉ cs -> (forall out, out ∈ outs cs -> unused t out) ->
  exists s', run_calls s cs = Ok (s', (table_calls t cs).2) /\ agrees s' (table_calls t cs).1.
Proof.
  induction cs as [|c cs IH]; intros s t Ha Hnd Hq Hstop Hun; cbn [run_calls table_calls]; [by exists s|]. apply not_elem_of_cons in Hstop as [Hc Hstop].
  assert (call_fine t c) as Hf.
  { destruct c as [cl q out| | | |]; try done. cbn in Hq. apply Forall_cons in Hq as [Hq _]. split; [done|]. apply Hun. left. }
  destruct (call_ok s t c Ha Hf) as (s1 & -> & Ha1). destruct (table_call t c) as [t1 r] eqn:Et. cbn [fst snd] in *.
  assert (NoDup (outs cs) /\ Forall calm (subscribed cs) /\ forall out, out ∈ outs cs -> unused t1 out) as (Hnd' & Hq' & Hun').
  { assert (forall out, out ∈ outs cs -> (forall cl q out', c = Subscribe cl q out' -> out' <> out) -> unused t out -> unused t1 out) as Hu
      by (intros out _ Hne Hu; pose proof (unused_call t c out Hu Hne) as H; by rewrite Et in H).
    destruct c as [cl q out| | | |]; cbn in Hnd, Hq; try (split_and!; [done|done|]; intros out Hin; apply Hu; [done|done|by apply Hun]).
    apply NoDup_cons in Hnd as [Hnin Hnd]. apply Forall_cons in Hq as [_ Hq]. split_and!; try done. intros out' Hin. apply Hu; [done| |apply Hun; by right].
    intros ? ? ? [= -> -> ->] ->. done. }
  destruct (IH s1 t1 Ha1 Hnd' Hq' Hstop Hun') as (s2 & -> & Ha2). exists s2. by destruct (table_calls t1 cs).
Qed.

(** C30: A server whose calls do not overlap behaves as a table of subscriptions by client and text of the query, for any
    buffer and any order in which maps are visited: the calls return the results of the table, every channel
    receives the messages of the table in their order, and the closed channels are those of the table. No call panics. This
    needs that no two subscriptions use the same channel, that the queries do not panic, and that the server is not
    stopped. *)
Theorem pubsub_refines cap cs : NoDup (outs cs) -> Forall calm (subscribed cs) -> OnStop ∉ cs -> exists s,
  run_calls (OnStart (NewServer cap)) cs = Ok (s, (table_calls table0 cs).2) /\
  (forall ch, msgs ch (sent (chans s)) = msgs ch (t_sent (table_calls table0 cs).1)) /\
  (forall ch, ch ∈ closed (chans s) <-> ch ∈ t_closed (table_calls table0 cs).1).
Proof.
  intros Hnd Hq Hstop. destruct (calls_ok cs _ table0 (start_agrees cap) Hnd Hq Hstop) as (s & E & Ha); [by intros out _; split|].
  exists s. split; [done|]. split; [apply (ag_sent s _ Ha)|apply (ag_closed s _ Ha)].
Qed.
End table.

(** ** The queries of the package *)

(** The empty query, a value, and parsed queries, which are pointers: two with the same text are different. *)
Inductive any_query := AnyEmpty | AnyQuery (addr : nat) (s : list Z).

#[export] Instance any_query_dec : EqDecision any_query.
Proof. solve_decision. Defined.

#[export] Instance any_query_countable : Countable any_query :=
  inj_countable' (fun q => match q with AnyEmpty => None | AnyQuery a s => Some (a, s) end)
    (fun o => match o with None => AnyEmpty | Some (a, s) => AnyQuery a s end) ltac:(by intros []).

#[export] Instance any_query_pub `{!Rest} : PubQuery any_query := {|
  q_Matches q tags := match q with AnyEmpty => Ok true | AnyQuery _ s => match New s with Ok q => Matches q tags | _ => Panic end end;
  q_String q := match q with AnyEmpty => Empty_String | AnyQuery _ s => s end;
|}.

Definition listed : MapOrder := {| order := fun A l => l; order_perm := fun A l => Permutation_refl l |}.

#[local] Existing Instance listed.

Section unspecified.
#[local] Existing Instance no_rest.

Lemma pubsub_refines_witness :
  let cs : list (@call any_query nat) := [Subscribe [1] AnyEmpty 0%nat; Subscribe [2] AnyEmpty 1%nat; Publish 7%nat; Unsubscribe [1] AnyEmpty; Publish 8%nat; Subscribe [2] AnyEmpty 2%nat] in exists s,
  run_calls (OnStart (NewServer 1%nat)) cs = Ok (s, (table_calls table0 cs).2) /\
  (forall ch, msgs ch (sent (chans s)) = msgs ch (t_sent (table_calls table0 cs).1)) /\
  (forall ch, ch ∈ closed (chans s) <-> ch ∈ t_closed (table_calls table0 cs).1).
Proof.
  intros cs. apply (pubsub_refines 1%nat cs).
  - repeat constructor; set_solver.
  - repeat constructor; intros tags; by exists true.
  - unfold cs. intros H. repeat (apply elem_of_cons in H as [?|H]; [done|]). by apply elem_of_nil in H.
Defined.
End unspecified.

Section examples.
Context `{!Rest}.
Abbreviation call := (@call any_query nat).
Abbreviation start := (@OnStart any_query _ _ nat (NewServer 1%nat)).

(** Two pointers to a query with the same text, another query, and the tags both match. *)
Definition qa : any_query := AnyQuery 0 (bs "a='x'").
Definition qa' : any_query := AnyQuery 1 (bs "a='x'").
Definition qb : any_query := AnyQuery 2 (bs "b='y'").
Definition both_tags : tagMap := {[bs "a" := VString (bs "x"); bs "b" := VString (bs "y")]}.
Definition pub : call := PublishWithTags 7%nat both_tags.

(** The server after two overlapping calls: both commands are in the queue and both calls have made their record. *)
Definition both_sent : @Server any_query _ _ nat := with_cmds start [Sub [1] qa 0%nat; Sub [1] qa' 1%nat].
Definition overlapped : @Server any_query _ _ nat := record_sub [1] qa' (record_sub [1] qa both_sent).

(** A server that was stopped, reset and started again. *)
Definition restarted (s : @Server any_query _ _ nat) : R (@Server any_query _ _ nat) :=
  let* (s, _) := run_call s OnStop in Ok (OnStart (OnReset s)).

(** What goes wrong, on sample schedules. Two overlapping [Subscribe] calls with the same text both succeed; [Unsubscribe] then removes one of
    the subscriptions, the other one still receives messages and cannot be removed on its own. Two subscriptions with one channel
    panic: [UnsubscribeAll] closes it twice, and after [Unsubscribe] a message is sent to it closed. A server started again
    still refuses the subscriptions of before, and delivers nothing to them. [UnsubscribeAll] of a client that has
    no subscription left succeeds. *)
Example pubsub_pitfalls :
  (exists t1 t2 s1 s2 s3 u1 u2,
    thread_step start (TCheck (Subscribe [1] qa 0%nat)) start t1 /\ thread_step start (TCheck (Subscribe [1] qa' 1%nat)) start t2 /\
    thread_step start t1 s1 u1 /\ thread_step s1 t2 s2 u2 /\ thread_step s2 u1 s3 (TDone None) /\ thread_step s3 u2 overlapped (TDone None)) /\
  match (let* s := serve overlapped in let* s := serve s in run_calls s [Unsubscribe [1] qa; pub; Unsubscribe [1] qa]) with
  | Ok (s, rs) => rs = [None; None; Some ErrSubscriptionNotFound] /\ msgs 0%nat (sent (chans s)) = [7%nat]
  | _ => False
  end /\
  run_calls start [Subscribe [1] qa 0%nat; Subscribe [1] qb 0%nat; UnsubscribeAll [1]] = Panic /\
  run_calls start [Subscribe [1] qa 0%nat; Subscribe [1] qb 0%nat; Unsubscribe [1] qa; pub] = Panic /\
  match (let* (s, _) := run_call start (Subscribe [1] qa 0%nat) in let* s := restarted s in run_calls s [Subscribe [1] qa' 1%nat; pub]) with
  | Ok (s, rs) => rs = [Some ErrAlreadySubscribed; None] /\ sent (chans s) = []
  | _ => False
  end /\
  (exists s, run_calls start [Subscribe [1] qa 0%nat; Unsubscribe [1] qa; UnsubscribeAll [1]] = Ok (s, [None; None; None])).
Proof.
  split; [|split; [|split; [|split; [|split]]]].
  - exists (TSend (Sub [1] qa 0%nat) (record_sub [1] qa)), (TSend (Sub [1] qa' 1%nat) (record_sub [1] qa')), (with_cmds start [Sub [1] qa 0%nat]), both_sent,
      (record_sub [1] qa both_sent), (TRecord (record_sub [1] qa)), (TRecord (record_sub [1] qa')).
    split; [exact (step_check start (Subscribe [1] qa 0%nat))|]. split; [exact (step_check start (Subscribe [1] qa' 1%nat))|]. split; [apply (step_send start); cbn; lia|]. split; [apply (step_send (with_cmds start [Sub [1] qa 0%nat])); cbn; lia|].
    split; apply step_record.
  - vm_compute. split; reflexivity.
  - vm_compute. reflexivity.
  - vm_compute. reflexivity.
  - vm_compute. split; reflexivity.
  - eexists. vm_compute. reflexivity.
Qed.
End examples.
