(* ===== verification/AbciWire.v ===== *)
(** The ABCI messages of src/tendermint/abci/types: the message structs of types.pb.go, the [Request] and [Response]
    oneofs, the getters of a response, the generated oneof marshalers, unmarshalers and sizers, and the constructors of
    messages.go; and the framing of messages on a socket.

    A struct is a record whose fields keep their order; strings and byte slices are lists of bytes, pointers to
    structs and to integers are options.  The payload of a oneof constructor is a pointer that the constructors of
    messages.go and the unmarshalers always set, so it is the struct itself.

    The protobuf runtime (github.com/gogo/protobuf/proto) is not part of the repository.  Class [Proto] holds the
    functions of it the generated code calls, class [ProtoLaws] what their documentation says of them. *)
From S2P Require Import Prelude GoBytes.
From stdpp Require Import base list.
Local Open Scope Z_scope.

(** ** The message structs *)

Record KVPair : Type := mkKVPair { KVPair_Key : list Z ; KVPair_Value : list Z }.
Record PartSetHeader : Type := mkPartSetHeader { PartSetHeader_Total : Z ; PartSetHeader_Hash : list Z }.
Record BlockID : Type := mkBlockID { BlockID_Hash : list Z ; BlockID_Parts : PartSetHeader }.
Record Allocation : Type := mkAllocation { Allocation_Addr : list Z ; Allocation_Fee : Z }.
Record QueueBlock : Type := mkQueueBlock { QueueBlock_QueueID : list Z ; QueueBlock_QueueHash : list Z ; QueueBlock_LastQueueHash : list Z ;
  QueueBlock_LastQueueHeight : Z }.
Record QueueChain : Type := mkQueueChain { QueueChain_QueueBlocks : list QueueBlock }.
Record Relayer : Type := mkRelayer { Relayer_Address : list Z ; Relayer_StartTime : Z }.
Record Header : Type := mkHeader { Header_ChainID : list Z ; Header_Height : Z ; Header_Time : Z ; Header_NumTxs : Z ; Header_LastBlockID :
  BlockID ; Header_LastCommitHash : list Z ; Header_DataHash : list Z ; Header_ValidatorsHash : list Z ; Header_LastAppHash : list Z ;
  Header_LastFee : Z ; Header_LastAllocation : list Allocation ; Header_ProposerAddress : list Z ; Header_RewardAddress : list Z ;
  Header_RandomeOfBlock : list Z ; Header_LastMining : option Z ; Header_Version : list Z ; Header_ChainVersion : Z ; Header_LastQueueChains
  : option QueueChain ; Header_Relayer : option Relayer ; Header_BlockVersion : list Z }.
Record Evidence : Type := mkEvidence { Evidence_PubKey : list Z ; Evidence_Height : Z }.
Record RequestBeginBlock : Type := mkRequestBeginBlock { RequestBeginBlock_Hash : list Z ; RequestBeginBlock_Header : Header ;
  RequestBeginBlock_AbsentValidators : list Z ; RequestBeginBlock_ByzantineValidators : list Evidence }.
Record AppState : Type := mkAppState { AppState_BlockHeight : Z ; AppState_AppHash : list Z ; AppState_TxsHashList : list (list Z) ;
  AppState_Rewards : list KVPair ; AppState_Fee : Z ; AppState_ChainVersion : Z ; AppState_BeginBlock : RequestBeginBlock }.
Record RequestEcho : Type := mkRequestEcho { RequestEcho_Message : list Z }.
Record RequestFlush : Type := mkRequestFlush { }.
Record RequestInfo : Type := mkRequestInfo { RequestInfo_Version : list Z ; RequestInfo_Host : list Z ; RequestInfo_Port : list Z }.
Record RequestSetOption : Type := mkRequestSetOption { RequestSetOption_Key : list Z ; RequestSetOption_Value : list Z }.
Record Validator : Type := mkValidator { Validator_PubKey : list Z ; Validator_Power : Z ; Validator_RewardAddr : list Z ; Validator_Name :
  list Z }.
Record RequestInitChain : Type := mkRequestInitChain { RequestInitChain_Validators : list Validator ; RequestInitChain_ChainId : list Z ;
  RequestInitChain_ChainVersion : Z ; RequestInitChain_AppStateBytes : list Z }.
Record RequestQuery : Type := mkRequestQuery { RequestQuery_Data : list Z ; RequestQuery_Path : list Z ; RequestQuery_Height : Z ;
  RequestQuery_Prove : bool }.
Record RequestQueryEx : Type := mkRequestQueryEx { RequestQueryEx_Path : list Z }.
Record RequestCheckTx : Type := mkRequestCheckTx { RequestCheckTx_Tx : list Z }.
Record RequestDeliverTx : Type := mkRequestDeliverTx { RequestDeliverTx_Tx : list Z }.
Record RequestEndBlock : Type := mkRequestEndBlock { RequestEndBlock_Height : Z }.
Record RequestCommit : Type := mkRequestCommit { }.
Record RequestCleanData : Type := mkRequestCleanData { }.
Record RequestGetGenesis : Type := mkRequestGetGenesis { }.
Record RequestRollback : Type := mkRequestRollback { }.
Record ResponseException : Type := mkResponseException { ResponseException_Error : list Z }.
Record ResponseEcho : Type := mkResponseEcho { ResponseEcho_Message : list Z }.
Record ResponseFlush : Type := mkResponseFlush { }.
Record ResponseInfo : Type := mkResponseInfo { ResponseInfo_Data : list Z ; ResponseInfo_Version : list Z ; ResponseInfo_LastBlockHeight : Z
  ; ResponseInfo_LastAppState : list Z }.
Record ResponseSetOption : Type := mkResponseSetOption { ResponseSetOption_Code : Z ; ResponseSetOption_Log : list Z ;
  ResponseSetOption_Info : list Z }.
Record ResponseInitChain : Type := mkResponseInitChain { ResponseInitChain_Code : Z ; ResponseInitChain_Log : list Z ;
  ResponseInitChain_GenAppState : list Z }.
Record ResponseQuery : Type := mkResponseQuery { ResponseQuery_Code : Z ; ResponseQuery_Log : list Z ; ResponseQuery_Info : list Z ;
  ResponseQuery_Index : Z ; ResponseQuery_Key : list Z ; ResponseQuery_Value : list Z ; ResponseQuery_Proof : list Z ; ResponseQuery_Height
  : Z }.
Record KeyValue : Type := mkKeyValue { KeyValue_Key : list Z ; KeyValue_Value : list Z }.
Record ResponseQueryEx : Type := mkResponseQueryEx { ResponseQueryEx_Code : Z ; ResponseQueryEx_Log : list Z ; ResponseQueryEx_Info : list Z
  ; ResponseQueryEx_Index : Z ; ResponseQueryEx_KeyValues : list KeyValue ; ResponseQueryEx_Proof : list Z ; ResponseQueryEx_Height : Z }.
Record ResponseBeginBlock : Type := mkResponseBeginBlock { ResponseBeginBlock_Code : Z ; ResponseBeginBlock_Log : list Z }.
Record ResponseCheckTx : Type := mkResponseCheckTx { ResponseCheckTx_Code : Z ; ResponseCheckTx_Data : list Z ; ResponseCheckTx_Log : list Z
  ; ResponseCheckTx_Info : list Z ; ResponseCheckTx_GasLimit : Z ; ResponseCheckTx_GasUsed : Z ; ResponseCheckTx_Fee : Z ;
  ResponseCheckTx_Tags : list KVPair ; ResponseCheckTx_TxHash : list Z ; ResponseCheckTx_Height : Z }.
Record ResponseDeliverTx : Type := mkResponseDeliverTx { ResponseDeliverTx_Code : Z ; ResponseDeliverTx_Data : list Z ;
  ResponseDeliverTx_Log : list Z ; ResponseDeliverTx_Info : list Z ; ResponseDeliverTx_GasLimit : Z ; ResponseDeliverTx_GasUsed : Z ;
  ResponseDeliverTx_Fee : Z ; ResponseDeliverTx_Tags : list KVPair ; ResponseDeliverTx_TxHash : list Z ; ResponseDeliverTx_Height : Z }.
Record ResponseCleanData : Type := mkResponseCleanData { ResponseCleanData_Code : Z ; ResponseCleanData_Log : list Z }.
Record ResponseGetGenesis : Type := mkResponseGetGenesis { ResponseGetGenesis_Code : Z ; ResponseGetGenesis_Log : list Z ;
  ResponseGetGenesis_Data : list Z }.
Record ResponseRollback : Type := mkResponseRollback { ResponseRollback_Code : Z ; ResponseRollback_Log : list Z }.
Record BlockSize : Type := mkBlockSize { BlockSize_MaxBytes : Z ; BlockSize_MaxTxs : Z ; BlockSize_MaxGas : Z }.
Record TxSize : Type := mkTxSize { TxSize_MaxBytes : Z ; TxSize_MaxGas : Z }.
Record BlockGossip : Type := mkBlockGossip { BlockGossip_BlockPartSizeBytes : Z }.
Record ConsensusParams : Type := mkConsensusParams { ConsensusParams_BlockSize : option BlockSize ; ConsensusParams_TxSize : option TxSize ;
  ConsensusParams_BlockGossip : option BlockGossip }.
Record ContractData : Type := mkContractData { ContractData_Name : list Z ; ContractData_Version : list Z ; ContractData_CodeData : list Z ;
  ContractData_Owner : list Z }.
Record SideChainGenesis : Type := mkSideChainGenesis { SideChainGenesis_SideChainID : list Z ; SideChainGenesis_GenesisInfo : list Z ;
  SideChainGenesis_ContractData : list ContractData ; SideChainGenesis_Validators : list Validator }.
Record ResponseEndBlock : Type := mkResponseEndBlock { ResponseEndBlock_ValidatorUpdates : list Validator ;
  ResponseEndBlock_ConsensusParamUpdates : option ConsensusParams ; ResponseEndBlock_RewardAmount : Z ; ResponseEndBlock_ChainVersion : Z ;
  ResponseEndBlock_SCGenesis : list (option SideChainGenesis) }.
Record ResponseCommit : Type := mkResponseCommit { ResponseCommit_AppState : list Z }.

(** ** The oneofs [Request.Value] and [Response.Value] *)

Inductive isRequest_Value : Type :=
| Request_Echo (x : RequestEcho)
| Request_Flush (x : RequestFlush)
| Request_Info (x : RequestInfo)
| Request_SetOption (x : RequestSetOption)
| Request_InitChain (x : RequestInitChain)
| Request_Query (x : RequestQuery)
| Request_QueryEx (x : RequestQueryEx)
| Request_BeginBlock (x : RequestBeginBlock)
| Request_CheckTx (x : RequestCheckTx)
| Request_DeliverTx (x : RequestDeliverTx)
| Request_EndBlock (x : RequestEndBlock)
| Request_Commit (x : RequestCommit)
| Request_CleanData (x : RequestCleanData)
| Request_GetGenesis (x : RequestGetGenesis)
| Request_Rollback (x : RequestRollback).
Record Request : Type := mkRequest { Request_Value : option isRequest_Value }.

Inductive isResponse_Value : Type :=
| Response_Exception (x : ResponseException)
| Response_Echo (x : ResponseEcho)
| Response_Flush (x : ResponseFlush)
| Response_Info (x : ResponseInfo)
| Response_SetOption (x : ResponseSetOption)
| Response_InitChain (x : ResponseInitChain)
| Response_Query (x : ResponseQuery)
| Response_QueryEx (x : ResponseQueryEx)
| Response_BeginBlock (x : ResponseBeginBlock)
| Response_CheckTx (x : ResponseCheckTx)
| Response_DeliverTx (x : ResponseDeliverTx)
| Response_EndBlock (x : ResponseEndBlock)
| Response_Commit (x : ResponseCommit)
| Response_CleanData (x : ResponseCleanData)
| Response_GetGenesis (x : ResponseGetGenesis)
| Response_Rollback (x : ResponseRollback).
Record Response : Type := mkResponse { Response_Value : option isResponse_Value }.

(** The getters of a response: nil unless the oneof holds the message of that name. *)

Definition res_GetException (m : Response) : option ResponseException := match Response_Value m with Some (Response_Exception x) => Some x | _ => None end.
Definition res_GetEcho (m : Response) : option ResponseEcho := match Response_Value m with Some (Response_Echo x) => Some x | _ => None end.
Definition res_GetFlush (m : Response) : option ResponseFlush := match Response_Value m with Some (Response_Flush x) => Some x | _ => None end.
Definition res_GetInfo (m : Response) : option ResponseInfo := match Response_Value m with Some (Response_Info x) => Some x | _ => None end.
Definition res_GetSetOption (m : Response) : option ResponseSetOption := match Response_Value m with Some (Response_SetOption x) => Some x | _ => None end.
Definition res_GetInitChain (m : Response) : option ResponseInitChain := match Response_Value m with Some (Response_InitChain x) => Some x | _ => None end.
Definition res_GetQuery (m : Response) : option ResponseQuery := match Response_Value m with Some (Response_Query x) => Some x | _ => None end.
Definition res_GetQueryEx (m : Response) : option ResponseQueryEx := match Response_Value m with Some (Response_QueryEx x) => Some x | _ => None end.
Definition res_GetBeginBlock (m : Response) : option ResponseBeginBlock := match Response_Value m with Some (Response_BeginBlock x) => Some x | _ => None end.
Definition res_GetCheckTx (m : Response) : option ResponseCheckTx := match Response_Value m with Some (Response_CheckTx x) => Some x | _ => None end.
Definition res_GetDeliverTx (m : Response) : option ResponseDeliverTx := match Response_Value m with Some (Response_DeliverTx x) => Some x | _ => None end.
Definition res_GetEndBlock (m : Response) : option ResponseEndBlock := match Response_Value m with Some (Response_EndBlock x) => Some x | _ => None end.
Definition res_GetCommit (m : Response) : option ResponseCommit := match Response_Value m with Some (Response_Commit x) => Some x | _ => None end.
Definition res_GetCleanData (m : Response) : option ResponseCleanData := match Response_Value m with Some (Response_CleanData x) => Some x | _ => None end.
Definition res_GetGenesis (m : Response) : option ResponseGetGenesis := match Response_Value m with Some (Response_GetGenesis x) => Some x | _ => None end.
Definition res_Rollback (m : Response) : option ResponseRollback := match Response_Value m with Some (Response_Rollback x) => Some x | _ => None end.

(** ** The protobuf runtime *)

(** The message types the generated code hands to the runtime. *)
Inductive MessageType : Type :=
| MRequestEcho | MRequestFlush | MRequestInfo | MRequestSetOption | MRequestInitChain | MRequestQuery | MRequestQueryEx | MRequestBeginBlock
| MRequestCheckTx | MRequestDeliverTx | MRequestEndBlock | MRequestCommit | MRequestCleanData | MRequestGetGenesis | MRequestRollback |
MResponseException | MResponseEcho | MResponseFlush | MResponseInfo | MResponseSetOption | MResponseInitChain | MResponseQuery |
MResponseQueryEx | MResponseBeginBlock | MResponseCheckTx | MResponseDeliverTx | MResponseEndBlock | MResponseCommit | MResponseCleanData |
MResponseGetGenesis | MResponseRollback.

Definition message (t : MessageType) : Type :=
  match t with
  | MRequestEcho => RequestEcho
  | MRequestFlush => RequestFlush
  | MRequestInfo => RequestInfo
  | MRequestSetOption => RequestSetOption
  | MRequestInitChain => RequestInitChain
  | MRequestQuery => RequestQuery
  | MRequestQueryEx => RequestQueryEx
  | MRequestBeginBlock => RequestBeginBlock
  | MRequestCheckTx => RequestCheckTx
  | MRequestDeliverTx => RequestDeliverTx
  | MRequestEndBlock => RequestEndBlock
  | MRequestCommit => RequestCommit
  | MRequestCleanData => RequestCleanData
  | MRequestGetGenesis => RequestGetGenesis
  | MRequestRollback => RequestRollback
  | MResponseException => ResponseException
  | MResponseEcho => ResponseEcho
  | MResponseFlush => ResponseFlush
  | MResponseInfo => ResponseInfo
  | MResponseSetOption => ResponseSetOption
  | MResponseInitChain => ResponseInitChain
  | MResponseQuery => ResponseQuery
  | MResponseQueryEx => ResponseQueryEx
  | MResponseBeginBlock => ResponseBeginBlock
  | MResponseCheckTx => ResponseCheckTx
  | MResponseDeliverTx => ResponseDeliverTx
  | MResponseEndBlock => ResponseEndBlock
  | MResponseCommit => ResponseCommit
  | MResponseCleanData => ResponseCleanData
  | MResponseGetGenesis => ResponseGetGenesis
  | MResponseRollback => ResponseRollback
  end.

Class Proto := {
  WireBytes : Z;
  (** [Buffer.EncodeVarint] appends, [Buffer.DecodeVarint] consumes. *)
  EncodeVarint : Z -> list Z;
  DecodeVarint : list Z -> option (Z * list Z);
  (** [Buffer.EncodeMessage] and [Buffer.DecodeMessage]: a message with its length before it. *)
  EncodeMessage : forall t, message t -> option (list Z);
  DecodeMessage : forall t, list Z -> option (message t * list Z);
  SizeVarint : Z -> Z;
  (** [proto.Size] *)
  MessageSize : forall t, message t -> Z;
  (** [proto.Marshal] and [proto.Unmarshal] of a message whose only field is a oneof, given its oneof functions. *)
  Marshal : forall {M : Type}, (M -> option (list Z)) -> M -> option (list Z);
  Unmarshal : forall {M : Type}, M -> (Z -> Z -> list Z -> option (option (M * list Z))) -> list Z -> option M
}.

Class ProtoLaws `{Proto} : Prop := {
  WireBytes_range : 0 <= WireBytes < 8;
  DecodeVarint_Encode : forall v rest, in_uN 64 v -> DecodeVarint (EncodeVarint v ++ rest) = Some (v, rest);
  SizeVarint_length : forall v, in_uN 64 v -> SizeVarint v = zlen (EncodeVarint v);
  (** an embedded message is its size, a varint, and as many bytes *)
  EncodeMessage_length : forall t m bz, EncodeMessage t m = Some bz ->
    0 <= MessageSize t m <= zlen bz /\ zlen bz = SizeVarint (MessageSize t m) + MessageSize t m;
  (** a message with one oneof field is what the oneof marshaler writes *)
  Marshal_oneof : forall M (f : M -> option (list Z)) m, Marshal f m = f m;
  (** the empty message has every field unset; a field is a key, split into tag and wire type, and a body that the
      oneof unmarshaler reads *)
  Unmarshal_empty : forall M (z : M) g, Unmarshal z g [] = Some z;
  Unmarshal_field : forall M (z : M) g b key body m, DecodeVarint b = Some (key, body) ->
    g (Z.shiftr key 3) (Z.land key 7) body = Some (Some (m, [])) -> Unmarshal z g b = Some m
}.

(** ** The generated oneof functions *)

Section Oneof.
Context `{Proto}.

(** One case of a marshaler, of a sizer and of an unmarshaler. *)
Definition encode_field (tag : Z) (t : MessageType) (x : message t) : option (list Z) :=
  match EncodeMessage t x with
  | Some bz => Some (EncodeVarint (Z.lor (Z.shiftl tag 3) WireBytes) ++ bz)
  | None => None
  end.

Definition size_field (tag : Z) (t : MessageType) (x : message t) : Z :=
  let s := MessageSize t x in SizeVarint (Z.lor (Z.shiftl tag 3) WireBytes) + SizeVarint (uN 64 s) + s.

(** [None] is an error, [Some None] a tag that is not of the oneof. *)
Definition decode_field {M} (t : MessageType) (mk : message t -> M) (wire : Z) (b : list Z) : option (option (M * list Z)) :=
  if negb (wire =? WireBytes) then None
  else match DecodeMessage t b with Some (x, rest) => Some (Some (mk x, rest)) | None => None end.

Definition Request_OneofMarshaler (m : Request) : option (list Z) :=
  match Request_Value m with
  | Some (Request_Echo x) => encode_field 2 MRequestEcho x
  | Some (Request_Flush x) => encode_field 3 MRequestFlush x
  | Some (Request_Info x) => encode_field 4 MRequestInfo x
  | Some (Request_SetOption x) => encode_field 5 MRequestSetOption x
  | Some (Request_InitChain x) => encode_field 6 MRequestInitChain x
  | Some (Request_Query x) => encode_field 7 MRequestQuery x
  | Some (Request_QueryEx x) => encode_field 14 MRequestQueryEx x
  | Some (Request_BeginBlock x) => encode_field 8 MRequestBeginBlock x
  | Some (Request_CheckTx x) => encode_field 9 MRequestCheckTx x
  | Some (Request_DeliverTx x) => encode_field 19 MRequestDeliverTx x
  | Some (Request_EndBlock x) => encode_field 11 MRequestEndBlock x
  | Some (Request_Commit x) => encode_field 12 MRequestCommit x
  | Some (Request_CleanData x) => encode_field 13 MRequestCleanData x
  | Some (Request_GetGenesis x) => encode_field 15 MRequestGetGenesis x
  | Some (Request_Rollback x) => encode_field 16 MRequestRollback x
  | None => Some []
  end.

Definition Request_OneofUnmarshaler (tag wire : Z) (b : list Z) : option (option (Request * list Z)) :=
  let value v := mkRequest (Some v) in
  if tag =? 2 then decode_field MRequestEcho (fun x => value (Request_Echo x)) wire b
  else if tag =? 3 then decode_field MRequestFlush (fun x => value (Request_Flush x)) wire b
  else if tag =? 4 then decode_field MRequestInfo (fun x => value (Request_Info x)) wire b
  else if tag =? 5 then decode_field MRequestSetOption (fun x => value (Request_SetOption x)) wire b
  else if tag =? 6 then decode_field MRequestInitChain (fun x => value (Request_InitChain x)) wire b
  else if tag =? 7 then decode_field MRequestQuery (fun x => value (Request_Query x)) wire b
  else if tag =? 14 then decode_field MRequestQueryEx (fun x => value (Request_QueryEx x)) wire b
  else if tag =? 8 then decode_field MRequestBeginBlock (fun x => value (Request_BeginBlock x)) wire b
  else if tag =? 9 then decode_field MRequestCheckTx (fun x => value (Request_CheckTx x)) wire b
  else if tag =? 19 then decode_field MRequestDeliverTx (fun x => value (Request_DeliverTx x)) wire b
  else if tag =? 11 then decode_field MRequestEndBlock (fun x => value (Request_EndBlock x)) wire b
  else if tag =? 12 then decode_field MRequestCommit (fun x => value (Request_Commit x)) wire b
  else if tag =? 13 then decode_field MRequestCleanData (fun x => value (Request_CleanData x)) wire b
  else if tag =? 15 then decode_field MRequestGetGenesis (fun x => value (Request_GetGenesis x)) wire b
  else if tag =? 16 then decode_field MRequestRollback (fun x => value (Request_Rollback x)) wire b
  else Some None.

Definition Request_OneofSizer (m : Request) : Z :=
  match Request_Value m with
  | Some (Request_Echo x) => size_field 2 MRequestEcho x
  | Some (Request_Flush x) => size_field 3 MRequestFlush x
  | Some (Request_Info x) => size_field 4 MRequestInfo x
  | Some (Request_SetOption x) => size_field 5 MRequestSetOption x
  | Some (Request_InitChain x) => size_field 6 MRequestInitChain x
  | Some (Request_Query x) => size_field 7 MRequestQuery x
  | Some (Request_QueryEx x) => size_field 14 MRequestQueryEx x
  | Some (Request_BeginBlock x) => size_field 8 MRequestBeginBlock x
  | Some (Request_CheckTx x) => size_field 9 MRequestCheckTx x
  | Some (Request_DeliverTx x) => size_field 19 MRequestDeliverTx x
  | Some (Request_EndBlock x) => size_field 11 MRequestEndBlock x
  | Some (Request_Commit x) => size_field 12 MRequestCommit x
  | Some (Request_CleanData x) => size_field 13 MRequestCleanData x
  | Some (Request_GetGenesis x) => size_field 15 MRequestGetGenesis x
  | Some (Request_Rollback x) => size_field 16 MRequestRollback x
  | None => 0
  end.

Definition Response_OneofMarshaler (m : Response) : option (list Z) :=
  match Response_Value m with
  | Some (Response_Exception x) => encode_field 1 MResponseException x
  | Some (Response_Echo x) => encode_field 2 MResponseEcho x
  | Some (Response_Flush x) => encode_field 3 MResponseFlush x
  | Some (Response_Info x) => encode_field 4 MResponseInfo x
  | Some (Response_SetOption x) => encode_field 5 MResponseSetOption x
  | Some (Response_InitChain x) => encode_field 6 MResponseInitChain x
  | Some (Response_Query x) => encode_field 7 MResponseQuery x
  | Some (Response_QueryEx x) => encode_field 14 MResponseQueryEx x
  | Some (Response_BeginBlock x) => encode_field 8 MResponseBeginBlock x
  | Some (Response_CheckTx x) => encode_field 9 MResponseCheckTx x
  | Some (Response_DeliverTx x) => encode_field 10 MResponseDeliverTx x
  | Some (Response_EndBlock x) => encode_field 11 MResponseEndBlock x
  | Some (Response_Commit x) => encode_field 12 MResponseCommit x
  | Some (Response_CleanData x) => encode_field 13 MResponseCleanData x
  | Some (Response_GetGenesis x) => encode_field 15 MResponseGetGenesis x
  | Some (Response_Rollback x) => encode_field 16 MResponseRollback x
  | None => Some []
  end.

Definition Response_OneofUnmarshaler (tag wire : Z) (b : list Z) : option (option (Response * list Z)) :=
  let value v := mkResponse (Some v) in
  if tag =? 1 then decode_field MResponseException (fun x => value (Response_Exception x)) wire b
  else if tag =? 2 then decode_field MResponseEcho (fun x => value (Response_Echo x)) wire b
  else if tag =? 3 then decode_field MResponseFlush (fun x => value (Response_Flush x)) wire b
  else if tag =? 4 then decode_field MResponseInfo (fun x => value (Response_Info x)) wire b
  else if tag =? 5 then decode_field MResponseSetOption (fun x => value (Response_SetOption x)) wire b
  else if tag =? 6 then decode_field MResponseInitChain (fun x => value (Response_InitChain x)) wire b
  else if tag =? 7 then decode_field MResponseQuery (fun x => value (Response_Query x)) wire b
  else if tag =? 14 then decode_field MResponseQueryEx (fun x => value (Response_QueryEx x)) wire b
  else if tag =? 8 then decode_field MResponseBeginBlock (fun x => value (Response_BeginBlock x)) wire b
  else if tag =? 9 then decode_field MResponseCheckTx (fun x => value (Response_CheckTx x)) wire b
  else if tag =? 10 then decode_field MResponseDeliverTx (fun x => value (Response_DeliverTx x)) wire b
  else if tag =? 11 then decode_field MResponseEndBlock (fun x => value (Response_EndBlock x)) wire b
  else if tag =? 12 then decode_field MResponseCommit (fun x => value (Response_Commit x)) wire b
  else if tag =? 13 then decode_field MResponseCleanData (fun x => value (Response_CleanData x)) wire b
  else if tag =? 15 then decode_field MResponseGetGenesis (fun x => value (Response_GetGenesis x)) wire b
  else if tag =? 16 then decode_field MResponseRollback (fun x => value (Response_Rollback x)) wire b
  else Some None.

Definition Response_OneofSizer (m : Response) : Z :=
  match Response_Value m with
  | Some (Response_Exception x) => size_field 1 MResponseException x
  | Some (Response_Echo x) => size_field 2 MResponseEcho x
  | Some (Response_Flush x) => size_field 3 MResponseFlush x
  | Some (Response_Info x) => size_field 4 MResponseInfo x
  | Some (Response_SetOption x) => size_field 5 MResponseSetOption x
  | Some (Response_InitChain x) => size_field 6 MResponseInitChain x
  | Some (Response_Query x) => size_field 7 MResponseQuery x
  | Some (Response_QueryEx x) => size_field 14 MResponseQueryEx x
  | Some (Response_BeginBlock x) => size_field 8 MResponseBeginBlock x
  | Some (Response_CheckTx x) => size_field 9 MResponseCheckTx x
  | Some (Response_DeliverTx x) => size_field 10 MResponseDeliverTx x
  | Some (Response_EndBlock x) => size_field 11 MResponseEndBlock x
  | Some (Response_Commit x) => size_field 12 MResponseCommit x
  | Some (Response_CleanData x) => size_field 13 MResponseCleanData x
  | Some (Response_GetGenesis x) => size_field 15 MResponseGetGenesis x
  | Some (Response_Rollback x) => size_field 16 MResponseRollback x
  | None => 0
  end.

End Oneof.

(** ** messages.go: the constructors *)

Definition ToRequestEcho (message : list Z) : Request := mkRequest (Some (Request_Echo (mkRequestEcho message))).
Definition ToRequestFlush : Request := mkRequest (Some (Request_Flush mkRequestFlush)).
Definition ToRequestInfo (req : RequestInfo) : Request := mkRequest (Some (Request_Info req)).
Definition ToRequestSetOption (req : RequestSetOption) : Request := mkRequest (Some (Request_SetOption req)).
Definition ToRequestInitChain (req : RequestInitChain) : Request := mkRequest (Some (Request_InitChain req)).
Definition ToRequestQuery (req : RequestQuery) : Request := mkRequest (Some (Request_Query req)).
Definition ToRequestQueryEx (req : RequestQueryEx) : Request := mkRequest (Some (Request_QueryEx req)).
Definition ToRequestBeginBlock (req : RequestBeginBlock) : Request := mkRequest (Some (Request_BeginBlock req)).
Definition ToRequestCheckTx (tx : list Z) : Request := mkRequest (Some (Request_CheckTx (mkRequestCheckTx tx))).
Definition ToRequestDeliverTx (tx : list Z) : Request := mkRequest (Some (Request_DeliverTx (mkRequestDeliverTx tx))).
Definition ToRequestEndBlock (req : RequestEndBlock) : Request := mkRequest (Some (Request_EndBlock req)).
Definition ToRequestCommit : Request := mkRequest (Some (Request_Commit mkRequestCommit)).
Definition ToRequestCleanData : Request := mkRequest (Some (Request_CleanData mkRequestCleanData)).
Definition ToRequestGetGenesis : Request := mkRequest (Some (Request_GetGenesis mkRequestGetGenesis)).
Definition ToRequestRollback : Request := mkRequest (Some (Request_Rollback mkRequestRollback)).

Definition ToResponseException (errStr : list Z) : Response := mkResponse (Some (Response_Exception (mkResponseException errStr))).
Definition ToResponseEcho (message : list Z) : Response := mkResponse (Some (Response_Echo (mkResponseEcho message))).
Definition ToResponseFlush : Response := mkResponse (Some (Response_Flush mkResponseFlush)).
Definition ToResponseInfo (res : ResponseInfo) : Response := mkResponse (Some (Response_Info res)).
Definition ToResponseSetOption (res : ResponseSetOption) : Response := mkResponse (Some (Response_SetOption res)).
Definition ToResponseInitChain (res : ResponseInitChain) : Response := mkResponse (Some (Response_InitChain res)).
Definition ToResponseQuery (res : ResponseQuery) : Response := mkResponse (Some (Response_Query res)).
Definition ToResponseQueryEx (res : ResponseQueryEx) : Response := mkResponse (Some (Response_QueryEx res)).
Definition ToResponseBeginBlock (res : ResponseBeginBlock) : Response := mkResponse (Some (Response_BeginBlock res)).
Definition ToResponseCheckTx (res : ResponseCheckTx) : Response := mkResponse (Some (Response_CheckTx res)).
Definition ToResponseDeliverTx (res : ResponseDeliverTx) : Response := mkResponse (Some (Response_DeliverTx res)).
Definition ToResponseEndBlock (res : ResponseEndBlock) : Response := mkResponse (Some (Response_EndBlock res)).
Definition ToResponseCommit (res : ResponseCommit) : Response := mkResponse (Some (Response_Commit res)).
Definition ToResponseCleanData (res : ResponseCleanData) : Response := mkResponse (Some (Response_CleanData res)).
Definition ToResponseGetGenesis (res : ResponseGetGenesis) : Response := mkResponse (Some (Response_GetGenesis res)).
Definition ToResponseRollback (res : ResponseRollback) : Response := mkResponse (Some (Response_Rollback res)).

(** ** Framing

    The wire format of the ABCI socket (src/tendermint/abci/types/messages.go): a message is its protobuf encoding
    with a zig-zag varint of its length before it.

    [WriteMessage] is the sequence of writes on the stream, [ReadMessage] reads from the bytes that have arrived and
    says [More] when the reader waits for the next byte.  The theorems of the file: the generated oneof functions
    agree with one another, a frame reads back whatever follows it, and a reader that has only a part of a frame
    waits. *)

(** ** The framing *)

Definition maxMsgSize : Z := 104857600.

Inductive read_error : Type := ErrOverflow | ErrShortBuffer | ErrUnmarshal.

Inductive read (M : Type) : Type :=
| More
| Bad (e : read_error)
| Got (m : M) (rest : list Z).
Arguments More {M}.
Arguments Bad {M} e.
Arguments Got {M} m rest.

(** [binary.ReadVarint]. *)
Definition ReadVarint (b : list Z) : read Z :=
  let (x, n) := Varint b in
  if n =? 0 then More else if n <? 0 then Bad ErrOverflow else Got x (drop (Z.to_nat n) b).

Definition readProtoMsg {M} (unmarshal : list Z -> option M) (maxSize : Z) (b : list Z) : read M :=
  match ReadVarint b with
  | More => More
  | Bad e => Bad e
  | Got length reader =>
      if (length <? 0) || (maxSize <? length) then Bad ErrShortBuffer
      else if zlen reader <? length then More
      else match unmarshal (take (Z.to_nat length) reader) with
           | Some m => Got m (drop (Z.to_nat length) reader)
           | None => Bad ErrUnmarshal
           end
  end.

Definition ReadMessage {M} (unmarshal : list Z -> option M) (b : list Z) : read M := readProtoMsg unmarshal maxMsgSize b.

(** The writes of [encodeVarint] and [encodeByteSlice], in order. *)
Definition encodeVarint (i : Z) : list (list Z) := [PutVarint i].
Definition encodeByteSlice (bz : list Z) : list (list Z) := encodeVarint (zlen bz) ++ [bz].

Definition WriteMessage {M} (marshal : M -> option (list Z)) (msg : M) : option (list (list Z)) :=
  match marshal msg with Some bz => Some (encodeByteSlice bz) | None => None end.

(** ** Requests and responses *)

Section Wire.
Context `{Proto}.

Definition MarshalRequest : Request -> option (list Z) := Marshal Request_OneofMarshaler.
Definition UnmarshalRequest : list Z -> option Request := Unmarshal (mkRequest None) Request_OneofUnmarshaler.
Definition MarshalResponse : Response -> option (list Z) := Marshal Response_OneofMarshaler.
Definition UnmarshalResponse : list Z -> option Response := Unmarshal (mkResponse None) Response_OneofUnmarshaler.

(** The runtime carries the message: it encodes it, and decodes what it encoded. *)
Definition carries (t : MessageType) (x : message t) : Prop :=
  exists bz, EncodeMessage t x = Some bz /\ forall rest, DecodeMessage t (bz ++ rest) = Some (x, rest).

Definition request_carries (v : isRequest_Value) : Prop :=
  match v with
  | Request_Echo x => carries MRequestEcho x
  | Request_Flush x => carries MRequestFlush x
  | Request_Info x => carries MRequestInfo x
  | Request_SetOption x => carries MRequestSetOption x
  | Request_InitChain x => carries MRequestInitChain x
  | Request_Query x => carries MRequestQuery x
  | Request_QueryEx x => carries MRequestQueryEx x
  | Request_BeginBlock x => carries MRequestBeginBlock x
  | Request_CheckTx x => carries MRequestCheckTx x
  | Request_DeliverTx x => carries MRequestDeliverTx x
  | Request_EndBlock x => carries MRequestEndBlock x
  | Request_Commit x => carries MRequestCommit x
  | Request_CleanData x => carries MRequestCleanData x
  | Request_GetGenesis x => carries MRequestGetGenesis x
  | Request_Rollback x => carries MRequestRollback x
  end.

Definition response_carries (v : isResponse_Value) : Prop :=
  match v with
  | Response_Exception x => carries MResponseException x
  | Response_Echo x => carries MResponseEcho x
  | Response_Flush x => carries MResponseFlush x
  | Response_Info x => carries MResponseInfo x
  | Response_SetOption x => carries MResponseSetOption x
  | Response_InitChain x => carries MResponseInitChain x
  | Response_Query x => carries MResponseQuery x
  | Response_QueryEx x => carries MResponseQueryEx x
  | Response_BeginBlock x => carries MResponseBeginBlock x
  | Response_CheckTx x => carries MResponseCheckTx x
  | Response_DeliverTx x => carries MResponseDeliverTx x
  | Response_EndBlock x => carries MResponseEndBlock x
  | Response_Commit x => carries MResponseCommit x
  | Response_CleanData x => carries MResponseCleanData x
  | Response_GetGenesis x => carries MResponseGetGenesis x
  | Response_Rollback x => carries MResponseRollback x
  end.

(** ** The oneof functions *)

Context `{!ProtoLaws}.

Lemma key_split tag : 0 <= tag < 2 ^ 60 -> let key := Z.lor (Z.shiftl tag 3) WireBytes in
  in_uN 64 key /\ Z.shiftr key 3 = tag /\ Z.land key 7 = WireBytes.
Proof.
  intros Ht key. pose proof WireBytes_range as Hw.
  assert (key = tag * 8 + WireBytes) as Ek.
  { unfold key. rewrite Z.shiftl_mul_pow2 by lia. rewrite Z.lor_comm. rewrite <- (Z.shiftl_mul_pow2 tag 3) by lia.
    rewrite (lor_low WireBytes tag 3) by lia. lia. }
  rewrite Ek. split_and!; [unfold in_uN; lia|rewrite Z.shiftr_div_pow2 by lia; change (2 ^ 3) with 8; rewrite Z.div_add_l, Z.div_small by lia; lia|].
  change 7 with (Z.ones 3). rewrite Z.land_ones by lia. change (2 ^ 3) with 8. rewrite Z.add_comm, Z.mod_add, Z.mod_small by lia. done.
Qed.

(** One field: the key and the body are those the unmarshaler reads, and the sizer counts them. *)
Lemma field_ok {M} tag t x (mk : message t -> M) (z : M) g bz : 0 <= tag < 2 ^ 60 -> carries t x ->
  (forall wire b, g tag wire b = decode_field t mk wire b) -> encode_field tag t x = Some bz ->
  Unmarshal z g bz = Some (mk x).
Proof.
  intros Ht (body & E & D) Hg. unfold encode_field. rewrite E. intros [= <-].
  destruct (key_split tag Ht) as (Hk & Hs & Hl). eapply Unmarshal_field; [by apply DecodeVarint_Encode|].
  rewrite Hs, Hl, Hg. unfold decode_field. rewrite Z.eqb_refl. cbn [negb]. specialize (D []). rewrite app_nil_r in D.
  by rewrite D.
Qed.

Lemma field_size tag t x bz : 0 <= tag < 2 ^ 60 -> encode_field tag t x = Some bz -> zlen bz < 2 ^ 64 ->
  size_field tag t x = zlen bz.
Proof.
  intros Ht. unfold encode_field, size_field. destruct (EncodeMessage t x) as [b|] eqn:E; [|done]. intros [= <-].
  destruct (EncodeMessage_length _ _ _ E) as [Hs El]. rewrite zlen_app. pose proof (zlen_nonneg (EncodeVarint (Z.lor (Z.shiftl tag 3) WireBytes))).
  intros Hl. rewrite El, <- SizeVarint_length by apply (key_split tag Ht). rewrite uN_id by (unfold in_uN; lia). lia.
Qed.

Lemma carries_encodes tag t x : carries t x -> exists bz, encode_field tag t x = Some bz.
Proof. intros (b & E & _). unfold encode_field. rewrite E. by eexists. Qed.

(** One case of the codecs: the constructor [c] of the oneof around the message [x]. *)
Ltac codec_case Hc wrap :=
  edestruct carries_encodes as [bz E]; [exact Hc|]; exists bz; split; [exact E|];
  match type of E with encode_field ?tag ?t ?x = _ =>
    match goal with |- Unmarshal _ _ _ = Some (_ (Some (?c x))) =>
      apply (field_ok tag t x (fun y => wrap (Some (c y)))); [lia|exact Hc|reflexivity|exact E] end end.

(** Requests and responses read back, whatever the message. *)
Lemma request_codec v : request_carries v -> exists bz, MarshalRequest (mkRequest (Some v)) = Some bz /\
  UnmarshalRequest bz = Some (mkRequest (Some v)).
Proof.
  intros Hc. unfold MarshalRequest, UnmarshalRequest. rewrite Marshal_oneof.
  destruct v; cbn [request_carries] in Hc; codec_case Hc mkRequest.
Qed.

Lemma response_codec v : response_carries v -> exists bz, MarshalResponse (mkResponse (Some v)) = Some bz /\
  UnmarshalResponse bz = Some (mkResponse (Some v)).
Proof.
  intros Hc. unfold MarshalResponse, UnmarshalResponse. rewrite Marshal_oneof.
  destruct v; cbn [response_carries] in Hc; codec_case Hc mkResponse.
Qed.

(** The sizers count what the marshalers write, below 2^64 bytes. *)
Lemma sizers_ok :
  (forall m bz, Request_OneofMarshaler m = Some bz -> zlen bz < 2 ^ 64 -> Request_OneofSizer m = zlen bz) /\
  (forall m bz, Response_OneofMarshaler m = Some bz -> zlen bz < 2 ^ 64 -> Response_OneofSizer m = zlen bz).
Proof.
  split; intros [[v|]] bz; cbn; [destruct v|by intros [= <-]|destruct v|by intros [= <-]];
    intros E Hl; (eapply field_size; [|exact E|exact Hl]; lia).
Qed.
End Wire.

(** ** The framing *)

Section Frame.
Context {M : Type} (marshal : M -> option (list Z)) (unmarshal : list Z -> option M).

Definition frame (m : M) : list Z := match marshal m with Some bz => PutVarint (zlen bz) ++ bz | None => [] end.

(** The message can cross the wire. *)
Definition wire_ok (m : M) : Prop := exists bz, marshal m = Some bz /\ unmarshal bz = Some m /\ zlen bz <= maxMsgSize.

Lemma ReadMessage_rest b m rest : ReadMessage unmarshal b = Got m rest -> exists used, b = used ++ rest.
Proof.
  unfold ReadMessage, readProtoMsg, ReadVarint. destruct (Varint b) as [x n]. destruct (n =? 0); [done|]. destruct (n <? 0); [done|].
  destruct (_ || _); [done|]. destruct (_ <? _); [done|]. destruct (unmarshal _); [|done]. intros [= -> <-].
  exists (take (Z.to_nat n) b ++ take (Z.to_nat x) (drop (Z.to_nat n) b)). by rewrite <- app_assoc, !take_drop.
Qed.

Lemma WriteMessage_frame m : wire_ok m -> exists ws, WriteMessage marshal m = Some ws /\ concat ws = frame m.
Proof.
  intros (bz & E & _). unfold WriteMessage, frame. rewrite E. eexists. split; [done|]. cbn. by rewrite app_nil_r.
Qed.

Lemma ReadVarint_put x k : in_sN 64 x -> ReadVarint (PutVarint x ++ k) = Got x k.
Proof.
  intros Hx. unfold ReadVarint. rewrite Varint_PutVarint by done.
  assert (1 <= zlen (PutVarint x)) by apply PutUvarint_pos.
  destruct (Z.eqb_spec (zlen (PutVarint x)) 0); [lia|]. destruct (Z.ltb_spec (zlen (PutVarint x)) 0); [lia|].
  by rewrite drop_app_zlen.
Qed.

Lemma size_in_int64 bz : zlen bz <= maxMsgSize -> in_sN 64 (zlen (A := Z) bz).
Proof. unfold maxMsgSize, in_sN. pose proof (zlen_nonneg bz). lia. Qed.

(** A frame reads back, whatever follows. *)
Lemma ReadMessage_frame m rest : wire_ok m -> ReadMessage unmarshal (frame m ++ rest) = Got m rest.
Proof.
  intros (bz & E & D & Hl). unfold frame, ReadMessage, readProtoMsg. rewrite E, <- app_assoc, ReadVarint_put by by apply size_in_int64.
  pose proof (zlen_nonneg bz). rewrite (proj2 (Z.ltb_ge _ _)), (proj2 (Z.ltb_ge _ _)) by lia. cbn [orb].
  rewrite (proj2 (Z.ltb_ge _ _)) by (rewrite zlen_app; pose proof (zlen_nonneg rest); lia).
  by rewrite take_app_zlen, D, drop_app_zlen.
Qed.

(** All the bytes of a code but the last one announce another byte. *)
Lemma uvarint_loop_part f : forall x p q, uvarint_loop f x = p ++ q -> q <> [] -> Forall (fun b => 128 <= b) p.
Proof.
  induction f as [|f IH]; intros x [|b p] q E Hq; try constructor; cbn [uvarint_loop] in E.
  - injection E as _ E. symmetry in E. by apply app_eq_nil in E as [_ ->].
  - injection E as _ E. symmetry in E. by apply app_eq_nil in E as [_ ->].
  - destruct (128 <=? x) eqn:Ex; injection E as <- E; [|symmetry in E; by apply app_eq_nil in E as [_ ->]].
    apply Z.leb_le in Ex. rewrite lor_128 by lia. pose proof (Z.mod_pos_bound x 128). lia.
  - destruct (128 <=? x) eqn:Ex; injection E as <- E; [by eapply IH|symmetry in E; by apply app_eq_nil in E as [_ ->]].
Qed.

Lemma Uvarint_loop_more p : forall i s x, Forall (fun b => 128 <= b) p -> Uvarint_loop i s x p = (0, 0).
Proof.
  induction p as [|b p IH]; intros i s x Hp; [done|]. inversion_clear Hp. cbn [Uvarint_loop].
  rewrite (proj2 (Z.ltb_ge _ _)) by lia. by apply IH.
Qed.

Lemma ReadVarint_part x p q : PutVarint x = p ++ q -> q <> [] -> ReadVarint p = More.
Proof.
  intros E Hq. unfold PutVarint in E. unfold ReadVarint, Varint, Uvarint.
  rewrite Uvarint_loop_more; [done|]. by eapply uvarint_loop_part.
Qed.

(** A reader that has a proper prefix of a frame waits for more. *)
Lemma ReadMessage_part m p q : wire_ok m -> frame m = p ++ q -> q <> [] -> ReadMessage unmarshal p = More.
Proof.
  intros (bz & E & D & Hl). unfold frame. rewrite E. intros F Hq. unfold ReadMessage, readProtoMsg.
  apply app_eq_app in F as (l & [[F1 F2]|[F1 F2]]).
  - destruct l as [|b l].
    + rewrite app_nil_r in F1. cbn in F2. subst q. rewrite <- F1, <- (app_nil_r (PutVarint _)), ReadVarint_put by by apply size_in_int64.
      pose proof (zlen_nonneg bz). rewrite (proj2 (Z.ltb_ge _ _)), (proj2 (Z.ltb_ge _ _)) by lia. cbn [orb].
      rewrite (proj2 (Z.ltb_lt _ _)); [done|]. destruct bz; [done|]. rewrite zlen_nil, zlen_cons. pose proof (zlen_nonneg bz). lia.
    + by rewrite (ReadVarint_part _ _ _ F1).
  - rewrite F1, ReadVarint_put by by apply size_in_int64. pose proof (zlen_nonneg bz).
    rewrite (proj2 (Z.ltb_ge _ _)), (proj2 (Z.ltb_ge _ _)) by lia. cbn [orb].
    rewrite (proj2 (Z.ltb_lt _ _)); [done|]. rewrite F2, zlen_app. destruct q; [done|]. rewrite zlen_cons. pose proof (zlen_nonneg q). lia.
Qed.

(** The writer takes a message that the reader refuses. *)
Lemma ReadMessage_long m bz rest : marshal m = Some bz -> maxMsgSize < zlen bz < 2 ^ 63 ->
  (exists ws, WriteMessage marshal m = Some ws) /\ ReadMessage unmarshal (frame m ++ rest) = Bad ErrShortBuffer.
Proof.
  intros E Hl. unfold WriteMessage, frame, ReadMessage, readProtoMsg. rewrite E. split; [by eexists|].
  rewrite <- app_assoc, ReadVarint_put by (unfold in_sN; pose proof (zlen_nonneg bz); lia).
  rewrite (proj2 (Z.ltb_lt maxMsgSize _)) by lia. by rewrite orb_true_r.
Qed.

Lemma frame_nonempty m : wire_ok m -> frame m <> [].
Proof.
  intros (bz & E & _). unfold frame. rewrite E. intros [F _]%app_eq_nil.
  assert (1 <= zlen (PutVarint (zlen bz))) as P by apply PutUvarint_pos. rewrite F in P. by vm_compute in P.
Qed.
End Frame.
