(* ===== verification/Abci.v ===== *)
(** The ABCI connection: the socket client (src/tendermint/abci/client/client.go and socket_client.go) and
    the socket server (src/tendermint/abci/server/socket_server.go).

    The goroutines of a connection are the caller of the client, [sendRequestsRoutine], [recvResponseRoutine], and
    the server's [handleRequests] and [handleResponses].  One iteration of a routine, or one call, is a label of
    [exec]; a schedule is a list of labels, so every interleaving is a schedule.  A label that cannot run (a full
    channel, no message on the wire) gives [None].

    The server's watchdog kills its process when it reads no request for 600 seconds; the labels [LClock], [LOther] and
    [LTimeout] are the seconds that pass, the requests of the server's other connections, and the end of the process.

    The heap of [ReqRes] objects is the list [reqres]; a pointer is an index.  A callback is a number, and [calls] logs
    the callbacks that ran.  The wire in each direction is the list of bytes written and not read; the buffered writers
    at both ends are those of Go's bufio. *)
From S2P Require Import Prelude GoStrings AbciWire.
From stdpp Require Import base list gmap.
Local Open Scope Z_scope.

(** ** [bufio.Writer] *)

Definition bufio_size : Z := 4096.

(** [Write]: the new buffer, and what went to the connection. *)
Definition bufio_Write (buf p : list Z) : list Z * list Z :=
  let avail := bufio_size - zlen buf in
  if zlen p <=? avail then (buf ++ p, [])
  else match buf with
       | [] => ([], p)
       | _ => let q := drop (Z.to_nat avail) p in
              if bufio_size <? zlen q then ([], buf ++ p)
              else (q, buf ++ take (Z.to_nat avail) p)
       end.

Fixpoint bufio_Writes (buf : list Z) (ws : list (list Z)) : list Z * list Z :=
  match ws with
  | [] => (buf, [])
  | w :: ws => let (buf, out) := bufio_Write buf w in
               let (buf, out') := bufio_Writes buf ws in (buf, out ++ out')
  end.

(** ** [types.Application] *)

(** A method takes the state of the application; [None] is a panic. *)
Record Application (S : Type) := {
  app_Info : RequestInfo -> S -> option (ResponseInfo * S);
  app_SetOption : RequestSetOption -> S -> option (ResponseSetOption * S);
  app_Query : RequestQuery -> S -> option (ResponseQuery * S);
  app_QueryEx : RequestQueryEx -> S -> option (ResponseQueryEx * S);
  app_CheckTx : list Z -> S -> option (ResponseCheckTx * S);
  app_InitChain : RequestInitChain -> S -> option (ResponseInitChain * S);
  app_BeginBlock : RequestBeginBlock -> S -> option (ResponseBeginBlock * S);
  app_DeliverTx : list Z -> S -> option (ResponseDeliverTx * S);
  app_EndBlock : RequestEndBlock -> S -> option (ResponseEndBlock * S);
  app_Commit : S -> option (ResponseCommit * S);
  app_CleanData : S -> option (ResponseCleanData * S);
  app_GetGenesis : S -> option (ResponseGetGenesis * S);
  app_Rollback : S -> option (ResponseRollback * S)
}.
Arguments app_Info {S}. Arguments app_SetOption {S}. Arguments app_Query {S}. Arguments app_QueryEx {S}.
Arguments app_CheckTx {S}. Arguments app_InitChain {S}. Arguments app_BeginBlock {S}. Arguments app_DeliverTx {S}.
Arguments app_EndBlock {S}. Arguments app_Commit {S}. Arguments app_CleanData {S}. Arguments app_GetGenesis {S}.
Arguments app_Rollback {S}.

Definition reply {S R} (mk : R -> Response) (r : option (R * S)) : option (Response * S) :=
  match r with Some (res, s) => Some (mk res, s) | None => None end.

(** The address without its port, [strings.Split(addr, ":")[0]]. *)
Definition remote_host (addr : list Z) : list Z := match Split addr 58 with h :: _ => h | [] => [] end.

(** [handleRequest]: the response it sends to the channel. *)
Definition handleRequest {S} (app : Application S) (addr : list Z) (req : Request) (s : S) : option (Response * S) :=
  match Request_Value req with
  | Some (Request_Echo r) => Some (ToResponseEcho (RequestEcho_Message r), s)
  | Some (Request_Flush _) => Some (ToResponseFlush, s)
  | Some (Request_Info r) =>
      reply ToResponseInfo (app_Info app (mkRequestInfo (RequestInfo_Version r) (remote_host addr) (RequestInfo_Port r)) s)
  | Some (Request_SetOption r) => reply ToResponseSetOption (app_SetOption app r s)
  | Some (Request_DeliverTx r) => reply ToResponseDeliverTx (app_DeliverTx app (RequestDeliverTx_Tx r) s)
  | Some (Request_CheckTx r) => reply ToResponseCheckTx (app_CheckTx app (RequestCheckTx_Tx r) s)
  | Some (Request_Commit _) => reply ToResponseCommit (app_Commit app s)
  | Some (Request_Query r) => reply ToResponseQuery (app_Query app r s)
  | Some (Request_QueryEx r) => reply ToResponseQueryEx (app_QueryEx app r s)
  | Some (Request_InitChain r) => reply ToResponseInitChain (app_InitChain app r s)
  | Some (Request_BeginBlock r) => reply ToResponseBeginBlock (app_BeginBlock app r s)
  | Some (Request_EndBlock r) => reply ToResponseEndBlock (app_EndBlock app r s)
  | Some (Request_CleanData _) => reply ToResponseCleanData (app_CleanData app s)
  | Some (Request_GetGenesis _) => reply ToResponseGetGenesis (app_GetGenesis app s)
  | Some (Request_Rollback _) => reply ToResponseRollback (app_Rollback app s)
  | None => Some (ToResponseException (bs "Unknown request"), s)
  end.

(** ** [ReqRes] *)

Record ReqRes := mkReqRes {
  rr_Request : Request;
  rr_Response : option Response;
  rr_wait : Z;                 (* the counter of the WaitGroup *)
  rr_done : bool;
  rr_cb : option nat
}.

Definition NewReqRes (req : Request) : ReqRes := mkReqRes req None 1 false None.

(** The new object, and the callback that runs at once, with its argument. *)
Definition SetCallback (cb : nat) (r : ReqRes) : ReqRes * option (nat * option Response) :=
  if rr_done r then (r, Some (cb, rr_Response r))
  else (mkReqRes (rr_Request r) (rr_Response r) (rr_wait r) (rr_done r) (Some cb), None).

Definition SetDone (r : ReqRes) : ReqRes := mkReqRes (rr_Request r) (rr_Response r) (rr_wait r) true (rr_cb r).

(** [WaitGroup.Done] panics below zero. *)
Definition Done (r : ReqRes) : option ReqRes :=
  if rr_wait r <=? 0 then None
  else Some (mkReqRes (rr_Request r) (rr_Response r) (rr_wait r - 1) (rr_done r) (rr_cb r)).

Definition SetResponse (res : Response) (r : ReqRes) : ReqRes :=
  mkReqRes (rr_Request r) (Some res) (rr_wait r) (rr_done r) (rr_cb r).

(** ** The socket client *)

Inductive cli_error : Type :=
| ErrWriting
| ErrReading (e : read_error)
| ErrEOF
| ErrException (msg : list Z)
| ErrNothingExpected
| ErrUnexpectedType.

Record socketClient := mkClient {
  reqres : list ReqRes;
  reqQueue : list nat;
  reqSent : list nat;
  cli_err : option cli_error;
  running : bool;
  killed : bool;                      (* [cmn.Kill] was called *)
  resCb : option nat;
  calls : list (nat * option Response)
}.

Definition NewSocketClient : socketClient := mkClient [] [] [] None true false None [].

Definition reqQueueSize : nat := 256.

Definition is_flush_req (req : Request) : bool := match Request_Value req with Some (Request_Flush _) => true | _ => false end.
Definition is_flush_res (res : Response) : bool := match Response_Value res with Some (Response_Flush _) => true | _ => false end.

Definition upd_reqres (rs : list ReqRes) (c : socketClient) : socketClient :=
  mkClient rs (reqQueue c) (reqSent c) (cli_err c) (running c) (killed c) (resCb c) (calls c).

(** [queueRequest], once the channel has room; the result is the new pointer.  The flush timer it sets or unsets may
    fire at any time, which is label [LTimer]. *)
Definition queueRequest (req : Request) (c : socketClient) : option (nat * socketClient) :=
  if (length (reqQueue c) <? reqQueueSize)%nat then
    let id := length (reqres c) in
    Some (id, mkClient (reqres c ++ [NewReqRes req]) (reqQueue c ++ [id]) (reqSent c) (cli_err c) (running c) (killed c)
                       (resCb c) (calls c))
  else None.

(** [flushQueue]: every request still in the queue is released; [None] is a panic of [Done]. *)
Fixpoint done_all (ids : list nat) (rs : list ReqRes) : option (list ReqRes) :=
  match ids with
  | [] => Some rs
  | id :: ids => match rs !! id with
                 | Some r => match Done r with Some r' => done_all ids (<[id := r']> rs) | None => None end
                 | None => None
                 end
  end.

Definition flushQueue (c : socketClient) : option socketClient :=
  match done_all (reqQueue c) (reqres c) with
  | Some rs => Some (mkClient rs [] (reqSent c) (cli_err c) (running c) (killed c) (resCb c) (calls c))
  | None => None
  end.

(** [BaseService.Stop] runs [OnStop] the first time only. *)
Definition Stop (c : socketClient) : option socketClient :=
  if running c then
    flushQueue (mkClient (reqres c) (reqQueue c) (reqSent c) (cli_err c) false (killed c) (resCb c) (calls c))
  else Some c.

Definition StopForError (err : cli_error) (c : socketClient) : option socketClient :=
  if running c then
    match Stop (mkClient (reqres c) (reqQueue c) (reqSent c) (match cli_err c with None => Some err | e => e end) (running c)
                         (killed c) (resCb c) (calls c)) with
    | Some c => Some (mkClient (reqres c) (reqQueue c) (reqSent c) (cli_err c) (running c) true (resCb c) (calls c))
    | None => None
    end
  else Some c.

Definition willSendReq (id : nat) (c : socketClient) : socketClient :=
  mkClient (reqres c) (reqQueue c) (reqSent c ++ [id]) (cli_err c) (running c) (killed c) (resCb c) (calls c).

Definition resMatchesReq (req : Request) (res : Response) : bool :=
  match Request_Value req, Response_Value res with
  | Some (Request_Echo _), Some (Response_Echo _) => true
  | Some (Request_Flush _), Some (Response_Flush _) => true
  | Some (Request_Info _), Some (Response_Info _) => true
  | Some (Request_SetOption _), Some (Response_SetOption _) => true
  | Some (Request_DeliverTx _), Some (Response_DeliverTx _) => true
  | Some (Request_CheckTx _), Some (Response_CheckTx _) => true
  | Some (Request_Commit _), Some (Response_Commit _) => true
  | Some (Request_Query _), Some (Response_Query _) => true
  | Some (Request_QueryEx _), Some (Response_QueryEx _) => true
  | Some (Request_InitChain _), Some (Response_InitChain _) => true
  | Some (Request_BeginBlock _), Some (Response_BeginBlock _) => true
  | Some (Request_EndBlock _), Some (Response_EndBlock _) => true
  | Some (Request_CleanData _), Some (Response_CleanData _) => true
  | Some (Request_GetGenesis _), Some (Response_GetGenesis _) => true
  | Some (Request_Rollback _), Some (Response_Rollback _) => true
  | _, _ => false
  end.

Definition call_cb (cb : option nat) (res : Response) (log : list (nat * option Response)) : list (nat * option Response) :=
  match cb with Some f => log ++ [(f, Some res)] | None => log end.

(** [didRecvResponse], under the client's mutex. *)
Definition didRecvResponse (rsp : Response) (c : socketClient) : res cli_error socketClient :=
  match reqSent c with
  | [] => Err ErrNothingExpected
  | next :: sent =>
      match reqres c !! next with
      | None => Panic
      | Some r =>
          if resMatchesReq (rr_Request r) rsp then
            match Done (SetResponse rsp r) with
            | None => Panic
            | Some r =>
                Ok (mkClient (<[next := r]> (reqres c)) (reqQueue c) sent (cli_err c) (running c) (killed c) (resCb c)
                             (call_cb (resCb c) rsp (call_cb (rr_cb r) rsp (calls c))))
            end
          else Err ErrUnexpectedType
      end
  end.

(** What a [XSync] method returns after its [FlushSync]: the getter on the response, nil on a nil response. *)
Definition sync_result {A} (get : Response -> option A) (id : nat) (c : socketClient) : option A * option cli_error :=
  (match reqres c !! id with Some r => match rr_Response r with Some res => get res | None => None end | None => None end,
   cli_err c).

(** [FlushSync] waits until the counter of its own [ReqRes] is zero. *)
Definition released (id : nat) (c : socketClient) : bool :=
  match reqres c !! id with Some r => rr_wait r =? 0 | None => false end.

(** ** A connection *)

Record Conn (S : Type) := mkConn {
  cli : socketClient;
  sender : bool;                (* [sendRequestsRoutine] runs *)
  receiver : bool;              (* [recvResponseRoutine] runs *)
  cli_w : list Z;               (* the writer of the client *)
  c2s : list Z;
  app_state : S;
  hand : option Response;       (* the response [handleRequest] is about to send to the channel *)
  responses : list Response;
  srv_w : list Z;               (* the writer of the server *)
  s2c : list Z;
  closed : bool;                (* something was sent to [closeConn]: the server kills its process *)
  crashed : bool;               (* a goroutine panicked *)
  watch : option Z              (* the timer of [checkReqTimeOutInfo], in seconds; [None] once it has fired *)
}.
Arguments mkConn {S}. Arguments cli {S}. Arguments sender {S}. Arguments receiver {S}. Arguments cli_w {S}.
Arguments c2s {S}. Arguments app_state {S}. Arguments hand {S}. Arguments responses {S}. Arguments srv_w {S}.
Arguments s2c {S}. Arguments closed {S}. Arguments crashed {S}. Arguments watch {S}.

Definition responsesSize : nat := 1000.

(** *** The watchdog [checkReqTimeOutInfo] *)

Definition watch_limit : Z := 600.

(** A second passes. *)
Definition tick (w : option Z) : option Z :=
  match w with Some n => if watch_limit <=? n + 1 then None else Some (n + 1) | None => None end.

(** A value on [dataChan]: [timer.Reset] does not take back a timer that has fired, whose value waits in its channel. *)
Definition reset (w : option Z) : option Z := match w with Some _ => Some 0 | None => None end.

Section Exec.
Context `{Proto} {S : Type} (app : Application S) (addr : list Z).
Implicit Types s : Conn S.

Definition dial (s0 : S) : Conn S := mkConn NewSocketClient true true [] [] s0 None [] [] [] false false (Some 0).

Definition with_cli (c : socketClient) s : Conn S :=
  mkConn c (sender s) (receiver s) (cli_w s) (c2s s) (app_state s) (hand s) (responses s) (srv_w s) (s2c s) (closed s) (crashed s) (watch s).
Definition crash s : Conn S :=
  mkConn (cli s) (sender s) (receiver s) (cli_w s) (c2s s) (app_state s) (hand s) (responses s) (srv_w s) (s2c s) (closed s) true (watch s).
Definition hang_up s : Conn S :=
  mkConn (cli s) (sender s) (receiver s) (cli_w s) (c2s s) (app_state s) (hand s) (responses s) (srv_w s) (s2c s) true (crashed s) (watch s).

(** The client after a call that can panic. *)
Definition set_cli (c : option socketClient) s : Conn S := match c with Some c => with_cli c s | None => crash s end.

(** [sendRequestsRoutine] takes a request: it is remembered, written and, for a flush, pushed out.  Once the
    connection is closed, what reaches it is an error. *)
Definition send_iter s : option (Conn S) :=
  if negb (sender s) then None else
  match reqQueue (cli s) with
  | [] => None
  | id :: q =>
      match reqres (cli s) !! id with
      | None => None
      | Some r =>
          let c := willSendReq id (mkClient (reqres (cli s)) q (reqSent (cli s)) (cli_err (cli s)) (running (cli s))
                                            (killed (cli s)) (resCb (cli s)) (calls (cli s))) in
          let stop s := set_cli (StopForError ErrWriting c)
            (mkConn c false (receiver s) (cli_w s) (c2s s) (app_state s) (hand s) (responses s) (srv_w s) (s2c s) (closed s) (crashed s) (watch s)) in
          match WriteMessage MarshalRequest (rr_Request r) with
          | None => Some (stop s)
          | Some ws =>
              let (buf, out) := bufio_Writes (cli_w s) ws in
              let (buf, out) := if is_flush_req (rr_Request r) then ([], out ++ buf) else (buf, out) in
              if running c || bool_decide (out = []) then
                Some (mkConn c true (receiver s) buf (c2s s ++ out) (app_state s) (hand s) (responses s) (srv_w s) (s2c s)
                             (closed s) (crashed s) (watch s))
              else Some (stop s)
          end
      end
  end.

(** [recvResponseRoutine] reads one response. *)
Definition recv_iter s : option (Conn S) :=
  if negb (receiver s) then None else
  let stop e s := set_cli (StopForError e (cli s))
    (mkConn (cli s) (sender s) false (cli_w s) (c2s s) (app_state s) (hand s) (responses s) (srv_w s) (s2c s) (closed s) (crashed s) (watch s)) in
  match ReadMessage UnmarshalResponse (s2c s) with
  | More => if closed s then Some (stop ErrEOF s) else None
  | Bad e => Some (stop (ErrReading e) s)
  | Got res rest =>
      let s := mkConn (cli s) (sender s) (receiver s) (cli_w s) (c2s s) (app_state s) (hand s) (responses s) (srv_w s) rest
                      (closed s) (crashed s) (watch s) in
      match Response_Value res with
      | Some (Response_Exception r) => Some (stop (ErrException (ResponseException_Error r)) s)
      | _ => match didRecvResponse res (cli s) with
             | Ok c => Some (with_cli c s)
             | Err e => Some (stop e s)
             | _ => Some (crash s)
             end
      end
  end.

Definition with_watch (w : option Z) s : Conn S :=
  mkConn (cli s) (sender s) (receiver s) (cli_w s) (c2s s) (app_state s) (hand s) (responses s) (srv_w s) (s2c s) (closed s) (crashed s) w.

(** [handleRequests] reads one request, resets the watchdog and handles the request. *)
Definition handle_iter s : option (Conn S) :=
  if closed s then None else
  match hand s, ReadMessage UnmarshalRequest (c2s s) with
  | Some _, _ | None, More => None
  | None, Bad _ => Some (hang_up s)
  | None, Got req rest =>
      match handleRequest app addr req (app_state s) with
      | Some (res, st) => Some (mkConn (cli s) (sender s) (receiver s) (cli_w s) rest st (Some res) (responses s) (srv_w s) (s2c s)
                                       (closed s) (crashed s) (reset (watch s)))
      | None => Some (crash s)
      end
  end.

(** The channel takes the response. *)
Definition push_iter s : option (Conn S) :=
  match hand s with
  | Some res => if (length (responses s) <? responsesSize)%nat
                then Some (mkConn (cli s) (sender s) (receiver s) (cli_w s) (c2s s) (app_state s) None (responses s ++ [res]) (srv_w s)
                                  (s2c s) (closed s) (crashed s) (watch s))
                else None
  | None => None
  end.

(** [handleResponses] writes one response. *)
Definition respond_iter s : option (Conn S) :=
  if closed s then None else
  match responses s with
  | [] => None
  | res :: rs =>
      match WriteMessage MarshalResponse res with
      | None => Some (hang_up s)
      | Some ws =>
          let (buf, out) := bufio_Writes (srv_w s) ws in
          let (buf, out) := if is_flush_res res then ([], out ++ buf) else (buf, out) in
          Some (mkConn (cli s) (sender s) (receiver s) (cli_w s) (c2s s) (app_state s) (hand s) rs buf (s2c s ++ out) (closed s) (crashed s) (watch s))
      end
  end.

Inductive label : Type :=
| LQueue (v : isRequest_Value)            (* a [XAsync] call *)
| LSetCallback (id cb : nat)
| LSetResponseCallback (cb : nat)
| LTimer                                  (* the flush timer fires *)
| LSend
| LHandle
| LPush
| LRespond
| LRecv
| LStop                                   (* [Stop] on the client *)
| LQuit                                   (* the send routine sees the quit channel of a stopped client *)
| LReadClosed                             (* the receive routine reads from the closed connection *)
| LClock                                  (* a second passes *)
| LOther                                  (* the server reads a request from another connection *)
| LTimeout.                               (* the watchdog takes the timer that has fired, and kills the process *)

Definition exec (l : label) s : option (Conn S) :=
  if crashed s then None else
  match l with
  | LQueue v => match queueRequest (mkRequest (Some v)) (cli s) with Some (_, c) => Some (with_cli c s) | None => None end
  | LSetCallback id cb =>
      match reqres (cli s) !! id with
      | Some r =>
          let (r, now) := SetCallback cb r in
          let c := cli s in
          Some (with_cli (mkClient (<[id := r]> (reqres c)) (reqQueue c) (reqSent c) (cli_err c) (running c) (killed c) (resCb c)
                                   (match now with Some e => calls c ++ [e] | None => calls c end)) s)
      | None => None
      end
  | LSetResponseCallback cb =>
      let c := cli s in
      Some (with_cli (mkClient (reqres c) (reqQueue c) (reqSent c) (cli_err c) (running c) (killed c) (Some cb) (calls c)) s)
  | LTimer =>
      if sender s then match queueRequest ToRequestFlush (cli s) with Some (_, c) => Some (with_cli c s) | None => Some s end
      else None
  | LSend => send_iter s
  | LHandle => handle_iter s
  | LPush => push_iter s
  | LRespond => respond_iter s
  | LRecv => recv_iter s
  | LStop => Some (set_cli (Stop (cli s)) s)
  | LQuit => if sender s && negb (running (cli s))
             then Some (mkConn (cli s) false (receiver s) (cli_w s) (c2s s) (app_state s) (hand s) (responses s) (srv_w s) (s2c s)
                               (closed s) (crashed s) (watch s))
             else None
  | LReadClosed => if receiver s && negb (running (cli s))
             then Some (mkConn (cli s) (sender s) false (cli_w s) (c2s s) (app_state s) (hand s) (responses s) (srv_w s) (s2c s)
                               (closed s) (crashed s) (watch s))
             else None
  | LClock => if closed s then None else Some (with_watch (tick (watch s)) s)
  | LOther => if closed s then None else Some (with_watch (reset (watch s)) s)
  | LTimeout => if closed s then None else match watch s with None => Some (hang_up s) | Some _ => None end
  end.

Fixpoint run (ls : list label) s : option (Conn S) :=
  match ls with
  | [] => Some s
  | l :: ls => match exec l s with Some s => run ls s | None => None end
  end.
End Exec.

(** ** The server: accepting connections *)

Module Server.

Record SocketServer := mkServer {
  conns : gmap nat (list Z);        (* the remote address of each connection *)
  nextConnID : nat;
  remoteIp : list Z;                (* of [acceptConnectionsRoutine] *)
  watchers : nat;                   (* goroutines in [checkReqTimeOutInfo] *)
  srv_killed : bool                 (* [killBcchain] *)
}.

Definition NewSocketServer : SocketServer := mkServer ∅ 0 [] 0 false.

Definition addConn (addr : list Z) (s : SocketServer) : SocketServer :=
  mkServer (<[nextConnID s := addr]> (conns s)) (S (nextConnID s)) (remoteIp s) (watchers s) (srv_killed s).

(** [rmConn]: an unknown connection is an error. *)
Definition rmConn (connID : nat) (s : SocketServer) : option SocketServer :=
  match conns s !! connID with
  | Some _ => Some (mkServer (delete connID (conns s)) (nextConnID s) (remoteIp s) (watchers s) (srv_killed s))
  | None => None
  end.

Definition killBcchain (s : SocketServer) : SocketServer :=
  mkServer (conns s) (nextConnID s) (remoteIp s) (watchers s) true.

(** One round of [acceptConnectionsRoutine] with a connection from [addr]. *)
Definition accept (addr : list Z) (s : SocketServer) : SocketServer :=
  if srv_killed s then s else
  let currentRemoteIp := remote_host addr in
  let go s := if bool_decide (size (conns s) = 3%nat) then killBcchain s else addConn addr s in
  if str_eqb (remoteIp s) [] then
    go (mkServer (conns s) (nextConnID s) currentRemoteIp (S (watchers s)) (srv_killed s))
  else if negb (str_eqb currentRemoteIp (remoteIp s)) then s
  else go s.

(** [waitForClose], once something arrives on the channel of the connection. *)
Definition waitForClose (connID : nat) (s : SocketServer) : SocketServer :=
  if srv_killed s then s else killBcchain (match rmConn connID s with Some s => s | None => s end).

End Server.
