(* ===== verification/AbciSpec.v ===== *)
(** The ABCI connection answers every request with what the application answers, in order.

    The argument is an invariant of [exec]: the requests are split into those answered, those the server has handled,
    those that are written and those that are queued, and each wire with the writer before it holds exactly the frames
    of its part ([line]).  A writer holds back only messages after the last flush, so a connection where nothing can
    run any more has no flush that waits. *)
From S2P Require Import Prelude GoStrings AbciWire Abci.
From stdpp Require Import base list.
Local Open Scope Z_scope.

(** ** A buffered line of frames *)

Lemma bufio_Write_app buf p buf' out : bufio_Write buf p = (buf', out) -> out ++ buf' = buf ++ p.
Proof.
  unfold bufio_Write. repeat case_match; intros [= <- <-]; rewrite ?app_nil_r; cbn [app]; rewrite ?app_nil_r, <- ?app_assoc, ?take_drop; done.
Qed.

Lemma bufio_Writes_app ws : forall buf buf' out, bufio_Writes buf ws = (buf', out) -> out ++ buf' = buf ++ concat ws.
Proof.
  induction ws as [|w ws IH]; intros buf buf' out; cbn.
  - intros [= <- <-]. by rewrite app_nil_r.
  - destruct (bufio_Write buf w) as [b1 o1] eqn:E1. destruct (bufio_Writes b1 ws) as [b2 o2] eqn:E2. intros [= <- <-].
    rewrite <- app_assoc, (IH _ _ _ E2), app_assoc, (bufio_Write_app _ _ _ _ E1). by rewrite <- app_assoc.
Qed.

Section Line.
Context {M : Type} (marshal : M -> option (list Z)) (unmarshal : list Z -> option M) (flushes : M -> bool).

Definition frames (ms : list M) : list Z := concat (map (frame marshal) ms).

(** The wire and the writer hold the frames of [msgs]; no flush is held back. *)
Definition line (wire buf : list Z) (msgs : list M) : Prop :=
  Forall (wire_ok marshal unmarshal) msgs /\
  exists u1 u2 x, msgs = u1 ++ u2 /\ wire = frames u1 ++ x /\ x ++ buf = frames u2 /\ Forall (fun m => flushes m = false) u2.

Lemma frames_app l k : frames (l ++ k) = frames l ++ frames k.
Proof. unfold frames. by rewrite map_app, concat_app. Qed.

Lemma frames_cons m l : frames (m :: l) = frame marshal m ++ frames l.
Proof. done. Qed.

Lemma frames_one m : frames [m] = frame marshal m.
Proof. apply app_nil_r. Qed.

Lemma line_bytes wire buf msgs : line wire buf msgs -> wire ++ buf = frames msgs.
Proof. intros (_ & u1 & u2 & x & -> & -> & E & _). by rewrite frames_app, <- app_assoc, E. Qed.

(** Writing a message, flushed when it is a flush. *)
Lemma line_write wire buf msgs m ws buf' out : line wire buf msgs -> wire_ok marshal unmarshal m ->
  concat ws = frame marshal m -> bufio_Writes buf ws = (buf', out) ->
  let '(b, o) := if flushes m then ([], out ++ buf') else (buf', out) in line (wire ++ o) b (msgs ++ [m]).
Proof.
  intros L Hm Hws E. pose proof (line_bytes _ _ _ L) as B. destruct L as (Hok & u1 & u2 & x & -> & -> & Ex & Hu).
  apply bufio_Writes_app in E. rewrite Hws in E.
  assert (Forall (wire_ok marshal unmarshal) ((u1 ++ u2) ++ [m])) as Hok' by (apply Forall_app; auto).
  destruct (flushes m) eqn:Ef; (split; [done|]).
  - exists ((u1 ++ u2) ++ [m]), [], []. split_and!; [by rewrite app_nil_r| |done|constructor].
    rewrite !frames_app, E, app_nil_r, frames_one, <- Ex, <- !app_assoc. done.
  - exists u1, (u2 ++ [m]), (x ++ out). split_and!; [by rewrite app_assoc|by rewrite app_assoc| |].
    + by rewrite frames_app, <- Ex, <- !app_assoc, E, frames_one.
    + apply Forall_app; auto.
Qed.

(** Reading: the first message, or nothing when no flush is on the line. *)
Lemma line_read wire buf msgs : line wire buf msgs ->
  match ReadMessage unmarshal wire with
  | Got m rest => exists msgs', msgs = m :: msgs' /\ line rest buf msgs'
  | More => Forall (fun m => flushes m = false) msgs
  | Bad _ => False
  end.
Proof.
  intros (Hok & u1 & u2 & x & -> & -> & Ex & Hu). destruct u1 as [|m u1]; cbn [app].
  - change (frames []) with (@nil Z). cbn [app]. destruct u2 as [|m u2].
    { apply app_eq_nil in Ex as [-> ->]. by cbn. }
    inversion Hok as [|? ? Hm Hok']; subst. rewrite frames_cons in Ex.
    apply app_eq_app in Ex as (l & [[E1 E2]|[E1 E2]]).
    + subst x. rewrite ReadMessage_frame by done. exists u2. split; [done|]. split; [done|]. exists [], u2, l.
      inversion Hu; subst. by split_and!.
    + destruct l as [|b l].
      * rewrite app_nil_r in E1. cbn in E2. subst x buf.
        rewrite <- (app_nil_r (frame marshal m)), ReadMessage_frame by done. exists u2. split; [done|]. split; [done|].
        exists [], u2, []. inversion Hu; subst. by split_and!.
      * by rewrite (ReadMessage_part _ _ _ _ _ Hm E1).
  - inversion Hok as [|? ? Hm Hok']; subst. rewrite frames_cons, <- app_assoc, ReadMessage_frame by done.
    exists (u1 ++ u2). split; [done|]. split; [done|]. exists u1, u2, x. by split_and!.
Qed.

Lemma line_nil : line [] [] [].
Proof. split; [constructor|]. exists [], [], []. by split_and!. Qed.
End Line.

(** ** The responses of the application *)

Section App.
Context {S : Type} (app : Application S) (addr : list Z).

(** The specification of the connection: the requests handled one after the other. *)
Fixpoint serve (reqs : list Request) (s : S) : option (list Response * S) :=
  match reqs with
  | [] => Some ([], s)
  | r :: reqs => match handleRequest app addr r s with
                 | Some (res, s) => match serve reqs s with Some (out, s) => Some (res :: out, s) | None => None end
                 | None => None
                 end
  end.

Lemma serve_app a b : forall s out s1, serve a s = Some (out, s1) ->
  serve (a ++ b) s = match serve b s1 with Some (out', s2) => Some (out ++ out', s2) | None => None end.
Proof.
  induction a as [|r a IH]; intros s out s1; cbn.
  - intros [= <- <-]. by destruct (serve b s) as [[]|].
  - destruct (handleRequest app addr r s) as [[res s']|]; [|done]. destruct (serve a s') as [[o s2]|] eqn:E; [|done].
    intros [= <- <-]. rewrite (IH _ _ _ E). by destruct (serve b s2) as [[]|].
Qed.

(** The response of the server is of the kind the client expects. *)
Lemma handle_matches v s res s' : handleRequest app addr (mkRequest (Some v)) s = Some (res, s') ->
  resMatchesReq (mkRequest (Some v)) res = true /\ is_flush_res res = is_flush_req (mkRequest (Some v)) /\
  (forall e, Response_Value res <> Some (Response_Exception e)).
Proof.
  destruct v; cbn; unfold reply; repeat case_match; intros [= <- <-] || done; done.
Qed.
End App.

(** ** The invariant *)

(** What an application and its clients promise to the connection: requests of the kind [allowed] cross the wire, and
    from a state of [Inv] the application answers them, without a panic, with responses that cross the wire. *)
Class Serves `{Proto} {S} (app : Application S) (addr : list Z) (Inv : S -> Prop) (allowed : isRequest_Value -> Prop) : Prop := {
  serves_flush : allowed (Request_Flush mkRequestFlush);
  serves_request : forall v, allowed v -> wire_ok MarshalRequest UnmarshalRequest (mkRequest (Some v));
  serves_response : forall v s, allowed v -> Inv s -> exists res s',
    handleRequest app addr (mkRequest (Some v)) s = Some (res, s') /\ Inv s' /\ wire_ok MarshalResponse UnmarshalResponse res
}.

Definition opt_list {A} (o : option A) : list A := match o with Some a => [a] | None => [] end.

Section Pipeline.
Context `{Proto} {S : Type} (app : Application S) (addr : list Z) (Inv : S -> Prop) (allowed : isRequest_Value -> Prop).
Context `{!Serves app addr Inv allowed} (s0 : S).
Implicit Types s : Conn S.

Definition answered_rr (r : ReqRes) (p : Request * Response) : Prop :=
  rr_Request r = p.1 /\ rr_Response r = Some p.2 /\ rr_wait r = 0.
Definition pending_rr (r : ReqRes) (q : Request) : Prop := rr_Request r = q /\ rr_Response r = None /\ rr_wait r = 1.
Definition fits (p : Request * Response) : Prop :=
  resMatchesReq p.1 p.2 = true /\ is_flush_res p.2 = is_flush_req p.1 /\
  (forall e, Response_Value p.2 <> Some (Response_Exception e)) /\ wire_ok MarshalResponse UnmarshalResponse p.2.
Definition allowed_req (r : Request) : Prop := exists v, r = mkRequest (Some v) /\ allowed v.

(** The client: the requests answered, in flight ([fly], handled by the server or not) and queued. *)
Record client_ok (c : socketClient) (ans : list (Request * Response)) (fly queued : list Request) : Prop := {
  co_err : running c = true /\ cli_err c = None /\ killed c = false;
  co_store : exists r1 r2, reqres c = r1 ++ r2 /\ Forall2 answered_rr r1 ans /\ Forall2 pending_rr r2 (fly ++ queued);
  co_done : Forall (fun r => rr_done r = false) (reqres c);
  co_sent : reqSent c = seq (length ans) (length fly);
  co_queue : reqQueue c = seq (length ans + length fly) (length queued)
}.

Record conn_ok s (ans proc : list (Request * Response)) (sent queued : list Request) : Prop := {
  co_alive : sender s = true /\ receiver s = true /\ closed s = false /\ crashed s = false;
  co_cli : client_ok (cli s) ans (map fst proc ++ sent) queued;
  co_allowed : Forall allowed_req (map fst (ans ++ proc) ++ sent ++ queued);
  co_serve : serve app addr (map fst (ans ++ proc)) s0 = Some (map snd (ans ++ proc), app_state s) /\ Inv (app_state s);
  co_fits : Forall fits (ans ++ proc);
  co_c2s : line MarshalRequest UnmarshalRequest is_flush_req (c2s s) (cli_w s) sent;
  co_s2c : exists p1, map snd proc = p1 ++ responses s ++ opt_list (hand s) /\
             line MarshalResponse UnmarshalResponse is_flush_res (s2c s) (srv_w s) p1
}.

Lemma dial_ok : Inv s0 -> conn_ok (dial s0) [] [] [] [].
Proof.
  intros Hi. split; cbn; try done.
  - split; cbn; try done. exists [], []. by repeat constructor.
  - apply line_nil.
  - exists []. split; [done|apply line_nil].
Qed.

Lemma client_length c ans fly queued : client_ok c ans fly queued -> length (reqres c) = (length ans + length fly + length queued)%nat.
Proof.
  intros [_ (r1 & r2 & -> & H1%Forall2_length & H2%Forall2_length) _ _ _]. rewrite length_app in *. lia.
Qed.

(** The client alone. *)
Lemma queueRequest_ok c ans fly queued v id c' : client_ok c ans fly queued ->
  queueRequest (mkRequest (Some v)) c = Some (id, c') ->
  id = (length ans + length fly + length queued)%nat /\ client_ok c' ans fly (queued ++ [mkRequest (Some v)]).
Proof.
  intros C. pose proof (client_length _ _ _ _ C) as Hl. destruct C as [He (r1 & r2 & Hs & H1 & H2) Hd Hsn Hq].
  unfold queueRequest. destruct (_ <? _)%nat; [|done]. intros [= <- <-]. split; [done|]. split; cbn; try done.
  - exists r1, (r2 ++ [NewReqRes (mkRequest (Some v))]). rewrite Hs, app_assoc. split_and!; [done..|].
    rewrite app_assoc. apply Forall2_app; [done|]. by repeat constructor.
  - apply Forall_app. split; [done|]. by repeat constructor.
  - rewrite Hq, Hl, length_app. cbn. by rewrite Nat.add_1_r, seq_S.
Qed.

Lemma SetCallback_ok r cb : rr_done r = false -> exists r', SetCallback cb r = (r', None) /\ rr_done r' = false /\
  rr_Request r' = rr_Request r /\ rr_Response r' = rr_Response r /\ rr_wait r' = rr_wait r.
Proof. intros E. unfold SetCallback. rewrite E. eexists. split; [done|]. by cbn. Qed.

(** A callback does not change what the client knows of a request. *)
Definition same_rr (r r' : ReqRes) : Prop :=
  rr_Request r' = rr_Request r /\ rr_Response r' = rr_Response r /\ rr_wait r' = rr_wait r /\ rr_done r' = rr_done r.

Lemma same_answered r r' p : same_rr r r' -> answered_rr r p -> answered_rr r' p.
Proof. intros (E1 & E2 & E3 & _) (? & ? & ?). repeat split; congruence. Qed.
Lemma same_pending r r' q : same_rr r r' -> pending_rr r q -> pending_rr r' q.
Proof. intros (E1 & E2 & E3 & _) (? & ? & ?). repeat split; congruence. Qed.

Lemma Forall2_insert_r {A B} (P : A -> B -> Prop) (l : list A) k (i : nat) x x' : Forall2 P l k -> l !! i = Some x ->
  (forall y, P x y -> P x' y) -> Forall2 P (<[i := x']> l) k.
Proof.
  intros HF. revert i. induction HF as [|a b l k Hab HF IH]; intros [|i]; cbn; try done.
  - intros [= ->] HP. constructor; auto.
  - intros Hl HP. constructor; auto.
Qed.

Lemma callback_ok c ans fly queued id r r' log : client_ok c ans fly queued -> reqres c !! id = Some r -> same_rr r r' ->
  client_ok (mkClient (<[id := r']> (reqres c)) (reqQueue c) (reqSent c) (cli_err c) (running c) (killed c) (resCb c) log) ans fly queued.
Proof.
  intros [He (r1 & r2 & Hs & H1 & H2) Hd Hsn Hq] Hr Hsame. split; cbn; try done.
  - rewrite Hs in *. destruct (decide (id < length r1)%nat) as [Hi|Hi].
    + rewrite lookup_app_l in Hr by done. exists (<[id := r']> r1), r2. rewrite insert_app_l by done. split_and!; [done| |done].
      eapply Forall2_insert_r; eauto using same_answered.
    + rewrite lookup_app_r in Hr by lia. exists r1, (<[(id - length r1)%nat := r']> r2).
      rewrite insert_app_r_alt by lia. split_and!; [done..|]. eapply Forall2_insert_r; eauto using same_pending.
  - apply Forall_insert; [done|]. destruct Hsame as (_ & _ & _ & ->). exact (Forall_lookup_1 _ _ _ _ Hd Hr).
Qed.

(** The next request leaves the queue. *)
Lemma willSend_ok c ans fly queued id q : client_ok c ans fly queued -> reqQueue c = id :: q ->
  exists m queued' r, queued = m :: queued' /\ reqres c !! id = Some r /\ rr_Request r = m /\
    client_ok (willSendReq id (mkClient (reqres c) q (reqSent c) (cli_err c) (running c) (killed c) (resCb c) (calls c)))
              ans (fly ++ [m]) queued'.
Proof.
  intros [He (r1 & r2 & Hs & H1 & H2) Hd Hsn Hq] E. rewrite Hq in E. destruct queued as [|m queued]; [done|].
  injection E as <- <-. pose proof (Forall2_length _ _ _ H1) as L1.
  apply Forall2_app_inv_r in H2 as (r2a & r2b & H2a & H2b & ->). pose proof (Forall2_length _ _ _ H2a) as L2.
  apply Forall2_cons_inv_r in H2b as (r & r2c & Hr & H2c & ->).
  exists m, queued, r. split_and!; [done| |apply Hr|].
  - rewrite Hs, lookup_app_r, lookup_app_r by lia. by replace (_ - _ - _)%nat with 0%nat by lia.
  - split; cbn; try done.
    + exists r1, (r2a ++ r :: r2c). split_and!; [done..|]. rewrite <- app_assoc. apply Forall2_app; [done|]. by constructor.
    + rewrite Hsn, length_app. cbn. by rewrite Nat.add_1_r, seq_S.
    + rewrite length_app. cbn. f_equal. lia.
Qed.

(** The response of the first request in flight. *)
Lemma didRecv_ok c ans m fly queued res : client_ok c ans (m :: fly) queued -> resMatchesReq m res = true ->
  exists c', didRecvResponse res c = Ok c' /\ client_ok c' (ans ++ [(m, res)]) fly queued.
Proof.
  intros [He (r1 & r2 & Hs & H1 & H2) Hd Hsn Hq] Hm. unfold didRecvResponse. rewrite Hsn. cbn [length seq].
  pose proof (Forall2_length _ _ _ H1) as L1. cbn in H2. apply Forall2_cons_inv_r in H2 as (r & r3 & (Hr1 & Hr2 & Hr3) & H3 & ->).
  assert (reqres c !! length ans = Some r) as Hl.
  { rewrite Hs, lookup_app_r by lia. by replace (_ - _)%nat with 0%nat by lia. }
  rewrite Hl, Hr1, Hm. unfold Done. cbn [SetResponse rr_wait]. rewrite Hr3. cbn.
  eexists. split; [done|]. split; cbn; try done.
  - rewrite Hs, insert_app_r_alt by lia. replace (_ - _)%nat with 0%nat by lia. cbn.
    eexists (r1 ++ [_]), r3. rewrite <- app_assoc. split_and!; [done| |done]. apply Forall2_app; [done|]. by repeat constructor.
  - apply Forall_insert; [done|]. exact (Forall_lookup_1 _ _ _ _ Hd Hl).
  - rewrite length_app. cbn. f_equal. lia.
  - rewrite length_app, Hq. cbn. f_equal. lia.
Qed.

(** ** Every step keeps it *)

Definition weight s (proc : list (Request * Response)) (sent queued : list Request) : nat :=
  5 * length queued + 4 * length sent + length proc + length (responses s) + 2 * length (opt_list (hand s)).

(** The client is not stopped, and its requests are those the server and the application are known to handle. *)
Definition label_ok (l : label) : Prop := match l with LQueue v => allowed v | LStop => False | _ => True end.
Definition internal (l : label) : bool := match l with LSend | LHandle | LPush | LRespond | LRecv => true | _ => false end.

Definition moved (l : label) s s' (ans proc : list (Request * Response)) (sent queued : list Request) : Prop :=
  exists ans' proc' sent' queued', conn_ok s' ans' proc' sent' queued' /\
    (internal l = true -> weight s proc sent queued = Datatypes.S (weight s' proc' sent' queued') /\
       map fst (ans ++ proc) ++ sent ++ queued = map fst (ans' ++ proc') ++ sent' ++ queued').

Lemma co_wire s ans proc sent queued m : conn_ok s ans proc sent queued -> m ∈ sent ++ queued ->
  wire_ok MarshalRequest UnmarshalRequest m /\ exists v, m = mkRequest (Some v) /\ allowed v.
Proof.
  intros [_ _ Ha _ _ _ _] Hm. rewrite Forall_forall in Ha. destruct (Ha m) as (v & -> & Hv); [apply elem_of_app; auto|].
  split; [by eapply serves_request|eauto].
Qed.

Lemma queue_ok s ans proc sent queued v c' : conn_ok s ans proc sent queued -> allowed v ->
  client_ok c' ans (map fst proc ++ sent) (queued ++ [mkRequest (Some v)]) -> conn_ok (with_cli c' s) ans proc sent (queued ++ [mkRequest (Some v)]).
Proof.
  intros [Hal Hc Ha Hsv Hf H1 H2] Hv Hc'. split; cbn; try done. rewrite !app_assoc in *. apply Forall_app. split; [done|].
  repeat constructor. by exists v.
Qed.

Lemma conn_send_ok s s' ans proc sent queued : conn_ok s ans proc sent queued -> send_iter s = Some s' -> moved LSend s s' ans proc sent queued.
Proof.
  intros C. destruct (C) as [(Hsnd & Hrcv & Hcl & Hcr) Hc Ha Hsv Hf H1 H2]. unfold send_iter. rewrite Hsnd. cbn [negb].
  destruct (reqQueue (cli s)) as [|id q] eqn:Eq; [done|].
  destruct (willSend_ok _ _ _ _ _ _ Hc Eq) as (m & queued' & r & -> & -> & Hr & Hc'). rewrite Hr.
  destruct (co_wire _ _ _ _ _ m C) as [Hw (v & Hv & Hvv)]; [apply elem_of_app; right; left|].
  destruct (WriteMessage_frame _ _ _ Hw) as (ws & -> & Hws). destruct (bufio_Writes (cli_w s) ws) as [b o] eqn:Eb.
  pose proof (line_write _ _ _ _ _ _ _ _ _ _ H1 Hw Hws Eb) as L. rewrite <- app_assoc in Hc'.
  destruct (if is_flush_req m then _ else _) as [b' o'].
  replace (running (willSendReq _ _)) with true by (symmetry; apply (co_err _ _ _ _ Hc)). cbn [orb]. intros [= <-].
  exists ans, proc, (sent ++ [m]), queued'. split.
  2: { intros _. split; [unfold weight; cbn; rewrite length_app; cbn; lia|]. by rewrite <- (app_assoc sent). }
  split; cbn; try done. by rewrite <- app_assoc.
Qed.

Lemma handle_ok s s' ans proc sent queued : conn_ok s ans proc sent queued -> handle_iter app addr s = Some s' -> moved LHandle s s' ans proc sent queued.
Proof.
  intros C. destruct (C) as [(Hsnd & Hrcv & Hcl & Hcr) Hc Ha [Hsv Hi] Hf H1 (p1 & Hp & H2)]. unfold handle_iter. rewrite Hcl.
  destruct (hand s) eqn:Eh; [done|]. pose proof (line_read _ _ _ _ _ _ H1) as L.
  destruct (ReadMessage UnmarshalRequest (c2s s)) as [| |m rest]; [done|done|]. destruct L as (sent' & -> & L).
  destruct (co_wire _ _ _ _ _ m C) as [Hw (v & -> & Hvv)]; [apply elem_of_app; left; left|].
  destruct (serves_response (Inv := Inv) v (app_state s) Hvv Hi) as (res & st & Hh & Hi' & Hwr). rewrite Hh. intros [= <-].
  exists ans, (proc ++ [(mkRequest (Some v), res)]), sent', queued. split.
  2: { intros _. split; [unfold weight; cbn; rewrite Eh, length_app; cbn; lia|]. rewrite (app_assoc ans), (map_app _ (ans ++ proc)). by rewrite <- (app_assoc (map fst (ans ++ proc))). }
  pose proof (app_assoc ans proc [(mkRequest (Some v), res)]) as Ea. split; cbn; rewrite ?Ea; try done.
  - by rewrite map_app, <- app_assoc.
  - by rewrite (map_app _ (ans ++ proc)), <- app_assoc.
  - split; [|done]. rewrite !(map_app _ (ans ++ proc)), (serve_app _ _ _ _ _ _ _ Hsv). cbn [map fst snd serve]. by rewrite Hh.
  - apply Forall_app. split; [done|]. repeat constructor; cbn; [..|done]; apply (handle_matches _ _ _ _ _ _ Hh).
  - exists p1. split; [|done]. rewrite map_app, Hp. cbn. by rewrite app_nil_r, <- app_assoc.
Qed.

Lemma push_ok s s' ans proc sent queued : conn_ok s ans proc sent queued -> push_iter s = Some s' -> moved LPush s s' ans proc sent queued.
Proof.
  intros [Hal Hc Ha Hsv Hf H1 (p1 & Hp & H2)]. unfold push_iter. destruct (hand s) as [res|] eqn:Eh; [|done].
  destruct (_ <? _)%nat; [|done]. intros [= <-]. exists ans, proc, sent, queued. split.
  2: { intros _. split; [|done]. unfold weight. cbn. rewrite Eh, length_app. cbn. lia. }
  split; cbn; try done. exists p1. split; [|done]. rewrite Hp. cbn. by rewrite app_nil_r.
Qed.

Lemma respond_ok s s' ans proc sent queued : conn_ok s ans proc sent queued -> respond_iter s = Some s' -> moved LRespond s s' ans proc sent queued.
Proof.
  intros [(Hsnd & Hrcv & Hcl & Hcr) Hc Ha Hsv Hf H1 (p1 & Hp & H2)]. unfold respond_iter. rewrite Hcl.
  destruct (responses s) as [|res rs] eqn:Er; [done|].
  assert (wire_ok MarshalResponse UnmarshalResponse res) as Hw.
  { assert (res ∈ map snd proc) as Hin by (rewrite Hp; apply elem_of_app; right; left).
    apply list_elem_of_fmap in Hin as (p & -> & Hin). rewrite Forall_forall in Hf. apply (Hf p). apply elem_of_app; auto. }
  destruct (WriteMessage_frame _ _ _ Hw) as (ws & -> & Hws). destruct (bufio_Writes (srv_w s) ws) as [b o] eqn:Eb.
  pose proof (line_write _ _ _ _ _ _ _ _ _ _ H2 Hw Hws Eb) as L. destruct (if is_flush_res res then _ else _) as [b' o'].
  intros [= <-]. exists ans, proc, sent, queued. split; [|intros _; split; [|done]; unfold weight; cbn; rewrite Er; cbn; lia].
  split; cbn; try done. exists (p1 ++ [res]). split; [|done]. rewrite Hp. by rewrite <- app_assoc.
Qed.

Lemma recv_ok s s' ans proc sent queued : conn_ok s ans proc sent queued -> recv_iter s = Some s' -> moved LRecv s s' ans proc sent queued.
Proof.
  intros [(Hsnd & Hrcv & Hcl & Hcr) Hc Ha Hsv Hf H1 (p1 & Hp & H2)]. unfold recv_iter. rewrite Hrcv, Hcl. cbn [negb].
  pose proof (line_read _ _ _ _ _ _ H2) as L. destruct (ReadMessage UnmarshalResponse (s2c s)) as [| |res rest]; [done|done|].
  destruct L as (p1' & -> & L). destruct proc as [|[m res'] proc]; [done|]. injection Hp as -> Hp. cbn [map fst Datatypes.app] in Hc.
  assert (fits (m, res)) as (Hm & _ & He & _) by (rewrite Forall_forall in Hf; apply Hf, elem_of_app; right; left).
  cbn in Hm, He. destruct (didRecv_ok _ _ _ _ _ _ Hc Hm) as (c' & Hd & Hc').
  replace (ans ++ (m, res) :: proc) with ((ans ++ [(m, res)]) ++ proc) in * by by rewrite <- app_assoc.
  destruct (Response_Value res) as [[]|] eqn:E; [by destruct (He x)|..]; (cbn [cli]; rewrite Hd; intros [= <-];
    exists (ans ++ [(m, res)]), proc, sent, queued; split; [|intros _; split; [unfold weight; cbn; lia|by rewrite <- (app_assoc ans)]]; split; cbn; try done; eauto).
Qed.

Lemma conn_exec_ok l s s' ans proc sent queued : conn_ok s ans proc sent queued -> label_ok l -> l <> LTimeout -> exec app addr l s = Some s' ->
  moved l s s' ans proc sent queued.
Proof.
  intros C Hl Ht. destruct (C) as [(Hsnd & Hrcv & Hcl & Hcr) Hc Ha Hsv Hf H1 H2]. unfold exec. rewrite Hcr, ?Hcl.
  assert (forall c', client_ok c' ans (map fst proc ++ sent) queued -> conn_ok (with_cli c' s) ans proc sent queued) as Hwith by (by split).
  assert (forall v id c', allowed v -> queueRequest (mkRequest (Some v)) (cli s) = Some (id, c') ->
    exists ans' proc' sent' queued', conn_ok (with_cli c' s) ans' proc' sent' queued') as Hqueue.
  { intros v id c' Hv [_ E]%(queueRequest_ok _ _ _ _ _ _ _ Hc). eauto 6 using queue_ok. }
  destruct (co_err _ _ _ _ Hc) as (Hrun & _ & _).
  destruct l as [v|id cb|cb| | | | | | | | | | | |]; cbn in Hl; try done; unfold moved; cbn [internal].
  - destruct (queueRequest _ _) as [[id c']|] eqn:E; [|done]. intros [= <-]. destruct (Hqueue _ _ _ Hl E) as (? & ? & ? & ? & ?). do 4 eexists. by split.
  - destruct (reqres (cli s) !! id) as [r|] eqn:Er; [|done].
    destruct (SetCallback_ok r cb) as (r' & -> & Hd & ? & ? & ?); [exact (Forall_lookup_1 _ _ _ _ (co_done _ _ _ _ Hc) Er)|].
    intros [= <-]. do 4 eexists. split; [|done]. apply Hwith. eapply callback_ok; [done..|].
    repeat split; try done. rewrite Hd. symmetry. exact (Forall_lookup_1 _ _ _ _ (co_done _ _ _ _ Hc) Er).
  - intros [= <-]. do 4 eexists. split; [|done]. apply Hwith. by destruct Hc.
  - rewrite Hsnd. destruct (queueRequest _ _) as [[id c']|] eqn:E; intros [= <-]; [|by exists ans, proc, sent, queued].
    destruct (Hqueue _ _ _ (serves_flush (addr := addr) (Inv := Inv)) E) as (? & ? & ? & ? & ?). do 4 eexists. by split.
  - by apply (conn_send_ok _ _ ans).
  - by apply (handle_ok _ _ ans).
  - by apply (push_ok _ _ ans).
  - by apply (respond_ok _ _ ans).
  - by apply (recv_ok _ _ ans).
  - by rewrite Hrun, andb_false_r.
  - by rewrite Hrun, andb_false_r.
  - intros [= <-]. exists ans, proc, sent, queued. split; [by split|done].
  - intros [= <-]. exists ans, proc, sent, queued. split; [by split|done].
Qed.

(** The server reads a request at least every 600 seconds: [idle] have passed since the last. *)
Fixpoint attended (idle : Z) (ls : list label) : bool :=
  match ls with
  | [] => true
  | LClock :: ls => (idle + 1 <? watch_limit) && attended (idle + 1) ls
  | LHandle :: ls | LOther :: ls => attended 0 ls
  | _ :: ls => attended idle ls
  end.

Lemma internal_attended ls : Forall (fun l => internal l = true) ls -> forall m, attended m ls = true.
Proof. induction 1 as [|l ls Hl _ IH]; intros m; [done|]. destruct l; try done; apply IH. Qed.

Lemma set_cli_watch (c : option socketClient) s : watch (set_cli c s) = watch s.
Proof. by destruct c. Qed.

(** What a step does to the watchdog. *)
Lemma exec_watch l s s' n ls : exec app addr l s = Some s' -> closed s' = false -> crashed s' = false -> watch s = Some n -> 0 <= n < watch_limit ->
  attended n (l :: ls) = true -> exists m, watch s' = Some m /\ 0 <= m < watch_limit /\ attended m ls = true.
Proof.
  intros E Hcl Hcr Hw Hn. assert (0 <= 0 < watch_limit) as H0 by done. unfold exec in E. destruct (crashed s); [done|].
  destruct l as [v|id cb|cb| | | | | | | | | | | |]; cbn [attended]; intros Ha.
  - destruct (queueRequest _ _) as [[]|]; [|done]. injection E as <-. eauto.
  - destruct (reqres _ !! _); [|done]. destruct (SetCallback _ _). injection E as <-. eauto.
  - injection E as <-. eauto.
  - destruct (sender s); [|done]. destruct (queueRequest _ _) as [[]|]; injection E as <-; eauto.
  - unfold send_iter in E. repeat (case_match; try done); injection E as <-; rewrite ?set_cli_watch; cbn; eauto.
  - unfold handle_iter in E. repeat (case_match; try done); injection E as <-; try done. cbn. rewrite Hw. eauto.
  - unfold push_iter in E. repeat (case_match; try done); injection E as <-; cbn; eauto.
  - unfold respond_iter in E. repeat (case_match; try done); injection E as <-; cbn; eauto.
  - unfold recv_iter in E. repeat (case_match; try done); injection E as <-; rewrite ?set_cli_watch; cbn; eauto.
  - injection E as <-. rewrite set_cli_watch. eauto.
  - case_match; [|done]. injection E as <-. eauto.
  - case_match; [|done]. injection E as <-. eauto.
  - case_match; [done|]. injection E as <-. apply andb_true_iff in Ha as [Ha%Z.ltb_lt Ha']. exists (n + 1). cbn. rewrite Hw. cbn.
    rewrite (proj2 (Z.leb_gt _ _)) by lia. split_and!; [done|lia|lia|done].
  - case_match; [done|]. injection E as <-. cbn. rewrite Hw. eauto.
  - case_match; [done|]. by rewrite Hw in E.
Qed.

Lemma run_conn_ok ls : forall s s' n ans proc sent queued, conn_ok s ans proc sent queued -> Forall label_ok ls ->
  watch s = Some n -> 0 <= n < watch_limit -> attended n ls = true ->
  run app addr ls s = Some s' ->
  exists ans' proc' sent' queued' m, conn_ok s' ans' proc' sent' queued' /\ watch s' = Some m /\ 0 <= m < watch_limit.
Proof.
  induction ls as [|l ls IH]; intros s s' n ans proc sent queued C Hls Hw Hn Ha; cbn [run].
  - intros [= <-]. by exists ans, proc, sent, queued, n.
  - inversion_clear Hls. destruct (exec app addr l s) as [s1|] eqn:E; [|done].
    assert (l <> LTimeout) as Ht.
    { intros ->. unfold exec in E. rewrite Hw in E. by destruct (crashed s), (closed s). }
    destruct (conn_exec_ok _ _ _ _ _ _ _ C H0 Ht E) as (? & ? & ? & ? & C1 & _).
    destruct (co_alive _ _ _ _ _ C1) as (_ & _ & Hcl & Hcr). destruct (exec_watch _ _ _ _ _ E Hcl Hcr Hw Hn Ha) as (m & Hm & Hn' & Ha').
    by eapply IH.
Qed.

(** ** Progress *)

Definition idle s : Prop := forall l, internal l = true -> exec app addr l s = None.

(** When an iteration does not wait. *)
Lemma send_enabled s id q r : sender s = true -> reqQueue (cli s) = id :: q -> reqres (cli s) !! id = Some r -> send_iter s <> None.
Proof.
  intros Hs Hq Hr. unfold send_iter. rewrite Hs, Hq, Hr. cbn [negb]. destruct (WriteMessage _ _); [|done].
  destruct (bufio_Writes _ _). destruct (if is_flush_req _ then _ else _). by destruct (_ || _).
Qed.

Lemma handle_enabled s m rest : closed s = false -> hand s = None -> ReadMessage UnmarshalRequest (c2s s) = Got m rest ->
  handle_iter app addr s <> None.
Proof. intros Hc Hh Hr. unfold handle_iter. rewrite Hc, Hh, Hr. by destruct (handleRequest _ _ _ _) as [[]|]. Qed.

Lemma respond_enabled s : closed s = false -> responses s <> [] -> respond_iter s <> None.
Proof.
  intros Hc Hr. unfold respond_iter. rewrite Hc. destruct (responses s); [done|]. destruct (WriteMessage _ _); [|done].
  destruct (bufio_Writes _ _). by destruct (if is_flush_res _ then _ else _).
Qed.

Lemma recv_enabled s m rest : receiver s = true -> ReadMessage UnmarshalResponse (s2c s) = Got m rest -> recv_iter s <> None.
Proof.
  intros Hc Hr. unfold recv_iter. rewrite Hc, Hr. cbn [negb].
  destruct (Response_Value m) as [[]|]; try done; by destruct (didRecvResponse _ _).
Qed.

(** Nothing can run: no flush waits. *)
Lemma idle_ok s ans proc sent queued : conn_ok s ans proc sent queued -> idle s ->
  Forall (fun m => is_flush_req m = false) (map fst proc ++ sent ++ queued).
Proof.
  intros [(Hsnd & Hrcv & Hcl & Hcr) Hc Ha Hsv Hf H1 (p1 & Hp & H2)] Hidle.
  pose proof (Hidle LSend eq_refl) as X1. pose proof (Hidle LHandle eq_refl) as X2. pose proof (Hidle LPush eq_refl) as X3.
  pose proof (Hidle LRespond eq_refl) as X4. pose proof (Hidle LRecv eq_refl) as X5. clear Hidle.
  unfold exec in *. rewrite Hcr in *.
  assert (responses s = []) as Er. { destruct (responses s) eqn:E; [done|]. by destruct (respond_enabled s Hcl ltac:(by rewrite E)). }
  assert (hand s = None) as Eh. { unfold push_iter in X3. destruct (hand s); [|done]. by rewrite Er in X3. }
  rewrite Er, Eh, app_nil_r in Hp. assert (queued = []) as ->.
  { destruct (reqQueue (cli s)) as [|id q] eqn:Eq.
    - pose proof (co_queue _ _ _ _ Hc) as E. rewrite Eq in E. by destruct queued.
    - destruct (willSend_ok _ _ _ _ _ _ Hc Eq) as (m & queued' & r & _ & Hr & _). by destruct (send_enabled _ _ _ _ Hsnd Eq Hr). }
  rewrite app_nil_r. apply Forall_app. split.
  - pose proof (line_read _ _ _ _ _ _ H2) as L. destruct (ReadMessage UnmarshalResponse (s2c s)) eqn:E;
      [|done|by destruct (recv_enabled _ _ _ Hrcv E)].
    rewrite <- Hp in L. rewrite Forall_map in *. apply Forall_app in Hf as [_ Hf].
    eapply Forall_impl; [exact (proj2 (Forall_and _ _) (conj Hf L))|]. cbn. intros p [(_ & <- & _) ?]. done.
  - pose proof (line_read _ _ _ _ _ _ H1) as L. destruct (ReadMessage UnmarshalRequest (c2s s)) eqn:E;
      [done|done|by destruct (handle_enabled _ _ _ Hcl Eh E)].
Qed.

(** Some schedule of the routines ends, and none is longer than the work there is. *)
Lemma internal_run ls : forall s s' ans proc sent queued, conn_ok s ans proc sent queued -> Forall (fun l => internal l = true) ls ->
  run app addr ls s = Some s' -> (length ls <= weight s proc sent queued)%nat.
Proof.
  induction ls as [|l ls IH]; intros s s' ans proc sent queued C Hls; cbn [run length]; [lia|].
  inversion_clear Hls as [|? ? Hl Hls']. destruct (exec app addr l s) as [s1|] eqn:E; [|done]. intros Hr.
  assert (label_ok l /\ l <> LTimeout) as [Hok Ht] by (by destruct l). destruct (conn_exec_ok _ _ _ _ _ _ _ C Hok Ht E) as (? & ? & ? & ? & C1 & Hw).
  rewrite (proj1 (Hw Hl)). apply le_n_S. by eapply IH.
Qed.

Lemma exec_dec s : idle s \/ exists l s', internal l = true /\ exec app addr l s = Some s'.
Proof.
  destruct (exec app addr LSend s) as [s'|] eqn:E1; [right; by exists LSend, s'|].
  destruct (exec app addr LHandle s) as [s'|] eqn:E2; [right; by exists LHandle, s'|].
  destruct (exec app addr LPush s) as [s'|] eqn:E3; [right; by exists LPush, s'|].
  destruct (exec app addr LRespond s) as [s'|] eqn:E4; [right; by exists LRespond, s'|].
  destruct (exec app addr LRecv s) as [s'|] eqn:E5; [right; by exists LRecv, s'|].
  left. by intros [].
Qed.

Definition requests s : list Request := map rr_Request (reqres (cli s)).

Lemma conn_requests s ans proc sent queued : conn_ok s ans proc sent queued -> requests s = map fst ans ++ map fst proc ++ sent ++ queued.
Proof.
  intros [_ [_ (r1 & r2 & Hs & H1 & H2) _ _ _] _ _ _ _ _]. unfold requests. rewrite Hs, map_app. rewrite <- app_assoc in H2. f_equal.
  - clear -H1. induction H1 as [|r p r1 ans (Hr & _) _ IH]; cbn; congruence.
  - clear -H2. induction H2 as [|r q r2 ? (Hr & _) _ IH]; cbn; congruence.
Qed.

(** The routines run until nothing can run, on the same requests. *)
Lemma internal_finish n : forall s ans proc sent queued, conn_ok s ans proc sent queued -> weight s proc sent queued = n ->
  exists ls s' ans' proc' sent' queued', Forall (fun l => internal l = true) ls /\ run app addr ls s = Some s' /\
    conn_ok s' ans' proc' sent' queued' /\ idle s' /\
    map fst (ans ++ proc) ++ sent ++ queued = map fst (ans' ++ proc') ++ sent' ++ queued'.
Proof.
  induction n as [|n IH]; intros s ans proc sent queued C Hw; (destruct (exec_dec s) as [Hi|(l & s1 & Hl & E)];
    [by exists [], s, ans, proc, sent, queued|]);
    (assert (label_ok l /\ l <> LTimeout) as [Hok Ht] by (by destruct l)); destruct (conn_exec_ok _ _ _ _ _ _ _ C Hok Ht E) as (a1 & p1 & x1 & q1 & C1 & [Hw1 Hr]%(fun f => f Hl)).
  - lia.
  - destruct (IH s1 a1 p1 x1 q1 C1 ltac:(lia)) as (ls & s' & a' & p' & x' & q' & Hls & Hrun & C' & Hi & Hr').
    exists (l :: ls), s', a', p', x', q'. cbn [run]. rewrite E. split_and!; [by constructor|done..|congruence].
Qed.

(** What the heap of the client shows. *)
Lemma client_lookup c ans fly queued i r : client_ok c ans fly queued -> reqres c !! i = Some r ->
  rr_Response r = (if decide (i < length ans)%nat then map snd ans !! i else None) /\
  rr_wait r = (if decide (i < length ans)%nat then 0 else 1) /\
  (forall res, rr_Response r = Some res -> (rr_Request r, res) ∈ ans).
Proof.
  intros [_ (r1 & r2 & -> & H1 & H2) _ _ _] Hr. pose proof (Forall2_length _ _ _ H1) as L1. destruct (decide (i < length ans)%nat) as [Hi|Hi].
  - rewrite lookup_app_l in Hr by lia. destruct (Forall2_lookup_l _ _ _ _ _ H1 Hr) as ([q res] & Hp & Hq & Hres & Hw). cbn in Hq, Hres.
    rewrite list_lookup_fmap, Hp, Hq. split_and!; [done..|]. rewrite Hres. intros ? [= <-]. by eapply list_elem_of_lookup_2.
  - rewrite lookup_app_r in Hr by lia. destruct (Forall2_lookup_l _ _ _ _ _ H2 Hr) as (q & _ & _ & -> & ->). done.
Qed.

Lemma serve_total reqs : forall s : S, Inv s -> Forall allowed_req reqs -> exists out st, serve app addr reqs s = Some (out, st).
Proof.
  induction reqs as [|r reqs IH]; intros s Hi Ha; cbn [serve]; [by eexists _, _|].
  inversion_clear Ha as [|? ? (v & -> & Hv) Ha']. destruct (serves_response (Inv := Inv) v s Hv Hi) as (res & s1 & -> & Hi1 & _).
  destruct (IH s1 Hi1 Ha') as (out & s' & ->). by eexists _, _.
Qed.

Lemma conn_observed s ans proc sent queued : conn_ok s ans proc sent queued ->
  exists out st, serve app addr (requests s) s0 = Some (out, st) /\
    forall i r, reqres (cli s) !! i = Some r ->
      rr_Response r = (if decide (i < length ans)%nat then out !! i else None) /\
      rr_wait r = (if decide (i < length ans)%nat then 0 else 1) /\
      (forall res, rr_Response r = Some res -> resMatchesReq (rr_Request r) res = true).
Proof.
  intros C. pose proof (conn_requests _ _ _ _ _ C) as Hr. destruct C as [_ Hc Ha [Hsv Hi] Hf _ _].
  apply Forall_app in Ha as [_ Ha]. destruct (serve_total _ _ Hi Ha) as (out & st & Ho).
  exists (map snd (ans ++ proc) ++ out), st. split.
  { rewrite Hr, app_assoc, <- map_app, (serve_app _ _ _ _ _ _ _ Hsv). by rewrite Ho. }
  intros i r Hl. destruct (client_lookup _ _ _ _ _ _ Hc Hl) as (H1 & H2 & H3). split_and!; [|done|].
  - rewrite H1. destruct (decide _) as [Hd|]; [|done]. rewrite map_app, <- app_assoc, lookup_app_l; [done|by rewrite length_map].
  - intros res Hres. rewrite Forall_forall in Hf. apply (Hf (rr_Request r, res)), elem_of_app; auto.
Qed.

(** Once nothing can run, a flush and all that came before it are released. *)
Lemma idle_released s ans proc sent queued i j m : conn_ok s ans proc sent queued -> idle s -> (i <= j)%nat ->
  requests s !! j = Some m -> is_flush_req m = true -> released i (cli s) = true.
Proof.
  intros C Hi Hij Hm Hf. pose proof (idle_ok _ _ _ _ _ C Hi) as Hn. pose proof (conn_requests _ _ _ _ _ C) as Hr.
  assert (j < length ans)%nat as Hj.
  { destruct (decide (j < length ans)%nat) as [|Hd]; [done|]. rewrite Hr, lookup_app_r in Hm by (rewrite length_map; lia).
    rewrite Forall_forall in Hn. rewrite (Hn m) in Hf; [done|]. by eapply list_elem_of_lookup_2. }
  pose proof (client_length _ _ _ _ (co_cli _ _ _ _ _ C)) as Hl. unfold released.
  destruct (reqres (cli s) !! i) as [r|] eqn:Er; [|apply lookup_ge_None in Er; lia].
  destruct (client_lookup _ _ _ _ _ _ (co_cli _ _ _ _ _ C) Er) as (_ & -> & _). by rewrite decide_True by lia.
Qed.

Lemma weight_bound s ans proc sent queued : conn_ok s ans proc sent queued -> (weight s proc sent queued <= 5 * length (requests s))%nat.
Proof.
  intros C. rewrite (conn_requests _ _ _ _ _ C). destruct C as [_ _ _ _ _ _ (p1 & Hp & _)]. apply (f_equal length) in Hp.
  rewrite !length_app, !length_map in *. unfold weight. lia.
Qed.
End Pipeline.
