(* ===== verification/AbciApps.v ===== *)
(** Applications behind the ABCI interface: [BaseApplication] (src/tendermint/abci/types/application.go) and the
    example applications counter/counter.go, kvstore/kvstore.go and kvstore/persistent_kvstore.go of
    src/tendermint/abci/example, each an instance of the [Application] record; and the local client
    (src/tendermint/abci/client/local_client.go), which calls an application without a wire.

    The stores are over any database of the [DB] interface.  encoding/json is class [Json]: the text of an [AppState] and
    of a saved [State], and the reader of the latter.  The protobuf encoding of a validator is [MarshalValidator], and
    the text of its error [marshal_error]. *)
From S2P Require Import Prelude GoStrings GoBytes GoText Db Tx AbciWire Abci.
From stdpp Require Import base list.
Local Open Scope Z_scope.

(** ** Zero values *)

Definition zero_Header : Header :=
  mkHeader [] 0 0 0 (mkBlockID [] (mkPartSetHeader 0 [])) [] [] [] [] 0 [] [] [] [] None [] 0 None None [].
Definition zero_BeginBlock : RequestBeginBlock := mkRequestBeginBlock [] zero_Header [] [].
Definition app_state_of (height : Z) (hash : list Z) : AppState := mkAppState height hash [] [] 0 0 zero_BeginBlock.

Definition CodeTypeOK : Z := 200.
Definition CodeTypeEncodingError : Z := 1.
Definition CodeTypeBadNonce : Z := 2.
Definition CodeTypeUnauthorized : Z := 3.

Definition deliver_code (code : Z) (log : list Z) (tags : list KVPair) : ResponseDeliverTx :=
  mkResponseDeliverTx code [] log [] 0 0 0 tags [] 0.
Definition check_code (code : Z) (log : list Z) : ResponseCheckTx := mkResponseCheckTx code [] log [] 0 0 0 [] [] 0.

(** [ResponseDeliverTx.IsOK] and [IsErr]. *)
Definition DeliverTx_IsOK (r : ResponseDeliverTx) : bool := ResponseDeliverTx_Code r =? CodeTypeOK.
Definition DeliverTx_IsErr (r : ResponseDeliverTx) : bool := negb (ResponseDeliverTx_Code r =? CodeTypeOK).

(** ** [BaseApplication] *)

Definition BaseApplication (S : Type) : Application S := {|
  app_Info req s := Some (mkResponseInfo [] [] 0 [], s);
  app_SetOption req s := Some (mkResponseSetOption CodeTypeOK [] [], s);
  app_Query req s := Some (mkResponseQuery CodeTypeOK [] [] 0 [] [] [] 0, s);
  app_QueryEx req s := Some (mkResponseQueryEx CodeTypeOK [] [] 0 [] [] 0, s);
  app_CheckTx tx s := Some (check_code CodeTypeOK [], s);
  app_InitChain req s := Some (mkResponseInitChain CodeTypeOK [] [], s);
  app_BeginBlock req s := Some (mkResponseBeginBlock CodeTypeOK [], s);
  app_DeliverTx tx s := Some (deliver_code CodeTypeOK [] [], s);
  app_EndBlock req s := Some (mkResponseEndBlock [] None 0 0 [], s);
  app_Commit s := Some (mkResponseCommit [], s);
  app_CleanData s := Some (mkResponseCleanData 0 [], s);
  app_GetGenesis s := Some (mkResponseGetGenesis 0 [] [], s);
  app_Rollback s := Some (mkResponseRollback 0 [], s)
|}.

Class Json := {
  json_AppState : AppState -> list Z;
  json_State : Z -> Z -> list Z -> list Z;
  json_UnState : list Z -> option (Z * Z * list Z)
}.

Definition AppStateToByte `{Json} (a : AppState) : list Z := json_AppState a.

(** ** counter.go *)

Module Counter.

Record CounterApplication := mkCounter { hashCount : Z; txCount : Z; serial : bool }.

Definition NewCounterApplication (serial : bool) : CounterApplication := mkCounter 0 0 serial.

(** [tx8], right-aligned, as a big-endian number. *)
Definition tx_value (tx : list Z) : Z := be_val (replicate (8 - length tx) 0 ++ tx).

Definition too_long (tx : list Z) : list Z := bs "Max tx size is 8 bytes, got " ++ Itoa (zlen tx).

Definition counter_Info (req : RequestInfo) (a : CounterApplication) : option (ResponseInfo * CounterApplication) :=
  Some (mkResponseInfo ([123; 34] ++ bs "hashes" ++ [34; 58] ++ Itoa (hashCount a) ++ [44; 34] ++ bs "txs" ++ [34; 58]
                        ++ Itoa (txCount a) ++ [125]) [] 0 [], a).

Definition counter_SetOption (req : RequestSetOption) (a : CounterApplication) : option (ResponseSetOption * CounterApplication) :=
  if str_eqb (RequestSetOption_Key req) (bs "serial") && str_eqb (RequestSetOption_Value req) (bs "on")
  then Some (mkResponseSetOption 0 [] [], mkCounter (hashCount a) (txCount a) true)
  else Some (mkResponseSetOption 0 [] [], a).

Definition accept (a : CounterApplication) : option (ResponseDeliverTx * CounterApplication) :=
  Some (deliver_code CodeTypeOK [] [], mkCounter (hashCount a) (sN 64 (txCount a + 1)) (serial a)).

Definition counter_DeliverTx (tx : list Z) (a : CounterApplication) : option (ResponseDeliverTx * CounterApplication) :=
  if serial a then
    if 8 <? zlen tx then Some (deliver_code CodeTypeEncodingError (too_long tx) [], a)
    else if negb (tx_value tx =? uN 64 (txCount a))
         then Some (deliver_code CodeTypeBadNonce
                      (bs "Invalid nonce. Expected " ++ Itoa (txCount a) ++ bs ", got " ++ Itoa (tx_value tx)) [], a)
         else accept a
  else accept a.

Definition counter_CheckTx (tx : list Z) (a : CounterApplication) : option (ResponseCheckTx * CounterApplication) :=
  if serial a then
    if 8 <? zlen tx then Some (check_code CodeTypeEncodingError (too_long tx), a)
    else if tx_value tx <? uN 64 (txCount a)
         then Some (check_code CodeTypeBadNonce
                      (bs "Invalid nonce. Expected >= " ++ Itoa (txCount a) ++ bs ", got " ++ Itoa (tx_value tx)), a)
         else Some (check_code CodeTypeOK [], a)
  else Some (check_code CodeTypeOK [], a).

Definition counter_Commit `{Json} (a : CounterApplication) : option (ResponseCommit * CounterApplication) :=
  let a := mkCounter (sN 64 (hashCount a + 1)) (txCount a) (serial a) in
  if txCount a =? 0 then Some (mkResponseCommit [], a)
  else Some (mkResponseCommit (AppStateToByte (app_state_of 0 (be_bytes 8 (uN 64 (txCount a))))), a).

Definition counter_Query (req : RequestQuery) (a : CounterApplication) : option (ResponseQuery * CounterApplication) :=
  let value v := mkResponseQuery 0 [] [] 0 [] v [] 0 in
  if str_eqb (RequestQuery_Path req) (bs "hash") then Some (value (Itoa (hashCount a)), a)
  else if str_eqb (RequestQuery_Path req) (bs "tx") then Some (value (Itoa (txCount a)), a)
  else Some (mkResponseQuery 0 (bs "Invalid query path. Expected hash or tx, got " ++ RequestQuery_Path req) [] 0 [] [] [] 0, a).

Definition counter_app `{Json} : Application CounterApplication :=
  let b := BaseApplication CounterApplication in {|
  app_Info := counter_Info; app_SetOption := counter_SetOption; app_Query := counter_Query; app_QueryEx := app_QueryEx b; app_CheckTx := counter_CheckTx;
  app_InitChain := app_InitChain b; app_BeginBlock := app_BeginBlock b; app_DeliverTx := counter_DeliverTx; app_EndBlock := app_EndBlock b;
  app_Commit := counter_Commit; app_CleanData := app_CleanData b; app_GetGenesis := app_GetGenesis b; app_Rollback := app_Rollback b
|}.

End Counter.

(** ** kvstore.go *)

Module KVStore.
Section KVStore.
Context `{Json} {D I B : Type} `{!DB D I B}.

Definition stateKey : list Z := bs "stateKey".
Definition kvPairPrefixKey : list Z := bs "kvPairKey:".

Record State := mkState { db : D; Size : Z; Height : Z; AppHash : list Z }.

(** A state that does not parse panics. *)
Definition loadState (d : D) : option State :=
  match db_Get d (Some stateKey) with
  | Some ((_ :: _) as stateBytes) =>
      match json_UnState stateBytes with Some (size, height, hash) => Some (mkState d size height hash) | None => None end
  | _ => Some (mkState d 0 0 [])
  end.

Definition saveState (s : State) : State :=
  mkState (db_Set (db s) (Some stateKey) (Some (json_State (Size s) (Height s) (AppHash s)))) (Size s) (Height s) (AppHash s).

Definition prefixKey (key : list Z) : list Z := kvPairPrefixKey ++ key.

Definition kv_Info (req : RequestInfo) (s : State) : option (ResponseInfo * State) :=
  Some (mkResponseInfo ([123; 34] ++ bs "size" ++ [34; 58] ++ Itoa (Size s) ++ [125]) [] 0 [], s).

(** The key and the value of a transaction. *)
Definition tx_pair (tx : list Z) : list Z * list Z := match Split tx 61 with [key; value] => (key, value) | _ => (tx, tx) end.

Definition kv_DeliverTx (tx : list Z) (s : State) : option (ResponseDeliverTx * State) :=
  let (key, value) := tx_pair tx in
  Some (deliver_code CodeTypeOK [] [mkKVPair (bs "app.creator") (bs "jae"); mkKVPair (bs "app.key") key],
        mkState (db_Set (db s) (Some (prefixKey key)) (Some value)) (sN 64 (Size s + 1)) (Height s) (AppHash s)).

Definition kv_CheckTx (tx : list Z) (s : State) : option (ResponseCheckTx * State) := Some (check_code CodeTypeOK [], s).

(** [binary.PutVarint] into eight bytes panics on a longer code. *)
Definition kv_Commit (s : State) : option (ResponseCommit * State) :=
  let code := PutVarint (Size s) in
  if 8 <? zlen code then None
  else
    let appHash := code ++ replicate (8 - length code) 0 in
    let s := saveState (mkState (db s) (Size s) (sN 64 (Height s + 1)) appHash) in
    Some (mkResponseCommit (AppStateToByte (app_state_of (Height s) (AppHash s))), s).

Definition kv_Query (req : RequestQuery) (s : State) : option (ResponseQuery * State) :=
  let value := db_Get (db s) (Some (prefixKey (RequestQuery_Data req))) in
  let log := match value with Some _ => bs "exists" | None => bs "does not exist" end in
  let v := match value with Some v => v | None => [] end in
  if RequestQuery_Prove req then Some (mkResponseQuery 0 log [] (-1) (RequestQuery_Data req) v [] 0, s)
  else Some (mkResponseQuery 0 log [] 0 [] v [] 0, s).

Definition kv_app : Application State :=
  let b := BaseApplication State in {|
  app_Info := kv_Info; app_SetOption := app_SetOption b; app_Query := kv_Query; app_QueryEx := app_QueryEx b; app_CheckTx := kv_CheckTx;
  app_InitChain := app_InitChain b; app_BeginBlock := app_BeginBlock b; app_DeliverTx := kv_DeliverTx; app_EndBlock := app_EndBlock b;
  app_Commit := kv_Commit; app_CleanData := app_CleanData b; app_GetGenesis := app_GetGenesis b; app_Rollback := app_Rollback b
|}.
End KVStore.
Arguments State D : clear implicits.
End KVStore.

(** ** persistent_kvstore.go *)

Module Persistent.
Section Persistent.
Context `{Json} {D I B : Type} `{!DB D I B}.
Context (MarshalValidator : Validator -> option (list Z)) (UnmarshalValidator : list Z -> option Validator)
  (marshal_error : Validator -> list Z).

Record PersistentKVStoreApplication := mkPersistent { kv : KVStore.State D; ValUpdates : list Validator }.
Abbreviation P := PersistentKVStoreApplication.

Definition ValidatorSetChangePrefix : list Z := bs "val:".

(** A method of the store inside. *)
Definition inner {R} (f : KVStore.State D -> option (R * KVStore.State D)) (a : P) : option (R * P) :=
  match f (kv a) with Some (r, s) => Some (r, mkPersistent s (ValUpdates a)) | None => None end.

Definition per_Info (req : RequestInfo) (a : P) : option (ResponseInfo * P) :=
  match inner (KVStore.kv_Info req) a with
  | Some (res, a) =>
      Some (mkResponseInfo (ResponseInfo_Data res) (ResponseInfo_Version res) (KVStore.Height (kv a))
              (AppStateToByte (app_state_of (KVStore.Height (kv a)) (KVStore.AppHash (kv a)))), a)
  | None => None
  end.

Definition isValidatorTx (tx : list Z) : bool := HasPrefix tx ValidatorSetChangePrefix.

Definition upper_digit (d : Z) : Z := if d <? 10 then 48 + d else 55 + d.
(** The verb [%X] on bytes. *)
Definition fmt_X (bz : list Z) : list Z := flat_map (fun b => [upper_digit (b / 16); upper_digit (b mod 16)]) bz.

Definition MakeValSetChangeTx (pubkey : list Z) (power : Z) : list Z := bs "val:" ++ fmt_X pubkey ++ [47] ++ Itoa power.

(** The bytes [WriteMessage] puts in a buffer. *)
Definition validator_bytes (v : Validator) : option (list Z) :=
  match WriteMessage MarshalValidator v with Some ws => Some (concat ws) | None => None end.

Definition set_db (d : D) (a : P) : P :=
  mkPersistent (KVStore.mkState d (KVStore.Size (kv a)) (KVStore.Height (kv a)) (KVStore.AppHash (kv a))) (ValUpdates a).

Definition updateValidator (v : Validator) (a : P) : ResponseDeliverTx * P :=
  let key := bs "val:" ++ Validator_PubKey v in
  let d := KVStore.db (kv a) in
  let changed d := (deliver_code CodeTypeOK [] [], let a := set_db d a in mkPersistent (kv a) (ValUpdates a ++ [v])) in
  if Validator_Power v =? 0 then
    if negb (db_Has d (Some key))
    then (deliver_code CodeTypeUnauthorized (bs "Cannot remove non-existent validator " ++ fmt_X key) [], a)
    else changed (db_Delete d (Some key))
  else match validator_bytes v with
       | None => (deliver_code CodeTypeEncodingError (bs "Error encoding validator: " ++ marshal_error v) [], a)
       | Some value => changed (db_Set d (Some key) (Some value))
       end.

(** [strconv.ParseUint(s, 10, 64)]. *)
Definition ParseUint (s : list Z) : option Z :=
  match s with
  | [] => None
  | _ => match dec_val 0 s with Some v => if v <? 2 ^ 64 then Some v else None | None => None end
  end.

Definition execValidatorTx (tx : list Z) (a : P) : ResponseDeliverTx * P :=
  let tx := drop (length ValidatorSetChangePrefix) tx in
  match Split tx 47 with
  | pubkeyS :: powerS :: rewardS :: _ =>
      match hex_DecodeString pubkeyS with
      | None => (deliver_code CodeTypeEncodingError (bs "Pubkey (" ++ pubkeyS ++ bs ") is invalid hex") [], a)
      | Some pubkey =>
          match ParseUint powerS with
          | None => (deliver_code CodeTypeEncodingError (bs "Power (" ++ powerS ++ bs ") is not an int") [], a)
          | Some power => updateValidator (mkValidator pubkey power rewardS []) a
          end
      end
  | parts => (deliver_code CodeTypeEncodingError (bs "Expected 'pubkey/power'. Got [" ++ GoStrings.Join parts 32 ++ bs "]") [], a)
  end.

Definition per_DeliverTx (tx : list Z) (a : P) : option (ResponseDeliverTx * P) :=
  if isValidatorTx tx then Some (execValidatorTx tx a) else inner (KVStore.kv_DeliverTx tx) a.

(** The loop over the validators; a refused one is logged. *)
Definition per_InitChain (req : RequestInitChain) (a : P) : option (ResponseInitChain * P) :=
  Some (mkResponseInitChain 0 [] [], fold_left (fun a v => (updateValidator v a).2) (RequestInitChain_Validators req) a).

Definition per_BeginBlock (req : RequestBeginBlock) (a : P) : option (ResponseBeginBlock * P) :=
  Some (mkResponseBeginBlock 0 [], mkPersistent (kv a) []).

Definition per_EndBlock (req : RequestEndBlock) (a : P) : option (ResponseEndBlock * P) :=
  Some (mkResponseEndBlock (ValUpdates a) None 0 0 [], a).

(** The loop of [Validators] over the iterator; fuel for each entry of the database. *)
Fixpoint validators_loop (fuel : nat) (d : D) (itr : I) : res unit (list Validator) :=
  match fuel with
  | O => NoFuel
  | S f =>
      if it_Valid itr then
        let* key := it_Key itr in
        let* vs :=
          if isValidatorTx key then
            let* value := it_Value d itr in
            match ReadMessage UnmarshalValidator (nonNilBytes value) with Got v _ => Ok [v] | _ => Panic end
          else Ok [] in
        let* itr := it_Next itr in
        let* rest := validators_loop f d itr in
        Ok (vs ++ rest)
      else Ok []
  end.

Definition Validators (fuel : nat) (a : P) : res unit (list Validator) :=
  let d := KVStore.db (kv a) in
  let* itr := db_Iterator d None None in validators_loop fuel d itr.

Definition per_app : Application P :=
  let b := BaseApplication P in {|
  app_Info := per_Info; app_SetOption req := inner (app_SetOption KVStore.kv_app req); app_Query req := inner (KVStore.kv_Query req);
  app_QueryEx req := inner (app_QueryEx KVStore.kv_app req); app_CheckTx tx := inner (KVStore.kv_CheckTx tx);
  app_InitChain := per_InitChain; app_BeginBlock := per_BeginBlock; app_DeliverTx := per_DeliverTx; app_EndBlock := per_EndBlock;
  app_Commit := inner KVStore.kv_Commit; app_CleanData := app_CleanData b; app_GetGenesis := app_GetGenesis b; app_Rollback := app_Rollback b
|}.
End Persistent.
End Persistent.

(** ** local_client.go *)

Module Local.
Section Local.
Context {S : Type} (app : Application S).

(** The response to a request, computed in the caller's goroutine. *)
Definition response (v : isRequest_Value) (s : S) : option (Response * S) :=
  match v with
  | Request_Echo r => Some (ToResponseEcho (RequestEcho_Message r), s)
  | Request_Flush _ => Some (ToResponseFlush, s)
  | Request_Info r => reply ToResponseInfo (app_Info app r s)
  | Request_SetOption r => reply ToResponseSetOption (app_SetOption app r s)
  | Request_DeliverTx r => reply ToResponseDeliverTx (app_DeliverTx app (RequestDeliverTx_Tx r) s)
  | Request_CheckTx r => reply ToResponseCheckTx (app_CheckTx app (RequestCheckTx_Tx r) s)
  | Request_Query r => reply ToResponseQuery (app_Query app r s)
  | Request_QueryEx r => reply ToResponseQueryEx (app_QueryEx app r s)
  | Request_Commit _ => reply ToResponseCommit (app_Commit app s)
  | Request_InitChain r => reply ToResponseInitChain (app_InitChain app r s)
  | Request_BeginBlock r => reply ToResponseBeginBlock (app_BeginBlock app r s)
  | Request_EndBlock r => reply ToResponseEndBlock (app_EndBlock app r s)
  | Request_CleanData _ => reply ToResponseCleanData (app_CleanData app s)
  | Request_GetGenesis _ => reply ToResponseGetGenesis (app_GetGenesis app s)
  | Request_Rollback _ => reply ToResponseRollback (app_Rollback app s)
  end.

Definition newLocalReqRes (req : Request) (res : option Response) : ReqRes :=
  SetDone (mkReqRes req res (rr_wait (NewReqRes req)) (rr_done (NewReqRes req)) (rr_cb (NewReqRes req))).

(** A [XAsync] method: the callback of the client runs, and panics when it is not set; a flush does nothing. *)
Definition Async (Callback : option nat) (v : isRequest_Value) (s : S) : option (ReqRes * list (nat * option Response) * S) :=
  let req := mkRequest (Some v) in
  match v with
  | Request_Flush _ => Some (newLocalReqRes req None, [], s)
  | _ => match response v s, Callback with
         | Some (res, s), Some cb => Some (newLocalReqRes req (Some res), [(cb, Some res)], s)
         | _, _ => None
         end
  end.

(** A [XSync] method returns the payload of the response; it has no callback. *)
Definition Sync {A} (get : Response -> option A) (v : isRequest_Value) (s : S) : option (option A * S) :=
  match response v s with Some (res, s) => Some (get res, s) | None => None end.
End Local.
End Local.
