(* ===== verification/AbciProps.v ===== *)
(** What the ABCI layer guarantees, and where it does not: the example store over a database; the wire format; a connection
    between the socket client and the socket server; the accept loop of the server. *)
From S2P Require Import Prelude GoBig GoStrings GoBytes GoText Db DbSpec Tx AbciWire Abci AbciSpec AbciApps.
From stdpp Require Import base list gmap.
Local Open Scope Z_scope.

(** ** The example store

    The store (src/tendermint/abci/example/kvstore) implements a map with a transaction counter, over every
    database that satisfies the laws of the [DB] interface. *)

(** What the store needs of encoding/json: a saved state is not empty and reads back. *)
Class JsonLaws `{Json} : Prop := {
  json_State_nonempty : forall a b h, json_State a b h <> [];
  json_State_back : forall a b h, in_sN 64 a -> in_sN 64 b -> json_UnState (json_State a b h) = Some (a, b, h)
}.

(** ** The length of a varint *)

Lemma uvarint_loop_long f : forall n x, 2 ^ (7 * Z.of_nat n) <= x -> (n <= f)%nat -> (n < length (uvarint_loop f x))%nat.
Proof.
  induction f as [|f IH]; intros n x Hx Hn; cbn [uvarint_loop]; [cbn; lia|].
  destruct n as [|n]; [destruct (_ <=? _); cbn; lia|].
  replace (7 * Z.of_nat (S n)) with (7 + 7 * Z.of_nat n) in Hx by lia. rewrite Z.pow_add_r in Hx by lia. change (2 ^ 7) with 128 in Hx.
  assert (0 < 2 ^ (7 * Z.of_nat n)) by (apply Z.pow_pos_nonneg; lia).
  destruct (Z.leb_spec 128 x); [|nia]. cbn [length]. apply -> Nat.succ_lt_mono. apply IH; [|lia].
  rewrite Z.shiftr_div_pow2 by lia. apply Z.div_le_lower_bound; lia.
Qed.

Lemma PutVarint_length z : 0 <= z < 2 ^ 63 -> (zlen (PutVarint z) <= 8 <-> z < 2 ^ 55).
Proof.
  intros Hz. unfold PutVarint. rewrite (proj2 (Z.ltb_ge z 0)) by lia. rewrite (uN_id 64 z) by (unfold in_uN; lia).
  rewrite Z.shiftl_mul_pow2 by lia. change (2 ^ 1) with 2. rewrite uN_id by (unfold in_uN; lia). unfold PutUvarint, zlen. split.
  - intros Hl. destruct (Z.lt_ge_cases z (2 ^ 55)); [done|].
    pose proof (uvarint_loop_long 10 8 (z * 2) ltac:(change (7 * Z.of_nat 8) with 56; lia) ltac:(lia)). lia.
  - intros Hs. pose proof (uvarint_loop_short 10 (z * 2) 7 ltac:(change (7 * Z.of_nat 8) with 56; lia)). lia.
Qed.

(** ** The store *)

Section Store.
Context `{Json} `{!JsonLaws} {D I B : Type} `{Hdb : !DB D I B} `{L : !DBLaws Hdb}.
Implicit Types s : KVStore.State D.

(** The pairs in the database are those of [m]. *)
Definition holds (m : gmap bytes bytes) s : Prop :=
  db_ok (KVStore.db s) /\ forall k, contents (KVStore.db s) !! KVStore.prefixKey k = m !! k.

Definition put (m : gmap bytes bytes) (tx : list Z) : gmap bytes bytes := let (k, v) := KVStore.tx_pair tx in <[k := v]> m.

Lemma prefixKey_inj k k' : KVStore.prefixKey k = KVStore.prefixKey k' -> k = k'.
Proof. apply app_inv_head. Qed.

Lemma prefixKey_state k : KVStore.prefixKey k <> KVStore.stateKey.
Proof. done. Qed.

Lemma Get_some d k : db_Get d (Some k) = contents d !! k.
Proof. exact (Get_contents d (Some k)). Qed.

Lemma db_Set_contents d k v : db_ok d ->
  db_ok (db_Set d (Some k) (Some v)) /\ contents (db_Set d (Some k) (Some v)) = <[k := v]> (contents d).
Proof. intros Hd. by apply (step_contents d (opTypeSet (Some k) (Some v)) _ Hd), step_Set. Qed.

Lemma DeliverTx_put m s tx : holds m s -> exists res s', KVStore.kv_DeliverTx tx s = Some (res, s') /\ DeliverTx_IsOK res = true /\
  holds (put m tx) s' /\ KVStore.Size s' = sN 64 (KVStore.Size s + 1) /\ KVStore.Height s' = KVStore.Height s.
Proof.
  intros [Hd Hc]. unfold KVStore.kv_DeliverTx, put. destruct (KVStore.tx_pair tx) as [key value]. eexists _, _. split; [done|].
  split_and!; [done| |done|done]. destruct (db_Set_contents (KVStore.db s) (KVStore.prefixKey key) value Hd) as [Hd' Hc'].
  split; cbn [KVStore.db]; [done|]. intros k. rewrite Hc'. destruct (decide (k = key)) as [->|Hk].
  - by rewrite !lookup_insert_eq.
  - rewrite !lookup_insert_ne; [apply Hc|done|]. by intros ?%prefixKey_inj.
Qed.

Lemma Query_get m s req : holds m s -> exists res, KVStore.kv_Query req s = Some (res, s) /\
  ResponseQuery_Value res = default [] (m !! RequestQuery_Data req) /\
  ResponseQuery_Log res = match m !! RequestQuery_Data req with Some _ => bs "exists" | None => bs "does not exist" end.
Proof.
  intros [Hd Hc]. unfold KVStore.kv_Query. rewrite Get_some, Hc.
  destruct (RequestQuery_Prove req); (eexists; split; [done|]); cbn; by destruct (m !! _).
Qed.

Lemma Commit_saves m s : holds m s -> 0 <= KVStore.Size s < 2 ^ 55 -> exists res s', KVStore.kv_Commit s = Some (res, s') /\ holds m s' /\
  KVStore.Size s' = KVStore.Size s /\ KVStore.Height s' = sN 64 (KVStore.Height s + 1) /\ KVStore.loadState (KVStore.db s') = Some s'.
Proof.
  intros [Hd Hc] Hs. unfold KVStore.kv_Commit. pose proof (proj2 (PutVarint_length (KVStore.Size s) ltac:(lia)) ltac:(lia)) as Hl.
  rewrite (proj2 (Z.ltb_ge 8 _)) by lia. eexists _, _. split; [done|]. unfold KVStore.saveState. cbn [KVStore.db KVStore.Size KVStore.Height KVStore.AppHash].
  set (v := json_State _ _ _). destruct (db_Set_contents (KVStore.db s) KVStore.stateKey v Hd) as [Hd' Hc']. split_and!; [|done|done|].
  - split; cbn [KVStore.db]; [done|]. intros k. rewrite Hc', lookup_insert_ne; [apply Hc|]. intros E. by destruct (prefixKey_state k).
  - unfold KVStore.loadState. rewrite Get_some, Hc', lookup_insert_eq.
    assert (v <> []) as Hv by apply json_State_nonempty.
    assert (json_UnState v = Some (_, _, _)) as Hu by (apply json_State_back; [unfold in_sN; lia|apply sN_range; lia]).
    destruct v as [|b v'] eqn:E in Hv, Hu |- *; [done|]. by rewrite Hu.
Qed.

Lemma Commit_panics s : 2 ^ 55 <= KVStore.Size s < 2 ^ 63 -> KVStore.kv_Commit s = None.
Proof.
  intros Hs. unfold KVStore.kv_Commit. destruct (Z.ltb_spec 8 (zlen (PutVarint (KVStore.Size s)))) as [|Hl]; [done|].
  apply PutVarint_length in Hl; lia.
Qed.

(** A block: its transactions delivered one after the other. *)
Fixpoint deliver_all (txs : list (list Z)) s : option (KVStore.State D) :=
  match txs with
  | [] => Some s
  | tx :: txs => match app_DeliverTx KVStore.kv_app tx s with Some (_, s) => deliver_all txs s | None => None end
  end.

Lemma deliver_all_put txs : forall m s, holds m s -> 0 <= KVStore.Size s -> KVStore.Size s + zlen txs < 2 ^ 63 ->
  exists s', deliver_all txs s = Some s' /\ holds (fold_left put txs m) s' /\ KVStore.Size s' = KVStore.Size s + zlen txs /\
    KVStore.Height s' = KVStore.Height s.
Proof.
  induction txs as [|tx txs IH]; intros m s Hm Hp Hb; cbn [deliver_all fold_left].
  - exists s. rewrite zlen_nil. split_and!; [done|done|lia|done].
  - rewrite zlen_cons in *. pose proof (zlen_nonneg txs). destruct (DeliverTx_put m s tx Hm) as (res & s1 & E & _ & Hm1 & Hs1 & Hh1).
    cbn [app_DeliverTx KVStore.kv_app]. rewrite E. rewrite sN_id in Hs1 by (unfold in_sN; lia).
    destruct (IH (put m tx) s1 Hm1 ltac:(lia) ltac:(lia)) as (s' & E' & Hm' & Hs' & Hh'). exists s'. split_and!; [done|done|lia|congruence].
Qed.
End Store.

(** C34: the store over any database of the interface is a map.  A block of transactions leaves in it the pairs of the
    transactions, the last one for each key; a query reads the pair and changes nothing; a commit counts the block, keeps
    the pairs, and leaves a database from which the state loads again.  A commit panics when 2^55 transactions were
    delivered. *)
Theorem kvstore_refines `{Json} `{!JsonLaws} {D I B : Type} `{Hdb : !DB D I B} `{L : !DBLaws Hdb} (m : gmap bytes bytes)
  (s : KVStore.State D) : holds m s -> 0 <= KVStore.Size s ->
  (forall txs, KVStore.Size s + zlen txs < 2 ^ 63 ->
     exists s', deliver_all txs s = Some s' /\ holds (fold_left put txs m) s' /\ KVStore.Size s' = KVStore.Size s + zlen txs /\
       KVStore.Height s' = KVStore.Height s) /\
  (forall req, exists res, app_Query KVStore.kv_app req s = Some (res, s) /\
     ResponseQuery_Value res = default [] (m !! RequestQuery_Data req) /\
     ResponseQuery_Log res = match m !! RequestQuery_Data req with Some _ => bs "exists" | None => bs "does not exist" end) /\
  (KVStore.Size s < 2 ^ 55 -> exists res s', app_Commit KVStore.kv_app s = Some (res, s') /\ holds m s' /\
     KVStore.Size s' = KVStore.Size s /\ KVStore.Height s' = sN 64 (KVStore.Height s + 1) /\
     KVStore.loadState (KVStore.db s') = Some s') /\
  (2 ^ 55 <= KVStore.Size s < 2 ^ 63 -> app_Commit KVStore.kv_app s = None).
Proof.
  intros Hm Hp. split_and!.
  - intros txs Hb. by apply deliver_all_put.
  - intros req. by apply Query_get.
  - intros Hs. by apply Commit_saves.
  - apply Commit_panics.
Qed.

Definition sample_json : Json := {| json_AppState _ := []; json_State a b h := a :: b :: h;
  json_UnState l := match l with a :: b :: h => Some (a, b, h) | _ => None end |}.

Lemma sample_json_laws : @JsonLaws sample_json.
Proof. by split. Qed.

Lemma kvstore_refines_witness : exists s', deliver_all (H := sample_json) [bs "a=1"; bs "b"; bs "a=2"] (KVStore.mkState NewMemDB 0 0 []) = Some s' /\
  holds (<[bs "a" := bs "2"]> (<[bs "b" := bs "b"]> (<[bs "a" := bs "1"]> ∅))) s'.
Proof.
  assert (holds ∅ (KVStore.mkState NewMemDB 0 0 [])) as Hm by (split; [done|]; intros k; by rewrite lookup_empty).
  destruct (proj1 (@kvstore_refines sample_json sample_json_laws _ _ _ _ MemDB_laws ∅ (KVStore.mkState NewMemDB 0 0 []) Hm ltac:(done))
    [bs "a=1"; bs "b"; bs "a=2"] ltac:(done)) as (s' & E & Hs & _). exists s'. split; [exact E|exact Hs].
Defined.

(** ** The wire, connections and the server *)

(** ** A runtime for the examples *)

(** Messages with one byte string, or none, and the response of an accepted transaction; anything else is an error. *)
Module Sample.

Definition payload (t : MessageType) : message t -> option (list Z) :=
  match t with
  | MRequestEcho => fun x => Some (RequestEcho_Message x)
  | MResponseEcho => fun x => Some (ResponseEcho_Message x)
  | MRequestDeliverTx => fun x => Some (RequestDeliverTx_Tx x)
  | MRequestFlush | MResponseFlush | MResponseDeliverTx => fun _ => Some []
  | _ => fun _ => None
  end.

Definition of_payload (t : MessageType) (b : list Z) : option (message t) :=
  match t with
  | MRequestEcho => Some (mkRequestEcho b)
  | MResponseEcho => Some (mkResponseEcho b)
  | MRequestDeliverTx => Some (mkRequestDeliverTx b)
  | MRequestFlush => Some mkRequestFlush
  | MResponseFlush => Some mkResponseFlush
  | MResponseDeliverTx => Some (deliver_code CodeTypeOK [] [])
  | _ => None
  end.

Definition varint (b : list Z) : option (Z * list Z) :=
  let (x, n) := Uvarint b in if n <=? 0 then None else Some (x, drop (Z.to_nat n) b).

Definition proto : Proto := {|
  WireBytes := 2;
  EncodeVarint := PutUvarint;
  DecodeVarint := varint;
  EncodeMessage t x := match payload t x with Some b => Some (PutUvarint (zlen b) ++ b) | None => None end;
  DecodeMessage t b :=
    match varint b with
    | Some (n, b) => match of_payload t (take (Z.to_nat n) b) with Some x => Some (x, drop (Z.to_nat n) b) | None => None end
    | None => None
    end;
  SizeVarint v := zlen (PutUvarint v);
  MessageSize t x := match payload t x with Some b => zlen b | None => 0 end;
  Marshal M f m := f m;
  Unmarshal M z g b :=
    match b with
    | [] => Some z
    | _ => match varint b with
           | Some (key, body) => match g (Z.shiftr key 3) (Z.land key 7) body with Some (Some (m, [])) => Some m | _ => None end
           | None => None
           end
    end
|}.

End Sample.

#[local] Existing Instance Sample.proto.

Lemma varint_put v rest : in_uN 64 v -> Sample.varint (PutUvarint v ++ rest) = Some (v, rest).
Proof.
  intros Hv. unfold Sample.varint. rewrite Uvarint_PutUvarint by done. pose proof (PutUvarint_pos v).
  destruct (Z.leb_spec (zlen (PutUvarint v)) 0); [lia|]. by rewrite drop_app_zlen.
Qed.

#[local] Instance sample_laws : ProtoLaws.
Proof.
  split; cbn -[PutUvarint Sample.varint Sample.payload zlen]; try done.
  - exact varint_put.
  - intros t m bz. destruct (Sample.payload t m) as [b|]; [|done]. intros [= <-]. rewrite zlen_app.
    pose proof (zlen_nonneg b). pose proof (zlen_nonneg (PutUvarint (zlen b))). lia.
  - intros M z g b key body m E Hg. destruct b; [done|]. rewrite E, Hg. done.
Qed.

Lemma sample_carries t x b : Sample.payload t x = Some b -> Sample.of_payload t b = Some x -> zlen b < 2 ^ 64 -> carries t x.
Proof.
  intros E D Hl. exists (PutUvarint (zlen b) ++ b). cbn -[PutUvarint Sample.varint Sample.payload Sample.of_payload zlen]. rewrite E. split; [done|]. intros rest.
  rewrite <- app_assoc, varint_put by (unfold in_uN; pose proof (zlen_nonneg b); lia).
  by rewrite take_app_zlen, D, drop_app_zlen.
Qed.

(** ** The wire *)

(** What the framing gives for one message type. *)
Definition framed {M} (marshal : M -> option (list Z)) (unmarshal : list Z -> option M) (m : M) : Prop :=
  exists bz, marshal m = Some bz /\ unmarshal bz = Some m /\
    (zlen bz <= maxMsgSize ->
       (forall rest, ReadMessage unmarshal (frame marshal m ++ rest) = Got m rest) /\
       (forall p q, frame marshal m = p ++ q -> q <> [] -> ReadMessage unmarshal p = More)) /\
    (maxMsgSize < zlen bz < 2 ^ 63 -> forall rest,
       (exists ws, WriteMessage marshal m = Some ws) /\ ReadMessage unmarshal (frame marshal m ++ rest) = Bad ErrShortBuffer).

Lemma framed_ok {M} (marshal : M -> option (list Z)) unmarshal m bz : marshal m = Some bz -> unmarshal bz = Some m ->
  framed marshal unmarshal m.
Proof.
  intros E D. exists bz. split_and!; [done|done| |].
  - intros Hl. assert (wire_ok marshal unmarshal m) as W by by exists bz. split; [intros; by apply ReadMessage_frame|].
    intros p q. by apply ReadMessage_part.
  - intros Hl rest. by apply (ReadMessage_long _ _ _ bz).
Qed.

(** C33: a request or response that the protobuf runtime carries crosses the wire: the generated oneof marshaler and
    unmarshaler agree on every constructor, the frame reads back whatever follows it, and a reader that has only a part of
    the frame waits for more, when the message has at most [maxMsgSize] bytes.  A longer one, below 2^63 bytes, is written
    and then refused by the reader.  The sizers count what the marshalers write, when that is below 2^64 bytes. *)
Theorem abci_wire `{Proto} `{!ProtoLaws} :
  (forall v, request_carries v -> framed MarshalRequest UnmarshalRequest (mkRequest (Some v))) /\
  (forall v, response_carries v -> framed MarshalResponse UnmarshalResponse (mkResponse (Some v))) /\
  (forall m bz, Request_OneofMarshaler m = Some bz -> zlen bz < 2 ^ 64 -> Request_OneofSizer m = zlen bz) /\
  (forall m bz, Response_OneofMarshaler m = Some bz -> zlen bz < 2 ^ 64 -> Response_OneofSizer m = zlen bz).
Proof.
  split_and!.
  - intros v (bz & E & D)%request_codec. by eapply framed_ok.
  - intros v (bz & E & D)%response_codec. by eapply framed_ok.
  - apply sizers_ok.
  - apply sizers_ok.
Qed.

Lemma abci_wire_witness : framed MarshalRequest UnmarshalRequest (ToRequestEcho (bs "hi")) /\
  Request_OneofSizer (ToRequestEcho (bs "hi")) = 4 /\ Response_OneofSizer (ToResponseEcho (bs "hi")) = 4.
Proof.
  split; [|split].
  - apply (proj1 (abci_wire (H := Sample.proto))). by eapply (sample_carries MRequestEcho).
  - apply (proj1 (proj2 (proj2 (abci_wire (H := Sample.proto)))) _ [18; 2; 104; 105]); reflexivity.
  - apply (proj2 (proj2 (proj2 (abci_wire (H := Sample.proto)))) _ [18; 2; 104; 105]); reflexivity.
Defined.

(** ** The connection *)

(** The counter, not serial, behind the sample runtime. *)
Module SampleApp.

Definition addr : list Z := bs "10.0.0.7:46658".

Definition counter : Application Counter.CounterApplication := Counter.counter_app (H := sample_json).

Definition allowed (v : isRequest_Value) : Prop :=
  match v with
  | Request_Echo x => zlen (RequestEcho_Message x) <= 1000
  | Request_Flush _ => True
  | Request_DeliverTx x => zlen (RequestDeliverTx_Tx x) <= 1000
  | _ => False
  end.

Definition Inv (a : Counter.CounterApplication) : Prop := Counter.serial a = false.

Definition tx : isRequest_Value := Request_DeliverTx (mkRequestDeliverTx [7]).
Definition flush : isRequest_Value := Request_Flush mkRequestFlush.

(** A transaction and a flush, queued, sent and answered. *)
Definition schedule : list label :=
  [LQueue tx; LSend; LQueue flush; LSetCallback 0 5; LSend; LHandle; LPush; LHandle; LRespond; LPush; LRespond; LRecv; LRecv].

Abbreviation state ls := (run counter addr ls (dial (Counter.NewCounterApplication false))).

End SampleApp.

Lemma PutUvarint_11 x : zlen (PutUvarint x) <= 11.
Proof. unfold PutUvarint, zlen. pose proof (uvarint_loop_length 10 x). lia. Qed.

(** A field of the sample runtime with a short payload crosses the wire. *)
Lemma sample_field {M} tag t x (mk : message t -> M) (z : M) (g : Z -> Z -> list Z -> option (option (M * list Z))) b :
  0 <= tag < 2 ^ 60 -> Sample.payload t x = Some b -> Sample.of_payload t b = Some x -> zlen b <= 1000 ->
  (forall wire body, g tag wire body = decode_field t mk wire body) ->
  exists bz, encode_field tag t x = Some bz /\ Unmarshal z g bz = Some (mk x) /\ zlen bz <= maxMsgSize.
Proof.
  intros Ht E D Hl Hg. assert (carries t x) as Hc by (eapply sample_carries; [done..|lia]).
  destruct (carries_encodes tag t x Hc) as [bz F]. exists bz. split_and!; [done|by eapply field_ok|].
  unfold encode_field in F. cbn -[Sample.payload zlen PutUvarint Z.lor Z.shiftl] in F. rewrite E in F. injection F as <-. rewrite !zlen_app.
  pose proof (PutUvarint_11 (Z.lor (Z.shiftl tag 3) 2)). pose proof (PutUvarint_11 (zlen b)). unfold maxMsgSize. lia.
Qed.

#[local] Instance sample_serves : Serves SampleApp.counter SampleApp.addr SampleApp.Inv SampleApp.allowed.
Proof.
  split; [done| |].
  - intros v Hv. unfold wire_ok, MarshalRequest, UnmarshalRequest. cbn [Marshal Sample.proto].
    destruct v as [[m]|[]| | | | | | | |[m]| | | | |]; try done; cbn -[zlen] in Hv.
    + by apply (sample_field 2 MRequestEcho _ (fun y => mkRequest (Some (Request_Echo y))) _ _ m).
    + by apply (sample_field 3 MRequestFlush _ (fun y => mkRequest (Some (Request_Flush y))) _ _ []).
    + by apply (sample_field 19 MRequestDeliverTx _ (fun y => mkRequest (Some (Request_DeliverTx y))) _ _ m).
  - intros v s Hv Hs. destruct s as [h t sr]. unfold SampleApp.Inv in Hs. cbn in Hs. subst sr. unfold wire_ok, MarshalResponse, UnmarshalResponse.
    cbn [Marshal Sample.proto].
    destruct v as [[m]|[]| | | | | | | |[m]| | | | |]; try done; cbn -[zlen] in Hv; (eexists _, _; split; [done|]; split; [done|]).
    + by apply (sample_field 2 MResponseEcho _ (fun y => mkResponse (Some (Response_Echo y))) _ _ m).
    + by apply (sample_field 3 MResponseFlush _ (fun y => mkResponse (Some (Response_Flush y))) _ _ []).
    + by apply (sample_field 10 MResponseDeliverTx _ (fun y => mkResponse (Some (Response_DeliverTx y))) _ _ []).
Qed.

(** What setting the client, or crashing with it, leaves alone. *)
Lemma set_cli_closed {S} c (s : Conn S) : closed (set_cli c s) = closed s.
Proof. by destruct c. Qed.
Lemma set_cli_app {S} c (s : Conn S) : app_state (set_cli c s) = app_state s.
Proof. by destruct c. Qed.
Lemma set_cli_s2c {S} c (s : Conn S) : s2c (set_cli c s) = s2c s.
Proof. by destruct c. Qed.

Ltac set_cli_simpl := rewrite ?set_cli_closed, ?set_cli_app, ?set_cli_s2c.

(** A client whose server has ended still reads what was sent to it. *)
Lemma recv_closed `{Proto} {S} (s s' : Conn S) : closed s = true -> recv_iter s = Some s' ->
  closed s' = true /\ app_state s' = app_state s /\ exists used, s2c s = used ++ s2c s'.
Proof.
  intros Hc. unfold recv_iter. rewrite Hc.
  destruct (negb (receiver s)); [done|]. destruct (ReadMessage UnmarshalResponse (s2c s)) as [|e|res rest] eqn:E.
  - intros [= <-]. split_and!; set_cli_simpl; [done..|by exists []].
  - intros [= <-]. split_and!; set_cli_simpl; [done..|by exists []].
  - apply ReadMessage_rest in E. cbn [cli]. intros Er.
    assert (exists s1, s' = s1 /\ closed s1 = true /\ app_state s1 = app_state s /\ s2c s1 = rest) as (s1 & -> & ? & ? & ->).
    { repeat (case_match; try done); injection Er as <-; eexists; (split; [reflexivity|]);
        split_and!; set_cli_simpl; done. }
    by split_and!.
Qed.

(** The watchdog's end of a server: nothing that runs afterwards reaches the application or the client. *)
Lemma exec_closed `{Proto} {S} (app : Application S) addr l (s s' : Conn S) : closed s = true -> exec app addr l s = Some s' ->
  closed s' = true /\ app_state s' = app_state s /\ exists used, s2c s = used ++ s2c s'.
Proof.
  intros Hc. unfold exec. destruct (crashed s); [done|].
  assert (forall s1 : Conn S, closed s1 = true -> app_state s1 = app_state s -> s2c s1 = s2c s ->
    closed s1 = true /\ app_state s1 = app_state s /\ exists used, s2c s = used ++ s2c s1) as Hsame.
  { intros s1 H1 H2 H3. split_and!; [done..|]. exists []. by rewrite H3. }
  destruct l; rewrite ?Hc; try done.
  - destruct (queueRequest _ _) as [[]|]; [|done]. intros [= <-]. by apply Hsame.
  - destruct (reqres _ !! _); [|done]. destruct (SetCallback _ _). intros [= <-]. by apply Hsame.
  - intros [= <-]. by apply Hsame.
  - destruct (sender s); [|done]. destruct (queueRequest _ _) as [[]|]; intros [= <-]; by apply Hsame.
  - unfold send_iter. repeat (case_match; try done); intros [= <-]; apply Hsame; set_cli_simpl; done.
  - unfold handle_iter. by rewrite Hc.
  - unfold push_iter. repeat (case_match; try done). intros [= <-]. by apply Hsame.
  - unfold respond_iter. by rewrite Hc.
  - intros E. by apply (recv_closed _ _ Hc).
  - intros [= <-]. apply Hsame; set_cli_simpl; done.
  - case_match; [|done]. intros [= <-]. by apply Hsame.
  - case_match; [|done]. intros [= <-]. by apply Hsame.
Qed.

Lemma run_closed `{Proto} {S} (app : Application S) addr ls : forall s s' : Conn S, closed s = true -> run app addr ls s = Some s' ->
  closed s' = true /\ app_state s' = app_state s /\ exists used, s2c s = used ++ s2c s'.
Proof.
  induction ls as [|l ls IH]; intros s s' Hc; cbn [run]; [intros [= <-]; split_and!; [done..|by exists []]|].
  destruct (exec app addr l s) as [s1|] eqn:E; [|done]. destruct (exec_closed _ _ _ _ _ Hc E) as (Hc1 & Ha & u & Hu). intros Hr.
  destruct (IH _ _ Hc1 Hr) as (? & ? & v & Hv). split_and!; [done|congruence|]. exists (u ++ v). by rewrite Hu, Hv, <- app_assoc.
Qed.

(** Seconds in which the server reads nothing. *)
Lemma run_clock `{Proto} {S} (app : Application S) addr n : forall (s : Conn S) k, crashed s = false -> closed s = false ->
  watch s = Some k -> k < watch_limit -> watch_limit <= k + Z.of_nat n ->
  run app addr (repeat LClock n) s = Some (with_watch None s).
Proof.
  assert (forall n (s : Conn S), crashed s = false -> closed s = false ->
    run app addr (repeat LClock n) (with_watch None s) = Some (with_watch None s)) as Hnone.
  { intros m s Hcr Hcl. induction m as [|m IH]; [done|]. cbn [repeat run]. unfold exec. cbn [crashed closed with_watch watch tick]. by rewrite Hcr, Hcl. }
  induction n as [|n IH]; intros s k Hcr Hcl Hw Hk Hn; [lia|]. cbn [repeat run]. unfold exec. rewrite Hcr, Hcl, Hw. cbn [tick].
  destruct (Z.leb_spec watch_limit (k + 1)); [by apply Hnone|]. rewrite (IH _ (k + 1)); try done. lia.
Qed.

Lemma run_app `{Proto} {S} (app : Application S) addr ls1 ls2 : forall s s' : Conn S, run app addr ls1 s = Some s' ->
  run app addr (ls1 ++ ls2) s = run app addr ls2 s'.
Proof.
  induction ls1 as [|l ls IH]; intros s s'; cbn [run List.app]; [by intros [= <-]|]. destruct (exec app addr l s); [apply IH|done].
Qed.


Lemma sample_run : exists s, SampleApp.state SampleApp.schedule = Some s.
Proof. eexists. vm_compute. reflexivity. Qed.

Lemma sample_part : exists s, SampleApp.state (take 6 SampleApp.schedule) = Some s.
Proof. eexists. vm_compute. reflexivity. Qed.

Lemma sample_labels : Forall (label_ok SampleApp.allowed) SampleApp.schedule.
Proof. repeat constructor; done. Qed.


(** ** A stopped client *)

(** Once the client is stopped and its receive routine has ended, nothing decrements a counter any more. *)
Definition keeps_waits (c c' : socketClient) : Prop :=
  running c' = false /\ forall id r, reqres c !! id = Some r -> exists r', reqres c' !! id = Some r' /\ rr_wait r' = rr_wait r.

Lemma keeps_waits_refl c c' : running c' = false -> reqres c' = reqres c -> keeps_waits c c'.
Proof. intros Hr E. split; [done|]. rewrite E. eauto. Qed.

Lemma queueRequest_keeps req c id c' : running c = false -> queueRequest req c = Some (id, c') -> keeps_waits c c'.
Proof.
  intros Hr. unfold queueRequest. destruct (_ <? _)%nat; [|done]. intros [= <- <-]. split; [done|]. intros id r Hl. exists r.
  split; [|done]. by apply lookup_app_l_Some.
Qed.

Lemma StopForError_stopped e c : running c = false -> StopForError e c = Some c.
Proof. intros Hr. unfold StopForError. by rewrite Hr. Qed.

Lemma send_stopped `{Proto} {S} (s s' : Conn S) : running (cli s) = false -> send_iter s = Some s' ->
  running (cli s') = false /\ receiver s' = receiver s /\ reqres (cli s') = reqres (cli s).
Proof.
  intros Hr. unfold send_iter. destruct (negb _); [done|]. destruct (reqQueue (cli s)) as [|id q]; [done|].
  destruct (reqres (cli s) !! id); [|done].
  destruct (WriteMessage _ _); [|rewrite StopForError_stopped by done; by intros [= <-]].
  destruct (bufio_Writes _ _). destruct (if is_flush_req _ then _ else _).
  destruct (_ || _); [by intros [= <-]|]. rewrite StopForError_stopped by done. by intros [= <-].
Qed.

Lemma exec_stopped `{Proto} {S} (app : Application S) addr l (s s' : Conn S) : running (cli s) = false -> receiver s = false ->
  exec app addr l s = Some s' -> receiver s' = false /\ keeps_waits (cli s) (cli s').
Proof.
  intros Hr Hv. unfold exec. destruct (crashed s); [done|].
  destruct l as [v|id cb|cb| | | | | | | | | | | |]; rewrite ?Hr, ?Hv; cbn [andb negb].
  - destruct (queueRequest _ _) as [[id c]|] eqn:E; [|done]. intros [= <-]. split; [done|]. by eapply queueRequest_keeps.
  - destruct (reqres (cli s) !! id) as [r|] eqn:Er; [|done]. destruct (SetCallback cb r) as [r' now] eqn:Ec. intros [= <-]. split; [done|].
    split; [done|]. cbn. intros j r0 Hj. destruct (decide (j = id)) as [->|Hne].
    + assert (r0 = r) as -> by congruence. exists r'. rewrite list_lookup_insert_eq by (by eapply lookup_lt_Some). split; [done|].
      unfold SetCallback in Ec. destruct (rr_done r); by injection Ec as <- <-.
    + exists r0. by rewrite list_lookup_insert_ne.
  - intros [= <-]. split; [done|]. by apply keeps_waits_refl.
  - destruct (sender s); [|done]. destruct (queueRequest _ _) as [[id c]|] eqn:E; intros [= <-].
    + split; [done|]. by eapply queueRequest_keeps.
    + split; [done|]. by apply keeps_waits_refl.
  - intros (H1 & H2 & H3)%send_stopped; [|done]. split; [congruence|]. by apply keeps_waits_refl.
  - unfold handle_iter. intros E. assert (receiver s' = receiver s /\ cli s' = cli s) as [-> ->].
    { destruct (closed s); [done|]. destruct (hand s); [done|]. destruct (ReadMessage _ _); [done|by injection E as <-|].
      destruct (handleRequest _ _ _ _) as [[]|]; by injection E as <-. }
    split; [done|]. by apply keeps_waits_refl.
  - unfold push_iter. destruct (hand s); [|done]. destruct (_ <? _)%nat; [|done]. intros [= <-]. split; [done|]. by apply keeps_waits_refl.
  - unfold respond_iter. destruct (closed s); [done|]. destruct (responses s); [done|].
    destruct (WriteMessage _ _); [|intros [= <-]; split; [done|]; by apply keeps_waits_refl].
    destruct (bufio_Writes _ _). destruct (if is_flush_res _ then _ else _). intros [= <-]. split; [done|]. by apply keeps_waits_refl.
  - unfold recv_iter. rewrite Hv. done.
  - unfold Stop. rewrite Hr. intros [= <-]. split; [done|]. by apply keeps_waits_refl.
  - rewrite andb_true_r. destruct (sender s); [|done]. intros [= <-]. split; [done|]. by apply keeps_waits_refl.
  - done.
  - destruct (closed s); [done|]. intros [= <-]. split; [done|]. by apply keeps_waits_refl.
  - destruct (closed s); [done|]. intros [= <-]. split; [done|]. by apply keeps_waits_refl.
  - destruct (closed s); [done|]. destruct (watch s); [done|]. intros [= <-]. split; [done|]. by apply keeps_waits_refl.
Qed.

Lemma run_stopped `{Proto} {S} (app : Application S) addr ls : forall s s' : Conn S, running (cli s) = false -> receiver s = false ->
  run app addr ls s = Some s' -> forall id r, reqres (cli s) !! id = Some r ->
  exists r', reqres (cli s') !! id = Some r' /\ rr_wait r' = rr_wait r.
Proof.
  induction ls as [|l ls IH]; intros s s' Hr Hv; cbn [run].
  - intros [= <-]. eauto.
  - destruct (exec app addr l s) as [s1|] eqn:E; [|done]. destruct (exec_stopped _ _ _ _ _ Hr Hv E) as (Hv1 & Hr1 & Hk). intros Hrun id r Hl.
    destruct (Hk _ _ Hl) as (r1 & Hl1 & Hw1). destruct (IH s1 s' Hr1 Hv1 Hrun _ _ Hl1) as (r' & Hl' & Hw'). exists r'. split; [done|congruence].
Qed.

(** ** A flush *)

(** C32: a flush completes.  From every state that a client which was not stopped reaches, with a server that never went 600
    seconds without a request, the routines alone run to a state where none of them can run, in at most five steps per
    request, whatever the order; there every flush and every request queued before one is released, so that [FlushSync],
    and with it every synchronous call, returns.  A stopped client does not do this: once it is stopped and its receive
    routine has ended, no step changes the counter of a request any more, and a call that waits for it waits for ever. *)
Theorem abci_flush `{Proto} {S} (app : Application S) (addr : list Z) (Inv : S -> Prop) (allowed : isRequest_Value -> Prop)
  (Sv : Serves app addr Inv allowed) (s0 : S) (ls : list label) (s : Conn S) :
  Inv s0 -> Forall (label_ok allowed) ls -> attended 0 ls = true -> run app addr ls (dial s0) = Some s ->
  (exists ls' s', Forall (fun l => internal l = true) ls' /\ run app addr ls' s = Some s' /\ idle app addr s' /\ requests s' = requests s) /\
  (forall ls' s', Forall (fun l => internal l = true) ls' -> run app addr ls' s = Some s' ->
     (length ls' <= 5 * length (requests s))%nat /\
     (idle app addr s' -> forall i j m, (i <= j)%nat -> requests s' !! j = Some m -> is_flush_req m = true -> released i (cli s') = true)) /\
  (forall ls1 ls2 (s1 s2 : Conn S), run app addr ls1 s = Some s1 -> running (cli s1) = false -> receiver s1 = false ->
     run app addr ls2 s1 = Some s2 -> forall id r, reqres (cli s1) !! id = Some r ->
     exists r', reqres (cli s2) !! id = Some r' /\ rr_wait r' = rr_wait r).
Proof.
  intros Hi Hls Ha Hr. destruct (run_conn_ok _ _ _ _ s0 _ _ _ 0 _ _ _ _ (dial_ok _ _ _ _ _ Hi) Hls eq_refl ltac:(done) Ha Hr)
    as (ans & proc & sent & queued & w & C & Hw & Hn).
  split_and!.
  - destruct (internal_finish _ _ _ _ _ _ _ _ _ _ _ C eq_refl) as (ls' & s' & a & p & x & q & Hint & Hrun & C' & Hidle & Hreq).
    exists ls', s'. split_and!; [done..|].
    rewrite (conn_requests _ _ _ _ _ _ _ _ _ _ C), (conn_requests _ _ _ _ _ _ _ _ _ _ C'). rewrite !map_app, <- !app_assoc in Hreq. done.
  - intros ls' s' Hint Hrun. split.
    + etransitivity; [by eapply internal_run|by eapply weight_bound].
    + assert (Forall (label_ok allowed) ls') as Hls' by (eapply Forall_impl; [exact Hint|]; by intros []).
      destruct (run_conn_ok _ _ _ _ s0 _ _ _ w _ _ _ _ C Hls' Hw Hn (internal_attended _ Hint w) Hrun) as (a & p & x & q & w' & C' & _).
      intros Hidle i j m. by eapply idle_released.
  - intros ls1 ls2 s1 s2 _ Hr1 Hv1. by apply run_stopped.
Qed.

Lemma abci_flush_witness : exists s, SampleApp.state (take 6 SampleApp.schedule) = Some s /\
  exists ls' s', Forall (fun l => internal l = true) ls' /\ run SampleApp.counter SampleApp.addr ls' s = Some s' /\
      idle SampleApp.counter SampleApp.addr s' /\ requests s' = requests s.
Proof.
  destruct sample_part as [s E]. exists s. split; [exact E|].
  exact (proj1 (abci_flush _ _ _ _ sample_serves (Counter.NewCounterApplication false) (take 6 SampleApp.schedule) s eq_refl
                 (Forall_take _ 6 _ sample_labels) eq_refl E)).
Defined.

(** ** The accept loop *)

Definition accept_all (addrs : list (list Z)) : Server.SocketServer := fold_left (fun s a => Server.accept a s) addrs Server.NewSocketServer.

(** At most three connections, with fresh numbers, from one host; an address without a host is that of a local socket. *)
Record server_ok (s : Server.SocketServer) : Prop := {
  so_size : (size (Server.conns s) <= 3)%nat;
  so_fresh : forall id a, Server.conns s !! id = Some a -> (id < Server.nextConnID s)%nat;
  so_host : forall id a, Server.conns s !! id = Some a -> remote_host a = Server.remoteIp s \/ remote_host a = []
}.

Lemma addConn_ok s addr : server_ok s -> remote_host addr = Server.remoteIp s -> size (Server.conns s) <> 3%nat ->
  server_ok (Server.addConn addr s).
Proof.
  intros [Hs Hf Hh] Ha Hn. assert (Server.conns s !! Server.nextConnID s = None) as Hnew.
  { destruct (Server.conns s !! _) eqn:E; [|done]. apply Hf in E. lia. }
  split; cbn.
  - rewrite map_size_insert_None by done. lia.
  - intros id a [[<- <-]|[_ E%Hf]]%lookup_insert_Some; lia.
  - intros id a [[<- <-]|[_ E%Hh]]%lookup_insert_Some; auto.
Qed.

Lemma accept_ok s addr : server_ok s -> server_ok (Server.accept addr s).
Proof.
  intros Ho. unfold Server.accept. destruct (Server.srv_killed s); [done|].
  assert (forall s1, server_ok s1 -> remote_host addr = Server.remoteIp s1 ->
    server_ok (if bool_decide (size (Server.conns s1) = 3%nat) then Server.killBcchain s1 else Server.addConn addr s1)) as Hgo.
  { intros s1 H1 Ha. case_bool_decide; [by destruct H1|by apply addConn_ok]. }
  destruct (str_eqb (Server.remoteIp s) []) eqn:E0.
  - apply str_eqb_eq in E0. apply Hgo; [|done]. destruct Ho as [H1 H2 H3]. split; cbn; try done.
    intros id a Hl. right. destruct (H3 id a Hl); congruence.
  - destruct (str_eqb (remote_host addr) (Server.remoteIp s)) eqn:E1; cbn [negb]; [|done]. apply str_eqb_eq in E1. by apply Hgo.
Qed.

Lemma accept_all_ok addrs : server_ok (accept_all addrs).
Proof.
  unfold accept_all. assert (server_ok Server.NewSocketServer) as H0 by (split; cbn; [rewrite map_size_empty; lia|by intros ? ? ?%lookup_empty_Some..]).
  revert H0. generalize Server.NewSocketServer. induction addrs as [|a addrs IH]; intros s Hs; cbn; [done|]. by apply IH, accept_ok.
Qed.

(** ** Validator transactions *)

Lemma upper_digit_no_slash d : 0 <= d < 16 -> Persistent.upper_digit d <> 47.
Proof. unfold Persistent.upper_digit. destruct (d <? 10) eqn:E; lia. Qed.

Lemma fmt_X_no_slash bz : bytes_ok bz -> 47 ∉ Persistent.fmt_X bz.
Proof.
  induction 1 as [|b bz Hb _ IH]; cbn; [by apply not_elem_of_nil|]. unfold byte_ok in Hb.
  assert (0 <= b / 16 < 16) by (split; [apply Z.div_pos; lia|apply Z.div_lt_upper_bound; lia]).
  assert (0 <= b mod 16 < 16) by (apply Z.mod_pos_bound; lia).
  rewrite !not_elem_of_cons. split_and!; [| |done]; intros E; symmetry in E; by apply upper_digit_no_slash in E.
Qed.

Lemma Itoa_no_slash z : 47 ∉ Itoa z.
Proof.
  unfold Itoa, big_String. assert (forall y, 0 <= y -> 47 ∉ dec_nonneg y) as Hd.
  { intros y Hy Hin. destruct (dec_nonneg_digits y Hy) as [Hf _]. rewrite Forall_forall in Hf. specialize (Hf _ Hin). done. }
  destruct (Z.ltb_spec z 0); [|apply Hd; lia]. apply not_elem_of_cons. split; [done|]. apply Hd. lia.
Qed.

(** The transaction [MakeValSetChangeTx] makes has two parts, and [execValidatorTx] wants three. *)
Lemma MakeValSetChangeTx_refused `{Json} {D I B} `{!DB D I B} mv me pubkey power (a : Persistent.PersistentKVStoreApplication (D := D)) :
  bytes_ok pubkey -> exists log, Persistent.per_DeliverTx mv me (Persistent.MakeValSetChangeTx pubkey power) a =
    Some (deliver_code CodeTypeEncodingError log [], a).
Proof.
  intros Hp. unfold Persistent.per_DeliverTx, Persistent.isValidatorTx, Persistent.MakeValSetChangeTx.
  unfold Persistent.ValidatorSetChangePrefix. rewrite HasPrefix_app. unfold Persistent.execValidatorTx.
  replace (drop _ _) with (Persistent.fmt_X pubkey ++ 47 :: Itoa power) by done.
  rewrite Split_app by by apply fmt_X_no_slash. rewrite Split_none by apply Itoa_no_slash. by eexists.
Qed.

(** ** The server's connections *)

(** The host of an address is what comes before its first colon. *)
Lemma remote_host_colon h rest : 58 ∉ h -> remote_host (h ++ 58 :: rest) = h.
Proof. intros Hh. unfold remote_host. by rewrite Split_app. Qed.

(** C40: whatever connections arrive, the server has at most three, under different numbers, all from the host of the first
    one (or from peers without a host).  A connection from another host is refused and changes nothing; with three
    connections one more from the host kills the process, and so does the end of any connection.  The host of an address is
    the text before its first colon: the addresses of IPv6 that agree up to there count as one host. *)
Theorem abci_accept addrs : let s := accept_all addrs in
  ((size (Server.conns s) <= 3)%nat /\
   (forall id a, Server.conns s !! id = Some a ->
      (id < Server.nextConnID s)%nat /\ (remote_host a = Server.remoteIp s \/ remote_host a = []))) /\
  (forall a, Server.remoteIp s <> [] -> remote_host a <> Server.remoteIp s -> Server.accept a s = s) /\
  (forall a, remote_host a = Server.remoteIp s -> size (Server.conns s) = 3%nat -> Server.srv_killed (Server.accept a s) = true) /\
  (forall a, remote_host a = Server.remoteIp s -> (size (Server.conns s) < 3)%nat -> Server.srv_killed s = false ->
     Server.conns (Server.accept a s) = <[Server.nextConnID s := a]> (Server.conns s) /\ Server.srv_killed (Server.accept a s) = false) /\
  (forall id, Server.srv_killed (Server.waitForClose id s) = true) /\
  (forall h x, 58 ∉ h -> remote_host (h ++ 58 :: x) = h).
Proof.
  intros s. pose proof (accept_all_ok addrs) as [H1 H2 H3]. fold s in H1, H2, H3. split_and!; [exact H1|by eauto|..].
  - intros a Hn Ha. unfold Server.accept. destruct (Server.srv_killed s); [done|].
    destruct (str_eqb (Server.remoteIp s) []) eqn:E0; [by apply str_eqb_eq in E0|].
    destruct (str_eqb (remote_host a) (Server.remoteIp s)) eqn:E1; [by apply str_eqb_eq in E1|done].
  - intros a Ha Hs. unfold Server.accept. destruct (Server.srv_killed s) eqn:Ek; [done|]. rewrite Ha, str_eqb_refl. cbn [negb].
    destruct (str_eqb (Server.remoteIp s) []); cbn; by rewrite bool_decide_true.
  - intros a Ha Hs Hk. unfold Server.accept. rewrite Hk, Ha, str_eqb_refl. cbn [negb].
    destruct (str_eqb (Server.remoteIp s) []); cbn; rewrite bool_decide_false by lia; done.
  - intros id. unfold Server.waitForClose. by destruct (Server.srv_killed s) eqn:E.
  - apply remote_host_colon.
Qed.

Lemma abci_accept_witness : Server.srv_killed (Server.accept (bs "10.0.0.7:4") (accept_all [bs "10.0.0.7:1"; bs "10.0.0.7:2"; bs "10.0.0.7:3"])) = true.
Proof. apply (proj1 (proj2 (proj2 (abci_accept [bs "10.0.0.7:1"; bs "10.0.0.7:2"; bs "10.0.0.7:3"])))); by vm_compute. Defined.

(** A call of a stopped client that waits for ever, without an error; and a callback that comes after its response, which is
    kept and never called, since the socket client never marks a request done. *)
Example stopped_flush_waits : exists s, SampleApp.state [LQueue SampleApp.flush; LSend; LStop; LReadClosed; LQuit] = Some s /\
  running (cli s) = false /\ receiver s = false /\ released 0 (cli s) = false /\ cli_err (cli s) = None.
Proof. eexists. split; [vm_compute; reflexivity|]. by vm_compute. Qed.

Example late_callback_lost :
  exists s, SampleApp.state (SampleApp.schedule ++ [LSetCallback 1 9; LQueue SampleApp.flush; LSend; LHandle; LPush; LRespond; LRecv]) = Some s /\
  map fst (calls (cli s)) = [5%nat] /\ released 1 (cli s) = true /\ map rr_cb (reqres (cli s)) = [Some 5%nat; Some 9%nat; None].
Proof. eexists. split; [vm_compute; reflexivity|]. by vm_compute. Qed.

(** ** The local client *)


