(* ===== verification/GoWire.v ===== *)
(** The go-wire codec (src/tendermint/go-wire): the writers and readers of int.go, byteslice.go, string.go, time.go
    and float.go, and the binary codec by reflection of wire.go and reflect.go.

    A writer is the bytes written so far and the first error; the target is a buffer in memory, whose writes do not fail.
    A reader is the bytes left, the number read and the first error.  Types are [rtype], a value of a type is [value]; Go's
    int and uint are 64 bits wide.  A float is its bits, a time its nanoseconds since 1970, as an integer of any size; a nil slice
    is told from an empty one.  The types registered for an
    interface are a table from its number.  Reading takes fuel; the JSON half of reflect.go is not modelled. *)
From S2P Require Import Prelude GoStrings GoBytes.
From stdpp Require Import base list.
Local Open Scope Z_scope.

(** ** Readers and writers *)

Inductive wire_err : Type :=
| ErrEOF | ErrUnexpectedEOF
| ErrInvalidBool | ErrVarintOverflow | ErrNegativeZero | ErrUvarintOverflow | ErrShortBuf
| ErrBinaryReadOverflow | ErrBinaryReadInvalidLength | ErrBinaryReadInvalidTimeNegative
| ErrBinaryReadInvalidTimeSubMillisecond | ErrBinaryWriteOverflow
| ErrUnregistered | ErrTypeByte | ErrPtrByte | ErrUnexpectedType | ErrNilPointer | ErrUnsafe | ErrLengthPrefix.

#[export] Instance wire_err_dec : EqDecision wire_err.
Proof. solve_decision. Defined.

Record writer := mkWriter { w_out : list Z; w_err : option wire_err }.
Record reader := mkReader { r_in : list Z; r_n : Z; r_err : option wire_err }.

Definition WriteTo (bz : list Z) (w : writer) : writer :=
  match w_err w with Some _ => w | None => mkWriter (w_out w ++ bz) None end.

(** [io.ReadFull] into a buffer of zeros. *)
Definition ReadFull (k : nat) (r : reader) : list Z * reader :=
  match r_err r with
  | Some _ => (replicate k 0, r)
  | None =>
      if (k <=? length (r_in r))%nat then (take k (r_in r), mkReader (drop k (r_in r)) (r_n r + Z.of_nat k) None)
      else (r_in r ++ replicate (k - length (r_in r)) 0,
            mkReader [] (r_n r + zlen (r_in r)) (Some (match r_in r with [] => ErrEOF | _ => ErrUnexpectedEOF end)))
  end.

(** [*err = e], and [setFirstErr]. *)
Definition fail_r (e : wire_err) (r : reader) : reader := mkReader (r_in r) (r_n r) (Some e).
Definition setFirstErr (e : wire_err) (r : reader) : reader := match r_err r with None => fail_r e r | Some _ => r end.
Definition fail_w (e : wire_err) (w : writer) : writer := mkWriter (w_out w) (Some e).

(** ** int.go *)

Definition WriteBool (b : bool) (w : writer) : writer := WriteTo [if b then 1 else 0] w.

Definition ReadBool (r : reader) : bool * reader :=
  let (buf, r) := ReadFull 1 r in
  match buf with
  | [0] => (false, r)
  | [1] => (true, r)
  | _ => (false, setFirstErr ErrInvalidBool r)
  end.

Definition WriteByte (b : Z) (w : writer) : writer := WriteTo [b] w.
Definition ReadByte (r : reader) : Z * reader := let (buf, r) := ReadFull 1 r in (be_val buf, r).

Definition WriteInt8 (i : Z) (w : writer) : writer := WriteByte (uN 8 i) w.
Definition ReadInt8 (r : reader) : Z * reader := let (b, r) := ReadByte r in (sN 8 b, r).
Definition WriteUint8 (i : Z) (w : writer) : writer := WriteByte i w.
Definition ReadUint8 (r : reader) : Z * reader := ReadByte r.

Definition WriteInt16 (i : Z) (w : writer) : writer := WriteTo (be_bytes 2 (uN 16 i)) w.
Definition ReadInt16 (r : reader) : Z * reader := let (buf, r) := ReadFull 2 r in (sN 16 (be_val buf), r).
Definition WriteUint16 (i : Z) (w : writer) : writer := WriteTo (be_bytes 2 i) w.
Definition ReadUint16 (r : reader) : Z * reader := let (buf, r) := ReadFull 2 r in (be_val buf, r).
Definition WriteInt32 (i : Z) (w : writer) : writer := WriteTo (be_bytes 4 (uN 32 i)) w.
Definition ReadInt32 (r : reader) : Z * reader := let (buf, r) := ReadFull 4 r in (sN 32 (be_val buf), r).
Definition WriteUint32 (i : Z) (w : writer) : writer := WriteTo (be_bytes 4 i) w.
Definition ReadUint32 (r : reader) : Z * reader := let (buf, r) := ReadFull 4 r in (be_val buf, r).
Definition WriteInt64 (i : Z) (w : writer) : writer := WriteTo (be_bytes 8 (uN 64 i)) w.
Definition ReadInt64 (r : reader) : Z * reader := let (buf, r) := ReadFull 8 r in (sN 64 (be_val buf), r).
Definition WriteUint64 (i : Z) (w : writer) : writer := WriteTo (be_bytes 8 i) w.
Definition ReadUint64 (r : reader) : Z * reader := let (buf, r) := ReadFull 8 r in (be_val buf, r).

(** The loops stop at the first error. *)
Fixpoint write_uint16s (iz : list Z) (w : writer) : writer :=
  match iz with
  | [] => w
  | i :: iz => let w := WriteUint16 i w in match w_err w with Some _ => w | None => write_uint16s iz w end
  end.
Definition WriteUint16s (iz : list Z) (w : writer) : writer := write_uint16s iz (WriteUint32 (uN 32 (zlen iz)) w).

Fixpoint read_uint16s (k : nat) (acc : list Z) (r : reader) : option (list Z) * reader :=
  match k with
  | O => (Some acc, r)
  | S k => let (ii, r) := ReadUint16 r in
           match r_err r with Some _ => (None, r) | None => read_uint16s k (acc ++ [ii]) r end
  end.
Definition ReadUint16s (r : reader) : option (list Z) * reader :=
  let (length, r) := ReadUint32 r in
  match r_err r with Some _ => (None, r) | None => read_uint16s (Z.to_nat length) [] r end.

Definition uvarintSize (i : Z) : Z :=
  if i =? 0 then 0 else if i <? 2 ^ 8 then 1 else if i <? 2 ^ 16 then 2 else if i <? 2 ^ 24 then 3
  else if i <? 2 ^ 32 then 4 else if i <? 2 ^ 40 then 5 else if i <? 2 ^ 48 then 6 else if i <? 2 ^ 56 then 7 else 8.

Definition UvarintSize (i : Z) : Z := uvarintSize i + 1.

(** The last [size] bytes of the eight of [i]. *)
Definition low_bytes (size i : Z) : list Z := drop (Z.to_nat (8 - size)) (be_bytes 8 i).

Definition WriteVarint (i : Z) (w : writer) : writer :=
  let negate := i <? 0 in
  let i := if negate then sN 64 (- i) else i in
  let size := uvarintSize (uN 64 i) in
  let w := WriteUint8 (if negate then size + 240 else size) w in
  if 0 <? size then WriteTo (low_bytes size (uN 64 i)) w else w.

Definition ReadVarint (r : reader) : Z * reader :=
  let (size, r) := ReadUint8 r in
  let negate := Z.shiftr size 4 =? 15 in
  let size := if negate then Z.land size 15 else size in
  if 8 <? size then (0, setFirstErr ErrVarintOverflow r)
  else if size =? 0 then (0, if negate then setFirstErr ErrNegativeZero r else r)
  else
    let (buf, r) := ReadFull (Z.to_nat size) r in
    let i := sN 64 (be_val buf) in
    (if negate then sN 64 (- i) else i, r).

Definition WriteUvarint (i : Z) (w : writer) : writer :=
  let size := uvarintSize i in
  let w := WriteUint8 size w in
  if 0 <? size then WriteTo (low_bytes size i) w else w.

Definition ReadUvarint (r : reader) : Z * reader :=
  let (size, r) := ReadUint8 r in
  if 8 <? size then (0, setFirstErr ErrUvarintOverflow r)
  else if size =? 0 then (0, r)
  else let (buf, r) := ReadFull (Z.to_nat size) r in (be_val buf, r).

(** Into and from a slice: the new slice, or the value, and the bytes used. *)
Definition put_at (k : nat) (bz buf : list Z) : list Z := take k buf ++ take (length buf - k) bz ++ drop (k + length bz) buf.

Definition PutVarint (buf : list Z) (i : Z) : (list Z * Z) + wire_err :=
  let negate := i <? 0 in
  let i := if negate then sN 64 (- i) else i in
  let size := uvarintSize (uN 64 i) in
  if zlen buf <? size + 1 then inr ErrShortBuf
  else
    let buf := put_at 0 [if negate then size + 240 else size] buf in
    inl (if 0 <? size then put_at 1 (low_bytes size (uN 64 i)) buf else buf, size + 1).

Definition GetVarint (buf : list Z) : (Z * Z) + wire_err :=
  match buf with
  | [] => inr ErrShortBuf
  | size :: rest =>
      let negate := Z.shiftr size 4 =? 15 in
      let size := if negate then Z.land size 15 else size in
      if 8 <? size then inr ErrVarintOverflow
      else if size =? 0 then if negate then inr ErrNegativeZero else inl (0, 1)
      else if zlen buf <? 1 + size then inr ErrShortBuf
      else
        let i := sN 64 (be_val (take (Z.to_nat size) rest)) in
        inl (if negate then sN 64 (- i) else i, size + 1)
  end.

Definition wire_PutUvarint (buf : list Z) (i : Z) : (list Z * Z) + wire_err :=
  let size := uvarintSize i in
  if zlen buf <? size + 1 then inr ErrShortBuf
  else
    let buf := put_at 0 [size] buf in
    inl (if 0 <? size then put_at 1 (low_bytes size i) buf else buf, size + 1).

Definition GetUvarint (buf : list Z) : (Z * Z) + wire_err :=
  match buf with
  | [] => inr ErrShortBuf
  | size :: rest =>
      if 8 <? size then inr ErrUvarintOverflow
      else if size =? 0 then inl (0, 1)
      else if zlen buf <? 1 + size then inr ErrShortBuf
      else inl (be_val (take (Z.to_nat size) rest), size + 1)
  end.

(** ** byteslice.go and string.go *)

Definition WriteByteSlice (bz : list Z) (w : writer) : writer := WriteTo bz (WriteVarint (zlen bz) w).

(** The limit [lmt] is for the whole message; zero is none. *)
Definition over_limit (lmt length : Z) (r : reader) : bool :=
  negb (lmt =? 0) && (lmt <? Z.max length (sN 64 (r_n r + length))).

(** [None] is a nil slice. *)
Definition ReadByteSlice (lmt : Z) (r : reader) : option (list Z) * reader :=
  let (length, r) := ReadVarint r in
  match r_err r with
  | Some _ => (None, r)
  | None =>
      if length <? 0 then (None, fail_r ErrBinaryReadInvalidLength r)
      else if 2147483647 <? length then (None, fail_r ErrBinaryReadOverflow r)
      else if over_limit lmt length r then (None, fail_r ErrBinaryReadOverflow r)
      else let (buf, r) := ReadFull (Z.to_nat length) r in (Some buf, r)
  end.

Definition PutByteSlice (buf bz : list Z) : (list Z * Z) + wire_err :=
  match PutVarint buf (zlen bz) with
  | inr e => inr e
  | inl (buf, n) => if zlen buf - n <? zlen bz then inr ErrBinaryWriteOverflow else inl (put_at (Z.to_nat n) bz buf, n + zlen bz)
  end.

Definition GetByteSlice (buf : list Z) : (list Z * Z) + wire_err :=
  match GetVarint buf with
  | inr e => inr e
  | inl (length, n) =>
      let buf := drop (Z.to_nat n) buf in
      if length <? 0 then inr ErrBinaryReadInvalidLength
      else if zlen buf <? length then inr ErrBinaryReadOverflow
      else inl (take (Z.to_nat length) buf, n + length)
  end.

Definition ByteSliceSize (bz : list Z) : Z := UvarintSize (zlen bz) + zlen bz.

Fixpoint write_slices (bzz : list (list Z)) (w : writer) : writer :=
  match bzz with
  | [] => w
  | bz :: bzz => let w := WriteByteSlice bz w in match w_err w with Some _ => w | None => write_slices bzz w end
  end.
Definition WriteByteSlices (bzz : list (list Z)) (w : writer) : writer := write_slices bzz (WriteVarint (zlen bzz) w).

Fixpoint read_slices (k : nat) (lmt : Z) (acc : list (option (list Z))) (r : reader) : option (list (option (list Z))) * reader :=
  match k with
  | O => (Some acc, r)
  | S k => let (bz, r) := ReadByteSlice lmt r in
           match r_err r with Some _ => (None, r) | None => read_slices k lmt (acc ++ [bz]) r end
  end.
Definition ReadByteSlices (lmt : Z) (r : reader) : option (list (option (list Z))) * reader :=
  let (length, r) := ReadVarint r in
  match r_err r with
  | Some _ => (None, r)
  | None =>
      if length <? 0 then (None, fail_r ErrBinaryReadInvalidLength r)
      else if over_limit lmt length r then (None, fail_r ErrBinaryReadOverflow r)
      else read_slices (Z.to_nat length) lmt [] r
  end.

Definition WriteString (s : list Z) (w : writer) : writer := WriteByteSlice s w.
Definition ReadString (lmt : Z) (r : reader) : list Z * reader := let (bz, r) := ReadByteSlice lmt r in (default [] bz, r).
Definition PutString (buf s : list Z) : (list Z * Z) + wire_err := PutByteSlice buf s.

(** [GetString] calls itself on its argument. *)
Fixpoint GetString (fuel : nat) (buf : list Z) : option ((list Z * Z) + wire_err) :=
  match fuel with O => None | S f => GetString f buf end.

(** ** time.go and float.go *)

(** [time.Time{}]: the first of January of the year 1. *)
Definition zero_time : Z := -62135596800 * 1000000000.

(** [UnixNano] is an int64, which wraps around outside of the years 1678 to 2262. *)
Definition WriteTime (t : Z) (w : writer) : res unit writer :=
  let nanosecs := sN 64 t in
  let millisecs := Z.quot nanosecs 1000000 in
  if nanosecs <? 0 then Panic else Ok (WriteInt64 (millisecs * 1000000) w).

Definition ReadTime (r : reader) : Z * reader :=
  let (t, r) := ReadInt64 r in
  if t <? 0 then (zero_time, fail_r ErrBinaryReadInvalidTimeNegative r)
  else if negb (t mod 1000000 =? 0) then (zero_time, fail_r ErrBinaryReadInvalidTimeSubMillisecond r)
  else (t, r).

Definition WriteFloat32 (f : Z) (w : writer) : writer := WriteUint32 f w.
Definition ReadFloat32 (r : reader) : Z * reader := ReadUint32 r.
Definition WriteFloat64 (f : Z) (w : writer) : writer := WriteUint64 f w.
Definition ReadFloat64 (r : reader) : Z * reader := ReadUint64 r.

(** A float32 that passes through a float64: a signalling NaN becomes quiet. *)
Definition quiet32 (b : Z) : Z :=
  if (Z.land (Z.shiftr b 23) 255 =? 255) && negb (Z.land b 8388607 =? 0) then Z.lor b 4194304 else b.

(** ** reflect.go: types *)

(** What a struct declares for a field: exported or not, its name and tags. *)
Record FieldTags := mkTags { exported : bool; field_name : list Z; tag_json : list Z; tag_binary : list Z; tag_wire : list Z }.

Inductive rtype : Type :=
| TInt64 | TInt32 | TInt16 | TInt8 | TInt
| TUint64 | TUint32 | TUint16 | TUint8 | TUint
| TBool | TFloat64 | TFloat32 | TString | TTime
| TPtr (elem : rtype)
| TArray (len : nat) (elem : rtype)
| TSlice (elem : rtype)
| TStruct (name : list Z) (fields : list (FieldTags * rtype))
| TInterface (id : nat)
| TOther.                                (* maps, channels, functions and complex numbers *)

Inductive value : Type :=
| VInt (i : Z)
| VUint (i : Z)
| VBool (b : bool)
| VFloat (bits : Z)
| VString (s : list Z)
| VTime (t : Z)
| VPtr (v : option value)
| VNil                                   (* a nil slice *)
| VBytes (bz : list Z)                   (* an array or slice of bytes *)
| VList (vs : list value)                (* any other array or slice *)
| VStruct (vs : list value)
| VIface (v : option (rtype * value)).

Record Options := mkOptions { JSONName : list Z; JSONOmitEmpty : bool; Varint : bool; Unsafe : bool }.

Definition zero_opts : Options := mkOptions [] false false false.

(** [None] skips the field. *)
Definition getOptionsFromField (f : FieldTags) : option Options :=
  if str_eqb (tag_json f) (bs "-") then None
  else
    let parts := Split (tag_json f) 44 in
    let name := match parts with p :: _ => if str_eqb p [] then field_name f else p | [] => field_name f end in
    let omit := match parts with _ :: p :: _ => str_eqb p (bs "omitempty") | _ => false end in
    Some (mkOptions name omit (str_eqb (tag_binary f) (bs "varint")) (str_eqb (tag_wire f) (bs "unsafe"))).

(** The fields of [MakeTypeInfo]: the exported ones that are not skipped. *)
Definition field_opts (f : FieldTags) : option Options := if exported f then getOptionsFromField f else None.

Definition is_byte (t : rtype) : bool := match t with TUint8 => true | _ => false end.

Definition rtype_dec : forall x y : rtype, {x = y} + {x <> y}.
Proof.
  fix IH 1. intros x y. decide equality; try apply Nat.eq_dec; try apply (List.list_eq_dec Z.eq_dec).
  apply List.list_eq_dec. intros [f t] [f' t']. destruct (IH t t') as [->|Ht]; [|right; congruence].
  destruct f as [f1 f2 f3 f4 f5], f' as [g1 g2 g3 g4 g5].
  destruct (Bool.bool_dec f1 g1) as [->|]; [|right; congruence].
  destruct (List.list_eq_dec Z.eq_dec f2 g2) as [->|]; [|right; congruence].
  destruct (List.list_eq_dec Z.eq_dec f3 g3) as [->|]; [|right; congruence].
  destruct (List.list_eq_dec Z.eq_dec f4 g4) as [->|]; [|right; congruence].
  destruct (List.list_eq_dec Z.eq_dec f5 g5) as [->|]; [|right; congruence].
  by left.
Defined.

(** The zero value of a type. *)
Fixpoint zero (t : rtype) : value :=
  match t with
  | TInt64 | TInt32 | TInt16 | TInt8 | TInt => VInt 0
  | TUint64 | TUint32 | TUint16 | TUint8 | TUint => VUint 0
  | TBool => VBool false
  | TFloat64 | TFloat32 => VFloat 0
  | TString => VString []
  | TTime => VTime zero_time
  | TPtr _ | TOther => VPtr None
  | TArray len elem => if is_byte elem then VBytes (replicate len 0) else VList (replicate len (zero elem))
  | TSlice _ => VNil
  | TStruct _ fields => VStruct (map (fun f => zero f.2) fields)
  | TInterface _ => VIface None
  end.

(** ** Interfaces *)

(** The two maps of a registered interface, as the list of registrations. *)
Definition table := list (Z * rtype).

Definition ByteToType (tb : table) (b : Z) : option rtype :=
  match find (fun e => e.1 =? b) tb with Some e => Some e.2 | None => None end.

(** A type registered twice keeps its last byte. *)
Definition TypeToByte (tb : table) (t : rtype) : option Z :=
  match find (fun e => if rtype_dec e.2 t then true else false) (rev tb) with Some e => Some e.1 | None => None end.

(** The loop of [RegisterInterface]; a zero or duplicate byte panics. *)
Fixpoint RegisterInterface (ctypes : list (Z * rtype)) (toType : table) : res unit table :=
  match ctypes with
  | [] => Ok toType
  | (b, crt) :: ctypes =>
      if b =? 0 then Panic
      else match ByteToType toType b with
           | Some _ => Panic
           | None => RegisterInterface ctypes (toType ++ [(b, crt)])
           end
  end.

(** ** The codec by reflection *)

Section Codec.
(** [typeInfos]: the table of a registered interface. *)
Context (reg : nat -> option table).

(** [writeReflectBinary].  [deref] says that the pointer before the value is already written: its target goes to the switch,
    which knows neither pointers nor interfaces. *)
Fixpoint writeReflectBinary (v : value) (deref : bool) (rt : rtype) (opts : Options) (w : writer) {struct v} : res unit writer :=
  match rt, v with
  | TInterface id, VIface o =>
      if deref then Panic else
      match o with
      | None => Ok (WriteByte 0 w)
      | Some (crt, cv) =>
          match reg id with
          | Some tb =>
              match TypeToByte tb crt with
              | None => Ok (fail_w ErrUnexpectedType w)
              | Some typeByte =>
                  match crt, cv with
                  | TPtr ct, VPtr None => Ok (fail_w ErrNilPointer w)
                  | TPtr ct, VPtr (Some x) => writeReflectBinary x false ct opts (WriteByte typeByte w)
                  | _, _ => writeReflectBinary cv false crt opts (WriteByte typeByte w)
                  end
              end
          | None => writeReflectBinary cv false crt opts w
          end
      end
  | TPtr ct, VPtr o =>
      if deref then Panic else
      match o with
      | None => Ok (WriteByte 0 w)
      | Some x => writeReflectBinary x true ct opts (WriteByte 1 w)
      end
  | TArray _ elem, VBytes bz => if is_byte elem then Ok (WriteTo bz w) else Panic
  | TArray _ elem, VList vs =>
      (fix write_elems (vs : list value) (w : writer) : res unit writer :=
         match vs with
         | [] => Ok w
         | x :: vs => let* w := writeReflectBinary x false elem opts w in write_elems vs w
         end) vs w
  | TSlice elem, VNil => Ok (if is_byte elem then WriteByteSlice [] w else WriteVarint 0 w)
  | TSlice elem, VBytes bz => if is_byte elem then Ok (WriteByteSlice bz w) else Panic
  | TSlice elem, VList vs =>
      (fix write_elems (vs : list value) (w : writer) : res unit writer :=
         match vs with
         | [] => Ok w
         | x :: vs => let* w := writeReflectBinary x false elem opts w in write_elems vs w
         end) vs (WriteVarint (zlen vs) w)
  | TTime, VTime t => WriteTime t w
  | TStruct _ fields, VStruct vs =>
      (fix write_fields (vs : list value) (fields : list (FieldTags * rtype)) (w : writer) : res unit writer :=
         match vs, fields with
         | x :: vs, (f, ft) :: fields =>
             match field_opts f with
             | Some o => let* w := writeReflectBinary x false ft o w in write_fields vs fields w
             | None => write_fields vs fields w
             end
         | _, _ => Ok w
         end) vs fields w
  | TString, VString s => Ok (WriteString s w)
  | TInt64, VInt i => Ok (if Varint opts then WriteVarint i w else WriteInt64 i w)
  | TInt32, VInt i => Ok (WriteInt32 i w)
  | TInt16, VInt i => Ok (WriteInt16 i w)
  | TInt8, VInt i => Ok (WriteInt8 i w)
  | TInt, VInt i => Ok (WriteVarint i w)
  | TUint64, VUint i => Ok (if Varint opts then WriteUvarint i w else WriteUint64 i w)
  | TUint32, VUint i => Ok (WriteUint32 i w)
  | TUint16, VUint i => Ok (WriteUint16 i w)
  | TUint8, VUint i => Ok (WriteUint8 i w)
  | TUint, VUint i => Ok (WriteUvarint i w)
  | TBool, VBool b => Ok (WriteUint8 (if b then 1 else 0) w)
  | TFloat64, VFloat b => Ok (if Unsafe opts then WriteFloat64 b w else fail_w ErrUnsafe w)
  | TFloat32, VFloat b => Ok (if Unsafe opts then WriteFloat32 (quiet32 b) w else fail_w ErrUnsafe w)
  | _, _ => Panic                        (* [TOther]; a value has its type otherwise *)
  end.

Definition WriteBinary (v : value) (rt : rtype) (w : writer) : res unit writer := writeReflectBinary v false rt zero_opts w.

Definition MarshalBinary (v : value) (rt : rtype) : res wire_err (list Z) :=
  match WriteBinary v rt (mkWriter [] None) with
  | Ok w => match w_err w with Some e => Err e | None => Ok (w_out w) end
  | _ => Panic
  end.

Definition WriteBinaryLengthPrefixed (v : value) (rt : rtype) (w : writer) : res unit writer :=
  let* buf := WriteBinary v rt (mkWriter [] (w_err w)) in
  Ok (WriteTo (w_out buf) (WriteVarint (zlen (w_out buf)) (mkWriter (w_out w) (w_err buf)))).

(** ** Reading *)

Definition ReadSliceChunkSize : Z := 1024.

(** After an element: an error, or the limit, ends the loop. *)
Definition stop_read (lmt : Z) (r : reader) : option reader :=
  match r_err r with
  | Some _ => Some r
  | None => if negb (lmt =? 0) && (lmt <? r_n r) then Some (fail_r ErrBinaryReadOverflow r) else None
  end.

(** [inl]: the elements read; [inr]: the loop returned early. *)
Fixpoint read_chunk (rd : value -> reader -> res unit (value * reader)) (olds : list value) (lmt : Z) (r : reader)
  : res unit ((list value * reader) + (list value * reader)) :=
  match olds with
  | [] => Ok (inl ([], r))
  | old :: olds =>
      let* p := rd old r in
      let (v, r) := p in
      match stop_read lmt r with
      | Some r => Ok (inr (v :: olds, r))
      | None =>
          let* q := read_chunk rd olds lmt r in
          Ok (match q with inl (vs, r) => inl (v :: vs, r) | inr (vs, r) => inr (v :: vs, r) end)
      end
  end.

(** The chunks of a slice, from chunk [i] on. *)
Fixpoint read_chunks (fuel : nat) (rd : value -> reader -> res unit (value * reader)) (z : value) (lmt length i : Z) (acc : list value)
  (r : reader) : res unit (list value * reader + reader) :=
  match fuel with
  | O => NoFuel
  | S f =>
      if i * ReadSliceChunkSize <? length then
        let l := Z.min ReadSliceChunkSize (length - i * ReadSliceChunkSize) in
        let* q := read_chunk rd (replicate (Z.to_nat l) z) lmt r in
        match q with
        | inr (_, r) => Ok (inr r)
        | inl (vs, r) => read_chunks f rd z lmt length (i + 1) (acc ++ vs) r
        end
      else Ok (inl (acc, r))
  end.

(** The fields of a struct: the skipped ones keep their values; errors do not stop the loop. *)
Fixpoint read_fields (rd : rtype -> Options -> value -> reader -> res unit (value * reader)) (fields : list (FieldTags * rtype))
  (olds : list value) (r : reader) : res unit (list value * reader) :=
  match fields, olds with
  | (f, ft) :: fields, old :: olds =>
      match field_opts f with
      | Some o =>
          let* p := rd ft o old r in
          let (v, r) := p in
          let* q := read_fields rd fields olds r in
          let (vs, r) := q in Ok (v :: vs, r)
      | None => let* q := read_fields rd fields olds r in let (vs, r) := q in Ok (old :: vs, r)
      end
  | _, _ => Ok (olds, r)
  end.

Definition of_int (p : Z * reader) : res unit (value * reader) := Ok (VInt p.1, p.2).
Definition of_uint (p : Z * reader) : res unit (value * reader) := Ok (VUint p.1, p.2).

(** [readReflectBinary] into a target that holds [old]. *)
Fixpoint readReflectBinary (fuel : nat) (deref : bool) (rt : rtype) (opts : Options) (lmt : Z) (old : value) (r : reader)
  : res unit (value * reader) :=
  match fuel with
  | O => NoFuel
  | S f =>
      match rt with
      | TInterface id =>
          if deref then Panic else
          match reg id with
          | None => Ok (old, fail_r ErrUnregistered r)
          | Some tb =>
              let (typeByte, r) := ReadByte r in
              match r_err r with
              | Some _ => Ok (old, r)
              | None =>
                  if typeByte =? 0 then Ok (old, r) else
                  match ByteToType tb typeByte with
                  | None => Ok (old, fail_r ErrTypeByte r)
                  | Some (TPtr ct) =>
                      let* p := readReflectBinary f false ct opts lmt (zero ct) r in
                      Ok (VIface (Some (TPtr ct, VPtr (Some p.1))), p.2)
                  | Some crt =>
                      let* p := readReflectBinary f false crt opts lmt (zero crt) r in
                      Ok (VIface (Some (crt, p.1)), p.2)
                  end
              end
          end
      | TPtr ct =>
          if deref then Panic else
          let (typeByte, r) := ReadByte r in
          match r_err r with
          | Some _ => Ok (old, r)
          | None =>
              if typeByte =? 0 then Ok (old, r)
              else if negb (typeByte =? 1) then Ok (old, fail_r ErrPtrByte r)
              else
                let target := match old with VPtr (Some x) => x | _ => zero ct end in
                let* p := readReflectBinary f true ct opts lmt target r in Ok (VPtr (Some p.1), p.2)
          end
      | TArray len elem =>
          if is_byte elem then
            let (buf, r) := ReadFull len r in
            match r_err r with Some _ => Ok (old, r) | None => Ok (VBytes buf, r) end
          else
            let olds := match old with VList vs => vs | _ => replicate len (zero elem) end in
            let* q := read_chunk (readReflectBinary f false elem opts lmt) olds lmt r in
            Ok (match q with inl (vs, r) => (VList vs, r) | inr (vs, r) => (VList vs, r) end)
      | TSlice elem =>
          if is_byte elem then let (bz, r) := ReadByteSlice lmt r in Ok (match bz with Some bz => VBytes bz | None => VNil end, r)
          else
            let (length, r) := ReadVarint r in
            let* q := read_chunks f (readReflectBinary f false elem opts lmt) (zero elem) lmt length 0 [] r in
            Ok (match q with inl (vs, r) => (VList vs, r) | inr r => (old, r) end)
      | TTime => let (t, r) := ReadTime r in Ok (VTime t, r)
      | TStruct _ fields =>
          let olds := match old with VStruct vs => vs | _ => map (fun f => zero f.2) fields end in
          let* q := read_fields (fun ft o => readReflectBinary f false ft o lmt) fields olds r in
          Ok (VStruct q.1, q.2)
      | TString => let (s, r) := ReadString lmt r in Ok (VString s, r)
      | TInt64 => of_int (if Varint opts then ReadVarint r else ReadInt64 r)
      | TInt32 => let (num, r) := ReadUint32 r in of_int (sN 32 num, r)
      | TInt16 => let (num, r) := ReadUint16 r in of_int (sN 16 num, r)
      | TInt8 => let (num, r) := ReadUint8 r in of_int (sN 8 num, r)
      | TInt => of_int (ReadVarint r)
      | TUint64 => if Varint opts then let (num, r) := ReadVarint r in of_uint (uN 64 num, r) else of_uint (ReadUint64 r)
      | TUint32 => of_uint (ReadUint32 r)
      | TUint16 => of_uint (ReadUint16 r)
      | TUint8 => of_uint (ReadUint8 r)
      | TUint => let (num, r) := ReadVarint r in of_uint (uN 64 num, r)
      | TBool => let (num, r) := ReadUint8 r in Ok (VBool (0 <? num), r)
      | TFloat64 =>
          if Unsafe opts then let (num, r) := ReadFloat64 r in Ok (VFloat num, r) else Ok (old, fail_r ErrUnsafe r)
      | TFloat32 =>
          if Unsafe opts then let (num, r) := ReadFloat32 r in Ok (VFloat (quiet32 num), r) else Ok (old, fail_r ErrUnsafe r)
      | TOther => Panic
      end
  end.

(** [ReadBinaryPtr] on a pointer to a value that holds [old]. *)
Definition ReadBinaryPtr (fuel : nat) (rt : rtype) (lmt : Z) (old : value) (r : reader) : res unit (value * reader) :=
  let* p := readReflectBinary fuel false rt zero_opts lmt old r in
  let (v, r) := p in
  if negb (lmt =? 0) && (lmt <? r_n r) && bool_decide (r_err r = None) then Ok (v, fail_r ErrBinaryReadOverflow r) else Ok (v, r).

Definition UnmarshalBinary (fuel : nat) (bz : list Z) (rt : rtype) (old : value) : res wire_err value :=
  match ReadBinaryPtr fuel rt (zlen bz) old (mkReader bz 0 None) with
  | Ok (v, r) => match r_err r with Some e => Err e | None => Ok v end
  | Err _ | Panic => Panic
  | NoFuel => NoFuel
  end.

Definition ReadBinaryPtrLengthPrefixed (fuel : nat) (rt : rtype) (lmt : Z) (old : value) (r : reader) : res unit (value * reader) :=
  let (length, r) := ReadVarint r in
  let nSave := r_n r in
  let* p := ReadBinaryPtr fuel rt lmt old r in
  let (v, r) := p in
  if negb (r_n r - nSave =? length) && bool_decide (r_err r = None) then Ok (v, fail_r ErrLengthPrefix r) else Ok (v, r).
End Codec.
