(* ===== verification/GoWireSpec.v ===== *)
(** The go-wire codec reads back what it writes: the integers and byte strings, then every value of a supported type up to
    a normal form; and the inputs on which it is not strict. *)
From S2P Require Import Prelude GoStrings GoBytes GoWire.
From stdpp Require Import base list.
Local Open Scope Z_scope.

(** ** Writers that append, readers that consume *)

Definition emits (f : writer -> writer) (code : list Z) : Prop := forall out, f (mkWriter out None) = mkWriter (out ++ code) None.

Definition takes {A} (rd : reader -> A * reader) (code : list Z) (x : A) : Prop :=
  forall rest n, rd (mkReader (code ++ rest) n None) = (x, mkReader rest (n + zlen code) None).

Lemma WriteTo_emits bz : emits (WriteTo bz) bz.
Proof. intros out. done. Qed.

Lemma ReadFull_takes k bz : length bz = k -> takes (ReadFull k) bz bz.
Proof.
  intros <- rest n. unfold ReadFull. cbn [r_err r_in r_n]. rewrite (proj2 (Nat.leb_le _ _)) by (rewrite length_app; lia).
  by rewrite take_app_length, drop_app_length.
Qed.

Lemma emits_app f g a b : emits f a -> emits g b -> emits (fun w => g (f w)) (a ++ b).
Proof. intros Hf Hg out. by rewrite Hf, Hg, app_assoc. Qed.

(** A reader that maps the value, and one that reads on. *)
Lemma takes_map {A B} (rd : reader -> A * reader) (g : A -> B) code x : takes rd code x ->
  takes (fun r => let (a, r) := rd r in (g a, r)) code (g x).
Proof. intros H rest n. by rewrite H. Qed.

Lemma takes_bind {A B} (rd : reader -> A * reader) (k : A -> reader -> B * reader) c1 c2 x y :
  takes rd c1 x -> takes (k x) c2 y -> takes (fun r => let (a, r) := rd r in k a r) (c1 ++ c2) y.
Proof. intros H1 H2 rest n. rewrite <- app_assoc, H1, H2, zlen_app. f_equal. f_equal. lia. Qed.

(** ** Integers *)

Lemma be_val_bytes_id m i : 0 <= i < 256 ^ Z.of_nat m -> be_val (be_bytes m i) = i.
Proof. intros H. rewrite be_val_bytes by lia. by apply Z.mod_small. Qed.

Lemma drop_be_bytes k : forall m i, drop k (be_bytes (k + m) i) = be_bytes m i.
Proof.
  intros m. induction m as [|m IH]; intros i.
  - rewrite Nat.add_0_r. apply drop_ge. by rewrite be_bytes_length.
  - rewrite Nat.add_succ_r. cbn [be_bytes]. rewrite drop_app_le by (rewrite be_bytes_length; lia). by rewrite IH.
Qed.

Lemma low_bytes_be size i : 0 <= size <= 8 -> low_bytes size i = be_bytes (Z.to_nat size) i.
Proof.
  intros H. unfold low_bytes. rewrite <- (drop_be_bytes (Z.to_nat (8 - size)) (Z.to_nat size)). do 2 f_equal. lia.
Qed.

Lemma uvarintSize_spec i : in_uN 64 i -> 0 <= uvarintSize i <= 8 /\ i < 256 ^ uvarintSize i /\ (uvarintSize i = 0 <-> i = 0).
Proof.
  unfold in_uN, uvarintSize. intros H. destruct (Z.eqb_spec i 0); [subst; cbn; lia|].
  repeat match goal with |- context [i <? ?b] => destruct (Z.ltb_spec i b) end; cbn; lia.
Qed.

Lemma ReadUint8_takes b : takes ReadUint8 [b] b.
Proof. intros rest n. unfold ReadUint8, ReadByte. rewrite (ReadFull_takes 1 [b]) by done. unfold be_val. cbn. by rewrite Z.add_0_l. Qed.

Lemma read_be_takes m i : 0 <= i < 256 ^ Z.of_nat m -> takes (fun r => let (buf, r) := ReadFull m r in (be_val buf, r)) (be_bytes m i) i.
Proof.
  intros H. rewrite <- (be_val_bytes_id m i) at 2 by done. apply takes_map. by apply ReadFull_takes, be_bytes_length.
Qed.

Lemma read_sbe_takes m w i : w = 8 * Z.of_nat m -> 1 <= w -> in_sN w i ->
  takes (fun r => let (buf, r) := ReadFull m r in (sN w (be_val buf), r)) (be_bytes m (uN w i)) i.
Proof.
  intros -> Hw H. rewrite <- (sN_uN (8 * Z.of_nat m) i) at 2 by (done || lia).
  rewrite <- (be_val_bytes_id m (uN (8 * Z.of_nat m) i)) at 2.
  - apply (takes_map _ (fun buf => sN (8 * Z.of_nat m) (be_val buf))). by apply ReadFull_takes, be_bytes_length.
  - rewrite pow256 by lia. apply uN_range. lia.
Qed.

(** The code of a varint. *)
Definition varint_code (i : Z) : list Z :=
  let m := uN 64 (Z.abs i) in let size := uvarintSize m in
  (if i <? 0 then size + 240 else size) :: be_bytes (Z.to_nat size) m.

Definition uvarint_code (i : Z) : list Z := uvarintSize i :: be_bytes (Z.to_nat (uvarintSize i)) i.

Lemma abs_u64 i : in_sN 64 i -> uN 64 (if i <? 0 then sN 64 (- i) else i) = uN 64 (Z.abs i) /\ 0 <= uN 64 (Z.abs i) <= 2 ^ 63.
Proof.
  unfold in_sN. intros H. destruct (Z.ltb_spec i 0).
  - rewrite Z.abs_neq by lia. rewrite (uN_id 64 (- i)) by (unfold in_uN; lia). split; [|lia].
    destruct (Z.eq_dec i (- 2 ^ 63)) as [->|]; [done|]. rewrite sN_id by (unfold in_sN; lia). apply uN_id. unfold in_uN. lia.
  - rewrite Z.abs_eq by lia. split; [done|]. rewrite uN_id by (unfold in_uN; lia). lia.
Qed.

Lemma write_sized size m : 0 <= size <= 8 -> forall b,
  emits (fun w => let w := WriteUint8 b w in if 0 <? size then WriteTo (low_bytes size m) w else w) (b :: be_bytes (Z.to_nat size) m).
Proof.
  intros H b out. unfold WriteUint8, WriteByte. rewrite WriteTo_emits. destruct (Z.ltb_spec 0 size).
  - rewrite low_bytes_be, WriteTo_emits, <- app_assoc by lia. done.
  - replace size with 0 by lia. done.
Qed.

Lemma WriteVarint_emits i : in_sN 64 i -> emits (WriteVarint i) (varint_code i).
Proof.
  intros H. destruct (abs_u64 i H) as [E Hr]. destruct (uvarintSize_spec (uN 64 (Z.abs i))) as [Hs _]; [apply uN_range; lia|].
  intros out. unfold WriteVarint, varint_code. rewrite E. by rewrite (write_sized _ _ Hs).
Qed.

Lemma WriteUvarint_emits i : in_uN 64 i -> emits (WriteUvarint i) (uvarint_code i).
Proof.
  intros H. destruct (uvarintSize_spec i H) as [Hs _]. intros out. unfold WriteUvarint, uvarint_code. by rewrite (write_sized _ _ Hs).
Qed.

(** The first byte of a code says the sign and the size. *)
Lemma size_byte size : 0 <= size <= 8 ->
  (Z.shiftr size 4 =? 15) = false /\ (Z.shiftr (size + 240) 4 =? 15) = true /\ Z.land (size + 240) 15 = size.
Proof.
  intros H. assert (size = 0 \/ size = 1 \/ size = 2 \/ size = 3 \/ size = 4 \/ size = 5 \/ size = 6 \/ size = 7 \/ size = 8) as D by lia.
  repeat destruct D as [->|D]; [done..|]. by subst.
Qed.

Lemma ReadVarint_sized neg m : in_uN 64 m -> (neg = true -> 0 < m) ->
  takes ReadVarint ((if neg : bool then uvarintSize m + 240 else uvarintSize m) :: be_bytes (Z.to_nat (uvarintSize m)) m)
    (if neg then sN 64 (- sN 64 m) else sN 64 m).
Proof.
  intros Hm Hneg rest n. destruct (uvarintSize_spec m Hm) as (Hs & Hlt & H0). set (size := uvarintSize m) in *.
  destruct (size_byte size Hs) as (B1 & B2 & B3). unfold ReadVarint. set (b := if neg then _ else _).
  change ((b :: be_bytes (Z.to_nat size) m) ++ rest) with ([b] ++ be_bytes (Z.to_nat size) m ++ rest).
  rewrite ReadUint8_takes, (zlen_cons b (be_bytes (Z.to_nat size) m)), be_bytes_zlen, Z2Nat.id by lia.
  replace (Z.shiftr b 4 =? 15) with neg by (unfold b; destruct neg; congruence).
  replace (if neg then Z.land b 15 else b) with size by (unfold b; destruct neg; congruence).
  rewrite (proj2 (Z.ltb_ge 8 size)) by lia. change (zlen [b]) with 1. destruct (Z.eqb_spec size 0) as [E|E].
  - destruct neg; [specialize (Hneg eq_refl); lia|]. replace m with 0 by lia. rewrite E. cbn. f_equal.
  - rewrite (ReadFull_takes (Z.to_nat size)), be_bytes_zlen, Z2Nat.id by (apply be_bytes_length || lia).
    rewrite be_val_bytes_id by (rewrite Z2Nat.id by lia; unfold in_uN in Hm; lia). f_equal. f_equal. lia.
Qed.

Lemma ReadVarint_takes_u i : in_uN 64 i -> takes ReadVarint (uvarint_code i) (sN 64 i).
Proof. intros H. by apply (ReadVarint_sized false). Qed.

Lemma ReadVarint_takes i : in_sN 64 i -> takes ReadVarint (varint_code i) i.
Proof.
  intros H. destruct (abs_u64 i H) as [_ Hr]. set (m := uN 64 (Z.abs i)) in *. assert (in_uN 64 m) as Hm by (unfold in_uN; lia).
  assert (m = Z.abs i) as Em by (apply uN_id; unfold in_uN; unfold in_sN in H; lia).
  assert (i = if i <? 0 then sN 64 (- sN 64 m) else sN 64 m) as Ei.
  { rewrite Em. destruct (Z.ltb_spec i 0); [|rewrite Z.abs_eq by lia; by rewrite sN_id]. rewrite Z.abs_neq by lia.
    destruct (Z.eq_dec i (- 2 ^ 63)) as [->|]; [done|]. unfold in_sN in H.
    rewrite (sN_id 64 (- i)), Z.opp_involutive by (unfold in_sN; lia). by rewrite sN_id by (unfold in_sN; lia). }
  rewrite Ei at 2. unfold varint_code. fold m. apply ReadVarint_sized; [done|]. intros Hn%Z.ltb_lt. lia.
Qed.

Lemma ReadUvarint_takes i : in_uN 64 i -> takes ReadUvarint (uvarint_code i) i.
Proof.
  intros Hm rest n. destruct (uvarintSize_spec i Hm) as (Hs & Hlt & H0). unfold uvarint_code. set (size := uvarintSize i) in *. unfold ReadUvarint.
  change ((size :: be_bytes (Z.to_nat size) i) ++ rest) with ([size] ++ be_bytes (Z.to_nat size) i ++ rest).
  rewrite ReadUint8_takes, (zlen_cons size (be_bytes (Z.to_nat size) i)), be_bytes_zlen, Z2Nat.id by lia.
  rewrite (proj2 (Z.ltb_ge 8 size)) by lia. change (zlen [size]) with 1. destruct (Z.eqb_spec size 0) as [E|E].
  - replace i with 0 by lia. rewrite E. cbn. f_equal.
  - rewrite (ReadFull_takes (Z.to_nat size)), be_bytes_zlen, Z2Nat.id by (apply be_bytes_length || lia).
    rewrite be_val_bytes_id by (rewrite Z2Nat.id by lia; unfold in_uN in Hm; lia). f_equal. f_equal. lia.
Qed.

(** ** Byte strings *)

Definition bytes_code (bz : list Z) : list Z := varint_code (zlen bz) ++ bz.

Lemma WriteByteSlice_emits bz : zlen bz < 2 ^ 63 -> emits (WriteByteSlice bz) (bytes_code bz).
Proof.
  intros H out. unfold WriteByteSlice, bytes_code. rewrite WriteVarint_emits by (unfold in_sN; pose proof (zlen_nonneg bz); lia).
  by rewrite WriteTo_emits, app_assoc.
Qed.

(** The limit leaves room for what is read up to [m]. *)
Definition within (lmt m : Z) : Prop := lmt = 0 \/ m <= lmt < 2 ^ 63.

Lemma ReadByteSlice_takes bz lmt rest n : zlen bz <= 2147483647 -> 0 <= n -> n + zlen (bytes_code bz) < 2 ^ 63 ->
  within lmt (n + zlen (bytes_code bz)) ->
  ReadByteSlice lmt (mkReader (bytes_code bz ++ rest) n None) = (Some bz, mkReader rest (n + zlen (bytes_code bz)) None).
Proof.
  intros Hl Hn Hb Hw. unfold bytes_code in *. pose proof (zlen_nonneg bz). pose proof (zlen_nonneg (varint_code (zlen bz))). rewrite zlen_app in *.
  unfold ReadByteSlice. rewrite <- app_assoc, ReadVarint_takes by (unfold in_sN; lia). cbn [r_err].
  rewrite (proj2 (Z.ltb_ge (zlen bz) 0)), (proj2 (Z.ltb_ge 2147483647 _)) by lia.
  replace (over_limit _ _ _) with false.
  - rewrite (ReadFull_takes (Z.to_nat (zlen bz))) by (unfold zlen; lia). f_equal. f_equal. lia.
  - symmetry. unfold over_limit. cbn [r_n]. destruct Hw as [->|Hw]; [done|]. rewrite sN_id by (unfold in_sN; lia).
    rewrite (proj2 (Z.ltb_ge lmt _)) by lia. apply andb_false_r.
Qed.

(** ** Values *)

Section value_induction.
Context (P : value -> Prop).
Context (HInt : forall i, P (VInt i)) (HUint : forall i, P (VUint i)) (HBool : forall b, P (VBool b)) (HFloat : forall b, P (VFloat b))
  (HString : forall s, P (VString s)) (HTime : forall t, P (VTime t)) (HNil : P (VPtr None)) (HPtr : forall v, P v -> P (VPtr (Some v)))
  (HNilS : P VNil) (HBytes : forall bz, P (VBytes bz)) (HList : forall vs, Forall P vs -> P (VList vs)) (HStruct : forall vs, Forall P vs -> P (VStruct vs))
  (HNilI : P (VIface None)) (HIface : forall t v, P v -> P (VIface (Some (t, v)))).

Fixpoint value_induct (v : value) : P v :=
  let all := fix all (vs : list value) : Forall P vs :=
    match vs with [] => List.Forall_nil P | x :: vs => @List.Forall_cons _ P x vs (value_induct x) (all vs) end in
  match v with
  | VInt i => HInt i | VUint i => HUint i | VBool b => HBool b | VFloat b => HFloat b | VString s => HString s | VTime t => HTime t
  | VPtr None => HNil | VPtr (Some v) => HPtr v (value_induct v) | VNil => HNilS | VBytes bz => HBytes bz
  | VList vs => HList vs (all vs) | VStruct vs => HStruct vs (all vs)
  | VIface None => HNilI | VIface (Some (t, v)) => HIface t v (value_induct v)
  end.
End value_induction.

(** The fuel a value needs. *)
Fixpoint vsize (v : value) : nat :=
  match v with
  | VPtr (Some v) | VIface (Some (_, v)) => S (vsize v)
  | VList vs | VStruct vs => S (S (list_sum (map vsize vs)))
  | VNil => 2
  | _ => 1
  end.

Lemma vsize_pos v : (1 <= vsize v)%nat.
Proof. destruct v as [| | | | | |[]| | | | |[[]|]]; cbn; lia. Qed.

Lemma vsize_length vs : (length vs <= list_sum (map vsize vs))%nat.
Proof.
  induction vs as [|v vs IH]; [done|]. change (S (length vs) <= vsize v + list_sum (map vsize vs))%nat. pose proof (vsize_pos v). lia.
Qed.

Section Typed.
Context (reg : nat -> option table).

(** The registered bytes are not zero and different. *)
Definition table_ok (tb : table) : Prop := NoDup (map fst tb) /\ Forall (fun e => 0 < e.1 < 256) tb.

(** [v] is a value of [rt] that the codec supports; [deref] says that it is the target of a pointer. *)
Fixpoint typed (v : value) (deref : bool) (rt : rtype) (opts : Options) {struct v} : Prop :=
  match rt, v with
  | TInterface id, VIface o =>
      deref = false /\ exists tb, reg id = Some tb /\
      match o with
      | None => True
      | Some (crt, cv) =>
          is_Some (TypeToByte tb crt) /\
          match crt, cv with
          | TPtr ct, VPtr None => False
          | TPtr ct, VPtr (Some x) => typed x false ct opts
          | _, _ => typed cv false crt opts
          end
      end
  | TPtr ct, VPtr o => deref = false /\ match o with None => True | Some x => typed x true ct opts end
  | TArray len elem, VBytes bz => is_byte elem = true /\ length bz = len
  | TArray len elem, VList vs =>
      is_byte elem = false /\ length vs = len /\
      (fix all (vs : list value) : Prop := match vs with [] => True | x :: vs => typed x false elem opts /\ all vs end) vs
  | TSlice _, VNil => True
  | TSlice elem, VBytes bz => is_byte elem = true /\ zlen bz <= 2147483647
  | TSlice elem, VList vs =>
      is_byte elem = false /\ zlen vs < 2 ^ 63 /\
      (fix all (vs : list value) : Prop := match vs with [] => True | x :: vs => typed x false elem opts /\ all vs end) vs
  | TTime, VTime t => 0 <= t < 2 ^ 63
  | TStruct _ fields, VStruct vs =>
      (fix all (vs : list value) (fields : list (FieldTags * rtype)) : Prop :=
         match vs, fields with
         | x :: vs, (f, ft) :: fields =>
             match field_opts f with Some o => typed x false ft o | None => True end /\ all vs fields
         | [], [] => True
         | _, _ => False
         end) vs fields
  | TString, VString s => zlen s <= 2147483647
  | TInt64, VInt i | TInt, VInt i => in_sN 64 i
  | TInt32, VInt i => in_sN 32 i
  | TInt16, VInt i => in_sN 16 i
  | TInt8, VInt i => in_sN 8 i
  | TUint64, VUint i | TUint, VUint i => in_uN 64 i
  | TUint32, VUint i => in_uN 32 i
  | TUint16, VUint i => in_uN 16 i
  | TUint8, VUint i => in_uN 8 i
  | TBool, VBool _ => True
  | TFloat64, VFloat b => Unsafe opts = true /\ in_uN 64 b
  | TFloat32, VFloat b => Unsafe opts = true /\ in_uN 32 b
  | _, _ => False
  end.

(** What comes back: empty slices for nil ones, times cut to the millisecond, quiet NaNs for signalling ones in 32 bits, and
    zero in the fields that are not written. *)
Fixpoint wnorm (v : value) (rt : rtype) {struct v} : value :=
  match rt, v with
  | TSlice elem, VNil => if is_byte elem then VBytes [] else VList []
  | TTime, VTime t => VTime (t / 1000000 * 1000000)
  | TFloat32, VFloat b => VFloat (quiet32 b)
  | TPtr ct, VPtr (Some x) => VPtr (Some (wnorm x ct))
  | TArray _ elem, VList vs | TSlice elem, VList vs => VList (map (fun x => wnorm x elem) vs)
  | TStruct _ fields, VStruct vs =>
      VStruct ((fix go (vs : list value) (fields : list (FieldTags * rtype)) : list value :=
                  match vs, fields with
                  | x :: vs, (f, ft) :: fields => match field_opts f with Some _ => wnorm x ft | None => zero ft end :: go vs fields
                  | _, _ => []
                  end) vs fields)
  | TInterface _, VIface (Some (crt, cv)) => VIface (Some (crt, wnorm cv crt))
  | _, _ => v
  end.

(** ** The tables of interfaces *)

Lemma TypeToByte_back tb t b : table_ok tb -> TypeToByte tb t = Some b -> ByteToType tb b = Some t /\ 0 < b < 256.
Proof.
  intros [Hnd Hr]. unfold TypeToByte, ByteToType. destruct (find _ (rev tb)) as [[b' t']|] eqn:E; [|done]. intros [= <-].
  apply find_some in E as [Hin Ht]. cbn in Ht. destruct (rtype_dec t' t) as [->|]; [|done]. apply in_rev in Hin.
  rewrite Forall_forall in Hr. specialize (Hr _ ltac:(by apply list_elem_of_In)). cbn in Hr. split; [|done].
  clear Hr Ht. induction tb as [|[c u] tb IH]; [done|]. cbn in *. inversion_clear Hnd as [|? ? Hc Hnd'].
  destruct Hin as [[= <- <-]|Hin]; [by rewrite Z.eqb_refl|]. destruct (Z.eqb_spec c b') as [->|]; [|by apply IH].
  destruct Hc. apply list_elem_of_In. by apply (in_map fst) in Hin.
Qed.

Lemma ByteToType_None tb b : ByteToType tb b = None -> b ∉ map fst tb.
Proof.
  unfold ByteToType. induction tb as [|[c u] tb IH]; cbn; [intros _; apply not_elem_of_nil|]. destruct (Z.eqb_spec c b) as [->|]; [done|].
  intros E. apply not_elem_of_cons. split; [congruence|by apply IH].
Qed.

(** What [RegisterInterface] accepts is a table. *)
Lemma wire_RegisterInterface_ok ctypes : forall tb0 tb, Forall (fun e => 0 <= e.1 < 256) ctypes -> table_ok tb0 ->
  RegisterInterface ctypes tb0 = Ok tb -> table_ok tb /\ tb = tb0 ++ ctypes.
Proof.
  induction ctypes as [|[b t] ctypes IH]; intros tb0 tb Hr H0; cbn; [intros [= <-]; by rewrite app_nil_r|].
  inversion_clear Hr as [|? ? Hb Hr']. cbn in Hb. destruct (Z.eqb_spec b 0); [done|].
  destruct (ByteToType tb0 b) eqn:E; [done|]. intros HR. apply IH in HR as [Hok ->]; [|done|].
  - split; [done|by rewrite <- app_assoc].
  - destruct H0 as [Hnd Hf]. split.
    + rewrite map_app. apply NoDup_app. split_and!; [done| |apply NoDup_singleton].
      intros x Hx ->%list_elem_of_singleton. by apply ByteToType_None in E.
    + apply Forall_app. split; [done|]. repeat constructor; cbn; lia.
Qed.

(** ** The codec *)

(** [code] is what is written for the value, and reads back into a zero target as its normal form. *)
Definition codes (v : value) (deref : bool) (rt : rtype) (opts : Options) (code : list Z) : Prop :=
  (forall out, writeReflectBinary reg v deref rt opts (mkWriter out None) = Ok (mkWriter (out ++ code) None)) /\
  (forall f lmt rest n, (vsize v <= f)%nat -> 0 <= n -> n + zlen code < 2 ^ 63 -> within lmt (n + zlen code) ->
     readReflectBinary reg f deref rt opts lmt (zero rt) (mkReader (code ++ rest) n None) = Ok (wnorm v rt, mkReader rest (n + zlen code) None)).

(** A value without parts. *)
Lemma codes_leaf v deref rt opts (wr : writer -> writer) (rd : reader -> Z * reader) (mk : Z -> value) code x : vsize v = 1%nat -> wnorm v rt = mk x ->
  (forall w, writeReflectBinary reg v deref rt opts w = Ok (wr w)) ->
  (forall f lmt r, readReflectBinary reg (S f) deref rt opts lmt (zero rt) r = Ok (mk (rd r).1, (rd r).2)) ->
  emits wr code -> takes rd code x -> codes v deref rt opts code.
Proof.
  intros Hv Hn Hw Hr He Ht. split.
  - intros out. by rewrite Hw, He.
  - intros [|f] lmt rest n Hf _ _ _; [lia|]. by rewrite Hr, Ht, Hn.
Qed.

Lemma within_le lmt a b : within lmt b -> a <= b -> within lmt a.
Proof. unfold within. lia. Qed.

Lemma stop_read_None lmt r : r_err r = None -> within lmt (r_n r) -> stop_read lmt r = None.
Proof.
  intros He [->|Hw]; unfold stop_read; rewrite He; [done|]. rewrite (proj2 (Z.ltb_ge lmt _)) by lia. by rewrite andb_false_r.
Qed.

(** A list of elements, one after the other. *)
Lemma elems_codes elem opts vs : Forall (fun v => exists code, codes v false elem opts code) vs ->
  exists cs, Forall2 (fun v c => codes v false elem opts c) vs cs.
Proof.
  induction 1 as [|v vs [c Hc] _ [cs IH]]; [by exists []|]. exists (c :: cs). by constructor.
Qed.

Lemma write_elems_ok elem opts vs cs : Forall2 (fun v c => codes v false elem opts c) vs cs -> forall out,
  (fix write_elems (vs : list value) (w : writer) : res unit writer :=
     match vs with [] => Ok w | x :: vs => let* w := writeReflectBinary reg x false elem opts w in write_elems vs w end) vs (mkWriter out None)
  = Ok (mkWriter (out ++ concat cs) None).
Proof.
  induction 1 as [|v c vs cs [Hw _] _ IH]; intros out; cbn [concat]; [by rewrite app_nil_r|]. rewrite Hw, IH. by rewrite <- app_assoc.
Qed.

Lemma read_chunk_ok elem opts f lmt vs cs : Forall2 (fun v c => codes v false elem opts c) vs cs -> (list_sum (map vsize vs) <= f)%nat ->
  forall rest n, 0 <= n -> n + zlen (concat cs) < 2 ^ 63 -> within lmt (n + zlen (concat cs)) ->
  read_chunk (readReflectBinary reg f false elem opts lmt) (replicate (length vs) (zero elem)) lmt (mkReader (concat cs ++ rest) n None)
  = Ok (inl (map (fun x => wnorm x elem) vs, mkReader rest (n + zlen (concat cs)) None)).
Proof.
  induction 1 as [|v c vs cs [_ Hr] _ IH]; intros Hf rest n Hn Hb Hw; cbn [length replicate read_chunk concat].
  - cbn. by rewrite Z.add_0_r.
  - change (vsize v + list_sum (map vsize vs) <= f)%nat in Hf. cbn [concat] in Hb, Hw. rewrite zlen_app in *. pose proof (zlen_nonneg c). pose proof (zlen_nonneg (concat cs)).
    rewrite <- app_assoc, Hr by (lia || (eapply within_le; [exact Hw|lia])).
    rewrite stop_read_None by (done || (cbn; eapply within_le; [exact Hw|lia])).
    rewrite IH by (lia || (eapply within_le; [exact Hw|lia])). do 3 f_equal. f_equal. lia.
Qed.

Lemma list_sum_app_le l k : (list_sum l <= list_sum (l ++ k) /\ list_sum k <= list_sum (l ++ k))%nat.
Proof. rewrite list_sum_app. lia. Qed.

Lemma read_chunks_ok elem opts f lmt length : forall k i acc vs cs, Forall2 (fun v c => codes v false elem opts c) vs cs ->
  (list_sum (map vsize vs) <= f)%nat -> (vs <> [] -> length = i * 1024 + zlen vs) -> (vs = [] -> length <= i * 1024) ->
  (S (List.length vs) <= k)%nat -> forall rest n, 0 <= n -> n + zlen (concat cs) < 2 ^ 63 -> within lmt (n + zlen (concat cs)) ->
  read_chunks k (readReflectBinary reg f false elem opts lmt) (zero elem) lmt length i acc (mkReader (concat cs ++ rest) n None)
  = Ok (inl (acc ++ map (fun x => wnorm x elem) vs, mkReader rest (n + zlen (concat cs)) None)).
Proof.
  induction k as [|k IH]; intros i acc vs cs HF Hf Hne He Hk rest n Hn Hb Hw; [lia|]. cbn [read_chunks]. unfold ReadSliceChunkSize.
  destruct vs as [|v vs'] eqn:Evs.
  { inversion HF; subst. rewrite (proj2 (Z.ltb_ge _ _)) by (specialize (He eq_refl); lia). cbn. by rewrite app_nil_r, Z.add_0_r. }
  rewrite <- Evs in *. assert (vs <> []) as Hvs by (by rewrite Evs). specialize (Hne Hvs).
  assert (0 < zlen vs) as Hpos by (rewrite Evs, zlen_cons; pose proof (zlen_nonneg vs'); lia). clear Evs v vs'.
  rewrite (proj2 (Z.ltb_lt _ _)) by lia. replace (length - i * 1024) with (zlen vs) by lia.
  set (l := Z.to_nat (Z.min 1024 (zlen vs))). assert (List.length (take l vs) = l) as Hl by (rewrite length_take; unfold l, zlen; lia).
  rewrite <- (take_drop l vs) in HF. apply Forall2_app_inv_l in HF as (cs1 & cs2 & HF1 & HF2 & ->). rewrite concat_app, zlen_app in *.
  pose proof (zlen_nonneg (concat cs1)). pose proof (zlen_nonneg (concat cs2)).
  assert (list_sum (map vsize (take l vs)) <= f /\ list_sum (map vsize (drop l vs)) <= f)%nat as [Hf1 Hf2].
  { rewrite <- (take_drop l vs), map_app in Hf. pose proof (list_sum_app_le (map vsize (take l vs)) (map vsize (drop l vs))). lia. }
  rewrite <- Hl at 1. rewrite <- app_assoc, (read_chunk_ok _ _ _ _ _ _ HF1) by (lia || (eapply within_le; [exact Hw|lia])).
  assert (List.length (drop l vs) = List.length vs - l)%nat as Hd by apply length_drop.
  assert (Z.of_nat l = Z.min 1024 (zlen vs)) as Hlz by (unfold l; lia). clearbody l. unfold zlen in Hlz, Hne, Hpos.
  rewrite (IH _ _ _ _ HF2 Hf2) by first [lia | eapply within_le; [exact Hw|lia]
    | intros Hz; apply (f_equal List.length) in Hz; cbn in Hz; lia
    | intros Hz; assert (List.length (drop l vs) <> 0)%nat by (by destruct (drop l vs)); unfold zlen; lia].
  rewrite <- app_assoc, <- map_app, take_drop. do 4 f_equal. lia.
Qed.

(** ** Values without parts *)

Lemma leaf_int i deref rt opts : typed (VInt i) deref rt opts -> exists code, codes (VInt i) deref rt opts code.
Proof.
  destruct rt; cbn; try done; intros H.
  - destruct (Varint opts) eqn:EV.
    + eexists. eapply (codes_leaf _ _ _ _ _ ReadVarint VInt _ i); [done..| |intros; cbn; rewrite EV; done|by apply WriteVarint_emits|by apply ReadVarint_takes].
      intros. cbn. by rewrite EV.
    + eexists. eapply (codes_leaf _ _ _ _ _ ReadInt64 VInt _ i); [done..| |intros; cbn; rewrite EV; done|apply WriteTo_emits|by apply read_sbe_takes].
      intros. cbn. by rewrite EV.
  - eexists. eapply (codes_leaf _ _ _ _ _ ReadUint32 (fun num => VInt (sN 32 num)) _ (uN 32 i)); [done|by rewrite sN_uN|done|intros; cbn; by destruct (ReadUint32 r)|apply WriteTo_emits|].
    apply (read_be_takes 4). apply (uN_range 32). lia.
  - eexists. eapply (codes_leaf _ _ _ _ _ ReadUint16 (fun num => VInt (sN 16 num)) _ (uN 16 i)); [done|by rewrite sN_uN|done|intros; cbn; by destruct (ReadUint16 r)|apply WriteTo_emits|].
    apply (read_be_takes 2). apply (uN_range 16). lia.
  - eexists. eapply (codes_leaf _ _ _ _ _ ReadUint8 (fun num => VInt (sN 8 num)) _ (uN 8 i)); [done|by rewrite sN_uN|done|intros; cbn; by destruct (ReadUint8 r)|apply WriteTo_emits|apply ReadUint8_takes].
  - eexists. eapply (codes_leaf _ _ _ _ _ ReadVarint VInt _ i); [done..|by apply WriteVarint_emits|by apply ReadVarint_takes].
Qed.

Lemma leaf_uint i deref rt opts : typed (VUint i) deref rt opts -> exists code, codes (VUint i) deref rt opts code.
Proof.
  destruct rt; cbn; try done; intros H.
  - destruct (Varint opts) eqn:EV.
    + eexists. eapply (codes_leaf _ _ _ _ _ ReadVarint (fun num => VUint (uN 64 num)) _ (sN 64 i));
        [done|by rewrite uN_sN|intros; cbn; by rewrite EV| |by apply WriteUvarint_emits|by apply ReadVarint_takes_u].
      intros. cbn. rewrite EV. by destruct (ReadVarint r).
    + eexists. eapply (codes_leaf _ _ _ _ _ ReadUint64 VUint _ i); [done..|intros; cbn; by rewrite EV|intros; cbn; by rewrite EV|apply WriteTo_emits|].
      by apply (read_be_takes 8).
  - eexists. eapply (codes_leaf _ _ _ _ _ ReadUint32 VUint _ i); [done..|apply WriteTo_emits|by apply (read_be_takes 4)].
  - eexists. eapply (codes_leaf _ _ _ _ _ ReadUint16 VUint _ i); [done..|apply WriteTo_emits|by apply (read_be_takes 2)].
  - eexists. eapply (codes_leaf _ _ _ _ _ ReadUint8 VUint _ i); [done..|apply WriteTo_emits|apply ReadUint8_takes].
  - eexists. eapply (codes_leaf _ _ _ _ _ ReadVarint (fun num => VUint (uN 64 num)) _ (sN 64 i));
      [done|by rewrite uN_sN|done|intros; cbn; by destruct (ReadVarint r)|by apply WriteUvarint_emits|by apply ReadVarint_takes_u].
Qed.

(** The bits of a NaN made quiet. *)
Lemma quiet32_idem b : quiet32 (quiet32 b) = quiet32 b.
Proof.
  assert (forall x, quiet32 x = x \/ quiet32 x = Z.lor x 4194304) as H by (intros x; unfold quiet32; destruct (_ && _); auto).
  destruct (H b) as [E|E]; rewrite !E; [done|]. destruct (H (Z.lor b 4194304)) as [->| ->]; [done|].
  by rewrite <- Z.lor_assoc, Z.lor_diag.
Qed.

Lemma quiet32_range b : in_uN 32 b -> in_uN 32 (quiet32 b).
Proof.
  unfold quiet32, in_uN. intros H. destruct (_ && _); [|done]. split; [apply Z.lor_nonneg; lia|].
  destruct (Z.eq_dec (Z.lor b 4194304) 0) as [->|Hne]; [done|]. assert (0 <= Z.lor b 4194304) by (apply Z.lor_nonneg; lia).
  apply Z.log2_lt_pow2; [lia|]. rewrite Z.log2_lor by lia. apply Z.max_lub_lt; [|done].
  destruct (Z.eq_dec b 0) as [->|]; [done|]. apply Z.log2_lt_pow2; lia.
Qed.

Lemma leaf_bool b deref rt opts : typed (VBool b) deref rt opts -> exists code, codes (VBool b) deref rt opts code.
Proof.
  destruct rt; cbn; try done; intros _. eexists.
  eapply (codes_leaf _ _ _ _ _ ReadUint8 (fun num => VBool (0 <? num)) _ (if b then 1 else 0)); [done|by destruct b|done| |apply WriteTo_emits|apply ReadUint8_takes].
  intros. cbn. by destruct (ReadUint8 r).
Qed.

Lemma leaf_float b deref rt opts : typed (VFloat b) deref rt opts -> exists code, codes (VFloat b) deref rt opts code.
Proof.
  destruct rt; cbn; try done; intros (HU & H).
  - eexists. eapply (codes_leaf _ _ _ _ _ ReadFloat64 VFloat _ b); [done..|intros; cbn; by rewrite HU| |apply WriteTo_emits|by apply (read_be_takes 8)].
    intros. cbn. rewrite HU. by destruct (ReadFloat64 r).
  - eexists. eapply (codes_leaf _ _ _ _ _ ReadFloat32 (fun num => VFloat (quiet32 num)) _ (quiet32 b));
      [done|cbn -[quiet32]; by rewrite quiet32_idem|intros; cbn -[quiet32]; rewrite HU; done| |apply WriteTo_emits|by apply (read_be_takes 4), quiet32_range].
    intros. cbn -[quiet32]. rewrite HU. by destruct (ReadFloat32 r).
Qed.

Lemma leaf_time t deref rt opts : typed (VTime t) deref rt opts -> exists code, codes (VTime t) deref rt opts code.
Proof.
  destruct rt; try done; intros Hr. cbn in Hr. set (m := t / 1000000 * 1000000). pose proof (Z.div_mod t 1000000 ltac:(lia)).
  pose proof (Z.mod_pos_bound t 1000000 ltac:(lia)). pose proof (Z.div_pos t 1000000 ltac:(lia) ltac:(lia)). eexists.
  eapply (codes_leaf _ _ _ _ (WriteInt64 m) ReadTime VTime _ m); [done..| |intros; cbn; by destruct (ReadTime r)|apply WriteTo_emits|].
  - intros. cbn [writeReflectBinary]. unfold WriteTime. rewrite sN_id by (unfold in_sN; lia). cbv zeta.
    rewrite (proj2 (Z.ltb_ge t 0)), Z.quot_div_nonneg by lia. done.
  - intros rest n. unfold ReadTime, ReadInt64. rewrite (read_sbe_takes 8 64) by (done || unfold in_sN, m; lia).
    rewrite (proj2 (Z.ltb_ge m 0)) by (unfold m; lia). unfold m. by rewrite Z.mod_mul.
Qed.

Lemma leaf_bytes bz deref rt opts : typed (VBytes bz) deref rt opts -> exists code, codes (VBytes bz) deref rt opts code.
Proof.
  destruct rt; try done; intros [Hb Hl]; cbn in Hl.
  - exists bz. split; [intros out; cbn; by rewrite Hb|]. intros [|f] lmt rest n Hf _ _ _; [cbn in Hf; lia|].
    cbn [readReflectBinary]. by rewrite Hb, (ReadFull_takes _ _ Hl).
  - exists (bytes_code bz). split; [intros out; cbn; rewrite Hb, WriteByteSlice_emits by lia; done|].
    intros [|f] lmt rest n Hf ? ? ?; [cbn in Hf; lia|]. cbn [readReflectBinary]. by rewrite Hb, ReadByteSlice_takes.
Qed.

Lemma leaf_nil deref rt opts : typed VNil deref rt opts -> exists code, codes VNil deref rt opts code.
Proof.
  destruct rt as [| | | | | | | | | | | | | | | | |elem| | |]; try done; intros _. destruct (is_byte elem) eqn:Hb.
  - exists (bytes_code []). split; [intros out; cbn; rewrite Hb, WriteByteSlice_emits by done; done|].
    intros [|f] lmt rest n Hf ? ? ?; [cbn in Hf; lia|]. cbn [readReflectBinary wnorm]. by rewrite Hb, ReadByteSlice_takes.
  - exists (varint_code 0). split; [intros out; cbn -[WriteVarint]; rewrite Hb, WriteVarint_emits by done; done|].
    intros [|f] lmt rest n Hf ? ? ?; [cbn in Hf; lia|]. cbn [readReflectBinary wnorm]. rewrite Hb, ReadVarint_takes by done.
    destruct f as [|f]; [cbn in Hf; lia|done].
Qed.

Lemma leaf_string s deref rt opts : typed (VString s) deref rt opts -> exists code, codes (VString s) deref rt opts code.
Proof.
  destruct rt; try done; cbn; intros Hl. exists (bytes_code s). split.
  - intros out. cbn. unfold WriteString. by rewrite WriteByteSlice_emits by lia.
  - intros [|f] lmt rest n Hf ? ? ?; [cbn in Hf; lia|]. cbn [readReflectBinary]. unfold ReadString. by rewrite ReadByteSlice_takes.
Qed.

(** ** Values with parts *)

Abbreviation codable v := (forall deref rt opts, typed v deref rt opts -> exists code, codes v deref rt opts code).

Lemma typed_elems elem opts vs : Forall (fun v => codable v) vs ->
  (fix all (vs : list value) : Prop := match vs with [] => True | x :: vs => typed x false elem opts /\ all vs end) vs ->
  exists cs, Forall2 (fun v c => codes v false elem opts c) vs cs.
Proof.
  intros HF Ht. apply elems_codes. induction HF as [|v vs Hv _ IH]; [constructor|]. constructor; [apply Hv, Ht|apply IH, Ht].
Qed.

Lemma codes_list vs deref rt opts : Forall (fun v => codable v) vs -> typed (VList vs) deref rt opts -> exists code, codes (VList vs) deref rt opts code.
Proof.
  intros HF. destruct rt; try done; intros (Hb & Hl & Ht); destruct (typed_elems _ _ _ HF Ht) as [cs Hcs].
  - exists (concat cs). split; [intros out; by apply write_elems_ok|]. intros [|f] lmt rest n Hf H0 Hn Hw; [cbn in Hf; lia|].
    cbn [readReflectBinary zero]. rewrite Hb, <- Hl. change (S (S (list_sum (map vsize vs))) <= S f)%nat in Hf.
    by rewrite (read_chunk_ok _ _ _ _ _ _ Hcs) by (done || lia).
  - exists (varint_code (zlen vs) ++ concat cs). pose proof (zlen_nonneg vs). assert (in_sN 64 (zlen vs)) as Hr by (unfold in_sN; lia). split.
    + intros out. cbn [writeReflectBinary]. rewrite WriteVarint_emits by done. rewrite app_assoc. by apply write_elems_ok.
    + intros [|f] lmt rest n Hf H0 Hn Hw; [cbn in Hf; lia|]. cbn [readReflectBinary]. change (S (S (list_sum (map vsize vs))) <= S f)%nat in Hf.
      rewrite zlen_app in *. pose proof (zlen_nonneg (varint_code (zlen vs))). rewrite Hb, <- app_assoc, ReadVarint_takes by done.
      rewrite (read_chunks_ok _ _ _ _ _ _ _ _ _ _ Hcs) by first [lia | intros _; lia | eapply within_le; [exact Hw|lia] | by intros Ez; rewrite Ez | pose proof (vsize_length vs); lia].
      cbn. do 3 f_equal. lia.
Qed.

Definition wnorm_fields :=
  fix go (vs : list value) (fields : list (FieldTags * rtype)) : list value :=
    match vs, fields with
    | x :: vs, (f, ft) :: fields => match field_opts f with Some _ => wnorm x ft | None => zero ft end :: go vs fields
    | _, _ => []
    end.

(** The fields of a struct: the skipped ones are zero. *)
Lemma fields_codes vs : Forall (fun v => codable v) vs -> forall fields,
  (fix all (vs : list value) (fields : list (FieldTags * rtype)) : Prop :=
     match vs, fields with
     | x :: vs, (f, ft) :: fields => match field_opts f with Some o => typed x false ft o | None => True end /\ all vs fields
     | [], [] => True
     | _, _ => False
     end) vs fields ->
  exists code,
  (forall out, (fix write_fields (vs : list value) (fields : list (FieldTags * rtype)) (w : writer) : res unit writer :=
         match vs, fields with
         | x :: vs, (f, ft) :: fields =>
             match field_opts f with
             | Some o => let* w := writeReflectBinary reg x false ft o w in write_fields vs fields w
             | None => write_fields vs fields w
             end
         | _, _ => Ok w
         end) vs fields (mkWriter out None) = Ok (mkWriter (out ++ code) None)) /\
  (forall f lmt rest n, (list_sum (map vsize vs) <= f)%nat -> 0 <= n -> n + zlen code < 2 ^ 63 -> within lmt (n + zlen code) ->
     read_fields (fun ft o => readReflectBinary reg f false ft o lmt) fields (map (fun f => zero f.2) fields) (mkReader (code ++ rest) n None)
     = Ok (wnorm_fields vs fields, mkReader rest (n + zlen code) None)).
Proof.
  induction 1 as [|v vs Hv _ IH]; intros [|[t ft] fields]; try done.
  { intros _. exists []. split; intros; [by rewrite app_nil_r|]. cbn. by rewrite Z.add_0_r. }
  intros [Hx Hall]. destruct (IH _ Hall) as (c2 & Hw2 & Hr2). cbn [read_fields map snd wnorm_fields]. destruct (field_opts t) as [o|].
  - destruct (Hv _ _ _ Hx) as (c1 & Hw1 & Hr1). exists (c1 ++ c2). split; [intros out; by rewrite Hw1, Hw2, app_assoc|].
    intros f lmt rest n Hf H0 Hn Hw. change (vsize v + list_sum (map vsize vs) <= f)%nat in Hf. rewrite zlen_app in *.
    pose proof (zlen_nonneg c1). pose proof (zlen_nonneg c2).
    rewrite <- app_assoc, Hr1, Hr2 by first [lia | eapply within_le; [exact Hw|lia]]. do 3 f_equal. lia.
  - exists c2. split; [done|]. intros f lmt rest n Hf H0 Hn Hw. change (vsize v + list_sum (map vsize vs) <= f)%nat in Hf.
    by rewrite Hr2 by (done || lia).
Qed.

Lemma codes_struct vs deref rt opts : Forall (fun v => codable v) vs -> typed (VStruct vs) deref rt opts -> exists code, codes (VStruct vs) deref rt opts code.
Proof.
  intros HF. destruct rt; try done; intros Ht. destruct (fields_codes _ HF _ Ht) as (code & Hw & Hr). exists code. split; [done|].
  intros [|f] lmt rest n Hf H0 Hn Hl; [cbn in Hf; lia|]. change (S (S (list_sum (map vsize vs))) <= S f)%nat in Hf.
  cbn [readReflectBinary zero]. by rewrite Hr by (done || lia).
Qed.

(** A byte before the value. *)
Lemma codes_byte v b deref rt opts : (exists code, codes v deref rt opts code) -> exists code, 
  (forall out, writeReflectBinary reg v deref rt opts (WriteByte b (mkWriter out None)) = Ok (mkWriter (out ++ b :: code) None)) /\
  (forall f lmt rest n, (vsize v <= f)%nat -> 0 <= n -> n + zlen (b :: code) < 2 ^ 63 -> within lmt (n + zlen (b :: code)) ->
     ReadByte (mkReader ((b :: code) ++ rest) n None) = (b, mkReader (code ++ rest) (n + 1) None) /\
     readReflectBinary reg f deref rt opts lmt (zero rt) (mkReader (code ++ rest) (n + 1) None) = Ok (wnorm v rt, mkReader rest (n + zlen (b :: code)) None)).
Proof.
  intros (code & Hw & Hr). exists code. split; [intros out; unfold WriteByte; by rewrite WriteTo_emits, Hw, <- app_assoc|].
  intros f lmt rest n Hf H0 Hn Hl. rewrite zlen_cons in *. split; [apply (ReadUint8_takes b)|].
  rewrite Hr by first [lia | eapply within_le; [exact Hl|lia]]. do 3 f_equal. lia.
Qed.

Lemma codes_ptr o deref rt opts : match o with Some x => codable x | None => True end -> typed (VPtr o) deref rt opts ->
  exists code, codes (VPtr o) deref rt opts code.
Proof.
  intros Hx. destruct rt; try done; intros [-> Ht]. destruct o as [x|].
  - destruct (codes_byte x 1 _ _ _ (Hx _ _ _ Ht)) as (code & Hw & Hr). exists (1 :: code). split; [done|].
    intros [|f] lmt rest n Hf H0 Hn Hl; [cbn in Hf; lia|]. cbn in Hf. destruct (Hr f lmt rest n) as [E1 E2]; [lia|done..|].
    cbn [readReflectBinary zero]. rewrite E1. cbn [r_err Z.eqb negb]. change (negb (1 =? 1)) with false. by rewrite E2.
  - exists [0]. split; [done|]. intros [|f] lmt rest n Hf H0 Hn Hl; [cbn in Hf; lia|]. cbn [readReflectBinary zero]. by rewrite (ReadUint8_takes 0).
Qed.

Context (Hreg : forall id tb, reg id = Some tb -> table_ok tb).

(** A concrete value behind the type byte of its interface. *)
Lemma codes_concrete id tb crt x ct opts b : reg id = Some tb -> TypeToByte tb crt = Some b -> (exists code, codes x false ct opts code) ->
  exists code, (forall out, writeReflectBinary reg x false ct opts (WriteByte b (mkWriter out None)) = Ok (mkWriter (out ++ code) None)) /\
  forall f lmt rest n, (vsize x <= f)%nat -> 0 <= n -> n + zlen code < 2 ^ 63 -> within lmt (n + zlen code) ->
    readReflectBinary reg (S f) false (TInterface id) opts lmt (VIface None) (mkReader (code ++ rest) n None)
    = match crt with
      | TPtr ct' => let* p := readReflectBinary reg f false ct' opts lmt (zero ct') (mkReader (drop 1 code ++ rest) (n + 1) None) in
                    Ok (VIface (Some (crt, VPtr (Some p.1))), p.2)
      | _ => let* p := readReflectBinary reg f false crt opts lmt (zero crt) (mkReader (drop 1 code ++ rest) (n + 1) None) in
             Ok (VIface (Some (crt, p.1)), p.2)
      end /\
    readReflectBinary reg f false ct opts lmt (zero ct) (mkReader (drop 1 code ++ rest) (n + 1) None) = Ok (wnorm x ct, mkReader rest (n + zlen code) None).
Proof.
  intros Hid Hb Hx. destruct (TypeToByte_back _ _ _ (Hreg _ _ Hid) Hb) as [Hback Hpos]. destruct (codes_byte x b _ _ _ Hx) as (code & Hw & Hr).
  exists (b :: code). split; [done|]. intros f lmt rest n Hf H0 Hn Hl. destruct (Hr f lmt rest n) as [E1 E2]; [done..|]. split; [|exact E2].
  cbn [readReflectBinary]. rewrite Hid, E1. cbn [r_err]. rewrite (proj2 (Z.eqb_neq b 0)), Hback by lia. by destruct crt.
Qed.

Lemma codes_iface o deref rt opts :
  match o with Some (_, cv) => codable cv /\ match cv with VPtr (Some x) => codable x | _ => True end | None => True end ->
  typed (VIface o) deref rt opts -> exists code, codes (VIface o) deref rt opts code.
Proof.
  intros Hx. destruct rt as [| | | | | | | | | | | | | | | | | | |id|]; try done. intros (-> & tb & Hid & Ht). destruct o as [[crt cv]|].
  - destruct Ht as [[b Hb] Ht], Hx as [Hcv Hx].
    assert ((exists ct x, crt = TPtr ct /\ cv = VPtr (Some x) /\ typed x false ct opts) \/ (forall ct, crt <> TPtr ct) /\ typed cv false crt opts) as D.
    { destruct crt; try (by right). left. destruct cv as [| | | | | |[x|]| | | | |]; cbn in Ht; try done. by exists crt, x. }
    destruct D as [(ct & x & -> & -> & Htx)|[Hnp Htc]].
    + destruct (codes_concrete id tb (TPtr ct) x ct opts b) as (code & Hw & Hr); [by try apply Hx..|]. exists code.
      split; [intros out; cbn [writeReflectBinary]; by rewrite Hid, Hb, Hw|]. intros [|f] lmt rest n Hf H0 Hn Hl; [cbn in Hf; lia|].
      cbn in Hf. destruct (Hr f lmt rest n) as [E1 E2]; [lia|done..|]. cbn [zero]. by rewrite E1, E2.
    + destruct (codes_concrete id tb crt cv crt opts b) as (code & Hw & Hr); [by try apply Hcv..|]. exists code.
      split; [intros out; cbn [writeReflectBinary]; rewrite Hid, Hb, <- Hw; destruct crt; try done; by destruct (Hnp crt)|].
      intros [|f] lmt rest n Hf H0 Hn Hl; [cbn in Hf; lia|]. cbn in Hf. destruct (Hr f lmt rest n) as [E1 E2]; [lia|done..|].
      cbn [zero]. rewrite E1. destruct crt; try (by destruct (Hnp crt)); by rewrite E2.
  - exists [0]. split; [done|]. intros [|f] lmt rest n Hf H0 Hn Hl; [cbn in Hf; lia|]. cbn [readReflectBinary zero].
    by rewrite Hid, (ReadUint8_takes 0).
Qed.

Lemma all_codable v : codable v /\ match v with VPtr (Some x) => codable x | _ => True end.
Proof.
  induction v using value_induct; split; try done; intros deref rt opts; try
  first [apply leaf_int | apply leaf_uint | apply leaf_bool | apply leaf_float | apply leaf_string | apply leaf_nil | apply leaf_time | apply leaf_bytes | by apply codes_ptr | by apply codes_iface].
  - apply codes_ptr. apply IHv.
  - by apply IHv.
  - apply codes_list. eapply Forall_impl; [done|]. by intros ? [].
  - apply codes_struct. eapply Forall_impl; [done|]. by intros ? [].
Qed.
End Typed.

(** ** Slices in place *)

(** What is put at the start of a buffer. *)
Lemma put_at_twice b c buf : (length (b :: c) <= length buf)%nat -> put_at 1 c (put_at 0 [b] buf) = (b :: c) ++ drop (length (b :: c)) buf.
Proof.
  intros H. destruct buf as [|x buf]; [cbn in H; lia|]. cbn in H. unfold put_at. cbn. rewrite !Nat.sub_0_r, take_0, drop_0.
  cbn. by rewrite take_nil, take_ge by (cbn; lia).
Qed.

Lemma PutVarint_code buf i : in_sN 64 i -> PutVarint buf i =
  let code := varint_code i in if zlen buf <? zlen code then inr ErrShortBuf else inl (code ++ drop (length code) buf, zlen code).
Proof.
  intros H. destruct (abs_u64 i H) as [E Hr]. unfold PutVarint. rewrite E. unfold varint_code.
  set (m := uN 64 (Z.abs i)) in *. destruct (uvarintSize_spec m) as [Hs _]; [unfold in_uN; lia|]. set (size := uvarintSize m) in *. cbn zeta.
  set (b := if i <? 0 then size + 240 else size).
  rewrite zlen_cons, be_bytes_zlen, Z2Nat.id, (Z.add_comm 1 size) by lia.
  destruct (Z.ltb_spec (zlen buf) (size + 1)) as [|Hz]; [done|]. f_equal. f_equal. unfold zlen in Hz. destruct (Z.ltb_spec 0 size).
  - rewrite low_bytes_be by lia. apply put_at_twice. cbn. rewrite be_bytes_length. lia.
  - replace size with 0 by lia. destruct buf; [cbn in Hz; lia|]. unfold put_at. cbn. by rewrite ?take_nil, ?drop_0.
Qed.

(** Reading from a slice is reading from a reader on it; only the errors differ at its end. *)
Definition get_result (p : Z * reader) : (Z * Z) + wire_err :=
  match r_err p.2 with
  | None => inl (p.1, r_n p.2)
  | Some ErrEOF | Some ErrUnexpectedEOF => inr ErrShortBuf
  | Some e => inr e
  end.

Lemma get_sized size rest (g : Z -> Z) : 0 < size ->
  get_result (let (buf, r) := ReadFull (Z.to_nat size) (mkReader rest 1 None) in (g (be_val buf), r))
  = if 1 + zlen rest <? 1 + size then inr ErrShortBuf else inl (g (be_val (take (Z.to_nat size) rest)), size + 1).
Proof.
  intros H. unfold ReadFull. cbn [r_err r_in r_n]. unfold zlen. destruct (Nat.leb_spec (Z.to_nat size) (length rest)).
  - rewrite (proj2 (Z.ltb_ge _ _)) by lia. unfold get_result. cbn [r_err fst snd r_n]. do 2 f_equal. lia.
  - rewrite (proj2 (Z.ltb_lt _ _)) by lia. by destruct rest.
Qed.

Lemma GetVarint_Read buf : bytes_ok buf -> GetVarint buf = get_result (ReadVarint (mkReader buf 0 None)).
Proof.
  intros Hok. destruct buf as [|b rest]; [done|]. unfold ReadVarint. change (b :: rest) with ([b] ++ rest) at 2. rewrite ReadUint8_takes.
  unfold GetVarint. rewrite zlen_cons. set (neg := _ =? 15). set (size := if neg then _ else _).
  assert (0 <= size) as Hs.
  { inversion_clear Hok as [|? ? Hb _]. unfold byte_ok in Hb. unfold size. destruct neg; [|lia]. apply Z.land_nonneg. lia. }
  destruct (Z.ltb_spec 8 size); [done|]. destruct (Z.eqb_spec size 0); [by destruct neg|].
  symmetry. apply (get_sized size rest (fun x => if neg then sN 64 (- sN 64 x) else sN 64 x)). lia.
Qed.

Lemma GetUvarint_Read buf : bytes_ok buf -> GetUvarint buf = get_result (ReadUvarint (mkReader buf 0 None)).
Proof.
  intros Hok. destruct buf as [|size rest]; [done|]. inversion_clear Hok as [|? ? Hb _]. unfold byte_ok in Hb.
  unfold ReadUvarint. change (size :: rest) with ([size] ++ rest) at 2. rewrite ReadUint8_takes. unfold GetUvarint. rewrite zlen_cons.
  destruct (Z.ltb_spec 8 size); [done|]. destruct (Z.eqb_spec size 0); [done|]. symmetry. apply (get_sized size rest (fun x => x)). lia.
Qed.

Lemma varint_code_ok i : in_sN 64 i -> bytes_ok (varint_code i).
Proof.
  intros H. destruct (abs_u64 i H) as [_ Hr]. unfold varint_code. destruct (uvarintSize_spec (uN 64 (Z.abs i))) as [Hs _]; [unfold in_uN; lia|].
  constructor; [unfold byte_ok; destruct (i <? 0); lia|]. apply be_bytes_ok.
Qed.

Lemma GetVarint_code i rest : in_sN 64 i -> bytes_ok rest -> GetVarint (varint_code i ++ rest) = inl (i, zlen (varint_code i)).
Proof.
  intros H Hr. rewrite GetVarint_Read by (apply Forall_app; split; [by apply varint_code_ok|done]). by rewrite ReadVarint_takes.
Qed.

Lemma PutByteSlice_code buf bz : zlen bz < 2 ^ 63 -> zlen (bytes_code bz) <= zlen buf ->
  PutByteSlice buf bz = inl (bytes_code bz ++ drop (length (bytes_code bz)) buf, zlen (bytes_code bz)).
Proof.
  intros Hb Hl. pose proof (zlen_nonneg bz). unfold PutByteSlice. rewrite PutVarint_code by (unfold in_sN; lia). unfold bytes_code in *.
  set (c := varint_code (zlen bz)) in *. cbn zeta. rewrite zlen_app in *. rewrite (proj2 (Z.ltb_ge _ _)) by lia.
  rewrite zlen_app. unfold zlen in *. rewrite length_drop, (proj2 (Z.ltb_ge _ _)) by lia. f_equal. f_equal. unfold put_at.
  rewrite Nat2Z.id, take_app_length, length_app, length_drop, take_ge by lia.
  rewrite <- app_assoc. do 2 f_equal. rewrite drop_app_add, drop_drop, length_app. done.
Qed.

Lemma GetByteSlice_code bz rest : zlen bz < 2 ^ 63 -> bytes_ok bz -> bytes_ok rest ->
  GetByteSlice (bytes_code bz ++ rest) = inl (bz, zlen (bytes_code bz)).
Proof.
  intros Hl Hb Hr. pose proof (zlen_nonneg bz). pose proof (zlen_nonneg rest). unfold GetByteSlice, bytes_code.
  rewrite <- app_assoc, GetVarint_code by (unfold in_sN; lia || by apply Forall_app). rewrite (proj2 (Z.ltb_ge _ 0)) by lia.
  rewrite drop_app_zlen, zlen_app, (proj2 (Z.ltb_ge _ _)) by lia. by rewrite take_app_zlen, zlen_app.
Qed.

Lemma ByteSliceSize_code bz : zlen bz < 2 ^ 63 -> ByteSliceSize bz = zlen (bytes_code bz).
Proof.
  intros H. pose proof (zlen_nonneg bz). unfold ByteSliceSize, UvarintSize, bytes_code, varint_code. rewrite Z.abs_eq, uN_id by (unfold in_uN; lia).
  destruct (uvarintSize_spec (zlen bz)) as [Hs _]; [unfold in_uN; lia|]. rewrite zlen_app, zlen_cons, be_bytes_zlen by lia. lia.
Qed.

(** ** The properties *)

(** The tables of [RegisterInterface]. *)
Definition registered (reg : nat -> option table) : Prop :=
  forall id tb, reg id = Some tb -> exists ctypes, Forall (fun e => 0 <= e.1 < 256) ctypes /\ RegisterInterface ctypes [] = Ok tb.

Lemma registered_ok reg : registered reg -> forall id tb, reg id = Some tb -> table_ok tb.
Proof.
  intros H id tb E. destruct (H id tb E) as (ctypes & Hr & HR). apply (wire_RegisterInterface_ok ctypes [] tb); [done| |done].
  split; [apply NoDup_nil_2|constructor].
Qed.

Lemma ReadBinaryPtr_codes reg v rt code : codes reg v false rt zero_opts code -> forall fuel lmt rest n, (vsize v <= fuel)%nat -> 0 <= n ->
  n + zlen code < 2 ^ 63 -> within lmt (n + zlen code) ->
  ReadBinaryPtr reg fuel rt lmt (zero rt) (mkReader (code ++ rest) n None) = Ok (wnorm v rt, mkReader rest (n + zlen code) None).
Proof.
  intros [_ Hr] fuel lmt rest n Hf H0 Hn Hw. unfold ReadBinaryPtr. rewrite Hr by done. cbn [r_n]. destruct Hw as [->|Hw]; [done|].
  rewrite (proj2 (Z.ltb_ge lmt _)) by lia. by rewrite andb_false_r.
Qed.

(** C20: a value that [typed] describes is always written, and what is written reads back into a new variable as the
    value in the form [wnorm]: nil slices as empty ones, times cut to the millisecond, signalling 32-bit NaNs as quiet ones,
    and zero in the struct fields that are not written.  This is so for [UnmarshalBinary] after [MarshalBinary] and for the
    length-prefixed form, which also leaves what follows it in the reader.  [typed] covers structs with their tags, slices,
    arrays, pointers, the interfaces of registered types and the basic types; it leaves out the values that the code
    refuses or panics on: times before 1970 or after 2262, a nil pointer in an interface, interfaces and types that are not
    registered, floats without the tag that allows them, pointers to pointers or interfaces, strings of 2^31 bytes. *)
Theorem wire_roundtrip reg v rt : registered reg -> typed reg v false rt zero_opts ->
  exists bz, MarshalBinary reg v rt = Ok bz /\
  (zlen bz < 2 ^ 62 ->
    (forall fuel, (vsize v <= fuel)%nat -> UnmarshalBinary reg fuel bz rt (zero rt) = Ok (wnorm v rt)) /\
    WriteBinaryLengthPrefixed reg v rt (mkWriter [] None) = Ok (mkWriter (bytes_code bz) None) /\
    (forall fuel lmt rest, (vsize v <= fuel)%nat -> within lmt (zlen (bytes_code bz)) ->
       ReadBinaryPtrLengthPrefixed reg fuel rt lmt (zero rt) (mkReader (bytes_code bz ++ rest) 0 None)
       = Ok (wnorm v rt, mkReader rest (zlen (bytes_code bz)) None))).
Proof.
  intros Hreg Ht. destruct (proj1 (all_codable reg (registered_ok _ Hreg) v) _ _ _ Ht) as (code & Hc). exists code.
  pose proof Hc as [Hw _]. unfold MarshalBinary, WriteBinaryLengthPrefixed, WriteBinary. cbn [w_out w_err]. rewrite Hw. split; [done|].
  intros Hz. pose proof (zlen_nonneg code). split_and!.
  - intros fuel Hf. unfold UnmarshalBinary. rewrite <- (app_nil_r code) at 2. rewrite (ReadBinaryPtr_codes _ _ _ _ Hc) by (done || unfold within; lia). done.
  - f_equal. by apply (WriteByteSlice_emits code ltac:(lia) []).
  - intros fuel lmt rest Hf Hl. unfold ReadBinaryPtrLengthPrefixed, bytes_code in *. rewrite zlen_app in *.
    rewrite <- app_assoc, ReadVarint_takes by (unfold in_sN; lia). destruct (uvarintSize_spec (uN 64 (Z.abs (zlen code)))) as [Hs _]; [apply uN_range; lia|].
    assert (0 <= zlen (varint_code (zlen code)) <= 9) as Hv.
    { unfold varint_code. rewrite zlen_cons, be_bytes_zlen by lia. lia. }
    rewrite (ReadBinaryPtr_codes _ _ _ _ Hc) by (done || lia || (eapply within_le; [exact Hl|lia])). cbn [r_n].
    replace (_ - _ =? _) with true by (symmetry; apply Z.eqb_eq; lia). done.
Qed.

(** A message with a tagged, a skipped and an unexported field, a slice, a time, a pointer and two interfaces. *)
Definition tags (name json binary : list Z) : FieldTags := mkTags true name json binary [].
Definition coin_t : rtype := TStruct (bs "Coin") [(tags (bs "Denom") [] [], TString); (tags (bs "Amount") [] (bs "varint"), TInt64)].
Definition sample_reg (id : nat) : option table := match id with O => Some [(1, TPtr coin_t); (2, TUint16)] | _ => None end.
Definition sample_t : rtype := TStruct (bs "Tx")
  [(tags (bs "Nonce") (bs "nonce,omitempty") [], TUint); (tags (bs "Cache") (bs "-") [], TInt); (mkTags false (bs "lock") [] [] [], TBool);
   (tags (bs "Coins") [] [], TSlice coin_t); (tags (bs "When") [] [], TTime); (tags (bs "Next") [] [], TPtr coin_t);
   (tags (bs "Payload") [] [], TInterface 0); (tags (bs "Extra") [] [], TInterface 0); (tags (bs "Hash") [] [], TArray 2 TUint8)].
Definition coin (denom : list Z) (amount : Z) : value := VStruct [VString denom; VInt amount].
Definition sample_v : value := VStruct
  [VUint 300; VInt 8; VBool true; VList [coin (bs "atom") 7; coin (bs "bit") (-2)]; VTime 5000001; VPtr None;
   VIface (Some (TPtr coin_t, VPtr (Some (coin [] 0)))); VIface (Some (TUint16, VUint 9)); VBytes [171; 205]].

Lemma wire_roundtrip_witness : exists bz, MarshalBinary sample_reg sample_v sample_t = Ok bz /\
  UnmarshalBinary sample_reg 60 bz sample_t (zero sample_t) = Ok (wnorm sample_v sample_t).
Proof.
  destruct (wire_roundtrip sample_reg sample_v sample_t) as (bz & HM & HU).
  - intros [|id] tb; [|done]. intros [= <-]. exists [(1, TPtr coin_t); (2, TUint16)]. split; [repeat constructor; cbn; lia|done].
  - cbn. unfold in_uN, in_sN, is_Some, zlen. repeat first [reflexivity | progress cbn | lia | done | eexists | split].
  - exists bz. split; [done|]. apply HU; [|cbn; lia]. vm_compute in HM. injection HM as <-. done.
Defined.

(** Where the codec is not strict, or fails.  A time before 1970 panics, the zero time among them.  [GetString] never returns.  A zero byte for a pointer or an interface leaves the target as
    it was.  A slice of negative length is empty, any byte above zero is true, and a negative varint is read into an unsigned
    integer.  Leading zeros in a varint are accepted.  A pointer to a pointer cannot be written; an interface that is not registered can be written but not read. *)
Theorem wire_lax :
  (forall fuel buf, GetString fuel buf = None) /\
  (forall reg t, -2 ^ 63 <= t < 0 -> MarshalBinary reg (VTime t) TTime = Panic) /\
  (forall reg, MarshalBinary reg (VTime zero_time) TTime = Panic) /\
  (forall reg fuel ct x, UnmarshalBinary reg (S fuel) [0] (TPtr ct) (VPtr (Some x)) = Ok (VPtr (Some x))) /\
  (forall reg fuel id tb x, reg id = Some tb -> UnmarshalBinary reg (S fuel) [0] (TInterface id) x = Ok x) /\
  (forall reg fuel elem old, is_byte elem = false -> UnmarshalBinary reg (S (S fuel)) [241; 1] (TSlice elem) old = Ok (VList [])) /\
  (forall reg fuel old, UnmarshalBinary reg (S fuel) [2] TBool old = Ok (VBool true) /\
     r_err (ReadBool (mkReader [2] 0 None)).2 = Some ErrInvalidBool) /\
  (forall reg fuel old, UnmarshalBinary reg (S fuel) [241; 1] TUint old = Ok (VUint (2 ^ 64 - 1))) /\
  ReadVarint (mkReader [2; 0; 5] 0 None) = (5, mkReader [] 3 None) /\
  (forall reg x ct, MarshalBinary reg (VPtr (Some (VPtr x))) (TPtr (TPtr ct)) = Panic) /\
  (forall reg fuel id v, reg id = None -> MarshalBinary reg (VIface (Some (TUint8, VUint v))) (TInterface id) = Ok [v] /\
     UnmarshalBinary reg (S fuel) [v] (TInterface id) (VIface None) = Err ErrUnregistered).
Proof.
  split_and!.
  - induction fuel as [|f IH]; intros buf; [done|]. apply IH.
  - intros reg t Ht. unfold MarshalBinary, WriteBinary. cbn [writeReflectBinary]. unfold WriteTime. rewrite sN_id by (unfold in_sN; lia).
    by rewrite (proj2 (Z.ltb_lt t 0)) by lia.
  - done.
  - done.
  - intros reg fuel id tb x E. unfold UnmarshalBinary, ReadBinaryPtr. cbn [readReflectBinary]. by rewrite E.
  - intros reg fuel elem old E. unfold UnmarshalBinary, ReadBinaryPtr. cbn [readReflectBinary]. by rewrite E.
  - done.
  - done.
  - done.
  - done.
  - intros reg fuel id v E. unfold MarshalBinary, WriteBinary, UnmarshalBinary, ReadBinaryPtr. cbn [writeReflectBinary readReflectBinary]. by rewrite E.
Qed.
